(* ===== verification/_CoqProject ===== *)
-Q . S2P
Prelude.v
CString.v
Words.v
JsonDoc.v
PanelJson.v
Config.v
Portal.v
Mqtt.v
WebSocket.v
Display.v
Startup.v
System.v
AudioSettings.v
Ota.v
Status.v
Dashboard.v
Lines.v
Wifi.v
AssistJson.v
AssistSession.v
Markdown.v
AssistAudio.v
Process.v
Listener.v
AssistRuntime.v
ConstantTime.v
Base64.v
Asn1Parse.v
Asn1Write.v
HashStream.v
ShaRounds.v
Sha256.v
Sha512.v
Sha1.v
MdDigests.v
Ripemd160.v
Md.v
Kdf.v
AesTables.v
Aes.v
AesModes.v
Blocks.v
Ghash.v
Gcm.v
CtrDrbg.v
ChaCha20.v
Poly1305.v
ChachaPoly.v
Limbs.v
Bignum.v
BignumDiv.v
MpiCt.v
Montgomery.v
ExpMod.v
BignumGcd.v
BignumText.v
Primes.v
BignumPrime.v
