(* ===== verification/Prelude.v ===== *)
(** * A verification library for the HA-LVGL panel

    The program is a wall panel for Home Assistant: a C++ application
    (src/src) on LVGL, with a web portal that runs as CGI processes of the same
    binary, an MQTT client, a WebSocket client over TLS, a voice assistant that
    runs in a child process, and the cryptographic library it links
    (src/mbedtls, Mbed TLS 2.28).  This library models the parts below in Gallina
    and proves what makes them correct.  This file holds what all the others
    share: bytes, machine widths, results with error codes, list lemmas, tactics.

    ** The panel (src/src)

    - [JsonDoc], [PanelJson]: the text functions main.cpp reads and writes JSON
      with ([parse_json_value], [json_escape], ...).  [JsonDoc] states once, for
      any writer that fulfils the class [Escaper], when a search for a quoted key
      finds the member and not the inside of a value.
    - [Config]: [load_configuration] and [save_configuration] with the states of
      the disk; [load_save_roundtrip], [save_atomic].
    - [Portal]: [cgi_config_main] from the body of the request to the file.
      [portal_panel_agree] composes it with [Config]: the panel loads what the
      portal accepted.
    - [Status]: [cgi_status_main] and the requests to the REST interface
      ([ha_request], [btn_event_cb]).
    - [Mqtt]: mqtt_client.cpp.  The packets, the socket loops, and the life cycle
      of a connection as a step relation in which the loop thread, the threads that
      publish, [stop] and [start] interleave at every call that sends or shares
      state; [connection_starts_with_connect] holds for all interleavings and says
      which late publishes can come before CONNECT.
    - [WebSocket]: the client of [ws_thread_loop]: upgrade, frames, events.
    - [Display]: backlight, touch, screen saver, automatic brightness (hal.cpp and
      main.cpp), with the two threads that fade the backlight, whose checks and
      writes are separate steps; [fades_end_in_range].
    - [Startup]: [main] up to its loop, the timer of the onboarding, the settings
      that are changed on the panel, and the control center.  It composes
      [Config], [Portal] and [Display]: [onboarding_completes] follows a request of
      the portal to the panel's dashboard and over a restart, [start_settles] is
      the termination of the start, [start_levels_ok] says that the display starts
      where [Display] needs it.
    - [System]: the panel and the processes of the portal over one file, with
      restarts between any two steps and processes killed inside a save;
      [shared_state_well_formed] is the invariant both rely on.
    - [AudioSettings]: the sound and microphone screens and the volume of the
      control center: settings, files and mixer commands, some of which are left to
      threads; [audio_settings_persist], on the variables, the files and what the
      switches show.
    - [Dashboard]: the two entity buttons, which the polls, the messages of
      [WebSocket] and clicks change from several threads; it composes [WebSocket]
      and [Status].  [dashboard_converges] says, for honest replies and messages,
      when the buttons show what Home Assistant holds and that they can come to it
      from every state; messages that name an entity the panel misreads
      ([prefix_misread]) are part of the model.
    - [Ota]: the update over the air, as the sequence of the disk's states.
    - [Wifi]: the list of networks, the status and the commands of a connection,
      from what wpa_cli prints; [wifi_scan_correct], [connect_commands_quoted].
    - The voice assistant.  [AssistAudio] cuts the microphone's stream into frames
      and the detector's output into lines ([Lines]); [AssistRuntime] is the state
      machine of main.cpp that starts the listener, the recordings and the
      pipeline, with the assist and microphone screens that take the microphone;
      [AssistSession] is the child process that talks to Home Assistant;
      [AssistJson] is the line protocol between the child and its parent;
      [Markdown] prepares and reveals the answer.
      [Process] is the parent's side of the system calls (pipes, fork, poll, kill,
      waitpid), as a writer of the trace of its events; [Listener] the resources
      of the two classes that run the microphone's processes.
      [Process.assist_end_to_end] composes the parent with the child and the line
      protocol, from the recording to the result.

    State that several handlers share is a record with one field per global
    variable ([Config], [AssistRuntime.State], [Display], ...); a handler is a
    function on it whose branches are the early returns of the code; threads are
    interleaved by step relations over the actions the code does between two
    points where another thread can run.  What the outside gives (the clock,
    sockets, files, child processes) is an argument: a record of outcomes or a
    script of replies, over which the theorems quantify.

    ** Mbed TLS (src/mbedtls/library)

    - [Words]: common.h.  [ConstantTime]: constant_time.c.  [Base64]: base64.c.
      [Asn1Parse], [Asn1Write]: asn1parse.c, asn1write.c.
    - [HashStream] is what the digests share: a context, [update] and [finish],
      proved once against the class [HashAlgo]/[HashLaws] to compute the padded
      Merkle-Damgard hash.  [ShaRounds], [Sha256], [Sha512], [Sha1], [MdDigests]
      (MD5, MD4) and [Ripemd160] are its instances: the unrolled compression
      functions, related to the rounds of the standards.
    - [Md]: md.c.  [DigestLaws] is what a digest promises; HMAC and, in [Kdf],
      HKDF and PBKDF2 are proved against it, for every digest the library has.
    - [AesTables], [Aes], [AesModes]: aes.c.  The tables as the constants of the
      source, as [aes_gen_tables] computes them and in the build with fewer tables,
      against GF(2^8); the key schedules and the table-driven rounds against the
      cipher of FIPS 197; CBC, CFB, OFB, CTR and XTS, whose theorems use the cipher
      only through [Aes.enc_ctx] and [Aes.dec_ctx].
    - [Ghash], [Gcm]: gcm.c, over any cipher of 16-byte blocks that fulfils the
      class [BlockCipherLaws] (AES is its instance): the 4-bit tables against the
      multiplication in GF(2^128), and the streaming context and the one-shot
      functions against NIST SP 800-38D.  [Blocks] has the lemmas on strings cut
      into blocks of 16.
    - [CtrDrbg]: ctr_drbg.c, the random generator of the panel's TLS connections,
      for every source of entropy ([EntropyLaws]) and course of calls, against the
      working state of NIST SP 800-90A.
    - [Limbs], [Bignum], [BignumDiv], [MpiCt], [Montgomery], [ExpMod],
      [BignumGcd], [BignumText], [Primes], [BignumPrime]: bignum.c, with the
      functions of constant_time.c on big numbers. [Limbs] has the loops over
      arrays of 64-bit limbs and the number [mag] they stand for; an [mpi] is a
      sign and its limbs, and every operation is related to the one on [Z] that
      [val] gives, with the room it needs in the destination:
      [mpi_arithmetic_correct], [mpi_division_correct], [exp_mod_correct] (the
      sliding window over Montgomery's multiplication, whose form is studied with
      a setoid of congruence modulo N), [gcd_and_inverse_correct],
      [random_in_range] for any generator, and the round trips of the bytes and of
      the text. [Primes] has Fermat's theorem and the strong test, of which
      [primality_test_correct], [primes_accepted] and [gen_prime_correct] speak.
      An operation whose source aliases its destination is called with the same
      value twice.
    - [ChaCha20], [Poly1305], [ChachaPoly]: the cipher, the authenticator on
      32-bit limbs, and the AEAD context of RFC 8439 that drives both.

    ** What the theorems show

    Round trips: configuration, form values, addresses, the child's result lines,
    MQTT commands, Base64, ASN.1 algorithm identifiers, big numbers as bytes and
    as text.  Refinements of abstract
    specifications: the integers of any size, frames of RFC 6455, CONNECT of MQTT 3.1.1, the digests of
    FIPS 180-4, RFC 1321 and RFC 1320, HMAC, HKDF, PBKDF2, AES, GCM, CTR_DRBG and
    ChaCha20-Poly1305 of their standards, with every cut of the input into
    pieces.  Safety in every interleaving: one pipeline at a time with the
    microphone off, nothing before CONNECT on a connection but publishes that read
    the old connection's state, no audio before authentication, no write of the
    configuration but on success, no unauthenticated plaintext, every descriptor
    closed once and every child reaped or handed to a reaper, and no signal to a
    process that was waited for.  Safety of the two writers of files when their
    process is killed at any point ([save_atomic], [ota_recoverable]); a loss of
    power is not covered, since the code does not flush what it writes.  Termination and liveness: the start settles
    after at most one restart, fades end and the automatic brightness settles, a capture ends within ten seconds, the binary
    algorithms on big numbers end within the bits of their arguments.  Bounds: history, recordings, frames, levels.

    Some theorems hold under a hypothesis that names a defect of the code, and
    the lemma next to it shows the behaviour without the hypothesis (a value equal
    to a key in [Config.shadowed_key_misread], the apostrophe of [Wifi.ssid_injection], the
    change of the portal that [Startup.lost_update] loses, the constants of
    [CtrDrbg.random_without_entropy], the switches of
    [AudioSettings.microphone_switches_misrouted], the order of
    [AudioSettings.volume_race], the file of [AudioSettings.unopened_setting_lost],
    the wide divisor of [Division.mod_int_wide], the negative base of
    [ExpMod.exp_mod_negative_base], the sign that [Text.file_loses_sign] loses, the
    code 1 of [Prime.small_safe_prime]).  Others hold of all behaviours, the
    unwanted ones included, which a lemma exhibits: [Mqtt.publish_can_precede_connect],
    [Dashboard.prefix_misread], [Display.stale_write], [System.screen_port_unchecked].

    ** Fuel and bounds

    Loops of the code that are not structural recurse on a fuel whose initial
    value is written in the definition and derived from the input: the length of
    the bytes that are left (each turn takes at least one), the number of blocks,
    the number of bytes of a key, the number of bits of a big number.  The
    corrections of one digit of a quotient and the loops that bring a remainder
    into range have constants (8 turns and 2), of which at most three and one are
    used.  The search for a prime has no bound in the code: its fuel is an argument,
    the number of candidates, and its theorem holds for every fuel and says when it
    is used up.  No theorem assumes that fuel suffices: the
    results are stated for the definitions with that fuel and are the full ones.
    Integers have their width where the code computes with a fixed one ([u8],
    [u16], [u32], [u64], [s32]); lengths are bounded by hypotheses such as
    [zlen p < 2 ^ 32] where a counter of the code would wrap.

    ** What is not modelled

    The LVGL screens (construction and styles of widgets, the pages of to-do
    lists and system information), fonts and pictures; failures of
    [unlink] and [execv] at the start; the
    frame buffer and SDL output and the floating-point filter of the light
    sensor; curl, wpa_cli, amixer and other programs the panel runs, of which only
    the command or the outcome appears; the TLS, X.509, PSA and public-key
    parts of Mbed TLS, its block ciphers but AES, its modes CCM and
    CMAC, its entropy pool and HMAC_DRBG, its platform layer, self tests and programs; the prototypes, tools and scripts
    around the panel.  Functions that only free or zero memory have no
    counterpart, since contexts are values; allocation succeeds unless a
    definition says otherwise. *)
From Stdlib Require Export ZArith Lia Bool.
From Stdlib Require String Ascii.
From stdpp Require Export base numbers option.
From stdpp Require Export list.
Export String.StringSyntax.

Declare Scope panel_scope.
Delimit Scope panel_scope with panel.
#[local] Open Scope Z_scope.

(** ** Bytes

    A [char]/[uint8_t] is a [Z]; [is_byte] is its range.  A [std::string], a
    [std::vector<uint8_t>] and a C buffer are all lists of bytes. *)
Abbreviation bytes := (list Z).

Definition is_byte (b : Z) : Prop := 0 <= b < 256.
Abbreviation bytes_ok := (Forall is_byte).

Definition is_byteb (b : Z) : bool := (0 <=? b) && (b <? 256).

(** A string literal of the source. *)
Definition str (s : String.string) : bytes :=
  List.map (fun a => Z.of_N (Ascii.N_of_ascii a)) (String.list_ascii_of_string s).

(** A string literal of the source that holds double quotes, written with a
    single quote (39) in place of each double quote (34). *)
Definition dq (s : String.string) : bytes :=
  List.map (fun b => if b =? 39 then 34 else b) (str s).

#[global] Arguments str s%_string_scope : simpl never.
#[global] Arguments dq s%_string_scope : simpl never.

Definition ch_quote : Z := 34.
Definition ch_backslash : Z := 92.

(** Truncation to a machine width. *)
Definition u8 (z : Z) : Z := z mod 2 ^ 8.
Definition u16 (z : Z) : Z := z mod 2 ^ 16.
Definition u32 (z : Z) : Z := z mod 2 ^ 32.
Definition u64 (z : Z) : Z := z mod 2 ^ 64.

(** [static_cast<int32_t>] of a [uint32_t]. *)
Definition s32 (z : Z) : Z := (z + 2 ^ 31) mod 2 ^ 32 - 2 ^ 31.

(** A function that returns 0 and its results, or an error code. *)
Inductive result (A : Type) := Ok (a : A) | Err (code : Z).
Arguments Ok {A} _.
Arguments Err {A} _.

#[export] Instance result_bind : MBind result :=
  fun A B f m => match m with Ok a => f a | Err e => Err e end.

(** The length of a container as the [size_t] the code computes with. *)
Abbreviation zlen l := (Z.of_nat (length l)).

(** Arithmetic stays folded under [simpl]. *)
#[global] Arguments Z.eqb : simpl never.
#[global] Arguments Z.leb : simpl never.
#[global] Arguments Z.ltb : simpl never.
#[global] Arguments Z.add : simpl never.
#[global] Arguments Z.sub : simpl never.
#[global] Arguments Z.mul : simpl never.
#[global] Arguments Z.modulo : simpl never.
#[global] Arguments Z.div : simpl never.
#[global] Arguments Z.pow : simpl never.
#[global] Arguments Z.land : simpl never.
#[global] Arguments Z.lor : simpl never.
#[global] Arguments Z.lxor : simpl never.
#[global] Arguments Z.shiftl : simpl never.
#[global] Arguments Z.shiftr : simpl never.
#[global] Arguments Z.of_nat : simpl never.
#[global] Arguments Z.to_nat : simpl never.
#[global] Arguments Nat.eqb : simpl never.
#[global] Arguments Nat.leb : simpl never.
#[global] Arguments Nat.ltb : simpl never.

(** ** Automation *)

(** Turn the boolean comparisons of the code into propositions. *)
Ltac to_prop :=
  repeat match goal with
  | H : (_ && _)%bool = true |- _ => apply andb_true_iff in H as [? ?]
  | H : (_ || _)%bool = false |- _ => apply orb_false_iff in H as [? ?]
  | H : negb _ = true |- _ => apply negb_true_iff in H
  | H : negb _ = false |- _ => apply negb_false_iff in H
  | H : (_ =? _)%Z = true |- _ => apply Z.eqb_eq in H
  | H : (_ =? _)%Z = false |- _ => apply Z.eqb_neq in H
  | H : (_ <? _)%Z = true |- _ => apply Z.ltb_lt in H
  | H : (_ <? _)%Z = false |- _ => apply Z.ltb_ge in H
  | H : (_ <=? _)%Z = true |- _ => apply Z.leb_le in H
  | H : (_ <=? _)%Z = false |- _ => apply Z.leb_gt in H
  | H : (_ >? _)%Z = _ |- _ => rewrite Z.gtb_ltb in H
  | H : (_ >=? _)%Z = _ |- _ => rewrite Z.geb_leb in H
  | H : (_ =? _)%nat = true |- _ => apply Nat.eqb_eq in H
  | H : (_ =? _)%nat = false |- _ => apply Nat.eqb_neq in H
  | H : (_ <? _)%nat = true |- _ => apply Nat.ltb_lt in H
  | H : (_ <? _)%nat = false |- _ => apply Nat.ltb_ge in H
  | H : (_ <=? _)%nat = true |- _ => apply Nat.leb_le in H
  | H : (_ <=? _)%nat = false |- _ => apply Nat.leb_gt in H
  end.

(** Case analysis on the conditions of the [if]s in the goal. *)
Ltac case_if :=
  match goal with
  | |- context [if ?b then _ else _] =>
      let E := fresh "E" in destruct b eqn:E
  end.

Ltac case_ifs := repeat (case_if; to_prop; try lia).

(** Goals that are a conjunction of arithmetic facts. *)
Ltac split_lia := repeat split; try lia.

(** Right-associated concatenations. *)
Ltac app_norm := repeat (progress (rewrite <- ?app_assoc; cbn [app])).

(** ** Byte and word arithmetic *)

Lemma u8_byte z : is_byte (u8 z).
Proof. unfold u8, is_byte. apply Z.mod_pos_bound. lia. Qed.

Lemma u8_small z : is_byte z -> u8 z = z.
Proof. intros. unfold u8. apply Z.mod_small. exact H. Qed.

Lemma u16_range z : 0 <= u16 z < 65536.
Proof. apply Z.mod_pos_bound. lia. Qed.

Lemma u32_range z : 0 <= u32 z < 2 ^ 32.
Proof. apply Z.mod_pos_bound. lia. Qed.

Lemma u64_range z : 0 <= u64 z < 2 ^ 64.
Proof. apply Z.mod_pos_bound. lia. Qed.

Lemma u32_small z : 0 <= z < 2 ^ 32 -> u32 z = z.
Proof. apply Z.mod_small. Qed.

Lemma u16_small z : 0 <= z < 65536 -> u16 z = z.
Proof. apply Z.mod_small. Qed.

Lemma s32_small z : 0 <= z < 2 ^ 31 -> s32 z = z.
Proof. intros. unfold s32. rewrite Z.mod_small; lia. Qed.

Lemma s32_range z : - 2 ^ 31 <= s32 z < 2 ^ 31.
Proof. unfold s32. pose proof (Z.mod_pos_bound (z + 2 ^ 31) (2 ^ 32)). lia. Qed.

Lemma is_byteb_spec b : is_byteb b = true <-> is_byte b.
Proof.
  unfold is_byteb, is_byte. rewrite andb_true_iff, Z.leb_le, Z.ltb_lt. lia.
Qed.

(** Masks and shifts by constants, as arithmetic. *)
Lemma land_255 z : Z.land z 255 = z mod 256.
Proof. change 255 with (Z.ones 8). rewrite Z.land_ones by lia. reflexivity. Qed.

Lemma land_127 z : Z.land z 127 = z mod 128.
Proof. change 127 with (Z.ones 7). rewrite Z.land_ones by lia. reflexivity. Qed.

Lemma land_63 z : Z.land z 63 = z mod 64.
Proof. change 63 with (Z.ones 6). rewrite Z.land_ones by lia. reflexivity. Qed.

Lemma land_15 z : Z.land z 15 = z mod 16.
Proof. change 15 with (Z.ones 4). rewrite Z.land_ones by lia. reflexivity. Qed.

Lemma shiftr_8 z : Z.shiftr z 8 = z / 256.
Proof. rewrite Z.shiftr_div_pow2 by lia. reflexivity. Qed.

Lemma shiftl_8 z : Z.shiftl z 8 = z * 256.
Proof. rewrite Z.shiftl_mul_pow2 by lia. reflexivity. Qed.

Lemma testbit_high k z n : 0 <= z < 2 ^ k -> k <= n -> Z.testbit z n = false.
Proof.
  intros Hz Hn. destruct (Z.lt_ge_cases k 0) as [Hk|Hk].
  { rewrite Z.pow_neg_r in Hz by lia. lia. }
  rewrite <- (Z.mod_small z (2 ^ k)) by lia.
  apply Z.mod_pow2_bits_high. lia.
Qed.

(** Or-ing a value below [2^k] into a multiple of [2^k] adds it. *)
Lemma land_disjoint k a b : 0 <= k -> 0 <= b < 2 ^ k -> Z.land (a * 2 ^ k) b = 0.
Proof.
  intros Hk Hb. apply Z.bits_inj'. intros n Hn. rewrite Z.land_spec, Z.bits_0.
  destruct (Z.lt_ge_cases n k) as [H|H].
  - rewrite Z.mul_pow2_bits_low by lia. reflexivity.
  - rewrite (testbit_high k b), andb_false_r by lia. reflexivity.
Qed.

Lemma lor_add k a b :
  0 <= k -> 0 <= b < 2 ^ k -> Z.lor (a * 2 ^ k) b = a * 2 ^ k + b.
Proof.
  intros Hk Hb. pose proof (land_disjoint k a b Hk Hb) as H.
  rewrite Z.add_nocarry_lxor, Z.lxor_lor by exact H. reflexivity.
Qed.

Lemma lor_256 a b : is_byte b -> Z.lor (a * 256) b = a * 256 + b.
Proof. intros. apply (lor_add 8); unfold is_byte in *; lia. Qed.

Lemma lxor_cancel a b : Z.lxor (Z.lxor a b) b = a.
Proof. rewrite Z.lxor_assoc, Z.lxor_nilpotent, Z.lxor_0_r. reflexivity. Qed.

(** A bitwise operation stays below a power of two its operands are below. *)
Lemma below_pow2 k z :
  0 <= k -> 0 <= z ->
  (forall n, k <= n -> Z.testbit z n = false) -> z < 2 ^ k.
Proof.
  intros Hk Hz Hb.
  destruct (Z.lt_ge_cases z (2 ^ k)) as [|Hge]; [assumption|].
  assert (0 < z) by (pose proof (Z.pow_pos_nonneg 2 k); lia).
  pose proof (Z.bit_log2 z ltac:(lia)) as Hl.
  rewrite Hb in Hl; [discriminate|].
  apply Z.log2_le_pow2; lia.
Qed.

Lemma lxor_range k a b :
  0 <= k -> 0 <= a < 2 ^ k -> 0 <= b < 2 ^ k -> 0 <= Z.lxor a b < 2 ^ k.
Proof.
  intros Hk Ha Hb.
  assert (0 <= Z.lxor a b) by (apply Z.lxor_nonneg; lia).
  split; [assumption|]. apply below_pow2; [lia..|]. intros n Hn.
  rewrite Z.lxor_spec, (testbit_high k a), (testbit_high k b) by lia. reflexivity.
Qed.

Lemma lor_range k a b :
  0 <= k -> 0 <= a < 2 ^ k -> 0 <= b < 2 ^ k -> 0 <= Z.lor a b < 2 ^ k.
Proof.
  intros Hk Ha Hb.
  assert (0 <= Z.lor a b) by (apply Z.lor_nonneg; lia).
  split; [assumption|]. apply below_pow2; [lia..|]. intros n Hn.
  rewrite Z.lor_spec, (testbit_high k a), (testbit_high k b) by lia. reflexivity.
Qed.

Lemma land_range k a b :
  0 <= k -> 0 <= a -> 0 <= b < 2 ^ k -> 0 <= Z.land a b < 2 ^ k.
Proof.
  intros Hk Ha Hb.
  assert (0 <= Z.land a b) by (apply Z.land_nonneg; lia).
  split; [assumption|]. apply below_pow2; [lia..|]. intros n Hn.
  rewrite Z.land_spec, (testbit_high k b), andb_false_r by lia. reflexivity.
Qed.

Lemma lxor_byte a b : is_byte a -> is_byte b -> is_byte (Z.lxor a b).
Proof. apply (lxor_range 8). lia. Qed.

Lemma lor_byte a b : is_byte a -> is_byte b -> is_byte (Z.lor a b).
Proof. apply (lor_range 8). lia. Qed.

(** Big-endian pairs of bytes: what the length prefixes of the wire formats
    write and read back. *)
Lemma be16_split n : 0 <= n < 65536 -> n / 256 mod 256 * 256 + n mod 256 = n.
Proof.
  intros. rewrite (Z.mod_small (n / 256)).
  - pose proof (Z.div_mod n 256). lia.
  - split; [apply Z.div_pos; lia|apply Z.div_lt_upper_bound; lia].
Qed.

Lemma mod256_byte z : is_byte (z mod 256).
Proof. apply Z.mod_pos_bound. lia. Qed.

Create HintDb bytes.
Create Rewrite HintDb words.
#[export] Hint Resolve u8_byte mod256_byte lxor_byte lor_byte : bytes.
#[export] Hint Rewrite land_255 land_127 land_63 land_15 shiftr_8 shiftl_8 : words.

(** ** Lists *)

Lemma zlen_app {A} (l k : list A) : zlen (l ++ k) = zlen l + zlen k.
Proof. rewrite length_app. lia. Qed.

Lemma bytes_ok_app a b : bytes_ok (a ++ b) <-> bytes_ok a /\ bytes_ok b.
Proof. apply Forall_app. Qed.

Lemma take_app_exact {A} (l k : list A) n : n = length l -> take n (l ++ k) = l.
Proof. intros ->. apply take_app_length. Qed.

Lemma drop_app_exact {A} (l k : list A) n : n = length l -> drop n (l ++ k) = k.
Proof. intros ->. apply drop_app_length. Qed.

Lemma take_repeat {A} (x : A) k n : take k (repeat x n) = repeat x (Nat.min k n).
Proof.
  revert k. induction n as [|n IH]; intros [|k]; try reflexivity. cbn [repeat take Nat.min]. by rewrite IH.
Qed.

(** [List.forallb] reflects [Forall]. *)
Lemma forallb_Forall {A} (f : A -> bool) l :
  forallb f l = true <-> Forall (fun x => f x = true) l.
Proof.
  induction l as [|x l IH]; simpl; [by split|].
  rewrite andb_true_iff, IH, Forall_cons_iff. done.
Qed.

Lemma bytes_ok_check s : forallb is_byteb s = true -> bytes_ok s.
Proof.
  rewrite forallb_Forall. intros H. eapply Forall_impl; [exact H|]. intros b. apply is_byteb_spec.
Qed.

(** A list without a given byte, by evaluation. *)
Lemma neq_check x s : forallb (fun b => negb (b =? x)) s = true -> Forall (fun b => b <> x) s.
Proof.
  rewrite forallb_Forall. intros H. eapply Forall_impl; [exact H|]. simpl.
  intros b Hb. to_prop. assumption.
Qed.

(** Case analysis on a small interval of integers. *)
Lemma interval_cases (P : Z -> Prop) lo n c :
  Forall (fun k => P (lo + Z.of_nat k)) (seq 0 n) -> lo <= c < lo + Z.of_nat n -> P c.
Proof.
  rewrite Forall_forall. intros H Hc.
  replace c with (lo + Z.of_nat (Z.to_nat (c - lo))) by lia.
  apply H. apply elem_of_seq. lia.
Qed.

(** A check of every byte proves it of any byte. *)
Lemma byte_check (P : Z -> bool) b :
  forallb P (map Z.of_nat (seq 0 256)) = true -> is_byte b -> P b = true.
Proof.
  rewrite forallb_Forall, Forall_forall. intros H Hb. apply H.
  apply list_elem_of_fmap. exists (Z.to_nat b). unfold is_byte in Hb.
  rewrite elem_of_seq. split; lia.
Qed.

(** [by_interval c lo n]: one goal per value of [c] in [lo, lo + n). *)
Ltac by_interval c lo n :=
  pattern c; match goal with |- ?P c => apply (interval_cases P lo n); [|lia] end;
  cbn [seq]; repeat (apply List.Forall_cons); [..|apply List.Forall_nil]; cbv beta.

(** Proves [bytes_ok] of a closed list by evaluation. *)
Ltac bytes_ok_closed := apply bytes_ok_check; vm_compute; reflexivity.

(** Bit 7 of a byte. *)
Lemma bit7_clear b : 0 <= b < 128 -> Z.land b 128 = 0.
Proof. intros. rewrite Z.land_comm. apply (land_disjoint 7 1 b); lia. Qed.

Lemma bit7 b : is_byte b -> (Z.land b 0x80 =? 0) = (b <? 128).
Proof.
  intros Hb. apply eqb_true_iff. revert Hb.
  apply (byte_check (fun b => Bool.eqb (Z.land b 0x80 =? 0) (b <? 128))). vm_compute. reflexivity.
Qed.
