(* ===== verification/CString.v ===== *)
(** Strings as the program uses them: the members of [std::string] the source
    calls ([find], [rfind], [find_first_of], [substr], [compare], the
    [pop_back]/[erase] trimming loops), the [<ctype.h>] classes in the C
    locale, and [atoi]/[strtol]/[std::to_string].  Positions are [nat],
    [npos] is [None].  The second half holds the search lemmas and the
    print/parse round trip of decimal numbers that the components share. *)
From S2P Require Import Prelude.
From stdpp Require Import list.
#[local] Open Scope Z_scope.

(** ** Comparison and searching *)

Fixpoint bytes_eqb (a b : bytes) : bool :=
  match a, b with
  | [], [] => true
  | x :: a', y :: b' => (x =? y) && bytes_eqb a' b'
  | _, _ => false
  end.

Fixpoint prefixb (pat s : bytes) : bool :=
  match pat, s with
  | [], _ => true
  | p :: pat', b :: s' => (p =? b) && prefixb pat' s'
  | _ :: _, [] => false
  end.

(** Offset of the first occurrence of [pat] in [s]. *)
Fixpoint find_at (pat s : bytes) : option nat :=
  if prefixb pat s then Some O
  else match s with [] => None | _ :: s' => S <$> find_at pat s' end.

(** [s.find(pat, pos)] *)
Definition str_find (s pat : bytes) (pos : nat) : option nat :=
  if (pos <=? length s)%nat then (fun k => (pos + k)%nat) <$> find_at pat (drop pos s)
  else None.

(** [s.find(pat) != npos] *)
Definition contains (s pat : bytes) : bool :=
  match str_find s pat 0 with Some _ => true | None => false end.

(** Offset of the last occurrence of [pat] in [s]: [s.rfind(pat)]. *)
Fixpoint str_rfind (s pat : bytes) : option nat :=
  match s with
  | [] => if prefixb pat [] then Some O else None
  | b :: s' =>
      match str_rfind s' pat with
      | Some k => Some (S k)
      | None => if prefixb pat s then Some O else None
      end
  end.

(** Offset of the first byte satisfying [p]. *)
Fixpoint find_pred (p : Z -> bool) (s : bytes) : option nat :=
  match s with
  | [] => None
  | b :: s' => if p b then Some O else S <$> find_pred p s'
  end.

(** [s.find_first_of(set, pos)] *)
Definition find_first_of (s set : bytes) (pos : nat) : option nat :=
  (fun k => (pos + k)%nat) <$> find_pred (fun b => existsb (Z.eqb b) set) (drop pos s).

(** [s.substr(pos, n)] for [pos <= s.size()], and [s.substr(pos)]. *)
Definition substr (s : bytes) (pos n : nat) : bytes := take n (drop pos s).
Definition substr_from (s : bytes) (pos : nat) : bytes := drop pos s.

(** [s.compare(0, lit.size(), lit) == 0] *)
Definition starts_with (s lit : bytes) : bool := bytes_eqb (take (length lit) s) lit.

Definition is_empty (s : bytes) : bool := match s with [] => true | _ => false end.

(** [while (!s.empty() && p(s.front())) s.erase(0, 1);] *)
Fixpoint ltrim (p : Z -> bool) (s : bytes) : bytes :=
  match s with
  | [] => []
  | b :: s' => if p b then ltrim p s' else s
  end.

(** [while (!s.empty() && p(s.back())) s.pop_back();] *)
Definition rtrim (p : Z -> bool) (s : bytes) : bytes := rev (ltrim p (rev s)).

(** ** Character classes (C locale) and numbers *)

Definition isdigit (c : Z) : bool := (48 <=? c) && (c <=? 57).
Definition isspace (c : Z) : bool := ((9 <=? c) && (c <=? 13)) || (c =? 32).
Definition isalnum (c : Z) : bool :=
  isdigit c || ((65 <=? c) && (c <=? 90)) || ((97 <=? c) && (c <=? 122)).

(** The value of the leading digits of [s], after [v], and how many there are. *)
Fixpoint digits (s : bytes) (v : Z) : Z * nat :=
  match s with
  | b :: s' =>
      if isdigit b then let '(w, n) := digits s' (v * 10 + (b - 48)) in (w, S n) else (v, O)
  | [] => (v, O)
  end.

Definition clamp64 (v : Z) : Z := Z.max (- 2 ^ 63) (Z.min v (2 ^ 63 - 1)).

(** [strtol(s, &end, 10)] on a 64-bit [long]: the value, clamped to the range
    of the type, and [end - s] (0 when no digit was read). *)
Definition strtol10 (s : bytes) : Z * nat :=
  let body := ltrim isspace s in
  let skipped := (length s - length body)%nat in
  let '(neg, sgn, ds) :=
    match body with
    | b :: r => if b =? 45 then (true, 1%nat, r) else if b =? 43 then (false, 1%nat, r) else (false, O, body)
    | [] => (false, O, body)
    end in
  let '(v, n) := digits ds 0 in
  match n with
  | O => (0, O)
  | _ => (clamp64 (if neg : bool then - v else v), (skipped + sgn + n)%nat)
  end.

(** [atoi], which is [(int) strtol(s, NULL, 10)]. *)
Definition atoi (s : bytes) : Z := s32 (fst (strtol10 s)).

(** [std::to_string] of an integer of at most 64 bits: 20 digits are enough. *)
Fixpoint dec_digits (fuel : nat) (n : Z) (acc : bytes) : bytes :=
  match fuel with
  | O => acc
  | S f =>
      let acc' := (48 + n mod 10) :: acc in
      if n / 10 =? 0 then acc' else dec_digits f (n / 10) acc'
  end.

Definition to_string (n : Z) : bytes :=
  if n <? 0 then 45 :: dec_digits 20 (- n) [] else dec_digits 20 n [].

Definition bool_text (b : bool) : bytes := if b then str "true" else str "false".

(** ** Lemmas on comparison and prefixes *)

Lemma bytes_eqb_eq a b : bytes_eqb a b = true <-> a = b.
Proof.
  revert b. induction a as [|x a IH]; intros [|y b]; simpl; try (split; congruence).
  rewrite andb_true_iff, Z.eqb_eq, IH. split; [intros [-> ->]|intros [= -> ->]]; auto.
Qed.

Lemma bytes_eqb_refl a : bytes_eqb a a = true.
Proof. apply bytes_eqb_eq. reflexivity. Qed.

Lemma bytes_eqb_neq a b : bytes_eqb a b = false <-> a <> b.
Proof.
  rewrite <- bytes_eqb_eq. destruct (bytes_eqb a b); split; congruence.
Qed.

#[export] Instance bytes_eq_dec : EqDecision bytes.
Proof.
  intros a b. destruct (bytes_eqb a b) eqn:E.
  - left. apply bytes_eqb_eq, E.
  - right. apply bytes_eqb_neq, E.
Defined.

Lemma prefixb_app p s : prefixb p (p ++ s) = true.
Proof. induction p; simpl; [reflexivity|]. rewrite Z.eqb_refl. exact IHp. Qed.

Lemma prefixb_iff p s : prefixb p s = true <-> exists t, s = p ++ t.
Proof.
  split; [|intros [t ->]; apply prefixb_app].
  revert s. induction p as [|x p IH]; intros s H; [by exists s|].
  destruct s as [|y s]; [discriminate|]. simpl in H. to_prop. subst y.
  destruct (IH s) as [t ->]; [assumption|]. by exists t.
Qed.

Lemma prefixb_cons x p y s : prefixb (x :: p) (y :: s) = (x =? y) && prefixb p s.
Proof. reflexivity. Qed.

Lemma starts_with_app lit s : starts_with (lit ++ s) lit = true.
Proof. unfold starts_with. rewrite take_app_length. apply bytes_eqb_refl. Qed.

Lemma starts_with_iff s lit : starts_with s lit = true <-> exists t, s = lit ++ t.
Proof.
  unfold starts_with. rewrite bytes_eqb_eq. split.
  - intros H. exists (drop (length lit) s). rewrite <- H at 1. symmetry. apply take_drop.
  - intros [t ->]. apply take_app_length.
Qed.

(** ** Lemmas on searching

    [cut pat s] is the suffix of [s] that starts at the first occurrence of
    [pat]; the position-based searches of the source are [cut]s of suffixes. *)
Definition cut (pat s : bytes) : option bytes := (fun k => drop k s) <$> find_at pat s.

Lemma find_at_here pat s : prefixb pat s = true -> find_at pat s = Some O.
Proof. intros H. destruct s; simpl in *; rewrite H; reflexivity. Qed.

Lemma find_at_next pat b s :
  prefixb pat (b :: s) = false -> find_at pat (b :: s) = S <$> find_at pat s.
Proof. intros H. simpl. rewrite H. reflexivity. Qed.

Lemma find_at_bound pat s k : find_at pat s = Some k -> (k <= length s)%nat.
Proof.
  revert k. induction s as [|b s IH]; intros k; simpl; destruct (prefixb pat _).
  - intros [= <-]. lia.
  - discriminate.
  - intros [= <-]. lia.
  - destruct (find_at pat s) as [j|] eqn:E; [|discriminate]. intros [= <-].
    specialize (IH j eq_refl). lia.
Qed.

Lemma find_at_prefix pat s k : find_at pat s = Some k -> prefixb pat (drop k s) = true.
Proof.
  revert k. induction s as [|b s IH]; intros k; simpl; destruct (prefixb pat _) eqn:E.
  - intros [= <-]. exact E.
  - discriminate.
  - intros [= <-]. exact E.
  - destruct (find_at pat s) as [j|] eqn:F; [|discriminate]. intros [= <-]. simpl. auto.
Qed.

Lemma find_at_first pat s k j : find_at pat s = Some k -> (j < k)%nat -> prefixb pat (drop j s) = false.
Proof.
  revert k j. induction s as [|b s IH]; intros k j; simpl; destruct (prefixb pat _) eqn:E.
  - intros [= <-]. lia.
  - discriminate.
  - intros [= <-]. lia.
  - destruct (find_at pat s) as [i|] eqn:F; [|discriminate]. intros [= <-] Hj.
    destruct j as [|j]; [exact E|]. simpl. eapply IH; [reflexivity|lia].
Qed.

Lemma find_at_skip pat p s :
  (forall q, suffix q p -> q <> [] -> prefixb pat (q ++ s) = false) ->
  find_at pat (p ++ s) = (fun k => (length p + k)%nat) <$> find_at pat s.
Proof.
  induction p as [|b p IH]; intros H.
  - simpl. destruct (find_at pat s); reflexivity.
  - change ((b :: p) ++ s) with (b :: (p ++ s)). rewrite find_at_next.
    + rewrite IH.
      * destruct (find_at pat s); reflexivity.
      * intros q Hq. apply H. by apply suffix_cons_r.
    + apply (H (b :: p)); [reflexivity|discriminate].
Qed.

Lemma cut_here pat s : prefixb pat s = true -> cut pat s = Some s.
Proof. intros H. unfold cut. rewrite find_at_here by exact H. reflexivity. Qed.

Lemma cut_next pat b s : prefixb pat (b :: s) = false -> cut pat (b :: s) = cut pat s.
Proof.
  intros H. unfold cut. rewrite find_at_next by exact H.
  destruct (find_at pat s); reflexivity.
Qed.

Lemma cut_skip pat p s :
  (forall q, suffix q p -> q <> [] -> prefixb pat (q ++ s) = false) ->
  cut pat (p ++ s) = cut pat s.
Proof.
  intros H. unfold cut. rewrite find_at_skip by exact H.
  destruct (find_at pat s) as [k|]; [|reflexivity]. simpl. f_equal.
  rewrite <- drop_drop, drop_app_length. reflexivity.
Qed.

(** No byte of [p] can start [pat]. *)
Lemma cut_skip_head x pat p s :
  Forall (fun b => b <> x) p -> cut (x :: pat) (p ++ s) = cut (x :: pat) s.
Proof.
  induction 1 as [|b p Hb _ IH]; [reflexivity|].
  change ((b :: p) ++ s) with (b :: (p ++ s)).
  rewrite cut_next; [exact IH|]. simpl. destruct (x =? b) eqn:E; [to_prop; lia|reflexivity].
Qed.

(** A byte that the pattern lacks keeps what is before it from what follows. *)
Lemma prefixb_before_sep x pat a s : Forall (fun b => b <> x) pat -> prefixb pat (a ++ x :: s) = true -> prefixb pat a = true.
Proof.
  intros H. revert a. induction H as [|b pat Hb _ IH]; intros a E; [by destruct a|].
  destruct a as [|c a]; cbn [app prefixb] in E |- *; apply andb_true_iff in E as [E1 E2]; [to_prop; lia|].
  by rewrite E1, IH.
Qed.

Lemma cut_past_sep x pat a s :
  Forall (fun b => b <> x) pat -> cut pat a = None -> cut pat (a ++ x :: s) = cut pat (x :: s).
Proof.
  intros Hp. induction a as [|b a IH]; intros H; [done|]. unfold cut in H. cbn [find_at] in H.
  destruct (prefixb pat (b :: a)) eqn:E; [discriminate|]. cbn [app]. rewrite cut_next.
  - apply IH. unfold cut. by destruct (find_at pat a).
  - apply not_true_iff_false. intros T. apply not_true_iff_false in E. apply E. by apply (prefixb_before_sep x pat (b :: a) s).
Qed.

Lemma prefixb_In y pat s : prefixb pat s = true -> In y pat -> In y s.
Proof.
  revert s. induction pat as [|b pat IH]; intros s E Hy; [done|]. destruct s as [|c s]; [discriminate|].
  cbn [prefixb] in E. apply andb_true_iff in E as [E1 E2]. to_prop. destruct Hy as [Hy|Hy]; [left; congruence|right; by apply IH].
Qed.

Lemma cut_absent y pat s : In y pat -> ~ In y s -> cut pat s = None.
Proof.
  intros Hy. induction s as [|b s IH]; intros H.
  - unfold cut. destruct pat; [destruct Hy|done].
  - rewrite cut_next; [apply IH; intros W; apply H; by right|]. apply not_true_iff_false. intros E. by apply H, (prefixb_In y pat).
Qed.

Lemma str_find_cut s pat pos :
  (pos <= length s)%nat ->
  (fun k => drop k s) <$> str_find s pat pos = cut pat (drop pos s).
Proof.
  intros H. unfold str_find, cut.
  replace (pos <=? length s)%nat with true by (symmetry; apply Nat.leb_le; lia).
  destruct (find_at pat (drop pos s)); simpl; [rewrite drop_drop|]; reflexivity.
Qed.

Lemma str_find_bound s pat pos k : str_find s pat pos = Some k -> (pos <= k <= length s)%nat.
Proof.
  unfold str_find. destruct (pos <=? length s)%nat eqn:E; [|discriminate]. to_prop.
  destruct (find_at pat (drop pos s)) as [j|] eqn:F; [|discriminate].
  intros [= <-]. apply find_at_bound in F. rewrite length_drop in F. lia.
Qed.

(** One search of the source, followed on the suffixes. *)
Lemma str_find_at s pat pos u t :
  (pos <= length s)%nat -> drop pos s = u -> cut pat u = Some t ->
  exists k, str_find s pat pos = Some k /\ drop k s = t /\ (pos <= k <= length s)%nat.
Proof.
  intros Hp <- Hc. rewrite <- str_find_cut in Hc by exact Hp.
  destruct (str_find s pat pos) as [k|] eqn:E; [|discriminate].
  injection Hc as <-. exists k. apply str_find_bound in E. auto.
Qed.

Lemma contains_cut s pat : contains s pat = match cut pat s with Some _ => true | None => false end.
Proof.
  unfold contains. pose proof (str_find_cut s pat 0 ltac:(lia)) as H. rewrite drop_0 in H.
  rewrite <- H. destruct (str_find s pat 0); reflexivity.
Qed.

(** ** Trimming *)

Lemma find_at_infix pat a b : exists k, find_at pat (a ++ pat ++ b) = Some k /\ (k <= length a)%nat.
Proof.
  induction a as [|x a (k & IH & Hk)]; [exists 0%nat; split; [apply (find_at_here pat (pat ++ b)), prefixb_app|lia]|].
  cbn [app find_at]. destruct (prefixb pat (x :: a ++ pat ++ b)); [exists 0%nat; split; [done|lia]|].
  rewrite IH. exists (S k). split; [done|cbn [length]; lia].
Qed.

Lemma contains_infix pat a b : contains (a ++ pat ++ b) pat = true.
Proof.
  unfold contains, str_find. rewrite drop_0. destruct (find_at_infix pat a b) as (k & -> & _). reflexivity.
Qed.

(** A pattern without the byte [x] is not found from inside a text that ends in
    [x] when that text lacks one of its bytes. *)
Lemma no_prefix_across x y pat p s :
  Forall (fun b => b <> x) pat -> In y pat -> ~ In y p ->
  forall q, suffix q (p ++ [x]) -> q <> [] -> y <> x -> prefixb pat (q ++ s) = false.
Proof.
  intros Hx Hy Hp q [t Eq] Hq Hyx. apply not_true_iff_false. intros P%prefixb_iff. destruct P as [u E].
  destruct q as [|z q] using rev_ind; [done|]. clear IHq. rewrite app_assoc in Eq. apply app_inj_tail in Eq as [-> <-].
  assert (length pat <= length q)%nat.
  { destruct (Nat.le_gt_cases (length pat) (length q)) as [|H]; [assumption|]. exfalso.
    assert (Ix : nth (length q) pat 0 = x).
    { rewrite <- (app_nth1 pat u 0 H), <- E, <- app_assoc, app_nth2 by lia.
      rewrite Nat.sub_diag. reflexivity. }
    rewrite List.Forall_forall in Hx. apply (Hx x); [|reflexivity]. rewrite <- Ix. by apply nth_In. }
  apply Hp. rewrite in_app_iff. right. rewrite <- app_assoc in E.
  apply (f_equal (take (length pat))) in E. rewrite take_app_length, take_app_le in E by lia.
  rewrite <- (take_drop (length pat) q), E. rewrite in_app_iff. by left.
Qed.

Lemma ltrim_id p s : match s with [] => True | b :: _ => p b = false end -> ltrim p s = s.
Proof. destruct s as [|b s]; [reflexivity|]. simpl. intros ->. reflexivity. Qed.

Lemma rtrim_id p s : match last s with None => True | Some b => p b = false end -> rtrim p s = s.
Proof.
  intros H. unfold rtrim. rewrite ltrim_id, rev_involutive; [reflexivity|].
  rewrite <- (rev_involutive s) in H. destruct (rev s) as [|b r]; [exact I|].
  simpl in H. rewrite last_snoc in H. exact H.
Qed.

Lemma ltrim_length p s : (length (ltrim p s) <= length s)%nat.
Proof. induction s as [|b s IH]; simpl; [lia|]. destruct (p b); simpl; lia. Qed.

Lemma ltrim_head p s : match ltrim p s with [] => True | b :: _ => p b = false end.
Proof. induction s as [|b s IH]; simpl; [exact I|]. destruct (p b) eqn:E; [exact IH|exact E]. Qed.

Lemma ltrim_suffix p s : exists t, s = t ++ ltrim p s.
Proof.
  induction s as [|b s [t IH]]; simpl; [by exists []|].
  destruct (p b); [exists (b :: t); simpl; congruence|by exists []].
Qed.

Lemma ltrim_idemp p s : ltrim p (ltrim p s) = ltrim p s.
Proof. apply ltrim_id, ltrim_head. Qed.

Lemma rtrim_prefix p s : exists t, s = rtrim p s ++ t.
Proof.
  unfold rtrim. destruct (ltrim_suffix p (rev s)) as [t E]. exists (rev t).
  rewrite <- rev_app_distr, <- E, rev_involutive. reflexivity.
Qed.

Lemma rtrim_last p s : match last (rtrim p s) with None => True | Some b => p b = false end.
Proof.
  unfold rtrim. pose proof (ltrim_head p (rev s)) as H.
  destruct (ltrim p (rev s)) as [|b r]; [exact I|]. simpl. rewrite last_snoc. exact H.
Qed.

Lemma ltrim_pad p pad s :
  Forall (fun b => p b = true) pad -> match s with [] => True | b :: _ => p b = false end ->
  ltrim p (pad ++ s) = s.
Proof.
  intros H Hs. induction H as [|b pad Hb _ IH]; [by apply ltrim_id|]. cbn [app ltrim]. by rewrite Hb.
Qed.

Lemma rtrim_pad p s pad :
  Forall (fun b => p b = true) pad -> match last s with None => True | Some b => p b = false end ->
  rtrim p (s ++ pad) = s.
Proof.
  intros H Hs. unfold rtrim. rewrite rev_app_distr, ltrim_pad, rev_involutive; [reflexivity|by apply Forall_rev|].
  rewrite <- (rev_involutive s) in Hs. destruct (rev s) as [|b r]; [exact I|]. simpl in Hs. by rewrite last_snoc in Hs.
Qed.

(** Searching for one byte. *)
Lemma find_byte x a t : Forall (fun b => b <> x) a -> find_at [x] (a ++ x :: t) = Some (length a).
Proof.
  induction 1 as [|b a Hb _ IH]; cbn [app find_at prefixb].
  - by rewrite Z.eqb_refl.
  - destruct (Z.eqb_spec x b); [congruence|]. cbn [andb]. by rewrite IH.
Qed.

Lemma find_byte_none x a : Forall (fun b => b <> x) a -> find_at [x] a = None.
Proof.
  induction 1 as [|b a Hb _ IH]; cbn [find_at prefixb]; [done|].
  destruct (Z.eqb_spec x b); [congruence|]. cbn [andb]. by rewrite IH.
Qed.

Lemma rtrim_idemp p s : rtrim p (rtrim p s) = rtrim p s.
Proof. apply rtrim_id, rtrim_last. Qed.

(** ** Decimal numbers *)

Lemma isdigit_spec c : isdigit c = true <-> 48 <= c <= 57.
Proof. unfold isdigit. rewrite andb_true_iff, !Z.leb_le. lia. Qed.

(** The bytes that end a number. *)
Definition stops_digits (s : bytes) : Prop :=
  match s with [] => True | b :: _ => isdigit b = false end.

Lemma digits_stop s v : stops_digits s -> digits s v = (v, O).
Proof. destruct s as [|b s]; [reflexivity|]. simpl. intros ->. reflexivity. Qed.

Lemma digits_app ds s v :
  Forall (fun b => isdigit b = true) ds -> stops_digits s ->
  digits (ds ++ s) v = (fold_left (fun a b => a * 10 + (b - 48)) ds v, length ds).
Proof.
  intros Hd Hs. revert v. induction Hd as [|b ds Hb _ IH]; intros v; simpl.
  - apply digits_stop, Hs.
  - rewrite Hb, IH. reflexivity.
Qed.

Lemma dec_digits_digits fuel n acc :
  0 <= n -> Forall (fun b => isdigit b = true) acc ->
  Forall (fun b => isdigit b = true) (dec_digits fuel n acc).
Proof.
  revert n acc. induction fuel as [|f IH]; intros n acc Hn Ha; simpl; [exact Ha|].
  assert (Hd : Forall (fun b => isdigit b = true) ((48 + n mod 10) :: acc)).
  { constructor; [|exact Ha]. apply isdigit_spec. pose proof (Z.mod_pos_bound n 10). lia. }
  destruct (n / 10 =? 0); [exact Hd|]. apply IH; [apply Z.div_pos; lia|exact Hd].
Qed.

Lemma dec_digits_value fuel n acc v0 :
  0 <= n < 10 ^ Z.of_nat fuel -> (fuel > 0)%nat ->
  fold_left (fun a b => a * 10 + (b - 48)) (dec_digits fuel n acc) v0 =
  fold_left (fun a b => a * 10 + (b - 48)) acc
    (v0 * 10 ^ (zlen (dec_digits fuel n acc) - zlen acc) + n).
Proof.
  revert n acc v0. induction fuel as [|f IH]; intros n acc v0 Hn Hf; [lia|]. simpl dec_digits.
  rewrite Nat2Z.inj_succ, Z.pow_succ_r in Hn by lia.
  pose proof (Z.div_mod n 10 ltac:(lia)) as Hdm. pose proof (Z.mod_pos_bound n 10 ltac:(lia)).
  destruct (n / 10 =? 0) eqn:E; to_prop.
  - cbn [fold_left length]. replace (Z.of_nat (S (length acc)) - zlen acc) with 1 by lia.
    f_equal. lia.
  - assert (0 <= n / 10) by (apply Z.div_pos; lia).
    assert (0 <= n / 10 < 10 ^ Z.of_nat f) by (split; [lia|apply Z.div_lt_upper_bound; lia]).
    destruct f as [|f']; [simpl in *; lia|].
    rewrite IH by lia. cbn [fold_left]. f_equal.
    set (L := zlen (dec_digits (S f') (n / 10) (48 + n mod 10 :: acc))).
    assert (HL : zlen acc + 1 <= L).
    { subst L. clear. set (a := (48 + n mod 10) :: acc).
      assert (G : forall f m b, (length b <= length (dec_digits f m b))%nat).
      { induction f; intros; simpl; [lia|]. destruct (m / 10 =? 0); simpl; [lia|].
        etransitivity; [|apply IHf]. simpl. lia. }
      pose proof (G (S f') (n / 10) a). subst a. cbn [length] in *. lia. }
    cbn [length]. replace (L - zlen acc) with (Z.succ (L - Z.of_nat (S (length acc)))) by lia.
    rewrite Z.pow_succ_r by lia. lia.
Qed.

Lemma dec_digits_nonempty fuel n acc : (fuel > 0)%nat -> dec_digits fuel n acc <> [].
Proof.
  intros Hf. assert (G : forall f m b, b <> [] -> dec_digits f m b <> []).
  { induction f; intros; simpl; [assumption|]. destruct (m / 10 =? 0); [discriminate|].
    apply IHf. discriminate. }
  destruct fuel; [lia|]. simpl. destruct (n / 10 =? 0); [discriminate|]. apply G. discriminate.
Qed.

Lemma to_string_nonneg n : 0 <= n -> to_string n = dec_digits 20 n [].
Proof. intros H. unfold to_string. destruct (n <? 0) eqn:E; [to_prop; lia|reflexivity]. Qed.

Lemma to_string_digits n : 0 <= n -> Forall (fun b => isdigit b = true) (to_string n).
Proof. intros. rewrite to_string_nonneg by lia. apply dec_digits_digits; [lia|constructor]. Qed.

Lemma to_string_head n : 0 <= n -> exists d r, to_string n = d :: r /\ isdigit d = true.
Proof.
  intros H. pose proof (to_string_digits n H) as F.
  destruct (to_string n) as [|d r] eqn:E.
  - rewrite to_string_nonneg in E by lia. exfalso. revert E. apply dec_digits_nonempty. lia.
  - inversion F; subst. eauto.
Qed.

(** Reading back a printed non-negative number, whatever non-digit follows. *)
Lemma digits_to_string n s :
  0 <= n < 10 ^ 20 -> stops_digits s ->
  digits (to_string n ++ s) 0 = (n, length (to_string n)).
Proof.
  intros Hn Hs. rewrite digits_app by (try apply to_string_digits; auto; lia).
  rewrite to_string_nonneg by lia. rewrite dec_digits_value by lia.
  cbn [fold_left]. rewrite Z.mul_0_l, Z.add_0_l. reflexivity.
Qed.

Lemma strtol10_digits ds s v n :
  match ds with b :: _ => isdigit b = true | [] => False end ->
  digits (ds ++ s) 0 = (v, n) -> n <> O -> strtol10 (ds ++ s) = (clamp64 v, n).
Proof.
  intros Hd E Hn. destruct ds as [|b r]; [contradiction|]. apply isdigit_spec in Hd.
  assert (Hl : ltrim isspace ((b :: r) ++ s) = (b :: r) ++ s).
  { apply ltrim_id. simpl. unfold isspace.
    destruct (9 <=? b) eqn:?, (b <=? 13) eqn:?, (b =? 32) eqn:?; to_prop; try lia; reflexivity. }
  unfold strtol10. rewrite Hl, Nat.sub_diag. cbn [app] in *.
  destruct (b =? 45) eqn:E1; [to_prop; lia|]. destruct (b =? 43) eqn:E2; [to_prop; lia|].
  cbv beta iota. rewrite E. destruct n; [congruence|]. reflexivity.
Qed.

Lemma strtol10_to_string n s :
  0 <= n < 2 ^ 63 -> stops_digits s -> strtol10 (to_string n ++ s) = (n, length (to_string n)).
Proof.
  intros Hn Hs. destruct (to_string_head n) as (d & r & E & Hd); [lia|].
  rewrite (strtol10_digits _ _ n (length (to_string n))).
  - unfold clamp64. rewrite Z.min_l, Z.max_r by lia. reflexivity.
  - rewrite E. exact Hd.
  - apply digits_to_string; [lia|exact Hs].
  - rewrite E. discriminate.
Qed.

(** The same for any number of the type. *)
Lemma strtol10_signed n s :
  - 2 ^ 63 < n < 2 ^ 63 -> stops_digits s -> strtol10 (to_string n ++ s) = (n, length (to_string n)).
Proof.
  intros Hn Hs. destruct (Z.ltb_spec n 0) as [H|H]; [|apply strtol10_to_string; auto; lia].
  assert (E : to_string n = 45 :: to_string (- n)).
  { unfold to_string. rewrite (proj2 (Z.ltb_lt n 0)), (proj2 (Z.ltb_ge (- n) 0)) by lia. reflexivity. }
  rewrite E. cbn [app]. unfold strtol10. cbn [ltrim]. change (isspace 45) with false. cbv iota.
  rewrite Nat.sub_diag, Z.eqb_refl. cbv beta iota. rewrite digits_to_string by (auto; lia).
  destruct (to_string_head (- n)) as (d & r & Ed & _); [lia|]. rewrite Ed. cbn [length]. f_equal.
  unfold clamp64. rewrite Z.opp_involutive, Z.min_l, Z.max_r by lia. reflexivity.
Qed.

Lemma atoi_signed n s : - 2 ^ 31 <= n < 2 ^ 31 -> stops_digits s -> atoi (to_string n ++ s) = n.
Proof.
  intros Hn Hs. unfold atoi. rewrite strtol10_signed by (auto; lia). cbn [fst]. unfold s32. rewrite Z.mod_small; lia.
Qed.

Lemma to_string_chars n : to_string n <> [] /\ Forall (fun b => isdigit b = true \/ b = 45) (to_string n).
Proof.
  assert (G : forall m, 0 <= m -> to_string m <> [] /\ Forall (fun b => isdigit b = true \/ b = 45) (to_string m)).
  { intros m Hm. split; [by destruct (to_string_head m Hm) as (d & t & -> & _)|].
    eapply Forall_impl; [by apply to_string_digits|]. by left. }
  destruct (Z.ltb_spec n 0) as [H|H]; [|by apply G].
  assert (E : to_string n = 45 :: to_string (- n)).
  { unfold to_string. rewrite (proj2 (Z.ltb_lt n 0)), (proj2 (Z.ltb_ge (- n) 0)) by lia. reflexivity. }
  rewrite E. split; [done|]. constructor; [by right|]. apply G. lia.
Qed.

Lemma atoi_to_string n s : 0 <= n < 2 ^ 31 -> stops_digits s -> atoi (to_string n ++ s) = n.
Proof.
  intros Hn Hs. unfold atoi. rewrite strtol10_to_string by (auto; lia). simpl. apply s32_small. lia.
Qed.
