(* ===== verification/Words.v ===== *)
(** Machine words in memory (mbedtls/library/common.h): the byte-order macros
    [MBEDTLS_GET_UINT32_LE/BE], [MBEDTLS_PUT_UINT32_LE/BE] and their 64-bit
    versions, rotations, and [memcpy] into a buffer; with their meaning as
    base-256 digits. *)
From S2P Require Import Prelude.
From stdpp Require Import list.
#[local] Open Scope Z_scope.

(** ** The macros *)

Definition MBEDTLS_GET_UINT32_BE (data : bytes) (offset : nat) : Z :=
  Z.lor (Z.lor (Z.lor (Z.shiftl (nth offset data 0) 24) (Z.shiftl (nth (offset + 1) data 0) 16))
           (Z.shiftl (nth (offset + 2) data 0) 8)) (nth (offset + 3) data 0).

Definition MBEDTLS_GET_UINT32_LE (data : bytes) (offset : nat) : Z :=
  Z.lor (Z.lor (Z.lor (nth offset data 0) (Z.shiftl (nth (offset + 1) data 0) 8))
           (Z.shiftl (nth (offset + 2) data 0) 16)) (Z.shiftl (nth (offset + 3) data 0) 24).

Definition MBEDTLS_BYTE (k x : Z) : Z := Z.land (Z.shiftr x (8 * k)) 0xff.

Definition MBEDTLS_PUT_UINT32_BE (n : Z) : bytes :=
  [MBEDTLS_BYTE 3 n; MBEDTLS_BYTE 2 n; MBEDTLS_BYTE 1 n; MBEDTLS_BYTE 0 n].

Definition MBEDTLS_PUT_UINT32_LE (n : Z) : bytes :=
  [MBEDTLS_BYTE 0 n; MBEDTLS_BYTE 1 n; MBEDTLS_BYTE 2 n; MBEDTLS_BYTE 3 n].

Definition MBEDTLS_GET_UINT64_BE (data : bytes) (offset : nat) : Z :=
  Z.lor (Z.lor (Z.lor (Z.lor (Z.lor (Z.lor (Z.lor
    (Z.shiftl (nth offset data 0) 56) (Z.shiftl (nth (offset + 1) data 0) 48))
    (Z.shiftl (nth (offset + 2) data 0) 40)) (Z.shiftl (nth (offset + 3) data 0) 32))
    (Z.shiftl (nth (offset + 4) data 0) 24)) (Z.shiftl (nth (offset + 5) data 0) 16))
    (Z.shiftl (nth (offset + 6) data 0) 8)) (nth (offset + 7) data 0).

Definition MBEDTLS_GET_UINT64_LE (data : bytes) (offset : nat) : Z :=
  Z.lor (Z.lor (Z.lor (Z.lor (Z.lor (Z.lor (Z.lor
    (Z.shiftl (nth (offset + 7) data 0) 56) (Z.shiftl (nth (offset + 6) data 0) 48))
    (Z.shiftl (nth (offset + 5) data 0) 40)) (Z.shiftl (nth (offset + 4) data 0) 32))
    (Z.shiftl (nth (offset + 3) data 0) 24)) (Z.shiftl (nth (offset + 2) data 0) 16))
    (Z.shiftl (nth (offset + 1) data 0) 8)) (nth offset data 0).

Definition MBEDTLS_PUT_UINT64_BE (n : Z) : bytes :=
  [MBEDTLS_BYTE 7 n; MBEDTLS_BYTE 6 n; MBEDTLS_BYTE 5 n; MBEDTLS_BYTE 4 n;
   MBEDTLS_BYTE 3 n; MBEDTLS_BYTE 2 n; MBEDTLS_BYTE 1 n; MBEDTLS_BYTE 0 n].

Definition MBEDTLS_PUT_UINT64_LE (n : Z) : bytes :=
  [MBEDTLS_BYTE 0 n; MBEDTLS_BYTE 1 n; MBEDTLS_BYTE 2 n; MBEDTLS_BYTE 3 n;
   MBEDTLS_BYTE 4 n; MBEDTLS_BYTE 5 n; MBEDTLS_BYTE 6 n; MBEDTLS_BYTE 7 n].

(** The state words of a block, and back. *)
Definition words_be (n : nat) (data : bytes) : list Z :=
  map (fun i => MBEDTLS_GET_UINT32_BE data (4 * i)) (seq 0 n).
Definition words64_be (n : nat) (data : bytes) : list Z :=
  map (fun i => MBEDTLS_GET_UINT64_BE data (8 * i)) (seq 0 n).
Definition words_le (n : nat) (data : bytes) : list Z :=
  map (fun i => MBEDTLS_GET_UINT32_LE data (4 * i)) (seq 0 n).

(** [memcpy(buffer + off, src, ...)] *)
Definition put_at (buffer : bytes) (off : nat) (src : bytes) : bytes :=
  take off buffer ++ src ++ drop (off + length src) buffer.

(** A counter in memory, its last byte the lowest: [for (i = n; i > 0; i--) if
    (++counter[i - 1] != 0) break;], on the reversed bytes. *)
Fixpoint increment (rev_counter : bytes) : bytes :=
  match rev_counter with
  | [] => []
  | b :: rest => let b := u8 (b + 1) in if negb (b =? 0) then b :: rest else b :: increment rest
  end.

Definition next_counter (counter : bytes) : bytes := rev (increment (rev counter)).

(** ** Base-256 digits *)

Fixpoint le_bytes (n : nat) (z : Z) : bytes :=
  match n with O => [] | S n => z mod 256 :: le_bytes n (z / 256) end.

Definition be_bytes (n : nat) (z : Z) : bytes := rev (le_bytes n z).

Fixpoint le_val (s : bytes) : Z :=
  match s with [] => 0 | b :: s => b + 256 * le_val s end.

Definition be_val (s : bytes) : Z := le_val (rev s).

Lemma le_bytes_length n z : length (le_bytes n z) = n.
Proof. revert z. induction n; intros; simpl; auto. Qed.

Lemma be_bytes_length n z : length (be_bytes n z) = n.
Proof. unfold be_bytes. rewrite length_rev. apply le_bytes_length. Qed.

Lemma le_bytes_ok n z : bytes_ok (le_bytes n z).
Proof. revert z. induction n; intros; simpl; constructor; auto with bytes. Qed.

Lemma be_bytes_ok n z : bytes_ok (be_bytes n z).
Proof. apply Forall_rev, le_bytes_ok. Qed.

Lemma le_val_range s : bytes_ok s -> 0 <= le_val s < 256 ^ zlen s.
Proof.
  induction 1 as [|b s Hb _ IH]; [cbn; lia|]. cbn [le_val length]. unfold is_byte in Hb.
  rewrite Nat2Z.inj_succ, Z.pow_succ_r by lia. lia.
Qed.

Lemma le_val_bytes n z : le_val (le_bytes n z) = z mod 256 ^ Z.of_nat n.
Proof.
  revert z. induction n as [|n IH]; intros z; [cbn; by rewrite Z.mod_1_r|].
  cbn [le_bytes le_val]. rewrite IH, Nat2Z.inj_succ, Z.pow_succ_r by lia.
  rewrite Z.rem_mul_r by (try apply Z.pow_pos_nonneg; lia). reflexivity.
Qed.

Lemma le_bytes_val s : bytes_ok s -> le_bytes (length s) (le_val s) = s.
Proof.
  induction 1 as [|b s Hb _ IH]; [reflexivity|]. cbn [length le_bytes le_val].
  rewrite (Z.mul_comm 256). unfold is_byte in Hb. rewrite Z.mod_add, Z.mod_small by lia.
  rewrite Z.div_add, Z.div_small, Z.add_0_l by lia. by rewrite IH.
Qed.

Lemma byte_digit k z : 0 <= k -> MBEDTLS_BYTE k z = z / 256 ^ k mod 256.
Proof.
  intros Hk. unfold MBEDTLS_BYTE. rewrite land_255, Z.shiftr_div_pow2, Z.pow_mul_r by lia. reflexivity.
Qed.

Lemma div256 z k : 0 <= k -> z / 256 ^ k / 256 = z / 256 ^ (k + 1).
Proof.
  intros Hk. rewrite Z.pow_add_r, Z.pow_1_r, Z.div_div by (try apply Z.pow_pos_nonneg; lia). reflexivity.
Qed.

Lemma put32_le z : MBEDTLS_PUT_UINT32_LE z = le_bytes 4 z.
Proof.
  unfold MBEDTLS_PUT_UINT32_LE. cbn [le_bytes]. rewrite !byte_digit by lia.
  change (z / 256 ^ 0) with (z / 1). rewrite Z.div_1_r. change (256 ^ 1) with 256.
  rewrite !(Z.div_div z) by lia. reflexivity.
Qed.

Lemma put32_be z : MBEDTLS_PUT_UINT32_BE z = be_bytes 4 z.
Proof. unfold be_bytes. rewrite <- put32_le. reflexivity. Qed.

Lemma put64_be z : MBEDTLS_PUT_UINT64_BE z = be_bytes 8 z.
Proof.
  unfold MBEDTLS_PUT_UINT64_BE, be_bytes. cbn [le_bytes rev app]. rewrite !byte_digit by lia.
  change (z / 256 ^ 0) with (z / 1). rewrite Z.div_1_r. change (256 ^ 1) with 256.
  rewrite !(Z.div_div z) by lia. reflexivity.
Qed.

Lemma shiftl_256 k z : 0 <= k -> Z.shiftl z (8 * k) = z * 256 ^ k.
Proof. intros. rewrite Z.shiftl_mul_pow2, Z.pow_mul_r by lia. reflexivity. Qed.

Lemma get32_le_val a b c d :
  is_byte a -> is_byte b -> is_byte c -> is_byte d ->
  MBEDTLS_GET_UINT32_LE [a; b; c; d] 0 = le_val [a; b; c; d].
Proof.
  intros Ha Hb Hc Hd. unfold MBEDTLS_GET_UINT32_LE. cbn [nth Nat.add le_val].
  unfold is_byte in *. rewrite !Z.shiftl_mul_pow2 by lia.
  rewrite (Z.lor_comm a), (lor_add 8) by lia.
  rewrite (Z.lor_comm _ (c * 2 ^ 16)), (lor_add 16) by lia.
  rewrite (Z.lor_comm _ (d * 2 ^ 24)), (lor_add 24) by lia. lia.
Qed.

Lemma nth_byte (s : bytes) k : bytes_ok s -> is_byte (nth k s 0).
Proof.
  intros H. destruct (Nat.lt_ge_cases k (length s)).
  - rewrite List.Forall_forall in H. apply H, nth_In. assumption.
  - rewrite nth_overflow by lia. unfold is_byte. lia.
Qed.

Lemma take4 (data : bytes) off :
  (off + 4 <= length data)%nat ->
  take 4 (drop off data) = [nth off data 0; nth (off + 1) data 0; nth (off + 2) data 0; nth (off + 3) data 0].
Proof.
  intros H. assert (Hl : (4 <= length (drop off data))%nat) by (rewrite length_drop; lia).
  replace (nth off data 0) with (nth (off + 0) data 0) by (f_equal; lia).
  rewrite <- !nth_skipn. change (skipn off data) with (drop off data).
  destruct (drop off data) as [|a [|b [|c [|d r]]]]; cbn [length] in Hl; try lia. reflexivity.
Qed.

Lemma get32_le data off :
  bytes_ok data -> (off + 4 <= length data)%nat ->
  MBEDTLS_GET_UINT32_LE data off = le_val (take 4 (drop off data)).
Proof.
  intros Hok Hl. rewrite take4, <- get32_le_val by (try exact Hl; by apply nth_byte). reflexivity.
Qed.

Lemma get32_be data off :
  bytes_ok data -> (off + 4 <= length data)%nat ->
  MBEDTLS_GET_UINT32_BE data off = be_val (take 4 (drop off data)).
Proof.
  intros Hok Hl. rewrite take4 by exact Hl. unfold be_val. cbn [rev app].
  rewrite <- get32_le_val by (by apply nth_byte).
  unfold MBEDTLS_GET_UINT32_BE, MBEDTLS_GET_UINT32_LE. cbn [nth Nat.add].
  rewrite (Z.lor_comm (Z.lor _ _) (nth (off + 3) data 0)), (Z.lor_comm _ (Z.shiftl (nth (off + 2) data 0) 8)).
  rewrite (Z.lor_comm (Z.shiftl (nth off data 0) 24)), !Z.lor_assoc. reflexivity.
Qed.

Lemma get64_le data off : bytes_ok data -> (off + 8 <= length data)%nat ->
  MBEDTLS_GET_UINT64_LE data off = le_val (take 8 (drop off data)).
Proof.
  intros Hb Hl. replace (take 8 (drop off data)) with (take 4 (drop off data) ++ take 4 (drop (off + 4) data)).
  2:{ rewrite <- drop_drop. generalize (drop off data). intros l. by do 4 (destruct l as [|? l]; [done|]). }
  rewrite !take4, <- !Nat.add_assoc by lia. cbn [app le_val Nat.add]. pose proof (fun k => nth_byte data k Hb) as N. unfold is_byte in N.
  pose proof (N off). pose proof (N (off + 1)%nat). pose proof (N (off + 2)%nat). pose proof (N (off + 3)%nat).
  pose proof (N (off + 4)%nat). pose proof (N (off + 5)%nat). pose proof (N (off + 6)%nat). pose proof (N (off + 7)%nat).
  unfold MBEDTLS_GET_UINT64_LE. rewrite !Z.shiftl_mul_pow2, <- !Z.lor_assoc by lia.
  rewrite (lor_add 8), (lor_add 16), (lor_add 24), (lor_add 32), (lor_add 40), (lor_add 48), (lor_add 56) by lia. lia.
Qed.

(** Writing a word and reading it back. *)
Lemma get_put32_le z rest : 0 <= z < 2 ^ 32 -> MBEDTLS_GET_UINT32_LE (MBEDTLS_PUT_UINT32_LE z ++ rest) 0 = z.
Proof.
  intros Hz. rewrite put32_le. transitivity (MBEDTLS_GET_UINT32_LE (le_bytes 4 z) 0); [reflexivity|].
  rewrite get32_le by (try apply le_bytes_ok; rewrite le_bytes_length; lia).
  change (take 4 (drop 0 (le_bytes 4 z))) with (le_bytes 4 z). rewrite le_val_bytes. apply Z.mod_small. exact Hz.
Qed.

(** [memcpy] keeps the size of the buffer. *)
Lemma put_at_length buffer off src :
  (off + length src <= length buffer)%nat -> length (put_at buffer off src) = length buffer.
Proof. intros H. unfold put_at. rewrite !length_app, length_take, length_drop. lia. Qed.

Lemma put_at_take buffer off src :
  (off <= length buffer)%nat ->
  take (off + length src) (put_at buffer off src) = take off buffer ++ src.
Proof.
  intros H. unfold put_at. rewrite app_assoc. apply take_app_exact.
  rewrite length_app, length_take. lia.
Qed.

Lemma put_at_full buffer off src :
  (off + length src = length buffer)%nat -> put_at buffer off src = take off buffer ++ src.
Proof. intros H. unfold put_at. rewrite drop_ge, app_nil_r by lia. reflexivity. Qed.

(** ** Rotations *)

(** [((x) << (n)) | (((x) & 0xFFFFFFFF) >> (32 - (n)))] on a [uint32_t], as the
    digests write it. *)
Definition SHL_OR32 (x n : Z) : Z :=
  Z.lor (u32 (Z.shiftl x n)) (Z.shiftr (Z.land x 0xFFFFFFFF) (32 - n)).

(** The rotation of a 32-bit word, as arithmetic. *)
Definition rotl32 (n x : Z) : Z := x mod 2 ^ (32 - n) * 2 ^ n + x mod 2 ^ 32 / 2 ^ (32 - n).

Lemma SHL_OR32_eq x n : 0 <= n <= 32 -> SHL_OR32 x n = rotl32 n x.
Proof.
  intros Hn. unfold SHL_OR32, rotl32, u32. change 0xFFFFFFFF with (Z.ones 32).
  rewrite Z.land_ones, Z.shiftr_div_pow2, Z.shiftl_mul_pow2 by lia.
  assert (E : (x * 2 ^ n) mod 2 ^ 32 = x mod 2 ^ (32 - n) * 2 ^ n).
  { replace (2 ^ 32) with (2 ^ (32 - n) * 2 ^ n) by (rewrite <- Z.pow_add_r by lia; f_equal; lia).
    apply Z.mul_mod_distr_r; apply Z.pow_nonzero; lia. }
  rewrite E, (lor_add n); [lia|lia|].
  pose proof (Z.mod_pos_bound x (2 ^ 32) ltac:(lia)).
  assert (0 < 2 ^ (32 - n)) by (apply Z.pow_pos_nonneg; lia).
  split; [apply Z.div_pos; lia|]. apply Z.div_lt_upper_bound; [lia|].
  rewrite <- Z.pow_add_r by lia. replace (32 - n + n) with 32 by lia. lia.
Qed.

Lemma u32_add_l a b : u32 (u32 a + b) = u32 (a + b).
Proof. apply Z.add_mod_idemp_l. lia. Qed.

Lemma u32_add_r a b : u32 (a + u32 b) = u32 (a + b).
Proof. apply Z.add_mod_idemp_r. lia. Qed.

Lemma u32_idem a : u32 (u32 a) = u32 a.
Proof. apply Z.mod_mod. lia. Qed.

(** Words that agree on their 32 bits. *)
Lemma u32_ext a b : (forall n, 0 <= n < 32 -> Z.testbit a n = Z.testbit b n) -> u32 a = u32 b.
Proof.
  intros H. unfold u32. apply Z.bits_inj'. intros n Hn.
  destruct (Z.lt_ge_cases n 32) as [Hl|Hg].
  - rewrite !Z.mod_pow2_bits_low by lia. apply H. lia.
  - rewrite !Z.mod_pow2_bits_high by lia. reflexivity.
Qed.

Lemma u32_testbit a n : 0 <= n < 32 -> Z.testbit (u32 a) n = Z.testbit a n.
Proof. intros Hn. apply Z.mod_pow2_bits_low. lia. Qed.

(** Two bitwise formulas agree on the 32 bits of a word. *)
Ltac bitwise32 :=
  intros; apply u32_ext; intros ? ?;
  rewrite ?Z.lxor_spec, ?Z.land_spec, ?Z.lor_spec, ?Z.lxor_spec, ?Z.land_spec, ?Z.lor_spec,
    ?u32_testbit, ?Z.lnot_spec by lia;
  repeat match goal with |- context [Z.testbit ?x ?n] => destruct (Z.testbit x n) end; reflexivity.

(** Summands of a word only count modulo 2^32. *)
Lemma u32_congr a b c : u32 a = u32 b -> u32 (a + c) = u32 (b + c).
Proof. intros E. rewrite <- (u32_add_l a), E, u32_add_l. reflexivity. Qed.

Lemma le_val_app a b : le_val (a ++ b) = le_val a + 256 ^ zlen a * le_val b.
Proof.
  induction a as [|x a IH]; [cbn [app le_val length]; change (256 ^ 0) with 1; lia|].
  cbn [app le_val length]. rewrite IH, Nat2Z.inj_succ, Z.pow_succ_r by lia. ring.
Qed.

(** Masks that clear or keep low bits. *)
Lemma land_clear2 x : 0 <= x < 2 ^ 32 -> Z.land x 0xFFFFFFFC = 4 * (x / 4).
Proof.
  intros Hx. transitivity (Z.ldiff x (Z.ones 2)).
  - apply Z.bits_inj'. intros n Hn. rewrite Z.land_spec, Z.ldiff_spec.
    change 0xFFFFFFFC with (Z.shiftl (Z.ones 30) 2). rewrite Z.shiftl_spec by lia.
    destruct (Z.lt_ge_cases n 32) as [Hl|Hg]; [|rewrite (testbit_high 32 x) by lia; reflexivity].
    f_equal. destruct (Z.lt_ge_cases n 2) as [H2|H2].
    + rewrite Z.testbit_neg_r, Z.ones_spec_low by lia. reflexivity.
    + rewrite Z.ones_spec_low, Z.ones_spec_high by lia. reflexivity.
  - rewrite Z.ldiff_ones_r, Z.shiftl_mul_pow2, Z.shiftr_div_pow2 by lia. change (2 ^ 2) with 4. lia.
Qed.

Lemma land_3 x : Z.land x 3 = x mod 4.
Proof. change 3 with (Z.ones 2). rewrite Z.land_ones by lia. reflexivity. Qed.

Lemma le_bytes_cong n : forall a b, a mod 256 ^ Z.of_nat n = b mod 256 ^ Z.of_nat n -> le_bytes n a = le_bytes n b.
Proof.
  induction n as [|n IH]; intros a b E; [reflexivity|]. cbn [le_bytes].
  rewrite Nat2Z.inj_succ, Z.pow_succ_r in E by lia. set (P := 256 ^ Z.of_nat n) in *.
  assert (0 < P) by (apply Z.pow_pos_nonneg; lia).
  rewrite !Z.rem_mul_r in E by lia.
  pose proof (Z.mod_pos_bound a 256 ltac:(lia)). pose proof (Z.mod_pos_bound b 256 ltac:(lia)).
  assert (E1 : a mod 256 = b mod 256) by lia. f_equal; [exact E1|]. apply IH. fold P. lia.
Qed.

Lemma le_bytes_split n m : forall a b,
  0 <= a < 256 ^ Z.of_nat n -> le_bytes (n + m) (a + 256 ^ Z.of_nat n * b) = le_bytes n a ++ le_bytes m b.
Proof.
  induction n as [|n IH]; intros a b Ha.
  - change (256 ^ Z.of_nat 0) with 1 in *. cbn [le_bytes app Nat.add]. f_equal. lia.
  - rewrite Nat2Z.inj_succ, Z.pow_succ_r in * by lia. set (P := 256 ^ Z.of_nat n) in *. cbn [Nat.add le_bytes app].
    assert (E : a + 256 * P * b = a + P * b * 256) by ring. rewrite E, Z.mod_add, Z.div_add by lia. f_equal.
    apply IH. fold P. split; [apply Z.div_pos; lia|apply Z.div_lt_upper_bound; lia].
Qed.

(** A mask in two parts. *)
Lemma land_split k a b c d :
  0 <= k -> 0 <= a < 2 ^ k -> 0 <= c < 2 ^ k ->
  Z.land (a + 2 ^ k * b) (c + 2 ^ k * d) = Z.land a c + 2 ^ k * Z.land b d.
Proof.
  intros Hk Ha Hc. pose proof (land_range k a c Hk ltac:(lia) Hc) as Hr.
  assert (Lo : forall x y n, 0 <= x < 2 ^ k -> 0 <= n < k -> Z.testbit (x + 2 ^ k * y) n = Z.testbit x n).
  { intros x y n Hx Hn. rewrite <- (Z.mod_pow2_bits_low _ k) by lia.
    rewrite Z.mul_comm, Z.mod_add, Z.mod_small by lia. reflexivity. }
  assert (Hi : forall x y n, 0 <= x < 2 ^ k -> k <= n -> Z.testbit (x + 2 ^ k * y) n = Z.testbit y (n - k)).
  { intros x y n Hx Hn. replace n with (n - k + k) at 1 by lia. rewrite <- Z.div_pow2_bits by lia.
    rewrite Z.mul_comm, Z.div_add, Z.div_small by lia. reflexivity. }
  apply Z.bits_inj'. intros n Hn. rewrite Z.land_spec. destruct (Z.lt_ge_cases n k).
  - rewrite !Lo, Z.land_spec by lia. reflexivity.
  - rewrite !Hi, Z.land_spec by lia. reflexivity.
Qed.

Lemma put64_le z : MBEDTLS_PUT_UINT64_LE z = le_bytes 8 z.
Proof.
  transitivity (rev (MBEDTLS_PUT_UINT64_BE z)); [reflexivity|]. rewrite put64_be. apply rev_involutive.
Qed.

Lemma u64_add_l a b : u64 (u64 a + b) = u64 (a + b).
Proof. apply Z.add_mod_idemp_l. lia. Qed.

(** ** Counters *)

Lemma increment_le m z : 0 <= z -> increment (le_bytes m z) = le_bytes m (z + 1).
Proof.
  revert z. induction m as [|m IH]; intros z Hz; [done|]. cbn [le_bytes increment]. unfold u8. change (2 ^ 8) with 256.
  pose proof (Z.mod_pos_bound z 256 ltac:(lia)). pose proof (Z.div_mod z 256 ltac:(lia)).
  assert (E : (z mod 256 + 1) mod 256 = (z + 1) mod 256) by (rewrite Z.add_mod_idemp_l; lia). rewrite E.
  destruct (Z.eqb_spec ((z + 1) mod 256) 0) as [E0|E0]; cbn [negb].
  - rewrite E0. f_equal. rewrite IH by (apply Z.div_pos; lia). f_equal. rewrite <- E in E0.
    assert (z mod 256 = 255) by (destruct (Z.eq_dec (z mod 256) 255); [done|rewrite Z.mod_small in E0; lia]).
    apply (Z.div_unique _ _ _ 0); lia.
  - f_equal. f_equal. assert (z mod 256 <> 255) by (intros W; rewrite W in E; change ((255 + 1) mod 256) with 0 in E; lia).
    apply (Z.div_unique _ _ _ (z mod 256 + 1)); lia.
Qed.

Lemma next_counter_be n k : 0 <= k -> next_counter (be_bytes n k) = be_bytes n (k + 1).
Proof. intros Hk. unfold next_counter, be_bytes. by rewrite rev_involutive, increment_le. Qed.

(** ** Big-endian numbers *)

Lemma be_val_app a b : be_val (a ++ b) = be_val a * 256 ^ zlen b + be_val b.
Proof. unfold be_val. rewrite rev_app_distr, le_val_app, length_rev. lia. Qed.

Lemma be_val_range s : bytes_ok s -> 0 <= be_val s < 256 ^ zlen s.
Proof. intros H. unfold be_val. rewrite <- (length_rev s). apply le_val_range. by apply Forall_rev. Qed.

Lemma be_val_bytes n z : 0 <= z < 256 ^ Z.of_nat n -> be_val (be_bytes n z) = z.
Proof. intros. unfold be_val, be_bytes. rewrite rev_involutive, le_val_bytes. by apply Z.mod_small. Qed.

Lemma be_bytes_val s : bytes_ok s -> be_bytes (length s) (be_val s) = s.
Proof.
  intros H. unfold be_bytes, be_val. rewrite <- (length_rev s), le_bytes_val by (by apply Forall_rev). apply rev_involutive.
Qed.

Lemma be_bytes_split n m a b : 0 <= b < 256 ^ Z.of_nat m -> be_bytes (n + m) (a * 256 ^ Z.of_nat m + b) = be_bytes n a ++ be_bytes m b.
Proof.
  intros H. unfold be_bytes. rewrite <- rev_app_distr, <- le_bytes_split by exact H. f_equal. rewrite Nat.add_comm. f_equal. lia.
Qed.

Lemma be_bytes_cong n a b : a mod 256 ^ Z.of_nat n = b mod 256 ^ Z.of_nat n -> be_bytes n a = be_bytes n b.
Proof. intros E. unfold be_bytes. f_equal. by apply le_bytes_cong. Qed.

(** Two halves of a number under [Z.lxor]. *)
Lemma add_lxor k hi lo : 0 <= k -> 0 <= lo < 2 ^ k -> hi * 2 ^ k + lo = Z.lxor (hi * 2 ^ k) lo.
Proof. intros Hk Hl. rewrite <- Z.add_nocarry_lxor; [done|]. by apply land_disjoint. Qed.

Lemma lxor_split k a b c d : 0 <= k -> 0 <= b < 2 ^ k -> 0 <= d < 2 ^ k ->
  Z.lxor (a * 2 ^ k + b) (c * 2 ^ k + d) = Z.lxor a c * 2 ^ k + Z.lxor b d.
Proof.
  intros Hk Hb Hd. pose proof (lxor_range k b d Hk Hb Hd). rewrite !add_lxor by assumption.
  rewrite <- !Z.shiftl_mul_pow2, Z.shiftl_lxor by assumption.
  rewrite !Z.lxor_assoc. f_equal. rewrite <- !Z.lxor_assoc. f_equal. apply Z.lxor_comm.
Qed.

Lemma be_val_cons x s : be_val (x :: s) = x * 256 ^ zlen s + be_val s.
Proof. change (x :: s) with ([x] ++ s). rewrite be_val_app. unfold be_val at 1. cbn [rev app le_val]. lia. Qed.

Lemma be_val_xor a : forall b, bytes_ok a -> bytes_ok b -> length a = length b -> be_val (zip_with Z.lxor a b) = Z.lxor (be_val a) (be_val b).
Proof.
  induction a as [|x a IH]; intros [|y b] Ha Hb Hl; try discriminate; [done|].
  apply List.Forall_cons_iff in Ha as [Hx Ha]. apply List.Forall_cons_iff in Hb as [Hy Hb]. injection Hl as Hl.
  cbn [zip_with]. rewrite !be_val_cons, IH by assumption. pose proof (be_val_range a Ha) as Ra. pose proof (be_val_range b Hb) as Rb.
  rewrite length_zip_with_l_eq by exact Hl. rewrite <- Hl in *. change 256 with (2 ^ 8) in *.
  rewrite <- Z.pow_mul_r in * by lia. by rewrite lxor_split by lia.
Qed.

Lemma get64_be data off : bytes_ok data -> (off + 8 <= length data)%nat ->
  Z.lor (u64 (Z.shiftl (MBEDTLS_GET_UINT32_BE data off) 32)) (MBEDTLS_GET_UINT32_BE data (off + 4)) = be_val (take 8 (drop off data)).
Proof.
  intros Hb Hl. rewrite !get32_be by (assumption || lia).
  replace (take 8 (drop off data)) with (take 4 (drop off data) ++ take 4 (drop (off + 4) data)).
  2:{ rewrite <- drop_drop. generalize (drop off data). intros l. by do 4 (destruct l as [|? l]; [done|]). }
  set (a := take 4 (drop off data)). set (b := take 4 (drop (off + 4) data)).
  assert (La : length a = 4%nat) by (unfold a; rewrite length_take, length_drop; lia).
  assert (Lb : length b = 4%nat) by (unfold b; rewrite length_take, length_drop; lia).
  pose proof (be_val_range a ltac:(by apply Forall_take, Forall_drop)) as Ra. pose proof (be_val_range b ltac:(by apply Forall_take, Forall_drop)) as Rb.
  rewrite La in Ra. rewrite Lb in Rb. rewrite be_val_app, Lb. change (256 ^ Z.of_nat 4) with (2 ^ 32) in *.
  rewrite Z.shiftl_mul_pow2 by lia. unfold u64. rewrite Z.mod_small by lia. apply lor_add; lia.
Qed.

Lemma put64_be_halves z : 0 <= z -> MBEDTLS_PUT_UINT32_BE (Z.shiftr z 32) ++ MBEDTLS_PUT_UINT32_BE z = be_bytes 8 z.
Proof.
  intros Hz. rewrite !put32_be, Z.shiftr_div_pow2 by lia. rewrite (be_bytes_cong 4 z (z mod 2 ^ 32)) by (symmetry; apply Z.mod_mod; lia).
  rewrite <- (be_bytes_split 4 4) by (apply Z.mod_pos_bound; lia). f_equal. change (256 ^ Z.of_nat 4) with (2 ^ 32). pose proof (Z.div_mod z (2 ^ 32)). lia.
Qed.
