(* ===== verification/JsonDoc.v ===== *)
(** Flat JSON documents as the program writes them, and what its text search
    finds in them.

    Both JSON writers of the program ([save_configuration] in main.cpp and
    [serialize_result] in assist_pipeline_bridge.cpp) print one object whose
    members are strings, numbers and booleans; both readers look a member up by
    searching the text for the quoted key.  This file states, once for both,
    when that search finds the member and not some text inside a value: the
    class [Escaper] is what a writer's escaping function promises, [render] is
    the document, and [cut_render] is the lookup theorem the two round trips
    are proved from. *)
From S2P Require Import Prelude CString.
From stdpp Require Import list.
#[local] Open Scope Z_scope.

(** ** Keys and quoted markers *)

(** A key of the program: letters, digits and underscores. *)
Definition keychar (b : Z) : bool := isalnum b || (b =? 95).
Definition plain_key (k : bytes) : bool := forallb keychar k && negb (is_empty k).

(** The key between double quotes. *)
Definition marker (key : bytes) : bytes := 34 :: key ++ [34].

(** [shadows key v]: the text of the string value [v] itself shows the quoted
    key, because [v] is the key or ends with a quote and the key. *)
Definition shadows (key v : bytes) : Prop := v = key \/ suffix (34 :: key) v.

Fixpoint ends_withb (u v : bytes) : bool :=
  bytes_eqb u v || match v with [] => false | _ :: v' => ends_withb u v' end.

Definition shadowsb (key v : bytes) : bool := bytes_eqb v key || ends_withb (34 :: key) v.

(** ** What an escaping function promises *)
Class Escaper (esc : Z -> bytes) := {
  esc_cases : forall c,
    (esc c = [c] /\ c <> 34 /\ c <> 92) \/
    (exists x t, esc c = 92 :: x :: t /\ Forall (fun b => b <> 34) t /\
                 (x = 34 -> c = 34 /\ t = []));
}.

(** The text of a string value. *)
Definition esc_text (esc : Z -> bytes) (v : bytes) : bytes := concat (List.map esc v).

Lemma keychar_not b : keychar b = true -> b <> 34 /\ b <> 92 /\ b <> 58 /\ b <> 44 /\ b <> 32 /\ 32 < b.
Proof.
  unfold keychar, isalnum, isdigit. rewrite !orb_true_iff, !andb_true_iff, !Z.leb_le, Z.eqb_eq. lia.
Qed.

Lemma plain_key_chars k : plain_key k = true -> Forall (fun b => keychar b = true) k.
Proof. unfold plain_key. rewrite andb_true_iff, forallb_Forall. tauto. Qed.

Lemma plain_key_cons k : plain_key k = true -> exists b r, k = b :: r /\ keychar b = true.
Proof.
  unfold plain_key. destruct k as [|b r]; simpl; [discriminate|].
  rewrite !andb_true_iff. intros [[? ?] ?]. eauto.
Qed.

Lemma ends_withb_spec u v : ends_withb u v = true <-> suffix u v.
Proof.
  induction v as [|b v IH]; simpl.
  - rewrite orb_false_r, bytes_eqb_eq. split; [intros ->; reflexivity|].
    intros H. apply suffix_nil_inv in H. done.
  - rewrite orb_true_iff, bytes_eqb_eq, IH. split.
    + intros [->|H]; [reflexivity|]. by apply suffix_cons_r.
    + intros [[|a k] E]; [by left|]. right. simpl in E. injection E as _ ->. by exists k.
Qed.

Lemma shadowsb_spec k v : shadowsb k v = true <-> shadows k v.
Proof. unfold shadowsb, shadows. rewrite orb_true_iff, bytes_eqb_eq, ends_withb_spec. done. Qed.

Lemma not_shadows k v : shadowsb k v = false -> ~ shadows k v.
Proof. intros E H. apply shadowsb_spec in H. congruence. Qed.

(** ** The members of a document *)

Inductive jval :=
| JStr (v : bytes)       (* a quoted, escaped string *)
| JRaw (raw : bytes).    (* a number or a boolean, as printed *)

Section Document.
Context (esc : Z -> bytes) `{!Escaper esc}.
(** Layout: what is printed before a key, after its colon, between two
    members and after the last one. *)
Context (pre space sep close : bytes).

Definition val_text (v : jval) : bytes :=
  match v with JStr s => 34 :: esc_text esc s ++ [34] | JRaw r => r end.

Definition member_text (f : bytes * jval) : bytes :=
  pre ++ marker (fst f) ++ 58 :: space ++ val_text (snd f).

Fixpoint members (fs : list (bytes * jval)) : bytes :=
  match fs with
  | [] => close
  | [f] => member_text f ++ close
  | f :: fs' => member_text f ++ sep ++ members fs'
  end.

(** [c] can not be the first byte of a key, a quote or a colon. *)
Definition layout_byte (b : Z) : bool :=
  negb (keychar b) && negb (b =? 34) && negb (b =? 58).
Definition layout_ok : bool :=
  forallb layout_byte pre && forallb layout_byte space &&
  forallb layout_byte sep && forallb layout_byte close &&
  negb (is_empty sep) && negb (is_empty close).

Definition raw_ok (v : jval) : bool :=
  match v with
  | JStr _ => true
  | JRaw r => forallb (fun b => negb (b =? 34)) r
  end.

Definition field_ok (f : bytes * jval) : bool := plain_key (fst f) && raw_ok (snd f).

(** The search pattern: a quoted key and what must follow it. *)
Definition pattern (key tail : bytes) : bytes := 34 :: key ++ 34 :: tail.

(** The value does not show the pattern when it is followed by [rest]. *)
Definition hides (key tail : bytes) (v : jval) (rest : bytes) : Prop :=
  match v with
  | JStr s => shadows key s -> prefixb tail rest = false
  | JRaw _ => True
  end.

Lemma esc_text_cons c v : esc_text esc (c :: v) = esc c ++ esc_text esc v.
Proof. reflexivity. Qed.

(** If the text of a value starts with [key] and a quote, the value is [key]. *)
Lemma prefix_esc_text key v tail rest :
  Forall (fun b => keychar b = true) key ->
  prefixb (key ++ 34 :: tail) (esc_text esc v ++ 34 :: rest) = true ->
  v = key /\ prefixb tail rest = true.
Proof.
  intros Hk. revert v. induction Hk as [|k key Hk _ IH]; intros v Hp.
  - destruct v as [|c v]; [change (esc_text esc []) with (@nil Z) in Hp; cbn [app prefixb] in Hp; to_prop; done|].
    rewrite esc_text_cons in Hp.
    destruct (esc_cases c) as [(E & ? & ?)|(x & t & E & _)]; rewrite E in Hp;
      cbn [app prefixb] in Hp; to_prop; lia.
  - apply keychar_not in Hk. destruct v as [|c v]; [change (esc_text esc []) with (@nil Z) in Hp; cbn [app prefixb] in Hp; to_prop; lia|].
    rewrite esc_text_cons in Hp.
    destruct (esc_cases c) as [(E & ? & ?)|(x & t & E & _)]; rewrite E in Hp;
      cbn [app prefixb] in Hp; to_prop; [|lia].
    destruct (IH v) as [-> ?]; [assumption|]. by subst.
Qed.

Lemma no_prefix_esc_text key v tail rest :
  Forall (fun b => keychar b = true) key ->
  (v = key -> prefixb tail rest = false) ->
  prefixb (key ++ 34 :: tail) (esc_text esc v ++ 34 :: rest) = false.
Proof.
  intros Hk H. apply not_true_iff_false. intros P.
  apply prefix_esc_text in P as [E P]; [|exact Hk]. rewrite H in P by exact E. discriminate.
Qed.

Lemma cut_quote_step key tail s :
  prefixb (key ++ 34 :: tail) s = false ->
  cut (pattern key tail) (34 :: s) = cut (pattern key tail) s.
Proof. intros H. apply cut_next. exact H. Qed.

Lemma cut_noquote_step key tail b s :
  b <> 34 -> cut (pattern key tail) (b :: s) = cut (pattern key tail) s.
Proof.
  intros H. apply cut_next. unfold pattern. rewrite prefixb_cons.
  destruct (34 =? b) eqn:E; [to_prop; lia|reflexivity].
Qed.

Lemma cut_noquotes key tail p s :
  Forall (fun b => b <> 34) p -> cut (pattern key tail) (p ++ s) = cut (pattern key tail) s.
Proof. apply cut_skip_head. Qed.

(** Searching through the text of a value, from just after its first quote. *)
Lemma cut_esc_text key tail v rest :
  plain_key key = true ->
  prefixb (key ++ 34 :: tail) rest = false ->
  (suffix (34 :: key) v -> prefixb tail rest = false) ->
  cut (pattern key tail) (esc_text esc v ++ 34 :: rest) = cut (pattern key tail) rest.
Proof.
  intros Hk Hr. apply plain_key_chars in Hk.
  induction v as [|c v IH]; intros Hv; [apply cut_quote_step, Hr|].
  assert (IH' : cut (pattern key tail) (esc_text esc v ++ 34 :: rest) = cut (pattern key tail) rest).
  { apply IH. intros Hs. apply Hv. by apply suffix_cons_r. }
  rewrite esc_text_cons.
  destruct (esc_cases c) as [(E & ? & ?)|(x & t & E & Ht & Hx)]; rewrite E, <- app_assoc.
  - rewrite (cut_noquotes key tail [c]) by (by repeat constructor).
    exact IH'.
  - cbn [app]. rewrite cut_noquote_step by lia.
    destruct (Z.eq_dec x 34) as [->|Hx34].
    + destruct (Hx eq_refl) as [-> ->]. cbn [app]. rewrite cut_quote_step; [exact IH'|].
      apply no_prefix_esc_text; [exact Hk|]. intros ->. apply Hv. reflexivity.
    + rewrite cut_noquote_step by exact Hx34. rewrite cut_noquotes by exact Ht. exact IH'.
Qed.

(** Searching through a whole string value, both quotes included. *)
Lemma cut_string key tail v rest :
  plain_key key = true ->
  prefixb (key ++ 34 :: tail) rest = false ->
  (shadows key v -> prefixb tail rest = false) ->
  cut (pattern key tail) (34 :: esc_text esc v ++ 34 :: rest) = cut (pattern key tail) rest.
Proof.
  intros Hk Hr Hv. rewrite cut_quote_step.
  - apply cut_esc_text; [assumption..|]. intros. apply Hv. by right.
  - apply no_prefix_esc_text; [by apply plain_key_chars|]. intros ->. apply Hv. by left.
Qed.

Lemma prefix_layout key tail b s :
  plain_key key = true -> layout_byte b = true -> prefixb (key ++ 34 :: tail) (b :: s) = false.
Proof.
  intros (k & r & -> & Hk)%plain_key_cons Hb. cbn [app prefixb].
  destruct (k =? b) eqn:E; [|reflexivity]. to_prop. subst.
  unfold layout_byte in Hb. rewrite Hk in Hb. discriminate.
Qed.

Lemma layout_noquotes p : forallb layout_byte p = true -> Forall (fun b => b <> 34) p.
Proof.
  rewrite forallb_Forall. intros H. eapply Forall_impl; [exact H|].
  intros b Hb. unfold layout_byte in Hb. to_prop. assumption.
Qed.

Lemma key_noquotes k : plain_key k = true -> Forall (fun b => b <> 34) k.
Proof.
  intros H%plain_key_chars. eapply Forall_impl; [exact H|]. intros b Hb%keychar_not. lia.
Qed.

(** A different key followed by a colon does not match. *)
Lemma prefix_other_key key key' tail s :
  Forall (fun b => keychar b = true) key -> Forall (fun b => keychar b = true) key' ->
  key <> key' -> prefixb (key ++ 34 :: tail) (key' ++ 34 :: s) = false.
Proof.
  intros H. revert key'. induction H as [|a key Ha _ IH]; intros key' H' Hne.
  - destruct H' as [|b key' Hb _]; [congruence|]. apply keychar_not in Hb. simpl.
    destruct (34 =? b) eqn:E; [to_prop; lia|reflexivity].
  - destruct H' as [|b key' Hb H'].
    + apply keychar_not in Ha. cbn [app prefixb]. destruct (a =? 34) eqn:E; [to_prop; lia|reflexivity].
    + cbn [app prefixb]. destruct (a =? b) eqn:E; [|reflexivity]. to_prop. subst b. apply IH; congruence.
Qed.

Hypothesis Hlayout : layout_ok = true.

Lemma layout_parts :
  forallb layout_byte pre = true /\ forallb layout_byte space = true /\
  (exists b r, sep = b :: r /\ layout_byte b = true /\ forallb layout_byte r = true) /\
  (exists b r, close = b :: r /\ layout_byte b = true /\ forallb layout_byte r = true).
Proof using Hlayout.
  unfold layout_ok in Hlayout. to_prop.
  repeat split; [assumption..| |].
  - destruct sep as [|b r]; [discriminate|]. cbn [forallb] in *. to_prop. eauto.
  - destruct close as [|b r]; [discriminate|]. cbn [forallb] in *. to_prop. eauto.
Qed.

(** Searching past one member whose key is another one, or whose key is
    followed by something else than the pattern wants. *)
Lemma cut_member key tail f b rest :
  plain_key key = true -> field_ok f = true -> layout_byte b = true ->
  (fst f = key -> prefixb tail (58 :: space ++ val_text (snd f) ++ b :: rest) = false) ->
  hides key tail (snd f) (b :: rest) ->
  cut (pattern key tail) (member_text f ++ b :: rest) = cut (pattern key tail) (b :: rest).
Proof using Hlayout Escaper0.
  intros Hk Hf Hb Hkey Hv. destruct layout_parts as (Hpre & Hsp & _ & _).
  destruct f as [k v]. unfold field_ok in Hf. cbn [fst snd] in *. to_prop.
  unfold member_text, marker. cbn [fst snd]. app_norm.
  rewrite cut_noquotes by (by apply layout_noquotes).
  assert (Hq : cut (pattern key tail) (34 :: k ++ 34 :: 58 :: space ++ val_text v ++ b :: rest)
             = cut (pattern key tail) (k ++ 34 :: 58 :: space ++ val_text v ++ b :: rest)).
  { apply cut_quote_step, not_true_iff_false. intros P.
    destruct (bytes_eq_dec k key) as [->|Hne].
    - apply prefixb_iff in P as [t E]. rewrite <- app_assoc in E. apply app_inv_head in E.
      cbn [app] in E. injection E as E. specialize (Hkey eq_refl).
      assert (prefixb tail (58 :: space ++ val_text v ++ b :: rest) = true)
        by (rewrite E; apply prefixb_app). congruence.
    - rewrite prefix_other_key in P; [discriminate|by apply plain_key_chars..|congruence]. }
  rewrite Hq, cut_noquotes by (by apply key_noquotes).
  rewrite cut_quote_step.
  2: { destruct (plain_key_cons key Hk) as (c & r & -> & Hc%keychar_not). cbn [app prefixb].
       destruct (c =? 58) eqn:E; [to_prop; lia|reflexivity]. }
  rewrite cut_noquote_step by lia. rewrite cut_noquotes by (by apply layout_noquotes).
  destruct v as [v|r]; cbn [val_text app].
  - rewrite <- app_assoc. apply cut_string; [exact Hk|by apply prefix_layout|exact Hv].
  - apply cut_noquotes. simpl in H0. apply forallb_Forall in H0.
    eapply Forall_impl; [exact H0|]. simpl. intros x Hx. to_prop. assumption.
Qed.

(** Arriving at the member itself. *)
Lemma cut_at_member key v tail rest :
  forallb layout_byte pre = true -> prefixb tail (58 :: space ++ val_text v ++ rest) = true ->
  cut (pattern key tail) (member_text (key, v) ++ rest) =
  Some (marker key ++ 58 :: space ++ val_text v ++ rest).
Proof using.
  intros Hpre Ht. unfold member_text. cbn [fst snd]. app_norm.
  rewrite cut_noquotes by (by apply layout_noquotes). apply cut_here.
  unfold pattern, marker. apply prefixb_iff.
  apply prefixb_iff in Ht as [t ->]. exists t. app_norm. reflexivity.
Qed.

(** What follows the member at the head of [members (f :: fs)]. *)
Definition after (fs : list (bytes * jval)) : bytes :=
  match fs with [] => close | _ => sep ++ members fs end.

Lemma members_cons f fs : members (f :: fs) = member_text f ++ after fs.
Proof using. destruct fs; reflexivity. Qed.

Lemma after_head fs :
  exists b r, after fs = b :: r /\ layout_byte b = true.
Proof using Hlayout.
  destruct layout_parts as (_ & _ & (b & r & E & Hb & _) & (c & t & E' & Hc & _)).
  unfold after. destruct fs; [rewrite E'|rewrite E]; cbn [app]; eauto.
Qed.

Lemma cut_after key tail fs :
  plain_key key = true ->
  cut (pattern key tail) (after fs) =
  match fs with [] => None | _ => cut (pattern key tail) (members fs) end.
Proof using Hlayout.
  intros Hk. destruct layout_parts as (_ & _ & (b & r & E & Hb & Hr) & (c & t & E' & Hc & Ht)).
  destruct fs as [|f fs]; unfold after.
  - rewrite <- (app_nil_r close), cut_noquotes; [reflexivity|].
    apply layout_noquotes. rewrite E'. simpl. rewrite Hc. exact Ht.
  - rewrite cut_noquotes; [reflexivity|].
    apply layout_noquotes. rewrite E. simpl. rewrite Hb. exact Hr.
Qed.

(** No member before the wanted one shows the pattern. *)
Definition passes (key tail : bytes) (f : bytes * jval) (rest : bytes) : Prop :=
  field_ok f = true /\
  (fst f = key -> prefixb tail (58 :: space ++ val_text (snd f) ++ rest) = false) /\
  hides key tail (snd f) rest.

Lemma cut_members key tail f fs :
  plain_key key = true -> passes key tail f (after fs) ->
  cut (pattern key tail) (members (f :: fs)) = cut (pattern key tail) (after fs).
Proof using Hlayout Escaper0.
  intros Hk (Hf & Hkey & Hh). rewrite members_cons.
  destruct (after_head fs) as (b & r & E & Hb). rewrite E in *.
  apply cut_member; assumption.
Qed.

(** A document none of whose string values shows one of [keys]. *)
Definition doc_ok (keys : list bytes) (fs : list (bytes * jval)) : Prop :=
  Forall (fun f => field_ok f = true /\
    match snd f with
    | JStr v => Forall (fun k => ~ shadows k v) keys
    | JRaw _ => True
    end) fs.

Definition absent (key : bytes) (fs : list (bytes * jval)) : bool :=
  forallb (fun f => negb (bytes_eqb (fst f) key)) fs.

Lemma cut_past key fs gs :
  plain_key key = true -> doc_ok [key] fs -> absent key fs = true -> gs <> [] ->
  cut (marker key) (members (fs ++ gs)) = cut (marker key) (members gs).
Proof using Hlayout Escaper0.
  intros Hk Hd Ha Hg. induction Hd as [|f fs [Hf Hv] Hd IH]; [reflexivity|].
  cbn [absent forallb] in Ha. to_prop.
  change (marker key) with (pattern key []) in *. cbn [app].
  rewrite cut_members; [|exact Hk|].
  - rewrite cut_after by exact Hk. destruct (fs ++ gs) eqn:E; [|by apply IH].
    apply app_eq_nil in E as [_ ->]. done.
  - repeat split; [exact Hf| |].
    + intros E. apply bytes_eqb_neq in H. done.
    + destruct (snd f); [|exact I]. intros Hs. apply Forall_cons_1 in Hv as [Hv _]. done.
Qed.

(** The lookup theorem: the search for a key of the document stops at that
    member, whatever the values before it are. *)
Lemma cut_lookup keys fs i key v :
  In key keys -> plain_key key = true -> doc_ok keys fs ->
  fs !! i = Some (key, v) -> absent key (take i fs) = true ->
  cut (marker key) (members fs) =
  Some (marker key ++ 58 :: space ++ val_text v ++ after (drop (S i) fs)).
Proof using Hlayout Escaper0.
  intros Hin Hk Hd Hi Ha. destruct layout_parts as (Hpre & _).
  rewrite <- (take_drop_middle fs i (key, v) Hi) at 1.
  rewrite cut_past; [|exact Hk| |exact Ha|discriminate].
  - rewrite members_cons. apply (cut_at_member key v []); [exact Hpre|reflexivity].
  - unfold doc_ok in *. eapply Forall_impl; [apply Forall_take, Hd|].
    intros f [Hf Hv]. split; [exact Hf|]. destruct (snd f); [|exact I].
    repeat constructor. rewrite List.Forall_forall in Hv. auto.
Qed.

(** ** Flags

    The program also looks for a key and its value at once, as in
    ["final":true].  No string value can show that, because a quoted key inside
    a value is never followed by a colon. *)
Section Flags.
Context (key t : bytes).
Hypothesis Hk : plain_key key = true.

Lemma flag_passes f fs :
  field_ok f = true -> fst f <> key -> passes key (58 :: t) f (after fs).
Proof using Hlayout.
  intros Hf Hne. split; [exact Hf|]. split; [congruence|]. unfold hides. destruct (snd f); [|exact I].
  intros _. destruct (after_head fs) as (b & r & -> & Hb). cbn [prefixb].
  destruct (Z.eqb_spec 58 b) as [<-|]; [|done]. unfold layout_byte in Hb. to_prop. done.
Qed.

Lemma cut_flag_past fs gs :
  Forall (fun f => field_ok f = true) fs -> absent key fs = true -> gs <> [] ->
  cut (pattern key (58 :: t)) (members (fs ++ gs)) = cut (pattern key (58 :: t)) (members gs).
Proof using Hlayout Escaper0 Hk.
  intros Hf Ha Hg. induction Hf as [|f fs Hf _ IH]; [done|]. cbn [absent forallb] in Ha. to_prop.
  apply bytes_eqb_neq in H. cbn [app]. rewrite cut_members by (auto using flag_passes).
  rewrite cut_after by exact Hk. destruct (fs ++ gs) eqn:E; [apply app_eq_nil in E as [_ ->]; done|].
  by apply IH.
Qed.

Lemma cut_flag_absent fs :
  Forall (fun f => field_ok f = true) fs -> absent key fs = true -> cut (pattern key (58 :: t)) (after fs) = None.
Proof using Hlayout Escaper0 Hk.
  intros Hf Ha. rewrite cut_after by exact Hk. induction Hf as [|f fs Hf _ IH]; [done|].
  cbn [absent forallb] in Ha. to_prop. apply bytes_eqb_neq in H.
  rewrite cut_members by (auto using flag_passes). rewrite cut_after by exact Hk. by apply IH.
Qed.
End Flags.

(** A boolean member, looked for with its value [true]. *)
Lemma contains_flag key fs gs b :
  space = [] -> plain_key key = true -> Forall (fun f => field_ok f = true) (fs ++ gs) ->
  absent key (fs ++ gs) = true ->
  match cut (pattern key (58 :: str "true")) (members (fs ++ (key, JRaw (bool_text b)) :: gs)) with
  | Some _ => true | None => false end = b.
Proof using Hlayout Escaper0.
  intros Hsp Hk Hf Ha. apply Forall_app in Hf as [Hf Hg]. unfold absent in Ha. rewrite forallb_app in Ha. to_prop.
  rewrite cut_flag_past by done. destruct layout_parts as (Hpre & _). destruct b.
  - rewrite members_cons, cut_at_member; [done|exact Hpre|]. rewrite Hsp. reflexivity.
  - rewrite cut_members; [by rewrite cut_flag_absent|exact Hk|]. split.
    + unfold field_ok. cbn [fst snd raw_ok]. by rewrite Hk.
    + split; [|exact I]. intros _. cbn [snd val_text]. rewrite Hsp. reflexivity.
Qed.
End Document.

(** Numbers and booleans print without quotes. *)
Lemma bool_text_noquotes b : forallb (fun c => negb (c =? 34)) (bool_text b) = true.
Proof. destruct b; reflexivity. Qed.

Lemma to_string_noquotes n : 0 <= n -> forallb (fun c => negb (c =? 34)) (to_string n) = true.
Proof.
  intros H. apply forallb_Forall. eapply Forall_impl; [by apply to_string_digits|].
  simpl. intros c Hc%isdigit_spec. apply negb_true_iff, Z.eqb_neq. lia.
Qed.
