(* ===== verification/PanelJson.v ===== *)
(** The JSON text functions of main.cpp: [append_utf8], [parse_json_value],
    [json_escape], [parse_json_int_value], [parse_json_bool_value].  The
    theorems say that reading a member of a document this program wrote gives
    the value that was written. *)
From S2P Require Import Prelude CString JsonDoc.
From stdpp Require Import list.
#[local] Open Scope Z_scope.

(** ** The functions *)

Definition append_utf8 (output : bytes) (codepoint : Z) : bytes :=
  if codepoint <=? 0x7f then output ++ [u8 codepoint]
  else if codepoint <=? 0x7ff then
    output ++ [u8 (Z.lor 0xc0 (Z.shiftr codepoint 6));
               u8 (Z.lor 0x80 (Z.land codepoint 0x3f))]
  else
    output ++ [u8 (Z.lor 0xe0 (Z.shiftr codepoint 12));
               u8 (Z.lor 0x80 (Z.land (Z.shiftr codepoint 6) 0x3f));
               u8 (Z.lor 0x80 (Z.land codepoint 0x3f))].

(** One step of the loop over the four hex digits of [\uXXXX]. *)
Definition hex_step (codepoint : Z) (hex : Z) : option Z :=
  let cp := u32 (Z.shiftl codepoint 4) in
  if (48 <=? hex) && (hex <=? 57) then Some (Z.lor cp (hex - 48))
  else if (97 <=? hex) && (hex <=? 102) then Some (Z.lor cp (hex - 97 + 10))
  else if (65 <=? hex) && (hex <=? 70) then Some (Z.lor cp (hex - 65 + 10))
  else None.

(** The loop of [parse_json_value], from just after the opening quote, with
    the value read so far. *)
Fixpoint scan_value (s value : bytes) {struct s} : bytes :=
  match s with
  | [] => []
  | c :: s1 =>
      if c =? 34 then value
      else if negb (c =? 92) then scan_value s1 (value ++ [c])
      else match s1 with
      | [] => []
      | escaped :: s2 =>
          if escaped =? 34 then scan_value s2 (value ++ [34])
          else if escaped =? 92 then scan_value s2 (value ++ [92])
          else if escaped =? 47 then scan_value s2 (value ++ [47])
          else if escaped =? 98 then scan_value s2 (value ++ [8])
          else if escaped =? 102 then scan_value s2 (value ++ [12])
          else if escaped =? 110 then scan_value s2 (value ++ [10])
          else if escaped =? 114 then scan_value s2 (value ++ [13])
          else if escaped =? 116 then scan_value s2 (value ++ [9])
          else if escaped =? 117 then
            match s2 with
            | h1 :: h2 :: h3 :: h4 :: s3 =>
                match hex_step 0 h1 ≫= fun c1 => hex_step c1 h2 ≫= fun c2 =>
                      hex_step c2 h3 ≫= fun c3 => hex_step c3 h4 with
                | Some codepoint => scan_value s3 (append_utf8 value codepoint)
                | None => []
                end
            | _ => []
            end
          else []
      end
  end.

Definition parse_json_value (json key : bytes) : bytes :=
  match str_find json (marker key) 0 with
  | None => []
  | Some key_pos =>
      match str_find json [58] key_pos with
      | None => []
      | Some colon_pos =>
          match str_find json [34] colon_pos with
          | None => []
          | Some start_quote => scan_value (drop (S start_quote) json) []
          end
      end
  end.

Definition hex_chars : bytes := str "0123456789abcdef".

Definition json_escape_char (c : Z) : bytes :=
  if c =? 34 then [92; 34]
  else if c =? 92 then [92; 92]
  else if c =? 8 then [92; 98]
  else if c =? 12 then [92; 102]
  else if c =? 10 then [92; 110]
  else if c =? 13 then [92; 114]
  else if c =? 9 then [92; 116]
  else if c <? 32 then
    [92; 117; 48; 48; nth (Z.to_nat (Z.shiftr c 4)) hex_chars 0;
     nth (Z.to_nat (Z.land c 15)) hex_chars 0]
  else [c].

Definition json_escape (value : bytes) : bytes := esc_text json_escape_char value.

(** [(size_t) atoll(...)]: the text starts with a digit. *)
Definition parse_json_int_value (json key : bytes) : Z :=
  match str_find json (marker key) 0 with
  | None => 0
  | Some key_pos =>
      match str_find json [58] key_pos with
      | None => 0
      | Some colon_pos =>
          match find_first_of json (str "0123456789") colon_pos with
          | None => 0
          | Some val_start => u64 (fst (strtol10 (drop val_start json)))
          end
      end
  end.

Definition before (p q : option nat) : bool :=
  match p, q with
  | Some a, Some b => (a <? b)%nat
  | Some _, None => true
  | None, _ => false
  end.

Definition parse_json_bool_value (json key : bytes) (fallback : bool) : bool :=
  match str_find json (marker key) 0 with
  | None => fallback
  | Some key_pos =>
      match str_find json [58] key_pos with
      | None => fallback
      | Some colon_pos =>
          let true_pos := str_find json (str "true") colon_pos in
          let false_pos := str_find json (str "false") colon_pos in
          let comma_pos := find_first_of json [44; 125; 10; 13] colon_pos in
          if before true_pos comma_pos then true
          else if before false_pos comma_pos then false
          else fallback
      end
  end.

(** ** Escaping *)

Lemma json_escape_ctrl c :
  0 <= c < 32 ->
  exists x t, json_escape_char c = 92 :: x :: t /\ Forall (fun b => b <> 34) t /\ x <> 34.
Proof.
  intros Hc. by_interval c 0 32%nat;
    (eexists _, _; split; [vm_compute; reflexivity|split; [repeat constructor; lia|lia]]).
Qed.

#[export] Instance json_escape_escaper : Escaper json_escape_char.
Proof.
  constructor. intros c.
  destruct (Z.eq_dec c 34) as [->|]; [right; exists 34, []; auto|].
  destruct (Z.eq_dec c 92) as [->|]; [right; exists 92, []; repeat split; auto; lia|].
  unfold json_escape_char.
  destruct (c =? 34) eqn:?, (c =? 92) eqn:?; to_prop; try lia.
  destruct (c =? 8); [right; eexists _, _; repeat split; auto; lia|].
  destruct (c =? 12); [right; eexists _, _; repeat split; auto; lia|].
  destruct (c =? 10); [right; eexists _, _; repeat split; auto; lia|].
  destruct (c =? 13); [right; eexists _, _; repeat split; auto; lia|].
  destruct (c =? 9); [right; eexists _, _; repeat split; auto; lia|].
  destruct (c <? 32) eqn:?; [|auto]. right. eexists _, _. split; [reflexivity|]. split; [|lia].
  assert (Hh : forall i, nth i hex_chars 0 <> 34).
  { intros i. assert (F : Forall (fun b => b <> 34) hex_chars) by (by apply neq_check).
    destruct (nth_in_or_default i hex_chars 0) as [Hin|E]; [|rewrite E; lia].
    rewrite List.Forall_forall in F. auto. }
  repeat constructor; try lia; apply Hh.
Qed.

Lemma scan_escaped_char c s acc :
  is_byte c -> scan_value (json_escape_char c ++ s) acc = scan_value s (acc ++ [c]).
Proof.
  intros Hc. destruct (Z.lt_ge_cases c 32) as [Hlt|Hge].
  - unfold is_byte in Hc. assert (0 <= c < 32) by lia. clear Hc Hlt.
    by_interval c 0 32%nat; reflexivity.
  - destruct (Z.eq_dec c 34) as [->|]; [reflexivity|].
    destruct (Z.eq_dec c 92) as [->|]; [reflexivity|].
    unfold json_escape_char. case_ifs. simpl.
    destruct (c =? 34) eqn:?, (c =? 92) eqn:?; to_prop; try lia. reflexivity.
Qed.

(** The scanner undoes the escaping, up to the closing quote. *)
Lemma scan_escaped v rest acc :
  bytes_ok v -> scan_value (esc_text json_escape_char v ++ 34 :: rest) acc = acc ++ v.
Proof.
  intros Hv. revert acc. induction Hv as [|c v Hc _ IH]; intros acc.
  - simpl. rewrite app_nil_r. reflexivity.
  - rewrite esc_text_cons, <- app_assoc, scan_escaped_char, IH, <- app_assoc by exact Hc.
    reflexivity.
Qed.

(** ** Reading a member where the search found it *)

Lemma colon_after_marker key rest :
  plain_key key = true -> cut [58] (marker key ++ 58 :: rest) = Some (58 :: rest).
Proof.
  intros Hk%plain_key_chars. rewrite (cut_skip_head 58 [] (marker key)); [by apply cut_here|].
  unfold marker. constructor; [lia|]. apply Forall_app. split; [|repeat constructor; lia].
  eapply Forall_impl; [exact Hk|]. intros b Hb%keychar_not. lia.
Qed.

Section Reading.
Context (json key space rest : bytes).
Hypothesis Hkey : plain_key key = true.
Hypothesis Hspace : Forall (fun b => b = 32) space.

(** The positions the three readers share. *)
Lemma key_and_colon text :
  cut (marker key) json = Some (marker key ++ 58 :: text) ->
  exists key_pos colon_pos,
    str_find json (marker key) 0 = Some key_pos /\
    str_find json [58] key_pos = Some colon_pos /\
    drop colon_pos json = 58 :: text /\ (colon_pos <= length json)%nat.
Proof using Hkey.
  intros Hc. destruct (str_find_at json (marker key) 0 json _ ltac:(lia) eq_refl Hc)
    as (kp & E1 & D1 & B1).
  destruct (str_find_at json [58] kp _ (58 :: text) ltac:(lia) D1)
    as (cp & E2 & D2 & B2); [by apply colon_after_marker|].
  exists kp, cp. repeat split; auto; lia.
Qed.

Lemma parse_value_at v :
  cut (marker key) json =
    Some (marker key ++ 58 :: space ++ val_text json_escape_char (JStr v) ++ rest) ->
  bytes_ok v -> parse_json_value json key = v.
Proof using Hkey Hspace.
  intros Hc Hv. destruct (key_and_colon _ Hc) as (kp & cp & E1 & E2 & D & B).
  destruct (str_find_at json [34] cp _ (val_text json_escape_char (JStr v) ++ rest) B D)
    as (q & E3 & D3 & B3).
  { rewrite app_comm_cons, (cut_skip_head 34 []); [by apply cut_here|].
    constructor; [lia|]. eapply Forall_impl; [exact Hspace|]. simpl. lia. }
  unfold parse_json_value. rewrite E1, E2, E3.
  replace (S q) with (q + 1)%nat by lia. rewrite <- drop_drop, D3.
  unfold val_text. app_norm. cbn [drop]. apply scan_escaped, Hv.
Qed.

Lemma parse_int_at n :
  cut (marker key) json = Some (marker key ++ 58 :: space ++ to_string n ++ rest) ->
  0 <= n < 2 ^ 63 -> stops_digits rest -> parse_json_int_value json key = n.
Proof using Hkey Hspace.
  intros Hc Hn Hr. destruct (key_and_colon _ Hc) as (kp & cp & E1 & E2 & D & B).
  unfold parse_json_int_value. rewrite E1, E2. unfold find_first_of. rewrite D.
  set (isd := fun b => existsb (Z.eqb b) (str "0123456789")).
  assert (F : forall s, Forall (fun b => b = 32) s -> forall t,
             find_pred isd (s ++ t) = (fun k => (length s + k)%nat) <$> find_pred isd t).
  { induction 1 as [|b s -> _ IH]; intros t; simpl.
    - destruct (find_pred isd t); reflexivity.
    - rewrite IH. destruct (find_pred isd t); reflexivity. }
  destruct (to_string_head n) as (d & r & Ed & Hd); [lia|].
  assert (G : find_pred isd (58 :: space ++ to_string n ++ rest) = Some (S (length space))).
  { simpl. rewrite F by exact Hspace. rewrite Ed. simpl.
    assert (isd d = true) as ->; [|simpl; do 2 f_equal; lia].
    apply isdigit_spec in Hd. unfold isd. apply existsb_exists. exists d.
    split; [|apply Z.eqb_refl].
    assert (d = 48 \/ d = 49 \/ d = 50 \/ d = 51 \/ d = 52 \/ d = 53 \/ d = 54 \/ d = 55 \/ d = 56 \/ d = 57)
      as H by lia. unfold str. simpl. intuition. }
  rewrite G. cbn [fmap option_fmap option_map].
  rewrite <- drop_drop, D. cbn [drop]. rewrite drop_app_length.
  rewrite strtol10_to_string by assumption. cbn [fst]. unfold u64. apply Z.mod_small. lia.
Qed.

Lemma parse_bool_at b fallback :
  cut (marker key) json = Some (marker key ++ 58 :: 32 :: bool_text b ++ rest) ->
  match rest with c :: _ => c = 44 \/ c = 10 | [] => False end ->
  parse_json_bool_value json key fallback = b.
Proof using Hkey.
  intros Hc Hr. destruct (key_and_colon _ Hc) as (kp & cp & E1 & E2 & D & B).
  unfold parse_json_bool_value, find_first_of, str_find at 3 4. rewrite E1, E2, D.
  replace (cp <=? length json)%nat with true by (symmetry; apply Nat.leb_le; lia).
  destruct rest as [|c r]; [contradiction|].
  assert (Hp : find_pred (fun b => existsb (Z.eqb b) [44; 125; 10; 13]) (c :: r) = Some O)
    by (simpl; destruct Hr as [-> | ->]; reflexivity).
  destruct b; cbn [bool_text].
  - change (find_at (str "true") (58 :: 32 :: str "true" ++ c :: r)) with (Some 2%nat).
    change (find_pred _ (58 :: 32 :: str "true" ++ c :: r)) with
      (S <$> (S <$> (S <$> (S <$> (S <$> (S <$> find_pred (fun b => existsb (Z.eqb b) [44; 125; 10; 13]) (c :: r))))))).
    rewrite Hp. simpl. destruct (cp + 2 <? cp + 6)%nat eqn:E; [reflexivity|to_prop; lia].
  - change (find_pred _ (58 :: 32 :: str "false" ++ c :: r)) with
      (S <$> (S <$> (S <$> (S <$> (S <$> (S <$> (S <$> find_pred (fun b => existsb (Z.eqb b) [44; 125; 10; 13]) (c :: r)))))))).
    change (find_at (str "true") (58 :: 32 :: str "false" ++ c :: r)) with
      (S <$> (S <$> (S <$> (S <$> (S <$> (S <$> (S <$> find_at (str "true") (c :: r)))))))).
    change (find_at (str "false") (58 :: 32 :: str "false" ++ c :: r)) with (Some 2%nat).
    generalize (find_at (str "true") (c :: r)). intros o. rewrite Hp.
    destruct o as [k|]; simpl.
    + rewrite (proj2 (Nat.ltb_ge (cp + S (S (S (S (S (S (S k))))))) (cp + 7))) by lia.
      rewrite (proj2 (Nat.ltb_lt (cp + 2) (cp + 7))) by lia. reflexivity.
    + rewrite (proj2 (Nat.ltb_lt (cp + 2) (cp + 7))) by lia. reflexivity.
Qed.
End Reading.
