(* ===== verification/Config.v ===== *)
(** The panel's configuration (main.cpp): the global variables that hold it,
    [load_configuration] and [save_configuration] on the file
    /tuya/data/ha_config.json, and the normalisation [MqttClient::configure]
    applies.  The save is modelled on the two paths it touches with the
    outcomes of its system calls as parameters; the round trip says that a
    saved configuration is loaded back unchanged. *)
From S2P Require Import Prelude CString JsonDoc PanelJson.
From stdpp Require Import list.
#[local] Open Scope Z_scope.

(** ** State *)

(** [struct MqttConfig] *)
Record MqttConfig := mkMqttConfig {
  enabled : bool;
  host : bytes;
  port : Z;
  username : bytes;
  password : bytes;
  client_id : bytes;
  base_topic : bytes;
  discovery : bool;
}.

Definition default_mqtt_config : MqttConfig :=
  mkMqttConfig false [] 1883 [] [] (str "tpp01_panel") (str "panel/tpp01") true.

(** The configuration globals of main.cpp. *)
Record Config := mkConfig {
  ha_url : bytes;
  ha_token : bytes;
  ha_entity_1 : bytes;
  ha_entity_2 : bytes;
  ha_entity_1_name : bytes;
  ha_entity_2_name : bytes;
  g_mqtt_config : MqttConfig;
  g_web_autostart : bool;
  g_ha_autostart : bool;
}.

Definition initial_config : Config :=
  mkConfig [] [] [] [] (str "ŚWIATŁO") (str "WENTYLATOR") default_mqtt_config true false.

(** ** [load_configuration] *)

Definition config_space (c : Z) : bool := (c =? 32) || (c =? 13) || (c =? 10) || (c =? 9).

Definition if_empty (s d : bytes) : bytes := if is_empty s then d else s.

(** [file] is the content of ha_config.json, [None] when it does not open. *)
Definition load_configuration (file : option bytes) (g : Config) : Config * bool :=
  match file with
  | None => (g, false)
  | Some json =>
      let url := rtrim config_space (parse_json_value json (str "ha_url")) in
      let token := rtrim config_space (parse_json_value json (str "ha_token")) in
      let entity_1 := parse_json_value json (str "entity_1") in
      let entity_2 := parse_json_value json (str "entity_2") in
      let configured_name_1 := parse_json_value json (str "entity_1_name") in
      let configured_name_2 := parse_json_value json (str "entity_2_name") in
      let port_val := s32 (parse_json_int_value json (str "mqtt_port")) in
      let topic := parse_json_value json (str "mqtt_topic") in
      let mqtt := mkMqttConfig
        (parse_json_bool_value json (str "mqtt_enabled") false)
        (parse_json_value json (str "mqtt_host"))
        (if port_val >? 0 then port_val else 1883)
        (parse_json_value json (str "mqtt_user"))
        (parse_json_value json (str "mqtt_pass"))
        (client_id (g_mqtt_config g))
        (if_empty topic (str "panel/tpp01"))
        (parse_json_bool_value json (str "mqtt_discovery") true) in
      let g' := mkConfig url token
        (if_empty entity_1 (str "light.living_room"))
        (if_empty entity_2 (str "switch.fan"))
        (if_empty configured_name_1 (ha_entity_1_name g))
        (if_empty configured_name_2 (ha_entity_2_name g))
        mqtt
        (parse_json_bool_value json (str "web_autostart") true)
        (parse_json_bool_value json (str "ha_autostart") false) in
      (g', negb (is_empty url) && negb (is_empty token))
  end.

(** ** [save_configuration] *)

(** What the output stream receives. *)
Definition config_text (g : Config) : bytes :=
  str "{" ++ [10] ++
  dq "  'ha_url': '" ++ json_escape (ha_url g) ++ dq "'," ++ [10] ++
  dq "  'ha_token': '" ++ json_escape (ha_token g) ++ dq "'," ++ [10] ++
  dq "  'entity_1': '" ++ json_escape (ha_entity_1 g) ++ dq "'," ++ [10] ++
  dq "  'entity_1_name': '" ++ json_escape (ha_entity_1_name g) ++ dq "'," ++ [10] ++
  dq "  'entity_2': '" ++ json_escape (ha_entity_2 g) ++ dq "'," ++ [10] ++
  dq "  'entity_2_name': '" ++ json_escape (ha_entity_2_name g) ++ dq "'," ++ [10] ++
  dq "  'mqtt_enabled': " ++ bool_text (enabled (g_mqtt_config g)) ++ str "," ++ [10] ++
  dq "  'mqtt_host': '" ++ json_escape (host (g_mqtt_config g)) ++ dq "'," ++ [10] ++
  dq "  'mqtt_port': " ++ to_string (port (g_mqtt_config g)) ++ str "," ++ [10] ++
  dq "  'mqtt_user': '" ++ json_escape (username (g_mqtt_config g)) ++ dq "'," ++ [10] ++
  dq "  'mqtt_pass': '" ++ json_escape (password (g_mqtt_config g)) ++ dq "'," ++ [10] ++
  dq "  'mqtt_topic': '" ++ json_escape (base_topic (g_mqtt_config g)) ++ dq "'," ++ [10] ++
  dq "  'mqtt_discovery': " ++ bool_text (discovery (g_mqtt_config g)) ++ str "," ++ [10] ++
  dq "  'web_autostart': " ++ bool_text (g_web_autostart g) ++ str "," ++ [10] ++
  dq "  'ha_autostart': " ++ bool_text (g_ha_autostart g) ++ [10] ++
  str "}" ++ [10].

(** The two paths the save touches. *)
Record Disk := mkDisk { config_file : option bytes; temp_file : option bytes }.

(** Outcomes of [ofstream::open], of the writes and the close, and of
    [rename]; [short] is what a failed write leaves in the temporary file. *)
Record SaveIo := mkSaveIo { open_ok : bool; write_ok : bool; short : bytes; rename_ok : bool }.

(** The states of the disk the save goes through, the last one first, and its
    result.  A crash of the program leaves one of them. *)
Definition save_configuration (io : SaveIo) (g : Config) (d : Disk) : list Disk * bool :=
  if negb (open_ok io) then ([d], false)
  else
    let created := mkDisk (config_file d) (Some []) in
    if negb (write_ok io) then
      ([mkDisk (config_file d) None; mkDisk (config_file d) (Some (short io)); created; d], false)
    else
      let written := mkDisk (config_file d) (Some (config_text g)) in
      if negb (rename_ok io) then ([mkDisk (config_file d) None; written; created; d], false)
      else ([mkDisk (Some (config_text g)) None; written; created; d], true).

Definition saved_disk (r : list Disk * bool) (d : Disk) : Disk := default d (head (fst r)).

(** [MqttClient::configure] *)
Definition configure (config : MqttConfig) : MqttConfig :=
  mkMqttConfig (enabled config) (host config)
    (if port config <=? 0 then 1883 else port config)
    (username config) (password config)
    (if_empty (client_id config) (str "tpp01_panel"))
    (if_empty (base_topic config) (str "panel/tpp01"))
    (discovery config).

(** What is on the disk after the save. *)
Lemma save_atomic_facts io g d :
  let '(states, ok) := save_configuration io g d in
  config_file (saved_disk (states, ok) d) = if ok then Some (config_text g) else config_file d.
Proof.
  unfold save_configuration, saved_disk.
  destruct (open_ok io), (write_ok io), (rename_ok io); reflexivity.
Qed.

(** ** The saved text as a document *)

Definition config_fields (g : Config) : list (bytes * jval) :=
  let m := g_mqtt_config g in
  [(str "ha_url", JStr (ha_url g)); (str "ha_token", JStr (ha_token g));
   (str "entity_1", JStr (ha_entity_1 g)); (str "entity_1_name", JStr (ha_entity_1_name g));
   (str "entity_2", JStr (ha_entity_2 g)); (str "entity_2_name", JStr (ha_entity_2_name g));
   (str "mqtt_enabled", JRaw (bool_text (enabled m))); (str "mqtt_host", JStr (host m));
   (str "mqtt_port", JRaw (to_string (port m))); (str "mqtt_user", JStr (username m));
   (str "mqtt_pass", JStr (password m)); (str "mqtt_topic", JStr (base_topic m));
   (str "mqtt_discovery", JRaw (bool_text (discovery m)));
   (str "web_autostart", JRaw (bool_text (g_web_autostart g)));
   (str "ha_autostart", JRaw (bool_text (g_ha_autostart g)))].

Definition config_keys : list bytes :=
  [str "ha_url"; str "ha_token"; str "entity_1"; str "entity_1_name"; str "entity_2";
   str "entity_2_name"; str "mqtt_enabled"; str "mqtt_host"; str "mqtt_port"; str "mqtt_user";
   str "mqtt_pass"; str "mqtt_topic"; str "mqtt_discovery"; str "web_autostart"; str "ha_autostart"].

Definition config_members : list (bytes * jval) -> bytes :=
  members json_escape_char (str "  ") (str " ") ([44; 10]) ([10; 125; 10]).

Lemma config_text_members g : config_text g = [123; 10] ++ config_members (config_fields g).
Proof.
  unfold config_text, config_members, config_fields, json_escape.
  cbn [members]. unfold member_text, marker, val_text. cbn [fst snd].
  app_norm. reflexivity.
Qed.

(** A string the file can hold: bytes, and not showing a key of the file. *)
Definition storable (v : bytes) : bool :=
  forallb is_byteb v && forallb (fun k => negb (shadowsb k v)) config_keys.

Definition untrimmed (v : bytes) : bool :=
  match last v with Some c => negb (config_space c) | None => true end.

(** The configurations the file represents exactly. *)
Definition config_ok (g : Config) : bool :=
  let m := g_mqtt_config g in
  forallb storable [ha_url g; ha_token g; ha_entity_1 g; ha_entity_2 g; ha_entity_1_name g;
                    ha_entity_2_name g; host m; username m; password m; base_topic m] &&
  untrimmed (ha_url g) && untrimmed (ha_token g) &&
  negb (is_empty (ha_entity_1 g)) && negb (is_empty (ha_entity_2 g)) &&
  negb (is_empty (ha_entity_1_name g)) && negb (is_empty (ha_entity_2_name g)) &&
  negb (is_empty (base_topic m)) && (0 <? port m) && (port m <? 2 ^ 31).

Lemma storable_spec v :
  storable v = true -> bytes_ok v /\ Forall (fun k => ~ shadows k v) config_keys.
Proof.
  unfold storable. rewrite andb_true_iff. intros [H1 H2]. split; [by apply bytes_ok_check|].
  apply forallb_Forall in H2. eapply Forall_impl; [exact H2|]. simpl. intros k Hk.
  to_prop. by apply not_shadows.
Qed.

Lemma untrimmed_rtrim v : untrimmed v = true -> rtrim config_space v = v.
Proof.
  intros H. apply rtrim_id. unfold untrimmed in H. destruct (last v); [|exact I].
  to_prop. exact H.
Qed.

Lemma if_empty_id s d : is_empty s = false -> if_empty s d = s.
Proof. intros H. unfold if_empty. rewrite H. reflexivity. Qed.

Lemma one_space : Forall (fun b => b = 32) (str " ").
Proof. change (str " ") with [32]. repeat constructor. Qed.

Section RoundTrip.
Context (g : Config).
Hypothesis Hg : config_ok g = true.

Lemma config_doc_ok : doc_ok config_keys (config_fields g).
Proof using Hg.
  unfold config_ok in Hg. cbn [forallb] in Hg. to_prop.
  repeat match goal with H : storable _ = true |- _ => apply storable_spec in H as [_ ?] end.
  unfold doc_ok, config_fields.
  repeat (apply List.Forall_cons; [split; [|try assumption; exact I]|]); [..|apply List.Forall_nil];
    unfold field_ok; cbn [fst snd raw_ok];
    rewrite ?bool_text_noquotes, ?to_string_noquotes by lia; reflexivity.
Qed.

Lemma config_lookup i key v :
  config_fields g !! i = Some (key, v) ->
  existsb (bytes_eqb key) config_keys = true -> plain_key key = true ->
  absent key (take i (config_fields g)) = true ->
  cut (marker key) (config_text g) =
  Some (marker key ++ 58 :: str " " ++ val_text json_escape_char v ++
        after json_escape_char (str "  ") (str " ") [44; 10] [10; 125; 10]
          (drop (S i) (config_fields g))).
Proof using Hg.
  intros Hi Hin Hk Ha. rewrite config_text_members.
  change (cut (marker key)) with (cut (34 :: key ++ [34])).
  rewrite (cut_skip_head 34) by (repeat constructor; lia).
  apply existsb_exists in Hin as (k & Hin & E). apply bytes_eqb_eq in E as <-.
  exact (cut_lookup json_escape_char (str "  ") (str " ") [44; 10] [10; 125; 10] eq_refl
           config_keys _ i key v Hin Hk config_doc_ok Hi Ha).
Qed.

Lemma config_string i key v :
  config_fields g !! i = Some (key, JStr v) -> storable v = true ->
  existsb (bytes_eqb key) config_keys = true -> plain_key key = true ->
  absent key (take i (config_fields g)) = true ->
  parse_json_value (config_text g) key = v.
Proof using Hg.
  intros Hi [Hv _]%storable_spec Hin Hk Ha.
  eapply (parse_value_at _ _ (str " ")); [exact Hk|exact one_space| |exact Hv].
  by apply config_lookup.
Qed.

Lemma config_bool i key b fallback :
  config_fields g !! i = Some (key, JRaw (bool_text b)) ->
  existsb (bytes_eqb key) config_keys = true -> plain_key key = true ->
  absent key (take i (config_fields g)) = true ->
  parse_json_bool_value (config_text g) key fallback = b.
Proof using Hg.
  intros Hi Hin Hk Ha. pose proof (config_lookup i key _ Hi Hin Hk Ha) as H.
  eapply parse_bool_at; [exact Hk|exact H|].
  destruct (drop (S i) (config_fields g)); simpl; auto.
Qed.

Lemma config_port :
  parse_json_int_value (config_text g) (str "mqtt_port") = port (g_mqtt_config g).
Proof using Hg.
  pose proof Hg as H. unfold config_ok in H. cbn [forallb] in H. to_prop.
  pose proof (config_lookup 8 (str "mqtt_port") (JRaw (to_string (port (g_mqtt_config g))))
                eq_refl eq_refl eq_refl eq_refl) as L.
  eapply (parse_int_at _ _ (str " ")); [reflexivity|exact one_space|exact L|lia|reflexivity].
Qed.
End RoundTrip.

(** A field of a well-formed configuration, looked up by its index. *)
Ltac config_field Hg i :=
  first [ eapply (config_string _ Hg i); [reflexivity|assumption|reflexivity..]
        | eapply (config_bool _ Hg i); reflexivity ].

Lemma load_save_facts (g g0 : Config) (Hg : config_ok g = true) :
  load_configuration (Some (config_text g)) g0 =
  (mkConfig (ha_url g) (ha_token g) (ha_entity_1 g) (ha_entity_2 g) (ha_entity_1_name g)
     (ha_entity_2_name g)
     (mkMqttConfig (enabled (g_mqtt_config g)) (host (g_mqtt_config g)) (port (g_mqtt_config g))
        (username (g_mqtt_config g)) (password (g_mqtt_config g)) (client_id (g_mqtt_config g0))
        (base_topic (g_mqtt_config g)) (discovery (g_mqtt_config g)))
     (g_web_autostart g) (g_ha_autostart g),
   negb (is_empty (ha_url g)) && negb (is_empty (ha_token g))).
Proof.
  pose proof Hg as H. unfold config_ok in H. cbn [forallb] in H. to_prop.
  unfold load_configuration.
  rewrite (config_string g Hg 0 (str "ha_url") (ha_url g)) by (assumption || reflexivity).
  rewrite (config_string g Hg 1 (str "ha_token") (ha_token g)) by (assumption || reflexivity).
  rewrite (config_string g Hg 2 (str "entity_1") (ha_entity_1 g)) by (assumption || reflexivity).
  rewrite (config_string g Hg 3 (str "entity_1_name") (ha_entity_1_name g)) by (assumption || reflexivity).
  rewrite (config_string g Hg 4 (str "entity_2") (ha_entity_2 g)) by (assumption || reflexivity).
  rewrite (config_string g Hg 5 (str "entity_2_name") (ha_entity_2_name g)) by (assumption || reflexivity).
  rewrite (config_bool g Hg 6 (str "mqtt_enabled") (enabled (g_mqtt_config g))) by reflexivity.
  rewrite (config_string g Hg 7 (str "mqtt_host") (host (g_mqtt_config g))) by (assumption || reflexivity).
  rewrite (config_port g Hg).
  rewrite (config_string g Hg 9 (str "mqtt_user") (username (g_mqtt_config g))) by (assumption || reflexivity).
  rewrite (config_string g Hg 10 (str "mqtt_pass") (password (g_mqtt_config g))) by (assumption || reflexivity).
  rewrite (config_string g Hg 11 (str "mqtt_topic") (base_topic (g_mqtt_config g))) by (assumption || reflexivity).
  rewrite (config_bool g Hg 12 (str "mqtt_discovery") (discovery (g_mqtt_config g))) by reflexivity.
  rewrite (config_bool g Hg 13 (str "web_autostart") (g_web_autostart g)) by reflexivity.
  rewrite (config_bool g Hg 14 (str "ha_autostart") (g_ha_autostart g)) by reflexivity.
  rewrite !untrimmed_rtrim, !if_empty_id by assumption.
  rewrite s32_small, Z.gtb_ltb by lia.
  destruct (0 <? port (g_mqtt_config g)) eqn:E; [reflexivity|to_prop; lia].
Qed.

(** C6. Save, then load: for every configuration the file format can hold
    ([config_ok]), [load_configuration] reads from the text
    [save_configuration] writes exactly the configuration that was saved,
    whatever the globals were before (only [client_id], which is not in the
    file, is kept), and succeeds exactly when a URL and a token are set. *)
Theorem load_save_roundtrip (g g0 : Config) (Hg : config_ok g = true) :
  load_configuration (Some (config_text g)) g0 =
  (mkConfig (ha_url g) (ha_token g) (ha_entity_1 g) (ha_entity_2 g) (ha_entity_1_name g)
     (ha_entity_2_name g)
     (mkMqttConfig (enabled (g_mqtt_config g)) (host (g_mqtt_config g)) (port (g_mqtt_config g))
        (username (g_mqtt_config g)) (password (g_mqtt_config g)) (client_id (g_mqtt_config g0))
        (base_topic (g_mqtt_config g)) (discovery (g_mqtt_config g)))
     (g_web_autostart g) (g_ha_autostart g),
   negb (is_empty (ha_url g)) && negb (is_empty (ha_token g))).
Proof. exact (load_save_facts g g0 Hg). Qed.

Definition sample_config : Config :=
  mkConfig (str "https://ha.local:8123") (dq "tok'en\1") (str "light.salon") (str "switch.fan")
    (str "ŚWIATŁO") (str "Wentylator") 
    (mkMqttConfig true (str "10.0.0.2") 1884 (str "user") [34; 10; 1] (str "tpp01_panel")
       (str "panel/tpp01") false) true false.

Lemma load_save_roundtrip_witness :
  config_ok sample_config = true /\
  load_configuration (Some (config_text sample_config)) initial_config = (sample_config, true).
Proof.
  split; [vm_compute; reflexivity|].
  rewrite (load_save_roundtrip sample_config initial_config) by (vm_compute; reflexivity).
  reflexivity.
Defined.

(** C23. The save is atomic: every state of the disk it goes through, and so
    every state that other processes see, and that a crash of the program can
    leave (no [fsync] orders the writes for a loss of power), has the old configuration file or, once the
    rename succeeded, the complete new one; the result tells which, and no
    temporary file survives once one was created. *)
Theorem save_atomic (io : SaveIo) (g : Config) (d : Disk) :
  let '(states, ok) := save_configuration io g d in
  let final := saved_disk (save_configuration io g d) d in
  Forall (fun s => config_file s = config_file d \/ config_file s = Some (config_text g)) states /\
  config_file final = (if ok then Some (config_text g) else config_file d) /\
  ok = open_ok io && write_ok io && rename_ok io /\
  (open_ok io = true -> temp_file final = None).
Proof.
  unfold save_configuration, saved_disk.
  destruct (open_ok io), (write_ok io), (rename_ok io);
    (split; [repeat apply List.Forall_cons; try apply List.Forall_nil; cbn; auto|];
     repeat split; try discriminate; reflexivity).
Qed.

(** The same entity name that is also a key of the file: the quoted name is
    found before the key, and the next string of the file is read instead. *)
Definition shadowing_config : Config :=
  mkConfig (ha_url sample_config) (ha_token sample_config) (ha_entity_1 sample_config)
    (ha_entity_2 sample_config) (str "mqtt_host") (ha_entity_2_name sample_config)
    (g_mqtt_config sample_config) true false.

(** Without the condition of the round trip it fails: after naming the
    first entity "mqtt_host" (a name [cgi_config_main] accepts) the loaded
    MQTT host is the second entity id. *)
Theorem shadowed_key_misread :
  host (g_mqtt_config (fst (load_configuration (Some (config_text shadowing_config)) initial_config)))
  = ha_entity_2 shadowing_config /\
  host (g_mqtt_config shadowing_config) <> ha_entity_2 shadowing_config /\
  config_ok shadowing_config = false.
Proof. repeat split; vm_compute; congruence. Qed.
