(* ===== verification/Portal.v ===== *)
(** The web portal's configuration endpoint (main.cpp, [--cgi-config]): the
    form decoder ([hex_value], [url_decode], [form_value], [trim_copy],
    [form_bool]), the validators and [cgi_config_main] with every early
    return, the update of the globals and the save. *)
From S2P Require Import Prelude CString JsonDoc PanelJson Config.
From stdpp Require Import list.
#[local] Open Scope Z_scope.

(** ** Form decoding *)

Definition hex_value (c : Z) : Z :=
  if (48 <=? c) && (c <=? 57) then c - 48
  else if (97 <=? c) && (c <=? 102) then c - 97 + 10
  else if (65 <=? c) && (c <=? 70) then c - 65 + 10
  else -1.

Fixpoint url_decode (value : bytes) : bytes :=
  match value with
  | [] => []
  | c :: rest =>
      if c =? 43 then 32 :: url_decode rest
      else if c =? 37 then
        match rest with
        | h :: l :: rest' =>
            let high := hex_value h in
            let low := hex_value l in
            if (high >=? 0) && (low >=? 0)
            then u8 (Z.lor (Z.shiftl high 4) low) :: url_decode rest'
            else c :: url_decode rest
        | _ => c :: url_decode rest
        end
      else c :: url_decode rest
  end.

(** The loop of [form_value] from [start], with fuel for its iterations. *)
Fixpoint form_value_loop (fuel : nat) (body key : bytes) (start : nat) : option bytes :=
  match fuel with
  | O => None
  | S f =>
      if (start <=? length body)%nat then
        let stop := default (length body) (str_find body [38] start) in
        let next :=
          if (stop =? length body)%nat then Some [] else form_value_loop f body key (S stop) in
        match str_find body [61] start with
        | Some equals =>
            if (equals <? stop)%nat &&
               bytes_eqb (url_decode (substr body start (equals - start))) key
            then Some (url_decode (substr body (equals + 1) (stop - equals - 1)))
            else next
        | None => next
        end
      else Some []
  end.

(** Each iteration moves [start] forward, so [length body + 2] of them are
    enough ([form_value_total]). *)
Definition form_value (body key : bytes) : bytes :=
  default [] (form_value_loop (length body + 2) body key 0).

Definition trim_copy (value : bytes) : bytes := rtrim isspace (ltrim isspace value).

Definition form_bool (body key : bytes) : bool :=
  let value := form_value body key in
  bytes_eqb value (str "true") || bytes_eqb value (str "1") || bytes_eqb value (str "on").

Definition valid_entity_id (value : bytes) : bool :=
  match str_find value [46] 0 with
  | None => false
  | Some dot =>
      negb (is_empty value || (128 <? zlen value) || (dot =? 0)%nat ||
            (dot =? length value - 1)%nat) &&
      forallb (fun c => isalnum c || (c =? 95) || (c =? 46)) value
  end.

(** ** The response *)

Definition cgi_json_response (status : Z) (json : bytes) : bytes :=
  (if negb (status =? 200) then
     str "Status: " ++ to_string status ++ str " " ++
     (if status =? 403 then str "Forbidden"
      else if status =? 500 then str "Internal Server Error" else str "Bad Request") ++ [13; 10]
   else []) ++
  str "Content-Type: application/json; charset=utf-8" ++ [13; 10] ++
  str "Cache-Control: no-store" ++ [13; 10; 13; 10] ++
  json ++ [10].

(** ** The handler *)

(** What the handler reads from its process: environment variables, standard
    input, and the outcome of opening and locking the lock file. *)
Record Request := mkRequest {
  request_method : option bytes;
  requested_with : option bytes;
  content_length : option bytes;
  stdin : bytes;
  lock_ok : bool;
  save_io : SaveIo;
}.

(** The globals and the disk after the handler, what it printed, its exit code. *)
Record Reply := mkReply { globals : Config; disk : Disk; status : Z; output : bytes; code : Z }.

Definition reply (g : Config) (d : Disk) (st : Z) (json : bytes) (c : Z) : Reply :=
  mkReply g d st (cgi_json_response st json) c.

(** The section updates: the new globals, or the field and the error. *)
Definition update := (Config + bytes * bytes)%type.

Definition opt_is (o : option bytes) (s : bytes) : bool :=
  match o with Some v => bytes_eqb v s | None => false end.

Definition set_ha (g : Config) (url token e1 n1 e2 n2 : bytes) : Config :=
  mkConfig url token e1 e2 n1 n2 (g_mqtt_config g) (g_web_autostart g) (g_ha_autostart g).

Definition section_ha (g : Config) (body : bytes) : update :=
  let disconnect := form_bool body (str "disconnect") in
  let new_url := trim_copy (form_value body (str "ha_url")) in
  let new_token := trim_copy (form_value body (str "ha_token")) in
  let new_entity_1 := trim_copy (form_value body (str "entity_1")) in
  let new_entity_2 := trim_copy (form_value body (str "entity_2")) in
  let new_name_1 := trim_copy (form_value body (str "entity_1_name")) in
  let new_name_2 := trim_copy (form_value body (str "entity_2_name")) in
  if disconnect then
    inl (set_ha g [] [] [] (ha_entity_1_name g) [] (ha_entity_2_name g))
  else if negb (starts_with new_url (str "http://") || starts_with new_url (str "https://"))
          || (512 <? zlen new_url) then
    inr (str "ha_url", str "Invalid Home Assistant URL")
  else if is_empty new_token && is_empty (ha_token g) then
    inr (str "ha_token", str "Access token is required")
  else if negb (valid_entity_id new_entity_1) then
    inr (str "entity_1", str "Invalid first entity ID")
  else if negb (valid_entity_id new_entity_2) then
    inr (str "entity_2", str "Invalid second entity ID")
  else if is_empty new_name_1 || (64 <? zlen new_name_1) ||
          is_empty new_name_2 || (64 <? zlen new_name_2) then
    inr (str "entity_names", str "Entity names must contain 1 to 64 bytes")
  else
    inl (set_ha g new_url (if is_empty new_token then ha_token g else new_token)
           new_entity_1 new_name_1 new_entity_2 new_name_2).

Definition set_mqtt (g : Config) (m : MqttConfig) : Config :=
  mkConfig (ha_url g) (ha_token g) (ha_entity_1 g) (ha_entity_2 g) (ha_entity_1_name g)
    (ha_entity_2_name g) m (g_web_autostart g) (g_ha_autostart g).

Definition section_mqtt (g : Config) (body : bytes) : update :=
  let m := g_mqtt_config g in
  let host' := trim_copy (form_value body (str "mqtt_host")) in
  let port_text := trim_copy (form_value body (str "mqtt_port")) in
  let username' := form_value body (str "mqtt_user") in
  let password' := form_value body (str "mqtt_pass") in
  let topic := trim_copy (form_value body (str "mqtt_topic")) in
  let '(port', port_end) := strtol10 port_text in
  let enabled' := form_bool body (str "mqtt_enabled") in
  if enabled' && (is_empty host' || (255 <? zlen host')) then
    inr (str "mqtt_host", str "MQTT host is required")
  else if is_empty port_text || negb (nth port_end port_text 0 =? 0) ||
          (port' <? 1) || (65535 <? port') then
    inr (str "mqtt_port", str "MQTT port must be between 1 and 65535")
  else if (255 <? zlen username') || (512 <? zlen password') then
    inr (str "mqtt_credentials", str "MQTT credentials are too long")
  else if is_empty topic || (255 <? zlen topic) then
    inr (str "mqtt_topic", str "MQTT base topic is required")
  else
    inl (set_mqtt g (mkMqttConfig enabled' host' port' username'
           (if is_empty password' then password m else password')
           (client_id m) topic (form_bool body (str "mqtt_discovery")))).

Definition section_system (g : Config) (body : bytes) : update :=
  inl (mkConfig (ha_url g) (ha_token g) (ha_entity_1 g) (ha_entity_2 g) (ha_entity_1_name g)
         (ha_entity_2_name g) (g_mqtt_config g)
         (form_bool body (str "web_autostart")) (form_bool body (str "ha_autostart"))).

Definition apply_section (g : Config) (section body : bytes) : update :=
  if bytes_eqb section (str "ha") then section_ha g body
  else if bytes_eqb section (str "mqtt") then section_mqtt g body
  else if bytes_eqb section (str "system") then section_system g body
  else inr (str "section", str "Unknown configuration section").

Definition cgi_config_main (rq : Request) (g : Config) (d : Disk) : Reply :=
  if negb (opt_is (request_method rq) (str "POST")) then
    reply g d 400 (dq "{'ok':false,'error':'POST required'}") 1
  else if negb (opt_is (requested_with rq) (str "TPP01-Panel")) then
    reply g d 403 (dq "{'ok':false,'error':'Invalid request origin'}") 1
  else
    let content_length :=
      match content_length rq with Some v => fst (strtol10 v) | None => 0 end in
    if (content_length <=? 0) || (16384 <? content_length) then
      reply g d 400 (dq "{'ok':false,'error':'Invalid request size'}") 1
    else if (zlen (stdin rq)) <? content_length then
      reply g d 400 (dq "{'ok':false,'error':'Incomplete request'}") 1
    else if negb (lock_ok rq) then
      reply g d 500 (dq "{'ok':false,'error':'Configuration is busy'}") 1
    else
      let body := take (Z.to_nat content_length) (stdin rq) in
      let g := fst (load_configuration (config_file d) g) in
      let section := form_value body (str "section") in
      match apply_section g section body with
      | inr (field, error) =>
          reply g d 400
            (dq "{'ok':false,'field':'" ++ json_escape field ++ dq "','error':'" ++
             json_escape error ++ dq "'}") 1
      | inl g' =>
          let '(states, saved) := save_configuration (save_io rq) g' d in
          let d' := saved_disk (states, saved) d in
          if negb saved then
            reply g' d' 500 (dq "{'ok':false,'error':'Unable to save configuration'}") 1
          else
            reply g' d' 200
              (dq "{'ok':true,'section':'" ++ json_escape section ++
               dq "','restart_required':true}") 0
      end.

(** ** Decoding lemmas *)

(** The loop of [form_value] on the suffix of the body it looks at. *)
Fixpoint form_value_suffix (fuel : nat) (s key : bytes) : option bytes :=
  match fuel with
  | O => None
  | S f =>
      let stop := default (length s) (find_at [38] s) in
      let next :=
        if (stop =? length s)%nat then Some []
        else form_value_suffix f (drop (S stop) s) key in
      match find_at [61] s with
      | Some equals =>
          if (equals <? stop)%nat && bytes_eqb (url_decode (take equals s)) key
          then Some (url_decode (take (stop - equals - 1) (drop (equals + 1) s)))
          else next
      | None => next
      end
  end.

Lemma find_one_bound x s k : find_at [x] s = Some k -> (k < length s)%nat.
Proof.
  intros H. pose proof (find_at_bound _ _ _ H). pose proof (find_at_prefix _ _ _ H) as P.
  destruct (Nat.eq_dec k (length s)) as [->|]; [|lia].
  rewrite drop_all in P. discriminate.
Qed.

Lemma form_loop_suffix fuel body key start :
  (start <= length body)%nat ->
  form_value_loop fuel body key start = form_value_suffix fuel (drop start body) key.
Proof.
  revert start. induction fuel as [|f IH]; intros start Hs; [reflexivity|].
  cbn [form_value_loop form_value_suffix].
  rewrite (proj2 (Nat.leb_le _ _) Hs). unfold str_find. rewrite (proj2 (Nat.leb_le _ _) Hs).
  rewrite length_drop.
  set (s := drop start body).
  assert (Hl : (length s = length body - start)%nat) by apply length_drop.
  assert (Hnext :
    (if (default (length body) ((fun k => start + k)%nat <$> find_at [38]%Z s) =? length body)%nat
     then Some []
     else form_value_loop f body key (S (default (length body) ((fun k => start + k)%nat <$> find_at [38]%Z s)))) =
    (if (default (length body - start)%nat (find_at [38]%Z s) =? length body - start)%nat then Some []
     else form_value_suffix f (drop (S (default (length body - start)%nat (find_at [38]%Z s))) s) key)).
  { destruct (find_at [38]%Z s) as [k|] eqn:E; cbn.
    - apply find_one_bound in E.
      rewrite !(proj2 (Nat.eqb_neq _ _)) by lia.
      rewrite IH by lia. unfold s. rewrite drop_drop. do 2 f_equal. lia.
    - rewrite !Nat.eqb_refl. reflexivity. }
  rewrite Hnext. destruct (find_at [61] s) as [e|] eqn:Ee; cbn; [|reflexivity].
  unfold substr. replace (start + e - start)%nat with e by lia.
  fold s. replace (drop (start + e + 1) body) with (drop (e + 1) s)
    by (unfold s; rewrite drop_drop; f_equal; lia).
  destruct (find_at [38]%Z s) as [k|] eqn:E; cbn.
  - replace (start + e <? start + k)%nat with (e <? k)%nat
      by (destruct (e <? k)%nat eqn:?, (start + e <? start + k)%nat eqn:?; to_prop; lia).
    replace (start + k - (start + e) - 1)%nat with (k - e - 1)%nat by lia. reflexivity.
  - apply find_one_bound in Ee.
    rewrite !(proj2 (Nat.ltb_lt _ _)) by lia.
    replace (length body - (start + e) - 1)%nat with (length body - start - e - 1)%nat by lia.
    reflexivity.
Qed.

Lemma form_suffix_total fuel s key : (length s < fuel)%nat -> form_value_suffix fuel s key <> None.
Proof.
  revert s. induction fuel as [|f IH]; intros s Hf; [lia|]. cbn [form_value_suffix].
  assert (Hn : (if (default (length s) (find_at [38]%Z s) =? length s)%nat then Some []
     else form_value_suffix f (drop (S (default (length s) (find_at [38]%Z s))) s) key) <> None).
  { destruct (_ =? _)%nat eqn:E; [discriminate|]. to_prop. apply IH.
    destruct (find_at [38]%Z s) as [k|] eqn:Ek; [|done]. apply find_one_bound in Ek.
    rewrite length_drop. cbn. lia. }
  destruct (find_at [61] s); [|exact Hn]. destruct (_ && _); [discriminate|exact Hn].
Qed.

(** The scan of a form always ends: [length body + 2] iterations suffice. *)
Lemma form_value_total body key : form_value_loop (length body + 2) body key 0 <> None.
Proof.
  rewrite form_loop_suffix by lia. apply form_suffix_total. rewrite drop_0. lia.
Qed.

(** ** The encoding a browser sends *)

Definition upper_hex (d : Z) : Z := if d <? 10 then 48 + d else 55 + d.

(** application/x-www-form-urlencoded, as [URLSearchParams] prints it. *)
Definition form_encode_char (c : Z) : bytes :=
  if c =? 32 then [43]
  else if isalnum c || (c =? 42) || (c =? 45) || (c =? 46) || (c =? 95) then [c]
  else [37; upper_hex (Z.shiftr c 4); upper_hex (Z.land c 15)].

Definition form_encode (v : bytes) : bytes := concat (List.map form_encode_char v).

Definition encode_pair (kv : bytes * bytes) : bytes :=
  form_encode (fst kv) ++ [61] ++ form_encode (snd kv).

Fixpoint encode_form (kvs : list (bytes * bytes)) : bytes :=
  match kvs with
  | [] => []
  | [kv] => encode_pair kv
  | kv :: rest => encode_pair kv ++ [38] ++ encode_form rest
  end.

(** The value of the first field named [key], empty when there is none. *)
Fixpoint first_value (kvs : list (bytes * bytes)) (key : bytes) : bytes :=
  match kvs with
  | [] => []
  | (k, v) :: rest => if bytes_eqb k key then v else first_value rest key
  end.

Lemma form_encode_cons c v : form_encode (c :: v) = form_encode_char c ++ form_encode v.
Proof. reflexivity. Qed.

Lemma url_decode_char c s : is_byte c -> url_decode (form_encode_char c ++ s) = c :: url_decode s.
Proof. unfold is_byte. intros Hc. by_interval c 0 256%nat; reflexivity. Qed.

Lemma form_encode_clean v : bytes_ok v -> Forall (fun b => b <> 38 /\ b <> 61) (form_encode v).
Proof.
  induction 1 as [|c v Hc _ IH]; [constructor|]. rewrite form_encode_cons.
  apply Forall_app. split; [|exact IH]. clear IH. unfold is_byte in Hc.
  by_interval c 0 256%nat; repeat constructor; vm_compute; discriminate.
Qed.

Lemma url_decode_encode v : bytes_ok v -> url_decode (form_encode v) = v.
Proof.
  induction 1 as [|c v Hc _ IH]; [reflexivity|].
  rewrite form_encode_cons, url_decode_char, IH by exact Hc. reflexivity.
Qed.

Lemma find_one_here x p s :
  Forall (fun b => b <> x) p -> find_at [x] (p ++ x :: s) = Some (length p).
Proof.
  induction 1 as [|b p Hb _ IH].
  - simpl. rewrite Z.eqb_refl. reflexivity.
  - simpl. destruct (x =? b) eqn:E; [to_prop; lia|]. simpl. rewrite IH. reflexivity.
Qed.

Lemma find_one_none x p : Forall (fun b => b <> x) p -> find_at [x] p = None.
Proof.
  induction 1 as [|b p Hb _ IH]; [reflexivity|].
  simpl. destruct (x =? b) eqn:E; [to_prop; lia|]. simpl. rewrite IH. reflexivity.
Qed.

Definition pair_ok (kv : bytes * bytes) : Prop := bytes_ok (fst kv) /\ bytes_ok (snd kv).

Lemma encode_pair_no_amp kv : pair_ok kv -> Forall (fun b => b <> 38) (encode_pair kv).
Proof.
  intros [H1 H2]. unfold encode_pair. rewrite !Forall_app.
  split; [|split; [by apply neq_check|]];
    (eapply Forall_impl; [apply form_encode_clean; assumption|by intros ? []]).
Qed.

(** One iteration on a body that starts with an encoded field. *)
Lemma form_suffix_pair f kv rest key :
  pair_ok kv ->
  form_value_suffix (S f) (encode_pair kv ++ rest) key =
  match rest with
  | [] => Some (if bytes_eqb (fst kv) key then snd kv else [])
  | c :: rest' =>
      if c =? 38 then
        if bytes_eqb (fst kv) key then Some (snd kv) else form_value_suffix f rest' key
      else form_value_suffix (S f) (encode_pair kv ++ rest) key
  end.
Proof.
  intros Hok. pose proof (encode_pair_no_amp kv Hok) as Hamp. destruct Hok as [Hk Hv].
  assert (Heq : forall r, find_at [61] (encode_pair kv ++ r) = Some (length (form_encode (fst kv)))).
  { intros r. unfold encode_pair. app_norm. apply find_one_here.
    eapply Forall_impl; [by apply form_encode_clean|by intros ? []]. }
  assert (Hlen : length (encode_pair kv) =
                 (length (form_encode (fst kv)) + 1 + length (form_encode (snd kv)))%nat).
  { unfold encode_pair. rewrite !length_app. simpl. lia. }
  assert (Hname : forall r, url_decode (take (length (form_encode (fst kv))) (encode_pair kv ++ r)) = fst kv).
  { intros r. unfold encode_pair. app_norm. rewrite take_app_length. by apply url_decode_encode. }
  assert (Hval : forall r,
    take (length (encode_pair kv) - length (form_encode (fst kv)) - 1)
      (drop (length (form_encode (fst kv)) + 1) (encode_pair kv ++ r)) = form_encode (snd kv)).
  { intros r. unfold encode_pair at 2. app_norm. rewrite <- drop_drop, drop_app_length.
    cbn [drop]. apply take_app_exact. lia. }
  destruct rest as [|c rest'].
  - cbn [form_value_suffix]. rewrite Heq, Hname, app_nil_r.
    rewrite (find_one_none 38) by exact Hamp. cbn [default option_fmap].
    unfold default, from_option, id.
    rewrite (proj2 (Nat.ltb_lt _ _)), Nat.eqb_refl by lia. cbn [andb].
    destruct (bytes_eqb (fst kv) key); [|reflexivity].
    specialize (Hval []). rewrite app_nil_r in Hval. rewrite Hval.
    by rewrite url_decode_encode.
  - destruct (c =? 38) eqn:Ec; [|reflexivity]. to_prop. subst c. cbn [form_value_suffix].
    rewrite Heq, Hname. rewrite (find_one_here 38) by exact Hamp.
    unfold default, from_option, id. rewrite length_app. cbn [length].
    rewrite (proj2 (Nat.ltb_lt _ _)), (proj2 (Nat.eqb_neq _ _)) by lia. cbn [andb].
    destruct (bytes_eqb (fst kv) key); [rewrite Hval; by rewrite url_decode_encode|].
    f_equal. replace (S (length (encode_pair kv))) with (length (encode_pair kv) + 1)%nat by lia.
    rewrite <- drop_drop, drop_app_length. reflexivity.
Qed.

Lemma form_suffix_encoded kvs fuel key :
  Forall pair_ok kvs -> (length kvs < fuel)%nat -> kvs <> [] ->
  form_value_suffix fuel (encode_form kvs) key = Some (first_value kvs key).
Proof.
  intros Hok. revert fuel. induction Hok as [|kv kvs Hkv Hok IH]; intros fuel Hf Hne; [done|].
  destruct fuel as [|f]; [cbn [length] in Hf; lia|]. destruct kv as [k v].
  destruct kvs as [|kv' kvs].
  - cbn [encode_form first_value]. rewrite <- (app_nil_r (encode_pair (k, v))).
    rewrite form_suffix_pair by exact Hkv. cbn [fst snd].
    destruct (bytes_eqb k key); reflexivity.
  - change (encode_form ((k, v) :: kv' :: kvs)) with
      (encode_pair (k, v) ++ 38 :: encode_form (kv' :: kvs)).
    rewrite form_suffix_pair by exact Hkv. rewrite Z.eqb_refl.
    cbn [fst snd first_value]. destruct (bytes_eqb k key); [reflexivity|].
    apply IH; [cbn [length] in *; lia|discriminate].
Qed.

(** ** Properties *)

Lemma encode_form_length kvs : (length kvs <= length (encode_form kvs) + 1)%nat.
Proof.
  induction kvs as [|kv kvs IH]; [simpl; lia|].
  assert (1 <= length (encode_pair kv))%nat by (unfold encode_pair; rewrite !length_app; simpl; lia).
  destruct kvs as [|kv' kvs]; [simpl; lia|].
  change (encode_form (kv :: kv' :: kvs)) with (encode_pair kv ++ 38 :: encode_form (kv' :: kvs)).
  rewrite length_app. cbn [length] in *. lia.
Qed.

(** The form decoder inverts the encoding browsers send: for any list of
    fields, looking a key up in the encoded body gives the value of the first
    field with that key, byte for byte, and the empty string when there is
    none. *)
Theorem form_value_encoded (kvs : list (bytes * bytes)) (key : bytes)
    (Hok : Forall pair_ok kvs) :
  form_value (encode_form kvs) key = first_value kvs key.
Proof.
  unfold form_value. rewrite form_loop_suffix, drop_0 by lia.
  destruct kvs as [|kv kvs]; [reflexivity|].
  rewrite form_suffix_encoded; [reflexivity|exact Hok| |discriminate].
  pose proof (encode_form_length (kv :: kvs)). lia.
Qed.

Lemma form_value_encoded_witness :
  form_value (encode_form [(str "a", str "1=2&3"); (str "ha_url", str "http://ą:1/?x=%")]) (str "ha_url")
  = str "http://ą:1/?x=%".
Proof.
  rewrite (form_value_encoded [(str "a", str "1=2&3"); (str "ha_url", str "http://ą:1/?x=%")]).
  - reflexivity.
  - repeat apply List.Forall_cons; try apply List.Forall_nil; split; bytes_ok_closed.
Defined.

Lemma saved_disk_cases io g d :
  config_file (saved_disk (save_configuration io g d) d) =
  (if snd (save_configuration io g d) then Some (config_text g) else config_file d).
Proof.
  pose proof (save_atomic_facts io g d) as H. destruct (save_configuration io g d). exact H.
Qed.

Lemma cgi_writes_only_on_success_facts (rq : Request) (g : Config) (d : Disk) :
  let r := cgi_config_main rq g d in
  (code r = 0 /\ status r = 200 /\ config_file (disk r) = Some (config_text (globals r))) \/
  (code r = 1 /\ In (status r) [400; 403; 500] /\ config_file (disk r) = config_file d).
Proof.
  unfold cgi_config_main, reply.
  repeat (case_if; [right; cbn; auto 8|]).
  destruct (apply_section _ _ _) as [g'|[field error]]; [|right; cbn; auto 8].
  pose proof (save_atomic_facts (save_io rq) g' d) as H.
  destruct (save_configuration (save_io rq) g' d) as [states saved].
  destruct saved; cbn [negb]; [left|right]; cbn in *; auto 8.
Qed.

(** C27. The handler changes the configuration file only when it answers 200
    and exits 0, and then the file is the complete text of the new globals; on
    every error (method, origin, size, short body, lock, invalid field, failed
    save) the file is the one that was there, and the exit code is 1. *)
Theorem cgi_writes_only_on_success (rq : Request) (g : Config) (d : Disk) :
  let r := cgi_config_main rq g d in
  (code r = 0 /\ status r = 200 /\ config_file (disk r) = Some (config_text (globals r))) \/
  (code r = 1 /\ In (status r) [400; 403; 500] /\ config_file (disk r) = config_file d).
Proof. exact (cgi_writes_only_on_success_facts rq g d). Qed.

(** The limits an accepted section establishes. *)
Definition ha_limits (g : Config) : Prop :=
  (starts_with (ha_url g) (str "http://") = true \/ starts_with (ha_url g) (str "https://") = true) /\
  zlen (ha_url g) <= 512 /\ ha_token g <> [] /\
  valid_entity_id (ha_entity_1 g) = true /\ valid_entity_id (ha_entity_2 g) = true /\
  1 <= zlen (ha_entity_1_name g) <= 64 /\ 1 <= zlen (ha_entity_2_name g) <= 64.

Definition mqtt_limits (m : MqttConfig) : Prop :=
  (enabled m = true -> 1 <= zlen (host m) <= 255) /\ 1 <= port m <= 65535 /\
  zlen (username m) <= 255 /\ 1 <= zlen (base_topic m) <= 255.

Lemma not_empty_zlen (s : bytes) : is_empty s = false -> 1 <= zlen s.
Proof. destruct s; [discriminate|]. cbn [length]. lia. Qed.

Ltac not_empty :=
  repeat match goal with H : is_empty ?s = false |- _ => apply not_empty_zlen in H end.

(** One guard of a section handler. *)
Ltac pass_guard H :=
  match type of H with
  | (if ?b then inr _ else _) = inl _ =>
      let E := fresh "Hg" in destruct b eqn:E; [discriminate H|]
  end.

Lemma section_ha_limits g body g' :
  section_ha g body = inl g' -> form_bool body (str "disconnect") = false -> ha_limits g'.
Proof.
  intros H Hd. unfold section_ha in H. rewrite Hd in H. repeat pass_guard H.
  injection H as <-. unfold ha_limits, set_ha. cbn. to_prop. not_empty.
  apply orb_true_iff in H3. split; [destruct H3; auto|]. repeat split; try lia; try assumption.
  destruct (is_empty (trim_copy (form_value body (str "ha_token")))) eqn:E.
  - cbn [andb] in Hg0. intros E'. rewrite E' in Hg0. discriminate.
  - intros E'. rewrite E' in E. discriminate.
Qed.

Lemma section_mqtt_limits g body g' :
  section_mqtt g body = inl g' -> mqtt_limits (g_mqtt_config g').
Proof.
  intros H. unfold section_mqtt in H.
  destruct (strtol10 _) as [p e]. repeat pass_guard H. injection H as <-.
  unfold mqtt_limits, set_mqtt. cbn. split; [|to_prop; not_empty; lia].
  intros E. rewrite E in Hg. cbn [andb] in Hg. to_prop. not_empty. lia.
Qed.

(** C10. What a stored section guarantees: when the handler answers 200 to an
    "ha" section that does not disconnect, the stored globals have an http(s)
    URL of at most 512 bytes, a token, two well-formed entity ids and two names
    of 1 to 64 bytes; after an "mqtt" section the port is a TCP port, the topic
    is not empty and the lengths are bounded. *)
Theorem cgi_accepted_limits (rq : Request) (g : Config) (d : Disk)
    (Hok : code (cgi_config_main rq g d) = 0) :
  let body := take (Z.to_nat (match content_length rq with Some v => fst (strtol10 v) | None => 0 end))
                (stdin rq) in
  let g' := globals (cgi_config_main rq g d) in
  (form_value body (str "section") = str "ha" ->
   form_bool body (str "disconnect") = false -> ha_limits g') /\
  (form_value body (str "section") = str "mqtt" -> mqtt_limits (g_mqtt_config g')).
Proof.
  unfold cgi_config_main, reply in *.
  repeat (match type of Hok with
          | code (if ?b then _ else _) = _ => destruct b; [discriminate Hok|]
          end).
  set (body := take _ _) in *.
  destruct (apply_section _ _ body) as [g'|[field error]] eqn:E; [|discriminate Hok].
  destruct (save_configuration (save_io rq) g' d) as [states saved].
  destruct saved; [|discriminate Hok]. cbn.
  unfold apply_section in E. split.
  - intros Hs Hd. rewrite Hs in E. eapply section_ha_limits; [exact E|exact Hd].
  - intros Hs. rewrite Hs in E. eapply section_mqtt_limits. exact E.
Qed.

(** A request that stores a section. *)
Definition sample_body : bytes :=
  encode_form [(str "section", str "ha"); (str "ha_url", str " https://ha.local:8123 ");
               (str "ha_token", str "secret"); (str "entity_1", str "light.salon");
               (str "entity_1_name", str "Salon"); (str "entity_2", str "switch.fan");
               (str "entity_2_name", str "Wentylator")].

Definition all_ok : SaveIo := mkSaveIo true true [] true.

Definition sample_request : Request :=
  mkRequest (Some (str "POST")) (Some (str "TPP01-Panel"))
    (Some (to_string (zlen sample_body))) sample_body true all_ok.

Lemma cgi_accepted_limits_witness :
  ha_limits (globals (cgi_config_main sample_request initial_config (mkDisk None None))).
Proof.
  apply (cgi_accepted_limits sample_request initial_config (mkDisk None None));
    vm_compute; reflexivity.
Defined.

(** ** What the portal stores, the panel loads *)

(** The part of [config_ok] that is not about the characters of the strings. *)
Definition shape_ok (g : Config) : bool :=
  let m := g_mqtt_config g in
  untrimmed (ha_url g) && untrimmed (ha_token g) &&
  negb (is_empty (ha_entity_1 g)) && negb (is_empty (ha_entity_2 g)) &&
  negb (is_empty (ha_entity_1_name g)) && negb (is_empty (ha_entity_2_name g)) &&
  negb (is_empty (base_topic m)) && (0 <? port m) && (port m <? 2 ^ 31).

Definition strings_ok (g : Config) : bool :=
  let m := g_mqtt_config g in
  forallb storable [ha_url g; ha_token g; ha_entity_1 g; ha_entity_2 g; ha_entity_1_name g;
                    ha_entity_2_name g; host m; username m; password m; base_topic m].

Lemma config_ok_split g : config_ok g = strings_ok g && shape_ok g.
Proof. unfold config_ok, strings_ok, shape_ok. cbv zeta. rewrite !andb_assoc. reflexivity. Qed.

Lemma untrimmed_last v : match last v with None => True | Some b => config_space b = false end ->
  untrimmed v = true.
Proof. unfold untrimmed. destruct (last v); [intros ->|]; reflexivity. Qed.

Lemma trim_copy_untrimmed v : untrimmed (trim_copy v) = true.
Proof.
  apply untrimmed_last. unfold trim_copy. pose proof (rtrim_last isspace (ltrim isspace v)) as H.
  destruct (last _); [|exact I]. unfold isspace, config_space in *.
  apply orb_false_iff in H as [H1 H2]. apply andb_false_iff in H1.
  destruct (z =? 32) eqn:?, (z =? 13) eqn:?, (z =? 10) eqn:?, (z =? 9) eqn:?; to_prop;
    try reflexivity; exfalso; destruct H1; to_prop; lia.
Qed.

Lemma is_empty_if_empty s d : is_empty d = false -> is_empty (if_empty s d) = false.
Proof. intros H. unfold if_empty. destruct s; [exact H|reflexivity]. Qed.

Lemma load_shape json g :
  is_empty (ha_entity_1_name g) = false -> is_empty (ha_entity_2_name g) = false ->
  shape_ok (fst (load_configuration (Some json) g)) = true.
Proof.
  intros H1 H2. unfold load_configuration, shape_ok. cbn.
  rewrite !is_empty_if_empty by (assumption || reflexivity).
  rewrite !untrimmed_last by apply rtrim_last. cbn [negb andb].
  pose proof (s32_range (parse_json_int_value json (str "mqtt_port"))).
  rewrite Z.gtb_ltb. destruct (0 <? s32 _) eqn:E; to_prop; cbn; rewrite ?andb_true_iff; split_lia.
  all: apply Z.ltb_lt; lia.
Qed.

Lemma valid_entity_nonempty v : valid_entity_id v = true -> is_empty v = false.
Proof. destruct v; [discriminate|reflexivity]. Qed.

(** The Home Assistant section sets everything but the MQTT part. *)
Lemma section_ha_shape g body g' :
  untrimmed (ha_token g) = true -> is_empty (base_topic (g_mqtt_config g)) = false ->
  0 < port (g_mqtt_config g) < 2 ^ 31 ->
  section_ha g body = inl g' -> form_bool body (str "disconnect") = false -> shape_ok g' = true.
Proof.
  intros Ht Hb Hp H Hd. unfold section_ha in H. rewrite Hd in H. repeat pass_guard H. injection H as <-. to_prop.
  unfold shape_ok, set_ha. cbn [ha_url ha_token ha_entity_1 ha_entity_2 ha_entity_1_name
    ha_entity_2_name g_mqtt_config].
  rewrite trim_copy_untrimmed, Hb.
  rewrite !andb_true_iff, !negb_true_iff, !Z.ltb_lt.
  repeat split; try assumption; try lia; try (by apply valid_entity_nonempty).
  destruct (is_empty (trim_copy (form_value body (str "ha_token")))); [assumption|apply trim_copy_untrimmed].
Qed.

Lemma apply_section_shape g section body g' :
  shape_ok g = true -> apply_section g section body = inl g' ->
  form_bool body (str "disconnect") = false -> shape_ok g' = true.
Proof.
  intros Hs H Hd. unfold shape_ok in Hs. to_prop. unfold apply_section in H.
  destruct (bytes_eqb section (str "ha")); [|destruct (bytes_eqb section (str "mqtt"));
    [|destruct (bytes_eqb section (str "system")); [|discriminate]]].
  - by eapply section_ha_shape.
  - unfold section_mqtt in H. destruct (strtol10 _) as [p e]. repeat pass_guard H.
    injection H as <-. to_prop. unfold shape_ok, set_mqtt.
    cbn [ha_url ha_token ha_entity_1 ha_entity_2 ha_entity_1_name ha_entity_2_name g_mqtt_config
      base_topic port].
    rewrite !andb_true_iff, !negb_true_iff, !Z.ltb_lt. repeat split; try assumption; lia.
  - injection H as <-. unfold shape_ok.
    cbn [ha_url ha_token ha_entity_1 ha_entity_2 ha_entity_1_name ha_entity_2_name g_mqtt_config].
    rewrite !andb_true_iff, !negb_true_iff, !Z.ltb_lt. repeat split; assumption.
Qed.

(** The portal and the panel agree: when the handler answers 200 to a
    section that does not disconnect, on a panel that had a configuration
    file, and the stored strings show none of the file's keys, then the panel
    that loads the file gets exactly the globals the portal stored. *)
Theorem portal_panel_agree (rq : Request) (g g1 : Config) (d : Disk) (json : bytes)
    (Hfile : config_file d = Some json)
    (Hn1 : is_empty (ha_entity_1_name g) = false) (Hn2 : is_empty (ha_entity_2_name g) = false)
    (Hok : code (cgi_config_main rq g d) = 0)
    (Hd : form_bool (take (Z.to_nat (match content_length rq with
            Some v => fst (strtol10 v) | None => 0 end)) (stdin rq)) (str "disconnect") = false)
    (Hs : strings_ok (globals (cgi_config_main rq g d)) = true)
    (Hid : client_id (g_mqtt_config g1) =
           client_id (g_mqtt_config (globals (cgi_config_main rq g d)))) :
  fst (load_configuration (config_file (disk (cgi_config_main rq g d))) g1)
  = globals (cgi_config_main rq g d).
Proof.
  destruct (cgi_writes_only_on_success_facts rq g d) as [(_ & _ & Ef)|(E & _)]; [|congruence].
  rewrite Ef. assert (Hc : config_ok (globals (cgi_config_main rq g d)) = true).
  { rewrite config_ok_split, Hs. cbn [andb]. revert Hok. clear Ef Hs Hid.
    unfold cgi_config_main, reply in *. intros Hok.
    repeat (match type of Hok with
            | code (if ?b then _ else _) = _ => destruct b; [discriminate Hok|]
            end).
    rewrite Hfile in *. set (body := take _ _) in *.
    destruct (apply_section _ _ body) as [g'|[field error]] eqn:E; [|discriminate Hok].
    destruct (save_configuration (save_io rq) g' d) as [states saved].
    assert (shape_ok g' = true) by (eapply apply_section_shape; [by apply load_shape|exact E|exact Hd]).
    destruct saved; assumption. }
  rewrite (load_save_facts _ g1 Hc). cbn [fst]. rewrite Hid.
  destruct (globals (cgi_config_main rq g d)) as [? ? ? ? ? ? [] ? ?]. reflexivity.
Qed.

Definition sample_disk : Disk := mkDisk (Some (config_text sample_config)) None.

Lemma portal_panel_agree_witness :
  fst (load_configuration (config_file (disk (cgi_config_main sample_request initial_config sample_disk)))
         initial_config)
  = globals (cgi_config_main sample_request initial_config sample_disk).
Proof.
  apply (portal_panel_agree sample_request initial_config initial_config sample_disk
           (config_text sample_config)); vm_compute; reflexivity.
Defined.
