(* ===== verification/Mqtt.v ===== *)
(** The MQTT client (mqtt_client.h, mqtt_client.cpp): the wire format
    ([encode_remaining_length], [decode_remaining_length], the CONNECT,
    SUBSCRIBE, PUBLISH and PINGREQ packets), the socket write loop
    [send_raw], the dispatch of incoming packets, one iteration of the read
    loop, and the life cycle of the connection as a step relation in which the
    loop thread interleaves with the threads that publish and stop. *)
From S2P Require Import Prelude CString JsonDoc PanelJson Config.
From stdpp Require Import list.
#[local] Open Scope Z_scope.

(** ** Remaining length *)

(** The do-while loop; a [size_t] has at most ten base-128 digits. *)
Fixpoint encode_loop (fuel : nat) (length : Z) : bytes :=
  match fuel with
  | O => []
  | S f =>
      let d := length mod 128 in
      let length := length / 128 in
      if 0 <? length then Z.lor d 128 :: encode_loop f length else [d]
  end.

Definition encode_remaining_length (length : Z) : bytes := encode_loop 10 length.

(** [reads] is what the successive calls of [read_one] deliver: [None] is a
    result [<= 0] (timeout, error, end of stream), and so is the end of the
    list.  The value and the reads left over, or [ok = false]. *)
Fixpoint decode_loop (multiplier value : Z) (reads : list (option Z)) : option (Z * list (option Z)) :=
  match reads with
  | Some encoded_byte :: reads' =>
      let value := value + Z.land encoded_byte 127 * multiplier in
      let multiplier := multiplier * 128 in
      if 128 * 128 * 128 <? multiplier then None
      else if negb (Z.land encoded_byte 128 =? 0) then decode_loop multiplier value reads'
      else Some (value, reads')
  | _ => None
  end.

Definition decode_remaining_length (reads : list (option Z)) : option (Z * list (option Z)) :=
  decode_loop 1 0 reads.

(** ** Packets *)

(** A string with its two length bytes. *)
Definition put_string (s : bytes) : bytes :=
  [Z.land (Z.shiftr (zlen s) 8) 255; Z.land (zlen s) 255] ++ s.

Definition put_u16 (n : Z) : bytes := [Z.land (Z.shiftr n 8) 255; Z.land n 255].

Definition packet (header : Z) (var_header payload : bytes) : bytes :=
  [header] ++ encode_remaining_length (zlen var_header + zlen payload) ++ var_header ++ payload.

Definition lwt_topic (c : MqttConfig) : bytes := base_topic c ++ str "/state/status".
Definition lwt_payload : bytes := str "offline".

Definition connect_flags (c : MqttConfig) : Z :=
  let flags := 0x02 in
  let flags := Z.lor flags 0x04 in
  let flags := Z.lor flags (Z.shiftl 1 3) in
  let flags := Z.lor flags 0x20 in
  let flags := if negb (is_empty (username c)) then Z.lor flags 0x80 else flags in
  if negb (is_empty (password c)) then Z.lor flags 0x40 else flags.

(** The packet [send_mqtt_connect] builds. *)
Definition connect_packet (c : MqttConfig) : bytes :=
  let var_header := [0x00; 0x04] ++ str "MQTT" ++ [0x04; connect_flags c; 0x00; 0x3C] in
  let payload :=
    put_string (client_id c) ++ put_string (lwt_topic c) ++ put_string lwt_payload ++
    (if negb (is_empty (username c)) then put_string (username c) else []) ++
    (if negb (is_empty (password c)) then put_string (password c) else []) in
  packet 0x10 var_header payload.

Definition connack_ok (r : Z) (ack : bytes) : bool :=
  match ack with
  | [a0; a1; a2; a3] => (r =? 4) && (a0 =? 0x20) && (a1 =? 0x02) && (a3 =? 0x00)
  | _ => false
  end.

Definition ping_packet : bytes := [0xC0; 0x00].

Definition subscribe_packet (pid : Z) (topic_filter : bytes) (qos : Z) : bytes :=
  packet 0x82 (put_u16 pid) (put_string topic_filter ++ [u8 qos]).

Definition publish_header (retain : bool) (qos : Z) : Z :=
  let header := 0x30 in
  let header := if retain then Z.lor header 0x01 else header in
  if qos =? 1 then Z.lor header 0x02 else header.

Definition publish_packet (pid : Z) (topic payload : bytes) (retain : bool) (qos : Z) : bytes :=
  packet (publish_header retain qos)
    (put_string topic ++ (if 0 <? qos then put_u16 pid else [])) payload.

(** ** The client and its socket *)

(** The members of [MqttClient]; [sock_open] is [sock_fd_ >= 0], [wire] the
    bytes written on the current connection, [writes] the results of the
    [write] calls to come. *)
Record Client := mkClient {
  config_ : MqttConfig;
  running_ : bool;
  connected_ : bool;
  sock_open : bool;
  packet_id_ : Z;
  wire : bytes;
  writes : list Z;
}.

Definition with_net (c : Client) (w : bytes) (rs : list Z) : Client :=
  mkClient (config_ c) (running_ c) (connected_ c) (sock_open c) (packet_id_ c) w rs.

Definition with_packet_id (c : Client) (n : Z) : Client :=
  mkClient (config_ c) (running_ c) (connected_ c) (sock_open c) n (wire c) (writes c).

(** The write loop of [send_raw]. *)
Fixpoint send_loop (results : list Z) (data w : bytes) : bool * bytes * list Z :=
  match data with
  | [] => (true, w, results)
  | _ =>
      match results with
      | [] => (false, w, [])
      | res :: results' =>
          if res <=? 0 then (false, w, results')
          else send_loop results' (drop (Z.to_nat res) data) (w ++ take (Z.to_nat res) data)
      end
  end.

Definition send_raw (c : Client) (data : bytes) : Client * bool :=
  if negb (sock_open c) then (c, false)
  else let '(ok, w, rs) := send_loop (writes c) data (wire c) in (with_net c w rs, ok).

Definition close_socket (c : Client) : Client :=
  mkClient (config_ c) (running_ c) false false (packet_id_ c) [] (writes c).

(** [send_mqtt_connect] up to the CONNACK; [connack_ok] is the rest of it. *)
Definition send_connect (c : Client) : Client * bool := send_raw c (connect_packet (config_ c)).

Definition send_mqtt_ping (c : Client) : Client * bool := send_raw c ping_packet.

Definition send_mqtt_subscribe (c : Client) (topic_filter : bytes) (qos : Z) : Client * bool :=
  let pid := packet_id_ c in
  send_raw (with_packet_id c (u16 (pid + 1))) (subscribe_packet pid topic_filter qos).

(** [publish] up to the call of [send_raw]: the check of [connected_], which is
    made without the socket's lock, and the packet. *)
Definition publish_prepare (c : Client) (topic payload : bytes) (retain : bool) (qos : Z)
  : option (Client * bytes) :=
  if negb (connected_ c) then None
  else
    let pid := packet_id_ c in
    let c := if 0 <? qos then with_packet_id c (u16 (pid + 1)) else c in
    Some (c, publish_packet pid topic payload retain qos).

Definition publish (c : Client) (topic payload : bytes) (retain : bool) (qos : Z) : Client * bool :=
  match publish_prepare c topic payload retain qos with
  | None => (c, false)
  | Some (c, data) => send_raw c data
  end.

Definition publish_state (c : Client) (subtopic payload : bytes) (retain : bool) : Client * bool :=
  publish c (base_topic (config_ c) ++ str "/state/" ++ subtopic) payload retain 0.

(** ** Home Assistant discovery *)

Definition discovery_screen (c : MqttConfig) : bytes :=
  str "{" ++ dq "'name':'Screen'," ++ dq "'unique_id':'tpp01_screen_light'," ++
  dq "'cmd_t':'" ++ base_topic c ++ dq "/cmd/screen'," ++
  dq "'stat_t':'" ++ base_topic c ++ dq "/state/screen'," ++
  dq "'bri_cmd_t':'" ++ base_topic c ++ dq "/cmd/brightness'," ++
  dq "'bri_stat_t':'" ++ base_topic c ++ dq "/state/brightness'," ++
  dq "'bri_scl':255," ++ dq "'payload_on':'ON'," ++ dq "'payload_off':'OFF'," ++
  dq "'availability_topic':'" ++ base_topic c ++ dq "/state/status'," ++
  dq "'device':{" ++ dq "'identifiers':['tpp01_panel']," ++
  dq "'name':'TPP01 Touch Panel'," ++ dq "'model':'MOES TPP01-Z'," ++
  dq "'manufacturer':'Tuya / MOES'" ++ str "}" ++ str "}".

Definition discovery_rssi (c : MqttConfig) : bytes :=
  str "{" ++ dq "'name':'Wi-Fi Signal'," ++ dq "'unique_id':'tpp01_wifi_rssi'," ++
  dq "'stat_t':'" ++ base_topic c ++ dq "/state/wifi_rssi'," ++
  dq "'unit_of_meas':'dBm'," ++ dq "'device_class':'signal_strength'," ++
  dq "'availability_topic':'" ++ base_topic c ++ dq "/state/status'," ++
  dq "'device':{'identifiers':['tpp01_panel']}" ++ str "}".

Definition discovery_ip (c : MqttConfig) : bytes :=
  str "{" ++ dq "'name':'IP Address'," ++ dq "'unique_id':'tpp01_ip'," ++
  dq "'stat_t':'" ++ base_topic c ++ dq "/state/ip'," ++
  dq "'icon':'mdi:ip-network'," ++
  dq "'availability_topic':'" ++ base_topic c ++ dq "/state/status'," ++
  dq "'device':{'identifiers':['tpp01_panel']}" ++ str "}".

Definition discovery_reboot (c : MqttConfig) : bytes :=
  str "{" ++ dq "'name':'Reboot Panel'," ++ dq "'unique_id':'tpp01_reboot'," ++
  dq "'cmd_t':'" ++ base_topic c ++ dq "/cmd/reboot'," ++
  dq "'payload_press':'PRESS'," ++ dq "'device_class':'restart'," ++
  dq "'availability_topic':'" ++ base_topic c ++ dq "/state/status'," ++
  dq "'device':{'identifiers':['tpp01_panel']}" ++ str "}".

Definition discovery_messages (c : MqttConfig) : list (bytes * bytes) :=
  [(str "homeassistant/light/tpp01_screen/config", discovery_screen c);
   (str "homeassistant/sensor/tpp01_wifi_rssi/config", discovery_rssi c);
   (str "homeassistant/sensor/tpp01_ip/config", discovery_ip c);
   (str "homeassistant/button/tpp01_reboot/config", discovery_reboot c)].

(** ** Incoming packets *)

(** Topic and message of a PUBLISH packet, as the handler reads them. *)
Definition read_publish (header : Z) (payload : bytes) : option (bytes * bytes) :=
  if zlen payload <? 2 then None
  else
    let topic_len := Z.lor (Z.shiftl (nth 0 payload 0) 8) (nth 1 payload 0) in
    if zlen payload <? 2 + topic_len then None
    else
      let topic := substr payload 2 (Z.to_nat topic_len) in
      let offset := 2 + topic_len in
      let qos := Z.land (Z.shiftr header 1) 0x03 in
      let offset := if 0 <? qos then offset + 2 else offset in
      let msg_payload :=
        if offset <? zlen payload then drop (Z.to_nat offset) payload else [] in
      Some (topic, msg_payload).

(** The command the callback is called with, if it is. *)
Definition process_incoming_packet (c : MqttConfig) (header : Z) (payload : bytes)
  : option (bytes * bytes) :=
  let pkt_type := Z.land header 0xF0 in
  if pkt_type =? 0x30 then
    match read_publish header payload with
    | None => None
    | Some (topic, msg_payload) =>
        let cmd_prefix := base_topic c ++ str "/cmd/" in
        if starts_with topic cmd_prefix
        then Some (substr_from topic (length cmd_prefix), msg_payload)
        else None
    end
  else None.

(** ** One iteration of the read loop *)

(** What the calls of one iteration deliver: the result of the header read and
    its byte, the bytes of the remaining length, the payload chunks (an empty
    one is a result [<= 0]), and the clock. *)
Record Iteration := mkIteration {
  header_result : Z;
  header_byte : Z;
  length_reads : list (option Z);
  chunks : list bytes;
  now : Z;
}.

(** The payload loop: chunks are taken until [rem_len] bytes were read. *)
Fixpoint read_payload (rem_len : Z) (acc : bytes) (cs : list bytes) : bytes :=
  if zlen acc <? rem_len then
    match cs with
    | [] => acc
    | [] :: _ => acc
    | chunk :: cs' => read_payload rem_len (acc ++ take (Z.to_nat (rem_len - zlen acc)) chunk) cs'
    end
  else acc.

(** The body of the inner [while]: the client, the time of the last ping, the
    command delivered, and whether the loop goes on. *)
Definition loop_iteration (c : Client) (last_ping : Z) (i : Iteration)
  : Client * Z * option (bytes * bytes) * bool :=
  if header_result i <? 0 then (c, last_ping, None, false)
  else
    let received :=
      if header_result i =? 1 then
        match decode_remaining_length (length_reads i) with
        | None => None
        | Some (rem_len, _) =>
            let pkt_payload := read_payload rem_len [] (chunks i) in
            Some (if zlen pkt_payload =? rem_len
                  then process_incoming_packet (config_ c) (header_byte i) pkt_payload
                  else None)
        end
      else Some None in
    match received with
    | None => (c, last_ping, None, false)
    | Some command =>
        if 20 <=? u32 (now i - last_ping) then
          let '(c, ok) := send_mqtt_ping c in
          if ok then (c, now i, command, true) else (c, last_ping, command, false)
        else (c, last_ping, command, true)
    end.

(** What is published after a successful handshake, in this order; then the
    commands are subscribed to, and the read loop begins. *)
Definition announcements (c : MqttConfig) : list (bytes * bytes) :=
  (base_topic c ++ str "/state/status", str "online") :: (if discovery c then discovery_messages c else []).

Definition subscribe_commands (c : Client) : Client :=
  fst (send_mqtt_subscribe c (base_topic (config_ c) ++ str "/cmd/#") 1).

(** ** The life cycle

    [loop] runs on its own thread; [publish], [stop], [configure] and [start] are
    called from the others.  Between any two steps of one thread the others may
    make any of theirs: a step is at most one of the sections that hold the
    socket's lock ([send_raw], [close_socket]). *)
Inductive Position :=
| PcTop              (* while (running_) *)
| PcOpen             (* before connect_socket *)
| PcConnect          (* the socket is open, before CONNECT is sent *)
| PcAck              (* CONNECT is sent, before the CONNACK is read *)
| PcAccepted         (* before connected_ = true *)
| PcOnline (k : nat) (* after k of the announcements *)
| PcRead             (* while (running_ && connected_) *)
| PcClose            (* before close_socket *)
| PcWait             (* the pause before the next attempt *)
| PcDone.

(** [pending] are the packets that calls of [publish] on other threads have
    built and not sent yet, [carried] those of them that were pending when the
    current socket was opened. *)
Record State := mkState {
  client : Client;
  pc : Position;
  last_ping : Z;
  pending : list bytes;
  carried : list bytes;
}.

Definition set_running (c : Client) (b : bool) : Client :=
  mkClient (config_ c) b (connected_ c) (sock_open c) (packet_id_ c) (wire c) (writes c).

Definition set_connected (c : Client) : Client :=
  mkClient (config_ c) (running_ c) true (sock_open c) (packet_id_ c) (wire c) (writes c).

(** [configure] and [start], after [stop] has joined the thread. *)
Definition start_again (c : Client) (config : MqttConfig) : Client :=
  mkClient (configure config) true (connected_ c) (sock_open c) (packet_id_ c) (wire c) (writes c).

(** [connect_socket] closes the old socket first; [results] are what the
    writes on the new one return. *)
Definition connect_socket (c : Client) (up : bool) (results : list Z) : Client :=
  let c := close_socket c in
  mkClient (config_ c) (running_ c) (connected_ c) up (packet_id_ c) (wire c) results.

(** One step of the loop thread or of another thread. *)
Inductive connection_step : State -> State -> Prop :=
| step_stopped c lp q old :
    running_ c = false ->
    connection_step (mkState c PcTop lp q old) (mkState c PcDone lp q old)
| step_running c lp q old :
    running_ c = true ->
    connection_step (mkState c PcTop lp q old) (mkState c PcOpen lp q old)
| step_connect c lp q old up results :
    connection_step (mkState c PcOpen lp q old)
      (mkState (connect_socket c up results) (if up : bool then PcConnect else PcWait) lp q q)
| step_send_connect c lp q old :
    connection_step (mkState c PcConnect lp q old)
      (mkState (fst (send_connect c)) (if snd (send_connect c) then PcAck else PcClose) lp q old)
| step_connack c lp q old r ack :
    connection_step (mkState c PcAck lp q old) (mkState c (if connack_ok r ack then PcAccepted else PcClose) lp q old)
| step_connected c lp q old :
    connection_step (mkState c PcAccepted lp q old) (mkState (set_connected c) (PcOnline 0) lp q old)
| step_announce c lp q old k topic payload :
    announcements (config_ c) !! k = Some (topic, payload) ->
    connection_step (mkState c (PcOnline k) lp q old)
      (mkState (fst (publish c topic payload true 0)) (PcOnline (S k)) lp q old)
| step_subscribe c lp q old now :
    connection_step (mkState c (PcOnline (length (announcements (config_ c)))) lp q old)
      (mkState (subscribe_commands c) PcRead now q old)
| step_read c lp q old i c' lp' cmd go :
    running_ c = true -> connected_ c = true ->
    loop_iteration c lp i = (c', lp', cmd, go) ->
    connection_step (mkState c PcRead lp q old)
      (mkState c' (if go : bool then PcRead else PcClose) lp' q old)
| step_leave c lp q old :
    running_ c && connected_ c = false ->
    connection_step (mkState c PcRead lp q old) (mkState c PcClose lp q old)
| step_close c lp q old :
    connection_step (mkState c PcClose lp q old)
      (mkState (close_socket c) (if running_ c then PcWait else PcTop) lp q old)
| step_wait c lp q old :
    connection_step (mkState c PcWait lp q old) (mkState c PcTop lp q old)
| step_publish c pos lp q old topic payload retain qos c' data :
    publish_prepare c topic payload retain qos = Some (c', data) ->
    connection_step (mkState c pos lp q old) (mkState c' pos lp (q ++ [data]) old)
| step_send c pos lp q1 data q2 old :
    connection_step (mkState c pos lp (q1 ++ data :: q2) old) (mkState (fst (send_raw c data)) pos lp (q1 ++ q2) old)
| step_stop_flag c pos lp q old :
    connection_step (mkState c pos lp q old) (mkState (set_running c false) pos lp q old)
| step_stop_close c pos lp q old :
    running_ c = false ->
    connection_step (mkState c pos lp q old) (mkState (close_socket c) pos lp q old)
| step_start c lp q old config :
    running_ c = false -> enabled config && negb (is_empty (host config)) = true ->
    connection_step (mkState c PcDone lp q old) (mkState (start_again c config) PcTop lp q old).

(** [start], on a client that never ran. *)
Definition initial_connection (cfg : MqttConfig) : State :=
  mkState (mkClient cfg true false false 1 [] []) PcTop 0 [] [].

Inductive reachable (cfg : MqttConfig) : State -> Prop :=
| reachable_start : reachable cfg (initial_connection cfg)
| reachable_step s s' : reachable cfg s -> connection_step s s' -> reachable cfg s'.

(** ** Remaining length: lemmas *)

Lemma lor_128 d : 0 <= d < 128 -> Z.lor d 128 = 128 + d.
Proof. intros. rewrite Z.lor_comm. apply (lor_add 7 1 d); lia. Qed.

Lemma land_128 d : 0 <= d < 128 -> Z.land d 128 = 0.
Proof. intros. rewrite Z.land_comm. apply (land_disjoint 7 1 d); lia. Qed.

Lemma land_128_set d : 0 <= d < 128 -> Z.land (128 + d) 128 = 128.
Proof.
  intros. rewrite <- (lor_128 d) by lia. rewrite Z.land_lor_distr_l, land_128 by lia. reflexivity.
Qed.

Lemma mod128_range n : 0 <= n mod 128 < 128.
Proof. apply Z.mod_pos_bound. lia. Qed.

(** One byte of the encoding, read back. *)
Lemma decode_digit f m v n rest :
  decode_loop m v (map Some (encode_loop (S f) n) ++ rest) =
  if 128 * 128 * 128 <? m * 128 then None
  else if 0 <? n / 128 then decode_loop (m * 128) (v + n mod 128 * m) (map Some (encode_loop f (n / 128)) ++ rest)
  else Some (v + n mod 128 * m, rest).
Proof.
  pose proof (mod128_range n) as Hr. cbn [encode_loop].
  destruct (0 <? n / 128) eqn:E; cbn [map app decode_loop].
  - rewrite lor_128, land_127, land_128_set by lia.
    replace ((128 + n mod 128) mod 128) with (n mod 128) by (apply (Z.mod_unique _ _ 1); lia).
    destruct (_ <? m * 128); reflexivity.
  - rewrite land_127, (Z.mod_small (n mod 128)), land_128 by lia.
    destruct (_ <? m * 128); reflexivity.
Qed.

Lemma encode_loop_bytes f n : 0 <= n -> bytes_ok (encode_loop f n).
Proof.
  revert n. induction f as [|f IH]; intros n Hn; simpl; [constructor|].
  pose proof (mod128_range n). destruct (0 <? n / 128).
  - constructor; [rewrite lor_128 by lia; unfold is_byte; lia|]. apply IH. apply Z.div_pos; lia.
  - repeat constructor; lia.
Qed.

Lemma remaining_length_facts n rest :
  0 <= n ->
  decode_remaining_length (map Some (encode_remaining_length n) ++ rest) =
  if n <? 128 * 128 * 128 then Some (n, rest) else None.
Proof.
  intros Hn. unfold decode_remaining_length, encode_remaining_length.
  pose proof (Z.div_mod n 128 ltac:(lia)). pose proof (Z.div_mod (n / 128) 128 ltac:(lia)).
  pose proof (Z.div_mod (n / 128 / 128) 128 ltac:(lia)).
  pose proof (mod128_range n). pose proof (mod128_range (n / 128)).
  pose proof (mod128_range (n / 128 / 128)).
  rewrite !decode_digit.
  change (1 * 128) with 128. change (128 * 128 * 128 <? 128) with false.
  change (128 * 128 * 128 <? 128 * 128) with false.
  change (128 * 128 * 128 <? 128 * 128 * 128) with false.
  change (128 * 128 * 128 <? 128 * 128 * 128 * 128) with true. cbv iota.
  destruct (n <? 128 * 128 * 128) eqn:E; case_ifs; try reflexivity; do 2 f_equal; lia.
Qed.

(** [decode_remaining_length] reads back what [encode_remaining_length] wrote,
    and whatever follows is left unread. *)
Lemma remaining_length_prefix n m a b :
  0 <= n < 128 * 128 * 128 -> 0 <= m ->
  encode_remaining_length n ++ a = encode_remaining_length m ++ b -> n = m /\ a = b.
Proof.
  intros Hn Hm E. apply (f_equal (map Some)) in E. rewrite !map_app in E.
  apply (f_equal decode_remaining_length) in E. rewrite !remaining_length_facts in E by lia.
  replace (n <? 128 * 128 * 128) with true in E by (symmetry; apply Z.ltb_lt; lia).
  destruct (m <? 128 * 128 * 128); [|discriminate]. injection E as -> E.
  split; [reflexivity|]. apply (f_equal (map (fun o => match o with Some x => x | None => 0 end))) in E.
  rewrite !map_map, !map_id in E. exact E.
Qed.

(** ** Incoming packets: lemmas *)

Lemma read_payload_all cs : forall acc rem_len,
  Forall (fun c => c <> []) cs -> rem_len = zlen acc + zlen (concat cs) ->
  read_payload rem_len acc cs = acc ++ concat cs.
Proof.
  induction cs as [|c cs IH]; intros acc rem Hc ->; cbn [read_payload concat length].
  - rewrite app_nil_r. destruct (_ <? _); reflexivity.
  - apply Forall_cons in Hc as [Hne Hc]. destruct c as [|b c]; [done|].
    set (ch := b :: c) in *. assert (0 < zlen ch) by (subst ch; cbn [length]; lia).
    rewrite length_app. destruct (_ <? _) eqn:E; to_prop; [|lia].
    rewrite take_ge by lia. rewrite IH; [by rewrite app_assoc|exact Hc|].
    rewrite length_app. lia.
Qed.

Lemma put_string_length (s : bytes) : zlen (put_string s) = 2 + zlen s.
Proof. unfold put_string. rewrite length_app. cbn [length]. lia. Qed.

Lemma put_string_head (s rest : bytes) : zlen s < 65536 ->
  Z.lor (Z.shiftl (nth 0 (put_string s ++ rest) 0) 8) (nth 1 (put_string s ++ rest) 0) = zlen s.
Proof.
  intros. cbn [put_string app nth]. autorewrite with words. rewrite lor_256 by (apply mod256_byte).
  apply be16_split. lia.
Qed.

Lemma read_publish_packet topic payload retain qos pid :
  qos = 0 \/ qos = 1 -> zlen topic < 65536 ->
  read_publish (publish_header retain qos)
    (put_string topic ++ (if 0 <? qos then put_u16 pid else []) ++ payload) = Some (topic, payload).
Proof.
  intros Hq Ht. unfold read_publish. rewrite !length_app.
  pose proof (put_string_length topic) as Hl.
  destruct (_ <? 2) eqn:E; to_prop; [lia|]. clear E.
  rewrite put_string_head by lia.
  destruct (_ <? 2 + zlen topic) eqn:E; to_prop; [lia|]. clear E.
  replace (substr _ 2 _) with topic.
  2: { unfold substr. rewrite Nat2Z.id. match goal with |- context [drop 2 (_ ++ ?r)] => change (drop 2 (_ ++ r)) with (topic ++ r) end.
       by rewrite take_app_exact. }
  do 2 f_equal.
  assert (Hb : (0 <? Z.land (Z.shiftr (publish_header retain qos) 1) 0x03) = (0 <? qos))
    by (destruct Hq as [-> | ->], retain; reflexivity).
  rewrite Hb. set (ids := if 0 <? qos then put_u16 pid else []).
  replace (if 0 <? qos then 2 + zlen topic + 2 else 2 + zlen topic) with (zlen (put_string topic ++ ids))
    by (rewrite length_app; subst ids; destruct (0 <? qos); cbn [put_u16 length]; lia).
  rewrite app_assoc. clear Hb. case_if; to_prop.
  - apply drop_app_exact. lia.
  - symmetry. apply length_zero_iff_nil. rewrite !length_app in E. lia.
Qed.

Lemma process_command c name payload retain qos pid :
  qos = 0 \/ qos = 1 -> zlen (base_topic c ++ str "/cmd/" ++ name) < 65536 ->
  process_incoming_packet c (publish_header retain qos)
    (put_string (base_topic c ++ str "/cmd/" ++ name) ++
     (if 0 <? qos then put_u16 pid else []) ++ payload) = Some (name, payload).
Proof.
  intros Hq Ht. unfold process_incoming_packet.
  replace (_ =? 0x30) with true by (destruct Hq as [-> | ->], retain; reflexivity).
  rewrite read_publish_packet by assumption.
  rewrite app_assoc, starts_with_app. unfold substr_from. rewrite drop_app_length. reflexivity.
Qed.

(** A command published as one packet, received in whatever pieces the
    socket delivers, reaches the callback with the name and the payload that
    were published, at QoS 0 and 1. *)
Theorem command_delivered c last_ping pid name payload retain qos h cs now :
  let topic := base_topic (config_ c) ++ str "/cmd/" ++ name in
  qos = 0 \/ qos = 1 -> zlen topic < 65536 -> zlen topic + zlen payload + 4 < 128 * 128 * 128 ->
  Forall (fun chunk => chunk <> []) cs ->
  publish_packet pid topic payload retain qos =
    [h] ++ encode_remaining_length (zlen (concat cs)) ++ concat cs ->
  exists c' lp go,
    loop_iteration c last_ping
      (mkIteration 1 h (map Some (encode_remaining_length (zlen (concat cs)))) cs now)
    = (c', lp, Some (name, payload), go).
Proof.
  intros topic Hq Ht Hlen Hc E. unfold publish_packet, packet in E. cbn [app] in E.
  injection E as <- E. rewrite <- !app_assoc in E.
  pose proof (put_string_length topic) as Hl.
  assert (Hp : zlen (if 0 <? qos then put_u16 pid else []) <= 2) by (destruct (0 <? qos); cbn; lia).
  apply remaining_length_prefix in E as [En E]; [|rewrite length_app in *; lia|lia].
  unfold loop_iteration. cbn [header_result header_byte length_reads chunks].
  change (1 <? 0) with false. change (1 =? 1) with true. cbv iota.
  pose proof (remaining_length_facts (zlen (concat cs)) [] ltac:(lia)) as D.
  rewrite app_nil_r in D. rewrite D.
  replace (_ <? 128 * 128 * 128) with true by (symmetry; apply Z.ltb_lt; rewrite length_app in *; lia).
  rewrite (read_payload_all cs []) by (auto; cbn; lia). cbn [app]. rewrite Z.eqb_refl.
  replace (process_incoming_packet _ _ _) with (Some (name, payload))
    by (rewrite <- E; symmetry; apply (process_command (config_ c) name payload retain qos pid); assumption).
  destruct (20 <=? _); [|eauto].
  destruct (send_mqtt_ping c) as [c' [|]]; eauto.
Qed.

Definition sample_client : Client :=
  mkClient (mkMqttConfig true (str "broker") 1883 [] [] (str "tpp01_panel") (str "panel/tpp01") true)
    true true true 1 [] [].

Lemma command_delivered_witness :
  exists c' lp go,
    loop_iteration sample_client 0
      (mkIteration 1 0x32
         (map Some (encode_remaining_length (zlen (concat [[0; 22]; str "panel/tpp01/cmd/screen"; [0; 7]; str "OF"; str "F"]))))
         [[0; 22]; str "panel/tpp01/cmd/screen"; [0; 7]; str "OF"; str "F"] 5)
    = (c', lp, Some (str "screen", str "OFF"), go).
Proof.
  apply (command_delivered sample_client 0 7 (str "screen") (str "OFF") false 1).
  - right. reflexivity.
  - vm_compute. reflexivity.
  - vm_compute. reflexivity.
  - repeat constructor; discriminate.
  - vm_compute. reflexivity.
Defined.

(** The decoder reads back every remaining length below 128^3 and leaves
    the bytes that follow unread; it rejects every longer one, which the
    encoder still writes and the protocol allows up to 128^4. *)
Theorem remaining_length_roundtrip n rest :
  0 <= n ->
  decode_remaining_length (map Some (encode_remaining_length n) ++ rest) =
  if n <? 128 * 128 * 128 then Some (n, rest) else None.
Proof. apply remaining_length_facts. Qed.

Lemma remaining_length_roundtrip_witness :
  decode_remaining_length (map Some (encode_remaining_length 2097152) ++ []) = None.
Proof. apply (remaining_length_roundtrip 2097152 []). lia. Defined.

(** ** Writing to the socket: lemmas *)

Lemma send_loop_prefix results : forall data w ok w' rs,
  send_loop results data w = (ok, w', rs) ->
  exists sent, w' = w ++ sent /\ sent `prefix_of` data /\ (ok = true -> sent = data).
Proof.
  induction results as [|r results IH]; intros data w ok w' rs; destruct data as [|b data]; simpl.
  1,3: intros [= <- <- <-]; exists []; rewrite app_nil_r; repeat split; auto; reflexivity.
  - intros [= <- <- <-]. exists []. rewrite app_nil_r. repeat split; [|done]. apply prefix_nil.
  - destruct (r <=? 0).
    + intros [= <- <- <-]. exists []. rewrite app_nil_r. repeat split; [|done]. apply prefix_nil.
    + intros (sent & -> & Hp & Hok)%IH. exists (take (Z.to_nat r) (b :: data) ++ sent).
      rewrite app_assoc. split; [reflexivity|].
      pose proof (take_drop (Z.to_nat r) (b :: data)) as E. split.
      * rewrite <- E at 2. by apply prefix_app.
      * intros ->%Hok. exact E.
Qed.

(** What a [send_raw] may do: append a prefix of the packet to the bytes of
    the connection, the whole packet when it reports success. *)
Lemma send_raw_facts c data c' ok :
  send_raw c data = (c', ok) ->
  exists sent,
    wire c' = wire c ++ sent /\ sent `prefix_of` data /\ (ok = true -> sent = data /\ sock_open c = true) /\
    (sock_open c = false -> sent = []) /\
    config_ c' = config_ c /\ running_ c' = running_ c /\ connected_ c' = connected_ c /\
    sock_open c' = sock_open c /\ packet_id_ c' = packet_id_ c.
Proof.
  unfold send_raw. destruct (sock_open c) eqn:Eo; cbn [negb].
  - destruct (send_loop (writes c) data (wire c)) as [[k w] rs] eqn:E.
    intros [= <- <-]. apply send_loop_prefix in E as (sent & -> & Hp & Hok).
    exists sent. cbn. repeat split; auto. done.
  - intros [= <- <-]. exists []. rewrite app_nil_r. repeat split; auto; try done. apply prefix_nil.
Qed.

(** A send that reports success has put exactly the packet on the
    connection, whatever pieces the kernel accepted it in; one that fails has
    put a prefix of it there and left everything else of the client alone. *)
Theorem send_raw_exact c data c' ok :
  send_raw c data = (c', ok) ->
  exists sent, c' = with_net c (wire c ++ sent) (writes c') /\ sent `prefix_of` data /\
    (ok = true -> sent = data /\ sock_open c = true).
Proof.
  intros (sent & Hw & Hp & Hok & _ & ? & ? & ? & ? & ?)%send_raw_facts.
  exists sent. split; [|auto]. unfold with_net. destruct c, c'; cbn in *. congruence.
Qed.

Lemma send_raw_exact_witness :
  exists sent,
    with_net (with_net sample_client [] [3; 4]) (str "PINGREQ") [] =
    with_net (with_net sample_client [] [3; 4]) ([] ++ sent) [] /\ sent `prefix_of` str "PINGREQ" /\
    (true = true -> sent = str "PINGREQ" /\ sock_open sample_client = true).
Proof.
  apply (send_raw_exact (with_net sample_client [] [3; 4]) (str "PINGREQ")
           (with_net (with_net sample_client [] [3; 4]) (str "PINGREQ") []) true).
  vm_compute. reflexivity.
Defined.

(** ** The CONNECT packet against the protocol

    A reference reader of CONNECT packets, written from section 3.1 of MQTT
    3.1.1, with the checks a server must make: protocol name and level, the
    reserved flag, will QoS below 3, no password without a user name, and a
    payload of exactly the announced fields. *)
Record ConnectInfo := mkConnectInfo {
  ci_client_id : bytes;
  ci_clean : bool;
  ci_keep_alive : Z;
  ci_will : option (bytes * bytes * Z * bool);
  ci_username : option bytes;
  ci_password : option bytes;
}.

Definition get_string (s : bytes) : option (bytes * bytes) :=
  match s with
  | hi :: lo :: r =>
      let n := Z.to_nat (hi * 256 + lo) in
      if (n <=? length r)%nat then Some (take n r, drop n r) else None
  | _ => None
  end.

Definition get_opt_string (present : bool) (s : bytes) : option (option bytes * bytes) :=
  if present then '(v, r) ← get_string s; Some (Some v, r) else Some (None, s).

Definition parse_connect_body (body : bytes) : option ConnectInfo :=
  match body with
  | 0 :: 4 :: 77 :: 81 :: 84 :: 84 :: 4 :: flags :: k1 :: k0 :: r =>
      let will := Z.testbit flags 2 in
      let will_qos := Z.land (Z.shiftr flags 3) 3 in
      let has_user := Z.testbit flags 7 in
      let has_pass := Z.testbit flags 6 in
      if Z.testbit flags 0 then None
      else if 3 <=? will_qos then None
      else if negb will && (negb (will_qos =? 0) || Z.testbit flags 5) then None
      else if has_pass && negb has_user then None
      else
        '(cid, r) ← get_string r;
        '(wt, r) ← get_opt_string will r;
        '(wm, r) ← get_opt_string will r;
        '(u, r) ← get_opt_string has_user r;
        '(p, r) ← get_opt_string has_pass r;
        match r with
        | [] => Some (mkConnectInfo cid (Z.testbit flags 1) (k1 * 256 + k0)
                        (match wt, wm with
                         | Some t, Some m => Some (t, m, will_qos, Z.testbit flags 5)
                         | _, _ => None
                         end) u p)
        | _ => None
        end
  | _ => None
  end.

Definition parse_connect (s : bytes) : option ConnectInfo :=
  match s with
  | 0x10 :: r =>
      '(n, r) ← decode_remaining_length (map Some r);
      let body := map (fun o => match o with Some b => b | None => 0 end) r in
      if zlen body =? n then parse_connect_body body else None
  | _ => None
  end.

Lemma get_put_string (s r : bytes) : zlen s < 65536 -> get_string (put_string s ++ r) = Some (s, r).
Proof.
  intros H. unfold put_string. app_norm. unfold get_string.
  autorewrite with words. rewrite be16_split, Nat2Z.id by lia.
  rewrite length_app. destruct (_ <=? _)%nat eqn:E; to_prop; [|lia].
  by rewrite take_app_length, drop_app_length.
Qed.

Lemma get_opt_put (s r : bytes) (b : bool) :
  zlen s < 65536 ->
  get_opt_string b ((if b then put_string s else []) ++ r) = Some (if b then Some s else None, r).
Proof. intros H. destruct b; cbn [get_opt_string]; [rewrite get_put_string by exact H|]; reflexivity. Qed.

Definition opt_text (s : bytes) : option bytes := if negb (is_empty s) then Some s else None.

Definition strings_fit (c : MqttConfig) : bool :=
  forallb (fun s : bytes => zlen s <? 65536) [client_id c; lwt_topic c; username c; password c].

Lemma connect_body_parses c :
  strings_fit c = true -> negb (is_empty (password c)) && is_empty (username c) = false ->
  parse_connect_body
    (([0x00; 0x04] ++ str "MQTT" ++ [0x04; connect_flags c; 0x00; 0x3C]) ++
     put_string (client_id c) ++ put_string (lwt_topic c) ++ put_string lwt_payload ++
     (if negb (is_empty (username c)) then put_string (username c) else []) ++
     (if negb (is_empty (password c)) then put_string (password c) else [])) =
  Some (mkConnectInfo (client_id c) true 60 (Some (lwt_topic c, lwt_payload, 1, true))
          (opt_text (username c)) (opt_text (password c))).
Proof.
  intros Hf Hup. unfold strings_fit in Hf. cbn [forallb] in Hf. to_prop.
  rewrite <- (app_nil_r (if negb (is_empty (password c)) then _ else _)).
  unfold connect_flags, opt_text.
  change (str "MQTT") with [77; 81; 84; 84]%Z. cbn [app].
  destruct (negb (is_empty (username c))) eqn:Eu, (negb (is_empty (password c))) eqn:Ep;
    try (to_prop; rewrite ?Eu in Hup; discriminate);
    unfold parse_connect_body; vm_compute (Z.testbit _ _); vm_compute (3 <=? _);
    vm_compute (Z.land (Z.shiftr _ _) _ =? 0); vm_compute (Z.land (Z.shiftr _ _) _); cbn [negb andb orb];
    rewrite get_put_string by assumption; cbn [mbind option_bind];
    rewrite (get_opt_put _ _ true) by assumption; cbn [mbind option_bind];
    rewrite (get_opt_put lwt_payload _ true) by reflexivity; cbn [mbind option_bind].
  - rewrite (get_opt_put _ _ true) by assumption; cbn [mbind option_bind].
    rewrite (get_opt_put _ _ true) by assumption. reflexivity.
  - rewrite (get_opt_put _ _ true) by assumption. reflexivity.
  - reflexivity.
Qed.

Lemma connect_body_rejected c rest :
  negb (is_empty (password c)) && is_empty (username c) = true ->
  parse_connect_body (([0x00; 0x04] ++ str "MQTT" ++ [0x04; connect_flags c; 0x00; 0x3C]) ++ rest) = None.
Proof.
  intros H. to_prop. unfold connect_flags. change (str "MQTT") with [77; 81; 84; 84]%Z. cbn [app].
  rewrite H0. apply negb_true_iff in H. rewrite H. reflexivity.
Qed.

Lemma opt_string_length (b : bool) (s : bytes) :
  zlen s < 65536 -> 0 <= zlen (if b then put_string s else []) < 65538.
Proof. intros H. destruct b; [rewrite put_string_length; lia|cbn; lia]. Qed.

(** A server that follows section 3.1 of the protocol reads the CONNECT
    packet as the settings say: client id, clean session, 60 s keep-alive, a
    retained QoS 1 will of "offline" on the status topic, and the
    credentials that are set; it refuses the packet exactly when a password
    is set without a user name. *)
Theorem connect_packet_parses c :
  strings_fit c = true ->
  parse_connect (connect_packet c) =
  if negb (is_empty (password c)) && is_empty (username c) then None
  else Some (mkConnectInfo (client_id c) true 60 (Some (lwt_topic c, lwt_payload, 1, true))
               (opt_text (username c)) (opt_text (password c))).
Proof.
  intros Hf. unfold connect_packet, packet. cbn zeta.
  set (vh := [0x00; 0x04] ++ _). set (pl := put_string (client_id c) ++ _).
  assert (Hn : 0 <= zlen vh + zlen pl < 128 * 128 * 128).
  { unfold strings_fit in Hf. cbn [forallb] in Hf. to_prop. subst vh pl.
    pose proof (opt_string_length (negb (is_empty (username c))) (username c) ltac:(assumption)).
    pose proof (opt_string_length (negb (is_empty (password c))) (password c) ltac:(assumption)).
    pose proof (put_string_length (client_id c)). pose proof (put_string_length (lwt_topic c)).
    change (zlen ([0x00; 0x04] ++ str "MQTT" ++ [0x04; connect_flags c; 0x00; 0x3C])) with 10.
    rewrite !length_app. change (length (put_string lwt_payload)) with 9%nat. lia. }
  cbn [app]. unfold parse_connect. rewrite map_app, remaining_length_facts by lia.
  destruct (_ <? 128 * 128 * 128) eqn:E; to_prop; [|lia]. cbn [mbind option_bind].
  rewrite map_map, map_id, zlen_app, Z.eqb_refl. subst vh pl.
  destruct (_ && is_empty (username c)) eqn:E0.
  - apply connect_body_rejected. exact E0.
  - apply connect_body_parses; assumption.
Qed.

Lemma connect_packet_parses_witness :
  strings_fit (config_ sample_client) = true /\
  parse_connect (connect_packet (config_ sample_client)) =
  Some (mkConnectInfo (str "tpp01_panel") true 60
          (Some (str "panel/tpp01/state/status", str "offline", 1, true)) None None).
Proof.
  split; [vm_compute; reflexivity|].
  rewrite (connect_packet_parses (config_ sample_client)); [vm_compute; reflexivity|].
  vm_compute. reflexivity.
Defined.

(** ** The life cycle: invariant *)

(** Bytes that late calls of [publish] wrote: first parts of carried packets. *)
Definition strays (old : list bytes) (w : bytes) : Prop :=
  exists parts, w = concat parts /\ Forall (fun part => exists data, data ∈ old /\ part `prefix_of` data) parts.

(** The connection, if it is open, carries a complete CONNECT packet, behind
    strays at most. *)
Definition announced (old : list bytes) (c : Client) : Prop :=
  sock_open c = false \/ exists w rest, strays old w /\ wire c = w ++ connect_packet (config_ c) ++ rest.

(** A first part of CONNECT was written, and nothing else but strays. *)
Definition torn (old : list bytes) (c : Client) : Prop :=
  exists w part w', strays old w /\ strays old w' /\ part `prefix_of` connect_packet (config_ c) /\ wire c = w ++ part ++ w'.

Definition position_ok (s : State) : Prop :=
  match pc s with
  | PcConnect => connected_ (client s) = false /\ strays (carried s) (wire (client s)) /\ pending s ⊆ carried s
  | PcAck | PcAccepted | PcOnline _ | PcRead => announced (carried s) (client s)
  | PcClose => (connected_ (client s) = false /\ torn (carried s) (client s) /\ pending s ⊆ carried s) \/
               announced (carried s) (client s)
  | PcTop | PcOpen | PcWait | PcDone => sock_open (client s) = false /\ connected_ (client s) = false
  end.

Definition is_publish (data : bytes) : Prop :=
  exists pid topic payload retain qos, data = publish_packet pid topic payload retain qos.

(** What every step keeps, the position apart. *)
Definition base_ok (s : State) : Prop :=
  (sock_open (client s) = false -> wire (client s) = []) /\
  (connected_ (client s) = true -> announced (carried s) (client s)) /\
  Forall is_publish (pending s) /\ Forall is_publish (carried s).

Definition lifecycle_ok (s : State) : Prop := base_ok s /\ position_ok s.

Lemma strays_nil old : strays old [].
Proof. by exists []. Qed.

Lemma strays_app old w part data : strays old w -> data ∈ old -> part `prefix_of` data -> strays old (w ++ part).
Proof.
  intros (parts & -> & H) Hd Hp. exists (parts ++ [part]). rewrite concat_app. cbn [concat]. rewrite app_nil_r. split; [done|].
  apply Forall_app. split; [done|]. constructor; [by exists data|constructor].
Qed.

Lemma strays_none w : strays [] w -> w = [].
Proof. intros (parts & -> & H). destruct H as [|part parts (d & Hd & _) _]; [done|]. inversion Hd. Qed.

(** Two clients that differ in what was appended to the connection. *)
Definition extends (c c' : Client) : Prop :=
  config_ c' = config_ c /\ running_ c' = running_ c /\ connected_ c' = connected_ c /\
  sock_open c' = sock_open c /\
  exists sent, wire c' = wire c ++ sent /\ (sock_open c = false -> sent = []).

Lemma extends_refl c : extends c c.
Proof. repeat split; auto. exists []. by rewrite app_nil_r. Qed.

Lemma extends_trans a b c : extends a b -> extends b c -> extends a c.
Proof.
  intros (? & ? & ? & Ho & x & Hx & Zx) (? & ? & ? & ? & y & Hy & Zy).
  repeat split; try congruence. exists (x ++ y). rewrite Hy, Hx, app_assoc. split; [done|].
  intros E. rewrite Zx, Zy by congruence. reflexivity.
Qed.

Lemma extends_send c data : extends c (fst (send_raw c data)).
Proof.
  destruct (send_raw c data) as [c' ok] eqn:E.
  apply send_raw_facts in E as (sent & ? & ? & ? & ? & ? & ? & ? & ? & ?).
  repeat split; auto. exists sent. auto.
Qed.

Lemma extends_packet_id c n : extends c (with_packet_id c n).
Proof. repeat split; auto. exists []. by rewrite app_nil_r. Qed.

Lemma extends_prepare c topic payload retain qos c' data :
  publish_prepare c topic payload retain qos = Some (c', data) -> extends c c' /\ connected_ c = true /\ is_publish data.
Proof.
  unfold publish_prepare. destruct (connected_ c); [|discriminate]. cbn [negb].
  intros [= <- <-]. split; [|split; [done|by eexists _, _, _, _, _]].
  destruct (0 <? qos); [apply extends_packet_id|apply extends_refl].
Qed.

Lemma extends_publish c topic payload retain qos : extends c (fst (publish c topic payload retain qos)).
Proof.
  unfold publish. destruct (publish_prepare _ _ _ _ _) as [[c' data]|] eqn:E; [|apply extends_refl].
  eapply extends_trans; [eapply extends_prepare, E|apply extends_send].
Qed.

Lemma extends_subscribe c : extends c (subscribe_commands c).
Proof. eapply extends_trans; [apply extends_packet_id|apply extends_send]. Qed.

Lemma extends_iteration c lp i c' lp' cmd go :
  loop_iteration c lp i = (c', lp', cmd, go) -> extends c c'.
Proof.
  unfold loop_iteration. intros H.
  destruct (header_result i <? 0); [injection H as <- _ _ _; apply extends_refl|].
  destruct (if header_result i =? 1 then _ else _) as [command|];
    [|injection H as <- _ _ _; apply extends_refl].
  destruct (20 <=? _); [|injection H as <- _ _ _; apply extends_refl].
  pose proof (extends_send c ping_packet) as Hp. unfold send_mqtt_ping in H.
  destruct (send_raw c ping_packet) as [c1 [|]]; injection H as <- _ _ _; exact Hp.
Qed.

Lemma announced_extends old c c' : extends c c' -> announced old c -> announced old c'.
Proof.
  intros (Ec & _ & _ & Ho & sent & Hw & _) [H|(w & rest & Hs & H)]; [left; congruence|].
  right. exists w, (rest ++ sent). split; [done|]. rewrite Hw, H, Ec, !app_assoc. done.
Qed.

Lemma base_extends c pos lp q old c' pos' lp' :
  extends c c' -> base_ok (mkState c pos lp q old) -> base_ok (mkState c' pos' lp' q old).
Proof.
  unfold base_ok. cbn [client pending carried]. intros H (Hw & Ha & Hp).
  pose proof H as (_ & _ & En & Eo & sent & Ew & Hs). split; [|split; [|exact Hp]].
  - intros E. rewrite Ew, Hw, Hs by congruence. reflexivity.
  - intros E. apply (announced_extends old c); [exact H|]. apply Ha. congruence.
Qed.

Lemma announced_step c pos lp q old c' pos' lp' :
  extends c c' -> base_ok (mkState c pos lp q old) -> announced old c ->
  base_ok (mkState c' pos' lp' q old) /\ announced old c'.
Proof. intros H B A. split; [by eapply base_extends|by eapply announced_extends]. Qed.

Lemma base_close c pos lp q old pos' :
  base_ok (mkState c pos lp q old) -> base_ok (mkState (close_socket c) pos' lp q old).
Proof. unfold base_ok. intros (_ & _ & Hp). split; [done|]. split; [discriminate|exact Hp]. Qed.

(** The CONNECT packet goes out behind the strays, whole or in part. *)
Lemma connect_ok c lp q old :
  lifecycle_ok (mkState c PcConnect lp q old) ->
  lifecycle_ok (mkState (fst (send_connect c)) (if snd (send_connect c) then PcAck else PcClose) lp q old).
Proof.
  intros [B (Hn & Hs & Hp)]. unfold send_connect. cbn [client pending carried] in *.
  pose proof (extends_send c (connect_packet (config_ c))) as Hx.
  destruct (send_raw c (connect_packet (config_ c))) as [c' ok] eqn:E. cbn [fst snd] in *.
  split; [by eapply base_extends|]. apply send_raw_facts in E as (sent & Ew & Hpre & Hok & _).
  destruct Hx as (Ec & _ & En & _). destruct ok; unfold position_ok; cbn [pc client pending carried].
  - right. exists (wire c), []. rewrite Ec, app_nil_r, Ew. destruct (Hok eq_refl) as [-> _]. done.
  - left. split; [congruence|]. split; [|exact Hp]. exists (wire c), sent, []. rewrite Ec, app_nil_r. auto using strays_nil.
Qed.

Lemma prepare_ok c pos lp q old topic payload retain qos c' data :
  publish_prepare c topic payload retain qos = Some (c', data) ->
  lifecycle_ok (mkState c pos lp q old) -> lifecycle_ok (mkState c' pos lp (q ++ [data]) old).
Proof.
  intros (Hx & Hn & Hd)%extends_prepare [B Hpos]. pose proof B as (_ & Ha & _). specialize (Ha Hn). cbn [client carried] in Ha.
  pose proof (announced_extends _ _ _ Hx Ha) as Ha'. split.
  - destruct (base_extends _ _ _ _ _ _ pos lp Hx B) as (Hw & Hk & Hq & Ho). split; [exact Hw|]. split; [exact Hk|].
    split; [|exact Ho]. apply Forall_app. split; [exact Hq|]. by repeat constructor.
  - unfold position_ok in *. cbn [client pc pending carried] in *.
    destruct pos; try exact Ha'; try (destruct Hpos; congruence). by right.
Qed.

Lemma send_ok c pos lp q1 data q2 old :
  lifecycle_ok (mkState c pos lp (q1 ++ data :: q2) old) ->
  lifecycle_ok (mkState (fst (send_raw c data)) pos lp (q1 ++ q2) old).
Proof.
  intros [B Hpos]. pose proof (extends_send c data) as Hx.
  destruct (send_raw c data) as [c' ok] eqn:E. cbn [fst] in *. apply send_raw_facts in E as (sent & Ew & Hpre & _).
  assert (Sub : q1 ++ data :: q2 ⊆ old -> data ∈ old /\ q1 ++ q2 ⊆ old) by (intros H; split; [apply H; rewrite elem_of_app, elem_of_cons; auto|intros x Hi; apply H; rewrite !elem_of_app, ?elem_of_cons in *; tauto]).
  pose proof (base_extends _ _ _ _ _ _ pos lp Hx B) as (Hw & Ha & Hq & Ho). cbn [client pending carried] in *. split.
  { split; [exact Hw|]. split; [exact Ha|]. split; [|exact Ho]. apply Forall_app in Hq as [Hq1 Hq2]. inversion Hq2; subst.
    apply Forall_app. by split. }
  pose proof (announced_extends old _ _ Hx) as Hk. destruct Hx as (Ec & _ & En & Eo & _).
  unfold position_ok in *. cbn [client pc pending carried] in *.
  destruct pos; try exact (Hk Hpos); try (rewrite En, Eo; exact Hpos).
  - destruct Hpos as (Hn & Hs & Hp). destruct (Sub Hp) as [Hd Hp']. rewrite Ew, En. split; [exact Hn|].
    split; [by eapply strays_app|exact Hp'].
  - destruct Hpos as [(Hn & (w & part & w' & S1 & S2 & Hc & W) & Hp)|Hpos]; [left|right; exact (Hk Hpos)].
    destruct (Sub Hp) as [Hd Hp']. rewrite En. split; [exact Hn|]. split; [|exact Hp'].
    exists w, part, (w' ++ sent). rewrite Ec, Ew, W, !app_assoc. auto using strays_app. eauto 6 using strays_app.
Qed.

Lemma step_lifecycle s s' : lifecycle_ok s -> connection_step s s' -> lifecycle_ok s'.
Proof.
  intros L H. pose proof L as [B Hpos]. destruct H as
    [c lp q old Hr|c lp q old Hr|c lp q old up results|c lp q old|c lp q old r ack|c lp q old|c lp q old k t p _|c lp q old now|
     c lp q old i c' lp' cmd go _ _ E|c lp q old _|c lp q old|c lp q old|
     c pos lp q old topic payload retain qos c' data E|c pos lp q1 data q2 old|c pos lp q old|c pos lp q old _|c lp q old config _ _].
  - split; [exact B|exact Hpos].
  - split; [exact B|exact Hpos].
  - destruct B as (_ & _ & Hq & _). split; [by repeat split|]. destruct up; [|split; reflexivity].
    split; [reflexivity|]. split; [apply strays_nil|]. done.
  - by apply connect_ok.
  - split; [exact B|]. destruct (connack_ok r ack); [exact Hpos|by right].
  - split; [|exact Hpos]. destruct B as (Hw & _ & Hq). split; [exact Hw|]. split; [|exact Hq]. intros _. exact Hpos.
  - eapply announced_step; [apply extends_publish|exact B|exact Hpos].
  - eapply announced_step; [apply extends_subscribe|exact B|exact Hpos].
  - apply extends_iteration in E. destruct (announced_step _ _ _ _ _ _ (if go then PcRead else PcClose) lp' E B Hpos) as [B' A].
    split; [exact B'|]. destruct go; [exact A|by right].
  - split; [exact B|by right].
  - split; [exact (base_close _ _ _ _ _ _ B)|]. destruct (running_ c); repeat split.
  - split; [exact B|exact Hpos].
  - by eapply prepare_ok.
  - by eapply send_ok.
  - split; [exact B|exact Hpos].
  - split; [exact (base_close _ _ _ _ _ _ B)|]. unfold position_ok in *. cbn [client pc pending carried] in *.
    destruct pos; try (by left); try (split; reflexivity); [|right; by left].
    destruct Hpos as (_ & _ & Hp). split; [reflexivity|]. split; [apply strays_nil|exact Hp].
  - destruct Hpos as [Ho Hn]. destruct B as (Hw & _ & Hq). cbn [client] in *. split; [|by split].
    split; [exact Hw|]. split; [|exact Hq]. intros _. by left.
Qed.

Lemma reachable_lifecycle cfg s : reachable cfg s -> lifecycle_ok s.
Proof.
  induction 1 as [|s s' _ IH H]; [|exact (step_lifecycle _ _ IH H)]. split; [|split; reflexivity].
  split; [reflexivity|]. split; [discriminate|]. split; constructor.
Qed.

(** C9. Whatever the loop thread, the publishing threads, [stop] and the next
    [start] do, in any order, with writes cut short anywhere: the bytes on the
    current connection are a first part of the CONNECT packet or begin with all of
    it, except for first parts of PUBLISH packets that calls of [publish] had
    built before this socket was opened and wrote to it late.  When no packet was
    in flight at the opening there is no exception; and when the client counts as
    connected, the whole CONNECT packet was written.  (The late packets do occur:
    see [publish_can_precede_connect].) *)
Theorem connection_starts_with_connect cfg s :
  reachable cfg s ->
  let connect := connect_packet (config_ (client s)) in
  (exists w part rest, wire (client s) = w ++ part ++ rest /\ strays (carried s) w /\
     (part = connect \/ part `prefix_of` connect /\ strays (carried s) rest)) /\
  Forall is_publish (carried s) /\
  (carried s = [] -> wire (client s) `prefix_of` connect \/ connect `prefix_of` wire (client s)) /\
  (connected_ (client s) = true -> sock_open (client s) = true ->
   exists w rest, strays (carried s) w /\ wire (client s) = w ++ connect ++ rest).
Proof.
  intros ((Hz & Ha & _ & Hc) & Hpos)%reachable_lifecycle connect.
  assert (First : exists w part rest, wire (client s) = w ++ part ++ rest /\ strays (carried s) w /\
     (part = connect \/ part `prefix_of` connect /\ strays (carried s) rest)).
  { assert (Hk : announced (carried s) (client s) -> exists w part rest, wire (client s) = w ++ part ++ rest /\
      strays (carried s) w /\ (part = connect \/ part `prefix_of` connect /\ strays (carried s) rest)).
    { intros [H|(w & rest & Hs & H)]; [|by exists w, connect, rest; auto].
      exists [], [], []. rewrite (Hz H). split; [done|]. split; [apply strays_nil|]. right. split; [apply prefix_nil|apply strays_nil]. }
    unfold position_ok in Hpos. destruct (pc s); try (apply Hk; exact Hpos); try (apply Hk; left; apply Hpos).
    - destruct Hpos as (_ & Hs & _). exists (wire (client s)), [], []. rewrite !app_nil_r. split; [done|]. split; [done|].
      right. split; [apply prefix_nil|apply strays_nil].
    - destruct Hpos as [(_ & (w & part & w' & S1 & S2 & Hp & W) & _)|H]; [|by apply Hk]. exists w, part, w'. auto. }
  split; [exact First|]. split; [exact Hc|]. split.
  - intros E. rewrite E in First. destruct First as (w & part & rest & -> & ->%strays_none & [->|[Hp ->%strays_none]]).
    + right. by exists rest.
    + left. by rewrite app_nil_r.
  - intros H1 H2. destruct (Ha H1) as [H|H]; [congruence|exact H].
Qed.

Definition sample_config : MqttConfig := config_ sample_client.

(** The states of a first connection, up to the announcements. *)
Definition after_connect : Client := connect_socket (client (initial_connection sample_config)) true [1000; 20].
Definition after_handshake : Client := set_connected (fst (send_connect after_connect)).

Lemma reach_online : reachable sample_config (mkState after_handshake (PcOnline 0) 0 [] []).
Proof.
  eapply reachable_step. 2: apply step_connected.
  eapply reachable_step. 2: apply (step_connack (fst (send_connect after_connect)) 0 [] [] 4 [0x20; 2; 0; 0]).
  eapply reachable_step. 2: apply step_send_connect.
  eapply reachable_step. 2: apply (step_connect (client (initial_connection sample_config)) 0 [] [] true).
  eapply reachable_step. 2: apply step_running; reflexivity.
  apply reachable_start.
Qed.

Lemma connection_starts_with_connect_witness :
  connected_ after_handshake = true /\
  (wire after_handshake `prefix_of` connect_packet sample_config \/ connect_packet sample_config `prefix_of` wire after_handshake).
Proof.
  split; [vm_compute; reflexivity|].
  destruct (connection_starts_with_connect sample_config (mkState after_handshake (PcOnline 0) 0 [] []) reach_online)
    as (_ & _ & H & _). exact (H eq_refl).
Defined.

(** All the announcements of a connection, one after the other. *)
Definition publish_all (c : Client) (ms : list (bytes * bytes)) : Client :=
  fold_left (fun c m => fst (publish c (fst m) (snd m) true 0)) ms c.

Lemma reach_read cfg ms : forall c k lp q old now,
  (k <= length (announcements (config_ c)))%nat -> drop k (announcements (config_ c)) = ms ->
  reachable cfg (mkState c (PcOnline k) lp q old) ->
  reachable cfg (mkState (subscribe_commands (publish_all c ms)) PcRead now q old).
Proof.
  induction ms as [|[topic payload] ms IH]; intros c k lp q old now Hk E R.
  - apply (f_equal length) in E. rewrite length_drop in E. cbn [length] in E.
    assert (k = length (announcements (config_ c))) as -> by lia. eapply reachable_step; [exact R|]. apply step_subscribe.
  - assert (L : announcements (config_ c) !! k = Some (topic, payload)).
    { rewrite <- (Nat.add_0_r k), <- lookup_drop, E. reflexivity. }
    pose proof (lookup_lt_Some _ _ _ L) as Hl. pose proof (extends_publish c topic payload true 0) as (Ec & _).
    unfold publish_all. cbn [fold_left fst snd]. apply (IH _ (S k) lp).
    + rewrite Ec. lia.
    + rewrite Ec. erewrite drop_S in E by exact L. by injection E.
    + eapply reachable_step; [exact R|]. by apply step_announce.
Qed.

(** [publish] tests [connected_] before it takes the socket's lock, so a
    packet can reach a new connection ahead of CONNECT. *)
Theorem publish_can_precede_connect :
  exists s, reachable sample_config s /\ sock_open (client s) = true /\
    ~ wire (client s) `prefix_of` connect_packet sample_config /\
    ~ connect_packet sample_config `prefix_of` wire (client s).
Proof.
  set (data := publish_packet 1 (str "t") (str "x") false 0).
  set (c1 := subscribe_commands (publish_all after_handshake (announcements (config_ after_handshake)))).
  exists (mkState (fst (send_raw (connect_socket (close_socket c1) true [100]) data)) PcConnect 0 [] [data]).
  split; [|split; [|split]].
  - eapply reachable_step. 2: apply (step_send _ PcConnect 0 [] data [] [data]).
    eapply reachable_step. 2: apply (step_connect (close_socket c1) 0 [data] [] true [100]).
    eapply reachable_step. 2: apply step_running; reflexivity.
    eapply reachable_step. 2: apply step_wait.
    eapply reachable_step. 2: apply (step_close c1 0 [data] []).
    eapply reachable_step.
    2: apply (step_read c1 0 [data] [] (mkIteration (-1) 0 [] [] 0) c1 0 None false); reflexivity.
    apply (reach_read _ _ after_handshake 0 0); [lia|reflexivity|].
    eapply reachable_step. 2: apply (step_publish after_handshake (PcOnline 0) 0 [] [] (str "t") (str "x") false 0); reflexivity.
    exact reach_online.
  - reflexivity.
  - vm_compute. intros [k E]. discriminate E.
  - vm_compute. intros [k E]. discriminate E.
Qed.
