(* ===== verification/WebSocket.v ===== *)
(** The Home Assistant WebSocket client of the panel (main.cpp:
    [ws_encode_frame], [parse_ha_url_components], [ws_read_bytes_mbed],
    [ws_read_frame_mbed], the upgrade and the message loop of
    [ws_thread_loop]).  Frames of RFC 6455 of any length are read however the
    TLS layer cuts them, the frames that are sent are such frames, and an event
    sets the button of its entity. *)
From S2P Require Import Prelude CString Words.
From stdpp Require Import list.
#[local] Open Scope Z_scope.

Module WebSocket.

(** ** Frames *)

(** [^ mask[i % 4]] from index [i] on. *)
Fixpoint mask_from (i : nat) (key payload : bytes) : bytes :=
  match payload with
  | [] => []
  | b :: payload => Z.lxor b (nth (i mod 4) key 0) :: mask_from (S i) key payload
  end.

Definition ws_mask : bytes := [0x12; 0x34; 0x56; 0x78].

Definition ws_encode_frame (message : bytes) : bytes :=
  let frame := [0x81] in
  let len := zlen message in
  let frame :=
    frame ++
    (if len <=? 125 then [u8 (Z.lor 0x80 len)]
     else if len <=? 65535 then
       [u8 (Z.lor 0x80 126); Z.land (Z.shiftr len 8) 0xFF; Z.land len 0xFF]
     else u8 (Z.lor 0x80 127) :: map (fun i => Z.land (Z.shiftr len (i * 8)) 0xFF) [7; 6; 5; 4; 3; 2; 1; 0]) in
  let frame := frame ++ ws_mask in
  frame ++ mask_from 0 ws_mask message.

(** ** Reading *)

(** What is still to come from the TLS layer: the bytes, and the sizes that the
    successive calls of [mbedtls_ssl_read] can return ([<= 0] is an error). *)
Record Conn := mkConn { incoming : bytes; sizes : list Z }.

(** The loop of [ws_read_bytes_mbed]: [acc] is what [dest] holds. *)
Fixpoint read_loop (sizes : list Z) (incoming acc : bytes) (len : nat) : option (bytes * Conn) :=
  if (len <=? length acc)%nat then Some (acc, mkConn incoming sizes)
  else
    match sizes with
    | [] => None
    | r :: sizes =>
        let got := take (Nat.min (Z.to_nat r) (len - length acc)) incoming in
        if is_empty got then None
        else read_loop sizes (drop (length got) incoming) (acc ++ got) len
    end.

Definition ws_read_bytes_mbed (c : Conn) (len : nat) : option (bytes * Conn) :=
  read_loop (sizes c) (incoming c) [] len.

(** [ReadFailed] is the return value [false]; [Throws] an exception of
    [resize] for a length above [limit]. *)
Inductive frame_result := Frame (payload : bytes) (c : Conn) | ReadFailed | Throws.

Definition then_read (r : option (bytes * Conn)) (k : bytes -> Conn -> frame_result) : frame_result :=
  match r with None => ReadFailed | Some (s, c) => k s c end.

Definition ws_read_frame_mbed (limit : Z) (c : Conn) : frame_result :=
  then_read (ws_read_bytes_mbed c 2) (fun hdr c =>
  let mask_len := nth 1 hdr 0 in
  let has_mask := negb (Z.land mask_len 0x80 =? 0) in
  let len := Z.land mask_len 0x7F in
  let with_len (len : Z) (c : Conn) :=
    then_read (if has_mask then ws_read_bytes_mbed c 4 else Some ([0; 0; 0; 0], c)) (fun mask_key c =>
    if limit <? len then Throws
    else
      then_read (if 0 <? len then ws_read_bytes_mbed c (Z.to_nat len) else Some ([], c)) (fun payload c =>
      Frame (if has_mask then mask_from 0 mask_key payload else payload) c)) in
  if len =? 126 then
    then_read (ws_read_bytes_mbed c 2) (fun b c =>
    with_len (Z.lor (Z.shiftl (nth 0 b 0) 8) (nth 1 b 0)) c)
  else if len =? 127 then
    then_read (ws_read_bytes_mbed c 8) (fun b c =>
    with_len (fold_left (fun len x => u64 (Z.lor (Z.shiftl len 8) x)) b 0) c)
  else with_len len c).

(** ** The URL *)

Definition url_space (c : Z) : bool := c <=? 32.

(** Host, port and base path, and the return value. *)
Definition parse_ha_url_components (ha_url : bytes) : bytes * Z * bytes * bool :=
  let url := ltrim url_space (rtrim url_space ha_url) in
  if is_empty url then ([], 8123, [], false)
  else
    let url :=
      if starts_with url (str "https://") then substr_from url 8
      else if starts_with url (str "http://") then substr_from url 7 else url in
    let slash := str_find url (str "/") 0 in
    let authority := match slash with None => url | Some k => substr url 0 k end in
    let base_path := match slash with None => [] | Some k => substr_from url k end in
    let base_path := rtrim (fun c => c =? 47) base_path in
    let colon := str_rfind authority (str ":") in
    let host := match colon with None => authority | Some k => substr authority 0 k end in
    let port := match colon with None => 8123 | Some k => atoi (substr_from authority (k + 1)) end in
    let host := ltrim url_space (rtrim url_space host) in
    (host, port, base_path, negb (is_empty host) && (0 <? port) && (port <=? 65535)).

(** ** The session *)

Definition upgrade_request (host port_str base_path : bytes) : bytes :=
  str "GET " ++ base_path ++ str "/api/websocket HTTP/1.1" ++ [13; 10] ++
  str "Host: " ++ host ++ str ":" ++ port_str ++ [13; 10] ++
  str "Upgrade: websocket" ++ [13; 10] ++
  str "Connection: Upgrade" ++ [13; 10] ++
  str "Sec-WebSocket-Key: dGhlIHNhbXBsZSBub25jZQ==" ++ [13; 10] ++
  str "Sec-WebSocket-Version: 13" ++ [13; 10; 13; 10].

(** The loop that collects the response header, one byte at a time. *)
Fixpoint read_header (fuel : nat) (header_buf : bytes) (c : Conn) : bytes * bool * Conn :=
  match fuel with
  | O => (header_buf, false, c)
  | S fuel =>
      match ws_read_bytes_mbed c 1 with
      | None => (header_buf, false, c)
      | Some (b, c) =>
          let header_buf := header_buf ++ b in
          if (4 <=? zlen header_buf) &&
             bytes_eqb (substr_from header_buf (length header_buf - 4)) [13; 10; 13; 10]
          then (header_buf, true, c)
          else if 4096 <? zlen header_buf then (header_buf, false, c)
          else read_header fuel header_buf c
      end
  end.

Definition auth_message (ha_token : bytes) : bytes :=
  dq "{'type':'auth','access_token':'" ++ ha_token ++ dq "'}".
Definition subscribe_message : bytes := dq "{'id':1,'type':'subscribe_events','event_type':'state_changed'}".
Definition get_states_message : bytes := dq "{'id':2,'type':'get_states'}".

(** The new state of one entity in the text of a message, if the panel acts on
    it. *)
Definition entity_state (new_st_json entity_id : bytes) : option bool :=
  if is_empty entity_id then None
  else
    pos ← str_find new_st_json entity_id 0;
    st_pos ← str_find new_st_json (dq "'state':") pos;
    q1 ← str_find new_st_json [34] (st_pos + 8);
    q2 ← str_find new_st_json [34] (q1 + 1);
    let st := substr new_st_json (q1 + 1) (q2 - q1 - 1) in
    if bytes_eqb st (str "on") || bytes_eqb st (str "off") then Some (bytes_eqb st (str "on")) else None.

(** What a message makes the client do. *)
Inductive reaction :=
| Authenticate
| Subscribe
| Update (new_states : list (option bool))
| Ignore.

Definition react (entities : list bytes) (msg : bytes) : reaction :=
  if contains msg (str "auth_required") then Authenticate
  else if contains msg (str "auth_ok") then Subscribe
  else if contains msg (str "state_changed") || contains msg (str "entity_id") then
    let new_st_json :=
      match str_find msg (dq "'new_state'") 0 with None => msg | Some k => substr_from msg k end in
    Update (map (entity_state new_st_json) entities)
  else Ignore.

(** [ws_connected], the messages sent and the updates posted to the screen. *)
Record Session := mkSession {
  ws_connected : bool;
  sent : list bytes;
  posted : list (list (option bool));
}.

Definition handle_message (ha_token : bytes) (entities : list bytes) (s : Session) (msg : bytes) : Session :=
  match react entities msg with
  | Authenticate => mkSession (ws_connected s) (sent s ++ [auth_message ha_token]) (posted s)
  | Subscribe => mkSession true (sent s ++ [subscribe_message; get_states_message]) (posted s)
  | Update u => mkSession (ws_connected s) (sent s) (posted s ++ [u])
  | Ignore => s
  end.

(** [while (ws_thread_running && ws_read_frame_mbed(...))], for at most [fuel]
    frames; the flag says that the loop ended with an exception. *)
Fixpoint message_loop (fuel : nat) (limit : Z) (ha_token : bytes) (entities : list bytes) (s : Session) (c : Conn) :
    Session * bool :=
  match fuel with
  | O => (s, false)
  | S fuel =>
      match ws_read_frame_mbed limit c with
      | ReadFailed => (s, false)
      | Throws => (s, true)
      | Frame msg c => message_loop fuel limit ha_token entities (handle_message ha_token entities s msg) c
      end
  end.

(** From the upgrade request to the end of the connection, after a handshake:
    the session before [ws_connected = false]. *)
Definition ws_session (fuel : nat) (limit : Z) (ha_token : bytes) (entities : list bytes) (c : Conn) : Session * bool :=
  let '(header_buf, header_ok, c) := read_header 4097 [] c in
  let s := mkSession false [] [] in
  if header_ok && contains header_buf (str "101") then message_loop fuel limit ha_token entities s c
  else (s, false).

(** ** RFC 6455, section 5.2 *)

Section Rfc.
Definition rfc_length (n : Z) : Z * bytes :=
  if n <=? 125 then (n, []) else if n <? 2 ^ 16 then (126, be_bytes 2 n) else (127, be_bytes 8 n).

(** A frame with the first byte [b0] (FIN and opcode). *)
Definition rfc_frame (b0 : Z) (mask : option bytes) (payload : bytes) : bytes :=
  let '(len7, ext) := rfc_length (zlen payload) in
  match mask with
  | None => [b0; len7] ++ ext ++ payload
  | Some key => [b0; 128 + len7] ++ ext ++ key ++ mask_from 0 key payload
  end.
End Rfc.

(** The whole reads that a connection still allows: every call returns
    something while bytes are left. *)
Definition live (c : Conn) : Prop :=
  Forall (fun r => 0 < r) (sizes c) /\ (length (incoming c) <= length (sizes c))%nat.

(** A message on the wire: first byte, mask and payload. *)
Definition wire (f : Z * option bytes * bytes) : bytes := rfc_frame (fst (fst f)) (snd (fst f)) (snd f).

Definition wire_ok (limit : Z) (f : Z * option bytes * bytes) : Prop :=
  match snd (fst f) with Some key => length key = 4%nat | None => True end /\
  zlen (snd f) <= limit /\ zlen (snd f) < 2 ^ 63.

(** ** Masking *)

Lemma mask_from_involutive i key p : mask_from i key (mask_from i key p) = p.
Proof. revert i. induction p as [|b p IH]; intros i; cbn [mask_from]; [done|]. by rewrite lxor_cancel, IH. Qed.

Lemma mask_from_length i key p : length (mask_from i key p) = length p.
Proof. revert i. induction p as [|b p IH]; intros i; cbn [mask_from length]; [done|]. by rewrite IH. Qed.

(** ** Reading a given number of bytes *)

Lemma read_loop_ok sz : forall inc acc len,
  Forall (fun r => 0 < r) sz -> (length inc <= length sz)%nat ->
  (length acc <= len)%nat -> (len - length acc <= length inc)%nat ->
  exists sz', read_loop sz inc acc len = Some (acc ++ take (len - length acc) inc, mkConn (drop (len - length acc) inc) sz') /\
    live (mkConn (drop (len - length acc) inc) sz').
Proof.
  induction sz as [|r sz IH]; intros inc acc len Hs Hl Ha Hn; cbn [read_loop];
    destruct (Nat.leb_spec len (length acc)).
  - exists []. replace (len - length acc)%nat with 0%nat by lia. rewrite app_nil_r. split; [done|]. done.
  - cbn [length] in Hl. lia.
  - exists (r :: sz). replace (len - length acc)%nat with 0%nat by lia. rewrite app_nil_r. split; [done|]. done.
  - inversion Hs as [|? ? Hr Hs']; subst. cbn [length] in Hl. set (m := (len - length acc)%nat) in *.
    set (k := Nat.min (Z.to_nat r) m). assert (Hk : (1 <= k <= m)%nat) by (unfold k, m; lia).
    assert (m <= length inc)%nat by exact Hn.
    assert (Ht : length (take k inc) = k) by (rewrite length_take; lia).
    destruct (is_empty (take k inc)) eqn:E; [destruct (take k inc); cbn [length] in Ht; [lia|discriminate]|].
    rewrite Ht. destruct (IH (drop k inc) (acc ++ take k inc) len) as (sz' & R & L); try done;
      try (rewrite ?length_drop, ?length_app, ?Ht; lia).
    rewrite length_app, Ht in R, L. rewrite drop_drop in R, L.
    assert (Em : (k + (len - (length acc + k)))%nat = m) by (unfold m; lia). rewrite Em in R, L.
    exists sz'. rewrite R. split; [|exact L]. rewrite <- app_assoc, take_take_drop, Em. reflexivity.
Qed.

Lemma read_bytes_ok c a rest :
  live c -> incoming c = a ++ rest ->
  exists c', ws_read_bytes_mbed c (length a) = Some (a, c') /\ incoming c' = rest /\ live c'.
Proof.
  intros [Hs Hl] E. unfold ws_read_bytes_mbed.
  destruct (read_loop_ok (sizes c) (incoming c) [] (length a)) as (sz' & R & L); try done; cbn [length].
  - lia.
  - rewrite E, length_app. lia.
  - cbn [length app] in *. rewrite Nat.sub_0_r, E, take_app_length, drop_app_length in *.
    rewrite R. eexists. split; [done|]. split; [done|exact L].
Qed.

(** No byte is left: every read fails. *)
Lemma read_bytes_empty c n : incoming c = [] -> (0 < n)%nat -> ws_read_bytes_mbed c n = None.
Proof.
  intros E Hn. unfold ws_read_bytes_mbed. rewrite E.
  destruct (sizes c) as [|r sz]; cbn [read_loop length]; destruct (Nat.leb_spec n 0); try lia; [done|].
  by rewrite take_nil.
Qed.

(** ** Frames of RFC 6455 *)

Lemma len7_bits l7 : 0 <= l7 < 128 ->
  (Z.land l7 0x80 =? 0) = true /\ (Z.land (128 + l7) 0x80 =? 0) = false /\
  Z.land l7 0x7F = l7 /\ Z.land (128 + l7) 0x7F = l7.
Proof. intros H. rewrite (bit7 l7), (bit7 (128 + l7)) by (unfold is_byte; lia). rewrite !land_127.
  repeat split; [apply Z.ltb_lt; lia|apply Z.ltb_ge; lia|apply Z.mod_small; lia|].
  rewrite <- (Z.mod_small l7 128) at 2 by lia. rewrite Z.add_mod by lia. change (128 mod 128) with 0.
  rewrite Z.add_0_l, Z.mod_mod by lia. reflexivity.
Qed.

Lemma shift_in_be s : forall v, bytes_ok s -> 0 <= v -> (v + 1) * 256 ^ zlen s <= 2 ^ 64 ->
  fold_left (fun len x => u64 (Z.lor (Z.shiftl len 8) x)) s v = v * 256 ^ zlen s + be_val s.
Proof.
  induction s as [|b s IH]; intros v Hs Hv Hb.
  - cbn [fold_left]. change (zlen []) with 0. unfold be_val. cbn [rev le_val]. lia.
  - inversion Hs as [|? ? Hb0 Hs']; subst. cbn [fold_left length] in *.
    rewrite Nat2Z.inj_succ, Z.pow_succ_r in * by lia. set (P := 256 ^ zlen s) in *.
    assert (0 < P) by (apply Z.pow_pos_nonneg; lia). unfold is_byte in Hb0.
    rewrite shiftl_8, lor_256 by exact Hb0.
    assert ((v + 1) * 256 <= 2 ^ 64) by nia.
    unfold u64. rewrite Z.mod_small by lia. rewrite IH by (auto; nia).
    unfold be_val. cbn [rev]. rewrite le_val_app, length_rev. fold P. cbn [le_val]. ring.
Qed.

Section Frames.
Context (limit : Z).

(** The rest of the frame, once the length is known. *)
Lemma read_payload (b0 l7 : Z) (mask : option bytes) (payload rest : bytes) (c : Conn) :
  live c -> wire_ok limit (b0, mask, payload) ->
  incoming c = match mask with None => payload | Some key => key ++ mask_from 0 key payload end ++ rest ->
  exists c',
  then_read (if match mask with None => false | _ => true end then ws_read_bytes_mbed c 4 else Some ([0; 0; 0; 0], c))
    (fun mask_key c =>
      if limit <? zlen payload then Throws
      else
        then_read (if 0 <? zlen payload then ws_read_bytes_mbed c (Z.to_nat (zlen payload)) else Some ([], c))
          (fun p c => Frame (if match mask with None => false | _ => true end then mask_from 0 mask_key p else p) c))
  = Frame payload c' /\ incoming c' = rest /\ live c'.
Proof.
  intros L (Hm & Hlim & _) E. cbn [fst snd] in *.
  assert (K : forall body, length body = length payload -> forall c, live c -> incoming c = body ++ rest ->
    exists c', (if 0 <? zlen payload then ws_read_bytes_mbed c (Z.to_nat (zlen payload)) else Some ([], c)) = Some (body, c')
      /\ incoming c' = rest /\ live c').
  { intros body Hb c0 L0 E0. destruct (Z.ltb_spec 0 (zlen payload)).
    - rewrite Nat2Z.id, <- Hb. by apply read_bytes_ok.
    - exists c0. destruct body; [done|]. cbn [length] in Hb. lia. }
  destruct mask as [key|].
  - rewrite <- app_assoc in E. destruct (read_bytes_ok c key _ L E) as (c1 & R & E1 & L1).
    rewrite Hm in R. rewrite R. cbn [then_read]. destruct (Z.ltb_spec limit (zlen payload)); [lia|].
    destruct (K (mask_from 0 key payload) (mask_from_length _ _ _) c1 L1 E1) as (c2 & R2 & E2 & L2).
    rewrite R2. cbn [then_read]. rewrite mask_from_involutive. by exists c2.
  - cbn [then_read]. destruct (Z.ltb_spec limit (zlen payload)); [lia|].
    destruct (K payload eq_refl c L E) as (c2 & R2 & E2 & L2). rewrite R2. by exists c2.
Qed.

Lemma read_frame_ok (f : Z * option bytes * bytes) (rest : bytes) (c : Conn) :
  live c -> wire_ok limit f -> incoming c = wire f ++ rest ->
  exists c', ws_read_frame_mbed limit c = Frame (snd f) c' /\ incoming c' = rest /\ live c'.
Proof.
  destruct f as [[b0 mask] payload]. intros L W E. pose proof W as (_ & _ & Hlen). cbn [fst snd wire] in *.
  unfold wire, rfc_frame in E. cbn [fst snd] in E.
  destruct (rfc_length (zlen payload)) as [l7 ext] eqn:El.
  set (body := match mask with None => payload | Some key => key ++ mask_from 0 key payload end).
  assert (Hl7 : 0 <= l7 < 128 /\
    (if l7 =? 126 then ext = be_bytes 2 (zlen payload) /\ zlen payload < 2 ^ 16
     else if l7 =? 127 then ext = be_bytes 8 (zlen payload) else ext = [] /\ l7 = zlen payload)).
  { unfold rfc_length in El. revert El. case_ifs; intros [= <- <-]; case_ifs; split_lia; done. }
  destruct Hl7 as [Hr Hext]. destruct (len7_bits l7 Hr) as (B1 & B2 & B3 & B4).
  set (byte1 := match mask with None => l7 | Some _ => 128 + l7 end).
  assert (E' : incoming c = [b0; byte1] ++ ext ++ body ++ rest).
  { rewrite E. unfold byte1, body. destruct mask; app_norm; reflexivity. }
  destruct (read_bytes_ok c [b0; byte1] _ L E') as (c1 & R1 & E1 & L1). cbn [length] in R1.
  unfold ws_read_frame_mbed. rewrite R1. cbn [then_read nth].
  assert (Hmask : negb (Z.land byte1 0x80 =? 0) = match mask with None => false | _ => true end)
    by (unfold byte1; destruct mask; rewrite ?B1, ?B2; reflexivity).
  assert (Hland : Z.land byte1 0x7F = l7) by (unfold byte1; destruct mask; assumption).
  rewrite Hmask, Hland. revert Hext. destruct (Z.eqb_spec l7 126); [|destruct (Z.eqb_spec l7 127)].
  - intros [-> H16]. destruct (read_bytes_ok c1 _ _ L1 E1) as (c2 & R2 & E2 & L2).
    rewrite be_bytes_length in R2. rewrite R2. cbn [then_read].
    assert (V : Z.lor (Z.shiftl (nth 0 (be_bytes 2 (zlen payload)) 0) 8) (nth 1 (be_bytes 2 (zlen payload)) 0) = zlen payload).
    { unfold be_bytes. cbn [le_bytes rev app nth]. rewrite shiftl_8, lor_256 by auto with bytes. apply be16_split. lia. }
    rewrite V. exact (read_payload b0 l7 mask payload rest c2 L2 W E2).
  - intros ->. destruct (read_bytes_ok c1 _ _ L1 E1) as (c2 & R2 & E2 & L2).
    rewrite be_bytes_length in R2. rewrite R2. cbn [then_read].
    rewrite (shift_in_be _ 0), be_val_bytes by (try apply be_bytes_ok; rewrite ?be_bytes_length; lia).
    rewrite Z.mul_0_l, Z.add_0_l. exact (read_payload b0 l7 mask payload rest c2 L2 W E2).
  - intros [-> ->]. exact (read_payload b0 (zlen payload) mask payload rest c1 L1 W E1).
Qed.

Lemma read_frame_empty c : incoming c = [] -> ws_read_frame_mbed limit c = ReadFailed.
Proof. intros E. unfold ws_read_frame_mbed. rewrite read_bytes_empty; [done|exact E|lia]. Qed.

(** ** The session *)
Context (ha_token : bytes) (entities : list bytes).

Lemma message_loop_frames frames : forall fuel s c,
  live c -> Forall (wire_ok limit) frames -> incoming c = concat (map wire frames) -> (length frames < fuel)%nat ->
  message_loop fuel limit ha_token entities s c = (fold_left (handle_message ha_token entities) (map snd frames) s, false).
Proof using.
  induction frames as [|f frames IH]; intros fuel s c L Hw E Hf; (destruct fuel as [|fuel]; [cbn [length] in Hf; lia|]);
    cbn [message_loop].
  - by rewrite read_frame_empty.
  - inversion Hw as [|? ? Hf0 Hw']; subst.
    destruct (read_frame_ok f (concat (map wire frames)) c L Hf0 E) as (c' & R & E' & L'). rewrite R.
    cbn [length] in Hf. rewrite IH by (auto; lia). reflexivity.
Qed.
End Frames.

Definition crlf2 : bytes := [13; 10; 13; 10].

(** A response header: it ends with the first empty line, and the client's
    limit allows it. *)
Definition header_ok (h : bytes) : Prop :=
  (4 <= length h <= 4097)%nat /\ str_find h crlf2 0 = Some (length h - 4)%nat.

Lemma header_ends h k :
  header_ok h -> (k <= length h)%nat ->
  (4 <=? zlen (take k h)) && bytes_eqb (substr_from (take k h) (length (take k h) - 4)) crlf2 = true ->
  k = length h.
Proof.
  intros [Hl Hf] Hk. rewrite length_take, Nat.min_l by exact Hk. intros H. to_prop.
  apply bytes_eqb_eq in H0. unfold substr_from in H0.
  assert (P : prefixb crlf2 (drop (k - 4) h) = true).
  { apply prefixb_iff. exists (drop k h). rewrite <- H0, skipn_firstn_comm.
    replace (k - (k - 4))%nat with 4%nat by lia.
    rewrite <- (take_drop 4 (drop (k - 4) h)) at 1. rewrite drop_drop. do 2 f_equal. lia. }
  unfold str_find in Hf. cbn [Nat.leb] in Hf. rewrite drop_0 in Hf.
  destruct (find_at crlf2 h) as [j|] eqn:F; [|destruct (0 <=? length h)%nat; discriminate].
  assert (j = (length h - 4)%nat) by (destruct (0 <=? length h)%nat; [injection Hf; lia|discriminate]). subst j.
  destruct (Nat.lt_ge_cases (k - 4) (length h - 4)); [|lia].
  rewrite (find_at_first _ _ _ _ F) in P by assumption. discriminate.
Qed.

Lemma header_complete h : header_ok h ->
  (4 <=? zlen h) && bytes_eqb (substr_from h (length h - 4)) crlf2 = true.
Proof.
  intros [Hl Hf]. apply andb_true_iff. split; [apply Z.leb_le; lia|].
  unfold str_find in Hf. rewrite drop_0 in Hf.
  destruct (find_at crlf2 h) as [j|] eqn:F; [|destruct (0 <=? length h)%nat; discriminate].
  assert (j = (length h - 4)%nat) by (destruct (0 <=? length h)%nat; [injection Hf; lia|discriminate]). subst j.
  apply find_at_prefix, prefixb_iff in F as [t E]. apply bytes_eqb_eq. unfold substr_from. rewrite E.
  apply (f_equal length) in E. rewrite length_drop, length_app in E. cbn [length crlf2] in E.
  destruct t; [apply app_nil_r|cbn [length] in E; lia].
Qed.

Lemma read_header_ok h rest fuel : forall k c,
  header_ok h -> live c -> incoming c = drop k h ++ rest -> (k < length h)%nat -> (length h - k <= fuel)%nat ->
  exists c', read_header fuel (take k h) c = (h, true, c') /\ incoming c' = rest /\ live c'.
Proof.
  induction fuel as [|fuel IH]; intros k c Hh L E Hk Hf; [lia|]. cbn [read_header].
  destruct (drop k h) as [|b t] eqn:D; [apply (f_equal length) in D; rewrite length_drop in D; cbn [length] in D; lia|].
  assert (Et : take k h ++ [b] = take (S k) h /\ t = drop (S k) h).
  { assert (Hb : h !! k = Some b) by (rewrite <- (Nat.add_0_r k), <- lookup_drop, D; done).
    split; [symmetry; by apply take_S_r|]. rewrite (drop_S _ _ _ Hb) in D. congruence. }
  destruct Et as [Et ->].
  destruct (read_bytes_ok c [b] (drop (S k) h ++ rest) L E) as (c1 & R & E1 & L1). cbn [length] in R.
  rewrite R, Et. fold crlf2.
  destruct ((4 <=? zlen (take (S k) h)) && bytes_eqb (substr_from (take (S k) h) (length (take (S k) h) - 4)) crlf2) eqn:C.
  - apply header_ends in C; [|exact Hh|lia]. exists c1. rewrite C, firstn_all. split; [done|].
    rewrite C, drop_all in E1. by split.
  - assert (S k < length h)%nat.
    { destruct (Nat.eq_dec (S k) (length h)) as [e|]; [|lia]. rewrite e, firstn_all, header_complete in C by exact Hh. discriminate. }
    destruct Hh as [Hl Hh]. rewrite length_take.
    destruct (Z.ltb_spec 4096 (Z.of_nat (S k `min` length h))); [lia|].
    apply IH; auto; try lia. by split.
Qed.

(** The length field of a masked frame. *)
Lemma length_field_rfc len :
  0 <= len < 2 ^ 63 ->
  (if len <=? 125 then [u8 (Z.lor 0x80 len)]
   else if len <=? 65535 then [u8 (Z.lor 0x80 126); Z.land (Z.shiftr len 8) 0xFF; Z.land len 0xFF]
   else u8 (Z.lor 0x80 127) :: map (fun i => Z.land (Z.shiftr len (i * 8)) 0xFF) [7; 6; 5; 4; 3; 2; 1; 0])
  = let '(l7, ext) := rfc_length len in (128 + l7) :: ext.
Proof.
  intros H. unfold rfc_length.
  destruct (Z.leb_spec len 125); [|destruct (Z.leb_spec len 65535); destruct (Z.ltb_spec len (2 ^ 16)); try lia].
  - change 0x80 with (1 * 2 ^ 7). rewrite (lor_add 7), u8_small by (unfold is_byte; lia). reflexivity.
  - autorewrite with words. reflexivity.
  - unfold be_bytes. cbn [le_bytes rev app map]. rewrite !land_255, !Z.shiftr_div_pow2 by lia.
    rewrite !Z.div_div by lia. change (len / 2 ^ (0 * 8)) with (len / 1). rewrite Z.div_1_r. reflexivity.
Qed.

(** ** Events *)

(** The text Home Assistant gives the new state of an entity, from the key
    [new_state] on. *)
Definition new_state_text (entity st rest : bytes) : bytes :=
  dq "'new_state':{'entity_id':'" ++ entity ++ dq "','state':'" ++ st ++ 34 :: rest.

(** Entity ids are [domain.object]; states have no quotes. *)
Definition entity_ok (entity : bytes) : Prop := In 46 entity /\ Forall (fun b => b <> 34) entity.

(** The first place where the id occurs decides. *)
Lemma entity_state_here J entity st rest :
  Forall (fun b => b <> 34) entity -> Forall (fun b => b <> 34) st ->
  cut entity J = Some (entity ++ dq "','state':'" ++ st ++ 34 :: rest) ->
  entity_state J entity =
  if is_empty entity then None
  else if bytes_eqb st (str "on") || bytes_eqb st (str "off") then Some (bytes_eqb st (str "on")) else None.
Proof.
  intros Hq Hst Hc. unfold entity_state. destruct (is_empty entity); [done|].
  destruct (str_find_at J entity 0 J (entity ++ dq "','state':'" ++ st ++ 34 :: rest)) as (k & -> & D & B); [lia|done|exact Hc|].
  cbn [option_bind mbind].
  destruct (str_find_at J (dq "'state':") k _ (dq "'state':" ++ 34 :: st ++ 34 :: rest)
    ltac:(lia) D) as (k1 & -> & D1 & B1).
  { change (dq "'state':") with (34 :: str "state" ++ [34; 58]) at 1. rewrite cut_skip_head by exact Hq.
    change (dq "','state':'" ++ st ++ 34 :: rest) with (34 :: 44 :: dq "'state':" ++ 34 :: st ++ 34 :: rest).
    rewrite !cut_next by reflexivity. apply cut_here, prefixb_app. }
  cbn [option_bind mbind].
  assert (L1 : (k1 + 8 <= length J)%nat).
  { apply (f_equal length) in D1. rewrite length_drop, length_app in D1.
    change (length (dq "'state':")) with 8%nat in D1. lia. }
  assert (D1' : drop (k1 + 8) J = 34 :: st ++ 34 :: rest) by (rewrite <- drop_drop, D1; reflexivity).
  destruct (str_find_at J [34] (k1 + 8) _ (34 :: st ++ 34 :: rest) L1 D1') as (q1 & -> & D2 & B2); [by apply cut_here|].
  cbn [option_bind mbind].
  assert (L2 : (q1 + 1 <= length J)%nat).
  { apply (f_equal length) in D2. rewrite length_drop in D2. cbn [length] in D2. lia. }
  assert (D2' : drop (q1 + 1) J = st ++ 34 :: rest) by (rewrite <- drop_drop, D2; reflexivity).
  destruct (str_find_at J [34] (q1 + 1) _ (34 :: rest) L2 D2') as (q2 & -> & D3 & B3).
  { rewrite cut_skip_head by exact Hst. by apply cut_here. }
  cbn [option_bind mbind]. unfold substr.
  assert (Es : take (q2 - q1 - 1) (drop (q1 + 1) J) = st).
  { rewrite D2'. apply take_app_exact. 
    pose proof (f_equal length D2') as N2. pose proof (f_equal length D3) as N3.
    rewrite length_drop, length_app in N2. rewrite length_drop in N3. cbn [length] in N2, N3. lia. }
  rewrite Es. reflexivity.
Qed.

Lemma entity_state_absent J entity : cut entity J = None -> entity_state J entity = None.
Proof.
  intros H. unfold entity_state. case_if; [done|]. pose proof (str_find_cut J entity 0 ltac:(lia)) as F. rewrite drop_0, H in F.
  destruct (str_find J entity 0); [discriminate|done].
Qed.

Lemma entity_state_text entity st rest :
  entity_ok entity -> Forall (fun b => b <> 34) st ->
  entity_state (new_state_text entity st rest) entity =
  if bytes_eqb st (str "on") || bytes_eqb st (str "off") then Some (bytes_eqb st (str "on")) else None.
Proof.
  intros [Hdot Hq] Hst. rewrite (entity_state_here _ entity st rest); [by destruct entity; [destruct Hdot|]|done|done|].
  unfold new_state_text. rewrite cut_skip; [apply cut_here, prefixb_app|].
  intros q Hs Hne. apply (no_prefix_across 34 46 entity (dq "'new_state':{'entity_id':")); try done.
  vm_compute. intuition discriminate.
Qed.

(** ** The address *)

Lemma rfind_none s : Forall (fun b => b <> 58) s -> str_rfind s (str ":") = None.
Proof.
  induction 1 as [|b s Hb _ IH]; [done|]. cbn [str_rfind]. rewrite IH. change (str ":") with [58].
  cbn [prefixb]. destruct (Z.eqb_spec 58 b); [lia|done].
Qed.

Lemma rfind_colon host rest :
  Forall (fun b => b <> 58) rest -> str_rfind (host ++ 58 :: rest) (str ":") = Some (length host).
Proof.
  intros Hr. induction host as [|b host IH]; cbn [app length str_rfind]; [by rewrite rfind_none|by rewrite IH].
Qed.

(** The members of an address as the user means them. *)
Definition scheme_ok (scheme : bytes) : Prop := scheme = str "https://" \/ scheme = str "http://".
Definition host_ok (host : bytes) : Prop :=
  host <> [] /\ Forall (fun b => b <> 47 /\ b <> 58 /\ url_space b = false) host.
Definition port_ok (port_part : bytes) (port : Z) : Prop :=
  1 <= port <= 65535 /\ (port_part = [] /\ port = 8123 \/ port_part = 58 :: to_string port).
Definition path_ok (path : bytes) : Prop :=
  match path with [] => True | b :: _ => b = 47 end /\
  match last path with None => True | Some b => b <> 47 /\ url_space b = false end.

Lemma to_string_bytes n : 0 <= n -> Forall (fun b => b <> 47 /\ b <> 58 /\ url_space b = false) (to_string n).
Proof.
  intros H. eapply Forall_impl; [exact (to_string_digits n H)|]. intros b Hb%isdigit_spec.
  unfold url_space. rewrite Z.leb_gt. lia.
Qed.

Lemma last_Forall {A} (P : A -> Prop) l : Forall P l -> match last l with None => True | Some b => P b end.
Proof.
  intros H. destruct (last l) as [b|] eqn:E; [|done]. apply last_Some_elem_of in E. rewrite Forall_forall in H. auto.
Qed.

(** The authority splits at its last colon. *)
Lemma split_authority host port_part port :
  host_ok host -> port_ok port_part port ->
  let authority := host ++ port_part in
  (match str_rfind authority (str ":") with None => authority | Some k => substr authority 0 k end,
   match str_rfind authority (str ":") with None => 8123 | Some k => atoi (substr_from authority (k + 1)) end)
  = (host, port).
Proof.
  intros [_ Hh] [Hp [[-> ->]| ->]]; cbn zeta.
  - rewrite app_nil_r, rfind_none; [done|]. eapply Forall_impl; [exact Hh|]. tauto.
  - rewrite rfind_colon by (eapply Forall_impl; [apply to_string_bytes; lia|]; cbn beta; tauto).
    unfold substr, substr_from. rewrite drop_0, take_app_length. f_equal.
    change (58 :: to_string port) with ([58] ++ to_string port). rewrite app_assoc, drop_app_exact by (rewrite length_app; reflexivity).
    rewrite <- (app_nil_r (to_string port)). apply atoi_to_string; [lia|exact I].
Qed.

(** The first slash ends the authority. *)
Lemma split_path authority tail :
  Forall (fun b => b <> 47) authority -> match tail with [] => True | b :: _ => b = 47 end ->
  let url := authority ++ tail in
  (match str_find url (str "/") 0 with None => url | Some k => substr url 0 k end,
   match str_find url (str "/") 0 with None => [] | Some k => substr_from url k end) = (authority, tail).
Proof.
  intros Ha Ht. cbn zeta. unfold str_find. rewrite drop_0. cbn [Nat.leb].
  change (str "/") with [47]. change (0 <=? length (authority ++ tail))%nat with true.
  destruct tail as [|b tail].
  - rewrite app_nil_r, find_byte_none by exact Ha. done.
  - subst b. rewrite find_byte by exact Ha. cbn [fmap option_fmap option_map]. rewrite Nat.add_0_l.
    unfold substr, substr_from. rewrite drop_0, take_app_length, drop_app_length. done.
Qed.

(** What follows the address is trimmed. *)
Lemma url_rtrim padl scheme host port_part path n padr :
  Forall (fun b => url_space b = true) padr -> host_ok host ->
  Forall (fun b => b <> 47 /\ url_space b = false) port_part ->
  match last path with None => True | Some b => b <> 47 /\ url_space b = false end ->
  rtrim url_space (padl ++ scheme ++ host ++ port_part ++ path ++ repeat 47 n ++ padr)
  = padl ++ scheme ++ (host ++ port_part) ++ path ++ repeat 47 n.
Proof.
  intros Hr [Hne Hh] Hport Hp2.
  replace (padl ++ scheme ++ host ++ port_part ++ path ++ repeat 47 n ++ padr)
    with ((padl ++ scheme ++ (host ++ port_part) ++ path ++ repeat 47 n) ++ padr) by (rewrite <- !app_assoc; done).
  apply rtrim_pad; [exact Hr|]. rewrite !last_app.
  destruct (last (repeat 47 n)) eqn:El.
  { apply last_Some_elem_of, list_elem_of_In, repeat_spec in El. by subst. }
  destruct (last path); [tauto|].
  pose proof (last_Forall _ _ Hport) as Hq. destruct (last port_part); [tauto|].
  pose proof (last_Forall _ _ Hh) as Hq'.
  destruct (last host) eqn:Eh; [tauto|]. by apply last_None in Eh.
Qed.

(** ** Properties *)

(** C2. Whatever sizes the TLS layer returns the bytes in, the client reads a
    session as RFC 6455 cuts it: after a response header with a 101, every
    frame (any first byte, masked or not, with a 7-bit, 16-bit or 64-bit
    length) gives exactly its payload, and the session ends as the handler
    applied to these messages in turn.  [fuel] need only exceed the number of
    frames. *)
Theorem ws_session_correct fuel limit ha_token entities c h frames :
  live c -> incoming c = h ++ concat (map wire frames) ->
  header_ok h -> contains h (str "101") = true ->
  Forall (wire_ok limit) frames -> (length frames < fuel)%nat ->
  ws_session fuel limit ha_token entities c =
  (fold_left (handle_message ha_token entities) (map snd frames) (mkSession false [] []), false).
Proof.
  intros L E Hh H101 Hw Hf. unfold ws_session.
  destruct (read_header_ok h (concat (map wire frames)) 4097 0 c) as (c1 & R & E1 & L1); auto;
    try (destruct Hh; lia).
  change (take 0 h) with (@nil Z) in R. rewrite R, H101. cbn [andb]. by apply message_loop_frames.
Qed.

(** What [ws_encode_frame] sends is a masked, final text frame of RFC 6455
    with the payload's own length form, for every message. *)
Theorem ws_encode_frame_rfc message :
  zlen message < 2 ^ 63 -> ws_encode_frame message = rfc_frame 0x81 (Some ws_mask) message.
Proof.
  intros H. unfold ws_encode_frame, rfc_frame. rewrite length_field_rfc by lia.
  destruct (rfc_length (zlen message)) as [l7 ext]. app_norm. reflexivity.
Qed.

(** An event that carries the new state of an entity sets the button of
    that entity (to on for "on", to off for "off", and not at all for any
    other state), whatever surrounds it, unless the text of the event holds
    one of the words of the authentication phase. *)
Theorem state_changed_event entities i entity st pre rest :
  entity_ok entity -> Forall (fun b => b <> 34) st -> entities !! i = Some entity ->
  let msg := pre ++ new_state_text entity st rest in
  contains msg (str "auth_required") = false -> contains msg (str "auth_ok") = false ->
  str_find msg (dq "'new_state'") 0 = Some (length pre) ->
  exists us, react entities msg = Update us /\
    us !! i = Some (if bytes_eqb st (str "on") || bytes_eqb st (str "off") then Some (bytes_eqb st (str "on")) else None).
Proof.
  intros He Hst Hi msg Hr Ho Hn. unfold react. rewrite Hr, Ho.
  assert (Hc : contains msg (str "entity_id") = true).
  { unfold msg, new_state_text. change (dq "'new_state':{'entity_id':'") with (dq "'new_state':{'" ++ str "entity_id" ++ dq "':'").
    rewrite <- !app_assoc, app_assoc. apply contains_infix. }
  rewrite Hc, orb_true_r, Hn. eexists. split; [done|]. unfold substr_from, msg. rewrite drop_app_length.
  change (@map bytes (option bool)) with (@fmap list _ bytes (option bool)).
  rewrite list_lookup_fmap, Hi. cbn [fmap option_fmap option_map]. by rewrite entity_state_text.
Qed.

(** An entity is found by the text of its id: in a reply to [get_states] in
    which a group lists the light [light.kitchen] among its members, the state
    of the entity after the group is taken for the state of the light, and the
    button is set to off while the reply says that the light is on. *)
Theorem group_member_misread :
  react [str "light.kitchen"]
    (dq "{'id':2,'type':'result','result':[{'entity_id':'light.all','state':'on','attributes':{'entity_id':['light.kitchen','light.hall']}},{'entity_id':'light.hall','state':'off'},{'entity_id':'light.kitchen','state':'on'}]}")
  = Update [Some false].
Proof. vm_compute. reflexivity. Qed.

(** The address of the server is taken apart as it was written: spaces
    around it and slashes after it are dropped, a missing port is 8123, and
    host, port and base path come back exactly. *)
Theorem parse_ha_url_correct padl scheme host port_part port path n padr :
  Forall (fun b => url_space b = true) padl -> Forall (fun b => url_space b = true) padr ->
  scheme_ok scheme -> host_ok host -> port_ok port_part port -> path_ok path ->
  parse_ha_url_components (padl ++ scheme ++ host ++ port_part ++ path ++ repeat 47 n ++ padr) = (host, port, path, true).
Proof.
  intros Hl Hr Hs Hh Hp [Hp1 Hp2]. unfold parse_ha_url_components.
  set (tail := path ++ repeat 47 n).
  assert (Hport : Forall (fun b => b <> 47 /\ url_space b = false) port_part).
  { destruct Hp as [Hp [[-> _]| ->]]; [constructor|]. constructor; [split; [lia|done]|].
    eapply Forall_impl; [apply to_string_bytes; lia|]. cbn beta. tauto. }
  assert (Hrt := url_rtrim padl scheme host port_part path n padr Hr Hh Hport Hp2). fold tail in Hrt.
  assert (Hlt : ltrim url_space (padl ++ scheme ++ (host ++ port_part) ++ tail) = scheme ++ (host ++ port_part) ++ tail).
  { apply ltrim_pad; [exact Hl|]. destruct Hs as [-> | ->]; reflexivity. }
  rewrite Hrt, Hlt.
  assert (He : is_empty (scheme ++ (host ++ port_part) ++ tail) = false) by (destruct Hs as [-> | ->]; reflexivity).
  rewrite He.
  assert (Hstrip : (if starts_with (scheme ++ (host ++ port_part) ++ tail) (str "https://")
            then substr_from (scheme ++ (host ++ port_part) ++ tail) 8
            else if starts_with (scheme ++ (host ++ port_part) ++ tail) (str "http://")
                 then substr_from (scheme ++ (host ++ port_part) ++ tail) 7
                 else scheme ++ (host ++ port_part) ++ tail) = (host ++ port_part) ++ tail).
  { destruct Hs as [-> | ->]; reflexivity. }
  rewrite Hstrip. clear Hrt Hlt He Hstrip.
  destruct Hh as [Hne Hh]. pose proof Hh as Hh'.
  pose proof (split_authority host port_part port (conj Hne Hh) Hp) as Sa. cbn zeta in Sa.
  assert (Ha : Forall (fun b => b <> 47) (host ++ port_part))
    by (apply Forall_app; split; (eapply Forall_impl; [eassumption|]); cbn beta; tauto).
  assert (Ht : match tail with [] => True | b :: _ => b = 47 end)
    by (unfold tail; destruct path; [by destruct n|exact Hp1]).
  pose proof (split_path (host ++ port_part) tail Ha Ht) as Sp. cbn zeta in Sp. injection Sp as Ea Et.
  rewrite Ea, Et. injection Sa as Eh Ep. rewrite Eh, Ep.
  rewrite rtrim_id, ltrim_id.
  - unfold tail. rewrite rtrim_pad.
    + destruct Hp as [Hp _]. destruct host; [done|]. cbn [is_empty negb andb].
      destruct (Z.ltb_spec 0 port), (Z.leb_spec port 65535); try lia. done.
    + apply Forall_forall. intros x Hx%list_elem_of_In%repeat_spec. by subst.
    + destruct (last path); [|done]. apply Z.eqb_neq. tauto.
  - destruct host; [done|]. apply Forall_cons in Hh as [? _]. tauto.
  - apply last_Forall in Hh'. destruct (last host); tauto.
Qed.

(** ** Witnesses *)

(** A header, the two messages of the authentication and a masked message of
    200 bytes, read in pieces of at most three bytes. *)
Definition sample_header : bytes := str "HTTP/1.1 101 Switching Protocols" ++ crlf2.
Definition sample_frames : list (Z * option bytes * bytes) :=
  [(0x81, None, dq "{'type':'auth_required'}"); (0x81, None, dq "{'type':'auth_ok'}");
   (0x01, Some [1; 2; 3; 4], repeat 120 200)].
Definition sample_conn : Conn :=
  mkConn (sample_header ++ concat (map wire sample_frames)) (repeat 3 400).

Lemma ws_session_correct_witness :
  ws_session 10 4096 (str "T") [] sample_conn =
  (mkSession true [auth_message (str "T"); subscribe_message; get_states_message] [], false).
Proof.
  rewrite (ws_session_correct 10 4096 (str "T") [] sample_conn sample_header sample_frames).
  - vm_compute. reflexivity.
  - split; [apply Forall_forall; intros x Hx%list_elem_of_In%repeat_spec; subst; reflexivity|]. apply Nat.leb_le. vm_compute. reflexivity.
  - reflexivity.
  - split; [split; apply Nat.leb_le; vm_compute; reflexivity|vm_compute; reflexivity].
  - vm_compute. reflexivity.
  - repeat constructor; vm_compute; congruence.
  - cbn. lia.
Defined.

Lemma ws_encode_frame_rfc_witness : ws_encode_frame (repeat 120 200) = rfc_frame 0x81 (Some ws_mask) (repeat 120 200).
Proof. apply ws_encode_frame_rfc. vm_compute. reflexivity. Defined.

Lemma state_changed_event_witness :
  exists us, react [str "switch.fan"; str "light.kitchen"]
      (dq "{'type':'event','event':{'event_type':'state_changed','data':{'old_state':null," ++
       new_state_text (str "light.kitchen") (str "on") (dq "}}}")) = Update us /\
    us !! 1%nat = Some (Some true).
Proof.
  apply (state_changed_event [str "switch.fan"; str "light.kitchen"] 1 (str "light.kitchen") (str "on")).
  - split; [vm_compute; tauto|apply neq_check; vm_compute; reflexivity].
  - apply neq_check. vm_compute. reflexivity.
  - reflexivity.
  - vm_compute. reflexivity.
  - vm_compute. reflexivity.
  - vm_compute. reflexivity.
Defined.

Lemma parse_ha_url_correct_witness :
  parse_ha_url_components (str "  https://ha.local:8443/base// ") = (str "ha.local", 8443, str "/base", true).
Proof.
  apply (parse_ha_url_correct (str "  ") (str "https://") (str "ha.local") (str ":8443") 8443 (str "/base") 2 (str " ")).
  - repeat constructor.
  - repeat constructor.
  - by left.
  - split; [discriminate|]. apply Forall_forall. intros x Hx%list_elem_of_In. vm_compute in Hx. intuition (subst; done).
  - split; [lia|]. right. reflexivity.
  - split; vm_compute; [reflexivity|]. split; [lia|reflexivity].
Defined.
End WebSocket.
