(* ===== verification/Display.v ===== *)
(** The display (hal.cpp and the display part of main.cpp): the backlight with
    its fades, the touch screen, the screen saver, the brightness controls of
    the user interface, the automatic brightness and the MQTT commands.  The user
    interface and the MQTT client run on threads of their own and both fade the
    backlight; the step relation [step] interleaves their accesses to the
    globals and the file.  The theorems say that the fades end and stay in range,
    what calls do that are not interrupted, that the touch that wakes the
    screen presses nothing, and that the automatic brightness settles.  The
    drawing, the sensor and its floating-point filter are not modelled: a tick
    of the automatic brightness gets the target level. *)
From S2P Require Import Prelude CString.
From stdpp Require Import list.
#[local] Open Scope Z_scope.

Module Display.

(** ** The backlight (hal.cpp) *)

(** The globals, and the number in the file
    /sys/class/backlight/backlight/brightness. *)
Record Hal := mkHal {
  g_screen_blanked : bool;
  g_active_backlight_raw : Z;
  g_last_wake_time : Z;
  brightness : Z;
}.

Definition write_brightness (val : Z) (h : Hal) : Hal :=
  mkHal (g_screen_blanked h) (g_active_backlight_raw h) (g_last_wake_time h) val.

Definition hal_set_backlight (raw_val : Z) (h : Hal) : Hal :=
  let active := if negb (g_screen_blanked h) && (0 <? raw_val) then raw_val else g_active_backlight_raw h in
  mkHal (g_screen_blanked h) active (g_last_wake_time h) raw_val.

(** Where a thread is: in none of the functions, or before one access to the
    globals or the file.  Each constructor is one access; the names of the locals
    are those of the code. *)
Inductive Position :=
| Idle
| WakeTest (now : Z)            (* hal_wake_screen: if (g_screen_blanked) *)
| WakeClear (now : Z)           (* g_screen_blanked = false *)
| WakeTime (now : Z)            (* g_last_wake_time = custom_tick_get() *)
| WakeLevel                     (* target_val = g_active_backlight_raw *)
| FadeUp (target_val i : Z)     (* the head of the loop: if (g_screen_blanked) break *)
| UpWrite (target_val i : Z)    (* the write of iteration i *)
| BlankTest                     (* hal_blank_screen: if (!g_screen_blanked) *)
| BlankSet                      (* g_screen_blanked = true *)
| BlankLevel                    (* start_val = g_active_backlight_raw *)
| FadeDown (start_val i : Z)
| DownWrite (start_val i : Z)
| OffTest                       (* after the loop: if (g_screen_blanked) *)
| OffWrite                      (* the write of 0 *)
| SetTest (raw_val : Z)         (* hal_set_backlight: if (!g_screen_blanked && raw_val > 0) *)
| SetActive (raw_val : Z)       (* g_active_backlight_raw = raw_val *)
| SetWrite (raw_val : Z)
| LevelTest (raw : Z)           (* main.cpp: if (g_screen_blanked) *)
| LevelStore (raw : Z)          (*   g_active_backlight_raw = raw; else hal_set_backlight(raw) *)
| Toggle (now : Z).             (* the command TOGGLE: if (g_screen_blanked) *)

#[export] Instance position_eq_dec : EqDecision Position.
Proof. solve_decision. Defined.

Definition set_blanked (b : bool) (h : Hal) : Hal := mkHal b (g_active_backlight_raw h) (g_last_wake_time h) (brightness h).
Definition set_active (raw : Z) (h : Hal) : Hal := mkHal (g_screen_blanked h) raw (g_last_wake_time h) (brightness h).
Definition set_wake_time (now : Z) (h : Hal) : Hal := mkHal (g_screen_blanked h) (g_active_backlight_raw h) now (brightness h).

(** One access. *)
Definition fade_step (p : Position) (h : Hal) : Position * Hal :=
  match p with
  | Idle => (Idle, h)
  | WakeTest now => (if g_screen_blanked h then WakeClear now else Idle, h)
  | WakeClear now => (WakeTime now, set_blanked false h)
  | WakeTime now => (WakeLevel, set_wake_time now h)
  | WakeLevel => (FadeUp (g_active_backlight_raw h) 1, h)
  | FadeUp target i => (if (15 <? i) || g_screen_blanked h then Idle else UpWrite target i, h)
  | UpWrite target i =>
      let val := Z.quot (target * i) 15 in
      let val := if target <? val then target else val in
      (FadeUp target (i + 1), write_brightness val h)
  | BlankTest => (if negb (g_screen_blanked h) then BlankSet else Idle, h)
  | BlankSet => (BlankLevel, set_blanked true h)
  | BlankLevel => (FadeDown (g_active_backlight_raw h) 1, h)
  | FadeDown start i => (if (20 <? i) || negb (g_screen_blanked h) then OffTest else DownWrite start i, h)
  | DownWrite start i =>
      let val := start - Z.quot (start * i) 20 in
      let val := if val <? 0 then 0 else val in
      (FadeDown start (i + 1), write_brightness val h)
  | OffTest => (if g_screen_blanked h then OffWrite else Idle, h)
  | OffWrite => (Idle, write_brightness 0 h)
  | SetTest raw => (if negb (g_screen_blanked h) && (0 <? raw) then SetActive raw else SetWrite raw, h)
  | SetActive raw => (SetWrite raw, set_active raw h)
  | SetWrite raw => (Idle, write_brightness raw h)
  | LevelTest raw => (if g_screen_blanked h then LevelStore raw else SetTest raw, h)
  | LevelStore raw => (Idle, set_active raw h)
  | Toggle now => (if g_screen_blanked h then WakeTest now else BlankTest, h)
  end.

(** A call that no other thread interrupts: at most 47 accesses. *)
Fixpoint run_fade (fuel : nat) (p : Position) (h : Hal) : Hal :=
  match fuel with
  | O => h
  | S fuel => let '(p, h) := fade_step p h in run_fade fuel p h
  end.

Definition hal_wake_screen (now : Z) (h : Hal) : Hal := run_fade 47 (WakeTest now) h.
Definition hal_blank_screen (h : Hal) : Hal := run_fade 47 BlankTest h.

(** ** The threads *)

(** What the screen saver, the touch screen, the assist, the handlers of the
    levels and the MQTT commands call. *)
Inductive Call := CallWake (now : Z) | CallBlank | CallSet (raw : Z) | CallLevel (raw : Z) | CallToggle (now : Z).

Definition start (c : Call) : Position :=
  match c with
  | CallWake now => WakeTest now
  | CallBlank => BlankTest
  | CallSet raw => SetTest raw
  | CallLevel raw => LevelTest raw
  | CallToggle now => Toggle now
  end.

Definition call_level (c : Call) : Z := match c with CallSet raw | CallLevel raw => raw | _ => 0 end.

Record State := mkState { hal : Hal; threads : list Position }.

(** Every interleaving of the accesses; the levels that are set are from 0 to
    [M]. *)
Inductive step (M : Z) : State -> State -> Prop :=
| step_call h l i c :
    l !! i = Some Idle -> 0 <= call_level c <= M ->
    step M (mkState h l) (mkState h (<[i:=start c]> l))
| step_fade h l i p :
    l !! i = Some p ->
    step M (mkState h l) (mkState (snd (fade_step p h)) (<[i:=fst (fade_step p h)]> l)).

(** After main created the control center, which sets the backlight. *)
Inductive reachable (M : Z) (n : nat) : State -> Prop :=
| reachable_start raw : 0 <= raw <= M -> reachable M n (mkState (mkHal false raw 0 raw) (replicate n Idle))
| reachable_step s s' : reachable M n s -> step M s s' -> reachable M n s'.

(** ** The touch screen (hal.cpp) *)

Record Touch := mkTouch { touch_x : Z; touch_y : Z; touch_pressed : Z; wake_touch_consumed : bool }.

Record input_event := mkEvent { type : Z; ev_code : Z; value : Z }.

(** The body of the loop over the events, with [press_detected_in_this_read]. *)
Definition on_event (s : Touch * bool) (ev : input_event) : Touch * bool :=
  let '(t, detected) := s in
  if type ev =? 3 then
    if ev_code ev =? 53 then (mkTouch (value ev) (touch_y t) (touch_pressed t) (wake_touch_consumed t), detected)
    else if ev_code ev =? 54 then (mkTouch (touch_x t) (value ev) (touch_pressed t) (wake_touch_consumed t), detected)
    else if ev_code ev =? 57 then
      let now_pressed := negb (value ev =? -1) in
      (mkTouch (touch_x t) (touch_y t) (Z.b2z now_pressed) (wake_touch_consumed t), detected || now_pressed)
    else s
  else if (type ev =? 1) && (ev_code ev =? 330) then
    (mkTouch (touch_x t) (touch_y t) (value ev) (wake_touch_consumed t), detected || negb (value ev =? 0))
  else s.

(** What LVGL gets: the point and whether the state is PRESSED. *)
Record indev_data := mkData { point : Z * Z; pressed : bool }.

Definition down (t : Touch) : bool := negb (touch_pressed t =? 0).

Definition touch_read_cb (events : list input_event) (now : Z) (s : Hal * Touch) : (Hal * Touch) * indev_data :=
  let '(h, t) := s in
  let '(t, detected) := fold_left on_event events (t, false) in
  let woke := g_screen_blanked h && (down t || detected) in
  let h := if woke then hal_wake_screen now h else h in
  let consumed := woke || wake_touch_consumed t in
  let data := mkData (touch_x t, touch_y t) (if consumed then false else down t) in
  let consumed := if consumed then down t else false in
  ((h, mkTouch (touch_x t) (touch_y t) (touch_pressed t) consumed), data).

(** The reads of the user interface, between which the screen saver, the
    assist and MQTT blank and wake the screen. *)
Inductive Happening := Read (events : list input_event) (now : Z) | Blank | Wake (now : Z).

(** A read: whether it woke the screen, whether the finger is down after it,
    and what LVGL got. *)
Record Seen := mkSeen { woke : bool; finger_down : bool; got : indev_data }.

Fixpoint reads (hs : list Happening) (s : Hal * Touch) : list Seen :=
  match hs with
  | [] => []
  | Blank :: hs => reads hs (hal_blank_screen (fst s), snd s)
  | Wake now :: hs => reads hs (hal_wake_screen now (fst s), snd s)
  | Read events now :: hs =>
      let '(s', data) := touch_read_cb events now s in
      mkSeen (g_screen_blanked (fst s) && negb (g_screen_blanked (fst s'))) (down (snd s')) data :: reads hs s'
  end.

(** ** Screen saver, brightness and MQTT commands (main.cpp) *)

Record Panel := mkPanel {
  screen_timeout_ms : Z;
  assist_display_active : bool;
  auto_brightness_enabled : bool;
  manual_brightness_percent : Z;
  auto_brightness_percent : Z;
  backlight_max : Z;
  device : Hal;
  file_auto : Z;                           (* /tuya/data/ha_auto_brightness *)
  file_brightness : Z;                     (* /tuya/data/ha_brightness *)
  file_timeout : Z;                        (* /tuya/data/ha_screen_timeout *)
}.

Definition set_device (h : Hal) (s : Panel) : Panel :=
  mkPanel (screen_timeout_ms s) (assist_display_active s) (auto_brightness_enabled s) (manual_brightness_percent s)
    (auto_brightness_percent s) (backlight_max s) h (file_auto s) (file_brightness s) (file_timeout s).

Definition set_levels (enabled : bool) (manual auto : Z) (s : Panel) : Panel :=
  mkPanel (screen_timeout_ms s) (assist_display_active s) enabled manual auto (backlight_max s) (device s)
    (file_auto s) (file_brightness s) (file_timeout s).

(** [save_int_file] on the three paths. *)
Definition save_auto (v : Z) (s : Panel) : Panel :=
  mkPanel (screen_timeout_ms s) (assist_display_active s) (auto_brightness_enabled s) (manual_brightness_percent s)
    (auto_brightness_percent s) (backlight_max s) (device s) v (file_brightness s) (file_timeout s).
Definition save_brightness (v : Z) (s : Panel) : Panel :=
  mkPanel (screen_timeout_ms s) (assist_display_active s) (auto_brightness_enabled s) (manual_brightness_percent s)
    (auto_brightness_percent s) (backlight_max s) (device s) (file_auto s) v (file_timeout s).

(** [inactive] is what [lv_disp_get_inactive_time] returns. *)
Definition screensaver_timer_cb (now inactive : Z) (s : Panel) : Panel :=
  if screen_timeout_ms s =? 0 then s
  else if assist_display_active s then s
  else if g_screen_blanked (device s) then s
  else if (0 <? g_last_wake_time (device s)) && (u32 (now - g_last_wake_time (device s)) <? 5000) then s
  else if screen_timeout_ms s <=? inactive then set_device (hal_blank_screen (device s)) s
  else s.

(** [percent * backlight_max / 100] *)
Definition raw_of (percent : Z) (s : Panel) : Z := Z.quot (percent * backlight_max s) 100.

(** [if (g_screen_blanked) g_active_backlight_raw = raw; else hal_set_backlight(raw);] *)
Definition apply_level (raw : Z) (s : Panel) : Panel :=
  let h := device s in
  set_device (if g_screen_blanked h then mkHal true raw (g_last_wake_time h) (brightness h) else hal_set_backlight raw h) s.

Definition set_auto_brightness_enabled (enabled : bool) (s : Panel) : Panel :=
  let s := save_auto (Z.b2z enabled) (set_levels enabled (manual_brightness_percent s) (auto_brightness_percent s) s) in
  if negb enabled then
    let s := set_levels enabled (manual_brightness_percent s) (manual_brightness_percent s) s in
    apply_level (raw_of (manual_brightness_percent s) s) s
  else s.

(** The two steps of a tick; [target] is [ambient_lux_to_brightness], [None]
    when the sensor gave nothing. *)
Definition reload_auto (s : Panel) : Panel :=
  let persisted_enabled := negb (file_auto s =? 0) in
  if negb (Bool.eqb persisted_enabled (auto_brightness_enabled s)) then
    let s := if negb persisted_enabled
             then set_levels (auto_brightness_enabled s) (file_brightness s) (auto_brightness_percent s) s else s in
    set_auto_brightness_enabled persisted_enabled s
  else s.

Definition auto_step (difference : Z) : Z :=
  let step := if 0 <? difference then 2 else -2 in
  if ((0 <? difference) && (difference <? step)) || ((difference <? 0) && (step <? difference)) then difference else step.

Definition auto_brightness_timer_cb (target : option Z) (s : Panel) : Panel :=
  let s := reload_auto s in
  match target with
  | None => s
  | Some target =>
      if negb (auto_brightness_enabled s) then s
      else
        let difference := target - auto_brightness_percent s in
        if (-2 <=? difference) && (difference <=? 2) then s
        else
          let percent := auto_brightness_percent s + auto_step difference in
          let s := set_levels (auto_brightness_enabled s) (manual_brightness_percent s) percent s in
          apply_level (raw_of percent s) s
  end.

(** The slider of the control center and the one of the display screen;
    [released] is LV_EVENT_RELEASED or LV_EVENT_PRESS_LOST. *)
Definition brightness_event_cb (percent : Z) (released : bool) (s : Panel) : Panel :=
  let s := if auto_brightness_enabled s then set_auto_brightness_enabled false s else s in
  let s := set_levels (auto_brightness_enabled s) percent (auto_brightness_percent s) s in
  let s := set_device (hal_set_backlight (raw_of percent s) (device s)) s in
  if released then save_brightness percent s else s.

Definition display_brightness_event_cb (percent : Z) (released : bool) (s : Panel) : Panel :=
  if auto_brightness_enabled s then s
  else
    let s := set_levels false percent (auto_brightness_percent s) s in
    let s := set_device (hal_set_backlight (raw_of percent s) (device s)) s in
    if released then save_brightness percent s else s.

Definition display_timeout_event_cb (seconds : Z) (s : Panel) : Panel :=
  mkPanel (u32 (seconds * 1000)) (assist_display_active s) (auto_brightness_enabled s) (manual_brightness_percent s)
    (auto_brightness_percent s) (backlight_max s) (device s) (file_auto s) (file_brightness s) seconds.

(** The command callback, for the commands that touch the display. *)
Definition mqtt_command (cmd payload : bytes) (now : Z) (s : Panel) : Panel :=
  if bytes_eqb cmd (str "screen") then
    if bytes_eqb payload (str "ON") then set_device (hal_wake_screen now (device s)) s
    else if bytes_eqb payload (str "OFF") then set_device (hal_blank_screen (device s)) s
    else if bytes_eqb payload (str "TOGGLE") then
      set_device (if g_screen_blanked (device s) then hal_wake_screen now (device s) else hal_blank_screen (device s)) s
    else s
  else if bytes_eqb cmd (str "brightness") then
    let percent := atoi payload in
    if (0 <=? percent) && (percent <=? 100) then set_device (hal_set_backlight (raw_of percent s) (device s)) s
    else
      let raw_val := atoi payload in
      if (0 <=? raw_val) && (raw_val <=? 255) then set_device (hal_set_backlight raw_val (device s)) s else s
  else s.

(** The level main starts with. *)
Definition initial_level (saved : Z) : Z := if (saved <? 5) || (100 <? saved) then 80 else saved.

(** ** Fades *)








(** A call that is left alone. *)
Lemma run_idle fuel h : run_fade fuel Idle h = h.
Proof. induction fuel as [|fuel IH]; [done|exact IH]. Qed.



Lemma wake_screen_idle now h : g_screen_blanked h = false -> hal_wake_screen now h = h.
Proof.
  intros B. change (run_fade 46 (if g_screen_blanked h then WakeClear now else Idle) h = h). rewrite B. apply run_idle.
Qed.



Lemma set_backlight_runs raw h : run_fade 47 (SetTest raw) h = hal_set_backlight raw h.
Proof.
  change (run_fade 46 (if negb (g_screen_blanked h) && (0 <? raw) then SetActive raw else SetWrite raw) h = hal_set_backlight raw h).
  unfold hal_set_backlight. destruct (negb (g_screen_blanked h) && (0 <? raw)); reflexivity.
Qed.

(** ** Touches *)

Lemma wake_screen_awake now h : g_screen_blanked (hal_wake_screen now h) = false.
Proof.
  destruct (g_screen_blanked h) eqn:B; [|by rewrite wake_screen_idle]. destruct h as [b a w br]. cbn in B. subst b. reflexivity.
Qed.

(** What a read does to the flags. *)
Lemma read_flags events now h t :
  let '((h', t'), data) := touch_read_cb events now (h, t) in
  let woke := g_screen_blanked h && negb (g_screen_blanked h') in
  pressed data = (if woke || wake_touch_consumed t then false else down t') /\
  wake_touch_consumed t' = (woke || wake_touch_consumed t) && down t'.
Proof.
  unfold touch_read_cb. assert (Hc : forall d, wake_touch_consumed (fst (fold_left on_event events (t, d))) = wake_touch_consumed t).
  { revert t. induction events as [|ev events IH]; intros t d; [done|]. cbn [fold_left].
    unfold on_event at 2. repeat case_if; by rewrite IH. }
  specialize (Hc false). destruct (fold_left on_event events (t, false)) as [t1 detected]. cbn [fst] in Hc.
  cbn [wake_touch_consumed pressed]. rewrite Hc. change (down (mkTouch _ _ (touch_pressed t1) _)) with (down t1).
  destruct (g_screen_blanked h) eqn:B; cbn [andb orb]; [|by destruct (wake_touch_consumed t), (down t1)].
  destruct (down t1 || detected) eqn:D; [rewrite wake_screen_awake|rewrite B]; cbn;
    destruct (wake_touch_consumed t), (down t1); try done; discriminate.
Qed.

(** While the touch is consumed, LVGL gets no press before the finger was up. *)
Lemma consumed_until_up hs : forall s j r,
  wake_touch_consumed (snd s) = true -> reads hs s !! j = Some r -> pressed (got r) = true ->
  exists k q, (k < j)%nat /\ reads hs s !! k = Some q /\ finger_down q = false.
Proof.
  induction hs as [|[events now| |now] hs IH]; intros [h t] j r C Hj Hp;
    [done| |exact (IH (hal_blank_screen h, t) j r C Hj Hp)|exact (IH (hal_wake_screen now h, t) j r C Hj Hp)].
  cbn [reads] in *. pose proof (read_flags events now h t) as F. destruct (touch_read_cb events now (h, t)) as [[h' t'] data].
  cbn zeta in F. cbn [snd] in C. rewrite C, orb_true_r in F. destruct F as [F1 F2]. destruct j as [|j].
  - injection Hj as <-. cbn in Hp. congruence.
  - destruct (down t') eqn:D; [|exists 0%nat; eexists; split; [lia|split; [reflexivity|by cbn]]].
    destruct (IH (h', t') j r F2 Hj Hp) as (k & q & Hk & Hq & Hf). exists (S k), q. split; [lia|done].
Qed.

(** A press that is held back goes back to a touch that woke the screen. *)
Lemma held_back_since hs : forall s j r,
  reads hs s !! j = Some r -> finger_down r = true -> pressed (got r) = false ->
  exists i, (i <= j)%nat /\ (forall k q, (i <= k <= j)%nat -> reads hs s !! k = Some q -> finger_down q = true) /\
    ((i = 0%nat /\ wake_touch_consumed (snd s) = true) \/ exists q, reads hs s !! i = Some q /\ woke q = true).
Proof.
  induction hs as [|[events now| |now] hs IH]; intros [h t] j r Hj Hd Hp;
    [done| |exact (IH (hal_blank_screen h, t) j r Hj Hd Hp)|exact (IH (hal_wake_screen now h, t) j r Hj Hd Hp)].
  cbn [reads] in *. pose proof (read_flags events now h t) as F. destruct (touch_read_cb events now (h, t)) as [[h' t'] data].
  cbn zeta in F. destruct F as [F1 F2]. cbn [fst snd] in *.
  assert (Here : (g_screen_blanked h && negb (g_screen_blanked h') || wake_touch_consumed t) = true -> forall l,
    (0%nat = 0%nat /\ wake_touch_consumed t = true) \/ exists q,
      (mkSeen (g_screen_blanked h && negb (g_screen_blanked h')) (down t') data :: l) !! 0%nat = Some q /\ woke q = true).
  { intros [W|W]%orb_true_iff l; [right|left; done]. eexists. split; [reflexivity|exact W]. }
  destruct j as [|j].
  - injection Hj as <-. cbn in Hd, Hp. exists 0%nat. split; [lia|]. split; [|apply Here; apply not_false_iff_true; intros N; rewrite N in F1; congruence].
    intros [|k] q ? Hq; [|lia]. injection Hq as <-. exact Hd.
  - destruct (IH (h', t') j r Hj Hd Hp) as (i & Hi & Hk & [[-> C]|(q & Hq & W)]).
    + cbn [snd] in C. rewrite C in F2. symmetry in F2. apply andb_true_iff in F2 as [W D]. exists 0%nat.
      split; [lia|]. split; [|by apply Here]. intros [|k] q ? Hq; [by injection Hq as <-|]. apply (Hk k q); [lia|exact Hq].
    + exists (S i). split; [lia|]. split; [|right; by exists q].
      intros [|k] q' ? Hq'; [lia|]. apply (Hk k q'); [lia|exact Hq'].
Qed.

Lemma no_press_after_wake hs : forall s i j ri rj,
  reads hs s !! i = Some ri -> reads hs s !! j = Some rj -> (i <= j)%nat -> woke ri = true -> pressed (got rj) = true ->
  exists k q, (i <= k < j)%nat /\ reads hs s !! k = Some q /\ finger_down q = false.
Proof.
  induction hs as [|[events now| |now] hs IH]; intros [h t] i j ri rj Hi Hj Hij W P;
    [done| |exact (IH (hal_blank_screen h, t) i j ri rj Hi Hj Hij W P)|exact (IH (hal_wake_screen now h, t) i j ri rj Hi Hj Hij W P)].
  cbn [reads] in *. pose proof (read_flags events now h t) as F. destruct (touch_read_cb events now (h, t)) as [[h' t'] data].
  cbn zeta in F. destruct F as [F1 F2]. cbn [fst snd] in *. destruct i as [|i].
  - injection Hi as <-. cbn [woke] in W. rewrite W in F1, F2. cbn [orb andb] in F1, F2. destruct j as [|j]; [injection Hj as <-; cbn in P; congruence|].
    destruct (down t') eqn:D; [|exists 0%nat; eexists; split; [lia|split; [reflexivity|by cbn]]].
    destruct (consumed_until_up hs (h', t') j rj F2 Hj P) as (k & q & Hk & Hq & Hf). exists (S k), q. split; [lia|done].
  - destruct j as [|j]; [lia|]. destruct (IH (h', t') i j ri rj Hi Hj ltac:(lia) W P) as (k & q & Hk & Hq & Hf).
    exists (S k), q. split; [lia|done].
Qed.

(** ** Automatic brightness *)

Lemma apply_level_levels raw s :
  auto_brightness_enabled (apply_level raw s) = auto_brightness_enabled s /\
  auto_brightness_percent (apply_level raw s) = auto_brightness_percent s /\
  backlight_max (apply_level raw s) = backlight_max s /\ file_auto (apply_level raw s) = file_auto s /\
  (0 < raw -> g_active_backlight_raw (device (apply_level raw s)) = raw).
Proof.
  unfold apply_level, set_device, hal_set_backlight. cbn [device]. destruct (g_screen_blanked (device s)); cbn; [done|].
  repeat split. intros H. by destruct (Z.ltb_spec 0 raw); [|lia].
Qed.

(** A tick with the switch on. *)
Lemma auto_tick target s :
  auto_brightness_enabled s = true -> file_auto s <> 0 ->
  let s' := auto_brightness_timer_cb (Some target) s in
  let p := auto_brightness_percent s in let p' := auto_brightness_percent s' in
  auto_brightness_enabled s' = true /\ file_auto s' = file_auto s /\ backlight_max s' = backlight_max s /\
  (if Z.abs (target - p) <=? 2 then s' = s
   else p' = p + 2 * Z.sgn (target - p) /\ (0 < raw_of p' s -> g_active_backlight_raw (device s') = raw_of p' s)).
Proof.
  intros He Hf. unfold auto_brightness_timer_cb, reload_auto. rewrite He.
  rewrite (proj2 (Z.eqb_neq _ _) Hf). cbn [negb Bool.eqb]. rewrite He. cbn [negb].
  destruct (Z.leb_spec (Z.abs (target - auto_brightness_percent s)) 2) as [D|D].
  - case_if; [done|]. rewrite andb_false_iff, !Z.leb_gt in E. lia.
  - case_if; [to_prop; lia|]. clear E.
    assert (Hs : auto_step (target - auto_brightness_percent s) = 2 * Z.sgn (target - auto_brightness_percent s)).
    { unfold auto_step. destruct (Z.ltb_spec 0 (target - auto_brightness_percent s)); case_if; try (apply orb_true_iff in E as [E|E]); to_prop; lia. }
    rewrite Hs. match goal with |- context [apply_level ?r ?u] => destruct (apply_level_levels r u) as (-> & -> & -> & -> & Hr) end.
    cbn. split; [done|]. repeat split. intros H. apply Hr. exact H.
Qed.

(** [u] is [s] after [n] ticks with the target. *)
Record Approaching (target : Z) (s : Panel) (n : nat) (u : Panel) : Prop := mkApproaching {
  still_enabled : auto_brightness_enabled u = true;
  still_saved : file_auto u <> 0;
  same_max : backlight_max u = backlight_max s;
  closer : Z.abs (target - auto_brightness_percent u) <= Z.max 2 (Z.abs (target - auto_brightness_percent s) - 2 * Z.of_nat n);
  between : Z.min (auto_brightness_percent s) target <= auto_brightness_percent u <= Z.max (auto_brightness_percent s) target;
  level : auto_brightness_percent u <> auto_brightness_percent s -> 0 < raw_of (auto_brightness_percent u) s ->
    g_active_backlight_raw (device u) = raw_of (auto_brightness_percent u) s;
}.

Lemma auto_ticks target s n :
  auto_brightness_enabled s = true -> file_auto s <> 0 ->
  Approaching target s n (Nat.iter n (auto_brightness_timer_cb (Some target)) s).
Proof.
  intros He Hf. induction n as [|n IH]; [constructor; cbn [Nat.iter nat_rect]; try done; try lia|].
  change (Nat.iter (S n) ?f s) with (f (Nat.iter n f s)). set (u := Nat.iter n _ s) in *.
  destruct IH as [IHe IHf IHm IHa IHb IHr]. destruct (auto_tick target u IHe IHf) as (Te & Tf & Tm & T).
  destruct (Z.leb_spec (Z.abs (target - auto_brightness_percent u)) 2) as [D|D].
  - rewrite T. constructor; auto; lia.
  - destruct T as [Tp Tr]. unfold raw_of in Tr. rewrite IHm in Tr.
    constructor; auto; rewrite ?Te, ?Tf, ?Tm; auto; lia.
Qed.

(** ** Properties *)


(** The touch that wakes the screen presses nothing: after a read that woke
    it, LVGL gets no press before the finger was up; and a press is held back
    only for that reason. *)
Theorem waking_touch_swallowed hs h t :
  wake_touch_consumed t = false ->
  let rs := reads hs (h, t) in
  (forall i j ri rj, rs !! i = Some ri -> rs !! j = Some rj -> (i <= j)%nat -> woke ri = true -> pressed (got rj) = true ->
     exists k q, (i <= k < j)%nat /\ rs !! k = Some q /\ finger_down q = false) /\
  (forall j rj, rs !! j = Some rj -> finger_down rj = true -> pressed (got rj) = false ->
     exists i ri, (i <= j)%nat /\ rs !! i = Some ri /\ woke ri = true /\
       forall k q, (i <= k <= j)%nat -> rs !! k = Some q -> finger_down q = true).
Proof.
  intros C. split; [apply no_press_after_wake|]. intros j rj Hj Hd Hp.
  destruct (held_back_since hs (h, t) j rj Hj Hd Hp) as (i & Hi & Hk & [[_ C']|(q & Hq & W)]); [cbn in C'; congruence|].
  exists i, q. done.
Qed.

(** While the target stays the same, the automatic brightness moves towards
    it by two per tick, never past it, and ends within two of it; the active
    level is the one of the percentage it moved to. *)
Theorem auto_brightness_settles target s n :
  auto_brightness_enabled s = true -> file_auto s <> 0 ->
  let s' := Nat.iter n (auto_brightness_timer_cb (Some target)) s in
  let p := auto_brightness_percent s in let p' := auto_brightness_percent s' in
  Z.abs (target - p') <= Z.max 2 (Z.abs (target - p) - 2 * Z.of_nat n) /\
  Z.min p target <= p' <= Z.max p target /\
  (p' <> p -> 0 < raw_of p' s -> g_active_backlight_raw (device s') = raw_of p' s).
Proof.
  intros He Hf. destruct (auto_ticks target s n He Hf). done.
Qed.

(** ** Courses of the two threads *)

Inductive Move := MCall (i : nat) (c : Call) | MStep (i : nat).

Definition move (M : Z) (m : Move) (s : State) : option State :=
  match m with
  | MCall i c =>
      match threads s !! i with
      | Some Idle => if (0 <=? call_level c) && (call_level c <=? M) then Some (mkState (hal s) (<[i:=start c]> (threads s))) else None
      | _ => None
      end
  | MStep i =>
      p ← threads s !! i;
      Some (mkState (snd (fade_step p (hal s))) (<[i:=fst (fade_step p (hal s))]> (threads s)))
  end.

Definition moves (M : Z) (ms : list Move) (s : option State) : option State :=
  fold_left (fun s m => s ≫= move M m) ms s.

Lemma move_step M m s s' : move M m s = Some s' -> step M s s'.
Proof.
  destruct s as [h l], m as [i c|i]; cbn [move threads hal]; destruct (l !! i) as [p|] eqn:E; try discriminate.
  - destruct p; try discriminate. case_if; [|discriminate]. intros [= <-]. to_prop. by constructor.
  - intros [= <-]. by constructor.
Qed.

Lemma moves_reachable M n ms s s' : reachable M n s -> moves M ms (Some s) = Some s' -> reachable M n s'.
Proof.
  revert s. induction ms as [|m ms IH]; intros s R; [by intros [= <-]|]. cbn [moves fold_left mbind option_bind].
  destruct (move M m s) as [s1|] eqn:E.
  - apply IH. eapply reachable_step; [exact R|]. by apply (move_step M m).
  - assert (N : forall ms, moves M ms None = None) by (clear; by induction ms). unfold moves in N. rewrite N. discriminate.
Qed.

Definition awake_at (raw : Z) (n : nat) : State := mkState (mkHal false raw 0 raw) (replicate n Idle).

(** A call of thread [i] that nobody interrupts. *)
Definition whole (i : nat) (c : Call) : list Move := MCall i c :: replicate 47 (MStep i).


(** A finger that comes down on a dark screen, moves, lifts and comes down
    again. *)
Definition sample_touches : list Happening :=
  [Blank; Read [mkEvent 3 53 100; mkEvent 3 54 50; mkEvent 1 330 1] 10; Read [mkEvent 3 53 120] 20;
   Read [mkEvent 1 330 0] 30; Read [mkEvent 1 330 1] 40].

Lemma waking_touch_swallowed_witness :
  let rs := reads sample_touches (mkHal false 200 0 200, mkTouch 0 0 0 false) in
  map (fun r => pressed (got r)) rs = [false; false; false; true] /\
  exists k q, (0 <= k < 3)%nat /\ rs !! k = Some q /\ finger_down q = false.
Proof.
  split; [vm_compute; reflexivity|].
  eapply (proj1 (waking_touch_swallowed sample_touches (mkHal false 200 0 200) (mkTouch 0 0 0 false) eq_refl) 0%nat 3%nat);
    [vm_compute; reflexivity|vm_compute; reflexivity|lia|reflexivity|reflexivity].
Defined.

Definition sample_panel : Panel := mkPanel 30000 false true 80 80 255 (mkHal false 204 0 204) 1 80 30.

Lemma auto_brightness_settles_witness :
  let s' := Nat.iter 30 (auto_brightness_timer_cb (Some 25)) sample_panel in
  Z.abs (25 - auto_brightness_percent s') <= 2.
Proof.
  destruct (auto_brightness_settles 25 sample_panel 30 eq_refl ltac:(done)) as [H _]. cbn zeta. etransitivity; [exact H|].
  vm_compute. discriminate.
Defined.

(** Calls that interrupt each other can leave the backlight and the state of the
    screen apart, with both threads done: the blank tests the flag before the wake
    clears it and writes its 0 after the wake is over, so the screen is awake and
    dark; or it writes the level of an iteration late, and the screen stays
    dimmed. *)
Theorem stale_write :
  (exists s, reachable 255 2 s /\ threads s = [Idle; Idle] /\ g_screen_blanked (hal s) = false /\
     g_active_backlight_raw (hal s) = 200 /\ brightness (hal s) = 0) /\
  (exists s, reachable 255 2 s /\ threads s = [Idle; Idle] /\ g_screen_blanked (hal s) = false /\
     g_active_backlight_raw (hal s) = 200 /\ brightness (hal s) = 190).
Proof.
  assert (R : forall ms s, moves 255 ms (Some (awake_at 200 2)) = Some s -> reachable 255 2 s).
  { intros ms s. apply moves_reachable. apply (reachable_start 255 2 200). lia. }
  split; eexists.
  - split; [apply (R ((MCall 0 CallBlank :: replicate 45 (MStep 0)) ++ whole 1 (CallWake 5) ++ [MStep 0])); vm_compute; reflexivity|]. repeat split.
  - split; [apply (R ((MCall 0 CallBlank :: replicate 4 (MStep 0)) ++ whole 1 (CallWake 5) ++ replicate 9 (MStep 0))); vm_compute; reflexivity|].
    repeat split.
Qed.

(** A brightness command lights a screen that counts as blanked, and one that
    comes during a fade is undone by it. *)
Theorem careless_brightness :
  (exists s, reachable 255 2 s /\ threads s = [Idle; Idle] /\ g_screen_blanked (hal s) = true /\ brightness (hal s) = 128) /\
  (exists s, reachable 255 2 s /\ threads s = [Idle; Idle] /\ g_screen_blanked (hal s) = false /\
     g_active_backlight_raw (hal s) = 255 /\ brightness (hal s) = 200).
Proof.
  assert (R : forall ms s, moves 255 ms (Some (awake_at 200 2)) = Some s -> reachable 255 2 s).
  { intros ms s. apply moves_reachable. apply (reachable_start 255 2 200). lia. }
  split; eexists.
  - split; [apply (R (whole 0 CallBlank ++ whole 1 (CallSet 128))); vm_compute; reflexivity|]. repeat split.
  - split; [apply (R (whole 0 CallBlank ++ (MCall 0 (CallWake 5) :: replicate 8 (MStep 0)) ++ whole 1 (CallSet 255) ++ replicate 40 (MStep 0)));
              vm_compute; reflexivity|].
    repeat split.
Qed.

(** Home Assistant is told a scale of 255 ([publish_ha_discovery]), but a level
    up to 100 is taken as a percentage: 100 is brighter than 101. *)
Theorem mqtt_brightness_level v now s :
  0 <= v <= 255 ->
  brightness (device (mqtt_command (str "brightness") (to_string v) now s)) =
  if v <=? 100 then Z.quot (v * backlight_max s) 100 else v.
Proof.
  intros Hv. unfold mqtt_command. change (bytes_eqb (str "brightness") (str "screen")) with false.
  change (bytes_eqb (str "brightness") (str "brightness")) with true. cbv zeta iota.
  rewrite <- (app_nil_r (to_string v)), atoi_to_string by (first [lia|done]).
  destruct (Z.leb_spec 0 v); [|lia]. destruct (Z.leb_spec v 100); cbn [andb]; [reflexivity|].
  destruct (Z.leb_spec v 255); [reflexivity|lia].
Qed.

End Display.
