(* ===== verification/Startup.v ===== *)
(** The life of the panel around its configuration (main.cpp: [main],
    [config_poll_timer], [read_int_file], [save_int_file], the MQTT screen
    [save_mqtt_btn_cb] and the portal switch [web_portal_autostart_sw_cb], the
    control center [snap_control_center], [control_center_drag_event_cb]).  The
    panel and the web portal are two processes that share the file; the panel
    starts in the onboarding or in the dashboard, restarts itself when the file is
    bad, and leaves the onboarding when the portal stored a configuration.  The
    theorems compose [Config], [Portal] and [Display]. *)
From S2P Require Import Prelude CString PanelJson Config Portal Display.
From stdpp Require Import list relations.
#[local] Open Scope Z_scope.

Module Startup.

(** ** Numbers in files *)

(** [file >> value] for an [int]: at the end of the file [value] stays; a text
    that is no number gives 0, and one out of range the nearest number. *)
Definition read_int_file (file : option bytes) (fallback : Z) : Z :=
  match file with
  | None => fallback
  | Some text =>
      match ltrim isspace text with
      | [] => fallback
      | text =>
          let '(v, _) := strtol10 text in Z.max (- 2 ^ 31) (Z.min v (2 ^ 31 - 1))
      end
  end.

Definition save_int_file (value : Z) : bytes := to_string value.

(** ** Which program runs *)

Inductive Program := AssistChild (conversation_id : bytes) | CgiConfig | CgiStatus | PanelApp.

(** [argv] without the name of the program. *)
Definition dispatch (argv : list bytes) : Program :=
  match argv with
  | first :: rest =>
      if bytes_eqb first (str "--assist-pipeline") then AssistChild (match rest with [] => [] | cid :: _ => cid end)
      else
        match rest with
        | [] => if bytes_eqb first (str "--cgi-config") then CgiConfig
                else if bytes_eqb first (str "--cgi-status") then CgiStatus else PanelApp
        | _ => PanelApp
        end
  | [] => PanelApp
  end.

(** ** The panel's process *)

Inductive Screen := Onboarding | Dashboard.

Record Panel := mkPanel { screen : Screen; g : Config; httpd : bool }.

(** What [main] does up to the loop; [Restart] is [execv] of itself after the
    file was removed. *)
Inductive Boot := Started (p : Panel) | Restart (d : Disk).

Definition boot (d : Disk) (httpd : bool) : Boot :=
  match config_file d with
  | None => Started (mkPanel Onboarding initial_config true)
  | Some json =>
      let '(g, ok) := load_configuration (Some json) initial_config in
      if ok then Started (mkPanel Dashboard g (httpd || g_web_autostart g))
      else Restart (mkDisk None (temp_file d))
  end.

(** The process and its restarts. *)
Fixpoint boots (fuel : nat) (d : Disk) (httpd : bool) : option (Panel * Disk) :=
  match fuel with
  | O => None
  | S fuel =>
      match boot d httpd with
      | Started p => Some (p, d)
      | Restart d => boots fuel d httpd
      end
  end.

(** ** While it runs *)

(** The timer of the onboarding; the file exists when it can be read. *)
Definition config_poll_timer (p : Panel) (d : Disk) : Panel :=
  match screen p with
  | Dashboard => p
  | Onboarding =>
      match config_file d with
      | None => p
      | Some json =>
          let '(g, ok) := load_configuration (Some json) (g p) in
          if ok then mkPanel Dashboard g false else mkPanel Onboarding g (httpd p)
      end
  end.

Definition set_g (p : Panel) (g : Config) : Panel := mkPanel (screen p) g (httpd p).

Definition web_portal_autostart_sw_cb (checked : bool) (io : SaveIo) (p : Panel) (d : Disk) : Panel * Disk :=
  let c := g p in
  let c := mkConfig (ha_url c) (ha_token c) (ha_entity_1 c) (ha_entity_2 c) (ha_entity_1_name c) (ha_entity_2_name c)
             (g_mqtt_config c) checked (g_ha_autostart c) in
  (set_g p c, saved_disk (save_configuration io c d) d).

(** The fields of the MQTT screen. *)
Record MqttForm := mkMqttForm {
  sw_en : bool; ta_host : bytes; ta_port : bytes; ta_user : bytes; ta_pass : bytes; ta_topic : bytes; sw_disc : bool;
}.

Definition mqtt_of_form (f : MqttForm) (m : MqttConfig) : MqttConfig :=
  let port_val := atoi (ta_port f) in
  mkMqttConfig (sw_en f) (ta_host f) (if 0 <? port_val then port_val else 1883) (ta_user f) (ta_pass f)
    (client_id m) (ta_topic f) (sw_disc f).

(** The new globals, the disk, and the configuration the client is started
    with. *)
Definition save_mqtt_btn_cb (f : MqttForm) (io : SaveIo) (p : Panel) (d : Disk) : Panel * Disk * option MqttConfig :=
  let c := g p in
  let m := mqtt_of_form f (g_mqtt_config c) in
  let c := mkConfig (ha_url c) (ha_token c) (ha_entity_1 c) (ha_entity_2 c) (ha_entity_1_name c) (ha_entity_2_name c)
             m (g_web_autostart c) (g_ha_autostart c) in
  (set_g p c, saved_disk (save_configuration io c d) d, if enabled m then Some (configure m) else None).

(** ** The levels of the display at the start *)

Record Levels := mkLevels { max_brightness : Z; manual_percent : Z; raw_level : Z; timeout_ms : Z }.

Definition start_levels (max_file brightness_file timeout_file : option bytes) : Levels :=
  let backlight_max := read_int_file max_file 255 in
  let backlight_max := if backlight_max <? 1 then 255 else backlight_max in
  let manual := Display.initial_level (read_int_file brightness_file 80) in
  mkLevels backlight_max manual (Z.quot (manual * backlight_max) 100) (u32 (read_int_file timeout_file 30 * 1000)).

(** ** The control center *)

(** Its place, where an animation takes it, and the drag. *)
Record ControlCenter := mkControlCenter {
  y : Z; animation : option Z; drag_active : bool;
  start_y : Z; start_panel_y : Z; last_y : Z; last_time : Z; velocity : Z;
}.

Definition snap_control_center (c : ControlCenter) : ControlCenter :=
  let target_y :=
    if 700 <? velocity c then 0 else if velocity c <? -700 then -480 else if -240 <=? y c then 0 else -480 in
  if Z.abs (target_y - y c) =? 0 then c
  else mkControlCenter (y c) (Some target_y) (drag_active c) (start_y c) (start_panel_y c) (last_y c) (last_time c) (velocity c).

Inductive Drag :=
| Pressed (point_y now : Z)
| Pressing (point_y now : Z)
| Released
| Animated (at_y : Z)                       (* a step of the animation *)
| Settings.                                 (* settings_event_cb *)

Definition control_center_drag_event_cb (e : Drag) (c : ControlCenter) : ControlCenter :=
  match e with
  | Pressed point_y now => mkControlCenter (y c) None true point_y (y c) point_y now 0
  | Pressing point_y now =>
      if drag_active c then
        let delta_y := point_y - last_y c in
        let delta_time := u32 (now - last_time c) in
        let moved := negb (delta_y =? 0) && (0 <? delta_time) in
        let y := start_panel_y c + point_y - start_y c in
        let y := if y <? -480 then -480 else y in
        let y := if 0 <? y then 0 else y in
        let y := if y <? -472 then -480 else y in
        let y := if -8 <? y then 0 else y in
        mkControlCenter y (animation c) true (start_y c) (start_panel_y c)
          (if moved then point_y else last_y c) (if moved then now else last_time c)
          (if moved then Z.quot (delta_y * 1000) (s32 delta_time) else velocity c)
      else c
  | Released =>
      snap_control_center (mkControlCenter (y c) (animation c) false (start_y c) (start_panel_y c) (last_y c) (last_time c) (velocity c))
  | Animated at_y =>
      mkControlCenter at_y (match animation c with Some t => if at_y =? t then None else Some t | None => None end)
        (drag_active c) (start_y c) (start_panel_y c) (last_y c) (last_time c) (velocity c)
  | Settings => mkControlCenter (-480) (animation c) (drag_active c) (start_y c) (start_panel_y c) (last_y c) (last_time c) (velocity c)
  end.

(** ** Lemmas *)

Lemma read_saved v fallback : - 2 ^ 31 <= v < 2 ^ 31 -> read_int_file (Some (save_int_file v)) fallback = v.
Proof.
  intros Hv. unfold read_int_file, save_int_file. destruct (to_string_chars v) as [Hn Hc].
  rewrite ltrim_id.
  2:{ destruct Hc as [|b s [Hb%isdigit_spec| ->] _]; [done| |done]. unfold isspace.
      rewrite (proj2 (Z.leb_gt b 13)), andb_false_r, (proj2 (Z.eqb_neq b 32)) by lia. done. }
  destruct (to_string v) as [|b s] eqn:E; [done|]. rewrite <- E, <- (app_nil_r (to_string v)).
  rewrite strtol10_signed by (done || lia). lia.
Qed.

Lemma read_int_range file fallback : - 2 ^ 31 <= fallback < 2 ^ 31 -> - 2 ^ 31 <= read_int_file file fallback < 2 ^ 31.
Proof.
  intros H. unfold read_int_file. destruct file as [text|]; [|exact H]. destruct (ltrim isspace text); [exact H|].
  destruct (strtol10 _). lia.
Qed.

(** A panel that was started. *)
Lemma boot_started d httpd p : boot d httpd = Started p ->
  (screen p = Onboarding /\ config_file d = None /\ g p = initial_config) \/
  (screen p = Dashboard /\ load_configuration (config_file d) initial_config = (g p, true)).
Proof.
  unfold boot. destruct (config_file d) as [json|]; [|intros [= <-]; by left].
  destruct (load_configuration (Some json) initial_config) as [c [|]] eqn:E; [|done]. intros [= <-]. by right.
Qed.

(** What the portal accepts for the Home Assistant section on a panel without a
    file. *)
Lemma portal_first_config rq d :
  config_file d = None -> code (cgi_config_main rq initial_config d) = 0 ->
  let body := take (Z.to_nat (match content_length rq with Some v => fst (strtol10 v) | None => 0 end)) (stdin rq) in
  form_value body (str "section") = str "ha" -> form_bool body (str "disconnect") = false ->
  let r := cgi_config_main rq initial_config d in
  config_file (disk r) = Some (config_text (globals r)) /\ shape_ok (globals r) = true /\
  is_empty (ha_url (globals r)) = false /\ is_empty (ha_token (globals r)) = false /\
  client_id (g_mqtt_config (globals r)) = client_id (g_mqtt_config initial_config).
Proof.
  intros Hf Hok body Hsec Hd r. destruct (cgi_writes_only_on_success_facts rq initial_config d) as [(_ & _ & Ef)|(E & _)]; [|congruence].
  split; [exact Ef|]. clear Ef. subst r body. revert Hok. unfold cgi_config_main, reply in *. intros Hok.
  repeat (match type of Hok with code (if ?b then _ else _) = _ => destruct b; [discriminate Hok|] end).
  rewrite Hf in *. cbn [load_configuration fst] in *. rewrite Hsec in *. set (body := take _ _) in *.
  unfold apply_section in *. change (bytes_eqb (str "ha") (str "ha")) with true in *. cbv iota in *.
  destruct (section_ha initial_config body) as [g'|[field error]] eqn:E; [|discriminate Hok].
  assert (H1 : shape_ok g' = true) by (by eapply (section_ha_shape initial_config body)).
  assert (H2 : is_empty (ha_url g') = false /\ is_empty (ha_token g') = false /\ client_id (g_mqtt_config g') = client_id (g_mqtt_config initial_config)).
  { destruct (section_ha_limits _ _ _ E Hd) as (Hu & _ & Ht & _).
    split; [destruct Hu as [Hu|Hu]; by destruct (ha_url g')|]. split; [by destruct (ha_token g')|].
    unfold section_ha in E. rewrite Hd in E. repeat pass_guard E. by injection E as <-. }
  destruct (save_configuration (save_io rq) g' d) as [states saved]. destruct saved; done.
Qed.

(** A stored configuration, as the panel loads it. *)
Lemma loads_stored c c0 :
  config_ok c = true -> is_empty (ha_url c) = false -> is_empty (ha_token c) = false ->
  client_id (g_mqtt_config c0) = client_id (g_mqtt_config c) ->
  load_configuration (Some (config_text c)) c0 = (c, true).
Proof.
  intros Hc Hu Ht Hid. rewrite (load_save_facts c c0 Hc), Hid, Hu, Ht. destruct c as [? ? ? ? ? ? [] ? ?]. reflexivity.
Qed.

Definition in_range (z : Z) : Prop := -480 <= z <= 0.
Definition end_place (z : Z) : Prop := z = 0 \/ z = -480.

(** In range, and when no finger holds it, at an end or on the way to one. *)
Definition resting (c : ControlCenter) : Prop :=
  in_range (y c) /\
  match animation c with Some t => end_place t | None => drag_active c = true \/ end_place (y c) end.

Lemma drag_resting e c :
  resting c -> (forall v, e = Animated v -> in_range v) -> (animation c = None -> forall v, e <> Animated v) ->
  resting (control_center_drag_event_cb e c).
Proof.
  intros [Hy Ha] He Hn. destruct e as [p now|p now| |v|]; cbn [control_center_drag_event_cb].
  - split; [exact Hy|]. by left.
  - destruct (drag_active c) eqn:Ed; [|by split; [|rewrite Ed]].
    split; cbn [y animation drag_active]; [unfold in_range; case_ifs|].
    destruct (animation c); [exact Ha|by left].
  - unfold snap_control_center. cbn [y animation drag_active velocity]. set (t := if 700 <? velocity c then _ else _).
    assert (Ht : end_place t) by (unfold t, end_place; case_ifs; auto).
    case_if; to_prop; (split; [exact Hy|]); cbn [animation]; [|exact Ht].
    destruct (animation c); [exact Ha|]. right. unfold end_place, t in *. cbn [y]. lia.
  - split; [by apply He|]. cbn [animation y drag_active]. destruct (animation c) as [t|] eqn:Et; [|by destruct (Hn eq_refl v)].
    case_if; [|exact Ha]. to_prop. subst v. by right.
  - split; [unfold in_range; cbn; lia|]. cbn [animation y drag_active]. destruct (animation c); [exact Ha|]. right. by right.
Qed.

(** What a panel that was started holds. *)
Lemma started_shape d httpd p : boot d httpd = Started p -> screen p = Dashboard ->
  shape_ok (g p) = true /\ is_empty (ha_url (g p)) = false /\ is_empty (ha_token (g p)) = false /\
  client_id (g_mqtt_config (g p)) = client_id (g_mqtt_config initial_config).
Proof.
  intros B S. destruct (boot_started _ _ _ B) as [(E & _)|(_ & L)]; [congruence|].
  destruct (config_file d) as [json|] eqn:F; [|discriminate L].
  assert (Eg : fst (load_configuration (Some json) initial_config) = g p) by (by rewrite L).
  assert (Eo : snd (load_configuration (Some json) initial_config) = true) by (by rewrite L).
  split; [rewrite <- Eg; by apply load_shape|]. rewrite <- Eg. cbn in Eo. cbn. to_prop. auto.
Qed.

Lemma boot_stored c t httpd :
  config_ok c = true -> is_empty (ha_url c) = false -> is_empty (ha_token c) = false ->
  client_id (g_mqtt_config c) = client_id (g_mqtt_config initial_config) ->
  boot (mkDisk (Some (config_text c)) t) httpd = Started (mkPanel Dashboard c (httpd || g_web_autostart c)).
Proof. intros H1 H2 H3 H4. unfold boot. cbn [config_file]. by rewrite loads_stored. Qed.

Lemma save_cases io c d :
  config_file (saved_disk (save_configuration io c d) d) =
    if open_ok io && write_ok io && rename_ok io then Some (config_text c) else config_file d.
Proof. unfold save_configuration, saved_disk. by destruct (open_ok io), (write_ok io), (rename_ok io). Qed.

Lemma boot_file d d' httpd : config_file d' = config_file d ->
  forall p, boot d httpd = Started p -> boot d' httpd = Started p.
Proof.
  intros E p. unfold boot. rewrite E. destruct (config_file d); [|done].
  by destruct (load_configuration _ _) as [c [|]].
Qed.

(** C7. Onboarding.  A panel without a configuration file starts the onboarding;
    its timer leaves it there while there is no file, and so do requests the
    portal refuses.  The first Home Assistant section the portal accepts (not a
    disconnect), with values none of which is a key of the file (the reader
    searches for the keys, see [strings_ok] and [Config.shadowed_key_misread]),
    brings the next poll to the dashboard with exactly the configuration the portal
    holds, and the web server is stopped; a restart comes to the same dashboard
    with the same configuration. *)
Theorem onboarding_completes (rq : Request) (d : Disk) (h : bool)
    (Hf : config_file d = None)
    (Hok : code (cgi_config_main rq initial_config d) = 0)
    (Hsec : form_value (take (Z.to_nat (match content_length rq with Some v => fst (strtol10 v) | None => 0 end)) (stdin rq))
              (str "section") = str "ha")
    (Hd : form_bool (take (Z.to_nat (match content_length rq with Some v => fst (strtol10 v) | None => 0 end)) (stdin rq))
            (str "disconnect") = false)
    (Hs : strings_ok (globals (cgi_config_main rq initial_config d)) = true) :
  let p := mkPanel Onboarding initial_config true in
  let r := cgi_config_main rq initial_config d in
  boot d h = Started p /\
  config_poll_timer p d = p /\
  (forall bad, code (cgi_config_main bad initial_config d) <> 0 ->
     config_poll_timer p (disk (cgi_config_main bad initial_config d)) = p) /\
  config_poll_timer p (disk r) = mkPanel Dashboard (globals r) false /\
  boot (disk r) h = Started (mkPanel Dashboard (globals r) (h || g_web_autostart (globals r))).
Proof.
  intros p r. destruct (portal_first_config rq d Hf Hok Hsec Hd) as (Ef & Sh & Hu & Ht & Hc). fold r in Ef, Sh, Hu, Ht, Hc.
  assert (Ok : config_ok (globals r) = true) by (by rewrite config_ok_split, Sh, andb_true_r).
  split; [unfold boot; by rewrite Hf|]. split; [unfold config_poll_timer; cbn [screen p]; by rewrite Hf|].
  split.
  { intros bad Hb. destruct (cgi_writes_only_on_success_facts bad initial_config d) as [(E & _)|(_ & _ & E)]; [done|].
    unfold config_poll_timer. cbn [screen p]. by rewrite E, Hf. }
  split.
  - unfold config_poll_timer. cbn [screen g p]. by rewrite Ef, loads_stored.
  - unfold boot. by rewrite Ef, loads_stored.
Qed.

Lemma onboarding_completes_witness :
  config_poll_timer (mkPanel Onboarding initial_config true)
    (disk (cgi_config_main sample_request initial_config (mkDisk None None)))
  = mkPanel Dashboard (globals (cgi_config_main sample_request initial_config (mkDisk None None))) false.
Proof. apply (onboarding_completes sample_request (mkDisk None None) true); vm_compute; reflexivity. Defined.

(** C24. The start terminates.  Whatever is on the disk, the process restarts
    itself at most once, and comes to the dashboard with the configuration of
    the file, or to the onboarding without a file: the file was absent, or was
    one the panel cannot use and was removed (then the web server runs as well).
    What it comes to is settled: every later start comes to the same screen with
    the same configuration and leaves the disk as it is. *)
Theorem start_settles (d : Disk) (h : bool) :
  exists p d', boots 2 d h = Some (p, d') /\ temp_file d' = temp_file d /\
  (match screen p with
   | Dashboard => d' = d /\ load_configuration (config_file d) initial_config = (g p, true) /\ httpd p = h || g_web_autostart (g p)
   | Onboarding => config_file d' = None /\ g p = initial_config /\ httpd p = true /\
       (config_file d <> None -> snd (load_configuration (config_file d) initial_config) = false)
   end) /\
  forall fuel h', exists p', boots (S fuel) d' h' = Some (p', d') /\ screen p' = screen p /\ g p' = g p.
Proof.
  cbn [boots]. unfold boot. destruct (config_file d) as [json|] eqn:F.
  - destruct (load_configuration (Some json) initial_config) as [c [|]] eqn:L.
    + exists (mkPanel Dashboard c (h || g_web_autostart c)), d. repeat split. intros fuel h'. rewrite F, L. by eexists.
    + cbn [config_file]. eexists _, _. repeat split. intros fuel h'. by eexists.
  - eexists _, _. split; [reflexivity|]. repeat split; [done..|]. intros fuel h'. rewrite F. by eexists.
Qed.

(** C25. Settings changed on the panel.  A panel on the dashboard, whose file
    nobody has changed since its start, stores on the MQTT screen a port from 1 to
    [INT_MAX] and keeps the other settings; the client is restarted with the new
    settings exactly when MQTT is enabled.  Provided the topic is not empty and no
    text is a key of the file ([strings_ok]): when the file could be written the
    next start comes to the dashboard with exactly the panel's settings, and when
    not with those it was started with; the same holds of the switch of the web
    portal. *)
Theorem settings_survive (f : MqttForm) (checked : bool) (io : SaveIo) (p : Panel) (d : Disk) (h : bool)
    (Hb : boot d h = Started p) (Hs : screen p = Dashboard) (Ht : ta_topic f <> [])
    (H1 : strings_ok (g p) = true)
    (H2 : strings_ok (g (fst (fst (save_mqtt_btn_cb f io p d)))) = true) :
  let ok := open_ok io && write_ok io && rename_ok io in
  let restarts (p' : Panel) (d' : Disk) :=
    boot d' h = Started (if ok then mkPanel Dashboard (g p') (h || g_web_autostart (g p')) else p) in
  let '(p1, d1, client) := save_mqtt_btn_cb f io p d in
  let '(p2, d2) := web_portal_autostart_sw_cb checked io p d in
  let m := g_mqtt_config (g p1) in
  1 <= port m < 2 ^ 31 /\ (0 < atoi (ta_port f) -> port m = atoi (ta_port f)) /\
  ha_url (g p1) = ha_url (g p) /\ ha_token (g p1) = ha_token (g p) /\
  client = (if sw_en f then Some (configure m) else None) /\
  g_mqtt_config (g p2) = g_mqtt_config (g p) /\ g_web_autostart (g p2) = checked /\
  restarts p1 d1 /\ restarts p2 d2.
Proof.
  destruct (started_shape _ _ _ Hb Hs) as (Sh & Hu & Hk & Hc). unfold save_mqtt_btn_cb, web_portal_autostart_sw_cb in *.
  cbn [fst set_g g] in H2. set (m := mqtt_of_form f (g_mqtt_config (g p))) in *. cbn [set_g g g_mqtt_config].
  assert (Hp : 1 <= port m < 2 ^ 31).
  { unfold m, mqtt_of_form. cbn [port]. pose proof (s32_range (fst (strtol10 (ta_port f)))). cbv zeta; case_if; to_prop; unfold atoi in *; lia. }
  split; [exact Hp|]. split; [intros Hpos; unfold m, mqtt_of_form; cbn [port]; by rewrite (proj2 (Z.ltb_lt _ _) Hpos)|].
  do 5 (split; [reflexivity|]).
  assert (Restart : forall c, config_ok c = true -> is_empty (ha_url c) = false -> is_empty (ha_token c) = false ->
    client_id (g_mqtt_config c) = client_id (g_mqtt_config initial_config) ->
    boot (saved_disk (save_configuration io c d) d) h =
      Started (if open_ok io && write_ok io && rename_ok io then mkPanel Dashboard c (h || g_web_autostart c) else p)).
  { intros c O1 O2 O3 O4. pose proof (save_cases io c d) as E. destruct (open_ok io && write_ok io && rename_ok io).
    - eapply boot_file; [|by apply (boot_stored c None)]. exact E.
    - by apply (boot_file d). }
  split; apply Restart; cbn [ha_url ha_token g_mqtt_config]; auto; rewrite config_ok_split; apply andb_true_iff; split; auto.
  all: unfold shape_ok in *; cbn [ha_url ha_token ha_entity_1 ha_entity_2 ha_entity_1_name ha_entity_2_name g_mqtt_config]; to_prop.
  all: repeat (apply andb_true_iff; split); auto; try (apply negb_true_iff; auto); try (apply Z.ltb_lt; lia).
  unfold m, mqtt_of_form. cbn [base_topic]. by destruct (ta_topic f).
Qed.

Definition sample_form : MqttForm := mkMqttForm true (str "10.0.0.9") (str "8883") (str "panel") (dq "pa'ss") (str "home/panel") true.
Definition sample_panel : Panel := mkPanel Dashboard sample_config true.

Lemma settings_survive_witness :
  let '(p1, d1, _) := save_mqtt_btn_cb sample_form all_ok sample_panel sample_disk in
  boot d1 true = Started (mkPanel Dashboard (g p1) (true || g_web_autostart (g p1))) /\ port (g_mqtt_config (g p1)) = 8883.
Proof.
  pose proof (settings_survive sample_form true all_ok sample_panel sample_disk true) as T. cbv zeta in T.
  split; [|reflexivity]. destruct T as (_ & _ & _ & _ & _ & _ & _ & R & _).
  - vm_compute. reflexivity.
  - reflexivity.
  - discriminate.
  - vm_compute. reflexivity.
  - vm_compute. reflexivity.
  - exact R.
Defined.

(** ** Two writers *)

(** The panel writes what it holds, whatever the portal stored since the panel
    read the file: neither takes a lock.  An accepted MQTT section is lost when
    the switch of the web portal is touched next. *)
Theorem lost_update :
  (forall checked p d1 d2,
     config_file (snd (web_portal_autostart_sw_cb checked all_ok p d1)) =
     config_file (snd (web_portal_autostart_sw_cb checked all_ok p d2))) /\
  exists rq, let r := cgi_config_main rq initial_config sample_disk in
    code r = 0 /\ host (g_mqtt_config (globals r)) = str "10.0.0.77" /\
    let d' := snd (web_portal_autostart_sw_cb true all_ok sample_panel (disk r)) in
    host (g_mqtt_config (fst (load_configuration (config_file d') initial_config))) = str "10.0.0.2".
Proof.
  split; [reflexivity|].
  set (body := encode_form [(str "section", str "mqtt"); (str "mqtt_enabled", str "1"); (str "mqtt_host", str "10.0.0.77");
                            (str "mqtt_port", str "1883"); (str "mqtt_topic", str "panel")]).
  exists (mkRequest (Some (str "POST")) (Some (str "TPP01-Panel")) (Some (to_string (zlen body))) body true all_ok).
  repeat split; vm_compute; reflexivity.
Qed.

(** ** The display at the start *)

(** The levels at the start.  Whatever the three files hold, the percentage
    is from 5 to 100, the largest level at least 1 and the level within it; a
    percentage that was saved from that range comes back, and the screen is
    switched off after that many seconds; and the display starts in a state
    from which its fades stay in range. *)
Theorem start_levels_ok (max_file brightness_file timeout_file : option bytes) (n : nat) :
  let l := start_levels max_file brightness_file timeout_file in
  5 <= manual_percent l <= 100 /\ 1 <= max_brightness l < 2 ^ 31 /\
  0 <= raw_level l <= max_brightness l /\ 0 <= timeout_ms l < 2 ^ 32 /\
  (forall v, 5 <= v <= 100 -> brightness_file = Some (save_int_file v) -> manual_percent l = v) /\
  (forall v, 0 <= v < 4294967 -> timeout_file = Some (save_int_file v) -> timeout_ms l = v * 1000) /\
  Display.reachable (max_brightness l) n (Display.mkState (Display.mkHal false (raw_level l) 0 (raw_level l)) (replicate n Display.Idle)).
Proof.
  cbv zeta. unfold start_levels. cbn [manual_percent max_brightness raw_level timeout_ms].
  set (m := Display.initial_level _). set (b := if read_int_file max_file 255 <? 1 then 255 else _).
  assert (Hm : 5 <= m <= 100) by (unfold m, Display.initial_level; case_if; to_prop; lia).
  assert (Hb : 1 <= b < 2 ^ 31) by (pose proof (read_int_range max_file 255 ltac:(lia)); unfold b; case_if; to_prop; lia).
  rewrite Z.quot_div_nonneg by nia.
  assert (Hr : m * b / 100 <= b) by (apply Z.div_le_upper_bound; nia).
  split; [exact Hm|]. split; [exact Hb|]. split; [split; [apply Z.div_pos; nia|exact Hr]|].
  split; [apply Z.mod_pos_bound; lia|]. split; [|split].
  - intros v Hv ->. unfold m. rewrite read_saved by lia. unfold Display.initial_level. case_if; to_prop; lia.
  - intros v Hv ->. rewrite read_saved by lia. unfold u32. apply Z.mod_small. lia.
  - apply Display.reachable_start. split; [apply Z.div_pos; nia|exact Hr].
Qed.

(** ** The control center *)

(** What happens to it; an animation moves it only within the screen, and only
    while it runs. *)
Inductive cc_step (c : ControlCenter) : ControlCenter -> Prop :=
| cc_event e : (forall v, e <> Animated v) -> cc_step c (control_center_drag_event_cb e c)
| cc_animated v : in_range v -> animation c <> None -> cc_step c (control_center_drag_event_cb (Animated v) c).

Definition cc_start : ControlCenter := mkControlCenter (-480) None false 0 0 0 0 0.

(** The control center.  Through every sequence of touches, taps on the
    settings and steps of animations it stays on the screen or above it, and
    whenever no finger holds it and no animation runs it is completely open or
    completely closed; every animation heads for one of the two. *)
Theorem control_center_rests (c : ControlCenter) (H : rtc cc_step cc_start c) :
  in_range (y c) /\ (forall t, animation c = Some t -> end_place t) /\
  (drag_active c = false -> animation c = None -> end_place (y c)).
Proof.
  assert (R : resting c).
  { revert H. apply rtc_ind_r; [split; [unfold in_range; cbn; lia|by right; right]|].
    intros c1 c2 _ St IH. destruct St as [e He|v Hv Ha]; (apply drag_resting; [exact IH| |]).
    - intros v E. by destruct (He v).
    - intros _. exact He.
    - intros v' [= <-]. exact Hv.
    - done. }
  destruct R as [Hy Ha]. split; [exact Hy|]. destruct (animation c) as [t|]; split.
  - by intros ? [= <-].
  - done.
  - done.
  - intros Hd _. destruct Ha as [Ha|Ha]; [congruence|exact Ha].
Qed.

(** A fast pull downwards from the edge. *)
Definition pulled : ControlCenter :=
  fold_left (fun c e => control_center_drag_event_cb e c) [Pressed 5 1000; Pressing 60 1020; Pressing 120 1040; Released; Animated (-100)] cc_start.

Lemma control_center_rests_witness : in_range (y pulled) /\ animation pulled = Some 0 /\ end_place 0.
Proof.
  assert (R : rtc cc_step cc_start pulled).
  { unfold pulled. cbn [fold_left].
    eapply rtc_l; [by apply (cc_event _ (Pressed 5 1000))|]. eapply rtc_l; [by apply (cc_event _ (Pressing 60 1020))|].
    eapply rtc_l; [by apply (cc_event _ (Pressing 120 1040))|]. eapply rtc_l; [by apply (cc_event _ Released)|].
    apply rtc_once. by apply cc_animated. }
  destruct (control_center_rests pulled R) as (H1 & H2 & _). split; [exact H1|]. split; [reflexivity|]. apply H2. reflexivity.
Defined.
End Startup.
