(* ===== verification/System.v ===== *)
(** The panel and its web portal as one system: two processes that share the
    configuration file, in any interleaving of the requests of the portal (main.cpp:
    [cgi_config_main], a process of its own for each request), the timer of the
    onboarding, the settings that are changed on the panel, restarts of the panel,
    and either process killed inside a save.  The theorem is the invariant of the
    state both rely on.  A loss of power is not modelled: the save calls no
    [fsync], so nothing says which of its writes the flash would then hold. *)
From S2P Require Import Prelude CString PanelJson Config Portal Startup.
From stdpp Require Import list relations.
#[local] Open Scope Z_scope.

Module System.
Import Startup.

Record Home := mkHome { panel : Panel; flash : Disk }.

(** What the panel's two settings write. *)
Inductive panel_saves (p : Panel) : Config -> Prop :=
| saves_mqtt f io d : panel_saves p (g (fst (fst (save_mqtt_btn_cb f io p d))))
| saves_switch checked io d : panel_saves p (g (fst (web_portal_autostart_sw_cb checked io p d))).

(** A process that is killed between two of its system calls leaves one of
    the states of the disk that the save goes through, as every later process
    sees it; the panel is then started again. *)
Inductive happens (s : Home) : Home -> Prop :=
| portal_request rq :
    happens s (mkHome (panel s) (disk (cgi_config_main rq initial_config (flash s))))
| poll : happens s (mkHome (config_poll_timer (panel s) (flash s)) (flash s))
| mqtt_screen f io p d client :
    save_mqtt_btn_cb f io (panel s) (flash s) = (p, d, client) -> happens s (mkHome p d)
| portal_switch checked io p d :
    web_portal_autostart_sw_cb checked io (panel s) (flash s) = (p, d) -> happens s (mkHome p d)
| restart h p d : boots 2 (flash s) h = Some (p, d) -> happens s (mkHome p d)
| portal_killed section body c io d :
    apply_section (fst (load_configuration (config_file (flash s)) initial_config)) section body = inl c ->
    In d (fst (save_configuration io c (flash s))) -> happens s (mkHome (panel s) d)
| panel_killed c io h d p d' :
    panel_saves (panel s) c -> In d (fst (save_configuration io c (flash s))) -> boots 2 d h = Some (p, d') ->
    happens s (mkHome p d').

(** A new panel, without a file. *)
Definition factory : Home := mkHome (mkPanel Onboarding initial_config true) (mkDisk None None).

Definition config_wf (c : Config) : Prop :=
  client_id (g_mqtt_config c) = client_id (g_mqtt_config initial_config) /\ 1 <= port (g_mqtt_config c) < 2 ^ 31.

Definition has_credentials (c : Config) : Prop := ha_url c <> [] /\ ha_token c <> [].

Definition disk_wf (d : Disk) : Prop :=
  forall text, config_file d = Some text -> exists c, text = config_text c /\ config_wf c.

Definition home_wf (s : Home) : Prop :=
  config_wf (g (panel s)) /\ (screen (panel s) = Dashboard -> has_credentials (g (panel s))) /\ disk_wf (flash s).

(** ** Lemmas *)

Lemma initial_wf : config_wf initial_config.
Proof. split; [done|]. cbn. lia. Qed.

Lemma form_port_range text : 1 <= (if 0 <? atoi text then atoi text else 1883) < 2 ^ 31.
Proof. pose proof (s32_range (fst (strtol10 text))). unfold atoi. case_if; to_prop; lia. Qed.

Lemma load_wf file c : config_wf c -> config_wf (fst (load_configuration file c)).
Proof.
  intros [Hc Hp]. destruct file as [json|]; [|done]. split; [exact Hc|]. cbn [load_configuration fst g_mqtt_config port].
  rewrite Z.gtb_ltb. pose proof (s32_range (parse_json_int_value json (str "mqtt_port"))). case_if; to_prop; lia.
Qed.

Lemma load_credentials file c c' : load_configuration file c = (c', true) -> has_credentials c'.
Proof.
  destruct file as [json|]; [|discriminate]. cbn. intros [= <- [H1%negb_true_iff H2%negb_true_iff]%andb_true_iff].
  split; cbn; intros W; by rewrite W in *.
Qed.

Lemma section_wf c section body c' : config_wf c -> apply_section c section body = inl c' -> config_wf c'.
Proof.
  intros [Hc Hp] H. unfold apply_section in H.
  destruct (bytes_eqb section (str "ha")); [|destruct (bytes_eqb section (str "mqtt"));
    [|destruct (bytes_eqb section (str "system")); [|discriminate]]].
  - unfold section_ha in H. repeat case_match; try discriminate; by injection H as <-.
  - unfold section_mqtt in H. destruct (strtol10 _) as [p e]. repeat pass_guard H. injection H as <-. to_prop.
    split; [exact Hc|]. cbn. lia.
  - by injection H as <-.
Qed.

Lemma save_wf io c d : config_wf c -> disk_wf d -> disk_wf (saved_disk (save_configuration io c d) d).
Proof.
  intros Hc Hd. unfold disk_wf. rewrite save_cases. case_if; [intros ? [= <-]; by exists c|exact Hd].
Qed.

Lemma save_states io c d d' :
  In d' (fst (save_configuration io c d)) -> config_file d' = config_file d \/ config_file d' = Some (config_text c).
Proof.
  unfold save_configuration. destruct (open_ok io), (write_ok io), (rename_ok io); cbn; intuition (subst; auto).
Qed.

Lemma crash_wf io c d d' : config_wf c -> disk_wf d -> In d' (fst (save_configuration io c d)) -> disk_wf d'.
Proof.
  intros Hc Hd Hi. unfold disk_wf. destruct (save_states io c d d' Hi) as [-> | ->]; [exact Hd|].
  intros ? [= <-]. by exists c.
Qed.

Lemma panel_saves_wf p c : config_wf (g p) -> panel_saves p c -> config_wf c.
Proof. intros Hg [f io d|b io d]; (split; [apply Hg|]); [apply form_port_range|apply Hg]. Qed.

Lemma portal_wf rq c d : config_wf c -> disk_wf d -> disk_wf (disk (cgi_config_main rq c d)).
Proof.
  intros Hc Hd. unfold cgi_config_main, reply. repeat (case_if; [exact Hd|]).
  destruct (apply_section _ _ _) as [c'|[field error]] eqn:Es; [|exact Hd].
  assert (Hc' : config_wf c') by (eapply section_wf; [|exact Es]; by apply load_wf).
  pose proof (save_wf (save_io rq) c' d Hc' Hd) as H. destruct (save_configuration _ c' d) as [states saved].
  by destruct saved.
Qed.

Lemma boot_wf d h p : disk_wf d -> boot d h = Started p -> home_wf (mkHome p d).
Proof.
  intros Hd B. destruct (boot_started _ _ _ B) as [(S & _ & G)|(S & L)]; (split; [|split; [|exact Hd]]); cbn [panel].
  - rewrite G. apply initial_wf.
  - congruence.
  - pose proof (load_wf (config_file d) initial_config initial_wf) as W. by rewrite L in W.
  - intros _. by eapply load_credentials.
Qed.

Lemma boots_wf fuel : forall d h p d', disk_wf d -> boots fuel d h = Some (p, d') -> home_wf (mkHome p d').
Proof.
  induction fuel as [|fuel IH]; intros d h p d' Hd H; [discriminate|]. cbn [boots] in H.
  destruct (boot d h) as [p0|d0] eqn:B; [injection H as <- <-; by eapply boot_wf|].
  apply (IH d0 h p d'); [|exact H]. unfold boot in B. destruct (config_file d); [|discriminate].
  destruct (load_configuration _ _) as [c [|]]; [discriminate|]. by injection B as <-.
Qed.

Lemma happens_wf s s' : home_wf s -> happens s s' -> home_wf s'.
Proof.
  destruct s as [p d]. intros (Hg & Hs & Hd) St. cbn [panel flash] in *. destruct St; cbn [panel flash] in *.
  - split; [exact Hg|]. split; [exact Hs|]. by apply portal_wf; [apply initial_wf|].
  - assert (W := load_wf (config_file d) (g p) Hg). unfold config_poll_timer.
    destruct (screen p) eqn:S; [|split; [|split]; auto]. destruct (config_file d) as [json|]; [|split; [|split]; auto; cbn; congruence].
    pose proof (load_credentials (Some json) (g p)) as C. destruct (load_configuration (Some json) (g p)) as [c [|]].
    all: split; [exact W|]; split; [|exact Hd]; intros Hd'; first [discriminate Hd'|by apply C].
  - pose proof (panel_saves_wf p _ Hg (saves_mqtt p f io d)) as W. rewrite H in W. unfold save_mqtt_btn_cb in H. injection H as <- <- _.
    split; [exact W|]. split; [exact Hs|]. by apply save_wf.
  - unfold web_portal_autostart_sw_cb in H. injection H as <- <-. split; [exact Hg|]. split; [exact Hs|].
    apply save_wf; [|exact Hd]. exact Hg.
  - by eapply boots_wf.
  - split; [exact Hg|]. split; [exact Hs|]. eapply crash_wf; [|exact Hd|eassumption].
    eapply section_wf; [|eassumption]. apply load_wf, initial_wf.
  - eapply boots_wf; [|eassumption]. eapply crash_wf; [|exact Hd|eassumption]. by eapply panel_saves_wf.
Qed.

(** C8. The shared state is well-formed.  From a new panel, through every
    interleaving of requests of the portal, polls of the onboarding, settings
    changed on the panel and restarts, with every failure of the file system in a
    save and either process killed at any point of it: the configuration file is
    absent or the complete text of a configuration, never a torn one; every
    configuration, in the file and in the panel, has a port that is positive and
    fits an [int] (the MQTT screen, unlike the portal, sets no limit of 65535: see
    [screen_port_unchecked]) and the client id the program fixed; and a panel on
    the dashboard has an address and a token. *)
Theorem shared_state_well_formed (s : Home) (H : rtc happens factory s) : home_wf s.
Proof.
  revert H. apply rtc_ind_r; [|intros; by eapply happens_wf].
  split; [apply initial_wf|]. by split.
Qed.

(** The rule of the portal, a port from 1 to 65535, is not one of the system:
    the MQTT screen takes any positive number. *)
Theorem screen_port_unchecked :
  exists s, rtc happens factory s /\ screen (panel s) = Dashboard /\ port (g_mqtt_config (g (panel s))) = 70000.
Proof.
  set (d1 := disk (cgi_config_main sample_request initial_config (mkDisk None None))).
  set (p1 := config_poll_timer (mkPanel Onboarding initial_config true) d1).
  set (f := mkMqttForm true (str "10.0.0.9") (str "70000") [] [] (str "home/panel") true).
  destruct (save_mqtt_btn_cb f all_ok p1 d1) as [[p2 d2] c2] eqn:E2. exists (mkHome p2 d2). split.
  - eapply rtc_l; [apply (portal_request factory sample_request)|]. eapply rtc_l; [apply poll|].
    apply rtc_once. eapply mqtt_screen. exact E2.
  - vm_compute in E2. injection E2 as <- <- _. split; reflexivity.
Qed.

(** The first configuration from the portal, the poll, a setting and a restart. *)
Lemma shared_state_well_formed_witness :
  exists s, rtc happens factory s /\ screen (panel s) = Dashboard /\ home_wf s.
Proof.
  set (d1 := disk (cgi_config_main sample_request initial_config (mkDisk None None))).
  set (p1 := config_poll_timer (mkPanel Onboarding initial_config true) d1).
  destruct (save_mqtt_btn_cb sample_form all_ok p1 d1) as [[p2 d2] c2] eqn:E2.
  destruct (boots 2 d2 false) as [[p3 d3]|] eqn:E3; [|exfalso; vm_compute in E2; injection E2 as <- <- _; vm_compute in E3; discriminate].
  assert (R : rtc happens factory (mkHome p3 d3)).
  { eapply rtc_l; [apply (portal_request factory sample_request)|]. eapply rtc_l; [apply poll|].
    eapply rtc_l; [eapply mqtt_screen; exact E2|]. apply rtc_once. eapply restart. exact E3. }
  exists (mkHome p3 d3). split; [exact R|]. split; [|exact (shared_state_well_formed _ R)].
  vm_compute in E2. injection E2 as <- <- _. vm_compute in E3. injection E3 as <- <-. reflexivity.
Defined.
End System.
