(* ===== verification/AudioSettings.v ===== *)
(** The sound and microphone screens and the volume of the control center
    (main.cpp): the settings in memory, their files, and the amixer commands,
    which the panel runs itself or leaves to threads. *)
From S2P Require Import Prelude CString Startup.
From stdpp Require Import list gmap strings.
#[local] Open Scope Z_scope.

Module AudioSettings.
Import Startup.

(** ** State *)

(** The [sound_*] variables. *)
Record Sound := mkSound {
  sound_volume_percent : Z;
  sound_dac_gain : Z;
  sound_quiet_enabled : bool;
  sound_alarms_enabled : bool;
  sound_ha_notifications_enabled : bool;
  sound_touch_enabled : bool;
}.

(** The [mic_*] variables. *)
Record Mic := mkMic {
  mic_gain_percent : Z;
  mic_wake_enabled : bool;
  mic_wake_sensitivity : Z;
  mic_hpf_enabled : bool;
  mic_mute_on_blank : bool;
  mic_mute_on_tts : bool;
}.

Definition initial_sound : Sound := mkSound 75 2 false true true true.
Definition initial_mic : Mic := mkMic 85 true 0 true true true.

(** A setting of the mixer, as an amixer command names it. *)
Inductive Control := Speaker | Adc_alc_group_0 | Numid (n : Z).

(** [amixer -q -c 0 sset ... or cset numid=...] with a value; a switch is on or
    off. *)
Inductive Amixer := Sset (c : Control) (percent : Z) | Cset (c : Control) (value : Z) | Switch (c : Control) (on : bool).

(** What an event handler of a switch is registered with. *)
Inductive Callback := Sound_toggle_event_cb | Mic_toggle_event_cb.
Record SwitchCard := mkCard { card_y : Z; checked : bool; callback : Callback; setting : Z }.

(** A screen is there. *)
Definition is_open (x : option (list SwitchCard)) : bool := match x with Some _ => true | None => false end.

(** [commands]: those that ran; [threads]: what the detached threads have left. *)
Record State := mkState {
  sound : Sound;
  mic : Mic;
  files : gmap string bytes;
  sound_screen : option (list SwitchCard);
  microphone_screen : option (list SwitchCard);
  commands : list Amixer;
  threads : list (list Amixer);
}.

Definition set_sound (x : Sound) (s : State) : State :=
  mkState x (mic s) (files s) (sound_screen s) (microphone_screen s) (commands s) (threads s).
Definition set_mic (x : Mic) (s : State) : State :=
  mkState (sound s) x (files s) (sound_screen s) (microphone_screen s) (commands s) (threads s).
Definition set_files (x : gmap string bytes) (s : State) : State :=
  mkState (sound s) (mic s) x (sound_screen s) (microphone_screen s) (commands s) (threads s).
Definition set_sound_screen (x : option (list SwitchCard)) (s : State) : State :=
  mkState (sound s) (mic s) (files s) x (microphone_screen s) (commands s) (threads s).
Definition set_microphone_screen (x : option (list SwitchCard)) (s : State) : State :=
  mkState (sound s) (mic s) (files s) (sound_screen s) x (commands s) (threads s).
(** [system(cmd)] *)
Definition system (l : list Amixer) (s : State) : State :=
  mkState (sound s) (mic s) (files s) (sound_screen s) (microphone_screen s) (commands s ++ l) (threads s).
(** [std::thread([..]() { system(cmd); }).detach()] *)
Definition spawn (l : list Amixer) (s : State) : State :=
  mkState (sound s) (mic s) (files s) (sound_screen s) (microphone_screen s) (commands s) (threads s ++ [l]).

(** ** Handlers *)

Section Handlers.
(** Whether a file can be opened for writing. *)
Context (opens : string -> bool).

Definition save (path : string) (value : Z) (s : State) : State :=
  if opens path then set_files (<[path := save_int_file value]> (files s)) s else s.

Definition read (path : string) (fallback : Z) (f : gmap string bytes) : Z := read_int_file (f !! path) fallback.

Definition set_volume_percent (v : Z) (x : Sound) : Sound :=
  mkSound v (sound_dac_gain x) (sound_quiet_enabled x) (sound_alarms_enabled x) (sound_ha_notifications_enabled x) (sound_touch_enabled x).
Definition set_dac_gain (v : Z) (x : Sound) : Sound :=
  mkSound (sound_volume_percent x) v (sound_quiet_enabled x) (sound_alarms_enabled x) (sound_ha_notifications_enabled x) (sound_touch_enabled x).
Definition set_quiet (b : bool) (x : Sound) : Sound :=
  mkSound (sound_volume_percent x) (sound_dac_gain x) b (sound_alarms_enabled x) (sound_ha_notifications_enabled x) (sound_touch_enabled x).
Definition set_alarms (b : bool) (x : Sound) : Sound :=
  mkSound (sound_volume_percent x) (sound_dac_gain x) (sound_quiet_enabled x) b (sound_ha_notifications_enabled x) (sound_touch_enabled x).
Definition set_notifications (b : bool) (x : Sound) : Sound :=
  mkSound (sound_volume_percent x) (sound_dac_gain x) (sound_quiet_enabled x) (sound_alarms_enabled x) b (sound_touch_enabled x).
Definition set_touch (b : bool) (x : Sound) : Sound :=
  mkSound (sound_volume_percent x) (sound_dac_gain x) (sound_quiet_enabled x) (sound_alarms_enabled x) (sound_ha_notifications_enabled x) b.

Definition apply_dac_gain (gain : Z) (s : State) : State :=
  let gain := if gain <? 0 then 0 else gain in
  let gain := if 3 <? gain then 3 else gain in
  let s := set_sound (set_dac_gain gain (sound s)) s in
  let s := save "/tuya/data/ha_dac_gain" gain s in
  system [Cset (Numid 34) gain; Cset (Numid 35) gain] s.

Definition sound_gain_button_cb (gain : Z) (s : State) : State := apply_dac_gain gain s.

Definition apply_hardware_volume (percent : Z) (s : State) : State :=
  let s := set_sound (set_volume_percent percent (sound s)) s in
  let s := save "/tuya/data/ha_sound_volume" percent s in
  let quiet := sound_quiet_enabled (sound s) in
  let gain := sound_dac_gain (sound s) in
  spawn [Sset Speaker percent; Switch (Numid 43) (negb quiet); Cset (Numid 34) gain; Cset (Numid 35) gain] s.

(** [released]: [LV_EVENT_RELEASED] or [LV_EVENT_PRESS_LOST]. *)
Definition sound_volume_event_cb (percent : Z) (released : bool) (s : State) : State :=
  if released then apply_hardware_volume percent s else s.

Definition Z_of_bool (b : bool) : Z := if b then 1 else 0.

Definition sound_toggle_event_cb (setting : Z) (enabled : bool) (s : State) : State :=
  if setting =? 0 then
    let s := save "/tuya/data/ha_sound_quiet" (Z_of_bool enabled) (set_sound (set_quiet enabled (sound s)) s) in
    apply_hardware_volume (sound_volume_percent (sound s)) s
  else if setting =? 1 then save "/tuya/data/ha_sound_alarms" (Z_of_bool enabled) (set_sound (set_alarms enabled (sound s)) s)
  else if setting =? 2 then save "/tuya/data/ha_sound_notifications" (Z_of_bool enabled) (set_sound (set_notifications enabled (sound s)) s)
  else if setting =? 3 then save "/tuya/data/ha_sound_touch" (Z_of_bool enabled) (set_sound (set_touch enabled (sound s)) s)
  else s.

Definition create_sound_switch_card (y : Z) (enabled : bool) (setting : Z) : SwitchCard :=
  mkCard y enabled Sound_toggle_event_cb setting.

Definition read_sound (f : gmap string bytes) : Sound :=
  let gain := read "/tuya/data/ha_dac_gain" 2 f in
  mkSound (read "/tuya/data/ha_sound_volume" 75 f) (if (gain <? 0) || (3 <? gain) then 2 else gain)
    (negb (read "/tuya/data/ha_sound_quiet" 0 f =? 0)) (negb (read "/tuya/data/ha_sound_alarms" 1 f =? 0))
    (negb (read "/tuya/data/ha_sound_notifications" 1 f =? 0)) (negb (read "/tuya/data/ha_sound_touch" 1 f =? 0)).

Definition create_sound_screen (s : State) : State :=
  match sound_screen s with
  | Some _ => s
  | None =>
      let x := read_sound (files s) in
      set_sound_screen (Some [
        create_sound_switch_card 280 (sound_quiet_enabled x) 0; create_sound_switch_card 362 (sound_alarms_enabled x) 1;
        create_sound_switch_card 444 (sound_ha_notifications_enabled x) 2; create_sound_switch_card 526 (sound_touch_enabled x) 3])
        (set_sound x s)
  end.

Definition close_sound_screen (s : State) : State := set_sound_screen None s.

(** [released]: [LV_EVENT_RELEASED] only. The handler would save on
    [LV_EVENT_PRESS_LOST] too, but is not registered for it. *)
Definition mic_gain_event_cb (percent : Z) (released : bool) (s : State) : State :=
  let m := mic s in
  let s := set_mic (mkMic percent (mic_wake_enabled m) (mic_wake_sensitivity m) (mic_hpf_enabled m) (mic_mute_on_blank m) (mic_mute_on_tts m)) s in
  if released then system [Sset Adc_alc_group_0 percent] (save "/tuya/data/ha_mic_gain" percent s) else s.

(** The listener is stopped in [AssistRuntime.mic_toggle_wake]. *)
Definition mic_toggle_event_cb (setting : Z) (enabled : bool) (s : State) : State :=
  let m := mic s in
  if setting =? 0 then
    save "/tuya/data/ha_mic_wake_enabled" (Z_of_bool enabled)
      (set_mic (mkMic (mic_gain_percent m) enabled (mic_wake_sensitivity m) (mic_hpf_enabled m) (mic_mute_on_blank m) (mic_mute_on_tts m)) s)
  else if setting =? 1 then
    save "/tuya/data/ha_mic_hpf" (Z_of_bool enabled)
      (set_mic (mkMic (mic_gain_percent m) (mic_wake_enabled m) (mic_wake_sensitivity m) enabled (mic_mute_on_blank m) (mic_mute_on_tts m)) s)
  else if setting =? 2 then
    save "/tuya/data/ha_mic_mute_blank" (Z_of_bool enabled)
      (set_mic (mkMic (mic_gain_percent m) (mic_wake_enabled m) (mic_wake_sensitivity m) (mic_hpf_enabled m) enabled (mic_mute_on_tts m)) s)
  else if setting =? 3 then
    save "/tuya/data/ha_mic_mute_tts" (Z_of_bool enabled)
      (set_mic (mkMic (mic_gain_percent m) (mic_wake_enabled m) (mic_wake_sensitivity m) (mic_hpf_enabled m) (mic_mute_on_blank m) enabled) s)
  else s.

Definition mic_sensitivity_button_cb (index : Z) (s : State) : State :=
  let m := mic s in
  save "/tuya/data/ha_mic_wake_sensitivity" index
    (set_mic (mkMic (mic_gain_percent m) (mic_wake_enabled m) index (mic_hpf_enabled m) (mic_mute_on_blank m) (mic_mute_on_tts m)) s).

Definition read_mic (f : gmap string bytes) : Mic :=
  let sensitivity := read "/tuya/data/ha_mic_wake_sensitivity" 0 f in
  mkMic (read "/tuya/data/ha_mic_gain" 85 f) (negb (read "/tuya/data/ha_mic_wake_enabled" 1 f =? 0))
    (if (sensitivity <? 0) || (2 <? sensitivity) then 0 else sensitivity)
    (negb (read "/tuya/data/ha_mic_hpf" 1 f =? 0)) (negb (read "/tuya/data/ha_mic_mute_blank" 1 f =? 0))
    (negb (read "/tuya/data/ha_mic_mute_tts" 1 f =? 0)).

(** Its microphone and listener are in [AssistRuntime.create_microphone_screen]. *)
Definition create_microphone_screen (s : State) : State :=
  match microphone_screen s with
  | Some _ => s
  | None =>
      let x := read_mic (files s) in
      set_microphone_screen (Some [
        mkCard 8 (mic_wake_enabled x) Mic_toggle_event_cb 0; create_sound_switch_card 286 (mic_hpf_enabled x) 1;
        create_sound_switch_card 374 (mic_mute_on_blank x) 2; create_sound_switch_card 462 (mic_mute_on_tts x) 3])
        (set_mic x s)
  end.

Definition close_microphone_screen (s : State) : State := set_microphone_screen None s.

(** The volume of the control center. *)
Definition apply_volume (percent : Z) (s : State) : State :=
  if percent =? 0 then system [Switch (Numid 43) false] s
  else
    let gain := sound_dac_gain (sound s) in
    system [Switch (Numid 43) true; Cset (Numid 34) gain; Cset (Numid 35) gain] s.

Definition volume_event_cb (percent : Z) (released : bool) (s : State) : State :=
  if released then apply_volume percent (save "/tuya/data/ha_volume" percent s) else s.

(** What [create_control_center] does to the sound at the start. *)
Definition create_control_center (s : State) : State :=
  let gain := read "/tuya/data/ha_dac_gain" 2 (files s) in
  let s := set_sound (set_dac_gain (if (gain <? 0) || (3 <? gain) then 2 else gain) (sound s)) s in
  let volume := read "/tuya/data/ha_volume" 80 (files s) in
  let volume := if (volume <? 0) || (100 <? volume) then 80 else volume in
  apply_volume volume s.

(** The widget itself takes its new state before its handler runs. *)
Definition press (i : nat) (enabled : bool) (screen : option (list SwitchCard)) : option (list SwitchCard) :=
  alter (fun c => mkCard (card_y c) enabled (callback c) (setting c)) i <$> screen.

(** The handler of the [i]-th switch of a screen. *)
Definition toggle (screen : option (list SwitchCard)) (i : nat) (enabled : bool) (s : State) : State :=
  match screen with
  | Some cards =>
      match cards !! i with
      | Some c =>
          match callback c with
          | Sound_toggle_event_cb => sound_toggle_event_cb (setting c) enabled s
          | Mic_toggle_event_cb => mic_toggle_event_cb (setting c) enabled s
          end
      | None => s
      end
  | None => s
  end.

(** ** Courses of events *)

Inductive Event :=
| OpenSound | CloseSound | OpenMicrophone | CloseMicrophone
| SoundVolume (percent : Z) (released : bool)
| GainButton (gain : Z)
| SoundSwitch (i : nat) (enabled : bool)
| MicGain (percent : Z) (released : bool)
| MicSwitch (i : nat) (enabled : bool)
| Sensitivity (index : Z)
| Volume (percent : Z) (released : bool)
| RunThread (i : nat)                        (* the next command of a thread *)
| Restart.                                   (* of the panel *)

Definition run_thread (i : nat) (s : State) : State :=
  match threads s !! i with
  | Some (c :: l) =>
      mkState (sound s) (mic s) (files s) (sound_screen s) (microphone_screen s) (commands s ++ [c])
        (match l with [] => delete i (threads s) | _ => <[i := l]> (threads s) end)
  | _ => s
  end.

Definition restart (s : State) : State :=
  create_control_center (mkState initial_sound initial_mic (files s) None None (commands s) []).

Definition step (s : State) (e : Event) : State :=
  match e with
  | OpenSound => create_sound_screen s
  | CloseSound => close_sound_screen s
  | OpenMicrophone => create_microphone_screen s
  | CloseMicrophone => close_microphone_screen s
  | SoundVolume percent released => if is_open (sound_screen s) then sound_volume_event_cb percent released s else s
  | GainButton gain => if is_open (sound_screen s) then sound_gain_button_cb gain s else s
  | SoundSwitch i enabled => toggle (sound_screen s) i enabled (set_sound_screen (press i enabled (sound_screen s)) s)
  | MicGain percent released => if is_open (microphone_screen s) then mic_gain_event_cb percent released s else s
  | MicSwitch i enabled => toggle (microphone_screen s) i enabled (set_microphone_screen (press i enabled (microphone_screen s)) s)
  | Sensitivity index => if is_open (microphone_screen s) then mic_sensitivity_button_cb index s else s
  | Volume percent released => volume_event_cb percent released s
  | RunThread i => run_thread i s
  | Restart => restart s
  end.

Definition start (f : gmap string bytes) : State := restart (mkState initial_sound initial_mic f None None [] []).

Definition run (f : gmap string bytes) (events : list Event) : State := fold_left step events (start f).
End Handlers.

(** ** The files *)

Definition all_open : string -> bool := fun _ => true.

Lemma read_saved_same path v fallback f : - 2 ^ 31 <= v < 2 ^ 31 -> read path fallback (<[path := save_int_file v]> f) = v.
Proof. intros Hv. unfold read. rewrite lookup_insert_eq. by apply read_saved. Qed.

Lemma read_saved_other path path' v fallback f : path <> path' -> read path' fallback (<[path := v]> f) = read path' fallback f.
Proof. intros H. unfold read. by rewrite lookup_insert_ne. Qed.

Lemma bool_saved b : negb (Z_of_bool b =? 0) = b.
Proof. by destruct b. Qed.

Lemma bool_range b : - 2 ^ 31 <= Z_of_bool b < 2 ^ 31.
Proof. destruct b; cbn; lia. Qed.

(** Reads after one write: of the same path, and of any other. *)
Ltac reads :=
  unfold read_sound, read_mic;
  repeat first [rewrite read_saved_same by (first [apply bool_range|lia]) | rewrite read_saved_other by discriminate];
  rewrite ?bool_saved.

(** What was read is within its range. *)
Definition sound_ok (x : Sound) : Prop := - 2 ^ 31 <= sound_volume_percent x < 2 ^ 31 /\ 0 <= sound_dac_gain x <= 3.
Definition mic_ok (m : Mic) : Prop := 0 <= mic_wake_sensitivity m <= 2.

Lemma read_sound_ok f : sound_ok (read_sound f).
Proof. split; cbn; [apply read_int_range; lia|]. case_if; to_prop; lia. Qed.

Lemma read_mic_ok f : mic_ok (read_mic f).
Proof. unfold mic_ok. cbn. case_if; to_prop; lia. Qed.

(** Events as the widgets give them. *)
Definition event_ok (e : Event) : Prop :=
  match e with
  | SoundVolume percent _ | Volume percent _ => 0 <= percent <= 100
  | MicGain percent _ => 10 <= percent <= 100
  | Sensitivity index => 0 <= index <= 2
  | _ => True
  end.

(** The cards of the two screens. *)
Definition handlers (l : list SwitchCard) : list (Callback * Z) := map (fun c => (callback c, setting c)) l.
Definition cards_ok (s : State) : Prop :=
  (forall l, sound_screen s = Some l ->
     handlers l = [(Sound_toggle_event_cb, 0); (Sound_toggle_event_cb, 1); (Sound_toggle_event_cb, 2); (Sound_toggle_event_cb, 3)]) /\
  (forall l, microphone_screen s = Some l ->
     handlers l = [(Mic_toggle_event_cb, 0); (Sound_toggle_event_cb, 1); (Sound_toggle_event_cb, 2); (Sound_toggle_event_cb, 3)]).

(** The handler of the microphone's switches gets 0 only. *)
Definition wake_only (l : list SwitchCard) : Prop := Forall (fun c => callback c = Mic_toggle_event_cb -> setting c = 0) l.

Lemma cards_wake_only s l : cards_ok s -> sound_screen s = Some l \/ microphone_screen s = Some l -> wake_only l.
Proof.
  intros [H1 H2] Hl. assert (F : Forall (fun p : Callback * Z => p.1 = Mic_toggle_event_cb -> p.2 = 0) (handlers l)).
  { destruct Hl as [Hl|Hl]; [rewrite (H1 l Hl)|rewrite (H2 l Hl)]; by repeat constructor. }
  unfold handlers in F. by rewrite Forall_map in F.
Qed.

Lemma toggle_screens opens screen i b s :
  sound_screen (toggle opens screen i b s) = sound_screen s /\ microphone_screen (toggle opens screen i b s) = microphone_screen s.
Proof.
  unfold toggle. destruct screen as [l|]; [|done]. destruct (l !! i) as [c|]; [|done].
  unfold sound_toggle_event_cb, mic_toggle_event_cb, apply_hardware_volume, save. destruct (callback c); by repeat case_if.
Qed.

(** A tap changes what a card shows, and nothing else of it. *)
Lemma press_handlers i b screen l : press i b screen = Some l -> exists l0, screen = Some l0 /\ handlers l = handlers l0.
Proof.
  unfold press. destruct screen as [l0|]; [|discriminate]. intros [= <-]. exists l0. split; [reflexivity|]. unfold handlers.
  revert i. induction l0 as [|c l0 IH]; intros [|i]; [done..|]. exact (f_equal (cons _) (IH i)).
Qed.

Lemma press_open i b screen : is_open (press i b screen) = is_open screen.
Proof. by destruct screen. Qed.

Lemma cards_press i b s : cards_ok s ->
  cards_ok (set_sound_screen (press i b (sound_screen s)) s) /\ cards_ok (set_microphone_screen (press i b (microphone_screen s)) s).
Proof.
  intros [H1 H2]. split; (split; [intros l Hl|intros l Hl]); cbn in Hl; eauto;
    destruct (press_handlers i b _ l Hl) as (l0 & E & ->); eauto.
Qed.

Lemma cards_step opens s e : cards_ok s -> cards_ok (step opens s e).
Proof.
  intros [H1 H2].
  assert (G : forall s0 s', cards_ok s0 -> sound_screen s' = sound_screen s0 -> microphone_screen s' = microphone_screen s0 -> cards_ok s').
  { intros s0 s' [G1 G2] E1 E2. split; [by rewrite E1|by rewrite E2]. }
  assert (K := fun s' => G s s' (conj H1 H2)).
  destruct e; cbn [step].
  - unfold create_sound_screen. destruct (sound_screen s) as [l|] eqn:E; [split; [intros l2 E2; apply H1; congruence|exact H2]|]. split; [|exact H2].
    intros l [= <-]. reflexivity.
  - split; [discriminate|exact H2].
  - unfold create_microphone_screen. destruct (microphone_screen s) as [l|] eqn:E; [split; [exact H1|intros l2 E2; apply H2; congruence]|]. split; [exact H1|].
    intros l [= <-]. reflexivity.
  - split; [exact H1|discriminate].
  - case_if; [|done]. unfold sound_volume_event_cb, apply_hardware_volume, save. repeat case_if; by apply K.
  - case_if; [|done]. unfold sound_gain_button_cb, apply_dac_gain, save. repeat case_if; by apply K.
  - eapply G; [|apply toggle_screens|apply toggle_screens]; apply cards_press; by split.
  - case_if; [|done]. unfold mic_gain_event_cb, save. repeat case_if; by apply K.
  - eapply G; [|apply toggle_screens|apply toggle_screens]; apply cards_press; by split.
  - case_if; [|done]. unfold mic_sensitivity_button_cb, save. repeat case_if; by apply K.
  - unfold volume_event_cb, apply_volume, save. repeat case_if; by apply K.
  - unfold run_thread. by destruct (threads s !! i) as [[|c l]|]; try apply K.
  - unfold restart, create_control_center, apply_volume. case_if; by split.
Qed.

(** A write changes what is read in its field only. *)
Lemma read_volume v f : - 2 ^ 31 <= v < 2 ^ 31 ->
  read_sound (<["/tuya/data/ha_sound_volume" := save_int_file v]> f) = set_volume_percent v (read_sound f).
Proof. intros Hv. reads. reflexivity. Qed.

Lemma read_gain v f : 0 <= v <= 3 -> read_sound (<["/tuya/data/ha_dac_gain" := save_int_file v]> f) = set_dac_gain v (read_sound f).
Proof. intros Hv. reads. rewrite (proj2 (Z.ltb_ge v 0)), (proj2 (Z.ltb_ge 3 v)) by lia. reflexivity. Qed.

Lemma read_quiet b f : read_sound (<["/tuya/data/ha_sound_quiet" := save_int_file (Z_of_bool b)]> f) = set_quiet b (read_sound f).
Proof. reads. reflexivity. Qed.

Lemma read_alarms b f : read_sound (<["/tuya/data/ha_sound_alarms" := save_int_file (Z_of_bool b)]> f) = set_alarms b (read_sound f).
Proof. reads. reflexivity. Qed.

Lemma read_notifications b f :
  read_sound (<["/tuya/data/ha_sound_notifications" := save_int_file (Z_of_bool b)]> f) = set_notifications b (read_sound f).
Proof. reads. reflexivity. Qed.

Lemma read_touch b f : read_sound (<["/tuya/data/ha_sound_touch" := save_int_file (Z_of_bool b)]> f) = set_touch b (read_sound f).
Proof. reads. reflexivity. Qed.

Definition with_gain (g : Z) (m : Mic) : Mic :=
  mkMic g (mic_wake_enabled m) (mic_wake_sensitivity m) (mic_hpf_enabled m) (mic_mute_on_blank m) (mic_mute_on_tts m).

(** While a screen is open, its files hold the settings in memory, but the
    gain of the microphone while its slider is held. *)
Record Saved (s : State) : Prop := {
  saved_range : - 2 ^ 31 <= sound_volume_percent (sound s) < 2 ^ 31;
  saved_sound : is_open (sound_screen s) = true -> read_sound (files s) = sound s;
  saved_mic : is_open (microphone_screen s) = true -> with_gain (mic_gain_percent (mic s)) (read_mic (files s)) = mic s;
}.

Lemma saved_hardware_volume percent s : - 2 ^ 31 <= percent < 2 ^ 31 -> Saved s -> Saved (apply_hardware_volume all_open percent s).
Proof.
  intros Hp [R S M]. constructor; cbn -[read_sound read_mic]; [exact Hp| |].
  - intros O. by rewrite read_volume, S.
  - intros O. rewrite <- M by exact O. reads. reflexivity.
Qed.

Lemma saved_sound_toggle setting b s : Saved s -> Saved (sound_toggle_event_cb all_open setting b s).
Proof.
  intros [R S M]. unfold sound_toggle_event_cb.
  assert (Hm : forall f', read_mic f' = read_mic (files s) -> is_open (microphone_screen s) = true -> with_gain (mic_gain_percent (mic s)) (read_mic f') = mic s).
  { intros f' E O. rewrite E. by apply M. }
  repeat case_if; try (by constructor).
  - apply saved_hardware_volume; [exact R|]. constructor; cbn -[read_sound read_mic]; [exact R| |apply Hm; by reads].
    intros O. by rewrite read_quiet, S.
  - constructor; cbn -[read_sound read_mic]; [exact R| |apply Hm; by reads]. intros O. by rewrite read_alarms, S.
  - constructor; cbn -[read_sound read_mic]; [exact R| |apply Hm; by reads]. intros O. by rewrite read_notifications, S.
  - constructor; cbn -[read_sound read_mic]; [exact R| |apply Hm; by reads]. intros O. by rewrite read_touch, S.
Qed.

Lemma saved_mic_toggle b s : Saved s -> Saved (mic_toggle_event_cb all_open 0 b s).
Proof.
  intros [R S M]. unfold mic_toggle_event_cb. change (0 =? 0) with true. cbv iota zeta.
  constructor; cbn -[read_sound read_mic]; [exact R| |].
  - intros O. rewrite <- S by exact O. by reads.
  - intros O. rewrite <- M by exact O. by reads.
Qed.

Lemma saved_toggle screen i b s : 
  (forall l, screen = Some l -> wake_only l) ->
  Saved s -> Saved (toggle all_open screen i b s).
Proof.
  intros Hc H. unfold toggle. destruct screen as [l|]; [|exact H]. destruct (l !! i) as [c|] eqn:E; [|exact H].
  specialize (Hc l eq_refl). unfold wake_only in Hc. rewrite Forall_lookup in Hc. specialize (Hc i c E).
  destruct (callback c); [by apply saved_sound_toggle|]. rewrite Hc by done. by apply saved_mic_toggle.
Qed.

Lemma saved_press i b s : Saved s ->
  Saved (set_sound_screen (press i b (sound_screen s)) s) /\ Saved (set_microphone_screen (press i b (microphone_screen s)) s).
Proof. intros [R S M]. split; constructor; cbn -[read_sound read_mic]; rewrite ?press_open; assumption. Qed.

Lemma saved_restart s : Saved (restart s).
Proof.
  unfold restart, create_control_center. set (v := if _ || _ then 80 else _). unfold apply_volume.
  case_if; constructor; cbn -[read]; (lia || discriminate).
Qed.

Lemma saved_step s e : event_ok e -> cards_ok s -> Saved s -> Saved (step all_open s e).
Proof.
  intros He C H. destruct e; cbn [step event_ok] in *.
  - unfold create_sound_screen. destruct (sound_screen s) eqn:E; [exact H|]. destruct H as [R S M].
    constructor; cbn -[read_sound read_mic]; [apply read_sound_ok|done|exact M].
  - destruct H as [R S M]. constructor; [exact R|discriminate|exact M].
  - unfold create_microphone_screen. destruct (microphone_screen s) eqn:E; [exact H|]. destruct H as [R S M].
    constructor; cbn -[read_sound read_mic]; [exact R|exact S|]. intros _. by destruct (read_mic (files s)).
  - destruct H as [R S M]. constructor; [exact R|exact S|discriminate].
  - case_if; [|exact H]. unfold sound_volume_event_cb. case_if; [|exact H]. apply saved_hardware_volume; [lia|exact H].
  - case_if; [|exact H]. destruct H as [R S M]. unfold sound_gain_button_cb, apply_dac_gain. cbv zeta.
    set (v := if 3 <? _ then 3 else _). assert (Hv : 0 <= v <= 3) by (unfold v; case_ifs).
    constructor; cbn -[read_sound read_mic]; [exact R| |].
    + intros O. by rewrite read_gain, S.
    + intros O. rewrite <- M by exact O. by reads.
  - apply saved_toggle; [|by apply saved_press]. intros l El. apply (cards_wake_only s); auto.
  - case_if; [|exact H]. destruct H as [R S M]. unfold mic_gain_event_cb. case_if; constructor; cbn -[read_sound read_mic]; try exact R.
    + intros O. rewrite <- S by exact O. by reads.
    + intros O. rewrite <- M by exact O. by reads.
    + exact S.
    + intros O. rewrite <- M by exact O. done.
  - apply saved_toggle; [|by apply saved_press]. intros l El. apply (cards_wake_only s); auto.
  - case_if; [|exact H]. destruct H as [R S M]. constructor; cbn -[read_sound read_mic]; [exact R| |].
    + intros O. rewrite <- S by exact O. by reads.
    + intros O. rewrite <- M by exact O. reads. rewrite (proj2 (Z.ltb_ge index 0)), (proj2 (Z.ltb_ge 2 index)) by lia. reflexivity.
  - unfold volume_event_cb. case_if; [|exact H]. destruct H as [R S M]. unfold apply_volume.
    case_if; constructor; cbn -[read_sound read_mic]; try exact R; intros O; [rewrite <- S by exact O|rewrite <- M by exact O|rewrite <- S by exact O|rewrite <- M by exact O]; by reads.
  - destruct H as [R S M]. unfold run_thread. by destruct (threads s !! i) as [[|c l]|]; constructor.
  - apply saved_restart.
Qed.

Lemma saved_run f events : Forall event_ok events -> Saved (run all_open f events) /\ cards_ok (run all_open f events).
Proof.
  induction events as [|e events IH] using rev_ind; intros He.
  - split; [apply saved_restart|]. unfold run, start, restart, create_control_center, apply_volume. cbn [fold_left]. case_if; by split.
  - apply Forall_app in He as [He Hx]. inversion Hx as [|? ? Hx' _]; subst. destruct (IH He) as [H1 H2].
    unfold run. rewrite fold_left_app. split; [by apply saved_step|by apply cards_step].
Qed.

(** ** The switches of the microphone screen *)

Definition dead : list string := ["/tuya/data/ha_mic_hpf"; "/tuya/data/ha_mic_mute_blank"; "/tuya/data/ha_mic_mute_tts"].

Lemma save_elsewhere opens path v s p : p ∈ dead -> path ∉ dead -> files (save opens path v s) !! p = files s !! p.
Proof. intros Hp Hn. unfold save. case_if; [|done]. cbn. apply lookup_insert_ne. congruence. Qed.

Ltac elsewhere :=
  repeat (rewrite save_elsewhere by first [assumption | (cbv [dead]; rewrite !elem_of_cons, elem_of_nil; intuition discriminate)]); done.

Lemma hardware_elsewhere opens v s p : p ∈ dead -> files (apply_hardware_volume opens v s) !! p = files s !! p.
Proof. intros Hp. unfold apply_hardware_volume. cbn -[save]. elsewhere. Qed.

Lemma sound_toggle_elsewhere opens k b s p : p ∈ dead -> files (sound_toggle_event_cb opens k b s) !! p = files s !! p.
Proof.
  intros Hp. unfold sound_toggle_event_cb. repeat case_if; try elsewhere.
  rewrite hardware_elsewhere by exact Hp. elsewhere.
Qed.

Lemma toggle_elsewhere opens screen i b s p :
  (forall l, screen = Some l -> wake_only l) -> p ∈ dead ->
  files (toggle opens screen i b s) !! p = files s !! p.
Proof.
  intros Hc Hp. unfold toggle. destruct screen as [l|]; [|done]. destruct (l !! i) as [c|] eqn:E; [|done].
  specialize (Hc l eq_refl). unfold wake_only in Hc. rewrite Forall_lookup in Hc. specialize (Hc i c E).
  destruct (callback c); [by apply sound_toggle_elsewhere|]. rewrite Hc by done. unfold mic_toggle_event_cb. change (0 =? 0) with true. cbv iota zeta. elsewhere.
Qed.

Lemma step_elsewhere opens s e p : cards_ok s -> p ∈ dead -> files (step opens s e) !! p = files s !! p.
Proof.
  intros C Hp. destruct e; cbn [step]; try (case_if; [|done]).
  - unfold create_sound_screen. by destruct (sound_screen s).
  - done.
  - unfold create_microphone_screen. by destruct (microphone_screen s).
  - done.
  - unfold sound_volume_event_cb. case_if; [by apply hardware_elsewhere|done].
  - unfold sound_gain_button_cb, apply_dac_gain. cbn -[save]. elsewhere.
  - rewrite toggle_elsewhere; [done| |exact Hp]. intros l El. apply (cards_wake_only s); auto.
  - unfold mic_gain_event_cb. case_if; [|done]. cbn -[save]. elsewhere.
  - rewrite toggle_elsewhere; [done| |exact Hp]. intros l El. apply (cards_wake_only s); auto.
  - unfold mic_sensitivity_button_cb. cbn -[save]. elsewhere.
  - unfold volume_event_cb, apply_volume. case_if; [|done]. case_if; cbn -[save]; elsewhere.
  - unfold run_thread. by destruct (threads s !! i) as [[|c l]|].
  - unfold restart, create_control_center, apply_volume. by case_if.
Qed.

Lemma cards_run opens f events : cards_ok (run opens f events).
Proof.
  induction events as [|e events IH] using rev_ind.
  - unfold run, start, restart, create_control_center, apply_volume. cbn [fold_left]. case_if; by split.
  - unfold run. rewrite fold_left_app. by apply cards_step.
Qed.

(** The switches of the filter and of the two mutes on the microphone screen were
    registered with the handler of the sound screen: in no course of events do
    their settings change, and the first one switches the alarms while it shows that
    the filter changed. *)
Theorem microphone_switches_misrouted opens f events :
  (forall p, p ∈ dead -> files (run opens f events) !! p = f !! p) /\
  (forall b, let s := run opens f (events ++ [OpenMicrophone; MicSwitch 1 b]) in
   sound_alarms_enabled (sound s) = b /\ mic s = mic (run opens f (events ++ [OpenMicrophone])) /\
   exists l c, microphone_screen s = Some l /\ l !! 1%nat = Some c /\ checked c = b).
Proof.
  split.
  - intros p Hp. induction events as [|e events IH] using rev_ind.
    + unfold run, start, restart, create_control_center, apply_volume. cbn [fold_left]. by case_if.
    + unfold run in *. rewrite fold_left_app. cbn [fold_left]. rewrite step_elsewhere; [exact IH|apply (cards_run opens f events)|exact Hp].
  - intros b s. set (s1 := run opens f (events ++ [OpenMicrophone])).
    assert (E1 : s = step opens s1 (MicSwitch 1 b)) by (unfold s, s1, run; by rewrite !fold_left_app).
    assert (O : exists l, microphone_screen s1 = Some l).
    { unfold s1, run. rewrite fold_left_app. cbn [fold_left step]. unfold create_microphone_screen.
      set (s0 := fold_left _ _ _). destruct (microphone_screen s0) as [l|] eqn:E; [by exists l|eexists; reflexivity]. }
    destruct O as [l O]. pose proof (proj2 (cards_run opens f (events ++ [OpenMicrophone])) l O) as Hl.
    destruct l as [|c0 [|c1 l]]; try discriminate. injection Hl as _ _ Hc Hs _.
    rewrite E1. cbn [step]. unfold toggle. rewrite O. cbn [lookup list_lookup]. rewrite Hc, Hs. unfold sound_toggle_event_cb, save.
    change (1 =? 0) with false. change (1 =? 1) with true. cbv iota zeta.
    destruct (opens _); (split_and!; [reflexivity..|eexists _, _; split_and!; reflexivity]).
Qed.

(** ** What the switches show *)

(** A course of events without a tap on a switch of the microphone screen that
    was registered with the wrong handler. *)
Definition routed (e : Event) : Prop := match e with MicSwitch i _ => i = 0%nat | _ => True end.

Definition sound_switches (x : Sound) : list bool :=
  [sound_quiet_enabled x; sound_alarms_enabled x; sound_ha_notifications_enabled x; sound_touch_enabled x].
Definition mic_switches (m : Mic) : list bool := [mic_wake_enabled m; mic_hpf_enabled m; mic_mute_on_blank m; mic_mute_on_tts m].

(** What the switches of a screen show. *)
Definition shown (screen : option (list SwitchCard)) : list bool := default [] (map checked <$> screen).

Record Truthful (s : State) : Prop := {
  truthful_sound : is_open (sound_screen s) = true -> shown (sound_screen s) = sound_switches (sound s);
  truthful_mic : is_open (microphone_screen s) = true -> shown (microphone_screen s) = mic_switches (mic s);
}.

(** Steps that leave the screens, and the settings of their switches, alone. *)
Lemma truthful_same s s' : sound_screen s' = sound_screen s -> microphone_screen s' = microphone_screen s ->
  sound_switches (sound s') = sound_switches (sound s) -> mic_switches (mic s') = mic_switches (mic s) -> Truthful s -> Truthful s'.
Proof. intros E1 E2 E3 E4 [H1 H2]. by constructor; rewrite ?E1, ?E2, ?E3, ?E4. Qed.

(** The state after a tap on a switch of the sound screen. *)
Lemma sound_switch_state opens s i b : cards_ok s -> is_open (sound_screen s) = true -> shown (sound_screen s) = sound_switches (sound s) ->
  let s' := step opens s (SoundSwitch i b) in
  shown (sound_screen s') = sound_switches (sound s') /\ mic s' = mic s /\ microphone_screen s' = microphone_screen s.
Proof.
  intros [C _] O H s'. unfold s'. cbn [step]. destruct (sound_screen s) as [l|] eqn:E; [|discriminate].
  specialize (C l eq_refl). destruct l as [|[y0 c0 f0 k0] [|[y1 c1 f1 k1] [|[y2 c2 f2 k2] [|[y3 c3 f3 k3] [|]]]]]; try discriminate.
  cbn in H, C. injection C as -> -> -> -> -> -> -> ->. injection H as -> -> -> ->.
  unfold toggle, sound_toggle_event_cb, apply_hardware_volume, save.
  destruct i as [|[|[|[|i]]]]; cbn; repeat case_if; by rewrite ?E.
Qed.

(** And on the switch of the wake word. *)
Lemma wake_switch_state opens s b : cards_ok s -> is_open (microphone_screen s) = true -> shown (microphone_screen s) = mic_switches (mic s) ->
  let s' := step opens s (MicSwitch 0 b) in
  shown (microphone_screen s') = mic_switches (mic s') /\ sound s' = sound s /\ sound_screen s' = sound_screen s.
Proof.
  intros [_ C] O H s'. unfold s'. cbn [step]. destruct (microphone_screen s) as [l|] eqn:E; [|discriminate].
  specialize (C l eq_refl). destruct l as [|[y0 c0 f0 k0] l]; [discriminate|].
  injection C as -> -> C. cbn in H. injection H as -> H.
  unfold toggle, mic_toggle_event_cb, save. cbn. repeat case_if; try discriminate; cbn; rewrite ?H; by split_and!.
Qed.

Lemma closed_switch opens s i b :
  (is_open (sound_screen s) = false -> step opens s (SoundSwitch i b) = s) /\
  (is_open (microphone_screen s) = false -> step opens s (MicSwitch i b) = s).
Proof. destruct s as [x m f [l|] [l2|] c t]; by split. Qed.

Lemma truthful_step opens s e : routed e -> cards_ok s -> Truthful s -> Truthful (step opens s e).
Proof.
  intros Hr C H. pose proof H as [HS HM].
  destruct e; cbn [routed] in Hr; try (cbn [step]; case_if; [|exact H]).
  - cbn [step]. unfold create_sound_screen. destruct (sound_screen s); [exact H|]. by constructor.
  - constructor; [discriminate|exact HM].
  - cbn [step]. unfold create_microphone_screen. destruct (microphone_screen s); [exact H|]. by constructor.
  - constructor; [exact HS|discriminate].
  - unfold sound_volume_event_cb, apply_hardware_volume, save. repeat case_if; by apply (truthful_same s).
  - unfold sound_gain_button_cb, apply_dac_gain, save. repeat case_if; by apply (truthful_same s).
  - destruct (is_open (sound_screen s)) eqn:O; [|by rewrite (proj1 (closed_switch opens s i enabled))].
    destruct (sound_switch_state opens s i enabled C O (HS eq_refl)) as (E1 & E2 & E3).
    constructor; [by intros _|]. by rewrite E2, E3.
  - unfold mic_gain_event_cb, save. repeat case_if; by apply (truthful_same s).
  - subst i. destruct (is_open (microphone_screen s)) eqn:O; [|by rewrite (proj2 (closed_switch opens s 0 enabled))].
    destruct (wake_switch_state opens s enabled C O (HM eq_refl)) as (E1 & E2 & E3).
    constructor; [|by intros _]. by rewrite E2, E3.
  - unfold mic_sensitivity_button_cb, save. repeat case_if; by apply (truthful_same s).
  - cbn [step]. unfold volume_event_cb, apply_volume, save. repeat case_if; by apply (truthful_same s).
  - cbn [step]. unfold run_thread. destruct (threads s !! i) as [[|c l]|]; by apply (truthful_same s).
  - cbn [step]. unfold restart, create_control_center, apply_volume. case_if; by constructor.
Qed.

Lemma truthful_run opens f events : Forall routed events -> Truthful (run opens f events).
Proof.
  induction events as [|e events IH] using rev_ind; intros He.
  - unfold run, start, restart, create_control_center, apply_volume. cbn [fold_left]. case_if; by constructor.
  - apply Forall_app in He as [He Hx]. inversion Hx as [|? ? Hx' _]; subst.
    unfold run. rewrite fold_left_app. apply truthful_step; [exact Hx'|apply (cards_run opens f events)|by apply IH].
Qed.

(** The panel is started again, and both screens are opened. *)
Definition reopened (opens : string -> bool) (s : State) : State := fold_left (step opens) [Restart; OpenSound; OpenMicrophone] s.

Lemma reopened_state opens s : let r := reopened opens s in
  sound r = read_sound (files s) /\ mic r = read_mic (files s) /\
  shown (sound_screen r) = sound_switches (read_sound (files s)) /\ shown (microphone_screen r) = mic_switches (read_mic (files s)).
Proof. unfold reopened, fold_left, step, restart, create_control_center, apply_volume. case_if; by split_and!. Qed.

(** C36. The settings of the sound and microphone screens survive, when the files
    can be opened for writing: while a screen is open, after any course of events
    of its widgets, a restart of the panel and a reopening give the settings it has
    in memory now, and a gain of the microphone from the moment its slider is
    released. And when no switch of the microphone screen but the one of the wake
    word was used, the switches show again what they show now. The others change
    settings of the sound screen ([microphone_switches_misrouted]), and a file that
    cannot be opened keeps the old value ([unopened_setting_lost]). *)
Theorem audio_settings_persist f events :
  Forall event_ok events ->
  let s := run all_open f events in
  let r := reopened all_open s in
  (is_open (sound_screen s) = true ->
   sound r = sound s /\ (Forall routed events -> shown (sound_screen r) = shown (sound_screen s))) /\
  (is_open (microphone_screen s) = true ->
   with_gain (mic_gain_percent (mic s)) (mic r) = mic s /\
   (Forall routed events -> shown (microphone_screen r) = shown (microphone_screen s)) /\
   forall g, 10 <= g <= 100 -> let s' := step all_open s (MicGain g true) in
   mic_gain_percent (mic s') = g /\ mic (reopened all_open s') = mic s').
Proof.
  intros He s r. destruct (saved_run f events He) as [[_ S M] _]. fold s in S, M.
  destruct (reopened_state all_open s) as (R1 & R2 & R3 & R4). fold r in R1, R2, R3, R4.
  rewrite R1, R2, R3, R4. split; intros O.
  - rewrite (S O). split; [reflexivity|]. intros Hr. symmetry. by apply truthful_run.
  - split; [by apply M|]. split.
    + intros Hr. transitivity (mic_switches (mic s)); [by rewrite <- (M O)|]. symmetry. by apply truthful_run.
    + intros g Hg s'. destruct (reopened_state all_open s') as (_ & -> & _). unfold s'. cbn [step]. rewrite O.
      unfold mic_gain_event_cb. cbn -[read_mic]. split; [reflexivity|]. rewrite <- (M O). reads. reflexivity.
Qed.

Definition sample_events : list Event :=
  [OpenSound; GainButton 3; SoundSwitch 2 false; CloseSound; OpenMicrophone; Sensitivity 2; MicSwitch 0 false].

Lemma audio_settings_persist_witness :
  let s := run all_open ∅ sample_events in
  shown (microphone_screen s) = [false; true; true; true] /\ shown (microphone_screen (reopened all_open s)) = shown (microphone_screen s).
Proof.
  split; [vm_compute; reflexivity|].
  refine (proj1 (proj2 (proj2 (audio_settings_persist ∅ sample_events _) _)) _);
    [repeat constructor; discriminate|vm_compute; reflexivity|repeat constructor].
Defined.

(** A file that cannot be opened keeps its value: the switch of the alarms shows
    off, and after a restart on again. *)
Theorem unopened_setting_lost :
  let s := run (fun _ => false) ∅ [OpenSound; SoundSwitch 1 false] in
  shown (sound_screen s) !! 1%nat = Some false /\ sound_alarms_enabled (sound s) = false /\
  sound_alarms_enabled (sound (reopened all_open s)) = true.
Proof. vm_compute. repeat split; reflexivity. Qed.

(** ** The mixer *)

(** The last volume that was given to the speaker. *)
Definition speaker_of (c : Amixer) : option Z := match c with Sset Speaker v => Some v | _ => None end.
Definition last_speaker (l : list Amixer) : option Z := last (omap speaker_of l).

(** What ran and what the threads have left, one after the other. *)
Definition given (s : State) : list Amixer := commands s ++ concat (threads s).

(** The threads run in the order they were started. *)
Definition in_order (e : Event) : Prop :=
  match e with RunThread i => i = 0%nat | Restart => False | _ => True end.

Definition Spoken (s : State) : Prop :=
  forall v, last_speaker (given s) = Some v -> sound_volume_percent (sound s) = v /\ read "/tuya/data/ha_sound_volume" 75 (files s) = v.

Lemma last_speaker_quiet a l b : omap speaker_of l = [] -> last_speaker (a ++ l ++ b) = last_speaker (a ++ b).
Proof. intros H. unfold last_speaker. by rewrite !omap_app, H. Qed.

(** A handler that neither speaks to the mixer's volume nor changes it. *)
Lemma spoken_same s s' :
  Spoken s -> last_speaker (given s') = last_speaker (given s) -> sound_volume_percent (sound s') = sound_volume_percent (sound s) ->
  read "/tuya/data/ha_sound_volume" 75 (files s') = read "/tuya/data/ha_sound_volume" 75 (files s) -> Spoken s'.
Proof. intros H E1 E2 E3 v Hv. rewrite E2, E3. apply H. by rewrite <- E1. Qed.

Lemma spoken_volume percent s : - 2 ^ 31 <= percent < 2 ^ 31 -> Spoken (apply_hardware_volume all_open percent s).
Proof.
  intros Hp v. unfold apply_hardware_volume, given, last_speaker. cbn -[read].
  rewrite concat_app, app_assoc, omap_app. cbn [concat app omap list_omap speaker_of]. rewrite last_snoc. intros [= <-].
  split; [reflexivity|]. by rewrite read_saved_same.
Qed.

Lemma spoken_toggle screen i b s : Saved s -> Spoken s -> Spoken (toggle all_open screen i b s).
Proof.
  intros Hs H. unfold toggle. destruct screen as [l|]; [|exact H]. destruct (l !! i) as [c|]; [|exact H].
  destruct (callback c).
  - unfold sound_toggle_event_cb. repeat case_if; try exact H; [by apply spoken_volume, Hs|..];
      apply (spoken_same s); try reflexivity; try exact H; cbn -[read]; by reads.
  - unfold mic_toggle_event_cb. repeat case_if; try exact H; apply (spoken_same s); try reflexivity; try exact H; cbn -[read]; by reads.
Qed.

Lemma spoken_system l s s' : commands s' = commands s ++ l -> threads s' = threads s -> omap speaker_of l = [] ->
  last_speaker (given s') = last_speaker (given s).
Proof. intros Ec Et Hl. unfold given. rewrite Ec, Et, <- app_assoc. by apply last_speaker_quiet. Qed.

Lemma spoken_step s e : event_ok e -> in_order e -> Saved s -> Spoken s -> Spoken (step all_open s e).
Proof.
  intros He Ho Hs H. destruct e; cbn [step event_ok in_order] in *; try (case_if; [|exact H]); try done.
  - unfold create_sound_screen. destruct (sound_screen s); [exact H|]. intros v Hv. destruct (H v Hv) as [_ Hr]. split; exact Hr.
  - unfold create_microphone_screen. by destruct (microphone_screen s).
  - unfold sound_volume_event_cb. case_if; [|exact H]. apply spoken_volume. lia.
  - unfold sound_gain_button_cb, apply_dac_gain. cbv zeta. apply (spoken_same s); [exact H|eapply spoken_system; reflexivity|reflexivity|cbn -[read]; by reads].
  - apply spoken_toggle; [by apply saved_press|exact H].
  - unfold mic_gain_event_cb. case_if; apply (spoken_same s); try exact H; try reflexivity; [eapply spoken_system; reflexivity|cbn -[read]; by reads].
  - apply spoken_toggle; [by apply saved_press|exact H].
  - apply (spoken_same s); try exact H; try reflexivity. cbn -[read]. by reads.
  - unfold volume_event_cb, apply_volume. case_if; [|exact H].
    case_if; (apply (spoken_same s); [exact H|eapply spoken_system; reflexivity|reflexivity|cbn -[read]; by reads]).
  - subst i. unfold run_thread. destruct (threads s) as [|[|c l] ts] eqn:Et; cbn [lookup list_lookup]; try exact H.
    apply (spoken_same s); try exact H; try reflexivity. unfold given. cbn [commands threads]. rewrite Et. f_equal.
    destruct l; cbn; by rewrite <- app_assoc.
Qed.

(** Without a restart, and when the threads run in the order they were started,
    the speaker has the volume the screen shows once they are done. *)
Theorem volume_reaches_mixer f events :
  Forall event_ok events -> Forall in_order events ->
  let s := run all_open f events in
  threads s = [] -> forall v, last_speaker (commands s) = Some v -> sound_volume_percent (sound s) = v.
Proof.
  intros He Ho s Ht. assert (H : Spoken s).
  { unfold s. clear Ht s. induction events as [|e events IH] using rev_ind.
    - intros v. unfold run, start, restart, create_control_center, apply_volume. cbn [fold_left]. by case_if.
    - apply Forall_app in He as [He He']. apply Forall_app in Ho as [Ho Ho']. inversion He'; inversion Ho'; subst.
      unfold run. rewrite fold_left_app. apply spoken_step; try assumption; [apply (saved_run f events He)|by apply IH]. }
  intros v Hv. apply (H v). unfold given. by rewrite Ht, app_nil_r.
Qed.

(** Two changes of the volume in a row leave two threads; when the second runs
    first, the speaker keeps the older volume. *)
Theorem volume_race :
  let s := run all_open ∅ ([OpenSound; SoundVolume 30 true; SoundVolume 80 true] ++ repeat (RunThread 1) 4 ++ repeat (RunThread 0) 4) in
  threads s = [] /\ sound_volume_percent (sound s) = 80 /\ last_speaker (commands s) = Some 30.
Proof. vm_compute. repeat split; reflexivity. Qed.

(** The volume of the control center turns the speaker on in the quiet mode, and
    a start does so too. *)
Theorem quiet_mode_lost :
  let s := run all_open ∅ [OpenSound; SoundSwitch 0 true; RunThread 0; RunThread 0; RunThread 0; RunThread 0] in
  last (commands s) = Some (Cset (Numid 35) 2) /\ In (Switch (Numid 43) false) (commands s) /\
  (forall e, e = Volume 50 true \/ e = Restart ->
   exists l, commands (step all_open s e) = commands s ++ Switch (Numid 43) true :: l /\ sound_quiet_enabled (read_sound (files (step all_open s e))) = true).
Proof.
  cbv zeta. split; [vm_compute; reflexivity|]. split; [vm_compute; tauto|].
  intros e [-> | ->]; eexists; split; vm_compute; reflexivity.
Qed.

End AudioSettings.
