(* ===== verification/Ota.v ===== *)
(** The update over the air (main.cpp: [parse_github_asset_url],
    [check_github_release], [perform_github_ota]).  The release document is
    searched with the JSON text functions; the installation is a sequence of
    operations on the files of /tuya/data, whose every intermediate state is
    kept, so that a power cut anywhere can be looked at.  What curl and the
    system calls do is a parameter.  Progress bars and labels are not modelled. *)
From S2P Require Import Prelude CString JsonDoc PanelJson.
From stdpp Require Import list gmap.
#[local] Open Scope Z_scope.

Module Ota.

(** ** The release *)

Record ReleaseInfo := mkRelease {
  tag_name : bytes;
  ha_panel_url : bytes; ha_panel_size : Z;
  mww_worker_url : bytes; mww_worker_size : Z;
  model_url : bytes; model_size : Z;
}.

Definition no_release : ReleaseInfo := mkRelease [] [] 0 [] 0 [] 0.

(** The URL, and [*size_out], which keeps [size] when nothing is found. *)
Definition parse_github_asset_url (json asset_name : bytes) (size : Z) : bytes * Z :=
  let name_pos := str_find json (dq "'name':'" ++ asset_name ++ dq "'") 0 in
  let name_pos :=
    match name_pos with
    | None => str_find json (dq "'name': '" ++ asset_name ++ dq "'") 0
    | Some p => Some p
    end in
  match name_pos with
  | None => ([], size)
  | Some name_pos =>
      match str_find json (marker (str "browser_download_url")) name_pos with
      | None => ([], size)
      | Some url_pos =>
          let url := parse_json_value (substr_from json url_pos) (str "browser_download_url") in
          (url, match str_find json (marker (str "size")) name_pos with
                | Some size_pos => parse_json_int_value (substr_from json size_pos) (str "size")
                | None => size
                end)
      end
  end.

Definition release_url (tag file : bytes) : bytes :=
  str "https://github.com/GwiezdnySzeryf/HA-LVGL/releases/download/" ++ tag ++ str "/" ++ file.

(** [fetched] is the content of /tmp/latest_release.json, if it opens. *)
Definition check_github_release (fetched : option bytes) (info : ReleaseInfo) : ReleaseInfo * bool :=
  match fetched with
  | None => (info, false)
  | Some json =>
      let tag := parse_json_value json (str "tag_name") in
      if is_empty tag then
        (mkRelease tag (ha_panel_url info) (ha_panel_size info) (mww_worker_url info) (mww_worker_size info)
           (model_url info) (model_size info), false)
      else
        let '(url, size) := parse_github_asset_url json (str "ha_panel") (ha_panel_size info) in
        let '(url, size) :=
          if is_empty url
          then (parse_json_value json (str "browser_download_url"), parse_json_int_value json (str "size"))
          else (url, size) in
        let size := if size =? 0 then 3280000 else size in
        let '(worker_url, worker_size) := parse_github_asset_url json (str "mww_worker") (mww_worker_size info) in
        let '(worker_url, worker_size) :=
          if is_empty worker_url then (release_url tag (str "mww_worker"), 1253552) else (worker_url, worker_size) in
        let '(m_url, m_size) := parse_github_asset_url json (str "okay_nabu_v2.tflite") (model_size info) in
        let '(m_url, m_size) :=
          if is_empty m_url then (release_url tag (str "okay_nabu_v2.tflite"), 60264) else (m_url, m_size) in
        (mkRelease tag url size worker_url worker_size m_url m_size, negb (is_empty url))
  end.

(** ** The files *)

Inductive Path := HaPanel | HaPanelTmp | HaPanelOld | MwwWorker | MwwWorkerTmp | Model | ModelTmp.

#[export] Instance path_eq_dec : EqDecision Path.
Proof. solve_decision. Defined.

Definition path_number (p : Path) : nat :=
  match p with
  | HaPanel => 0 | HaPanelTmp => 1 | HaPanelOld => 2 | MwwWorker => 3 | MwwWorkerTmp => 4 | Model => 5 | ModelTmp => 6
  end%nat.

#[export] Instance path_countable : Countable Path.
Proof.
  refine (inj_countable path_number
    (fun n => nth_error [HaPanel; HaPanelTmp; HaPanelOld; MwwWorker; MwwWorkerTmp; Model; ModelTmp] n) _).
  by intros [].
Defined.

Abbreviation Disk := (gmap Path bytes).

Definition put (p : Path) (c : option bytes) (d : Disk) : Disk :=
  match c with Some c => <[p:=c]> d | None => delete p d end.

(** [rename]: it fails when the source is missing, or for another reason. *)
Definition rename (works : bool) (a b : Path) (d : Disk) : Disk * bool :=
  match d !! a with
  | Some c => if works then (<[b:=c]> (delete a d), true) else (d, false)
  | None => (d, false)
  end.

(** ** The installation *)

(** What the rest of the world does: the release document; at each turn of the
    waiting loop the content of ha_panel.tmp and whether curl still runs; the
    content of ha_panel.tmp when it is installed; for the two other downloads
    the success of curl and what it leaves; and the outcomes of the renames. *)
Record World := mkWorld {
  fetched : option bytes;
  turns : list (option bytes * bool);
  arrived : option bytes;
  worker_exit : bool; worker_file : option bytes; worker_rename : bool;
  model_exit : bool; model_file : option bytes; model_rename : bool;
  backup_works : bool; replace_works : bool; restore_works : bool;
}.

(** [(off_t) expected] *)
Definition off_t (z : Z) : Z := (u64 z + 2 ^ 63) mod 2 ^ 64 - 2 ^ 63.

(** The waiting loop; it ends by itself after a minute, at most 600 turns. *)
Fixpoint wait_download (turns : list (option bytes * bool)) (expected : Z) (states : list Disk) (d : Disk) : list Disk * Disk :=
  match turns with
  | [] => (states, d)
  | (content, curl_runs) :: turns =>
      let d := put HaPanelTmp content d in
      let states := d :: states in
      match content with
      | Some c => if (off_t expected <=? zlen c) && negb curl_runs then (states, d) else wait_download turns expected states d
      | None => wait_download turns expected states d
      end
  end.

(** The two smaller downloads: [exit] and [content] are curl's. *)
Definition download (exit : bool) (content : option bytes) (works : bool) (tmp final : Path) (s : list Disk * Disk) : list Disk * Disk :=
  let '(states, d) := s in
  let d := put tmp content d in
  let states := d :: states in
  if exit && (match d !! tmp with Some _ => true | None => false end) then
    let d := fst (rename works tmp final d) in (d :: states, d)
  else (states, d).

Definition fetch_worker (w : World) (info : ReleaseInfo) (s : list Disk * Disk) : list Disk * Disk :=
  if is_empty (mww_worker_url info) then s
  else download (worker_exit w) (worker_file w) (worker_rename w) MwwWorkerTmp MwwWorker s.

Definition fetch_model (w : World) (info : ReleaseInfo) (s : list Disk * Disk) : list Disk * Disk :=
  if is_empty (model_url info) then s
  else download (model_exit w) (model_file w) (model_rename w) ModelTmp Model s.

(** All states of the disk, the newest first, and the result. *)
Definition perform_github_ota (w : World) (info : ReleaseInfo) (d : Disk) : ReleaseInfo * list Disk * bool :=
  let '(info, ok) := if is_empty (ha_panel_url info) then check_github_release (fetched w) info else (info, true) in
  if negb ok then (info, [d], false)
  else
    let d0 := delete HaPanelTmp d in
    let expected := if 0 <? ha_panel_size info then ha_panel_size info else 3280000 in
    let '(states, d) := wait_download (turns w) expected [d0; d] d0 in
    if match d !! HaPanelTmp with Some _ => false | None => true end then (info, states, false)
    else
      let '(states, d) := fetch_model w info (fetch_worker w info (states, d)) in
      let d := put HaPanelTmp (arrived w) d in
      let states := d :: states in
      let d := fst (rename (backup_works w) HaPanel HaPanelOld d) in
      let states := d :: states in
      let '(d, replaced) := rename (replace_works w) HaPanelTmp HaPanel d in
      if negb replaced then
        let d := fst (rename (restore_works w) HaPanelOld HaPanel d) in (info, d :: states, false)
      else (info, d :: states, true).

(** ** The binary stays recoverable *)

Section Install.
Context (w : World) (d0 : Disk) (old : bytes).

(** The downloads so far: the binary is untouched, and the detector and its
    model are the old ones or what a successful curl left. *)
Record Kept (s : Disk) : Prop := mkKept {
  kept_panel : s !! HaPanel = Some old;
  kept_backup : s !! HaPanelOld = None;
  kept_worker : s !! MwwWorker = d0 !! MwwWorker \/ (worker_exit w = true /\ s !! MwwWorker = worker_file w);
  kept_model : s !! Model = d0 !! Model \/ (model_exit w = true /\ s !! Model = model_file w);
}.

Lemma put_other p q c (s : Disk) : p <> q -> put p c s !! q = s !! q.
Proof. intros H. destruct c; cbn [put]; [by apply lookup_insert_ne|by apply lookup_delete_ne]. Qed.

Lemma put_same p c (s : Disk) : put p c s !! p = c.
Proof. destruct c; cbn [put]; [apply lookup_insert_eq|apply lookup_delete_eq]. Qed.

(** A rename changes its two paths. *)
Lemma rename_other works a b q (s : Disk) : q <> a -> q <> b -> fst (rename works a b s) !! q = s !! q.
Proof.
  intros Ha Hb. unfold rename. destruct (s !! a); [|done]. destruct works; [|done]. cbn [fst].
  rewrite lookup_insert_ne, lookup_delete_ne by congruence. done.
Qed.

Lemma rename_target works a b (s : Disk) :
  a <> b -> (let '(s', ok) := rename works a b s in
             if ok then s' !! b = s !! a /\ s' !! a = None /\ s !! a <> None else s' = s).
Proof.
  intros N. unfold rename. destruct (s !! a) eqn:E; [|done]. destruct works; [|done].
  rewrite lookup_insert_eq, lookup_insert_ne, lookup_delete_eq by congruence. done.
Qed.

Lemma put_tmp_kept c (s : Disk) : Kept s -> Kept (put HaPanelTmp c s).
Proof. intros []. constructor; rewrite !put_other by discriminate; done. Qed.

Lemma wait_kept ts expected : forall states s,
  Forall Kept states -> Kept s ->
  Forall Kept (fst (wait_download ts expected (s :: states) s)) /\ Kept (snd (wait_download ts expected (s :: states) s)) /\
  fst (wait_download ts expected (s :: states) s) <> [].
Proof.
  induction ts as [|[c r] ts IH]; intros states s Hs H; cbn [wait_download fst snd]; [by split; [constructor|]|].
  pose proof (put_tmp_kept c s H) as Hc. assert (Hcs : Forall Kept (s :: states)) by by constructor.
  destruct c as [c|]; [|by apply IH]. case_if; [|by apply IH]. cbn [fst snd]. by split; [constructor|].
Qed.

(** The download of the detector or of the model, one of which is [final]. *)
Lemma download_kept exit c works tmp final states s :
  (tmp = MwwWorkerTmp /\ final = MwwWorker /\ exit = worker_exit w /\ c = worker_file w) \/
  (tmp = ModelTmp /\ final = Model /\ exit = model_exit w /\ c = model_file w) ->
  Forall Kept states -> Kept s ->
  Forall Kept (fst (download exit c works tmp final (states, s))) /\ Kept (snd (download exit c works tmp final (states, s))).
Proof.
  intros Hf Hs H. pose proof H as []. unfold download.
  assert (Hp : Kept (put tmp c s)).
  { destruct Hf as [(-> & -> & _)|(-> & -> & _)]; constructor; rewrite !put_other by discriminate; done. }
  case_if; cbn [fst snd]; [|split; [by constructor|exact Hp]]. apply andb_true_iff in E as [Ex _].
  assert (Hr : Kept (fst (rename works tmp final (put tmp c s)))); [|split; [apply Forall_cons; split; [exact Hr|by constructor]|exact Hr]].
  assert (T : tmp <> final) by (destruct Hf as [(-> & -> & _)|(-> & -> & _)]; discriminate).
  pose proof (rename_target works tmp final (put tmp c s) T) as R.
  pose proof (fun q => rename_other works tmp final q (put tmp c s)) as O.
  destruct (rename works tmp final (put tmp c s)) as [s' []]; [|cbn [fst]; by subst s']. cbn [fst] in *. destruct R as (R & _ & _).
  rewrite put_same in R. destruct Hp as [P1 P0 P2 P3].
  destruct Hf as [(-> & -> & -> & ->)|(-> & -> & -> & ->)]; constructor; rewrite ?R; auto; rewrite O by discriminate; auto.
Qed.

Lemma fetches_kept info states s :
  Forall Kept states -> Kept s ->
  let r := fetch_model w info (fetch_worker w info (states, s)) in Forall Kept (fst r) /\ Kept (snd r).
Proof.
  intros Hs H. cbv zeta.
  assert (K1 : Forall Kept (fst (fetch_worker w info (states, s))) /\ Kept (snd (fetch_worker w info (states, s)))).
  { unfold fetch_worker. case_if; [done|]. apply download_kept; auto. }
  destruct (fetch_worker w info (states, s)) as [st1 s1]. cbn [fst snd] in K1. destruct K1.
  unfold fetch_model. case_if; [done|]. apply download_kept; auto.
Qed.

(** At every moment the old binary is in place, or the new one, or the old one
    is in its backup. *)
Definition recoverable (s : Disk) : Prop :=
  s !! HaPanel = Some old \/ (arrived w <> None /\ s !! HaPanel = arrived w) \/
  (s !! HaPanel = None /\ s !! HaPanelOld = Some old).

Definition assets_ok (s : Disk) : Prop :=
  (s !! MwwWorker = d0 !! MwwWorker \/ (worker_exit w = true /\ s !! MwwWorker = worker_file w)) /\
  (s !! Model = d0 !! Model \/ (model_exit w = true /\ s !! Model = model_file w)).

Lemma kept_recoverable s : Kept s -> recoverable s /\ assets_ok s.
Proof. intros []. split; [by left|done]. Qed.

(** A step that leaves the detector and the model alone. *)
Lemma assets_same s s' : assets_ok s -> s' !! MwwWorker = s !! MwwWorker -> s' !! Model = s !! Model -> assets_ok s'.
Proof. unfold assets_ok. by intros H -> ->. Qed.

(** The states of the last part, from [put HaPanelTmp (arrived w)] on. *)
Lemma backup_facts s :
  Kept s ->
  let s1 := put HaPanelTmp (arrived w) s in
  let s2 := fst (rename (backup_works w) HaPanel HaPanelOld s1) in
  s2 !! HaPanelTmp = arrived w /\ assets_ok s2 /\
  ((s2 !! HaPanel = Some old /\ s2 !! HaPanelOld = None) \/ (s2 !! HaPanel = None /\ s2 !! HaPanelOld = Some old)).
Proof.
  intros H s1 s2. destruct (put_tmp_kept (arrived w) s H) as [P1 P0 P2 P3]. fold s1 in P1, P0, P2, P3.
  split; [unfold s2; rewrite rename_other by discriminate; apply put_same|].
  split; [apply (assets_same s1); [done|unfold s2; by apply rename_other..]|].
  pose proof (rename_target (backup_works w) HaPanel HaPanelOld s1 ltac:(discriminate)) as R. unfold s2.
  destruct (rename (backup_works w) HaPanel HaPanelOld s1) as [s' []]; cbn [fst]; [|subst s'; by left].
  destruct R as (Ro & Rp & _). right. rewrite Ro. done.
Qed.

Lemma replace_facts s2 :
  s2 !! HaPanelTmp = arrived w -> assets_ok s2 ->
  (s2 !! HaPanel = Some old /\ s2 !! HaPanelOld = None) \/ (s2 !! HaPanel = None /\ s2 !! HaPanelOld = Some old) ->
  let '(s3, replaced) := rename (replace_works w) HaPanelTmp HaPanel s2 in
  if replaced then assets_ok s3 /\ arrived w <> None /\ s3 !! HaPanel = arrived w
  else
    let s4 := fst (rename (restore_works w) HaPanelOld HaPanel s3) in
    assets_ok s4 /\ recoverable s4 /\ (restore_works w = true -> s4 !! HaPanel = Some old).
Proof.
  intros Ht Ha Hp. pose proof (rename_target (replace_works w) HaPanelTmp HaPanel s2 ltac:(discriminate)) as R.
  pose proof (fun q => rename_other (replace_works w) HaPanelTmp HaPanel q s2) as O.
  destruct (rename (replace_works w) HaPanelTmp HaPanel s2) as [s3 []]; cbn [fst] in O.
  - destruct R as (Rp & _ & Rn). rewrite Ht in Rp, Rn. split; [|done]. by apply (assets_same s2); [|apply O..].
  - subst s3. cbn zeta. split; [apply (assets_same s2); [done|by apply rename_other..]|].
    pose proof (rename_target (restore_works w) HaPanelOld HaPanel s2 ltac:(discriminate)) as R.
    destruct (rename (restore_works w) HaPanelOld HaPanel s2) as [s4 ok] eqn:E. cbn [fst]. destruct ok.
    + destruct R as (Rp & _ & Rn). destruct Hp as [[Hp Ho]|[Hp Ho]]; [congruence|]. unfold recoverable. rewrite Rp, Ho. auto.
    + subst s4. split; [destruct Hp as [[Hp _]|Hp]; [by left|by right; right]|].
      intros Hw. destruct Hp as [[Hp _]|[_ Hp]]; [exact Hp|]. unfold rename in E. rewrite Hp, Hw in E. discriminate.
Qed.
End Install.

(** ** Properties *)

(** C26. Wherever the power is cut during an update, the old binary is in place,
    or what was downloaded, or the old binary is in its backup; the detector
    and its model are the old ones or what a successful download left.  The
    update reports success only with the download in place, and after a failure
    the old binary is in place again if it can be moved back. *)
Theorem ota_recoverable w info d old :
  d !! HaPanel = Some old -> d !! HaPanelOld = None ->
  let '(_, states, ok) := perform_github_ota w info d in
  Forall (fun s => recoverable w old s /\ assets_ok w d s) states /\
  exists final, head states = Some final /\
    if ok then arrived w <> None /\ final !! HaPanel = arrived w
    else restore_works w = true -> final !! HaPanel = Some old.
Proof.
  intros Ho Hb. unfold perform_github_ota.
  destruct (if is_empty (ha_panel_url info) then check_github_release (fetched w) info else (info, true)) as [info' ok].
  assert (K : Kept w d old d) by (constructor; auto).
  assert (All : forall l, Forall (Kept w d old) l -> Forall (fun s => recoverable w old s /\ assets_ok w d s) l).
  { intros l H. eapply Forall_impl; [exact H|]. apply kept_recoverable. }
  destruct ok; cbn [negb]; [|split; [apply All; by constructor|by exists d]].
  cbv zeta. set (expected := if 0 <? ha_panel_size info' then ha_panel_size info' else 3280000).
  destruct (wait_kept w d old (turns w) expected [d] (delete HaPanelTmp d)) as (Ks & Kd & Kn);
    [by constructor|exact (put_tmp_kept w d old None d K)|].
  destruct (wait_download _ _ _ _) as [st s]. cbn [fst snd] in Ks, Kd, Kn.
  case_if.
  { split; [by apply All|]. destruct st as [|x st]; [done|]. exists x. split; [done|].
    apply Forall_cons in Ks as [[] _]. done. }
  destruct (fetches_kept w d old info' st s Ks Kd) as [Kst Ku]. destruct (fetch_model _ _ _) as [st2 u].
  cbn [fst snd] in Kst, Ku.
  destruct (backup_facts w d old u Ku) as (Ht & Ha & Hp). cbv zeta in *.
  pose proof (replace_facts w d old _ Ht Ha Hp) as R.
  assert (Rest : Forall (fun s => recoverable w old s /\ assets_ok w d s)
    (fst (rename (backup_works w) HaPanel HaPanelOld (put HaPanelTmp (arrived w) u)) :: put HaPanelTmp (arrived w) u :: st2)).
  { apply Forall_cons. split; [split; [destruct Hp as [[? _]|?]; [by left|by right; right]|exact Ha]|].
    apply All. constructor; [by apply put_tmp_kept|exact Kst]. }
  destruct (rename (replace_works w) HaPanelTmp HaPanel _) as [u3 []]; cbn [negb].
  - destruct R as (Ra & Rn & Rp). split; [constructor; [|exact Rest]; split; [by right; left|exact Ra]|by exists u3].
  - destruct R as (Ra & Rr & Rf). split; [constructor; [done|exact Rest]|]. eexists. split; [reflexivity|exact Rf].
Qed.

Definition sample_release : ReleaseInfo :=
  mkRelease (str "v1.9.12") (str "https://x/ha_panel") 4 (str "https://x/mww_worker") 2 [] 0.

(** The download takes three turns; the new binary cannot be moved in place. *)
Definition sample_world : World :=
  mkWorld None [(None, true); (Some [1; 2], true); (Some [1; 2; 3; 4], false)] (Some [1; 2; 3; 4])
    true (Some [7]) true false None true true false true.

Definition sample_disk : Disk := {[HaPanel := [9]; MwwWorker := [8]]}.

Lemma ota_recoverable_witness :
  let '(_, states, ok) := perform_github_ota sample_world sample_release sample_disk in
  ok = false /\ length states = 10%nat /\
  Forall (fun s => recoverable sample_world [9] s /\ assets_ok sample_world sample_disk s) states.
Proof.
  pose proof (ota_recoverable sample_world sample_release sample_disk [9] eq_refl eq_refl) as H.
  assert (E : (let '(_, states, ok) := perform_github_ota sample_world sample_release sample_disk in
               ok = false /\ length states = 10%nat)) by (vm_compute; done).
  destruct (perform_github_ota sample_world sample_release sample_disk) as [[i states] ok].
  destruct E as [E1 E2], H as [H _]. done.
Defined.

(** The waiting loop gives up after a minute, but curl may run for two: the
    part that has arrived by then is installed, and reported as a success. *)
Theorem slow_download_installed :
  let w := mkWorld None (replicate 600 (Some [1; 2], true)) (Some [1; 2; 3]) true None true true None true true true true in
  let '(_, states, ok) := perform_github_ota w sample_release sample_disk in
  ok = true /\ exists s, head states = Some s /\ s !! HaPanel = Some [1; 2; 3] /\
    zlen [1; 2; 3] < ha_panel_size sample_release.
Proof.
  vm_compute. split; [done|]. eexists. done.
Qed.

(** ** The release document *)

(** [rest] begins at the first place of [pre ++ rest] where [pat] is found. *)
Definition first_at (pat pre rest : bytes) : Prop := cut pat (pre ++ rest) = Some rest.

Lemma str_find_first pat json pos pre rest :
  (pos <= length json)%nat -> drop pos json = pre ++ rest -> first_at pat pre rest ->
  exists k, str_find json pat pos = Some k /\ drop k json = rest /\ (pos <= k <= length json)%nat.
Proof. intros Hp Hd F. by apply (str_find_at json pat pos (pre ++ rest)). Qed.

(** In a release document, the URL and the size of an asset are read from
    the members that follow its name, whatever comes before, between and after
    them, and whichever of the two comes first. *)
Theorem asset_found asset name_text pre mid tail mid' tail' url n rest rest' old_size :
  name_text = dq "'name':'" ++ asset ++ dq "'" \/
  (name_text = dq "'name': '" ++ asset ++ dq "'" /\
   cut (dq "'name':'" ++ asset ++ dq "'") (pre ++ name_text ++ mid ++ tail) = None) ->
  let json := pre ++ name_text ++ mid ++ tail in
  first_at name_text pre (name_text ++ mid ++ tail) ->
  first_at (marker (str "browser_download_url")) (name_text ++ mid) tail ->
  tail = marker (str "browser_download_url") ++ [58] ++ val_text json_escape_char (JStr url) ++ rest ->
  bytes_ok url ->
  first_at (marker (str "size")) (name_text ++ mid') tail' -> mid ++ tail = mid' ++ tail' ->
  tail' = marker (str "size") ++ [58] ++ to_string n ++ rest' ->
  0 <= n < 2 ^ 63 -> stops_digits rest' ->
  parse_github_asset_url json asset old_size = (url, n).
Proof.
  intros Hname json Fn Fu Et Hu Fs Em Es Hn Hr. unfold parse_github_asset_url.
  destruct (str_find_first name_text json 0 pre (name_text ++ mid ++ tail)) as (np & E1 & D1 & B1); [lia|done|done|].
  assert (E0 : (match str_find json (dq "'name':'" ++ asset ++ dq "'") 0 with
                | None => str_find json (dq "'name': '" ++ asset ++ dq "'") 0 | Some p => Some p end) = Some np).
  { destruct Hname as [->|[-> Hn0]]; [by rewrite E1|].
    assert (X : str_find json (dq "'name':'" ++ asset ++ dq "'") 0 = None).
    { pose proof (str_find_cut json (dq "'name':'" ++ asset ++ dq "'") 0 ltac:(lia)) as X. rewrite drop_0 in X.
      assert (Hn1 : cut (dq "'name':'" ++ asset ++ dq "'") json = None) by exact Hn0. rewrite Hn1 in X.
      apply fmap_None in X. exact X. }
    by rewrite X. }
  rewrite E0.
  destruct (str_find_first (marker (str "browser_download_url")) json np (name_text ++ mid) tail) as (up & E2 & D2 & B2);
    [lia|by rewrite D1, app_assoc|done|].
  destruct (str_find_first (marker (str "size")) json np (name_text ++ mid') tail') as (sp & E3 & D3 & B3);
    [lia|by rewrite D1, Em, app_assoc|done|].
  rewrite E2, E3. unfold substr_from. rewrite D2, D3. f_equal.
  - apply (parse_value_at tail (str "browser_download_url") [] rest eq_refl (List.Forall_nil _) url); [|exact Hu].
    subst tail. apply cut_here, prefixb_app.
  - apply (parse_int_at tail' (str "size") [] rest' eq_refl (List.Forall_nil _) n); [|exact Hn|exact Hr].
    subst tail'. apply cut_here, prefixb_app.
Qed.

Lemma asset_found_witness :
  let pre := dq "{'url':'u','tag_name':'v1.9.12','assets':[{'id':1," in
  let name_text := dq "'name':'ha_panel'" in
  let mid' := dq ",'label':'','state':'uploaded'," in
  let rest' := dq ",'download_count':4,'browser_download_url':'https://x/ha_panel'},{'name':'mww_worker','size':1,'browser_download_url':'https://x/w'}]}" in
  let tail' := marker (str "size") ++ [58] ++ to_string 3280512 ++ rest' in
  parse_github_asset_url (pre ++ name_text ++ mid' ++ tail') (str "ha_panel") 0 = (str "https://x/ha_panel", 3280512).
Proof.
  intros pre name_text mid' rest' tail'.
  set (mid := dq ",'label':'','state':'uploaded','size':3280512,'download_count':4,").
  set (rest := dq "},{'name':'mww_worker','size':1,'browser_download_url':'https://x/w'}]}").
  set (tail := marker (str "browser_download_url") ++ [58] ++ val_text json_escape_char (JStr (str "https://x/ha_panel")) ++ rest).
  assert (E : mid ++ tail = mid' ++ tail') by (vm_compute; reflexivity). rewrite <- E.
  apply (asset_found (str "ha_panel") name_text pre mid tail mid' tail' (str "https://x/ha_panel") 3280512 rest rest');
    first [exact E|left; vm_compute; reflexivity|vm_compute; reflexivity|bytes_ok_closed|lia].
Defined.
End Ota.
