(* ===== verification/Status.v ===== *)
(** The status endpoint of the web portal and the REST calls to Home Assistant
    (main.cpp: [cgi_status_main], [ha_request], [btn_event_cb]).  The status is
    computed from the configuration, the log of the running panel and what the
    kernel and the process list say; the theorems say that the connection states
    follow the last message of the log about them, and that the document does not
    depend on the access token and the MQTT password. *)
From S2P Require Import Prelude CString JsonDoc PanelJson Config Portal.
From stdpp Require Import list.
#[local] Open Scope Z_scope.

Module Status.

(** ** The status *)

(** [a != npos && (b == npos || a > b)] *)
Definition later (a b : option nat) : bool :=
  match a, b with
  | Some a, Some b => (b <? a)%nat
  | Some _, None => true
  | None, _ => false
  end.

Definition log_ha_connected (logs : bytes) : bool :=
  let ha_ok := str_rfind logs (str "AUTH OK") in
  later ha_ok (str_rfind logs (str "Connection closed")) && later ha_ok (str_rfind logs (str "auth_required")).

Definition log_mqtt_connected (logs : bytes) : bool :=
  later (str_rfind logs (str "Connected successfully to broker")) (str_rfind logs (str "Socket connection failed")).

Definition brightness_percent_of (brightness max_brightness : Z) : Z :=
  if 0 <? max_brightness then Z.quot (brightness * 100 + Z.quot max_brightness 2) max_brightness else 0.

(** The loop over [pidof]. *)
Definition other_pid (pids : list Z) (own : Z) : bool := existsb (fun pid => negb (pid =? own)) pids.

(** The loop over the lines of [ps]. *)
Fixpoint app_of_lines (lines : list bytes) : bytes :=
  match lines with
  | [] => str "none"
  | line :: lines =>
      if contains line (str " Z ") then app_of_lines lines
      else if contains line (str "voice_control_factory") then str "tuya_factory"
      else if contains line (str "voice_control") then str "tuya_gui"
      else app_of_lines lines
  end.

(** What the handler reads outside the configuration. *)
Record Surroundings := mkSurroundings {
  logs : bytes;
  uptime_seconds : Z;
  brightness : Z;
  max_brightness : Z;
  pids : list Z;
  own_pid : Z;
  ps_lines : list bytes;
  wlan0_ip : bytes;
}.

Definition CURRENT_VERSION : bytes := str "v1.9.11".

Definition status_json (g : Config) (w : Surroundings) : bytes :=
  let app_running := other_pid (pids w) (own_pid w) in
  let active_app := if app_running then str "ha_panel" else app_of_lines (ps_lines w) in
  let m := g_mqtt_config g in
  str "{" ++
  dq "'ip':'" ++ json_escape (wlan0_ip w) ++ dq "'," ++
  dq "'version':'" ++ json_escape CURRENT_VERSION ++ dq "'," ++
  dq "'uptime_seconds':" ++ to_string (uptime_seconds w) ++ str "," ++
  dq "'brightness':" ++ to_string (brightness_percent_of (brightness w) (max_brightness w)) ++ str "," ++
  dq "'app_running':" ++ bool_text app_running ++ str "," ++
  dq "'ha_configured':" ++ bool_text (negb (is_empty (ha_url g)) && negb (is_empty (ha_token g))) ++ str "," ++
  dq "'ha_connected':" ++ bool_text (log_ha_connected (logs w)) ++ str "," ++
  dq "'ha_token_set':" ++ bool_text (negb (is_empty (ha_token g))) ++ str "," ++
  dq "'ha_url':'" ++ json_escape (ha_url g) ++ dq "'," ++
  dq "'entity_1':'" ++ json_escape (ha_entity_1 g) ++ dq "'," ++
  dq "'entity_1_name':'" ++ json_escape (ha_entity_1_name g) ++ dq "'," ++
  dq "'entity_2':'" ++ json_escape (ha_entity_2 g) ++ dq "'," ++
  dq "'entity_2_name':'" ++ json_escape (ha_entity_2_name g) ++ dq "'," ++
  dq "'mqtt_enabled':" ++ bool_text (enabled m) ++ str "," ++
  dq "'mqtt_connected':" ++ bool_text (log_mqtt_connected (logs w)) ++ str "," ++
  dq "'mqtt_host':'" ++ json_escape (host m) ++ dq "'," ++
  dq "'mqtt_port':" ++ to_string (port m) ++ str "," ++
  dq "'mqtt_user':'" ++ json_escape (username m) ++ dq "'," ++
  dq "'mqtt_pass_set':" ++ bool_text (negb (is_empty (password m))) ++ str "," ++
  dq "'mqtt_topic':'" ++ json_escape (base_topic m) ++ dq "'," ++
  dq "'mqtt_discovery':" ++ bool_text (discovery m) ++ str "," ++
  dq "'web_autostart':" ++ bool_text (g_web_autostart g) ++ str "," ++
  dq "'ha_autostart':" ++ bool_text (g_ha_autostart g) ++ str "," ++
  dq "'active_app':'" ++ json_escape active_app ++ dq "'" ++
  str "}".

Definition cgi_status_main (file : option bytes) (g : Config) (w : Surroundings) : bytes :=
  let g := fst (load_configuration file g) in cgi_json_response 200 (status_json g w).

(** ** REST calls *)

(** [sscanf(response, "HTTP/%*s %d", &status)] *)
Fixpoint skip_word (s : bytes) : bytes :=
  match s with [] => [] | c :: s' => if isspace c then s else skip_word s' end.

Definition sscanf_status (response : bytes) : Z :=
  if starts_with response (str "HTTP/") then
    let word := ltrim isspace (drop 5 response) in
    let after := skip_word word in
    if is_empty word then 0
    else
      match snd (strtol10 after) with
      | O => 0
      | S _ => s32 (fst (strtol10 after))
      end
  else 0.

(** The result and [*response_body], from what curl printed. *)
Definition ha_response (response : bytes) : bool * option bytes :=
  if is_empty response then (false, None)
  else
    let status := sscanf_status response in
    let separator := str_find response [13; 10; 13; 10] 0 in
    ((200 <=? status) && (status <? 300),
     Some (match separator with None => [] | Some p => substr_from response (p + 4) end)).

Definition url_end (c : Z) : bool := (c =? 47) || (c =? 32) || (c =? 13) || (c =? 10).

(** The shell command of [ha_request]. *)
Definition ha_command (curl_bin url token method endpoint body : bytes) : bytes :=
  let full_url := rtrim url_end url ++ endpoint in
  curl_bin ++ str " -s -k -m 5 -i -X " ++ method ++
  dq " -H 'Authorization: Bearer " ++ token ++ dq "'" ++
  dq " -H 'Accept: application/json'" ++
  (if is_empty body then [] else dq " -H 'Content-Type: application/json'" ++ str " -d '" ++ body ++ str "'") ++
  dq " '" ++ full_url ++ dq "' 2>/dev/null".

(** [btn_event_cb]: the endpoint and the body of the request, if there is one. *)
Definition btn_request (entity_id : bytes) : option (bytes * bytes) :=
  if is_empty entity_id then None
  else
    match str_find entity_id [46] 0 with
    | None => None
    | Some dot =>
        let domain := substr entity_id 0 dot in
        if negb (bytes_eqb domain (str "light") || bytes_eqb domain (str "fan") || bytes_eqb domain (str "switch") ||
                 bytes_eqb domain (str "input_boolean")) then None
        else Some (str "/api/services/" ++ domain ++ str "/toggle", dq "{'entity_id':'" ++ entity_id ++ dq "'}")
    end.

(** ** The last line that says something *)

Lemma rfind_bound pat s k : pat <> [] -> str_rfind s pat = Some k -> (k < length s)%nat.
Proof.
  intros Hp. revert k. induction s as [|b s IH]; intros k; cbn [str_rfind length].
  - destruct pat; [done|discriminate].
  - destruct (str_rfind s pat) as [j|]; [intros [= <-]; specialize (IH j eq_refl); lia|].
    case_if; [intros [= <-]; lia|discriminate].
Qed.

(** A pattern without a newline is not found across one. *)
Lemma prefix_across_newline pat s t :
  Forall (fun b => b <> 10) pat -> prefixb pat (s ++ 10 :: t) = prefixb pat s.
Proof.
  intros H. revert s. induction H as [|b pat Hb _ IH]; intros s; [by destruct s|].
  destruct s as [|c s]; cbn [app prefixb]; [|by rewrite IH].
  apply andb_false_iff. left. apply Z.eqb_neq. lia.
Qed.

Lemma rfind_newline pat a b :
  Forall (fun b => b <> 10) pat -> pat <> [] ->
  str_rfind (a ++ 10 :: b) pat =
  match str_rfind b pat with Some k => Some (S (length a) + k)%nat | None => str_rfind a pat end.
Proof.
  intros Hn Hp. induction a as [|c a IH]; cbn [app length].
  - cbn [str_rfind]. destruct (str_rfind b pat); [done|]. pose proof (prefix_across_newline pat [] b Hn) as E. cbn [app] in E.
    by rewrite E.
  - cbn [str_rfind]. rewrite IH. destruct (str_rfind b pat); [done|].
    destruct (str_rfind a pat); [done|]. pose proof (prefix_across_newline pat (c :: a) b Hn) as E. cbn [app] in E. by rewrite E.
Qed.

(** What the panel prints: the messages of [ws_thread_loop] and of
    [MqttClient::loop] that the status looks for, and other lines. *)
Inductive Entry := AuthOk | AuthRequired | Closed | BrokerUp | BrokerDown | Other (line : bytes).

Definition entry_text (e : Entry) : bytes :=
  match e with
  | AuthOk => str "[WebSocket 🟢🟢] AUTH OK! Subscribing to real-time events..."
  | AuthRequired => str "[WebSocket 🔑] Received auth_required. Authenticating..."
  | Closed => str "[WebSocket] Connection closed. Reconnecting in 3s..."
  | BrokerUp => str "[MQTT 🟢] Connected successfully to broker!"
  | BrokerDown => str "[MQTT ❌] Socket connection failed. Retrying in 3s..."
  | Other line => line
  end.

Definition patterns : list bytes :=
  [str "AUTH OK"; str "Connection closed"; str "auth_required"; str "Connected successfully to broker"; str "Socket connection failed"].

Definition entry_ok (e : Entry) : Prop :=
  match e with Other line => Forall (fun pat => str_rfind line pat = None) patterns | _ => True end.

Definition log_text (es : list Entry) : bytes := concat (map (fun e => entry_text e ++ [10]) es).

(** The messages about Home Assistant, and about the broker. *)
Definition about_ha (e : Entry) : bool := match e with AuthOk | AuthRequired | Closed => true | _ => false end.
Definition about_broker (e : Entry) : bool := match e with BrokerUp | BrokerDown => true | _ => false end.

Lemma log_snoc es e : log_text (es ++ [e]) = log_text es ++ entry_text e ++ [10].
Proof. unfold log_text. rewrite map_app, concat_app. cbn. by rewrite app_nil_r. Qed.

(** The log up to its last newline, for the lemma above. *)
Lemma rfind_log pat es e :
  In pat patterns ->
  str_rfind (log_text (es ++ [e])) pat =
  match str_rfind (entry_text e) pat with
  | Some k => Some (length (log_text es) + k)%nat
  | None => str_rfind (log_text es) pat
  end.
Proof.
  intros Hin. assert (H : Forall (fun b => b <> 10) pat /\ pat <> []).
  { cbn [patterns In] in Hin. repeat (destruct Hin as [<-|Hin]; [split; [vm_compute; repeat constructor; lia|discriminate]|]). destruct Hin. }
  destruct H as [Hn Hp]. rewrite log_snoc.
  assert (T : forall t, str_rfind (t ++ [10]) pat = str_rfind t pat).
  { intros t. rewrite (rfind_newline pat t [] Hn Hp). by destruct pat. }
  rewrite app_assoc, T. destruct es as [|e' es _] using rev_ind; [cbn [log_text concat map app length]; by destruct (str_rfind _ _); [|destruct pat]|].
  rewrite log_snoc. set (a := log_text es ++ entry_text e').
  replace ((log_text es ++ entry_text e' ++ [10]) ++ entry_text e) with (a ++ 10 :: entry_text e) by (unfold a; by rewrite <- !app_assoc).
  replace (log_text es ++ entry_text e' ++ [10]) with (a ++ [10]) by (unfold a; by rewrite <- !app_assoc).
  rewrite (rfind_newline pat a _ Hn Hp), T, length_app. cbn [length].
  destruct (str_rfind (entry_text e) pat); [f_equal; lia|done].
Qed.

Lemma later_now n k o : (forall j, o = Some j -> (j < n)%nat) -> later (Some (n + k)%nat) o = true.
Proof. destruct o as [j|]; cbn; [|done]. intros H. specialize (H j eq_refl). apply Nat.ltb_lt. lia. Qed.

Lemma later_old n k o : (forall j, o = Some j -> (j < n)%nat) -> later o (Some (n + k)%nat) = false.
Proof. destruct o as [j|]; cbn; [|done]. intros H. specialize (H j eq_refl). apply Nat.ltb_ge. lia. Qed.

Lemma log_bound pat es j : In pat patterns -> str_rfind (log_text es) pat = Some j -> (j < length (log_text es))%nat.
Proof.
  intros Hin. apply rfind_bound. cbn [patterns In] in Hin.
  repeat (destruct Hin as [<-|Hin]; [discriminate|]). destruct Hin.
Qed.

(** Evaluates the searches in a known message. *)
Ltac search_entry :=
  repeat match goal with
  | |- context [str_rfind (entry_text ?e) ?pat] =>
      let v := eval vm_compute in (str_rfind (entry_text e) pat) in change (str_rfind (entry_text e) pat) with v
  end; cbv iota beta.

(** The connection states of the status are those of the last message about
    them in the log: Home Assistant counts as connected exactly when the last of
    its messages says that it accepted the token, the broker exactly when the
    last of its messages says that it was reached. *)
Theorem connected_is_last es :
  Forall entry_ok es ->
  log_ha_connected (log_text es) =
    match last (List.filter about_ha es) with Some AuthOk => true | _ => false end /\
  log_mqtt_connected (log_text es) =
    match last (List.filter about_broker es) with Some BrokerUp => true | _ => false end.
Proof.
  induction es as [|e es IH] using rev_ind; [done|]. intros [Hes He]%Forall_app. rewrite Forall_singleton in He.
  destruct (IH Hes) as [IHh IHm]. clear IH. unfold log_ha_connected, log_mqtt_connected in *. cbv zeta in *.
  rewrite !rfind_log by (cbn; tauto). rewrite !List.filter_app.
  destruct e as [| | | | |line]; [search_entry; cbn [List.filter about_ha about_broker]; rewrite ?app_nil_r, ?last_snoc..|].
  - split; [|exact IHm]. rewrite !later_now by (intros j; apply log_bound; cbn; tauto). done.
  - split; [|exact IHm]. rewrite (later_old _ _ (str_rfind _ (str "AUTH OK"))) by (intros j; apply log_bound; cbn; tauto). apply andb_false_r.
  - split; [|exact IHm]. rewrite later_old by (intros j; apply log_bound; cbn; tauto). done.
  - split; [exact IHh|]. apply later_now. intros j. apply log_bound. cbn. tauto.
  - split; [exact IHh|]. apply later_old. intros j. apply log_bound. cbn. tauto.
  - cbn [entry_ok entry_text] in *. repeat (apply Forall_cons in He as [E He]; rewrite E; clear E).
    cbn [List.filter about_ha about_broker]. rewrite !app_nil_r. cbv iota. by split.
Qed.

Lemma connected_is_last_witness :
  let es := [Other (str "[HA Panel] start"); BrokerDown; AuthRequired; AuthOk; BrokerUp; Closed] in
  Forall entry_ok es /\ log_ha_connected (log_text es) = false /\ log_mqtt_connected (log_text es) = true.
Proof.
  intros es. assert (H : Forall entry_ok es) by (repeat constructor; vm_compute; reflexivity).
  split; [exact H|]. exact (connected_is_last es H).
Defined.

Definition without_secrets (g : Config) : Config :=
  let m := g_mqtt_config g in
  mkConfig (ha_url g) [] (ha_entity_1 g) (ha_entity_2 g) (ha_entity_1_name g) (ha_entity_2_name g)
    (mkMqttConfig (enabled m) (host m) (port m) (username m) [] (client_id m) (base_topic m) (discovery m))
    (g_web_autostart g) (g_ha_autostart g).

(** The status tells nothing about the access token and the MQTT password
    but whether they are set: configurations that differ in nothing else give
    the same document. *)
Theorem status_hides_secrets g g' w :
  without_secrets g = without_secrets g' ->
  is_empty (ha_token g) = is_empty (ha_token g') ->
  is_empty (password (g_mqtt_config g)) = is_empty (password (g_mqtt_config g')) ->
  status_json g w = status_json g' w.
Proof.
  destruct g as [? ? ? ? ? ? [] ? ?], g' as [? ? ? ? ? ? [] ? ?]. unfold without_secrets, status_json. cbn. intros [= ] Ht Hp. subst.
  by rewrite Ht, Hp.
Qed.

Lemma status_hides_secrets_witness :
  let m := mkMqttConfig true (str "broker") 1883 (str "user") (str "pw1") [] (str "panel/tpp01") true in
  let m' := mkMqttConfig true (str "broker") 1883 (str "user") (str "other") [] (str "panel/tpp01") true in
  let g := mkConfig (str "https://ha") (str "secret") (str "light.a") (str "fan.b") [] [] m true false in
  let g' := mkConfig (str "https://ha") (str "token") (str "light.a") (str "fan.b") [] [] m' true false in
  let w := mkSurroundings [] 5 100 255 [7] 7 [] (str "10.0.0.9") in
  status_json g w = status_json g' w /\ contains (status_json g w) (str "secret") = false.
Proof.
  intros m m' g g' w. split; [|vm_compute; reflexivity]. apply (status_hides_secrets g g' w); reflexivity.
Defined.

(** ** REST calls *)

Lemma strtol10_space s : fst (strtol10 (32 :: s)) = fst (strtol10 s) /\ (snd (strtol10 s) <> 0%nat -> snd (strtol10 (32 :: s)) <> 0%nat).
Proof.
  unfold strtol10. cbn [ltrim]. change (isspace 32) with true. cbv iota.
  destruct (match ltrim isspace s with [] => _ | _ => _ end) as [[neg sgn] ds]. destruct (digits ds 0) as [v [|n]]; cbn; [done|].
  split; [done|]. intros _. lia.
Qed.

(** The result of a REST call: success is a status in the two hundreds, the body
    is what follows the first empty line. *)
Theorem ha_response_correct version code headers body :
  Forall (fun c => isspace c = false) version -> version <> [] -> 0 <= code < 2 ^ 31 ->
  let head := str "HTTP/" ++ version ++ 32 :: to_string code ++ 32 :: headers in
  cut [13; 10; 13; 10] (head ++ [13; 10; 13; 10] ++ body) = Some ([13; 10; 13; 10] ++ body) ->
  ha_response (head ++ [13; 10; 13; 10] ++ body) = ((200 <=? code) && (code <? 300), Some body).
Proof.
  intros Hv Hn Hc head Hb. unfold ha_response. set (resp := head ++ [13; 10; 13; 10] ++ body) in *.
  assert (Es : sscanf_status resp = code).
  { unfold sscanf_status.
    assert (Er : resp = str "HTTP/" ++ version ++ 32 :: to_string code ++ 32 :: headers ++ [13; 10; 13; 10] ++ body)
      by (unfold resp, head; rewrite <- !app_assoc; cbn [app]; by rewrite <- !app_assoc).
    rewrite Er. change (starts_with (str "HTTP/" ++ ?t) (str "HTTP/")) with true. cbv iota.
    change (drop 5 (str "HTTP/" ++ ?t)) with t.
    destruct version as [|c v]; [done|]. apply Forall_cons in Hv as [Hc0 Hv].
    set (after := 32 :: to_string code ++ 32 :: headers ++ [13; 10; 13; 10] ++ body).
    rewrite ltrim_id by exact Hc0.
    assert (Sk : skip_word ((c :: v) ++ after) = after).
    { cbn [app skip_word]. rewrite Hc0. clear -Hv. induction Hv as [|x v Hx _ IH]; [done|]. cbn [app skip_word]. by rewrite Hx. }
    rewrite Sk. cbn [app is_empty]. destruct (strtol10_space (to_string code ++ 32 :: headers ++ [13; 10; 13; 10] ++ body)) as [V N].
    fold after in V, N. rewrite strtol10_to_string in V, N by (first [lia|done]). cbn [fst snd] in V, N.
    rewrite V. destruct (snd (strtol10 after)) eqn:E; [|apply s32_small; lia].
    exfalso. apply N; [|reflexivity]. destruct (to_string_head code) as (d & r & -> & _); [lia|discriminate]. }
  rewrite Es. destruct resp as [|x resp'] eqn:Er; [by destruct version|]. cbn [is_empty]. rewrite <- Er in *.
  destruct (str_find_at resp [13; 10; 13; 10] 0 resp _ ltac:(lia) eq_refl Hb) as (k & -> & D & _). f_equal. f_equal.
  unfold substr_from. rewrite <- drop_drop, D. reflexivity.
Qed.
End Status.
