(* ===== verification/Dashboard.v ===== *)
(** The two entity buttons of the dashboard (main.cpp: [create_home_assistant_ui],
    [btn_event_cb], [state_poll_timer_cb], [update_control_state],
    [update_control_state_async], [publish_panel_state_to_ha]): what they show is
    brought up to date by the messages of the WebSocket thread and by the polls,
    both through calls that are left to LVGL, while clicks change the button at
    once and Home Assistant in a thread.  The model composes [WebSocket.react] and
    [Status.ha_response]. *)
From S2P Require Import Prelude CString JsonDoc PanelJson Config Status WebSocket.
From stdpp Require Import list.
#[local] Open Scope Z_scope.

Module Dashboard.

(** ** State *)

(** What [lv_async_call] was given and has not run yet: a [ControlStateAsyncData],
    or a [PollResult]. *)
Inductive Posted :=
| ControlState (control : nat) (is_on : bool)
| PollResult (result : list (bool * bytes)).

(** [ha]: what Home Assistant holds for the two ha_controls; [wire]: the messages
    of the WebSocket that were not read; [polls]: the poll threads, with the
    results and bodies of the requests done; [toggles]: the controls whose toggle
    thread has not ended. *)
Record State := mkState {
  ha : list bytes;
  buttons : list bool;                       (* LV_STATE_CHECKED *)
  wire : list bytes;
  async : list Posted;
  g_ha_poll_in_progress : bool;
  polls : list (list (bool * bytes));
  toggles : list nat;
}.

Definition set_ha (x : list bytes) (s : State) : State :=
  mkState x (buttons s) (wire s) (async s) (g_ha_poll_in_progress s) (polls s) (toggles s).
Definition set_buttons (x : list bool) (s : State) : State :=
  mkState (ha s) x (wire s) (async s) (g_ha_poll_in_progress s) (polls s) (toggles s).
Definition set_wire (x : list bytes) (s : State) : State :=
  mkState (ha s) (buttons s) x (async s) (g_ha_poll_in_progress s) (polls s) (toggles s).
Definition set_async (x : list Posted) (s : State) : State :=
  mkState (ha s) (buttons s) (wire s) x (g_ha_poll_in_progress s) (polls s) (toggles s).
Definition set_polls (in_progress : bool) (x : list (list (bool * bytes))) (s : State) : State :=
  mkState (ha s) (buttons s) (wire s) (async s) in_progress x (toggles s).
Definition set_toggles (x : list nat) (s : State) : State :=
  mkState (ha s) (buttons s) (wire s) (async s) (g_ha_poll_in_progress s) (polls s) x.

Definition is_on (state : bytes) : bool := bytes_eqb state (str "on").

Section Panel.
(** [ha_url], [ha_token], and the ids of the two controls. *)
Context (url token entity_1 entity_2 : bytes).

Definition ha_controls : list bytes := [entity_1; entity_2].

(** ** Operations *)

(** [ha_request("GET", ...)]: what curl printed, or that it could not be run. *)
Definition ha_get (printed : option bytes) : bool * bytes :=
  match printed with
  | None => (false, [])
  | Some response =>
      let '(ok, body) := Status.ha_response response in (ok, match body with Some b => b | None => [] end)
  end.

(** The state of the button after the request of the start. *)
Definition update_control_state (entity_id : bytes) (printed : option bytes) (checked : bool) : bool :=
  if is_empty entity_id then checked
  else
    let '(ok, response) := ha_get printed in
    if ok then is_on (parse_json_value response (str "state")) else checked.

Definition create_home_assistant_ui (states : list bytes) (printed : list (option bytes)) : State :=
  mkState states (zip_with (fun e p => update_control_state e p false) ha_controls printed) [] [] false [] [].

Definition state_poll_timer_cb (s : State) : State :=
  if is_empty url || is_empty token then s
  else if g_ha_poll_in_progress s then s
  else set_polls true (polls s ++ [[]]) s.

(** The next request of a poll thread. *)
Definition poll_request (k : nat) (printed : option bytes) (s : State) : State :=
  match polls s !! k with
  | Some rs =>
      match ha_controls !! length rs with
      | Some entity_id =>
          set_polls (g_ha_poll_in_progress s)
            (<[k := rs ++ [if is_empty entity_id then (false, []) else ha_get printed]]> (polls s)) s
      | None => s
      end
  | None => s
  end.

(** What a poll thread posts when both requests are done. *)
Definition poll_result (rs : list (bool * bytes)) : list (bool * bytes) :=
  map (fun '(ok, res) => (ok, if (ok : bool) then parse_json_value res (str "state") else [])) rs.

Definition poll_post (k : nat) (s : State) : State :=
  match polls s !! k with
  | Some rs =>
      if (length rs =? 2)%nat
      then set_async (async s ++ [PollResult (poll_result rs)]) (set_polls (g_ha_poll_in_progress s) (delete k (polls s)) s)
      else s
  | None => s
  end.

Definition show_result (result : list (bool * bytes)) (checked : list bool) : list bool :=
  zip_with (fun '(ok, state) b => if (ok : bool) then is_on state else b) result checked.

Definition update_control_state_async (control : nat) (on : bool) (s : State) : State :=
  set_buttons (<[control := on]> (buttons s)) s.

Definition run_posted (p : Posted) (s : State) : State :=
  match p with
  | ControlState control on => update_control_state_async control on s
  | PollResult result => set_polls false (polls s) (set_buttons (show_result result (buttons s)) s)
  end.

(** [lv_timer_handler] runs a call that was left. *)
Definition run_async (k : nat) (s : State) : State :=
  match async s !! k with
  | Some p => run_posted p (set_async (delete k (async s)) s)
  | None => s
  end.

(** The updates that a message makes [ws_thread_loop] post. *)
Definition posts (u : list (option bool)) : list Posted :=
  omap id (imap (fun i o => ControlState i <$> o) u).

Definition read_message (s : State) : State :=
  match wire s with
  | [] => s
  | msg :: rest =>
      set_wire rest
        (match WebSocket.react ha_controls msg with
         | WebSocket.Update u => set_async (async s ++ posts u) s
         | _ => s
         end)
  end.

(** LVGL toggles a checkable button before [btn_event_cb]. *)
Definition btn_event_cb (control : nat) (s : State) : State :=
  let s := set_buttons (alter negb control (buttons s)) s in
  match ha_controls !! control with
  | Some entity_id =>
      match Status.btn_request entity_id with Some _ => set_toggles (toggles s ++ [control]) s | None => s end
  | None => s
  end.

(** The requests of [publish_panel_state_to_ha]. *)
Definition publish_panel_state_to_ha (ip : bytes) (g_screen_blanked : bool) (screen_timeout_ms : Z) : list (bytes * bytes) :=
  if is_empty url || is_empty token then []
  else
    let about := dq "'ip_address':'" ++ ip ++ dq "','version':'" ++ Status.CURRENT_VERSION in
    [(str "/api/states/binary_sensor.moes_panel_screen",
      dq "{'state':'" ++ str (if g_screen_blanked then "off" else "on") ++ dq "','attributes':{'friendly_name':'MOES Panel - Ekran'," ++
      about ++ dq "'}}");
     (str "/api/states/sensor.moes_panel_status",
      dq "{'state':'online','attributes':{'friendly_name':'MOES Panel - Status'," ++
      about ++ dq "','screen_timeout_s':" ++ to_string (Z.quot screen_timeout_ms 1000) ++ str "}}")].

(** ** Steps *)

Inductive Label :=
| HaChanges (control : nat) (state : bytes)
| HaSends (msg : bytes)
| ReadMessage
| ConnectionLost
| PollTimer
| PollRequest (k : nat) (printed : option bytes)
| PollPost (k : nat)
| RunAsync (k : nat)
| Clicked (control : nat)
| ToggleDone (k : nat) (state : option bytes).    (* the new state, or that the request failed *)

Definition apply (s : State) (l : Label) : State :=
  match l with
  | HaChanges control state => set_ha (<[control := state]> (ha s)) s
  | HaSends msg => set_wire (wire s ++ [msg]) s
  | ReadMessage => read_message s
  | ConnectionLost => set_wire [] s
  | PollTimer => state_poll_timer_cb s
  | PollRequest k printed => poll_request k printed s
  | PollPost k => poll_post k s
  | RunAsync k => run_async k s
  | Clicked control => btn_event_cb control s
  | ToggleDone k state =>
      match toggles s !! k with
      | Some control =>
          set_toggles (delete k (toggles s))
            (match state with Some st => set_ha (<[control := st]> (ha s)) s | None => s end)
      | None => s
      end
  end.

Definition run (s : State) (ls : list Label) : State := fold_left apply ls s.

(** Whatever Home Assistant and curl print, in whatever order things happen. *)
Definition reachable (s : State) : Prop :=
  exists states printed ls, length states = 2%nat /\ length printed = 2%nat /\
    s = run (create_home_assistant_ui states printed) ls.

(** ** What Home Assistant says

    The texts of Home Assistant, apart from how the panel reads them. *)

(** The object of a state: the id, the state and the other members. *)
Record Report := mkReport { r_entity : bytes; r_state : bytes; r_rest : bytes }.

Definition report_text (r : Report) : bytes :=
  dq "{'entity_id':'" ++ r_entity r ++ dq "','state':'" ++ r_state r ++ 34 :: r_rest r.

(** An event [state_changed] (with what is before its new state), the answer to
    [get_states], and the rest. *)
Inductive Message :=
| StateChanged (before : bytes) (new : Report)
| States (before : bytes) (reports : list Report)
| Other (text : bytes).

Definition message_text (m : Message) : bytes :=
  match m with
  | StateChanged before new => before ++ dq "'new_state':" ++ report_text new
  | States before reports => before ++ concat (map report_text reports)
  | Other text => text
  end.

Definition reports_of (m : Message) : list Report :=
  match m with StateChanged _ new => [new] | States _ reports => reports | Other _ => [] end.

(** Entity ids are [domain.object], without quotes and braces. *)
Definition id_ok (e : bytes) : Prop := In 46 e /\ Forall (fun b => b <> 34 /\ b <> 123) e.
Definition plain (st : bytes) : Prop := Forall (fun b => b <> 34 /\ b <> 92) st.

(** The id of a control occurs in a report only as the id the report is about
    (no other entity's id and no attribute contains it). *)
Definition separate (e : bytes) (r : Report) : Prop :=
  plain (r_state r) /\ (r_entity r = e \/ contains (report_text r) e = false).

(** A message that mentions the controls in their own reports only, and none of
    the words that make the panel take it for another kind of message. *)
Definition clear (m : Message) : Prop :=
  (forall e r, e ∈ ha_controls -> r ∈ reports_of m -> separate e r) /\
  match m with
  | StateChanged before new => str_find (message_text m) (dq "'new_state'") 0 = Some (length before)
  | States before reports =>
      str_find (message_text m) (dq "'new_state'") 0 = None /\ forall e, e ∈ ha_controls -> contains before e = false
  | Other text => contains text (str "state_changed") = false /\ contains text (str "entity_id") = false
  end.

(** The reports say what Home Assistant holds. *)
Definition truthful (states : list bytes) (m : Message) : Prop :=
  forall i e st r, ha_controls !! i = Some e -> states !! i = Some st -> r ∈ reports_of m -> r_entity r = e -> r_state r = st.

(** What curl prints of a request that succeeds: the headers, and a report of
    the entity. *)
Definition tells (e st printed : bytes) : Prop :=
  plain st /\
  exists version code headers rest,
    let head := str "HTTP/" ++ version ++ 32 :: to_string code ++ 32 :: headers in
    Forall (fun c => isspace c = false) version /\ version <> [] /\ 200 <= code < 300 /\
    printed = head ++ [13; 10; 13; 10] ++ report_text (mkReport e st rest) /\
    cut [13; 10; 13; 10] printed = Some ([13; 10; 13; 10] ++ report_text (mkReport e st rest)).

(** Home Assistant keeps its promises, in clear messages; a request may fail. *)
Definition honest (s : State) (l : Label) : Prop :=
  match l with
  | HaSends msg => exists m, msg = message_text m /\ clear m /\ truthful (ha s) m
  | PollRequest k printed =>
      forall rs e st, polls s !! k = Some rs -> ha_controls !! length rs = Some e -> ha s !! length rs = Some st ->
      fst (ha_get printed) = false \/ exists text, printed = Some text /\ tells e st text
  | _ => True
  end.

(** Nothing is clicked and Home Assistant does not change. *)
Definition quiet (l : Label) : Prop :=
  match l with HaChanges _ _ | Clicked _ | ToggleDone _ (Some _) => False | _ => True end.

(** A quiet and honest run. *)
Fixpoint settled (s : State) (ls : list Label) : Prop :=
  match ls with [] => True | l :: ls => quiet l /\ honest s l /\ settled (apply s l) ls end.

(** ** What holds *)

Definition is_result (p : Posted) : bool := match p with PollResult _ => true | _ => false end.
Definition results (l : list Posted) : nat := length (List.filter is_result l).

#[local] Arguments results : simpl never.

(** The shape of the state, and single flight: a poll is a thread or a result
    that was not shown, and there is one exactly when the flag is set. *)
Record Inv (s : State) : Prop := mkInv {
  inv_ha : length (ha s) = 2%nat;
  inv_buttons : length (buttons s) = 2%nat;
  inv_polls : Forall (fun rs => (length rs <= 2)%nat) (polls s);
  inv_results : Forall (fun p => match p with PollResult r => length r = 2%nat | _ => True end) (async s);
  inv_flight : (length (polls s) + results (async s))%nat = (if g_ha_poll_in_progress s then 1 else 0)%nat;
}.

(** Button [i] shows the state of its entity. *)
Definition agree (s : State) (i : nat) : Prop := is_on <$> ha s !! i = buttons s !! i.

(** Everything under way tells the state Home Assistant has now. *)
Definition current (st : bytes) (reply : bool * bytes) : Prop := fst reply = true -> parse_json_value (snd reply) (str "state") = st.

Record Fresh (s : State) : Prop := mkFresh {
  fresh_wire : Forall (fun msg => exists m, msg = message_text m /\ clear m /\ truthful (ha s) m) (wire s);
  fresh_async : Forall (fun p => match p with
    | ControlState i on => forall st, ha s !! i = Some st -> on = is_on st
    | PollResult r => forall i st st', r !! i = Some (true, st') -> ha s !! i = Some st -> st' = st
    end) (async s);
  fresh_polls : Forall (fun rs => forall i r st, rs !! i = Some r -> ha s !! i = Some st -> current st r) (polls s);
}.

(** A result that reports on entity [i] is shown in the course of the run. *)
Fixpoint shows (i : nat) (s : State) (ls : list Label) : Prop :=
  match ls with
  | [] => False
  | l :: ls =>
      (exists k r st, l = RunAsync k /\ async s !! k = Some (PollResult r) /\ r !! i = Some (true, st)) \/
      shows i (apply s l) ls
  end.

(** *** Lemmas *)

Lemma results_app a b : results (a ++ b) = (results a + results b)%nat.
Proof. unfold results. by rewrite List.filter_app, length_app. Qed.

Lemma results_delete l : forall k p, l !! k = Some p ->
  results l = ((if is_result p then 1 else 0) + results (delete k l))%nat.
Proof.
  unfold results. induction l as [|q l IH]; intros [|k] p H; try discriminate; cbn [lookup list_lookup] in H.
  - injection H as ->. cbn. by destruct (is_result p).
  - specialize (IH k p H). change (delete (S k) (q :: l)) with (q :: delete k l). cbn [List.filter].
    destruct (is_result q); cbn [length]; rewrite IH; lia.
Qed.

Lemma posts_spec u p : p ∈ posts u -> exists i on, p = ControlState i on /\ u !! i = Some (Some on).
Proof.
  unfold posts. intros (o & Ho & E)%list_elem_of_omap. cbn in E. subst o. apply list_elem_of_lookup_1 in Ho as [i Hi].
  rewrite list_lookup_imap in Hi. destruct (u !! i) as [[on|]|] eqn:Eu; try discriminate. injection Hi as <-. by exists i, on.
Qed.

Lemma no_results l : (forall p, p ∈ l -> is_result p = false) -> results l = 0%nat.
Proof.
  unfold results. induction l as [|p l IH]; [done|]. intros H. cbn. rewrite (H p) by constructor. apply IH. intros q Hq. apply H. by constructor.
Qed.

Lemma posts_results u : results (posts u) = 0%nat.
Proof. apply no_results. by intros p (i & on & -> & _)%posts_spec. Qed.

(** *** What the panel reads *)

Lemma contains_none s pat : contains s pat = false -> cut pat s = None.
Proof. rewrite contains_cut. by destruct (cut pat s). Qed.

Lemma id_parts e : id_ok e -> In 46 e /\ Forall (fun b => b <> 34) e /\ Forall (fun b => b <> 123) e.
Proof. intros [H F]. split; [done|]. split; (eapply Forall_impl; [exact F|]); cbn; tauto. Qed.

Lemma plain_noquotes st : plain st -> Forall (fun b => b <> 34) st.
Proof. intros H. eapply Forall_impl; [exact H|]. cbn. tauto. Qed.

Lemma report_cut r more : id_ok (r_entity r) ->
  cut (r_entity r) (report_text r ++ more) = Some (r_entity r ++ dq "','state':'" ++ r_state r ++ 34 :: r_rest r ++ more).
Proof.
  intros (Hdot & Hq & _)%id_parts. unfold report_text. rewrite <- !app_assoc. cbn [app].
  rewrite (cut_skip _ (dq "{'entity_id':'")); [apply cut_here, prefixb_app|].
  intros q Hs Hne. apply (no_prefix_across 34 46 (r_entity r) (dq "{'entity_id':")); try done. vm_compute. intuition discriminate.
Qed.

Lemma reports_read e head reports on :
  id_ok e -> cut e head = None -> (forall r, r ∈ reports -> separate e r) ->
  WebSocket.entity_state (head ++ concat (map report_text reports)) e = Some on ->
  exists r, r ∈ reports /\ r_entity r = e /\ on = is_on (r_state r).
Proof.
  intros Hid. pose proof (id_parts e Hid) as (Hdot & Hq & Hb). revert head.
  induction reports as [|r reports IH]; intros head Hh Hs E; cbn [map concat] in E.
  { rewrite app_nil_r, WebSocket.entity_state_absent in E; done. }
  destruct (Hs r ltac:(constructor)) as [Hst Hr].
  assert (Sep : forall more, cut e (head ++ report_text r ++ more) = cut e (report_text r ++ more)).
  { intros more. change (report_text r ++ more) with (123 :: drop 1 (report_text r) ++ more). by apply cut_past_sep. }
  destruct (decide (r_entity r = e)) as [<-|Hne].
  - rewrite (WebSocket.entity_state_here _ _ (r_state r) (r_rest r ++ concat (map report_text reports))) in E.
    + exists r. split; [constructor|]. split; [done|]. destruct (is_empty (r_entity r)); [discriminate|].
      destruct (bytes_eqb (r_state r) (str "on") || _); [|discriminate]. by injection E.
    + exact Hq.
    + by apply plain_noquotes.
    + rewrite Sep. by apply report_cut.
  - destruct Hr as [Hr|Hr]; [done|]. destruct (IH (head ++ report_text r)) as (r' & Hi & Hr').
    + pose proof (Sep []) as S0. rewrite !app_nil_r in S0. rewrite S0. by apply contains_none.
    + intros r' Hi. apply Hs. by constructor.
    + by rewrite <- app_assoc.
    + exists r'. split; [by constructor|exact Hr'].
Qed.

(** Of a clear message the panel takes what a report says. *)
Lemma clear_update m u i on :
  (forall e, e ∈ ha_controls -> e <> [] -> id_ok e) -> clear m ->
  WebSocket.react ha_controls (message_text m) = WebSocket.Update u -> u !! i = Some (Some on) ->
  exists e r, ha_controls !! i = Some e /\ r ∈ reports_of m /\ r_entity r = e /\ on = is_on (r_state r).
Proof.
  intros Hid [Hsep Hm] E Hu. unfold WebSocket.react in E.
  destruct (contains _ (str "auth_required")); [discriminate|]. destruct (contains _ (str "auth_ok")); [discriminate|].
  destruct (contains _ (str "state_changed") || contains _ (str "entity_id")) eqn:Ec; [|discriminate].
  set (J := match str_find _ _ _ with None => _ | Some k => _ end) in E.
  apply (f_equal (fun r => match r with WebSocket.Update u => u | _ => [] end)) in E. cbn beta iota in E.
  rewrite <- E in Hu. change (map ?f ?l) with (f <$> l) in Hu. rewrite list_lookup_fmap in Hu. clear E u. subst J.
  destruct (ha_controls !! i) as [e|] eqn:Ee; [|done]. cbn [fmap option_fmap option_map] in Hu. injection Hu as Hu.
  pose proof (list_elem_of_lookup_2 _ _ _ Ee) as Hi.
  assert (He : id_ok e) by (apply Hid; [done|]; intros ->; done). exists e.
  destruct m as [before new|before reports|text]; cbn [message_text reports_of] in *.
  - rewrite Hm in Hu. unfold substr_from in Hu. rewrite drop_app_length in Hu.
    destruct (reports_read e (dq "'new_state':") [new] on He) as (r & H1 & H2 & H3).
    + apply (cut_absent 46); [apply He|]. vm_compute. intuition discriminate.
    + intros r. by apply Hsep.
    + cbn [map concat]. by rewrite app_nil_r.
    + by exists r.
  - destruct Hm as [Hn Hb]. rewrite Hn in Hu. destruct (reports_read e before reports on He) as (r & H1 & H2 & H3).
    + by apply contains_none, Hb.
    + intros r. by apply Hsep.
    + done.
    + by exists r.
  - destruct Hm as [H1 H2]. by rewrite H1, H2 in Ec.
Qed.

(** The reply to a request is read as what it tells. *)
Lemma scan_plain st rest : plain st -> forall acc, scan_value (st ++ 34 :: rest) acc = acc ++ st.
Proof.
  induction 1 as [|b st [H1 H2] _ IH]; intros acc; cbn [app scan_value].
  - by rewrite app_nil_r.
  - rewrite (proj2 (Z.eqb_neq b 34)), (proj2 (Z.eqb_neq b 92)) by done. cbn [negb]. by rewrite IH, <- app_assoc.
Qed.

Lemma prefix_quoted k e t : Forall (fun b => b <> 34) k -> Forall (fun b => b <> 34) e -> prefixb (k ++ [34]) (e ++ 34 :: t) = true -> k = e.
Proof.
  intros Hk. revert e. induction Hk as [|b k Hb _ IH]; intros e He E; destruct He as [|c e Hc He]; cbn [app prefixb] in E;
    apply andb_true_iff in E as [E1 E2]; to_prop; [done|lia|lia|]. f_equal; [lia|]. by apply IH.
Qed.

Lemma report_state e st rest : id_ok e -> plain st ->
  parse_json_value (report_text (mkReport e st rest)) (str "state") = st.
Proof.
  intros (Hdot & Hq & _)%id_parts Hst. unfold parse_json_value, report_text. cbn [r_entity r_state r_rest].
  set (J := dq "{'entity_id':'" ++ e ++ dq "','state':'" ++ st ++ 34 :: rest).
  destruct (str_find_at J (marker (str "state")) 0 J (marker (str "state") ++ 58 :: 34 :: st ++ 34 :: rest)) as (k & -> & D & B); [lia|done| |].
  { unfold J. change (dq "{'entity_id':'" ++ ?t) with (dq "{'entity_id':" ++ 34 :: t).
    rewrite (cut_skip _ (dq "{'entity_id':")).
    - rewrite cut_next.
      + change (marker (str "state")) with (34 :: str "state" ++ [34]) at 1. rewrite cut_skip_head by exact Hq.
        change (dq "','state':'" ++ st ++ 34 :: rest) with (34 :: 44 :: marker (str "state") ++ 58 :: 34 :: st ++ 34 :: rest).
        rewrite !cut_next by reflexivity. apply cut_here, prefixb_app.
      + apply not_true_iff_false. intros P. change (prefixb (str "state" ++ [34]) (e ++ 34 :: 44 :: marker (str "state") ++ 58 :: 34 :: st ++ 34 :: rest) = true) in P.
        apply prefix_quoted in P; [|repeat constructor; discriminate|exact Hq]. rewrite <- P in Hdot. vm_compute in Hdot. intuition discriminate.
    - intros q [p E] Hne. assert (L : (length p < 13)%nat).
      { apply (f_equal length) in E. rewrite length_app in E. change (length (dq "{'entity_id':")) with 13%nat in E. destruct q; [done|cbn [length] in E; lia]. }
      assert (q = drop (length p) (dq "{'entity_id':")) as -> by (by rewrite E, drop_app_length).
      do 13 (destruct p as [|? p]; [reflexivity|]). cbn [length] in L. lia. }
  destruct (str_find_at J [58] k _ (58 :: 34 :: st ++ 34 :: rest) ltac:(lia) D) as (k1 & -> & D1 & B1).
  { rewrite (cut_skip_head 58) by (vm_compute; repeat constructor; discriminate). by apply cut_here. }
  destruct (str_find_at J [34] k1 _ (34 :: st ++ 34 :: rest) ltac:(lia) D1) as (k2 & -> & D2 & B2).
  { rewrite cut_next by reflexivity. by apply cut_here. }
  assert (D3 : drop (S k2) J = st ++ 34 :: rest) by (rewrite <- Nat.add_1_r, <- drop_drop, D2; reflexivity).
  rewrite D3, scan_plain by exact Hst. done.
Qed.

Lemma tells_reads e st printed : id_ok e -> tells e st printed ->
  ha_get (Some printed) = (true, snd (ha_get (Some printed))) /\ parse_json_value (snd (ha_get (Some printed))) (str "state") = st.
Proof.
  intros He (Hst & version & code & headers & rest & Hv & Hn & Hc & -> & Hcut). unfold ha_get.
  rewrite (Status.ha_response_correct version code headers) by (done || lia).
  rewrite (proj2 (Z.leb_le 200 code)), (proj2 (Z.ltb_lt code 300)) by lia. split; [done|]. by apply report_state.
Qed.

Lemma inv_apply s l : Inv s -> Inv (apply s l).
Proof.
  intros [H1 H2 H3 H4 H5]. destruct l as [i st|msg| | | |k printed|k|k|i|k st]; cbn [apply].
  - constructor; cbn; try done. by rewrite length_insert.
  - by constructor.
  - unfold read_message. destruct (wire s) as [|msg rest]; [by constructor|].
    destruct (WebSocket.react ha_controls msg) as [| |u|]; constructor; cbn; try done.
    + apply Forall_app. split; [exact H4|]. apply Forall_forall. by intros p (i & on & -> & _)%posts_spec.
    + rewrite results_app, posts_results. lia.
  - by constructor.
  - unfold state_poll_timer_cb. case_if; [by constructor|]. destruct (g_ha_poll_in_progress s) eqn:Eg; [by constructor; rewrite ?Eg|].
    constructor; cbn; try done; [apply Forall_app; split; [exact H3|repeat constructor; cbn; lia]|rewrite length_app; cbn; lia].
  - unfold poll_request. destruct (polls s !! k) as [rs|] eqn:Ek; [|by constructor].
    destruct (ha_controls !! length rs) as [e|] eqn:Ee; [|by constructor].
    constructor; cbn; try done; [|by rewrite length_insert]. apply Forall_insert; [exact H3|].
    apply lookup_lt_Some in Ee. cbn in Ee. rewrite length_app. cbn. lia.
  - unfold poll_post. destruct (polls s !! k) as [rs|] eqn:Ek; [|by constructor]. destruct (Nat.eqb_spec (length rs) 2) as [El|]; [|by constructor].
    constructor; cbn; try done.
    + by apply Forall_delete.
    + apply Forall_app. split; [exact H4|]. repeat constructor. unfold poll_result. by rewrite length_map.
    + rewrite results_app, length_delete by eauto. change (results [_]) with 1%nat. apply lookup_lt_Some in Ek. lia.
  - unfold run_async. destruct (async s !! k) as [p|] eqn:Ek; [|by constructor].
    pose proof (results_delete _ _ _ Ek) as R. pose proof (Forall_lookup_1 _ _ _ _ H4 Ek) as Hp.
    pose proof (Forall_delete _ _ k H4) as H4'.
    destruct p as [i on|r]; constructor; cbn in *; try done.
    + by rewrite length_insert.
    + lia.
    + unfold show_result. rewrite length_zip_with. lia.
    + destruct (g_ha_poll_in_progress s); lia.
  - unfold btn_event_cb. destruct (ha_controls !! i) as [e|]; [destruct (Status.btn_request e)|]; constructor; cbn; try done; by rewrite length_alter.
  - destruct (toggles s !! k) as [i|]; [|by constructor]. destruct st; constructor; cbn; try done. by rewrite length_insert.
Qed.

Lemma run_app s a b : run s (a ++ b) = run (run s a) b.
Proof. apply fold_left_app. Qed.

Lemma settled_app a b : forall s, settled s (a ++ b) <-> settled s a /\ settled (run s a) b.
Proof.
  induction a as [|l a IH]; intros s; cbn [app settled]; [unfold run; cbn; tauto|]. rewrite IH. unfold run. cbn [fold_left]. tauto.
Qed.

Lemma inv_run s ls : Inv s -> Inv (run s ls).
Proof. revert s. induction ls as [|l ls IH]; intros s H; [exact H|]. apply (IH (apply s l)). by apply inv_apply. Qed.

Lemma inv_reachable s : reachable s -> Inv s.
Proof.
  intros (states & printed & ls & H1 & H2 & ->). apply inv_run. constructor; cbn; try done; try by constructor. destruct printed as [|? [|? ?]]; try discriminate. cbn. lia.
Qed.

(** *** Quiet runs *)

Lemma agree_insert s i j on :
  Inv s -> (forall st, ha s !! j = Some st -> on = is_on st) -> agree s i -> is_on <$> ha s !! i = <[j := on]> (buttons s) !! i.
Proof.
  intros I Hon A. destruct (decide (i = j)) as [<-|Hij]; [|by rewrite list_lookup_insert_ne by congruence].
  destruct (decide (i < 2)%nat) as [Hi|Hi].
  - rewrite list_lookup_insert_eq by (rewrite (inv_buttons s I); lia).
    destruct (lookup_lt_is_Some_2 (ha s) i) as [st E]; [rewrite (inv_ha s I); lia|]. rewrite E. cbn. f_equal. symmetry. by apply Hon.
  - rewrite list_insert_ge by (rewrite (inv_buttons s I); lia). exact A.
Qed.

(** What showing a result does to button [i]. *)
Lemma show_result_agree s r i :
  Inv s -> length r = 2%nat ->
  (forall st st', r !! i = Some (true, st') -> ha s !! i = Some st -> st' = st) ->
  agree s i \/ (exists st, r !! i = Some (true, st)) ->
  is_on <$> ha s !! i = show_result r (buttons s) !! i.
Proof.
  intros I Hr Ht H. unfold show_result. rewrite lookup_zip_with.
  destruct (decide (i < 2)%nat) as [Hi|Hi].
  - destruct (lookup_lt_is_Some_2 (ha s) i) as [st E]; [rewrite (inv_ha s I); lia|].
    destruct (lookup_lt_is_Some_2 (buttons s) i) as [b Eb]; [rewrite (inv_buttons s I); lia|].
    destruct (lookup_lt_is_Some_2 r i) as [[ok st'] Er]; [lia|]. unfold agree in H. rewrite E, Eb, Er in *. cbn in *.
    destruct ok; [by rewrite (Ht st st' eq_refl eq_refl)|]. destruct H as [H|[? [=]]]. exact H.
  - pose proof (inv_ha s I). rewrite (lookup_ge_None_2 (ha s)), (lookup_ge_None_2 r) by lia. done.
Qed.

Lemma poll_result_current (states : list bytes) rs :
  (forall i r st, rs !! i = Some r -> states !! i = Some st -> current st r) ->
  forall i st st', poll_result rs !! i = Some (true, st') -> states !! i = Some st -> st' = st.
Proof.
  intros H i st st'. unfold poll_result. change (map ?f rs) with (f <$> rs). rewrite list_lookup_fmap.
  destruct (rs !! i) as [[ok res]|] eqn:E; [|done]. cbn. destruct ok; [|done]. intros [= <-] Hs.
  specialize (H i _ st E Hs). by apply H.
Qed.

Section Settled.
Hypothesis Hids : forall e, e ∈ ha_controls -> e <> [] -> id_ok e.

Lemma fresh_apply s l :
  Inv s -> Fresh s -> quiet l -> honest s l ->
  Fresh (apply s l) /\ ha (apply s l) = ha s /\ (forall i, agree s i -> agree (apply s l) i).
Proof using Hids.
  intros I [F1 F2 F3] Q A. destruct l as [i st|msg| | | |k printed|k|k|i|k st]; cbn [apply quiet honest] in *; try done.
  - split; [|by split]. constructor; try done. cbn. apply Forall_app. split; [exact F1|by repeat constructor].
  - unfold read_message. destruct (wire s) as [|msg rest] eqn:Ew; [split; [constructor; rewrite ?Ew|]; done|].
    inversion F1 as [|? ? (m & -> & C & T) F1']; subst.
    destruct (WebSocket.react ha_controls (message_text m)) as [| |u|] eqn:Eu; (split; [constructor; cbn; try done|by split]).
    apply Forall_app. split; [exact F2|]. apply Forall_forall. intros p (i & on & -> & Hu)%posts_spec st Hs.
    destruct (clear_update m u i on Hids C Eu Hu) as (e & r & He & Hr & Hre & ->). by rewrite (T i e st r).
  - unfold state_poll_timer_cb. case_if; [by split; [constructor|split]|]. case_if; [by split; [constructor|split]|].
    split; [|by split]. constructor; cbn; try done. apply Forall_app. split; [exact F3|by repeat constructor].
  - unfold poll_request. destruct (polls s !! k) as [rs|] eqn:Ek; [|by split; [constructor|split]].
    destruct (ha_controls !! length rs) as [e|] eqn:Ee; [|by split; [constructor|split]].
    split; [|by split]. constructor; cbn; try done. apply Forall_insert; [exact F3|]. intros i r st Hr Hs.
    apply lookup_app_Some in Hr as [Hr|[Hi Hr]]; [by apply (Forall_lookup_1 _ _ _ _ F3 Ek) with i|].
    apply list_lookup_singleton_Some in Hr as [Hi' <-]. assert (i = length rs) as -> by lia.
    destruct (is_empty e) eqn:Ee0; [done|]. unfold current. destruct (A rs e st eq_refl Ee Hs) as [->|(text & -> & Ht)]; [done|].
    intros _. apply (tells_reads e st text); [|done]. apply Hids; [by eapply list_elem_of_lookup_2|by intros ->].
  - unfold poll_post. destruct (polls s !! k) as [rs|] eqn:Ek; [|by split; [constructor|split]].
    case_if; [|by split; [constructor|split]]. split; [|by split]. constructor; cbn; try done; [|by apply Forall_delete].
    apply Forall_app. split; [exact F2|]. constructor; [|constructor]. apply poll_result_current. by apply (Forall_lookup_1 _ _ _ _ F3 Ek).
  - unfold run_async. destruct (async s !! k) as [p|] eqn:Ek; [|by split; [constructor|split]].
    pose proof (Forall_lookup_1 _ _ _ _ F2 Ek) as Hp. pose proof (Forall_delete _ _ k F2) as F2'.
    destruct p as [i on|r]; (split; [by constructor|split; [done|]]); intros j Hj; unfold agree; cbn.
    + by apply agree_insert.
    + apply show_result_agree; [exact I|exact (Forall_lookup_1 _ _ _ _ (inv_results _ I) Ek)|exact (Hp j)|by left].
  - destruct st; [done|]. destruct (toggles s !! k); (split; [by constructor|by split]).
Qed.

Lemma settled_run ls : forall s,
  Inv s -> Fresh s -> settled s ls ->
  Fresh (run s ls) /\ ha (run s ls) = ha s /\ (forall i, agree s i \/ shows i s ls -> agree (run s ls) i).
Proof using Hids.
  induction ls as [|l ls IH]; intros s I F R.
  - split; [exact F|]. split; [done|]. intros i [H|[]]. exact H.
  - destruct R as (Q & A & R). change (run s (l :: ls)) with (run (apply s l) ls).
    destruct (fresh_apply s l I F Q A) as (F' & E & G). destruct (IH _ (inv_apply s l I) F' R) as (F2 & E2 & G2).
    split; [exact F2|]. split; [congruence|]. intros i H. apply G2. cbn [shows] in H.
    destruct H as [H|[(k & r & st & -> & Ek & Er)|H]]; [left; by apply G|left|by right].
    cbn [apply]. unfold run_async. rewrite Ek. unfold agree. cbn. apply show_result_agree; [exact I| | |by right; exists st].
    + exact (Forall_lookup_1 _ _ _ _ (inv_results _ I) Ek).
    + exact (Forall_lookup_1 _ _ _ _ (fresh_async _ F) Ek i).
Qed.

End Settled.

(** *** Work under way comes to an end *)

Definition calm (s s' : State) : Prop := exists ls, settled s ls /\ run s ls = s'.

Lemma calm_refl s : calm s s.
Proof. by exists []. Qed.

Lemma calm_trans s1 s2 s3 : calm s1 s2 -> calm s2 s3 -> calm s1 s3.
Proof. intros (a & Qa & <-) (b & Qb & <-). exists (a ++ b). rewrite settled_app, run_app. done. Qed.

Lemma calm_step s l : quiet l -> honest s l -> calm s (apply s l).
Proof. intros Q A. by exists [l]. Qed.

Lemma calm_step_to s l s' : quiet l -> honest s l -> apply s l = s' -> calm s s'.
Proof. intros Q A <-. by apply calm_step. Qed.

Lemma calm_toggles l : forall s, toggles s = l -> calm s (set_toggles [] s).
Proof.
  induction l as [|i l IH]; intros s E.
  - destruct s. cbn in E. subst. apply calm_refl.
  - eapply calm_trans; [apply (calm_step s (ToggleDone 0 None)); done|]. cbn [apply]. rewrite E. cbn.
    exact (IH (set_toggles l s) eq_refl).
Qed.

(** A poll whose requests fail, or are done, is posted. *)
Lemma calm_poll n : forall s rs, (length rs + n = 2)%nat -> polls s = [rs] ->
  exists r, calm s (set_async (async s ++ [PollResult r]) (set_polls (g_ha_poll_in_progress s) [] s)).
Proof.
  induction n as [|n IH]; intros s rs Hn E.
  - exists (poll_result rs). apply (calm_step_to s (PollPost 0)); [done..|]. cbn. unfold poll_post. rewrite E. cbn.
    by rewrite (proj2 (Nat.eqb_eq (length rs) 2)) by lia.
  - destruct (lookup_lt_is_Some_2 ha_controls (length rs)) as [e Ee]; [cbn; lia|].
    assert (C : calm s (set_polls (g_ha_poll_in_progress s) [rs ++ [(false, [])]] s)).
    { apply (calm_step_to s (PollRequest 0 None)); [done| |].
      - intros rs' e' st _ _ _. by left.
      - cbn. unfold poll_request. rewrite E. cbn [lookup list_lookup]. rewrite Ee. by case_if. }
    destruct (IH (set_polls (g_ha_poll_in_progress s) [rs ++ [(false, [])]] s) (rs ++ [(false, [])])) as [r Hr];
      [rewrite length_app; cbn; lia|done|].
    exists r. exact (calm_trans _ _ _ C Hr).
Qed.

Lemma calm_async n : forall s, length (async s) = n ->
  exists s', calm s s' /\ async s' = [] /\ polls s' = polls s /\ wire s' = wire s /\ toggles s' = toggles s.
Proof.
  induction n as [|n IH]; intros s E.
  - exists s. split; [apply calm_refl|]. destruct (async s); [done|discriminate].
  - destruct (async s) as [|p l] eqn:El; [discriminate|].
    destruct (IH (apply s (RunAsync 0))) as (s' & C & H1 & H2 & H3 & H4).
    { cbn. unfold run_async. rewrite El. destruct p; cbn; by injection E. }
    exists s'. split; [eapply calm_trans; [by apply (calm_step s (RunAsync 0))|exact C]|].
    cbn in H2, H3, H4. unfold run_async in H2, H3, H4. rewrite El in H2, H3, H4. by destruct p.
Qed.

(** Nothing is under way. *)
Record Idle (s : State) : Prop := mkIdle {
  idle_wire : wire s = [];
  idle_async : async s = [];
  idle_polls : polls s = [];
  idle_toggles : toggles s = [];
  idle_flag : g_ha_poll_in_progress s = false;
}.

Lemma idle_fresh s : Idle s -> Fresh s.
Proof. intros [E1 E2 E3 _ _]. constructor; rewrite ?E1, ?E2, ?E3; constructor. Qed.

Lemma run_ha ls : forall s, settled s ls -> ha (run s ls) = ha s.
Proof.
  induction ls as [|l ls IH]; intros s Q; [done|]. destruct Q as (Ql & _ & Q). change (run s (l :: ls)) with (run (apply s l) ls).
  rewrite (IH _ Q). destruct l as [| | | | |k printed|k|k| |k [|]]; cbn in *; try done.
  - unfold read_message. destruct (wire s); [done|]. by destruct (WebSocket.react ha_controls _).
  - unfold state_poll_timer_cb. by repeat case_if.
  - unfold poll_request. destruct (polls s !! k); [|done]. by destruct (ha_controls !! _).
  - unfold poll_post. destruct (polls s !! k); [|done]. by case_if.
  - unfold run_async. destruct (async s !! k) as [[]|]; done.
  - by destruct (toggles s !! k).
Qed.

Lemma calm_keeps s s' : Inv s -> calm s s' -> Inv s' /\ ha s' = ha s.
Proof. intros I (ls & Q & <-). split; [by apply inv_run|by apply run_ha]. Qed.

Lemma becomes_idle s : Inv s -> exists s', calm s s' /\ Idle s'.
Proof.
  intros I.
  assert (C1 : calm s (set_wire [] s)) by (by apply (calm_step s ConnectionLost)).
  pose proof (calm_toggles _ (set_wire [] s) eq_refl) as C2. set (s2 := set_toggles [] (set_wire [] s)) in *.
  assert (C3 : exists s3, calm s2 s3 /\ polls s3 = [] /\ wire s3 = [] /\ toggles s3 = []).
  { pose proof (inv_flight _ I) as Fl. pose proof (inv_polls _ I) as Hp. destruct (polls s) as [|rs [|? ?]] eqn:E; cbn in Fl.
    - exists s2. split; [apply calm_refl|]. by rewrite <- E.
    - inversion Hp; subst. destruct (calm_poll (2 - length rs) s2 rs) as [r Hr]; [lia|done|]. eexists. split; [exact Hr|done].
    - destruct (g_ha_poll_in_progress s); lia. }
  destruct C3 as (s3 & C3 & P3 & W3 & T3).
  destruct (calm_async _ s3 eq_refl) as (s4 & C4 & A4 & P4 & W4 & T4).
  exists s4. assert (C : calm s s4) by (eapply calm_trans, calm_trans, calm_trans; eauto).
  split; [exact C|]. constructor; try congruence. pose proof (inv_flight s4 (proj1 (calm_keeps _ _ I C))) as Fl.
  rewrite A4, P4, P3 in Fl. by destruct (g_ha_poll_in_progress s4).
Qed.

(** *** A poll *)

Definition poll (printed : list bytes) : list Label :=
  PollTimer :: map (fun p => PollRequest 0 (Some p)) printed ++ [PollPost 0; RunAsync 0].

Lemma poll_runs s st1 st2 p1 p2 :
  is_empty url = false -> is_empty token = false -> id_ok entity_1 -> id_ok entity_2 ->
  Idle s -> ha s = [st1; st2] -> length (buttons s) = 2%nat -> tells entity_1 st1 p1 -> tells entity_2 st2 p2 ->
  settled s (poll [p1; p2]) /\ Idle (run s (poll [p1; p2])) /\ forall i, agree (run s (poll [p1; p2])) i.
Proof.
  intros U T E1 E2 [W A P Ts F] Eh Eb R1 R2. destruct s as [h b w a f ps ts].
  cbn [wire async polls toggles g_ha_poll_in_progress ha buttons] in *. subst.
  destruct (tells_reads _ _ _ E1 R1) as [O1 S1], (tells_reads _ _ _ E2 R2) as [O2 S2].
  assert (N1 : is_empty entity_1 = false) by (destruct entity_1; [by destruct (proj1 E1)|done]).
  assert (N2 : is_empty entity_2 = false) by (destruct entity_2; [by destruct (proj1 E2)|done]).
  set (s0 := mkState [st1; st2] b [] [] false [] []).
  assert (A1 : apply s0 PollTimer = mkState [st1; st2] b [] [] true [[]] []) by (cbn; unfold state_poll_timer_cb; by rewrite U, T).
  assert (A2 : apply (mkState [st1; st2] b [] [] true [[]] []) (PollRequest 0 (Some p1)) = mkState [st1; st2] b [] [] true [[ha_get (Some p1)]] []).
  { unfold apply, poll_request. cbn [polls lookup list_lookup length ha_controls]. by rewrite N1. }
  assert (A3 : apply (mkState [st1; st2] b [] [] true [[ha_get (Some p1)]] []) (PollRequest 0 (Some p2)) =
    mkState [st1; st2] b [] [] true [[ha_get (Some p1); ha_get (Some p2)]] []).
  { unfold apply, poll_request. cbn [polls lookup list_lookup length ha_controls]. by rewrite N2. }
  assert (R : run s0 (poll [p1; p2]) = run (mkState [st1; st2] b [] [] true [[ha_get (Some p1); ha_get (Some p2)]] []) [PollPost 0; RunAsync 0]).
  { unfold run, poll. cbn [map app fold_left]. by rewrite A1, A2, A3. }
  split.
  - unfold poll. cbn [map app settled]. rewrite A1, A2, A3. split_and!; try done.
    + intros rs e st [= <-] [= <-] [= <-]. right. by exists p1.
    + intros rs e st [= <-] [= <-] [= <-]. right. by exists p2.
  - rewrite R. clear R A1 A2 A3. destruct (ha_get (Some p1)) as [o1 b1], (ha_get (Some p2)) as [o2 b2]. cbn [snd] in *.
    injection O1 as ->. injection O2 as ->. destruct b as [|c1 [|c2 [|]]]; try discriminate.
    split; [by constructor|]. intros i. unfold agree. cbn -[parse_json_value]. rewrite S1, S2. by destruct i as [|[|i]].
Qed.

(** C32. The buttons and Home Assistant.  In every interleaving of changes in
    Home Assistant, messages (whatever their text), polls (whatever curl prints),
    clicks and calls left to LVGL, there is at most one poll under way.  For ids of
    the form domain.object: from every state so reached, the panel can come to
    agree with Home Assistant: there is a course in which nothing is clicked and
    Home Assistant does not change, after which one poll that succeeds shows both
    entities' states.  And once nothing is clicked, Home Assistant does not change,
    and what is under way is current ([Fresh], in particular when nothing is under
    way), then in every course in which replies tell the state of their entity and
    messages report states truly and mention a control in its own report only
    ([clear]: no other entity's id or attribute contains the id of a control), a
    button that agrees stays so, and every poll shown that reports on an entity
    makes its button agree from then on.  Without [clear] an event does take a
    button away: see [prefix_misread]. *)
Theorem dashboard_converges s
    (Hurl : is_empty url = false) (Htoken : is_empty token = false)
    (H1 : id_ok entity_1) (H2 : id_ok entity_2) (Hs : reachable s) :
  (length (polls s) + results (async s) <= 1)%nat /\
  (forall st1 st2 p1 p2, ha s = [st1; st2] -> tells entity_1 st1 p1 -> tells entity_2 st2 p2 ->
   exists ls, settled s (ls ++ poll [p1; p2]) /\
     let s' := run s (ls ++ poll [p1; p2]) in ha s' = ha s /\ Idle s' /\ forall i, agree s' i) /\
  (Idle s -> Fresh s) /\
  (Fresh s -> forall ls, settled s ls ->
   let s' := run s ls in ha s' = ha s /\ Fresh s' /\ forall i, agree s i \/ shows i s ls -> agree s' i).
Proof.
  pose proof (inv_reachable s Hs) as I. split; [rewrite (inv_flight s I); case_if; lia|].
  split; [|split; [apply idle_fresh|]].
  - intros st1 st2 p1 p2 Eh R1 R2. destruct (becomes_idle s I) as (s1 & C & Id).
    destruct (calm_keeps _ _ I C) as [I1 E1]. destruct C as (ls & Q & <-).
    destruct (poll_runs (run s ls) st1 st2 p1 p2) as (Q' & Id' & Ag); try done; [congruence|apply I1|].
    exists ls. cbv zeta. rewrite settled_app, run_app. split; [done|]. split; [|done]. by rewrite run_ha.
  - intros F ls Q. assert (Hk : forall e, e ∈ ha_controls -> e <> [] -> id_ok e).
    { intros e He _. apply list_elem_of_In in He as [<-|[<-|[]]]; done. }
    destruct (settled_run Hk ls s I F Q) as (F' & E & Ag). by split.
Qed.

End Panel.

(** *** Examples *)

Definition light : bytes := str "light.kitchen".
Definition fan : bytes := str "fan.bathroom".
Definition body_of (entity st : bytes) : bytes := dq "{'entity_id':'" ++ entity ++ dq "','state':'" ++ st ++ dq "','attributes':{}}".
Definition printed_of (entity st : bytes) : bytes :=
  str "HTTP/1.1 200 OK" ++ [13; 10] ++ str "Content-Type: application/json" ++ [13; 10; 13; 10] ++ body_of entity st.
Definition event_of (entity old st : bytes) : bytes :=
  dq "{'type':'event','event':{'event_type':'state_changed','data':{'entity_id':'" ++ entity ++
  dq "','old_state':{'entity_id':'" ++ entity ++ dq "','state':'" ++ old ++ dq "'},'new_state':{'entity_id':'" ++ entity ++
  dq "','state':'" ++ st ++ dq "'}}}}".

(** The light is switched on elsewhere while a poll that still saw it off is
    under way, whose result is shown after the event. *)
Definition course : list Label := [
  PollTimer; PollRequest 0 (Some (printed_of light (str "off"))); HaChanges 0 (str "on");
  HaSends (event_of light (str "off") (str "on")); ReadMessage; PollRequest 0 (Some (printed_of fan (str "on")));
  PollPost 0; RunAsync 0; RunAsync 0].

Lemma light_id : id_ok light.
Proof. split; [vm_compute; tauto|repeat constructor; discriminate]. Qed.
Lemma fan_id : id_ok fan.
Proof. split; [vm_compute; tauto|repeat constructor; discriminate]. Qed.

Lemma sample_tells entity : entity = light \/ entity = fan -> tells entity (str "on") (printed_of entity (str "on")).
Proof.
  intros H. split; [repeat constructor; discriminate|].
  exists (str "1.1"), 200, (str "OK" ++ [13; 10] ++ str "Content-Type: application/json"), (dq ",'attributes':{}}").
  cbv zeta. split; [repeat constructor|]. split; [done|]. split; [lia|]. destruct H as [-> | ->]; split; vm_compute; reflexivity.
Qed.

Lemma dashboard_converges_witness :
  let s := run (str "http://ha") (str "token") light fan (create_home_assistant_ui light fan [str "off"; str "on"] [None; None]) course in
  ~ agree s 0 /\
  exists ls, settled (str "http://ha") (str "token") light fan s (ls ++ poll [printed_of light (str "on"); printed_of fan (str "on")]) /\
    forall i, agree (run (str "http://ha") (str "token") light fan s (ls ++ poll [printed_of light (str "on"); printed_of fan (str "on")])) i.
Proof.
  cbv zeta. split; [vm_compute; discriminate|].
  edestruct (dashboard_converges (str "http://ha") (str "token") light fan) as (_ & H & _); [reflexivity|reflexivity| | | |].
  - exact light_id.
  - exact fan_id.
  - exists [str "off"; str "on"], [None; None], course. split; [done|]. split; [done|]. reflexivity.
  - destruct (H (str "on") (str "on") (printed_of light (str "on")) (printed_of fan (str "on"))) as (ls & Q & _ & _ & A).
    + vm_compute. reflexivity.
    + by apply sample_tells; left.
    + by apply sample_tells; right.
    + exists ls. split; [exact Q|exact A].
Defined.

(** Without [clear]: the id of an entity is looked for anywhere in the event, and
    a true report on [light.kitchen_2] takes the button of [light.kitchen] away
    from a state that it showed, with nothing else under way. *)
Theorem prefix_misread :
  let m := StateChanged [] (mkReport (str "light.kitchen_2") (str "on") (str "}")) in
  let s := mkState [str "off"; str "on"] [false; true] [] [] false [] [] in
  let s' := run (str "http://ha") (str "token") light fan s [HaSends (message_text m); ReadMessage; RunAsync 0] in
  truthful light fan (ha s) m /\ agree s 0 /\ ~ agree s' 0.
Proof.
  cbv zeta. split; [|split; [reflexivity|vm_compute; discriminate]].
  intros i e st r He Hst Hr <-. apply list_elem_of_singleton in Hr as ->. destruct i as [|[|i]]; vm_compute in He; discriminate.
Qed.

(** A click that Home Assistant follows leaves the button with the entity. *)
Theorem click_toggles url token e1 e2 s i entity st st' :
  ha_controls e1 e2 !! i = Some entity -> Status.btn_request entity <> None -> agree s i -> ha s !! i = Some st ->
  toggles s = [] -> is_on st' = negb (is_on st) ->
  let s' := run url token e1 e2 s [Clicked i; ToggleDone 0 (Some st')] in agree s' i /\ ha s' !! i = Some st'.
Proof.
  intros He Hb A Hs Ht Hst. cbn. unfold btn_event_cb. rewrite He. destruct (Status.btn_request entity); [|done].
  cbn. rewrite Ht. cbn. apply lookup_lt_Some in Hs as Hl. unfold agree in *. cbn.
  rewrite list_lookup_insert_eq by exact Hl. split; [|done]. rewrite list_lookup_alter_eq, <- A, Hs. cbn. by rewrite Hst.
Qed.

(** An entity whose domain is not one of the four a click serves: the button
    toggles and no request is made. *)
Theorem click_without_request url token e1 e2 s i entity :
  ha_controls e1 e2 !! i = Some entity -> Status.btn_request entity = None -> agree s i -> (i < length (ha s))%nat ->
  let s' := run url token e1 e2 s [Clicked i] in toggles s' = toggles s /\ ~ agree s' i.
Proof.
  intros He Hb A Hi. cbn. unfold btn_event_cb. rewrite He, Hb. cbn. split; [done|].
  unfold agree in *. cbn. rewrite list_lookup_alter_eq, <- A. destruct (lookup_lt_is_Some_2 (ha s) i Hi) as [st ->]. cbn.
  by destruct (is_on st).
Qed.

(** The texts that are published are read back by the panel's own reader. *)
Theorem published_state url token ip blanked timeout :
  is_empty url = false -> is_empty token = false ->
  map (fun r => parse_json_value (snd r) (str "state")) (publish_panel_state_to_ha url token ip blanked timeout) =
  [if blanked then str "off" else str "on"; str "online"].
Proof. intros U T. unfold publish_panel_state_to_ha. rewrite U, T. by destruct blanked. Qed.

End Dashboard.
