(* ===== verification/Lines.v ===== *)
(** Line-oriented streams: the loop
    [while ((newline = output.find('\\n')) != npos)] with which
    assist_pipeline_bridge.cpp ([consume_output]) and wake_word_listener.cpp
    ([monitor_loop]) take whole lines out of what a child process wrote so far.
    However the bytes arrive, the handler sees the lines of the whole stream,
    once each and in order. *)
From S2P Require Import Prelude CString.
From stdpp Require Import list.
#[local] Open Scope Z_scope.

(** The loop over [output], with [fuel] turns: the lines it took out, without
    their newline, and what stays in [output]. *)
Fixpoint take_lines (fuel : nat) (output : bytes) : list bytes * bytes :=
  match fuel with
  | O => ([], output)
  | S fuel =>
      match str_find output [10] 0 with
      | None => ([], output)
      | Some newline =>
          let line := substr output 0 newline in
          let '(ls, rest) := take_lines fuel (drop (newline + 1) output) in (line :: ls, rest)
      end
  end.

(** A turn removes at least one byte, so this many turns always finish. *)
Definition drain (output : bytes) : list bytes * bytes := take_lines (S (length output)) output.

(** The lines of a text and its unfinished last line. *)
Fixpoint split_lines (s : bytes) : list bytes * bytes :=
  match s with
  | [] => ([], [])
  | b :: s =>
      let '(ls, rest) := split_lines s in
      if b =? 10 then ([] :: ls, rest)
      else match ls with [] => ([], b :: rest) | l :: ls => ((b :: l) :: ls, rest) end
  end.

Lemma split_lines_line l s :
  Forall (fun b => b <> 10) l ->
  split_lines (l ++ 10 :: s) = (l :: fst (split_lines s), snd (split_lines s)).
Proof.
  induction 1 as [|b l Hb _ IH]; cbn [app split_lines].
  - destruct (split_lines s). by rewrite Z.eqb_refl.
  - rewrite IH. destruct (Z.eqb_spec b 10); [done|reflexivity].
Qed.

Lemma split_lines_rest l : Forall (fun b => b <> 10) l -> split_lines l = ([], l).
Proof.
  induction 1 as [|b l Hb _ IH]; cbn [split_lines]; [done|]. rewrite IH. destruct (Z.eqb_spec b 10); done.
Qed.

(** Every text is lines and an unfinished line. *)
Lemma first_line s :
  (exists l t, s = l ++ 10 :: t /\ Forall (fun b => b <> 10) l) \/ Forall (fun b => b <> 10) s.
Proof.
  induction s as [|b s IH]; [right; constructor|]. destruct (Z.eq_dec b 10) as [->|Hb].
  - left. exists [], s. split; [done|constructor].
  - destruct IH as [(l & t & -> & Hl)|Hs]; [left; exists (b :: l), t|right]; auto.
Qed.

Lemma take_lines_split fuel : forall output,
  (length output < fuel)%nat -> take_lines fuel output = split_lines output.
Proof.
  induction fuel as [|fuel IH]; intros output Hf; [lia|]. cbn [take_lines].
  unfold str_find. rewrite drop_0. change (0 <=? length output)%nat with true.
  destruct (first_line output) as [(l & t & -> & Hl)|Hs].
  - rewrite find_byte by exact Hl. cbn [fmap option_fmap option_map]. rewrite Nat.add_0_l.
    rewrite length_app in Hf. cbn [length] in Hf. unfold substr. rewrite drop_0, take_app_length.
    change (l ++ 10 :: t) with (l ++ [10] ++ t). rewrite app_assoc, drop_app_exact by (rewrite length_app; done).
    rewrite IH by lia. rewrite <- app_assoc. cbn [app]. rewrite split_lines_line by exact Hl.
    by destruct (split_lines t).
  - rewrite find_byte_none, split_lines_rest by exact Hs. done.
Qed.

Lemma drain_split output : drain output = split_lines output.
Proof. apply take_lines_split. lia. Qed.

Lemma split_lines_app a b :
  split_lines (a ++ b) =
  (fst (split_lines a) ++ fst (split_lines (snd (split_lines a) ++ b)), snd (split_lines (snd (split_lines a) ++ b))).
Proof.
  remember (length a) as n eqn:Hn. revert a Hn. induction n as [n IH] using lt_wf_ind. intros a Hn.
  destruct (first_line a) as [(l & t & -> & Hl)|Ha].
  - rewrite <- app_assoc. cbn [app]. rewrite !split_lines_line by exact Hl. cbn [fst snd].
    rewrite (IH (length t)); [done| |done]. rewrite Hn, length_app. cbn [length]. lia.
  - rewrite (split_lines_rest a) by exact Ha. cbn [fst snd app]. by destruct (split_lines (a ++ b)).
Qed.

Lemma split_lines_whole ls rest :
  Forall (Forall (fun b => b <> 10)) ls -> Forall (fun b => b <> 10) rest ->
  split_lines (concat (map (fun l => l ++ [10]) ls) ++ rest) = (ls, rest).
Proof.
  intros Hl Hr. induction Hl as [|l ls Hl _ IH]; cbn [map concat app]; [by apply split_lines_rest|].
  rewrite <- !app_assoc. cbn [app]. rewrite split_lines_line by exact Hl. by rewrite IH.
Qed.

(** ** A consumer of lines *)
Section Consumer.
Context {S : Type} (on_line : S -> bytes -> S).

(** [output.append(chunk)] and the loop over the lines. *)
Definition feed (st : bytes * S) (chunk : bytes) : bytes * S :=
  let '(ls, rest) := drain (fst st ++ chunk) in (rest, fold_left on_line ls (snd st)).

(** The chunks of a stream do not matter, only its bytes. *)
Lemma feed_stream chunks : forall st,
  fold_left feed chunks (snd (split_lines (fst st)), fold_left on_line (fst (split_lines (fst st))) (snd st)) =
  feed st (concat chunks).
Proof.
  induction chunks as [|c chunks IH]; intros [out s]; cbn [fold_left concat fst snd].
  - unfold feed. rewrite app_nil_r, drain_split. cbn [fst snd]. by destruct (split_lines out).
  - unfold feed at 2. rewrite drain_split. cbn [fst snd].
    specialize (IH (out ++ c, s)). cbn [fst snd] in IH. rewrite (split_lines_app out c) in IH. cbn [fst snd] in IH.
    rewrite fold_left_app in IH. destruct (split_lines (snd (split_lines out) ++ c)) as [ls r]. cbn [fst snd] in IH.
    rewrite IH. unfold feed. cbn [fst snd]. by rewrite <- app_assoc.
Qed.

Lemma feed_lines chunks ls rest s :
  concat chunks = concat (map (fun l => l ++ [10]) ls) ++ rest ->
  Forall (Forall (fun b => b <> 10)) ls -> Forall (fun b => b <> 10) rest ->
  fold_left feed chunks ([], s) = (rest, fold_left on_line ls s).
Proof.
  intros E Hl Hr. pose proof (feed_stream chunks ([], s)) as H. cbn [fst snd split_lines fold_left] in H.
  rewrite H, E. unfold feed. cbn [fst snd app]. rewrite drain_split, split_lines_whole by assumption. reflexivity.
Qed.
End Consumer.
