(* ===== verification/Wifi.v ===== *)
(** The Wi-Fi screen (main.cpp): the list of networks made from the output of
    [wpa_cli scan_results] ([render_wifi_scan_results_timer_cb],
    [unescape_wpa_ssid]), the readers of the status ([get_wpa_status_key], ...),
    and what a connection writes and runs ([save_wifi_config_file],
    [wifi_connect_action_cb]).  What the programs print is an argument; the
    widgets are not modelled.  The theorems say that the list shows every other
    network once, with its strongest signal and in the order of the signals, and
    which names and passwords stay inside their quotes in the shell commands. *)
From S2P Require Import Prelude CString Lines.
From stdpp Require Import list gmap sorting.
#[local] Open Scope Z_scope.

Module Wifi.

(** ** Lines and tokens *)

(** [fgets] into a buffer with room for [room] characters and the NUL. *)
Fixpoint fgets (room : nat) (s : bytes) : bytes * bytes :=
  match room, s with
  | O, _ | _, [] => ([], s)
  | S room, b :: s => if b =? 10 then ([b], s) else let '(line, rest) := fgets room s in (b :: line, rest)
  end.

(** [while (fgets(line, size, pipe) != NULL)], [fuel] lines at most. *)
Fixpoint fgets_loop (fuel : nat) (size : nat) (s : bytes) : list bytes :=
  match fuel, s with
  | O, _ | _, [] => []
  | S fuel, _ => let '(line, rest) := fgets (size - 1) s in line :: fgets_loop fuel size rest
  end.

Definition read_lines (size : nat) (s : bytes) : list bytes := fgets_loop (length s) size s.

(** [strtok(s, delimiters)]: the token and where the next call goes on. *)
Definition strtok (delimiters : bytes) (s : bytes) : option (bytes * bytes) :=
  let is_delimiter c := existsb (Z.eqb c) delimiters in
  match ltrim is_delimiter s with
  | [] => None
  | s =>
      match find_pred is_delimiter s with
      | None => Some (s, [])
      | Some k => Some (take k s, drop (S k) s)
      end
  end.

Definition tab : bytes := [9].
Definition line_end : bytes := [13; 10].

(** [while (!s.empty() && (s.back() == '\r' || s.back() == '\n' || s.back() == ' ')) s.pop_back();] *)
Definition blank_end (c : Z) : bool := (c =? 13) || (c =? 10) || (c =? 32).
Definition trim_end (s : bytes) : bytes := rtrim blank_end s.

(** ** Networks *)

Definition hex_digit (c : Z) : option Z :=
  if (48 <=? c) && (c <=? 57) then Some (c - 48)
  else if (97 <=? c) && (c <=? 102) then Some (c - 87)
  else if (65 <=? c) && (c <=? 70) then Some (c - 55) else None.

(** [strtol(hex, &end, 16)] of two characters, when it ends after both: two
    digits, or a blank or a sign before a digit. *)
Definition strtol_hex2 (a b : Z) : option Z :=
  match hex_digit a, hex_digit b with
  | Some x, Some y => Some (16 * x + y)
  | None, Some y => if isspace a || (a =? 43) then Some y else if a =? 45 then Some (- y) else None
  | _, None => None
  end.

Fixpoint unescape_wpa_ssid (input : bytes) : bytes :=
  match input with
  | [] => []
  | c :: rest =>
      match rest with
      | x :: a :: b :: rest' =>
          if (c =? 92) && (x =? 120) then
            match strtol_hex2 a b with
            | Some val => u8 val :: unescape_wpa_ssid rest'
            | None => c :: unescape_wpa_ssid rest
            end
          else c :: unescape_wpa_ssid rest
      | _ => c :: unescape_wpa_ssid rest
      end
  end.

Record WifiNetworkInfo := mkNetwork { ssid : bytes; bssid : bytes; rssi : Z; flags : bytes }.

(** A line of the scan: [None] when a field is missing or the name is empty. *)
Definition scan_line (line : bytes) : option WifiNetworkInfo :=
  '(bssid, s) ← strtok tab line;
  '(freq, s) ← strtok tab s;
  '(rssi_str, s) ← strtok tab s;
  '(flags, s) ← strtok tab s;
  '(raw_ssid, _) ← strtok line_end s;
  let rssi := atoi rssi_str in
  let ssid := trim_end (unescape_wpa_ssid raw_ssid) in
  if is_empty ssid then None else Some (mkNetwork ssid bssid rssi flags).

(** [unique_ssids] *)
Definition add_network (unique_ssids : gmap bytes WifiNetworkInfo) (net : WifiNetworkInfo) : gmap bytes WifiNetworkInfo :=
  match unique_ssids !! ssid net with
  | Some old => if rssi old <? rssi net then <[ssid net := net]> unique_ssids else unique_ssids
  | None => <[ssid net := net]> unique_ssids
  end.

(** The loop skips the first line, the header. *)
Definition scanned (output : bytes) : list WifiNetworkInfo := omap scan_line (drop 1 (read_lines 512 output)).

Definition stronger (a b : WifiNetworkInfo) : Prop := rssi b <= rssi a.
#[export] Instance stronger_dec : RelDecision stronger.
Proof. intros a b. unfold stronger. apply _. Defined.

(** [std::sort] by signal; which of two equal ones comes first it does not
    say. *)
Definition networks (output current_ssid : bytes) : list WifiNetworkInfo :=
  let unique_ssids := fold_left add_network (scanned output) ∅ in
  merge_sort stronger (map snd (filter (fun p => p.1 <> current_ssid) (map_to_list unique_ssids))).

Definition signal_desc (net : WifiNetworkInfo) : bytes :=
  let dbm := str " (" ++ to_string (rssi net) ++ str " dBm)" in
  if -50 <=? rssi net then str "Sygnał: Bardzo silny" ++ dbm
  else if -65 <=? rssi net then str "Sygnał: Dobry" ++ dbm
  else if -80 <=? rssi net then str "Sygnał: Dostateczny" ++ dbm
  else str "Sygnał: Słaby" ++ dbm.

(** ** The status *)

Definition exec_cmd_line (output : bytes) : bytes :=
  match read_lines 256 output with [] => [] | line :: _ => trim_end line end.

Fixpoint first_value (key : bytes) (lines : list bytes) : option bytes :=
  match lines with
  | [] => None
  | line :: lines =>
      if starts_with line key && (nth (length key) line 0 =? 61) then Some (trim_end (drop (length key + 1) line))
      else first_value key lines
  end.

(** [output] is [None] when the program could not be started. *)
Definition get_wpa_status_key (output : option bytes) (target_key : bytes) : bytes :=
  match output with None => [] | Some text => default [] (first_value target_key (read_lines 256 text)) end.

Definition default_signal : bytes := str "Bardzo dobry (-58 dBm)".

Definition get_wlan0_signal (output : option bytes) : bytes :=
  match output with
  | None => default_signal
  | Some text =>
      let rssi := default [] (first_value (str "RSSI") (read_lines 256 text)) in
      if negb (is_empty rssi) then rssi ++ str " dBm" else default_signal
  end.

(** [%63s]: the next word, 63 characters of it. *)
Definition word (s : bytes) : bytes :=
  let s := ltrim isspace s in match find_pred isspace s with None => s | Some k => take k s end.

Fixpoint first_gateway (lines : list bytes) : option bytes :=
  match lines with
  | [] => None
  | line :: lines =>
      let ip := take 63 (word (drop 12 line)) in
      if starts_with line (str "default via ") && negb (is_empty ip) then Some ip else first_gateway lines
  end.

Definition get_default_gateway (output : option bytes) : bytes :=
  default (str "192.168.1.1") (text ← output; first_gateway (read_lines 256 text)).

(** The lines of [std::getline]; the first two words of a line. *)
Definition getlines (file : bytes) : list bytes :=
  let '(whole, rest) := split_lines file in if is_empty rest then whole else whole ++ [rest].

Definition second_word (line : bytes) : bytes :=
  let s := ltrim isspace line in
  match find_pred isspace s with None => [] | Some k => word (drop k s) end.

Definition get_dns_servers (file : option bytes) : bytes :=
  let none := str "8.8.8.8  4.2.2.2" in
  match file with
  | None => none
  | Some text =>
      let add dns line :=
        let ip := second_word line in
        if starts_with line (str "nameserver") && negb (is_empty ip)
        then (if negb (is_empty dns) then dns ++ str "  " else dns) ++ ip else dns in
      let dns := fold_left add (getlines text) [] in
      if is_empty dns then none else dns
  end.

(** ** Connecting *)

Definition nl : bytes := [10].

Definition wpa_conf (ssid pass : bytes) : bytes :=
  str "ctrl_interface=/var/run/wpa_supplicant" ++ nl ++ str "update_config=1" ++ nl ++ nl ++ str "network={" ++ nl ++
  dq "    ssid='" ++ ssid ++ dq "'" ++ nl ++
  (if negb (is_empty pass) then dq "    psk='" ++ pass ++ dq "'" ++ nl ++ str "    key_mgmt=WPA-PSK" ++ nl
   else str "    key_mgmt=NONE" ++ nl) ++
  str "}" ++ nl.

(** [snprintf(cmd, sizeof(cmd), ...)] *)
Definition snprintf512 (text : bytes) : bytes := take 511 text.

Definition wpa_cli : bytes := str "wpa_cli -p /var/run/wpa_supplicant -i wlan0 ".
Definition apostrophe : bytes := [39].

Definition set_quoted (net_id : Z) (field value : bytes) : bytes :=
  snprintf512 (wpa_cli ++ str "set_network " ++ to_string net_id ++ str " " ++ field ++ str " " ++
               apostrophe ++ [34] ++ value ++ [34] ++ apostrophe).
Definition with_id (net_id : Z) (command rest : bytes) : bytes :=
  snprintf512 (wpa_cli ++ command ++ str " " ++ to_string net_id ++ rest).

(** The commands the thread gives to [system], after [add_network] printed
    [added]. *)
Definition connect_commands (ssid pass added : bytes) : list bytes :=
  let net_id := atoi (exec_cmd_line added) in
  [set_quoted net_id (str "ssid") ssid] ++
  (if negb (is_empty pass) then
     [set_quoted net_id (str "psk") pass; with_id net_id (str "set_network") (str " key_mgmt WPA-PSK")]
   else [with_id net_id (str "set_network") (str " key_mgmt NONE")]) ++
  [with_id net_id (str "enable_network") []; with_id net_id (str "select_network") [];
   wpa_cli ++ str "save_config 2>/dev/null";
   str "killall -9 udhcpc 2>/dev/null; udhcpc -i wlan0 -b -p /var/run/udhcpc.wlan0.pid 2>/dev/null &"].

(** ** The networks that are shown *)

(** [n] is the first of the strongest networks of its name. *)
Definition first_strongest (ns : list WifiNetworkInfo) (n : WifiNetworkInfo) : Prop :=
  exists pre post, ns = pre ++ n :: post /\
    Forall (fun m => ssid m = ssid n -> rssi m < rssi n) pre /\ Forall (fun m => ssid m = ssid n -> rssi m <= rssi n) post.

Lemma first_strongest_unique ns n m : first_strongest ns n -> first_strongest ns m -> ssid n = ssid m -> n = m.
Proof.
  intros (p1 & q1 & E1 & A1 & B1) (p2 & q2 & E2 & A2 & B2) Hs. rewrite E1 in E2. clear E1.
  revert p2 E2 A2. induction A1 as [|x p1 Hx A1 IH]; intros [|y p2] E2 A2.
  - by injection E2.
  - injection E2 as <- ->. apply Forall_cons in A2 as [Hn _]. apply Forall_app in B1 as [_ B1].
    apply Forall_cons in B1 as [Hm _]. specialize (Hn Hs). specialize (Hm (eq_sym Hs)). lia.
  - injection E2 as -> <-. apply Forall_app in B2 as [_ B2]. apply Forall_cons in B2 as [Hn _].
    specialize (Hx (eq_sym Hs)). specialize (Hn Hs). lia.
  - injection E2 as <- E2. apply Forall_cons in A2 as [_ A2]. by eapply IH.
Qed.

Lemma add_network_grows u x s old :
  u !! s = Some old -> exists new, add_network u x !! s = Some new /\ rssi old <= rssi new.
Proof.
  intros H. unfold add_network. destruct (decide (ssid x = s)) as [<-|Hne].
  - rewrite H. case_if; to_prop; [rewrite lookup_insert_eq; exists x; split; [done|lia]|]. by exists old.
  - exists old. split; [|lia]. destruct (u !! ssid x); [case_if|]; rewrite ?lookup_insert_ne by done; exact H.
Qed.

Lemma add_network_has u x : exists new, add_network u x !! ssid x = Some new /\ rssi x <= rssi new.
Proof.
  unfold add_network. destruct (u !! ssid x) as [old|] eqn:E; [|rewrite lookup_insert_eq; by exists x].
  case_if; to_prop; [rewrite lookup_insert_eq; by exists x|]. by exists old.
Qed.

Lemma unique_bound ns m : m ∈ ns -> exists old, fold_left add_network ns ∅ !! ssid m = Some old /\ rssi m <= rssi old.
Proof.
  induction ns as [|x ns IH] using rev_ind; [intros H; inversion H|]. rewrite fold_left_app. cbn [fold_left].
  intros [Hm|Hm]%elem_of_app.
  - destruct (IH Hm) as (old & E & Hle). destruct (add_network_grows _ x _ _ E) as (new & E' & Hle'). exists new. split; [done|lia].
  - apply list_elem_of_singleton in Hm as ->. apply add_network_has.
Qed.

Lemma unique_sound ns s n : fold_left add_network ns ∅ !! s = Some n -> ssid n = s /\ first_strongest ns n.
Proof.
  revert s n. induction ns as [|x ns IH] using rev_ind; intros s n; [cbn; by rewrite lookup_empty|].
  rewrite fold_left_app. cbn [fold_left]. set (u := fold_left add_network ns ∅) in *.
  assert (Keep : u !! s = Some n -> (ssid x = s -> rssi x <= rssi n) -> ssid n = s /\ first_strongest (ns ++ [x]) n).
  { intros Hu Hx. destruct (IH _ _ Hu) as (Hn & pre & post & -> & A & B). split; [exact Hn|].
    exists pre, (post ++ [x]). split; [by rewrite <- app_assoc|]. split; [exact A|]. apply Forall_app. split; [exact B|].
    constructor; [|constructor]. by rewrite Hn. }
  assert (New : (forall m, m ∈ ns -> ssid m = ssid x -> rssi m < rssi x) -> ssid x = ssid x /\ first_strongest (ns ++ [x]) x).
  { intros H. split; [done|]. exists ns, []. split; [done|]. split; [|constructor]. by apply Forall_forall. }
  unfold add_network. destruct (u !! ssid x) as [old|] eqn:E.
  - case_if; to_prop.
    + destruct (decide (ssid x = s)) as [<-|Hne]; [|rewrite lookup_insert_ne by done; intros Hu; by apply Keep].
      rewrite lookup_insert_eq. intros [= <-]. apply New. intros m Hm Hmx.
      destruct (unique_bound ns m Hm) as (old' & Ho & Hle). rewrite Hmx in Ho. fold u in Ho. rewrite E in Ho. injection Ho as <-. lia.
    + intros Hu. apply Keep; [exact Hu|]. intros <-. rewrite E in Hu. injection Hu as <-. lia.
  - destruct (decide (ssid x = s)) as [<-|Hne]; [|rewrite lookup_insert_ne by done; intros Hu; by apply Keep].
    rewrite lookup_insert_eq. intros [= <-]. apply New. intros m Hm Hmx. destruct (unique_bound ns m Hm) as (old' & Ho & _). rewrite Hmx in Ho. fold u in Ho. by rewrite E in Ho.
Qed.

Lemma unique_lookup ns s n : fold_left add_network ns ∅ !! s = Some n <-> ssid n = s /\ first_strongest ns n.
Proof.
  split; [apply unique_sound|]. intros [<- H]. assert (Hm : n ∈ ns) by (destruct H as (pre & post & -> & _); set_solver).
  destruct (unique_bound ns n Hm) as (old & E & _). destruct (unique_sound _ _ _ E) as [Hs Ho].
  by rewrite E, (first_strongest_unique ns old n Ho H Hs).
Qed.

#[export] Instance stronger_total : Total stronger.
Proof. intros a b. unfold stronger. lia. Qed.

#[export] Instance stronger_trans : Transitive stronger.
Proof. intros a b c. unfold stronger. lia. Qed.

(** ** A row of the scan *)

(** How a name can be printed: a character as it is, or escaped. *)
Definition hex_char (d : Z) : Z := if d <? 10 then 48 + d else 87 + d.
Definition print_ssid (tokens : list (bool * Z)) : bytes :=
  concat (map (fun t : bool * Z => if t.1 then [92; 120; hex_char (t.2 / 16); hex_char (t.2 mod 16)] else [t.2]) tokens).

(** A plain backslash must not be taken for the start of an escape. *)
Definition plain_ok (t : bool * Z) : Prop := is_byte t.2 /\ (t.1 = false -> t.2 <> 92).

Lemma hex_char_digit d : 0 <= d < 16 -> hex_digit (hex_char d) = Some d.
Proof.
  intros H. unfold hex_char, hex_digit. destruct (Z.ltb_spec d 10).
  - rewrite !(proj2 (Z.leb_le _ _)) by lia. cbn [andb]. f_equal. lia.
  - rewrite (proj2 (Z.leb_gt (87 + d) 57)), andb_false_r by lia. rewrite !(proj2 (Z.leb_le _ _)) by lia. cbn [andb]. f_equal. lia.
Qed.

Lemma unescape_plain c rest : c <> 92 -> unescape_wpa_ssid (c :: rest) = c :: unescape_wpa_ssid rest.
Proof.
  intros H. apply Z.eqb_neq in H. destruct rest as [|x [|a [|b rest]]]; cbn [unescape_wpa_ssid]; try done. by rewrite H.
Qed.

Lemma unescape_printed tokens : Forall plain_ok tokens -> unescape_wpa_ssid (print_ssid tokens) = map snd tokens.
Proof.
  induction 1 as [|[esc c] tokens [Hb Hp] _ IH]; [done|]. unfold print_ssid in *. cbn [map concat fst snd] in *. destruct esc; cbn [app].
  - cbn [unescape_wpa_ssid]. rewrite !Z.eqb_refl. cbn [andb]. unfold strtol_hex2.
    pose proof (Z.div_mod c 16 ltac:(lia)). pose proof (Z.mod_pos_bound c 16 ltac:(lia)). unfold is_byte in Hb.
    assert (0 <= c / 16 < 16) by (split; [apply Z.div_pos; lia|apply Z.div_lt_upper_bound; lia]).
    rewrite !hex_char_digit by lia. rewrite IH. f_equal. rewrite u8_small by (unfold is_byte; lia). lia.
  - rewrite unescape_plain by (by apply Hp). by rewrite IH.
Qed.

Lemma find_pred_at p a x t : Forall (fun b => p b = false) a -> p x = true -> find_pred p (a ++ x :: t) = Some (length a).
Proof. intros H Hx. induction H as [|b a Hb _ IH]; cbn; [by rewrite Hx|]. by rewrite Hb, IH. Qed.

Definition not_in (d : bytes) (b : Z) : Prop := existsb (Z.eqb b) d = false.

Lemma strtok_field d field x rest :
  field <> [] -> Forall (not_in d) field -> existsb (Z.eqb x) d = true ->
  strtok d (field ++ x :: rest) = Some (field, rest).
Proof.
  intros Hn Hf Hx. unfold strtok. rewrite ltrim_id by (destruct Hf; done).
  assert (E : exists b r, field ++ x :: rest = b :: r) by (destruct field; [done|by eexists _, _]).
  destruct E as (b & r & E). rewrite E. cbv iota. rewrite <- E, (find_pred_at _ field x rest Hf Hx), take_app_length.
  do 2 f_equal. rewrite drop_app_ge by lia. by replace (S (length field) - length field)%nat with 1%nat by lia.
Qed.

(** A row as wpa_supplicant prints it. *)
Record Row := mkRow { r_bssid : bytes; r_freq : bytes; r_rssi : Z; r_flags : bytes; r_ssid : list (bool * Z) }.

Definition print_row (r : Row) : bytes :=
  r_bssid r ++ tab ++ r_freq r ++ tab ++ to_string (r_rssi r) ++ tab ++ r_flags r ++ tab ++ print_ssid (r_ssid r) ++ nl.

Definition row_network (r : Row) : WifiNetworkInfo := mkNetwork (trim_end (map snd (r_ssid r))) (r_bssid r) (r_rssi r) (r_flags r).

Definition field_ok (f : bytes) : Prop := f <> [] /\ Forall (fun b => b <> 9 /\ b <> 10) f.

Definition row_ok (r : Row) : Prop :=
  field_ok (r_bssid r) /\ field_ok (r_freq r) /\ field_ok (r_flags r) /\ - 2 ^ 31 < r_rssi r < 2 ^ 31 /\
  r_ssid r <> [] /\ Forall (fun t => plain_ok t /\ (t.1 = false -> t.2 <> 10 /\ t.2 <> 13)) (r_ssid r) /\ zlen (print_row r) <= 511.

Lemma rssi_chars v : to_string v <> [] /\ Forall (fun b => b <> 9 /\ b <> 10) (to_string v).
Proof.
  destruct (to_string_chars v) as [Hn Hf]. split; [exact Hn|]. eapply Forall_impl; [exact Hf|].
  cbn beta. intros b [Hb%isdigit_spec| ->]; lia.
Qed.

Lemma print_ssid_chars tokens :
  Forall (fun t => plain_ok t /\ (t.1 = false -> t.2 <> 10 /\ t.2 <> 13)) tokens -> Forall (fun b => b <> 10 /\ b <> 13) (print_ssid tokens).
Proof.
  unfold print_ssid. induction 1 as [|[esc c] tokens [[Hb Hp] Hn] _ IH]; [done|]. cbn [map concat fst snd] in *. apply Forall_app.
  split; [|exact IH]. destruct esc; [|constructor; [by apply Hn|done]].
  assert (G : forall d, 0 <= d < 16 -> hex_char d <> 10 /\ hex_char d <> 13) by (intros d Hd; unfold hex_char; case_if; to_prop; lia).
  unfold is_byte in Hb. pose proof (Z.mod_pos_bound c 16 ltac:(lia)).
  repeat constructor; try lia; apply G; try lia; (split; [apply Z.div_pos; lia|apply Z.div_lt_upper_bound; lia]).
Qed.

Lemma scan_row r : row_ok r ->
  scan_line (print_row r) = if is_empty (trim_end (map snd (r_ssid r))) then None else Some (row_network r).
Proof.
  intros ((Hb & Fb) & (Hq & Fq) & (Hf & Ff) & Hr & Hs & Fs & _). unfold scan_line, print_row, tab.
  assert (Tab : forall l : bytes, Forall (fun b => b <> 9 /\ b <> 10) l -> Forall (not_in [9]) l).
  { intros l Hl. eapply Forall_impl; [exact Hl|]. cbn beta. intros b [H9 _]. unfold not_in. cbn. by rewrite (proj2 (Z.eqb_neq b 9)). }
  destruct (rssi_chars (r_rssi r)) as [Hp Fp]. cbn [app].
  rewrite strtok_field by (auto; reflexivity). cbn [mbind option_bind].
  rewrite strtok_field by (auto; reflexivity). cbn [mbind option_bind].
  rewrite strtok_field by (auto; reflexivity). cbn [mbind option_bind].
  rewrite strtok_field by (auto; reflexivity). cbn [mbind option_bind]. unfold line_end, nl.
  rewrite strtok_field; [|by destruct (r_ssid r) as [|[[|] ?] ?]| |reflexivity].
  - cbn [mbind option_bind]. rewrite unescape_printed by (eapply Forall_impl; [exact Fs|]; by intros ? [? _]).
    rewrite <- (app_nil_r (to_string (r_rssi r))), atoi_signed by (done || lia). done.
  - eapply Forall_impl; [by apply print_ssid_chars|]. cbn beta. intros b [H10 H13]. unfold not_in. cbn.
    by rewrite (proj2 (Z.eqb_neq b 13)), (proj2 (Z.eqb_neq b 10)) by assumption.
Qed.

Lemma fgets_line room body rest :
  Forall (fun b => b <> 10) body -> (length body < room)%nat -> fgets room (body ++ 10 :: rest) = (body ++ [10], rest).
Proof.
  intros H. revert room. induction H as [|b body Hb _ IH]; intros [|room] Hl; cbn [length] in Hl; try lia; cbn [fgets app].
  - by rewrite Z.eqb_refl.
  - rewrite (proj2 (Z.eqb_neq b 10)) by exact Hb. by rewrite IH by lia.
Qed.

Definition line_ok (size : nat) (l : bytes) : Prop :=
  exists body, l = body ++ [10] /\ Forall (fun b => b <> 10) body /\ (length l < size)%nat.

Lemma read_lines_whole size ls : Forall (line_ok size) ls -> read_lines size (concat ls) = ls.
Proof.
  intros H. unfold read_lines. assert (G : forall fuel, (length (concat ls) <= fuel)%nat -> fgets_loop fuel size (concat ls) = ls); [|by apply G].
  induction H as [|l ls (body & -> & Hb & Hl) _ IH]; intros fuel Hf; [by destruct fuel|].
  cbn [concat] in *. rewrite <- app_assoc in *. cbn [app] in *. rewrite !length_app in *. cbn [length] in *.
  destruct fuel as [|fuel]; [lia|]. cbn [fgets_loop].
  assert (E : exists b r, body ++ 10 :: concat ls = b :: r) by (destruct body; by eexists _, _).
  destruct E as (b & r & E). rewrite E, <- E. rewrite fgets_line by (auto; lia). by rewrite IH by lia.
Qed.

Lemma row_line r : row_ok r -> line_ok 512 (print_row r).
Proof.
  intros ((_ & Fb) & (_ & Fq) & (_ & Ff) & Hr & _ & Fs & Hl). unfold print_row, nl in *.
  exists (r_bssid r ++ tab ++ r_freq r ++ tab ++ to_string (r_rssi r) ++ tab ++ r_flags r ++ tab ++ print_ssid (r_ssid r)).
  split; [by rewrite <- !app_assoc|]. split; [|lia].
  assert (T : forall l : bytes, Forall (fun b => b <> 9 /\ b <> 10) l -> Forall (fun b => b <> 10) l)
    by (intros l Hl'; eapply Forall_impl; [exact Hl'|]; by intros ? [_ ?]).
  destruct (rssi_chars (r_rssi r)) as [_ Fp].
  repeat (apply Forall_app; split); try (by apply T); try (by repeat constructor).
  eapply Forall_impl; [by apply print_ssid_chars|]. by intros ? [? _].
Qed.

(** The networks of the rows, those without a name left out. *)
Definition named (rows : list Row) : list WifiNetworkInfo := filter (fun n => ssid n <> []) (map row_network rows).

Lemma scanned_rows header rows :
  line_ok 512 (header ++ nl) -> Forall row_ok rows -> scanned ((header ++ nl) ++ concat (map print_row rows)) = named rows.
Proof.
  intros Hh Hr. unfold scanned.
  assert (E : read_lines 512 ((header ++ nl) ++ concat (map print_row rows)) = (header ++ nl) :: map print_row rows).
  { apply (read_lines_whole 512 ((header ++ nl) :: map print_row rows)). constructor; [exact Hh|].
    apply Forall_map. eapply Forall_impl; [exact Hr|]. apply row_line. }
  rewrite E. unfold named. change (drop 1 ((header ++ nl) :: map print_row rows)) with (map print_row rows). clear E Hh. induction Hr as [|r rows Hok _ IH]; [done|].
  change (omap scan_line (map print_row (r :: rows))) with
    (match scan_line (print_row r) with Some n => n :: omap scan_line (map print_row rows) | None => omap scan_line (map print_row rows) end).
  rewrite scan_row by exact Hok. cbn [map]. destruct (is_empty (trim_end (map snd (r_ssid r)))) eqn:Ee.
  - rewrite filter_cons_False; [exact IH|]. cbn [row_network ssid]. destruct (trim_end _); [|done]. intros W0. by apply W0.
  - rewrite filter_cons_True; [by rewrite <- IH|]. cbn [row_network ssid]. by destruct (trim_end _).
Qed.

Lemma networks_spec output current :
  StronglySorted stronger (networks output current) /\ NoDup (map ssid (networks output current)) /\
  forall n, n ∈ networks output current <-> ssid n <> current /\ first_strongest (scanned output) n.
Proof.
  unfold networks. set (u := fold_left add_network (scanned output) ∅).
  set (l := map snd (filter (fun p => p.1 <> current) (map_to_list u))).
  pose proof (merge_sort_Permutation stronger l) as P.
  assert (Hk : forall p, p ∈ map_to_list u -> ssid p.2 = p.1).
  { intros [s n] Hp%elem_of_map_to_list. by apply unique_lookup in Hp as [? _]. }
  split; [apply Sorted_StronglySorted; [apply _|]; apply (Sorted_merge_sort stronger l)|]. split.
  - rewrite (Permutation_map ssid P). unfold l. rewrite map_map.
    rewrite (map_ext_in _ fst); [|intros p Hp; apply Hk; apply list_elem_of_In in Hp; by apply list_elem_of_filter in Hp as [_ ?]].
    eapply sublist_NoDup; [apply (NoDup_fst_map_to_list u)|]. apply fmap_sublist, sublist_filter.
  - intros n. rewrite P. unfold l. rewrite list_elem_of_In, in_map_iff. split.
    + intros ([s m] & <- & Hp). apply list_elem_of_In, list_elem_of_filter in Hp as [Hc Hp%elem_of_map_to_list].
      apply unique_lookup in Hp as [<- H]. done.
    + intros [Hc H]. exists (ssid n, n). split; [done|]. apply list_elem_of_In, list_elem_of_filter. split; [exact Hc|].
      apply elem_of_map_to_list, unique_lookup. done.
Qed.

(** ** Quotes in the shell *)

(** What of a command is outside of single quotes, and what is inside. *)
Fixpoint unquoted (s : bytes) (inside : bool) : bytes :=
  match s with
  | [] => []
  | c :: s => if c =? 39 then unquoted s (negb inside) else if inside then unquoted s inside else c :: unquoted s inside
  end.
Fixpoint quoted (s : bytes) (inside : bool) : bytes :=
  match s with
  | [] => []
  | c :: s => if c =? 39 then quoted s (negb inside) else if inside then c :: quoted s inside else quoted s inside
  end.

Definition no_quote (s : bytes) : Prop := Forall (fun b => b <> 39) s.

Lemma quotes_app a b inside : no_quote a ->
  unquoted (a ++ b) inside = (if inside then [] else a) ++ unquoted b inside /\
  quoted (a ++ b) inside = (if inside then a else []) ++ quoted b inside.
Proof.
  induction 1 as [|c a Hc _ [IH1 IH2]]; [by destruct inside|]. cbn [app unquoted quoted]. apply Z.eqb_neq in Hc. rewrite Hc, IH1, IH2.
  by destruct inside.
Qed.

Lemma dec_digits_length fuel : forall n acc, (length (dec_digits fuel n acc) <= fuel + length acc)%nat.
Proof.
  induction fuel as [|fuel IH]; intros n acc; cbn [dec_digits]; [lia|].
  case_if; [cbn [length]; lia|]. etransitivity; [apply IH|]. cbn [length]. lia.
Qed.

Lemma to_string_shape n : no_quote (to_string n) /\ (length (to_string n) <= 21)%nat.
Proof.
  split; [destruct (to_string_chars n) as [_ H]; eapply Forall_impl; [exact H|]; cbn beta; intros b [Hb%isdigit_spec| ->]; lia|].
  unfold to_string. destruct (n <? 0).
  - pose proof (dec_digits_length 20 (- n) []). cbn [length] in *. lia.
  - pose proof (dec_digits_length 20 n []). cbn [length] in *. lia.
Qed.

Lemma set_quoted_parts id field value :
  - 2 ^ 31 <= id < 2 ^ 31 -> no_quote field -> (length field <= 8)%nat -> no_quote value -> (length value <= 400)%nat ->
  unquoted (set_quoted id field value) false = wpa_cli ++ str "set_network " ++ to_string id ++ str " " ++ field ++ str " " /\
  quoted (set_quoted id field value) false = [34] ++ value ++ [34].
Proof.
  intros Hid Hf Lf Hv Lv. destruct (to_string_shape id) as [Hi Li].
  assert (Hw : no_quote wpa_cli) by (by apply neq_check). unfold set_quoted, snprintf512.
  assert (Lw : (length wpa_cli <= 60)%nat) by (vm_compute; lia).
  rewrite take_ge by (rewrite !length_app; cbn [length] in *; change (length (str "set_network ")) with 12%nat;
    change (length (str " ")) with 1%nat; change (length apostrophe) with 1%nat; lia).
  set (pre := wpa_cli ++ str "set_network " ++ to_string id ++ str " " ++ field ++ str " ").
  assert (Hp : no_quote pre) by (unfold pre; repeat (apply Forall_app; split); first [assumption|by apply neq_check]).
  replace (wpa_cli ++ str "set_network " ++ to_string id ++ str " " ++ field ++ str " " ++ apostrophe ++ [34] ++ value ++ [34] ++ apostrophe)
    with (pre ++ 39 :: ([34] ++ value ++ [34]) ++ [39]) by (unfold pre, apostrophe; by rewrite <- !app_assoc).
  assert (Hq : no_quote ([34] ++ value ++ [34])) by (repeat (apply Forall_app; split); first [assumption|by apply neq_check]).
  destruct (quotes_app pre (39 :: ([34] ++ value ++ [34]) ++ [39]) false Hp) as [-> ->].
  cbn [unquoted quoted negb]. rewrite Z.eqb_refl. destruct (quotes_app _ [39] true Hq) as [-> ->].
  cbn. by rewrite !app_nil_r.
Qed.

Lemma with_id_parts id command rest :
  - 2 ^ 31 <= id < 2 ^ 31 -> no_quote command -> no_quote rest ->
  quoted (with_id id command rest) false = [] /\ unquoted (with_id id command rest) false = with_id id command rest.
Proof.
  intros Hid Hc Hr. destruct (to_string_shape id) as [Hi _].
  assert (H : no_quote (with_id id command rest)).
  { apply Forall_take. repeat (apply Forall_app; split); first [assumption|by apply neq_check]. }
  destruct (quotes_app _ [] false H) as [H1 H2]. rewrite !app_nil_r in *. cbn in H2. done.
Qed.

(** ** Properties *)

(** The list of the Wi-Fi screen, from any rows of the scan (names printed
    with or without escapes, names repeated for every access point): the
    networks are sorted by signal, every name appears once, and a network is
    shown exactly when it has a name, is not the current one, and is the first
    of the strongest with its name. *)
Theorem wifi_scan_correct header rows current :
  line_ok 512 (header ++ nl) -> Forall row_ok rows ->
  let ns := networks ((header ++ nl) ++ concat (map print_row rows)) current in
  StronglySorted stronger ns /\ NoDup (map ssid ns) /\
  forall n, n ∈ ns <-> ssid n <> current /\ first_strongest (named rows) n.
Proof. intros Hh Hr. cbv zeta. rewrite <- (scanned_rows header rows Hh Hr). apply networks_spec. Qed.

(** Connecting: when name and password have no apostrophe and fit the buffer,
    all they add to the commands of the shell is one quoted word each, the value
    between double quotes; the unquoted text, where the shell looks for
    operators, is the program's own.  The password is set exactly when it is
    not empty. *)
Theorem connect_commands_quoted ssid pass added :
  no_quote ssid -> no_quote pass -> (length ssid <= 400)%nat -> (length pass <= 400)%nat ->
  map (fun c => quoted c false) (connect_commands ssid pass added) =
    [[34] ++ ssid ++ [34]] ++ (if negb (is_empty pass) then [[34] ++ pass ++ [34]; []] else [[]]) ++ [[]; []; []; []] /\
  forall ssid' pass', no_quote ssid' -> no_quote pass' -> (length ssid' <= 400)%nat -> (length pass' <= 400)%nat ->
    is_empty pass' = is_empty pass ->
    map (fun c => unquoted c false) (connect_commands ssid' pass' added) = map (fun c => unquoted c false) (connect_commands ssid pass added).
Proof.
  intros Hs Hp Ls Lp. unfold connect_commands. set (id := atoi _). assert (Hid : - 2 ^ 31 <= id < 2 ^ 31) by apply s32_range.
  assert (N : forall t, forallb (fun b => negb (b =? 39)) t = true -> no_quote t) by (intros t Ht; by apply neq_check).
  assert (Q : forall f v, no_quote f -> (length f <= 8)%nat -> no_quote v -> (length v <= 400)%nat ->
    quoted (set_quoted id f v) false = [34] ++ v ++ [34]) by (intros; by apply set_quoted_parts).
  assert (I : forall c r, no_quote c -> no_quote r -> quoted (with_id id c r) false = []) by (intros; by apply with_id_parts).
  split.
  - destruct pass as [|p pass]; cbn [is_empty negb app map]; rewrite ?Q, ?I by (first [assumption|by apply N|vm_compute; lia]); reflexivity.
  - intros ssid' pass' Hs' Hp' Ls' Lp' He.
    assert (U : forall f v v', no_quote f -> (length f <= 8)%nat -> no_quote v -> (length v <= 400)%nat -> no_quote v' -> (length v' <= 400)%nat ->
      unquoted (set_quoted id f v') false = unquoted (set_quoted id f v) false)
      by (intros f v v' Hf Lf Hv Lv Hv' Lv'; rewrite (proj1 (set_quoted_parts id f v Hid Hf Lf Hv Lv));
          apply (set_quoted_parts id f v' Hid Hf Lf Hv' Lv')).
    assert (E1 : unquoted (set_quoted id (str "ssid") ssid') false = unquoted (set_quoted id (str "ssid") ssid) false)
      by (apply U; try assumption; [by apply N|vm_compute; lia]).
    assert (E2 : unquoted (set_quoted id (str "psk") pass') false = unquoted (set_quoted id (str "psk") pass) false)
      by (apply U; try assumption; [by apply N|vm_compute; lia]).
    rewrite He. destruct (is_empty pass); cbn [negb app map]; rewrite E1; [done|]. by rewrite E2.
Qed.

(** A network name with an apostrophe leaves its quotes: whoever names an access
    point so runs commands on the panel that connects to it. *)
Theorem ssid_injection :
  unquoted (set_quoted 0 (str "ssid") (str "';reboot;'")) false =
  wpa_cli ++ str "set_network 0 ssid ;reboot;".
Proof. vm_compute. reflexivity. Qed.

(** Four rows: two access points of one network, a name with an escaped letter,
    and the current network. *)
Definition sample_row (name : list (bool * Z)) (mac : bytes) (level : Z) : Row :=
  mkRow mac (str "2412") level (str "[WPA2-PSK-CCMP][ESS]") name.
Definition plain (s : bytes) : list (bool * Z) := map (fun c => (false, c)) s.
Definition sample_rows : list Row :=
  [sample_row (plain (str "dom")) (str "aa") (-70); sample_row (plain (str "goscie")) (str "bb") (-40);
   sample_row (plain (str "dom")) (str "cc") (-55); sample_row [(false, 107); (true, 0xc3); (true, 0xb3); (false, 116)] (str "dd") (-60)].
Definition sample_header : bytes := str "bssid / frequency / signal level / flags / ssid".

Example sample_networks :
  map (fun n => (ssid n, bssid n, rssi n)) (networks ((sample_header ++ nl) ++ concat (map print_row sample_rows)) (str "goscie")) =
  [(str "dom", str "cc", -55); ([107; 0xc3; 0xb3; 116], str "dd", -60)].
Proof. vm_compute. reflexivity. Qed.

Lemma wifi_scan_correct_witness :
  let ns := networks ((sample_header ++ nl) ++ concat (map print_row sample_rows)) (str "goscie") in
  StronglySorted stronger ns /\ NoDup (map ssid ns) /\
  forall n, n ∈ ns <-> ssid n <> str "goscie" /\ first_strongest (named sample_rows) n.
Proof.
  assert (F : forall f, f <> [] -> forallb (fun b => negb (b =? 9) && negb (b =? 10)) f = true -> field_ok f).
  { intros f Hf H. split; [exact Hf|]. apply forallb_Forall in H. eapply Forall_impl; [exact H|]. cbn beta. intros b Hb. to_prop. done. }
  apply (wifi_scan_correct sample_header sample_rows (str "goscie")).
  - exists sample_header. split; [reflexivity|]. split; [by apply neq_check|]. vm_compute. lia.
  - unfold sample_rows, sample_row, row_ok. cbn [r_bssid r_freq r_rssi r_flags r_ssid].
    repeat (apply List.Forall_cons; [|]); try apply List.Forall_nil;
      (repeat split; try (by apply F); try lia; try discriminate; try (vm_compute; discriminate);
       cbn; repeat constructor; cbn; unfold is_byte; try lia; intros; try discriminate; lia).
Defined.

Lemma connect_commands_quoted_witness :
  map (fun c => quoted c false) (connect_commands (str "dom") (str "s$(reboot)") (str "3" ++ nl)) =
  [dq "'dom'"; dq "'s$(reboot)'"; []; []; []; []; []].
Proof.
  apply (connect_commands_quoted (str "dom") (str "s$(reboot)") (str "3" ++ nl)); try (by apply neq_check); vm_compute; lia.
Defined.
End Wifi.
