(* ===== verification/AssistJson.v ===== *)
(** The JSON of the assist pipeline (assist_pipeline_bridge.cpp): [json_escape],
    the searching readers [json_string_after], [json_string_in_object],
    [json_int_after], [json_bool_after], the result line the child process
    writes ([serialize_result]) and the parent reads ([consume_output]).  The
    theorems say that the parent gets the results the child sent, whatever the
    pipe does to the chunks, and that the reader of a nested object stops
    exactly at the end of that object. *)
From S2P Require Import Prelude CString JsonDoc Lines.
From stdpp Require Import list.
#[local] Open Scope Z_scope.

Module AssistJson.

(** ** The functions *)

Definition escape_character (character : Z) : bytes :=
  if (character =? 34) || (character =? 92) then [92; character]
  else if character =? 10 then [92; 110]
  else if character =? 13 then [92; 114]
  else if 0x20 <=? character then [character] else [].

Definition json_escape (value : bytes) : bytes := concat (map escape_character value).

(** The loop of [json_string_after], from just after the opening quote. *)
Fixpoint unescape (s value : bytes) (escaped : bool) : bytes :=
  match s with
  | [] => value
  | character :: s =>
      if escaped then
        unescape s (value ++ [if character =? 110 then 10 else if character =? 114 then 13 else character]) false
      else if character =? 92 then unescape s value true
      else if character =? 34 then value
      else unescape s (value ++ [character]) false
  end.

Definition json_string_after (json key : bytes) (start : nat) : bytes :=
  match str_find json (marker key) start with
  | None => []
  | Some position =>
      match str_find json [58] (position + length (marker key)) with
      | None => []
      | Some position =>
          match str_find json [34] (position + 1) with
          | None => []
          | Some position => unescape (drop (S position) json) [] false
          end
      end
  end.

(** The loop of [json_string_in_object] over [s], with [position] characters
    before it: the index of the brace that closes the object. *)
Fixpoint object_end (s : bytes) (depth : Z) (in_string escaped : bool) (position : nat) : option nat :=
  match s with
  | [] => None
  | character :: s =>
      if in_string then
        if escaped then object_end s depth true false (S position)
        else if character =? 92 then object_end s depth true true (S position)
        else if character =? 34 then object_end s depth false false (S position)
        else object_end s depth true false (S position)
      else if character =? 34 then object_end s depth true escaped (S position)
      else if character =? 123 then object_end s (depth + 1) false escaped (S position)
      else if character =? 125 then
        if depth - 1 =? 0 then Some position
        else object_end s (depth - 1) false escaped (S position)
      else object_end s depth false escaped (S position)
  end.

Definition json_string_in_object (json object_key value_key : bytes) : bytes :=
  match str_find json (marker object_key) 0 with
  | None => []
  | Some marker_position =>
      match str_find json [123] (marker_position + length (marker object_key)) with
      | None => []
      | Some object_start =>
          match object_end (drop object_start json) 0 false false object_start with
          | None => []
          | Some position => json_string_after (substr json object_start (position - object_start + 1)) value_key 0
          end
      end
  end.

Definition blank (c : Z) : bool := (c =? 32) || (c =? 9).

Definition json_int_after (json key : bytes) (fallback : Z) : Z :=
  match str_find json (marker key) 0 with
  | None => fallback
  | Some position =>
      match str_find json [58] (position + length (marker key)) with
      | None => fallback
      | Some position =>
          let '(value, read) := strtol10 (ltrim blank (drop (position + 1) json)) in
          if (read =? 0)%nat then fallback else s32 value
      end
  end.

Definition json_bool_after (json key : bytes) (fallback : bool) : bool :=
  match str_find json (marker key) 0 with
  | None => fallback
  | Some position =>
      match str_find json [58] (position + length (marker key)) with
      | None => fallback
      | Some position =>
          let text := ltrim blank (drop (position + 1) json) in
          if starts_with text (str "true") then true
          else if starts_with text (str "false") then false
          else fallback
      end
  end.

(** ** The result line *)

Record AssistPipelineResult := mkResult {
  success : bool;
  stage : bytes;
  transcript : bytes;
  response : bytes;
  error : bytes;
  conversation_id : bytes;
  response_type : bytes;
  continue_conversation : bool;
  audio_level : Z;
}.

Definition empty_result : AssistPipelineResult := mkResult false [] [] [] [] [] [] false 0.

Definition serialize_result (result : AssistPipelineResult) (final_result : bool) : bytes :=
  dq "{'final':" ++ bool_text final_result ++
  dq ",'success':" ++ bool_text (success result) ++
  dq ",'stage':'" ++ json_escape (stage result) ++
  dq "','transcript':'" ++ json_escape (transcript result) ++
  dq "','response':'" ++ json_escape (response result) ++
  dq "','error':'" ++ json_escape (error result) ++
  dq "','conversation_id':'" ++ json_escape (conversation_id result) ++
  dq "','response_type':'" ++ json_escape (response_type result) ++
  dq "','continue_conversation':" ++ bool_text (continue_conversation result) ++
  dq ",'audio_level':" ++ to_string (audio_level result) ++ [125; 10].

(** The body of the loop of [consume_output], and the same reading of
    [final_output] at the end of [run_assist_pipeline_process]. *)
Definition parse_line (line : bytes) : AssistPipelineResult :=
  mkResult (contains line (dq "'success':true"))
    (json_string_after line (str "stage") 0) (json_string_after line (str "transcript") 0)
    (json_string_after line (str "response") 0) (json_string_after line (str "error") 0)
    (json_string_after line (str "conversation_id") 0) (json_string_after line (str "response_type") 0)
    (json_bool_after line (str "continue_conversation") false) (json_int_after line (str "audio_level") 0).

(** [final_output] and the results passed to [on_progress]. *)
Record Output := mkOutput { final_output : bytes; progress : list AssistPipelineResult }.

Definition on_line (o : Output) (line : bytes) : Output :=
  let parsed := parse_line line in
  if contains line (dq "'final':true") then mkOutput line (progress o)
  else mkOutput (final_output o) (progress o ++ [parsed]).

(** [output.append(chunk)] and [consume_output()], for each chunk read. *)
Definition consume_output (chunks : list bytes) : bytes * Output :=
  fold_left (feed on_line) chunks ([], mkOutput [] []).

Definition set_error (r : AssistPipelineResult) (e : bytes) : AssistPipelineResult :=
  mkResult (success r) (stage r) (transcript r) (response r) e (conversation_id r) (response_type r)
    (continue_conversation r) (audio_level r).

(** The end of [run_assist_pipeline_process], from what was read. *)
Definition final_result (cancelled : bool) (o : Output) : AssistPipelineResult :=
  if cancelled then set_error empty_result (str "Anulowano Assist")
  else if is_empty (final_output o) then set_error empty_result (str "Proces pipeline nie zwrócił odpowiedzi")
  else
    let result := parse_line (final_output o) in
    if negb (success result) && is_empty (error result)
    then set_error result (str "Nieznany błąd procesu pipeline") else result.

(** ** Escaping *)

(** The characters that survive: no control character but newline and return. *)
Definition kept (c : Z) : bool := (0x20 <=? c) || (c =? 10) || (c =? 13).
Definition sanitize (v : bytes) : bytes := List.filter kept v.

Definition esc_char (c : Z) : bytes :=
  if (c =? 34) || (c =? 92) then [92; c]
  else if c =? 10 then [92; 110] else if c =? 13 then [92; 114] else [c].

#[export] Instance esc_char_escaper : Escaper esc_char.
Proof.
  constructor. intros c. unfold esc_char.
  destruct (Z.eqb_spec c 34) as [->|]; [right; exists 34, []; auto|].
  destruct (Z.eqb_spec c 92) as [->|]; [right; exists 92, []; repeat split; auto; lia|]. cbn [orb].
  destruct (Z.eqb_spec c 10); [right; exists 110, []; repeat split; auto; lia|].
  destruct (Z.eqb_spec c 13); [right; exists 114, []; repeat split; auto; lia|]. auto.
Qed.

Lemma json_escape_text v : json_escape v = esc_text esc_char (sanitize v).
Proof.
  induction v as [|c v IH]; [done|]. unfold json_escape, sanitize in *. cbn [map concat List.filter]. rewrite IH.
  unfold escape_character, kept.
  destruct (Z.eqb_spec c 34) as [->|]; [reflexivity|]. destruct (Z.eqb_spec c 92) as [->|]; [reflexivity|].
  destruct (Z.eqb_spec c 10) as [->|]; [reflexivity|]. destruct (Z.eqb_spec c 13) as [->|]; [reflexivity|].
  cbn [orb]. rewrite !orb_false_r. destruct (0x20 <=? c); [|done].
  rewrite esc_text_cons. unfold esc_char.
  rewrite !(proj2 (Z.eqb_neq c _)) by assumption. reflexivity.
Qed.

(** The reader undoes the escaping, up to the closing quote. *)
Lemma unescape_text v rest : forall acc, unescape (esc_text esc_char v ++ 34 :: rest) acc false = acc ++ v.
Proof.
  induction v as [|c v IH]; intros acc; [cbn; by rewrite app_nil_r|].
  rewrite esc_text_cons, <- app_assoc. unfold esc_char at 1.
  destruct (Z.eqb_spec c 34) as [->|]; [cbn; by rewrite IH, <- app_assoc|].
  destruct (Z.eqb_spec c 92) as [->|]; [cbn; by rewrite IH, <- app_assoc|]. cbn [orb].
  destruct (Z.eqb_spec c 10) as [->|]; [cbn; by rewrite IH, <- app_assoc|].
  destruct (Z.eqb_spec c 13) as [->|]; [cbn; by rewrite IH, <- app_assoc|].
  cbn [app unescape]. rewrite !(proj2 (Z.eqb_neq c _)) by assumption. by rewrite IH, <- app_assoc.
Qed.

Lemma sanitize_kept v : Forall (fun c => kept c = true) v -> sanitize v = v.
Proof. induction 1 as [|c v Hc _ IH]; [done|]. unfold sanitize in *. cbn [List.filter]. by rewrite Hc, IH. Qed.

(** The escaped text stays on one line. *)
Lemma json_escape_line v : Forall (fun b => b <> 10) (json_escape v).
Proof.
  induction v as [|c v IH]; [constructor|]. unfold json_escape in *. cbn [map concat]. apply Forall_app. split; [|exact IH].
  unfold escape_character. repeat case_if; to_prop; repeat constructor; try lia.
Qed.

(** ** Reading a member where the search found it *)

Section Reading.
Context (json key rest : bytes).

Lemma key_colon_value skip text :
  Forall (fun b => b <> 58) skip ->
  cut (marker key) json = Some (marker key ++ skip ++ 58 :: text) ->
  exists position colon,
    str_find json (marker key) 0 = Some position /\
    str_find json [58] (position + length (marker key)) = Some colon /\
    drop colon json = 58 :: text /\ (colon <= length json)%nat.
Proof using.
  intros Hs Hc. destruct (str_find_at json (marker key) 0 json _ ltac:(lia) eq_refl Hc) as (p & E1 & D1 & B1).
  assert (B : (p + length (marker key) <= length json)%nat).
  { apply (f_equal length) in D1. rewrite length_drop, length_app in D1. lia. }
  assert (D2 : drop (p + length (marker key)) json = skip ++ 58 :: text) by (rewrite <- drop_drop, D1, drop_app_length; done).
  destruct (str_find_at json [58] _ _ (58 :: text) B D2) as (c & E2 & D3 & B3).
  { rewrite (cut_skip_head 58 []) by exact Hs. by apply cut_here. }
  exists p, c. repeat split; auto; lia.
Qed.

Lemma string_after_at skip v :
  Forall (fun b => b <> 58) skip ->
  cut (marker key) json = Some (marker key ++ skip ++ 58 :: val_text esc_char (JStr v) ++ rest) ->
  json_string_after json key 0 = v.
Proof using.
  intros Hs Hc. destruct (key_colon_value _ _ Hs Hc) as (p & c & E1 & E2 & D & B). unfold json_string_after. rewrite E1, E2.
  assert (B1 : (c + 1 <= length json)%nat).
  { apply (f_equal length) in D. rewrite length_drop in D. cbn [length] in D. lia. }
  assert (D1 : drop (c + 1) json = val_text esc_char (JStr v) ++ rest) by (rewrite <- drop_drop, D; done).
  destruct (str_find_at json [34] _ _ (val_text esc_char (JStr v) ++ rest) B1 D1) as (q & E3 & D3 & B3); [by apply cut_here|].
  rewrite E3. replace (S q) with (q + 1)%nat by lia. rewrite <- drop_drop, D3. cbn [val_text app drop].
  rewrite <- app_assoc. apply unescape_text.
Qed.

Lemma int_after_at n fallback :
  cut (marker key) json = Some (marker key ++ 58 :: to_string n ++ rest) -> 0 <= n < 2 ^ 31 -> stops_digits rest ->
  json_int_after json key fallback = n.
Proof using.
  intros Hc Hn Hr. destruct (key_colon_value [] _ (List.Forall_nil _) Hc) as (p & c & E1 & E2 & D & B). unfold json_int_after. rewrite E1, E2.
  rewrite <- drop_drop, D. change (drop 1 (58 :: to_string n ++ rest)) with (to_string n ++ rest). destruct (to_string_head n) as (d & r & Ed & Hd); [lia|].
  rewrite ltrim_id.
  - rewrite strtol10_to_string by (auto; lia). rewrite Ed. cbn [length]. change (S (length r) =? 0)%nat with false.
    cbn iota. apply s32_small. lia.
  - rewrite Ed. cbn [app]. apply isdigit_spec in Hd. unfold blank.
    rewrite !(proj2 (Z.eqb_neq d _)) by lia. done.
Qed.

Lemma bool_after_at b fallback :
  cut (marker key) json = Some (marker key ++ 58 :: bool_text b ++ rest) -> json_bool_after json key fallback = b.
Proof using.
  intros Hc. destruct (key_colon_value [] _ (List.Forall_nil _) Hc) as (p & c & E1 & E2 & D & B). unfold json_bool_after. rewrite E1, E2.
  rewrite <- drop_drop, D. change (drop 1 (58 :: bool_text b ++ rest)) with (bool_text b ++ rest). destruct b; cbn [bool_text]; rewrite ltrim_id by reflexivity; [by rewrite starts_with_app|].
  change (starts_with (str "false" ++ rest) (str "true")) with false. by rewrite starts_with_app.
Qed.
End Reading.

(** ** The line as a document *)

Definition result_fields (r : AssistPipelineResult) (final : bool) : list (bytes * jval) :=
  [(str "final", JRaw (bool_text final)); (str "success", JRaw (bool_text (success r)));
   (str "stage", JStr (sanitize (stage r))); (str "transcript", JStr (sanitize (transcript r)));
   (str "response", JStr (sanitize (response r))); (str "error", JStr (sanitize (error r)));
   (str "conversation_id", JStr (sanitize (conversation_id r)));
   (str "response_type", JStr (sanitize (response_type r)));
   (str "continue_conversation", JRaw (bool_text (continue_conversation r)));
   (str "audio_level", JRaw (to_string (audio_level r)))].

Definition result_keys : list bytes :=
  [str "stage"; str "transcript"; str "response"; str "error"; str "conversation_id"; str "response_type";
   str "continue_conversation"; str "audio_level"].

(** A text that shows none of the keys. *)
Definition plain_text (v : bytes) : bool := forallb (fun k => negb (shadowsb k (sanitize v))) result_keys.

(** What the parent can read back: no text shows one of the keys, except the
    stage "transcript", which is the next key; and the level is a level. *)
Definition result_ok (r : AssistPipelineResult) : bool :=
  forallb plain_text [transcript r; response r; error r; conversation_id r; response_type r] &&
  (bytes_eqb (stage r) (str "transcript") || plain_text (stage r)) &&
  (0 <=? audio_level r) && (audio_level r <? 2 ^ 31).

(** What the parent gets. *)
Definition received (r : AssistPipelineResult) : AssistPipelineResult :=
  mkResult (success r) (sanitize (stage r)) (sanitize (transcript r)) (sanitize (response r)) (sanitize (error r))
    (sanitize (conversation_id r)) (sanitize (response_type r)) (continue_conversation r) (audio_level r).

(** The line without its newline. *)
Definition line_of (r : AssistPipelineResult) (final : bool) : bytes :=
  [123] ++ members esc_char [] [] [44] [125] (result_fields r final).

Lemma serialize_line r final : serialize_result r final = line_of r final ++ [10].
Proof.
  unfold serialize_result, line_of, result_fields. rewrite !json_escape_text.
  cbn [members]. unfold member_text, marker, val_text. cbn [fst snd]. app_norm. reflexivity.
Qed.

Section Line.
Context (r : AssistPipelineResult) (final : bool).
Hypothesis Hr : result_ok r = true.

Lemma result_field_ok : Forall (fun f => field_ok f = true) (result_fields r final).
Proof using Hr.
  unfold result_ok in Hr. to_prop.
  unfold result_fields. repeat (apply List.Forall_cons; [|]); [..|apply List.Forall_nil];
    unfold field_ok; cbn [fst snd raw_ok]; rewrite ?bool_text_noquotes, ?to_string_noquotes by lia; reflexivity.
Qed.

Lemma plain_text_spec v keys :
  plain_text v = true -> incl keys result_keys -> Forall (fun k => ~ shadows k (sanitize v)) keys.
Proof using.
  unfold plain_text. rewrite forallb_forall. intros H Hk. apply List.Forall_forall. intros k Hi.
  apply not_shadows. specialize (H k (Hk k Hi)). by to_prop.
Qed.

Lemma result_doc_ok keys :
  incl keys result_keys -> Forall (fun k => ~ shadows k (sanitize (stage r))) keys ->
  doc_ok keys (result_fields r final).
Proof using Hr.
  intros Hk Hs. pose proof result_field_ok as Hf. pose proof Hr as H. unfold result_ok in H. cbn [forallb] in H. to_prop.
  unfold doc_ok, result_fields in *.
  repeat match goal with
  | H : Forall _ (_ :: _) |- _ => apply Forall_cons in H as [? H]
  end.
  repeat (apply List.Forall_cons; [split; [assumption|cbn [snd]; try exact I; try exact Hs; by apply plain_text_spec]|]).
  apply List.Forall_nil.
Qed.

(** The keys that no stage shows. *)
Definition other_keys : list bytes :=
  [str "stage"; str "response"; str "error"; str "conversation_id"; str "response_type";
   str "continue_conversation"; str "audio_level"].

Lemma other_keys_doc : doc_ok other_keys (result_fields r final).
Proof using Hr.
  apply result_doc_ok; [intros k; cbn; tauto|].
  pose proof Hr as H. unfold result_ok in H. to_prop. apply orb_true_iff in H2 as [E|E].
  - apply bytes_eqb_eq in E. rewrite E. repeat constructor; apply not_shadows; vm_compute; reflexivity.
  - apply plain_text_spec; [exact E|intros k; cbn; tauto].
Qed.

Lemma line_lookup keys i key v :
  doc_ok keys (result_fields r final) ->
  result_fields r final !! i = Some (key, v) -> existsb (bytes_eqb key) keys = true ->
  plain_key key = true -> absent key (take i (result_fields r final)) = true ->
  cut (marker key) (line_of r final) =
  Some (marker key ++ 58 :: val_text esc_char v ++ after esc_char [] [] [44] [125] (drop (S i) (result_fields r final))).
Proof using.
  intros Hd Hi Hin Hk Ha. unfold line_of.
  change (cut (marker key)) with (cut (34 :: key ++ [34])).
  rewrite (cut_skip_head 34 _ [123]) by (repeat constructor; lia).
  apply existsb_exists in Hin as (k & Hin & E). apply bytes_eqb_eq in E as <-.
  exact (cut_lookup esc_char [] [] [44] [125] eq_refl keys _ i key v Hin Hk Hd Hi Ha).
Qed.

Lemma line_string i key v :
  result_fields r final !! i = Some (key, JStr v) -> existsb (bytes_eqb key) other_keys = true ->
  plain_key key = true -> absent key (take i (result_fields r final)) = true ->
  json_string_after (line_of r final) key 0 = v.
Proof using Hr.
  intros Hi Hin Hk Ha. eapply (string_after_at _ _ _ []); [constructor|].
  exact (line_lookup other_keys i key (JStr v) other_keys_doc Hi Hin Hk Ha).
Qed.

(** The transcript, also after the stage of the same name. *)
Lemma line_transcript : json_string_after (line_of r final) (str "transcript") 0 = sanitize (transcript r).
Proof using Hr.
  pose proof Hr as H. unfold result_ok in H. to_prop. apply orb_true_iff in H2 as [E|E].
  - apply bytes_eqb_eq in E.
    set (after_transcript := after esc_char [] [] [44] [125] (drop 4 (result_fields r final))).
    set (text := 44 :: marker (str "transcript") ++ 58 :: val_text esc_char (JStr (sanitize (transcript r))) ++ after_transcript).
    assert (C : cut (marker (str "transcript")) (line_of r final) = Some (marker (str "transcript") ++ text)).
    { unfold line_of. change (cut (marker (str "transcript"))) with (cut (34 :: str "transcript" ++ [34])).
      rewrite (cut_skip_head 34 _ [123]) by (repeat constructor; lia).
      change (34 :: str "transcript" ++ [34]) with (marker (str "transcript")).
      assert (Hd : doc_ok [str "transcript"] (take 2 (result_fields r final))).
      { pose proof result_field_ok as Hf. unfold result_fields in Hf.
        apply Forall_cons in Hf as [? Hf]. apply Forall_cons in Hf as [? Hf]. repeat constructor; assumption. }
      pose proof (cut_past esc_char [] [] [44] [125] eq_refl (str "transcript") (take 2 (result_fields r final))
        (drop 2 (result_fields r final)) eq_refl Hd eq_refl ltac:(discriminate)) as P.
      rewrite take_drop in P. rewrite P. clear P.
      unfold result_fields. rewrite E. cbn [drop]. rewrite members_cons.
      change (member_text esc_char [] [] (str "stage", JStr (sanitize (str "transcript"))))
        with (dq "'stage':" ++ marker (str "transcript")). rewrite <- app_assoc.
      replace (dq "'stage':") with [34; 115; 116; 97; 103; 101; 34; 58] by reflexivity. cbn [app].
      rewrite !cut_next by reflexivity. rewrite cut_here by apply prefixb_app. reflexivity. }
    apply (string_after_at _ _ after_transcript (44 :: marker (str "transcript"))); [|exact C].
    apply neq_check. reflexivity.
  - apply (string_after_at _ _ (after esc_char [] [] [44] [125] (drop 4 (result_fields r final))) []); [constructor|].
    apply (line_lookup result_keys 3); [|reflexivity..]. apply result_doc_ok; [apply incl_refl|].
    apply plain_text_spec; [exact E|apply incl_refl].
Qed.

Lemma line_flag key fs gs b :
  result_fields r final = fs ++ (key, JRaw (bool_text b)) :: gs -> plain_key key = true -> absent key (fs ++ gs) = true ->
  contains (line_of r final) (34 :: key ++ dq "':true") = b.
Proof using Hr.
  intros E Hk Ha. pose proof result_field_ok as Hf. rewrite E in Hf.
  rewrite contains_cut. unfold line_of. rewrite (cut_skip_head 34 _ [123]) by (repeat constructor; lia). rewrite E.
  apply (contains_flag esc_char [] [] [44] [125] eq_refl key fs gs b eq_refl Hk); [|exact Ha].
  apply Forall_app in Hf as [? Hf]. apply Forall_cons in Hf as [_ ?]. by apply Forall_app.
Qed.

Lemma line_final : contains (line_of r final) (dq "'final':true") = final.
Proof using Hr. apply (line_flag (str "final") [] (tail (result_fields r final)) final); reflexivity. Qed.

Lemma parse_line_of : parse_line (line_of r final) = received r.
Proof using Hr.
  unfold parse_line, received.
  rewrite (line_flag (str "success") [(str "final", JRaw (bool_text final))] (drop 2 (result_fields r final)) (success r)
    eq_refl eq_refl eq_refl : contains (line_of r final) (dq "'success':true") = success r).
  rewrite (line_string 2 (str "stage") (sanitize (stage r))) by reflexivity.
  rewrite line_transcript.
  rewrite (line_string 4 (str "response") (sanitize (response r))) by reflexivity.
  rewrite (line_string 5 (str "error") (sanitize (error r))) by reflexivity.
  rewrite (line_string 6 (str "conversation_id") (sanitize (conversation_id r))) by reflexivity.
  rewrite (line_string 7 (str "response_type") (sanitize (response_type r))) by reflexivity.
  rewrite (bool_after_at _ (str "continue_conversation") _ (continue_conversation r) false
    (line_lookup other_keys 8 (str "continue_conversation") (JRaw (bool_text (continue_conversation r))) other_keys_doc eq_refl eq_refl eq_refl eq_refl)).
  pose proof Hr as H. unfold result_ok in H. to_prop.
  rewrite (int_after_at _ (str "audio_level") _ (audio_level r) 0
    (line_lookup other_keys 9 (str "audio_level") (JRaw (to_string (audio_level r))) other_keys_doc eq_refl eq_refl eq_refl eq_refl)) by (lia || reflexivity).
  reflexivity.
Qed.

Lemma line_of_line : Forall (fun b => b <> 10) (line_of r final).
Proof using Hr.
  pose proof Hr as H. unfold result_ok in H. to_prop.
  assert (Hb : forall b, Forall (fun c => c <> 10) (bool_text b)) by (intros []; apply neq_check; reflexivity).
  assert (Hn : Forall (fun c => c <> 10) (to_string (audio_level r))).
  { eapply Forall_impl; [by apply to_string_digits|]. cbn beta. intros c Hc%isdigit_spec. lia. }
  unfold line_of, result_fields. cbn [members]. unfold member_text, val_text. cbn [fst snd].
  rewrite <- !json_escape_text.
  repeat first [apply Hb | apply Hn | apply json_escape_line | apply Forall_app; split | apply Forall_cons; split; [lia|]
    | apply Forall_nil; exact I | apply neq_check; reflexivity].
Qed.
End Line.

Lemma on_line_final r o : result_ok r = true -> on_line o (line_of r true) = mkOutput (line_of r true) (progress o).
Proof. intros Hr. unfold on_line. by rewrite line_final. Qed.

Lemma on_line_progress r o :
  result_ok r = true -> on_line o (line_of r false) = mkOutput (final_output o) (progress o ++ [received r]).
Proof. intros Hr. unfold on_line. by rewrite line_final, parse_line_of. Qed.

Lemma progress_lines ps : forall o,
  Forall (fun r => result_ok r = true) ps ->
  fold_left on_line (map (fun r => line_of r false) ps) o = mkOutput (final_output o) (progress o ++ map received ps).
Proof.
  induction ps as [|r ps IH]; intros o H; cbn [map fold_left]; [rewrite app_nil_r; by destruct o|].
  apply Forall_cons in H as [Hr H]. rewrite on_line_progress, IH by assumption. cbn [final_output progress].
  by rewrite <- app_assoc.
Qed.

(** What the child writes: progress lines, then the final one. *)
Definition child_output (ps : list AssistPipelineResult) (f : AssistPipelineResult) : bytes :=
  concat (map (fun r => serialize_result r false) ps) ++ serialize_result f true.

Lemma child_lines ps f :
  child_output ps f = concat (map (fun l => l ++ [10]) (map (fun r => line_of r false) ps ++ [line_of f true])) ++ [].
Proof.
  unfold child_output. rewrite serialize_line, app_nil_r, map_app, concat_app, map_map. cbn [map concat].
  rewrite app_nil_r. f_equal. f_equal. apply map_ext. intros r. apply serialize_line.
Qed.

(** ** Objects *)

#[local] Set Warnings "-register-all".
Inductive json :=
| JText (escaped : bytes)              (* a string, as it stands between its quotes *)
| JAtom (raw : bytes)                  (* a number, a boolean or null *)
| JArray (items : list json)
| JObject (fields : list (bytes * json)).

(** The text between two quotes: no quote and no backslash except in an escape
    sequence. *)
Fixpoint text_ok (s : bytes) : bool :=
  match s with
  | [] => true
  | c :: s =>
      if c =? 92 then match s with [] => false | _ :: s => text_ok s end
      else negb (c =? 34) && text_ok s
  end.

Definition atom_char (c : Z) : bool := negb (c =? 34) && negb (c =? 123) && negb (c =? 125).

Fixpoint sep_by (sep : bytes) (l : list bytes) : bytes :=
  match l with [] => [] | [x] => x | x :: l => x ++ sep ++ sep_by sep l end.

Fixpoint print_json (j : json) : bytes :=
  match j with
  | JText t => 34 :: t ++ [34]
  | JAtom r => r
  | JArray l => 91 :: sep_by [44] (map print_json l) ++ [93]
  | JObject fs => 123 :: sep_by [44] (map (fun f => 34 :: fst f ++ 34 :: 58 :: print_json (snd f)) fs) ++ [125]
  end.

(** The fields of an object are well formed when keys and values are. *)
Fixpoint json_ok (j : json) : bool :=
  match j with
  | JText t => text_ok t
  | JAtom r => forallb atom_char r
  | JArray l => forallb json_ok l
  | JObject fs => forallb (fun f => text_ok (fst f) && json_ok (snd f)) fs
  end.

Definition field_text (f : bytes * json) : bytes := 34 :: fst f ++ 34 :: 58 :: print_json (snd f).

Lemma json_nested_ind (P : json -> Prop) :
  (forall t, P (JText t)) -> (forall r, P (JAtom r)) -> (forall l, Forall P l -> P (JArray l)) ->
  (forall fs, Forall (fun f => P (snd f)) fs -> P (JObject fs)) -> forall j, P j.
Proof.
  intros HT HA HL HO. fix IH 1. intros [t|r|l|fs]; [apply HT|apply HA|apply HL|apply HO].
  - induction l as [|j l IHl]; constructor; auto.
  - induction fs as [|f fs IHf]; constructor; auto.
Qed.

(** The scan passes over [s] at any depth inside an object. *)
Definition passed (s : bytes) : Prop :=
  forall d p rest, 1 <= d ->
  object_end (s ++ rest) d false false p = object_end rest d false false (p + length s).

Lemma passed_nil : passed [].
Proof. intros d p rest _. cbn [app length]. by rewrite Nat.add_0_r. Qed.

Lemma passed_app a b : passed a -> passed b -> passed (a ++ b).
Proof.
  intros Ha Hb d p rest Hd. rewrite <- app_assoc, Ha, Hb, length_app by exact Hd. f_equal. lia.
Qed.

Lemma passed_char c : atom_char c = true -> passed [c].
Proof.
  unfold atom_char. intros H d p rest _. to_prop. cbn [app object_end length].
  rewrite !(proj2 (Z.eqb_neq c _)) by assumption. f_equal. lia.
Qed.

Lemma passed_atom r : forallb atom_char r = true -> passed r.
Proof.
  induction r as [|c r IH]; intros H; [apply passed_nil|]. cbn [forallb] in H. apply andb_true_iff in H as [Hc H].
  apply (passed_app [c]); [by apply passed_char|by apply IH].
Qed.

Lemma scan_text t : forall d p rest,
  text_ok t = true ->
  object_end (t ++ 34 :: rest) d true false p = object_end rest d false false (p + length t + 1).
Proof.
  remember (length t) as n eqn:Hn. revert t Hn. induction n as [n IH] using lt_wf_ind. intros [|c t] Hn d p rest H.
  - subst n. cbn [app object_end length]. cbn. f_equal. lia.
  - cbn [text_ok] in H. cbn [app object_end]. destruct (Z.eqb_spec c 92) as [->|].
    + destruct t as [|x t]; [discriminate|]. cbn [app object_end]. cbn [length] in Hn.
      rewrite (IH (length t)) by (lia || done). f_equal. lia.
    + apply andb_true_iff in H as [Hc H]. apply negb_true_iff in Hc. rewrite Hc. cbn [length] in Hn.
      rewrite (IH (length t)) by (lia || done). f_equal. lia.
Qed.

Lemma passed_text t : text_ok t = true -> passed (34 :: t ++ [34]).
Proof.
  intros H d p rest _. cbn [app object_end]. rewrite <- app_assoc. cbn [app]. change (34 =? 34) with true. cbn iota.
  rewrite scan_text by exact H. f_equal. cbn [length]. rewrite length_app. cbn [length]. lia.
Qed.

Lemma passed_sep sep l : passed sep -> Forall passed l -> passed (sep_by sep l).
Proof.
  intros Hs H. induction H as [|x l Hx H IH]; [apply passed_nil|]. cbn [sep_by].
  destruct l; [exact Hx|]. auto using passed_app.
Qed.

Lemma passed_field f : text_ok (fst f) = true -> passed (print_json (snd f)) -> passed (field_text f).
Proof.
  intros Ht Hv. unfold field_text. change (34 :: fst f ++ 34 :: 58 :: print_json (snd f))
    with (34 :: fst f ++ [34] ++ [58] ++ print_json (snd f)).
  rewrite (app_assoc (fst f)). change (34 :: (fst f ++ [34]) ++ [58] ++ print_json (snd f))
    with ((34 :: fst f ++ [34]) ++ [58] ++ print_json (snd f)).
  apply passed_app; [by apply passed_text|]. apply passed_app; [by apply passed_char|exact Hv].
Qed.

(** A body in braces, entered at depth [d]. *)
Lemma scan_braces body d p rest :
  passed body -> 0 <= d ->
  object_end (123 :: body ++ [125] ++ rest) d false false p =
  if d =? 0 then Some (p + length body + 1)%nat else object_end rest d false false (p + length body + 2).
Proof.
  intros Hb Hd. cbn [object_end]. change (123 =? 34) with false. change (123 =? 123) with true. cbn iota.
  rewrite Hb by lia. cbn [app object_end]. change (125 =? 34) with false. change (125 =? 123) with false.
  change (125 =? 125) with true. cbn iota. replace (d + 1 - 1) with d by lia.
  destruct (Z.eqb_spec d 0); [f_equal; lia|]. f_equal. lia.
Qed.

Lemma passed_json j : json_ok j = true -> passed (print_json j).
Proof.
  induction j as [t|r|l IH|fs IH] using json_nested_ind; cbn [json_ok print_json]; intros H.
  - by apply passed_text.
  - by apply passed_atom.
  - apply (passed_app [91]); [by apply passed_char|]. apply passed_app; [|by apply passed_char].
    apply passed_sep; [by apply passed_char|]. apply forallb_Forall in H. apply Forall_map.
    eapply Forall_impl; [apply Forall_and; split; [exact IH|exact H]|]. cbn beta. tauto.
  - intros d p rest Hd. cbn [app]. rewrite <- app_assoc, scan_braces; [|apply passed_sep; [by apply passed_char|]|lia].
    + destruct (Z.eqb_spec d 0); [lia|]. f_equal. cbn [length]. rewrite length_app. cbn [length]. lia.
    + apply forallb_Forall in H. apply Forall_map. eapply Forall_impl; [apply Forall_and; split; [exact IH|exact H]|].
      cbn beta. intros f [Hf Hg]. apply andb_true_iff in Hg as [Ht Hg]. apply passed_field; auto.
Qed.

Lemma object_end_json fs p rest :
  json_ok (JObject fs) = true ->
  object_end (print_json (JObject fs) ++ rest) 0 false false p = Some (p + length (print_json (JObject fs)) - 1)%nat.
Proof.
  intros H. cbn [print_json app]. rewrite <- app_assoc, scan_braces; [|apply passed_sep; [by apply passed_char|]|lia].
  - cbn [Z.eqb]. f_equal. cbn [length]. rewrite length_app. cbn [length]. lia.
  - cbn [json_ok] in H. apply forallb_Forall in H. apply Forall_map. eapply Forall_impl; [exact H|].
    cbn beta. intros f Hg. apply andb_true_iff in Hg as [Ht Hg]. apply passed_field; auto using passed_json.
Qed.

(** The first member of an object. *)
Lemma first_member key v gs :
  json_string_after (print_json (JObject ((key, JText (esc_text esc_char v)) :: gs))) key 0 = v.
Proof.
  assert (E : exists rest, print_json (JObject ((key, JText (esc_text esc_char v)) :: gs))
      = 123 :: marker key ++ 58 :: val_text esc_char (JStr v) ++ rest).
  { exists (match gs with [] => []
            | _ => 44 :: sep_by [44] (map (fun f => 34 :: fst f ++ 34 :: 58 :: print_json (snd f)) gs) end ++ [125]).
    destruct gs; cbn [print_json map sep_by fst snd val_text]; unfold marker; app_norm; reflexivity. }
  destruct E as [rest E]. apply (string_after_at _ _ rest []); [constructor|]. rewrite E.
  rewrite cut_next by reflexivity. by apply cut_here, prefixb_app.
Qed.

Lemma parent_facts ps f chunks :
  Forall (fun r => result_ok r = true) ps -> result_ok f = true ->
  concat chunks = child_output ps f ->
  let o := snd (consume_output chunks) in
  progress o = map received ps /\
  final_result false o =
    if negb (success f) && is_empty (sanitize (error f))
    then set_error (received f) (str "Nieznany błąd procesu pipeline") else received f.
Proof.
  intros Hp Hf E. rewrite child_lines in E. unfold consume_output.
  rewrite (feed_lines on_line chunks _ [] _ E); [|apply Forall_app; split|constructor].
  - cbn zeta. cbn [snd]. rewrite fold_left_app, progress_lines by exact Hp. cbn [fold_left].
    rewrite on_line_final by exact Hf. cbn [progress app]. split; [done|].
    unfold final_result. cbn [final_output]. rewrite parse_line_of by exact Hf. reflexivity.
  - apply Forall_map. eapply Forall_impl; [exact Hp|]. cbn beta. intros r Hr. by apply line_of_line.
  - constructor; [by apply line_of_line|constructor].
Qed.

(** ** Properties *)

(** C22. The parent gets what the child sent: from the progress lines and the
    final line of the child, cut by the pipe into any chunks, the parent calls
    [on_progress] with the progress results in order and returns the final
    result (with a message when a failure has none).  Control characters are
    dropped by the escaping; the texts must not show one of the keys. *)
Theorem child_to_parent ps f chunks :
  Forall (fun r => result_ok r = true) ps -> result_ok f = true ->
  concat chunks = child_output ps f ->
  let o := snd (consume_output chunks) in
  progress o = map received ps /\
  final_result false o =
    if negb (success f) && is_empty (sanitize (error f))
    then set_error (received f) (str "Nieznany błąd procesu pipeline") else received f.
Proof. apply parent_facts. Qed.

(** A text that is a key of the line is misread: when the user says just
    "error", the parent of a successful run reports the response as an
    error. *)
Theorem spoken_key_misread :
  let r := mkResult true (str "transcript") (str "error") (str "Gotowe") [] [] [] false 0 in
  parse_line (line_of r false) =
  mkResult true (str "transcript") (str "error") (str "Gotowe") (str "Gotowe") [] [] false 0.
Proof. vm_compute. reflexivity. Qed.

(** [json_string_in_object] reads from exactly the object that follows the
    key: whatever JSON the object holds (nested objects, braces and escaped
    quotes inside strings), the search ends at its closing brace, and a first
    member [value_key] comes back unescaped. *)
Theorem string_in_object_spec pre object_key fs rest value_key v gs :
  json_ok (JObject fs) = true -> fs = (value_key, JText (esc_text esc_char v)) :: gs ->
  let json := pre ++ marker object_key ++ 58 :: print_json (JObject fs) ++ rest in
  str_find json (marker object_key) 0 = Some (length pre) ->
  json_string_in_object json object_key value_key = v.
Proof.
  intros Hok Hfs json Hk. unfold json_string_in_object. rewrite Hk.
  set (m := (length pre + length (marker object_key))%nat).
  assert (D : drop m json = 58 :: print_json (JObject fs) ++ rest).
  { unfold json, m. rewrite <- drop_drop, !drop_app_length. done. }
  assert (B : (m <= length json)%nat) by (unfold json, m; rewrite !length_app; lia).
  destruct (str_find_at json [123] m _ (print_json (JObject fs) ++ rest) B D) as (k & -> & Dk & Bk).
  { rewrite cut_next by reflexivity. by apply cut_here. }
  rewrite Dk, object_end_json by exact Hok. unfold substr. rewrite Dk, take_app_exact.
  - rewrite Hfs. apply first_member.
  - assert (0 < length (print_json (JObject fs)))%nat by (cbn [print_json length]; lia). lia.
Qed.

(** ** Witnesses *)

Definition sample_progress : AssistPipelineResult :=
  mkResult false (str "transcript") (dq "zapal 'duże'" ++ [10] ++ str "światło") [] [] (str "01JAB") [] false 0.
Definition sample_final : AssistPipelineResult :=
  mkResult true (str "final") (str "zapal światło") (dq "Gotowe \o/ 'ok'") [] (str "01JAB") (str "action_done") true 42.

Lemma child_to_parent_witness :
  let o := snd (consume_output [take 40 (child_output [sample_progress] sample_final);
                                drop 40 (child_output [sample_progress] sample_final)]) in
  progress o = [received sample_progress] /\ final_result false o = received sample_final.
Proof.
  refine (child_to_parent [sample_progress] sample_final _ _ _ _).
  - constructor; [vm_compute; reflexivity|constructor].
  - vm_compute. reflexivity.
  - cbn [concat]. rewrite app_nil_r. apply take_drop.
Defined.

Lemma string_in_object_spec_witness :
  json_string_in_object
    (dq "{'type':'intent-end','response':{'speech':{'plain':{'speech':'Ok }','extra_data':{'a':[1]}}},'response_type':'action_done'}}")
    (str "plain") (str "speech") = str "Ok }".
Proof.
  apply (string_in_object_spec (dq "{'type':'intent-end','response':{'speech':{") (str "plain")
    [(str "speech", JText (str "Ok }")); (str "extra_data", JObject [(str "a", JArray [JAtom (str "1")])])]
    (dq "},'response_type':'action_done'}}") (str "speech") (str "Ok }")
    [(str "extra_data", JObject [(str "a", JArray [JAtom (str "1")])])]); vm_compute; reflexivity.
Defined.
End AssistJson.
