(* ===== verification/AssistSession.v ===== *)
(** The child process of the assist pipeline ([assist_pipeline_child_main] in
    assist_pipeline_bridge.cpp): the address, the WebSocket frames, the
    conversation with Home Assistant (upgrade, authentication, the pipeline
    command, the audio, the events) and the playback of the answer.  The
    network is an explicit script: what each read and each send gives; a
    failed step is a [goto cleanup] that leaves a message in the result. *)
From S2P Require Import Prelude CString Words JsonDoc WebSocket Lines AssistJson.
From stdpp Require Import list.
#[local] Open Scope Z_scope.

Module AssistSession.
Import AssistJson.

(** ** The address *)

Definition url_space (c : Z) : bool := c <=? 32.

(** Host, base path and port, and the return value. *)
Definition parse_ha_url (input : bytes) : bytes * bytes * Z * bool :=
  let url := ltrim url_space (rtrim url_space input) in
  if negb (starts_with url (str "https://")) then ([], [], 0, false)
  else
    let url := substr_from url 8 in
    let slash := str_find url (str "/") 0 in
    let authority := match slash with None => url | Some k => substr url 0 k end in
    let base_path := match slash with None => [] | Some k => substr_from url k end in
    let base_path := rtrim (fun c => c =? 47) base_path in
    let colon := str_rfind authority (str ":") in
    let host := match colon with None => authority | Some k => substr authority 0 k end in
    let port := match colon with None => 443 | Some k => atoi (substr_from authority (k + 1)) end in
    (host, base_path, port, negb (is_empty host) && (0 <? port) && (port <=? 65535)).

(** ** Reading and writing *)

(** What successive calls of [mbedtls_ssl_read] return, with whether the clock
    is past the deadline when it is looked at after the call. *)
Definition WANT_READ : Z := -0x6900.
Definition WANT_WRITE : Z := -0x6880.

Record Conn := mkConn { incoming : bytes; results : list (Z * bool) }.

(** The loop of [ssl_read_all]: [received] is what [data] holds. *)
Fixpoint read_loop (results : list (Z * bool)) (incoming received : bytes) (size : nat) : option (bytes * Conn) :=
  if (size <=? length received)%nat then Some (received, mkConn incoming results)
  else
    match results with
    | [] => None
    | (result, late) :: results =>
        if (result =? WANT_READ) || (result =? WANT_WRITE) then
          if late then None else read_loop results incoming received size
        else
          let got := take (Nat.min (Z.to_nat result) (size - length received)) incoming in
          if is_empty got then None
          else read_loop results (drop (length got) incoming) (received ++ got) size
    end.

Definition ssl_read_all (c : Conn) (size : nat) : option (bytes * Conn) := read_loop (results c) (incoming c) [] size.

(** The loop of [ssl_write_all] over the results of [mbedtls_ssl_write]: what
    was written, and the return value. *)
Fixpoint ssl_write_all (results : list (Z * bool)) (data written : bytes) : bytes * bool :=
  if is_empty data then (written, true)
  else
    match results with
    | [] => (written, false)
    | (result, late) :: results =>
        if (result =? WANT_READ) || (result =? WANT_WRITE) then
          if late then (written, false) else ssl_write_all results data written
        else if result <=? 0 then (written, false)
        else ssl_write_all results (drop (Z.to_nat result) data) (written ++ take (Z.to_nat result) data)
    end.

(** The bytes of [send_ws_frame], with the mask of the random generator. *)
Definition ws_frame (opcode : Z) (payload mask : bytes) : bytes :=
  let size := zlen payload in
  let frame := [u8 (Z.lor 0x80 opcode)] in
  let frame :=
    frame ++
    (if size <=? 125 then [u8 (Z.lor 0x80 size)]
     else if size <=? 65535 then
       [Z.lor 0x80 126; u8 (Z.land (Z.shiftr size 8) 0xFF); u8 (Z.land size 0xFF)]
     else Z.lor 0x80 127 :: map (fun shift => u8 (Z.land (Z.shiftr (u64 size) shift) 0xFF)) [56; 48; 40; 32; 24; 16; 8; 0]) in
  let frame := frame ++ mask in
  frame ++ WebSocket.mask_from 0 mask payload.

Definition max_frame : Z := 1024 * 1024.

Definition read_ws_frame (c : Conn) : option (Z * bytes * Conn) :=
  '(header, c) ← ssl_read_all c 2;
  let opcode := Z.land (nth 0 header 0) 0x0F in
  let size := Z.land (nth 1 header 0) 0x7F in
  '(size, c) ←
    (if size =? 126 then
       '(extended, c) ← ssl_read_all c 2;
       Some (Z.lor (Z.shiftl (nth 0 extended 0) 8) (nth 1 extended 0), c)
     else if size =? 127 then
       '(extended, c) ← ssl_read_all c 8;
       Some (fold_left (fun size x => Z.lor (u64 (Z.shiftl size 8)) x) extended 0, c)
     else Some (size, c));
  if max_frame <? size then None
  else
    '(payload, c) ← (if size =? 0 then Some ([], c) else ssl_read_all c (Z.to_nat size));
    Some (opcode, payload, c).

(** ** The conversation *)

(** What a [read_ws_frame] of the conversation gives: the return value and what
    [opcode] and [message] then hold. *)
Record Reply := mkReply { reply_ok : bool; reply_opcode : Z; reply_message : bytes }.

(** A turn of an event loop: no data within 100 ms, or a frame. *)
Inductive Event := Idle | Incoming (r : Reply).

(** What happens around the child: the five steps of the TLS set-up, the
    request, the bytes of the response, the three replies, the turns of the
    event loops until their deadlines, whether the [n]-th call that sends a
    frame succeeds, and the three processes of the playback. *)
Record Script := mkScript {
  setup_ok : list bool;
  request_ok : bool;
  response_bytes : bytes;
  greeting : Reply;
  auth_reply : Reply;
  run_reply : Reply;
  start_events : list Event;
  stt_events : list Event;
  can_send : nat -> bool;
  stream_ok : bool;
  download_ok : bool;
  fallback_ok : bool;
}.

(** [tried] are the frames of all calls of [send_ws_frame], [sent] those of
    the calls that succeeded; of a frame that was only tried, any first part may
    have left (see [ssl_write_all]). *)
Record St := mkSt {
  result : AssistPipelineResult;
  tried : list (Z * bytes);
  sent : list (Z * bytes);
  written : list bytes;
  tts_url : bytes;
  tts_mime_type : bytes;
}.

(** [goto cleanup] is [None]. *)
Definition M (A : Type) : Type := St -> option A * St.

Definition ret {A} (a : A) : M A := fun st => (Some a, st).
Definition bind {A B} (m : M A) (f : A -> M B) : M B := fun st =>
  match m st with (Some a, st) => f a st | (None, st) => (None, st) end.
#[local] Notation "'let*' x ':=' m 'in' k" := (bind m (fun x => k)) (at level 10, x name, m at level 100, k at level 200).
#[local] Notation "m 'then*' k" := (bind m (fun _ => k)) (at level 100, k at level 200, right associativity).

Definition get : M St := fun st => (Some st, st).
Definition set_result (f : AssistPipelineResult -> AssistPipelineResult) : M unit :=
  fun st => (Some tt, mkSt (f (result st)) (tried st) (sent st) (written st) (tts_url st) (tts_mime_type st)).

Definition fail (message : bytes) : M unit :=
  fun st => (None, mkSt (set_error (result st) message) (tried st) (sent st) (written st) (tts_url st) (tts_mime_type st)).
Definition require (b : bool) (message : bytes) : M unit := if b then ret tt else fail message.

Definition set_stage (s : bytes) (r : AssistPipelineResult) : AssistPipelineResult :=
  mkResult (success r) s (transcript r) (response r) (error r) (conversation_id r) (response_type r)
    (continue_conversation r) (audio_level r).
Definition set_transcript (t : bytes) (r : AssistPipelineResult) : AssistPipelineResult :=
  mkResult (success r) (stage r) t (response r) (error r) (conversation_id r) (response_type r)
    (continue_conversation r) (audio_level r).
Definition set_response (t : bytes) (r : AssistPipelineResult) : AssistPipelineResult :=
  mkResult (success r) (stage r) (transcript r) t (error r) (conversation_id r) (response_type r)
    (continue_conversation r) (audio_level r).
Definition set_conversation (t : bytes) (r : AssistPipelineResult) : AssistPipelineResult :=
  mkResult (success r) (stage r) (transcript r) (response r) (error r) t (response_type r)
    (continue_conversation r) (audio_level r).

Section Session.
Context (s : Script).

(** [send_ws_frame]: whether it succeeds is the script's. *)
Definition send (opcode : Z) (payload : bytes) : M bool :=
  fun st =>
    let ok := can_send s (length (tried st)) in
    (Some ok, mkSt (result st) (tried st ++ [(opcode, payload)]) (if ok then sent st ++ [(opcode, payload)] else sent st)
                (written st) (tts_url st) (tts_mime_type st)).

Definition write_line (line : bytes) : M unit :=
  fun st => (Some tt, mkSt (result st) (tried st) (sent st) (written st ++ [line]) (tts_url st) (tts_mime_type st)).

Definition report_progress (stage : bytes) : M unit :=
  set_result (set_stage stage) then*
  let* st := get in write_line (serialize_result (result st) false).

(** The five steps up to the handshake. *)
Definition setup : M unit :=
  require (nth 0 (setup_ok s) true) (str "Błąd generatora TLS") then*
  require (nth 1 (setup_ok s) true) (str "Nie można połączyć z Home Assistant") then*
  require (nth 2 (setup_ok s) true) (str "Błąd konfiguracji TLS") then*
  require (nth 3 (setup_ok s) true) (str "Błąd inicjalizacji TLS") then*
  require (nth 4 (setup_ok s) true) (str "Handshake TLS nie powiódł się").

(** The response header, one byte at a time. *)
Fixpoint read_headers (incoming headers : bytes) : bytes :=
  match incoming with
  | [] => headers
  | character :: incoming =>
      if negb (zlen headers <? 4096) then headers
      else
        let headers := headers ++ [character] in
        if (4 <=? zlen headers) && bytes_eqb (substr_from headers (length headers - 4)) [13; 10; 13; 10] then headers
        else read_headers incoming headers
  end.

Definition accept_key : bytes := str "Sec-WebSocket-Accept: s3pPLMBiTxaQ9kYGzzhZRbK+xOo=".

Definition upgrade : M unit :=
  require (request_ok s) (str "Nie można rozpocząć WebSocket") then*
  let headers := read_headers (response_bytes s) [] in
  require (contains headers (str " 101 ") && contains headers accept_key) (str "Home Assistant odrzucił WebSocket").

Definition authenticate (token : bytes) : M unit :=
  require (reply_ok (greeting s) && contains (reply_message (greeting s)) (str "auth_required"))
    (str "Brak żądania autoryzacji HA") then*
  let auth := dq "{'type':'auth','access_token':'" ++ token ++ dq "'}" in
  let* ok := send 0x1 auth in
  require (ok && reply_ok (auth_reply s) && contains (reply_message (auth_reply s)) (str "auth_ok"))
    (str "Home Assistant odrzucił autoryzację").

Definition run_command (conversation_id : bytes) : bytes :=
  let conversation :=
    if is_empty conversation_id then [] else dq ",'conversation_id':'" ++ json_escape conversation_id ++ dq "'" in
  dq "{'id':1,'type':'assist_pipeline/run','start_stage':'stt','end_stage':'tts','input':{'sample_rate':16000,'no_vad':true},'timeout':60"
    ++ conversation ++ dq "}".

Definition or_default (t d : bytes) : bytes := if is_empty t then d else t.

Definition start_pipeline (conversation_id : bytes) : M unit :=
  let* ok := send 0x1 (run_command conversation_id) in
  let message := if ok then reply_message (run_reply s) else [] in
  require (ok && reply_ok (run_reply s) && contains message (dq "'success':true"))
    (or_default (json_string_after message (str "message") 0) (str "Pipeline Assist nie wystartował")).

(** The first event loop: [handler_id]. *)
Fixpoint wait_run_start (events : list Event) : M Z :=
  match events with
  | [] => ret (-1)
  | Idle :: events => wait_run_start events
  | Incoming r :: events =>
      if negb (reply_ok r) then ret (-1)
      else if reply_opcode r =? 0x9 then
        send 0xA (reply_message r) then* wait_run_start events
      else if contains (reply_message r) (dq "'type':'run-start'") then
        let handler_id := json_int_after (reply_message r) (str "stt_binary_handler_id") (-1) in
        set_result (set_conversation (json_string_after (reply_message r) (str "conversation_id") 0)) then*
        ret handler_id
      else wait_run_start events
  end.

(** The loop over the audio, [fuel] chunks at most. *)
Fixpoint send_audio (fuel : nat) (handler_id : Z) (audio : bytes) : M unit :=
  match fuel with
  | O => ret tt
  | S fuel =>
      if is_empty audio then ret tt
      else
        let chunk := take 1024 audio in
        let* ok := send 0x2 (u8 handler_id :: chunk) in
        require ok (str "Błąd wysyłania audio do pipeline") then*
        send_audio fuel handler_id (drop 1024 audio)
  end.

Definition finish_audio (handler_id : Z) : M unit :=
  let* ok := send 0x2 [u8 handler_id] in require ok (str "Nie można zakończyć audio pipeline").

(** What an [intent-end] puts into the result. *)
Definition intent_end (message : bytes) (r : AssistPipelineResult) : AssistPipelineResult :=
  let response := json_string_in_object message (str "plain") (str "speech") in
  mkResult true (stage r) (transcript r) (or_default response (str "Polecenie zostało wykonane.")) (error r)
    (conversation_id r) (json_string_after message (str "response_type") 0)
    (json_bool_after message (str "continue_conversation") false) (audio_level r).

Definition set_error_m (e : bytes) : M unit := set_result (fun r => set_error r e).

Definition set_tts (url mime : bytes) : M unit :=
  fun st => (Some tt, mkSt (result st) (tried st) (sent st) (written st) url mime).

(** The second event loop. *)
Fixpoint pipeline_events (events : list Event) : M unit :=
  match events with
  | [] => ret tt
  | Idle :: events => pipeline_events events
  | Incoming r :: events =>
      let message := reply_message r in
      if negb (reply_ok r) then set_error_m (str "Połączenie pipeline zostało zamknięte")
      else if reply_opcode r =? 0x9 then send 0xA message then* pipeline_events events
      else if reply_opcode r =? 0x8 then set_error_m (str "Home Assistant zakończył połączenie")
      else if contains message (dq "'type':'stt-end'") then
        set_result (set_transcript (json_string_after message (str "text") 0)) then*
        report_progress (str "transcript") then* pipeline_events events
      else if contains message (dq "'type':'error'") then
        set_error_m (or_default (json_string_after message (str "message") 0) (str "Błąd pipeline Assist"))
      else if contains message (dq "'type':'intent-end'") then
        set_result (intent_end message) then* pipeline_events events
      else if contains message (dq "'type':'tts-start'") then
        let tts_input := json_string_after message (str "tts_input") 0 in
        set_result (fun r => if is_empty (response r) && negb (is_empty tts_input) then set_response tts_input r else r)
          then* pipeline_events events
      else if contains message (dq "'type':'tts-end'") then
        set_tts (json_string_after message (str "url") 0) (json_string_after message (str "mime_type") 0)
      else pipeline_events events
  end.

Definition run_events : M unit :=
  pipeline_events (stt_events s) then*
  let* st := get in
  if is_empty (tts_url st) && is_empty (error (result st))
  then set_error_m (str "Pipeline Assist przekroczył limit czasu") else ret tt.

(** From the set-up to [cleanup]. *)
Definition conversation (token conversation_id audio : bytes) : M unit :=
  setup then*
  upgrade then*
  authenticate token then*
  start_pipeline conversation_id then*
  let* handler_id := wait_run_start (start_events s) in
  require (negb ((handler_id <? 1) || (255 <? handler_id))) (str "Pipeline nie zwrócił handlera audio") then*
  send_audio (length audio) handler_id audio then*
  finish_audio handler_id then*
  run_events.

(** [download_and_play_tts] with [stream_and_play_tts]: [None] on success, or
    the error. *)
Definition download_and_play_tts (path mime_type : bytes) : M (option bytes) :=
  if negb (starts_with path (str "/api/tts_proxy/")) || negb (starts_with mime_type (str "audio/"))
  then ret (Some (str "Home Assistant zwrócił nieprawidłowe audio TTS"))
  else
    report_progress (str "playback") then*
    if stream_ok s then ret None
    else if negb (download_ok s) then ret (Some (str "Nie można pobrać odpowiedzi głosowej"))
    else
      report_progress (str "playback") then*
      ret (if fallback_ok s then None else Some (str "Nie można odtworzyć odpowiedzi głosowej")).

(** After [cleanup]: the playback, the final line and the exit code. *)
Definition finish (st : St) : list bytes * Z :=
  let st :=
    if success (result st) && negb (is_empty (tts_url st)) then
      snd ((let* e := download_and_play_tts (tts_url st) (tts_mime_type st) in
            match e with None => ret tt | Some e => set_error_m e end) st)
    else st in
  let r := set_stage (str "final") (result st) in
  (written st ++ [serialize_result r true], if success r then 0 else 1).

Definition assist_pipeline_child_main (ha_url token conversation_id audio : bytes) : list bytes * Z :=
  if is_empty audio then ([serialize_result (set_error empty_result (str "Brak danych audio")) true], 2)
  else
    let '(_, _, _, ok) := parse_ha_url ha_url in
    if negb ok then ([serialize_result (set_error empty_result (str "Assist pipeline wymaga adresu HTTPS")) true], 2)
    else finish (snd (conversation token conversation_id audio (mkSt empty_result [] [] [] [] []))).
End Session.

(** ** What the parts of the conversation keep *)

(** The binary messages sent: the audio. *)
Definition binary (l : list (Z * bytes)) : list bytes := map snd (List.filter (fun f => fst f =? 0x2) l).
Definition bin (st : St) : list bytes := binary (sent st).
Definition bin_tried (st : St) : list bytes := binary (tried st).

Definition quiet {A} (m : M A) : Prop := forall st, bin (snd (m st)) = bin st /\ bin_tried (snd (m st)) = bin_tried st.
Definition calm {A} (m : M A) : Prop := forall st, success (result (snd (m st))) = success (result st).

(** Every line written so far is a progress line. *)
Definition reported (st : St) : Prop := exists ps, written st = map (fun r => serialize_result r false) ps.
Definition reports {A} (m : M A) : Prop := forall st, reported st -> reported (snd (m st)).

Create HintDb session.

Lemma quiet_bind {A B} (m : M A) (f : A -> M B) : quiet m -> (forall a, quiet (f a)) -> quiet (bind m f).
Proof. intros Hm Hf st. unfold bind. specialize (Hm st). destruct (m st) as [[a|] st']; [destruct (Hf a st') as [-> ->]|]; exact Hm. Qed.
Lemma calm_bind {A B} (m : M A) (f : A -> M B) : calm m -> (forall a, calm (f a)) -> calm (bind m f).
Proof. intros Hm Hf st. unfold bind. specialize (Hm st). destruct (m st) as [[a|] st']; [rewrite (Hf a st')|]; exact Hm. Qed.
Lemma reports_bind {A B} (m : M A) (f : A -> M B) : reports m -> (forall a, reports (f a)) -> reports (bind m f).
Proof. intros Hm Hf st H. unfold bind. specialize (Hm st H). destruct (m st) as [[a|] st']; [by apply Hf|exact Hm]. Qed.

Lemma quiet_ret {A} (a : A) : quiet (ret a). Proof. intros st; split; reflexivity. Qed.
Lemma calm_ret {A} (a : A) : calm (ret a). Proof. intros st; try (intros H; exact H); reflexivity. Qed.
Lemma reports_ret {A} (a : A) : reports (ret a). Proof. intros st; try (intros H; exact H); reflexivity. Qed.
Lemma quiet_get : quiet get. Proof. intros st; split; reflexivity. Qed.
Lemma calm_get : calm get. Proof. intros st; try (intros H; exact H); reflexivity. Qed.
Lemma reports_get : reports get. Proof. intros st; try (intros H; exact H); reflexivity. Qed.
Lemma quiet_require b e : quiet (require b e). Proof. destruct b; intros st; split; reflexivity. Qed.
Lemma calm_require b e : calm (require b e). Proof. destruct b; intros st; try (intros H; exact H); reflexivity. Qed.
Lemma reports_require b e : reports (require b e). Proof. destruct b; intros st; try (intros H; exact H); reflexivity. Qed.
Lemma quiet_set f : quiet (set_result f). Proof. intros st; split; reflexivity. Qed.
Lemma reports_set f : reports (set_result f). Proof. intros st; try (intros H; exact H); reflexivity. Qed.
Lemma calm_set f : (forall r, success (f r) = success r) -> calm (set_result f). Proof. intros H st. apply H. Qed.
Lemma quiet_tts u m : quiet (set_tts u m). Proof. intros st; split; reflexivity. Qed.
Lemma reports_tts u m : reports (set_tts u m). Proof. intros st; try (intros H; exact H); reflexivity. Qed.

#[local] Hint Resolve quiet_ret calm_ret reports_ret quiet_get calm_get reports_get
  quiet_require calm_require reports_require quiet_set calm_set reports_set quiet_tts reports_tts : session.

Section Parts.
Context (s : Script).

Lemma send_step op p st :
  exists ok st', send s op p st = (Some ok, st') /\ sent st' = (if ok : bool then sent st ++ [(op, p)] else sent st) /\
    result st' = result st /\ written st' = written st /\ tried st' = tried st ++ [(op, p)].
Proof. unfold send. eexists _, _. split_and!; reflexivity. Qed.

Lemma binary_app a b : binary (a ++ b) = binary a ++ binary b.
Proof. unfold binary. by rewrite List.filter_app, map_app. Qed.

Lemma quiet_send op p : op <> 0x2 -> quiet (send s op p).
Proof.
  intros H st. destruct (send_step op p st) as (ok & st' & -> & E & _ & _ & T). cbn [snd]. unfold bin, bin_tried.
  assert (N : binary [(op, p)] = []) by (unfold binary; cbn [List.filter fst]; by rewrite (proj2 (Z.eqb_neq op 2)) by exact H).
  rewrite E, T, binary_app, N, app_nil_r. split; [|done]. destruct ok; [|done]. by rewrite binary_app, N, app_nil_r.
Qed.
Lemma calm_send op p : calm (send s op p).
Proof. intros st. destruct (send_step op p st) as (ok & st' & -> & _ & E & _). cbn [snd]. by rewrite E. Qed.
Lemma reports_send op p : reports (send s op p).
Proof. intros st H. destruct (send_step op p st) as (ok & st' & -> & _ & _ & E & _). cbn [snd]. unfold reported. by rewrite E. Qed.
#[local] Hint Resolve quiet_send calm_send reports_send : session.

Lemma quiet_progress t : quiet (report_progress t). Proof. done. Qed.
Lemma reports_progress t : reports (report_progress t).
Proof.
  intros st [ps E]. exists (ps ++ [set_stage t (result st)]). cbn. rewrite E, map_app. done.
Qed.
#[local] Hint Resolve quiet_progress reports_progress : session.

Ltac keeps := repeat first [solve [auto with session] | apply quiet_send; lia
  | apply quiet_bind; [|intros ?] | apply calm_bind; [|intros ?] | apply reports_bind; [|intros ?]].

Lemma setup_keeps : quiet (setup s) /\ calm (setup s) /\ reports (setup s).
Proof. unfold setup. split_and!; keeps. Qed.
Lemma upgrade_keeps : quiet (upgrade s) /\ calm (upgrade s) /\ reports (upgrade s).
Proof. unfold upgrade. split_and!; keeps. Qed.
Lemma authenticate_keeps t : quiet (authenticate s t) /\ calm (authenticate s t) /\ reports (authenticate s t).
Proof. unfold authenticate. split_and!; keeps. Qed.
Lemma start_keeps c : quiet (start_pipeline s c) /\ calm (start_pipeline s c) /\ reports (start_pipeline s c).
Proof. unfold start_pipeline. split_and!; keeps. Qed.

Lemma wait_keeps evs : quiet (wait_run_start s evs) /\ calm (wait_run_start s evs) /\ reports (wait_run_start s evs).
Proof.
  induction evs as [|[|r] evs (IH1 & IH2 & IH3)]; cbn [wait_run_start]; [split_and!; auto with session|auto|].
  repeat case_if; split_and!; keeps; intros; try apply calm_set; auto.
Qed.

Lemma events_keeps evs : quiet (pipeline_events s evs) /\ reports (pipeline_events s evs).
Proof.
  induction evs as [|[|r] evs (IH1 & IH2)]; cbn [pipeline_events]; [split; auto with session|auto|].
  repeat case_if; split_and!; unfold set_error_m; keeps.
Qed.

Lemma run_events_keeps : quiet (run_events s) /\ reports (run_events s).
Proof.
  destruct (events_keeps (stt_events s)). unfold run_events, set_error_m.
  split_and!; keeps; intros st; case_if; auto with session; try (split; reflexivity); done.
Qed.

Lemma require_true b e st st' : require b e st = (Some tt, st') -> b = true.
Proof. destruct b; [done|discriminate]. Qed.

(** ** The audio *)

(** The chunks of 1024 bytes. *)
Fixpoint chunks (fuel : nat) (audio : bytes) : list bytes :=
  match fuel with
  | O => []
  | S fuel => if is_empty audio then [] else take 1024 audio :: chunks fuel (drop 1024 audio)
  end.

Definition audio_frames (id : Z) (audio : bytes) : list bytes :=
  map (fun c => id :: c) (chunks (length audio) audio) ++ [[id]].

Lemma chunks_concat fuel : forall audio, (length audio <= fuel)%nat -> concat (chunks fuel audio) = audio.
Proof.
  induction fuel as [|fuel IH]; intros audio H; [destruct audio; [done|cbn [length] in H; lia]|]. cbn [chunks].
  destruct audio as [|b audio]; [done|]. change (is_empty (b :: audio)) with false. cbn iota. cbn [concat].
  rewrite IH; [apply take_drop|]. rewrite length_drop. cbn [length] in *. lia.
Qed.

Lemma chunks_length fuel : forall audio, Forall (fun c => (length c <= 1024)%nat) (chunks fuel audio).
Proof.
  induction fuel as [|fuel IH]; intros audio; cbn [chunks]; [constructor|]. case_if; [constructor|].
  constructor; [rewrite length_take; lia|apply IH].
Qed.

Lemma send_audio_spec id fuel : forall audio st,
  let frames := map (fun c => u8 id :: c) (chunks fuel audio) in
  success (result (snd (send_audio s fuel id audio st))) = success (result st) /\
  ((fst (send_audio s fuel id audio st) = Some tt /\ bin (snd (send_audio s fuel id audio st)) = bin st ++ frames) \/
   (fst (send_audio s fuel id audio st) = None /\
    exists k, bin (snd (send_audio s fuel id audio st)) = bin st ++ take k frames)).
Proof.
  induction fuel as [|fuel IH]; intros audio st; cbn [send_audio chunks].
  { split; [done|]. left. split; [done|]. cbn [map]. by rewrite app_nil_r. }
  destruct (is_empty audio). { split; [done|]. left. split; [done|]. cbn [map]. by rewrite app_nil_r. }
  unfold bind. destruct (send_step 2 (u8 id :: take 1024 audio) st) as ([|] & st' & -> & E & R & _); swap 1 2.
  - cbn. rewrite R. split; [done|]. right. split; [done|]. exists 0%nat. unfold bin. by rewrite E, app_nil_r.
  - cbn [require ret]. destruct (IH (drop 1024 audio) st') as [Hs Hb]. rewrite R in Hs. split; [exact Hs|].
    assert (E' : bin st' = bin st ++ [u8 id :: take 1024 audio]) by (unfold bin; rewrite E, binary_app; done).
    rewrite E' in Hb. cbn [map]. destruct Hb as [[Hf Hb]|[Hf [k Hb]]]; [left|right]; (split; [exact Hf|]).
    + rewrite Hb, <- app_assoc. done.
    + exists (S k). rewrite Hb, <- app_assoc. done.
Qed.

Lemma finish_audio_spec id st :
  success (result (snd (finish_audio s id st))) = success (result st) /\
  (fst (finish_audio s id st) = Some tt /\ bin (snd (finish_audio s id st)) = bin st ++ [[u8 id]] \/
   fst (finish_audio s id st) = None /\ bin (snd (finish_audio s id st)) = bin st).
Proof.
  unfold finish_audio, bind. destruct (send_step 2 [u8 id] st) as ([|] & st' & -> & E & R & _); swap 1 2; cbn.
  - rewrite R. split; [done|]. right. split; [done|]. unfold bin. by rewrite E.
  - rewrite R. split; [done|]. left. split; [done|]. unfold bin. by rewrite E, binary_app.
Qed.

(** The part from the handler on. *)
Definition stream (handler_id : Z) (audio : bytes) : M unit :=
  bind (send_audio s (length audio) handler_id audio) (fun _ =>
  bind (finish_audio s handler_id) (fun _ => run_events s)).

Lemma stream_spec id audio st :
  0 <= id < 256 -> bin st = [] -> success (result st) = false ->
  exists k, bin (snd (stream id audio st)) = take k (audio_frames id audio) /\
    (success (result (snd (stream id audio st))) = true -> bin (snd (stream id audio st)) = audio_frames id audio).
Proof.
  intros Hid Hb Hs. unfold stream, bind, audio_frames. destruct (send_audio_spec id (length audio) audio st) as [S1 B1].
  rewrite u8_small in B1 by exact Hid. set (frames := map (fun c => id :: c) (chunks (length audio) audio)) in *.
  rewrite Hb in B1. rewrite Hs in S1.
  destruct (send_audio s (length audio) id audio st) as [o1 st1]. cbn [fst snd app] in S1, B1.
  destruct B1 as [[-> B1]|[-> [k B1]]].
  2: { cbn [snd]. exists (Nat.min k (length frames)). split; [|congruence].
       rewrite take_app_le by lia. rewrite B1. destruct (Nat.le_ge_cases k (length frames)); [by rewrite Nat.min_l|].
       rewrite Nat.min_r, !take_ge by lia. done. }
  destruct (finish_audio_spec id st1) as [S2 B2]. rewrite u8_small in B2 by exact Hid. rewrite S1 in S2.
  destruct (finish_audio s id st1) as [o2 st2]. cbn [fst snd] in S2, B2. rewrite B1 in B2.
  destruct B2 as [[-> B2]|[-> B2]].
  - destruct run_events_keeps as [Hq _]. rewrite (proj1 (Hq st2)), B2. exists (length (frames ++ [[id]])).
    rewrite take_ge by lia. done.
  - cbn [snd]. exists (length frames). rewrite take_app_length. split; [exact B2|congruence].
Qed.

(** What the script must have let the child see before any audio. *)
Definition authenticated : bool :=
  reply_ok (greeting s) && contains (reply_message (greeting s)) (str "auth_required") &&
  (reply_ok (auth_reply s) && contains (reply_message (auth_reply s)) (str "auth_ok")) &&
  (reply_ok (run_reply s) && contains (reply_message (run_reply s)) (dq "'success':true")).

Lemma authenticate_true token st st' :
  authenticate s token st = (Some tt, st') ->
  reply_ok (greeting s) && contains (reply_message (greeting s)) (str "auth_required") &&
  (reply_ok (auth_reply s) && contains (reply_message (auth_reply s)) (str "auth_ok")) = true.
Proof.
  unfold authenticate, bind at 1. destruct (reply_ok (greeting s) && _) eqn:E1; [|discriminate]. cbn [require ret].
  unfold bind. destruct (send s 1 _ st) as [[ok|] st1]; [|discriminate]. intros H%require_true.
  rewrite <- andb_assoc in H. apply andb_true_iff in H as [_ H]. by rewrite H.
Qed.

Lemma start_true cid st st' :
  start_pipeline s cid st = (Some tt, st') -> reply_ok (run_reply s) && contains (reply_message (run_reply s)) (dq "'success':true") = true.
Proof.
  unfold start_pipeline, bind. destruct (send s 1 _ st) as [[ok|] st1]; [|discriminate]. intros H%require_true.
  rewrite <- andb_assoc in H. apply andb_true_iff in H as [Hok H]. by rewrite Hok in H.
Qed.

Definition initial : St := mkSt empty_result [] [] [] [] [].

(** No audio was sent and nothing succeeded yet. *)
Definition fresh (st : St) : Prop := bin st = [] /\ bin_tried st = [] /\ success (result st) = false.

Definition outcome (audio : bytes) (st : St) : Prop :=
  fresh st \/
  (authenticated = true /\ exists id k, 1 <= id <= 255 /\ bin st = take k (audio_frames id audio) /\
    (success (result st) = true -> bin st = audio_frames id audio)).

(** A first part that sends no audio. *)
Lemma outcome_bind {A} audio (m : M A) (f : A -> M unit) st :
  quiet m -> calm m -> fresh st ->
  (forall a st', m st = (Some a, st') -> fresh st' -> outcome audio (snd (f a st'))) ->
  outcome audio (snd (bind m f st)).
Proof using.
  intros Hq Hc (Hb & Ht & Hs) K. destruct (Hq st) as [Hq1 Hq2]. specialize (Hc st). unfold bind.
  destruct (m st) as [[a|] st'] eqn:E; cbn [snd] in *.
  - apply K; [done|]. split_and!; congruence.
  - left. split_and!; congruence.
Qed.

Lemma conversation_audio token cid audio : outcome audio (snd (conversation s token cid audio initial)).
Proof.
  unfold conversation.
  destruct setup_keeps as (? & ? & _). destruct upgrade_keeps as (? & ? & _).
  destruct (authenticate_keeps token) as (? & ? & _). destruct (start_keeps cid) as (? & ? & _).
  destruct (wait_keeps (start_events s)) as (? & ? & _).
  apply outcome_bind; [done..|]. intros [] st1 _ F1. apply outcome_bind; [done..|]. intros [] st2 _ F2.
  apply outcome_bind; [done..|]. intros [] st3 A3%authenticate_true F3.
  apply outcome_bind; [done..|]. intros [] st4 A4%start_true F4.
  apply outcome_bind; [done..|]. intros id st5 _ F5.
  apply outcome_bind; [apply quiet_require|apply calm_require|done|]. intros [] st6 R%require_true (Hb & _ & Hs).
  right. unfold authenticated. rewrite A3, A4. split; [done|].
  assert (1 <= id <= 255) by (apply negb_true_iff, orb_false_iff in R as [? ?]; to_prop; lia).
  destruct (stream_spec id audio st6) as (k & ? & ?); [lia|done|done|]. by exists id, k.
Qed.

Lemma send_audio_reports id fuel : forall audio, reports (send_audio s fuel id audio).
Proof using.
  induction fuel as [|fuel IH]; intros audio; cbn [send_audio]; [apply reports_ret|]. case_if; [apply reports_ret|].
  apply reports_bind; [apply reports_send|]. intros ok. apply reports_bind; [apply reports_require|auto].
Qed.

Lemma conversation_reports token cid audio : reported (snd (conversation s token cid audio initial)).
Proof.
  assert (H : reports (conversation s token cid audio)).
  { unfold conversation. destruct setup_keeps as (_ & _ & ?). destruct upgrade_keeps as (_ & _ & ?).
    destruct (authenticate_keeps token) as (_ & _ & ?). destruct (start_keeps cid) as (_ & _ & ?).
    destruct (wait_keeps (start_events s)) as (_ & _ & ?). destruct run_events_keeps as (_ & ?).
    do 5 (apply reports_bind; [assumption|intros ?]). apply reports_bind; [apply reports_require|intros _].
    apply reports_bind; [apply send_audio_reports|intros _]. apply reports_bind; [|by intros _].
    apply reports_bind; [apply reports_send|intros ok; apply reports_require]. }
  apply H. by exists [].
Qed.
End Parts.

(** ** Reads and writes *)

Lemma read_loop_take rs : forall inc acc size data c',
  (length acc <= size)%nat -> read_loop rs inc acc size = Some (data, c') ->
  exists got, data = acc ++ got /\ length data = size /\ inc = got ++ incoming c'.
Proof.
  induction rs as [|[r late] rs IH]; intros inc acc size data c' Ha E; cbn [read_loop] in E;
    destruct (Nat.leb_spec size (length acc)); try discriminate.
  - injection E as <- <-. exists []. rewrite app_nil_r. cbn [app incoming]. split_lia; done.
  - injection E as <- <-. exists []. rewrite app_nil_r. cbn [app incoming]. split_lia; done.
  - destruct ((r =? WANT_READ) || (r =? WANT_WRITE)); [destruct late; [discriminate|by apply IH in E]|].
    set (got := take _ inc) in *. destruct (is_empty got); [discriminate|].
    assert (Hg : (length got <= size - length acc)%nat) by (unfold got; rewrite length_take; lia).
    apply IH in E as (g & -> & Hd & E); [|rewrite length_app; lia].
    exists (got ++ g). rewrite app_assoc. split; [done|]. split; [exact Hd|]. rewrite <- app_assoc, <- E.
    assert (Et : take (length got) inc = got) by (unfold got at 2; rewrite <- (take_drop (Nat.min (Z.to_nat r) (size - length acc)) inc) at 1; apply take_app_length).
    rewrite <- (take_drop (length got) inc) at 1. by rewrite Et.
Qed.

Lemma ssl_read_all_take c size data c' :
  ssl_read_all c size = Some (data, c') -> length data = size /\ incoming c = data ++ incoming c'.
Proof. intros E. apply read_loop_take in E as (g & -> & Hl & E); [done|cbn [length]; lia]. Qed.

(** What is sent is a masked final frame of RFC 6455. *)
Lemma ws_frame_rfc opcode payload mask :
  0 <= opcode < 16 -> zlen payload < 2 ^ 63 -> ws_frame opcode payload mask = WebSocket.rfc_frame (128 + opcode) (Some mask) payload.
Proof.
  intros Ho H. unfold ws_frame, WebSocket.rfc_frame.
  pose proof (WebSocket.length_field_rfc (zlen payload) ltac:(lia)) as F.
  unfold u64. rewrite (Z.mod_small (zlen payload)) by lia. cbn [map] in F |- *.
  assert (B : forall x, u8 (Z.land x 0xFF) = Z.land x 0xFF) by (intros; rewrite land_255; apply u8_small, mod256_byte).
  rewrite !B. change (u8 (Z.lor 0x80 126)) with (Z.lor 0x80 126) in F. change (u8 (Z.lor 0x80 127)) with (Z.lor 0x80 127) in F.
  change (7 * 8) with 56 in F. change (6 * 8) with 48 in F. change (5 * 8) with 40 in F. change (4 * 8) with 32 in F.
  change (3 * 8) with 24 in F. change (2 * 8) with 16 in F. change (1 * 8) with 8 in F. change (0 * 8) with 0 in F.
  rewrite F.
  change 0x80 with (1 * 2 ^ 7). rewrite (lor_add 7), u8_small by (unfold is_byte; lia). change (1 * 2 ^ 7) with 128.
  destruct (WebSocket.rfc_length (zlen payload)) as [l7 ext]. app_norm. reflexivity.
Qed.

(** The deadline only ends a write early: what was written is a first part of
    the data, and all of it when the function returns true. *)
Lemma ssl_write_all_prefix rs : forall data written,
  exists k, fst (ssl_write_all rs data written) = written ++ take k data /\
    (snd (ssl_write_all rs data written) = true -> take k data = data).
Proof.
  induction rs as [|[r late] rs IH]; intros data written; cbn [ssl_write_all];
    (destruct data as [|b data]; [exists 0%nat; by rewrite app_nil_r|]); change (is_empty (b :: data)) with false; cbn iota.
  - exists 0%nat. by rewrite app_nil_r.
  - destruct ((r =? WANT_READ) || (r =? WANT_WRITE)); [destruct late; [exists 0%nat; by rewrite app_nil_r|apply IH]|].
    destruct (r <=? 0); [exists 0%nat; by rewrite app_nil_r|].
    destruct (IH (drop (Z.to_nat r) (b :: data)) (written ++ take (Z.to_nat r) (b :: data))) as (k & E & T).
    exists (Z.to_nat r + k)%nat. rewrite E, <- app_assoc, <- take_take_drop. split; [done|].
    intros H. by rewrite (T H), take_drop.
Qed.

(** ** Properties *)

Lemma finish_output s st :
  reported st ->
  exists ps f, finish s st = (map (fun r => serialize_result r false) ps ++ [serialize_result f true], if success f then 0 else 1)
    /\ stage f = str "final".
Proof.
  intros H. unfold finish.
  set (st' := if success (result st) && negb (is_empty (tts_url st)) then _ else st).
  assert (R : reported st').
  { unfold st'. case_if; [|exact H].
    assert (K : reports (bind (download_and_play_tts s (tts_url st) (tts_mime_type st))
        (fun e => match e with None => ret tt | Some e => set_error_m e end))).
    { apply reports_bind; [|intros [e|]; [apply reports_set|apply reports_ret]].
      unfold download_and_play_tts. case_if; [apply reports_ret|].
      apply reports_bind; [apply reports_progress|intros _]. repeat case_if; try apply reports_ret;
        (apply reports_bind; [apply reports_progress|intros _; apply reports_ret]). }
    apply K, H. }
  destruct R as [ps E]. exists ps, (set_stage (str "final") (result st')). rewrite E. done.
Qed.

Lemma child_output_shape s ha_url token cid audio :
  exists ps f, fst (assist_pipeline_child_main s ha_url token cid audio) =
      map (fun r => serialize_result r false) ps ++ [serialize_result f true] /\
    (snd (assist_pipeline_child_main s ha_url token cid audio) = 0 <-> success f = true).
Proof.
  unfold assist_pipeline_child_main. destruct (is_empty audio); [exists [], (set_error empty_result (str "Brak danych audio")); done|].
  destruct (parse_ha_url ha_url) as [[[host base] port] ok]. destruct (negb ok);
    [exists [], (set_error empty_result (str "Assist pipeline wymaga adresu HTTPS")); done|].
  change (mkSt empty_result [] [] [] [] []) with initial.
  destruct (finish_output s _ (conversation_reports s token cid audio)) as (ps & f & -> & _).
  exists ps, f. split; [done|]. cbn [snd]. destruct (success f); split; congruence.
Qed.

(** The line shows whether the result is a success. *)
Lemma line_shows_success f g b : serialize_result f b = serialize_result g b -> success f = success g.
Proof.
  unfold serialize_result. intros E%app_inv_head%app_inv_head%app_inv_head.
  destruct (success f), (success g); [done| | |done]; discriminate E.
Qed.

(** The results whose lines the child wrote: progress, then the final one. *)
Definition child_reports (s : Script) (ha_url token cid audio : bytes) (ps : list AssistPipelineResult) (f : AssistPipelineResult) : Prop :=
  fst (assist_pipeline_child_main s ha_url token cid audio) =
    map (fun r => serialize_result r false) ps ++ [serialize_result f true].

Lemma child_reports_exit s ha_url token cid audio ps f :
  child_reports s ha_url token cid audio ps f ->
  (snd (assist_pipeline_child_main s ha_url token cid audio) = 0 <-> success f = true).
Proof.
  unfold child_reports. destruct (child_output_shape s ha_url token cid audio) as (ps' & f' & -> & ->).
  intros [_ E%line_shows_success]%app_inj_tail. by rewrite E.
Qed.

(** C3. No audio leaves the panel before Home Assistant asked for the token,
    accepted it and started the pipeline with a handler of one byte (until then
    no call has even tried to send any); the binary messages are then a prefix of
    the recording cut into chunks behind the handler's byte, with the bare byte as
    the end mark, and the child only reports success when all of them were sent. *)
Theorem audio_only_after_auth s token cid audio :
  let st := snd (conversation s token cid audio initial) in
  (binary (sent st) = [] /\ binary (tried st) = [] /\ success (result st) = false) \/
  (authenticated s = true /\
   exists id cs k, 1 <= id <= 255 /\ concat cs = audio /\ Forall (fun c => (length c <= 1024)%nat) cs /\
     let frames := map (fun c => id :: c) cs ++ [[id]] in
     binary (sent st) = take k frames /\ (success (result st) = true -> binary (sent st) = frames)).
Proof.
  destruct (conversation_audio s token cid audio) as [H|(Ha & id & k & Hid & Hb & Hs)]; [left; exact H|right].
  split; [exact Ha|]. exists id, (chunks (length audio) audio), k.
  split; [exact Hid|]. split; [by apply chunks_concat|]. split; [apply chunks_length|]. by split.
Qed.

(** Whatever Home Assistant sends, a frame that [read_ws_frame] accepts has a
    4-bit opcode and at most 1 MiB of payload, and exactly its header and its
    payload are taken from the connection. *)
Theorem read_ws_frame_bounded c opcode payload c' :
  read_ws_frame c = Some (opcode, payload, c') ->
  0 <= opcode < 16 /\ zlen payload <= 1048576 /\
  exists header, (2 <= length header <= 10)%nat /\ incoming c = header ++ payload ++ incoming c'.
Proof.
  unfold read_ws_frame. intros E.
  apply bind_Some in E as ((hdr & c1) & [Lh Eh]%ssl_read_all_take & E).
  apply bind_Some in E as ((size & c2) & Es & E).
  assert (Hx : exists ext, (length ext <= 8)%nat /\ incoming c1 = ext ++ incoming c2).
  { revert Es. repeat case_if; intros Es.
    - apply bind_Some in Es as ((ext & c3) & [Le Ee]%ssl_read_all_take & [= _ <-]). exists ext. split; [lia|done].
    - apply bind_Some in Es as ((ext & c3) & [Le Ee]%ssl_read_all_take & [= _ <-]). exists ext. split; [lia|done].
    - injection Es as _ <-. exists []. split; [cbn; lia|done]. }
  destruct Hx as (ext & Lx & Ex). unfold max_frame in E. destruct (Z.ltb_spec (1024 * 1024) size); [discriminate|].
  apply bind_Some in E as ((p & c3) & Ep & [= <- <- <-]).
  assert (Hp : incoming c2 = p ++ incoming c3 /\ zlen p <= 1048576).
  { destruct (size =? 0); [by injection Ep as <- <-|]. apply ssl_read_all_take in Ep as [Lp Ep]. split; [exact Ep|lia]. }
  destruct Hp as [Ep' Hp]. rewrite land_15. split; [apply Z.mod_pos_bound; lia|]. split; [exact Hp|].
  exists (hdr ++ ext). rewrite length_app. split; [lia|]. by rewrite <- app_assoc, <- Ep', <- Ex.
Qed.

(** Child and parent together: for every course of the conversation, the
    child writes progress lines and exactly one final line and exits with 0
    exactly on success, and the parent, however the pipe cuts the output, shows
    the progress and returns the final result of the child. *)
Theorem child_and_parent s ha_url token cid audio pieces :
  concat pieces = concat (fst (assist_pipeline_child_main s ha_url token cid audio)) ->
  exists ps f,
    fst (assist_pipeline_child_main s ha_url token cid audio) =
      map (fun r => serialize_result r false) ps ++ [serialize_result f true] /\
    (snd (assist_pipeline_child_main s ha_url token cid audio) = 0 <-> success f = true) /\
    (Forall (fun r => result_ok r = true) ps -> result_ok f = true ->
     let o := snd (consume_output pieces) in
     progress o = map received ps /\ success (final_result false o) = success f /\
     transcript (final_result false o) = sanitize (transcript f) /\ response (final_result false o) = sanitize (response f)).
Proof.
  destruct (child_output_shape s ha_url token cid audio) as (ps & f & E & X). intros P. exists ps, f.
  split; [exact E|]. split; [exact X|]. intros Hp Hf. rewrite E, concat_app in P. cbn [concat] in P. rewrite app_nil_r in P.
  destruct (parent_facts ps f pieces Hp Hf P) as [Hpr Hfin]. cbn zeta. rewrite Hpr, Hfin. split; [done|].
  case_if; done.
Qed.

(** ** Witnesses *)

(** A whole run: the answers of Home Assistant, a ping among the events, and
    the streamed playback. *)
Definition sample_script : Script :=
  mkScript [] true (str "HTTP/1.1 101 Switching Protocols" ++ [13; 10] ++ accept_key ++ [13; 10; 13; 10])
    (mkReply true 1 (dq "{'type':'auth_required'}")) (mkReply true 1 (dq "{'type':'auth_ok'}"))
    (mkReply true 1 (dq "{'id':1,'type':'result','success':true,'result':null}"))
    [Idle; Incoming (mkReply true 9 (str "ping"));
     Incoming (mkReply true 1 (dq "{'type':'event','event':{'type':'run-start','data':{'conversation_id':'01JAB','runner_data':{'stt_binary_handler_id':7}}}}"))]
    [Incoming (mkReply true 1 (dq "{'type':'event','event':{'type':'stt-end','data':{'stt_output':{'text':'zapal'}}}}"));
     Incoming (mkReply true 1 (dq "{'type':'event','event':{'type':'intent-end','data':{'response':{'speech':{'plain':{'speech':'Gotowe'}},'response_type':'action_done'},'continue_conversation':true}}}"));
     Incoming (mkReply true 1 (dq "{'type':'event','event':{'type':'tts-end','data':{'url':'/api/tts_proxy/a.mp3','mime_type':'audio/mpeg'}}}"))]
    (fun _ => true) true true true.

Definition sample_audio : bytes := repeat 5 1500.

Example sample_run_sends :
  map (fun p => (hd 0 p, length p)) (binary (sent (snd (conversation sample_script (str "T") [] sample_audio initial))))
  = [(7, 1025%nat); (7, 477%nat); (7, 1%nat)].
Proof. vm_compute. reflexivity. Qed.

Definition sample_lines : list bytes := fst (assist_pipeline_child_main sample_script (str "https://ha.local") (str "T") [] sample_audio).

Example sample_run_result :
  final_result false (snd (consume_output sample_lines)) =
  mkResult true (str "final") (str "zapal") (str "Gotowe") [] (str "01JAB") (str "action_done") true 0.
Proof. vm_compute. reflexivity. Qed.

Lemma child_and_parent_witness :
  exists ps f, sample_lines = map (fun r => serialize_result r false) ps ++ [serialize_result f true] /\
    (snd (assist_pipeline_child_main sample_script (str "https://ha.local") (str "T") [] sample_audio) = 0 <-> success f = true) /\
    (Forall (fun r => result_ok r = true) ps -> result_ok f = true ->
     let o := snd (consume_output [take 100 (concat sample_lines); drop 100 (concat sample_lines)]) in
     progress o = map received ps /\ success (final_result false o) = success f /\
     transcript (final_result false o) = sanitize (transcript f) /\ response (final_result false o) = sanitize (response f)).
Proof.
  apply (child_and_parent sample_script (str "https://ha.local") (str "T") [] sample_audio
    [take 100 (concat sample_lines); drop 100 (concat sample_lines)]).
  cbn [concat]. rewrite app_nil_r. apply take_drop.
Defined.

Lemma read_ws_frame_bounded_witness :
  0 <= 1 < 16 /\ zlen [97; 98; 99] <= 1048576 /\
  exists header, (2 <= length header <= 10)%nat /\ [129; 3; 97; 98; 99; 7] = header ++ [97; 98; 99] ++ [7].
Proof.
  apply (read_ws_frame_bounded (mkConn [129; 3; 97; 98; 99; 7] [(2, false); (WANT_READ, false); (1, false); (5, false)])
    1 [97; 98; 99] (mkConn [7] [])).
  vm_compute. reflexivity.
Defined.
End AssistSession.
