(* ===== verification/Markdown.v ===== *)
(** The answer text of the assist overlay (main.cpp): the UTF-8 counting
    functions, [assist_parse_markdown] and the gradual reveal of the answer,
    [assist_overlay_prepare_markdown] and [assist_overlay_reveal_markdown].
    The theorems say that the styled runs hold exactly the text without its
    marks, and that a reveal shows exactly the first characters of it, never a
    part of one. *)
From S2P Require Import Prelude CString Lines.
From stdpp Require Import list.
#[local] Open Scope Z_scope.

Module Markdown.

(** ** UTF-8 *)

Definition utf8_width (value : Z) : nat :=
  if Z.land value 0xE0 =? 0xC0 then 2
  else if Z.land value 0xF0 =? 0xE0 then 3
  else if Z.land value 0xF8 =? 0xF0 then 4 else 1.

(** The loop of [assist_overlay_utf8_prefix_bytes]; a turn per character. *)
Fixpoint prefix_loop (characters : nat) (text : bytes) (bytes : nat) : nat :=
  match characters with
  | O => bytes
  | S characters =>
      if (bytes <? length text)%nat
      then prefix_loop characters text (Nat.min (length text) (bytes + utf8_width (nth bytes text 0)))
      else bytes
  end.

Definition assist_overlay_utf8_prefix_bytes (text : bytes) (characters : nat) : nat := prefix_loop characters text 0.

Definition assist_overlay_utf8_character_count (text : bytes) : nat :=
  length (List.filter (fun b => negb (Z.land b 0xC0 =? 0x80)) text).

(** ** Runs *)

Inductive AssistMarkdownStyle := ASSIST_MARKDOWN_NORMAL | ASSIST_MARKDOWN_EMPHASIS | ASSIST_MARKDOWN_HEADING.

#[export] Instance style_eq_dec : EqDecision AssistMarkdownStyle.
Proof. solve_decision. Defined.

Record AssistMarkdownRun := mkRun { text : bytes; style : AssistMarkdownStyle }.

Definition assist_markdown_append_run (runs : list AssistMarkdownRun) (s : AssistMarkdownStyle) (t : bytes) :
    list AssistMarkdownRun :=
  if is_empty t then runs
  else
    match last runs with
    | Some back => if decide (style back = s) then removelast runs ++ [mkRun (text back ++ t) (style back)]
                   else runs ++ [mkRun t s]
    | None => runs ++ [mkRun t s]
    end.

(** The number of [#] at the start of a line, three at most. *)
Fixpoint heading_marks (limit : nat) (line : bytes) : nat :=
  match limit, line with
  | S limit, c :: line => if c =? 35 then S (heading_marks limit line) else O
  | _, _ => O
  end.

(** The line without its mark, and its base style. *)
Definition line_head (line : bytes) : bytes * AssistMarkdownStyle :=
  let marks := heading_marks 3 line in
  if (0 <? marks)%nat && (marks <? length line)%nat && (nth marks line 0 =? 32) then
    (drop (marks + 1) line, ASSIST_MARKDOWN_HEADING)
  else if (2 <=? length line)%nat && ((nth 0 line 0 =? 45) || (nth 0 line 0 =? 42)) && (nth 1 line 0 =? 32) then
    (str "• " ++ drop 2 line, ASSIST_MARKDOWN_NORMAL)
  else (line, ASSIST_MARKDOWN_NORMAL).

Definition run_style (base : AssistMarkdownStyle) (emphasis : bool) : AssistMarkdownStyle :=
  if decide (base = ASSIST_MARKDOWN_HEADING) then base
  else if emphasis then ASSIST_MARKDOWN_EMPHASIS else ASSIST_MARKDOWN_NORMAL.

(** The loop over one line, from [cursor] on. *)
Fixpoint line_runs (fuel : nat) (runs : list AssistMarkdownRun) (base : AssistMarkdownStyle) (line : bytes)
    (cursor : nat) (emphasis : bool) : list AssistMarkdownRun :=
  match fuel with
  | O => runs
  | S fuel =>
      if negb (cursor <? length line)%nat then runs
      else
        let marker := str_find line (str "**") cursor in
        let end_ := match marker with None => length line | Some k => k end in
        let runs := assist_markdown_append_run runs (run_style base emphasis) (substr line cursor (end_ - cursor)) in
        match marker with
        | None => runs
        | Some marker => line_runs fuel runs base line (marker + 2) (negb emphasis)
        end
  end.

(** The loop over the lines, from [line_start] on. *)
Fixpoint markdown_lines (fuel : nat) (runs : list AssistMarkdownRun) (markdown : bytes) (line_start : nat) :
    list AssistMarkdownRun :=
  match fuel with
  | O => runs
  | S fuel =>
      if negb (line_start <? length markdown)%nat then runs
      else
        let newline := str_find markdown [10] line_start in
        let line := substr markdown line_start (match newline with None => length markdown | Some k => k end - line_start) in
        let '(line, base_style) := line_head line in
        let runs := line_runs (S (length line)) runs base_style line 0 false in
        match newline with
        | None => runs
        | Some newline =>
            let runs := assist_markdown_append_run runs base_style [10] in
            markdown_lines fuel runs markdown (newline + 1)
        end
  end.

Definition assist_parse_markdown (markdown : bytes) : list AssistMarkdownRun :=
  let runs := markdown_lines (S (length markdown)) [] markdown 0 in
  match runs with [] => [mkRun [] ASSIST_MARKDOWN_NORMAL] | _ => runs end.

Definition assist_markdown_plain_text (markdown : bytes) : bytes :=
  concat (map text (assist_parse_markdown markdown)).

(** ** The reveal *)

(** [assist_overlay_markdown_runs], [..._revealed], the texts of the spans and
    [assist_overlay_response_text]. The overlay is open: without its response
    widget [assist_overlay_prepare_markdown] returns at once. A text has no NUL
    (the reader of the child's lines drops control characters, see [AssistJson]),
    so that the [c_str()] of a span is the whole of it. *)
Record Overlay := mkOverlay {
  runs : list AssistMarkdownRun;
  revealed : list nat;
  spans : list bytes;
  response_text : bytes;
}.

Definition assist_overlay_prepare_markdown (markdown : bytes) : Overlay :=
  let rs := assist_parse_markdown markdown in
  mkOverlay rs (map (fun _ => 0%nat) rs) (map (fun _ => []) rs) (concat (map text rs)).

(** The loop over the runs with their revealed counts and spans. *)
Fixpoint reveal_loop (rs : list AssistMarkdownRun) (revealed : list nat) (spans : list bytes) (remaining : nat) :
    list nat * list bytes :=
  match rs, revealed, spans with
  | r :: rs, shown :: revealed, span :: spans =>
      let run_characters := assist_overlay_utf8_character_count (text r) in
      let visible := Nat.min run_characters remaining in
      let span :=
        if (visible =? shown)%nat then span
        else take (assist_overlay_utf8_prefix_bytes (text r) visible) (text r) in
      let remaining := if (run_characters <? remaining)%nat then (remaining - run_characters)%nat else 0%nat in
      let '(revealed, spans) := reveal_loop rs revealed spans remaining in
      (visible :: revealed, span :: spans)
  | _, _, _ => (revealed, spans)
  end.

Definition assist_overlay_reveal_markdown (o : Overlay) (characters : nat) : Overlay :=
  let '(revealed, spans) := reveal_loop (runs o) (revealed o) (spans o) characters in
  mkOverlay (runs o) revealed spans (response_text o).

(** What the screen shows. *)
Definition shown (o : Overlay) : bytes := concat (spans o).

(** ** The text without its marks *)

(** All pairs of stars removed, from the left. *)
Fixpoint strip (line : bytes) : bytes :=
  match line with
  | c :: ((d :: rest) as line') => if (c =? 42) && (d =? 42) then strip rest else c :: strip line'
  | _ => line
  end.

Definition line_text (line : bytes) : bytes := strip (fst (line_head line)).

(** Every line without its marks, with the newlines it had. *)
Definition plain (markdown : bytes) : bytes :=
  let '(ls, rest) := split_lines markdown in
  concat (map (fun l => line_text l ++ [10]) ls) ++ line_text rest.

Definition texts (rs : list AssistMarkdownRun) : bytes := concat (map text rs).

Lemma append_run_texts rs s t : texts (assist_markdown_append_run rs s t) = texts rs ++ t.
Proof.
  unfold assist_markdown_append_run, texts. destruct t as [|b t]; [by rewrite app_nil_r|]. cbn [is_empty].
  destruct rs as [|r rs _] using rev_ind; [cbn [last map concat app text]; by rewrite app_nil_r|].
  rewrite last_snoc, removelast_last.
  destruct (decide (style r = s)); rewrite !map_app, !concat_app; cbn [map concat text]; rewrite !app_nil_r, ?app_assoc; reflexivity.
Qed.

(** *** One line *)

Lemma strip_char c s : prefixb [42; 42] (c :: s) = false -> strip (c :: s) = c :: strip s.
Proof.
  destruct s as [|d s]; [done|]. cbn [prefixb]. rewrite andb_true_r, (Z.eqb_sym 42 c), (Z.eqb_sym 42 d).
  cbn [strip]. by intros ->.
Qed.

Lemma strip_find s : 
  match find_at [42; 42] s with
  | None => strip s = s
  | Some k => strip s = take k s ++ strip (drop (k + 2) s)
  end.
Proof.
  induction s as [|c s IH]; [done|]. cbn [find_at]. destruct (prefixb [42; 42] (c :: s)) eqn:P.
  - destruct s as [|d s]; cbn [prefixb] in P; [by rewrite andb_false_r in P|]. to_prop. subst. done.
  - destruct (find_at [42; 42] s); cbn [fmap option_fmap option_map]; rewrite strip_char by exact P; rewrite IH; done.
Qed.

Lemma line_runs_texts fuel : forall rs base line cursor emphasis,
  (length line - cursor < fuel)%nat -> texts (line_runs fuel rs base line cursor emphasis) = texts rs ++ strip (drop cursor line).
Proof.
  induction fuel as [|fuel IH]; intros rs base line cursor emphasis Hf; [lia|]. cbn [line_runs].
  destruct (Nat.ltb_spec cursor (length line)); cbn [negb].
  - unfold str_find. rewrite (proj2 (Nat.leb_le cursor (length line))) by lia. change (str "**") with [42; 42].
    pose proof (strip_find (drop cursor line)) as S. destruct (find_at [42; 42] (drop cursor line)) as [k|] eqn:F;
      cbn [fmap option_fmap option_map].
    + rewrite IH by lia. rewrite append_run_texts, S, drop_drop. unfold substr.
      replace (cursor + k - cursor)%nat with k by lia. rewrite <- app_assoc, Nat.add_assoc. done.
    + rewrite append_run_texts, S. unfold substr. rewrite take_ge by (rewrite length_drop; lia). done.
  - rewrite drop_ge by lia. cbn [strip]. by rewrite app_nil_r.
Qed.

(** *** All lines *)

Lemma markdown_lines_texts fuel : forall rs markdown start,
  (length markdown - start < fuel)%nat ->
  texts (markdown_lines fuel rs markdown start) = texts rs ++ plain (drop start markdown).
Proof.
  induction fuel as [|fuel IH]; intros rs markdown start Hf; [lia|]. cbn [markdown_lines].
  destruct (Nat.ltb_spec start (length markdown)); cbn [negb].
  2: { rewrite drop_ge by lia. by rewrite app_nil_r. }
  unfold str_find. rewrite (proj2 (Nat.leb_le start (length markdown))) by lia.
  destruct (first_line (drop start markdown)) as [(l & t & E & Hl)|Hs].
  - rewrite E, find_byte by exact Hl. cbn [fmap option_fmap option_map]. unfold substr.
    replace (start + length l - start)%nat with (length l) by lia. rewrite E, take_app_length.
    destruct (line_head l) as [body base] eqn:Hh.
    assert (Et : drop (start + length l + 1) markdown = t).
    { rewrite <- Nat.add_assoc, <- drop_drop, E. change (l ++ 10 :: t) with (l ++ [10] ++ t).
      rewrite app_assoc. apply drop_app_exact. rewrite length_app. done. }
    rewrite IH by lia. rewrite Et, append_run_texts, line_runs_texts by lia. rewrite drop_0.
    unfold plain. rewrite split_lines_line by exact Hl. destruct (split_lines t) as [ls rest]. cbn [fst snd map concat].
    unfold line_text at 3. rewrite Hh. cbn [fst]. rewrite <- !app_assoc. done.
  - rewrite find_byte_none by exact Hs. cbn [fmap option_fmap option_map]. unfold substr.
    rewrite take_ge by (rewrite length_drop; lia).
    destruct (line_head (drop start markdown)) as [body base] eqn:Hh. rewrite line_runs_texts by lia. rewrite drop_0.
    unfold plain. rewrite split_lines_rest by exact Hs. cbn [map concat app]. unfold line_text. by rewrite Hh.
Qed.

Lemma parse_texts markdown : texts (assist_parse_markdown markdown) = plain markdown.
Proof.
  pose proof (markdown_lines_texts (S (length markdown)) [] markdown 0 ltac:(lia)) as H. rewrite drop_0 in H.
  change (texts [] ++ plain markdown) with (plain markdown) in H.
  unfold assist_parse_markdown. destruct (markdown_lines _ _ _ _); [|exact H]. rewrite <- H. done.
Qed.

(** *** Runs *)

(** No empty run and no two neighbours of one style. *)
Fixpoint normal (rs : list AssistMarkdownRun) : Prop :=
  match rs with
  | [] => True
  | r :: rs => text r <> [] /\ match rs with [] => True | r' :: _ => style r <> style r' end /\ normal rs
  end.

Lemma normal_snoc rs r :
  normal (rs ++ [r]) <-> normal rs /\ text r <> [] /\ match last rs with None => True | Some b => style b <> style r end.
Proof.
  induction rs as [|a rs IH]; [cbn; tauto|]. cbn [app normal]. rewrite IH.
  destruct rs as [|b rs]; [cbn; tauto|]. cbn [app]. rewrite last_cons_cons. tauto.
Qed.

Lemma append_run_normal rs s t : normal rs -> normal (assist_markdown_append_run rs s t).
Proof.
  intros H. unfold assist_markdown_append_run. destruct t as [|b t]; [exact H|]. cbn [is_empty].
  destruct rs as [|r rs _] using rev_ind; [done|]. rewrite last_snoc, removelast_last.
  destruct (decide (style r = s)).
  - apply normal_snoc. apply normal_snoc in H as (? & ? & ?). split; [done|]. split; [by destruct (text r)|done].
  - apply normal_snoc. split; [exact H|]. split; [done|]. by rewrite last_snoc.
Qed.

Lemma line_runs_normal fuel : forall rs base line cursor emphasis,
  normal rs -> normal (line_runs fuel rs base line cursor emphasis).
Proof.
  induction fuel as [|fuel IH]; intros; cbn [line_runs]; [done|]. case_if; [done|].
  destruct (str_find line _ cursor); auto using append_run_normal.
Qed.

Lemma markdown_lines_normal fuel : forall rs markdown start, normal rs -> normal (markdown_lines fuel rs markdown start).
Proof.
  induction fuel as [|fuel IH]; intros; cbn [markdown_lines]; [done|]. case_if; [done|].
  destruct (line_head _) as [l b]. destruct (str_find markdown _ start); auto using append_run_normal, line_runs_normal.
Qed.

(** ** UTF-8 text *)

Definition continuation (b : Z) : bool := Z.land b 0xC0 =? 0x80.

(** The number of bytes of a character, by its first byte (RFC 3629, section
    4); 0 where no character starts so. *)
Definition rfc_length (lead : Z) : nat :=
  if lead <? 0x80 then 1
  else if (0xC2 <=? lead) && (lead <=? 0xDF) then 2
  else if (0xE0 <=? lead) && (lead <=? 0xEF) then 3
  else if (0xF0 <=? lead) && (lead <=? 0xF4) then 4 else 0.

(** A character of that number of bytes. *)
Definition char_ok (c : bytes) : bool :=
  match c with
  | [] => false
  | b :: rest => is_byteb b && (length c =? rfc_length b)%nat && forallb continuation rest
  end.

Definition valid (s : bytes) : Prop := exists cs, s = concat cs /\ Forall (fun c => char_ok c = true) cs.

(** The code's test of the first byte agrees with the table. *)
Lemma width_of_lead b : is_byte b -> rfc_length b <> 0%nat -> utf8_width b = rfc_length b /\ continuation b = false.
Proof.
  intros Hb Hn.
  assert (C : ((rfc_length b =? 0)%nat || ((utf8_width b =? rfc_length b)%nat && negb (continuation b))) = true).
  { revert Hb. apply (byte_check (fun b => (rfc_length b =? 0)%nat || ((utf8_width b =? rfc_length b)%nat && negb (continuation b)))).
    vm_compute. reflexivity. }
  apply orb_true_iff in C as [C%Nat.eqb_eq|[C%Nat.eqb_eq D%negb_true_iff]%andb_true_iff]; done.
Qed.

Lemma char_ok_spec c :
  char_ok c = true -> exists b rest, c = b :: rest /\ is_byte b /\ length c = utf8_width b /\ continuation b = false /\
    Forall (fun x => continuation x = true) rest.
Proof.
  destruct c as [|b rest]; [done|]. unfold char_ok. rewrite !andb_true_iff. intros [[Hb Hl] Hr].
  exists b, rest. apply is_byteb_spec in Hb. apply Nat.eqb_eq in Hl. apply forallb_Forall in Hr.
  destruct (width_of_lead b Hb) as [Hw Hc]; [rewrite <- Hl; discriminate|]. by rewrite Hw.
Qed.

Lemma valid_nil : valid []. Proof. by exists []. Qed.
Lemma valid_app a b : valid a -> valid b -> valid (a ++ b).
Proof.
  intros (ca & -> & Ha) (cb & -> & Hb). exists (ca ++ cb). rewrite concat_app. split; [done|]. by apply Forall_app.
Qed.

(** An ASCII byte is a character of its own. *)
Lemma ascii_check (P : Z -> bool) c : forallb P (map Z.of_nat (seq 0 128)) = true -> 0 <= c < 128 -> P c = true.
Proof.
  rewrite forallb_Forall, Forall_forall. intros H Hc. apply H.
  apply list_elem_of_fmap. exists (Z.to_nat c). rewrite elem_of_seq. split; lia.
Qed.

Lemma ascii_not_continuation c : 0 <= c < 128 -> continuation c = false.
Proof. intros H. apply negb_true_iff. revert H. apply (ascii_check (fun c => negb (continuation c))). vm_compute. reflexivity. Qed.

Lemma ascii_char c rest : 0 <= c < 128 -> char_ok (c :: rest) = true -> rest = [].
Proof.
  intros H (b & r & [= <- <-] & _ & Hl & _)%char_ok_spec.
  assert (W : (utf8_width c =? 1)%nat = true).
  { revert H. apply (ascii_check (fun c => utf8_width c =? 1)%nat). vm_compute. reflexivity. }
  apply Nat.eqb_eq in W. rewrite W in Hl. destruct rest; [done|discriminate].
Qed.

Lemma valid_split a c b : 0 <= c < 128 -> valid (a ++ c :: b) -> valid a /\ valid b.
Proof.
  intros Hc (cs & E & H). revert a E. induction H as [|ch cs Hch H IH]; intros a E; [by destruct a|].
  cbn [concat] in E. destruct a as [|x a].
  - cbn [app] in E. destruct (char_ok_spec ch Hch) as (y & r & -> & _). injection E as -> E.
    pose proof (ascii_char y r Hc Hch) as ->. cbn [app] in E. subst. split; [apply valid_nil|]. by exists cs.
  - destruct (Nat.le_gt_cases (length ch) (length (x :: a))) as [Hl|Hl].
    + pose proof (f_equal (take (length ch)) E) as Et. rewrite take_app_length, take_app_le in Et by exact Hl.
      pose proof (f_equal (drop (length ch)) E) as Ed. rewrite drop_app_length, drop_app_le in Ed by exact Hl.
      destruct (IH (drop (length ch) (x :: a)) Ed) as [Va Vb]. split; [|exact Vb].
      rewrite <- (take_drop (length ch) (x :: a)), Et. apply valid_app; [|exact Va]. exists [ch]. cbn [concat]. rewrite app_nil_r. auto.
    + exfalso. destruct (char_ok_spec ch Hch) as (y & r & -> & _ & _ & _ & Hr).
      cbn [app] in E. injection E as -> E. cbn [length] in Hl.
      pose proof (f_equal (fun l => nth (length a) l 0) E) as En. cbn beta in En.
      rewrite app_nth2, Nat.sub_diag, app_nth1 in En by lia. cbn [nth] in En.
      rewrite List.Forall_forall in Hr. assert (K : continuation c = true) by (rewrite En; apply Hr, nth_In; lia).
      rewrite ascii_not_continuation in K by exact Hc. discriminate.
Qed.

Lemma valid_ascii_cons c s : 0 <= c < 128 -> valid (c :: s) -> valid s.
Proof. intros Hc H. by apply (valid_split [] c s Hc). Qed.

Lemma valid_marks n : forall s, valid s -> (forall i, (i < n)%nat -> 0 <= nth i s 0 < 128) -> (n <= length s)%nat -> valid (drop n s).
Proof.
  induction n as [|n IH]; intros s V H Hn; [by rewrite drop_0|]. destruct s as [|c s]; [cbn [length] in Hn; lia|].
  cbn [drop length] in *. apply IH; [apply (valid_ascii_cons c); [exact (H 0%nat ltac:(lia))|exact V]| |lia].
  intros i Hi. exact (H (S i) ltac:(lia)).
Qed.

Lemma heading_marks_ascii n : forall s i, (i < heading_marks n s)%nat -> nth i s 0 = 35.
Proof.
  induction n as [|n IH]; intros [|c s] i; cbn [heading_marks]; try lia.
  destruct (Z.eqb_spec c 35) as [->|]; [|lia]. destruct i as [|i]; [done|]. intros H. cbn [nth]. apply IH. lia.
Qed.

Lemma line_head_valid line : valid line -> valid (fst (line_head line)).
Proof.
  intros V. unfold line_head. case_if; [|case_if; [|done]]; cbn [fst].
  - to_prop. apply valid_marks; [exact V| |lia]. intros i Hi. destruct (Nat.eq_dec i (heading_marks 3 line)) as [->|]; [lia|].
    rewrite (heading_marks_ascii 3) by lia. lia.
  - apply valid_app; [exists [[226; 128; 162]; [32]]; split; [reflexivity|repeat constructor]|]. to_prop.
    apply valid_marks; [exact V| |lia]. intros i Hi. apply orb_true_iff in H1.
    destruct i as [|[|i]]; [|lia|lia]. destruct H1; to_prop; lia.
Qed.

Definition valid_runs (rs : list AssistMarkdownRun) : Prop := Forall (fun r => valid (text r)) rs.

Lemma append_run_valid rs s t : valid_runs rs -> valid t -> valid_runs (assist_markdown_append_run rs s t).
Proof.
  intros H V. unfold assist_markdown_append_run. destruct (is_empty t); [exact H|].
  destruct rs as [|r rs _] using rev_ind; [by repeat constructor|]. rewrite last_snoc, removelast_last.
  unfold valid_runs in *. apply Forall_app in H as [H Hr]. apply Forall_cons in Hr as [Hr _].
  assert (K : forall r', valid (text r') -> Forall (fun r => valid (text r)) [r']) by (intros; by repeat constructor).
  case_if; rewrite ?Forall_app; repeat split; auto; apply K; cbn [text]; auto using valid_app.
Qed.

Lemma line_runs_valid fuel : forall rs base line cursor emphasis,
  valid_runs rs -> valid (drop cursor line) -> valid_runs (line_runs fuel rs base line cursor emphasis).
Proof.
  induction fuel as [|fuel IH]; intros rs base line cursor emphasis H V; cbn [line_runs]; [done|].
  destruct (Nat.ltb_spec cursor (length line)) as [Hc|Hc]; cbn [negb]; [|done].
  unfold str_find. rewrite (proj2 (Nat.leb_le cursor (length line))) by lia. change (str "**") with [42; 42].
  destruct (find_at [42; 42] (drop cursor line)) as [k|] eqn:F; cbn [fmap option_fmap option_map].
  - pose proof (find_at_prefix _ _ _ F) as P. apply prefixb_iff in P as [t Et].
    assert (Es : drop cursor line = take k (drop cursor line) ++ 42 :: 42 :: t) by (rewrite <- (take_drop k (drop cursor line)) at 1; by rewrite Et).
    rewrite Es in V. apply valid_split in V as [V1 V2]; [|lia]. apply valid_ascii_cons in V2; [|lia].
    apply IH.
    + apply append_run_valid; [exact H|]. unfold substr. by replace (cursor + k - cursor)%nat with k by lia.
    + assert (Ed : drop (cursor + k + 2) line = t) by (rewrite <- !drop_drop, Et; reflexivity). by rewrite Ed.
  - apply append_run_valid; [exact H|]. unfold substr. by rewrite take_ge by (rewrite length_drop; lia).
Qed.

Lemma markdown_lines_valid fuel : forall rs markdown start,
  valid_runs rs -> valid (drop start markdown) -> valid_runs (markdown_lines fuel rs markdown start).
Proof.
  induction fuel as [|fuel IH]; intros rs markdown start H V; cbn [markdown_lines]; [done|].
  destruct (Nat.ltb_spec start (length markdown)) as [Hc|Hc]; cbn [negb]; [|done].
  unfold str_find. rewrite (proj2 (Nat.leb_le start (length markdown))) by lia.
  destruct (first_line (drop start markdown)) as [(l & t & E & Hl)|Hs].
  - rewrite E in V. apply valid_split in V as [V1 V2]; [|lia].
    rewrite E, find_byte by exact Hl. cbn [fmap option_fmap option_map]. unfold substr.
    replace (start + length l - start)%nat with (length l) by lia. rewrite E, take_app_length.
    pose proof (line_head_valid l V1) as Vh. destruct (line_head l) as [body base]. cbn [fst] in Vh.
    apply IH.
    + apply append_run_valid; [apply line_runs_valid; [done|by rewrite drop_0]|]. exists [[10]]. split; [done|]. by repeat constructor.
    + assert (Et : drop (start + length l + 1) markdown = t); [|by rewrite Et].
      rewrite <- Nat.add_assoc, <- drop_drop, E. change (l ++ 10 :: t) with (l ++ [10] ++ t).
      rewrite app_assoc. apply drop_app_exact. rewrite length_app. done.
  - rewrite find_byte_none by exact Hs. cbn [fmap option_fmap option_map]. unfold substr.
    rewrite take_ge by (rewrite length_drop; lia).
    pose proof (line_head_valid _ V) as Vh. destruct (line_head (drop start markdown)) as [body base]. cbn [fst] in Vh.
    apply line_runs_valid; [done|by rewrite drop_0].
Qed.

Lemma parse_valid markdown : valid markdown -> valid_runs (assist_parse_markdown markdown).
Proof.
  intros V. unfold assist_parse_markdown.
  pose proof (markdown_lines_valid (S (length markdown)) [] markdown 0 (List.Forall_nil _) ltac:(by rewrite drop_0)) as H.
  destruct (markdown_lines _ _ _ _); [|exact H]. repeat constructor. apply valid_nil.
Qed.

(** ** Counting and cutting *)

Abbreviation chars_ok := (Forall (fun c => char_ok c = true)).

Lemma count_chars cs : chars_ok cs -> assist_overlay_utf8_character_count (concat cs) = length cs.
Proof.
  unfold assist_overlay_utf8_character_count. induction 1 as [|c cs Hc _ IH]; [done|].
  cbn [concat length]. rewrite List.filter_app, length_app, IH. f_equal.
  destruct (char_ok_spec c Hc) as (b & r & -> & _ & _ & Hb & Hr). cbn [List.filter].
  change (Z.land b 0xC0 =? 0x80) with (continuation b). rewrite Hb. cbn [negb length].
  f_equal. clear Hc. induction Hr as [|x r Hx _ IHr]; [done|]. cbn [List.filter].
  change (Z.land x 0xC0 =? 0x80) with (continuation x). by rewrite Hx.
Qed.

Lemma prefix_loop_chars n : forall pre cs, chars_ok cs ->
  prefix_loop n (pre ++ concat cs) (length pre) = (length pre + length (concat (take n cs)))%nat.
Proof.
  induction n as [|n IH]; intros pre cs H; cbn [prefix_loop]; [rewrite take_0; cbn [concat length]; lia|].
  destruct H as [|c cs Hc H]; [cbn [concat take]; rewrite app_nil_r, Nat.ltb_irrefl; cbn [length concat]; lia|].
  destruct (char_ok_spec c Hc) as (b & r & E & _ & Hl & _).
  assert (Hlt : (length pre < length (pre ++ concat (c :: cs)))%nat) by (rewrite length_app; cbn [concat]; rewrite length_app, E; cbn [length]; lia).
  rewrite (proj2 (Nat.ltb_lt _ _) Hlt). rewrite app_nth2, Nat.sub_diag by lia.
  assert (En : nth 0 (concat (c :: cs)) 0 = b) by (rewrite E; done). rewrite En, <- Hl, Nat.min_r.
  2: { rewrite length_app. cbn [concat]. rewrite length_app. lia. }
  specialize (IH (pre ++ c) cs H). rewrite length_app, <- app_assoc in IH. cbn [concat]. rewrite IH.
  cbn [take concat]. rewrite length_app. lia.
Qed.

Lemma prefix_bytes_chars cs n : chars_ok cs ->
  take (assist_overlay_utf8_prefix_bytes (concat cs) n) (concat cs) = concat (take n cs).
Proof.
  intros H. unfold assist_overlay_utf8_prefix_bytes. pose proof (prefix_loop_chars n [] cs H) as E. cbn [app length Nat.add] in E. rewrite E.
  rewrite <- (take_drop n cs) at 2. rewrite concat_app. apply take_app_length.
Qed.

(** The runs are texts of characters, and every span shows as many of them as
    its count says. *)
Fixpoint agrees (rs : list AssistMarkdownRun) (css : list (list bytes)) (revealed : list nat) (spans : list bytes) : Prop :=
  match rs, css, revealed, spans with
  | [], [], [], [] => True
  | r :: rs, cs :: css, k :: revealed, span :: spans =>
      text r = concat cs /\ chars_ok cs /\ span = concat (take k cs) /\ agrees rs css revealed spans
  | _, _, _, _ => False
  end.

Lemma reveal_loop_agrees rs : forall css revealed spans n,
  agrees rs css revealed spans ->
  agrees rs css (fst (reveal_loop rs revealed spans n)) (snd (reveal_loop rs revealed spans n)) /\
  concat (snd (reveal_loop rs revealed spans n)) = concat (take n (concat css)).
Proof.
  induction rs as [|r rs IH]; intros [|cs css] [|k revealed] [|span spans] n H; cbn [agrees] in H; try contradiction.
  { cbn. by rewrite take_nil. }
  destruct H as (Et & Hc & Es & H). cbn [reveal_loop]. rewrite Et, count_chars by exact Hc.
  set (m := if (length cs <? n)%nat then (n - length cs)%nat else 0%nat).
  assert (Em : m = (n - length cs)%nat) by (unfold m; destruct (Nat.ltb_spec (length cs) n); lia).
  destruct (IH css revealed spans m H) as [Ha Hs]. destruct (reveal_loop rs revealed spans m) as [rv sp]. cbn [fst snd] in *.
  assert (Ev : (if (Nat.min (length cs) n =? k)%nat then span
      else take (assist_overlay_utf8_prefix_bytes (concat cs) (Nat.min (length cs) n)) (concat cs))
      = concat (take (Nat.min (length cs) n) cs)).
  { destruct (Nat.eqb_spec (Nat.min (length cs) n) k) as [->|]; [exact Es|by apply prefix_bytes_chars]. }
  rewrite Ev. cbn [agrees concat]. split; [done|]. rewrite Hs, Em, take_app, concat_app. f_equal.
  f_equal. destruct (Nat.le_ge_cases (length cs) n); [rewrite Nat.min_l, !take_ge by lia|rewrite Nat.min_r by lia]; done.
Qed.

Lemma prepared_agrees rs css :
  Forall2 (fun r cs => text r = concat cs /\ chars_ok cs) rs css -> agrees rs css (map (fun _ => 0%nat) rs) (map (fun _ => []) rs).
Proof. induction 1 as [|r cs rs css [Et Hc] _ IH]; cbn; auto. Qed.

Lemma reveal_agrees css o n :
  agrees (runs o) css (revealed o) (spans o) ->
  let o' := assist_overlay_reveal_markdown o n in
  agrees (runs o') css (revealed o') (spans o') /\ response_text o' = response_text o /\
  shown o' = concat (take n (concat css)).
Proof.
  intros H. destruct (reveal_loop_agrees _ _ _ _ n H) as [Ha Hs]. unfold assist_overlay_reveal_markdown, shown.
  destruct (reveal_loop (runs o) (revealed o) (spans o) n). done.
Qed.

Lemma reveals_agree css ns : forall o,
  agrees (runs o) css (revealed o) (spans o) ->
  let o' := fold_left assist_overlay_reveal_markdown ns o in
  agrees (runs o') css (revealed o') (spans o') /\ response_text o' = response_text o.
Proof.
  induction ns as [|n ns IH]; intros o H; cbn [fold_left]; [done|].
  destruct (reveal_agrees css o n H) as (Ha & Hr & _). destruct (IH _ Ha) as [H1 H2]. split; [exact H1|].
  rewrite H2. exact Hr.
Qed.

Lemma valid_runs_chars rs : valid_runs rs ->
  exists css, Forall2 (fun r cs => text r = concat cs /\ chars_ok cs) rs css.
Proof.
  induction 1 as [|r rs (cs & E & Hc) _ (css & IH)]; [by exists []|]. exists (cs :: css). by constructor.
Qed.

Lemma texts_chars rs css : Forall2 (fun r cs => text r = concat cs /\ chars_ok cs) rs css ->
  texts rs = concat (concat css) /\ chars_ok (concat css).
Proof.
  unfold texts. induction 1 as [|r cs rs css [Et Hc] _ [IH1 IH2]]; [done|]. cbn [map concat].
  rewrite Et, IH1, concat_app. split; [done|]. by apply Forall_app.
Qed.

(** ** Properties *)

(** The runs of an answer hold exactly its text without the marks (the
    heading marks, the list mark turned into a bullet, the pairs of stars), line
    by line with every newline; no run is empty, and two neighbours have
    different styles. *)
Theorem parse_markdown_correct markdown :
  assist_markdown_plain_text markdown = plain markdown /\
  (normal (assist_parse_markdown markdown) \/ assist_parse_markdown markdown = [mkRun [] ASSIST_MARKDOWN_NORMAL]).
Proof.
  split; [apply parse_texts|]. unfold assist_parse_markdown.
  pose proof (markdown_lines_normal (S (length markdown)) [] markdown 0 I) as H.
  destruct (markdown_lines _ _ _ _); [by right|by left].
Qed.

(** C37. For an answer in UTF-8, however often it was revealed before, revealing
    [n] characters shows exactly the first [n] characters of the text without
    marks: whole characters, none lost between two runs, and all of them once
    [n] reaches their number. *)
Theorem reveal_correct markdown ns n :
  valid markdown ->
  let o := fold_left assist_overlay_reveal_markdown ns (assist_overlay_prepare_markdown markdown) in
  exists chars,
    concat chars = plain markdown /\ Forall (fun c => char_ok c = true) chars /\
    response_text o = concat chars /\
    assist_overlay_utf8_character_count (response_text o) = length chars /\
    shown (assist_overlay_reveal_markdown o n) = concat (take n chars).
Proof.
  intros V o. destruct (valid_runs_chars _ (parse_valid _ V)) as [css H].
  destruct (texts_chars _ _ H) as [Et Hc]. rewrite parse_texts in Et.
  destruct (reveals_agree css ns (assist_overlay_prepare_markdown markdown) (prepared_agrees _ _ H)) as [Ha Hr].
  fold o in Ha, Hr. exists (concat css). split; [done|]. split; [exact Hc|].
  assert (Er : response_text o = concat (concat css)).
  { rewrite Hr, <- Et, <- parse_texts. reflexivity. }
  split; [exact Er|]. split; [rewrite Er; by apply count_chars|].
  apply (reveal_agrees css o n Ha).
Qed.

(** ** Witnesses *)

Definition sample_markdown : bytes := str "# Światło" ++ [10] ++ str "- jest **włączone** ✓".

Example sample_runs :
  assist_parse_markdown sample_markdown =
  [mkRun (str "Światło" ++ [10]) ASSIST_MARKDOWN_HEADING; mkRun (str "• jest ") ASSIST_MARKDOWN_NORMAL;
   mkRun (str "włączone") ASSIST_MARKDOWN_EMPHASIS; mkRun (str " ✓") ASSIST_MARKDOWN_NORMAL].
Proof. vm_compute. reflexivity. Qed.

Lemma reveal_correct_witness :
  valid sample_markdown /\
  let o := fold_left assist_overlay_reveal_markdown [3%nat; 12%nat] (assist_overlay_prepare_markdown sample_markdown) in
  exists chars,
    concat chars = plain sample_markdown /\ Forall (fun c => char_ok c = true) chars /\
    response_text o = concat chars /\
    assist_overlay_utf8_character_count (response_text o) = length chars /\
    shown (assist_overlay_reveal_markdown o 7) = concat (take 7 chars).
Proof.
  assert (V : valid sample_markdown).
  { exists [[35]; [32]; [197; 154]; [119]; [105]; [97]; [116]; [197; 130]; [111]; [10]; [45]; [32]; [106]; [101]; [115]; [116];
      [32]; [42]; [42]; [119]; [197; 130]; [196; 133]; [99]; [122]; [111]; [110]; [101]; [42]; [42]; [32]; [226; 156; 147]].
    split; [vm_compute; reflexivity|]. repeat constructor. }
  split; [exact V|]. exact (reveal_correct sample_markdown [3%nat; 12%nat] 7 V).
Defined.
End Markdown.
