(* ===== verification/AssistAudio.v ===== *)
(** The microphone of the assist (assist_audio.cpp, [capture_loop]) and the
    wake word monitor (wake_word_listener.cpp, [monitor_loop]): frames of 320
    samples cut out of the byte stream of arecord, the level shown on the
    screen, and the lines of the detector. *)
From S2P Require Import Prelude CString Lines.
From stdpp Require Import list.
#[local] Open Scope Z_scope.

Module AssistAudio.

Definition kMonoSamplesPerFrame : nat := 320.
Definition kStereoSamplesPerFrame : nat := kMonoSamplesPerFrame * 2.

(** [sizeof(stereo)] *)
Definition stereo_size : nat := 2 * kStereoSamplesPerFrame.

(** An [int16_t] in the byte order of the device. *)
Definition sample_at (stereo : bytes) (i : nat) : Z :=
  let v := nth (2 * i) stereo 0 + 256 * nth (2 * i + 1) stereo 0 in
  (v + 2 ^ 15) mod 2 ^ 16 - 2 ^ 15.

Definition mono_of (stereo : bytes) : list Z := map (fun i => sample_at stereo (i * 2)) (seq 0 kMonoSamplesPerFrame).

(** The loop over a frame that finds the peak (also the one of the handler in
    main.cpp). *)
Definition peak_of (samples : list Z) : Z :=
  fold_left (fun peak sample =>
    let magnitude := if sample <? 0 then - sample else sample in
    if peak <? magnitude then magnitude else peak) samples 0.

(** [stereo] up to [bytes_used], the level, the frame count and the frames the
    handler got. *)
Record Capture := mkCapture { stereo : bytes; level_percent : Z; frame_count : Z; frames : list (list Z) }.

Definition initial_capture : Capture := mkCapture [] 0 0 [].

(** After a [read] that returned [data]. *)
Definition on_read (c : Capture) (data : bytes) : Capture :=
  let stereo := stereo c ++ data in
  if negb (length stereo =? stereo_size)%nat then mkCapture stereo (level_percent c) (frame_count c) (frames c)
  else
    let mono := mono_of stereo in
    mkCapture [] (Z.quot (peak_of mono * 100) 32768) (u64 (frame_count c + 1)) (frames c ++ [mono]).

(** [capture_loop] over what successive calls of [read] can return: [-1] is a
    retry (nothing to read yet, EINTR, EAGAIN); no byte is the end. *)
Fixpoint capture_loop (counts : list Z) (incoming : bytes) (c : Capture) : Capture * bytes :=
  match counts with
  | [] => (c, incoming)
  | count :: counts =>
      if count <? 0 then capture_loop counts incoming c
      else
        let bytes_left := (stereo_size - length (stereo c))%nat in
        let data := take (Nat.min (Z.to_nat count) bytes_left) incoming in
        if is_empty data then (c, incoming)
        else capture_loop counts (drop (length data) incoming) (on_read c data)
  end.

(** ** The wake word *)

(** The body of the loop over the lines: how often the handler is called. *)
Definition on_wake_line (calls : Z) (line : bytes) : Z := if starts_with line (str "WAKE ") then calls + 1 else calls.

Definition monitor_loop (chunks : list bytes) : bytes * Z := fold_left (feed on_wake_line) chunks ([], 0).

(** ** Lemmas *)

Lemma sample_range s i : - 2 ^ 15 <= sample_at s i < 2 ^ 15.
Proof.
  unfold sample_at. pose proof (Z.mod_pos_bound (nth (2 * i) s 0 + 256 * nth (2 * i + 1) s 0 + 2 ^ 15) (2 ^ 16) ltac:(lia)). lia.
Qed.

Lemma peak_range samples : Forall (fun x => - 2 ^ 15 <= x < 2 ^ 15) samples -> 0 <= peak_of samples <= 32768.
Proof.
  unfold peak_of. assert (G : forall p, 0 <= p <= 32768 -> Forall (fun x => - 2 ^ 15 <= x < 2 ^ 15) samples ->
    0 <= fold_left (fun peak sample => let magnitude := if sample <? 0 then - sample else sample in
      if peak <? magnitude then magnitude else peak) samples p <= 32768); [|apply G; lia].
  induction samples as [|x l IH]; intros p Hp H; cbn [fold_left]; [lia|].
  apply Forall_cons in H as [Hx H]. apply IH; [|exact H]. cbn zeta. case_ifs.
Qed.

Lemma mono_range s : Forall (fun x => - 2 ^ 15 <= x < 2 ^ 15) (mono_of s).
Proof. apply Forall_map, List.Forall_forall. intros i _. apply sample_range. Qed.

Lemma level_range p : 0 <= p <= 32768 -> 0 <= Z.quot (p * 100) 32768 <= 100.
Proof. intros H. rewrite Z.quot_div_nonneg by lia. split; [apply Z.div_pos; lia|apply Z.div_le_upper_bound; lia]. Qed.

(** The frames of a stream whose whole blocks are [blocks]. *)
Definition captured (c : Capture) (blocks : list bytes) : Prop :=
  Forall (fun b => length b = stereo_size) blocks /\ (length (stereo c) < stereo_size)%nat /\
  frames c = map mono_of blocks /\
  level_percent c = match last blocks with None => 0 | Some b => Z.quot (peak_of (mono_of b) * 100) 32768 end.

Lemma on_read_captured c blocks data :
  captured c blocks -> (length (stereo c) + length data <= stereo_size)%nat ->
  exists blocks', captured (on_read c data) (blocks ++ blocks') /\
    concat blocks' ++ stereo (on_read c data) = stereo c ++ data.
Proof.
  intros (Hb & Hl & Hf & Hp) Hd. unfold on_read. destruct (Nat.eqb_spec (length (stereo c ++ data)) stereo_size) as [E|E]; cbn [negb].
  - exists [stereo c ++ data]. split; [|cbn [concat stereo]; by rewrite !app_nil_r].
    split; [apply Forall_app; split; [exact Hb|by constructor]|]. cbn [stereo frames level_percent].
    split; [change (length []) with 0%nat; unfold stereo_size, kStereoSamplesPerFrame, kMonoSamplesPerFrame; lia|].
    rewrite Hf, map_app, last_snoc. done.
  - exists []. rewrite app_nil_r. split; [|done]. split; [exact Hb|]. cbn [stereo frames level_percent].
    split; [rewrite length_app in *; lia|done].
Qed.

Lemma capture_loop_captured counts : forall incoming c blocks,
  captured c blocks ->
  exists blocks', captured (fst (capture_loop counts incoming c)) (blocks ++ blocks') /\
    concat blocks' ++ stereo (fst (capture_loop counts incoming c)) ++ snd (capture_loop counts incoming c)
    = stereo c ++ incoming.
Proof.
  induction counts as [|n counts IH]; intros incoming c blocks H; cbn [capture_loop].
  { exists []. by rewrite app_nil_r. }
  destruct (n <? 0); [by apply IH|].
  set (data := take _ incoming). destruct (is_empty data) eqn:E; [exists []; by rewrite app_nil_r|].
  assert (Hd : (length (stereo c) + length data <= stereo_size)%nat).
  { destruct H as (_ & Hl & _). unfold data. rewrite length_take. lia. }
  destruct (on_read_captured c blocks data H Hd) as (b1 & H1 & E1).
  destruct (IH (drop (length data) incoming) (on_read c data) (blocks ++ b1) H1) as (b2 & H2 & E2).
  exists (b1 ++ b2). rewrite app_assoc. split; [exact H2|]. rewrite concat_app, <- app_assoc, E2.
  rewrite app_assoc, E1, <- app_assoc. f_equal.
  assert (Et : take (length data) incoming = data).
  { unfold data at 2. rewrite <- (take_drop (Nat.min (Z.to_nat n) (stereo_size - length (stereo c))) incoming) at 1.
    apply take_app_length. }
  rewrite <- (take_drop (length data) incoming) at 2. by rewrite Et.
Qed.

(** ** Properties *)

(** However arecord's output arrives, the handler gets one frame of 320
    samples (the left channel) per 1280 bytes of the stream, in order and
    without loss, the bytes of an unfinished frame are kept, and the level that
    is shown stays between 0 and 100, even for the sample -32768. *)
Theorem capture_correct counts incoming :
  let '(c, unread) := capture_loop counts incoming initial_capture in
  exists blocks,
    incoming = concat blocks ++ stereo c ++ unread /\ Forall (fun b => length b = 1280%nat) blocks /\
    (length (stereo c) < 1280)%nat /\ frames c = map mono_of blocks /\
    Forall (fun f => length f = 320%nat) (frames c) /\ 0 <= level_percent c <= 100.
Proof.
  destruct (capture_loop_captured counts incoming initial_capture []) as (blocks & (Hb & Hl & Hf & Hp) & E).
  { split; [constructor|]. split; [apply Nat.ltb_lt; reflexivity|done]. }
  destruct (capture_loop counts incoming initial_capture) as [c unread]. cbn [fst snd app] in *.
  exists blocks. split; [by rewrite E|]. split; [exact Hb|]. split; [exact Hl|]. split; [exact Hf|]. split.
  - rewrite Hf. apply Forall_map, List.Forall_forall. intros b _. unfold mono_of. rewrite length_map. apply length_seq.
  - rewrite Hp. destruct (last blocks); [|lia]. apply level_range, peak_range, mono_range.
Qed.

(** The wake handler is called once per line that starts with "WAKE ",
    however the output of the detector is cut, and never for a line that is not
    finished. *)
Theorem wake_once_per_line chunks ls rest :
  concat chunks = concat (map (fun l => l ++ [10]) ls) ++ rest ->
  Forall (Forall (fun b => b <> 10)) ls -> Forall (fun b => b <> 10) rest ->
  monitor_loop chunks = (rest, zlen (List.filter (fun l => starts_with l (str "WAKE ")) ls)).
Proof.
  intros E Hl Hr. unfold monitor_loop. rewrite (feed_lines on_wake_line chunks ls rest 0 E Hl Hr). f_equal.
  assert (G : forall n, fold_left on_wake_line ls n = n + zlen (List.filter (fun l => starts_with l (str "WAKE ")) ls)).
  { clear. induction ls as [|l ls IH]; intros n; cbn [fold_left List.filter]; [change (zlen []) with 0; lia|].
    rewrite IH. unfold on_wake_line. destruct (starts_with l (str "WAKE ")); cbn [length]; lia. }
  rewrite G. lia.
Qed.

Lemma wake_once_per_line_witness :
  monitor_loop [str "INFO load" ++ [10] ++ str "WA"; str "KE 0.98" ++ [10]; str "WAKE"] = (str "WAKE", 1).
Proof.
  apply (wake_once_per_line _ [str "INFO load"; str "WAKE 0.98"] (str "WAKE")).
  - vm_compute. reflexivity.
  - do 2 (apply List.Forall_cons; [apply neq_check; vm_compute; reflexivity|]). constructor.
  - apply neq_check. vm_compute. reflexivity.
Defined.
End AssistAudio.
