(* ===== verification/Process.v ===== *)
(** Child processes (assist_pipeline_bridge.cpp: [write_fd_with_deadline],
    [run_process], [run_assist_pipeline_process]).  A function is a computation
    that gives a value and the list of system calls it made; a [Ledger] follows
    the calls and refuses the misuse of a descriptor or of a process.  The
    theorems say that every path closes what it opened, that the child is reaped
    or killed and handed to a thread that reaps it, that it is never signalled
    once it is reaped, and that the result is the one the child reported.
    The system is a script: an entry for every turn of a loop, with the clock,
    and what [poll], [read], [write] and [waitpid] gave in it; after the last
    entry of a script the deadline has passed. *)
From S2P Require Import Prelude CString JsonDoc Lines AssistJson AssistSession.
From stdpp Require Import list.
#[local] Open Scope Z_scope.

Module Process.
Import AssistJson.

(** ** System calls *)

Inductive Fd := input_read | input_write | output_read | output_write.

#[export] Instance Fd_eq_dec : EqDecision Fd.
Proof. solve_decision. Defined.

Definition SIGKILL : Z := 9.
Definition SIGTERM : Z := 15.

(** [ReaperStarted] is the detached thread that waits for the child. *)
Inductive Event :=
| OpenedPipe (r w : Fd)
| Closed (fd : Fd)
| Wrote (fd : Fd) (data : bytes)
| Got (fd : Fd) (data : bytes)
| Forked
| Signalled (signal : Z)
| Reaped
| ReaperStarted
| GroupSet
| GroupCleared.

Definition W (A : Type) : Type := list Event * A.

#[export] Instance W_ret : MRet W := fun A a => ([], a).
#[export] Instance W_bind : MBind W := fun A B f m => (fst m ++ fst (f (snd m)), snd (f (snd m))).

Definition emit (e : Event) : W unit := ([e], tt).

(** What [waitpid(pid, &status, WNOHANG)] gives. *)
Inductive Wait :=
| Running
| Exited (code : Z)
| Terminated (signal : Z)
| WaitFailed (eintr : bool).

(** ** Writing to the child *)

Inductive Written := Count (n : nat) | TryAgain | WriteError.

(** A turn: the clock, the result of [poll], and of [write] if it is called. *)
Record WriteTurn := mkWriteTurn { w_now : Z; polled : Z; w_result : Written }.

Fixpoint write_fd_with_deadline (turns : list WriteTurn) (fd : Fd) (data : bytes) (deadline : Z) : W bool :=
  if is_empty data then mret true
  else
    match turns with
    | [] => mret false
    | t :: turns =>
        if negb (w_now t <? deadline) then mret false
        else if polled t <=? 0 then write_fd_with_deadline turns fd data deadline
        else
          match w_result t with
          | TryAgain => write_fd_with_deadline turns fd data deadline
          | WriteError | Count 0 => mret false
          | Count n => emit (Wrote fd (take n data));; write_fd_with_deadline turns fd (drop n data) deadline
          end
    end.

(** ** A process with a deadline *)

(** [kill(-pid, SIGKILL)] and the wait that follows. *)
Definition kill_group : W bool := emit (Signalled SIGKILL);; emit Reaped;; emit GroupCleared;; mret false.

Fixpoint watch (turns : list (Z * Wait)) (deadline : Z) : W bool :=
  match turns with
  | [] => kill_group
  | (now, w) :: turns =>
      if negb (now <? deadline) then kill_group
      else
        match w with
        | Exited code => emit Reaped;; emit GroupCleared;; mret (code =? 0)
        | Terminated _ => emit Reaped;; emit GroupCleared;; mret false
        | WaitFailed false => emit GroupCleared;; mret false
        | Running | WaitFailed true => watch turns deadline
        end
  end.

Definition run_process (arguments : list bytes) (timeout_seconds : Z) (forked : bool) (start : Z) (turns : list (Z * Wait)) : W bool :=
  if match arguments with [] => true | _ => false end then mret false
  else if negb forked then mret false
  else emit Forked;; emit GroupSet;; watch turns (start + timeout_seconds).

(** ** The pipeline process *)

Definition kChildTimeoutSeconds : Z := 240.

(** A turn of the loop of the parent: the clock, whether the user cancelled,
    the chunks that could be read, and the result of [waitpid]. *)
Record Turn := mkTurn { now : Z; cancel : bool; chunks : list bytes; waited : Wait }.

Record Env := mkEnv {
  input_pipe_ok : bool; output_pipe_ok : bool; fork_ok : bool; nonblocking_ok : bool;
  write_start : Z; write_turns : list WriteTurn;
  read_start : Z; turns : list Turn;
  stop_start : Z; stop_turns : list (Z * Wait);
  last_chunks : list bytes;
}.

Inductive Outcome := ChildExited | Cancelled | TimedOut.

(** The reads of a turn: [output.append(...)] and [consume_output()]. *)
Fixpoint read_chunks (chunks : list bytes) (out : bytes * Output) : W (bytes * Output) :=
  match chunks with
  | [] => mret out
  | chunk :: chunks => emit (Got output_read chunk);; read_chunks chunks (feed on_line out chunk)
  end.

Fixpoint parent_loop (turns : list Turn) (deadline : Z) (out : bytes * Output) : W (Outcome * (bytes * Output)) :=
  match turns with
  | [] => mret (TimedOut, out)
  | t :: turns =>
      if negb (now t <? deadline) then mret (TimedOut, out)
      else if cancel t then emit (Signalled SIGTERM);; mret (Cancelled, out)
      else
        out ← read_chunks (chunks t) out;
        match waited t with
        | Exited _ | Terminated _ => emit Reaped;; mret (ChildExited, out)
        | _ => parent_loop turns deadline out
        end
  end.

(** The second the child has to end after a cancel; is it reaped? *)
Fixpoint await_stop (turns : list (Z * Wait)) (deadline : Z) : W bool :=
  match turns with
  | [] => mret false
  | (now, w) :: turns =>
      if negb (now <? deadline) then mret false
      else
        match w with
        | Exited _ | Terminated _ => emit Reaped;; mret true
        | _ => await_stop turns deadline
        end
  end.

Definition kill_and_leave : W unit := emit (Signalled SIGKILL);; emit ReaperStarted.

Definition failed (message : bytes) : AssistPipelineResult := set_error empty_result message.

Definition cannot_start : bytes := str "Nie można uruchomić procesu pipeline".
Definition audio_refused : bytes := str "Proces pipeline nie odebrał audio".

(** From the loop of the parent to the result. *)
Definition collect (env : Env) : W (AssistPipelineResult * Output) :=
  '(outcome, out) ← parent_loop (turns env) (read_start env + (kChildTimeoutSeconds + 5)) ([], mkOutput [] []);
  child_exited ←
    match outcome with
    | ChildExited => mret true
    | Cancelled => await_stop (stop_turns env) (stop_start env + 1)
    | TimedOut => mret false
    end;
  (if negb child_exited then kill_and_leave else mret tt);;
  out ← read_chunks (last_chunks env) out;
  emit (Closed output_read);;
  let cancelled := match outcome with Cancelled => true | _ => false end in
  mret (final_result cancelled (snd out), snd out).

Definition run_assist_pipeline_process (env : Env) (audio : bytes) : W (AssistPipelineResult * Output) :=
  let fail message := (failed message, mkOutput [] []) in
  if is_empty audio then mret (fail (str "Brak danych audio"))
  else if negb (input_pipe_ok env) then mret (fail cannot_start)
  else
    emit (OpenedPipe input_read input_write);;
    if negb (output_pipe_ok env) then
      emit (Closed input_read);; emit (Closed input_write);; mret (fail cannot_start)
    else
      emit (OpenedPipe output_read output_write);;
      if negb (fork_ok env) then
        emit (Closed input_read);; emit (Closed input_write);; emit (Closed output_read);; emit (Closed output_write);;
        mret (fail cannot_start)
      else
        emit Forked;; emit (Closed input_read);; emit (Closed output_write);;
        if negb (nonblocking_ok env) then
          emit (Signalled SIGKILL);; emit (Closed input_write);; emit (Closed output_read);; emit ReaperStarted;;
          mret (fail cannot_start)
        else
          input_written ← write_fd_with_deadline (write_turns env) input_write audio (write_start env + 5);
          emit (Closed input_write);;
          if negb input_written then
            emit (Signalled SIGKILL);; emit (Closed output_read);; emit ReaperStarted;;
            mret (fail audio_refused)
          else collect env.

(** ** What the system allows *)

(** [Alive killed]: the child runs, or it ended and was not waited for. *)
Inductive Child := NoChild | Alive (killed : bool) | Gone | HandedOver.

#[export] Instance Child_eq_dec : EqDecision Child.
Proof. solve_decision. Defined.

Record Ledger := mkLedger { open_fds : list Fd; child : Child; group : bool }.

Definition nothing : Ledger := mkLedger [] NoChild false.

Definition is_open (fd : Fd) (l : Ledger) : bool := bool_decide (fd ∈ open_fds l).

(** [None]: a descriptor that is not open is used, or a signal or a wait goes
    to a process that is not there any more. *)
Definition ledger_step (l : Ledger) (e : Event) : option Ledger :=
  match e with
  | OpenedPipe r w => if is_open r l || is_open w l then None else Some (mkLedger (r :: w :: open_fds l) (child l) (group l))
  | Closed fd => if is_open fd l then Some (mkLedger (filter (fun x => x <> fd) (open_fds l)) (child l) (group l)) else None
  | Wrote fd _ | Got fd _ => if is_open fd l then Some l else None
  | Forked => match child l with NoChild => Some (mkLedger (open_fds l) (Alive false) (group l)) | _ => None end
  | Signalled s =>
      match child l with Alive k => Some (mkLedger (open_fds l) (Alive (k || (s =? SIGKILL))) (group l)) | _ => None end
  | Reaped => match child l with Alive _ => Some (mkLedger (open_fds l) Gone (group l)) | _ => None end
  | ReaperStarted => match child l with Alive true => Some (mkLedger (open_fds l) HandedOver (group l)) | _ => None end
  | GroupSet => match child l with Alive _ => Some (mkLedger (open_fds l) (child l) true) | _ => None end
  | GroupCleared => Some (mkLedger (open_fds l) (child l) false)
  end.

Fixpoint ledger (l : Ledger) (es : list Event) : option Ledger :=
  match es with
  | [] => Some l
  | e :: es => l ← ledger_step l e; ledger l es
  end.

(** ** Reasoning about computations *)

(** From the ledger [l], [m] makes no misuse and ends in a value and a ledger
    that satisfy [Q]. *)
Definition from {A} (l : Ledger) (m : W A) (Q : A -> Ledger -> Prop) : Prop :=
  exists l', ledger l (fst m) = Some l' /\ Q (snd m) l'.

Lemma ledger_app l es1 es2 : ledger l (es1 ++ es2) = ledger l es1 ≫= fun l' => ledger l' es2.
Proof. revert l. induction es1 as [|e es1 IH]; intros l; [done|]. cbn. destruct (ledger_step l e); [apply IH|done]. Qed.

Lemma from_ret {A} l (a : A) Q : Q a l -> from l (mret a) Q.
Proof. intros H. by exists l. Qed.

Lemma from_bind {A B} l (m : W A) (f : A -> W B) Q R :
  from l m Q -> (forall a l', Q a l' -> from l' (f a) R) -> from l (m ≫= f) R.
Proof.
  intros (l1 & E1 & H1) Hf. destruct (Hf _ _ H1) as (l2 & E2 & H2). exists l2. split; [|exact H2].
  unfold mbind, W_bind. cbn [fst]. by rewrite ledger_app, E1.
Qed.

(** Straight-line code: the next call, from a ledger that is known. *)
Lemma from_emit {A} l l1 e (k : unit -> W A) Q : ledger_step l e = Some l1 -> from l1 (k tt) Q -> from l (emit e ≫= k) Q.
Proof. intros E (l2 & E2 & H2). exists l2. split; [|exact H2]. cbn. by rewrite E. Qed.

Ltac call := eapply from_emit; [reflexivity|].

Lemma from_write turns fd deadline : forall data l,
  is_open fd l = true -> from l (write_fd_with_deadline turns fd data deadline) (fun _ l' => l' = l).
Proof.
  induction turns as [|t turns IH]; intros data l Hl; cbn [write_fd_with_deadline]; (case_if; [by apply from_ret|]);
    [by apply from_ret|].
  case_if; [by apply from_ret|]. case_if; [by apply IH|].
  destruct (w_result t) as [[|n]| |]; [by apply from_ret| |by apply IH|by apply from_ret].
  eapply from_emit; [cbn; by rewrite Hl|]. by apply IH.
Qed.

Lemma from_read chunks : forall out l, is_open output_read l = true -> from l (read_chunks chunks out) (fun _ l' => l' = l).
Proof.
  induction chunks as [|c chunks IH]; intros out l Hl; cbn [read_chunks]; [by apply from_ret|].
  eapply from_emit; [cbn; by rewrite Hl|]. by apply IH.
Qed.

Lemma from_parent turns deadline fds g : is_open output_read (mkLedger fds NoChild g) = true -> forall out,
  from (mkLedger fds (Alive false) g) (parent_loop turns deadline out)
    (fun r l' => l' = mkLedger fds (match fst r with ChildExited => Gone | _ => Alive false end) g).
Proof.
  intros Ho. induction turns as [|t turns IH]; intros out; cbn [parent_loop]; [by apply from_ret|].
  case_if; [by apply from_ret|]. case_if; [call; by apply from_ret|].
  eapply from_bind; [by apply from_read|]. cbn beta. intros out' l' ->.
  destruct (waited t); [apply IH|call; by apply from_ret|call; by apply from_ret|apply IH].
Qed.

Lemma from_await turns deadline fds g :
  from (mkLedger fds (Alive false) g) (await_stop turns deadline)
    (fun exited l' => l' = mkLedger fds (if exited then Gone else Alive false) g).
Proof.
  induction turns as [|[t w] turns IH]; cbn [await_stop]; [by apply from_ret|]. case_if; [by apply from_ret|].
  destruct w; [apply IH|call; by apply from_ret|call; by apply from_ret|apply IH].
Qed.

(** All that was opened is closed, and no child is left behind. *)
Definition settled (l : Ledger) : Prop := open_fds l = [] /\ (child l = NoChild \/ child l = Gone \/ child l = HandedOver) /\ group l = false.

Lemma from_collect env :
  from (mkLedger [output_read] (Alive false) false) (collect env) (fun _ l => settled l /\ child l <> NoChild).
Proof.
  unfold collect. eapply from_bind; [by apply from_parent|]. cbn beta. intros [o out] l ->. cbn [fst].
  eapply (from_bind _ _ _ (fun (exited : bool) l => l = mkLedger [output_read] (if exited then Gone else Alive false) false)).
  { destruct o; [by apply from_ret|apply from_await|by apply from_ret]. }
  intros exited l ->.
  eapply (from_bind _ _ _ (fun _ l => l = mkLedger [output_read] (if exited then Gone else HandedOver) false)).
  { destruct exited; [by apply from_ret|]. cbn [negb]. unfold kill_and_leave. call. eexists. split; reflexivity. }
  intros _ l ->. eapply from_bind; [by apply from_read|]. cbn beta. intros out' l ->. call. apply from_ret.
  split; [|by destruct exited]. split; [done|]. split; [destruct exited; auto|done].
Qed.

Lemma from_pipeline env audio : from nothing (run_assist_pipeline_process env audio) (fun _ l => settled l).
Proof.
  unfold run_assist_pipeline_process. case_if; [apply from_ret; by split; [|auto]|].
  case_if; [apply from_ret; by split; [|auto]|]. call.
  case_if; [call; call; apply from_ret; by split; [|auto]|]. call.
  case_if; [call; call; call; call; apply from_ret; by split; [|auto]|]. call. call. call.
  case_if; [call; call; call; call; apply from_ret; by split; [|auto]|].
  eapply from_bind; [by apply from_write|]. cbn beta. intros written l ->. call.
  destruct written; cbn [negb]; [|call; call; call; apply from_ret; by split; [|auto]].
  destruct (from_collect env) as (l' & El & H & _). by exists l'.
Qed.

(** ** What a trace shows *)

Definition wrote (es : list Event) : bytes := flat_map (fun e => match e with Wrote _ data => data | _ => [] end) es.
Definition got (es : list Event) : list bytes := flat_map (fun e => match e with Got _ data => [data] | _ => [] end) es.
Definition signals (es : list Event) : list Z := flat_map (fun e => match e with Signalled s => [s] | _ => [] end) es.

(** The events of a sequence of computations. *)
Lemma fst_bind {A B} (m : W A) (f : A -> W B) : fst (m ≫= f) = fst m ++ fst (f (snd m)).
Proof. reflexivity. Qed.
Lemma snd_bind {A B} (m : W A) (f : A -> W B) : snd (m ≫= f) = snd (f (snd m)).
Proof. reflexivity. Qed.
Lemma fst_ret {A} (a : A) : fst (mret a : W A) = [].
Proof. reflexivity. Qed.
Lemma snd_ret {A} (a : A) : snd (mret a : W A) = a.
Proof. reflexivity. Qed.
Lemma fst_emit e : fst (emit e) = [e].
Proof. reflexivity. Qed.
Lemma snd_emit e : snd (emit e) = tt.
Proof. reflexivity. Qed.
Lemma wrote_app a b : wrote (a ++ b) = wrote a ++ wrote b.
Proof. apply flat_map_app. Qed.
Lemma got_app a b : got (a ++ b) = got a ++ got b.
Proof. apply flat_map_app. Qed.
Lemma signals_app a b : signals (a ++ b) = signals a ++ signals b.
Proof. apply flat_map_app. Qed.

Lemma wrote_cons e es : wrote (e :: es) = match e with Wrote _ data => data | _ => [] end ++ wrote es.
Proof. reflexivity. Qed.
Lemma got_cons e es : got (e :: es) = match e with Got _ data => [data] | _ => [] end ++ got es.
Proof. reflexivity. Qed.
Lemma signals_cons e es : signals (e :: es) = match e with Signalled s => [s] | _ => [] end ++ signals es.
Proof. reflexivity. Qed.
Lemma shows_nothing : wrote [] = [] /\ got [] = [] /\ signals [] = [].
Proof. done. Qed.

Create Rewrite HintDb trace.
#[local] Hint Rewrite (proj1 shows_nothing) (proj1 (proj2 shows_nothing)) (proj2 (proj2 shows_nothing)) : trace.
#[local] Hint Rewrite wrote_cons got_cons signals_cons : trace.
#[local] Hint Rewrite @fst_bind @snd_bind @fst_ret @snd_ret fst_emit snd_emit wrote_app got_app signals_app : trace.
Ltac trace := repeat (progress (autorewrite with trace; cbn [app])); rewrite ?app_nil_r.

Lemma write_trace turns fd deadline : forall data,
  let m := write_fd_with_deadline turns fd data deadline in
  got (fst m) = [] /\ signals (fst m) = [] /\
  exists rest, data = wrote (fst m) ++ rest /\ (snd m = true <-> rest = []).
Proof.
  induction turns as [|t turns IH]; intros data; cbv zeta; cbn [write_fd_with_deadline]; destruct data as [|b data]; cbn [is_empty].
  1, 3: split_and!; [done..|by exists []].
  { split_and!; [done..|by exists (b :: data)]. }
  assert (Stop : let m := mret false : W bool in got (fst m) = [] /\ signals (fst m) = [] /\
    exists rest, b :: data = wrote (fst m) ++ rest /\ (snd m = true <-> rest = [])).
  { split_and!; [done..|by exists (b :: data)]. }
  case_if; [exact Stop|]. case_if; [apply IH|].
  destruct (w_result t) as [[|n]| |]; [exact Stop| |apply IH|exact Stop].
  destruct (IH (drop (S n) (b :: data))) as (Hg & Hs & rest & Hd & Hr). trace. rewrite Hg, Hs. split_and!; [done..|].
  exists rest. split; [|exact Hr]. rewrite <- app_assoc, <- Hd. symmetry. apply take_drop.
Qed.

Lemma read_trace chunks : forall out,
  let m := read_chunks chunks out in
  got (fst m) = chunks /\ wrote (fst m) = [] /\ signals (fst m) = [] /\ snd m = fold_left (feed on_line) chunks out.
Proof.
  induction chunks as [|c chunks IH]; intros out; [done|]. cbv zeta. cbn [read_chunks]. trace.
  destruct (IH (feed on_line out c)) as (-> & -> & -> & ->). done.
Qed.

(** What a loop of the parent shows: the output it consumed is what it got. *)
Lemma parent_trace turns deadline : forall out,
  let m := parent_loop turns deadline out in
  wrote (fst m) = [] /\ signals (fst m) = (match fst (snd m) with Cancelled => [SIGTERM] | _ => [] end) /\
  snd (snd m) = fold_left (feed on_line) (got (fst m)) out.
Proof.
  induction turns as [|t turns IH]; intros out; cbv zeta; cbn [parent_loop]; [done|]. case_if; [done|]. case_if; [done|].
  trace. destruct (read_trace (chunks t) out) as (-> & -> & -> & ->). destruct (waited t); trace.
  2, 3: done.
  all: rewrite fold_left_app; apply IH.
Qed.

Lemma await_trace turns deadline :
  let m := await_stop turns deadline in wrote (fst m) = [] /\ got (fst m) = [] /\ signals (fst m) = [].
Proof. induction turns as [|[t w] turns IH]; cbv zeta; cbn [await_stop]; [done|]. case_if; [done|]. destruct w; [apply IH|done|done|apply IH]. Qed.

Lemma collect_trace env :
  let m := collect env in
  wrote (fst m) = [] /\
  snd m = (final_result (bool_decide (SIGTERM ∈ signals (fst m))) (snd (consume_output (got (fst m)))),
           snd (consume_output (got (fst m)))).
Proof.
  unfold collect, consume_output. cbv zeta. trace.
  destruct (parent_trace (turns env) (read_start env + (kChildTimeoutSeconds + 5)) ([], mkOutput [] [])) as (Hw & Hs & Ho).
  destruct (parent_loop _ _ _) as [es [outcome out]]. cbn [fst snd] in *. subst out. trace. rewrite Hw, Hs.
  set (stop := match outcome with ChildExited => mret true | Cancelled => _ | TimedOut => mret false end).
  assert (Hst : wrote (fst stop) = [] /\ got (fst stop) = [] /\ signals (fst stop) = []).
  { unfold stop. destruct outcome; [done|apply await_trace|done]. }
  destruct Hst as (-> & -> & ->). destruct stop as [es' exited]. cbn [fst snd].
  destruct (read_trace (last_chunks env) (fold_left (feed on_line) (got es) ([], mkOutput [] []))) as (Hg & Hw' & Hs' & Ho').
  destruct (read_chunks _ _) as [es'' out]. cbn [fst snd] in *. subst out.
  assert (Hk : let k : W unit := if negb exited then kill_and_leave else mret tt in
    wrote (fst k) = [] /\ got (fst k) = [] /\ signals (fst k) = if exited then [] else [SIGKILL]) by (by destruct exited).
  cbv zeta in Hk. destruct Hk as (-> & -> & ->). rewrite Hg, Hw', Hs'. cbn [app]. rewrite !app_nil_r, fold_left_app.
  split; [done|]. by destruct outcome, exited.
Qed.

(** The three ends of a run: the parent gave up before the audio was written,
    or it was written and the output was read to the end. *)
Definition reported (audio : bytes) (m : W (AssistPipelineResult * Output)) : Prop :=
  (exists rest, audio = wrote (fst m) ++ rest) /\
  (audio <> [] /\ wrote (fst m) = audio ->
   snd m = (final_result (bool_decide (SIGTERM ∈ signals (fst m))) (snd (consume_output (got (fst m)))),
            snd (consume_output (got (fst m))))) /\
  (audio = [] \/ wrote (fst m) <> audio ->
   success (fst (snd m)) = false /\ error (fst (snd m)) <> [] /\ progress (snd (snd m)) = []).

Lemma reported_failure audio m message :
  snd m = (failed message, mkOutput [] []) -> wrote (fst m) = [] -> message <> [] -> reported audio m.
Proof.
  intros Hs Hw Hm. unfold reported. rewrite Hw, Hs. split; [by exists audio|]. split; [intros [H1 H2]; congruence|]. done.
Qed.

Lemma pipeline_trace env audio : reported audio (run_assist_pipeline_process env audio).
Proof.
  unfold run_assist_pipeline_process. cbv zeta.
  do 5 (case_if; [by eapply reported_failure|]). unfold reported. trace.
  destruct (write_trace (write_turns env) input_write (write_start env + 5) audio) as (Hg & Hs & rest & Hd & Hr).
  destruct (write_fd_with_deadline _ _ _ _) as [es written]. cbn [fst snd] in *. rewrite Hg, Hs.
  assert (Hne : audio <> []) by (by destruct audio). destruct written; cbn [negb]; trace.
  - destruct (collect_trace env) as [Hw Hc]. rewrite Hw, app_nil_r. split; [by exists rest|].
    assert (rest = []) as -> by (by apply Hr). rewrite app_nil_r in Hd. split; [by intros _|]. intros [W0|W0]; congruence.
  - split; [by exists rest|]. split; [|done]. intros [_ H]. rewrite H in Hd.
    assert (rest = []) as W0 by (by apply (app_inv_head audio); rewrite app_nil_r). by apply Hr in W0.
Qed.

(** ** Properties *)

(** C5. Whatever the system calls give, the parent of the pipeline misuses no
    descriptor and no process: all descriptors are closed exactly once and not
    used afterwards, and when a child was started it is reaped, or killed and
    handed to the thread that reaps it; it is never signalled after it was
    reaped. *)
Theorem pipeline_released env audio :
  exists l, ledger nothing (fst (run_assist_pipeline_process env audio)) = Some l /\
    open_fds l = [] /\ (child l = NoChild \/ child l = Gone \/ child l = HandedOver).
Proof. destruct (from_pipeline env audio) as (l & E & H1 & H2 & _). by exists l. Qed.

(** C4. From the recording to the result: the parent writes a prefix of the
    recording; when it is not all of it, the result is an error, and so it is
    after a cancel.  Otherwise the child works on the whole recording; its output
    is the lines of some progress results and of one final result, and when the
    parent reads this output to its end, however the system cuts the writes and
    reads, then for the results [ps] and [f] whose lines the child wrote (their
    texts must not show a key of the line, see [result_ok]) the parent shows
    exactly the progress [ps], and returns the success, transcript and response
    of [f]: a success exactly when the child ends with 0. *)
Theorem assist_end_to_end env s ha_url token cid audio :
  let '(es, (r, o)) := run_assist_pipeline_process env audio in
  (exists rest, audio = wrote es ++ rest) /\
  (audio = [] \/ wrote es <> audio -> success r = false /\ error r <> [] /\ progress o = []) /\
  (audio <> [] -> wrote es = audio -> SIGTERM ∈ signals es -> r = failed (str "Anulowano Assist")) /\
  (exists ps f, AssistSession.child_reports s ha_url token cid audio ps f) /\
  (forall ps f, audio <> [] -> wrote es = audio -> SIGTERM ∉ signals es ->
   concat (got es) = concat (fst (AssistSession.assist_pipeline_child_main s ha_url token cid (wrote es))) ->
   AssistSession.child_reports s ha_url token cid audio ps f ->
   Forall (fun r => result_ok r = true) ps -> result_ok f = true ->
   progress o = map received ps /\
   (success r = true <-> snd (AssistSession.assist_pipeline_child_main s ha_url token cid audio) = 0) /\
   success r = success f /\ transcript r = sanitize (transcript f) /\ response r = sanitize (response f)).
Proof.
  pose proof (pipeline_trace env audio) as H. unfold reported in H.
  destruct (run_assist_pipeline_process env audio) as [es [r o]]. cbn [fst snd] in H. destruct H as (Hp & Ha & Hf).
  split; [exact Hp|]. split; [exact Hf|]. split; [|split].
  - intros Hn Hw Hc. specialize (Ha (conj Hn Hw)). rewrite bool_decide_true in Ha by exact Hc. by injection Ha.
  - destruct (AssistSession.child_output_shape s ha_url token cid audio) as (ps & f & E & _). by exists ps, f.
  - intros ps f Hn Hw Hc Hg E Hps Hff. specialize (Ha (conj Hn Hw)). rewrite bool_decide_false in Ha by exact Hc. rewrite Hw in Hg.
    pose proof (AssistSession.child_reports_exit _ _ _ _ _ _ _ E) as ->. unfold AssistSession.child_reports in E.
    rewrite E, concat_app in Hg. cbn [concat] in Hg. rewrite app_nil_r in Hg.
    destruct (parent_facts ps f (got es) Hps Hff Hg) as [Hpr Hfin]. apply pair_eq in Ha as [-> ->]. rewrite Hpr, Hfin.
    split; [done|]. case_if; done.
Qed.

(** *** A process with a deadline *)

(** The first turn that ends the wait, if it comes in time. *)
Definition waiting (deadline : Z) (t : Z * Wait) : Prop := fst t < deadline /\ (snd t = Running \/ snd t = WaitFailed true).

Lemma watch_spec deadline turns fds :
  Forall (fun t => snd t <> WaitFailed false) turns ->
  from (mkLedger fds (Alive false) true) (watch turns deadline) (fun ok l => l = mkLedger fds Gone false /\
    (ok = true <-> exists k now, turns !! k = Some (now, Exited 0) /\ now < deadline /\ Forall (waiting deadline) (take k turns))).
Proof.
  assert (Kill : forall (R : Prop), ~ R -> from (mkLedger fds (Alive false) true) kill_group
    (fun ok l => l = mkLedger fds Gone false /\ (ok = true <-> R))).
  { intros R HR. unfold kill_group. call. call. call. apply from_ret. by split. }
  intros H. induction H as [|[now w] turns Hw _ IH]; cbn [watch].
  { apply Kill. intros (k & n & E & _). by destruct k. }
  assert (First : now < deadline -> w <> Running -> w <> WaitFailed true ->
    ((exists k now', ((now, w) :: turns) !! k = Some (now', Exited 0) /\ now' < deadline /\
       Forall (waiting deadline) (take k ((now, w) :: turns))) <-> w = Exited 0)).
  { intros Hn H1 H2. split.
    - intros (k & n & E & _ & F). destruct k as [|k]; [by injection E as <- ->|]. cbn [take] in F.
      apply Forall_cons in F as [[_ [F|F]] _]; done.
    - intros ->. by exists 0%nat, now. }
  destruct (Z.ltb_spec now deadline) as [Hn|Hn]; cbn [negb].
  2:{ apply Kill. intros (k & n & E & Hk & F). destruct k as [|k]; [injection E as -> _; lia|]. cbn [take] in F.
      apply Forall_cons in F as [[F _] _]. cbn [fst] in F. lia. }
  assert (Later : w = Running \/ w = WaitFailed true -> from (mkLedger fds (Alive false) true) (watch turns deadline)
    (fun ok l => l = mkLedger fds Gone false /\ (ok = true <-> exists k now', ((now, w) :: turns) !! k = Some (now', Exited 0) /\
       now' < deadline /\ Forall (waiting deadline) (take k ((now, w) :: turns))))).
  { intros Hl. destruct IH as (l & E & -> & I). exists (mkLedger fds Gone false). split; [exact E|]. split; [done|]. rewrite I.
    split; intros (k & n & Ek & Hk & F).
    - exists (S k), n. split; [exact Ek|]. split; [exact Hk|]. cbn [take]. by constructor.
    - destruct k as [|k]; [injection Ek as <- ->; by destruct Hl|]. exists k, n. cbn [take] in F. by apply Forall_cons in F as [_ F]. }
  destruct w as [|code|signal|[|]]; [apply Later; auto| | |apply Later; auto|done].
  - call. call. apply from_ret. split; [done|]. rewrite First by done. rewrite Z.eqb_eq. split; [by intros ->|by intros [= ->]].
  - call. call. apply from_ret. split; [done|]. rewrite First by done. done.
Qed.

(** [run_process] says true exactly when the process was started and ended
    with 0 at a poll before the deadline.  As long as the child is the caller's to
    wait for, it is reaped on every path (killed first when it is late), and the
    process group that the SIGTERM handler would kill is set only while it
    runs. *)
Theorem run_process_correct arguments timeout forked start turns :
  Forall (fun t => snd t <> WaitFailed false) turns ->
  let m := run_process arguments timeout forked start turns in
  (exists l, ledger nothing (fst m) = Some l /\ group l = false /\
     child l = (if forked && negb (bool_decide (arguments = [])) then Gone else NoChild)) /\
  (snd m = true <->
   arguments <> [] /\ forked = true /\
   exists k now, turns !! k = Some (now, Exited 0) /\ now < start + timeout /\ Forall (waiting (start + timeout)) (take k turns)).
Proof.
  intros H m. unfold m, run_process. destruct arguments as [|a arguments].
  { split; [|by split; [|intros [W0 _]]]. exists nothing. rewrite andb_false_r. done. }
  rewrite bool_decide_false by done. destruct forked; cbn [negb andb].
  2:{ split; [by exists nothing|]. by split; [|intros (_ & W0 & _)]. }
  destruct (watch_spec (start + timeout) turns [] H) as (l & E & -> & X). split.
  - exists (mkLedger [] Gone false). split; [|done]. trace. exact E.
  - trace. rewrite X. split; [by intros R|by intros (_ & _ & R)].
Qed.

(** ** Witnesses *)

Definition sample_url : bytes := str "https://ha.local".

(** The results of the sample run: the transcript and the playback shown as
    progress, then the final result. *)
Definition sample_progress : list AssistPipelineResult :=
  [mkResult false (str "transcript") (str "zapal") [] [] (str "01JAB") [] false 0;
   mkResult true (str "playback") (str "zapal") (str "Gotowe") [] (str "01JAB") (str "action_done") true 0].
Definition sample_final : AssistPipelineResult :=
  mkResult true (str "final") (str "zapal") (str "Gotowe") [] (str "01JAB") (str "action_done") true 0.

Lemma sample_reports :
  AssistSession.child_reports AssistSession.sample_script sample_url (str "T") [] AssistSession.sample_audio sample_progress sample_final.
Proof. vm_compute. reflexivity. Qed.

(** Writes of two sizes with a retry, three reads, and the end of the child in
    the third turn. *)
Definition sample_env : Env :=
  let out := child_output sample_progress sample_final in
  mkEnv true true true true
    100 [mkWriteTurn 100 1 (Count 1000); mkWriteTurn 101 1 TryAgain; mkWriteTurn 101 0 WriteError; mkWriteTurn 102 1 (Count 800)]
    102 [mkTurn 103 false [take 100 out] Running; mkTurn 104 false [] (WaitFailed true); mkTurn 105 false [take 2048 (drop 100 out)] (Exited 0)]
    0 [] (match drop 2148 out with [] => [] | rest => [rest] end).

Lemma sample_env_run :
  let '(es, (r, o)) := run_assist_pipeline_process sample_env AssistSession.sample_audio in
  r = sample_final /\ progress o = map received sample_progress /\ wrote es = AssistSession.sample_audio /\
  signals es = [] /\ concat (got es) = concat (map (fun r => serialize_result r false) sample_progress ++ [serialize_result sample_final true]).
Proof. vm_compute. repeat split. Qed.

(** A cancel: the child is told to stop, does not within a second, and is
    killed. *)
Example sample_cancel :
  let env := mkEnv true true true true 100 [mkWriteTurn 100 1 (Count 9)] 100 [mkTurn 101 true [] Running] 101 [(101, Running); (102, Running)] [] in
  let m := run_assist_pipeline_process env [1; 2; 3] in
  signals (fst m) = [SIGTERM; SIGKILL] /\ fst (snd m) = failed (str "Anulowano Assist").
Proof. vm_compute. split; reflexivity. Qed.

Lemma assist_end_to_end_witness :
  let '(es, (r, o)) := run_assist_pipeline_process sample_env AssistSession.sample_audio in
  wrote es = AssistSession.sample_audio /\
  progress o = map received sample_progress /\
  (success r = true <->
   snd (AssistSession.assist_pipeline_child_main AssistSession.sample_script sample_url (str "T") [] AssistSession.sample_audio) = 0) /\
  success r = true /\ transcript r = str "zapal" /\ response r = str "Gotowe".
Proof.
  pose proof (assist_end_to_end sample_env AssistSession.sample_script sample_url (str "T") [] AssistSession.sample_audio) as H.
  pose proof sample_env_run as F. destruct (run_assist_pipeline_process sample_env AssistSession.sample_audio) as [es [r o]].
  destruct F as (_ & _ & Fw & Fs & Fg). split; [exact Fw|]. destruct H as (_ & _ & _ & _ & H).
  apply (H sample_progress sample_final).
  - discriminate.
  - exact Fw.
  - rewrite Fs. intros W0. inversion W0.
  - rewrite Fw, sample_reports. exact Fg.
  - exact sample_reports.
  - repeat constructor.
  - reflexivity.
Defined.

Lemma run_process_correct_witness :
  snd (run_process [str "/bin/true"] 60 true 10 [(10, Running); (11, WaitFailed true); (12, Exited 0)]) = true.
Proof.
  apply (run_process_correct [str "/bin/true"] 60 true 10 [(10, Running); (11, WaitFailed true); (12, Exited 0)]).
  - repeat constructor; discriminate.
  - split; [done|]. split; [done|]. exists 2%nat, 12. split; [reflexivity|]. split; [lia|]. repeat constructor; cbn; auto; lia.
Defined.
End Process.
