(* ===== verification/Listener.v ===== *)
(** The life cycles of the wake word listener (wake_word_listener.cpp) and of
    the microphone capture (assist_audio.cpp): [start], [stop] and the end of
    their threads, on a table of the descriptors and children of the panel.
    The loops of the threads over what they read are in [AssistAudio]; here a
    thread ends at any moment, by itself or because [stop] told it to.  The
    theorems say that nothing is left behind, whichever system call fails, and to
    which processes the signals go. *)
From S2P Require Import Prelude CString.
From stdpp Require Import list sets.
#[local] Open Scope Z_scope.

Module Listener.

(** ** The process *)

(** The number of open descriptors, the children that were not waited for, and
    the signals sent to a pid that is none of them. *)
Record Os := mkOs { open_fds : Z; children : list Z; stray : list Z }.

Definition os_pipe (os : Os) : Os := mkOs (open_fds os + 2) (children os) (stray os).
Definition os_close (n : Z) (os : Os) : Os := mkOs (open_fds os - n) (children os) (stray os).
Definition os_fork (pid : Z) (os : Os) : Os := mkOs (open_fds os) (pid :: children os) (stray os).
Definition os_kill (pid : Z) (os : Os) : Os :=
  if bool_decide (pid ∈ children os) then os else mkOs (open_fds os) (children os) (stray os ++ [pid]).

(** A wait that succeeds, by the caller or by a detached thread. *)
Definition os_reap (pid : Z) (os : Os) : Os := mkOs (open_fds os) (filter (fun p => p <> pid) (children os)) (stray os).

(** [fork] gives a positive number that no child has. *)
Definition fresh (pid : Z) (os : Os) : Prop := 0 < pid /\ pid ∉ children os.

(** ** The wake word listener *)

Inductive Thread := NoThread | Monitoring (output_fd capture_pid worker_pid : Z) | Ended.

Record WakeWordListener := mkListener {
  running_ : bool; output_fd_ : Z; capture_pid_ : Z; worker_pid_ : Z;
  wake_handler_ : bool; last_error_ : bytes; monitor_thread_ : Thread;
}.

Definition initial : WakeWordListener := mkListener false (-1) (-1) (-1) false [] NoThread.

(** What the system calls of [start] give, with [strerror(errno)]. *)
Record StartEnv := mkStartEnv {
  audio_pipe_ok : bool; output_pipe_ok : bool; fork_capture : option Z; fork_worker : option Z; fd : Z; strerror : bytes;
}.

Definition set_error (l : WakeWordListener) (error : bytes) : WakeWordListener :=
  mkListener (running_ l) (output_fd_ l) (capture_pid_ l) (worker_pid_ l) (wake_handler_ l) error (monitor_thread_ l).

(** The end of [monitor_loop]; [error] is set when [poll] failed. *)
Definition monitor_end (error : option bytes) (l : WakeWordListener) (os : Os) : WakeWordListener * Os :=
  match monitor_thread_ l with
  | Monitoring output_fd capture_pid worker_pid =>
      let l := match error with Some e => set_error l (str "Błąd workera wake word: " ++ e) | None => l end in
      (mkListener false (output_fd_ l) (capture_pid_ l) (worker_pid_ l) (wake_handler_ l) (last_error_ l) Ended,
       os_reap worker_pid (os_reap capture_pid (os_close 1 (os_kill worker_pid (os_kill capture_pid os)))))
  | _ => (l, os)
  end.

(** [join] waits for [monitor_end]: [running_] is false. *)
Definition stop (l : WakeWordListener) (os : Os) : WakeWordListener * Os :=
  let l := mkListener false (output_fd_ l) (capture_pid_ l) (worker_pid_ l) (wake_handler_ l) (last_error_ l) (monitor_thread_ l) in
  let os := if 0 <? capture_pid_ l then os_kill (capture_pid_ l) os else os in
  let os := if 0 <? worker_pid_ l then os_kill (worker_pid_ l) os else os in
  let '(l, os) := monitor_end None l os in
  (mkListener (running_ l) (-1) (-1) (-1) false (last_error_ l) NoThread, os).

Definition start (env : StartEnv) (l : WakeWordListener) (os : Os) : bool * WakeWordListener * Os :=
  let '(l, os) := stop l os in
  let l := set_error l [] in
  let fail message os := (false, set_error l (message ++ strerror env), os) in
  if negb (audio_pipe_ok env) then fail (str "Nie można utworzyć potoku wake word: ") os
  else
    let os := os_pipe os in
    if negb (output_pipe_ok env) then fail (str "Nie można utworzyć potoku wake word: ") (os_close 2 os)
    else
      let os := os_pipe os in
      match fork_capture env with
      | None => fail (str "Nie można uruchomić mikrofonu wake word: ") (os_close 4 os)
      | Some capture_pid =>
          let os := os_fork capture_pid os in
          match fork_worker env with
          | None => fail (str "Nie można uruchomić workera wake word: ") (os_reap capture_pid (os_close 4 (os_kill capture_pid os)))
          | Some worker_pid =>
              let os := os_close 3 (os_fork worker_pid os) in
              (true, mkListener true (fd env) capture_pid worker_pid true (last_error_ l) (Monitoring (fd env) capture_pid worker_pid), os)
          end
      end.

(** ** Courses of events *)

Inductive Action := Start (env : StartEnv) | Stop | MonitorEnds (error : option bytes).

Definition act (s : WakeWordListener * Os) (a : Action) : WakeWordListener * Os :=
  match a with
  | Start env => let '(_, l, os) := start env (fst s) (snd s) in (l, os)
  | Stop => stop (fst s) (snd s)
  | MonitorEnds error => monitor_end error (fst s) (snd s)
  end.

(** The pids that [fork] gives are new when it gives them. *)
Definition env_ok (env : StartEnv) (os : Os) : Prop :=
  forall pid, fork_capture env = Some pid -> fresh pid os /\
    forall pid', fork_worker env = Some pid' -> fresh pid' (os_fork pid os).

Inductive reaches (s : WakeWordListener * Os) : list Action -> WakeWordListener * Os -> Prop :=
| reaches_nil : reaches s [] s
| reaches_snoc acts t a :
    reaches s acts t ->
    match a with Start env => env_ok env (snd (stop (fst t) (snd t))) | _ => True end ->
    reaches s (acts ++ [a]) (act t a).

(** The listener with its resources, beside [fds] descriptors and the children
    [others] of other parts of the panel. *)
Inductive owns (fds : Z) (others : list Z) : WakeWordListener -> Os -> Prop :=
| owns_idle error st :
    owns fds others (mkListener false (-1) (-1) (-1) false error NoThread) (mkOs fds others st)
| owns_thread r fd c w h error st :
    0 < c -> 0 < w -> c <> w -> c ∉ others -> w ∉ others ->
    owns fds others (mkListener r fd c w h error (Monitoring fd c w)) (mkOs (fds + 1) (w :: c :: others) st)
| owns_ended fd c w h error st :
    0 < c -> 0 < w ->
    owns fds others (mkListener false fd c w h error Ended) (mkOs fds others st).

Lemma reap_other (pid : Z) (l : list Z) : pid ∉ l -> filter (fun p => p <> pid) l = l.
Proof.
  induction l as [|x l IH]; intros H; [done|]. apply not_elem_of_cons in H as [H1 H2].
  rewrite filter_cons_True by congruence. by rewrite IH.
Qed.

Lemma reap_both (c w : Z) (others : list Z) : c <> w -> c ∉ others -> w ∉ others ->
  filter (fun p => p <> w) (filter (fun p => p <> c) (w :: c :: others)) = others.
Proof.
  intros Hn Hc Hw. rewrite (filter_cons_True _ w) by congruence. rewrite (filter_cons_False _ c) by (intros W0; by apply W0).
  rewrite (reap_other c) by exact Hc. rewrite filter_cons_False by (intros W0; by apply W0). by apply reap_other.
Qed.

Lemma kill_child pid os : pid ∈ children os -> os_kill pid os = os.
Proof. intros H. unfold os_kill. by rewrite bool_decide_true. Qed.

Lemma monitor_end_owns fds others error l os :
  owns fds others l os -> owns fds others (fst (monitor_end error l os)) (snd (monitor_end error l os)).
Proof.
  intros [e st|r fd c w h e st Hc Hw Hn Hoc How|fd c w h e st Hc Hw]; cbn [monitor_end monitor_thread_ fst snd];
    [constructor| |by constructor].
  rewrite !kill_child by (rewrite ?kill_child; cbn; set_solver). unfold os_close, os_reap. cbn [open_fds children stray].
  rewrite reap_both by assumption. replace (fds + 1 - 1) with fds by lia.
  destruct error; by constructor.
Qed.

(** What [stop] leaves, and the signals it sends to processes that are gone. *)
Lemma stop_owns fds others l os :
  owns fds others l os ->
  exists error, stop l os = (mkListener false (-1) (-1) (-1) false error NoThread,
    mkOs fds others (stray os ++ match monitor_thread_ l with
                                 | Ended => filter (fun p => p ∉ others) [capture_pid_ l; worker_pid_ l]
                                 | _ => [] end)).
Proof.
  intros H. pose proof (fun l' os' (Ho : owns fds others l' os') => monitor_end_owns fds others None l' os' Ho) as M.
  destruct H as [e st|r fd c w h e st Hc Hw Hn Hoc How|fd c w h e st Hc Hw]; unfold stop;
    cbn [capture_pid_ worker_pid_ running_ output_fd_ wake_handler_ last_error_ monitor_thread_ stray].
  - exists e. by rewrite app_nil_r.
  - rewrite !(proj2 (Z.ltb_lt 0 _)) by lia. rewrite !kill_child by (rewrite ?kill_child; cbn; set_solver).
    specialize (M _ _ (owns_thread fds others false fd c w h e st Hc Hw Hn Hoc How)).
    cbn [monitor_end monitor_thread_ fst snd] in *. rewrite !kill_child by (rewrite ?kill_child; cbn; set_solver).
    unfold os_close, os_reap. cbn [open_fds children stray]. rewrite reap_both by assumption.
    exists e. rewrite app_nil_r. do 2 f_equal. lia.
  - rewrite !(proj2 (Z.ltb_lt 0 _)) by lia. exists e. cbn [monitor_end monitor_thread_]. f_equal. unfold os_kill. cbn [children].
    repeat case_bool_decide; cbn [open_fds children stray] in *;
      repeat first [rewrite filter_cons_True by assumption|rewrite filter_cons_False by tauto];
      rewrite filter_nil, ?app_nil_r, <- ?app_assoc; done.
Qed.

(** The children of the thread. *)
Definition thread_children (t : Thread) : list Z := match t with Monitoring _ c w => [w; c] | _ => [] end.
Definition thread_fds (t : Thread) : Z := match t with Monitoring _ _ _ => 1 | _ => 0 end.

Lemma owns_resources fds others l os :
  owns fds others l os ->
  open_fds os = fds + thread_fds (monitor_thread_ l) /\ children os = thread_children (monitor_thread_ l) ++ others.
Proof. intros [e st|r fd c w h e st|fd c w h e st]; cbn [open_fds children monitor_thread_ thread_fds thread_children app]; split; (lia || done). Qed.

Lemma start_owns fds others env l os :
  owns fds others l os -> env_ok env (snd (stop l os)) ->
  let '(ok, l', os') := start env l os in
  owns fds others l' os' /\ stray os' = stray (snd (stop l os)) /\
  (if ok then exists c w, fork_capture env = Some c /\ fork_worker env = Some w /\ monitor_thread_ l' = Monitoring (fd env) c w
   else monitor_thread_ l' = NoThread /\ last_error_ l' <> []).
Proof.
  intros H He. destruct (stop_owns fds others l os H) as [e E]. unfold start. rewrite E in *. cbn [snd] in He.
  set (st := stray os ++ _) in *. clearbody st. clear E H l os. unfold set_error.
  cbn [running_ output_fd_ capture_pid_ worker_pid_ wake_handler_ monitor_thread_ last_error_].
  destruct (audio_pipe_ok env); cbn [negb]; [|by split; [constructor|]].
  destruct (output_pipe_ok env); cbn [negb].
  2:{ unfold os_close, os_pipe. cbn [open_fds children stray]. replace (fds + 2 - 2) with fds by lia. by split; [constructor|]. }
  destruct (fork_capture env) as [c|] eqn:Ec.
  2:{ unfold os_close, os_pipe. cbn [open_fds children stray]. replace (fds + 2 + 2 - 4) with fds by lia. by split; [constructor|]. }
  destruct (He c Ec) as [[Hc Hcf] Hw]. cbn [children] in Hcf. destruct (fork_worker env) as [w|] eqn:Ew.
  - destruct (Hw w eq_refl) as [Hw0 Hwf]. cbn [os_fork children] in Hwf. apply not_elem_of_cons in Hwf as [Hwc Hwf].
    unfold os_close, os_fork, os_pipe. cbn [open_fds children stray]. replace (fds + 2 + 2 - 3) with (fds + 1) by lia.
    split; [by constructor|]. split; [done|]. by exists c, w.
  - rewrite kill_child by (cbn; set_solver). unfold os_close, os_reap, os_fork, os_pipe. cbn [open_fds children stray].
    rewrite filter_cons_False by (intros W0; by apply W0). rewrite reap_other by exact Hcf.
    replace (fds + 2 + 2 - 4) with fds by lia. by split; [constructor|].
Qed.

Lemma reaches_owns fds others acts s :
  reaches (initial, mkOs fds others []) acts s ->
  owns fds others (fst s) (snd s) /\ ((forall e, MonitorEnds e ∉ acts) -> stray (snd s) = [] /\ monitor_thread_ (fst s) <> Ended).
Proof.
  induction 1 as [|acts [l os] a _ [IH Hst] Ha]; [split; [constructor|by intros _]|]. cbn [fst snd] in *.
  assert (Hstop : stray os = [] -> monitor_thread_ l <> Ended -> stray (snd (stop l os)) = []).
  { intros H1 H2. destruct (stop_owns fds others l os IH) as [e E]. rewrite E, H1. by destruct (monitor_thread_ l). }
  destruct a as [env| |e]; cbn [act fst snd].
  - pose proof (start_owns fds others env l os IH Ha) as S. destruct (start env l os) as [[ok l'] os']. cbn [fst snd].
    destruct S as (Ho & Hs & Hok). split; [exact Ho|]. intros Hn. destruct Hst as [H1 H2]; [intros e He; apply (Hn e); set_solver|]. rewrite Hs. split; [by apply Hstop|].
    destruct ok; [destruct Hok as (c & w & _ & _ & ->); done|destruct Hok as [-> _]; done].
  - destruct (stop_owns fds others l os IH) as [e E]. split; [rewrite E; constructor|].
    intros Hn. destruct Hst as [H1 H2]; [set_solver|]. split; [by apply Hstop|]. by rewrite E.
  - split; [by apply monitor_end_owns|]. intros Hn. exfalso. apply (Hn e). clear. set_solver.
Qed.

(** ** Properties *)

(** C34. In every course of starts, stops and ends of the monitor thread, with any
    system call failing, the listener holds exactly the descriptor and the two
    children of its running thread, and nothing when no thread runs; as long as
    no thread ended by itself, a signal goes only to a child. *)
Theorem listener_resources fds others acts s :
  reaches (initial, mkOs fds others []) acts s ->
  open_fds (snd s) = fds + thread_fds (monitor_thread_ (fst s)) /\
  children (snd s) = thread_children (monitor_thread_ (fst s)) ++ others /\
  (running_ (fst s) = true -> exists fd c w, monitor_thread_ (fst s) = Monitoring fd c w) /\
  ((forall e, MonitorEnds e ∉ acts) -> stray (snd s) = []).
Proof.
  intros H. destruct (reaches_owns fds others acts s H) as [Ho Hs]. destruct (owns_resources _ _ _ _ Ho) as [H1 H2].
  split; [exact H1|]. split; [exact H2|]. split; [|intros Hn; by apply Hs].
  destruct Ho; cbn [fst running_ monitor_thread_]; try done. intros _. eauto.
Qed.

(** When the worker ends by itself, the pids stay behind: the next [stop], or
    the restart by the timer, sends SIGTERM to two pids that the system may have
    given to other processes. *)
Theorem stale_pids_signalled fds others env error :
  env_ok env (mkOs fds others []) -> audio_pipe_ok env = true -> output_pipe_ok env = true ->
  forall c w, fork_capture env = Some c -> fork_worker env = Some w ->
  let s := act (act (act (initial, mkOs fds others []) (Start env)) (MonitorEnds error)) Stop in
  children (snd s) = others /\ stray (snd s) = [c; w].
Proof.
  intros He H1 H2 c w Hc Hw. pose proof (start_owns fds others env initial (mkOs fds others []) (owns_idle _ _ _ _) He) as S.
  cbv zeta. cbn [act fst snd]. destruct (He c Hc) as [[_ Hcf] Hwf]. destruct (Hwf w Hw) as [_ Hwf']. apply not_elem_of_cons in Hwf' as [Hne Hwf']. clear Hwf.
  destruct (start env initial (mkOs fds others [])) as [[ok l] os] eqn:E. destruct S as (Ho & Hs & Hok). cbn [fst snd].
  assert (ok = true) as ->.
  { unfold start in E. cbn in E. rewrite H1, H2, Hc, Hw in E. cbn in E. by injection E as <- _ _. }
  destruct Hok as (c' & w' & Ec & Ew & Et). rewrite Hc in Ec. rewrite Hw in Ew. injection Ec as <-. injection Ew as <-.
  pose proof (monitor_end_owns fds others error l os Ho) as Ho2.
  destruct (monitor_end error l os) as [l2 os2] eqn:E2. cbn [fst snd] in *.
  assert (Hl2 : monitor_thread_ l2 = Ended /\ capture_pid_ l2 = c /\ worker_pid_ l2 = w /\ stray os2 = []).
  { unfold monitor_end in E2. rewrite Et in E2. destruct Ho; cbn [monitor_thread_] in Et; try discriminate.
    injection Et as -> -> ->. rewrite !kill_child in E2 by (rewrite ?kill_child; cbn; set_solver).
    injection E2 as <- <-. destruct error; cbn in *; done. }
  destruct Hl2 as (Ht2 & Hc2 & Hw2 & Hs2). destruct (stop_owns fds others l2 os2 Ho2) as [e ->]. cbn [snd children stray].
  rewrite Ht2, Hc2, Hw2, Hs2. split; [done|].
  rewrite filter_cons_True by exact Hcf. by rewrite filter_cons_True, filter_nil by exact Hwf'.
Qed.

Definition sample_env (c w : Z) : StartEnv := mkStartEnv true true (Some c) (Some w) 7 [].

Lemma listener_resources_witness :
  let acts := [Start (sample_env 100 101); Stop; Start (mkStartEnv true true (Some 102) None 7 (str "EAGAIN")); Start (sample_env 103 104)] in
  exists s, reaches (initial, mkOs 10 [55] []) acts s /\ open_fds (snd s) = 10 + 1 /\ children (snd s) = [104; 103] ++ [55] /\ stray (snd s) = [].
Proof.
  set (s0 := (initial, mkOs 10 [55] [])).
  assert (R : reaches s0 ([] ++ [Start (sample_env 100 101)] ++ [Stop] ++ [Start (mkStartEnv true true (Some 102) None 7 (str "EAGAIN"))]
      ++ [Start (sample_env 103 104)])
    (act (act (act (act s0 (Start (sample_env 100 101))) Stop) (Start (mkStartEnv true true (Some 102) None 7 (str "EAGAIN")))) (Start (sample_env 103 104)))).
  { rewrite !app_assoc. repeat apply reaches_snoc; [apply reaches_nil|..]; try done;
      intros pid [= <-]; (split; [split; [done|vm_compute; set_solver]|]); intros pid' [= <-];
      (split; [done|vm_compute; set_solver]). }
  eexists. split; [exact R|]. destruct (listener_resources 10 [55] _ _ R) as (H1 & H2 & _ & H4).
  split; [exact H1|]. split; [exact H2|]. apply H4. intros e. cbn [app]. set_solver.
Defined.
End Listener.

(** ** The microphone capture *)

Module Capture.
Import Listener.

(** [Leaving]: the child was waited for, but [child_pid_] still has its pid. *)
Inductive Thread := NoThread | Capturing (read_fd child_pid : Z) | Leaving (read_fd child_pid : Z) | Ended.

Record AssistAudioCapture := mkCapture {
  running_ : bool; level_percent_ : Z; frame_count_ : Z; read_fd_ : Z; child_pid_ : Z;
  frame_handler_ : bool; last_error_ : bytes; capture_thread_ : Thread;
}.

Definition initial : AssistAudioCapture := mkCapture false 0 0 (-1) (-1) false [] NoThread.

Record StartEnv := mkStartEnv { pipe_ok : bool; forked : option Z; fd : Z; strerror : bytes }.

Definition set_error (a : AssistAudioCapture) (e : bytes) : AssistAudioCapture :=
  mkCapture (running_ a) (level_percent_ a) (frame_count_ a) (read_fd_ a) (child_pid_ a) (frame_handler_ a) e (capture_thread_ a).

(** The loop over the attempts, [n] of them left: has the child exited? *)
Fixpoint attempts (n : nat) (attempt : nat) (exited : nat -> bool) (pid : Z) (os : Os) : bool * Os :=
  match n with
  | O => (false, os)
  | S n =>
      if exited attempt then (true, os_reap pid os)
      else attempts n (S attempt) exited pid (if (attempt =? 0)%nat then os_kill pid os else os)
  end.

(** The end of [capture_loop] up to the lock: the child is waited for, or killed
    and left to a detached thread. *)
Definition leave (error : option bytes) (exited : nat -> bool) (a : AssistAudioCapture) (os : Os) : AssistAudioCapture * Os :=
  match capture_thread_ a with
  | Capturing read_fd pid =>
      let a := match error with Some e => set_error a e | None => a end in
      let '(child_exited, os) := attempts 20 0 exited pid (os_close 1 os) in
      let os := if negb child_exited then os_reap pid (os_kill pid os) else os in
      (mkCapture (running_ a) (level_percent_ a) (frame_count_ a) (read_fd_ a) (child_pid_ a) (frame_handler_ a) (last_error_ a)
         (Leaving read_fd pid), os)
  | _ => (a, os)
  end.

(** The block under the lock, and the end of the thread. *)
Definition publish (a : AssistAudioCapture) : AssistAudioCapture :=
  match capture_thread_ a with
  | Leaving read_fd pid =>
      mkCapture false (level_percent_ a) (frame_count_ a) (if read_fd_ a =? read_fd then -1 else read_fd_ a)
        (if child_pid_ a =? pid then -1 else child_pid_ a) (frame_handler_ a) (last_error_ a) Ended
  | _ => a
  end.

Definition stop (exited : nat -> bool) (a : AssistAudioCapture) (os : Os) : AssistAudioCapture * Os :=
  let a := mkCapture false (level_percent_ a) (frame_count_ a) (read_fd_ a) (child_pid_ a) (frame_handler_ a) (last_error_ a) (capture_thread_ a) in
  let os := if 0 <? child_pid_ a then os_kill (child_pid_ a) os else os in
  let '(a, os) := leave None exited a os in
  let a := publish a in
  (mkCapture (running_ a) 0 (frame_count_ a) (-1) (-1) false (last_error_ a) NoThread, os).

Definition start (env : StartEnv) (exited : nat -> bool) (a : AssistAudioCapture) (os : Os) : bool * AssistAudioCapture * Os :=
  let '(a, os) := stop exited a os in
  let a := set_error a [] in
  let fail message os := (false, set_error a (message ++ strerror env), os) in
  if negb (pipe_ok env) then fail (str "Nie można utworzyć potoku audio: ") os
  else
    let os := os_pipe os in
    match forked env with
    | None => fail (str "Nie można uruchomić arecord: ") (os_close 2 os)
    | Some pid =>
        let os := os_close 1 (os_fork pid os) in
        (true, mkCapture true 0 0 (fd env) pid true (last_error_ a) (Capturing (fd env) pid), os)
    end.

Inductive Action :=
| Start (env : StartEnv) (exited : nat -> bool)
| Stop (exited : nat -> bool)
| Leaves (error : option bytes) (exited : nat -> bool)
| Publishes.

Definition act (s : AssistAudioCapture * Os) (c : Action) : AssistAudioCapture * Os :=
  match c with
  | Start env exited => let '(_, a, os) := start env exited (fst s) (snd s) in (a, os)
  | Stop exited => stop exited (fst s) (snd s)
  | Leaves error exited => leave error exited (fst s) (snd s)
  | Publishes => (publish (fst s), snd s)
  end.

Definition leaving (t : Thread) : bool := match t with Leaving _ _ => true | _ => false end.

(** A course in which [fork] gives new pids; [true] when no [start] or [stop]
    came between the wait for the child and the block under the lock. *)
Inductive reaches (s : AssistAudioCapture * Os) : bool -> AssistAudioCapture * Os -> Prop :=
| reaches_nil : reaches s true s
| reaches_start b t env exited :
    reaches s b t -> (forall pid, forked env = Some pid -> fresh pid (snd (stop exited (fst t) (snd t)))) ->
    reaches s (b && negb (leaving (capture_thread_ (fst t)))) (act t (Start env exited))
| reaches_stop b t exited :
    reaches s b t -> reaches s (b && negb (leaving (capture_thread_ (fst t)))) (act t (Stop exited))
| reaches_leaves b t error exited : reaches s b t -> reaches s b (act t (Leaves error exited))
| reaches_publishes b t : reaches s b t -> reaches s b (act t Publishes).

Definition thread_children (t : Thread) : list Z := match t with Capturing _ p => [p] | _ => [] end.
Definition thread_fds (t : Thread) : Z := match t with Capturing _ _ => 1 | _ => 0 end.

Inductive owns (fds : Z) (others : list Z) : AssistAudioCapture -> Os -> Prop :=
| owns_capturing r level n fd p h error st :
    0 < p -> p ∉ others -> owns fds others (mkCapture r level n fd p h error (Capturing fd p)) (mkOs (fds + 1) (p :: others) st)
| owns_leaving r level n fd p h error st :
    0 < p -> owns fds others (mkCapture r level n fd p h error (Leaving fd p)) (mkOs fds others st)
| owns_none r level n h error t st :
    (t = NoThread \/ t = Ended) -> r = false ->
    owns fds others (mkCapture r level n (-1) (-1) h error t) (mkOs fds others st).

(** Waited for at some attempt, or killed: the child is gone, and got signals
    only before. *)
Lemma attempts_reap n exited pid others fds st : pid ∉ others -> forall attempt,
  let '(child_exited, os) := attempts n attempt exited pid (mkOs fds (pid :: others) st) in
  (if negb child_exited then os_reap pid (os_kill pid os) else os) = mkOs fds others st.
Proof.
  intros Hp. assert (R : filter (fun p => p <> pid) (pid :: others) = others).
  { rewrite filter_cons_False by (intros W0; by apply W0). by apply reap_other. }
  assert (K : os_kill pid (mkOs fds (pid :: others) st) = mkOs fds (pid :: others) st) by (apply kill_child; cbn; set_solver).
  induction n as [|n IH]; intros attempt; cbn [attempts].
  { cbn [negb]. rewrite K. unfold os_reap. cbn [children open_fds stray]. by rewrite R. }
  destruct (exited attempt); [unfold os_reap; cbn [children open_fds stray negb]; by rewrite R|].
  rewrite K. destruct (attempt =? 0)%nat; apply IH.
Qed.

Lemma leave_owns fds others error exited a os : owns fds others a os ->
  owns fds others (fst (leave error exited a os)) (snd (leave error exited a os)) /\
  stray (snd (leave error exited a os)) = stray os /\
  (match capture_thread_ a with
   | Capturing fd p => exists a', leave error exited a os = (a', mkOs fds others (stray os)) /\ capture_thread_ a' = Leaving fd p /\
       read_fd_ a' = fd /\ child_pid_ a' = p
   | _ => leave error exited a os = (a, os) end).
Proof.
  intros [r level n fd p h e st Hp Hf|r level n fd p h e st Hp|r level n h e t st Ht Hr]; unfold leave; cbn [capture_thread_].
  - pose proof (attempts_reap 20 exited p others fds st Hf 0) as E. unfold os_close. cbn [open_fds children stray].
    replace (fds + 1 - 1) with fds by lia. destruct (attempts 20 0 exited p _) as [x os1]. rewrite E. cbn [fst snd stray].
    split; [destruct error; by constructor|]. split; [done|]. eexists. split; [reflexivity|]. by destruct error.
  - split; [by constructor|]. done.
  - destruct Ht as [-> | ->]; (split; [constructor; auto|done]).
Qed.

Lemma publish_owns fds others a os : owns fds others a os -> owns fds others (publish a) os.
Proof.
  intros [r level n fd p h e st Hp Hf|r level n fd p h e st Hp|r level n h e t st Ht Hr]; unfold publish; cbn [capture_thread_].
  - by constructor.
  - cbn [read_fd_ child_pid_]. rewrite !Z.eqb_refl. constructor; auto.
  - destruct Ht as [-> | ->]; constructor; auto.
Qed.

Lemma capture_stop_owns fds others exited a os : owns fds others a os ->
  exists n error st, stop exited a os = (mkCapture false 0 n (-1) (-1) false error NoThread, mkOs fds others st) /\
    (leaving (capture_thread_ a) = false -> st = stray os).
Proof.
  intros [r level n fd p h e st Hp Hf|r level n fd p h e st Hp|r level n h e t st Ht Hr]; unfold stop;
    cbn [child_pid_ capture_thread_ running_ level_percent_ frame_count_ read_fd_ frame_handler_ last_error_].
  - rewrite (proj2 (Z.ltb_lt 0 p)) by lia. rewrite kill_child by (cbn; set_solver).
    destruct (leave_owns fds others None exited _ _ (owns_capturing fds others false level n fd p h e st Hp Hf))
      as (_ & _ & a' & -> & Ht & Hr & Hc).
    exists (frame_count_ a'), (last_error_ a'), st. split; [|done]. unfold publish. by rewrite Ht.
  - rewrite (proj2 (Z.ltb_lt 0 p)) by lia. exists n, e, (if bool_decide (p ∈ others) then st else st ++ [p]). split; [|done].
    unfold os_kill. cbn [children]. by case_bool_decide.
  - exists n, e, st. split; [|done]. by destruct Ht as [-> | ->].
Qed.

Lemma capture_start_owns fds others env exited a os : owns fds others a os ->
  (forall pid, forked env = Some pid -> fresh pid (snd (stop exited a os))) ->
  let '(ok, a', os') := start env exited a os in
  owns fds others a' os' /\ stray os' = stray (snd (stop exited a os)) /\
  ok = pipe_ok env && (match forked env with Some _ => true | None => false end) /\
  (ok = false -> last_error_ a' <> []) /\ running_ a' = ok.
Proof.
  intros H He. destruct (capture_stop_owns fds others exited a os H) as (n & e & st & E & _). unfold start. rewrite E in *. clear E H.
  cbn [snd stray] in *. unfold set_error.
  destruct (pipe_ok env); cbn [negb andb]; [|by split; [constructor; auto|]].
  destruct (forked env) as [p|] eqn:Ef.
  - destruct (He p eq_refl) as [Hp Hf]. unfold os_close, os_fork, os_pipe. cbn [open_fds children stray] in *.
    replace (fds + 2 - 1) with (fds + 1) by lia. split; [by constructor|done].
  - unfold os_close, os_pipe. cbn [open_fds children stray]. replace (fds + 2 - 2) with fds by lia.
    by split; [constructor; auto|].
Qed.

(** ** Properties *)

(** In every course of starts and stops of the panel and steps of the capture
    thread, with any system call failing, the capture holds exactly the
    descriptor and the child of its running thread, and nothing otherwise; a
    signal goes to another process only when a start or stop falls between the
    thread's wait for the child and the moment it forgets the pid. *)
Theorem capture_resources fds others b s :
  reaches (initial, mkOs fds others []) b s ->
  open_fds (snd s) = fds + thread_fds (capture_thread_ (fst s)) /\
  children (snd s) = thread_children (capture_thread_ (fst s)) ++ others /\
  (b = true -> stray (snd s) = []).
Proof.
  intros R. enough (H : owns fds others (fst s) (snd s) /\ (b = true -> stray (snd s) = [])).
  { destruct H as [H Hb]. split; [|split; [|exact Hb]]; destruct H; cbn; try lia; try done;
      destruct H as [-> | ->]; cbn; (lia || done). }
  induction R as [|b [a os] env exited _ [Ho Hb] Hf|b [a os] exited _ [Ho Hb]|b [a os] error exited _ [Ho Hb]|b [a os] _ [Ho Hb]];
    cbn [fst snd act] in *.
  - split; [|done]. constructor; auto.
  - destruct (capture_stop_owns fds others exited a os Ho) as (n & e & st & E & Hst).
    pose proof (capture_start_owns fds others env exited a os Ho Hf) as S. rewrite E in S. cbn [snd stray] in S.
    destruct (start env exited a os) as [[ok a'] os']. destruct S as (Ho' & Hs & _). split; [exact Ho'|].
    intros [Hb' Hl%negb_true_iff]%andb_true_iff. cbn [snd]. rewrite Hs, (Hst Hl). by apply Hb.
  - destruct (capture_stop_owns fds others exited a os Ho) as (n & e & st & -> & Hst). cbn [fst snd stray]. split; [constructor; auto|].
    intros [Hb' Hl%negb_true_iff]%andb_true_iff. rewrite (Hst Hl). by apply Hb.
  - destruct (leave_owns fds others error exited a os Ho) as (H1 & H2 & _). rewrite H2. done.
  - split; [by apply publish_owns|exact Hb].
Qed.

(** A start, the end of arecord, and a new start. *)
Definition sample_idle : AssistAudioCapture * Os := (initial, mkOs 10 [55] []).
Definition sample_ended : AssistAudioCapture * Os :=
  act (act (act sample_idle (Start (mkStartEnv true (Some 100) 7 []) (fun _ => true)))
    (Leaves (Some (str "arecord")) (fun i => (i =? 3)%nat))) Publishes.

Lemma capture_resources_witness :
  let s := act sample_ended (Start (mkStartEnv true (Some 101) 7 []) (fun _ => false)) in
  open_fds (snd s) = 10 + 1 /\ children (snd s) = [101] ++ [55] /\ stray (snd s) = [].
Proof.
  assert (R : reaches sample_idle (true && negb (leaving (capture_thread_ (fst sample_idle)))) sample_ended).
  { apply reaches_publishes, reaches_leaves, (reaches_start _ true); [apply reaches_nil|].
    intros pid [= <-]. split; [done|]. vm_compute. set_solver. }
  pose proof (reaches_start _ _ _ (mkStartEnv true (Some 101) 7 []) (fun _ => false) R) as R'.
  destruct (capture_resources 10 [55] _ _ (R' ltac:(intros pid [= <-]; split; [done|vm_compute; set_solver]))) as (H1 & H2 & H3).
  split; [exact H1|]. split; [exact H2|]. by apply H3.
Defined.
End Capture.
