(* ===== verification/AssistRuntime.v ===== *)
(** The assist state machine of main.cpp: the runtime timer, the wake command
    capture, push to talk, the pipeline threads and the results they post, the
    cancel and the new conversation buttons ([assist_runtime_timer_cb],
    [begin_wake_command_capture], [finish_wake_command_capture],
    [start_assist_pipeline], [apply_assist_pipeline_result],
    [assist_ptt_event_cb], ...), and the screens that use the same microphone
    and listener ([create_microphone_screen], [close_microphone_screen],
    [close_assist_screen], [close_settings]).  Labels and geometry of the
    screens are left out; a handler reads the clock once. *)
From S2P Require Import Prelude CString AssistJson AssistAudio Markdown.
From stdpp Require Import list.
#[local] Open Scope Z_scope.

Module AssistRuntime.
Import AssistJson.

(** ** State *)

Inductive AssistOverlayState :=
| ASSIST_OVERLAY_LISTENING | ASSIST_OVERLAY_PROCESSING | ASSIST_OVERLAY_TRANSCRIPT
| ASSIST_OVERLAY_SPEAKING | ASSIST_OVERLAY_DONE | ASSIST_OVERLAY_ERROR.

Record AssistHistoryEntry := mkEntry { entry_transcript : bytes; entry_response : bytes }.

Record AssistPipelineUiResult := mkUiResult { ui_generation : Z; ui_result : AssistPipelineResult; ui_final : bool }.

(** [assist_overlay] and the fields of the overlay that change its behaviour. *)
Record Overlay := mkOverlay {
  visible : bool;
  overlay_state : AssistOverlayState;
  hide_at : Z;
  animation_frozen : bool;
  tts_level : Z;
  response_started_at : Z;
}.

(** The frame handler that was given to [g_assist_audio.start]; the one of the
    microphone screen keeps nothing. *)
Inductive FrameHandler := WakeHandler | PttHandler | MeterHandler.

(** [assist_pcm_samples] and [g_assist_audio]. *)
Record Microphone := mkMicrophone { pcm_samples : list Z; audio_running : bool; frame_handler : FrameHandler }.

Definition keeps_samples (h : FrameHandler) : bool := match h with MeterHandler => false | _ => true end.

(** The microphone runs, and what it gives is kept. *)
Definition recording (m : Microphone) : bool := audio_running m && keeps_samples (frame_handler m).

(** Whether [assist_screen] and [microphone_screen] are there. *)
Record Screens := mkScreens { assist_screen : bool; microphone_screen : bool }.

(** The [assist_wake_*] variables and [g_wake_word_listener]. *)
Record Wake := mkWake {
  wake_pending : bool;
  speech_detected : bool;
  last_voice_at : Z;
  capture_active : bool;
  capture_started_at : Z;
  restart_after : Z;
  listener_running : bool;
}.

Record Conversation := mkConversation {
  current_id : bytes;
  expires_at : Z;
  history : list AssistHistoryEntry;
}.

(** What a pipeline thread was started with. *)
Record Submitted := mkSubmitted { sub_generation : Z; sub_samples : list Z; sub_conversation : bytes }.

(** A pipeline thread: its generation, and whether it has cleared
    [assist_pipeline_running]; it is gone once its final result is posted. *)
Record Thread := mkThread { th_generation : Z; th_ended : bool }.

Record State := mkState {
  pipeline_running : bool;
  generation : Z;
  wake : Wake;
  mic : Microphone;
  conversation : Conversation;
  overlay : Overlay;
  pending_results : list AssistPipelineUiResult;
  threads : list Thread;
  submitted : list Submitted;
  screens : Screens;
}.

Definition set_running (b : bool) (s : State) : State :=
  mkState b (generation s) (wake s) (mic s) (conversation s) (overlay s) (pending_results s) (threads s) (submitted s) (screens s).
Definition next_generation (s : State) : State :=
  mkState (pipeline_running s) (u32 (generation s + 1)) (wake s) (mic s) (conversation s) (overlay s) (pending_results s) (threads s) (submitted s) (screens s).
Definition set_wake (w : Wake) (s : State) : State :=
  mkState (pipeline_running s) (generation s) w (mic s) (conversation s) (overlay s) (pending_results s) (threads s) (submitted s) (screens s).
Definition set_mic (m : Microphone) (s : State) : State :=
  mkState (pipeline_running s) (generation s) (wake s) m (conversation s) (overlay s) (pending_results s) (threads s) (submitted s) (screens s).
Definition set_conversation (c : Conversation) (s : State) : State :=
  mkState (pipeline_running s) (generation s) (wake s) (mic s) c (overlay s) (pending_results s) (threads s) (submitted s) (screens s).
Definition set_overlay (o : Overlay) (s : State) : State :=
  mkState (pipeline_running s) (generation s) (wake s) (mic s) (conversation s) o (pending_results s) (threads s) (submitted s) (screens s).
Definition set_pending (l : list AssistPipelineUiResult) (s : State) : State :=
  mkState (pipeline_running s) (generation s) (wake s) (mic s) (conversation s) (overlay s) l (threads s) (submitted s) (screens s).
Definition set_threads (l : list Thread) (s : State) : State :=
  mkState (pipeline_running s) (generation s) (wake s) (mic s) (conversation s) (overlay s) (pending_results s) l (submitted s) (screens s).
(** [std::thread(...)] *)
Definition submit (x : Submitted) (s : State) : State :=
  mkState (pipeline_running s) (generation s) (wake s) (mic s) (conversation s) (overlay s) (pending_results s)
    (threads s ++ [mkThread (sub_generation x) false]) (submitted s ++ [x]) (screens s).
Definition set_screens (x : Screens) (s : State) : State :=
  mkState (pipeline_running s) (generation s) (wake s) (mic s) (conversation s) (overlay s) (pending_results s) (threads s) (submitted s) x.

Definition set_restart_after (t : Z) (s : State) : State :=
  let w := wake s in
  set_wake (mkWake (wake_pending w) (speech_detected w) (last_voice_at w) (capture_active w) (capture_started_at w) t (listener_running w)) s.
Definition set_capture_active (b : bool) (s : State) : State :=
  let w := wake s in
  set_wake (mkWake (wake_pending w) (speech_detected w) (last_voice_at w) b (capture_started_at w) (restart_after w) (listener_running w)) s.
Definition set_wake_pending (b : bool) (s : State) : State :=
  let w := wake s in
  set_wake (mkWake b (speech_detected w) (last_voice_at w) (capture_active w) (capture_started_at w) (restart_after w) (listener_running w)) s.
Definition set_listener (b : bool) (s : State) : State :=
  let w := wake s in
  set_wake (mkWake (wake_pending w) (speech_detected w) (last_voice_at w) (capture_active w) (capture_started_at w) (restart_after w) b) s.

Definition clear_pcm (s : State) : State := set_mic (mkMicrophone [] (audio_running (mic s)) (frame_handler (mic s))) s.
Definition audio_stop (s : State) : State := set_mic (mkMicrophone (pcm_samples (mic s)) false (frame_handler (mic s))) s.
(** [g_assist_audio.start(handler)] succeeded: *)
Definition audio_started (h : FrameHandler) (s : State) : State := set_mic (mkMicrophone (pcm_samples (mic s)) true h) s.

Definition set_assist_screen (b : bool) (s : State) : State := set_screens (mkScreens b (microphone_screen (screens s))) s.
Definition set_microphone_screen (b : bool) (s : State) : State := set_screens (mkScreens (assist_screen (screens s)) b) s.

(** A [uint32_t] difference, and [static_cast<int32_t>(a - b) >= 0]. *)
Definition since (now t : Z) : Z := u32 (now - t).
Definition reached (now t : Z) : bool := 0 <=? s32 (u32 (now - t)).

(** ** The overlay *)

Definition overlay_set_state (st : AssistOverlayState) (s : State) : State :=
  let o := overlay s in
  set_overlay (mkOverlay (visible o) st 0 match st with ASSIST_OVERLAY_ERROR => true | _ => false end (tts_level o) (response_started_at o)) s.

Definition overlay_set_text (s : State) : State :=
  let o := overlay s in
  if visible o then set_overlay (mkOverlay true (overlay_state o) (hide_at o) false 0 0) s else s.

Definition set_hide_at (t : Z) (s : State) : State :=
  let o := overlay s in
  set_overlay (mkOverlay (visible o) (overlay_state o) t (animation_frozen o) (tts_level o) (response_started_at o)) s.

Definition show_overlay (st : AssistOverlayState) (s : State) : State :=
  let o := overlay s in
  overlay_set_text (overlay_set_state st
    (set_overlay (mkOverlay true (overlay_state o) (hide_at o) (animation_frozen o) (tts_level o) (response_started_at o)) s)).

Definition hide_overlay (s : State) : State :=
  set_overlay (mkOverlay false (overlay_state (overlay s)) 0 false 0 0) s.

Definition overlay_show_transcript (s : State) : State :=
  if visible (overlay s) then
    let s := overlay_set_state ASSIST_OVERLAY_TRANSCRIPT s in
    let o := overlay s in
    set_overlay (mkOverlay (visible o) (overlay_state o) (hide_at o) (animation_frozen o) (tts_level o) 0) s
  else s.

Definition overlay_show_response (now : Z) (s : State) : State :=
  if visible (overlay s) then
    let s := overlay_set_state ASSIST_OVERLAY_SPEAKING s in
    let o := overlay s in
    set_overlay (mkOverlay (visible o) (overlay_state o) (hide_at o) (animation_frozen o) (tts_level o) now) s
  else s.

(** ** The handlers *)

Definition reset_assist_conversation (s : State) : State := set_conversation (mkConversation [] 0 []) s.

Definition start_assist_pipeline (now : Z) (s : State) : State :=
  let c := conversation s in
  let s := if negb (expires_at c =? 0) && reached now (expires_at c) then reset_assist_conversation s else s in
  let s := set_running true s in
  let s := overlay_set_text (overlay_set_state ASSIST_OVERLAY_PROCESSING s) in
  let s := submit (mkSubmitted (generation s) (pcm_samples (mic s)) (current_id (conversation s))) s in
  clear_pcm s.

(** [audio_ok]: whether [g_assist_audio.start] succeeds. *)
Definition begin_wake_command_capture (audio_ok : bool) (now : Z) (s : State) : State :=
  let s := clear_pcm (next_generation s) in
  let w := wake s in
  let s := set_wake (mkWake (wake_pending w) false now true now (restart_after w) (listener_running w)) s in
  let s := show_overlay ASSIST_OVERLAY_LISTENING s in
  let s := audio_stop s in
  if audio_ok then audio_started WakeHandler s
  else
    let s := set_capture_active false s in
    let s := overlay_set_text (overlay_set_state ASSIST_OVERLAY_ERROR s) in
    set_restart_after (u32 (now + 3000)) (set_hide_at (u32 (now + 10000)) s).

Definition finish_wake_command_capture (submit : bool) (now : Z) (s : State) : State :=
  let s := audio_stop (set_capture_active false s) in
  if submit && (3200 <=? zlen (pcm_samples (mic s))) then start_assist_pipeline now s
  else
    let s := clear_pcm s in
    let s := overlay_set_text (overlay_set_state ASSIST_OVERLAY_ERROR s) in
    set_restart_after (u32 (now + 2500)) (set_hide_at (u32 (now + 10000)) s).

Definition ends_with_question (t : bytes) : bool := match last t with Some c => c =? 63 | None => false end.

Definition apply_success (audio_ok : bool) (now : Z) (r : AssistPipelineResult) (final : bool) (s : State) : State :=
  let plain_response := Markdown.assist_markdown_plain_text (response r) in
  let s :=
    if final && negb (is_empty (transcript r)) then
      let c := conversation s in
      let h := history c ++ [mkEntry (transcript r) plain_response] in
      let h := drop (length h - 6) h in
      let conversational := continue_conversation r || bytes_eqb (response_type r) (str "query_answer") || ends_with_question plain_response in
      set_conversation (mkConversation (current_id c) (u32 (now + (if conversational then 45000 else 15000))) h) s
    else s in
  let s := if response_started_at (overlay s) =? 0 then overlay_show_response now s else s in
  let ask_followup := continue_conversation r || ends_with_question plain_response in
  if final && ask_followup then begin_wake_command_capture audio_ok now s
  else
    let s := overlay_set_state ASSIST_OVERLAY_DONE s in
    let o := overlay s in
    set_overlay (mkOverlay (visible o) (overlay_state o) (u32 (now + 10000)) true 0 (response_started_at o)) s.

Definition apply_assist_pipeline_result (audio_ok : bool) (now : Z) (data : AssistPipelineUiResult) (s : State) : State :=
  if ui_generation data =? generation s then
    let r := ui_result data in
    let s :=
      if is_empty (conversation_id r) then s
      else set_conversation (mkConversation (conversation_id r) (expires_at (conversation s)) (history (conversation s))) s in
    if bytes_eqb (stage r) (str "tts_level") then
      let o := overlay s in
      set_overlay (mkOverlay (visible o) (overlay_state o) (hide_at o) (animation_frozen o) (Z.max 0 (Z.min 100 (audio_level r)))
        (response_started_at o)) s
    else if bytes_eqb (stage r) (str "transcript") then overlay_show_transcript s
    else if bytes_eqb (stage r) (str "playback") && negb (ui_final data) then overlay_show_response now s
    else if success r then apply_success audio_ok now r (ui_final data) s
    else
      let s := show_overlay ASSIST_OVERLAY_ERROR s in
      if ui_final data then set_hide_at (u32 (now + 10000)) s else s
  else s.

Definition apply_next_assist_pipeline_result (audio_ok : bool) (now : Z) (s : State) : State :=
  match pending_results s with
  | [] => s
  | r :: rest => apply_assist_pipeline_result audio_ok now r (set_pending rest s)
  end.

(** The settings [start_wake_word_listener] looks at, whether the files of the
    detector are there (or can be downloaded) and whether its processes start. *)
Record Panel := mkPanel {
  mic_wake_enabled : bool;
  g_screen_blanked : bool;
  mic_mute_on_blank : bool;
  has_credentials : bool;
  assets_ok : bool;
  listener_starts : bool;
}.

Definition start_wake_word_listener (p : Panel) (s : State) : State * bool :=
  if negb (mic_wake_enabled p) then (s, false)
  else if g_screen_blanked p && mic_mute_on_blank p then (s, false)
  else if negb (has_credentials p) then (s, false)
  else if negb (assets_ok p) then (s, false)
  else (set_listener (listener_starts p) s, listener_starts p).

Definition assist_runtime_timer_cb (p : Panel) (audio_ok : bool) (now : Z) (s : State) : State :=
  let s := apply_next_assist_pipeline_result audio_ok now s in
  if wake_pending (wake s) && negb (pipeline_running s) && negb (capture_active (wake s)) && negb (audio_running (mic s)) then
    begin_wake_command_capture audio_ok now (set_listener false (set_wake_pending false s))
  else if capture_active (wake s) then
    let elapsed := since now (capture_started_at (wake s)) in
    let speech := speech_detected (wake s) in
    let silence := since now (last_voice_at (wake s)) in
    if (speech && (1200 <=? elapsed) && (1100 <=? silence)) || (10000 <=? elapsed) then finish_wake_command_capture speech now s
    else if negb speech && (5000 <=? elapsed) then finish_wake_command_capture false now s
    else s
  else if negb (pipeline_running s) && negb (audio_running (mic s)) && negb (listener_running (wake s)) &&
          reached now (restart_after (wake s)) then
    let '(s, started) := start_wake_word_listener p s in
    if started then s else set_restart_after (u32 (now + 5000)) s
  else s.

(** The frame handlers. *)
Definition max_samples (h : FrameHandler) : Z := match h with WakeHandler => 16000 * 10 | PttHandler => 16000 * 15 | MeterHandler => 0 end.

Definition on_frame (samples : list Z) (now : Z) (s : State) : State :=
  let m := mic s in
  let s :=
    if keeps_samples (frame_handler m) && (zlen (pcm_samples m) + zlen samples <=? max_samples (frame_handler m))
    then set_mic (mkMicrophone (pcm_samples m ++ samples) (audio_running m) (frame_handler m)) s else s in
  match frame_handler m with
  | PttHandler | MeterHandler => s
  | WakeHandler =>
      if 900 <=? AssistAudio.peak_of samples then
        let w := wake s in
        set_wake (mkWake (wake_pending w) true now (capture_active w) (capture_started_at w) (restart_after w) (listener_running w)) s
      else s
  end.

Definition assist_ptt_pressed (audio_ok : bool) (now : Z) (s : State) : State :=
  if pipeline_running s then s
  else
    let s := set_restart_after (u32 (now + 1000)) (set_listener false s) in
    let s := clear_pcm (next_generation s) in
    let s := show_overlay ASSIST_OVERLAY_LISTENING s in
    let s := audio_stop s in
    if audio_ok then audio_started PttHandler s
    else set_hide_at (u32 (now + 10000)) (overlay_set_text (overlay_set_state ASSIST_OVERLAY_ERROR s)).

Definition assist_ptt_released (now : Z) (s : State) : State :=
  let s := audio_stop s in
  if zlen (pcm_samples (mic s)) <? 3200 then
    set_hide_at (u32 (now + 10000)) (overlay_set_text (overlay_set_state ASSIST_OVERLAY_ERROR s))
  else start_assist_pipeline now s.

Definition assist_overlay_cancel (now : Z) (s : State) : State :=
  hide_overlay (set_restart_after (u32 (now + 1000)) (audio_stop (set_capture_active false (next_generation s)))).

Definition assist_new_conversation (s : State) : State :=
  if pipeline_running s then s else reset_assist_conversation s.

Definition create_assist_screen (s : State) : State :=
  if assist_screen (screens s) then s else set_assist_screen true s.

Definition close_assist_screen (s : State) : State :=
  if assist_screen (screens s) then
    set_assist_screen false (audio_stop (set_pending [] (hide_overlay (next_generation s))))
  else s.

Definition assist_level_timer_cb (audio_ok : bool) (now : Z) (s : State) : State :=
  if assist_screen (screens s) then apply_next_assist_pipeline_result audio_ok now s else s.

(** The screen shows the level of the microphone. *)
Definition create_microphone_screen (audio_ok : bool) (s : State) : State :=
  if microphone_screen (screens s) then s
  else
    let s := audio_stop (set_listener false s) in
    let s := if audio_ok then audio_started MeterHandler s else s in
    set_microphone_screen true s.

(** Also when the screen is not there. *)
Definition close_microphone_screen (p : Panel) (s : State) : State :=
  fst (start_wake_word_listener p (set_microphone_screen false (audio_stop s))).

(** The switch of the wake word on the microphone screen. *)
Definition mic_toggle_wake (enabled : bool) (s : State) : State := if enabled then s else set_listener false s.

(** What [close_settings] closes of these. *)
Definition close_settings (p : Panel) (s : State) : State := close_assist_screen (close_microphone_screen p s).

Definition assist_overlay_timer (now : Z) (s : State) : State :=
  if visible (overlay s) && negb (hide_at (overlay s) =? 0) && reached now (hide_at (overlay s)) then hide_overlay s else s.

(** ** The steps *)

Inductive Event :=
| Tick (p : Panel) (audio_ok : bool) (now : Z)
| OverlayTick (now : Z)
| Frame (samples : list Z) (now : Z)                 (* the capture thread *)
| AudioEnds                                          (* arecord ends *)
| WakeWord                                           (* the listener thread *)
| ListenerEnds
| Progress (i : nat) (r : AssistPipelineResult)      (* the [i]-th pipeline thread posts a progress result, *)
| Ends (i : nat)                                     (* clears [assist_pipeline_running] *)
| Final (i : nat) (r : AssistPipelineResult)         (* and posts its final result *)
| PttPressed (audio_ok : bool) (now : Z)
| PttReleased (now : Z)
| Cancel (now : Z)
| NewConversation
| OpenAssist
| CloseAssist
| LevelTick (audio_ok : bool) (now : Z)
| OpenMicrophone (audio_ok : bool)
| CloseMicrophone (p : Panel)
| ToggleWake (enabled : bool)
| CloseSettings (p : Panel).

Definition step (s : State) (e : Event) : State :=
  match e with
  | Tick p audio_ok now => assist_runtime_timer_cb p audio_ok now s
  | OverlayTick now => assist_overlay_timer now s
  | Frame samples now => if audio_running (mic s) then on_frame samples now s else s
  | AudioEnds => audio_stop s
  | WakeWord => if listener_running (wake s) then set_wake_pending true s else s
  | ListenerEnds => set_listener false s
  | Progress i r =>
      match threads s !! i with
      | Some (mkThread g false) => set_pending (pending_results s ++ [mkUiResult g r false]) s
      | _ => s
      end
  | Ends i =>
      match threads s !! i with
      | Some (mkThread g false) => set_running false (set_threads (<[i:=mkThread g true]> (threads s)) s)
      | _ => s
      end
  | Final i r =>
      match threads s !! i with
      | Some (mkThread g true) =>
          set_pending (pending_results s ++ [mkUiResult g r true]) (set_threads (delete i (threads s)) s)
      | _ => s
      end
  | PttPressed audio_ok now => assist_ptt_pressed audio_ok now s
  | PttReleased now => assist_ptt_released now s
  | Cancel now => assist_overlay_cancel now s
  | NewConversation => assist_new_conversation s
  | OpenAssist => create_assist_screen s
  | CloseAssist => close_assist_screen s
  | LevelTick audio_ok now => assist_level_timer_cb audio_ok now s
  | OpenMicrophone audio_ok => create_microphone_screen audio_ok s
  | CloseMicrophone p => close_microphone_screen p s
  | ToggleWake enabled => mic_toggle_wake enabled s
  | CloseSettings p => close_settings p s
  end.

Definition initial : State :=
  mkState false 0 (mkWake false false 0 false 0 0 false) (mkMicrophone [] false WakeHandler) (mkConversation [] 0 [])
    (mkOverlay false ASSIST_OVERLAY_LISTENING 0 false 0 0) [] [] [] (mkScreens false false).

Definition run (events : list Event) : State := fold_left step events initial.

(** ** One pipeline at a time *)

(** The part of the state that decides what can start. *)
Record Core := mkCore {
  c_running : bool; c_generation : Z; c_pcm : list Z; c_recording : bool;
  c_threads : list Thread; c_pending : list AssistPipelineUiResult;
}.

Definition core (s : State) : Core :=
  mkCore (pipeline_running s) (generation s) (pcm_samples (mic s)) (recording (mic s)) (threads s) (pending_results s).

Create Rewrite HintDb core.

Lemma core_set_wake w s : core (set_wake w s) = core s. Proof. done. Qed.
Lemma core_set_overlay o s : core (set_overlay o s) = core s. Proof. done. Qed.
Lemma core_set_conversation c s : core (set_conversation c s) = core s. Proof. done. Qed.
Lemma core_overlay_set_state st s : core (overlay_set_state st s) = core s. Proof. done. Qed.
Lemma core_overlay_set_text s : core (overlay_set_text s) = core s.
Proof. unfold overlay_set_text. by destruct (visible (overlay s)). Qed.
Lemma core_hide_at t s : core (set_hide_at t s) = core s. Proof. done. Qed.
Lemma core_restart t s : core (set_restart_after t s) = core s. Proof. done. Qed.
Lemma core_capture b s : core (set_capture_active b s) = core s. Proof. done. Qed.
Lemma core_listener b s : core (set_listener b s) = core s. Proof. done. Qed.
Lemma core_wake_pending b s : core (set_wake_pending b s) = core s. Proof. done. Qed.
Lemma core_assist_screen b s : core (set_assist_screen b s) = core s. Proof. done. Qed.
Lemma core_microphone_screen b s : core (set_microphone_screen b s) = core s. Proof. done. Qed.
Lemma core_hide s : core (hide_overlay s) = core s. Proof. done. Qed.
#[local] Hint Rewrite core_set_wake core_set_overlay core_set_conversation core_overlay_set_state core_overlay_set_text
  core_hide_at core_restart core_capture core_listener core_wake_pending core_assist_screen
  core_microphone_screen core_hide : core.

Lemma core_show_overlay st s : core (show_overlay st s) = core s.
Proof. unfold show_overlay. by autorewrite with core. Qed.
Lemma core_transcript s : core (overlay_show_transcript s) = core s.
Proof. unfold overlay_show_transcript. by destruct (visible (overlay s)). Qed.
Lemma core_response now s : core (overlay_show_response now s) = core s.
Proof. unfold overlay_show_response. by destruct (visible (overlay s)). Qed.
Lemma core_reset s : core (reset_assist_conversation s) = core s. Proof. done. Qed.
#[local] Hint Rewrite core_show_overlay core_transcript core_response core_reset : core.

Lemma core_audio_stop s : core (audio_stop s) =
  mkCore (c_running (core s)) (c_generation (core s)) (c_pcm (core s)) false (c_threads (core s)) (c_pending (core s)).
Proof. done. Qed.
Lemma core_audio_started h s : core (audio_started h s) =
  mkCore (c_running (core s)) (c_generation (core s)) (c_pcm (core s)) (keeps_samples h) (c_threads (core s)) (c_pending (core s)).
Proof. done. Qed.
Lemma core_clear s : core (clear_pcm s) =
  mkCore (c_running (core s)) (c_generation (core s)) [] (c_recording (core s)) (c_threads (core s)) (c_pending (core s)).
Proof. done. Qed.
Lemma core_next s : core (next_generation s) =
  mkCore (c_running (core s)) (u32 (c_generation (core s) + 1)) (c_pcm (core s)) (c_recording (core s)) (c_threads (core s)) (c_pending (core s)).
Proof. done. Qed.

Lemma core_submit x s : core (submit x s) =
  mkCore (c_running (core s)) (c_generation (core s)) (c_pcm (core s)) (c_recording (core s))
    (c_threads (core s) ++ [mkThread (sub_generation x) false]) (c_pending (core s)).
Proof. done. Qed.

(** A recording begins. *)
Definition record_core (ok : bool) (c : Core) : Core :=
  mkCore (c_running c) (u32 (c_generation c + 1)) [] ok (c_threads c) (c_pending c).

(** A pipeline starts from what was recorded. *)
Definition start_core (c : Core) : Core :=
  mkCore true (c_generation c) [] (c_recording c) (c_threads c ++ [mkThread (c_generation c) false]) (c_pending c).

Lemma core_begin ok now s : core (begin_wake_command_capture ok now s) = record_core ok (core s).
Proof.
  unfold begin_wake_command_capture. destruct ok; autorewrite with core;
    rewrite ?core_audio_started, ?core_audio_stop; autorewrite with core; by rewrite core_clear, core_next.
Qed.

Lemma core_start now s : core (start_assist_pipeline now s) = start_core (core s).
Proof.
  unfold start_assist_pipeline. cbv zeta.
  assert (G : forall s1, core s1 = core s ->
    let s2 := overlay_set_text (overlay_set_state ASSIST_OVERLAY_PROCESSING (set_running true s1)) in
    core (clear_pcm (submit (mkSubmitted (generation s2) (pcm_samples (mic s2)) (current_id (conversation s2))) s2)) = start_core (core s)).
  { intros s1 E s2. assert (E2 : core s2 = core (set_running true s1)) by (unfold s2; by autorewrite with core).
    rewrite core_clear, core_submit. change (generation s2) with (c_generation (core s2)). rewrite E2, <- E. done. }
  case_if; apply G; done.
Qed.

Lemma core_finish b now s :
  core (finish_wake_command_capture b now s) =
  if b && (3200 <=? zlen (c_pcm (core s))) then start_core (core (audio_stop s)) else core (clear_pcm (audio_stop s)).
Proof.
  unfold finish_wake_command_capture. cbv zeta.
  change (pcm_samples (mic (audio_stop (set_capture_active false s)))) with (c_pcm (core s)). case_if.
  - rewrite core_start. by rewrite !core_audio_stop, core_capture.
  - autorewrite with core. by rewrite !core_clear, !core_audio_stop, core_capture.
Qed.

Definition running_threads (c : Core) : list Thread := List.filter (fun t => negb (th_ended t)) (c_threads c).

(** At most one thread has not ended; while there is one, nothing is recorded
    and nothing final of the current generation is on its way; and what is
    recorded belongs to a generation of its own. *)
Record Inv (n : Z) (c : Core) : Prop := mkInv {
  inv_gen : 0 <= c_generation c <= n;
  inv_threads : Forall (fun t => th_generation t <= c_generation c) (c_threads c);
  inv_pending : Forall (fun r => ui_generation r <= c_generation c) (c_pending c);
  inv_single : 
    (running_threads c = [] /\ c_running c = false) \/
    ((exists t, running_threads c = [t]) /\ c_running c = true /\ c_pcm c = [] /\ c_recording c = false /\
     Forall (fun t => th_ended t = true -> th_generation t < c_generation c) (c_threads c) /\
     Forall (fun r => ui_final r = true -> ui_generation r < c_generation c) (c_pending c));
  inv_fresh : c_pcm c <> [] \/ c_recording c = true ->
    Forall (fun t => th_generation t < c_generation c) (c_threads c) /\
    Forall (fun r => ui_generation r < c_generation c) (c_pending c);
}.

Lemma inv_mono n m c : Inv n c -> n <= m -> Inv m c.
Proof. intros [? ? ? ? ?] H. constructor; auto. lia. Qed.

Lemma inv_idle n c : Inv n c -> c_pcm c <> [] \/ c_recording c = true -> running_threads c = [] /\ c_running c = false.
Proof.
  intros [_ _ _ [H|(_ & _ & Hp & Ha & _)] _] R; [exact H|]. rewrite Hp, Ha in R. destruct R as [R|R]; [done|discriminate].
Qed.

Ltac all_lists := repeat match goal with
  | H : Forall _ (_ :: _) |- _ => apply Forall_cons in H as [? H]
  | H : Forall _ (_ ++ _) |- _ => apply Forall_app in H as [? H]
  end.

Lemma forall_weaken {A} (P Q : A -> Prop) l : Forall P l -> (forall x, P x -> Q x) -> Forall Q l.
Proof. intros H K. eapply Forall_impl; [exact H|exact K]. Qed.

Lemma inv_record n c ok : Inv n c -> c_running c = false -> n + 1 < 2 ^ 32 -> Inv (n + 1) (record_core ok c).
Proof.
  intros [Hg Ht Hp Hs _] Hr Hn. unfold record_core, u32.
  assert (Eg : (c_generation c + 1) mod 2 ^ 32 = c_generation c + 1) by (apply Z.mod_small; lia). rewrite Eg.
  destruct Hs as [[Hs _]|(_ & Hs & _)]; [|congruence].
  constructor; cbn [c_running c_generation c_pcm c_recording c_threads c_pending]; [lia| | | |].
  - eapply forall_weaken; [exact Ht|]. cbn beta. lia.
  - eapply forall_weaken; [exact Hp|]. cbn beta. lia.
  - left. split; [exact Hs|exact Hr].
  - intros _. split; (eapply forall_weaken; [eassumption|]); cbn beta; lia.
Qed.

Lemma inv_stop n c : Inv n c -> Inv n (mkCore (c_running c) (c_generation c) (c_pcm c) false (c_threads c) (c_pending c)).
Proof.
  intros [Hg Ht Hp Hs Hf]. constructor; cbn [c_running c_generation c_pcm c_recording c_threads c_pending]; auto.
  - destruct Hs as [Hs|(Hs & ? & ? & ? & ? & ?)]; [by left|right]. repeat split; auto.
  - intros [H|H]; [auto|discriminate].
Qed.

Lemma inv_clear n c : Inv n c -> Inv n (mkCore (c_running c) (c_generation c) [] (c_recording c) (c_threads c) (c_pending c)).
Proof.
  intros [Hg Ht Hp Hs Hf]. constructor; cbn [c_running c_generation c_pcm c_recording c_threads c_pending]; auto.
  - destruct Hs as [Hs|(Hs & ? & ? & ? & ? & ?)]; [by left|right]. repeat split; auto.
  - intros [H|H]; [done|auto].
Qed.

Lemma inv_start n c : Inv n c -> c_pcm c <> [] -> c_recording c = false -> Inv n (start_core c).
Proof.
  intros H Hp Ha. destruct (inv_idle n c H (or_introl Hp)) as [Hr _]. destruct H as [Hg Ht Hpe _ Hf].
  destruct (Hf (or_introl Hp)) as [Ft Fp].
  constructor; cbn [start_core c_running c_generation c_pcm c_recording c_threads c_pending]; [lia| |exact Hpe| |].
  - apply Forall_app. split; [exact Ht|]. constructor; [cbn; lia|constructor].
  - right. split; [exists (mkThread (c_generation c) false); unfold running_threads, start_core in *; cbn [c_threads]; rewrite List.filter_app, Hr; done|].
    repeat split; auto.
    + apply Forall_app. split; [eapply forall_weaken; [exact Ft|]; auto|]. constructor; [discriminate|constructor].
    + eapply forall_weaken; [exact Fp|]. auto.
  - intros [?|?]; [done|congruence].
Qed.

Lemma inv_pop n c r rest : Inv n c -> c_pending c = r :: rest ->
  Inv n (mkCore (c_running c) (c_generation c) (c_pcm c) (c_recording c) (c_threads c) rest) /\
  (ui_final r = true -> ui_generation r = c_generation c -> c_running c = false).
Proof.
  intros [Hg Ht Hp Hs Hf] E. rewrite E in *. split.
  - apply Forall_cons in Hp as [? Hp].
    constructor; cbn [c_running c_generation c_pcm c_recording c_threads c_pending]; auto.
    + destruct Hs as [Hs|(Hs & ? & ? & ? & ? & Hq)]; [by left|right]. apply Forall_cons in Hq as [_ Hq]. repeat split; auto.
    + intros H'. destruct (Hf H') as [? Hq]. apply Forall_cons in Hq as [_ Hq]. auto.
  - intros Hfin Hgen. destruct Hs as [[_ Hs]|(_ & _ & _ & _ & _ & Hq)]; [exact Hs|].
    apply Forall_cons in Hq as [Hq _]. specialize (Hq Hfin). lia.
Qed.

(** More samples while the microphone runs. *)
Lemma inv_frames n c samples : Inv n c -> c_recording c = true ->
  Inv n (mkCore (c_running c) (c_generation c) (c_pcm c ++ samples) true (c_threads c) (c_pending c)).
Proof.
  intros H Ha. destruct (inv_idle n c H (or_intror Ha)) as [Hr Hn]. destruct H as [Hg Ht Hp _ Hf].
  constructor; cbn [c_running c_generation c_pcm c_recording c_threads c_pending]; auto.
Qed.

(** A new generation with the microphone off. *)
Lemma inv_next n c pending : Inv n c -> n + 1 < 2 ^ 32 -> incl pending (c_pending c) ->
  Inv (n + 1) (mkCore (c_running c) (u32 (c_generation c + 1)) (c_pcm c) false (c_threads c) pending).
Proof.
  intros [Hg Ht Hp Hs Hf] Hn Hsub. unfold u32.
  assert (Eg : (c_generation c + 1) mod 2 ^ 32 = c_generation c + 1) by (apply Z.mod_small; lia). rewrite Eg.
  assert (Hp' : Forall (fun r => ui_generation r <= c_generation c) pending) by (rewrite List.Forall_forall in Hp |- *; auto).
  constructor; cbn [c_running c_generation c_pcm c_recording c_threads c_pending]; [lia| | | |].
  - eapply forall_weaken; [exact Ht|]. cbn beta. lia.
  - eapply forall_weaken; [exact Hp'|]. cbn beta. lia.
  - destruct Hs as [Hs|(Hs & ? & ? & ? & ? & Hq)]; [by left|right]. repeat split; auto.
    + eapply forall_weaken; [exact Ht|]. cbn beta. lia.
    + eapply forall_weaken; [exact Hp'|]. cbn beta. lia.
  - intros _. split; (eapply forall_weaken; [eassumption|]); cbn beta; lia.
Qed.

(** A thread moves on. *)
Lemma split_thread (l : list Thread) i t : l !! i = Some t ->
  l = take i l ++ t :: drop (S i) l /\ delete i l = take i l ++ drop (S i) l /\
  forall u, <[i:=u]> l = take i l ++ u :: drop (S i) l.
Proof.
  intros H. split; [symmetry; by apply take_drop_middle|]. split; [apply delete_take_drop|].
  intros u. apply insert_take_drop. by apply lookup_lt_Some in H.
Qed.

Lemma inv_progress n c i g r : Inv n c -> c_threads c !! i = Some (mkThread g false) ->
  Inv n (mkCore (c_running c) (c_generation c) (c_pcm c) (c_recording c) (c_threads c) (c_pending c ++ [mkUiResult g r false])).
Proof.
  intros [Hg Ht Hp Hs Hf] Hi. pose proof (proj1 (Forall_lookup _ _) Ht i _ Hi) as Hgi. cbn in Hgi.
  constructor; cbn [c_running c_generation c_pcm c_recording c_threads c_pending]; auto.
  - apply Forall_app. split; [exact Hp|by repeat constructor].
  - destruct Hs as [Hs|(Hs & ? & ? & ? & ? & Hq)]; [by left|right]. repeat split; auto.
    apply Forall_app. split; [exact Hq|]. constructor; [discriminate|constructor].
  - intros H. destruct (Hf H) as [F1 F2]. split; [exact F1|]. apply Forall_app. split; [exact F2|].
    pose proof (proj1 (Forall_lookup _ _) F1 i _ Hi). by repeat constructor.
Qed.

Lemma inv_ends n c i g : Inv n c -> c_threads c !! i = Some (mkThread g false) ->
  Inv n (mkCore false (c_generation c) (c_pcm c) (c_recording c) (<[i:=mkThread g true]> (c_threads c)) (c_pending c)).
Proof.
  intros [Hg Ht Hp Hs Hf] Hi. destruct (split_thread _ _ _ Hi) as (E & _ & Ei).
  assert (Hr : running_threads c = List.filter (fun t => negb (th_ended t)) (take i (c_threads c)) ++
     mkThread g false :: List.filter (fun t => negb (th_ended t)) (drop (S i) (c_threads c))).
  { unfold running_threads. rewrite E at 1. by rewrite List.filter_app. }
  assert (W : forall P : Thread -> Prop, Forall P (c_threads c) -> P (mkThread g true) -> Forall P (<[i:=mkThread g true]> (c_threads c))).
  { intros P HP Pt. by apply Forall_insert. }
  pose proof (proj1 (Forall_lookup _ _) Ht i _ Hi) as Hgi. cbn in Hgi.
  constructor; cbn [c_running c_generation c_pcm c_recording c_threads c_pending]; auto.
  - left. split; [|done]. destruct Hs as [[Hs _]|((t & Hs) & _)]; rewrite Hs in Hr; [by destruct (List.filter _ (take i (c_threads c)))|].
    unfold running_threads. cbn [c_threads]. rewrite Ei, List.filter_app. cbn [List.filter th_ended negb].
    destruct (List.filter _ (take i (c_threads c))) as [|x l1]; [|destruct l1; discriminate].
    cbn [app] in *. injection Hr as _ <-. done.
  - intros H. destruct (Hf H) as [F1 F2]. split; [|exact F2]. apply W; [exact F1|].
    exact (proj1 (Forall_lookup _ _) F1 i _ Hi).
Qed.

Lemma inv_final n c i g r : Inv n c -> c_threads c !! i = Some (mkThread g true) ->
  Inv n (mkCore (c_running c) (c_generation c) (c_pcm c) (c_recording c) (delete i (c_threads c)) (c_pending c ++ [mkUiResult g r true])).
Proof.
  intros [Hg Ht Hp Hs Hf] Hi. destruct (split_thread _ _ _ Hi) as (E & Ed & _).
  assert (Hr : running_threads (mkCore (c_running c) (c_generation c) (c_pcm c) (c_recording c) (delete i (c_threads c)) (c_pending c)) = running_threads c).
  { unfold running_threads. cbn [c_threads]. rewrite Ed. rewrite E at 3. by rewrite !List.filter_app. }
  assert (W : forall P : Thread -> Prop, Forall P (c_threads c) -> Forall P (delete i (c_threads c))).
  { intros P HP. by apply Forall_delete. }
  pose proof (proj1 (Forall_lookup _ _) Ht i _ Hi) as Hgi. cbn in Hgi.
  constructor; cbn [c_running c_generation c_pcm c_recording c_threads c_pending]; auto.
  - apply Forall_app. split; [exact Hp|by repeat constructor].
  - unfold running_threads in *. cbn [c_threads] in *. rewrite Hr.
    destruct Hs as [Hs|(Hs & ? & ? & ? & Hq1 & Hq)]; [by left|right]. repeat split; auto.
    apply Forall_app. split; [exact Hq|]. constructor; [|constructor]. intros _.
    exact (proj1 (Forall_lookup _ _) Hq1 i _ Hi eq_refl).
  - intros H. destruct (Hf H) as [F1 F2]. split; [by apply W|]. apply Forall_app. split; [exact F2|].
    pose proof (proj1 (Forall_lookup _ _) F1 i _ Hi). by repeat constructor.
Qed.

(** ** The handlers on the core *)

Lemma core_success ok now r final s :
  core (apply_success ok now r final s) = core s \/
  (core (apply_success ok now r final s) = record_core ok (core s) /\ final = true).
Proof.
  unfold apply_success. cbv zeta.
  set (s1 := if final && negb (is_empty (transcript r)) then set_conversation _ s else s).
  assert (E1 : core s1 = core s) by (unfold s1; by case_if).
  set (s2 := if response_started_at (overlay s1) =? 0 then overlay_show_response now s1 else s1).
  assert (E2 : core s2 = core s) by (unfold s2; case_if; [by rewrite core_response|done]).
  destruct final; cbn [andb]; [|left; by autorewrite with core].
  case_if; [right; by rewrite core_begin, E2|left; by autorewrite with core].
Qed.

Lemma core_apply ok now d s :
  core (apply_assist_pipeline_result ok now d s) = core s \/
  (core (apply_assist_pipeline_result ok now d s) = record_core ok (core s) /\ ui_final d = true /\ ui_generation d = generation s).
Proof.
  unfold apply_assist_pipeline_result. destruct (Z.eqb_spec (ui_generation d) (generation s)) as [Eg|]; [|by left]. cbv zeta.
  set (s1 := if is_empty (conversation_id (ui_result d)) then s else set_conversation _ s).
  assert (E1 : core s1 = core s) by (unfold s1; by case_if).
  repeat case_if; try (left; autorewrite with core; exact E1).
  destruct (core_success ok now (ui_result d) (ui_final d) s1) as [->|[-> ?]]; [by left|right]. by rewrite E1.
Qed.

Lemma inv_next_result n ok now s : Inv n (core s) -> n + 1 < 2 ^ 32 ->
  Inv (n + 1) (core (apply_next_assist_pipeline_result ok now s)).
Proof.
  intros H Hn. unfold apply_next_assist_pipeline_result. destruct (pending_results s) as [|r rest] eqn:E; [eapply inv_mono; [exact H|lia]|].
  destruct (inv_pop n (core s) r rest H E) as [Hp Hr].
  change (mkCore _ _ _ _ _ rest) with (core (set_pending rest s)) in Hp.
  destruct (core_apply ok now r (set_pending rest s)) as [->|(-> & Hf & Hg)]; [eapply inv_mono; [exact Hp|lia]|].
  apply inv_record; [exact Hp|by apply Hr|exact Hn].
Qed.

Lemma inv_finish n b now s : Inv n (core s) -> Inv n (core (finish_wake_command_capture b now s)).
Proof.
  intros H. rewrite core_finish. pose proof (inv_stop n _ H) as Hs. change (mkCore _ _ _ false _ _) with (core (audio_stop s)) in Hs.
  case_if; [|rewrite core_clear; by apply inv_clear].
  apply inv_start; [exact Hs| |done]. to_prop. change (c_pcm (core (audio_stop s))) with (c_pcm (core s)).
  destruct (c_pcm (core s)); [cbn [length] in *; lia|done].
Qed.

Lemma core_start_listener p s : core (fst (start_wake_word_listener p s)) = core s.
Proof. unfold start_wake_word_listener. by repeat case_if. Qed.

Lemma inv_tick n p ok now s : Inv n (core s) -> n + 2 < 2 ^ 32 -> Inv (n + 2) (core (assist_runtime_timer_cb p ok now s)).
Proof.
  intros H Hn. unfold assist_runtime_timer_cb. cbv zeta.
  pose proof (inv_next_result n ok now s H ltac:(lia)) as H1.
  set (s1 := apply_next_assist_pipeline_result ok now s) in *. replace (n + 2) with (n + 1 + 1) by lia.
  assert (H2 : Inv (n + 1 + 1) (core s1)) by (eapply inv_mono; [exact H1|lia]).
  repeat case_if; try exact H2; try (by apply inv_finish).
  - rewrite core_begin. autorewrite with core. to_prop. apply inv_record; [exact H1|done|lia].
  - destruct (start_wake_word_listener p s1) as [s2 started] eqn:El.
    pose proof (core_start_listener p s1) as E2. rewrite El in E2. cbn [fst] in E2.
    case_if; autorewrite with core; by rewrite E2.
Qed.

Lemma inv_close_assist n s : Inv n (core s) -> n + 1 < 2 ^ 32 -> Inv (n + 1) (core (close_assist_screen s)).
Proof.
  intros H Hn. unfold close_assist_screen. case_if; [|eapply inv_mono; [exact H|lia]]. autorewrite with core. rewrite core_audio_stop.
  apply (inv_next n (core s) []); [exact H|lia|apply List.incl_nil_l].
Qed.

Lemma inv_close_microphone n p s : Inv n (core s) -> Inv n (core (close_microphone_screen p s)).
Proof. intros H. unfold close_microphone_screen. rewrite core_start_listener. autorewrite with core. exact (inv_stop _ _ H). Qed.

Lemma inv_step n s e : Inv n (core s) -> n + 2 < 2 ^ 32 -> Inv (n + 2) (core (step s e)).
Proof.
  intros H Hn. assert (H2 : Inv (n + 2) (core s)) by (eapply inv_mono; [exact H|lia]).
  destruct e; cbn [step].
  - by apply inv_tick.
  - unfold assist_overlay_timer. case_if; [by rewrite core_hide|exact H2].
  - destruct (audio_running (mic s)) eqn:Ha; [|exact H2]. unfold on_frame. cbv zeta.
    set (s1 := if _ && _ then set_mic _ s else s).
    assert (H1 : Inv (n + 2) (core s1)).
    { unfold s1. destruct (keeps_samples (frame_handler (mic s))) eqn:Hk; [|exact H2]. case_if; [|exact H2].
      assert (Hr : recording (mic s) = true) by (unfold recording; by rewrite Ha, Hk).
      pose proof (inv_frames (n + 2) (core s) samples H2 Hr) as Hf.
      replace (core _) with (mkCore (c_running (core s)) (c_generation (core s)) (c_pcm (core s) ++ samples) true (c_threads (core s)) (c_pending (core s)));
        [exact Hf|]. unfold core, recording. cbn. by rewrite Ha, Hk. }
    destruct (frame_handler (mic s)); try exact H1. case_if; [|exact H1]. by autorewrite with core.
  - exact (inv_stop _ _ H2).
  - case_if; [by autorewrite with core|exact H2].
  - by autorewrite with core.
  - destruct (threads s !! i) as [[g []]|] eqn:E; try exact H2. exact (inv_progress _ (core s) i g r H2 E).
  - destruct (threads s !! i) as [[g []]|] eqn:E; try exact H2. exact (inv_ends _ (core s) i g H2 E).
  - destruct (threads s !! i) as [[g []]|] eqn:E; try exact H2. exact (inv_final _ (core s) i g r H2 E).
  - unfold assist_ptt_pressed. destruct (pipeline_running s) eqn:Er; [exact H2|].
    assert (E : core (assist_ptt_pressed audio_ok now s) = record_core audio_ok (core s)).
    { unfold assist_ptt_pressed. rewrite Er. cbv zeta. destruct audio_ok; autorewrite with core;
        rewrite ?core_audio_started, ?core_audio_stop; autorewrite with core; by rewrite core_clear, core_next. }
    unfold assist_ptt_pressed in E. rewrite Er in E. rewrite E. replace (n + 2) with (n + 1 + 1) by lia.
    apply inv_record; [eapply inv_mono; [exact H|lia]|exact Er|lia].
  - unfold assist_ptt_released. cbv zeta. pose proof (inv_stop _ _ H2) as Hs.
    change (mkCore _ _ _ false _ _) with (core (audio_stop s)) in Hs. case_if; [by autorewrite with core|].
    rewrite core_start. apply inv_start; [exact Hs| |done]. to_prop.
    change (c_pcm (core (audio_stop s))) with (pcm_samples (mic (audio_stop s))). destruct (pcm_samples (mic (audio_stop s))); [cbn [length] in *; lia|done].
  - unfold assist_overlay_cancel. autorewrite with core. rewrite core_audio_stop. autorewrite with core. rewrite core_next.
    replace (n + 2) with (n + 1 + 1) by lia. apply (inv_next (n + 1) (core s) (c_pending (core s))); [eapply inv_mono; [exact H|lia]|lia|apply incl_refl].
  - unfold assist_new_conversation. by case_if.
  - unfold create_assist_screen. case_if; [exact H2|by autorewrite with core].
  - replace (n + 2) with (n + 1 + 1) by lia. eapply inv_mono; [apply inv_close_assist; [exact H|lia]|lia].
  - unfold assist_level_timer_cb. case_if; [|exact H2]. replace (n + 2) with (n + 1 + 1) by lia.
    eapply inv_mono; [apply inv_next_result; [exact H|lia]|lia].
  - unfold create_microphone_screen. case_if; [exact H2|]. cbv zeta. autorewrite with core.
    case_if; rewrite ?core_audio_started, core_audio_stop; autorewrite with core; exact (inv_stop _ _ H2).
  - by apply inv_close_microphone.
  - unfold mic_toggle_wake. case_if; [exact H2|by autorewrite with core].
  - unfold close_settings. replace (n + 2) with (n + 1 + 1) by lia. apply inv_close_assist; [|lia].
    apply inv_close_microphone. eapply inv_mono; [exact H|lia].
Qed.

Lemma run_inv events : 2 * zlen events < 2 ^ 32 -> Inv (2 * zlen events) (core (run events)).
Proof.
  induction events as [|e events IH] using rev_ind; intros H.
  - unfold run. cbn [fold_left length]. constructor; cbn; auto; lia.
  - rewrite zlen_app in *. change (zlen [e]) with 1 in *. unfold run. rewrite fold_left_app. cbn [fold_left].
    replace (2 * (zlen events + 1)) with (2 * zlen events + 2) by lia. apply inv_step; [apply IH; lia|lia].
Qed.

(** ** Bounds *)

Record Bounded (s : State) : Prop := mkBounded {
  bounded_history : (length (history (conversation s)) <= 6)%nat;
  bounded_level : 0 <= tts_level (overlay s) <= 100;
  bounded_pcm : zlen (pcm_samples (mic s)) <= 240000;
  bounded_submitted : Forall (fun x => 3200 <= zlen (sub_samples x) <= 240000) (submitted s);
}.

Ltac bounded := match goal with H : Bounded _ |- _ => destruct H; constructor; cbn in *; auto; try lia end.

Create HintDb bounded.
Lemma bounded_wake w s : Bounded s -> Bounded (set_wake w s). Proof. intros H. bounded. Qed.
Lemma bounded_overlay o s : Bounded s -> 0 <= tts_level o <= 100 -> Bounded (set_overlay o s). Proof. intros H ?. bounded. Qed.
Lemma bounded_next s : Bounded s -> Bounded (next_generation s). Proof. intros H. bounded. Qed.
Lemma bounded_running b s : Bounded s -> Bounded (set_running b s). Proof. intros H. bounded. Qed.
Lemma bounded_pending l s : Bounded s -> Bounded (set_pending l s). Proof. intros H. bounded. Qed.
Lemma bounded_threads l s : Bounded s -> Bounded (set_threads l s). Proof. intros H. bounded. Qed.
Lemma bounded_clear s : Bounded s -> Bounded (clear_pcm s). Proof. intros H. bounded. Qed.
Lemma bounded_stop s : Bounded s -> Bounded (audio_stop s). Proof. intros H. bounded. Qed.
Lemma bounded_started h s : Bounded s -> Bounded (audio_started h s). Proof. intros H. bounded. Qed.
Lemma bounded_reset s : Bounded s -> Bounded (reset_assist_conversation s). Proof. intros H. bounded. Qed.
Lemma bounded_state st s : Bounded s -> Bounded (overlay_set_state st s). Proof. intros H. bounded. Qed.
Lemma bounded_hide_at t s : Bounded s -> Bounded (set_hide_at t s). Proof. intros H. bounded. Qed.
Lemma bounded_text s : Bounded s -> Bounded (overlay_set_text s).
Proof. intros H. unfold overlay_set_text. case_if; [bounded|exact H]. Qed.
Lemma bounded_hide s : Bounded s -> Bounded (hide_overlay s). Proof. intros H. bounded. Qed.
Lemma bounded_restart t s : Bounded s -> Bounded (set_restart_after t s). Proof. intros H. bounded. Qed.
Lemma bounded_capture b s : Bounded s -> Bounded (set_capture_active b s). Proof. intros H. bounded. Qed.
Lemma bounded_listener b s : Bounded s -> Bounded (set_listener b s). Proof. intros H. bounded. Qed.
Lemma bounded_wake_pending b s : Bounded s -> Bounded (set_wake_pending b s). Proof. intros H. bounded. Qed.
Lemma bounded_assist_screen b s : Bounded s -> Bounded (set_assist_screen b s). Proof. intros H. bounded. Qed.
Lemma bounded_microphone_screen b s : Bounded s -> Bounded (set_microphone_screen b s). Proof. intros H. bounded. Qed.
#[local] Hint Resolve bounded_assist_screen bounded_microphone_screen bounded_wake bounded_next bounded_running bounded_pending bounded_threads bounded_clear bounded_stop
  bounded_started bounded_reset bounded_state bounded_hide_at bounded_text bounded_hide bounded_restart bounded_capture
  bounded_listener bounded_wake_pending : bounded.

Lemma bounded_show st s : Bounded s -> Bounded (show_overlay st s).
Proof. intros H. unfold show_overlay. apply bounded_text, bounded_state, bounded_overlay; [exact H|apply bounded_level, H]. Qed.
Lemma bounded_transcript s : Bounded s -> Bounded (overlay_show_transcript s).
Proof. intros H. unfold overlay_show_transcript. case_if; [bounded|exact H]. Qed.
Lemma bounded_response now s : Bounded s -> Bounded (overlay_show_response now s).
Proof. intros H. unfold overlay_show_response. case_if; [bounded|exact H]. Qed.
#[local] Hint Resolve bounded_show bounded_transcript bounded_response : bounded.

Lemma bounded_start now s : Bounded s -> 3200 <= zlen (pcm_samples (mic s)) -> Bounded (start_assist_pipeline now s).
Proof.
  intros H Hp. unfold start_assist_pipeline. cbv zeta. apply bounded_clear.
  set (s1 := if _ && _ then reset_assist_conversation s else s).
  assert (H1 : Bounded s1 /\ pcm_samples (mic s1) = pcm_samples (mic s)) by (unfold s1; case_if; auto with bounded).
  destruct H1 as [H1 E1].
  set (s2 := overlay_set_text (overlay_set_state ASSIST_OVERLAY_PROCESSING (set_running true s1))).
  assert (H2 : Bounded s2) by (unfold s2; auto with bounded).
  assert (E2 : pcm_samples (mic s2) = pcm_samples (mic s1)) by (unfold s2, overlay_set_text; by case_if).
  destruct H2 as [? ? Hpcm Hsub]. constructor; cbn; auto. apply Forall_app. split; [exact Hsub|].
  constructor; [|constructor]. cbn. rewrite E2, E1 in *. lia.
Qed.

Lemma bounded_begin ok now s : Bounded s -> Bounded (begin_wake_command_capture ok now s).
Proof. intros H. unfold begin_wake_command_capture. cbv zeta. case_if; auto 15 with bounded. Qed.

Lemma bounded_finish b now s : Bounded s -> Bounded (finish_wake_command_capture b now s).
Proof.
  intros H. unfold finish_wake_command_capture. cbv zeta. case_if; [|auto 15 with bounded].
  to_prop. apply bounded_start; auto with bounded.
Qed.
#[local] Hint Resolve bounded_begin bounded_finish : bounded.

Lemma bounded_success ok now r final s : Bounded s -> Bounded (apply_success ok now r final s).
Proof.
  intros H. unfold apply_success. cbv zeta.
  set (s1 := if final && negb (is_empty (transcript r)) then set_conversation _ s else s).
  assert (H1 : Bounded s1) by (unfold s1; case_if; [destruct H; constructor; cbn; auto; rewrite length_drop; lia|exact H]).
  set (s2 := if response_started_at (overlay s1) =? 0 then overlay_show_response now s1 else s1).
  assert (H2 : Bounded s2) by (unfold s2; case_if; auto with bounded).
  case_if; [auto with bounded|]. apply bounded_overlay; [auto with bounded|cbn; lia].
Qed.

Lemma bounded_apply ok now d s : Bounded s -> Bounded (apply_assist_pipeline_result ok now d s).
Proof.
  intros H. unfold apply_assist_pipeline_result. case_if; [|exact H]. cbv zeta.
  set (s1 := if is_empty (conversation_id (ui_result d)) then s else set_conversation _ s).
  assert (H1 : Bounded s1) by (unfold s1; case_if; [exact H|bounded]).
  case_if; [apply bounded_overlay; [exact H1|cbn; lia]|].
  case_if; [auto with bounded|]. case_if; [auto with bounded|]. case_if; [by apply bounded_success|].
  case_if; auto with bounded.
Qed.

Lemma bounded_next_result ok now s : Bounded s -> Bounded (apply_next_assist_pipeline_result ok now s).
Proof. intros H. unfold apply_next_assist_pipeline_result. destruct (pending_results s); [exact H|]. apply bounded_apply. auto with bounded. Qed.

Lemma bounded_frame samples now s : Bounded s -> Bounded (on_frame samples now s).
Proof.
  intros H. unfold on_frame. cbv zeta. set (s1 := if _ && _ then set_mic _ s else s).
  assert (H1 : Bounded s1).
  { unfold s1. destruct (keeps_samples (frame_handler (mic s))); [|exact H]. cbn [andb]. case_if; [|exact H]. to_prop.
    destruct H; constructor; cbn; auto. rewrite zlen_app.
    unfold max_samples in E. destruct (frame_handler (mic s)); lia. }
  destruct (frame_handler (mic s)); try exact H1. case_if; auto with bounded.
Qed.

Lemma bounded_listener_start p s : Bounded s -> Bounded (fst (start_wake_word_listener p s)).
Proof. intros H. unfold start_wake_word_listener. repeat case_if; cbn [fst]; auto with bounded. Qed.

Lemma bounded_close_assist s : Bounded s -> Bounded (close_assist_screen s).
Proof. intros H. unfold close_assist_screen. case_if; auto 10 with bounded. Qed.
#[local] Hint Resolve bounded_listener_start bounded_close_assist bounded_next_result : bounded.

Lemma bounded_step s e : Bounded s -> Bounded (step s e).
Proof.
  intros H. destruct e; cbn [step]; auto with bounded.
  - unfold assist_runtime_timer_cb. cbv zeta. pose proof (bounded_next_result audio_ok now s H) as H1.
    set (s1 := apply_next_assist_pipeline_result audio_ok now s) in *.
    repeat case_if; auto with bounded. destruct (start_wake_word_listener p s1) as [s2 started] eqn:El.
    pose proof (bounded_listener_start p s1 H1) as H2. rewrite El in H2. cbn [fst] in H2.
    case_if; auto with bounded.
  - unfold assist_overlay_timer. case_if; auto with bounded.
  - case_if; [by apply bounded_frame|exact H].
  - case_if; auto with bounded.
  - destruct (threads s !! i) as [[g []]|]; auto with bounded.
  - destruct (threads s !! i) as [[g []]|]; auto with bounded.
  - destruct (threads s !! i) as [[g []]|]; auto with bounded.
  - unfold assist_ptt_pressed. cbv zeta. case_if; [exact H|]. case_if; auto 15 with bounded.
  - unfold assist_ptt_released. cbv zeta. case_if; [auto 10 with bounded|]. to_prop. apply bounded_start; auto with bounded.
  - unfold assist_overlay_cancel. auto 10 with bounded.
  - unfold assist_new_conversation. case_if; auto with bounded.
  - unfold create_assist_screen. case_if; auto with bounded.
  - unfold assist_level_timer_cb. case_if; auto with bounded.
  - unfold create_microphone_screen. repeat case_if; auto with bounded.
  - unfold close_microphone_screen. auto with bounded.
  - unfold mic_toggle_wake. case_if; auto with bounded.
  - unfold close_settings, close_microphone_screen. auto 10 with bounded.
Qed.

Lemma run_bounded events : Bounded (run events).
Proof.
  induction events as [|e events IH] using rev_ind; [constructor; cbn; auto; lia|].
  unfold run. rewrite fold_left_app. by apply bounded_step.
Qed.

(** ** The capture ends *)

Lemma since_now now : since now now = 0.
Proof. unfold since. by rewrite Z.sub_diag. Qed.

Lemma capture_finished b now s : capture_active (wake (finish_wake_command_capture b now s)) = false.
Proof.
  unfold finish_wake_command_capture. cbv zeta. case_if.
  - unfold start_assist_pipeline, overlay_set_text. cbv zeta. repeat case_if; reflexivity.
  - unfold overlay_set_text. case_if; reflexivity.
Qed.

Lemma capture_begun ok now s :
  let w := wake (begin_wake_command_capture ok now s) in
  capture_active w = ok /\ capture_started_at w = now /\ speech_detected w = false.
Proof.
  unfold begin_wake_command_capture, show_overlay, overlay_set_text. cbv zeta. destruct ok; repeat case_if; done.
Qed.

(** ** Properties *)

(** C1. In every course of timer ticks, frames, wake words, buttons, screens that
    open and close, and results of the threads, at most one pipeline process
    runs; [assist_pipeline_running] says exactly whether one does; and while it
    does, nothing is recorded and no recording is kept: the microphone is off or
    only shows its level.  (The generation counter has 32 bits: the course must
    be shorter than 2^31 steps.) *)
Theorem single_pipeline events :
  2 * zlen events < 2 ^ 32 ->
  let s := run events in
  let active := List.filter (fun t => negb (th_ended t)) (threads s) in
  (length active <= 1)%nat /\ (pipeline_running s = true <-> active <> []) /\
  (active <> [] -> pcm_samples (mic s) = [] /\ recording (mic s) = false).
Proof.
  intros H s active. destruct (run_inv events H) as [_ _ _ Hs _].
  destruct Hs as [[Ha Hr]|((t & Ha) & Hr & Hp & Hm & _)]; unfold running_threads in Ha; cbn in *; fold s in Ha; fold active in Ha; rewrite Ha.
  - split; [cbn; lia|]. fold s in Hr. rewrite Hr. split; [split; [discriminate|done]|done].
  - split; [cbn; lia|]. fold s in Hr, Hp, Hm. rewrite Hr. done.
Qed.

(** C38. What the assist keeps stays bounded in every course of events: at most
    six entries of history, a level of the answer between 0 and 100, at most 15
    seconds of samples; and every recording given to a pipeline has between 0.2
    and 15 seconds. *)
Theorem assist_bounds events :
  let s := run events in
  (length (history (conversation s)) <= 6)%nat /\ 0 <= tts_level (overlay s) <= 100 /\
  zlen (pcm_samples (mic s)) <= 240000 /\ Forall (fun x => 3200 <= zlen (sub_samples x) <= 240000) (submitted s).
Proof. destruct (run_bounded events). done. Qed.

(** C33. A capture after the wake word always ends: after a tick of the runtime
    timer that leaves it active, less than ten seconds have passed since it
    began, and less than five unless somebody speaks; this includes the wrap of
    the 32-bit clock. *)
Theorem capture_ends p audio_ok now s :
  let w := wake (assist_runtime_timer_cb p audio_ok now s) in
  capture_active w = true ->
  since now (capture_started_at w) < 10000 /\
  (speech_detected w = false -> since now (capture_started_at w) < 5000).
Proof.
  unfold assist_runtime_timer_cb. cbv zeta. set (s1 := apply_next_assist_pipeline_result audio_ok now s).
  destruct (wake_pending (wake s1) && _ && _ && _).
  { destruct (capture_begun audio_ok now (set_listener false (set_wake_pending false s1))) as (_ & -> & _).
    rewrite since_now. lia. }
  destruct (capture_active (wake s1)) eqn:Ec.
  - repeat case_if; rewrite ?capture_finished; try discriminate. intros _. to_prop.
    destruct (speech_detected (wake s1)); cbn [negb andb] in *; to_prop; split; try lia; discriminate.
  - case_if; [|congruence]. unfold start_wake_word_listener. repeat case_if; cbn; congruence.
Qed.

Definition contention : list Event :=
  let p := mkPanel true false false true true true in
  let question := mkResult true (str "final") (str "zapal") (str "Które?") [] [] [] false 0 in
  [Tick p true 1000; WakeWord; Tick p true 1100] ++ repeat (Frame (repeat 1000 320) 1500) 10 ++
  [Tick p true 2700; Ends 0; Tick p true 2800; Final 0 question; Tick p true 2900].

(** The wake word listener can run while a command is recorded, although
    both need the microphone: the timer starts the listener when a pipeline has
    ended and its final result is not posted yet, and a final result that asks
    a question then opens the microphone without stopping the listener. *)
Theorem microphone_contention :
  let s := run contention in
  capture_active (wake s) = true /\ audio_running (mic s) = true /\ listener_running (wake s) = true.
Proof. vm_compute. done. Qed.

(** Closing the settings starts the listener also while a pipeline runs, which
    the runtime timer never does: [close_settings] closes the microphone screen
    whether it is there or not. *)
Theorem listener_while_answering :
  let p := mkPanel true false false true true true in
  let s := run ([OpenAssist; PttPressed true 1000] ++ repeat (Frame (repeat 1000 320) 1100) 10 ++ [PttReleased 1500; Cancel 1600; CloseSettings p]) in
  pipeline_running s = true /\ listener_running (wake s) = true.
Proof. vm_compute. done. Qed.

(** A wake word that comes just before the microphone screen opens is kept, and
    starts a capture when the screen is closed, however much later. *)
Theorem stale_wake_word :
  let p := mkPanel true false false true true true in
  let s := run [Tick p true 1000; WakeWord; OpenMicrophone true; Tick p true 1100; CloseMicrophone p; Tick p true 600000] in
  capture_active (wake s) = true /\ audio_running (mic s) = true.
Proof. vm_compute. done. Qed.

(** ** Witnesses *)

Lemma single_pipeline_witness :
  let s := run contention in
  let active := List.filter (fun t => negb (th_ended t)) (threads s) in
  (length active <= 1)%nat /\ (pipeline_running s = true <-> active <> []) /\
  (active <> [] -> pcm_samples (mic s) = [] /\ recording (mic s) = false).
Proof. apply (single_pipeline contention). vm_compute. reflexivity. Defined.

Lemma capture_ends_witness :
  let p := mkPanel true false false true true true in
  let s := run [Tick p true 1000; WakeWord; Tick p true 1100] in
  since 1300 (capture_started_at (wake (assist_runtime_timer_cb p true 1300 s))) < 10000 /\
  (speech_detected (wake (assist_runtime_timer_cb p true 1300 s)) = false ->
   since 1300 (capture_started_at (wake (assist_runtime_timer_cb p true 1300 s))) < 5000).
Proof.
  apply (capture_ends (mkPanel true false false true true true) true 1300
    (run [Tick (mkPanel true false false true true true) true 1000; WakeWord; Tick (mkPanel true false false true true true) true 1100])).
  vm_compute. reflexivity.
Defined.
End AssistRuntime.
