(* ===== verification/ConstantTime.v ===== *)
(** Branch-free primitives (mbedtls/library/constant_time.c): masks from
    comparisons, selection, the Base64 digit maps, conditional and
    secret-offset copies, and the constant-time PKCS#1 v1.5 unpadding.  Every
    operation is at its machine width with the wrap-around written out: 8 bits
    for [unsigned char], 32 for [unsigned], 64 for [size_t] and
    [mbedtls_mpi_uint] (the target is aarch64).  The lemmas give the meaning
    of each primitive as an ordinary conditional. *)
From S2P Require Import Prelude.
From stdpp Require Import list.
#[local] Open Scope Z_scope.

(** ** Words of [w] bits *)

Definition wrap (w z : Z) : Z := z mod 2 ^ w.
Definition bitnot (w z : Z) : Z := wrap w (Z.lnot z).
Definition word (w z : Z) : Prop := 0 <= z < 2 ^ w.

(** [-((value | -value) >> (sizeof(value) * 8 - 1))] *)
Definition ct_mask (w value : Z) : Z :=
  wrap w (- Z.shiftr (Z.lor value (wrap w (- value))) (w - 1)).

Definition mbedtls_ct_uint_mask : Z -> Z := ct_mask 32.
Definition mbedtls_ct_size_mask : Z -> Z := ct_mask 64.
Definition mbedtls_ct_mpi_uint_mask : Z -> Z := ct_mask 64.

Fixpoint ct_diff (diff : Z) (a b : bytes) : Z :=
  match a, b with
  | x :: a', y :: b' => ct_diff (Z.lor diff (Z.lxor x y)) a' b'
  | _, _ => diff
  end.

(** The two buffers hold the [n] bytes compared. *)
Definition mbedtls_ct_memcmp (a b : bytes) : Z := ct_diff 0 a b.

Definition mbedtls_ct_size_mask_lt (x y : Z) : Z :=
  let sub := wrap 64 (x - y) in
  let sub1 := Z.shiftr sub 63 in
  mbedtls_ct_size_mask sub1.

Definition mbedtls_ct_size_mask_ge (x y : Z) : Z := bitnot 64 (mbedtls_ct_size_mask_lt x y).

Definition mbedtls_ct_uchar_mask_of_range (low high c : Z) : Z :=
  let low_mask := Z.shiftr (wrap 32 (c - low)) 8 in
  let high_mask := Z.shiftr (wrap 32 (high - c)) 8 in
  Z.land (bitnot 32 (Z.lor low_mask high_mask)) 0xff.

Definition mbedtls_ct_size_bool_eq (x y : Z) : Z :=
  let diff := Z.lxor x y in
  let diff_msb := Z.lor diff (wrap 64 (- diff)) in
  let diff1 := wrap 32 (Z.shiftr diff_msb 63) in
  Z.lxor 1 diff1.

Definition mbedtls_ct_size_gt (x y : Z) : Z := wrap 32 (Z.shiftr (wrap 64 (y - x)) 63).

Definition mbedtls_ct_mpi_uint_lt (x y : Z) : Z :=
  let cond := Z.lxor x y in
  let ret := Z.land (wrap 64 (x - y)) (bitnot 64 cond) in
  let ret := Z.lor ret (Z.land y cond) in
  wrap 32 (Z.shiftr ret 63).

Definition mbedtls_ct_uint_if (condition if1 if0 : Z) : Z :=
  let mask := mbedtls_ct_uint_mask condition in
  Z.lor (Z.land mask if1) (Z.land (bitnot 32 mask) if0).

(** [n] limbs of [dest] and [src]; [-condition] is computed as an [int]. *)
Definition mbedtls_ct_mpi_uint_cond_assign (dest src : list Z) (condition : Z) : list Z :=
  let mask := wrap 64 (- condition) in
  zip_with (fun d s => Z.lor (Z.land s mask) (Z.land d (bitnot 64 mask))) dest src ++
  drop (length src) dest.

Definition mbedtls_ct_base64_enc_char (value : Z) : Z :=
  let digit := 0 in
  let digit := Z.lor digit (Z.land (mbedtls_ct_uchar_mask_of_range 0 25 value) (65 + value)) in
  let digit := Z.lor digit (Z.land (mbedtls_ct_uchar_mask_of_range 26 51 value) (97 + value - 26)) in
  let digit := Z.lor digit (Z.land (mbedtls_ct_uchar_mask_of_range 52 61 value) (48 + value - 52)) in
  let digit := Z.lor digit (Z.land (mbedtls_ct_uchar_mask_of_range 62 62 value) 43) in
  Z.lor digit (Z.land (mbedtls_ct_uchar_mask_of_range 63 63 value) 47).

(** [signed char]: a byte read back as a two's complement number. *)
Definition schar (z : Z) : Z := (z + 128) mod 256 - 128.

Definition mbedtls_ct_base64_dec_value (c : Z) : Z :=
  let val := 0 in
  let val := Z.lor val (Z.land (mbedtls_ct_uchar_mask_of_range 65 90 c) (c - 65 + 0 + 1)) in
  let val := Z.lor val (Z.land (mbedtls_ct_uchar_mask_of_range 97 122 c) (c - 97 + 26 + 1)) in
  let val := Z.lor val (Z.land (mbedtls_ct_uchar_mask_of_range 48 57 c) (c - 48 + 52 + 1)) in
  let val := Z.lor val (Z.land (mbedtls_ct_uchar_mask_of_range 43 43 c) (c - 43 + 62 + 1)) in
  let val := Z.lor val (Z.land (mbedtls_ct_uchar_mask_of_range 47 47 c) (c - 47 + 63 + 1)) in
  schar (val - 1).

(** ** Copies *)

Definition mbedtls_ct_memcpy_if_eq (dest src : bytes) (c1 c2 : Z) : bytes :=
  let equal := mbedtls_ct_size_bool_eq c1 c2 in
  let mask := u8 (mbedtls_ct_size_mask equal) in
  zip_with (fun d s => Z.lor (Z.land s mask) (u8 (Z.land d (bitnot 32 mask)))) dest src.

(** [len] is the length of [dest]; the loop runs over the offsets
    [offset_min .. offset_max]. *)
Definition mbedtls_ct_memcpy_offset (dest src : bytes) (offset offset_min offset_max : nat) : bytes :=
  fold_left
    (fun dest offsetval =>
       mbedtls_ct_memcpy_if_eq dest (take (length dest) (drop offsetval src))
         (Z.of_nat offsetval) (Z.of_nat offset))
    (seq offset_min (S offset_max - offset_min)) dest.

(** One pass over the buffer: keep it, or shift it left by one byte. *)
Fixpoint shift_pass (no_op : Z) (buf : bytes) : bytes :=
  match buf with
  | [] => []
  | current :: rest =>
      match rest with
      | [] => [u8 (mbedtls_ct_uint_if no_op current 0)]
      | next :: _ => u8 (mbedtls_ct_uint_if no_op current next) :: shift_pass no_op rest
      end
  end.

Definition mbedtls_ct_mem_move_to_left (buf : bytes) (offset : Z) : bytes :=
  let total := zlen buf in
  fold_left
    (fun buf i => shift_pass (mbedtls_ct_size_gt (wrap 64 (total - offset)) (Z.of_nat i)) buf)
    (seq 0 (length buf)) buf.

(** ** PKCS#1 v1.5 unpadding *)

Definition MBEDTLS_RSA_PRIVATE : Z := 1.
Definition MBEDTLS_RSA_SIGN : Z := 1.
Definition MBEDTLS_RSA_CRYPT : Z := 2.
Definition MBEDTLS_ERR_RSA_INVALID_PADDING : Z := -0x4100.
Definition MBEDTLS_ERR_RSA_OUTPUT_TOO_LARGE : Z := -0x4400.

(** One iteration of each of the two scanning loops. *)
Definition scan_crypt (s : Z * Z) (b : Z) : Z * Z :=
  let '(pad_done, pad_count) := s in
  let pad_done := Z.lor pad_done (Z.lxor (Z.shiftr (Z.lor b (u8 (- b))) 7) 1) in
  let pad_count := wrap 64 (pad_count + Z.lxor (Z.shiftr (Z.lor pad_done (u8 (- pad_done))) 7) 1) in
  (pad_done, pad_count).

Definition scan_sign (s : Z * Z * Z) (b : Z) : Z * Z * Z :=
  let '(pad_done, pad_count, bad) := s in
  let pad_done := u8 (Z.lor pad_done (mbedtls_ct_uint_if b 0 1)) in
  let pad_count := wrap 64 (pad_count + mbedtls_ct_uint_if pad_done 0 1) in
  (pad_done, pad_count, Z.lor bad (mbedtls_ct_uint_if pad_done 0 (Z.lxor b 0xFF))).

(** The header bytes and the scan of the padding: [pad_done], [pad_count], [bad]. *)
Definition unpad_scan (mode : Z) (input : bytes) : Z * Z * Z :=
  let bad := nth 0 input 0 in
  if mode =? MBEDTLS_RSA_PRIVATE then
    let bad := Z.lor bad (Z.lxor (nth 1 input 0) MBEDTLS_RSA_CRYPT) in
    let '(pad_done, pad_count) := fold_left scan_crypt (drop 2 input) (0, 0) in
    (pad_done, pad_count, bad)
  else
    let bad := Z.lor bad (Z.lxor (nth 1 input 0) MBEDTLS_RSA_SIGN) in
    fold_left scan_sign (drop 2 input) (0, 0, bad).

(** From [bad] and [pad_count] on: the size, the return value, the blanking of
    the data, the move and the copy.  The result, the input buffer afterwards,
    the output buffer and [*olen]. *)
Definition unpad_copy (plaintext_max_size bad pad_count : Z) (input output : bytes)
  : Z * bytes * bytes * Z :=
  let ilen := zlen input in
  let output_max_len := zlen output in
  let plaintext_size :=
    mbedtls_ct_uint_if bad (wrap 32 plaintext_max_size) (wrap 32 (ilen - pad_count - 3)) in
  let output_too_large := mbedtls_ct_size_gt plaintext_size plaintext_max_size in
  let ret :=
    - s32 (mbedtls_ct_uint_if bad (- MBEDTLS_ERR_RSA_INVALID_PADDING)
             (mbedtls_ct_uint_if output_too_large (- MBEDTLS_ERR_RSA_OUTPUT_TOO_LARGE) 0)) in
  let bad := mbedtls_ct_uint_mask (Z.lor bad output_too_large) in
  let input := take 11 input ++ map (fun b => u8 (Z.land b (bitnot 32 bad))) (drop 11 input) in
  let plaintext_size :=
    mbedtls_ct_uint_if output_too_large (wrap 32 plaintext_max_size) (wrap 32 plaintext_size) in
  let start := Z.to_nat (ilen - plaintext_max_size) in
  let input :=
    take start input ++
    mbedtls_ct_mem_move_to_left (drop start input) (wrap 64 (plaintext_max_size - plaintext_size)) in
  let output :=
    if negb (output_max_len =? 0)
    then take (Z.to_nat plaintext_max_size) (drop start input) ++ drop (Z.to_nat plaintext_max_size) output
    else output in
  (ret, input, output, plaintext_size).

Definition mbedtls_ct_rsaes_pkcs1_v15_unpadding (mode : Z) (input output : bytes)
  : Z * bytes * bytes * Z :=
  let ilen := zlen input in
  let output_max_len := zlen output in
  let plaintext_max_size :=
    if wrap 64 (ilen - 11) <? output_max_len then wrap 64 (ilen - 11) else output_max_len in
  let '(pad_done, pad_count, bad) := unpad_scan mode input in
  let bad := Z.lor bad (mbedtls_ct_uint_if pad_done 0 1) in
  let bad := Z.lor bad (mbedtls_ct_size_gt 8 pad_count) in
  unpad_copy plaintext_max_size bad pad_count input output.

(** ** Lemmas on words *)

Lemma wrap_word w z : 0 <= w -> word w (wrap w z).
Proof. intros. apply Z.mod_pos_bound, Z.pow_pos_nonneg; lia. Qed.

Lemma wrap_small w z : word w z -> wrap w z = z.
Proof. apply Z.mod_small. Qed.

Lemma wrap_neg w z : 0 <= w -> 0 < z <= 2 ^ w -> wrap w (- z) = 2 ^ w - z.
Proof. intros Hw Hz. symmetry. apply (Z.mod_unique _ _ (-1)); lia. Qed.

Lemma wrap_borrow w z : 0 <= w -> - 2 ^ w <= z < 0 -> wrap w z = 2 ^ w + z.
Proof. intros Hw Hz. symmetry. apply (Z.mod_unique _ _ (-1)); lia. Qed.

Lemma bitnot_eq w z : 0 <= w -> word w z -> bitnot w z = 2 ^ w - 1 - z.
Proof.
  intros Hw Hz. unfold bitnot, Z.lnot, word in *.
  replace (Z.pred (- z)) with (- (z + 1)) by lia. rewrite wrap_neg; lia.
Qed.

Lemma all_ones w : Z.ones w = 2 ^ w - 1.
Proof. rewrite Z.ones_equiv. lia. Qed.

Lemma land_all_ones w z : 0 <= w -> word w z -> Z.land (2 ^ w - 1) z = z.
Proof.
  intros Hw Hz. rewrite <- all_ones, Z.land_comm, Z.land_ones by lia. by apply Z.mod_small.
Qed.

(** The sign bit of a word. *)
Definition msb (w z : Z) : bool := 2 ^ (w - 1) <=? z.

Lemma pow_half w : 1 <= w -> 2 ^ w = 2 * 2 ^ (w - 1).
Proof. intros. rewrite <- Z.pow_succ_r by lia. f_equal. lia. Qed.

Lemma shiftr_msb w z : 1 <= w -> word w z -> Z.shiftr z (w - 1) = Z.b2z (msb w z).
Proof.
  unfold word, msb. intros Hw Hz. rewrite Z.shiftr_div_pow2 by lia. rewrite (pow_half w Hw) in Hz.
  pose proof (Z.pow_pos_nonneg 2 (w - 1) ltac:(lia) ltac:(lia)).
  destruct (2 ^ (w - 1) <=? z) eqn:E; to_prop; cbn [Z.b2z].
  - symmetry. apply (Z.div_unique _ _ 1 (z - 2 ^ (w - 1))); lia.
  - apply Z.div_small. lia.
Qed.


Lemma ct_mask_eq w v : 1 <= w -> word w v -> ct_mask w v = if v =? 0 then 0 else 2 ^ w - 1.
Proof.
  unfold word. intros Hw Hv. unfold ct_mask. pose proof (pow_half w Hw).
  pose proof (Z.pow_pos_nonneg 2 (w - 1) ltac:(lia) ltac:(lia)).
  rewrite Z.shiftr_lor. destruct (v =? 0) eqn:E; to_prop.
  - subst. change (- 0) with 0. rewrite (wrap_small w 0) by (unfold word; lia).
    rewrite Z.shiftr_0_l. change (- Z.lor 0 0) with 0. apply wrap_small. unfold word. lia.
  - rewrite (wrap_neg w v) by lia. rewrite !shiftr_msb by (unfold word; lia).
    replace (Z.lor _ _) with 1; [apply wrap_neg; lia|].
    unfold msb. destruct (_ <=? v) eqn:A, (_ <=? 2 ^ w - v) eqn:B; to_prop; try reflexivity; lia.
Qed.

(** A value picked by a mask. *)
Lemma select w (b : bool) x y :
  0 <= w -> word w x -> word w y ->
  Z.lor (Z.land (if b then 2 ^ w - 1 else 0) x) (Z.land (bitnot w (if b then 2 ^ w - 1 else 0)) y) =
  if b then x else y.
Proof.
  intros Hw Hx Hy. pose proof (Z.pow_pos_nonneg 2 w ltac:(lia) ltac:(lia)).
  rewrite bitnot_eq by (destruct b; unfold word; lia). destruct b.
  - replace (2 ^ w - 1 - (2 ^ w - 1)) with 0 by lia.
    rewrite land_all_ones, Z.land_0_l, Z.lor_0_r by assumption. reflexivity.
  - rewrite Z.sub_0_r, Z.land_0_l, Z.lor_0_l, land_all_ones by assumption. reflexivity.
Qed.

Lemma ct_uint_if_eq c x y :
  word 32 c -> word 32 x -> word 32 y ->
  mbedtls_ct_uint_if c x y = if c =? 0 then y else x.
Proof.
  intros Hc Hx Hy. unfold mbedtls_ct_uint_if, mbedtls_ct_uint_mask.
  rewrite ct_mask_eq by (try lia; exact Hc).
  pose proof (select 32 (negb (c =? 0)) x y ltac:(lia) Hx Hy) as S.
  destruct (c =? 0); exact S.
Qed.

Lemma ct_size_gt_eq x y :
  0 <= x < 2 ^ 63 -> 0 <= y < 2 ^ 63 -> mbedtls_ct_size_gt x y = Z.b2z (y <? x).
Proof.
  intros Hx Hy. unfold mbedtls_ct_size_gt.
  rewrite (shiftr_msb 64) by (try lia; apply wrap_word; lia). unfold msb.
  destruct (y <? x) eqn:E; to_prop.
  - rewrite (wrap_borrow 64) by lia. destruct (_ <=? _) eqn:F; to_prop; [reflexivity|lia].
  - rewrite (wrap_small 64) by (unfold word; lia). destruct (_ <=? _) eqn:F; to_prop; [lia|reflexivity].
Qed.

Lemma ct_size_mask_lt_eq x y :
  0 <= x < 2 ^ 63 -> 0 <= y < 2 ^ 63 ->
  mbedtls_ct_size_mask_lt x y = if x <? y then 2 ^ 64 - 1 else 0.
Proof.
  intros Hx Hy. unfold mbedtls_ct_size_mask_lt, mbedtls_ct_size_mask.
  rewrite (shiftr_msb 64) by (try lia; apply wrap_word; lia). unfold msb.
  destruct (x <? y) eqn:E; to_prop.
  - rewrite (wrap_borrow 64) by lia. destruct (_ <=? _) eqn:F; to_prop; [reflexivity|lia].
  - rewrite (wrap_small 64) by (unfold word; lia). destruct (_ <=? _) eqn:F; to_prop; [lia|reflexivity].
Qed.

Lemma ct_size_mask_ge_eq x y :
  0 <= x < 2 ^ 63 -> 0 <= y < 2 ^ 63 ->
  mbedtls_ct_size_mask_ge x y = if y <=? x then 2 ^ 64 - 1 else 0.
Proof.
  intros Hx Hy. unfold mbedtls_ct_size_mask_ge. rewrite ct_size_mask_lt_eq by assumption.
  destruct (x <? y) eqn:E, (y <=? x) eqn:F; to_prop; try lia; reflexivity.
Qed.

Lemma lxor_word w x y : 0 <= w -> word w x -> word w y -> word w (Z.lxor x y).
Proof. apply lxor_range. Qed.

Lemma lor_word w x y : 0 <= w -> word w x -> word w y -> word w (Z.lor x y).
Proof. apply lor_range. Qed.

Lemma lxor_eq_0 x y : (Z.lxor x y =? 0) = (x =? y).
Proof.
  destruct (x =? y) eqn:E; to_prop.
  - subst. by rewrite Z.lxor_nilpotent.
  - apply Z.eqb_neq. rewrite Z.lxor_eq_0_iff. exact E.
Qed.

Lemma lor_eq_0 x y : (Z.lor x y =? 0) = (x =? 0) && (y =? 0).
Proof.
  apply eq_true_iff_eq. rewrite andb_true_iff, !Z.eqb_eq. apply Z.lor_eq_0_iff.
Qed.

Lemma ct_size_bool_eq_eq x y :
  word 64 x -> word 64 y -> mbedtls_ct_size_bool_eq x y = Z.b2z (x =? y).
Proof.
  intros Hx Hy. unfold mbedtls_ct_size_bool_eq. rewrite <- lxor_eq_0.
  pose proof (lxor_word 64 x y ltac:(lia) Hx Hy) as Hd. set (d := Z.lxor x y) in *.
  assert (Hm : wrap 64 (- Z.shiftr (Z.lor d (wrap 64 (- d))) (64 - 1)) = if d =? 0 then 0 else 2 ^ 64 - 1)
    by (apply (ct_mask_eq 64); [lia|exact Hd]).
  assert (Hl : word 64 (Z.lor d (wrap 64 (- d)))) by (apply lor_word; [lia|exact Hd|apply wrap_word; lia]).
  change (64 - 1) with 63 in Hm.
  rewrite (shiftr_msb 64) in * by (try lia; exact Hl).
  destruct (msb 64 _), (d =? 0); try reflexivity; discriminate Hm.
Qed.

Lemma ct_mpi_uint_lt_eq x y :
  word 64 x -> word 64 y -> mbedtls_ct_mpi_uint_lt x y = Z.b2z (x <? y).
Proof.
  unfold word. intros Hx Hy. unfold mbedtls_ct_mpi_uint_lt, bitnot.
  pose proof (lxor_range 64 x y ltac:(lia) Hx Hy) as Hd.
  assert (Hn : 0 <= wrap 64 (Z.lnot (Z.lxor x y)) < 2 ^ 64) by (apply wrap_word; lia).
  fold (bitnot 64 (Z.lxor x y)). rewrite bitnot_eq by (try lia; exact Hd).
  rewrite Z.shiftr_lor, !Z.shiftr_land, Z.shiftr_lxor.
  rewrite !(shiftr_msb 64) by (unfold word; try lia; apply wrap_word; lia).
  assert (Hm : msb 64 (2 ^ 64 - 1 - Z.lxor x y) = negb (xorb (msb 64 x) (msb 64 y))).
  { assert (Hs : Z.shiftr (Z.lxor x y) 63 = Z.b2z (msb 64 (Z.lxor x y)))
      by (apply (shiftr_msb 64); [lia|exact Hd]).
    rewrite Z.shiftr_lxor, !(shiftr_msb 64) in Hs by (try lia; assumption).
    assert (Hx' : msb 64 (2 ^ 64 - 1 - Z.lxor x y) = negb (msb 64 (Z.lxor x y))).
    { unfold msb. destruct (_ <=? Z.lxor x y) eqn:A, (_ <=? 2 ^ 64 - 1 - _) eqn:B; to_prop; try reflexivity; lia. }
    rewrite Hx'. f_equal. destruct (msb 64 x), (msb 64 y), (msb 64 (Z.lxor x y)); try reflexivity; discriminate Hs. }
  rewrite Hm. unfold msb.
  destruct (x <? y) eqn:E; to_prop;
    [rewrite (wrap_borrow 64) by lia|rewrite (wrap_small 64 (x - y)) by (unfold word; lia)];
    repeat match goal with |- context [2 ^ (64 - 1) <=? ?z] => destruct (2 ^ (64 - 1) <=? z) eqn:? end;
    to_prop; try reflexivity; lia.
Qed.

(** ** Copies *)

Lemma ct_memcmp_zero a b :
  length a = length b -> (mbedtls_ct_memcmp a b = 0 <-> a = b).
Proof.
  intros Hl. unfold mbedtls_ct_memcmp.
  assert (G : forall d a b, length a = length b -> (ct_diff d a b = 0 <-> d = 0 /\ a = b)).
  { clear. intros d a. revert d. induction a as [|x a IH]; intros d [|y b] H; try discriminate; simpl.
    - intuition congruence.
    - rewrite IH by (simpl in H; lia). rewrite Z.lor_eq_0_iff, Z.lxor_eq_0_iff.
      intuition congruence. }
  rewrite G by exact Hl. tauto.
Qed.

Lemma mask_byte (b : bool) d s :
  is_byte d -> is_byte s ->
  Z.lor (Z.land s (if b then 255 else 0)) (u8 (Z.land d (bitnot 32 (if b then 255 else 0)))) =
  if b then s else d.
Proof.
  intros Hd Hs. unfold u8. change (2 ^ 8) with 256. rewrite <- land_255, <- Z.land_assoc. destruct b.
  - change (Z.land (bitnot 32 255) 255) with 0. rewrite land_255, Z.land_0_r, Z.lor_0_r.
    apply Z.mod_small. exact Hs.
  - change (Z.land (bitnot 32 0) 255) with 255. rewrite land_255, Z.land_0_r, Z.lor_0_l.
    apply Z.mod_small. exact Hd.
Qed.

Lemma ct_memcpy_if_eq_eq dest src c1 c2 :
  word 64 c1 -> word 64 c2 -> bytes_ok dest -> bytes_ok src -> length src = length dest ->
  mbedtls_ct_memcpy_if_eq dest src c1 c2 = if c1 =? c2 then src else dest.
Proof.
  intros H1 H2 Hd Hs Hl. unfold mbedtls_ct_memcpy_if_eq, mbedtls_ct_size_mask.
  rewrite ct_size_bool_eq_eq by assumption.
  replace (u8 (ct_mask 64 (Z.b2z (c1 =? c2)))) with (if c1 =? c2 then 255 else 0)
    by (destruct (c1 =? c2); reflexivity).
  revert src Hs Hl. induction Hd as [|d dest Hd _ IH]; intros [|x src] Hs Hl; try discriminate.
  - destruct (c1 =? c2); reflexivity.
  - apply Forall_cons in Hs as [Hx Hs]. cbn [zip_with]. rewrite mask_byte by assumption.
    rewrite IH by (try assumption; simpl in Hl; lia). destruct (c1 =? c2); reflexivity.
Qed.

Lemma shift_pass_keep buf : bytes_ok buf -> shift_pass 1 buf = buf.
Proof.
  induction 1 as [|b buf Hb Hok IH]; [reflexivity|]. simpl. unfold is_byte in Hb.
  destruct buf as [|c buf].
  - rewrite ct_uint_if_eq by (unfold word; lia). rewrite u8_small by exact Hb. reflexivity.
  - rewrite IH. apply Forall_cons in Hok as [Hc _]. unfold is_byte in Hc.
    rewrite ct_uint_if_eq by (unfold word; lia). rewrite u8_small by exact Hb. reflexivity.
Qed.

Lemma shift_pass_left b buf : bytes_ok (b :: buf) -> shift_pass 0 (b :: buf) = buf ++ [0].
Proof.
  revert b. induction buf as [|c buf IH]; intros b Hok.
  - apply Forall_cons in Hok as [Hb _]. unfold is_byte in Hb. cbn [shift_pass].
    rewrite ct_uint_if_eq by (unfold word; lia). reflexivity.
  - apply Forall_cons in Hok as [Hb Hok]. pose proof Hok as [Hc _]%Forall_cons. unfold is_byte in *.
    change (shift_pass 0 (b :: c :: buf)) with (u8 (mbedtls_ct_uint_if 0 b c) :: shift_pass 0 (c :: buf)).
    rewrite ct_uint_if_eq by (unfold word; lia). rewrite IH by exact Hok.
    change (0 =? 0) with true. cbv iota. rewrite u8_small by exact Hc. reflexivity.
Qed.

(** The last passes shift the data out and zeros in. *)
Lemma shift_passes (f : nat -> Z) ks : forall buf,
  bytes_ok buf -> (length ks <= length buf)%nat -> (forall k, In k ks -> f k = 0) ->
  fold_left (fun buf i => shift_pass (f i) buf) ks buf = drop (length ks) buf ++ repeat 0 (length ks).
Proof.
  induction ks as [|k ks IH]; intros buf Hok Hl Hf; [cbn; by rewrite app_nil_r|].
  destruct buf as [|b buf]; [simpl in Hl; lia|]. cbn [fold_left length drop].
  rewrite Hf, shift_pass_left by (try exact Hok; by left). apply Forall_cons in Hok as [_ Hok].
  rewrite IH.
  - rewrite drop_app_le by (simpl in Hl; lia). rewrite <- app_assoc. reflexivity.
  - apply bytes_ok_app. split; [exact Hok|]. constructor; [unfold is_byte; lia|constructor].
  - rewrite length_app. simpl in *. lia.
  - intros. apply Hf. by right.
Qed.

Lemma keep_passes (f : nat -> Z) ks buf :
  bytes_ok buf -> (forall k, In k ks -> f k = 1) ->
  fold_left (fun buf i => shift_pass (f i) buf) ks buf = buf.
Proof.
  intros Hok. induction ks as [|k ks IH]; intros Hf; [reflexivity|]. cbn [fold_left].
  rewrite Hf, shift_pass_keep by (try exact Hok; by left). apply IH. intros. apply Hf. by right.
Qed.

Lemma ct_mem_move_eq buf offset :
  bytes_ok buf -> zlen buf < 2 ^ 63 -> (offset <= length buf)%nat ->
  mbedtls_ct_mem_move_to_left buf (Z.of_nat offset) = drop offset buf ++ repeat 0 offset.
Proof.
  intros Hok Hlen Ho. unfold mbedtls_ct_mem_move_to_left.
  rewrite wrap_small by (unfold word; lia).
  replace (seq 0 (length buf)) with (seq 0 (length buf - offset) ++ seq (0 + (length buf - offset)) offset)
    by (rewrite <- seq_app; f_equal; lia).
  rewrite fold_left_app, (keep_passes _ (seq 0 (length buf - offset))); [rewrite shift_passes|..].
  - by rewrite length_seq.
  - exact Hok.
  - rewrite length_seq. lia.
  - intros k Hk%in_seq. rewrite ct_size_gt_eq by lia.
    destruct (_ <? _) eqn:E; to_prop; [lia|reflexivity].
  - exact Hok.
  - intros k Hk%in_seq. rewrite ct_size_gt_eq by lia.
    destruct (_ <? _) eqn:E; to_prop; [reflexivity|lia].
Qed.

(** ** The unpadding against its definition

    PKCS#1 v1.5 blocks by the standard: 0x00, a type byte, at least eight
    padding bytes that are nonzero (encryption) or 0xFF (signature), 0x00 and
    the message. *)
Fixpoint split0 (s : bytes) : option (bytes * bytes) :=
  match s with
  | [] => None
  | b :: r => if b =? 0 then Some ([], r) else '(p, m) ← split0 r; Some (b :: p, m)
  end.

Definition pkcs1_v15_decode (mode : Z) (input : bytes) : option bytes :=
  let crypt := mode =? MBEDTLS_RSA_PRIVATE in
  match input with
  | b0 :: b1 :: r =>
      if (b0 =? 0) && (b1 =? if crypt then MBEDTLS_RSA_CRYPT else MBEDTLS_RSA_SIGN) then
        '(ps, m) ← split0 r;
        if (8 <=? length ps)%nat && (crypt || forallb (Z.eqb 0xFF) ps) then Some m else None
      else None
  | _ => None
  end.

Lemma split0_some s p m : split0 s = Some (p, m) -> s = p ++ 0 :: m.
Proof.
  revert p. induction s as [|b s IH]; intros p; simpl; [discriminate|].
  destruct (b =? 0) eqn:E; to_prop; [intros [= <- <-]; by subst|].
  destruct (split0 s) as [[q n]|]; [|discriminate]. intros [= <- <-]. by rewrite (IH q).
Qed.

Lemma nonzero_bit b : is_byte b -> Z.lxor (Z.shiftr (Z.lor b (u8 (- b))) 7) 1 = Z.b2z (b =? 0).
Proof.
  intros Hb. apply Z.eqb_eq. revert Hb.
  apply (byte_check (fun b => Z.lxor (Z.shiftr (Z.lor b (u8 (- b))) 7) 1 =? Z.b2z (b =? 0))).
  vm_compute. reflexivity.
Qed.

Lemma scan_crypt_done s c : bytes_ok s -> word 64 c -> fold_left scan_crypt s (1, c) = (1, c).
Proof.
  intros Hs Hc. induction Hs as [|b s Hb _ IH]; [reflexivity|]. cbn [fold_left].
  replace (scan_crypt (1, c) b) with (1, c); [exact IH|]. unfold scan_crypt.
  rewrite nonzero_bit by exact Hb. destruct (b =? 0).
  - change (Z.lor 1 (Z.b2z true)) with 1. rewrite nonzero_bit by (unfold is_byte; lia).
    rewrite Z.add_0_r, wrap_small by exact Hc. reflexivity.
  - change (Z.lor 1 (Z.b2z false)) with 1. rewrite nonzero_bit by (unfold is_byte; lia).
    rewrite Z.add_0_r, wrap_small by exact Hc. reflexivity.
Qed.

Lemma scan_crypt_eq s : forall c,
  bytes_ok s -> 0 <= c -> c + zlen s < 2 ^ 63 ->
  fold_left scan_crypt s (0, c) =
  match split0 s with Some (p, _) => (1, c + zlen p) | None => (0, c + zlen s) end.
Proof.
  induction s as [|b s IH]; intros c Hs Hc Hl; [cbn; by rewrite Z.add_0_r|].
  apply Forall_cons in Hs as [Hb Hs]. cbn [fold_left split0 length] in *.
  unfold scan_crypt at 2. rewrite nonzero_bit, Z.lor_0_l by exact Hb.
  destruct (b =? 0); cbn [Z.b2z]; rewrite nonzero_bit by (unfold is_byte; lia).
  - change (Z.b2z (1 =? 0)) with 0. rewrite Z.add_0_r, wrap_small by (unfold word; lia).
    rewrite scan_crypt_done by (try assumption; unfold word; lia).
    change (zlen (@nil Z)) with 0. by rewrite Z.add_0_r.
  - change (Z.b2z (0 =? 0)) with 1. rewrite wrap_small by (unfold word; lia).
    rewrite IH by (try assumption; lia).
    destruct (split0 s) as [[p m]|]; cbn [length mbind option_bind]; f_equal; lia.
Qed.

Lemma scan_sign_done s c bad : bytes_ok s -> word 64 c -> fold_left scan_sign s (1, c, bad) = (1, c, bad).
Proof.
  intros Hs Hc. induction Hs as [|b s Hb _ IH]; [reflexivity|]. cbn [fold_left].
  replace (scan_sign (1, c, bad) b) with (1, c, bad); [exact IH|]. unfold scan_sign.
  unfold is_byte in Hb. rewrite ct_uint_if_eq by (unfold word; lia).
  replace (u8 (Z.lor 1 _)) with 1 by (destruct (b =? 0); reflexivity).
  assert (Hx : word 32 (Z.lxor b 255)) by (unfold word; pose proof (lxor_byte b 255 Hb); unfold is_byte in *; lia).
  rewrite !ct_uint_if_eq by (try exact Hx; unfold word; lia). change (1 =? 0) with false. cbv iota.
  rewrite Z.add_0_r, wrap_small, Z.lor_0_r by exact Hc. reflexivity.
Qed.

Lemma scan_sign_eq s : forall c bad,
  bytes_ok s -> 0 <= c -> c + zlen s < 2 ^ 63 -> is_byte bad ->
  exists bad', is_byte bad' /\
  match split0 s with
  | Some (p, _) =>
      fold_left scan_sign s (0, c, bad) = (1, c + zlen p, bad') /\
      (bad' =? 0) = (bad =? 0) && forallb (Z.eqb 0xFF) p
  | None => fold_left scan_sign s (0, c, bad) = (0, c + zlen s, bad')
  end.
Proof.
  induction s as [|b s IH]; intros c bad Hs Hc Hl Hbad.
  - exists bad. split; [exact Hbad|]. cbn. by rewrite Z.add_0_r.
  - apply Forall_cons in Hs as [Hb Hs]. cbn [fold_left split0 length] in *.
    pose proof Hb as Hb'. unfold is_byte in Hb'.
    assert (Hx : is_byte (Z.lxor b 255)) by (apply lxor_byte; [exact Hb|unfold is_byte; lia]).
    unfold scan_sign at 2 4. rewrite ct_uint_if_eq by (unfold word; lia). rewrite Z.lor_0_l.
    destruct (b =? 0).
    + change (u8 1) with 1. unfold is_byte in Hx.
      rewrite !ct_uint_if_eq by (unfold word; lia). change (1 =? 0) with false. cbv iota.
      rewrite Z.add_0_r, wrap_small, Z.lor_0_r by (unfold word; lia). exists bad. split; [exact Hbad|].
      rewrite scan_sign_done by (try assumption; unfold word; lia).
      change (zlen (@nil Z)) with 0. rewrite Z.add_0_r, andb_true_r. done.
    + change (u8 0) with 0. pose proof Hx as Hx'. unfold is_byte in Hx'.
      rewrite !ct_uint_if_eq by (unfold word; lia). change (0 =? 0) with true. cbv iota.
      rewrite wrap_small by (unfold word; lia).
      destruct (IH (c + 1) (Z.lor bad (Z.lxor b 255))) as (bad' & Hbad' & H);
        [assumption|lia|lia|by apply lor_byte|].
      exists bad'. split; [exact Hbad'|].
      destruct (split0 s) as [[p m]|]; cbn [mbind option_bind] in *.
      * destruct H as [-> ->]. split; [f_equal; f_equal; cbn [length]; lia|].
        cbn [forallb]. rewrite lor_eq_0, lxor_eq_0, (Z.eqb_sym 255 b), andb_assoc. reflexivity.
      * rewrite H. f_equal. f_equal. lia.
Qed.

Lemma split0_bytes s p m : split0 s = Some (p, m) -> bytes_ok s -> bytes_ok p /\ bytes_ok m.
Proof.
  intros ->%split0_some H. apply bytes_ok_app in H as [Hp H]. by apply Forall_cons in H as [_ H].
Qed.

(** What the scan found, against the definition. *)
Lemma unpad_scan_eq mode input :
  bytes_ok input -> 2 <= zlen input < 2 ^ 31 ->
  exists pad_done pad_count bad,
    unpad_scan mode input = (pad_done, pad_count, bad) /\
    is_byte bad /\ (pad_done = 0 \/ pad_done = 1) /\ 0 <= pad_count <= zlen input - 2 /\
    match pkcs1_v15_decode mode input with
    | Some m => bad = 0 /\ pad_done = 1 /\ 8 <= pad_count /\
                zlen m = zlen input - pad_count - 3 /\ drop (length input - length m) input = m
    | None => bad <> 0 \/ pad_done = 0 \/ pad_count < 8
    end.
Proof.
  intros Hok Hlen. destruct input as [|b0 [|b1 r]]; [cbn in Hlen; lia..|].
  apply Forall_cons in Hok as [H0 Hok]. apply Forall_cons in Hok as [H1 Hr].
  unfold unpad_scan, pkcs1_v15_decode. cbn [nth drop length] in *.
  set (crypt := mode =? MBEDTLS_RSA_PRIVATE).
  set (ty := if crypt then MBEDTLS_RSA_CRYPT else MBEDTLS_RSA_SIGN).
  assert (Hty : is_byte ty) by (subst ty; destruct crypt; unfold is_byte, MBEDTLS_RSA_CRYPT, MBEDTLS_RSA_SIGN; lia).
  set (bad := Z.lor b0 (Z.lxor b1 ty)).
  assert (Hbad : is_byte bad) by (apply lor_byte; [exact H0|by apply lxor_byte]).
  assert (E0 : (b0 =? 0) && (b1 =? ty) = (bad =? 0)) by (subst bad; by rewrite lor_eq_0, lxor_eq_0).
  rewrite E0.
  assert (Hm : forall p m, split0 r = Some (p, m) ->
    zlen m = Z.of_nat (S (S (length r))) - zlen p - 3 /\
    drop (S (S (length r)) - length m) (b0 :: b1 :: r) = m).
  { intros p m ->%split0_some. rewrite length_app. cbn [length]. split; [lia|].
    replace (S (S (length p + S (length m))) - length m)%nat with (S (S (length (p ++ [0])))).
    - cbn [drop]. rewrite (cons_middle 0 p m), app_assoc. apply drop_app_length.
    - rewrite length_app. cbn [length]. lia. }
  assert (Hs : exists pad_done pad_count bad',
    (if crypt then let '(pad_done, pad_count) := fold_left scan_crypt r (0, 0) in (pad_done, pad_count, bad)
     else fold_left scan_sign r (0, 0, bad)) = (pad_done, pad_count, bad') /\ is_byte bad' /\
    match split0 r with
    | Some (p, m) => pad_done = 1 /\ pad_count = zlen p /\ (bad' =? 0) = (bad =? 0) && (crypt || forallb (Z.eqb 0xFF) p)
    | None => pad_done = 0 /\ pad_count = zlen r
    end).
  { destruct crypt.
    - rewrite scan_crypt_eq by (try assumption; lia).
      destruct (split0 r) as [[p m]|]; do 3 eexists; (split; [reflexivity|]); rewrite ?andb_true_r; auto.
    - destruct (scan_sign_eq r 0 bad Hr ltac:(lia) ltac:(lia) Hbad) as (bad' & Hb' & H).
      destruct (split0 r) as [[p m]|]; [destruct H as [H HE]|]; do 3 eexists; (split; [exact H|]); auto. }
  destruct Hs as (pd & pc & bad' & E & Hb' & Hs). exists pd, pc, bad'.
  split; [subst bad ty; destruct crypt; exact E|]. split; [exact Hb'|].
  destruct (split0 r) as [[p m]|] eqn:Esp.
  - destruct Hs as (-> & -> & Hz). destruct (Hm p m eq_refl) as [Hl Hd].
    split; [by right|]. split; [lia|]. cbn [mbind option_bind].
    destruct (bad =? 0); [|left; cbn in Hz; to_prop; exact Hz]. cbn [andb] in Hz.
    destruct (8 <=? length p)%nat eqn:E8; to_prop; cbn [andb]; [|right; right; lia].
    rewrite <- Hz. destruct (bad' =? 0) eqn:Eb; to_prop; [|by left]. split_lia; assumption.
  - destruct Hs as (-> & ->). split; [by left|]. split; [lia|].
    destruct (bad =? 0); cbn; auto.
Qed.

Lemma drop_repeat (x : Z) n k : drop n (repeat x k) = repeat x (k - n).
Proof. revert k. induction n as [|n IH]; intros [|k]; cbn; auto. Qed.

(** The move and the copy: the last [max - k] bytes, then [k] zeros. *)
Lemma unpad_move (i output : bytes) (max k : nat) :
  bytes_ok i -> zlen i < 2 ^ 31 -> (max <= length i)%nat -> (max <= length output)%nat -> (k <= max)%nat ->
  let start := Z.to_nat (zlen i - Z.of_nat max) in
  let j := take start i ++ mbedtls_ct_mem_move_to_left (drop start i) (wrap 64 (Z.of_nat k)) in
  (if negb (zlen output =? 0)
   then take (Z.to_nat (Z.of_nat max)) (drop start j) ++ drop (Z.to_nat (Z.of_nat max)) output
   else output)
  = drop (length i - (max - k)) i ++ repeat 0 k ++ drop max output.
Proof.
  intros Hok Hl Hm Ho Hk start j.
  assert (Hs : start = (length i - max)%nat) by (subst start; lia).
  assert (Hd : length (drop start i) = max) by (rewrite length_drop; lia).
  subst j. rewrite wrap_small by (unfold word; lia).
  rewrite ct_mem_move_eq by (try rewrite Hd; try apply Forall_drop; try assumption; lia).
  rewrite drop_drop. replace (start + k)%nat with (length i - (max - k))%nat by lia.
  destruct (negb (zlen output =? 0)) eqn:E; to_prop.
  - rewrite Nat2Z.id, drop_app_exact by (rewrite length_take; lia).
    rewrite take_ge by (rewrite length_app, length_drop, repeat_length; lia). by rewrite <- app_assoc.
  - destruct output as [|x output]; [|cbn [length] in E; lia]. cbn [length] in Ho.
    replace k with 0%nat by lia. replace max with 0%nat by lia.
    rewrite drop_nil, drop_ge by lia. reflexivity.
Qed.

Lemma blank_tail mask i :
  bytes_ok i -> mask = 0 \/ mask = 2 ^ 32 - 1 ->
  let i' := take 11 i ++ map (fun b => u8 (Z.land b (bitnot 32 mask))) (drop 11 i) in
  bytes_ok i' /\ length i' = length i /\
  (mask = 0 -> i' = i) /\
  (mask = 2 ^ 32 - 1 -> forall n, (11 <= n)%nat -> drop n i' = repeat 0 (length i - n)).
Proof.
  intros Hok Hm i'. assert (Hmap : bytes_ok (map (fun b => u8 (Z.land b (bitnot 32 mask))) (drop 11 i))).
  { apply Forall_map. apply Forall_true. intros. apply u8_byte. }
  assert (Hlen : length i' = length i).
  { subst i'. rewrite length_app, length_map, length_take, length_drop. lia. }
  split; [apply bytes_ok_app; split; [by apply Forall_take|exact Hmap]|]. split; [exact Hlen|]. split.
  - intros ->. subst i'. rewrite <- (take_drop 11 i) at 3. f_equal.
    assert (Hd : bytes_ok (drop 11 i)) by (by apply Forall_drop).
    revert Hd. generalize (drop 11 i). intros l Hd. induction Hd as [|b l Hb _ IH]; [reflexivity|].
    cbn [map]. rewrite IH. f_equal. change (bitnot 32 0) with (2 ^ 32 - 1).
    rewrite Z.land_comm, land_all_ones by (unfold word, is_byte in *; lia). by apply u8_small.
  - intros -> n Hn. subst i'. change (bitnot 32 (2 ^ 32 - 1)) with 0.
    assert (Hz : map (fun b : Z => u8 (Z.land b 0)) (drop 11 i) = repeat 0 (length i - 11)).
    { rewrite <- length_drop. generalize (drop 11 i). intros l. induction l as [|b l IH]; [reflexivity|].
      cbn [map length repeat]. rewrite IH, Z.land_0_r. reflexivity. }
    rewrite Hz. destruct (Nat.le_gt_cases (length i) 11) as [H|H].
    + rewrite (take_ge i 11) by lia. replace (length i - 11)%nat with 0%nat by lia.
      replace (length i - n)%nat with 0%nat by lia. rewrite app_nil_r, drop_ge by lia. reflexivity.
    + rewrite drop_app_ge by (rewrite length_take; lia). rewrite length_take, Nat.min_l by lia.
      rewrite drop_repeat. f_equal. lia.
Qed.

(** The copy when the data must not be shown: [bad], or too large. *)
Lemma unpad_copy_blank (max : nat) bad pad_count ret input output :
  bytes_ok input -> 11 <= zlen input < 2 ^ 31 -> Z.of_nat max <= zlen input - 11 -> (max <= length output)%nat ->
  word 32 bad -> 
  (bad <> 0 /\ ret = MBEDTLS_ERR_RSA_INVALID_PADDING \/
   bad = 0 /\ 0 <= pad_count /\ Z.of_nat max < zlen input - pad_count - 3 /\
   ret = MBEDTLS_ERR_RSA_OUTPUT_TOO_LARGE) ->
  exists input', unpad_copy (Z.of_nat max) bad pad_count input output =
    (ret, input', repeat 0 max ++ drop max output, Z.of_nat max).
Proof.
  intros Hok Hlen Hmax Hout Hbad Hcase. unfold unpad_copy.
  rewrite (wrap_small 32 (Z.of_nat max)) by (unfold word; lia).
  assert (Hs : exists size, mbedtls_ct_uint_if bad (Z.of_nat max) (wrap 32 (zlen input - pad_count - 3)) = size /\
    0 <= size < 2 ^ 31 /\ (size = Z.of_nat max /\ bad <> 0 /\ ret = MBEDTLS_ERR_RSA_INVALID_PADDING
                        \/ bad = 0 /\ Z.of_nat max < size /\ ret = MBEDTLS_ERR_RSA_OUTPUT_TOO_LARGE)).
  { rewrite ct_uint_if_eq by (try apply wrap_word; try exact Hbad; unfold word; lia).
    destruct Hcase as [(Hb & ->)|(-> & ? & ? & ->)].
    - destruct (bad =? 0) eqn:E; to_prop; [done|]. eexists. split; [reflexivity|]. split; [lia|]. by left.
    - change (0 =? 0) with true. cbv iota. rewrite wrap_small by (unfold word; lia).
      eexists. split; [reflexivity|]. split; [lia|]. right. lia. }
  destruct Hs as (size & -> & Hr & Hsize). rewrite ct_size_gt_eq by lia.
  rewrite (wrap_small 32 size) by (unfold word; lia).
  assert (Hlor : word 32 (Z.lor bad (Z.b2z (Z.of_nat max <? size))))
    by (apply lor_word; [lia|exact Hbad|destruct (_ <? _); cbn [Z.b2z]; unfold word; lia]).
  unfold mbedtls_ct_uint_mask at 1. rewrite ct_mask_eq by (try lia; exact Hlor).
  rewrite lor_eq_0.
  assert (Hz : (bad =? 0) && (Z.b2z (Z.of_nat max <? size) =? 0) = false).
  { destruct Hsize as [(_ & Hb & _)|(_ & Hb & _)].
    - destruct (bad =? 0) eqn:E; to_prop; done.
    - destruct (_ <? _) eqn:E; to_prop; [by rewrite andb_false_r|lia]. }
  unfold mbedtls_ct_uint_mask. rewrite ct_mask_eq, lor_eq_0, Hz by (try lia; exact Hlor). cbv iota.
  destruct (blank_tail (2 ^ 32 - 1) input Hok ltac:(by right)) as (Hok' & Hlen' & _ & Hzero).
  specialize (Hzero eq_refl). set (i' := take 11 input ++ _) in *.
  assert (Hsz : mbedtls_ct_uint_if (Z.b2z (Z.of_nat max <? size)) (Z.of_nat max) size = Z.of_nat max).
  { rewrite ct_uint_if_eq by (unfold word; destruct (_ <? _); cbn [Z.b2z]; lia).
    destruct Hsize as [(-> & _)|(_ & H & _)]; [by case_if|].
    destruct (_ <? _) eqn:E; to_prop; [reflexivity|lia]. }
  rewrite Hsz, Z.sub_diag.
  pose proof (unpad_move i' output max 0 Hok' ltac:(lia) ltac:(lia) Hout ltac:(lia)) as M.
  cbn zeta in M. rewrite Hlen' in M. change (Z.of_nat 0) with 0 in M. rewrite M.
  rewrite Nat.sub_0_r, (Hzero (length input - max)%nat) by lia.
  replace (length input - (length input - max))%nat with max by lia.
  cbn [repeat app].
  match goal with |- context [- s32 ?x] => replace (- s32 x) with ret; [eexists; reflexivity|symmetry] end.
  unfold MBEDTLS_ERR_RSA_INVALID_PADDING, MBEDTLS_ERR_RSA_OUTPUT_TOO_LARGE in *.
  destruct Hsize as [(_ & Hb & ->)|(-> & Hb & ->)].
  - rewrite ct_uint_if_eq; [|exact Hbad|unfold word; lia|].
    + destruct (bad =? 0) eqn:E; to_prop; [done|reflexivity].
    + destruct (_ <? _); vm_compute; by split.
  - destruct (_ <? _) eqn:E; to_prop; [reflexivity|lia].
Qed.

(** The copy of a message that fits. *)
Lemma unpad_copy_message (max : nat) pad_count m input output :
  bytes_ok input -> 11 <= zlen input < 2 ^ 31 -> Z.of_nat max <= zlen input - 11 -> (max <= length output)%nat ->
  8 <= pad_count -> zlen m = zlen input - pad_count - 3 -> drop (length input - length m) input = m ->
  zlen m <= Z.of_nat max ->
  exists input', unpad_copy (Z.of_nat max) 0 pad_count input output =
    (0, input', m ++ repeat 0 (max - length m) ++ drop max output, zlen m).
Proof.
  intros Hok Hlen Hmax Hout Hpc Hm Hd Hfit. unfold unpad_copy.
  rewrite (wrap_small 32 (Z.of_nat max)) by (unfold word; lia).
  rewrite (wrap_small 32 (zlen input - pad_count - 3)) by (unfold word; lia).
  rewrite <- Hm. rewrite (ct_uint_if_eq 0 (Z.of_nat max) (zlen m)) by (unfold word; lia). change (0 =? 0) with true. cbv iota.
  rewrite ct_size_gt_eq by lia. replace (Z.of_nat max <? zlen m) with false by (symmetry; apply Z.ltb_ge; lia).
  change (Z.b2z false) with 0. change (Z.lor 0 0) with 0.
  rewrite (wrap_small 32 (zlen m)) by (unfold word; lia).
  rewrite (ct_uint_if_eq 0 (Z.of_nat max) (zlen m)) by (unfold word; lia).
  change (0 =? 0) with true. cbv iota. change (mbedtls_ct_uint_mask 0) with 0.
  destruct (blank_tail 0 input Hok ltac:(by left)) as (_ & _ & Hid & _). rewrite (Hid eq_refl). clear Hid.
  replace (Z.of_nat max - zlen m) with (Z.of_nat (max - length m)) by lia.
  pose proof (unpad_move input output max (max - length m) Hok ltac:(lia) ltac:(lia) Hout ltac:(lia)) as M.
  cbn zeta in M. rewrite M. replace (max - (max - length m))%nat with (length m) by lia. rewrite Hd.
  eexists. reflexivity.
Qed.

(** The branch-free unpadding computes what the standard's definition of a
    PKCS#1 v1.5 block says.  A valid message that fits is returned with its
    length, zero-filled to the size of the buffer; an invalid block and a
    message that is too long give their error code, a blanked buffer and the
    same length, so that only the return value tells them apart. *)
Theorem unpadding_correct mode input output :
  bytes_ok input -> 11 <= zlen input < 2 ^ 31 -> zlen output < 2 ^ 31 ->
  let max := Nat.min (length input - 11) (length output) in
  exists input',
    mbedtls_ct_rsaes_pkcs1_v15_unpadding mode input output =
    match pkcs1_v15_decode mode input with
    | None => (MBEDTLS_ERR_RSA_INVALID_PADDING, input', repeat 0 max ++ drop max output, Z.of_nat max)
    | Some m =>
        if (length m <=? max)%nat
        then (0, input', m ++ repeat 0 (max - length m) ++ drop max output, zlen m)
        else (MBEDTLS_ERR_RSA_OUTPUT_TOO_LARGE, input', repeat 0 max ++ drop max output, Z.of_nat max)
    end.
Proof.
  intros Hok Hlen Hout max. unfold mbedtls_ct_rsaes_pkcs1_v15_unpadding.
  rewrite wrap_small by (unfold word; lia).
  replace (if zlen input - 11 <? zlen output then _ else _) with (Z.of_nat max)
    by (subst max; destruct (_ <? _) eqn:E; to_prop; lia).
  destruct (unpad_scan_eq mode input Hok ltac:(lia)) as (pd & pc & bad & -> & Hbad & Hpd & Hpc & Hd).
  unfold is_byte in Hbad. rewrite ct_uint_if_eq by (unfold word; lia). rewrite ct_size_gt_eq by lia.
  set (bad' := Z.lor _ _).
  assert (Hb' : word 32 bad').
  { apply lor_word; [lia|apply lor_word; [lia|unfold word; lia|]|].
    - destruct (pd =? 0); unfold word; lia.
    - destruct (pc <? 8); unfold word; cbn [Z.b2z]; lia. }
  assert (Hz : (bad' =? 0) = (bad =? 0) && negb (pd =? 0) && negb (pc <? 8)).
  { subst bad'. rewrite !lor_eq_0. destruct (pd =? 0), (pc <? 8); reflexivity. }
  destruct (pkcs1_v15_decode mode input) as [m|].
  - destruct Hd as (-> & -> & H8 & Hm & Hdrop).
    assert (bad' = 0) as ->.
    { apply Z.eqb_eq. rewrite Hz. destruct (pc <? 8) eqn:E; to_prop; [lia|reflexivity]. }
    destruct (length m <=? max)%nat eqn:E; to_prop.
    + apply unpad_copy_message; try assumption; lia.
    + apply unpad_copy_blank; try assumption; lia.
  - apply unpad_copy_blank; [assumption|lia|lia|lia|exact Hb'|]. left. split; [|reflexivity].
    apply Z.eqb_neq. rewrite Hz. destruct Hd as [H|[->|H]].
    + apply Z.eqb_neq in H. by rewrite H.
    + by rewrite andb_false_r.
    + apply Z.ltb_lt in H. rewrite H. by rewrite andb_false_r.
Qed.

(** A block of 16 bytes with a two-byte message. *)
Definition sample_block : bytes := [0; 2; 1; 2; 3; 4; 5; 6; 7; 8; 9; 10; 11; 0; 79; 75].

Lemma unpadding_correct_witness :
  exists input',
    mbedtls_ct_rsaes_pkcs1_v15_unpadding MBEDTLS_RSA_PRIVATE sample_block [9; 9; 9; 9; 9; 9] =
    (0, input', [79; 75; 0; 0; 0; 9], 2).
Proof.
  apply (unpadding_correct MBEDTLS_RSA_PRIVATE sample_block [9; 9; 9; 9; 9; 9]).
  - bytes_ok_closed.
  - vm_compute. split; [discriminate|reflexivity].
  - vm_compute. reflexivity.
Defined.

(** ** The other primitives as conditionals *)

Lemma ct_cond_assign_eq dest src (b : bool) :
  Forall (word 64) dest -> Forall (word 64) src -> (length src <= length dest)%nat ->
  mbedtls_ct_mpi_uint_cond_assign dest src (Z.b2z b) =
  if b then src ++ drop (length src) dest else dest.
Proof.
  intros Hd Hs Hl. unfold mbedtls_ct_mpi_uint_cond_assign.
  replace (wrap 64 (- Z.b2z b)) with (if b then 2 ^ 64 - 1 else 0) by (destruct b; reflexivity).
  assert (E : zip_with (fun d s => Z.lor (Z.land s (if b then 2 ^ 64 - 1 else 0))
                (Z.land d (bitnot 64 (if b then 2 ^ 64 - 1 else 0)))) dest src =
              if b then src else take (length src) dest).
  { revert src Hs Hl. induction Hd as [|d dest Hd _ IH]; intros [|s src] Hs Hl;
      try (destruct b; reflexivity); [cbn in Hl; lia|].
    apply Forall_cons in Hs as [Hs Hss]. cbn [zip_with length take].
    rewrite (Z.land_comm s), (Z.land_comm d), (select 64) by (try assumption; lia).
    rewrite IH by (try assumption; cbn in Hl; lia). destruct b; reflexivity. }
  rewrite E. destruct b; [reflexivity|]. apply take_drop.
Qed.

Lemma memcpy_offset_loop dest src offset ks :
  bytes_ok dest -> bytes_ok src -> Z.of_nat offset < 2 ^ 63 ->
  (forall k, In k ks -> (k + length dest <= length src)%nat /\ Z.of_nat k < 2 ^ 63) ->
  fold_left (fun dest k => mbedtls_ct_memcpy_if_eq dest (take (length dest) (drop k src))
                             (Z.of_nat k) (Z.of_nat offset)) ks dest =
  if existsb (Nat.eqb offset) ks then take (length dest) (drop offset src) else dest.
Proof.
  intros Hd Hs Ho. revert dest Hd. induction ks as [|k ks IH]; intros dest Hd Hk; [reflexivity|].
  cbn [fold_left existsb]. destruct (Hk k ltac:(by left)) as [Hkl Hkb].
  rewrite ct_memcpy_if_eq_eq;
    [|unfold word; lia|unfold word; lia|exact Hd|by apply Forall_take, Forall_drop
     |rewrite length_take, length_drop; lia].
  destruct (Nat.eqb offset k) eqn:E; to_prop.
  - subst k. rewrite Z.eqb_refl. cbn [orb].
    assert (Hl : length (take (length dest) (drop offset src)) = length dest)
      by (rewrite length_take, length_drop; lia).
    rewrite IH; [|by apply Forall_take, Forall_drop|rewrite Hl; intros j Hj; apply Hk; by right].
    rewrite Hl. by destruct (existsb _ _).
  - destruct (Z.of_nat k =? Z.of_nat offset) eqn:F; to_prop; [lia|]. cbn [orb].
    apply IH; [exact Hd|]. intros j Hj. apply Hk. by right.
Qed.

(** Copying from a secret offset: whatever offset in the range is meant,
    the destination ends with the bytes found there, and an offset out of the
    range leaves it as it was. *)
Theorem ct_memcpy_offset_correct dest src offset offset_min offset_max :
  bytes_ok dest -> bytes_ok src -> (offset_min <= offset_max)%nat ->
  (offset_max + length dest <= length src)%nat -> zlen src < 2 ^ 63 -> Z.of_nat offset < 2 ^ 63 ->
  mbedtls_ct_memcpy_offset dest src offset offset_min offset_max =
  if (offset_min <=? offset)%nat && (offset <=? offset_max)%nat
  then take (length dest) (drop offset src) else dest.
Proof.
  intros Hd Hs Hr Hl Hb Ho. unfold mbedtls_ct_memcpy_offset.
  rewrite memcpy_offset_loop; [|assumption..|intros k Hk%in_seq; lia].
  replace (existsb _ _) with ((offset_min <=? offset)%nat && (offset <=? offset_max)%nat); [reflexivity|].
  apply eq_true_iff_eq. rewrite existsb_exists, andb_true_iff, !Nat.leb_le. split.
  - intros. exists offset. split; [apply in_seq; lia|apply Nat.eqb_refl].
  - intros (k & Hk%in_seq & ->%Nat.eqb_eq). lia.
Qed.

Lemma ct_memcpy_offset_correct_witness :
  mbedtls_ct_memcpy_offset [0; 0] [1; 2; 3; 4; 5] 2 0 3 = [3; 4].
Proof.
  apply (ct_memcpy_offset_correct [0; 0] [1; 2; 3; 4; 5] 2 0 3); try bytes_ok_closed;
    cbn [length]; lia.
Defined.
