(* ===== verification/Base64.v ===== *)
(** Base64 (mbedtls/library/base64.c): [mbedtls_base64_encode] and
    [mbedtls_base64_decode] with their length computations, error codes and
    output buffers.  The decoder inverts the encoder through any line wrapping
    and never writes past the size it announces. *)
From S2P Require Import Prelude CString ConstantTime.
From stdpp Require Import list.
#[local] Open Scope Z_scope.

Definition MBEDTLS_ERR_BASE64_BUFFER_TOO_SMALL : Z := -0x002A.
Definition MBEDTLS_ERR_BASE64_INVALID_CHARACTER : Z := -0x002C.
Definition BASE64_SIZE_T_MAX : Z := 2 ^ 64 - 1.

(** A buffer after [out] was written from its start. *)
Definition write_out (dst out : bytes) : bytes := out ++ drop (length out) dst.

(** ** Encoding *)

(** The loop over full groups and the treatment of the last one or two bytes. *)
Fixpoint encode_groups (src : bytes) : bytes :=
  match src with
  | [] => []
  | C1 :: [] =>
      [mbedtls_ct_base64_enc_char (Z.land (Z.shiftr C1 2) 0x3F);
       mbedtls_ct_base64_enc_char (Z.land (Z.shiftl (Z.land C1 3) 4 + Z.shiftr 0 4) 0x3F); 61; 61]
  | C1 :: C2 :: [] =>
      [mbedtls_ct_base64_enc_char (Z.land (Z.shiftr C1 2) 0x3F);
       mbedtls_ct_base64_enc_char (Z.land (Z.shiftl (Z.land C1 3) 4 + Z.shiftr C2 4) 0x3F);
       mbedtls_ct_base64_enc_char (Z.land (Z.shiftl (Z.land C2 15) 2) 0x3F); 61]
  | C1 :: C2 :: C3 :: rest =>
      [mbedtls_ct_base64_enc_char (Z.land (Z.shiftr C1 2) 0x3F);
       mbedtls_ct_base64_enc_char (Z.land (Z.shiftl (Z.land C1 3) 4 + Z.shiftr C2 4) 0x3F);
       mbedtls_ct_base64_enc_char (Z.land (Z.shiftl (Z.land C2 15) 2 + Z.shiftr C3 6) 0x3F);
       mbedtls_ct_base64_enc_char (Z.land C3 0x3F)] ++ encode_groups rest
  end.

(** [dst] is [None] for a null pointer, and otherwise the [dlen] bytes of the
    buffer.  The return value, [*olen] and the buffer afterwards. *)
Definition mbedtls_base64_encode (dst : option bytes) (src : bytes) : Z * Z * option bytes :=
  let slen := zlen src in
  if slen =? 0 then (0, 0, dst)
  else
    let n := slen / 3 + (if negb (slen mod 3 =? 0) then 1 else 0) in
    if (BASE64_SIZE_T_MAX - 1) / 4 <? n
    then (MBEDTLS_ERR_BASE64_BUFFER_TOO_SMALL, BASE64_SIZE_T_MAX, dst)
    else
      let n := n * 4 in
      match dst with
      | None => (MBEDTLS_ERR_BASE64_BUFFER_TOO_SMALL, n + 1, dst)
      | Some buf =>
          if zlen buf <? n + 1 then (MBEDTLS_ERR_BASE64_BUFFER_TOO_SMALL, n + 1, dst)
          else
            let out := encode_groups src in
            (0, zlen out, Some (write_out buf (out ++ [0])))
      end.

(** ** Decoding *)

(** The first pass: [n] and [equals], or [None] for an invalid character.
    [spaces] is [spaces_present]; the inner loop over spaces is the branch for
    a space, and running out of input after it is the [break]. *)
Fixpoint scan (src : bytes) (spaces : bool) (n equals : Z) : option (Z * Z) :=
  match src with
  | [] => Some (n, equals)
  | b :: rest =>
      if b =? 32 then scan rest true n equals
      else if (b =? 13) && (match rest with c :: _ => c =? 10 | [] => false end)
      then scan rest false n equals
      else if b =? 10 then scan rest false n equals
      else if spaces then None
      else if 127 <? b then None
      else if b =? 61 then
        if 2 <? equals + 1 then None else scan rest false (n + 1) (equals + 1)
      else if negb (equals =? 0) then None
      else if mbedtls_ct_base64_dec_value b <? 0 then None
      else scan rest false (n + 1) equals
  end.

(** The second pass: the bytes written through [p]. *)
Fixpoint emit_octets (src : bytes) (x accumulated_digits equals : Z) : bytes :=
  match src with
  | [] => []
  | b :: rest =>
      if (b =? 13) || (b =? 10) || (b =? 32) then emit_octets rest x accumulated_digits equals
      else
        let x := u32 (Z.shiftl x 6) in
        let '(equals, x) :=
          if b =? 61 then (equals + 1, x) else (equals, u32 (Z.lor x (mbedtls_ct_base64_dec_value b))) in
        if accumulated_digits + 1 =? 4 then
          [Z.land (Z.shiftr x 16) 0xff] ++
          (if equals <=? 1 then [Z.land (Z.shiftr x 8) 0xff] else []) ++
          (if equals <=? 0 then [Z.land x 0xff] else []) ++
          emit_octets rest x 0 equals
        else emit_octets rest x (accumulated_digits + 1) equals
  end.

(** [*olen] is [None] where the function leaves it alone. *)
Definition mbedtls_base64_decode (dst : option bytes) (src : bytes) : Z * option Z * option bytes :=
  match scan src false 0 0 with
  | None => (MBEDTLS_ERR_BASE64_INVALID_CHARACTER, None, dst)
  | Some (n, equals) =>
      if n =? 0 then (0, Some 0, dst)
      else
        let n := 6 * Z.shiftr n 3 + Z.shiftr (6 * Z.land n 0x7 + 7) 3 in
        let n := n - equals in
        match dst with
        | None => (MBEDTLS_ERR_BASE64_BUFFER_TOO_SMALL, Some n, dst)
        | Some buf =>
            if zlen buf <? n then (MBEDTLS_ERR_BASE64_BUFFER_TOO_SMALL, Some n, dst)
            else
              let out := emit_octets src 0 0 0 in
              (0, Some (zlen out), Some (write_out buf out))
        end
  end.

(** ** Digits *)

(** A check of every six-bit value proves it of any of them. *)
Lemma digit_check (P : Z -> bool) d :
  forallb P (map Z.of_nat (seq 0 64)) = true -> 0 <= d < 64 -> P d = true.
Proof.
  rewrite forallb_Forall, Forall_forall. intros H Hb. apply H.
  apply list_elem_of_fmap. exists (Z.to_nat d). rewrite elem_of_seq. split; lia.
Qed.

Definition digit_ok (d : Z) : bool :=
  let c := mbedtls_ct_base64_enc_char d in
  negb (c =? 32) && negb (c =? 13) && negb (c =? 10) && negb (c =? 61) &&
  (c <=? 127) && (mbedtls_ct_base64_dec_value c =? d).

Lemma enc_char_ok d : 0 <= d < 64 -> digit_ok d = true.
Proof. apply digit_check. vm_compute. reflexivity. Qed.

Definition base64_alphabet : bytes :=
  str "ABCDEFGHIJKLMNOPQRSTUVWXYZabcdefghijklmnopqrstuvwxyz0123456789+/".

(** The branch-free digit maps are look-ups in the alphabet. *)
Lemma enc_char_alphabet d : 0 <= d < 64 -> mbedtls_ct_base64_enc_char d = nth (Z.to_nat d) base64_alphabet 0.
Proof.
  intros Hd. apply Z.eqb_eq. revert d Hd.
  intros d. apply (digit_check (fun d => mbedtls_ct_base64_enc_char d =? nth (Z.to_nat d) base64_alphabet 0)).
  vm_compute. reflexivity.
Qed.

Lemma dec_value_alphabet c :
  is_byte c ->
  mbedtls_ct_base64_dec_value c =
  match find_pred (Z.eqb c) base64_alphabet with Some i => Z.of_nat i | None => -1 end.
Proof.
  intros Hc. apply Z.eqb_eq. revert c Hc. intros c.
  apply (byte_check (fun c => mbedtls_ct_base64_dec_value c =?
    match find_pred (Z.eqb c) base64_alphabet with Some i => Z.of_nat i | None => -1 end)).
  vm_compute. reflexivity.
Qed.

(** ** Layout *)

(** [wraps t s]: [s] is the text [t] with line breaks inserted anywhere, LF or
    CR LF, each after any number of spaces, and spaces at the end. *)
Inductive wraps : bytes -> bytes -> Prop :=
| wraps_end k : wraps [] (repeat 32 k)
| wraps_char b t s : wraps t s -> wraps (b :: t) (b :: s)
| wraps_lf k t s : wraps t s -> wraps t (repeat 32 k ++ 10 :: s)
| wraps_crlf k t s : wraps t s -> wraps t (repeat 32 k ++ 13 :: 10 :: s).

Definition is_layout (b : Z) : bool := (b =? 13) || (b =? 10) || (b =? 32).
Definition no_layout : bytes -> Prop := Forall (fun b => is_layout b = false).

Lemma scan_spaces k s sp n e : scan (repeat 32 (S k) ++ s) sp n e = scan s true n e.
Proof.
  revert sp. induction k as [|k IH]; intros sp; [reflexivity|].
  change (repeat 32 (S (S k)) ++ s) with (32 :: (repeat 32 (S k) ++ s)). cbn [scan]. apply IH.
Qed.

(** A line break resets the scan, whatever spaces come before it. *)
Lemma scan_break k s sp n e :
  scan (repeat 32 k ++ 10 :: s) sp n e = scan s false n e /\
  scan (repeat 32 k ++ 13 :: 10 :: s) sp n e = scan s false n e.
Proof. destruct k; [|rewrite !scan_spaces]; split; reflexivity. Qed.

Lemma scan_layout_char b s n e :
  is_layout b = false ->
  scan (b :: s) false n e =
  if 127 <? b then None
  else if b =? 61 then if 2 <? e + 1 then None else scan s false (n + 1) (e + 1)
  else if negb (e =? 0) then None
  else if mbedtls_ct_base64_dec_value b <? 0 then None
  else scan s false (n + 1) e.
Proof.
  unfold is_layout. intros H. to_prop. cbn [scan].
  destruct (b =? 32) eqn:A, (b =? 13) eqn:B, (b =? 10) eqn:C; to_prop; try lia. reflexivity.
Qed.

Lemma scan_wraps t s n e :
  wraps t s -> no_layout t -> scan s false n e = scan t false n e.
Proof.
  intros H. revert n e. induction H as [k|b t s _ IH|k t s _ IH|k t s _ IH]; intros n e Ht.
  - destruct k; [reflexivity|]. rewrite <- (app_nil_r (repeat _ _)), scan_spaces. reflexivity.
  - apply Forall_cons in Ht as [Hb Ht]. rewrite !scan_layout_char by exact Hb.
    rewrite !IH by exact Ht. reflexivity.
  - rewrite (proj1 (scan_break k s false n e)). apply IH, Ht.
  - rewrite (proj2 (scan_break k s false n e)). apply IH, Ht.
Qed.

Lemma emit_layout b s x a e : is_layout b = true -> emit_octets (b :: s) x a e = emit_octets s x a e.
Proof. unfold is_layout. cbn [emit_octets]. intros ->. reflexivity. Qed.

Lemma emit_spaces k s x a e : emit_octets (repeat 32 k ++ s) x a e = emit_octets s x a e.
Proof. induction k as [|k IH]; [reflexivity|]. cbn [repeat app]. by rewrite emit_layout. Qed.

Lemma emit_char b s s' x a e :
  (forall x a e, emit_octets s x a e = emit_octets s' x a e) -> emit_octets (b :: s) x a e = emit_octets (b :: s') x a e.
Proof.
  intros H. cbn [emit_octets]. destruct (_ || _); [apply H|].
  destruct (if b =? 61 then _ else _) as [e' x']. destruct (_ =? 4); rewrite ?H; reflexivity.
Qed.

Lemma emit_wraps t s x a e : wraps t s -> emit_octets s x a e = emit_octets t x a e.
Proof.
  intros H. revert x a e. induction H as [k|b t s _ IH|k t s _ IH|k t s _ IH]; intros x a e.
  - rewrite <- (app_nil_r (repeat _ _)), emit_spaces. reflexivity.
  - by apply emit_char.
  - rewrite emit_spaces, emit_layout by reflexivity. apply IH.
  - rewrite emit_spaces, !emit_layout by reflexivity. apply IH.
Qed.

(** ** Groups *)

(** The digits of a text character. *)
Lemma scan_digit d s n :
  0 <= d < 64 -> scan (mbedtls_ct_base64_enc_char d :: s) false n 0 = scan s false (n + 1) 0.
Proof.
  intros Hd. pose proof (enc_char_ok d Hd) as H. unfold digit_ok in H. to_prop.
  rewrite scan_layout_char.
  - destruct (127 <? _) eqn:E; to_prop; [lia|]. destruct (_ =? 61) eqn:F; to_prop; [done|].
    change (negb (0 =? 0)) with false. cbv iota. destruct (_ <? 0) eqn:G; to_prop; [lia|reflexivity].
  - unfold is_layout. rewrite !orb_false_iff, !Z.eqb_neq. tauto.
Qed.

Lemma shift_in x d : 0 <= d < 64 -> u32 (Z.lor (u32 (Z.shiftl x 6)) d) = u32 (x * 64 + d).
Proof.
  intros Hd. unfold u32. rewrite Z.shiftl_mul_pow2 by lia. change (2 ^ 6) with 64.
  replace ((x * 64) mod 2 ^ 32) with ((x mod 2 ^ 26) * 2 ^ 6).
  - rewrite (lor_add 6) by lia. rewrite Z.mod_small.
    + rewrite (Z.mod_eq x), (Z.mod_eq (x * 64 + d)) by lia.
      replace ((x * 64 + d) / 2 ^ 32) with (x / 2 ^ 26); [lia|].
      change (2 ^ 32) with (64 * 2 ^ 26). rewrite <- Z.div_div by lia.
      rewrite Z.div_add_l, (Z.div_small d) by lia. f_equal. lia.
    + pose proof (Z.mod_pos_bound x (2 ^ 26)). lia.
  - change (2 ^ 32) with (2 ^ 26 * 64). rewrite Z.mul_mod_distr_r by lia. lia.
Qed.

Lemma emit_digit d s x a :
  0 <= d < 64 ->
  emit_octets (mbedtls_ct_base64_enc_char d :: s) x a 0 =
  if a + 1 =? 4 then
    let x := u32 (x * 64 + d) in
    [Z.land (Z.shiftr x 16) 0xff; Z.land (Z.shiftr x 8) 0xff; Z.land x 0xff] ++ emit_octets s x 0 0
  else emit_octets s (u32 (x * 64 + d)) (a + 1) 0.
Proof.
  intros Hd. pose proof (enc_char_ok d Hd) as H. unfold digit_ok in H. to_prop.
  cbn [emit_octets]. replace (_ || _ || _) with false
    by (symmetry; rewrite !orb_false_iff, !Z.eqb_neq; tauto).
  destruct (_ =? 61) eqn:F; to_prop; [done|]. rewrite H0, shift_in by lia. reflexivity.
Qed.

Lemma emit_pad s x a e :
  emit_octets (61 :: s) x a e =
  if a + 1 =? 4 then
    let x := u32 (Z.shiftl x 6) in
    [Z.land (Z.shiftr x 16) 0xff] ++ (if e + 1 <=? 1 then [Z.land (Z.shiftr x 8) 0xff] else []) ++
    (if e + 1 <=? 0 then [Z.land x 0xff] else []) ++ emit_octets s x 0 (e + 1)
  else emit_octets s (u32 (Z.shiftl x 6)) (a + 1) (e + 1).
Proof. reflexivity. Qed.

Lemma u32_fold x d : u32 (u32 x * 64 + d) = u32 (x * 64 + d).
Proof.
  unfold u32. rewrite <- (Zplus_mod_idemp_l (x mod 2 ^ 32 * 64)), Zmult_mod_idemp_l, Zplus_mod_idemp_l.
  reflexivity.
Qed.

Lemma u32_shift x : u32 (Z.shiftl x 6) = u32 (x * 64 + 0).
Proof. rewrite Z.shiftl_mul_pow2, Z.add_0_r by lia. reflexivity. Qed.

(** The three bytes of the accumulator after four digits of value [v]. *)
Lemma group_bytes x v :
  0 <= v < 2 ^ 24 ->
  Z.land (Z.shiftr (u32 (x * 2 ^ 24 + v)) 16) 0xff = v / 65536 /\
  Z.land (Z.shiftr (u32 (x * 2 ^ 24 + v)) 8) 0xff = v / 256 mod 256 /\
  Z.land (u32 (x * 2 ^ 24 + v)) 0xff = v mod 256.
Proof.
  intros Hv. unfold u32. rewrite !land_255, !Z.shiftr_div_pow2 by lia.
  assert (E : (x * 2 ^ 24 + v) mod 2 ^ 32 = (x mod 256) * 2 ^ 24 + v).
  { rewrite (Z.mod_eq x), (Z.mod_eq (_ + v)) by lia.
    replace ((x * 2 ^ 24 + v) / 2 ^ 32) with (x / 256); [lia|].
    change (2 ^ 32) with (2 ^ 24 * 256). rewrite <- Z.div_div, Z.div_add_l, (Z.div_small v) by lia.
    f_equal. lia. }
  rewrite E. change (2 ^ 16) with 65536. change (2 ^ 8) with 256. change (2 ^ 24) with (256 * 65536) in *.
  set (y := x mod 256) in *. split; [|split].
  - rewrite Z.mul_assoc, Z.div_add_l, Z.add_comm, Z.mod_add by lia. apply Z.mod_small.
    split; [apply Z.div_pos; lia|apply Z.div_lt_upper_bound; lia].
  - replace (y * (256 * 65536) + v) with (y * 256 * 256 * 256 + v) by lia.
    rewrite Z.div_add_l, Z.add_comm, Z.mod_add by lia. reflexivity.
  - replace (y * (256 * 65536) + v) with (v + y * 65536 * 256) by lia. apply Z.mod_add. lia.
Qed.

(** The digits of three bytes, as arithmetic. *)
Lemma digit1 C1 : is_byte C1 -> Z.land (Z.shiftr C1 2) 0x3F = C1 / 4 /\ 0 <= C1 / 4 < 64.
Proof.
  unfold is_byte. intros H. rewrite land_63, Z.shiftr_div_pow2 by lia. change (2 ^ 2) with 4.
  pose proof (Z.div_mod C1 4 ltac:(lia)). pose proof (Z.mod_pos_bound C1 4 ltac:(lia)).
  rewrite Z.mod_small; lia.
Qed.

Lemma digit2 C1 C2 :
  is_byte C1 -> is_byte C2 ->
  Z.land (Z.shiftl (Z.land C1 3) 4 + Z.shiftr C2 4) 0x3F = C1 mod 4 * 16 + C2 / 16 /\
  0 <= C1 mod 4 * 16 + C2 / 16 < 64.
Proof.
  unfold is_byte. intros H1 H2. change 3 with (Z.ones 2). rewrite Z.land_ones by lia.
  rewrite land_63, Z.shiftr_div_pow2, Z.shiftl_mul_pow2 by lia. change (2 ^ 2) with 4. change (2 ^ 4) with 16.
  pose proof (Z.div_mod C2 16 ltac:(lia)). pose proof (Z.mod_pos_bound C2 16 ltac:(lia)).
  pose proof (Z.mod_pos_bound C1 4 ltac:(lia)). rewrite Z.mod_small; lia.
Qed.

Lemma digit3 C2 C3 :
  is_byte C2 -> is_byte C3 ->
  Z.land (Z.shiftl (Z.land C2 15) 2 + Z.shiftr C3 6) 0x3F = C2 mod 16 * 4 + C3 / 64 /\
  0 <= C2 mod 16 * 4 + C3 / 64 < 64.
Proof.
  unfold is_byte. intros H1 H2. rewrite land_15.
  rewrite land_63, Z.shiftr_div_pow2, Z.shiftl_mul_pow2 by lia. change (2 ^ 2) with 4. change (2 ^ 6) with 64.
  pose proof (Z.div_mod C3 64 ltac:(lia)). pose proof (Z.mod_pos_bound C3 64 ltac:(lia)).
  pose proof (Z.mod_pos_bound C2 16 ltac:(lia)). rewrite Z.mod_small; lia.
Qed.

Lemma digit4 C3 : Z.land C3 0x3F = C3 mod 64 /\ 0 <= C3 mod 64 < 64.
Proof. rewrite land_63. split; [reflexivity|]. apply Z.mod_pos_bound. lia. Qed.

Lemma digits_value C1 C2 C3 :
  C1 / 4 * 2 ^ 18 + (C1 mod 4 * 16 + C2 / 16) * 2 ^ 12 + (C2 mod 16 * 4 + C3 / 64) * 2 ^ 6 + C3 mod 64 =
  C1 * 65536 + C2 * 256 + C3.
Proof.
  pose proof (Z.div_mod C1 4 ltac:(lia)). pose proof (Z.div_mod C2 16 ltac:(lia)).
  pose proof (Z.div_mod C3 64 ltac:(lia)). lia.
Qed.

Lemma value_bytes C1 C2 C3 :
  is_byte C1 -> is_byte C2 -> is_byte C3 ->
  let v := C1 * 65536 + C2 * 256 + C3 in
  0 <= v < 2 ^ 24 /\ v / 65536 = C1 /\ v / 256 mod 256 = C2 /\ v mod 256 = C3.
Proof.
  intros H1 H2 H3 v. unfold is_byte in *. subst v. split; [lia|]. split; [|split].
  - symmetry. apply (Z.div_unique _ _ _ (C2 * 256 + C3)); lia.
  - replace ((C1 * 65536 + C2 * 256 + C3) / 256) with (C2 + C1 * 256).
    + rewrite Z.mod_add by lia. apply Z.mod_small. lia.
    + apply (Z.div_unique _ _ _ C3); lia.
  - symmetry. apply (Z.mod_unique _ _ (C1 * 256 + C2)); lia.
Qed.

Lemma u32_group x d1 d2 d3 d4 :
  u32 (u32 (u32 (u32 (x * 64 + d1) * 64 + d2) * 64 + d3) * 64 + d4) =
  u32 (x * 2 ^ 24 + (d1 * 2 ^ 18 + d2 * 2 ^ 12 + d3 * 2 ^ 6 + d4)).
Proof. rewrite (u32_fold (x * 64 + d1)), (u32_fold _ d3), (u32_fold _ d4). f_equal. lia. Qed.

Lemma emit_group C1 C2 C3 s x :
  is_byte C1 -> is_byte C2 -> is_byte C3 ->
  emit_octets (encode_groups [C1; C2; C3] ++ s) x 0 0 =
  [C1; C2; C3] ++ emit_octets s (u32 (x * 2 ^ 24 + (C1 * 65536 + C2 * 256 + C3))) 0 0.
Proof.
  intros H1 H2 H3. cbn [encode_groups app].
  destruct (digit1 C1 H1) as [-> B1], (digit2 C1 C2 H1 H2) as [-> B2],
    (digit3 C2 C3 H2 H3) as [-> B3], (digit4 C3) as [-> B4].
  rewrite !emit_digit by assumption.
  change (0 + 1 =? 4) with false. change (0 + 1 + 1 =? 4) with false.
  change (0 + 1 + 1 + 1 =? 4) with false. change (0 + 1 + 1 + 1 + 1 =? 4) with true. cbv iota zeta.
  rewrite u32_group, digits_value.
  destruct (value_bytes C1 C2 C3 H1 H2 H3) as (Hv & E1 & E2 & E3).
  destruct (group_bytes x _ Hv) as (-> & -> & ->). rewrite E1, E2, E3. reflexivity.
Qed.

Lemma emit_last2 C1 C2 x :
  is_byte C1 -> is_byte C2 -> emit_octets (encode_groups [C1; C2]) x 0 0 = [C1; C2].
Proof.
  intros H1 H2. cbn [encode_groups].
  pose proof (digit3 C2 0 H2 ltac:(unfold is_byte; lia)) as [E3 B3].
  rewrite Z.shiftr_0_l, Z.add_0_r in E3. change (0 / 64) with 0 in *.
  destruct (digit1 C1 H1) as [-> B1], (digit2 C1 C2 H1 H2) as [-> B2].
  rewrite E3, !emit_digit, emit_pad by assumption.
  change (0 + 1 =? 4) with false. change (0 + 1 + 1 =? 4) with false.
  change (0 + 1 + 1 + 1 =? 4) with false. change (0 + 1 + 1 + 1 + 1 =? 4) with true. cbv iota zeta.
  rewrite u32_shift, u32_group.
  pose proof (digits_value C1 C2 0) as Dv. change (0 / 64) with 0 in Dv. change (0 mod 64) with 0 in Dv.
  rewrite Dv. destruct (value_bytes C1 C2 0 H1 H2 ltac:(unfold is_byte; lia)) as (Hv & E1 & E2 & _).
  destruct (group_bytes x _ Hv) as (-> & -> & _). rewrite E1, E2. reflexivity.
Qed.

Lemma emit_last1 C1 x : is_byte C1 -> emit_octets (encode_groups [C1]) x 0 0 = [C1].
Proof.
  intros H1. cbn [encode_groups].
  pose proof (digit2 C1 0 H1 ltac:(unfold is_byte; lia)) as [-> B2].
  destruct (digit1 C1 H1) as [-> B1].
  rewrite !emit_digit, !emit_pad by assumption.
  change (0 + 1 =? 4) with false. change (0 + 1 + 1 =? 4) with false.
  change (0 + 1 + 1 + 1 =? 4) with false. change (0 + 1 + 1 + 1 + 1 =? 4) with true. cbv iota zeta.
  rewrite !u32_shift, u32_group.
  pose proof (digits_value C1 0 0) as Dv. change (0 / 64) with 0 in Dv. change (0 mod 64) with 0 in Dv.
  change (0 mod 16 * 4 + 0) with 0 in Dv. rewrite Dv.
  destruct (value_bytes C1 0 0 H1 ltac:(unfold is_byte; lia) ltac:(unfold is_byte; lia)) as (Hv & E1 & _).
  destruct (group_bytes x _ Hv) as (-> & _). rewrite E1. reflexivity.
Qed.

(** Induction by three elements. *)
Lemma triple_ind (P : bytes -> Prop) :
  P [] -> (forall a, P [a]) -> (forall a b, P [a; b]) ->
  (forall a b c l, P l -> P (a :: b :: c :: l)) -> forall l, P l.
Proof.
  intros H0 H1 H2 H3 l. enough (P l /\ (forall a, P (a :: l)) /\ (forall a b, P (a :: b :: l))) by tauto.
  induction l as [|x l (IH & IH1 & IH2)]; auto.
Qed.

Lemma emit_encode src x : bytes_ok src -> emit_octets (encode_groups src) x 0 0 = src.
Proof.
  revert x. induction src as [|a|a b|a b c l IH] using triple_ind; intros x H.
  - reflexivity.
  - apply emit_last1. by apply Forall_cons in H as [? _].
  - apply Forall_cons in H as [? H]. apply Forall_cons in H as [? _]. by apply emit_last2.
  - apply Forall_cons in H as [? H]. apply Forall_cons in H as [? H]. apply Forall_cons in H as [? H].
    change (encode_groups (a :: b :: c :: l)) with (encode_groups [a; b; c] ++ encode_groups l).
    rewrite emit_group, IH by assumption. reflexivity.
Qed.

(** What the first pass counts: four characters per group, and the padding. *)
Definition padding (src : bytes) : Z := (3 - zlen src mod 3) mod 3.

Lemma scan_pad2 n : scan [61; 61] false n 0 = Some (n + 1 + 1, 2).
Proof. reflexivity. Qed.

Lemma scan_pad1 n : scan [61] false n 0 = Some (n + 1, 1).
Proof. reflexivity. Qed.

Lemma zlen3 a b c (l : bytes) : zlen (a :: b :: c :: l) = zlen l + 1 * 3.
Proof. cbn [length]. lia. Qed.

Lemma scan_encode src : forall n,
  bytes_ok src -> scan (encode_groups src) false n 0 = Some (n + zlen (encode_groups src), padding src).
Proof.
  induction src as [|a|a b|a b c l IH] using triple_ind; intros n H.
  - cbn. by rewrite Z.add_0_r.
  - apply Forall_cons in H as [Ha _]. cbn [encode_groups].
    destruct (digit1 a Ha) as [-> ?], (digit2 a 0 Ha ltac:(unfold is_byte; lia)) as [-> ?].
    rewrite !scan_digit, scan_pad2 by assumption. f_equal. f_equal. cbn [length]. lia.
  - apply Forall_cons in H as [Ha H]. apply Forall_cons in H as [Hb _]. cbn [encode_groups].
    pose proof (digit3 b 0 Hb ltac:(unfold is_byte; lia)) as [E3 B3].
    rewrite Z.shiftr_0_l, Z.add_0_r in E3. rewrite E3.
    destruct (digit1 a Ha) as [-> ?], (digit2 a b Ha Hb) as [-> ?].
    rewrite !scan_digit, scan_pad1 by assumption. f_equal. f_equal. cbn [length]. lia.
  - apply Forall_cons in H as [Ha H]. apply Forall_cons in H as [Hb H]. apply Forall_cons in H as [Hc H].
    change (encode_groups (a :: b :: c :: l)) with (encode_groups [a; b; c] ++ encode_groups l).
    cbn [encode_groups app].
    destruct (digit1 a Ha) as [-> ?], (digit2 a b Ha Hb) as [-> ?], (digit3 b c Hb Hc) as [-> ?],
      (digit4 c) as [-> ?].
    rewrite !scan_digit, IH by assumption. f_equal. f_equal; [cbn [length]; lia|].
    unfold padding. rewrite zlen3, Z.mod_add by lia. reflexivity.
Qed.

Lemma encode_length src : zlen (encode_groups src) = 4 * ((zlen src + 2) / 3).
Proof.
  induction src as [|a|a b|a b c l IH] using triple_ind; try reflexivity.
  change (encode_groups (a :: b :: c :: l)) with (encode_groups [a; b; c] ++ encode_groups l).
  rewrite zlen_app, IH, zlen3. change (zlen (encode_groups [a; b; c])) with 4.
  replace (zlen l + 1 * 3 + 2) with (zlen l + 2 + 1 * 3) by lia. rewrite Z.div_add by lia. lia.
Qed.

Lemma encode_no_layout src : bytes_ok src -> no_layout (encode_groups src).
Proof.
  assert (D : forall d, 0 <= d < 64 -> is_layout (mbedtls_ct_base64_enc_char d) = false).
  { intros d Hd. pose proof (enc_char_ok d Hd) as H. unfold digit_ok in H. to_prop.
    unfold is_layout. rewrite !orb_false_iff, !Z.eqb_neq. tauto. }
  intros H. assert (M : forall z, is_layout (mbedtls_ct_base64_enc_char (Z.land z 0x3F)) = false)
    by (intros z; apply D; rewrite (proj1 (digit4 z)); apply digit4).
  clear H. induction src as [|a|a b|a b c l IH] using triple_ind; cbn [encode_groups app];
    repeat constructor; auto.
Qed.

(** ** The functions *)

Lemma output_size n e k :
  0 <= n -> 0 <= e -> n = 4 * k ->
  6 * Z.shiftr n 3 + Z.shiftr (6 * Z.land n 0x7 + 7) 3 - e = 3 * k - e.
Proof.
  intros Hn He ->. change 7 with (Z.ones 3) at 1. rewrite Z.land_ones, !Z.shiftr_div_pow2 by lia.
  change (2 ^ 3) with 8. f_equal.
  pose proof (Z.div_mod (4 * k) 8 ltac:(lia)). pose proof (Z.mod_pos_bound (4 * k) 8 ltac:(lia)).
  set (q := 4 * k / 8) in *. set (r := (4 * k) mod 8) in *.
  assert (r = 0 \/ r = 4) as [-> | ->] by lia.
  - change ((6 * 0 + 7) / 8) with 0. lia.
  - change ((6 * 4 + 7) / 8) with 3. lia.
Qed.

Lemma padding_size (src : bytes) : 3 * ((zlen src + 2) / 3) - padding src = zlen src.
Proof.
  unfold padding. pose proof (Z.div_mod (zlen src) 3 ltac:(lia)). pose proof (Z.mod_pos_bound (zlen src) 3 ltac:(lia)).
  set (q := zlen src / 3) in *. set (r := zlen src mod 3) in *.
  replace (zlen src + 2) with (r + 2 + q * 3) by lia. rewrite Z.div_add by lia.
  assert (r = 0 \/ r = 1 \/ r = 2) as [-> | [-> | ->]] by lia.
  - change ((0 + 2) / 3) with 0. change ((3 - 0) mod 3) with 0. lia.
  - change ((1 + 2) / 3) with 1. change ((3 - 1) mod 3) with 2. lia.
  - change ((2 + 2) / 3) with 1. change ((3 - 2) mod 3) with 1. lia.
Qed.

Lemma groups_ceil n : 0 <= n -> n / 3 + (if negb (n mod 3 =? 0) then 1 else 0) = (n + 2) / 3.
Proof.
  intros Hn. pose proof (Z.div_mod n 3 ltac:(lia)). pose proof (Z.mod_pos_bound n 3 ltac:(lia)).
  set (q := n / 3) in *. set (r := n mod 3) in *.
  replace (n + 2) with (r + 2 + q * 3) by lia. rewrite Z.div_add by lia.
  assert (r = 0 \/ r = 1 \/ r = 2) as [-> | [-> | ->]] by lia; cbv beta iota delta [Z.eqb negb];
    [change ((0 + 2) / 3) with 0|change ((1 + 2) / 3) with 1|change ((2 + 2) / 3) with 1]; lia.
Qed.

(** The encoder on every branch: nothing to do, a buffer that is too small, or
    the text and its terminator. *)
Lemma encode_facts dst src :
  0 < zlen src < 2 ^ 62 ->
  mbedtls_base64_encode dst src =
  let olen := zlen (encode_groups src) in
  match dst with
  | Some buf =>
      if olen + 1 <=? zlen buf then (0, olen, Some (write_out buf (encode_groups src ++ [0])))
      else (MBEDTLS_ERR_BASE64_BUFFER_TOO_SMALL, olen + 1, dst)
  | None => (MBEDTLS_ERR_BASE64_BUFFER_TOO_SMALL, olen + 1, dst)
  end.
Proof.
  intros Hl. unfold mbedtls_base64_encode. rewrite encode_length, groups_ceil by lia.
  destruct (zlen src =? 0) eqn:E; to_prop; [lia|].
  assert ((zlen src + 2) / 3 < 2 ^ 61) by (apply Z.div_lt_upper_bound; lia).
  replace ((BASE64_SIZE_T_MAX - 1) / 4 <? _) with false
    by (symmetry; apply Z.ltb_ge; change ((BASE64_SIZE_T_MAX - 1) / 4) with 4611686018427387903; lia).
  cbn zeta. rewrite (Z.mul_comm _ 4). destruct dst as [buf|]; [|reflexivity].
  destruct (_ <? _) eqn:A, (_ <=? _) eqn:B; to_prop; try lia; reflexivity.
Qed.

(** What the encoder writes, wrapped into lines of any lengths with LF or
    CR LF and stray spaces before the breaks, the decoder turns back into the
    bytes that were encoded, in a buffer of exactly that size. *)
Theorem decode_encode_wrapped src text buf :
  bytes_ok src -> wraps (encode_groups src) text -> zlen src <= zlen buf ->
  mbedtls_base64_decode (Some buf) text = (0, Some (zlen src), Some (write_out buf src)).
Proof.
  intros Hok Hw Hb. unfold mbedtls_base64_decode.
  rewrite (scan_wraps _ _ _ _ Hw (encode_no_layout _ Hok)), scan_encode by exact Hok.
  rewrite Z.add_0_l. pose proof (encode_length src) as Hl. pose proof (padding_size src) as Hp.
  assert (0 <= padding src) by (apply Z.mod_pos_bound; lia).
  destruct (_ =? 0) eqn:E; to_prop.
  - assert ((zlen src + 2) / 3 = 0) by lia. pose proof (Z.div_mod (zlen src + 2) 3 ltac:(lia)).
    pose proof (Z.mod_pos_bound (zlen src + 2) 3 ltac:(lia)).
    destruct src; [reflexivity|cbn [length] in *; lia].
  - rewrite (output_size _ _ ((zlen src + 2) / 3)) by lia. rewrite Hp.
    destruct (_ <? _) eqn:F; to_prop; [lia|].
    rewrite (emit_wraps _ _ _ _ _ Hw), emit_encode by exact Hok. reflexivity.
Qed.

Lemma decode_encode_wrapped_witness :
  mbedtls_base64_decode (Some [0; 0; 0; 0; 0]) (str "SGVs  " ++ [13; 10] ++ str "bG8" ++ [10] ++ str "=  ") =
  (0, Some 5, Some (str "Hello")).
Proof.
  apply (decode_encode_wrapped (str "Hello") _ [0; 0; 0; 0; 0]).
  - bytes_ok_closed.
  - change (encode_groups (str "Hello")) with (str "SGVsbG8="). do 4 apply wraps_char.
    apply (wraps_crlf 2). do 3 apply wraps_char. apply (wraps_lf 0). apply wraps_char. apply (wraps_end 2).
  - vm_compute. discriminate.
Defined.

(** ** The decoder stays in its buffer *)

(** One character that the first pass accepts. *)
Lemma scan_step b s sp n e n' e' :
  scan (b :: s) sp n e = Some (n', e') ->
  (is_layout b = true /\ exists sp', scan s sp' n e = Some (n', e')) \/
  (is_layout b = false /\ b = 61 /\ e + 1 <= 2 /\ scan s false (n + 1) (e + 1) = Some (n', e')) \/
  (is_layout b = false /\ b <> 61 /\ e = 0 /\ scan s false (n + 1) e = Some (n', e')).
Proof.
  cbn [scan]. unfold is_layout. intros H.
  destruct (b =? 32) eqn:E1; to_prop; [left; subst; split; [reflexivity|]; eauto|].
  destruct (b =? 13) eqn:E2; to_prop.
  { subst b. cbn [andb] in H. destruct s as [|c s]; [|destruct (c =? 10)].
    - change (13 =? 10) with false in H. cbv iota in H. destruct sp; [discriminate|].
      destruct (negb (e =? 0)); discriminate.
    - left. eauto.
    - change (13 =? 10) with false in H. cbv iota in H. destruct sp; [discriminate|].
      destruct (negb (e =? 0)); discriminate. }
  cbn [andb] in H. destruct (b =? 10) eqn:E3; to_prop; [left; subst; split; [reflexivity|]; eauto|].
  destruct sp; [discriminate|]. destruct (127 <? b); [discriminate|]. right.
  destruct (b =? 61) eqn:E4; to_prop.
  - left. destruct (2 <? e + 1) eqn:E5; to_prop; [discriminate|]. auto.
  - right. destruct (e =? 0) eqn:E5; to_prop; [|discriminate]. cbn [negb] in H.
    destruct (_ <? 0); [discriminate|]. auto.
Qed.

(** The room needed: [g] groups are complete, [a] characters are in the open
    one, and [eg] of the [e] padding characters were in complete groups. *)
Lemma emit_room s : forall sp x n e n' e' g a eg,
  scan s sp n e = Some (n', e') -> n = 4 * g + a -> 0 <= a < 4 -> 0 <= eg <= e -> e <= 2 ->
  e - eg <= a -> (0 < eg -> e - eg = a) ->
  exists g' a', n' = 4 * g' + a' /\ 0 <= a' < 4 /\
    zlen (emit_octets s x a e) + 3 * g - eg <= 3 * g' + a' - e' /\ 0 <= e' <= 2.
Proof.
  induction s as [|b s IH]; intros sp x n e n' e' g a eg H Hn Ha Heg He Hea Hpos.
  - injection H as <- <-. exists g, a. cbn. lia.
  - apply scan_step in H as [(Hl & sp' & H)|[(Hl & -> & He' & H)|(Hl & Hb & -> & H)]].
    + rewrite emit_layout by exact Hl. eapply IH; eauto.
    + rewrite emit_pad. destruct (a + 1 =? 4) eqn:E; to_prop.
      * assert (eg = 0) by lia. subst eg.
        destruct (IH false (u32 (Z.shiftl x 6)) (n + 1) (e + 1) n' e' (g + 1) 0 (e + 1) H)
          as (g' & a' & ? & ? & ? & ?); [lia..|].
        exists g', a'. split; [lia|]. split; [lia|]. split; [|lia]. rewrite !zlen_app.
        change (zlen [_]) with 1.
        destruct (e + 1 <=? 1) eqn:F1, (e + 1 <=? 0) eqn:F0; to_prop; cbn [length]; lia.
      * destruct (IH false (u32 (Z.shiftl x 6)) (n + 1) (e + 1) n' e' g (a + 1) eg H)
          as (g' & a' & ? & ? & ? & ?); [lia..|]. exists g', a'. lia.
    + assert (eg = 0) by lia. subst eg. cbn [emit_octets]. unfold is_layout in Hl. rewrite Hl.
      destruct (b =? 61) eqn:F; to_prop; [done|]. set (x' := u32 _).
      destruct (a + 1 =? 4) eqn:E; to_prop.
      * destruct (IH false x' (n + 1) 0 n' e' (g + 1) 0 0 H) as (g' & a' & ? & ? & ? & ?); [lia..|].
        exists g', a'. split; [lia|]. split; [lia|]. split; [|lia]. rewrite !zlen_app.
        change (zlen (if 0 <=? 1 then _ else _)) with 1. change (zlen (if 0 <=? 0 then _ else _)) with 1.
        change (zlen [_]) with 1. lia.
      * destruct (IH false x' (n + 1) 0 n' e' g (a + 1) 0 H) as (g' & a' & ? & ? & ? & ?); [lia..|].
        exists g', a'. lia.
Qed.

Lemma announced_size n g a : 
  n = 4 * g + a -> 0 <= a < 4 -> 0 <= n ->
  6 * Z.shiftr n 3 + Z.shiftr (6 * Z.land n 0x7 + 7) 3 = 3 * g + a.
Proof.
  intros -> Ha Hn. change 7 with (Z.ones 3) at 1. rewrite Z.land_ones, !Z.shiftr_div_pow2 by lia.
  change (2 ^ 3) with 8.
  pose proof (Z.div_mod (4 * g + a) 8 ltac:(lia)). pose proof (Z.mod_pos_bound (4 * g + a) 8 ltac:(lia)).
  set (q := (4 * g + a) / 8) in *. set (r := (4 * g + a) mod 8) in *.
  pose proof (Z.div_mod (6 * r + 7) 8 ltac:(lia)). pose proof (Z.mod_pos_bound (6 * r + 7) 8 ltac:(lia)).
  lia.
Qed.

(** Memory safety of the decoder: on any input, accepted or not, it writes
    at most the number of bytes it announces when it is called without a
    buffer, never past the end of the buffer it is given, and leaves the
    bytes behind what it wrote as they were. *)
Theorem decode_within_buffer src buf ret olen buf' :
  mbedtls_base64_decode (Some buf) src = (ret, olen, buf') ->
  exists out, buf' = Some (out ++ drop (length out) buf) /\ (length out <= length buf)%nat /\
    (ret <> 0 -> out = []) /\
    (ret = 0 -> olen = Some (zlen out) /\
       exists r n, mbedtls_base64_decode None src = (r, Some n, None) /\ zlen out <= n).
Proof.
  unfold mbedtls_base64_decode. destruct (scan src false 0 0) as [[n e]|] eqn:E.
  2: { intros [= <- <- <-]. exists []. repeat split; try done. cbn [length]. lia. }
  destruct (emit_room src false 0 0 0 n e 0 0 0 E) as (g & a & Hn & Ha & Hroom & He); [lia..|].
  destruct (n =? 0) eqn:En; to_prop.
  { intros [= <- <- <-]. exists []. repeat split; try done; [cbn [length]; lia|].
    exists 0, 0. split; [reflexivity|]. cbn. lia. }
  assert (0 <= n).
  { clear - E. revert E. enough (G : forall s sp n e n' e', 0 <= n -> scan s sp n e = Some (n', e') -> 0 <= n')
      by (apply G; lia).
    clear. induction s as [|b s IH]; intros sp n e n' e' Hn H; [injection H as <- _; exact Hn|].
    apply scan_step in H as [(_ & sp' & H)|[(_ & _ & _ & H)|(_ & _ & _ & H)]];
      (eapply IH; [|exact H]); lia. }
  rewrite (announced_size n g a) by assumption.
  destruct (_ <? _) eqn:F; to_prop.
  { intros [= <- <- <-]. exists []. repeat split; try done; cbn [length]; lia. }
  intros [= <- <- <-]. exists (emit_octets src 0 0 0). repeat split; try done; [lia|].
  do 2 eexists. split; [reflexivity|]. lia.
Qed.

Lemma decode_within_buffer_witness :
  exists out, Some [65; 7] = Some (out ++ drop (length out) [0; 7]) /\ (length out <= 2)%nat /\
    (0 <> 0 -> out = []) /\
    (0 = 0 -> Some 1 = Some (zlen out) /\
       exists r n, mbedtls_base64_decode None (str "QQ==") = (r, Some n, None) /\ zlen out <= n).
Proof. apply (decode_within_buffer (str "QQ==") [0; 7]). vm_compute. reflexivity. Defined.
