(* ===== verification/Asn1Parse.v ===== *)
(** ASN.1 parsing (mbedtls/library/asn1parse.c).  A pointer [*p] with its
    [end] is the list of bytes between them; each function returns the list
    that is left.  After an error the documentation leaves [*p] undefined, and
    so does the model.  [mbedtls_asn1_get_mpi] belongs to the big-number
    component. *)
From S2P Require Import Prelude CString.
From stdpp Require Import list.
#[local] Open Scope Z_scope.

Definition MBEDTLS_ERR_ASN1_OUT_OF_DATA : Z := -0x0060.
Definition MBEDTLS_ERR_ASN1_UNEXPECTED_TAG : Z := -0x0062.
Definition MBEDTLS_ERR_ASN1_INVALID_LENGTH : Z := -0x0064.
Definition MBEDTLS_ERR_ASN1_LENGTH_MISMATCH : Z := -0x0066.
Definition MBEDTLS_ERR_ASN1_INVALID_DATA : Z := -0x0068.
Definition MBEDTLS_ERR_ASN1_ALLOC_FAILED : Z := -0x006A.
Definition MBEDTLS_ERR_ASN1_BUF_TOO_SMALL : Z := -0x006C.

Definition MBEDTLS_ASN1_BOOLEAN : Z := 0x01.
Definition MBEDTLS_ASN1_INTEGER : Z := 0x02.
Definition MBEDTLS_ASN1_BIT_STRING : Z := 0x03.
Definition MBEDTLS_ASN1_OCTET_STRING : Z := 0x04.
Definition MBEDTLS_ASN1_NULL : Z := 0x05.
Definition MBEDTLS_ASN1_OID : Z := 0x06.
Definition MBEDTLS_ASN1_ENUMERATED : Z := 0x0A.
Definition MBEDTLS_ASN1_UTF8_STRING : Z := 0x0C.
Definition MBEDTLS_ASN1_SEQUENCE : Z := 0x10.
Definition MBEDTLS_ASN1_PRINTABLE_STRING : Z := 0x13.
Definition MBEDTLS_ASN1_IA5_STRING : Z := 0x16.
Definition MBEDTLS_ASN1_CONSTRUCTED : Z := 0x20.

(** ** Lengths and tags *)

Definition mbedtls_asn1_get_len (p : bytes) : result (Z * bytes) :=
  match p with
  | [] => Err MBEDTLS_ERR_ASN1_OUT_OF_DATA
  | b :: r =>
      '(len, p) ←
        (if Z.land b 0x80 =? 0 then Ok (b, r)
         else
           match Z.land b 0x7F, r with
           | 1, b1 :: p => Ok (b1, p)
           | 2, b1 :: b2 :: p => Ok (Z.lor (Z.shiftl b1 8) b2, p)
           | 3, b1 :: b2 :: b3 :: p => Ok (Z.lor (Z.lor (Z.shiftl b1 16) (Z.shiftl b2 8)) b3, p)
           | 4, b1 :: b2 :: b3 :: b4 :: p =>
               Ok (Z.lor (Z.lor (Z.lor (Z.shiftl b1 24) (Z.shiftl b2 16)) (Z.shiftl b3 8)) b4, p)
           | 1, _ | 2, _ | 3, _ | 4, _ => Err MBEDTLS_ERR_ASN1_OUT_OF_DATA
           | _, _ => Err MBEDTLS_ERR_ASN1_INVALID_LENGTH
           end : result (Z * bytes));
      if zlen p <? len then Err MBEDTLS_ERR_ASN1_OUT_OF_DATA else Ok (len, p)
  end.

Definition mbedtls_asn1_get_tag (p : bytes) (tag : Z) : result (Z * bytes) :=
  match p with
  | [] => Err MBEDTLS_ERR_ASN1_OUT_OF_DATA
  | b :: r => if negb (b =? tag) then Err MBEDTLS_ERR_ASN1_UNEXPECTED_TAG else mbedtls_asn1_get_len r
  end.

(** ** Values *)

Definition mbedtls_asn1_get_bool (p : bytes) : result (Z * bytes) :=
  '(len, p) ← mbedtls_asn1_get_tag p MBEDTLS_ASN1_BOOLEAN;
  if negb (len =? 1) then Err MBEDTLS_ERR_ASN1_INVALID_LENGTH
  else Ok (if negb (nth 0 p 0 =? 0) then 1 else 0, drop 1 p).

(** [while (len > 0 && **p == 0)] *)
Fixpoint skip_zeros (len : Z) (p : bytes) : Z * bytes :=
  match p with
  | b :: r => if (0 <? len) && (b =? 0) then skip_zeros (len - 1) r else (len, p)
  | [] => (len, p)
  end.

(** [while (len-- > 0)]: at most four rounds. *)
Fixpoint read_int (n : nat) (val : Z) (p : bytes) : Z * bytes :=
  match n, p with
  | S n, b :: r => read_int n (Z.lor (s32 (Z.shiftl val 8)) b) r
  | _, _ => (val, p)
  end.

Definition asn1_get_tagged_int (p : bytes) (tag : Z) : result (Z * bytes) :=
  '(len, p) ← mbedtls_asn1_get_tag p tag;
  if len =? 0 then Err MBEDTLS_ERR_ASN1_INVALID_LENGTH
  else if negb (Z.land (nth 0 p 0) 0x80 =? 0) then Err MBEDTLS_ERR_ASN1_INVALID_LENGTH
  else
    let '(len, p) := skip_zeros len p in
    if 4 <? len then Err MBEDTLS_ERR_ASN1_INVALID_LENGTH
    else if (len =? 4) && negb (Z.land (nth 0 p 0) 0x80 =? 0) then Err MBEDTLS_ERR_ASN1_INVALID_LENGTH
    else Ok (read_int (Z.to_nat len) 0 p).

Definition mbedtls_asn1_get_int (p : bytes) : result (Z * bytes) :=
  asn1_get_tagged_int p MBEDTLS_ASN1_INTEGER.

Definition mbedtls_asn1_get_enum (p : bytes) : result (Z * bytes) :=
  asn1_get_tagged_int p MBEDTLS_ASN1_ENUMERATED.

(** A pointer and a length into the input are the bytes they delimit. *)
Record mbedtls_asn1_bitstring := mkBitstring { bs_bytes : bytes; unused_bits : Z }.

Definition mbedtls_asn1_get_bitstring (p : bytes) : result (mbedtls_asn1_bitstring * bytes) :=
  '(len, p) ← mbedtls_asn1_get_tag p MBEDTLS_ASN1_BIT_STRING;
  if len <? 1 then Err MBEDTLS_ERR_ASN1_OUT_OF_DATA
  else
    let len := len - 1 in
    let unused := nth 0 p 0 in
    if 7 <? unused then Err MBEDTLS_ERR_ASN1_INVALID_LENGTH
    else
      let p := drop 1 p in
      let bs := mkBitstring (take (Z.to_nat len) p) unused in
      match drop (Z.to_nat len) p with
      | [] => Ok (bs, [])
      | _ => Err MBEDTLS_ERR_ASN1_LENGTH_MISMATCH
      end.

Definition mbedtls_asn1_get_bitstring_null (p : bytes) : result (Z * bytes) :=
  '(len, p) ← mbedtls_asn1_get_tag p MBEDTLS_ASN1_BIT_STRING;
  if len =? 0 then Err MBEDTLS_ERR_ASN1_INVALID_DATA
  else if negb (nth 0 p 0 =? 0) then Err MBEDTLS_ERR_ASN1_INVALID_DATA
  else Ok (len - 1, drop 1 p).

(** ** Sequences *)

Section Traverse.
(** The callback: its context, the tag and the content of an entry. *)
Context {C : Type} (cb : C -> Z -> bytes -> Z * C).

(** The loop over the entries; a round consumes at least two bytes, so the
    length of the input is fuel enough. *)
Fixpoint traverse_loop (fuel : nat) (must_mask must_val may_mask may_val : Z) (ctx : C) (p : bytes)
  : Z * C :=
  match fuel, p with
  | _, [] => (0, ctx)
  | O, _ => (0, ctx)
  | S fuel, tag :: p =>
      if negb (Z.land tag must_mask =? must_val) then (MBEDTLS_ERR_ASN1_UNEXPECTED_TAG, ctx)
      else
        match mbedtls_asn1_get_len p with
        | Err ret => (ret, ctx)
        | Ok (len, p) =>
            let '(ret, ctx) :=
              if Z.land tag may_mask =? may_val then cb ctx tag (take (Z.to_nat len) p) else (0, ctx) in
            if negb (ret =? 0) then (ret, ctx)
            else traverse_loop fuel must_mask must_val may_mask may_val ctx (drop (Z.to_nat len) p)
        end
  end.

Definition mbedtls_asn1_traverse_sequence_of (p : bytes)
  (tag_must_mask tag_must_val tag_may_mask tag_may_val : Z) (ctx : C) : Z * C :=
  match mbedtls_asn1_get_tag p (Z.lor MBEDTLS_ASN1_CONSTRUCTED MBEDTLS_ASN1_SEQUENCE) with
  | Err ret => (ret, ctx)
  | Ok (len, p) =>
      if negb (len =? zlen p) then (MBEDTLS_ERR_ASN1_LENGTH_MISMATCH, ctx)
      else traverse_loop (length p) tag_must_mask tag_must_val tag_may_mask tag_may_val ctx p
  end.
End Traverse.

(** The linked list that [mbedtls_asn1_get_sequence_of] fills, in order; the
    first node is the caller's and later ones are allocated.  [pending_allocs] are the
    outcomes of the allocations to come (none left: they succeed). *)
Record SequenceCtx := mkSequenceCtx { nodes : list (Z * bytes); pending_allocs : list bool }.

Definition next_alloc (allocs : list bool) : bool * list bool :=
  match allocs with [] => (true, []) | a :: r => (a, r) end.

Definition asn1_get_sequence_of_cb (ctx : SequenceCtx) (tag : Z) (content : bytes) : Z * SequenceCtx :=
  match nodes ctx with
  | [] => (0, mkSequenceCtx [(tag, content)] (pending_allocs ctx))
  | _ =>
      let '(ok, rest) := next_alloc (pending_allocs ctx) in
      if negb ok then (MBEDTLS_ERR_ASN1_ALLOC_FAILED, mkSequenceCtx (nodes ctx) rest)
      else (0, mkSequenceCtx (nodes ctx ++ [(tag, content)]) rest)
  end.

Definition mbedtls_asn1_get_sequence_of (p : bytes) (tag : Z) (allocs : list bool) : Z * SequenceCtx :=
  mbedtls_asn1_traverse_sequence_of asn1_get_sequence_of_cb p 0xFF (u8 tag) 0 0 (mkSequenceCtx [] allocs).

(** ** Algorithm identifiers *)

Record mbedtls_asn1_buf := mkAsn1Buf { buf_tag : Z; buf_bytes : bytes }.

Definition mbedtls_asn1_get_alg (p : bytes)
  : result (mbedtls_asn1_buf * mbedtls_asn1_buf * bytes) :=
  '(len, p) ← mbedtls_asn1_get_tag p (Z.lor MBEDTLS_ASN1_CONSTRUCTED MBEDTLS_ASN1_SEQUENCE);
  match p with
  | [] => Err MBEDTLS_ERR_ASN1_OUT_OF_DATA
  | tag :: _ =>
      let beyond := drop (Z.to_nat len) p in
      let p := take (Z.to_nat len) p in
      '(alg_len, p) ← mbedtls_asn1_get_tag p MBEDTLS_ASN1_OID;
      let alg := mkAsn1Buf tag (take (Z.to_nat alg_len) p) in
      match drop (Z.to_nat alg_len) p with
      | [] => Ok (alg, mkAsn1Buf 0 [], beyond)
      | params_tag :: p =>
          '(params_len, p) ← mbedtls_asn1_get_len p;
          match drop (Z.to_nat params_len) p with
          | [] => Ok (alg, mkAsn1Buf params_tag (take (Z.to_nat params_len) p), beyond)
          | _ => Err MBEDTLS_ERR_ASN1_LENGTH_MISMATCH
          end
      end
  end.

Definition mbedtls_asn1_get_alg_null (p : bytes) : result (mbedtls_asn1_buf * bytes) :=
  '(alg, params, p) ← mbedtls_asn1_get_alg p;
  if (negb (buf_tag params =? MBEDTLS_ASN1_NULL) && negb (buf_tag params =? 0)) ||
     negb (zlen (buf_bytes params) =? 0)
  then Err MBEDTLS_ERR_ASN1_INVALID_DATA
  else Ok (alg, p).

(** ** Named data *)

(** An entry of the list: its OID, and the value pointer with its length. *)
Record mbedtls_asn1_named_data := mkNamedData {
  nd_oid : bytes;
  nd_val : option bytes;
  nd_len : Z;
}.

(** The entry found and its position, in place of a pointer into the list. *)
Fixpoint mbedtls_asn1_find_named_data (l : list mbedtls_asn1_named_data) (oid : bytes)
  : option (nat * mbedtls_asn1_named_data) :=
  match l with
  | [] => None
  | cur :: next =>
      if bytes_eqb (nd_oid cur) oid then Some (O, cur)
      else '(i, d) ← mbedtls_asn1_find_named_data next oid; Some (S i, d)
  end.

(** ** Reference encoding (X.690)

    Minimal definite lengths, and an element from its tag and content. *)
Definition der_len (n : Z) : bytes :=
  if n <? 0x80 then [n]
  else if n <? 2 ^ 8 then [0x81; n]
  else if n <? 2 ^ 16 then [0x82; n / 2 ^ 8; n mod 2 ^ 8]
  else if n <? 2 ^ 24 then [0x83; n / 2 ^ 16; n / 2 ^ 8 mod 2 ^ 8; n mod 2 ^ 8]
  else [0x84; n / 2 ^ 24; n / 2 ^ 16 mod 2 ^ 8; n / 2 ^ 8 mod 2 ^ 8; n mod 2 ^ 8].

Definition tlv (tag : Z) (content : bytes) : bytes := tag :: der_len (zlen content) ++ content.

(** ** Lemmas on lengths *)

(** Big-endian values. *)
Definition be_value (s : bytes) : Z := fold_left (fun v b => v * 256 + b) s 0.

Lemma be_fold s v : fold_left (fun v b => v * 256 + b) s v = v * 256 ^ zlen s + be_value s.
Proof.
  unfold be_value. revert v. induction s as [|b s IH]; intros v; cbn [fold_left length]; [cbn; lia|].
  rewrite IH, (IH (0 * 256 + b)). rewrite Nat2Z.inj_succ, Z.pow_succ_r by lia. lia.
Qed.

Lemma be_value_cons b s : be_value (b :: s) = b * 256 ^ zlen s + be_value s.
Proof. unfold be_value at 1. cbn [fold_left]. rewrite be_fold. reflexivity. Qed.

Lemma be_value_app s t : be_value (s ++ t) = be_value s * 256 ^ zlen t + be_value t.
Proof. unfold be_value at 1. rewrite fold_left_app, be_fold. reflexivity. Qed.

Lemma be_value_range s : bytes_ok s -> 0 <= be_value s < 256 ^ zlen s.
Proof.
  induction 1 as [|b s Hb _ IH]; [cbn; lia|]. rewrite be_value_cons. unfold is_byte in Hb.
  cbn [length]. rewrite Nat2Z.inj_succ, Z.pow_succ_r by lia. nia.
Qed.

Lemma lor_be2 a b : is_byte b -> Z.lor (Z.shiftl a 8) b = a * 256 + b.
Proof. intros. rewrite shiftl_8. by apply lor_256. Qed.

Lemma lor_be3 a b c : is_byte b -> is_byte c -> Z.lor (Z.lor (Z.shiftl a 16) (Z.shiftl b 8)) c = (a * 256 + b) * 256 + c.
Proof.
  intros Hb Hc. change 16 with (8 + 8). rewrite <- Z.shiftl_shiftl, <- Z.shiftl_lor by lia.
  rewrite !lor_be2 by assumption. reflexivity.
Qed.

Lemma lor_be4 a b c d :
  is_byte b -> is_byte c -> is_byte d ->
  Z.lor (Z.lor (Z.lor (Z.shiftl a 24) (Z.shiftl b 16)) (Z.shiftl c 8)) d = ((a * 256 + b) * 256 + c) * 256 + d.
Proof.
  intros Hb Hc Hd. change 24 with (16 + 8). change 16 with (8 + 8) at 2.
  rewrite <- !Z.shiftl_shiftl, <- !Z.shiftl_lor by lia.
  change 16 with (8 + 8). rewrite <- Z.shiftl_shiftl by lia.
  rewrite <- Z.shiftl_lor, !lor_be2 by assumption. reflexivity.
Qed.

(** The bytes of a number below [2^32]. *)
Lemma be_digits n :
  0 <= n ->
  n = n / 2 ^ 8 * 256 + n mod 2 ^ 8 /\
  n / 2 ^ 8 = n / 2 ^ 16 * 256 + n / 2 ^ 8 mod 2 ^ 8 /\
  n / 2 ^ 16 = n / 2 ^ 24 * 256 + n / 2 ^ 16 mod 2 ^ 8.
Proof.
  intros Hn. change (2 ^ 24) with (2 ^ 16 * 256). change (2 ^ 16) with (2 ^ 8 * 256).
  rewrite <- !Z.div_div by lia. change (2 ^ 8) with 256.
  pose proof (Z.div_mod n 256 ltac:(lia)). pose proof (Z.div_mod (n / 256) 256 ltac:(lia)).
  pose proof (Z.div_mod (n / 256 / 256) 256 ltac:(lia)). lia.
Qed.

Lemma mod_byte n : is_byte (n mod 2 ^ 8).
Proof. apply Z.mod_pos_bound. lia. Qed.

Lemma get_len_der n r :
  0 <= n < 2 ^ 32 ->
  mbedtls_asn1_get_len (der_len n ++ r) =
  if zlen r <? n then Err MBEDTLS_ERR_ASN1_OUT_OF_DATA else Ok (n, r).
Proof.
  intros Hn. pose proof (be_digits n ltac:(lia)) as (E1 & E2 & E3).
  pose proof (mod_byte n) as B0. pose proof (mod_byte (n / 2 ^ 8)) as B1. pose proof (mod_byte (n / 2 ^ 16)) as B2.
  set (R := if zlen r <? n then _ else _).
  unfold der_len. case_ifs; cbn [app mbedtls_asn1_get_len].
  - rewrite bit7_clear by lia. reflexivity.
  - reflexivity.
  - change (Z.land 130 128 =? 0) with false. change (Z.land 130 127) with 2. cbv iota.
    rewrite lor_be2, <- E1 by exact B0. reflexivity.
  - change (Z.land 131 128 =? 0) with false. change (Z.land 131 127) with 3. cbv iota.
    rewrite lor_be3, <- E2, <- E1 by assumption. reflexivity.
  - change (Z.land 132 128 =? 0) with false. change (Z.land 132 127) with 4. cbv iota.
    rewrite lor_be4, <- E3, <- E2, <- E1 by assumption. reflexivity.
Qed.

Lemma get_tag_tlv tag content r :
  zlen content < 2 ^ 32 ->
  mbedtls_asn1_get_tag (tlv tag content ++ r) tag = Ok (zlen content, content ++ r).
Proof.
  intros Hl. unfold tlv, mbedtls_asn1_get_tag. cbn [app]. rewrite Z.eqb_refl. cbn [negb].
  rewrite <- app_assoc, get_len_der by lia. rewrite zlen_app.
  destruct (_ <? _) eqn:E; to_prop; [lia|reflexivity].
Qed.

Lemma get_len_suffix p len q :
  bytes_ok p -> mbedtls_asn1_get_len p = Ok (len, q) ->
  0 <= len <= zlen q /\ exists h, p = h ++ q /\ h <> [].
Proof.
  intros Hp. destruct p as [|b r]; [discriminate|]. apply Forall_cons in Hp as [Hb Hr].
  unfold mbedtls_asn1_get_len.
  destruct (if Z.land b 0x80 =? 0 then Ok (b, r) else _) as [[n p]|e] eqn:E; [|discriminate].
  cbn [mbind result_bind]. destruct (_ <? n) eqn:F; to_prop; [discriminate|]. intros [= <- <-].
  enough (0 <= n /\ exists h, b :: r = h ++ p /\ h <> []) by (split; [lia|tauto]).
  assert (Hx : forall x y, 0 <= x -> 0 <= y -> 0 <= Z.lor x y) by (intros; apply Z.lor_nonneg; auto).
  assert (Hs : forall x k, 0 <= x -> 0 <= Z.shiftl x k) by (intros; apply Z.shiftl_nonneg; auto).
  unfold is_byte in *. repeat case_match; simplify_eq; decompose_Forall_hyps;
    (split; [repeat first [apply Hx|apply Hs]; lia|]).
  all: first [by eexists [_]|by eexists [_; _]|by eexists [_; _; _]|by eexists [_; _; _; _]
             |by eexists [_; _; _; _; _]].
Qed.

(** ** Integers *)

Lemma skip_zeros_eq c r :
  bytes_ok c -> skip_zeros (zlen c) (c ++ r) = (zlen (ltrim (Z.eqb 0) c), ltrim (Z.eqb 0) c ++ r).
Proof.
  induction 1 as [|b c _ _ IH]; cbn [app length ltrim].
  - destruct r; reflexivity.
  - cbn [skip_zeros]. destruct (0 <? _) eqn:E; to_prop; [|lia]. rewrite (Z.eqb_sym b 0). cbn [andb].
    destruct (0 =? b); [|reflexivity]. rewrite <- IH. f_equal. lia.
Qed.

Lemma be_value_ltrim c : be_value (ltrim (Z.eqb 0) c) = be_value c.
Proof.
  induction c as [|b c IH]; [reflexivity|]. cbn [ltrim]. destruct (0 =? b) eqn:E; to_prop; [|reflexivity].
  subst. rewrite IH, be_value_cons. lia.
Qed.

Lemma read_int_eq c r : forall v,
  bytes_ok c -> 0 <= v -> v * 256 ^ zlen c + be_value c < 2 ^ 31 ->
  read_int (length c) v (c ++ r) = (v * 256 ^ zlen c + be_value c, r).
Proof.
  induction c as [|b c IH]; intros v Hc Hv Hb; [cbn; f_equal; lia|].
  apply Forall_cons in Hc as [Hb' Hc]. pose proof Hb' as Hb''. unfold is_byte in Hb''.
  rewrite be_value_cons in *. cbn [length app read_int] in *. rewrite Nat2Z.inj_succ, Z.pow_succ_r in * by lia.
  pose proof (be_value_range c Hc). pose proof (Z.pow_pos_nonneg 256 (zlen c) ltac:(lia) ltac:(lia)).
  assert (v * 256 < 2 ^ 31) by nia.
  rewrite shiftl_8, s32_small, lor_256 by (try exact Hb'; lia).
  rewrite IH by (try assumption; lia). f_equal. lia.
Qed.

Lemma nth_0_app (c r : bytes) : c <> [] -> nth 0 (c ++ r) 0 = nth 0 c 0.
Proof. destruct c; [done|reflexivity]. Qed.

Lemma get_int_facts tag c r :
  bytes_ok c -> zlen c < 2 ^ 32 ->
  asn1_get_tagged_int (tlv tag c ++ r) tag =
  if is_empty c || (128 <=? nth 0 c 0) || (2 ^ 31 <=? be_value c)
  then Err MBEDTLS_ERR_ASN1_INVALID_LENGTH else Ok (be_value c, r).
Proof.
  intros Hc Hl. unfold asn1_get_tagged_int. rewrite get_tag_tlv by exact Hl. cbn [mbind result_bind].
  destruct c as [|b c]; [reflexivity|]. set (w := b :: c) in *.
  change (is_empty w) with false. cbn [orb].
  destruct (zlen w =? 0) eqn:E; to_prop; [subst w; cbn [length] in E; lia|]. clear E.
  rewrite nth_0_app by done. assert (Hb : is_byte (nth 0 w 0)) by (by apply Forall_cons in Hc as [? _]).
  rewrite bit7, Z.ltb_antisym, negb_involutive by exact Hb.
  destruct (128 <=? nth 0 w 0); [reflexivity|]. cbn [orb].
  rewrite skip_zeros_eq, <- (be_value_ltrim w) by exact Hc.
  pose proof (ltrim_head (Z.eqb 0) w) as Hh. pose proof (ltrim_suffix (Z.eqb 0) w) as [z Ez].
  set (v := ltrim (Z.eqb 0) w) in *.
  assert (Hv : bytes_ok v) by (rewrite Ez in Hc; by apply bytes_ok_app in Hc as [_ ?]).
  pose proof (be_value_range v Hv) as Hr.
  destruct v as [|x v']; [reflexivity|]. set (v := x :: v') in *.
  pose proof Hv as [Hx Hv']%Forall_cons. pose proof (be_value_range v' Hv') as Hr'.
  assert (Hval : be_value v = x * 256 ^ zlen v' + be_value v') by apply be_value_cons.
  assert (Hlen : zlen v = zlen v' + 1) by (subst v; cbn [length]; lia).
  to_prop. rewrite nth_0_app by done. cbn [nth v]. rewrite bit7 by exact Hx.
  unfold is_byte in Hx. fold v.
  destruct (4 <? zlen v) eqn:E4; to_prop.
  { destruct (2 ^ 31 <=? _) eqn:F; to_prop; [reflexivity|].
    assert (256 ^ 4 <= 256 ^ zlen v') by (apply Z.pow_le_mono_r; lia).
    assert (1 * 256 ^ zlen v' <= x * 256 ^ zlen v') by (apply Z.mul_le_mono_nonneg_r; lia). lia. }
  rewrite Nat2Z.id.
  destruct (2 ^ 31 <=? be_value v) eqn:F; to_prop.
  - assert (E5 : zlen v = 4).
    { destruct (Z.eq_dec (zlen v) 4); [assumption|].
      assert (256 ^ zlen v <= 256 ^ 3) by (apply Z.pow_le_mono_r; lia). lia. }
    rewrite E5. change (4 =? 4) with true. cbn [andb]. replace (zlen v') with 3 in * by lia.
    destruct (x <? 128) eqn:G; to_prop; [lia|reflexivity].
  - replace ((zlen v =? 4) && negb (x <? 128)) with false.
    + rewrite read_int_eq by (try assumption; lia). reflexivity.
    + destruct (zlen v =? 4) eqn:G; to_prop; [|reflexivity]. replace (zlen v') with 3 in * by lia.
      destruct (x <? 128) eqn:K; to_prop; [reflexivity|lia].
Qed.

(** The integer reader accepts exactly the non-negative INTEGER and
    ENUMERATED contents that fit an [int], and returns their value: an empty
    content, a set sign bit and a value of 2^31 or more are refused, and
    leading zeros change nothing. *)
Theorem get_tagged_int_spec tag c r :
  bytes_ok c -> zlen c < 2 ^ 32 ->
  asn1_get_tagged_int (tlv tag c ++ r) tag =
  if is_empty c || (128 <=? nth 0 c 0) || (2 ^ 31 <=? be_value c)
  then Err MBEDTLS_ERR_ASN1_INVALID_LENGTH else Ok (be_value c, r).
Proof. apply get_int_facts. Qed.

Lemma get_tagged_int_spec_witness :
  asn1_get_tagged_int [0x02; 3; 0; 1; 2; 9] MBEDTLS_ASN1_INTEGER = Ok (258, [9]).
Proof.
  apply (get_tagged_int_spec MBEDTLS_ASN1_INTEGER [0; 1; 2] [9]); [bytes_ok_closed|vm_compute; reflexivity].
Defined.

(** ** Sequences *)

Definition entries (tag : Z) (cs : list bytes) : bytes := concat (map (tlv tag) cs).

Lemma tlv_length tag c : (2 <= length (tlv tag c))%nat.
Proof.
  unfold tlv. cbn [length]. rewrite length_app.
  assert (1 <= length (der_len (zlen c)))%nat by (unfold der_len; case_ifs; cbn [length]; lia). lia.
Qed.

Section Traverse_lemmas.
Context {C : Type} (cb : C -> Z -> bytes -> Z * C).

(** The callback run over the entries until it reports an error. *)
Fixpoint run_entries (tag : Z) (cs : list bytes) (ctx : C) : Z * C :=
  match cs with
  | [] => (0, ctx)
  | c :: cs =>
      let '(ret, ctx) := cb ctx tag c in
      if negb (ret =? 0) then (ret, ctx) else run_entries tag cs ctx
  end.

Lemma traverse_entries tag cs : forall fuel ctx,
  is_byte tag -> Forall (fun c : bytes => zlen c < 2 ^ 32) cs -> (length (entries tag cs) <= fuel)%nat ->
  traverse_loop cb fuel 0xFF tag 0 0 ctx (entries tag cs) = run_entries tag cs ctx.
Proof.
  induction cs as [|c cs IH]; intros fuel ctx Ht Hc Hf; [by destruct fuel|].
  apply Forall_cons in Hc as [Hl Hc]. change (entries tag (c :: cs)) with (tlv tag c ++ entries tag cs) in *.
  pose proof (tlv_length tag c). rewrite length_app in Hf. destruct fuel as [|fuel]; [lia|].
  unfold tlv. cbn [app traverse_loop run_entries].
  rewrite land_255, Z.mod_small by exact Ht. rewrite Z.eqb_refl. cbn [negb].
  rewrite <- app_assoc, get_len_der, zlen_app by lia.
  destruct (_ <? zlen c) eqn:E; to_prop; [lia|]. rewrite Z.land_0_r. change (0 =? 0) with true. cbv iota.
  rewrite Nat2Z.id, take_app_length, drop_app_length.
  destruct (cb ctx tag c) as [ret ctx']. destruct (negb (ret =? 0)); [reflexivity|].
  apply IH; [exact Ht|exact Hc|lia].
Qed.

Lemma traverse_sequence tag cs ctx :
  is_byte tag -> Forall (fun c : bytes => zlen c < 2 ^ 32) cs -> zlen (entries tag cs) < 2 ^ 32 ->
  mbedtls_asn1_traverse_sequence_of cb (tlv 0x30 (entries tag cs)) 0xFF tag 0 0 ctx = run_entries tag cs ctx.
Proof.
  intros Ht Hc Hl. unfold mbedtls_asn1_traverse_sequence_of.
  change (Z.lor _ _) with 0x30. rewrite <- (app_nil_r (tlv _ _)), get_tag_tlv, app_nil_r by exact Hl.
  rewrite Z.eqb_refl. cbn [negb]. by apply traverse_entries.
Qed.
End Traverse_lemmas.

(** Every allocation needed for [n] entries after the first succeeds. *)
Definition allocs_ok (n : nat) (allocs : list bool) : bool := forallb id (take n allocs).

Lemma run_sequence_cb tag cs : forall done allocs,
  exists k rest,
    run_entries asn1_get_sequence_of_cb tag cs (mkSequenceCtx done allocs) =
    (if allocs_ok (match done with [] => pred (length cs) | _ => length cs end) allocs
     then 0 else MBEDTLS_ERR_ASN1_ALLOC_FAILED,
     mkSequenceCtx (done ++ map (fun c => (tag, c)) (take k cs)) rest) /\
    (allocs_ok (match done with [] => pred (length cs) | _ => length cs end) allocs = true -> k = length cs).
Proof.
  induction cs as [|c cs IH]; intros done allocs.
  - exists O, allocs. cbn. rewrite app_nil_r. by destruct done.
  - cbn [run_entries]. unfold asn1_get_sequence_of_cb at 1. cbn [nodes pending_allocs].
    destruct done as [|d done].
    + change (negb (0 =? 0)) with false. cbv iota.
      destruct (IH [(tag, c)] allocs) as (k & rest & -> & Hk). exists (S k), rest.
      cbn [length pred take map app]. split; [reflexivity|]. intros H. by rewrite Hk.
    + unfold next_alloc. destruct allocs as [|[|] allocs]; cbn [negb].
      * change (negb (0 =? 0)) with false. cbv iota.
        destruct (IH ((d :: done) ++ [(tag, c)]) []) as (k & rest & E & Hk).
        cbn [app] in *. rewrite E. exists (S k), rest. unfold allocs_ok in *. rewrite !take_nil in *.
        cbn [take map]. rewrite <- app_assoc. split; [reflexivity|]. intros H. cbn [length]. by rewrite Hk.
      * change (negb (0 =? 0)) with false. cbv iota.
        destruct (IH ((d :: done) ++ [(tag, c)]) allocs) as (k & rest & E & Hk).
        cbn [app] in *. rewrite E. exists (S k), rest. cbn [length take map allocs_ok forallb id andb].
        rewrite <- app_assoc. split; [reflexivity|]. intros H. by rewrite Hk.
      * exists O, allocs. cbn. rewrite app_nil_r. done.
Qed.

(** A SEQUENCE OF with any number of entries is split into exactly its
    entries, in order, with their contents; if an allocation fails the call
    says so and the list holds the entries before it. *)
Theorem get_sequence_of_spec tag cs allocs :
  is_byte tag -> Forall (fun c : bytes => zlen c < 2 ^ 32) cs -> zlen (entries tag cs) < 2 ^ 32 ->
  exists k rest,
    mbedtls_asn1_get_sequence_of (tlv 0x30 (entries tag cs)) tag allocs =
    (if allocs_ok (pred (length cs)) allocs then 0 else MBEDTLS_ERR_ASN1_ALLOC_FAILED,
     mkSequenceCtx (map (fun c => (tag, c)) (take k cs)) rest) /\
    (allocs_ok (pred (length cs)) allocs = true -> k = length cs).
Proof.
  intros Ht Hc Hl. unfold mbedtls_asn1_get_sequence_of. rewrite u8_small by exact Ht.
  rewrite traverse_sequence by assumption. exact (run_sequence_cb tag cs [] allocs).
Qed.

Lemma get_sequence_of_spec_witness :
  exists k rest,
    mbedtls_asn1_get_sequence_of [0x30; 7; 4; 1; 65; 4; 2; 66; 67] 4 [true] =
    (0, mkSequenceCtx (map (fun c => (4, c)) (take k [[65]; [66; 67]])) rest) /\ (true = true -> k = 2%nat).
Proof.
  apply (get_sequence_of_spec 4 [[65]; [66; 67]] [true]).
  - unfold is_byte. lia.
  - repeat constructor.
  - vm_compute. reflexivity.
Defined.

(** ** The parser stays in its input *)

Lemma get_tag_suffix p tag len q :
  bytes_ok p -> mbedtls_asn1_get_tag p tag = Ok (len, q) ->
  0 <= len <= zlen q /\ exists h, p = h ++ q /\ (2 <= length h)%nat /\ nth 0 h 0 = tag.
Proof.
  intros Hp. destruct p as [|b r]; [discriminate|]. unfold mbedtls_asn1_get_tag.
  destruct (b =? tag) eqn:E; [|discriminate]. to_prop. cbn [negb]. apply Forall_cons in Hp as [_ Hr].
  intros (Hl & h & -> & Hh)%get_len_suffix; [|exact Hr]. split; [exact Hl|].
  exists (b :: h). split; [reflexivity|]. destruct h; [done|]. cbn [length nth]. split; [lia|exact E].
Qed.

(** Whatever the input, an algorithm identifier that is accepted lies
    inside it: the input is a header, the OID, the parameters with theirs, and
    what is left; the OID and the parameters are pieces of the input. *)
Theorem get_alg_inside p alg params q :
  bytes_ok p -> mbedtls_asn1_get_alg p = Ok (alg, params, q) ->
  exists h1 h2, p = h1 ++ buf_bytes alg ++ h2 ++ buf_bytes params ++ q /\
    buf_tag alg = MBEDTLS_ASN1_OID /\
    (h2 = [] -> params = mkAsn1Buf 0 []) /\ (h2 <> [] -> nth 0 h2 0 = buf_tag params).
Proof.
  intros Hp. unfold mbedtls_asn1_get_alg.
  destruct (mbedtls_asn1_get_tag p _) as [[len s]|] eqn:E; [|discriminate]. cbn [mbind result_bind].
  apply get_tag_suffix in E as (Hl & h & Eh & Hh & _); [|exact Hp].
  assert (Hs : bytes_ok s) by (rewrite Eh in Hp; by apply bytes_ok_app in Hp as [_ ?]).
  destruct s as [|tag s']; [discriminate|]. set (s := tag :: s') in *.
  assert (Ht : bytes_ok (take (Z.to_nat len) s)) by (by apply Forall_take).
  pose proof (take_drop (Z.to_nat len) s) as Es.
  destruct (mbedtls_asn1_get_tag (take _ s) _) as [[al u]|] eqn:E; [|discriminate]. cbn [mbind result_bind].
  apply get_tag_suffix in E as (Hal & g & Eg & Hg & Hgt); [|exact Ht].
  assert (Htag : tag = MBEDTLS_ASN1_OID).
  { destruct g as [|x g]; [cbn in Hg; lia|]. cbn [nth] in Hgt. subst x.
    destruct (Z.to_nat len); [discriminate|]. subst s. cbn [take app] in Eg. congruence. }
  pose proof (take_drop (Z.to_nat al) u) as Eu.
  assert (Hu : bytes_ok u) by (rewrite Eg in Ht; by apply bytes_ok_app in Ht as [_ ?]).
  destruct (drop (Z.to_nat al) u) as [|pt v] eqn:Ev.
  - intros [= <- <- <-]. exists (h ++ g), []. cbn [buf_bytes buf_tag app].
    split; [|done]. remember (drop (Z.to_nat len) s) as D. rewrite app_nil_r in Eu.
    rewrite Eu, Eh, <- Es, Eg. app_norm. reflexivity.
  - destruct (mbedtls_asn1_get_len v) as [[pl w]|] eqn:E; [|discriminate]. cbn [mbind result_bind].
    assert (Hv : bytes_ok v) by (rewrite <- Eu in Hu; apply bytes_ok_app in Hu as [_ Hu]; by apply Forall_cons in Hu as [_ ?]).
    apply get_len_suffix in E as (Hpl & k & Ek & Hk); [|exact Hv].
    destruct (drop (Z.to_nat pl) w) as [|x y] eqn:Ew; [|discriminate]. intros [= <- <- <-].
    exists (h ++ g), (pt :: k). cbn [buf_bytes buf_tag]. split; [|done].
    pose proof (take_drop (Z.to_nat pl) w) as Ew'. rewrite Ew, app_nil_r in Ew'.
    remember (drop (Z.to_nat len) s) as D. remember (take (Z.to_nat al) u) as U.
    rewrite Ew', Eh, <- Es, Eg, <- Eu, Ek. app_norm. reflexivity.
Qed.

Lemma get_alg_inside_witness :
  exists h1 h2, [0x30; 5; 6; 1; 42; 5; 0; 77] = h1 ++ [42] ++ h2 ++ [] ++ [77] /\
    6 = MBEDTLS_ASN1_OID /\ (h2 = [] -> mkAsn1Buf 5 [] = mkAsn1Buf 0 []) /\ (h2 <> [] -> nth 0 h2 0 = 5).
Proof.
  apply (get_alg_inside [0x30; 5; 6; 1; 42; 5; 0; 77] (mkAsn1Buf 6 [42]) (mkAsn1Buf 5 []) [77]).
  - bytes_ok_closed.
  - vm_compute. reflexivity.
Defined.
