(* ===== verification/Asn1Write.v ===== *)
(** ASN.1 writing (mbedtls/library/asn1write.c).  The functions write backwards
    from [*p] towards [start]: a writer is the room [*p - start] that is left
    and the bytes from [*p] on.  A function returns its [int] and the writer,
    also when it fails half way.  [mbedtls_asn1_write_mpi] belongs to the
    big-number component. *)
From S2P Require Import Prelude CString Asn1Parse.
From stdpp Require Import list.
#[local] Open Scope Z_scope.

Record Writer := mkWriter { room : Z; out : bytes }.

(** [*--( *p) = b] *)
Definition push (b : Z) (w : Writer) : Writer := mkWriter (room w - 1) (b :: out w).

Definition byte_n (n x : Z) : Z := Z.land (Z.shiftr x (8 * n)) 0xff.

Definition mbedtls_asn1_write_len (len : Z) (w : Writer) : Z * Writer :=
  if len <? 0x80 then
    if room w <? 1 then (MBEDTLS_ERR_ASN1_BUF_TOO_SMALL, w) else (1, push (u8 len) w)
  else if len <=? 0xFF then
    if room w <? 2 then (MBEDTLS_ERR_ASN1_BUF_TOO_SMALL, w) else (2, push 0x81 (push (u8 len) w))
  else if len <=? 0xFFFF then
    if room w <? 3 then (MBEDTLS_ERR_ASN1_BUF_TOO_SMALL, w)
    else (3, push 0x82 (push (byte_n 1 len) (push (byte_n 0 len) w)))
  else if len <=? 0xFFFFFF then
    if room w <? 4 then (MBEDTLS_ERR_ASN1_BUF_TOO_SMALL, w)
    else (4, push 0x83 (push (byte_n 2 len) (push (byte_n 1 len) (push (byte_n 0 len) w))))
  else if len <=? 0xFFFFFFFF then
    if room w <? 5 then (MBEDTLS_ERR_ASN1_BUF_TOO_SMALL, w)
    else (5, push 0x84 (push (byte_n 3 len) (push (byte_n 2 len) (push (byte_n 1 len) (push (byte_n 0 len) w)))))
  else (MBEDTLS_ERR_ASN1_INVALID_LENGTH, w).

Definition mbedtls_asn1_write_tag (tag : Z) (w : Writer) : Z * Writer :=
  if room w <? 1 then (MBEDTLS_ERR_ASN1_BUF_TOO_SMALL, w) else (1, push (u8 tag) w).

Definition mbedtls_asn1_write_raw_buffer (buf : bytes) (w : Writer) : Z * Writer :=
  if room w <? zlen buf then (MBEDTLS_ERR_ASN1_BUF_TOO_SMALL, w)
  else (s32 (zlen buf), mkWriter (room w - zlen buf) (buf ++ out w)).

(** [MBEDTLS_ASN1_CHK_ADD(len, call)], and the rest of the function. *)
Definition chk_add (len : Z) (call : Z * Writer) (rest : Z -> Writer -> Z * Writer) : Z * Writer :=
  let '(ret, w) := call in if ret <? 0 then (ret, w) else rest (len + ret) w.

Definition mbedtls_asn1_write_null (w : Writer) : Z * Writer :=
  chk_add 0 (mbedtls_asn1_write_len 0 w) (fun len w =>
  chk_add len (mbedtls_asn1_write_tag MBEDTLS_ASN1_NULL w) (fun len w => (s32 len, w))).

Definition mbedtls_asn1_write_oid (oid : bytes) (w : Writer) : Z * Writer :=
  chk_add 0 (mbedtls_asn1_write_raw_buffer oid w) (fun len w =>
  chk_add len (mbedtls_asn1_write_len len w) (fun len w =>
  chk_add len (mbedtls_asn1_write_tag MBEDTLS_ASN1_OID w) (fun len w => (s32 len, w)))).

(** What follows the parameters. *)
Definition write_alg_rest (oid : bytes) (len : Z) (w : Writer) : Z * Writer :=
  chk_add len (mbedtls_asn1_write_oid oid w) (fun len w =>
  chk_add len (mbedtls_asn1_write_len len w) (fun len w =>
  chk_add len (mbedtls_asn1_write_tag (Z.lor MBEDTLS_ASN1_CONSTRUCTED MBEDTLS_ASN1_SEQUENCE) w)
    (fun len w => (s32 len, w)))).

Definition mbedtls_asn1_write_algorithm_identifier_ext (oid : bytes) (par_len : Z) (has_par : bool)
  (w : Writer) : Z * Writer :=
  if has_par then
    if par_len =? 0 then chk_add 0 (mbedtls_asn1_write_null w) (write_alg_rest oid)
    else write_alg_rest oid par_len w
  else write_alg_rest oid 0 w.

Definition mbedtls_asn1_write_algorithm_identifier (oid : bytes) (par_len : Z) (w : Writer) : Z * Writer :=
  mbedtls_asn1_write_algorithm_identifier_ext oid par_len true w.

Definition mbedtls_asn1_write_bool (boolean : Z) (w : Writer) : Z * Writer :=
  if room w <? 1 then (MBEDTLS_ERR_ASN1_BUF_TOO_SMALL, w)
  else
    let w := push (if negb (boolean =? 0) then 255 else 0) w in
    chk_add 1 (mbedtls_asn1_write_len 1 w) (fun len w =>
    chk_add len (mbedtls_asn1_write_tag MBEDTLS_ASN1_BOOLEAN w) (fun len w => (s32 len, w))).

(** The do-while loop: at most four rounds for a 32-bit [int].  [None] is the
    early return. *)
Fixpoint int_loop (fuel : nat) (val len : Z) (w : Writer) : option Z * Writer :=
  match fuel with
  | O => (Some len, w)
  | S fuel =>
      if room w <? 1 then (None, w)
      else
        let w := push (Z.land val 0xff) w in
        let val := Z.shiftr val 8 in
        if 0 <? val then int_loop fuel val (len + 1) w else (Some (len + 1), w)
  end.

Definition asn1_write_tagged_int (val tag : Z) (w : Writer) : Z * Writer :=
  match int_loop 4 val 0 w with
  | (None, w) => (MBEDTLS_ERR_ASN1_BUF_TOO_SMALL, w)
  | (Some len, w) =>
      let rest len w :=
        chk_add len (mbedtls_asn1_write_len len w) (fun len w =>
        chk_add len (mbedtls_asn1_write_tag tag w) (fun len w => (s32 len, w))) in
      if negb (Z.land (nth 0 (out w) 0) 0x80 =? 0) then
        if room w <? 1 then (MBEDTLS_ERR_ASN1_BUF_TOO_SMALL, w)
        else rest (len + 1) (push 0x00 w)
      else rest len w
  end.

Definition mbedtls_asn1_write_int (val : Z) (w : Writer) : Z * Writer :=
  asn1_write_tagged_int val MBEDTLS_ASN1_INTEGER w.

Definition mbedtls_asn1_write_enum (val : Z) (w : Writer) : Z * Writer :=
  asn1_write_tagged_int val MBEDTLS_ASN1_ENUMERATED w.

Definition mbedtls_asn1_write_tagged_string (tag : Z) (text : bytes) (w : Writer) : Z * Writer :=
  chk_add 0 (mbedtls_asn1_write_raw_buffer text w) (fun len w =>
  chk_add len (mbedtls_asn1_write_len len w) (fun len w =>
  chk_add len (mbedtls_asn1_write_tag tag w) (fun len w => (s32 len, w)))).

Definition mbedtls_asn1_write_utf8_string := mbedtls_asn1_write_tagged_string MBEDTLS_ASN1_UTF8_STRING.
Definition mbedtls_asn1_write_printable_string := mbedtls_asn1_write_tagged_string MBEDTLS_ASN1_PRINTABLE_STRING.
Definition mbedtls_asn1_write_ia5_string := mbedtls_asn1_write_tagged_string MBEDTLS_ASN1_IA5_STRING.

Definition mbedtls_asn1_write_octet_string (buf : bytes) (w : Writer) : Z * Writer :=
  chk_add 0 (mbedtls_asn1_write_raw_buffer buf w) (fun len w =>
  chk_add len (mbedtls_asn1_write_len len w) (fun len w =>
  chk_add len (mbedtls_asn1_write_tag MBEDTLS_ASN1_OCTET_STRING w) (fun len w => (s32 len, w)))).

(** ** Bit strings *)

Definition mbedtls_asn1_write_bitstring (buf : bytes) (bits : Z) (w : Writer) : Z * Writer :=
  let byte_len := (bits + 7) / 8 in
  let unused_bits := byte_len * 8 - bits in
  if room w <? byte_len + 1 then (MBEDTLS_ERR_ASN1_BUF_TOO_SMALL, w)
  else
    let len := byte_len + 1 in
    let w :=
      if 0 <? byte_len then
        let byte_len := byte_len - 1 in
        let last := u8 (Z.land (nth (Z.to_nat byte_len) buf 0) (Z.lnot (Z.shiftl 1 unused_bits - 1))) in
        mkWriter (room w - 1 - byte_len) (take (Z.to_nat byte_len) buf ++ last :: out w)
      else w in
    let w := push (u8 unused_bits) w in
    chk_add len (mbedtls_asn1_write_len len w) (fun len w =>
    chk_add len (mbedtls_asn1_write_tag MBEDTLS_ASN1_BIT_STRING w) (fun len w => (s32 len, w))).

(** The loop that drops trailing zero bits: [cur_byte] is the index of the
    current byte, [cur_byte_shifted] what is left of it. *)
Fixpoint trim_bits (bits : nat) (buf : bytes) (cur_byte : nat) (cur_byte_shifted : Z) : nat :=
  match bits with
  | O => O
  | S bits' =>
      let bit := Z.land cur_byte_shifted 0x1 in
      let cur_byte_shifted := Z.shiftr cur_byte_shifted 1 in
      if negb (bit =? 0) then bits
      else if (bits' =? 0)%nat then O
      else if (bits' mod 8 =? 0)%nat
      then trim_bits bits' buf (cur_byte - 1) (nth (cur_byte - 1) buf 0)
      else trim_bits bits' buf cur_byte cur_byte_shifted
  end.

Definition mbedtls_asn1_write_named_bitstring (buf : bytes) (bits : nat) (w : Writer) : Z * Writer :=
  let byte_len := ((bits + 7) / 8)%nat in
  let unused_bits := (byte_len * 8 - bits)%nat in
  let bits :=
    if negb (bits =? 0)%nat
    then trim_bits bits buf (byte_len - 1) (Z.shiftr (nth (byte_len - 1) buf 0) (Z.of_nat unused_bits))
    else bits in
  mbedtls_asn1_write_bitstring buf (Z.of_nat bits) w.

(** ** Named data *)

(** What a call ends with: the entry stored, no memory, or a copy through a
    null or too small value pointer. *)
Inductive StoreResult :=
| Stored (l : list mbedtls_asn1_named_data)
| NoMemory (l : list mbedtls_asn1_named_data)
| BadWrite.

(** [memcpy] of [val] over the value buffer of the entry at position [i]. *)
Definition copy_value (l : list mbedtls_asn1_named_data) (i : nat) (val : bytes) : StoreResult :=
  match l !! i with
  | Some (mkNamedData oid (Some p) n) =>
      if zlen val <=? zlen p
      then Stored (<[i := mkNamedData oid (Some (val ++ drop (length val) p)) n]> l)
      else BadWrite
  | _ => BadWrite
  end.

(** [val] is [None] for a null pointer; a fresh block from [calloc] is zeros. *)
Definition mbedtls_asn1_store_named_data (head : list mbedtls_asn1_named_data)
  (oid : bytes) (val : option bytes) (val_len : Z) (allocs : list bool) : StoreResult :=
  let zeros := repeat 0 (Z.to_nat val_len) in
  let finish l i :=
    match val with
    | Some v => if negb (val_len =? 0) then copy_value l i (take (Z.to_nat val_len) v) else Stored l
    | None => Stored l
    end in
  match mbedtls_asn1_find_named_data head oid with
  | None =>
      let '(ok, allocs) := next_alloc allocs in
      if negb ok then NoMemory head
      else
        let '(ok, allocs) := next_alloc allocs in
        if negb ok then NoMemory head
        else if negb (val_len =? 0) then
          let '(ok, allocs) := next_alloc allocs in
          if negb ok then NoMemory head
          else finish (mkNamedData oid (Some zeros) val_len :: head) O
        else finish (mkNamedData oid None val_len :: head) O
  | Some (i, cur) =>
      if val_len =? 0 then finish (<[i := mkNamedData (nd_oid cur) None (nd_len cur)]> head) i
      else if negb (nd_len cur =? val_len) then
        let '(ok, allocs) := next_alloc allocs in
        if negb ok then NoMemory head
        else finish (<[i := mkNamedData (nd_oid cur) (Some zeros) val_len]> head) i
      else finish head i
  end.

(** ** Writers as texts

    [emits n k t]: from the count [n], [k] prepends [t] and returns [n] plus
    its length when there is room for it, and otherwise reports the lack of
    room. *)
Definition prepend (t : bytes) (w : Writer) : Writer := mkWriter (room w - zlen t) (t ++ out w).

Definition emits (n : Z) (k : Writer -> Z * Writer) (t : bytes) : Prop :=
  forall w, 0 <= room w ->
    if zlen t <=? room w then k w = (n + zlen t, prepend t w)
    else fst (k w) = MBEDTLS_ERR_ASN1_BUF_TOO_SMALL.

Lemma emits_chain n f k t u :
  0 <= n -> emits 0 f t -> emits (n + zlen t) (k (n + zlen t)) u ->
  emits n (fun w => chk_add n (f w) k) (u ++ t).
Proof.
  intros Hn Hf Hk w Hw. specialize (Hf w Hw). unfold chk_add. rewrite zlen_app.
  destruct (zlen t <=? room w) eqn:E; to_prop.
  - rewrite Hf. destruct (0 + zlen t <? 0) eqn:F; to_prop; [lia|]. rewrite Z.add_0_l.
    assert (Hr : 0 <= room (prepend t w)) by (cbn; lia).
    specialize (Hk (prepend t w) Hr). cbn [prepend room] in Hk.
    destruct (zlen u <=? room w - zlen t) eqn:G, (_ <=? room w) eqn:H; to_prop; try lia.
    rewrite Hk. f_equal; [lia|]. unfold prepend. cbn [room out].
    rewrite zlen_app, <- app_assoc. f_equal. lia.
  - destruct (f w) as [ret w']. cbn [fst] in Hf. subst ret.
    destruct (_ <=? room w) eqn:H; to_prop; [lia|reflexivity].
Qed.

(** The end of every function: [return (int) len]. *)
Lemma emits_return n : 0 <= n < 2 ^ 31 -> emits n (fun w => (s32 n, w)) [].
Proof.
  intros Hn w Hw. change (zlen []) with 0. destruct (0 <=? room w) eqn:E; to_prop; [|lia].
  rewrite s32_small, Z.add_0_r by exact Hn. destruct w. unfold prepend. cbn. f_equal. f_equal. lia.
Qed.

Lemma emits_ext n f g t : (forall w, f w = g w) -> emits n f t -> emits n g t.
Proof. intros H Hf w Hw. rewrite <- H. by apply Hf. Qed.

(** Bytes pushed one by one are a text prepended. *)
Ltac push_done := unfold push, prepend; cbn [room out app length]; do 2 f_equal; lia.

Lemma byte_n_eq n x : 0 <= n -> byte_n n x = x / 2 ^ (8 * n) mod 2 ^ 8.
Proof. intros. unfold byte_n. rewrite land_255, Z.shiftr_div_pow2 by lia. reflexivity. Qed.

Lemma emits_len len : 0 <= len < 2 ^ 32 -> emits 0 (mbedtls_asn1_write_len len) (der_len len).
Proof.
  intros Hl w Hw. unfold mbedtls_asn1_write_len, der_len.
  rewrite !byte_n_eq by lia. change (2 ^ (8 * 0)) with 1. rewrite Z.div_1_r.
  change (2 ^ (8 * 1)) with (2 ^ 8). change (2 ^ (8 * 2)) with (2 ^ 16). change (2 ^ (8 * 3)) with (2 ^ 24).
  assert (S8 : forall a k, 0 <= a < k * 2 ^ 8 -> 0 < k -> (a / k) mod 2 ^ 8 = a / k).
  { intros a k Ha Hk. apply Z.mod_small. split; [apply Z.div_pos; lia|apply Z.div_lt_upper_bound; lia]. }
  destruct (len <? 128) eqn:E1; to_prop.
  { unfold u8. rewrite (Z.mod_small len) by lia. change (zlen [_]) with 1.
    destruct (room w <? 1) eqn:A, (1 <=? room w) eqn:B; to_prop; try lia; reflexivity. }
  destruct (len <? 2 ^ 8) eqn:E2, (len <=? 255) eqn:F2; to_prop; try lia.
  { unfold u8. rewrite (Z.mod_small len) by lia. change (zlen [_; _]) with 2.
    destruct (room w <? 2) eqn:A, (2 <=? room w) eqn:B; to_prop; try lia; [reflexivity|].
    by push_done. }
  destruct (len <? 2 ^ 16) eqn:E3, (len <=? 65535) eqn:F3; to_prop; try lia.
  { rewrite (S8 len (2 ^ 8)) by lia. change (zlen [_; _; _]) with 3.
    destruct (room w <? 3) eqn:A, (3 <=? room w) eqn:B; to_prop; try lia; [reflexivity|].
    by push_done. }
  destruct (len <? 2 ^ 24) eqn:E4, (len <=? 16777215) eqn:F4; to_prop; try lia.
  { rewrite (S8 len (2 ^ 16)) by lia. change (zlen [_; _; _; _]) with 4.
    destruct (room w <? 4) eqn:A, (4 <=? room w) eqn:B; to_prop; try lia; [reflexivity|].
    by push_done. }
  destruct (len <=? 4294967295) eqn:F5; to_prop; [|lia].
  rewrite (S8 len (2 ^ 24)) by lia. change (zlen [_; _; _; _; _]) with 5.
  destruct (room w <? 5) eqn:A, (5 <=? room w) eqn:B; to_prop; try lia; [reflexivity|].
  by push_done.
Qed.

Lemma emits_tag tag : is_byte tag -> emits 0 (mbedtls_asn1_write_tag tag) [tag].
Proof.
  intros Ht w Hw. unfold mbedtls_asn1_write_tag. rewrite u8_small by exact Ht. change (zlen [_]) with 1.
  destruct (room w <? 1) eqn:A, (1 <=? room w) eqn:B; to_prop; try lia; reflexivity.
Qed.

Lemma emits_raw buf : zlen buf < 2 ^ 31 -> emits 0 (mbedtls_asn1_write_raw_buffer buf) buf.
Proof.
  intros Hb w Hw. unfold mbedtls_asn1_write_raw_buffer. rewrite s32_small by lia.
  destruct (room w <? zlen buf) eqn:A, (zlen buf <=? room w) eqn:B; to_prop; try lia; reflexivity.
Qed.

Lemma der_len_length n : 1 <= zlen (der_len n) <= 5.
Proof. unfold der_len. case_ifs; cbn [length]; lia. Qed.

(** The common tail: length and tag in front of a content of [n] bytes. *)
Lemma emits_header n tag k :
  0 <= n < 2 ^ 31 - 6 -> is_byte tag -> k = n + zlen (der_len n) + 1 ->
  emits n (fun w => chk_add n (mbedtls_asn1_write_len n w) (fun len w =>
                    chk_add len (mbedtls_asn1_write_tag tag w) (fun len w => (s32 len, w))))
    (tag :: der_len n).
Proof.
  intros Hn Ht ->. pose proof (der_len_length n).
  change (tag :: der_len n) with (([] ++ [tag]) ++ der_len n).
  apply (emits_chain n _ (fun len w => chk_add len (mbedtls_asn1_write_tag tag w) (fun len w => (s32 len, w))));
    [lia|apply emits_len; lia|].
  apply (emits_chain _ _ (fun len w => (s32 len, w))); [lia|by apply emits_tag|].
  apply emits_return. change (zlen [tag]) with 1. lia.
Qed.

(** ** The elements *)

Lemma tlv_zlen tag c : zlen (tlv tag c) = 1 + zlen (der_len (zlen c)) + zlen c.
Proof. unfold tlv. cbn [length]. rewrite length_app. lia. Qed.

Lemma emits_string tag text :
  is_byte tag -> zlen text < 2 ^ 31 - 6 -> emits 0 (mbedtls_asn1_write_tagged_string tag text) (tlv tag text).
Proof.
  intros Ht Hl. unfold tlv. rewrite app_comm_cons.
  apply (emits_chain 0 _ (fun len w => chk_add len (mbedtls_asn1_write_len len w) (fun len w =>
    chk_add len (mbedtls_asn1_write_tag tag w) (fun len w => (s32 len, w))))); [lia|apply emits_raw; lia|].
  rewrite Z.add_0_l. eapply emits_header; [lia|exact Ht|reflexivity].
Qed.

Lemma emits_oid oid : zlen oid < 2 ^ 31 - 6 -> emits 0 (mbedtls_asn1_write_oid oid) (tlv MBEDTLS_ASN1_OID oid).
Proof. intros Hl. apply (emits_string MBEDTLS_ASN1_OID); [unfold is_byte, MBEDTLS_ASN1_OID; lia|exact Hl]. Qed.

Lemma emits_null : emits 0 mbedtls_asn1_write_null (tlv MBEDTLS_ASN1_NULL []).
Proof.
  apply (emits_header 0 MBEDTLS_ASN1_NULL 2); [lia|unfold is_byte, MBEDTLS_ASN1_NULL; lia|reflexivity].
Qed.

(** The part of an algorithm identifier in front of its parameters. *)
Definition alg_head (oid : bytes) (par_len : Z) : bytes :=
  0x30 :: der_len (par_len + zlen (tlv MBEDTLS_ASN1_OID oid)) ++ tlv MBEDTLS_ASN1_OID oid.

Lemma emits_alg_rest oid n :
  0 <= n -> zlen oid + n < 2 ^ 31 - 16 ->
  emits n (write_alg_rest oid n) (alg_head oid n).
Proof.
  intros Hn Hl. unfold alg_head. rewrite app_comm_cons.
  pose proof (tlv_zlen MBEDTLS_ASN1_OID oid). pose proof (der_len_length (zlen oid)).
  apply (emits_chain n _ (fun len w => chk_add len (mbedtls_asn1_write_len len w) (fun len w =>
    chk_add len (mbedtls_asn1_write_tag (Z.lor MBEDTLS_ASN1_CONSTRUCTED MBEDTLS_ASN1_SEQUENCE) w)
      (fun len w => (s32 len, w))))); [exact Hn|apply emits_oid; lia|].
  eapply emits_header; [lia|unfold is_byte; cbn; lia|reflexivity].
Qed.

(** The parameters of an algorithm identifier: left out, NULL, or an element
    written before the call. *)
Inductive Params := NoParams | NullParams | GivenParams (tag : Z) (content : bytes).

Definition params_text (ps : Params) : bytes :=
  match ps with NoParams => [] | NullParams => tlv MBEDTLS_ASN1_NULL [] | GivenParams t c => tlv t c end.

Definition params_buf (ps : Params) : mbedtls_asn1_buf :=
  match ps with
  | NoParams => mkAsn1Buf 0 []
  | NullParams => mkAsn1Buf MBEDTLS_ASN1_NULL []
  | GivenParams t c => mkAsn1Buf t c
  end.

(** The call that writes an identifier with these parameters. *)
Definition write_alg (oid : bytes) (ps : Params) : Writer -> Z * Writer :=
  match ps with
  | NoParams => mbedtls_asn1_write_algorithm_identifier_ext oid 0 false
  | NullParams => mbedtls_asn1_write_algorithm_identifier oid 0
  | GivenParams t c => mbedtls_asn1_write_algorithm_identifier oid (zlen (tlv t c))
  end.

Lemma get_len_content (c rest : bytes) :
  zlen c < 2 ^ 32 -> mbedtls_asn1_get_len (der_len (zlen c) ++ c ++ rest) = Ok (zlen c, c ++ rest).
Proof.
  intros. rewrite get_len_der, zlen_app by lia. destruct (_ <? _) eqn:E; to_prop; [lia|reflexivity].
Qed.

Lemma get_alg_text oid ps rest :
  zlen oid < 2 ^ 29 -> zlen (params_text ps) < 2 ^ 29 ->
  mbedtls_asn1_get_alg (alg_head oid (zlen (params_text ps)) ++ params_text ps ++ rest) =
  Ok (mkAsn1Buf MBEDTLS_ASN1_OID oid, params_buf ps, rest).
Proof.
  intros Ho Hp. unfold mbedtls_asn1_get_alg. change (Z.lor _ _) with 0x30.
  set (body := tlv MBEDTLS_ASN1_OID oid ++ params_text ps).
  pose proof (tlv_zlen MBEDTLS_ASN1_OID oid). pose proof (der_len_length (zlen oid)).
  assert (Hb : zlen body = zlen (params_text ps) + zlen (tlv MBEDTLS_ASN1_OID oid))
    by (subst body; rewrite zlen_app; lia).
  replace (alg_head _ _ ++ _) with (tlv 0x30 body ++ rest).
  2: { unfold alg_head. rewrite <- Hb. unfold tlv at 1. subst body. app_norm. reflexivity. }
  rewrite get_tag_tlv by lia. cbn [mbind result_bind].
  rewrite Nat2Z.id, take_app_length, drop_app_length.
  assert (Hh : exists r, body ++ rest = MBEDTLS_ASN1_OID :: r) by (subst body; unfold tlv; eexists; reflexivity).
  destruct Hh as [r ->]. subst body.
  rewrite get_tag_tlv by lia. cbn [mbind result_bind].
  rewrite Nat2Z.id, take_app_length, drop_app_length.
  assert (G : forall t c, zlen (tlv t c) < 2 ^ 29 ->
    ('(params_len, p) ← mbedtls_asn1_get_len (der_len (zlen c) ++ c);
    match drop (Z.to_nat params_len) p with
    | [] => Ok (mkAsn1Buf MBEDTLS_ASN1_OID oid, mkAsn1Buf t (take (Z.to_nat params_len) p), rest)
    | _ => Err MBEDTLS_ERR_ASN1_LENGTH_MISMATCH
    end) = Ok (mkAsn1Buf MBEDTLS_ASN1_OID oid, mkAsn1Buf t c, rest)).
  { intros t c Hc. rewrite tlv_zlen in Hc. pose proof (der_len_length (zlen c)).
    rewrite <- (app_nil_r c) at 2. rewrite get_len_content by lia. cbn [mbind result_bind].
    rewrite Nat2Z.id, app_nil_r, drop_all, firstn_all. reflexivity. }
  destruct ps as [| |t c]; cbn [params_text params_buf]; [reflexivity|apply (G _ [] Hp)|apply (G t c Hp)].
Qed.

Lemma write_alg_emits oid ps w :
  zlen oid < 2 ^ 29 -> zlen (params_text ps) < 2 ^ 29 -> 0 <= room w ->
  zlen (alg_head oid (zlen (params_text ps))) +
    (match ps with GivenParams _ _ => 0 | _ => zlen (params_text ps) end) <= room w ->
  exists n w', write_alg oid ps w = (n, w') /\ 0 <= n /\
    out w' = alg_head oid (zlen (params_text ps)) ++
             (match ps with GivenParams _ _ => [] | _ => params_text ps end) ++ out w.
Proof.
  intros Ho Hp Hw Hr. unfold write_alg, mbedtls_asn1_write_algorithm_identifier,
    mbedtls_asn1_write_algorithm_identifier_ext.
  destruct ps as [| |t c]; cbn [params_text] in *.
  - pose proof (emits_alg_rest oid 0 ltac:(lia) ltac:(lia) w Hw) as E. cbn [length] in Hr.
    destruct (_ <=? room w) eqn:F in E; to_prop; [|change (Z.of_nat 0) with 0 in Hr; lia].
    cbn zeta. rewrite E. do 2 eexists. split; [reflexivity|]. split; [lia|reflexivity].
  - change (0 =? 0) with true. cbv iota.
    pose proof (emits_chain 0 _ (write_alg_rest oid) _ _ ltac:(lia) emits_null
      (emits_alg_rest oid 2 ltac:(lia) ltac:(lia)) w Hw) as E.
    change (zlen (tlv MBEDTLS_ASN1_NULL [])) with 2 in *. rewrite zlen_app in E.
    change (zlen (tlv MBEDTLS_ASN1_NULL [])) with 2 in E.
    destruct (_ <=? room w) eqn:F in E; to_prop; [|lia].
    cbn zeta. rewrite E. do 2 eexists. split; [reflexivity|]. split; [lia|].
    cbn [prepend out]. by rewrite <- app_assoc.
  - destruct (_ =? 0) eqn:Z; to_prop; [rewrite tlv_zlen in Z; pose proof (der_len_length (zlen c)); lia|].
    pose proof (emits_alg_rest oid (zlen (tlv t c)) ltac:(lia) ltac:(lia) w Hw) as E.
    destruct (_ <=? room w) eqn:F in E; to_prop; [|lia].
    cbn zeta. rewrite E. do 2 eexists. split; [reflexivity|]. split; [lia|reflexivity].
Qed.

(** An algorithm identifier written with no parameters, with NULL or with
    parameters put there before the call is read back by the parser: the OID,
    the parameters, and exactly the bytes that followed. *)
Theorem algorithm_identifier_roundtrip oid ps w rest :
  zlen oid < 2 ^ 29 -> zlen (params_text ps) < 2 ^ 29 -> 
  zlen oid + zlen (params_text ps) + 16 <= room w ->
  out w = (match ps with GivenParams _ _ => params_text ps | _ => [] end) ++ rest ->
  exists n w', write_alg oid ps w = (n, w') /\ 0 <= n /\
    mbedtls_asn1_get_alg (out w') = Ok (mkAsn1Buf MBEDTLS_ASN1_OID oid, params_buf ps, rest).
Proof.
  intros Ho Hp Hr Hout.
  assert (Hh : zlen (alg_head oid (zlen (params_text ps))) <= zlen oid + 12).
  { unfold alg_head. rewrite app_comm_cons, zlen_app, tlv_zlen. cbn [length].
    pose proof (der_len_length (zlen oid)).
    pose proof (der_len_length (zlen (params_text ps) + (1 + zlen (der_len (zlen oid)) + zlen oid))). lia. }
  destruct (write_alg_emits oid ps w) as (n & w' & E & Hn & Ew); [assumption|assumption|lia|destruct ps; lia|].
  exists n, w'. split; [exact E|]. split; [exact Hn|].
  rewrite Ew, Hout, <- (get_alg_text oid ps rest) by assumption. destruct ps; cbn [app]; reflexivity.
Qed.

Lemma algorithm_identifier_roundtrip_witness :
  exists n w', write_alg [42; 3] NullParams (mkWriter 30 [9]) = (n, w') /\ 0 <= n /\
    mbedtls_asn1_get_alg (out w') = Ok (mkAsn1Buf 6 [42; 3], mkAsn1Buf 5 [], [9]).
Proof.
  apply (algorithm_identifier_roundtrip [42; 3] NullParams (mkWriter 30 [9]) [9]);
    try (vm_compute; reflexivity). vm_compute. discriminate.
Defined.

(** ** Bit strings *)

(** Bit [i] of a bit string, the most significant bit of a byte first. *)
Definition bit_at (buf : bytes) (i : nat) : bool :=
  Z.testbit (nth (i / 8) buf 0) (7 - Z.of_nat (i mod 8)).

Lemma low_bit x : 0 <= x -> negb (Z.land x 0x1 =? 0) = Z.testbit x 0.
Proof.
  intros Hx. change 0x1 with (Z.ones 1). rewrite Z.land_ones by lia.
  change (2 ^ 1) with 2. rewrite <- Z.bit0_mod. destruct (Z.testbit x 0); reflexivity.
Qed.

Lemma nat_divmod8 n : (n = 8 * (n / 8) + n mod 8 /\ n mod 8 < 8)%nat.
Proof. split; [apply Nat.div_mod; lia|apply Nat.mod_upper_bound; lia]. Qed.

(** [trim_bits] stops behind the last bit that is set. *)
Lemma trim_bits_spec buf bits : forall cur sh,
  bytes_ok buf -> (0 < bits)%nat ->
  cur = ((bits - 1) / 8)%nat ->
  sh = Z.shiftr (nth cur buf 0) (7 - Z.of_nat ((bits - 1) mod 8)) ->
  let k := trim_bits bits buf cur sh in
  (k <= bits)%nat /\ (k <> O -> bit_at buf (k - 1) = true) /\
  (forall i, (k <= i < bits)%nat -> bit_at buf i = false).
Proof.
  induction bits as [|b IH]; intros cur sh Hok Hb -> ->; [lia|]. cbn [trim_bits]. clear Hb.
  replace (S b - 1)%nat with b by lia. set (byte := nth (b / 8) buf 0).
  assert (Hbyte : is_byte byte).
  { subst byte. destruct (Nat.lt_ge_cases (b / 8) (length buf)).
    - rewrite List.Forall_forall in Hok. apply Hok, nth_In. assumption.
    - rewrite nth_overflow by lia. unfold is_byte. lia. }
  pose proof (nat_divmod8 b) as [Hd Hm]. unfold is_byte in Hbyte.
  rewrite low_bit by (apply Z.shiftr_nonneg; lia). rewrite Z.shiftr_spec by lia. rewrite Z.add_0_l.
  change (Z.testbit byte (7 - Z.of_nat (b mod 8))) with (bit_at buf b).
  destruct (bit_at buf b) eqn:Ebit.
  { split; [lia|]. split; [|lia]. intros _. replace (S b - 1)%nat with b by lia. exact Ebit. }
  assert (Hlast : forall k, (forall i, (k <= i < b)%nat -> bit_at buf i = false) ->
                            forall i, (k <= i < S b)%nat -> bit_at buf i = false).
  { intros k Hk i Hi. destruct (Nat.eq_dec i b) as [->|]; [exact Ebit|]. apply Hk. lia. }
  destruct (b =? 0)%nat eqn:E0; to_prop.
  { subst b. split; [lia|]. split; [done|]. intros i Hi. replace i with 0%nat by lia. exact Ebit. }
  pose proof (nat_divmod8 (b - 1)) as [Hd' Hm'].
  destruct (b mod 8 =? 0)%nat eqn:E8; to_prop.
  - destruct (IH (b / 8 - 1)%nat (nth (b / 8 - 1) buf 0)) as (Hk & Hs & Hz); [exact Hok|lia|lia| |].
    + replace ((b - 1) mod 8)%nat with 7%nat by lia. reflexivity.
    + split; [lia|]. split; [exact Hs|]. by apply Hlast.
  - destruct (IH (b / 8)%nat (Z.shiftr (Z.shiftr byte (7 - Z.of_nat (b mod 8))) 1)) as (Hk & Hs & Hz);
      [exact Hok|lia|lia| |].
    + rewrite Z.shiftr_shiftr by lia. f_equal. lia.
    + split; [lia|]. split; [exact Hs|]. by apply Hlast.
Qed.

(** The content octets that [mbedtls_asn1_write_bitstring] writes. *)
Definition bitstring_data (buf : bytes) (bits : nat) : bytes :=
  let n := ((bits + 7) / 8)%nat in
  match n with
  | O => []
  | S m => take m buf ++ [u8 (Z.land (nth m buf 0) (Z.lnot (Z.shiftl 1 (Z.of_nat (n * 8 - bits)) - 1)))]
  end.

Lemma mask_bits x u j :
  0 <= u <= 7 -> 0 <= j < 8 ->
  Z.testbit (u8 (Z.land x (Z.lnot (Z.shiftl 1 u - 1)))) j = (u <=? j) && Z.testbit x j.
Proof.
  intros Hu Hj. unfold u8. rewrite Z.mod_pow2_bits_low by lia.
  rewrite Z.land_spec, Z.lnot_spec by lia. rewrite Z.shiftl_1_l.
  replace (2 ^ u - 1) with (Z.ones u) by (rewrite Z.ones_equiv; lia).
  rewrite Z.testbit_ones_nonneg by lia. rewrite andb_comm. f_equal.
  destruct (j <? u) eqn:A, (u <=? j) eqn:B; to_prop; try lia; reflexivity.
Qed.

Lemma bitstring_data_bits buf bits :
  (bits <= 8 * length buf)%nat ->
  length (bitstring_data buf bits) = ((bits + 7) / 8)%nat /\
  forall i, (i < 8 * length (bitstring_data buf bits))%nat ->
    bit_at (bitstring_data buf bits) i = (i <? bits)%nat && bit_at buf i.
Proof.
  intros Hb. unfold bitstring_data. set (n := ((bits + 7) / 8)%nat).
  pose proof (nat_divmod8 (bits + 7)) as [Hd Hm]. fold n in Hd.
  destruct n as [|m] eqn:En; [split; [reflexivity|cbn; lia]|].
  assert (Hlen : length (take m buf) = m) by (rewrite length_take; lia).
  split; [rewrite length_app, Hlen; cbn [length]; lia|].
  rewrite length_app, Hlen. cbn [length]. intros i Hi.
  pose proof (nat_divmod8 i) as [Hdi Hmi]. unfold bit_at.
  destruct (Nat.lt_ge_cases (i / 8) m) as [H|H].
  - rewrite app_nth1 by lia. rewrite <- (take_drop m buf) at 2. rewrite app_nth1 by lia.
    destruct (i <? bits)%nat eqn:E; to_prop; [reflexivity|lia].
  - assert (Hi8 : (i / 8 = m)%nat) by lia. rewrite Hi8, app_nth2, Hlen, Nat.sub_diag by lia.
    cbn [nth]. rewrite mask_bits by lia. f_equal.
    destruct (Z.of_nat _ <=? _) eqn:A, (i <? bits)%nat eqn:B; to_prop; try reflexivity; lia.
Qed.

Lemma write_bitstring_eq buf bits w :
  (bits <= 8 * length buf)%nat -> zlen buf < 2 ^ 29 -> zlen buf + 16 <= room w ->
  mbedtls_asn1_write_bitstring buf (Z.of_nat bits) w =
  (zlen (tlv MBEDTLS_ASN1_BIT_STRING (Z.of_nat ((bits + 7) / 8 * 8 - bits) :: bitstring_data buf bits)),
   prepend (tlv MBEDTLS_ASN1_BIT_STRING (Z.of_nat ((bits + 7) / 8 * 8 - bits) :: bitstring_data buf bits)) w).
Proof.
  intros Hb Hl Hr. unfold mbedtls_asn1_write_bitstring.
  pose proof (nat_divmod8 (bits + 7)) as [Hd Hm]. set (n := ((bits + 7) / 8)%nat) in *.
  replace ((Z.of_nat bits + 7) / 8) with (Z.of_nat n) by (subst n; rewrite Nat2Z.inj_div; f_equal; lia).
  replace (Z.of_nat n * 8 - Z.of_nat bits) with (Z.of_nat (n * 8 - bits)) by lia.
  set (u := (n * 8 - bits)%nat).
  rewrite (u8_small (Z.of_nat u)) by (unfold is_byte; lia).
  destruct (room w <? _) eqn:E; to_prop; [lia|].
  set (data := bitstring_data buf bits). set (content := Z.of_nat u :: data).
  assert (Hdl : length data = n) by (apply bitstring_data_bits; exact Hb).
  assert (Hcl : zlen content = Z.of_nat n + 1) by (subst content; cbn [length]; lia).
  replace (push (Z.of_nat u) _) with (prepend content w).
  2: { subst content data. unfold bitstring_data. fold n. destruct (0 <? Z.of_nat n) eqn:F; to_prop.
       - destruct n as [|m]; [lia|]. replace (Z.of_nat (S m) - 1) with (Z.of_nat m) by lia. rewrite Nat2Z.id.
         unfold push, prepend. cbn [room out app]. cbn [length].
         rewrite length_app, length_take. cbn [length]. rewrite <- app_assoc. cbn [app]. fold u. f_equal. lia.
       - destruct n; [|lia]. reflexivity. }
  pose proof (der_len_length (zlen content)).
  pose proof (emits_header (zlen content) MBEDTLS_ASN1_BIT_STRING _ ltac:(lia)
    ltac:(unfold is_byte, MBEDTLS_ASN1_BIT_STRING; lia) eq_refl (prepend content w)) as He.
  rewrite <- Hcl. cbn [prepend room out] in He. specialize (He ltac:(lia)).
  destruct (_ <=? _) eqn:F in He; to_prop; [|cbn [length] in F; lia].
  rewrite He. f_equal; [rewrite tlv_zlen; cbn [length]; lia|].
  unfold prepend, tlv. cbn [room out app length]. rewrite <- app_assoc. f_equal. rewrite length_app. lia.
Qed.

(** A named bit string loses exactly its trailing zero bits: what the
    parser reads back has the bits of the buffer up to the last one that is
    set, the announced number of unused bits, and zeros in their place. *)
Theorem named_bitstring_roundtrip buf bits w :
  bytes_ok buf -> (bits <= 8 * length buf)%nat -> zlen buf < 2 ^ 29 -> zlen buf + 16 <= room w -> out w = [] ->
  exists n w' bs k,
    mbedtls_asn1_write_named_bitstring buf bits w = (n, w') /\
    mbedtls_asn1_get_bitstring (out w') = Ok (bs, []) /\
    8 * zlen (bs_bytes bs) - unused_bits bs = Z.of_nat k /\
    (k <= bits)%nat /\ (k <> O -> bit_at buf (k - 1) = true) /\
    (forall i, (k <= i < bits)%nat -> bit_at buf i = false) /\
    (forall i, (i < 8 * length (bs_bytes bs))%nat -> bit_at (bs_bytes bs) i = (i <? k)%nat && bit_at buf i).
Proof.
  intros Hok Hb Hl Hr Hout. unfold mbedtls_asn1_write_named_bitstring.
  set (k := if negb (bits =? 0)%nat then _ else bits).
  assert (Hk : (k <= bits)%nat /\ (k <> O -> bit_at buf (k - 1) = true) /\
               (forall i, (k <= i < bits)%nat -> bit_at buf i = false)).
  { subst k. destruct (bits =? 0)%nat eqn:E; to_prop; cbn [negb]; [split; [lia|]; split; [done|lia]|].
    pose proof (nat_divmod8 (bits + 7)) as [? ?]. pose proof (nat_divmod8 (bits - 1)) as [? ?].
    apply trim_bits_spec; [exact Hok|lia|lia|]. f_equal. lia. }
  clearbody k. destruct Hk as (Hk & Hs & Hz).
  rewrite write_bitstring_eq by (try assumption; lia).
  destruct (bitstring_data_bits buf k ltac:(lia)) as [Hdl Hbits].
  pose proof (nat_divmod8 (k + 7)) as [Hd Hm]. set (n := ((k + 7) / 8)%nat) in *.
  set (data := bitstring_data buf k) in *.
  do 2 eexists. exists (mkBitstring data (Z.of_nat (n * 8 - k))), k. split; [reflexivity|].
  cbn [prepend out bs_bytes unused_bits]. rewrite Hout. split; [|repeat split; try assumption; lia].
  unfold mbedtls_asn1_get_bitstring. rewrite get_tag_tlv by (cbn [length]; lia). cbn [mbind result_bind].
  rewrite app_nil_r. destruct (_ <? 1) eqn:E; to_prop; [cbn [length] in E; lia|]. cbn [nth].
  destruct (7 <? _) eqn:F; to_prop; [lia|]. cbn [drop length].
  replace (Z.to_nat (Z.of_nat (S (length data)) - 1)) with (length data) by lia.
  rewrite drop_all, firstn_all. reflexivity.
Qed.

Lemma named_bitstring_roundtrip_witness :
  exists n w' bs k,
    mbedtls_asn1_write_named_bitstring [0xA0; 0x40; 0] 20 (mkWriter 40 []) = (n, w') /\
    mbedtls_asn1_get_bitstring (out w') = Ok (bs, []) /\
    8 * zlen (bs_bytes bs) - unused_bits bs = Z.of_nat k /\
    (k <= 20)%nat /\ (k <> O -> bit_at [0xA0; 0x40; 0] (k - 1) = true) /\
    (forall i, (k <= i < 20)%nat -> bit_at [0xA0; 0x40; 0] i = false) /\
    (forall i, (i < 8 * length (bs_bytes bs))%nat ->
       bit_at (bs_bytes bs) i = (i <? k)%nat && bit_at [0xA0; 0x40; 0] i).
Proof.
  apply (named_bitstring_roundtrip [0xA0; 0x40; 0] 20 (mkWriter 40 [])).
  - bytes_ok_closed.
  - cbn. lia.
  - vm_compute. reflexivity.
  - vm_compute. discriminate.
  - reflexivity.
Defined.

(** ** Named data *)

(** An entry whose value buffer has the recorded length. *)
Definition entry_ok (d : mbedtls_asn1_named_data) : Prop :=
  match nd_val d with Some p => zlen p = nd_len d | None => nd_len d = 0 end.

Lemma find_some l oid i d :
  mbedtls_asn1_find_named_data l oid = Some (i, d) ->
  l !! i = Some d /\ nd_oid d = oid /\
  (forall d', nd_oid d' = oid -> mbedtls_asn1_find_named_data (<[i := d']> l) oid = Some (i, d')) /\
  (forall d' o, nd_oid d' = oid -> o <> oid ->
     mbedtls_asn1_find_named_data (<[i := d']> l) o = mbedtls_asn1_find_named_data l o).
Proof.
  revert i. induction l as [|e l IH]; intros i; cbn [mbedtls_asn1_find_named_data]; [discriminate|].
  destruct (bytes_eqb (nd_oid e) oid) eqn:E.
  - apply bytes_eqb_eq in E. intros [= <- <-]. split; [reflexivity|]. split; [exact E|]. split.
    + intros d' H. cbn. rewrite (proj2 (bytes_eqb_eq _ _) H). reflexivity.
    + intros d' o H Ho. cbn. rewrite (proj2 (bytes_eqb_neq (nd_oid d') o)), (proj2 (bytes_eqb_neq (nd_oid e) o))
        by congruence. reflexivity.
  - destruct (mbedtls_asn1_find_named_data l oid) as [[j f]|] eqn:F; [|discriminate]. intros [= <- <-].
    destruct (IH j eq_refl) as (Hl & Ho & Hs & Hn). split; [exact Hl|]. split; [exact Ho|].
    split; intros; cbn; [rewrite E, Hs by assumption; reflexivity|].
    rewrite Hn by assumption. reflexivity.
Qed.

Lemma copy_fresh l i oid n v p :
  l !! i = Some (mkNamedData oid (Some p) n) -> zlen v = zlen p ->
  copy_value l i v = Stored (<[i := mkNamedData oid (Some v) n]> l).
Proof.
  intros H Hv. unfold copy_value. rewrite H. destruct (_ <=? _) eqn:E; to_prop; [|lia].
  rewrite drop_ge, app_nil_r by lia. reflexivity.
Qed.

Lemma zlen_repeat (x n : Z) : 0 <= n -> zlen (repeat x (Z.to_nat n)) = n.
Proof. intros. rewrite repeat_length. lia. Qed.

(** Storing a value that is not empty under an OID, in a list whose
    entries are in order: a look-up of that OID finds the value, look-ups of
    other OIDs find what they found before, and the entries stay in order. *)
Theorem store_then_find head oid v :
  Forall entry_ok head -> v <> [] ->
  exists l i, mbedtls_asn1_store_named_data head oid (Some v) (zlen v) [] = Stored l /\
    mbedtls_asn1_find_named_data l oid = Some (i, mkNamedData oid (Some v) (zlen v)) /\
    (forall o, o <> oid -> snd <$> mbedtls_asn1_find_named_data l o = snd <$> mbedtls_asn1_find_named_data head o) /\
    Forall entry_ok l.
Proof.
  intros Hh Hv. assert (Hz : (zlen v =? 0) = false) by (apply Z.eqb_neq; destruct v; [done|cbn [length]; lia]).
  unfold mbedtls_asn1_store_named_data. rewrite Hz. cbn [negb next_alloc].
  rewrite Nat2Z.id, firstn_all. pose proof (zlen_repeat 0 (zlen v) ltac:(lia)) as Hr. rewrite Nat2Z.id in Hr.
  destruct (mbedtls_asn1_find_named_data head oid) as [[i cur]|] eqn:F.
  - destruct (find_some _ _ _ _ F) as (Hl & Ho & Hs & Hn).
    pose proof (lookup_lt_Some _ _ _ Hl) as Hlt.
    assert (Hcur : entry_ok cur) by (eapply Forall_lookup_1; eauto).
    set (new := mkNamedData oid (Some v) (zlen v)).
    assert (Hfin : forall l, l = <[i := new]> head ->
      exists l' j, Stored l = Stored l' /\ mbedtls_asn1_find_named_data l' oid = Some (j, new) /\
        (forall o, o <> oid -> snd <$> mbedtls_asn1_find_named_data l' o = snd <$> mbedtls_asn1_find_named_data head o) /\
        Forall entry_ok l').
    { intros l ->. exists (<[i := new]> head), i. split; [reflexivity|]. split; [by apply Hs|]. split.
      - intros o Hne. by rewrite Hn.
      - apply Forall_insert; [exact Hh|reflexivity]. }
    destruct (nd_len cur =? zlen v) eqn:E; to_prop; cbn [negb].
    + destruct cur as [coid [p|] n]; unfold entry_ok in Hcur; cbn in *; [|lia]. subst coid n.
      rewrite (copy_fresh _ _ _ _ _ _ Hl) by lia. apply Hfin. unfold new. do 2 f_equal. lia.
    + rewrite (copy_fresh _ i (nd_oid cur) (zlen v) v (repeat 0 (length v)));
        [|by apply list_lookup_insert_eq|lia].
      apply Hfin. rewrite list_insert_insert_eq, Ho. reflexivity.
  - rewrite (copy_fresh _ 0 oid (zlen v) v (repeat 0 (length v))); [|reflexivity|lia].
    exists (mkNamedData oid (Some v) (zlen v) :: head), O. split; [reflexivity|].
    cbn [mbedtls_asn1_find_named_data nd_oid]. rewrite bytes_eqb_refl. split; [reflexivity|]. split.
    + intros o Ho. rewrite (proj2 (bytes_eqb_neq oid o)) by congruence.
      by destruct (mbedtls_asn1_find_named_data head o) as [[? ?]|].
    + constructor; [reflexivity|exact Hh].
Qed.

Lemma store_then_find_witness :
  exists l i, mbedtls_asn1_store_named_data [mkNamedData [85; 4] (Some [1]) 1] [85; 4] (Some [2; 3]) 2 [] = Stored l /\
    mbedtls_asn1_find_named_data l [85; 4] = Some (i, mkNamedData [85; 4] (Some [2; 3]) 2) /\
    (forall o, o <> [85; 4] -> snd <$> mbedtls_asn1_find_named_data l o =
       snd <$> mbedtls_asn1_find_named_data [mkNamedData [85; 4] (Some [1]) 1] o) /\
    Forall entry_ok l.
Proof.
  apply (store_then_find [mkNamedData [85; 4] (Some [1]) 1] [85; 4] [2; 3]); [|discriminate].
  repeat constructor.
Defined.

(** Emptying an entry frees its value but keeps the old length, so the
    list is no longer in order: storing a value of the old length again copies
    it through a null pointer. *)
Theorem emptied_entry_null_write oid v1 v2 :
  v1 <> [] -> length v2 = length v1 ->
  exists l1 l2,
    mbedtls_asn1_store_named_data [] oid (Some v1) (zlen v1) [] = Stored l1 /\
    mbedtls_asn1_store_named_data l1 oid (Some []) 0 [] = Stored l2 /\
    mbedtls_asn1_store_named_data l2 oid (Some v2) (zlen v2) [] = BadWrite.
Proof.
  intros H1 H2. set (l1 := [mkNamedData oid (Some v1) (zlen v1)]).
  exists l1, [mkNamedData oid None (zlen v1)].
  assert (Hz : (zlen v1 =? 0) = false) by (apply Z.eqb_neq; destruct v1; [done|cbn [length]; lia]).
  split; [|split]; unfold mbedtls_asn1_store_named_data; cbn [mbedtls_asn1_find_named_data nd_oid l1];
    rewrite ?bytes_eqb_refl, ?H2, ?Hz; cbn [negb next_alloc nd_len].
  - rewrite Nat2Z.id, firstn_all. apply (copy_fresh [mkNamedData oid (Some (repeat 0 (length v1))) (zlen v1)] 0 oid (zlen v1) v1 (repeat 0 (length v1)));
      [reflexivity|]. rewrite repeat_length. reflexivity.
  - reflexivity.
  - rewrite Z.eqb_refl. reflexivity.
Qed.

Lemma emptied_entry_null_write_witness :
  exists l1 l2,
    mbedtls_asn1_store_named_data [] [85; 4; 3] (Some (str "abc")) 3 [] = Stored l1 /\
    mbedtls_asn1_store_named_data l1 [85; 4; 3] (Some []) 0 [] = Stored l2 /\
    mbedtls_asn1_store_named_data l2 [85; 4; 3] (Some (str "xyz")) 3 [] = BadWrite.
Proof. apply (emptied_entry_null_write [85; 4; 3] (str "abc") (str "xyz")); [discriminate|reflexivity]. Defined.
