(* ===== verification/HashStream.v ===== *)
(** What the message digests share (the [_update_ret] and [_finish_ret]
    functions of mbedtls/library/sha256.c, sha1.c, md5.c, md4.c, ripemd160.c
    and sha512.c): a context with the byte count in two words, the chaining
    state and a block buffer.  A digest provides its compression function, its
    block size and the width and byte order of the length through the class
    [HashAlgo]; the theorem at the end, proved against the class, says that any
    sequence of updates followed by the end computes the padded
    Merkle-Damgard hash of the concatenated input. *)
From S2P Require Import Prelude Words.
From stdpp Require Import list.
#[local] Open Scope Z_scope.

(** What a digest brings: [count_bits] is the width of the two count words (and
    of the cast of [ilen]); [length_field high low] the last bytes of the
    padding. *)
Class HashAlgo (S : Type) := {
  block_size : nat;
  count_bits : Z;
  compress : S -> bytes -> S;
  length_field : Z -> Z -> bytes;
}.

Record Context (S : Type) := mkContext {
  total0 : Z;
  total1 : Z;
  state : S;
  buffer : bytes;
}.
Arguments mkContext {S} _ _ _ _.
Arguments total0 {S} _.
Arguments total1 {S} _.
Arguments state {S} _.
Arguments buffer {S} _.

Section Stream.
Context {S : Type} `{HashAlgo S}.

Definition wrap_count (z : Z) : Z := z mod 2 ^ count_bits.

(** [while (ilen >= block) { process(ctx, input); ... }] *)
Fixpoint process_blocks (fuel : nat) (st : S) (input : bytes) : S * bytes :=
  match fuel with
  | O => (st, input)
  | Datatypes.S fuel =>
      if (block_size <=? length input)%nat
      then process_blocks fuel (compress st (take block_size input)) (drop block_size input)
      else (st, input)
  end.

Definition hash_starts (init : S) (buf : bytes) : Context S := mkContext 0 0 init buf.

Definition hash_update (ctx : Context S) (input : bytes) : Context S :=
  let ilen := zlen input in
  if ilen =? 0 then ctx
  else
    let left0 := Z.to_nat (Z.land (total0 ctx) (Z.of_nat block_size - 1)) in
    let fill := (block_size - left0)%nat in
    let t0 := wrap_count (total0 ctx + wrap_count ilen) in
    let t1 := if t0 <? wrap_count ilen then wrap_count (total1 ctx + 1) else total1 ctx in
    let '(st, buf, input, left0) :=
      if negb (left0 =? 0)%nat && (fill <=? length input)%nat then
        let buf := put_at (buffer ctx) left0 (take fill input) in
        (compress (state ctx) buf, buf, drop fill input, O)
      else (state ctx, buffer ctx, input, left0) in
    let '(st, input) := process_blocks (length input) st input in
    let buf := if (0 <? length input)%nat then put_at buf left0 input else buf in
    mkContext t0 t1 st buf.

Definition hash_finish_ctx (ctx : Context S) : Context S :=
  let used := Z.to_nat (Z.land (total0 ctx) (Z.of_nat block_size - 1)) in
  let high := Z.lor (Z.shiftr (total0 ctx) (count_bits - 3)) (wrap_count (Z.shiftl (total1 ctx) 3)) in
  let low := wrap_count (Z.shiftl (total0 ctx) 3) in
  let room := (block_size - length (length_field high low))%nat in
  let buf := put_at (buffer ctx) used [0x80] in
  let used := (used + 1)%nat in
  let '(st, buf) :=
    if (used <=? room)%nat then (state ctx, put_at buf used (repeat 0 (room - used)))
    else
      let buf := put_at buf used (repeat 0 (block_size - used)) in
      (compress (state ctx) buf, put_at buf 0 (repeat 0 room)) in
  let buf := put_at buf room (length_field high low) in
  mkContext (total0 ctx) (total1 ctx) (compress st buf) buf.

(** The state that is printed as the digest. *)
Definition hash_finish (ctx : Context S) : S := state (hash_finish_ctx ctx).

(** The other way to end (md4.c, ripemd160.c): the padding and the length are
    two more updates. *)
Definition padding : bytes := 0x80 :: repeat 0 (block_size - 1).

Definition hash_finish_updates_ctx (ctx : Context S) : Context S :=
  let high := Z.lor (Z.shiftr (total0 ctx) (count_bits - 3)) (wrap_count (Z.shiftl (total1 ctx) 3)) in
  let low := wrap_count (Z.shiftl (total0 ctx) 3) in
  let msglen := length_field high low in
  let room := (block_size - length msglen)%nat in
  let last := Z.to_nat (Z.land (total0 ctx) (Z.of_nat block_size - 1)) in
  let padn := if (last <? room)%nat then (room - last)%nat else (block_size + room - last)%nat in
  let ctx := hash_update ctx (take padn padding) in
  hash_update ctx msglen.

Definition hash_finish_updates (ctx : Context S) : S := state (hash_finish_updates_ctx ctx).

(** ** The hash of a message by its definition *)

(** The chaining state after all blocks of a message, and the open block. *)
Definition absorb (st : S) (msg : bytes) : S * bytes := process_blocks (length msg) st msg.

(** 0x80, the fewest zeros that let the length field end a block, and the
    length in bits. *)
Definition pad (msg : bytes) (field : bytes) : bytes :=
  let n := (length msg + 1 + length field)%nat in
  0x80 :: repeat 0 ((block_size - n mod block_size) mod block_size) ++ field.

Definition bit_length_field (n : Z) : bytes :=
  let bits := n * 8 mod 2 ^ (2 * count_bits) in
  length_field (bits / 2 ^ count_bits) (bits mod 2 ^ count_bits).

Definition hash_spec (init : S) (msg : bytes) : S :=
  fst (absorb init (msg ++ pad msg (bit_length_field (zlen msg)))).

(** ** Lemmas *)

(** The laws of a digest: a block size that is a power of two, a length field
    shorter than a block. *)
Class HashLaws := {
  block_pow : exists k, 3 <= k < count_bits /\ Z.of_nat block_size = 2 ^ k;
  field_length : exists n, (0 < n < block_size)%nat /\ forall h l, length (length_field h l) = n;
}.
Context {laws : HashLaws}.

Lemma block_positive : (0 < block_size)%nat.
Proof using laws. destruct block_pow as (k & Hk & E). pose proof (Z.pow_pos_nonneg 2 k). lia. Qed.

Lemma process_short fuel st input :
  (length input < block_size)%nat -> process_blocks fuel st input = (st, input).
Proof using. destruct fuel; [reflexivity|]. intros Hl. cbn. destruct (_ <=? _)%nat eqn:E; to_prop; [lia|reflexivity]. Qed.

(** Fuel beyond the length changes nothing. *)
Lemma process_fuel f1 : forall f2 st input,
  (length input <= f1)%nat -> (length input <= f2)%nat ->
  process_blocks f1 st input = process_blocks f2 st input.
Proof using laws.
  pose proof block_positive as Hb.
  induction f1 as [|f1 IH]; intros f2 st input H1 H2.
  - rewrite (process_short f2) by lia. reflexivity.
  - destruct f2 as [|f2]; [rewrite (process_short (Datatypes.S f1)) by lia; reflexivity|]. cbn [process_blocks].
    destruct (_ <=? _)%nat eqn:E; to_prop; [|reflexivity]. apply IH; rewrite length_drop; lia.
Qed.

Lemma absorb_block st blk rest :
  length blk = block_size -> absorb st (blk ++ rest) = absorb (compress st blk) rest.
Proof using laws.
  intros Hb. pose proof block_positive. unfold absorb.
  rewrite (process_fuel (length (blk ++ rest)) (Datatypes.S (length rest + length blk))) by (rewrite length_app; lia).
  cbn [process_blocks]. rewrite length_app. destruct (_ <=? _)%nat eqn:E; to_prop; [|lia].
  rewrite take_app_exact, drop_app_exact by lia. apply process_fuel; lia.
Qed.

(** Absorbing in two parts. *)
Lemma absorb_app st a b :
  absorb st (a ++ b) = let '(st', r) := absorb st a in absorb st' (r ++ b).
Proof using laws.
  pose proof block_positive. remember (length a) as n eqn:Hn. revert st a Hn.
  induction (lt_wf n) as [n _ IH]; intros st a ->.
  destruct (Nat.lt_ge_cases (length a) block_size).
  - unfold absorb at 2. rewrite process_short by lia. reflexivity.
  - rewrite <- (take_drop block_size a), <- app_assoc.
    assert (length (take block_size a) = block_size) by (rewrite length_take; lia).
    rewrite (absorb_block _ _ (drop block_size a ++ b)), (absorb_block _ _ (drop block_size a)) by assumption.
    eapply IH; [|reflexivity]. rewrite length_drop. lia.
Qed.

Lemma absorb_short st r : (length r < block_size)%nat -> absorb st r = (st, r).
Proof using. apply process_short. Qed.

Lemma absorb_rest st msg :
  length (snd (absorb st msg)) = (length msg mod block_size)%nat.
Proof using laws.
  pose proof block_positive. remember (length msg) as n eqn:Hn. revert st msg Hn.
  induction (lt_wf n) as [n _ IH]; intros st msg ->.
  destruct (Nat.lt_ge_cases (length msg) block_size).
  - rewrite absorb_short, Nat.mod_small by lia. reflexivity.
  - rewrite <- (take_drop block_size msg) at 1.
    assert (length (take block_size msg) = block_size) by (rewrite length_take; lia).
    rewrite absorb_block by assumption. rewrite (IH (length (drop block_size msg))) by (try reflexivity; rewrite length_drop; lia).
    rewrite length_drop. rewrite <- (Nat.sub_add block_size (length msg)) at 2 by lia.
    replace (length msg - block_size + block_size)%nat with (length msg - block_size + 1 * block_size)%nat by lia.
    rewrite Nat.Div0.mod_add. reflexivity.
Qed.

(** ** The context represents the message read so far *)

Definition represents (init : S) (ctx : Context S) (msg : bytes) : Prop :=
  total0 ctx + 2 ^ count_bits * total1 ctx = zlen msg mod 2 ^ (2 * count_bits) /\
  0 <= total0 ctx < 2 ^ count_bits /\ 0 <= total1 ctx < 2 ^ count_bits /\
  length (buffer ctx) = block_size /\
  absorb init msg = (state ctx, take (length msg mod block_size) (buffer ctx)).

Lemma count_pos : 0 < count_bits.
Proof using laws. destruct block_pow as (k & Hk & _). lia. Qed.

Lemma pow_split : 2 ^ (2 * count_bits) = 2 ^ count_bits * 2 ^ count_bits.
Proof using laws. pose proof count_pos. rewrite <- Z.pow_add_r by lia. f_equal. lia. Qed.

Lemma starts_represents init buf :
  length buf = block_size -> represents init (hash_starts init buf) [].
Proof using laws.
  intros Hb. pose proof block_positive. pose proof count_pos. unfold represents, hash_starts. cbn [total0 total1 state buffer].
  assert (0 < 2 ^ count_bits) by (apply Z.pow_pos_nonneg; lia).
  rewrite absorb_short by (cbn; lia). cbn [length]. rewrite Nat.Div0.mod_0_l.
  repeat split; try lia. change (zlen []) with 0. rewrite Z.mod_0_l by (rewrite pow_split; lia). lia.
Qed.

(** [total & (block - 1)] is the fill of the buffer. *)
Lemma left_eq init ctx msg :
  represents init ctx msg ->
  Z.to_nat (Z.land (total0 ctx) (Z.of_nat block_size - 1)) = (length msg mod block_size)%nat.
Proof using laws.
  intros (Ht & _ & _ & _ & _). destruct block_pow as (k & Hk & E). rewrite E.
  replace (2 ^ k - 1) with (Z.ones k) by (rewrite Z.ones_equiv; lia). rewrite Z.land_ones by lia.
  assert (Hm : total0 ctx mod 2 ^ k = zlen msg mod 2 ^ k).
  { transitivity ((zlen msg mod 2 ^ (2 * count_bits)) mod 2 ^ k).
    - rewrite <- Ht. replace (2 ^ count_bits) with (2 ^ (count_bits - k) * 2 ^ k)
        by (rewrite <- Z.pow_add_r by lia; f_equal; lia).
      rewrite <- Z.mul_assoc, (Z.mul_comm (2 ^ k)), Z.mul_assoc, Z.mod_add by (apply Z.pow_nonzero; lia). reflexivity.
    - symmetry. replace (2 ^ (2 * count_bits)) with (2 ^ k * 2 ^ (2 * count_bits - k))
        by (rewrite <- Z.pow_add_r by lia; f_equal; lia).
      rewrite Z.rem_mul_r by (try apply Z.pow_nonzero; try apply Z.pow_pos_nonneg; lia).
      rewrite (Z.mul_comm (2 ^ k)), Z.mod_add, Z.mod_mod by (apply Z.pow_nonzero; lia). reflexivity. }
  rewrite Hm, <- E, <- Nat2Z.inj_mod, Nat2Z.id. reflexivity.
Qed.
(** The two-word count after an update. *)
Lemma count_update W T0 T1 len n :
  0 < W -> 0 <= T0 < W -> 0 <= T1 < W -> 0 <= n < W -> T0 + W * T1 = len mod (W * W) ->
  let t0 := (T0 + n) mod W in
  let t1 := if t0 <? n then (T1 + 1) mod W else T1 in
  t0 + W * t1 = (len + n) mod (W * W) /\ 0 <= t0 < W /\ 0 <= t1 < W.
Proof using.
  intros HW H0 H1 Hn HT t0 t1.
  assert (Ht0 : 0 <= t0 < W) by (apply Z.mod_pos_bound; lia).
  rewrite <- (Z.add_mod_idemp_l len) by nia. rewrite <- HT.
  destruct (Z.lt_ge_cases (T0 + n) W) as [Hc|Hc].
  - assert (E : t0 = T0 + n) by (apply Z.mod_small; lia). subst t1.
    destruct (t0 <? n) eqn:F; to_prop; [lia|]. rewrite Z.mod_small by nia. nia.
  - assert (E : t0 = T0 + n - W) by (symmetry; apply (Z.mod_unique _ _ 1); lia). subst t1.
    destruct (t0 <? n) eqn:F; to_prop; [|lia].
    destruct (Z.eq_dec (T1 + 1) W) as [G|G].
    + rewrite G, Z.mod_same by lia. split; [|lia]. apply (Z.mod_unique _ _ 1); nia.
    + rewrite (Z.mod_small (T1 + 1)) by lia. split; [|lia]. rewrite Z.mod_small by nia. nia.
Qed.

Lemma update_represents init ctx msg input :
  represents init ctx msg -> zlen input < 2 ^ count_bits ->
  represents init (hash_update ctx input) (msg ++ input).
Proof using laws.
  intros R Hn. pose proof (left_eq _ _ _ R) as Hl. destruct R as (Ht & H0 & H1 & Hb & Ha).
  pose proof block_positive as Hbp. pose proof count_pos as Hcp. unfold hash_update.
  assert (HWp : 0 < 2 ^ count_bits) by (apply Z.pow_pos_nonneg; lia).
  destruct (zlen input =? 0) eqn:E; to_prop.
  { destruct input; [|cbn [length] in E; lia]. rewrite app_nil_r. repeat split; try assumption; lia. }
  rewrite Hl. set (l := (length msg mod block_size)%nat) in *.
  assert (Hlb : (l < block_size)%nat) by (apply Nat.mod_upper_bound; lia).
  unfold wrap_count. rewrite (Z.mod_small (zlen input)) by lia. rewrite pow_split in Ht.
  destruct (count_update (2 ^ count_bits) _ _ _ (zlen input) HWp H0 H1 (conj (Nat2Z.is_nonneg _) Hn) Ht) as (Ht' & H0' & H1').
  cbn zeta in *. set (t0 := (total0 ctx + _) mod _) in *. set (t1 := if t0 <? _ then _ else _) in *.
  assert (Habs : absorb init (msg ++ input) = absorb (state ctx) (take l (buffer ctx) ++ input))
    by (rewrite absorb_app, Ha; reflexivity).
  assert (Hr : forall st' rest, absorb init (msg ++ input) = (st', rest) ->
                 length rest = (length (msg ++ input) mod block_size)%nat)
    by (intros st' rest Hx; rewrite <- (absorb_rest init), Hx; reflexivity).
  assert (Hend : forall st' rest buf0, length buf0 = block_size ->
    absorb init (msg ++ input) = (st', rest) ->
    represents init (mkContext t0 t1 st' (if (0 <? length rest)%nat then put_at buf0 0 rest else buf0)) (msg ++ input)).
  { intros st' rest buf0 Hb0 Hx. pose proof (Hr _ _ Hx) as Hrl.
    assert (length rest < block_size)%nat by (rewrite Hrl; apply Nat.mod_upper_bound; lia).
    unfold represents. cbn [total0 total1 state buffer]. rewrite pow_split, zlen_app.
    split; [exact Ht'|]. split; [exact H0'|]. split; [exact H1'|]. rewrite <- Hrl. split.
    - destruct (0 <? _)%nat; [|exact Hb0]. rewrite put_at_length; lia.
    - rewrite Hx. f_equal. destruct (0 <? _)%nat eqn:F; to_prop.
      + pose proof (put_at_take buf0 0 rest ltac:(lia)) as P. rewrite Nat.add_0_l in P. by rewrite P.
      + destruct rest; [reflexivity|cbn [length] in F; lia]. }
  destruct (negb (l =? 0)%nat && (block_size - l <=? length input)%nat) eqn:Ec; to_prop.
  - set (buf := put_at (buffer ctx) l (take (block_size - l) input)).
    assert (Hbuf : buf = take l (buffer ctx) ++ take (block_size - l) input)
      by (apply put_at_full; rewrite length_take; lia).
    assert (Hbl : length buf = block_size) by (rewrite Hbuf, length_app, !length_take; lia).
    fold (absorb (compress (state ctx) buf) (drop (block_size - l) input)).
    replace (take l (buffer ctx) ++ input) with (buf ++ drop (block_size - l) input) in Habs
      by (rewrite Hbuf, <- app_assoc, take_drop; reflexivity).
    rewrite (absorb_block (state ctx) buf) in Habs by exact Hbl.
    destruct (absorb (compress (state ctx) buf) _) as [st' rest]. by apply Hend.
  - apply andb_false_iff in Ec as [Ec|Ec]; to_prop.
    + rewrite Ec in *. change (take 0 (buffer ctx) ++ input) with input in Habs. fold (absorb (state ctx) input).
      destruct (absorb (state ctx) input) as [st' rest]. by apply Hend.
    + rewrite process_short by lia.
      rewrite (absorb_short (state ctx)) in Habs by (rewrite length_app, length_take; lia).
      destruct (0 <? length input)%nat eqn:F; to_prop; [|lia].
      pose proof (Hr _ _ Habs) as Hrl. rewrite length_app, length_take, Hb, Nat.min_l in Hrl by lia.
      unfold represents. cbn [total0 total1 state buffer]. rewrite pow_split, zlen_app.
      split; [exact Ht'|]. split; [exact H0'|]. split; [exact H1'|].
      split; [rewrite put_at_length; lia|]. rewrite <- Hrl, put_at_take, Habs by lia. reflexivity.
Qed.

(** The length field from the two count words. *)
Lemma finish_field init ctx msg :
  represents init ctx msg ->
  length_field (Z.lor (Z.shiftr (total0 ctx) (count_bits - 3)) (wrap_count (Z.shiftl (total1 ctx) 3)))
    (wrap_count (Z.shiftl (total0 ctx) 3)) = bit_length_field (zlen msg).
Proof using laws.
  intros (Ht & H0 & H1 & _). unfold bit_length_field, wrap_count.
  destruct block_pow as (k & Hk & _). set (W := 2 ^ count_bits) in *.
  assert (HW : W = 2 ^ (count_bits - 3) * 8).
  { subst W. change 8 with (2 ^ 3). rewrite <- Z.pow_add_r by lia. f_equal. lia. }
  set (V := 2 ^ (count_bits - 3)) in *. assert (0 < V) by (apply Z.pow_pos_nonneg; lia).
  rewrite !Z.shiftl_mul_pow2, Z.shiftr_div_pow2 by lia. change (2 ^ 3) with 8. fold V.
  replace (total1 ctx * 8 mod W) with (total1 ctx mod V * 2 ^ 3)
    by (rewrite HW, Z.mul_mod_distr_r by lia; reflexivity).
  assert (Hq : 0 <= total0 ctx / V < 2 ^ 3).
  { split; [apply Z.div_pos; lia|apply Z.div_lt_upper_bound; lia]. }
  rewrite Z.lor_comm, (lor_add 3) by lia. change (2 ^ 3) with 8 in *.
  rewrite pow_split in *. fold W in Ht |- *.
  assert (E : zlen msg * 8 mod (W * W) = (total1 ctx mod V * 8 + total0 ctx / V) * W + total0 ctx mod V * 8).
  { rewrite <- Z.mul_mod_idemp_l by nia. rewrite <- Ht.
    pose proof (Z.div_mod (total0 ctx) V ltac:(lia)) as D0. pose proof (Z.div_mod (total1 ctx) V ltac:(lia)) as D1.
    pose proof (Z.mod_pos_bound (total0 ctx) V ltac:(lia)). pose proof (Z.mod_pos_bound (total1 ctx) V ltac:(lia)).
    symmetry. apply (Z.mod_unique _ _ (total1 ctx / V)); [left; rewrite HW; nia|].
    rewrite HW at 1. rewrite D0 at 1. rewrite D1 at 1. rewrite HW. ring. }
  assert (Hl : 0 <= total0 ctx mod V * 8 < W).
  { pose proof (Z.mod_pos_bound (total0 ctx) V ltac:(lia)). lia. }
  rewrite E. f_equal.
  - rewrite Z.div_add_l, (Z.div_small _ W) by lia. lia.
  - rewrite Z.add_comm, Z.mod_add, (Z.mod_small _ W Hl) by lia.
    rewrite HW, Z.mul_mod_distr_r by lia. reflexivity.
Qed.

Lemma put_at_prefix buf pre off src :
  take off buf = pre -> (off + length src <= length buf)%nat -> length pre = off ->
  take (off + length src) (put_at buf off src) = pre ++ src /\ length (put_at buf off src) = length buf.
Proof using.
  intros Hp Hl Hlen. rewrite put_at_take, Hp by lia. split; [reflexivity|]. by apply put_at_length.
Qed.

Lemma finish_ctx_spec init ctx msg :
  represents init ctx msg ->
  state (hash_finish_ctx ctx) = hash_spec init msg /\ length (buffer (hash_finish_ctx ctx)) = block_size.
Proof using laws.
  intros R. unfold hash_finish_ctx, hash_spec. rewrite (left_eq _ _ _ R), (finish_field _ _ _ R).
  destruct R as (_ & _ & _ & Hb & Ha). pose proof block_positive as Hbp.
  set (field := bit_length_field (zlen msg)).
  destruct field_length as (n & Hn & Hf). assert (Hfl : length field = n) by apply Hf. rewrite ?Hfl.
  rewrite absorb_app, Ha. set (l := (length msg mod block_size)%nat) in *. set (r := take l (buffer ctx)).
  assert (Hlb : (l < block_size)%nat) by (apply Nat.mod_upper_bound; lia).
  assert (Hr : length r = l) by (subst r; rewrite length_take; lia).
  destruct (put_at_prefix (buffer ctx) r l [0x80] eq_refl ltac:(cbn; lia) Hr) as [P1 L1].
  cbn [length] in P1, L1. set (b1 := put_at (buffer ctx) l [0x80]) in *.
  assert (Hlr : length (r ++ [0x80]) = (l + 1)%nat) by (rewrite length_app, Hr; reflexivity).
  unfold pad. rewrite ?Hfl.
  assert (Hmod : ((length msg + 1 + n) mod block_size = (l + 1 + n) mod block_size)%nat).
  { replace (length msg + 1 + n)%nat with (length msg + (1 + n))%nat by lia.
    rewrite <- Nat.Div0.add_mod_idemp_l. f_equal. fold l. lia. }
  rewrite Hmod. destruct (l + 1 <=? block_size - n)%nat eqn:E; to_prop.
  - assert (Hz : ((block_size - (l + 1 + n) mod block_size) mod block_size = block_size - n - (l + 1))%nat).
    { destruct (Nat.eq_dec (l + 1 + n)%nat block_size) as [Eq|].
      - rewrite Eq, Nat.Div0.mod_same, Nat.sub_0_r, Nat.Div0.mod_same. lia.
      - rewrite (Nat.mod_small (l + 1 + n)%nat), Nat.mod_small by lia. lia. }
    rewrite Hz. set (z := repeat 0 (block_size - n - (l + 1))%nat).
    assert (Hzl : length z = (block_size - n - (l + 1))%nat) by apply repeat_length.
    destruct (put_at_prefix b1 _ (l + 1) z P1 ltac:(lia) Hlr) as [P2 L2].
    set (b2 := put_at b1 (l + 1) z) in *. replace (l + 1 + length z)%nat with (block_size - n)%nat in P2 by lia.
    cbn [state buffer]. split; [|rewrite put_at_length; lia]. rewrite put_at_full, P2 by lia.
    replace (r ++ 0x80 :: z ++ field) with (((r ++ [0x80]) ++ z) ++ field) by (app_norm; reflexivity).
    set (blk := ((r ++ [0x80]) ++ z) ++ field).
    rewrite <- (app_nil_r blk) at 2. rewrite absorb_block, absorb_short;
      [reflexivity|cbn; lia|subst blk; rewrite !length_app, Hzl; cbn [length]; lia].
  - assert (Hz : ((block_size - (l + 1 + n) mod block_size) mod block_size = (block_size - (l + 1)) + (block_size - n))%nat).
    { replace (l + 1 + n)%nat with ((l + 1 + n - block_size) + 1 * block_size)%nat by lia.
      rewrite Nat.Div0.mod_add, (Nat.mod_small (l + 1 + n - block_size)%nat), Nat.mod_small by lia. lia. }
    rewrite Hz, repeat_app. set (z1 := repeat 0 (block_size - (l + 1))). set (z2 := repeat 0 (block_size - n)).
    assert (Hz1 : length z1 = (block_size - (l + 1))%nat) by apply repeat_length.
    assert (Hz2 : length z2 = (block_size - n)%nat) by apply repeat_length.
    rewrite (put_at_full b1 (l + 1) z1), P1 by lia.
    set (blk1 := (r ++ [0x80]) ++ z1).
    assert (Hb1 : length blk1 = block_size) by (subst blk1; rewrite length_app, Hlr; lia).
    replace (r ++ 0x80 :: (z1 ++ z2) ++ field) with (blk1 ++ (z2 ++ field)) by (subst blk1; app_norm; reflexivity).
    rewrite absorb_block by exact Hb1.
    assert (P3 : take (block_size - n) (put_at blk1 0 z2) = z2).
    { pose proof (put_at_take blk1 0 z2 ltac:(lia)) as P. rewrite Nat.add_0_l, Hz2 in P. exact P. }
    cbn [state buffer]. split; [|rewrite !put_at_length; rewrite ?put_at_length; lia].
    rewrite put_at_full, P3 by (rewrite put_at_length; lia).
    rewrite <- (app_nil_r (z2 ++ field)) at 2. rewrite absorb_block, absorb_short;
      [reflexivity|cbn; lia|rewrite length_app; lia].
Qed.

Lemma finish_spec init ctx msg : represents init ctx msg -> hash_finish ctx = hash_spec init msg.
Proof using laws. intros R. apply (finish_ctx_spec _ _ _ R). Qed.

Lemma pad_length_mod msg n (field : bytes) :
  length field = n -> (n < block_size)%nat -> (length (msg ++ pad msg field) mod block_size = 0)%nat.
Proof using laws.
  intros Hf Hn. pose proof block_positive. unfold pad. rewrite Hf.
  set (m := (length msg + 1 + n)%nat). rewrite length_app. cbn [length].
  rewrite length_app, repeat_length, Hf.
  replace (length msg + Datatypes.S ((block_size - m mod block_size) mod block_size + n))%nat
    with (m + (block_size - m mod block_size) mod block_size)%nat by lia.
  rewrite Nat.Div0.add_mod_idemp_r. pose proof (Nat.div_mod_eq m block_size) as D.
  pose proof (Nat.mod_upper_bound m block_size ltac:(lia)).
  replace (m + (block_size - m mod block_size))%nat with ((m / block_size + 1) * block_size)%nat by nia.
  apply Nat.Div0.mod_mul.
Qed.

(** The padding that the updates of [hash_finish_updates] read. *)
Lemma pad_updates msg n (field : bytes) :
  length field = n -> (0 < n < block_size)%nat ->
  let last := (length msg mod block_size)%nat in
  let room := (block_size - n)%nat in
  let padn := if (last <? room)%nat then (room - last)%nat else (block_size + room - last)%nat in
  pad msg field = take padn padding ++ field /\ (length (take padn padding) <= block_size)%nat.
Proof using laws.
  intros Hf Hn last room padn. pose proof block_positive.
  assert (Hl : (last < block_size)%nat) by (apply Nat.mod_upper_bound; lia).
  assert (Hp : (1 <= padn <= block_size)%nat) by (unfold padn, room; case_ifs).
  split; [|rewrite length_take; lia].
  unfold pad, padding. replace padn with (Datatypes.S (padn - 1)) by lia.
  cbn [take app]. f_equal. rewrite take_repeat, Hf. f_equal. f_equal.
  rewrite Nat.min_l by lia. replace (length msg + 1 + n)%nat with (length msg + (1 + n))%nat by lia.
  rewrite <- Nat.Div0.add_mod_idemp_l. fold last. unfold padn, room. case_ifs.
  - destruct (Nat.eq_dec (last + (1 + n))%nat block_size) as [Eq|].
    + rewrite Eq, Nat.Div0.mod_same, Nat.sub_0_r, Nat.Div0.mod_same. lia.
    + rewrite (Nat.mod_small (last + (1 + n))%nat), Nat.mod_small by lia. lia.
  - replace (last + (1 + n))%nat with ((last + (1 + n) - block_size) + 1 * block_size)%nat by lia.
    rewrite Nat.Div0.mod_add, (Nat.mod_small (last + (1 + n) - block_size)%nat), Nat.mod_small by lia. lia.
Qed.

Lemma finish_updates_ctx_spec init ctx msg :
  represents init ctx msg ->
  state (hash_finish_updates_ctx ctx) = hash_spec init msg /\ length (buffer (hash_finish_updates_ctx ctx)) = block_size.
Proof using laws.
  intros R. unfold hash_finish_updates_ctx, hash_spec. rewrite (left_eq _ _ _ R), (finish_field _ _ _ R).
  destruct field_length as (n & Hn & Hf). pose proof block_pow as (k & Hk & Ek).
  set (field := bit_length_field (zlen msg)). assert (Hfl : length field = n) by apply Hf. rewrite Hfl.
  destruct (pad_updates msg n field Hfl Hn) as [Hp Hpl]. cbn zeta in Hp, Hpl. rewrite Hp.
  set (zs := take _ padding) in *. rewrite app_assoc.
  assert (Hpow : 2 ^ k < 2 ^ count_bits) by (apply Z.pow_lt_mono_r; lia).
  pose proof (update_represents _ _ _ zs R ltac:(lia)) as R1.
  pose proof (update_represents _ _ _ field R1 ltac:(lia)) as R2.
  destruct R2 as (_ & _ & _ & Hb & Ha). rewrite Ha. split; [reflexivity|exact Hb].
Qed.

Lemma finish_updates_spec init ctx msg : represents init ctx msg -> hash_finish_updates ctx = hash_spec init msg.
Proof using laws. intros R. apply (finish_updates_ctx_spec _ _ _ R). Qed.

(** Any sequence of updates, then the end. *)
Lemma updates_represent init buf chunks :
  length buf = block_size -> Forall (fun c : bytes => zlen c < 2 ^ count_bits) chunks ->
  represents init (fold_left hash_update chunks (hash_starts init buf)) (concat chunks).
Proof using laws.
  intros Hb Hc. assert (G : forall ctx msg, represents init ctx msg ->
              represents init (fold_left hash_update chunks ctx) (msg ++ concat chunks)).
  { induction Hc as [|c chunks Hc _ IH]; intros ctx msg R; cbn [fold_left concat]; [by rewrite app_nil_r|].
    rewrite app_assoc. apply IH. by apply update_represents. }
  apply (G _ []). by apply starts_represents.
Qed.

Lemma stream_facts init buf chunks :
  length buf = block_size -> Forall (fun c : bytes => zlen c < 2 ^ count_bits) chunks ->
  hash_finish (fold_left hash_update chunks (hash_starts init buf)) = hash_spec init (concat chunks).
Proof using laws. intros Hb Hc. by apply finish_spec, updates_represent. Qed.

Lemma stream_updates_facts init buf chunks :
  length buf = block_size -> Forall (fun c : bytes => zlen c < 2 ^ count_bits) chunks ->
  hash_finish_updates (fold_left hash_update chunks (hash_starts init buf)) = hash_spec init (concat chunks).
Proof using laws. intros Hb Hc. by apply finish_updates_spec, updates_represent. Qed.
End Stream.

(** Two digests that differ only in how the compression function and the length
    field are written. *)
Lemma hash_spec_ext {S : Type} b c (l l' : Z -> Z -> bytes) (f g : S -> bytes -> S) init msg :
  (forall st blk, f st blk = g st blk) -> (forall high low, l high low = l' high low) ->
  @hash_spec S (Build_HashAlgo S b c f l) init msg = @hash_spec S (Build_HashAlgo S b c g l') init msg.
Proof.
  intros E F. unfold hash_spec, absorb, pad, bit_length_field.
  cbn [block_size count_bits length_field]. rewrite F. f_equal.
  match goal with |- process_blocks _ _ ?x = _ => generalize x end.
  intros m. generalize (length m). intros n.
  revert init m. induction n as [|n IH]; intros init m; [reflexivity|].
  cbn [process_blocks block_size compress].
  destruct (_ <=? _)%nat; [|reflexivity]. rewrite E. apply IH.
Qed.
