(* ===== verification/ShaRounds.v ===== *)
(** What SHA-256 and SHA-512 share (mbedtls/library/sha256.c, sha512.c): eight
    registers that the macro calls rename instead of moving, and a schedule
    that grows by one word per round.  SHA-1 shares the bitwise functions.  The lemmas relate eight renamed calls to
    eight rounds of the standard, for any macro. *)
From S2P Require Import Prelude.
From stdpp Require Import list.
#[local] Open Scope Z_scope.

(** The eight words of the chaining state, and of [local.A]. *)
Definition regs8 : Type := Z * Z * Z * Z * Z * Z * Z * Z.

(** [ctx->state[i] += local.A[i]], with the wrap-around of the word. *)
Definition add_regs8 (wrap : Z -> Z) (s A : regs8) : regs8 :=
  let '(s0, s1, s2, s3, s4, s5, s6, s7) := s in
  let '(A0, A1, A2, A3, A4, A5, A6, A7) := A in
  (wrap (s0 + A0), wrap (s1 + A1), wrap (s2 + A2), wrap (s3 + A3),
   wrap (s4 + A4), wrap (s5 + A5), wrap (s6 + A6), wrap (s7 + A7)).

(** ** Choice and majority, by the standard and as the code computes them *)

Definition Ch (x y z : Z) : Z := Z.lxor (Z.land x y) (Z.land (Z.lnot x) z).
Definition Maj (x y z : Z) : Z := Z.lxor (Z.lxor (Z.land x y) (Z.land x z)) (Z.land y z).

Lemma Ch_lxor x y z : Z.lxor z (Z.land x (Z.lxor y z)) = Ch x y z.
Proof.
  unfold Ch. apply Z.bits_inj'. intros n Hn.
  rewrite !Z.lxor_spec, !Z.land_spec, Z.lxor_spec, Z.lnot_spec by lia.
  destruct (Z.testbit x n), (Z.testbit y n), (Z.testbit z n); reflexivity.
Qed.

Lemma Maj_lor x y z : Z.lor (Z.land x y) (Z.land z (Z.lor x y)) = Maj x y z.
Proof.
  unfold Maj. apply Z.bits_inj'. intros n Hn.
  rewrite !Z.lxor_spec, !Z.lor_spec, !Z.land_spec, Z.lor_spec.
  destruct (Z.testbit x n), (Z.testbit y n), (Z.testbit z n); reflexivity.
Qed.

(** ** The rounds *)

Section Rounds.
(** The macro: the new values of [d] and [h]. *)
Context (P : Z -> Z -> Z -> Z -> Z -> Z -> Z -> Z -> Z -> Z -> Z * Z) (K : list Z).

(** Eight calls, each with the registers moved by one place. *)
Definition eight_calls (A : regs8) (W : list Z) (i : nat) : regs8 :=
  let '(A0, A1, A2, A3, A4, A5, A6, A7) := A in
  let '(A3, A7) := P A0 A1 A2 A3 A4 A5 A6 A7 (nth i W 0) (nth i K 0) in
  let '(A2, A6) := P A7 A0 A1 A2 A3 A4 A5 A6 (nth (i + 1) W 0) (nth (i + 1) K 0) in
  let '(A1, A5) := P A6 A7 A0 A1 A2 A3 A4 A5 (nth (i + 2) W 0) (nth (i + 2) K 0) in
  let '(A0, A4) := P A5 A6 A7 A0 A1 A2 A3 A4 (nth (i + 3) W 0) (nth (i + 3) K 0) in
  let '(A7, A3) := P A4 A5 A6 A7 A0 A1 A2 A3 (nth (i + 4) W 0) (nth (i + 4) K 0) in
  let '(A6, A2) := P A3 A4 A5 A6 A7 A0 A1 A2 (nth (i + 5) W 0) (nth (i + 5) K 0) in
  let '(A5, A1) := P A2 A3 A4 A5 A6 A7 A0 A1 (nth (i + 6) W 0) (nth (i + 6) K 0) in
  let '(A4, A0) := P A1 A2 A3 A4 A5 A6 A7 A0 (nth (i + 7) W 0) (nth (i + 7) K 0) in
  (A0, A1, A2, A3, A4, A5, A6, A7).

(** One call with the registers moved. *)
Definition moved_call (W : list Z) (s : regs8) (t : nat) : regs8 :=
  let '(a, b, c, d, e, f, g, h) := s in
  let '(d', h') := P a b c d e f g h (nth t W 0) (nth t K 0) in (h', a, b, c, d', e, f, g).

Lemma eight_calls_moved A W i : eight_calls A W i = fold_left (moved_call W) (seq i 8) A.
Proof.
  destruct A as [[[[[[[a b] c] d] e] f] g] h]. cbn [seq fold_left]. unfold eight_calls, moved_call.
  replace (S i) with (i + 1)%nat by lia. replace (S (i + 1)) with (i + 2)%nat by lia.
  replace (S (i + 2)) with (i + 3)%nat by lia. replace (S (i + 3)) with (i + 4)%nat by lia.
  replace (S (i + 4)) with (i + 5)%nat by lia. replace (S (i + 5)) with (i + 6)%nat by lia.
  replace (S (i + 6)) with (i + 7)%nat by lia.
  do 8 (match goal with |- context [P ?a ?b ?c ?d ?e ?f ?g ?h ?x ?k] =>
    destruct (P a b c d e f g h x k) as [? ?] end).
  reflexivity.
Qed.

(** The loop of groups of eight. *)
Lemma eight_calls_loop W k : forall A i,
  fold_left (fun A i => eight_calls A W i) (map (fun j => (i + 8 * j)%nat) (seq 0 k)) A =
  fold_left (moved_call W) (seq i (8 * k)) A.
Proof.
  induction k as [|k IH]; intros A i; [reflexivity|].
  cbn [seq map fold_left]. rewrite <- seq_shift, map_map. replace (i + 8 * 0)%nat with i by lia.
  rewrite (map_ext (fun j => (i + 8 * S j)%nat) (fun j => (i + 8 + 8 * j)%nat)) by lia.
  rewrite IH, eight_calls_moved. replace (8 * S k)%nat with (8 + 8 * k)%nat by lia.
  rewrite seq_app, fold_left_app. reflexivity.
Qed.

(** Rounds below [t] only read the first [t] words of the schedule. *)
Lemma moved_prefix W X ts s :
  Forall (fun t => (t < length W)%nat) ts ->
  fold_left (moved_call (W ++ X)) ts s = fold_left (moved_call W) ts s.
Proof.
  revert s. induction ts as [|t ts IH]; intros s Ht; [reflexivity|]. apply Forall_cons in Ht as [Ht Hts].
  cbn [fold_left]. rewrite IH by exact Hts. f_equal. destruct s as [[[[[[[a b] c] d] e] f] g] h].
  unfold moved_call. rewrite app_nth1 by exact Ht. reflexivity.
Qed.
End Rounds.

Lemma fold_left_ext {A B} (f g : A -> B -> A) l a :
  (forall a b, f a b = g a b) -> fold_left f l a = fold_left g l a.
Proof. intros E. revert a. induction l as [|b l IH]; intros a; [reflexivity|]. cbn. rewrite E. apply IH. Qed.

Section Schedule.
(** The next word of the schedule. *)
Context (R : list Z -> nat -> Z).

Definition extend (W : list Z) (t : nat) : list Z := W ++ [R W t].

Lemma extend_app ts : forall W, exists X, fold_left extend ts W = W ++ X /\ length X = length ts.
Proof.
  induction ts as [|t ts IH]; intros W; [exists []; by rewrite app_nil_r|]. cbn [fold_left].
  destruct (IH (extend W t)) as (X & -> & HX). unfold extend.
  eexists. rewrite <- app_assoc. split; [reflexivity|]. cbn [app length]. lia.
Qed.
End Schedule.
