(* ===== verification/Sha256.v ===== *)
(** SHA-256 and SHA-224 (mbedtls/library/sha256.c): the compression function
    with its unrolled rounds, and the streaming functions as an instance of
    [HashStream].  They compute the hash of FIPS 180-4, which is stated here
    with the standard's own functions and rounds. *)
From S2P Require Import Prelude Words HashStream ShaRounds.
From stdpp Require Import list.
#[local] Open Scope Z_scope.

Module Sha256.

(** ** The compression function *)

Definition K : list Z :=
  [0x428A2F98; 0x71374491; 0xB5C0FBCF; 0xE9B5DBA5;
   0x3956C25B; 0x59F111F1; 0x923F82A4; 0xAB1C5ED5;
   0xD807AA98; 0x12835B01; 0x243185BE; 0x550C7DC3;
   0x72BE5D74; 0x80DEB1FE; 0x9BDC06A7; 0xC19BF174;
   0xE49B69C1; 0xEFBE4786; 0x0FC19DC6; 0x240CA1CC;
   0x2DE92C6F; 0x4A7484AA; 0x5CB0A9DC; 0x76F988DA;
   0x983E5152; 0xA831C66D; 0xB00327C8; 0xBF597FC7;
   0xC6E00BF3; 0xD5A79147; 0x06CA6351; 0x14292967;
   0x27B70A85; 0x2E1B2138; 0x4D2C6DFC; 0x53380D13;
   0x650A7354; 0x766A0ABB; 0x81C2C92E; 0x92722C85;
   0xA2BFE8A1; 0xA81A664B; 0xC24B8B70; 0xC76C51A3;
   0xD192E819; 0xD6990624; 0xF40E3585; 0x106AA070;
   0x19A4C116; 0x1E376C08; 0x2748774C; 0x34B0BCB5;
   0x391C0CB3; 0x4ED8AA4A; 0x5B9CCA4F; 0x682E6FF3;
   0x748F82EE; 0x78A5636F; 0x84C87814; 0x8CC70208;
   0x90BEFFFA; 0xA4506CEB; 0xBEF9A3F7; 0xC67178F2].

Definition SHR (x n : Z) : Z := Z.shiftr (Z.land x 0xFFFFFFFF) n.
Definition ROTR (x n : Z) : Z := Z.lor (SHR x n) (u32 (Z.shiftl x (32 - n))).

Definition S0 (x : Z) : Z := Z.lxor (Z.lxor (ROTR x 7) (ROTR x 18)) (SHR x 3).
Definition S1 (x : Z) : Z := Z.lxor (Z.lxor (ROTR x 17) (ROTR x 19)) (SHR x 10).
Definition S2 (x : Z) : Z := Z.lxor (Z.lxor (ROTR x 2) (ROTR x 13)) (ROTR x 22).
Definition S3 (x : Z) : Z := Z.lxor (Z.lxor (ROTR x 6) (ROTR x 11)) (ROTR x 25).
Definition F0 (x y z : Z) : Z := Z.lor (Z.land x y) (Z.land z (Z.lor x y)).
Definition F1 (x y z : Z) : Z := Z.lxor z (Z.land x (Z.lxor y z)).

(** The value that [R(t)] stores in [W[t]]. *)
Definition R (W : list Z) (t : nat) : Z :=
  u32 (S1 (nth (t - 2) W 0) + nth (t - 7) W 0 + S0 (nth (t - 15) W 0) + nth (t - 16) W 0).

(** The new values of [d] and [h]. *)
Definition P (a b c d e f g h x k : Z) : Z * Z :=
  let temp1 := u32 (h + S3 e + F1 e f g + k + x) in
  let temp2 := u32 (S2 a + F0 a b c) in
  (u32 (d + temp1), u32 (temp1 + temp2)).

(** Eight macro calls of the round loops. *)
Definition eight_rounds (A : regs8) (W : list Z) (i : nat) : regs8 := eight_calls P K A W i.

(** [R(i+0) .. R(i+7)]: they read and extend [W] only. *)
Definition extend8 (W : list Z) (i : nat) : list Z :=
  fold_left (fun W j => extend R W (i + j)) (seq 0 8) W.

Definition mbedtls_internal_sha256_process (state : regs8) (data : bytes) : regs8 :=
  let W := words_be 16 data in
  let A := fold_left (fun A i => eight_rounds A W i) [0%nat; 8%nat] state in
  let '(A, W) :=
    fold_left (fun '(A, W) i => let W := extend8 W i in (eight_rounds A W i, W))
      [16; 24; 32; 40; 48; 56]%nat (A, W) in
  add_regs8 u32 state A.

#[export] Instance sha256_algo : HashAlgo regs8 :=
  Build_HashAlgo regs8 64 32 mbedtls_internal_sha256_process
    (fun high low => MBEDTLS_PUT_UINT32_BE high ++ MBEDTLS_PUT_UINT32_BE low).

(** ** The functions *)

Record mbedtls_sha256_context := mkSha256 { ctx : Context regs8; is224 : Z }.

Definition mbedtls_sha256_init : mbedtls_sha256_context :=
  mkSha256 (mkContext 0 0 (0, 0, 0, 0, 0, 0, 0, 0) (repeat 0 64)) 0.

Definition initial_state (is224 : Z) : regs8 :=
  if is224 =? 0
  then (0x6A09E667, 0xBB67AE85, 0x3C6EF372, 0xA54FF53A, 0x510E527F, 0x9B05688C, 0x1F83D9AB, 0x5BE0CD19)
  else (0xC1059ED8, 0x367CD507, 0x3070DD17, 0xF70E5939, 0xFFC00B31, 0x68581511, 0x64F98FA7, 0xBEFA4FA4).

Definition mbedtls_sha256_starts_ret (c : mbedtls_sha256_context) (is224 : Z) : mbedtls_sha256_context :=
  mkSha256 (hash_starts (initial_state is224) (buffer (ctx c))) is224.

Definition mbedtls_sha256_update_ret (c : mbedtls_sha256_context) (input : bytes) : mbedtls_sha256_context :=
  mkSha256 (hash_update (ctx c) input) (is224 c).

Definition output (state : regs8) (is224 : Z) : bytes :=
  let '(s0, s1, s2, s3, s4, s5, s6, s7) := state in
  MBEDTLS_PUT_UINT32_BE s0 ++ MBEDTLS_PUT_UINT32_BE s1 ++ MBEDTLS_PUT_UINT32_BE s2 ++
  MBEDTLS_PUT_UINT32_BE s3 ++ MBEDTLS_PUT_UINT32_BE s4 ++ MBEDTLS_PUT_UINT32_BE s5 ++
  MBEDTLS_PUT_UINT32_BE s6 ++ (if is224 =? 0 then MBEDTLS_PUT_UINT32_BE s7 else []).

Definition mbedtls_sha256_finish_ret (c : mbedtls_sha256_context) : bytes :=
  output (hash_finish (ctx c)) (is224 c).

Definition mbedtls_sha256_ret (input : bytes) (is224 : Z) : bytes :=
  mbedtls_sha256_finish_ret
    (mbedtls_sha256_update_ret (mbedtls_sha256_starts_ret mbedtls_sha256_init is224) input).

(** ** FIPS 180-4 *)

Section Fips.
Definition rotr (n x : Z) : Z := x mod 2 ^ 32 / 2 ^ n + x mod 2 ^ n * 2 ^ (32 - n).
Definition shr (n x : Z) : Z := x mod 2 ^ 32 / 2 ^ n.
Definition Sigma0 (x : Z) : Z := Z.lxor (Z.lxor (rotr 2 x) (rotr 13 x)) (rotr 22 x).
Definition Sigma1 (x : Z) : Z := Z.lxor (Z.lxor (rotr 6 x) (rotr 11 x)) (rotr 25 x).
Definition sigma0 (x : Z) : Z := Z.lxor (Z.lxor (rotr 7 x) (rotr 18 x)) (shr 3 x).
Definition sigma1 (x : Z) : Z := Z.lxor (Z.lxor (rotr 17 x) (rotr 19 x)) (shr 10 x).

(** The message schedule, to index [t]. *)
Definition schedule_step (W : list Z) (t : nat) : list Z :=
  W ++ [(sigma1 (nth (t - 2) W 0) + nth (t - 7) W 0 + sigma0 (nth (t - 15) W 0) + nth (t - 16) W 0) mod 2 ^ 32].

Definition schedule (M : list Z) : list Z := fold_left schedule_step (seq 16 48) M.

Definition round (W : list Z) (s : regs8) (t : nat) : regs8 :=
  let '(a, b, c, d, e, f, g, h) := s in
  let T1 := (h + Sigma1 e + Ch e f g + nth t K 0 + nth t W 0) mod 2 ^ 32 in
  let T2 := (Sigma0 a + Maj a b c) mod 2 ^ 32 in
  ((T1 + T2) mod 2 ^ 32, a, b, c, (d + T1) mod 2 ^ 32, e, f, g).

Definition fips_compress (state : regs8) (data : bytes) : regs8 :=
  add_regs8 u32 state (fold_left (round (schedule (words_be 16 data))) (seq 0 64) state).

Definition fips_algo : HashAlgo regs8 :=
  Build_HashAlgo regs8 64 32 fips_compress
    (fun high low => be_bytes 4 high ++ be_bytes 4 low).
End Fips.

Definition fips_sha256 (msg : bytes) (is224 : Z) : bytes :=
  output (@hash_spec regs8 fips_algo (initial_state is224) msg) is224.

(** ** The code's operations are the standard's *)

Lemma sha256_SHR_eq x n : 0 <= n -> SHR x n = shr n x.
Proof.
  intros Hn. unfold SHR, shr. change 0xFFFFFFFF with (Z.ones 32).
  rewrite Z.land_ones, Z.shiftr_div_pow2 by lia. reflexivity.
Qed.

Lemma sha256_ROTR_eq x n : 0 <= n <= 32 -> ROTR x n = rotr n x.
Proof.
  intros Hn. unfold ROTR, rotr. rewrite sha256_SHR_eq by lia. unfold shr, u32.
  rewrite Z.shiftl_mul_pow2 by lia.
  assert (E : (x * 2 ^ (32 - n)) mod 2 ^ 32 = x mod 2 ^ n * 2 ^ (32 - n)).
  { replace (2 ^ 32) with (2 ^ n * 2 ^ (32 - n)) by (rewrite <- Z.pow_add_r by lia; f_equal; lia).
    rewrite Z.mul_mod_distr_r by (try apply Z.pow_nonzero; lia). reflexivity. }
  rewrite E, Z.lor_comm, (lor_add (32 - n)); [lia|lia|].
  pose proof (Z.mod_pos_bound x (2 ^ 32) ltac:(lia)).
  assert (0 < 2 ^ n) by (apply Z.pow_pos_nonneg; lia).
  split; [apply Z.div_pos; lia|]. apply Z.div_lt_upper_bound; [lia|].
  rewrite <- Z.pow_add_r by lia. replace (n + (32 - n)) with 32 by lia. lia.
Qed.

Lemma sha256_sums_eq :
  (forall x, S0 x = sigma0 x) /\ (forall x, S1 x = sigma1 x) /\
  (forall x, S2 x = Sigma0 x) /\ (forall x, S3 x = Sigma1 x).
Proof.
  repeat split; intros x; unfold S0, S1, S2, S3, sigma0, sigma1, Sigma0, Sigma1;
    rewrite ?sha256_ROTR_eq, ?sha256_SHR_eq by lia; reflexivity.
Qed.

(** One macro call is one round with the registers renamed. *)
Lemma sha256_round_P W s t : moved_call P K W s t = round W s t.
Proof.
  destruct sha256_sums_eq as (_ & _ & E2 & E3). destruct s as [[[[[[[a b] c] d] e] f] g] h].
  unfold round, moved_call, P. unfold F1, F0. rewrite Ch_lxor, Maj_lor, E2, E3. reflexivity.
Qed.

Lemma sha256_schedule_R W t : extend R W t = schedule_step W t.
Proof. destruct sha256_sums_eq as (E0 & E1 & _). unfold schedule_step, extend, R. rewrite E0, E1. reflexivity. Qed.

Lemma sha256_extend8_eq W i : extend8 W i = fold_left (extend R) (seq i 8) W.
Proof.
  unfold extend8. cbn [seq fold_left].
  replace (i + 0)%nat with i by lia. replace (S i) with (i + 1)%nat by lia.
  replace (S (i + 1)) with (i + 2)%nat by lia. replace (S (i + 2)) with (i + 3)%nat by lia.
  replace (S (i + 3)) with (i + 4)%nat by lia. replace (S (i + 4)) with (i + 5)%nat by lia.
  replace (S (i + 5)) with (i + 6)%nat by lia. replace (S (i + 6)) with (i + 7)%nat by lia. reflexivity.
Qed.

(** Extending the schedule between the groups of rounds is extending it before
    all of them. *)
Lemma sha256_process_loop k : forall W A i,
  length W = i ->
  fold_left (fun '(A, W) i => let W := extend8 W i in (eight_rounds A W i, W))
    (map (fun j => (i + 8 * j)%nat) (seq 0 k)) (A, W) =
  (fold_left (moved_call P K (fold_left (extend R) (seq i (8 * k)) W)) (seq i (8 * k)) A,
   fold_left (extend R) (seq i (8 * k)) W).
Proof.
  induction k as [|k IH]; intros W A i Hi; [reflexivity|].
  cbn [seq map fold_left]. rewrite <- seq_shift, map_map. replace (i + 8 * 0)%nat with i by lia.
  unfold eight_rounds at 2. rewrite sha256_extend8_eq, eight_calls_moved.
  rewrite (map_ext (fun j => (i + 8 * S j)%nat) (fun j => (i + 8 + 8 * j)%nat)) by lia.
  destruct (extend_app R (seq i 8) W) as (X & EX & HX). rewrite length_seq in HX.
  rewrite IH by (rewrite EX, length_app; lia).
  replace (8 * S k)%nat with (8 + 8 * k)%nat by lia. rewrite seq_app, !fold_left_app. f_equal.
  destruct (extend_app R (seq (i + 8) (8 * k)) (fold_left (extend R) (seq i 8) W)) as (Y & -> & _).
  f_equal. symmetry. apply moved_prefix. apply Forall_forall. intros t Ht%elem_of_seq.
  rewrite EX, length_app. lia.
Qed.

Lemma sha256_process_eq state data : mbedtls_internal_sha256_process state data = fips_compress state data.
Proof.
  unfold mbedtls_internal_sha256_process, fips_compress, schedule.
  generalize (eq_refl : length (words_be 16 data) = 16%nat). generalize (words_be 16 data). intros W HW.
  change [16; 24; 32; 40; 48; 56]%nat with (map (fun j => (16 + 8 * j)%nat) (seq 0 6)).
  change [0%nat; 8%nat] with (map (fun j => (0 + 8 * j)%nat) (seq 0 2)).
  unfold eight_rounds at 1. rewrite (eight_calls_loop P K W 2), sha256_process_loop by exact HW.
  change (8 * 6)%nat with 48%nat. change (8 * 2)%nat with 16%nat. f_equal.
  rewrite (fold_left_ext schedule_step (extend R)) by (intros; symmetry; apply sha256_schedule_R).
  rewrite (fold_left_ext (round _) (moved_call P K (fold_left (extend R) (seq 16 48) W)))
    by (intros; symmetry; apply sha256_round_P).
  replace (seq 0 64) with (seq 0 16 ++ seq 16 48) by reflexivity. rewrite fold_left_app. f_equal.
  destruct (extend_app R (seq 16 48) W) as (X & -> & _). symmetry. apply moved_prefix.
  apply Forall_forall. intros t Ht%elem_of_seq. lia.
Qed.

#[export] Instance sha256_laws : @HashLaws regs8 sha256_algo.
Proof.
  split.
  - exists 6. split; [cbn; lia|reflexivity].
  - exists 8%nat. split; [cbn; lia|reflexivity].
Qed.

Lemma sha256_spec_eq init msg :
  @hash_spec regs8 sha256_algo init msg = @hash_spec regs8 fips_algo init msg.
Proof.
  apply hash_spec_ext; [apply sha256_process_eq|]. intros high low. apply f_equal2; apply put32_be.
Qed.

Lemma sha256_updates_ctx cs : forall c,
  ctx (fold_left mbedtls_sha256_update_ret cs c) = fold_left hash_update cs (ctx c).
Proof. induction cs as [|p cs IH]; intros c; [reflexivity|]. apply IH. Qed.

Lemma sha256_updates_is224 cs : forall c,
  is224 (fold_left mbedtls_sha256_update_ret cs c) = is224 c.
Proof. induction cs as [|p cs IH]; intros c; [reflexivity|]. cbn [fold_left]. rewrite IH. reflexivity. Qed.

(** Hashing a message in pieces of any sizes below 2^32 bytes, in a
    context that may have been used before, gives the SHA-256 or SHA-224 of
    FIPS 180-4 of the concatenated pieces. *)
Theorem sha256_streaming_correct c variant chunks :
  length (buffer (ctx c)) = 64%nat -> Forall (fun p : bytes => zlen p < 2 ^ 32) chunks ->
  mbedtls_sha256_finish_ret
    (fold_left mbedtls_sha256_update_ret chunks (mbedtls_sha256_starts_ret c variant)) =
  fips_sha256 (concat chunks) variant.
Proof.
  intros Hb Hc. unfold mbedtls_sha256_finish_ret, fips_sha256. rewrite <- sha256_spec_eq.
  rewrite sha256_updates_ctx, sha256_updates_is224. cbn [ctx is224 mbedtls_sha256_starts_ret].
  rewrite stream_facts by assumption. reflexivity.
Qed.

Lemma sha256_streaming_correct_witness :
  mbedtls_sha256_finish_ret
    (fold_left mbedtls_sha256_update_ret [str "ab"; []; str "c"] (mbedtls_sha256_starts_ret mbedtls_sha256_init 0)) =
  fips_sha256 (str "abc") 0 /\
  fips_sha256 (str "abc") 0 =
    [0xBA; 0x78; 0x16; 0xBF; 0x8F; 0x01; 0xCF; 0xEA; 0x41; 0x41; 0x40; 0xDE; 0x5D; 0xAE; 0x22; 0x23;
     0xB0; 0x03; 0x61; 0xA3; 0x96; 0x17; 0x7A; 0x9C; 0xB4; 0x10; 0xFF; 0x61; 0xF2; 0x00; 0x15; 0xAD].
Proof.
  split; [|vm_compute; reflexivity].
  apply (sha256_streaming_correct mbedtls_sha256_init 0 [str "ab"; []; str "c"]); [reflexivity|].
  repeat constructor.
Defined.
End Sha256.
