(* ===== verification/Sha512.v ===== *)
(** SHA-512 and SHA-384 (mbedtls/library/sha512.c): 64-bit words, 80 rounds,
    128-byte blocks and a 128-bit length.  The streaming functions are an
    instance of [HashStream] with 64-bit count words; they compute the hash of
    FIPS 180-4. *)
From S2P Require Import Prelude Words HashStream ShaRounds.
From stdpp Require Import list.
#[local] Open Scope Z_scope.

Module Sha512.

(** ** The compression function *)

Definition K : list Z :=
  [0x428A2F98D728AE22; 0x7137449123EF65CD;
   0xB5C0FBCFEC4D3B2F; 0xE9B5DBA58189DBBC;
   0x3956C25BF348B538; 0x59F111F1B605D019;
   0x923F82A4AF194F9B; 0xAB1C5ED5DA6D8118;
   0xD807AA98A3030242; 0x12835B0145706FBE;
   0x243185BE4EE4B28C; 0x550C7DC3D5FFB4E2;
   0x72BE5D74F27B896F; 0x80DEB1FE3B1696B1;
   0x9BDC06A725C71235; 0xC19BF174CF692694;
   0xE49B69C19EF14AD2; 0xEFBE4786384F25E3;
   0x0FC19DC68B8CD5B5; 0x240CA1CC77AC9C65;
   0x2DE92C6F592B0275; 0x4A7484AA6EA6E483;
   0x5CB0A9DCBD41FBD4; 0x76F988DA831153B5;
   0x983E5152EE66DFAB; 0xA831C66D2DB43210;
   0xB00327C898FB213F; 0xBF597FC7BEEF0EE4;
   0xC6E00BF33DA88FC2; 0xD5A79147930AA725;
   0x06CA6351E003826F; 0x142929670A0E6E70;
   0x27B70A8546D22FFC; 0x2E1B21385C26C926;
   0x4D2C6DFC5AC42AED; 0x53380D139D95B3DF;
   0x650A73548BAF63DE; 0x766A0ABB3C77B2A8;
   0x81C2C92E47EDAEE6; 0x92722C851482353B;
   0xA2BFE8A14CF10364; 0xA81A664BBC423001;
   0xC24B8B70D0F89791; 0xC76C51A30654BE30;
   0xD192E819D6EF5218; 0xD69906245565A910;
   0xF40E35855771202A; 0x106AA07032BBD1B8;
   0x19A4C116B8D2D0C8; 0x1E376C085141AB53;
   0x2748774CDF8EEB99; 0x34B0BCB5E19B48A8;
   0x391C0CB3C5C95A63; 0x4ED8AA4AE3418ACB;
   0x5B9CCA4F7763E373; 0x682E6FF3D6B2B8A3;
   0x748F82EE5DEFB2FC; 0x78A5636F43172F60;
   0x84C87814A1F0AB72; 0x8CC702081A6439EC;
   0x90BEFFFA23631E28; 0xA4506CEBDE82BDE9;
   0xBEF9A3F7B2C67915; 0xC67178F2E372532B;
   0xCA273ECEEA26619C; 0xD186B8C721C0C207;
   0xEADA7DD6CDE0EB1E; 0xF57D4F7FEE6ED178;
   0x06F067AA72176FBA; 0x0A637DC5A2C898A6;
   0x113F9804BEF90DAE; 0x1B710B35131C471B;
   0x28DB77F523047D84; 0x32CAAB7B40C72493;
   0x3C9EBE0A15C9BEBC; 0x431D67C49C100D4C;
   0x4CC5D4BECB3E42B6; 0x597F299CFC657E2A;
   0x5FCB6FAB3AD6FAEC; 0x6C44198C4A475817].

Definition SHR (x n : Z) : Z := Z.shiftr x n.
Definition ROTR (x n : Z) : Z := Z.lor (SHR x n) (u64 (Z.shiftl x (64 - n))).

Definition S0 (x : Z) : Z := Z.lxor (Z.lxor (ROTR x 1) (ROTR x 8)) (SHR x 7).
Definition S1 (x : Z) : Z := Z.lxor (Z.lxor (ROTR x 19) (ROTR x 61)) (SHR x 6).
Definition S2 (x : Z) : Z := Z.lxor (Z.lxor (ROTR x 28) (ROTR x 34)) (ROTR x 39).
Definition S3 (x : Z) : Z := Z.lxor (Z.lxor (ROTR x 14) (ROTR x 18)) (ROTR x 41).
Definition F0 (x y z : Z) : Z := Z.lor (Z.land x y) (Z.land z (Z.lor x y)).
Definition F1 (x y z : Z) : Z := Z.lxor z (Z.land x (Z.lxor y z)).

(** The new values of [d] and [h]. *)
Definition P (a b c d e f g h x k : Z) : Z * Z :=
  let temp1 := u64 (h + S3 e + F1 e f g + k + x) in
  let temp2 := u64 (S2 a + F0 a b c) in
  (u64 (d + temp1), u64 (temp1 + temp2)).

(** [for (; i < 80; i++) local.W[i] = ...] *)
Definition next_word (W : list Z) (i : nat) : Z :=
  u64 (S1 (nth (i - 2) W 0) + nth (i - 7) W 0 + S0 (nth (i - 15) W 0) + nth (i - 16) W 0).

Definition mbedtls_internal_sha512_process (state : regs8) (data : bytes) : regs8 :=
  let W := words64_be 16 data in
  let W := fold_left (extend next_word) (seq 16 64) W in
  let A := fold_left (fun A i => eight_calls P K A W i) [0; 8; 16; 24; 32; 40; 48; 56; 64; 72]%nat state in
  add_regs8 u64 state A.

#[export] Instance sha512_algo : HashAlgo regs8 :=
  Build_HashAlgo regs8 128 64 mbedtls_internal_sha512_process
    (fun high low => MBEDTLS_PUT_UINT64_BE high ++ MBEDTLS_PUT_UINT64_BE low).

(** ** The functions *)

Record mbedtls_sha512_context := mkSha512 { ctx : Context regs8; is384 : Z }.

Definition mbedtls_sha512_init : mbedtls_sha512_context :=
  mkSha512 (mkContext 0 0 (0, 0, 0, 0, 0, 0, 0, 0) (repeat 0 128)) 0.

Definition initial_state (is384 : Z) : regs8 :=
  if is384 =? 0
  then (0x6A09E667F3BCC908, 0xBB67AE8584CAA73B, 0x3C6EF372FE94F82B, 0xA54FF53A5F1D36F1,
        0x510E527FADE682D1, 0x9B05688C2B3E6C1F, 0x1F83D9ABFB41BD6B, 0x5BE0CD19137E2179)
  else (0xCBBB9D5DC1059ED8, 0x629A292A367CD507, 0x9159015A3070DD17, 0x152FECD8F70E5939,
        0x67332667FFC00B31, 0x8EB44A8768581511, 0xDB0C2E0D64F98FA7, 0x47B5481DBEFA4FA4).

Definition mbedtls_sha512_starts_ret (c : mbedtls_sha512_context) (is384 : Z) : mbedtls_sha512_context :=
  mkSha512 (hash_starts (initial_state is384) (buffer (ctx c))) is384.

Definition mbedtls_sha512_update_ret (c : mbedtls_sha512_context) (input : bytes) : mbedtls_sha512_context :=
  mkSha512 (hash_update (ctx c) input) (is384 c).

Definition output (state : regs8) (is384 : Z) : bytes :=
  let '(s0, s1, s2, s3, s4, s5, s6, s7) := state in
  MBEDTLS_PUT_UINT64_BE s0 ++ MBEDTLS_PUT_UINT64_BE s1 ++ MBEDTLS_PUT_UINT64_BE s2 ++
  MBEDTLS_PUT_UINT64_BE s3 ++ MBEDTLS_PUT_UINT64_BE s4 ++ MBEDTLS_PUT_UINT64_BE s5 ++
  (if is384 =? 0 then MBEDTLS_PUT_UINT64_BE s6 ++ MBEDTLS_PUT_UINT64_BE s7 else []).

Definition mbedtls_sha512_finish_ret (c : mbedtls_sha512_context) : bytes :=
  output (hash_finish (ctx c)) (is384 c).

Definition mbedtls_sha512_ret (input : bytes) (is384 : Z) : bytes :=
  mbedtls_sha512_finish_ret
    (mbedtls_sha512_update_ret (mbedtls_sha512_starts_ret mbedtls_sha512_init is384) input).

(** ** FIPS 180-4 *)

Section Fips.
(** The rotation of the standard, section 3.2. *)
Definition rotr (n x : Z) : Z := Z.lor (x / 2 ^ n) ((x * 2 ^ (64 - n)) mod 2 ^ 64).
Definition shr (n x : Z) : Z := x / 2 ^ n.
Definition Sigma0 (x : Z) : Z := Z.lxor (Z.lxor (rotr 28 x) (rotr 34 x)) (rotr 39 x).
Definition Sigma1 (x : Z) : Z := Z.lxor (Z.lxor (rotr 14 x) (rotr 18 x)) (rotr 41 x).
Definition sigma0 (x : Z) : Z := Z.lxor (Z.lxor (rotr 1 x) (rotr 8 x)) (shr 7 x).
Definition sigma1 (x : Z) : Z := Z.lxor (Z.lxor (rotr 19 x) (rotr 61 x)) (shr 6 x).

Definition schedule_step (W : list Z) (t : nat) : list Z :=
  W ++ [(sigma1 (nth (t - 2) W 0) + nth (t - 7) W 0 + sigma0 (nth (t - 15) W 0) + nth (t - 16) W 0) mod 2 ^ 64].

Definition schedule (M : list Z) : list Z := fold_left schedule_step (seq 16 64) M.

Definition round (W : list Z) (s : regs8) (t : nat) : regs8 :=
  let '(a, b, c, d, e, f, g, h) := s in
  let T1 := (h + Sigma1 e + Ch e f g + nth t K 0 + nth t W 0) mod 2 ^ 64 in
  let T2 := (Sigma0 a + Maj a b c) mod 2 ^ 64 in
  ((T1 + T2) mod 2 ^ 64, a, b, c, (d + T1) mod 2 ^ 64, e, f, g).

Definition fips_compress (state : regs8) (data : bytes) : regs8 :=
  add_regs8 u64 state (fold_left (round (schedule (words64_be 16 data))) (seq 0 80) state).

Definition fips_algo : HashAlgo regs8 :=
  Build_HashAlgo regs8 128 64 fips_compress (fun high low => be_bytes 8 high ++ be_bytes 8 low).
End Fips.

Definition fips_sha512 (msg : bytes) (is384 : Z) : bytes :=
  output (@hash_spec regs8 fips_algo (initial_state is384) msg) is384.

(** ** The code's operations are the standard's *)

Lemma sha512_ROTR_eq x n : 0 <= n <= 64 -> ROTR x n = rotr n x.
Proof. intros Hn. unfold ROTR, rotr, SHR. by rewrite Z.shiftr_div_pow2, Z.shiftl_mul_pow2 by lia. Qed.

Lemma sha512_SHR_eq x n : 0 <= n -> SHR x n = shr n x.
Proof. intros Hn. apply Z.shiftr_div_pow2. lia. Qed.

Lemma sha512_sums_eq :
  (forall x, S0 x = sigma0 x) /\ (forall x, S1 x = sigma1 x) /\
  (forall x, S2 x = Sigma0 x) /\ (forall x, S3 x = Sigma1 x).
Proof.
  repeat split; intros x; unfold S0, S1, S2, S3, sigma0, sigma1, Sigma0, Sigma1;
    rewrite ?sha512_ROTR_eq, ?sha512_SHR_eq by lia; reflexivity.
Qed.

Lemma sha512_round_P W s t : moved_call P K W s t = round W s t.
Proof.
  destruct sha512_sums_eq as (_ & _ & E2 & E3). destruct s as [[[[[[[a b] c] d] e] f] g] h].
  unfold round, moved_call, P. unfold F1, F0. rewrite Ch_lxor, Maj_lor, E2, E3. reflexivity.
Qed.

Lemma sha512_schedule_R W t : extend next_word W t = schedule_step W t.
Proof. destruct sha512_sums_eq as (E0 & E1 & _). unfold schedule_step, extend, next_word. rewrite E0, E1. reflexivity. Qed.

Lemma sha512_process_eq state data : mbedtls_internal_sha512_process state data = fips_compress state data.
Proof.
  unfold mbedtls_internal_sha512_process, fips_compress, schedule. generalize (words64_be 16 data). intros W.
  change [0; 8; 16; 24; 32; 40; 48; 56; 64; 72]%nat with (map (fun j => (0 + 8 * j)%nat) (seq 0 10)).
  rewrite (eight_calls_loop P K _ 10). change (8 * 10)%nat with 80%nat. f_equal.
  rewrite (fold_left_ext schedule_step (extend next_word)) by (intros; symmetry; apply sha512_schedule_R).
  apply fold_left_ext. intros A t. apply sha512_round_P.
Qed.

#[export] Instance sha512_laws : @HashLaws regs8 sha512_algo.
Proof.
  split.
  - exists 7. split; [cbn; lia|reflexivity].
  - exists 16%nat. split; [cbn; lia|reflexivity].
Qed.

Lemma sha512_spec_eq init msg :
  @hash_spec regs8 sha512_algo init msg = @hash_spec regs8 fips_algo init msg.
Proof.
  apply hash_spec_ext; [apply sha512_process_eq|]. intros high low. apply f_equal2; apply put64_be.
Qed.

Lemma sha512_updates_ctx cs : forall c,
  ctx (fold_left mbedtls_sha512_update_ret cs c) = fold_left hash_update cs (ctx c).
Proof. induction cs as [|p cs IH]; intros c; [reflexivity|]. apply IH. Qed.

Lemma sha512_updates_is384 cs : forall c,
  is384 (fold_left mbedtls_sha512_update_ret cs c) = is384 c.
Proof. induction cs as [|p cs IH]; intros c; [reflexivity|]. cbn [fold_left]. rewrite IH. reflexivity. Qed.

(** Hashing a message in pieces of any sizes a [size_t] can count, in a
    context that may have been used before, gives the SHA-512 or SHA-384 of
    FIPS 180-4 of the concatenated pieces. *)
Theorem sha512_streaming_correct c variant chunks :
  length (buffer (ctx c)) = 128%nat -> Forall (fun p : bytes => zlen p < 2 ^ 64) chunks ->
  mbedtls_sha512_finish_ret
    (fold_left mbedtls_sha512_update_ret chunks (mbedtls_sha512_starts_ret c variant)) =
  fips_sha512 (concat chunks) variant.
Proof.
  intros Hb Hc. unfold mbedtls_sha512_finish_ret, fips_sha512. rewrite <- sha512_spec_eq.
  rewrite sha512_updates_ctx, sha512_updates_is384. cbn [ctx is384 mbedtls_sha512_starts_ret].
  rewrite stream_facts by assumption. reflexivity.
Qed.

Lemma sha512_streaming_correct_witness :
  mbedtls_sha512_finish_ret
    (fold_left mbedtls_sha512_update_ret [str "ab"; []; str "c"] (mbedtls_sha512_starts_ret mbedtls_sha512_init 1)) =
  fips_sha512 (str "abc") 1 /\
  fips_sha512 (str "abc") 1 =
    [0xCB; 0x00; 0x75; 0x3F; 0x45; 0xA3; 0x5E; 0x8B; 0xB5; 0xA0; 0x3D; 0x69; 0x9A; 0xC6; 0x50; 0x07;
     0x27; 0x2C; 0x32; 0xAB; 0x0E; 0xDE; 0xD1; 0x63; 0x1A; 0x8B; 0x60; 0x5A; 0x43; 0xFF; 0x5B; 0xED;
     0x80; 0x86; 0x07; 0x2B; 0xA1; 0xE7; 0xCC; 0x23; 0x58; 0xBA; 0xEC; 0xA1; 0x34; 0xC8; 0x25; 0xA7].
Proof.
  split; [|vm_compute; reflexivity].
  apply (sha512_streaming_correct mbedtls_sha512_init 1 [str "ab"; []; str "c"]); [reflexivity|].
  repeat constructor.
Defined.
End Sha512.
