(* ===== verification/Sha1.v ===== *)
(** SHA-1 (mbedtls/library/sha1.c): the compression function with its 16-word
    circular schedule and renamed registers, and the streaming functions as an
    instance of [HashStream].  They compute the hash of FIPS 180-4. *)
From S2P Require Import Prelude Words HashStream ShaRounds.
From stdpp Require Import list.
#[local] Open Scope Z_scope.

Module Sha1.

Definition regs : Type := Z * Z * Z * Z * Z.

(** [R(t)]: the new word, stored in place of the one 16 rounds back. *)
Definition R (W : list Z) (t : nat) : Z * list Z :=
  let temp := Z.lxor (Z.lxor (Z.lxor (nth (Nat.land (t - 3) 0x0F) W 0) (nth (Nat.land (t - 8) 0x0F) W 0))
                (nth (Nat.land (t - 14) 0x0F) W 0)) (nth (Nat.land t 0x0F) W 0) in
  let v := SHL_OR32 temp 1 in
  (v, <[Nat.land t 0x0F := v]> W).

(** The last argument of the macro call of round [t]. *)
Definition round_word (W : list Z) (t : nat) : Z * list Z :=
  if (t <? 16)%nat then (nth t W 0, W) else R W t.

(** The new values of [e] and [b]. *)
Definition P (F : Z -> Z -> Z -> Z) (K a b c d e x : Z) : Z * Z :=
  (u32 (e + (SHL_OR32 a 5 + F b c d + K + x)), SHL_OR32 b 30).

(** Five macro calls, each with the registers moved by one place. *)
Definition five_rounds (F : Z -> Z -> Z -> Z) (K : Z) (st : regs * list Z) (t : nat) : regs * list Z :=
  let '((A, B, C, D, E), W) := st in
  let '(x, W) := round_word W t in let '(E, B) := P F K A B C D E x in
  let '(x, W) := round_word W (t + 1) in let '(D, A) := P F K E A B C D x in
  let '(x, W) := round_word W (t + 2) in let '(C, E) := P F K D E A B C x in
  let '(x, W) := round_word W (t + 3) in let '(B, D) := P F K C D E A B x in
  let '(x, W) := round_word W (t + 4) in let '(A, C) := P F K B C D E A x in
  ((A, B, C, D, E), W).

Definition F1 (x y z : Z) : Z := Z.lxor z (Z.land x (Z.lxor y z)).
Definition F2 (x y z : Z) : Z := Z.lxor (Z.lxor x y) z.
Definition F3 (x y z : Z) : Z := Z.lor (Z.land x y) (Z.land z (Z.lor x y)).
Definition F4 (x y z : Z) : Z := Z.lxor (Z.lxor x y) z.

Definition add_regs (s A : regs) : regs :=
  let '(s0, s1, s2, s3, s4) := s in
  let '(A0, A1, A2, A3, A4) := A in
  (u32 (s0 + A0), u32 (s1 + A1), u32 (s2 + A2), u32 (s3 + A3), u32 (s4 + A4)).

Definition mbedtls_internal_sha1_process (state : regs) (data : bytes) : regs :=
  let st := (state, words_be 16 data) in
  let st := fold_left (five_rounds F1 0x5A827999) [0; 5; 10; 15]%nat st in
  let st := fold_left (five_rounds F2 0x6ED9EBA1) [20; 25; 30; 35]%nat st in
  let st := fold_left (five_rounds F3 0x8F1BBCDC) [40; 45; 50; 55]%nat st in
  let st := fold_left (five_rounds F4 0xCA62C1D6) [60; 65; 70; 75]%nat st in
  add_regs state (fst st).

#[export] Instance sha1_algo : HashAlgo regs :=
  Build_HashAlgo regs 64 32 mbedtls_internal_sha1_process
    (fun high low => MBEDTLS_PUT_UINT32_BE high ++ MBEDTLS_PUT_UINT32_BE low).

Definition mbedtls_sha1_init : Context regs := mkContext 0 0 (0, 0, 0, 0, 0) (repeat 0 64).

Definition initial_state : regs := (0x67452301, 0xEFCDAB89, 0x98BADCFE, 0x10325476, 0xC3D2E1F0).

Definition mbedtls_sha1_starts_ret (ctx : Context regs) : Context regs :=
  hash_starts initial_state (buffer ctx).

Definition mbedtls_sha1_update_ret (ctx : Context regs) (input : bytes) : Context regs :=
  hash_update ctx input.

Definition output (state : regs) : bytes :=
  let '(s0, s1, s2, s3, s4) := state in
  MBEDTLS_PUT_UINT32_BE s0 ++ MBEDTLS_PUT_UINT32_BE s1 ++ MBEDTLS_PUT_UINT32_BE s2 ++
  MBEDTLS_PUT_UINT32_BE s3 ++ MBEDTLS_PUT_UINT32_BE s4.

Definition mbedtls_sha1_finish_ret (ctx : Context regs) : bytes := output (hash_finish ctx).

Definition mbedtls_sha1_ret (input : bytes) : bytes :=
  mbedtls_sha1_finish_ret (mbedtls_sha1_update_ret (mbedtls_sha1_starts_ret mbedtls_sha1_init) input).

(** ** FIPS 180-4 *)

Section Fips.
Definition Parity (x y z : Z) : Z := Z.lxor (Z.lxor x y) z.

Definition f (t : nat) : Z -> Z -> Z -> Z :=
  if (t <? 20)%nat then Ch else if (t <? 40)%nat then Parity else if (t <? 60)%nat then Maj else Parity.

Definition K (t : nat) : Z :=
  if (t <? 20)%nat then 0x5A827999 else if (t <? 40)%nat then 0x6ED9EBA1
  else if (t <? 60)%nat then 0x8F1BBCDC else 0xCA62C1D6.

(** The schedule [W_0 .. W_79]. *)
Definition schedule_step (W : list Z) (t : nat) : list Z :=
  W ++ [rotl32 1 (Z.lxor (Z.lxor (Z.lxor (nth (t - 3) W 0) (nth (t - 8) W 0)) (nth (t - 14) W 0)) (nth (t - 16) W 0))].

Definition schedule (M : list Z) : list Z := fold_left schedule_step (seq 16 64) M.

Definition round (W : list Z) (s : regs) (t : nat) : regs :=
  let '(a, b, c, d, e) := s in
  let T := (rotl32 5 a + f t b c d + e + K t + nth t W 0) mod 2 ^ 32 in
  (T, a, rotl32 30 b, c, d).

Definition fips_compress (state : regs) (data : bytes) : regs :=
  add_regs state (fold_left (round (schedule (words_be 16 data))) (seq 0 80) state).

Definition fips_algo : HashAlgo regs :=
  Build_HashAlgo regs 64 32 fips_compress (fun high low => be_bytes 4 high ++ be_bytes 4 low).
End Fips.

Definition fips_sha1 (msg : bytes) : bytes := output (@hash_spec regs fips_algo initial_state msg).

(** ** The code's operations are the standard's *)

(** The circular buffer holds the last 16 words of the schedule. *)
Definition window (Wc Wf : list Z) (t : nat) : Prop :=
  length Wc = 16%nat /\ forall i, (t <= i + 16)%nat -> (i < Nat.max 16 t)%nat -> nth (i mod 16) Wc 0 = nth i Wf 0.

Lemma land15 t : Nat.land t 0x0F = (t mod 16)%nat.
Proof. change 0x0F%nat with (Nat.ones 4). apply Nat.land_ones. Qed.

Lemma schedule_nth ts : forall W i, (i < length W)%nat -> nth i (fold_left schedule_step ts W) 0 = nth i W 0.
Proof.
  induction ts as [|t ts IH]; intros W i Hi; [reflexivity|]. cbn [fold_left].
  rewrite IH by (unfold schedule_step; rewrite length_app; lia). unfold schedule_step. by rewrite app_nth1.
Qed.

Lemma schedule_length ts : forall W, length (fold_left schedule_step ts W) = (length W + length ts)%nat.
Proof.
  induction ts as [|t ts IH]; intros W; cbn [fold_left length]; [lia|]. rewrite IH. unfold schedule_step.
  rewrite length_app. cbn [length]. lia.
Qed.

(** The recurrence of the finished schedule. *)
Lemma schedule_rec M t :
  length M = 16%nat -> (16 <= t < 80)%nat ->
  let W := schedule M in
  nth t W 0 = rotl32 1 (Z.lxor (Z.lxor (Z.lxor (nth (t - 3) W 0) (nth (t - 8) W 0)) (nth (t - 14) W 0)) (nth (t - 16) W 0)).
Proof.
  intros HM Ht W. unfold W, schedule. replace 64%nat with ((t - 16) + S (79 - t))%nat by lia.
  rewrite seq_app, fold_left_app. replace (16 + (t - 16))%nat with t by lia. cbn [seq fold_left].
  set (Wt := fold_left schedule_step (seq 16 (t - 16)) M).
  assert (HW : length Wt = t) by (unfold Wt; rewrite schedule_length, length_seq; lia).
  rewrite !(schedule_nth _ (schedule_step Wt t)) by (unfold schedule_step; rewrite length_app; cbn [length]; lia).
  unfold schedule_step. rewrite app_nth2, HW, Nat.sub_diag by lia. rewrite !app_nth1 by lia. reflexivity.
Qed.

Lemma mod16_neq i j : (i < j)%nat -> (j < i + 16)%nat -> (i mod 16 <> j mod 16)%nat.
Proof.
  intros H1 H2 E. pose proof (Nat.div_mod_eq i 16). pose proof (Nat.div_mod_eq j 16). lia.
Qed.

(** What [R(t)] computes from the circular buffer. *)
Lemma R_word M Wc t :
  length M = 16%nat -> (16 <= t < 80)%nat -> window Wc (schedule M) t ->
  R Wc t = (nth t (schedule M) 0, <[(t mod 16)%nat := nth t (schedule M) 0]> Wc).
Proof.
  intros HM Ht [Hl Hw]. unfold R. rewrite !land15.
  assert (E16 : (t mod 16 = (t - 16) mod 16)%nat).
  { replace t with ((t - 16) + 1 * 16)%nat at 1 by lia. apply Nat.Div0.mod_add. }
  rewrite SHL_OR32_eq by lia. rewrite (schedule_rec M t) by lia. cbn zeta.
  rewrite <- (Hw (t - 3)%nat), <- (Hw (t - 8)%nat), <- (Hw (t - 14)%nat), <- (Hw (t - 16)%nat), E16 by lia.
  reflexivity.
Qed.

Lemma round_word_spec M Wc t :
  length M = 16%nat -> (t < 80)%nat -> window Wc (schedule M) t ->
  exists Wc', round_word Wc t = (nth t (schedule M) 0, Wc') /\ window Wc' (schedule M) (S t).
Proof.
  intros HM Ht HW. unfold round_word. destruct (t <? 16)%nat eqn:E; to_prop.
  - destruct HW as [Hl Hw]. exists Wc. split.
    + rewrite <- (Hw t) by lia. by rewrite Nat.mod_small.
    + split; [exact Hl|]. intros i H1 H2. apply Hw; lia.
  - rewrite (R_word M) by (assumption || lia). destruct HW as [Hl Hw]. eexists. split; [reflexivity|].
    split; [by rewrite length_insert|]. intros i H1 H2. rewrite nth_lookup.
    destruct (Nat.eq_dec i t) as [->|Hi].
    + rewrite list_lookup_insert_eq; [reflexivity|]. rewrite Hl. apply Nat.mod_upper_bound. lia.
    + rewrite list_lookup_insert_ne by (apply not_eq_sym, mod16_neq; lia).
      rewrite <- nth_lookup. apply Hw; lia.
Qed.

(** One macro call is one round with the registers renamed. *)
Lemma sha1_round_P F W t a b c d e :
  (forall x y z, F x y z = f t x y z) ->
  round W (a, b, c, d, e) t =
  let '(e', b') := P F (K t) a b c d e (nth t W 0) in (e', a, b', c, d).
Proof.
  intros HF. unfold round, P. rewrite !SHL_OR32_eq, HF by lia. unfold u32.
  rewrite (Z.add_assoc e), (Z.add_assoc e), (Z.add_assoc e), (Z.add_comm e).
  rewrite <- (Z.add_assoc (rotl32 5 a) e), (Z.add_comm e), Z.add_assoc. reflexivity.
Qed.

Lemma five_rounds_spec F k M t A Wc :
  length M = 16%nat -> (t + 5 <= 80)%nat ->
  (forall i, (t <= i < t + 5)%nat -> K i = k /\ forall x y z, F x y z = f i x y z) ->
  window Wc (schedule M) t ->
  exists Wc', five_rounds F k (A, Wc) t = (fold_left (round (schedule M)) (seq t 5) A, Wc') /\
    window Wc' (schedule M) (t + 5).
Proof.
  intros HM Ht HF HW. destruct A as [[[[a b] c] d] e]. unfold five_rounds. cbn [seq fold_left].
  destruct (round_word_spec M Wc t HM ltac:(lia) HW) as (W1 & -> & HW1).
  replace (t + 1)%nat with (S t) by lia. destruct (round_word_spec M W1 (S t) HM ltac:(lia) HW1) as (W2 & E2 & HW2).
  replace (t + 2)%nat with (S (S t)) by lia. destruct (round_word_spec M W2 (S (S t)) HM ltac:(lia) HW2) as (W3 & E3 & HW3).
  replace (t + 3)%nat with (S (S (S t))) by lia. destruct (round_word_spec M W3 (S (S (S t))) HM ltac:(lia) HW3) as (W4 & E4 & HW4).
  replace (t + 4)%nat with (S (S (S (S t)))) by lia. destruct (round_word_spec M W4 (S (S (S (S t)))) HM ltac:(lia) HW4) as (W5 & E5 & HW5).
  replace (t + 5)%nat with (S (S (S (S (S t))))) by lia. exists W5. split; [|exact HW5].
  assert (HK : forall i, (t <= i < t + 5)%nat -> K i = k) by (intros; by apply HF).
  rewrite (sha1_round_P F) by (apply HF; lia). rewrite (HK t) by lia. destruct (P F k a b c d e _) as [e' b'].
  rewrite E2, (sha1_round_P F), (HK (S t)) by (try apply HF; lia). destruct (P F k e' _ _ _ _ _) as [? ?].
  rewrite E3, (sha1_round_P F), (HK (S (S t))) by (try apply HF; lia). destruct (P F k _ _ _ _ _ _) as [? ?].
  rewrite E4, (sha1_round_P F), (HK (S (S (S t)))) by (try apply HF; lia). destruct (P F k _ _ _ _ _ _) as [? ?].
  rewrite E5, (sha1_round_P F), (HK (S (S (S (S t))))) by (try apply HF; lia). destruct (P F k _ _ _ _ _ _) as [? ?].
  reflexivity.
Qed.

(** The twenty rounds that share [F] and [K]. *)
Lemma twenty_rounds F k M t st Wc A0 :
  length M = 16%nat -> (t + 20 <= 80)%nat ->
  (forall i, (t <= i < t + 20)%nat -> K i = k /\ forall x y z, F x y z = f i x y z) ->
  st = (fold_left (round (schedule M)) (seq 0 t) A0, Wc) -> window Wc (schedule M) t ->
  exists Wc',
    fold_left (five_rounds F k) [t; t + 5; t + 10; t + 15]%nat st =
      (fold_left (round (schedule M)) (seq 0 (t + 20)) A0, Wc') /\
    window Wc' (schedule M) (t + 20).
Proof.
  intros HM Ht HF -> HW. cbn [fold_left].
  destruct (five_rounds_spec F k M t (fold_left (round (schedule M)) (seq 0 t) A0) Wc HM) as (W1 & -> & HW1);
    [lia|intros; apply HF; lia|exact HW|].
  destruct (five_rounds_spec F k M (t + 5) (fold_left (round (schedule M)) (seq t 5)
    (fold_left (round (schedule M)) (seq 0 t) A0)) W1 HM) as (W2 & -> & HW2); [lia|intros; apply HF; lia|exact HW1|].
  replace (t + 5 + 5)%nat with (t + 10)%nat in HW2 by lia.
  match goal with |- context [five_rounds F k (?A, W2)] =>
    destruct (five_rounds_spec F k M (t + 10) A W2 HM) as (W3 & -> & HW3); [lia|intros; apply HF; lia|exact HW2|] end.
  replace (t + 10 + 5)%nat with (t + 15)%nat in HW3 by lia.
  match goal with |- context [five_rounds F k (?A, W3)] =>
    destruct (five_rounds_spec F k M (t + 15) A W3 HM) as (W4 & -> & HW4); [lia|intros; apply HF; lia|exact HW3|] end.
  exists W4. split; [|replace (t + 20)%nat with (t + 15 + 5)%nat by lia; exact HW4].
  replace (t + 20)%nat with ((((t + 5) + 5) + 5) + 5)%nat by lia.
  rewrite !seq_app, !fold_left_app. rewrite !Nat.add_0_l.
  replace (t + 5 + 5)%nat with (t + 10)%nat by lia. replace (t + 10 + 5)%nat with (t + 15)%nat by lia.
  reflexivity.
Qed.

Lemma sha1_process_eq state data : mbedtls_internal_sha1_process state data = fips_compress state data.
Proof.
  unfold mbedtls_internal_sha1_process, fips_compress.
  generalize (eq_refl : length (words_be 16 data) = 16%nat). generalize (words_be 16 data). intros M HM.
  assert (HW : window M (schedule M) 0).
  { split; [exact HM|]. intros i _ Hi. rewrite Nat.mod_small by lia. symmetry. apply schedule_nth. lia. }
  destruct (twenty_rounds F1 0x5A827999 M 0 (state, M) M state HM) as (W1 & E1 & HW1);
    [lia| |reflexivity|exact HW|].
  { intros i Hi. unfold K, f. case_ifs. split; [reflexivity|]. intros. apply Ch_lxor. }
  edestruct (twenty_rounds F2 0x6ED9EBA1 M 20) as (W2 & E2 & HW2); [exact HM|lia| |exact E1|exact HW1|].
  { intros i Hi. unfold K, f. case_ifs. split; reflexivity. }
  edestruct (twenty_rounds F3 0x8F1BBCDC M 40) as (W3 & E3 & HW3); [exact HM|lia| |exact E2|exact HW2|].
  { intros i Hi. unfold K, f. case_ifs. split; [reflexivity|]. intros. apply Maj_lor. }
  edestruct (twenty_rounds F4 0xCA62C1D6 M 60) as (W4 & E4 & HW4); [exact HM|lia| |exact E3|exact HW3|].
  { intros i Hi. unfold K, f. case_ifs. split; reflexivity. }
  cbn [Nat.add] in E4. rewrite E4. reflexivity.
Qed.

#[export] Instance sha1_laws : @HashLaws regs sha1_algo.
Proof.
  split.
  - exists 6. split; [cbn; lia|reflexivity].
  - exists 8%nat. split; [cbn; lia|reflexivity].
Qed.

Lemma sha1_spec_eq init msg :
  @hash_spec regs sha1_algo init msg = @hash_spec regs fips_algo init msg.
Proof.
  apply hash_spec_ext; [apply sha1_process_eq|]. intros high low. apply f_equal2; apply put32_be.
Qed.

(** Hashing a message in pieces of any sizes below 2^32 bytes, in a
    context that may have been used before, gives the SHA-1 of FIPS 180-4 of
    the concatenated pieces. *)
Theorem sha1_streaming_correct ctx chunks :
  length (buffer ctx) = 64%nat -> Forall (fun p : bytes => zlen p < 2 ^ 32) chunks ->
  mbedtls_sha1_finish_ret (fold_left mbedtls_sha1_update_ret chunks (mbedtls_sha1_starts_ret ctx)) =
  fips_sha1 (concat chunks).
Proof.
  intros Hb Hc. unfold mbedtls_sha1_finish_ret, fips_sha1. rewrite <- sha1_spec_eq.
  rewrite <- (stream_facts _ (buffer ctx)) by assumption. reflexivity.
Qed.

Lemma sha1_streaming_correct_witness :
  mbedtls_sha1_finish_ret
    (fold_left mbedtls_sha1_update_ret [str "a"; str "bc"] (mbedtls_sha1_starts_ret mbedtls_sha1_init)) =
  fips_sha1 (str "abc") /\
  fips_sha1 (str "abc") =
    [0xA9; 0x99; 0x3E; 0x36; 0x47; 0x06; 0x81; 0x6A; 0xBA; 0x3E;
     0x25; 0x71; 0x78; 0x50; 0xC2; 0x6C; 0x9C; 0xD0; 0xD8; 0x9D].
Proof.
  split; [|vm_compute; reflexivity].
  apply (sha1_streaming_correct mbedtls_sha1_init [str "a"; str "bc"]); [reflexivity|].
  repeat constructor.
Defined.
End Sha1.
