(* ===== verification/MdDigests.v ===== *)
(** MD5 and MD4 (mbedtls/library/md5.c, md4.c).  Both work on four registers
    that the unrolled macro calls rename; the tables of calls are data here.
    MD5 ends like the SHA functions, MD4 with two more updates.  They compute
    the hashes of RFC 1321 and RFC 1320. *)
From S2P Require Import Prelude Words HashStream.
From stdpp Require Import list.
#[local] Open Scope Z_scope.

(** The four registers, and the words of the state. *)
Definition regs4 : Type := Z * Z * Z * Z.

Definition add_regs4 (s A : regs4) : regs4 :=
  let '(s0, s1, s2, s3) := s in
  let '(A0, A1, A2, A3) := A in
  (u32 (s0 + A0), u32 (s1 + A1), u32 (s2 + A2), u32 (s3 + A3)).

Definition output4 (state : regs4) : bytes :=
  let '(s0, s1, s2, s3) := state in
  MBEDTLS_PUT_UINT32_LE s0 ++ MBEDTLS_PUT_UINT32_LE s1 ++ MBEDTLS_PUT_UINT32_LE s2 ++ MBEDTLS_PUT_UINT32_LE s3.

Definition initial4 : regs4 := (0x67452301, 0xEFCDAB89, 0x98BADCFE, 0x10325476).

Definition length_le (high low : Z) : bytes := MBEDTLS_PUT_UINT32_LE low ++ MBEDTLS_PUT_UINT32_LE high.

Section Calls.
Context {Call : Type} (op : Z -> Z -> Z -> Z -> Call -> Z).

(** The macro calls of a table, four at a time, each with the registers moved
    by one place. *)
Fixpoint macro_calls (st : regs4) (calls : list Call) : regs4 :=
  match calls with
  | c0 :: c1 :: c2 :: c3 :: calls =>
      let '(A, B, C, D) := st in
      let A := op A B C D c0 in
      let D := op D A B C c1 in
      let C := op C D A B c2 in
      let B := op B C D A c3 in
      macro_calls (A, B, C, D) calls
  | _ => st
  end.

(** One call with the registers renamed instead. *)
Definition step (st : regs4) (c : Call) : regs4 :=
  let '(A, B, C, D) := st in (D, op A B C D c, B, C).

Lemma macro_calls_steps n : forall st calls,
  length calls = (4 * n)%nat -> macro_calls st calls = fold_left step calls st.
Proof.
  induction n as [|n IH]; intros st calls Hl; [by destruct calls|].
  destruct calls as [|c0 [|c1 [|c2 [|c3 calls]]]]; cbn [length] in Hl; try lia.
  cbn [macro_calls fold_left]. destruct st as [[[A B] C] D]. rewrite IH by lia. reflexivity.
Qed.

(** A table of calls that follows the rounds of a definition. *)
Lemma macro_calls_rounds (rnd : regs4 -> nat -> regs4) (row : nat -> Call) calls lo st :
  calls = map row (seq lo 16) ->
  (forall st i, (lo <= i < lo + 16)%nat -> step st (row i) = rnd st i) ->
  macro_calls st calls = fold_left rnd (seq lo 16) st.
Proof.
  intros -> H. rewrite (macro_calls_steps 4) by reflexivity.
  assert (G : forall l st, Forall (fun i => lo <= i < lo + 16)%nat l ->
    fold_left step (map row l) st = fold_left rnd l st).
  { induction l as [|i l IH]; intros s Hl; [reflexivity|]. apply Forall_cons in Hl as [Hi Hl].
    cbn [map fold_left]. rewrite H by exact Hi. by apply IH. }
  apply G, Forall_forall. intros i Hi%elem_of_seq. lia.
Qed.
End Calls.

Lemma length_le_eq high low : length_le high low = le_bytes 4 low ++ le_bytes 4 high.
Proof. unfold length_le. apply f_equal2; apply put32_le. Qed.

Module Md5.

Definition F1 (x y z : Z) : Z := Z.lxor z (Z.land x (Z.lxor y z)).
Definition F2 (x y z : Z) : Z := Z.lxor y (Z.land z (Z.lxor x y)).
Definition F3 (x y z : Z) : Z := Z.lxor (Z.lxor x y) z.
Definition F4 (x y z : Z) : Z := Z.lxor y (Z.lor x (u32 (Z.lnot z))).

(** The new value of [a]. *)
Definition P (F : Z -> Z -> Z -> Z) (X : list Z) (a b c d : Z) (call : nat * Z * Z) : Z :=
  let '(k, s, t) := call in
  let a := u32 (a + (F b c d + nth k X 0 + t)) in
  u32 (SHL_OR32 a s + b).

Definition calls1 : list (nat * Z * Z) :=
  [(0%nat, 7, 0xD76AA478); (1%nat, 12, 0xE8C7B756); (2%nat, 17, 0x242070DB); (3%nat, 22, 0xC1BDCEEE);
   (4%nat, 7, 0xF57C0FAF); (5%nat, 12, 0x4787C62A); (6%nat, 17, 0xA8304613); (7%nat, 22, 0xFD469501);
   (8%nat, 7, 0x698098D8); (9%nat, 12, 0x8B44F7AF); (10%nat, 17, 0xFFFF5BB1); (11%nat, 22, 0x895CD7BE);
   (12%nat, 7, 0x6B901122); (13%nat, 12, 0xFD987193); (14%nat, 17, 0xA679438E); (15%nat, 22, 0x49B40821)].
Definition calls2 : list (nat * Z * Z) :=
  [(1%nat, 5, 0xF61E2562); (6%nat, 9, 0xC040B340); (11%nat, 14, 0x265E5A51); (0%nat, 20, 0xE9B6C7AA);
   (5%nat, 5, 0xD62F105D); (10%nat, 9, 0x02441453); (15%nat, 14, 0xD8A1E681); (4%nat, 20, 0xE7D3FBC8);
   (9%nat, 5, 0x21E1CDE6); (14%nat, 9, 0xC33707D6); (3%nat, 14, 0xF4D50D87); (8%nat, 20, 0x455A14ED);
   (13%nat, 5, 0xA9E3E905); (2%nat, 9, 0xFCEFA3F8); (7%nat, 14, 0x676F02D9); (12%nat, 20, 0x8D2A4C8A)].
Definition calls3 : list (nat * Z * Z) :=
  [(5%nat, 4, 0xFFFA3942); (8%nat, 11, 0x8771F681); (11%nat, 16, 0x6D9D6122); (14%nat, 23, 0xFDE5380C);
   (1%nat, 4, 0xA4BEEA44); (4%nat, 11, 0x4BDECFA9); (7%nat, 16, 0xF6BB4B60); (10%nat, 23, 0xBEBFBC70);
   (13%nat, 4, 0x289B7EC6); (0%nat, 11, 0xEAA127FA); (3%nat, 16, 0xD4EF3085); (6%nat, 23, 0x04881D05);
   (9%nat, 4, 0xD9D4D039); (12%nat, 11, 0xE6DB99E5); (15%nat, 16, 0x1FA27CF8); (2%nat, 23, 0xC4AC5665)].
Definition calls4 : list (nat * Z * Z) :=
  [(0%nat, 6, 0xF4292244); (7%nat, 10, 0x432AFF97); (14%nat, 15, 0xAB9423A7); (5%nat, 21, 0xFC93A039);
   (12%nat, 6, 0x655B59C3); (3%nat, 10, 0x8F0CCC92); (10%nat, 15, 0xFFEFF47D); (1%nat, 21, 0x85845DD1);
   (8%nat, 6, 0x6FA87E4F); (15%nat, 10, 0xFE2CE6E0); (6%nat, 15, 0xA3014314); (13%nat, 21, 0x4E0811A1);
   (4%nat, 6, 0xF7537E82); (11%nat, 10, 0xBD3AF235); (2%nat, 15, 0x2AD7D2BB); (9%nat, 21, 0xEB86D391)].

Definition mbedtls_internal_md5_process (state : regs4) (data : bytes) : regs4 :=
  let X := words_le 16 data in
  let A := macro_calls (P F1 X) state calls1 in
  let A := macro_calls (P F2 X) A calls2 in
  let A := macro_calls (P F3 X) A calls3 in
  let A := macro_calls (P F4 X) A calls4 in
  add_regs4 state A.

#[export] Instance md5_algo : HashAlgo regs4 :=
  Build_HashAlgo regs4 64 32 mbedtls_internal_md5_process length_le.

Definition mbedtls_md5_init : Context regs4 := mkContext 0 0 (0, 0, 0, 0) (repeat 0 64).

Definition mbedtls_md5_starts_ret (ctx : Context regs4) : Context regs4 :=
  hash_starts initial4 (buffer ctx).

Definition mbedtls_md5_update_ret (ctx : Context regs4) (input : bytes) : Context regs4 :=
  hash_update ctx input.

Definition mbedtls_md5_finish_ret (ctx : Context regs4) : bytes := output4 (hash_finish ctx).

Definition mbedtls_md5_ret (input : bytes) : bytes :=
  mbedtls_md5_finish_ret (mbedtls_md5_update_ret (mbedtls_md5_starts_ret mbedtls_md5_init) input).

(** ** RFC 1321 *)

Section Rfc.
Definition F (x y z : Z) : Z := Z.lor (Z.land x y) (Z.land (Z.lnot x) z).
Definition G (x y z : Z) : Z := Z.lor (Z.land x z) (Z.land y (Z.lnot z)).
Definition H (x y z : Z) : Z := Z.lxor (Z.lxor x y) z.
Definition I (x y z : Z) : Z := Z.lxor y (Z.lor x (Z.lnot z)).

Definition mix (i : nat) : Z -> Z -> Z -> Z :=
  if (i <? 16)%nat then F else if (i <? 32)%nat then G else if (i <? 48)%nat then H else I.

(** The word of the block, the rotation and the constant of step [i]. *)
Definition word_index (i : nat) : nat :=
  if (i <? 16)%nat then i
  else if (i <? 32)%nat then ((5 * i + 1) mod 16)%nat
  else if (i <? 48)%nat then ((3 * i + 5) mod 16)%nat
  else ((7 * i) mod 16)%nat.

Definition rotation (i : nat) : Z :=
  nth (i mod 4) (if (i <? 16)%nat then [7; 12; 17; 22] else if (i <? 32)%nat then [5; 9; 14; 20]
                 else if (i <? 48)%nat then [4; 11; 16; 23] else [6; 10; 15; 21]) 0.

(** [floor (2^32 * |sin (i + 1)|)]. *)
Definition T : list Z :=
  [0xd76aa478; 0xe8c7b756; 0x242070db; 0xc1bdceee;
   0xf57c0faf; 0x4787c62a; 0xa8304613; 0xfd469501;
   0x698098d8; 0x8b44f7af; 0xffff5bb1; 0x895cd7be;
   0x6b901122; 0xfd987193; 0xa679438e; 0x49b40821;
   0xf61e2562; 0xc040b340; 0x265e5a51; 0xe9b6c7aa;
   0xd62f105d; 0x02441453; 0xd8a1e681; 0xe7d3fbc8;
   0x21e1cde6; 0xc33707d6; 0xf4d50d87; 0x455a14ed;
   0xa9e3e905; 0xfcefa3f8; 0x676f02d9; 0x8d2a4c8a;
   0xfffa3942; 0x8771f681; 0x6d9d6122; 0xfde5380c;
   0xa4beea44; 0x4bdecfa9; 0xf6bb4b60; 0xbebfbc70;
   0x289b7ec6; 0xeaa127fa; 0xd4ef3085; 0x04881d05;
   0xd9d4d039; 0xe6db99e5; 0x1fa27cf8; 0xc4ac5665;
   0xf4292244; 0x432aff97; 0xab9423a7; 0xfc93a039;
   0x655b59c3; 0x8f0ccc92; 0xffeff47d; 0x85845dd1;
   0x6fa87e4f; 0xfe2ce6e0; 0xa3014314; 0x4e0811a1;
   0xf7537e82; 0xbd3af235; 0x2ad7d2bb; 0xeb86d391].

Definition round (X : list Z) (st : regs4) (i : nat) : regs4 :=
  let '(a, b, c, d) := st in
  let sum := (a + mix i b c d + nth (word_index i) X 0 + nth i T 0) mod 2 ^ 32 in
  (d, (b + rotl32 (rotation i) sum) mod 2 ^ 32, b, c).

Definition rfc_compress (state : regs4) (data : bytes) : regs4 :=
  add_regs4 state (fold_left (round (words_le 16 data)) (seq 0 64) state).

Definition rfc_algo : HashAlgo regs4 :=
  Build_HashAlgo regs4 64 32 rfc_compress (fun high low => le_bytes 4 low ++ le_bytes 4 high).
End Rfc.

Definition rfc_md5 (msg : bytes) : bytes := output4 (@hash_spec regs4 rfc_algo initial4 msg).

(** ** The code's operations are the RFC's *)

Lemma md5_F_eqs :
  (forall x y z, u32 (F1 x y z) = u32 (F x y z)) /\ (forall x y z, u32 (F2 x y z) = u32 (G x y z)) /\
  (forall x y z, u32 (F3 x y z) = u32 (H x y z)) /\ (forall x y z, u32 (F4 x y z) = u32 (I x y z)).
Proof. unfold F1, F2, F3, F4, F, G, H, I. repeat split; bitwise32. Qed.

Definition row (i : nat) : nat * Z * Z := (word_index i, rotation i, nth i T 0).

Lemma md5_rotation_range i : 0 <= rotation i <= 32.
Proof.
  unfold rotation. pose proof (Nat.mod_upper_bound i 4 ltac:(lia)).
  destruct (i mod 4)%nat as [|[|[|[|]]]]; [| | | |lia]; case_ifs; cbn [nth]; lia.
Qed.

Lemma md5_step_round Fc X st i :
  (forall x y z, u32 (Fc x y z) = u32 (mix i x y z)) -> step (P Fc X) st (row i) = round X st i.
Proof.
  intros HF. destruct st as [[[a b] c] d]. unfold step, P, round, row.
  rewrite SHL_OR32_eq by apply md5_rotation_range.
  assert (E : u32 (a + (Fc b c d + nth (word_index i) X 0 + nth i T 0)) =
              (a + mix i b c d + nth (word_index i) X 0 + nth i T 0) mod 2 ^ 32).
  { change (?x mod 2 ^ 32) with (u32 x). rewrite <- !Z.add_assoc, !(Z.add_comm a), <- !Z.add_assoc.
    by apply u32_congr. }
  rewrite E, Z.add_comm. reflexivity.
Qed.

Lemma md5_process_eq state data : mbedtls_internal_md5_process state data = rfc_compress state data.
Proof.
  destruct md5_F_eqs as (E1 & E2 & E3 & E4). unfold mbedtls_internal_md5_process, rfc_compress.
  generalize (words_le 16 data). intros X. cbn zeta.
  rewrite (macro_calls_rounds _ (round X) row calls1 0), (macro_calls_rounds _ (round X) row calls2 16),
    (macro_calls_rounds _ (round X) row calls3 32), (macro_calls_rounds _ (round X) row calls4 48);
    try reflexivity.
  - intros st i Hi. apply md5_step_round. unfold mix. by case_ifs.
  - intros st i Hi. apply md5_step_round. unfold mix. by case_ifs.
  - intros st i Hi. apply md5_step_round. unfold mix. by case_ifs.
  - intros st i Hi. apply md5_step_round. unfold mix. by case_ifs.
Qed.

#[export] Instance md5_laws : @HashLaws regs4 md5_algo.
Proof.
  split.
  - exists 6. split; [cbn; lia|reflexivity].
  - exists 8%nat. split; [cbn; lia|reflexivity].
Qed.

Lemma md5_spec_eq init msg :
  @hash_spec regs4 md5_algo init msg = @hash_spec regs4 rfc_algo init msg.
Proof. apply hash_spec_ext; [apply md5_process_eq|apply length_le_eq]. Qed.

(** Hashing a message in pieces of any sizes below 2^32 bytes, in a
    context that may have been used before, gives the MD5 of RFC 1321 of the
    concatenated pieces. *)
Theorem md5_streaming_correct ctx chunks :
  length (buffer ctx) = 64%nat -> Forall (fun p : bytes => zlen p < 2 ^ 32) chunks ->
  mbedtls_md5_finish_ret (fold_left mbedtls_md5_update_ret chunks (mbedtls_md5_starts_ret ctx)) =
  rfc_md5 (concat chunks).
Proof.
  intros Hb Hc. unfold mbedtls_md5_finish_ret, rfc_md5. rewrite <- md5_spec_eq.
  rewrite <- (stream_facts _ (buffer ctx)) by assumption. reflexivity.
Qed.

Lemma md5_streaming_correct_witness :
  mbedtls_md5_finish_ret
    (fold_left mbedtls_md5_update_ret [str "message"; str " digest"] (mbedtls_md5_starts_ret mbedtls_md5_init)) =
  rfc_md5 (str "message digest") /\
  rfc_md5 (str "message digest") =
    [0xF9; 0x6B; 0x69; 0x7D; 0x7C; 0xB7; 0x93; 0x8D; 0x52; 0x5A; 0x2F; 0x31; 0xAA; 0xF1; 0x61; 0xD0].
Proof.
  split; [|vm_compute; reflexivity].
  apply (md5_streaming_correct mbedtls_md5_init [str "message"; str " digest"]); [reflexivity|].
  repeat constructor.
Defined.
End Md5.

Module Md4.

Definition F1 (x y z : Z) : Z := Z.lor (Z.land x y) (Z.land (u32 (Z.lnot x)) z).
Definition F2 (x y z : Z) : Z := Z.lor (Z.lor (Z.land x y) (Z.land x z)) (Z.land y z).
Definition F3 (x y z : Z) : Z := Z.lxor (Z.lxor x y) z.

(** The new value of [a]; the three macros differ in [F] and in a constant. *)
Definition P (F : Z -> Z -> Z -> Z) (K : Z) (X : list Z) (a b c d : Z) (call : nat * Z) : Z :=
  let '(x, s) := call in
  let a := u32 (a + (F b c d + nth x X 0 + K)) in
  SHL_OR32 a s.

Definition calls1 : list (nat * Z) :=
  [(0%nat, 3); (1%nat, 7); (2%nat, 11); (3%nat, 19);
   (4%nat, 3); (5%nat, 7); (6%nat, 11); (7%nat, 19);
   (8%nat, 3); (9%nat, 7); (10%nat, 11); (11%nat, 19);
   (12%nat, 3); (13%nat, 7); (14%nat, 11); (15%nat, 19)].
Definition calls2 : list (nat * Z) :=
  [(0%nat, 3); (4%nat, 5); (8%nat, 9); (12%nat, 13);
   (1%nat, 3); (5%nat, 5); (9%nat, 9); (13%nat, 13);
   (2%nat, 3); (6%nat, 5); (10%nat, 9); (14%nat, 13);
   (3%nat, 3); (7%nat, 5); (11%nat, 9); (15%nat, 13)].
Definition calls3 : list (nat * Z) :=
  [(0%nat, 3); (8%nat, 9); (4%nat, 11); (12%nat, 15);
   (2%nat, 3); (10%nat, 9); (6%nat, 11); (14%nat, 15);
   (1%nat, 3); (9%nat, 9); (5%nat, 11); (13%nat, 15);
   (3%nat, 3); (11%nat, 9); (7%nat, 11); (15%nat, 15)].

Definition mbedtls_internal_md4_process (state : regs4) (data : bytes) : regs4 :=
  let X := words_le 16 data in
  let A := macro_calls (P F1 0 X) state calls1 in
  let A := macro_calls (P F2 0x5A827999 X) A calls2 in
  let A := macro_calls (P F3 0x6ED9EBA1 X) A calls3 in
  add_regs4 state A.

#[export] Instance md4_algo : HashAlgo regs4 :=
  Build_HashAlgo regs4 64 32 mbedtls_internal_md4_process length_le.

Definition mbedtls_md4_init : Context regs4 := mkContext 0 0 (0, 0, 0, 0) (repeat 0 64).

Definition mbedtls_md4_starts_ret (ctx : Context regs4) : Context regs4 :=
  hash_starts initial4 (buffer ctx).

Definition mbedtls_md4_update_ret (ctx : Context regs4) (input : bytes) : Context regs4 :=
  hash_update ctx input.

Definition mbedtls_md4_finish_ret (ctx : Context regs4) : bytes := output4 (hash_finish_updates ctx).

Definition mbedtls_md4_ret (input : bytes) : bytes :=
  mbedtls_md4_finish_ret (mbedtls_md4_update_ret (mbedtls_md4_starts_ret mbedtls_md4_init) input).

(** ** RFC 1320 *)

Section Rfc.
Definition F (x y z : Z) : Z := Z.lor (Z.land x y) (Z.land (Z.lnot x) z).
Definition G (x y z : Z) : Z := Z.lor (Z.lor (Z.land x y) (Z.land x z)) (Z.land y z).
Definition H (x y z : Z) : Z := Z.lxor (Z.lxor x y) z.

Definition mix (i : nat) : Z -> Z -> Z -> Z :=
  if (i <? 16)%nat then F else if (i <? 32)%nat then G else H.

(** Row by row, column by column, and in the order of the reversed bits. *)
Definition word_index (i : nat) : nat :=
  if (i <? 16)%nat then i
  else if (i <? 32)%nat then ((i mod 4) * 4 + (i mod 16) / 4)%nat
  else (8 * (i mod 2) + 4 * (i / 2 mod 2) + 2 * (i / 4 mod 2) + i / 8 mod 2)%nat.

Definition rotation (i : nat) : Z :=
  nth (i mod 4) (if (i <? 16)%nat then [3; 7; 11; 19] else if (i <? 32)%nat then [3; 5; 9; 13]
                 else [3; 9; 11; 15]) 0.

Definition K (i : nat) : Z :=
  if (i <? 16)%nat then 0 else if (i <? 32)%nat then 0x5A827999 else 0x6ED9EBA1.

Definition round (X : list Z) (st : regs4) (i : nat) : regs4 :=
  let '(a, b, c, d) := st in
  (d, rotl32 (rotation i) ((a + mix i b c d + nth (word_index i) X 0 + K i) mod 2 ^ 32), b, c).

Definition rfc_compress (state : regs4) (data : bytes) : regs4 :=
  add_regs4 state (fold_left (round (words_le 16 data)) (seq 0 48) state).

Definition rfc_algo : HashAlgo regs4 :=
  Build_HashAlgo regs4 64 32 rfc_compress (fun high low => le_bytes 4 low ++ le_bytes 4 high).
End Rfc.

Definition rfc_md4 (msg : bytes) : bytes := output4 (@hash_spec regs4 rfc_algo initial4 msg).

(** ** The code's operations are the RFC's *)

Lemma md4_F_eqs :
  (forall x y z, u32 (F1 x y z) = u32 (F x y z)) /\ (forall x y z, u32 (F2 x y z) = u32 (G x y z)) /\
  (forall x y z, u32 (F3 x y z) = u32 (H x y z)).
Proof. unfold F1, F2, F3, F, G, H. repeat split; bitwise32. Qed.

Definition row (i : nat) : nat * Z := (word_index i, rotation i).

Lemma md4_rotation_range i : 0 <= rotation i <= 32.
Proof.
  unfold rotation. pose proof (Nat.mod_upper_bound i 4 ltac:(lia)).
  destruct (i mod 4)%nat as [|[|[|[|]]]]; [| | | |lia]; case_ifs; cbn [nth]; lia.
Qed.

Lemma md4_step_round Fc k X st i :
  K i = k -> (forall x y z, u32 (Fc x y z) = u32 (mix i x y z)) -> step (P Fc k X) st (row i) = round X st i.
Proof.
  intros <- HF. destruct st as [[[a b] c] d]. unfold step, P, round, row.
  rewrite SHL_OR32_eq by apply md4_rotation_range.
  assert (E : u32 (a + (Fc b c d + nth (word_index i) X 0 + K i)) =
              (a + mix i b c d + nth (word_index i) X 0 + K i) mod 2 ^ 32).
  { change (?x mod 2 ^ 32) with (u32 x). rewrite <- !Z.add_assoc, !(Z.add_comm a), <- !Z.add_assoc.
    by apply u32_congr. }
  rewrite E. reflexivity.
Qed.

Lemma md4_process_eq state data : mbedtls_internal_md4_process state data = rfc_compress state data.
Proof.
  destruct md4_F_eqs as (E1 & E2 & E3). unfold mbedtls_internal_md4_process, rfc_compress.
  generalize (words_le 16 data). intros X. cbn zeta.
  rewrite (macro_calls_rounds _ (round X) row calls1 0), (macro_calls_rounds _ (round X) row calls2 16),
    (macro_calls_rounds _ (round X) row calls3 32);
    try reflexivity.
  - intros st i Hi. apply md4_step_round; unfold K, mix; by case_ifs.
  - intros st i Hi. apply md4_step_round; unfold K, mix; by case_ifs.
  - intros st i Hi. apply md4_step_round; unfold K, mix; by case_ifs.
Qed.

#[export] Instance md4_laws : @HashLaws regs4 md4_algo.
Proof.
  split.
  - exists 6. split; [cbn; lia|reflexivity].
  - exists 8%nat. split; [cbn; lia|reflexivity].
Qed.

Lemma md4_spec_eq init msg :
  @hash_spec regs4 md4_algo init msg = @hash_spec regs4 rfc_algo init msg.
Proof. apply hash_spec_ext; [apply md4_process_eq|apply length_le_eq]. Qed.

(** Hashing a message in pieces of any sizes below 2^32 bytes, in a
    context that may have been used before, and padding it with two more
    updates gives the MD4 of RFC 1320 of the concatenated pieces. *)
Theorem md4_streaming_correct ctx chunks :
  length (buffer ctx) = 64%nat -> Forall (fun p : bytes => zlen p < 2 ^ 32) chunks ->
  mbedtls_md4_finish_ret (fold_left mbedtls_md4_update_ret chunks (mbedtls_md4_starts_ret ctx)) =
  rfc_md4 (concat chunks).
Proof.
  intros Hb Hc. unfold mbedtls_md4_finish_ret, rfc_md4. rewrite <- md4_spec_eq.
  rewrite <- (stream_updates_facts _ (buffer ctx)) by assumption. reflexivity.
Qed.

Lemma md4_streaming_correct_witness :
  mbedtls_md4_finish_ret
    (fold_left mbedtls_md4_update_ret [str "abc"] (mbedtls_md4_starts_ret mbedtls_md4_init)) =
  rfc_md4 (str "abc") /\
  rfc_md4 (str "abc") =
    [0xA4; 0x48; 0x01; 0x7A; 0xAF; 0x21; 0xD8; 0x52; 0x5F; 0xC1; 0x0A; 0xE8; 0x7A; 0xA6; 0x72; 0x9D].
Proof.
  split; [|vm_compute; reflexivity].
  apply (md4_streaming_correct mbedtls_md4_init [str "abc"]); [reflexivity|].
  repeat constructor.
Defined.
End Md4.
