(* ===== verification/Ripemd160.v ===== *)
(** RIPEMD-160 (mbedtls/library/ripemd160.c): two lines of 80 steps run side by
    side on registers that the unrolled macro calls rename; the tables of calls
    are data here.  The streaming functions are an instance of [HashStream];
    they compute the hash of Dobbertin, Bosselaers and Preneel's definition,
    whose word orders are powers of a permutation. *)
From S2P Require Import Prelude Words HashStream ShaRounds.
From stdpp Require Import list.
#[local] Open Scope Z_scope.

Section Calls.
(** [op a b c d e call]: the new values of [a] and [c]. *)
Context {Reg Call : Type} (op : Reg -> Reg -> Reg -> Reg -> Reg -> Call -> Reg * Reg).

Definition regs5 : Type := Reg * Reg * Reg * Reg * Reg.

(** The macro calls of a table, five at a time, each with the registers moved
    by one place. *)
Fixpoint macro_calls5 (st : regs5) (calls : list Call) : regs5 :=
  match calls with
  | c0 :: c1 :: c2 :: c3 :: c4 :: calls =>
      let '(A, B, C, D, E) := st in
      let '(A, C) := op A B C D E c0 in
      let '(E, B) := op E A B C D c1 in
      let '(D, A) := op D E A B C c2 in
      let '(C, E) := op C D E A B c3 in
      let '(B, D) := op B C D E A c4 in
      macro_calls5 (A, B, C, D, E) calls
  | _ => st
  end.

(** One call with the registers moved. *)
Definition step5 (st : regs5) (c : Call) : regs5 :=
  let '(A, B, C, D, E) := st in
  let '(A, C) := op A B C D E c in (E, A, B, C, D).

Lemma macro_calls5_steps n : forall st calls,
  length calls = (5 * n)%nat -> macro_calls5 st calls = fold_left step5 calls st.
Proof.
  induction n as [|n IH]; intros st calls Hl; [by destruct calls|].
  destruct calls as [|c0 [|c1 [|c2 [|c3 [|c4 calls]]]]]; cbn [length] in Hl; try lia.
  cbn [macro_calls5 fold_left]. destruct st as [[[[A B] C] D] E]. unfold step5 at 2 3 4 5 6.
  do 5 (match goal with |- context [op ?a ?b ?c ?d ?e ?x] => destruct (op a b c d e x) as [? ?] end).
  apply IH. lia.
Qed.
End Calls.

Module Ripemd160.

Definition regs : Type := Z * Z * Z * Z * Z.

Definition F1 (x y z : Z) : Z := Z.lxor (Z.lxor x y) z.
Definition F2 (x y z : Z) : Z := Z.lor (Z.land x y) (Z.land (u32 (Z.lnot x)) z).
Definition F3 (x y z : Z) : Z := Z.lxor (Z.lor x (u32 (Z.lnot y))) z.
Definition F4 (x y z : Z) : Z := Z.lor (Z.land x z) (Z.land y (u32 (Z.lnot z))).
Definition F5 (x y z : Z) : Z := Z.lxor x (Z.lor y (u32 (Z.lnot z))).

Definition S (x n : Z) : Z := Z.lor (u32 (Z.shiftl x n)) (Z.shiftr x (32 - n)).

Definition P (X : list Z) (a b c d e : Z) (r : nat) (s : Z) (f : Z -> Z -> Z -> Z) (k : Z) : Z * Z :=
  let a := u32 (a + (f b c d + nth r X 0 + k)) in
  let a := u32 (S a s + e) in
  (a, S c 10).

(** A register and its primed companion. *)
Definition P2 (X : list Z) (F : Z -> Z -> Z -> Z) (K : Z) (Fp : Z -> Z -> Z -> Z) (Kp : Z)
    (a b c d e : Z * Z) (call : nat * Z * nat * Z) : (Z * Z) * (Z * Z) :=
  let '(r, s, rp, sp) := call in
  let '(a1, c1) := P X (fst a) (fst b) (fst c) (fst d) (fst e) r s F K in
  let '(a2, c2) := P X (snd a) (snd b) (snd c) (snd d) (snd e) rp sp Fp Kp in
  ((a1, a2), (c1, c2)).

Definition calls1 : list (nat * Z * nat * Z) :=
  [(0%nat, 11, 5%nat, 8); (1%nat, 14, 14%nat, 9); (2%nat, 15, 7%nat, 9); (3%nat, 12, 0%nat, 11);
   (4%nat, 5, 9%nat, 13); (5%nat, 8, 2%nat, 15); (6%nat, 7, 11%nat, 15); (7%nat, 9, 4%nat, 5);
   (8%nat, 11, 13%nat, 7); (9%nat, 13, 6%nat, 7); (10%nat, 14, 15%nat, 8); (11%nat, 15, 8%nat, 11);
   (12%nat, 6, 1%nat, 14); (13%nat, 7, 10%nat, 14); (14%nat, 9, 3%nat, 12); (15%nat, 8, 12%nat, 6)].
Definition calls2 : list (nat * Z * nat * Z) :=
  [(7%nat, 7, 6%nat, 9); (4%nat, 6, 11%nat, 13); (13%nat, 8, 3%nat, 15); (1%nat, 13, 7%nat, 7);
   (10%nat, 11, 0%nat, 12); (6%nat, 9, 13%nat, 8); (15%nat, 7, 5%nat, 9); (3%nat, 15, 10%nat, 11);
   (12%nat, 7, 14%nat, 7); (0%nat, 12, 15%nat, 7); (9%nat, 15, 8%nat, 12); (5%nat, 9, 12%nat, 7);
   (2%nat, 11, 4%nat, 6); (14%nat, 7, 9%nat, 15); (11%nat, 13, 1%nat, 13); (8%nat, 12, 2%nat, 11)].
Definition calls3 : list (nat * Z * nat * Z) :=
  [(3%nat, 11, 15%nat, 9); (10%nat, 13, 5%nat, 7); (14%nat, 6, 1%nat, 15); (4%nat, 7, 3%nat, 11);
   (9%nat, 14, 7%nat, 8); (15%nat, 9, 14%nat, 6); (8%nat, 13, 6%nat, 6); (1%nat, 15, 9%nat, 14);
   (2%nat, 14, 11%nat, 12); (7%nat, 8, 8%nat, 13); (0%nat, 13, 12%nat, 5); (6%nat, 6, 2%nat, 14);
   (13%nat, 5, 10%nat, 13); (11%nat, 12, 0%nat, 13); (5%nat, 7, 4%nat, 7); (12%nat, 5, 13%nat, 5)].
Definition calls4 : list (nat * Z * nat * Z) :=
  [(1%nat, 11, 8%nat, 15); (9%nat, 12, 6%nat, 5); (11%nat, 14, 4%nat, 8); (10%nat, 15, 1%nat, 11);
   (0%nat, 14, 3%nat, 14); (8%nat, 15, 11%nat, 14); (12%nat, 9, 15%nat, 6); (4%nat, 8, 0%nat, 14);
   (13%nat, 9, 5%nat, 6); (3%nat, 14, 12%nat, 9); (7%nat, 5, 2%nat, 12); (15%nat, 6, 13%nat, 9);
   (14%nat, 8, 9%nat, 12); (5%nat, 6, 7%nat, 5); (6%nat, 5, 10%nat, 15); (2%nat, 12, 14%nat, 8)].
Definition calls5 : list (nat * Z * nat * Z) :=
  [(4%nat, 9, 12%nat, 8); (0%nat, 15, 15%nat, 5); (5%nat, 5, 10%nat, 12); (9%nat, 11, 4%nat, 9);
   (7%nat, 6, 1%nat, 12); (12%nat, 8, 5%nat, 5); (2%nat, 13, 8%nat, 14); (10%nat, 12, 7%nat, 6);
   (14%nat, 5, 6%nat, 8); (1%nat, 12, 2%nat, 13); (3%nat, 13, 13%nat, 6); (8%nat, 14, 14%nat, 5);
   (11%nat, 11, 0%nat, 15); (6%nat, 8, 3%nat, 13); (15%nat, 5, 9%nat, 11); (13%nat, 6, 11%nat, 11)].

(** The five parts of the table, with their [F], [K], [Fp] and [Kp]. *)
Definition part : Type := (Z -> Z -> Z -> Z) * Z * (Z -> Z -> Z -> Z) * Z.

Definition calls : list (part * (nat * Z * nat * Z)) :=
  map (fun c => (F1, 0x00000000, F5, 0x50A28BE6, c)) calls1 ++
  map (fun c => (F2, 0x5A827999, F4, 0x5C4DD124, c)) calls2 ++
  map (fun c => (F3, 0x6ED9EBA1, F3, 0x6D703EF3, c)) calls3 ++
  map (fun c => (F4, 0x8F1BBCDC, F2, 0x7A6D76E9, c)) calls4 ++
  map (fun c => (F5, 0xA953FD4E, F1, 0x00000000, c)) calls5.

Definition call_P2 (X : list Z) (a b c d e : Z * Z) (pc : part * (nat * Z * nat * Z)) : (Z * Z) * (Z * Z) :=
  let '(F, K, Fp, Kp, call) := pc in P2 X F K Fp Kp a b c d e call.

Definition mbedtls_internal_ripemd160_process (state : regs) (data : bytes) : regs :=
  let X := words_le 16 data in
  let '(s0, s1, s2, s3, s4) := state in
  let '(A, B, C, D, E) :=
    macro_calls5 (call_P2 X) ((s0, s0), (s1, s1), (s2, s2), (s3, s3), (s4, s4)) calls in
  let C' := u32 (s1 + fst C + snd D) in
  let s1 := u32 (s2 + fst D + snd E) in
  let s2 := u32 (s3 + fst E + snd A) in
  let s3 := u32 (s4 + fst A + snd B) in
  let s4 := u32 (s0 + fst B + snd C) in
  (C', s1, s2, s3, s4).

#[export] Instance ripemd160_algo : HashAlgo regs :=
  Build_HashAlgo regs 64 32 mbedtls_internal_ripemd160_process
    (fun high low => MBEDTLS_PUT_UINT32_LE low ++ MBEDTLS_PUT_UINT32_LE high).

Definition mbedtls_ripemd160_init : Context regs := mkContext 0 0 (0, 0, 0, 0, 0) (repeat 0 64).

Definition initial_state : regs := (0x67452301, 0xEFCDAB89, 0x98BADCFE, 0x10325476, 0xC3D2E1F0).

Definition mbedtls_ripemd160_starts_ret (ctx : Context regs) : Context regs :=
  hash_starts initial_state (buffer ctx).

Definition mbedtls_ripemd160_update_ret (ctx : Context regs) (input : bytes) : Context regs :=
  hash_update ctx input.

Definition output (state : regs) : bytes :=
  let '(s0, s1, s2, s3, s4) := state in
  MBEDTLS_PUT_UINT32_LE s0 ++ MBEDTLS_PUT_UINT32_LE s1 ++ MBEDTLS_PUT_UINT32_LE s2 ++
  MBEDTLS_PUT_UINT32_LE s3 ++ MBEDTLS_PUT_UINT32_LE s4.

Definition mbedtls_ripemd160_finish_ret (ctx : Context regs) : bytes := output (hash_finish_updates ctx).

Definition mbedtls_ripemd160_ret (input : bytes) : bytes :=
  mbedtls_ripemd160_finish_ret
    (mbedtls_ripemd160_update_ret (mbedtls_ripemd160_starts_ret mbedtls_ripemd160_init) input).

(** ** The definition of RIPEMD-160 *)

Section Definition_.
Definition rho : list nat := [7; 4; 13; 1; 10; 6; 15; 3; 12; 0; 9; 5; 2; 14; 11; 8]%nat.
Definition pi (i : nat) : nat := ((9 * i + 5) mod 16)%nat.

(** Round [k] of the left line reads the words in the order [rho^k], of the
    right line in the order [rho^k . pi]. *)
Definition left_word (j : nat) : nat := Nat.iter (j / 16) (fun i => nth i rho 0%nat) (j mod 16)%nat.
Definition right_word (j : nat) : nat := Nat.iter (j / 16) (fun i => nth i rho 0%nat) (pi (j mod 16)).

(** The rotations, by round and word. *)
Definition shifts : list (list Z) :=
  [[11; 14; 15; 12; 5; 8; 7; 9; 11; 13; 14; 15; 6; 7; 9; 8];
   [12; 13; 11; 15; 6; 9; 9; 7; 12; 15; 11; 13; 7; 8; 7; 7];
   [13; 15; 14; 11; 7; 7; 6; 8; 13; 14; 13; 12; 5; 5; 6; 9];
   [14; 11; 12; 14; 8; 6; 5; 5; 15; 12; 15; 14; 9; 9; 8; 6];
   [15; 12; 13; 13; 9; 5; 8; 6; 14; 11; 12; 11; 8; 6; 5; 5]].

Definition shift (j i : nat) : Z := nth i (nth (j / 16) shifts []) 0.

Definition f (k : nat) (x y z : Z) : Z :=
  match k with
  | 0%nat => Z.lxor (Z.lxor x y) z
  | 1%nat => Z.lor (Z.land x y) (Z.land (Z.lnot x) z)
  | 2%nat => Z.lxor (Z.lor x (Z.lnot y)) z
  | 3%nat => Z.lor (Z.land x z) (Z.land y (Z.lnot z))
  | _ => Z.lxor x (Z.lor y (Z.lnot z))
  end.

Definition K (k : nat) : Z := nth k [0; 0x5A827999; 0x6ED9EBA1; 0x8F1BBCDC; 0xA953FD4E] 0.
Definition K' (k : nat) : Z := nth k [0x50A28BE6; 0x5C4DD124; 0x6D703EF3; 0x7A6D76E9; 0] 0.

(** The cyclic shift of a word. *)
Definition rol (n x : Z) : Z := Z.lor ((x * 2 ^ n) mod 2 ^ 32) (x / 2 ^ (32 - n)).

Definition line_step (X : list Z) (g : Z -> Z -> Z -> Z) (i : nat) (s k : Z) (st : regs) : regs :=
  let '(A, B, C, D, E) := st in
  (E, (rol s ((A + g B C D + nth i X 0 + k) mod 2 ^ 32) + E) mod 2 ^ 32, B, rol 10 C, D).

Definition left_step (X : list Z) (st : regs) (j : nat) : regs :=
  line_step X (f (j / 16)) (left_word j) (shift j (left_word j)) (K (j / 16)) st.

Definition right_step (X : list Z) (st : regs) (j : nat) : regs :=
  line_step X (f (4 - j / 16)) (right_word j) (shift j (right_word j)) (K' (j / 16)) st.

Definition compress_spec (state : regs) (data : bytes) : regs :=
  let X := words_le 16 data in
  let '(h0, h1, h2, h3, h4) := state in
  let '(A, B, C, D, E) := fold_left (left_step X) (seq 0 80) state in
  let '(A', B', C', D', E') := fold_left (right_step X) (seq 0 80) state in
  ((h1 + C + D') mod 2 ^ 32, (h2 + D + E') mod 2 ^ 32, (h3 + E + A') mod 2 ^ 32,
   (h4 + A + B') mod 2 ^ 32, (h0 + B + C') mod 2 ^ 32).

Definition spec_algo : HashAlgo regs :=
  Build_HashAlgo regs 64 32 compress_spec (fun high low => le_bytes 4 low ++ le_bytes 4 high).
End Definition_.

Definition ripemd160_spec (msg : bytes) : bytes := output (@hash_spec regs spec_algo initial_state msg).

(** ** The code's operations are the definition's *)

Lemma ripemd160_F_eqs k x y z :
  u32 (match k with 0%nat => F1 | 1%nat => F2 | 2%nat => F3 | 3%nat => F4 | _ => F5 end x y z) = u32 (f k x y z).
Proof. unfold f, F1, F2, F3, F4, F5. destruct k as [|[|[|[|k]]]]; revert x y z; bitwise32. Qed.

Definition fn (k : nat) : Z -> Z -> Z -> Z :=
  match k with 0%nat => F1 | 1%nat => F2 | 2%nat => F3 | 3%nat => F4 | _ => F5 end.

(** The call of step [j] as the definition says it. *)
Definition row (j : nat) : part * (nat * Z * nat * Z) :=
  (fn (j / 16), K (j / 16), fn (4 - j / 16), K' (j / 16),
   (left_word j, shift j (left_word j), right_word j, shift j (right_word j))).

Definition row_data (j : nat) : nat * Z * nat * Z :=
  (left_word j, shift j (left_word j), right_word j, shift j (right_word j)).

Lemma part_rows k tbl :
  tbl = map row_data (seq (16 * k) 16) ->
  map (fun c => (fn k, K k, fn (4 - k), K' k, c)) tbl = map row (seq (16 * k) 16).
Proof.
  intros ->. rewrite map_map. apply map_ext_in. intros j Hj%in_seq. unfold row, row_data.
  replace (j / 16)%nat with k; [reflexivity|]. apply (Nat.div_unique j 16 k (j - 16 * k)); lia.
Qed.

Lemma calls_rows : calls = map row (seq 0 80).
Proof.
  change (seq 0 80) with (seq (16 * 0) 16 ++ seq (16 * 1) 16 ++ seq (16 * 2) 16 ++ seq (16 * 3) 16 ++ seq (16 * 4) 16).
  rewrite !map_app. rewrite <- (part_rows 0 calls1), <- (part_rows 1 calls2), <- (part_rows 2 calls3),
    <- (part_rows 3 calls4), <- (part_rows 4 calls5) by (vm_compute; reflexivity).
  reflexivity.
Qed.

Lemma S_rol n x : 0 <= n <= 32 -> S x n = rol n x.
Proof. intros Hn. unfold S, rol, u32. by rewrite Z.shiftl_mul_pow2, Z.shiftr_div_pow2 by lia. Qed.

Lemma shift_range j i : 0 <= shift j i <= 32.
Proof.
  unfold shift. assert (H : Forall (Forall (fun n => 0 <= n <= 32)) shifts) by (repeat constructor; lia).
  assert (G : Forall (fun n => 0 <= n <= 32) (nth (j / 16) shifts [])).
  { destruct (nth_in_or_default (j / 16) shifts []) as [Hi| ->]; [|constructor].
    rewrite List.Forall_forall in H. by apply H. }
  destruct (nth_in_or_default i (nth (j / 16) shifts []) 0) as [Hi| ->]; [|lia].
  rewrite List.Forall_forall in G. by apply G.
Qed.

(** One [P] is one step of a line. *)
Lemma P_line X (g h : Z -> Z -> Z -> Z) i s k a b c d e :
  0 <= s <= 32 -> (forall x y z, u32 (g x y z) = u32 (h x y z)) ->
  let '(a', c') := P X a b c d e i s g k in
  (e, a', b, c', d) = line_step X h i s k (a, b, c, d, e).
Proof.
  intros Hs E. unfold P, line_step. rewrite !S_rol by lia.
  assert (F : u32 (a + (g b c d + nth i X 0 + k)) = (a + h b c d + nth i X 0 + k) mod 2 ^ 32).
  { change (?x mod 2 ^ 32) with (u32 x). rewrite <- !Z.add_assoc, !(Z.add_comm a), <- !Z.add_assoc.
    by apply u32_congr. }
  rewrite F. reflexivity.
Qed.

Definition both (l r : regs) : (Z * Z) * (Z * Z) * (Z * Z) * (Z * Z) * (Z * Z) :=
  let '(A, B, C, D, E) := l in let '(A', B', C', D', E') := r in
  ((A, A'), (B, B'), (C, C'), (D, D'), (E, E')).

Lemma step_both X l r j :
  step5 (call_P2 X) (both l r) (row j) = both (left_step X l j) (right_step X r j).
Proof.
  destruct l as [[[[A B] C] D] E], r as [[[[A' B'] C'] D'] E'].
  unfold left_step, right_step, both at 1, step5, call_P2, row, P2. cbn [fst snd].
  pose proof (P_line X (fn (j / 16)) (f (j / 16)) (left_word j) (shift j (left_word j)) (K (j / 16))
    A B C D E (shift_range _ _) (ripemd160_F_eqs _)) as H1.
  pose proof (P_line X (fn (4 - j / 16)) (f (4 - j / 16)) (right_word j) (shift j (right_word j)) (K' (j / 16))
    A' B' C' D' E' (shift_range _ _) (ripemd160_F_eqs _)) as H2.
  destruct (P X A _ _ _ _ _ _ _ _) as [a1 c1]. destruct (P X A' _ _ _ _ _ _ _ _) as [a2 c2].
  rewrite <- H1, <- H2. reflexivity.
Qed.

Lemma lines_both X js : forall l r,
  fold_left (step5 (call_P2 X)) (map row js) (both l r) =
  both (fold_left (left_step X) js l) (fold_left (right_step X) js r).
Proof. induction js as [|j js IH]; intros l r; [reflexivity|]. cbn [map fold_left]. by rewrite step_both, IH. Qed.

Lemma ripemd160_process_eq state data : mbedtls_internal_ripemd160_process state data = compress_spec state data.
Proof.
  unfold mbedtls_internal_ripemd160_process, compress_spec. generalize (words_le 16 data). intros X.
  destruct state as [[[[s0 s1] s2] s3] s4].
  rewrite (macro_calls5_steps (call_P2 X) 16) by reflexivity. rewrite calls_rows.
  change ((s0, s0), (s1, s1), (s2, s2), (s3, s3), (s4, s4)) with (both (s0, s1, s2, s3, s4) (s0, s1, s2, s3, s4)).
  rewrite lines_both.
  destruct (fold_left (left_step X) (seq 0 80) _) as [[[[A B] C] D] E].
  destruct (fold_left (right_step X) (seq 0 80) _) as [[[[A' B'] C'] D'] E']. reflexivity.
Qed.

#[export] Instance ripemd160_laws : @HashLaws regs ripemd160_algo.
Proof.
  split.
  - exists 6. split; [cbn; lia|reflexivity].
  - exists 8%nat. split; [cbn; lia|reflexivity].
Qed.

Lemma ripemd160_spec_eq init msg :
  @hash_spec regs ripemd160_algo init msg = @hash_spec regs spec_algo init msg.
Proof. apply hash_spec_ext; [apply ripemd160_process_eq|]. intros high low. apply f_equal2; apply put32_le. Qed.

(** Hashing a message in pieces of any sizes below 2^32 bytes, in a
    context that may have been used before, gives the RIPEMD-160 of the
    concatenated pieces. *)
Theorem ripemd160_streaming_correct ctx chunks :
  length (buffer ctx) = 64%nat -> Forall (fun p : bytes => zlen p < 2 ^ 32) chunks ->
  mbedtls_ripemd160_finish_ret
    (fold_left mbedtls_ripemd160_update_ret chunks (mbedtls_ripemd160_starts_ret ctx)) =
  ripemd160_spec (concat chunks).
Proof.
  intros Hb Hc. unfold mbedtls_ripemd160_finish_ret, ripemd160_spec. rewrite <- ripemd160_spec_eq.
  rewrite <- (stream_updates_facts _ (buffer ctx)) by assumption. reflexivity.
Qed.

Lemma ripemd160_streaming_correct_witness :
  mbedtls_ripemd160_finish_ret
    (fold_left mbedtls_ripemd160_update_ret [str "a"; str "bc"] (mbedtls_ripemd160_starts_ret mbedtls_ripemd160_init)) =
  ripemd160_spec (str "abc") /\
  ripemd160_spec (str "abc") =
    [0x8E; 0xB2; 0x08; 0xF7; 0xE0; 0x5D; 0x98; 0x7A; 0x9B; 0x04;
     0x4A; 0x8E; 0x98; 0xC6; 0xB0; 0x87; 0xF1; 0x5A; 0x0B; 0xFC].
Proof.
  split; [|vm_compute; reflexivity].
  apply (ripemd160_streaming_correct mbedtls_ripemd160_init [str "a"; str "bc"]); [reflexivity|].
  repeat constructor.
Defined.
End Ripemd160.
