(* ===== verification/Md.v ===== *)
(** The generic digest layer and HMAC (mbedtls/library/md.c) for the digests the
    configuration enables.  A [Digest] is what a case of the switches on
    [md_info->type] calls; the class [DigestLaws] is what HMAC and the key
    derivations rely on, and every digest of the library is an instance.
    However a message is cut, [mbedtls_md_finish] gives its hash and
    [mbedtls_md_hmac_finish] the HMAC of RFC 2104.  Allocation is taken to
    succeed; [mbedtls_md_file] reads a file and is not modelled. *)
From S2P Require Import Prelude Words HashStream ShaRounds Sha256 Sha512 Sha1 MdDigests Ripemd160.
From stdpp Require Import list.
#[local] Open Scope Z_scope.

Module Md.

Inductive md_type :=
| MBEDTLS_MD_NONE | MBEDTLS_MD_MD2 | MBEDTLS_MD_MD4 | MBEDTLS_MD_MD5 | MBEDTLS_MD_SHA1
| MBEDTLS_MD_SHA224 | MBEDTLS_MD_SHA256 | MBEDTLS_MD_SHA384 | MBEDTLS_MD_SHA512 | MBEDTLS_MD_RIPEMD160.

#[export] Instance md_type_eq_dec : EqDecision md_type.
Proof. solve_decision. Defined.

Record mbedtls_md_info_t := mkInfo { name : bytes; type : md_type; size : Z; block_size : Z }.

Definition mbedtls_md5_info := mkInfo (str "MD5") MBEDTLS_MD_MD5 16 64.
Definition mbedtls_ripemd160_info := mkInfo (str "RIPEMD160") MBEDTLS_MD_RIPEMD160 20 64.
Definition mbedtls_sha1_info := mkInfo (str "SHA1") MBEDTLS_MD_SHA1 20 64.
Definition mbedtls_sha224_info := mkInfo (str "SHA224") MBEDTLS_MD_SHA224 28 64.
Definition mbedtls_sha256_info := mkInfo (str "SHA256") MBEDTLS_MD_SHA256 32 64.
Definition mbedtls_sha384_info := mkInfo (str "SHA384") MBEDTLS_MD_SHA384 48 128.
Definition mbedtls_sha512_info := mkInfo (str "SHA512") MBEDTLS_MD_SHA512 64 128.

Definition mbedtls_md_info_from_type (t : md_type) : option mbedtls_md_info_t :=
  match t with
  | MBEDTLS_MD_MD5 => Some mbedtls_md5_info
  | MBEDTLS_MD_RIPEMD160 => Some mbedtls_ripemd160_info
  | MBEDTLS_MD_SHA1 => Some mbedtls_sha1_info
  | MBEDTLS_MD_SHA224 => Some mbedtls_sha224_info
  | MBEDTLS_MD_SHA256 => Some mbedtls_sha256_info
  | MBEDTLS_MD_SHA384 => Some mbedtls_sha384_info
  | MBEDTLS_MD_SHA512 => Some mbedtls_sha512_info
  | _ => None
  end.

Definition supported_digests : list md_type :=
  [MBEDTLS_MD_SHA512; MBEDTLS_MD_SHA384; MBEDTLS_MD_SHA256; MBEDTLS_MD_SHA224; MBEDTLS_MD_SHA1;
   MBEDTLS_MD_RIPEMD160; MBEDTLS_MD_MD5; MBEDTLS_MD_NONE].

(** The strings are compared in the order of the source. *)
Definition mbedtls_md_info_from_string (md_name : option bytes) : option mbedtls_md_info_t :=
  match md_name with
  | None => None
  | Some s =>
      if decide (s = str "MD5") then mbedtls_md_info_from_type MBEDTLS_MD_MD5
      else if decide (s = str "RIPEMD160") then mbedtls_md_info_from_type MBEDTLS_MD_RIPEMD160
      else if decide (s = str "SHA1" \/ s = str "SHA") then mbedtls_md_info_from_type MBEDTLS_MD_SHA1
      else if decide (s = str "SHA224") then mbedtls_md_info_from_type MBEDTLS_MD_SHA224
      else if decide (s = str "SHA256") then mbedtls_md_info_from_type MBEDTLS_MD_SHA256
      else if decide (s = str "SHA384") then mbedtls_md_info_from_type MBEDTLS_MD_SHA384
      else if decide (s = str "SHA512") then mbedtls_md_info_from_type MBEDTLS_MD_SHA512
      else None
  end.

(** What the cases of the switches call: the context of the digest, its
    functions, and the context that is left after the digest is printed. *)
Record Digest := mkDigest {
  dctx : Type;
  d_init : dctx;
  d_starts : dctx -> dctx;
  d_update : dctx -> bytes -> dctx;
  d_finish : dctx -> bytes * dctx;
  d_oneshot : bytes -> bytes;
}.

Definition md5_digest : Digest :=
  mkDigest _ Md5.mbedtls_md5_init Md5.mbedtls_md5_starts_ret Md5.mbedtls_md5_update_ret
    (fun c => (Md5.mbedtls_md5_finish_ret c, @hash_finish_ctx _ Md5.md5_algo c)) Md5.mbedtls_md5_ret.

Definition ripemd160_digest : Digest :=
  mkDigest _ Ripemd160.mbedtls_ripemd160_init Ripemd160.mbedtls_ripemd160_starts_ret Ripemd160.mbedtls_ripemd160_update_ret
    (fun c => (Ripemd160.mbedtls_ripemd160_finish_ret c, @hash_finish_updates_ctx _ Ripemd160.ripemd160_algo c))
    Ripemd160.mbedtls_ripemd160_ret.

Definition sha1_digest : Digest :=
  mkDigest _ Sha1.mbedtls_sha1_init Sha1.mbedtls_sha1_starts_ret Sha1.mbedtls_sha1_update_ret
    (fun c => (Sha1.mbedtls_sha1_finish_ret c, @hash_finish_ctx _ Sha1.sha1_algo c)) Sha1.mbedtls_sha1_ret.

Definition sha256_digest (is224 : Z) : Digest :=
  mkDigest _ Sha256.mbedtls_sha256_init (fun c => Sha256.mbedtls_sha256_starts_ret c is224) Sha256.mbedtls_sha256_update_ret
    (fun c => (Sha256.mbedtls_sha256_finish_ret c,
               Sha256.mkSha256 (@hash_finish_ctx _ Sha256.sha256_algo (Sha256.ctx c)) (Sha256.is224 c)))
    (fun input => Sha256.mbedtls_sha256_ret input is224).

Definition sha512_digest (is384 : Z) : Digest :=
  mkDigest _ Sha512.mbedtls_sha512_init (fun c => Sha512.mbedtls_sha512_starts_ret c is384) Sha512.mbedtls_sha512_update_ret
    (fun c => (Sha512.mbedtls_sha512_finish_ret c,
               Sha512.mkSha512 (@hash_finish_ctx _ Sha512.sha512_algo (Sha512.ctx c)) (Sha512.is384 c)))
    (fun input => Sha512.mbedtls_sha512_ret input is384).

Definition digest_of (t : md_type) : option Digest :=
  match t with
  | MBEDTLS_MD_MD5 => Some md5_digest
  | MBEDTLS_MD_RIPEMD160 => Some ripemd160_digest
  | MBEDTLS_MD_SHA1 => Some sha1_digest
  | MBEDTLS_MD_SHA224 => Some (sha256_digest 1)
  | MBEDTLS_MD_SHA256 => Some (sha256_digest 0)
  | MBEDTLS_MD_SHA384 => Some (sha512_digest 1)
  | MBEDTLS_MD_SHA512 => Some (sha512_digest 0)
  | _ => None
  end.

(** ** The context *)

Definition MBEDTLS_ERR_MD_BAD_INPUT_DATA : Z := -0x5100.

(** [md_ctx] belongs to the digest of [md_info]; [hmac_ctx] is the pair of the
    inner and the outer pad. *)
Record Ready := mkReady {
  md_info : mbedtls_md_info_t;
  digest : Digest;
  md_ctx : dctx digest;
  hmac_ctx : option (bytes * bytes);
}.

(** [None]: [md_info] is NULL, as after [mbedtls_md_init]. *)
Definition mbedtls_md_context_t := option Ready.
Definition mbedtls_md_init : mbedtls_md_context_t := None.

Definition mbedtls_md_setup (md_info : option mbedtls_md_info_t) (hmac : bool) : result mbedtls_md_context_t :=
  match md_info with
  | None => Err MBEDTLS_ERR_MD_BAD_INPUT_DATA
  | Some info =>
      match digest_of (type info) with
      | None => Err MBEDTLS_ERR_MD_BAD_INPUT_DATA
      | Some D =>
          let zeros := repeat 0 (Z.to_nat (block_size info)) in
          Ok (Some (mkReady info D (d_init D) (if hmac then Some (zeros, zeros) else None)))
      end
  end.

Definition mbedtls_md_starts (c : mbedtls_md_context_t) : result mbedtls_md_context_t :=
  match c with
  | None => Err MBEDTLS_ERR_MD_BAD_INPUT_DATA
  | Some (mkReady info D ctx hmac) => Ok (Some (mkReady info D (d_starts D ctx) hmac))
  end.

Definition mbedtls_md_update (c : mbedtls_md_context_t) (input : bytes) : result mbedtls_md_context_t :=
  match c with
  | None => Err MBEDTLS_ERR_MD_BAD_INPUT_DATA
  | Some (mkReady info D ctx hmac) => Ok (Some (mkReady info D (d_update D ctx input) hmac))
  end.

Definition mbedtls_md_finish (c : mbedtls_md_context_t) : result (bytes * mbedtls_md_context_t) :=
  match c with
  | None => Err MBEDTLS_ERR_MD_BAD_INPUT_DATA
  | Some (mkReady info D ctx hmac) =>
      let '(out, ctx) := d_finish D ctx in Ok (out, Some (mkReady info D ctx hmac))
  end.

Definition mbedtls_md (md_info : option mbedtls_md_info_t) (input : bytes) : result bytes :=
  match md_info with
  | None => Err MBEDTLS_ERR_MD_BAD_INPUT_DATA
  | Some info =>
      match digest_of (type info) with
      | None => Err MBEDTLS_ERR_MD_BAD_INPUT_DATA
      | Some D => Ok (d_oneshot D input)
      end
  end.

Definition mbedtls_md_get_size (md_info : option mbedtls_md_info_t) : Z := match md_info with None => 0 | Some i => size i end.
Definition mbedtls_md_get_type (md_info : option mbedtls_md_info_t) : md_type :=
  match md_info with None => MBEDTLS_MD_NONE | Some i => type i end.
Definition mbedtls_md_get_name (md_info : option mbedtls_md_info_t) : option bytes := name <$> md_info.

(** The copy of [md_ctx]; [hmac_ctx] stays as it was. *)
Definition mbedtls_md_clone (dst src : mbedtls_md_context_t) : result mbedtls_md_context_t :=
  match dst, src with
  | Some d, Some s =>
      if decide (type (md_info d) = type (md_info s))
      then Ok (Some (mkReady (md_info d) (digest s) (md_ctx s) (hmac_ctx d)))
      else Err MBEDTLS_ERR_MD_BAD_INPUT_DATA
  | _, _ => Err MBEDTLS_ERR_MD_BAD_INPUT_DATA
  end.

(** ** HMAC *)

(** [memset(pad, byte, block)] and the loop that xors the key into it. *)
Fixpoint xor_key (pad key : bytes) : bytes :=
  match pad, key with
  | p :: pad, k :: key => u8 (Z.lxor p k) :: xor_key pad key
  | _, _ => pad
  end.

Definition mbedtls_md_hmac_starts (c : mbedtls_md_context_t) (key : bytes) : result mbedtls_md_context_t :=
  match c with
  | None | Some (mkReady _ _ _ None) => Err MBEDTLS_ERR_MD_BAD_INPUT_DATA
  | Some (mkReady info D ctx (Some _)) =>
      '(key, ctx) ← (if block_size info <? zlen key then
                       c ← mbedtls_md_starts c;
                       c ← mbedtls_md_update c key;
                       '(sum, c) ← mbedtls_md_finish c;
                       Ok (take (Z.to_nat (size info)) sum, c)
                     else Ok (key, c));
      match ctx with
      | None => Err MBEDTLS_ERR_MD_BAD_INPUT_DATA
      | Some (mkReady info D ctx _) =>
          let block := Z.to_nat (block_size info) in
          let ipad := xor_key (repeat 0x36 block) key in
          let opad := xor_key (repeat 0x5C block) key in
          c ← mbedtls_md_starts (Some (mkReady info D ctx (Some (ipad, opad))));
          mbedtls_md_update c ipad
      end
  end.

Definition mbedtls_md_hmac_update (c : mbedtls_md_context_t) (input : bytes) : result mbedtls_md_context_t :=
  match c with
  | None | Some (mkReady _ _ _ None) => Err MBEDTLS_ERR_MD_BAD_INPUT_DATA
  | Some (mkReady _ _ _ (Some _)) => mbedtls_md_update c input
  end.

Definition mbedtls_md_hmac_finish (c : mbedtls_md_context_t) : result (bytes * mbedtls_md_context_t) :=
  match c with
  | None | Some (mkReady _ _ _ None) => Err MBEDTLS_ERR_MD_BAD_INPUT_DATA
  | Some (mkReady info _ _ (Some (_, opad))) =>
      '(tmp, c) ← mbedtls_md_finish c;
      c ← mbedtls_md_starts c;
      c ← mbedtls_md_update c opad;
      c ← mbedtls_md_update c (take (Z.to_nat (size info)) tmp);
      mbedtls_md_finish c
  end.

Definition mbedtls_md_hmac_reset (c : mbedtls_md_context_t) : result mbedtls_md_context_t :=
  match c with
  | None | Some (mkReady _ _ _ None) => Err MBEDTLS_ERR_MD_BAD_INPUT_DATA
  | Some (mkReady _ _ _ (Some (ipad, _))) => c ← mbedtls_md_starts c; mbedtls_md_update c ipad
  end.

Definition mbedtls_md_hmac (md_info : option mbedtls_md_info_t) (key input : bytes) : result bytes :=
  match md_info with
  | None => Err MBEDTLS_ERR_MD_BAD_INPUT_DATA
  | Some _ =>
      c ← mbedtls_md_setup md_info true;
      c ← mbedtls_md_hmac_starts c key;
      c ← mbedtls_md_hmac_update c input;
      '(out, _) ← mbedtls_md_hmac_finish c;
      Ok out
  end.

(** ** What a digest promises *)

Definition small (p : bytes) : Prop := zlen p < 2 ^ 32.

(** A context that was initialised, or whose digest was printed, hashes the next
    message, in any pieces, and can be used again. *)
Class DigestLaws (D : Digest) (hash : bytes -> bytes) (n : nat) := {
  d_ok : dctx D -> Prop;
  init_ok : d_ok (d_init D);
  stream_ok : forall c chunks, d_ok c -> Forall small chunks ->
    let r := d_finish D (fold_left (d_update D) chunks (d_starts D c)) in
    fst r = hash (concat chunks) /\ d_ok (snd r);
  oneshot_ok : forall msg, small msg -> d_oneshot D msg = hash msg;
  hash_length : forall msg, length (hash msg) = n;
  hash_bytes : forall msg, bytes_ok (hash msg);
}.

(** The printed words. *)
Lemma put32_be_ok z : bytes_ok (MBEDTLS_PUT_UINT32_BE z).
Proof. rewrite put32_be. apply be_bytes_ok. Qed.
Lemma put32_le_ok z : bytes_ok (MBEDTLS_PUT_UINT32_LE z).
Proof. rewrite put32_le. apply le_bytes_ok. Qed.
Lemma put64_be_ok z : bytes_ok (MBEDTLS_PUT_UINT64_BE z).
Proof. rewrite put64_be. apply be_bytes_ok. Qed.

Ltac printed_words :=
  repeat (apply Forall_app; split); first [apply put32_be_ok|apply put32_le_ok|apply put64_be_ok|apply List.Forall_nil].

(** The context after the end keeps its buffer. *)
Lemma finished_buffer {S} {algo : HashAlgo S} {laws : @HashLaws S algo} init buf chunks :
  length buf = HashStream.block_size -> Forall (fun c : bytes => zlen c < 2 ^ count_bits) chunks ->
  length (buffer (hash_finish_ctx (fold_left hash_update chunks (hash_starts init buf)))) = HashStream.block_size /\
  length (buffer (hash_finish_updates_ctx (fold_left hash_update chunks (hash_starts init buf)))) = HashStream.block_size.
Proof.
  intros Hb Hc. pose proof (updates_represent init buf chunks Hb Hc) as R.
  split; [apply (finish_ctx_spec _ _ _ R)|apply (finish_updates_ctx_spec _ _ _ R)].
Qed.

#[export] Instance md5_digest_laws : DigestLaws md5_digest Md5.rfc_md5 16.
Proof.
  refine (Build_DigestLaws md5_digest _ _ (fun c => length (buffer c) = 64%nat) eq_refl _ _ _ _).
  - intros c chunks Hc Hs. split; [exact (Md5.md5_streaming_correct c chunks Hc Hs)|].
    exact (proj1 (@finished_buffer _ Md5.md5_algo Md5.md5_laws initial4 (buffer c) chunks Hc Hs)).
  - intros msg Hm. rewrite <- (app_nil_r msg) at 2.
    exact (Md5.md5_streaming_correct Md5.mbedtls_md5_init [msg] eq_refl ltac:(by repeat constructor)).
  - intros msg. unfold Md5.rfc_md5, output4. by destruct (hash_spec _ _) as [[[? ?] ?] ?].
  - intros msg. unfold Md5.rfc_md5, output4. destruct (hash_spec _ _) as [[[? ?] ?] ?]. printed_words.
Qed.

#[export] Instance sha1_digest_laws : DigestLaws sha1_digest Sha1.fips_sha1 20.
Proof.
  refine (Build_DigestLaws sha1_digest _ _ (fun c => length (buffer c) = 64%nat) eq_refl _ _ _ _).
  - intros c chunks Hc Hs. split; [exact (Sha1.sha1_streaming_correct c chunks Hc Hs)|].
    exact (proj1 (@finished_buffer _ Sha1.sha1_algo Sha1.sha1_laws Sha1.initial_state (buffer c) chunks Hc Hs)).
  - intros msg Hm. rewrite <- (app_nil_r msg) at 2.
    exact (Sha1.sha1_streaming_correct Sha1.mbedtls_sha1_init [msg] eq_refl ltac:(by repeat constructor)).
  - intros msg. unfold Sha1.fips_sha1, Sha1.output. by destruct (hash_spec _ _) as [[[[? ?] ?] ?] ?].
  - intros msg. unfold Sha1.fips_sha1, Sha1.output. destruct (hash_spec _ _) as [[[[? ?] ?] ?] ?]. printed_words.
Qed.

#[export] Instance ripemd160_digest_laws : DigestLaws ripemd160_digest Ripemd160.ripemd160_spec 20.
Proof.
  refine (Build_DigestLaws ripemd160_digest _ _ (fun c => length (buffer c) = 64%nat) eq_refl _ _ _ _).
  - intros c chunks Hc Hs. split; [exact (Ripemd160.ripemd160_streaming_correct c chunks Hc Hs)|].
    exact (proj2 (@finished_buffer _ Ripemd160.ripemd160_algo Ripemd160.ripemd160_laws Ripemd160.initial_state (buffer c) chunks Hc Hs)).
  - intros msg Hm. rewrite <- (app_nil_r msg) at 2.
    exact (Ripemd160.ripemd160_streaming_correct Ripemd160.mbedtls_ripemd160_init [msg] eq_refl ltac:(by repeat constructor)).
  - intros msg. unfold Ripemd160.ripemd160_spec, Ripemd160.output. by destruct (hash_spec _ _) as [[[[? ?] ?] ?] ?].
  - intros msg. unfold Ripemd160.ripemd160_spec, Ripemd160.output. destruct (hash_spec _ _) as [[[[? ?] ?] ?] ?]. printed_words.
Qed.

#[export] Instance sha256_digest_laws variant :
  DigestLaws (sha256_digest variant) (fun msg => Sha256.fips_sha256 msg variant) (if variant =? 0 then 32 else 28).
Proof.
  refine (Build_DigestLaws (sha256_digest variant) _ _ (fun c => length (buffer (Sha256.ctx c)) = 64%nat) eq_refl _ _ _ _).
  - intros c chunks Hc Hs. split; [exact (Sha256.sha256_streaming_correct c variant chunks Hc Hs)|].
    cbn [snd sha256_digest d_finish d_starts d_update Sha256.ctx]. rewrite Sha256.sha256_updates_ctx.
    exact (proj1 (@finished_buffer _ Sha256.sha256_algo Sha256.sha256_laws (Sha256.initial_state variant) (buffer (Sha256.ctx c)) chunks Hc Hs)).
  - intros msg Hm. rewrite <- (app_nil_r msg) at 2.
    exact (Sha256.sha256_streaming_correct Sha256.mbedtls_sha256_init variant [msg] eq_refl ltac:(by repeat constructor)).
  - intros msg. unfold Sha256.fips_sha256, Sha256.output. destruct (hash_spec _ _) as [[[[[[[? ?] ?] ?] ?] ?] ?] ?].
    by destruct (variant =? 0).
  - intros msg. unfold Sha256.fips_sha256, Sha256.output. destruct (hash_spec _ _) as [[[[[[[? ?] ?] ?] ?] ?] ?] ?].
    destruct (variant =? 0); printed_words.
Qed.

#[export] Instance sha512_digest_laws variant :
  DigestLaws (sha512_digest variant) (fun msg => Sha512.fips_sha512 msg variant) (if variant =? 0 then 64 else 48).
Proof.
  assert (Big : forall chunks, Forall small chunks -> Forall (fun p : bytes => zlen p < 2 ^ 64) chunks).
  { intros chunks H. eapply Forall_impl; [exact H|]. unfold small. intros p Hp. lia. }
  refine (Build_DigestLaws (sha512_digest variant) _ _ (fun c => length (buffer (Sha512.ctx c)) = 128%nat) eq_refl _ _ _ _).
  - intros c chunks Hc Hs%Big. split; [exact (Sha512.sha512_streaming_correct c variant chunks Hc Hs)|].
    cbn [snd sha512_digest d_finish d_starts d_update Sha512.ctx]. rewrite Sha512.sha512_updates_ctx.
    exact (proj1 (@finished_buffer _ Sha512.sha512_algo Sha512.sha512_laws (Sha512.initial_state variant) (buffer (Sha512.ctx c)) chunks Hc Hs)).
  - intros msg Hm. rewrite <- (app_nil_r msg) at 2.
    exact (Sha512.sha512_streaming_correct Sha512.mbedtls_sha512_init variant [msg] eq_refl (Big [msg] ltac:(by repeat constructor))).
  - intros msg. unfold Sha512.fips_sha512, Sha512.output. destruct (hash_spec _ _) as [[[[[[[? ?] ?] ?] ?] ?] ?] ?].
    by destruct (variant =? 0).
  - intros msg. unfold Sha512.fips_sha512, Sha512.output. destruct (hash_spec _ _) as [[[[[[[? ?] ?] ?] ?] ?] ?] ?].
    destruct (variant =? 0); printed_words.
Qed.

(** ** HMAC by its definition (RFC 2104) *)

Definition hmac_spec (hash : bytes -> bytes) (block : nat) (key msg : bytes) : bytes :=
  let key := if (block <? length key)%nat then hash key else key in
  let key := key ++ repeat 0 (block - length key) in
  hash (map (fun b => Z.lxor b 0x5C) key ++ hash (map (fun b => Z.lxor b 0x36) key ++ msg)).

Lemma xor_key_map p n key :
  is_byte p -> bytes_ok key -> (length key <= n)%nat ->
  xor_key (repeat p n) key = map (fun b => Z.lxor b p) (key ++ repeat 0 (n - length key)).
Proof.
  intros Hp Hk. revert n. induction Hk as [|k key Hk0 _ IH]; intros n Hn.
  - rewrite Nat.sub_0_r. cbn [app]. clear. induction n as [|n IH]; [done|]. cbn [repeat xor_key map]. f_equal.
    cbn [length] in *. rewrite <- IH. by destruct (repeat p n).
  - destruct n as [|n]; [cbn [length] in Hn; lia|]. cbn [repeat xor_key app map length Nat.sub]. f_equal.
    + rewrite Z.lxor_comm. apply u8_small, lxor_byte; assumption.
    + apply IH. cbn [length] in Hn. lia.
Qed.

Section Hmac.
Context (info : mbedtls_md_info_t) (D : Digest) (hash : bytes -> bytes) (n : nat) {laws : DigestLaws D hash n}.
Hypothesis Hsize : size info = Z.of_nat n.
Hypothesis Hblock : Z.of_nat n <= block_size info < 2 ^ 32.

Abbreviation block := (Z.to_nat (block_size info)).

(** A context set up for HMAC in which no message is being hashed. *)
Definition idle (c : mbedtls_md_context_t) : Prop :=
  exists ctx pads, d_ok ctx /\ c = Some (mkReady info D ctx (Some pads)).

Definition inner_pad (key : bytes) : bytes :=
  xor_key (repeat 0x36 block) (if (block <? length key)%nat then hash key else key).
Definition outer_pad (key : bytes) : bytes :=
  xor_key (repeat 0x5C block) (if (block <? length key)%nat then hash key else key).

(** The key is in place and the pieces were read; or nothing after the end of
    a message. *)
Definition keyed (key : bytes) (chunks : list bytes) (c : mbedtls_md_context_t) : Prop :=
  exists ctx, d_ok ctx /\
    c = Some (mkReady info D (fold_left (d_update D) (inner_pad key :: chunks) (d_starts D ctx)) (Some (inner_pad key, outer_pad key))).

Definition ended (key : bytes) (c : mbedtls_md_context_t) : Prop :=
  exists ctx, d_ok ctx /\ c = Some (mkReady info D ctx (Some (inner_pad key, outer_pad key))).

Lemma ended_idle key c : ended key c -> idle c.
Proof. intros (ctx & H & ->). by exists ctx, (inner_pad key, outer_pad key). Qed.

Lemma one_piece ctx msg : d_ok ctx -> small msg ->
  let r := d_finish D (d_update D (d_starts D ctx) msg) in fst r = hash msg /\ d_ok (snd r).
Proof.
  intros Hc Hm. pose proof (stream_ok ctx [msg] Hc ltac:(by repeat constructor)) as H. cbn [fold_left concat] in H.
  by rewrite app_nil_r in H.
Qed.

Lemma take_hash msg : take (Z.to_nat (size info)) (hash msg) = hash msg.
Proof using Hsize laws. rewrite Hsize, Nat2Z.id. apply take_ge. rewrite hash_length. lia. Qed.

Lemma hmac_starts_keyed c key :
  idle c -> small key -> exists c', mbedtls_md_hmac_starts c key = Ok c' /\ keyed key [] c'.
Proof using All.
  intros (ctx & pads & Hc & ->) Hk. unfold mbedtls_md_hmac_starts.
  assert (Hlt : (block_size info <? zlen key) = (block <? length key)%nat).
  { destruct (Nat.ltb_spec block (length key)); [apply Z.ltb_lt|apply Z.ltb_ge]; lia. }
  rewrite Hlt. unfold keyed, inner_pad, outer_pad. destruct (block <? length key)%nat.
  - cbn [mbedtls_md_starts mbedtls_md_update mbedtls_md_finish mbind result_bind].
    destruct (one_piece ctx key Hc Hk) as [Ho Hok]. destruct (d_finish D _) as [sum ctx']. cbn [fst snd] in Ho, Hok. subst sum.
    cbn [mbind result_bind]. rewrite take_hash. eexists. split; [reflexivity|]. by exists ctx'.
  - cbn [mbind result_bind mbedtls_md_starts mbedtls_md_update]. eexists. split; [reflexivity|]. by exists ctx.
Qed.

Lemma hmac_update_keyed key chunks c msg :
  keyed key chunks c -> exists c', mbedtls_md_hmac_update c msg = Ok c' /\ keyed key (chunks ++ [msg]) c'.
Proof.
  intros (ctx & Hc & ->). eexists. split; [reflexivity|]. exists ctx. split; [exact Hc|].
  rewrite app_comm_cons, fold_left_app. reflexivity.
Qed.

Lemma key_used key : bytes_ok key -> bytes_ok (if (block <? length key)%nat then hash key else key) /\
  (length (if (block <? length key)%nat then hash key else key) <= block)%nat.
Proof using All.
  intros Hk. destruct (Nat.ltb_spec block (length key)); [|done]. split; [apply hash_bytes|]. rewrite hash_length. lia.
Qed.

Lemma pads_map key : bytes_ok key ->
  let k := if (block <? length key)%nat then hash key else key in
  inner_pad key = map (fun b => Z.lxor b 0x36) (k ++ repeat 0 (block - length k)) /\
  outer_pad key = map (fun b => Z.lxor b 0x5C) (k ++ repeat 0 (block - length k)) /\
  small (inner_pad key) /\ small (outer_pad key).
Proof using All.
  intros Hk k. destruct (key_used key Hk) as [Hb Hl]. fold k in Hb, Hl. unfold inner_pad, outer_pad. fold k.
  rewrite !xor_key_map by (first [assumption|unfold is_byte; lia]). split_and!; [done..| |];
    unfold small; rewrite length_map, length_app, repeat_length; lia.
Qed.

Lemma hmac_finish_keyed key chunks c :
  keyed key chunks c -> bytes_ok key -> Forall small chunks ->
  exists c', mbedtls_md_hmac_finish c = Ok (hmac_spec hash block key (concat chunks), c') /\ ended key c'.
Proof using All.
  intros (ctx & Hc & ->) Hk Hs. destruct (pads_map key Hk) as (Ei & Eo & Si & So).
  cbn [mbedtls_md_hmac_finish mbedtls_md_finish].
  destruct (stream_ok ctx (inner_pad key :: chunks) Hc ltac:(by constructor)) as [Ho Hok]. cbv zeta in Ho, Hok.
  destruct (d_finish D (fold_left _ _ _)) as [tmp ctx']. cbn [fst snd] in Ho, Hok. subst tmp.
  cbn [mbind result_bind mbedtls_md_starts mbedtls_md_update mbedtls_md_finish]. rewrite take_hash.
  destruct (stream_ok ctx' [outer_pad key; hash (concat (inner_pad key :: chunks))] Hok) as [Ho Hok'].
  { constructor; [exact So|]. constructor; [|constructor]. unfold small. rewrite hash_length. lia. }
  cbv zeta in Ho, Hok'. cbn [fold_left] in Ho, Hok'.
  destruct (d_finish D _) as [out ctx'']. cbn [fst snd] in Ho, Hok'. subst out. cbn [concat].
  eexists. split; [|by exists ctx'']. rewrite app_nil_r, Ei, Eo. reflexivity.
Qed.

Lemma hmac_reset_keyed key c : ended key c -> exists c', mbedtls_md_hmac_reset c = Ok c' /\ keyed key [] c'.
Proof. intros (ctx & Hc & ->). eexists. split; [reflexivity|]. by exists ctx. Qed.
End Hmac.

(** ** The digests of the library *)

Definition hash_of (t : md_type) : bytes -> bytes :=
  match t with
  | MBEDTLS_MD_MD5 => Md5.rfc_md5
  | MBEDTLS_MD_RIPEMD160 => Ripemd160.ripemd160_spec
  | MBEDTLS_MD_SHA1 => Sha1.fips_sha1
  | MBEDTLS_MD_SHA224 => fun msg => Sha256.fips_sha256 msg 1
  | MBEDTLS_MD_SHA256 => fun msg => Sha256.fips_sha256 msg 0
  | MBEDTLS_MD_SHA384 => fun msg => Sha512.fips_sha512 msg 1
  | MBEDTLS_MD_SHA512 => fun msg => Sha512.fips_sha512 msg 0
  | _ => fun _ => []
  end.

(** What every entry of the table satisfies. *)
Record Supported (t : md_type) (info : mbedtls_md_info_t) (D : Digest) : Type := mkSupported {
  its_type : type info = t;
  its_digest : digest_of t = Some D;
  its_laws : DigestLaws D (hash_of t) (Z.to_nat (size info));
  its_size : size info = Z.of_nat (Z.to_nat (size info));
  its_block : Z.of_nat (Z.to_nat (size info)) <= block_size info < 2 ^ 32;
  its_sizes : 16 <= size info <= 64;
}.

Lemma supported t info : mbedtls_md_info_from_type t = Some info -> { D & Supported t info D }.
Proof.
  destruct t; cbn; try discriminate; intros [= <-];
    [exists md5_digest|exists sha1_digest|exists (sha256_digest 1)|exists (sha256_digest 0)|exists (sha512_digest 1)
    |exists (sha512_digest 0)|exists ripemd160_digest];
    constructor; try reflexivity; try (cbn; lia).
  - exact md5_digest_laws.
  - exact sha1_digest_laws.
  - exact (sha256_digest_laws 1).
  - exact (sha256_digest_laws 0).
  - exact (sha512_digest_laws 1).
  - exact (sha512_digest_laws 0).
  - exact ripemd160_digest_laws.
Qed.

(** ** Courses of calls *)

Fixpoint md_updates (c : mbedtls_md_context_t) (chunks : list bytes) : result mbedtls_md_context_t :=
  match chunks with
  | [] => Ok c
  | p :: chunks => c ← mbedtls_md_update c p; md_updates c chunks
  end.

(** Several messages with one context. *)
Fixpoint hash_messages (c : mbedtls_md_context_t) (msgs : list (list bytes)) : result (list bytes) :=
  match msgs with
  | [] => Ok []
  | chunks :: msgs =>
      c ← mbedtls_md_starts c;
      c ← md_updates c chunks;
      '(out, c) ← mbedtls_md_finish c;
      outs ← hash_messages c msgs;
      Ok (out :: outs)
  end.

Fixpoint hmac_updates (c : mbedtls_md_context_t) (chunks : list bytes) : result mbedtls_md_context_t :=
  match chunks with
  | [] => Ok c
  | p :: chunks => c ← mbedtls_md_hmac_update c p; hmac_updates c chunks
  end.

(** Several messages under one key, with a reset after each. *)
Fixpoint hmac_messages (c : mbedtls_md_context_t) (msgs : list (list bytes)) : result (list bytes) :=
  match msgs with
  | [] => Ok []
  | chunks :: msgs =>
      c ← hmac_updates c chunks;
      '(out, c) ← mbedtls_md_hmac_finish c;
      c ← mbedtls_md_hmac_reset c;
      outs ← hmac_messages c msgs;
      Ok (out :: outs)
  end.

Definition hmac_session (c : mbedtls_md_context_t) (key : bytes) (msgs : list (list bytes)) : result (list bytes) :=
  c ← mbedtls_md_hmac_starts c key; hmac_messages c msgs.

Lemma md_updates_fold info D ctx pads chunks :
  md_updates (Some (mkReady info D ctx pads)) chunks = Ok (Some (mkReady info D (fold_left (d_update D) chunks ctx) pads)).
Proof. revert ctx. induction chunks as [|p chunks IH]; intros ctx; [done|]. apply IH. Qed.

Lemma hash_messages_eq info D hash n (laws : DigestLaws D hash n) pads msgs : forall ctx,
  d_ok ctx -> Forall (Forall small) msgs ->
  hash_messages (Some (mkReady info D ctx pads)) msgs = Ok (map (fun chunks => hash (concat chunks)) msgs).
Proof.
  induction msgs as [|chunks msgs IH]; intros ctx Hc Hm; [done|]. apply Forall_cons in Hm as [Hs Hm].
  cbn [hash_messages mbedtls_md_starts mbind result_bind]. rewrite md_updates_fold. cbn [mbind result_bind mbedtls_md_finish].
  destruct (stream_ok ctx chunks Hc Hs) as [Ho Hok]. cbv zeta in Ho, Hok.
  destruct (d_finish D _) as [out ctx']. cbn [fst snd] in Ho, Hok. subst out. cbn [mbind result_bind].
  rewrite (IH ctx' Hok Hm). reflexivity.
Qed.

Section Session.
Context (info : mbedtls_md_info_t) (D : Digest) (hash : bytes -> bytes) (n : nat) {laws : DigestLaws D hash n}.
Hypothesis Hsize : size info = Z.of_nat n.
Hypothesis Hblock : Z.of_nat n <= block_size info < 2 ^ 32.

Lemma hmac_updates_keyed key chunks : forall old c,
  keyed info D hash n key old c -> exists c', hmac_updates c chunks = Ok c' /\ keyed info D hash n key (old ++ chunks) c'.
Proof using All.
  induction chunks as [|p chunks IH]; intros old c H; [exists c; by rewrite app_nil_r|].
  destruct (hmac_update_keyed info D hash n key old c p H) as (c1 & E & H1). cbn [hmac_updates]. rewrite E.
  destruct (IH _ _ H1) as (c2 & E2 & H2). exists c2. split; [exact E2|]. by rewrite <- app_assoc in H2.
Qed.

Lemma hmac_messages_eq key msgs : forall c,
  bytes_ok key -> Forall (Forall small) msgs -> keyed info D hash n key [] c ->
  hmac_messages c msgs = Ok (map (fun chunks => hmac_spec hash (Z.to_nat (block_size info)) key (concat chunks)) msgs).
Proof using All.
  induction msgs as [|chunks msgs IH]; intros c Hk Hm H; [done|]. apply Forall_cons in Hm as [Hs Hm]. cbn [hmac_messages].
  destruct (hmac_updates_keyed key chunks [] c H) as (c1 & -> & H1). cbn [mbind result_bind app] in *.
  destruct (hmac_finish_keyed info D hash n Hsize Hblock key chunks c1 H1 Hk Hs) as (c2 & -> & H2). cbn [mbind result_bind].
  destruct (hmac_reset_keyed info D hash n key c2 H2) as (c3 & -> & H3). cbn [mbind result_bind].
  rewrite (IH c3 Hk Hm H3). reflexivity.
Qed.

Lemma hmac_session_eq key msgs c :
  idle info D hash n c -> bytes_ok key -> small key -> Forall (Forall small) msgs ->
  hmac_session c key msgs = Ok (map (fun chunks => hmac_spec hash (Z.to_nat (block_size info)) key (concat chunks)) msgs).
Proof using All.
  intros Hi Hk Hs Hm. unfold hmac_session.
  destruct (hmac_starts_keyed info D hash n Hsize Hblock c key Hi Hs) as (c1 & -> & H1). cbn [mbind result_bind].
  by apply hmac_messages_eq.
Qed.
End Session.

(** ** Properties *)

(** With the generic interface, messages hashed one after the other in one
    context, each in pieces of any sizes below 2^32, give the hashes of their
    standards (FIPS 180-4, RFC 1321, RIPEMD-160); so does the one-shot call.  A
    digest the configuration leaves out is refused. *)
Theorem md_correct t hmac :
  match mbedtls_md_info_from_type t with
  | Some info =>
      (forall msgs, Forall (Forall small) msgs ->
       (c ← mbedtls_md_setup (Some info) hmac; hash_messages c msgs) = Ok (map (fun chunks => hash_of t (concat chunks)) msgs)) /\
      (forall msg, small msg -> mbedtls_md (Some info) msg = Ok (hash_of t msg) /\ length (hash_of t msg) = Z.to_nat (size info))
  | None => digest_of t = None
  end.
Proof.
  destruct (mbedtls_md_info_from_type t) as [info|] eqn:E; [|by destruct t].
  destruct (supported t info E) as (D & [Ht Hd Hl _ _ _]). unfold mbedtls_md_setup, mbedtls_md. rewrite Ht, Hd. split.
  - intros msgs Hm. cbn [mbind result_bind]. by apply (hash_messages_eq info D _ _ Hl _ msgs _ init_ok).
  - intros msg Hm. split; [f_equal; by apply oneshot_ok|apply hash_length].
Qed.

(** C21. The HMAC functions compute the HMAC of RFC 2104: for every digest, every
    key below 2^32 bytes (longer than a block included) and every sequence of
    messages in pieces with a reset in between; so does the one-shot call.
    Without an HMAC context they refuse. *)
Theorem hmac_correct t info key :
  mbedtls_md_info_from_type t = Some info -> bytes_ok key -> small key ->
  let hmac := hmac_spec (hash_of t) (Z.to_nat (block_size info)) key in
  (forall msgs, Forall (Forall small) msgs ->
   (c ← mbedtls_md_setup (Some info) true; hmac_session c key msgs) = Ok (map (fun chunks => hmac (concat chunks)) msgs)) /\
  (forall msg, small msg -> mbedtls_md_hmac (Some info) key msg = Ok (hmac msg)) /\
  (forall msgs, (c ← mbedtls_md_setup (Some info) false; hmac_session c key msgs) = Err MBEDTLS_ERR_MD_BAD_INPUT_DATA).
Proof.
  intros E Hk Hs hmac. destruct (supported t info E) as (D & [Ht Hd Hl Hn Hb _]). unfold mbedtls_md_hmac, mbedtls_md_setup.
  rewrite Ht, Hd. cbn [mbind result_bind].
  assert (Hi : idle info D (hash_of t) (Z.to_nat (size info))
            (Some (mkReady info D (d_init D) (Some (repeat 0 (Z.to_nat (block_size info)), repeat 0 (Z.to_nat (block_size info))))))).
  { eexists _, _. split; [apply init_ok|reflexivity]. }
  split; [|split; [|done]].
  - intros msgs Hm. by apply (hmac_session_eq info D _ _ Hn Hb).
  - intros msg Hm. destruct (hmac_starts_keyed info D _ _ Hn Hb _ key Hi Hs) as (c1 & -> & H1). cbn [mbind result_bind].
    destruct (hmac_update_keyed info D _ _ key [] c1 msg H1) as (c2 & -> & H2). cbn [mbind result_bind app] in *.
    destruct (hmac_finish_keyed info D _ _ Hn Hb key [msg] c2 H2 Hk ltac:(by repeat constructor)) as (c3 & -> & _).
    cbn [mbind result_bind concat]. by rewrite app_nil_r.
Qed.

Lemma md_correct_witness :
  (c ← mbedtls_md_setup (Some mbedtls_sha1_info) false; hash_messages c [[str "a"; str "bc"]; []]) =
    Ok [Sha1.fips_sha1 (str "abc"); Sha1.fips_sha1 []] /\
  Sha1.fips_sha1 (str "abc") = [169; 153; 62; 54; 71; 6; 129; 106; 186; 62; 37; 113; 120; 80; 194; 108; 156; 208; 216; 157].
Proof.
  split; [|vm_compute; reflexivity].
  pose proof (md_correct MBEDTLS_MD_SHA1 false) as H. cbn [mbedtls_md_info_from_type] in H. destruct H as [H _].
  rewrite H by (by repeat constructor). cbn [map hash_of concat]. do 2 f_equal.
Defined.

(** Test case 1 of RFC 2202, and the same message again after a reset. *)
Lemma hmac_correct_witness :
  let key := repeat 0x0b 16 in
  let mac := [146; 148; 114; 122; 54; 56; 187; 28; 19; 244; 142; 248; 21; 139; 252; 157] in
  (c ← mbedtls_md_setup (Some mbedtls_md5_info) true; hmac_session c key [[str "Hi "; str "There"]; [str "Hi There"]]) = Ok [mac; mac].
Proof.
  cbv zeta.
  rewrite (proj1 (hmac_correct MBEDTLS_MD_MD5 mbedtls_md5_info (repeat 0x0b 16) eq_refl ltac:(bytes_ok_closed) ltac:(reflexivity))
    [[str "Hi "; str "There"]; [str "Hi There"]]) by (by repeat constructor).
  vm_compute. reflexivity.
Defined.
End Md.
