(* ===== verification/Kdf.v ===== *)
(** Key derivation from HMAC: HKDF (mbedtls/library/hkdf.c) and PBKDF2
    (mbedtls/library/pkcs5.c, [mbedtls_pkcs5_pbkdf2_hmac]).  With every digest of
    the library they compute the keys of RFC 5869 and RFC 8018, for every length
    of key; HKDF refuses a key of more than 255 blocks. *)
From S2P Require Import Prelude Words Md.
From stdpp Require Import list.
#[local] Open Scope Z_scope.

Module Kdf.
Import Md.

(** ** HKDF *)

Definition MBEDTLS_ERR_HKDF_BAD_INPUT_DATA : Z := -0x5F80.

(** The pair [salt], [salt_len]: a null pointer may come with any length. *)
Inductive Salt := NullSalt (salt_len : Z) | SaltBytes (salt : bytes).

Definition mbedtls_hkdf_extract (md : option mbedtls_md_info_t) (salt : Salt) (ikm : bytes) : result bytes :=
  match salt with
  | NullSalt salt_len =>
      if negb (salt_len =? 0) then Err MBEDTLS_ERR_HKDF_BAD_INPUT_DATA
      else
        let hash_len := mbedtls_md_get_size md in
        if hash_len =? 0 then Err MBEDTLS_ERR_HKDF_BAD_INPUT_DATA
        else mbedtls_md_hmac md (repeat 0 (Z.to_nat hash_len)) ikm
  | SaltBytes salt => mbedtls_md_hmac md salt ikm
  end.

(** The loop from [i] on, [todo] turns before [i] exceeds [n]; [t] is the first
    [t_len] bytes of the buffer, [okm] what was written ([where] bytes but for
    the last turn). *)
Fixpoint expand_loop (todo : nat) (i n hash_len okm_len : Z) (prk info : bytes) (ctx : mbedtls_md_context_t) (t okm : bytes)
    : result bytes :=
  match todo with
  | O => Ok okm
  | S todo =>
      let c := Z.land i 0xff in
      ctx ← mbedtls_md_hmac_starts ctx prk;
      ctx ← mbedtls_md_hmac_update ctx t;
      ctx ← mbedtls_md_hmac_update ctx info;
      ctx ← mbedtls_md_hmac_update ctx [c];
      '(t, ctx) ← mbedtls_md_hmac_finish ctx;
      let num_to_copy := if negb (i =? n) then hash_len else okm_len - zlen okm in
      expand_loop todo (i + 1) n hash_len okm_len prk info ctx t (okm ++ take (Z.to_nat num_to_copy) t)
  end.

(** [okm] is [None] for a null pointer, else its length. *)
Definition mbedtls_hkdf_expand (md : option mbedtls_md_info_t) (prk : bytes) (info : option bytes) (okm : option Z) : result bytes :=
  match okm with
  | None => Err MBEDTLS_ERR_HKDF_BAD_INPUT_DATA
  | Some okm_len =>
      let hash_len := mbedtls_md_get_size md in
      if (zlen prk <? hash_len) || (hash_len =? 0) then Err MBEDTLS_ERR_HKDF_BAD_INPUT_DATA
      else
        let info := default [] info in
        let n := okm_len / hash_len in
        let n := if negb (okm_len mod hash_len =? 0) then n + 1 else n in
        if 255 <? n then Err MBEDTLS_ERR_HKDF_BAD_INPUT_DATA
        else
          ctx ← mbedtls_md_setup md true;
          expand_loop (Z.to_nat n) 1 n hash_len okm_len prk info ctx [] []
  end.

Definition mbedtls_hkdf (md : option mbedtls_md_info_t) (salt : Salt) (ikm : bytes) (info : option bytes) (okm : option Z) : result bytes :=
  prk ← mbedtls_hkdf_extract md salt ikm;
  mbedtls_hkdf_expand md (take (Z.to_nat (mbedtls_md_get_size md)) prk) info okm.

(** ** PBKDF2 *)

Fixpoint xor_into (work md1 : bytes) : bytes :=
  match work, md1 with
  | a :: work, b :: md1 => Z.lxor a b :: xor_into work md1
  | _, _ => work
  end.

(** The loop over the iterations, [todo] of them left. *)
Fixpoint iterate (todo : nat) (ctx : mbedtls_md_context_t) (md1 work : bytes) : result (mbedtls_md_context_t * bytes) :=
  match todo with
  | O => Ok (ctx, work)
  | S todo =>
      ctx ← mbedtls_md_hmac_update ctx md1;
      '(md1, ctx) ← mbedtls_md_hmac_finish ctx;
      ctx ← mbedtls_md_hmac_reset ctx;
      iterate todo ctx md1 (xor_into work md1)
  end.

(** The loop over the blocks; a turn takes at least a byte off [key_length]. *)
Fixpoint derive (fuel : nat) (ctx : mbedtls_md_context_t) (md_size : Z) (salt counter : bytes) (iteration_count key_length : Z)
    (output : bytes) : result bytes :=
  match fuel with
  | O => Ok output
  | S fuel =>
      if key_length =? 0 then Ok output
      else
        ctx ← mbedtls_md_hmac_update ctx salt;
        ctx ← mbedtls_md_hmac_update ctx counter;
        '(work, ctx) ← mbedtls_md_hmac_finish ctx;
        ctx ← mbedtls_md_hmac_reset ctx;
        let md1 := take (Z.to_nat md_size) work in
        '(ctx, work) ← iterate (Z.to_nat (iteration_count - 1)) ctx md1 work;
        let use_len := if key_length <? md_size then key_length else md_size in
        derive fuel ctx md_size salt (next_counter counter) iteration_count (u32 (key_length - use_len))
          (output ++ take (Z.to_nat use_len) work)
  end.

Definition mbedtls_pkcs5_pbkdf2_hmac (ctx : mbedtls_md_context_t) (password salt : bytes) (iteration_count key_length : Z) : result bytes :=
  let md_size := match ctx with Some r => mbedtls_md_get_size (Some (md_info r)) | None => 0 end in
  ctx ← mbedtls_md_hmac_starts ctx password;
  derive (Z.to_nat key_length) ctx md_size salt [0; 0; 0; 1] iteration_count key_length [].

(** ** The definitions of the standards *)

Section Standards.
Context (hmac : bytes -> bytes -> bytes) (hash_len : nat).

(** RFC 5869 *)
Fixpoint hkdf_T (prk info : bytes) (i : nat) : bytes :=
  match i with O => [] | S j => hmac prk (hkdf_T prk info j ++ info ++ [Z.of_nat i]) end.

Definition blocks (len : nat) : nat := (len + hash_len - 1) / hash_len.

Definition hkdf_spec (salt ikm info : bytes) (len : nat) : bytes :=
  take len (concat (map (hkdf_T (hmac salt ikm) info) (seq 1 (blocks len)))).

(** RFC 8018, section 5.2 *)
Fixpoint pbkdf2_U (password first : bytes) (j : nat) : bytes :=
  match j with O => first | S j => hmac password (pbkdf2_U password first j) end.

Definition pbkdf2_F (password salt : bytes) (count i : nat) : bytes :=
  let first := hmac password (salt ++ be_bytes 4 (Z.of_nat i)) in
  fold_left (fun acc j => zip_with Z.lxor acc (pbkdf2_U password first j)) (seq 1 (count - 1)) first.

Definition pbkdf2_spec (password salt : bytes) (count len : nat) : bytes :=
  take len (concat (map (pbkdf2_F password salt count) (seq 1 (blocks len)))).
End Standards.

(** ** The counter and the sum of PBKDF2 *)

Lemma xor_into_zip a b : length a = length b -> xor_into a b = zip_with Z.lxor a b.
Proof. revert b. induction a as [|x a IH]; intros [|y b] E; try done. cbn. f_equal. apply IH. by injection E. Qed.

(** ** HMAC as the loops use it *)

Section Derivation.
Context (info : mbedtls_md_info_t) (D : Digest) (hash : bytes -> bytes) (n : nat) {laws : DigestLaws D hash n}.
Hypothesis Hsize : size info = Z.of_nat n.
Hypothesis Hblock : Z.of_nat n <= block_size info < 2 ^ 32.
Hypothesis Hn : (0 < n)%nat.

Abbreviation hmac := (hmac_spec hash (Z.to_nat (block_size info))).

Lemma hmac_length key msg : length (hmac key msg) = n.
Proof using laws. exact (@hash_length D hash n laws _). Qed.

Lemma hmac_bytes key msg : bytes_ok (hmac key msg).
Proof using laws. exact (@hash_bytes D hash n laws _). Qed.

Lemma hmac_small key msg : small (hmac key msg).
Proof using All. unfold small. rewrite hmac_length. lia. Qed.

(** Two pieces and the end, under a key that is in place. *)
Lemma keyed_two key ctx a b :
  keyed info D hash n key [] ctx -> bytes_ok key -> small a -> small b ->
  exists ctx1 ctx2 ctx3, mbedtls_md_hmac_update ctx a = Ok ctx1 /\ mbedtls_md_hmac_update ctx1 b = Ok ctx2 /\
    mbedtls_md_hmac_finish ctx2 = Ok (hmac key (a ++ b), ctx3) /\ ended info D hash n key ctx3.
Proof using All.
  intros H Hk Ha Hb. destruct (hmac_update_keyed info D hash n key [] ctx a H) as (ctx1 & E1 & H1).
  destruct (hmac_update_keyed info D hash n key _ ctx1 b H1) as (ctx2 & E2 & H2).
  destruct (hmac_finish_keyed info D hash n Hsize Hblock key _ ctx2 H2 Hk ltac:(by repeat constructor)) as (ctx3 & E3 & H3).
  exists ctx1, ctx2, ctx3. cbn [concat app] in E3. rewrite app_nil_r in E3. done.
Qed.

Lemma keyed_one key ctx a :
  keyed info D hash n key [] ctx -> bytes_ok key -> small a ->
  exists ctx1 ctx2 ctx3, mbedtls_md_hmac_update ctx a = Ok ctx1 /\
    mbedtls_md_hmac_finish ctx1 = Ok (hmac key a, ctx2) /\ mbedtls_md_hmac_reset ctx2 = Ok ctx3 /\ keyed info D hash n key [] ctx3.
Proof using All.
  intros H Hk Ha. destruct (hmac_update_keyed info D hash n key [] ctx a H) as (ctx1 & E1 & H1).
  destruct (hmac_finish_keyed info D hash n Hsize Hblock key _ ctx1 H1 Hk ltac:(by repeat constructor)) as (ctx2 & E2 & H2).
  destruct (hmac_reset_keyed info D hash n key ctx2 H2) as (ctx3 & E3 & H3).
  exists ctx1, ctx2, ctx3. cbn [concat app] in E2. rewrite app_nil_r in E2. done.
Qed.

(** *** Blocks *)

Lemma blocks_bounds len :
  (len = 0 /\ blocks n len = 0 \/ 0 < len /\ 0 < blocks n len /\ (blocks n len - 1) * n < len <= blocks n len * n)%nat.
Proof using Hn.
  clear - Hn. unfold blocks. destruct (Nat.eq_dec len 0%nat) as [->|]; [left; split; [done|]; apply Nat.div_small; lia|right].
  pose proof (Nat.div_mod_eq (len + n - 1) n) as E. pose proof (Nat.mod_upper_bound (len + n - 1) n ltac:(lia)).
  destruct ((len + n - 1) / n)%nat; nia.
Qed.

Lemma blocks_of_quot len :
  (if negb (Z.of_nat len mod Z.of_nat n =? 0) then Z.of_nat len / Z.of_nat n + 1 else Z.of_nat len / Z.of_nat n) =
  Z.of_nat (blocks n len).
Proof using Hn.
  clear - Hn. unfold blocks. rewrite <- Nat2Z.inj_mod, <- Nat2Z.inj_div.
  pose proof (Nat.div_mod_eq len n) as E. pose proof (Nat.mod_upper_bound len n ltac:(lia)).
  set (q := (len / n)%nat) in *. set (r := (len mod n)%nat) in *. clearbody q r.
  destruct (Z.eqb_spec (Z.of_nat r) 0); cbn [negb].
  - f_equal. apply (Nat.div_unique _ _ _ (n - 1)); lia.
  - rewrite <- (Nat2Z.inj_add _ 1). f_equal. apply (Nat.div_unique _ _ _ (r - 1)); nia.
Qed.

Lemma blocks_le len : (blocks n len <= len)%nat.
Proof using Hn. pose proof (blocks_bounds len). clear - Hn H. nia. Qed.

Lemma concat_blocks (T : nat -> bytes) k : (forall i, (0 < i)%nat -> length (T i) = n) -> length (concat (map T (seq 1 k))) = (k * n)%nat.
Proof using Hn.
  intros HT. induction k as [|k IH]; [done|]. rewrite seq_S, map_app, concat_app, length_app, IH. cbn [map concat].
  rewrite app_nil_r, HT by lia. lia.
Qed.

(** *** HKDF *)

Lemma T_length prk inf i : (0 < i)%nat -> length (hkdf_T hmac prk inf i) = n.
Proof using laws. destruct i as [|i]; [intros H; inversion H|]. intros _. apply hmac_length. Qed.

Lemma expand_turn prk inf ctx k :
  idle info D hash n ctx -> bytes_ok prk -> small prk -> small inf -> Z.of_nat k < 255 ->
  exists c1 c2 c3 c4 c5, mbedtls_md_hmac_starts ctx prk = Ok c1 /\
    mbedtls_md_hmac_update c1 (hkdf_T hmac prk inf k) = Ok c2 /\ mbedtls_md_hmac_update c2 inf = Ok c3 /\
    mbedtls_md_hmac_update c3 [Z.land (Z.of_nat k + 1) 0xff] = Ok c4 /\
    mbedtls_md_hmac_finish c4 = Ok (hkdf_T hmac prk inf (S k), c5) /\ idle info D hash n c5.
Proof using All.
  intros Hi Hb Hs Hf Hk. destruct (hmac_starts_keyed info D hash n Hsize Hblock ctx prk Hi Hs) as (c1 & E1 & H1).
  destruct (hmac_update_keyed info D hash n prk [] c1 (hkdf_T hmac prk inf k) H1) as (c2 & E2 & H2).
  destruct (hmac_update_keyed info D hash n prk _ c2 inf H2) as (c3 & E3 & H3).
  destruct (hmac_update_keyed info D hash n prk _ c3 [Z.land (Z.of_nat k + 1) 0xff] H3) as (c4 & E4 & H4).
  assert (Ht : small (hkdf_T hmac prk inf k)) by (destruct k; [done|apply hmac_small]).
  destruct (hmac_finish_keyed info D hash n Hsize Hblock prk _ c4 H4 Hb) as (c5 & E5 & H5).
  { repeat (constructor; [first [exact Ht|exact Hf|done]|]). constructor. }
  exists c1, c2, c3, c4, c5. repeat (split; [done|]). split; [|by eapply ended_idle].
  rewrite E5. cbn [app concat hkdf_T]. change 0xff with (Z.ones 8). rewrite Z.land_ones, Z.mod_small by lia.
  do 4 f_equal. do 2 f_equal. lia.
Qed.

Lemma expand_loop_eq prk inf len N todo : forall k ctx,
  idle info D hash n ctx -> bytes_ok prk -> small prk -> small inf ->
  (N <= 255)%nat -> (k + todo = N)%nat -> (0 < todo)%nat -> ((N - 1) * n <= len <= N * n)%nat ->
  expand_loop todo (Z.of_nat k + 1) (Z.of_nat N) (Z.of_nat n) (Z.of_nat len) prk inf ctx (hkdf_T hmac prk inf k)
    (concat (map (hkdf_T hmac prk inf) (seq 1 k))) =
  Ok (take len (concat (map (hkdf_T hmac prk inf) (seq 1 N)))).
Proof using All.
  induction todo as [|todo IH]; intros k ctx Hi Hb Hs Hf HN Hk Htodo Hlen; [lia|].
  destruct (expand_turn prk inf ctx k Hi Hb Hs Hf ltac:(lia)) as (c1 & c2 & c3 & c4 & c5 & E1 & E2 & E3 & E4 & E5 & Hi').
  cbn [expand_loop]. rewrite E1. cbn [mbind result_bind]. rewrite E2. cbn [mbind result_bind]. rewrite E3. cbn [mbind result_bind].
  rewrite E4. cbn [mbind result_bind]. rewrite E5. cbn [mbind result_bind].
  pose proof (concat_blocks (hkdf_T hmac prk inf) k (T_length prk inf)) as Hl.
  pose proof (T_length prk inf (S k) ltac:(lia)) as HlT.
  assert (Es : concat (map (hkdf_T hmac prk inf) (seq 1 (S k))) =
               concat (map (hkdf_T hmac prk inf) (seq 1 k)) ++ hkdf_T hmac prk inf (S k)).
  { rewrite seq_S, map_app, concat_app. cbn [map concat]. by rewrite app_nil_r. }
  destruct (Z.eqb_spec (Z.of_nat k + 1) (Z.of_nat N)) as [EN|EN]; cbn [negb].
  - assert (todo = 0%nat) as -> by lia. cbn [expand_loop]. f_equal. replace N with (S k) by lia. rewrite Es, take_app.
    rewrite (take_ge (concat _)) by nia. f_equal. f_equal. rewrite Hl. nia.
  - rewrite Nat2Z.id, take_ge, <- Es by lia. replace (Z.of_nat k + 1 + 1) with (Z.of_nat (S k) + 1) by lia.
    apply IH; auto; lia.
Qed.

Lemma expand_spec c : mbedtls_md_setup (Some info) true = Ok c -> idle info D hash n c ->
  forall prk inf len, length prk = n -> bytes_ok prk -> small (default [] inf) ->
  mbedtls_hkdf_expand (Some info) (take (Z.to_nat (size info)) prk) inf (Some (Z.of_nat len)) =
  if decide (Z.of_nat len <= 255 * size info)
  then Ok (take len (concat (map (hkdf_T hmac prk (default [] inf)) (seq 1 (blocks n len)))))
  else Err MBEDTLS_ERR_HKDF_BAD_INPUT_DATA.
Proof using All.
  intros Ec Hi prk inf len Hl Hb Hf. unfold mbedtls_hkdf_expand. rewrite Hsize, Nat2Z.id, take_ge by lia.
  cbn [mbedtls_md_get_size]. rewrite Hsize. destruct (Z.ltb_spec (zlen prk) (Z.of_nat n)); [lia|].
  destruct (Z.eqb_spec (Z.of_nat n) 0); [lia|]. cbn [orb]. rewrite blocks_of_quot.
  pose proof (blocks_bounds len) as B. destruct (Z.ltb_spec 255 (Z.of_nat (blocks n len))); case_decide; [nia|done| |nia].
  rewrite Ec. cbn [mbind result_bind]. rewrite Nat2Z.id.
  destruct B as [[-> ->]|B]; [done|].
  apply (expand_loop_eq prk (default [] inf) len (blocks n len) (blocks n len) 0 c); try done; try lia.
  unfold small. lia.
Qed.

(** *** PBKDF2 *)

(** The partial sums of a block. *)
Definition pbkdf2_sum (password first : bytes) (k : nat) : bytes :=
  fold_left (fun acc j => zip_with Z.lxor acc (pbkdf2_U hmac password first j)) (seq 1 k) first.

Lemma U_length password first j : length first = n -> length (pbkdf2_U hmac password first j) = n.
Proof using laws. destruct j; [done|]. intros _. apply hmac_length. Qed.

Lemma sum_length password first k : length first = n -> length (pbkdf2_sum password first k) = n.
Proof using laws.
  intros H. induction k as [|k IH]; [done|]. unfold pbkdf2_sum in *. rewrite seq_S, fold_left_app. cbn [fold_left].
  rewrite length_zip_with, IH, U_length by done. apply Nat.min_id.
Qed.

Lemma iterate_eq password first todo : forall k ctx,
  keyed info D hash n password [] ctx -> bytes_ok password -> length first = n ->
  exists ctx', iterate todo ctx (pbkdf2_U hmac password first k) (pbkdf2_sum password first k) =
    Ok (ctx', pbkdf2_sum password first (k + todo)) /\ keyed info D hash n password [] ctx'.
Proof using All.
  induction todo as [|todo IH]; intros k ctx H Hp Hf; [exists ctx; by rewrite Nat.add_0_r|].
  assert (Hs : small (pbkdf2_U hmac password first k)) by (unfold small; rewrite U_length by done; lia).
  destruct (keyed_one password ctx _ H Hp Hs) as (c1 & c2 & c3 & E1 & E2 & E3 & H3).
  cbn [iterate]. rewrite E1. cbn [mbind result_bind]. rewrite E2. cbn [mbind result_bind]. rewrite E3. cbn [mbind result_bind].
  rewrite xor_into_zip by (rewrite sum_length by done; symmetry; apply hmac_length).
  destruct (IH (S k) c3 H3 Hp Hf) as (c4 & E4 & H4). exists c4. split; [|done].
  replace (k + S todo)%nat with (S k + todo)%nat by lia. rewrite <- E4. f_equal.
  unfold pbkdf2_sum. rewrite (seq_S k 1), fold_left_app. reflexivity.
Qed.

Lemma F_sum password salt count i :
  pbkdf2_F hmac password salt count i =
  pbkdf2_sum password (hmac password (salt ++ be_bytes 4 (Z.of_nat i))) (count - 1).
Proof using. reflexivity. Qed.

Lemma F_length password salt count i : length (pbkdf2_F hmac password salt count i) = n.
Proof using laws. rewrite F_sum. apply sum_length, hmac_length. Qed.

Lemma derive_eq password salt count len : forall fuel k ctx,
  keyed info D hash n password [] ctx -> bytes_ok password -> small salt -> Z.of_nat len < 2 ^ 32 ->
  (k <= blocks n len)%nat -> (blocks n len - k <= fuel)%nat ->
  derive fuel ctx (Z.of_nat n) salt (be_bytes 4 (Z.of_nat (k + 1))) (Z.of_nat count) (Z.of_nat (len - k * n))
    (take len (concat (map (pbkdf2_F hmac password salt count) (seq 1 k)))) =
  Ok (pbkdf2_spec hmac n password salt count len).
Proof using All.
  pose proof (blocks_bounds len) as B. unfold pbkdf2_spec. set (N := blocks n len) in *. set (F := pbkdf2_F hmac password salt count).
  assert (Hl : forall k, length (concat (map F (seq 1 k))) = (k * n)%nat) by (intros k; apply concat_blocks; intros; apply F_length).
  induction fuel as [|fuel IH]; intros k ctx H Hp Hs Hlen Hk Hf.
  { assert (k = N) as -> by lia. reflexivity. }
  cbn [derive]. destruct (Z.eqb_spec (Z.of_nat (len - k * n)) 0) as [E0|E0].
  { assert (k = N) as ->; [|reflexivity]. nia. }
  assert (Hkn : (k < N)%nat) by (destruct (decide (k = N)) as [->|]; lia).
  assert (Hc : small (be_bytes 4 (Z.of_nat (k + 1)))) by (unfold small; rewrite be_bytes_length; lia).
  destruct (keyed_two password ctx salt _ H Hp Hs Hc) as (c1 & c2 & c3 & E1 & E2 & E3 & H3).
  destruct (hmac_reset_keyed info D hash n password c3 H3) as (c4 & E4 & H4).
  rewrite E1. cbn [mbind result_bind]. rewrite E2. cbn [mbind result_bind]. rewrite E3. cbn [mbind result_bind].
  rewrite E4. cbn [mbind result_bind]. set (first := hmac password (salt ++ be_bytes 4 (Z.of_nat (k + 1)))).
  assert (Hfl : length first = n) by apply hmac_length. rewrite Nat2Z.id, (take_ge first) by lia.
  destruct (iterate_eq password first (Z.to_nat (Z.of_nat count - 1)) 0 c4 H4 Hp Hfl) as (c5 & E5 & H5).
  change (pbkdf2_U hmac password first 0) with first in E5. change (pbkdf2_sum password first 0) with first in E5.
  rewrite E5. cbn [mbind result_bind Nat.add]. replace (Z.to_nat (Z.of_nat count - 1)) with (count - 1)%nat by lia.
  change (pbkdf2_sum password first (count - 1)) with (F (k + 1)%nat).
  rewrite next_counter_be by lia. replace (Z.of_nat (k + 1) + 1) with (Z.of_nat (S k + 1)) by lia.
  set (use_len := if Z.of_nat (len - k * n) <? Z.of_nat n then Z.of_nat (len - k * n) else Z.of_nat n).
  assert (Hu : use_len = Z.of_nat (Nat.min (len - k * n) n)) by (unfold use_len; destruct (Z.ltb_spec (Z.of_nat (len - k * n)) (Z.of_nat n)); lia).
  assert (Hkl : (k * n < len)%nat) by lia.
  assert (Eu : u32 (Z.of_nat (len - k * n) - use_len) = Z.of_nat (len - S k * n)) by (rewrite Hu, u32_small; lia).
  rewrite Eu, Hu, Nat2Z.id. rewrite <- (IH (S k) c5 H5 Hp Hs Hlen ltac:(lia) ltac:(lia)). f_equal.
  rewrite (seq_S k 1), map_app, concat_app. cbn [map concat]. rewrite app_nil_r, take_app, Hl.
  rewrite (take_ge (concat _)) by (rewrite Hl; lia). f_equal. replace (1 + k)%nat with (k + 1)%nat by lia.
  pose proof (F_length password salt count (k + 1)) as HF. fold F in HF.
  destruct (Nat.le_gt_cases (len - k * n) n); [by rewrite Nat.min_l|rewrite Nat.min_r by lia; rewrite !take_ge by lia; done].
Qed.
End Derivation.

(** ** Properties *)

(** A context just set up for HMAC is idle. *)
Lemma setup_idle t info : mbedtls_md_info_from_type t = Some info ->
  exists D, exists laws : DigestLaws D (hash_of t) (Z.to_nat (size info)), exists c,
    mbedtls_md_setup (Some info) true = Ok c /\ idle info D (hash_of t) (Z.to_nat (size info)) c /\
    size info = Z.of_nat (Z.to_nat (size info)) /\ Z.of_nat (Z.to_nat (size info)) <= block_size info < 2 ^ 32 /\
    16 <= size info <= 64.
Proof.
  intros E. destruct (supported t info E) as (D & [Ht Hd Hl Hn Hb Hs]). exists D, Hl. unfold mbedtls_md_setup.
  rewrite Ht, Hd. eexists. split; [reflexivity|]. split; [|auto]. eexists _, _. split; [apply init_ok|reflexivity].
Qed.

Lemma md_hmac_eq t info key msg :
  mbedtls_md_info_from_type t = Some info -> bytes_ok key -> small key -> small msg ->
  mbedtls_md_hmac (Some info) key msg = Ok (hmac_spec (hash_of t) (Z.to_nat (block_size info)) key msg).
Proof.
  intros E Hk Hs Hm. destruct (setup_idle t info E) as (D & laws & c & Ec & Hi & Hn & Hb & _). unfold mbedtls_md_hmac.
  rewrite Ec. cbn [mbind result_bind].
  destruct (hmac_starts_keyed info D _ _ Hn Hb c key Hi Hs) as (c1 & -> & H1). cbn [mbind result_bind].
  destruct (hmac_update_keyed info D _ _ key [] c1 msg H1) as (c2 & -> & H2). cbn [mbind result_bind app] in *.
  destruct (hmac_finish_keyed info D _ _ Hn Hb key [msg] c2 H2 Hk ltac:(by repeat constructor)) as (c3 & -> & _).
  cbn [mbind result_bind concat]. by rewrite app_nil_r.
Qed.

(** The salt that is used: a block of zeros for a null pointer. *)
Definition salt_of (hash_len : Z) (salt : Salt) : bytes :=
  match salt with NullSalt _ => repeat 0 (Z.to_nat hash_len) | SaltBytes s => s end.

(** HKDF derives the key of RFC 5869, for every digest, salt (a null pointer
    with length 0 included), key material and info, whenever at most 255 blocks
    are asked for; more is refused, and so is a null salt with a length. *)
Theorem hkdf_correct t md salt ikm info len :
  mbedtls_md_info_from_type t = Some md ->
  bytes_ok (salt_of (size md) salt) -> small (salt_of (size md) salt) -> small ikm -> small (default [] info) ->
  let hmac := hmac_spec (hash_of t) (Z.to_nat (block_size md)) in
  mbedtls_hkdf (Some md) salt ikm info (Some (Z.of_nat len)) =
  match salt with
  | NullSalt (Zpos _ | Zneg _) => Err MBEDTLS_ERR_HKDF_BAD_INPUT_DATA
  | _ =>
      if decide (Z.of_nat len <= 255 * size md)
      then Ok (hkdf_spec hmac (Z.to_nat (size md)) (salt_of (size md) salt) ikm (default [] info) len)
      else Err MBEDTLS_ERR_HKDF_BAD_INPUT_DATA
  end.
Proof.
  intros E Hsb Hs Hm Hf hmac.
  destruct (setup_idle t md E) as (D & laws & c & Ec & Hi & Hn & Hb & Hsz).
  assert (Hx : mbedtls_hkdf_extract (Some md) salt ikm =
    match salt with NullSalt (Zpos _ | Zneg _) => Err MBEDTLS_ERR_HKDF_BAD_INPUT_DATA
    | _ => Ok (hmac (salt_of (size md) salt) ikm) end).
  { destruct salt as [[|?|?]|s]; cbn [mbedtls_hkdf_extract mbedtls_md_get_size Z.eqb negb]; try done.
    - destruct (Z.eqb_spec (size md) 0); [lia|]. by apply md_hmac_eq.
    - by apply md_hmac_eq. }
  unfold mbedtls_hkdf. rewrite Hx.
  enough (H : mbedtls_hkdf_expand (Some md) (take (Z.to_nat (mbedtls_md_get_size (Some md))) (hmac (salt_of (size md) salt) ikm)) info
      (Some (Z.of_nat len)) =
    if decide (Z.of_nat len <= 255 * size md)
    then Ok (hkdf_spec hmac (Z.to_nat (size md)) (salt_of (size md) salt) ikm (default [] info) len)
    else Err MBEDTLS_ERR_HKDF_BAD_INPUT_DATA) by (destruct salt as [[|?|?]|s]; done).
  apply (expand_spec md D _ _ Hn Hb ltac:(lia) c Ec Hi _ _ len); [|apply (@hash_bytes D _ _ laws)|exact Hf].
  apply (@hash_length D _ _ laws).
Qed.

(** PBKDF2 derives the key of RFC 8018 for every digest, password, salt,
    number of iterations and length of key (an iteration count of 0 counts as 1);
    a context that is not set up for HMAC is refused. *)
Theorem pbkdf2_correct t md password salt count len :
  mbedtls_md_info_from_type t = Some md ->
  bytes_ok password -> small password -> small salt -> Z.of_nat len < 2 ^ 32 ->
  let hmac := hmac_spec (hash_of t) (Z.to_nat (block_size md)) in
  (ctx ← mbedtls_md_setup (Some md) true; mbedtls_pkcs5_pbkdf2_hmac ctx password salt (Z.of_nat count) (Z.of_nat len)) =
    Ok (pbkdf2_spec hmac (Z.to_nat (size md)) password salt count len) /\
  (ctx ← mbedtls_md_setup (Some md) false; mbedtls_pkcs5_pbkdf2_hmac ctx password salt (Z.of_nat count) (Z.of_nat len)) =
    Err MBEDTLS_ERR_MD_BAD_INPUT_DATA.
Proof.
  intros E Hpb Hp Hs Hlen hmac.
  destruct (setup_idle t md E) as (D & laws & c & Ec & Hi & Hn & Hb & Hsz). split.
  - rewrite Ec. cbn [mbind result_bind]. unfold mbedtls_pkcs5_pbkdf2_hmac.
    destruct (hmac_starts_keyed md D _ _ Hn Hb c password Hi Hp) as (c1 & E1 & H1). rewrite E1. cbn [mbind result_bind].
    destruct Hi as (ctx & pads & _ & ->). cbn [md_info mbedtls_md_get_size]. rewrite Hn at 1.
    pose proof (derive_eq md D _ _ Hn Hb ltac:(lia) password salt count len (Z.to_nat (Z.of_nat len)) 0 c1 H1 Hpb Hs Hlen) as H.
    cbn [Nat.add Nat.mul seq map concat] in H. rewrite !Nat.sub_0_r, take_nil in H. change (be_bytes 4 (Z.of_nat 1)) with [0; 0; 0; 1] in H. apply H; [lia|].
    rewrite Nat2Z.id. apply blocks_le. lia.
  - destruct (supported t md E) as (D' & [Ht Hd _ _ _ _]). unfold mbedtls_md_setup. by rewrite Ht, Hd.
Qed.

(** Test case 7 of RFC 5869: SHA-1, no salt, 42 bytes. *)
Lemma hkdf_correct_witness :
  mbedtls_hkdf (Some mbedtls_sha1_info) (NullSalt 0) (repeat 0x0c 22) None (Some 42) =
  Ok [44; 145; 17; 114; 4; 215; 69; 243; 80; 13; 99; 106; 98; 246; 79; 10; 179; 186; 229; 72; 170; 83; 212; 35; 176; 209; 242; 126;
      187; 166; 245; 229; 103; 58; 8; 29; 112; 204; 231; 172; 252; 72].
Proof.
  change (Some 42) with (Some (Z.of_nat 42)).
  rewrite (hkdf_correct MBEDTLS_MD_SHA1 mbedtls_sha1_info (NullSalt 0) (repeat 0x0c 22) None 42 eq_refl
    ltac:(bytes_ok_closed) ltac:(reflexivity) ltac:(reflexivity) ltac:(reflexivity)).
  vm_compute. reflexivity.
Defined.

(** A key longer than a digest, with two iterations. *)
Lemma pbkdf2_correct_witness :
  (ctx ← mbedtls_md_setup (Some mbedtls_md5_info) true; mbedtls_pkcs5_pbkdf2_hmac ctx (str "password") (str "salt") 2 20) =
  Ok [4; 36; 7; 181; 82; 190; 52; 90; 214; 238; 226; 207; 47; 126; 208; 29; 217; 102; 45; 143].
Proof.
  pose proof (proj1 (pbkdf2_correct MBEDTLS_MD_MD5 mbedtls_md5_info (str "password") (str "salt") 2 20 eq_refl
    ltac:(bytes_ok_closed) ltac:(reflexivity) ltac:(reflexivity) ltac:(reflexivity))) as H.
  change (Z.of_nat 2) with 2 in H. change (Z.of_nat 20) with 20 in H. rewrite H. vm_compute. reflexivity.
Defined.
End Kdf.
