(* ===== verification/AesTables.v ===== *)
(** The tables of AES (mbedtls/library/aes.c): the S-boxes and the round tables as
    the constants of the build with [MBEDTLS_AES_ROM_TABLES], as [aes_gen_tables]
    computes them in the build without, and as the macros of the build with
    [MBEDTLS_AES_FEWER_TABLES] rotate them.  The theorem says that the three are
    the same and what they hold: the S-box of FIPS 197 and its inverse, and the
    products of [MixColumns] and [InvMixColumns] over GF(2^8). *)
From S2P Require Import Prelude CString Words.
From stdpp Require Import list.
#[local] Open Scope Z_scope.

Module AesTables.

(** ** The constants *)

Definition FSb : bytes :=
  [0x63; 0x7C; 0x77; 0x7B; 0xF2; 0x6B; 0x6F; 0xC5; 0x30; 0x01; 0x67; 0x2B; 0xFE; 0xD7; 0xAB; 0x76;
   0xCA; 0x82; 0xC9; 0x7D; 0xFA; 0x59; 0x47; 0xF0; 0xAD; 0xD4; 0xA2; 0xAF; 0x9C; 0xA4; 0x72; 0xC0;
   0xB7; 0xFD; 0x93; 0x26; 0x36; 0x3F; 0xF7; 0xCC; 0x34; 0xA5; 0xE5; 0xF1; 0x71; 0xD8; 0x31; 0x15;
   0x04; 0xC7; 0x23; 0xC3; 0x18; 0x96; 0x05; 0x9A; 0x07; 0x12; 0x80; 0xE2; 0xEB; 0x27; 0xB2; 0x75;
   0x09; 0x83; 0x2C; 0x1A; 0x1B; 0x6E; 0x5A; 0xA0; 0x52; 0x3B; 0xD6; 0xB3; 0x29; 0xE3; 0x2F; 0x84;
   0x53; 0xD1; 0x00; 0xED; 0x20; 0xFC; 0xB1; 0x5B; 0x6A; 0xCB; 0xBE; 0x39; 0x4A; 0x4C; 0x58; 0xCF;
   0xD0; 0xEF; 0xAA; 0xFB; 0x43; 0x4D; 0x33; 0x85; 0x45; 0xF9; 0x02; 0x7F; 0x50; 0x3C; 0x9F; 0xA8;
   0x51; 0xA3; 0x40; 0x8F; 0x92; 0x9D; 0x38; 0xF5; 0xBC; 0xB6; 0xDA; 0x21; 0x10; 0xFF; 0xF3; 0xD2;
   0xCD; 0x0C; 0x13; 0xEC; 0x5F; 0x97; 0x44; 0x17; 0xC4; 0xA7; 0x7E; 0x3D; 0x64; 0x5D; 0x19; 0x73;
   0x60; 0x81; 0x4F; 0xDC; 0x22; 0x2A; 0x90; 0x88; 0x46; 0xEE; 0xB8; 0x14; 0xDE; 0x5E; 0x0B; 0xDB;
   0xE0; 0x32; 0x3A; 0x0A; 0x49; 0x06; 0x24; 0x5C; 0xC2; 0xD3; 0xAC; 0x62; 0x91; 0x95; 0xE4; 0x79;
   0xE7; 0xC8; 0x37; 0x6D; 0x8D; 0xD5; 0x4E; 0xA9; 0x6C; 0x56; 0xF4; 0xEA; 0x65; 0x7A; 0xAE; 0x08;
   0xBA; 0x78; 0x25; 0x2E; 0x1C; 0xA6; 0xB4; 0xC6; 0xE8; 0xDD; 0x74; 0x1F; 0x4B; 0xBD; 0x8B; 0x8A;
   0x70; 0x3E; 0xB5; 0x66; 0x48; 0x03; 0xF6; 0x0E; 0x61; 0x35; 0x57; 0xB9; 0x86; 0xC1; 0x1D; 0x9E;
   0xE1; 0xF8; 0x98; 0x11; 0x69; 0xD9; 0x8E; 0x94; 0x9B; 0x1E; 0x87; 0xE9; 0xCE; 0x55; 0x28; 0xDF;
   0x8C; 0xA1; 0x89; 0x0D; 0xBF; 0xE6; 0x42; 0x68; 0x41; 0x99; 0x2D; 0x0F; 0xB0; 0x54; 0xBB; 0x16].

Definition RSb : bytes :=
  [0x52; 0x09; 0x6A; 0xD5; 0x30; 0x36; 0xA5; 0x38; 0xBF; 0x40; 0xA3; 0x9E; 0x81; 0xF3; 0xD7; 0xFB;
   0x7C; 0xE3; 0x39; 0x82; 0x9B; 0x2F; 0xFF; 0x87; 0x34; 0x8E; 0x43; 0x44; 0xC4; 0xDE; 0xE9; 0xCB;
   0x54; 0x7B; 0x94; 0x32; 0xA6; 0xC2; 0x23; 0x3D; 0xEE; 0x4C; 0x95; 0x0B; 0x42; 0xFA; 0xC3; 0x4E;
   0x08; 0x2E; 0xA1; 0x66; 0x28; 0xD9; 0x24; 0xB2; 0x76; 0x5B; 0xA2; 0x49; 0x6D; 0x8B; 0xD1; 0x25;
   0x72; 0xF8; 0xF6; 0x64; 0x86; 0x68; 0x98; 0x16; 0xD4; 0xA4; 0x5C; 0xCC; 0x5D; 0x65; 0xB6; 0x92;
   0x6C; 0x70; 0x48; 0x50; 0xFD; 0xED; 0xB9; 0xDA; 0x5E; 0x15; 0x46; 0x57; 0xA7; 0x8D; 0x9D; 0x84;
   0x90; 0xD8; 0xAB; 0x00; 0x8C; 0xBC; 0xD3; 0x0A; 0xF7; 0xE4; 0x58; 0x05; 0xB8; 0xB3; 0x45; 0x06;
   0xD0; 0x2C; 0x1E; 0x8F; 0xCA; 0x3F; 0x0F; 0x02; 0xC1; 0xAF; 0xBD; 0x03; 0x01; 0x13; 0x8A; 0x6B;
   0x3A; 0x91; 0x11; 0x41; 0x4F; 0x67; 0xDC; 0xEA; 0x97; 0xF2; 0xCF; 0xCE; 0xF0; 0xB4; 0xE6; 0x73;
   0x96; 0xAC; 0x74; 0x22; 0xE7; 0xAD; 0x35; 0x85; 0xE2; 0xF9; 0x37; 0xE8; 0x1C; 0x75; 0xDF; 0x6E;
   0x47; 0xF1; 0x1A; 0x71; 0x1D; 0x29; 0xC5; 0x89; 0x6F; 0xB7; 0x62; 0x0E; 0xAA; 0x18; 0xBE; 0x1B;
   0xFC; 0x56; 0x3E; 0x4B; 0xC6; 0xD2; 0x79; 0x20; 0x9A; 0xDB; 0xC0; 0xFE; 0x78; 0xCD; 0x5A; 0xF4;
   0x1F; 0xDD; 0xA8; 0x33; 0x88; 0x07; 0xC7; 0x31; 0xB1; 0x12; 0x10; 0x59; 0x27; 0x80; 0xEC; 0x5F;
   0x60; 0x51; 0x7F; 0xA9; 0x19; 0xB5; 0x4A; 0x0D; 0x2D; 0xE5; 0x7A; 0x9F; 0x93; 0xC9; 0x9C; 0xEF;
   0xA0; 0xE0; 0x3B; 0x4D; 0xAE; 0x2A; 0xF5; 0xB0; 0xC8; 0xEB; 0xBB; 0x3C; 0x83; 0x53; 0x99; 0x61;
   0x17; 0x2B; 0x04; 0x7E; 0xBA; 0x77; 0xD6; 0x26; 0xE1; 0x69; 0x14; 0x63; 0x55; 0x21; 0x0C; 0x7D].

(** [V(a, b, c, d)] of the four expansions. *)
Definition quad : Type := Z * Z * Z * Z.
Definition V0 (q : quad) : Z := let '(a, b, c, d) := q in ((a * 256 + b) * 256 + c) * 256 + d.
Definition V1 (q : quad) : Z := let '(a, b, c, d) := q in ((b * 256 + c) * 256 + d) * 256 + a.
Definition V2 (q : quad) : Z := let '(a, b, c, d) := q in ((c * 256 + d) * 256 + a) * 256 + b.
Definition V3 (q : quad) : Z := let '(a, b, c, d) := q in ((d * 256 + a) * 256 + b) * 256 + c.

Definition FT : list quad :=
  [(0xA5, 0x63, 0x63, 0xC6); (0x84, 0x7C, 0x7C, 0xF8); (0x99, 0x77, 0x77, 0xEE); (0x8D, 0x7B, 0x7B, 0xF6);
   (0x0D, 0xF2, 0xF2, 0xFF); (0xBD, 0x6B, 0x6B, 0xD6); (0xB1, 0x6F, 0x6F, 0xDE); (0x54, 0xC5, 0xC5, 0x91);
   (0x50, 0x30, 0x30, 0x60); (0x03, 0x01, 0x01, 0x02); (0xA9, 0x67, 0x67, 0xCE); (0x7D, 0x2B, 0x2B, 0x56);
   (0x19, 0xFE, 0xFE, 0xE7); (0x62, 0xD7, 0xD7, 0xB5); (0xE6, 0xAB, 0xAB, 0x4D); (0x9A, 0x76, 0x76, 0xEC);
   (0x45, 0xCA, 0xCA, 0x8F); (0x9D, 0x82, 0x82, 0x1F); (0x40, 0xC9, 0xC9, 0x89); (0x87, 0x7D, 0x7D, 0xFA);
   (0x15, 0xFA, 0xFA, 0xEF); (0xEB, 0x59, 0x59, 0xB2); (0xC9, 0x47, 0x47, 0x8E); (0x0B, 0xF0, 0xF0, 0xFB);
   (0xEC, 0xAD, 0xAD, 0x41); (0x67, 0xD4, 0xD4, 0xB3); (0xFD, 0xA2, 0xA2, 0x5F); (0xEA, 0xAF, 0xAF, 0x45);
   (0xBF, 0x9C, 0x9C, 0x23); (0xF7, 0xA4, 0xA4, 0x53); (0x96, 0x72, 0x72, 0xE4); (0x5B, 0xC0, 0xC0, 0x9B);
   (0xC2, 0xB7, 0xB7, 0x75); (0x1C, 0xFD, 0xFD, 0xE1); (0xAE, 0x93, 0x93, 0x3D); (0x6A, 0x26, 0x26, 0x4C);
   (0x5A, 0x36, 0x36, 0x6C); (0x41, 0x3F, 0x3F, 0x7E); (0x02, 0xF7, 0xF7, 0xF5); (0x4F, 0xCC, 0xCC, 0x83);
   (0x5C, 0x34, 0x34, 0x68); (0xF4, 0xA5, 0xA5, 0x51); (0x34, 0xE5, 0xE5, 0xD1); (0x08, 0xF1, 0xF1, 0xF9);
   (0x93, 0x71, 0x71, 0xE2); (0x73, 0xD8, 0xD8, 0xAB); (0x53, 0x31, 0x31, 0x62); (0x3F, 0x15, 0x15, 0x2A);
   (0x0C, 0x04, 0x04, 0x08); (0x52, 0xC7, 0xC7, 0x95); (0x65, 0x23, 0x23, 0x46); (0x5E, 0xC3, 0xC3, 0x9D);
   (0x28, 0x18, 0x18, 0x30); (0xA1, 0x96, 0x96, 0x37); (0x0F, 0x05, 0x05, 0x0A); (0xB5, 0x9A, 0x9A, 0x2F);
   (0x09, 0x07, 0x07, 0x0E); (0x36, 0x12, 0x12, 0x24); (0x9B, 0x80, 0x80, 0x1B); (0x3D, 0xE2, 0xE2, 0xDF);
   (0x26, 0xEB, 0xEB, 0xCD); (0x69, 0x27, 0x27, 0x4E); (0xCD, 0xB2, 0xB2, 0x7F); (0x9F, 0x75, 0x75, 0xEA);
   (0x1B, 0x09, 0x09, 0x12); (0x9E, 0x83, 0x83, 0x1D); (0x74, 0x2C, 0x2C, 0x58); (0x2E, 0x1A, 0x1A, 0x34);
   (0x2D, 0x1B, 0x1B, 0x36); (0xB2, 0x6E, 0x6E, 0xDC); (0xEE, 0x5A, 0x5A, 0xB4); (0xFB, 0xA0, 0xA0, 0x5B);
   (0xF6, 0x52, 0x52, 0xA4); (0x4D, 0x3B, 0x3B, 0x76); (0x61, 0xD6, 0xD6, 0xB7); (0xCE, 0xB3, 0xB3, 0x7D);
   (0x7B, 0x29, 0x29, 0x52); (0x3E, 0xE3, 0xE3, 0xDD); (0x71, 0x2F, 0x2F, 0x5E); (0x97, 0x84, 0x84, 0x13);
   (0xF5, 0x53, 0x53, 0xA6); (0x68, 0xD1, 0xD1, 0xB9); (0x00, 0x00, 0x00, 0x00); (0x2C, 0xED, 0xED, 0xC1);
   (0x60, 0x20, 0x20, 0x40); (0x1F, 0xFC, 0xFC, 0xE3); (0xC8, 0xB1, 0xB1, 0x79); (0xED, 0x5B, 0x5B, 0xB6);
   (0xBE, 0x6A, 0x6A, 0xD4); (0x46, 0xCB, 0xCB, 0x8D); (0xD9, 0xBE, 0xBE, 0x67); (0x4B, 0x39, 0x39, 0x72);
   (0xDE, 0x4A, 0x4A, 0x94); (0xD4, 0x4C, 0x4C, 0x98); (0xE8, 0x58, 0x58, 0xB0); (0x4A, 0xCF, 0xCF, 0x85);
   (0x6B, 0xD0, 0xD0, 0xBB); (0x2A, 0xEF, 0xEF, 0xC5); (0xE5, 0xAA, 0xAA, 0x4F); (0x16, 0xFB, 0xFB, 0xED);
   (0xC5, 0x43, 0x43, 0x86); (0xD7, 0x4D, 0x4D, 0x9A); (0x55, 0x33, 0x33, 0x66); (0x94, 0x85, 0x85, 0x11);
   (0xCF, 0x45, 0x45, 0x8A); (0x10, 0xF9, 0xF9, 0xE9); (0x06, 0x02, 0x02, 0x04); (0x81, 0x7F, 0x7F, 0xFE);
   (0xF0, 0x50, 0x50, 0xA0); (0x44, 0x3C, 0x3C, 0x78); (0xBA, 0x9F, 0x9F, 0x25); (0xE3, 0xA8, 0xA8, 0x4B);
   (0xF3, 0x51, 0x51, 0xA2); (0xFE, 0xA3, 0xA3, 0x5D); (0xC0, 0x40, 0x40, 0x80); (0x8A, 0x8F, 0x8F, 0x05);
   (0xAD, 0x92, 0x92, 0x3F); (0xBC, 0x9D, 0x9D, 0x21); (0x48, 0x38, 0x38, 0x70); (0x04, 0xF5, 0xF5, 0xF1);
   (0xDF, 0xBC, 0xBC, 0x63); (0xC1, 0xB6, 0xB6, 0x77); (0x75, 0xDA, 0xDA, 0xAF); (0x63, 0x21, 0x21, 0x42);
   (0x30, 0x10, 0x10, 0x20); (0x1A, 0xFF, 0xFF, 0xE5); (0x0E, 0xF3, 0xF3, 0xFD); (0x6D, 0xD2, 0xD2, 0xBF);
   (0x4C, 0xCD, 0xCD, 0x81); (0x14, 0x0C, 0x0C, 0x18); (0x35, 0x13, 0x13, 0x26); (0x2F, 0xEC, 0xEC, 0xC3);
   (0xE1, 0x5F, 0x5F, 0xBE); (0xA2, 0x97, 0x97, 0x35); (0xCC, 0x44, 0x44, 0x88); (0x39, 0x17, 0x17, 0x2E);
   (0x57, 0xC4, 0xC4, 0x93); (0xF2, 0xA7, 0xA7, 0x55); (0x82, 0x7E, 0x7E, 0xFC); (0x47, 0x3D, 0x3D, 0x7A);
   (0xAC, 0x64, 0x64, 0xC8); (0xE7, 0x5D, 0x5D, 0xBA); (0x2B, 0x19, 0x19, 0x32); (0x95, 0x73, 0x73, 0xE6);
   (0xA0, 0x60, 0x60, 0xC0); (0x98, 0x81, 0x81, 0x19); (0xD1, 0x4F, 0x4F, 0x9E); (0x7F, 0xDC, 0xDC, 0xA3);
   (0x66, 0x22, 0x22, 0x44); (0x7E, 0x2A, 0x2A, 0x54); (0xAB, 0x90, 0x90, 0x3B); (0x83, 0x88, 0x88, 0x0B);
   (0xCA, 0x46, 0x46, 0x8C); (0x29, 0xEE, 0xEE, 0xC7); (0xD3, 0xB8, 0xB8, 0x6B); (0x3C, 0x14, 0x14, 0x28);
   (0x79, 0xDE, 0xDE, 0xA7); (0xE2, 0x5E, 0x5E, 0xBC); (0x1D, 0x0B, 0x0B, 0x16); (0x76, 0xDB, 0xDB, 0xAD);
   (0x3B, 0xE0, 0xE0, 0xDB); (0x56, 0x32, 0x32, 0x64); (0x4E, 0x3A, 0x3A, 0x74); (0x1E, 0x0A, 0x0A, 0x14);
   (0xDB, 0x49, 0x49, 0x92); (0x0A, 0x06, 0x06, 0x0C); (0x6C, 0x24, 0x24, 0x48); (0xE4, 0x5C, 0x5C, 0xB8);
   (0x5D, 0xC2, 0xC2, 0x9F); (0x6E, 0xD3, 0xD3, 0xBD); (0xEF, 0xAC, 0xAC, 0x43); (0xA6, 0x62, 0x62, 0xC4);
   (0xA8, 0x91, 0x91, 0x39); (0xA4, 0x95, 0x95, 0x31); (0x37, 0xE4, 0xE4, 0xD3); (0x8B, 0x79, 0x79, 0xF2);
   (0x32, 0xE7, 0xE7, 0xD5); (0x43, 0xC8, 0xC8, 0x8B); (0x59, 0x37, 0x37, 0x6E); (0xB7, 0x6D, 0x6D, 0xDA);
   (0x8C, 0x8D, 0x8D, 0x01); (0x64, 0xD5, 0xD5, 0xB1); (0xD2, 0x4E, 0x4E, 0x9C); (0xE0, 0xA9, 0xA9, 0x49);
   (0xB4, 0x6C, 0x6C, 0xD8); (0xFA, 0x56, 0x56, 0xAC); (0x07, 0xF4, 0xF4, 0xF3); (0x25, 0xEA, 0xEA, 0xCF);
   (0xAF, 0x65, 0x65, 0xCA); (0x8E, 0x7A, 0x7A, 0xF4); (0xE9, 0xAE, 0xAE, 0x47); (0x18, 0x08, 0x08, 0x10);
   (0xD5, 0xBA, 0xBA, 0x6F); (0x88, 0x78, 0x78, 0xF0); (0x6F, 0x25, 0x25, 0x4A); (0x72, 0x2E, 0x2E, 0x5C);
   (0x24, 0x1C, 0x1C, 0x38); (0xF1, 0xA6, 0xA6, 0x57); (0xC7, 0xB4, 0xB4, 0x73); (0x51, 0xC6, 0xC6, 0x97);
   (0x23, 0xE8, 0xE8, 0xCB); (0x7C, 0xDD, 0xDD, 0xA1); (0x9C, 0x74, 0x74, 0xE8); (0x21, 0x1F, 0x1F, 0x3E);
   (0xDD, 0x4B, 0x4B, 0x96); (0xDC, 0xBD, 0xBD, 0x61); (0x86, 0x8B, 0x8B, 0x0D); (0x85, 0x8A, 0x8A, 0x0F);
   (0x90, 0x70, 0x70, 0xE0); (0x42, 0x3E, 0x3E, 0x7C); (0xC4, 0xB5, 0xB5, 0x71); (0xAA, 0x66, 0x66, 0xCC);
   (0xD8, 0x48, 0x48, 0x90); (0x05, 0x03, 0x03, 0x06); (0x01, 0xF6, 0xF6, 0xF7); (0x12, 0x0E, 0x0E, 0x1C);
   (0xA3, 0x61, 0x61, 0xC2); (0x5F, 0x35, 0x35, 0x6A); (0xF9, 0x57, 0x57, 0xAE); (0xD0, 0xB9, 0xB9, 0x69);
   (0x91, 0x86, 0x86, 0x17); (0x58, 0xC1, 0xC1, 0x99); (0x27, 0x1D, 0x1D, 0x3A); (0xB9, 0x9E, 0x9E, 0x27);
   (0x38, 0xE1, 0xE1, 0xD9); (0x13, 0xF8, 0xF8, 0xEB); (0xB3, 0x98, 0x98, 0x2B); (0x33, 0x11, 0x11, 0x22);
   (0xBB, 0x69, 0x69, 0xD2); (0x70, 0xD9, 0xD9, 0xA9); (0x89, 0x8E, 0x8E, 0x07); (0xA7, 0x94, 0x94, 0x33);
   (0xB6, 0x9B, 0x9B, 0x2D); (0x22, 0x1E, 0x1E, 0x3C); (0x92, 0x87, 0x87, 0x15); (0x20, 0xE9, 0xE9, 0xC9);
   (0x49, 0xCE, 0xCE, 0x87); (0xFF, 0x55, 0x55, 0xAA); (0x78, 0x28, 0x28, 0x50); (0x7A, 0xDF, 0xDF, 0xA5);
   (0x8F, 0x8C, 0x8C, 0x03); (0xF8, 0xA1, 0xA1, 0x59); (0x80, 0x89, 0x89, 0x09); (0x17, 0x0D, 0x0D, 0x1A);
   (0xDA, 0xBF, 0xBF, 0x65); (0x31, 0xE6, 0xE6, 0xD7); (0xC6, 0x42, 0x42, 0x84); (0xB8, 0x68, 0x68, 0xD0);
   (0xC3, 0x41, 0x41, 0x82); (0xB0, 0x99, 0x99, 0x29); (0x77, 0x2D, 0x2D, 0x5A); (0x11, 0x0F, 0x0F, 0x1E);
   (0xCB, 0xB0, 0xB0, 0x7B); (0xFC, 0x54, 0x54, 0xA8); (0xD6, 0xBB, 0xBB, 0x6D); (0x3A, 0x16, 0x16, 0x2C)].

Definition RT : list quad :=
  [(0x50, 0xA7, 0xF4, 0x51); (0x53, 0x65, 0x41, 0x7E); (0xC3, 0xA4, 0x17, 0x1A); (0x96, 0x5E, 0x27, 0x3A);
   (0xCB, 0x6B, 0xAB, 0x3B); (0xF1, 0x45, 0x9D, 0x1F); (0xAB, 0x58, 0xFA, 0xAC); (0x93, 0x03, 0xE3, 0x4B);
   (0x55, 0xFA, 0x30, 0x20); (0xF6, 0x6D, 0x76, 0xAD); (0x91, 0x76, 0xCC, 0x88); (0x25, 0x4C, 0x02, 0xF5);
   (0xFC, 0xD7, 0xE5, 0x4F); (0xD7, 0xCB, 0x2A, 0xC5); (0x80, 0x44, 0x35, 0x26); (0x8F, 0xA3, 0x62, 0xB5);
   (0x49, 0x5A, 0xB1, 0xDE); (0x67, 0x1B, 0xBA, 0x25); (0x98, 0x0E, 0xEA, 0x45); (0xE1, 0xC0, 0xFE, 0x5D);
   (0x02, 0x75, 0x2F, 0xC3); (0x12, 0xF0, 0x4C, 0x81); (0xA3, 0x97, 0x46, 0x8D); (0xC6, 0xF9, 0xD3, 0x6B);
   (0xE7, 0x5F, 0x8F, 0x03); (0x95, 0x9C, 0x92, 0x15); (0xEB, 0x7A, 0x6D, 0xBF); (0xDA, 0x59, 0x52, 0x95);
   (0x2D, 0x83, 0xBE, 0xD4); (0xD3, 0x21, 0x74, 0x58); (0x29, 0x69, 0xE0, 0x49); (0x44, 0xC8, 0xC9, 0x8E);
   (0x6A, 0x89, 0xC2, 0x75); (0x78, 0x79, 0x8E, 0xF4); (0x6B, 0x3E, 0x58, 0x99); (0xDD, 0x71, 0xB9, 0x27);
   (0xB6, 0x4F, 0xE1, 0xBE); (0x17, 0xAD, 0x88, 0xF0); (0x66, 0xAC, 0x20, 0xC9); (0xB4, 0x3A, 0xCE, 0x7D);
   (0x18, 0x4A, 0xDF, 0x63); (0x82, 0x31, 0x1A, 0xE5); (0x60, 0x33, 0x51, 0x97); (0x45, 0x7F, 0x53, 0x62);
   (0xE0, 0x77, 0x64, 0xB1); (0x84, 0xAE, 0x6B, 0xBB); (0x1C, 0xA0, 0x81, 0xFE); (0x94, 0x2B, 0x08, 0xF9);
   (0x58, 0x68, 0x48, 0x70); (0x19, 0xFD, 0x45, 0x8F); (0x87, 0x6C, 0xDE, 0x94); (0xB7, 0xF8, 0x7B, 0x52);
   (0x23, 0xD3, 0x73, 0xAB); (0xE2, 0x02, 0x4B, 0x72); (0x57, 0x8F, 0x1F, 0xE3); (0x2A, 0xAB, 0x55, 0x66);
   (0x07, 0x28, 0xEB, 0xB2); (0x03, 0xC2, 0xB5, 0x2F); (0x9A, 0x7B, 0xC5, 0x86); (0xA5, 0x08, 0x37, 0xD3);
   (0xF2, 0x87, 0x28, 0x30); (0xB2, 0xA5, 0xBF, 0x23); (0xBA, 0x6A, 0x03, 0x02); (0x5C, 0x82, 0x16, 0xED);
   (0x2B, 0x1C, 0xCF, 0x8A); (0x92, 0xB4, 0x79, 0xA7); (0xF0, 0xF2, 0x07, 0xF3); (0xA1, 0xE2, 0x69, 0x4E);
   (0xCD, 0xF4, 0xDA, 0x65); (0xD5, 0xBE, 0x05, 0x06); (0x1F, 0x62, 0x34, 0xD1); (0x8A, 0xFE, 0xA6, 0xC4);
   (0x9D, 0x53, 0x2E, 0x34); (0xA0, 0x55, 0xF3, 0xA2); (0x32, 0xE1, 0x8A, 0x05); (0x75, 0xEB, 0xF6, 0xA4);
   (0x39, 0xEC, 0x83, 0x0B); (0xAA, 0xEF, 0x60, 0x40); (0x06, 0x9F, 0x71, 0x5E); (0x51, 0x10, 0x6E, 0xBD);
   (0xF9, 0x8A, 0x21, 0x3E); (0x3D, 0x06, 0xDD, 0x96); (0xAE, 0x05, 0x3E, 0xDD); (0x46, 0xBD, 0xE6, 0x4D);
   (0xB5, 0x8D, 0x54, 0x91); (0x05, 0x5D, 0xC4, 0x71); (0x6F, 0xD4, 0x06, 0x04); (0xFF, 0x15, 0x50, 0x60);
   (0x24, 0xFB, 0x98, 0x19); (0x97, 0xE9, 0xBD, 0xD6); (0xCC, 0x43, 0x40, 0x89); (0x77, 0x9E, 0xD9, 0x67);
   (0xBD, 0x42, 0xE8, 0xB0); (0x88, 0x8B, 0x89, 0x07); (0x38, 0x5B, 0x19, 0xE7); (0xDB, 0xEE, 0xC8, 0x79);
   (0x47, 0x0A, 0x7C, 0xA1); (0xE9, 0x0F, 0x42, 0x7C); (0xC9, 0x1E, 0x84, 0xF8); (0x00, 0x00, 0x00, 0x00);
   (0x83, 0x86, 0x80, 0x09); (0x48, 0xED, 0x2B, 0x32); (0xAC, 0x70, 0x11, 0x1E); (0x4E, 0x72, 0x5A, 0x6C);
   (0xFB, 0xFF, 0x0E, 0xFD); (0x56, 0x38, 0x85, 0x0F); (0x1E, 0xD5, 0xAE, 0x3D); (0x27, 0x39, 0x2D, 0x36);
   (0x64, 0xD9, 0x0F, 0x0A); (0x21, 0xA6, 0x5C, 0x68); (0xD1, 0x54, 0x5B, 0x9B); (0x3A, 0x2E, 0x36, 0x24);
   (0xB1, 0x67, 0x0A, 0x0C); (0x0F, 0xE7, 0x57, 0x93); (0xD2, 0x96, 0xEE, 0xB4); (0x9E, 0x91, 0x9B, 0x1B);
   (0x4F, 0xC5, 0xC0, 0x80); (0xA2, 0x20, 0xDC, 0x61); (0x69, 0x4B, 0x77, 0x5A); (0x16, 0x1A, 0x12, 0x1C);
   (0x0A, 0xBA, 0x93, 0xE2); (0xE5, 0x2A, 0xA0, 0xC0); (0x43, 0xE0, 0x22, 0x3C); (0x1D, 0x17, 0x1B, 0x12);
   (0x0B, 0x0D, 0x09, 0x0E); (0xAD, 0xC7, 0x8B, 0xF2); (0xB9, 0xA8, 0xB6, 0x2D); (0xC8, 0xA9, 0x1E, 0x14);
   (0x85, 0x19, 0xF1, 0x57); (0x4C, 0x07, 0x75, 0xAF); (0xBB, 0xDD, 0x99, 0xEE); (0xFD, 0x60, 0x7F, 0xA3);
   (0x9F, 0x26, 0x01, 0xF7); (0xBC, 0xF5, 0x72, 0x5C); (0xC5, 0x3B, 0x66, 0x44); (0x34, 0x7E, 0xFB, 0x5B);
   (0x76, 0x29, 0x43, 0x8B); (0xDC, 0xC6, 0x23, 0xCB); (0x68, 0xFC, 0xED, 0xB6); (0x63, 0xF1, 0xE4, 0xB8);
   (0xCA, 0xDC, 0x31, 0xD7); (0x10, 0x85, 0x63, 0x42); (0x40, 0x22, 0x97, 0x13); (0x20, 0x11, 0xC6, 0x84);
   (0x7D, 0x24, 0x4A, 0x85); (0xF8, 0x3D, 0xBB, 0xD2); (0x11, 0x32, 0xF9, 0xAE); (0x6D, 0xA1, 0x29, 0xC7);
   (0x4B, 0x2F, 0x9E, 0x1D); (0xF3, 0x30, 0xB2, 0xDC); (0xEC, 0x52, 0x86, 0x0D); (0xD0, 0xE3, 0xC1, 0x77);
   (0x6C, 0x16, 0xB3, 0x2B); (0x99, 0xB9, 0x70, 0xA9); (0xFA, 0x48, 0x94, 0x11); (0x22, 0x64, 0xE9, 0x47);
   (0xC4, 0x8C, 0xFC, 0xA8); (0x1A, 0x3F, 0xF0, 0xA0); (0xD8, 0x2C, 0x7D, 0x56); (0xEF, 0x90, 0x33, 0x22);
   (0xC7, 0x4E, 0x49, 0x87); (0xC1, 0xD1, 0x38, 0xD9); (0xFE, 0xA2, 0xCA, 0x8C); (0x36, 0x0B, 0xD4, 0x98);
   (0xCF, 0x81, 0xF5, 0xA6); (0x28, 0xDE, 0x7A, 0xA5); (0x26, 0x8E, 0xB7, 0xDA); (0xA4, 0xBF, 0xAD, 0x3F);
   (0xE4, 0x9D, 0x3A, 0x2C); (0x0D, 0x92, 0x78, 0x50); (0x9B, 0xCC, 0x5F, 0x6A); (0x62, 0x46, 0x7E, 0x54);
   (0xC2, 0x13, 0x8D, 0xF6); (0xE8, 0xB8, 0xD8, 0x90); (0x5E, 0xF7, 0x39, 0x2E); (0xF5, 0xAF, 0xC3, 0x82);
   (0xBE, 0x80, 0x5D, 0x9F); (0x7C, 0x93, 0xD0, 0x69); (0xA9, 0x2D, 0xD5, 0x6F); (0xB3, 0x12, 0x25, 0xCF);
   (0x3B, 0x99, 0xAC, 0xC8); (0xA7, 0x7D, 0x18, 0x10); (0x6E, 0x63, 0x9C, 0xE8); (0x7B, 0xBB, 0x3B, 0xDB);
   (0x09, 0x78, 0x26, 0xCD); (0xF4, 0x18, 0x59, 0x6E); (0x01, 0xB7, 0x9A, 0xEC); (0xA8, 0x9A, 0x4F, 0x83);
   (0x65, 0x6E, 0x95, 0xE6); (0x7E, 0xE6, 0xFF, 0xAA); (0x08, 0xCF, 0xBC, 0x21); (0xE6, 0xE8, 0x15, 0xEF);
   (0xD9, 0x9B, 0xE7, 0xBA); (0xCE, 0x36, 0x6F, 0x4A); (0xD4, 0x09, 0x9F, 0xEA); (0xD6, 0x7C, 0xB0, 0x29);
   (0xAF, 0xB2, 0xA4, 0x31); (0x31, 0x23, 0x3F, 0x2A); (0x30, 0x94, 0xA5, 0xC6); (0xC0, 0x66, 0xA2, 0x35);
   (0x37, 0xBC, 0x4E, 0x74); (0xA6, 0xCA, 0x82, 0xFC); (0xB0, 0xD0, 0x90, 0xE0); (0x15, 0xD8, 0xA7, 0x33);
   (0x4A, 0x98, 0x04, 0xF1); (0xF7, 0xDA, 0xEC, 0x41); (0x0E, 0x50, 0xCD, 0x7F); (0x2F, 0xF6, 0x91, 0x17);
   (0x8D, 0xD6, 0x4D, 0x76); (0x4D, 0xB0, 0xEF, 0x43); (0x54, 0x4D, 0xAA, 0xCC); (0xDF, 0x04, 0x96, 0xE4);
   (0xE3, 0xB5, 0xD1, 0x9E); (0x1B, 0x88, 0x6A, 0x4C); (0xB8, 0x1F, 0x2C, 0xC1); (0x7F, 0x51, 0x65, 0x46);
   (0x04, 0xEA, 0x5E, 0x9D); (0x5D, 0x35, 0x8C, 0x01); (0x73, 0x74, 0x87, 0xFA); (0x2E, 0x41, 0x0B, 0xFB);
   (0x5A, 0x1D, 0x67, 0xB3); (0x52, 0xD2, 0xDB, 0x92); (0x33, 0x56, 0x10, 0xE9); (0x13, 0x47, 0xD6, 0x6D);
   (0x8C, 0x61, 0xD7, 0x9A); (0x7A, 0x0C, 0xA1, 0x37); (0x8E, 0x14, 0xF8, 0x59); (0x89, 0x3C, 0x13, 0xEB);
   (0xEE, 0x27, 0xA9, 0xCE); (0x35, 0xC9, 0x61, 0xB7); (0xED, 0xE5, 0x1C, 0xE1); (0x3C, 0xB1, 0x47, 0x7A);
   (0x59, 0xDF, 0xD2, 0x9C); (0x3F, 0x73, 0xF2, 0x55); (0x79, 0xCE, 0x14, 0x18); (0xBF, 0x37, 0xC7, 0x73);
   (0xEA, 0xCD, 0xF7, 0x53); (0x5B, 0xAA, 0xFD, 0x5F); (0x14, 0x6F, 0x3D, 0xDF); (0x86, 0xDB, 0x44, 0x78);
   (0x81, 0xF3, 0xAF, 0xCA); (0x3E, 0xC4, 0x68, 0xB9); (0x2C, 0x34, 0x24, 0x38); (0x5F, 0x40, 0xA3, 0xC2);
   (0x72, 0xC3, 0x1D, 0x16); (0x0C, 0x25, 0xE2, 0xBC); (0x8B, 0x49, 0x3C, 0x28); (0x41, 0x95, 0x0D, 0xFF);
   (0x71, 0x01, 0xA8, 0x39); (0xDE, 0xB3, 0x0C, 0x08); (0x9C, 0xE4, 0xB4, 0xD8); (0x90, 0xC1, 0x56, 0x64);
   (0x61, 0x84, 0xCB, 0x7B); (0x70, 0xB6, 0x32, 0xD5); (0x74, 0x5C, 0x6C, 0x48); (0x42, 0x57, 0xB8, 0xD0)].

Definition rom_round_constants : list Z :=
  [0x00000001; 0x00000002; 0x00000004; 0x00000008; 0x00000010; 0x00000020; 0x00000040; 0x00000080; 0x0000001B; 0x00000036].

Record Tables := mkTables {
  t_FSb : bytes; t_RSb : bytes;
  t_FT0 : list Z; t_FT1 : list Z; t_FT2 : list Z; t_FT3 : list Z;
  t_RT0 : list Z; t_RT1 : list Z; t_RT2 : list Z; t_RT3 : list Z;
  t_round_constants : list Z;
}.

Definition rom_tables : Tables :=
  mkTables FSb RSb (map V0 FT) (map V1 FT) (map V2 FT) (map V3 FT) (map V0 RT) (map V1 RT) (map V2 RT) (map V3 RT)
    rom_round_constants.

(** ** The computation *)

Definition ROTL8 (x : Z) : Z := Z.lor (Z.land (Z.shiftl x 8) 0xFFFFFFFF) (Z.shiftr x 24).
Definition XTIME (x : Z) : Z := Z.lxor (Z.shiftl x 1) (if negb (Z.land x 0x80 =? 0) then 0x1B else 0x00).
Definition MUL (pow log : list Z) (x y : Z) : Z :=
  if negb (x =? 0) && negb (y =? 0)
  then nth (Z.to_nat ((nth (Z.to_nat x) log 0 + nth (Z.to_nat y) log 0) mod 255)) pow 0 else 0.

(** The entries of [pow] and [log], which start uninitialised. *)
Definition pow_log : list Z * list Z :=
  fst (fold_left (fun '(pow, log, x) i =>
         (<[i := x]> pow, <[Z.to_nat x := Z.of_nat i]> log, MBEDTLS_BYTE 0 (Z.lxor x (XTIME x))))
       (seq 0 256) (replicate 256 0, replicate 256 0, 1)).

Definition gen_round_constants : list Z :=
  fst (fold_left (fun '(rc, x) (_ : nat) => (rc ++ [x], MBEDTLS_BYTE 0 (XTIME x))) (seq 0 10) ([], 1)).

Definition sbox_entry (pow log : list Z) (i : nat) : Z :=
  let x := nth (255 - Z.to_nat (nth i log 0)) pow 0 in
  let rot y := MBEDTLS_BYTE 0 (Z.lor (Z.shiftl y 1) (Z.shiftr y 7)) in
  let y := rot x in let x := Z.lxor x y in
  let y := rot y in let x := Z.lxor x y in
  let y := rot y in let x := Z.lxor x y in
  let y := rot y in Z.lxor x (Z.lxor y 0x63).

Definition gen_sboxes (pow log : list Z) : bytes * bytes :=
  fold_left (fun '(fsb, rsb) i =>
      let x := sbox_entry pow log i in (<[i := x]> fsb, <[Z.to_nat x := Z.of_nat i]> rsb))
    (seq 1 255) (<[0%nat := 0x63]> (replicate 256 0), <[Z.to_nat 0x63 := 0]> (replicate 256 0)).

Definition gen_FT0 (fsb : bytes) (i : nat) : Z :=
  let x := nth i fsb 0 in
  let y := MBEDTLS_BYTE 0 (XTIME x) in
  let z := MBEDTLS_BYTE 0 (Z.lxor y x) in
  Z.lxor (Z.lxor (Z.lxor y (Z.shiftl x 8)) (Z.shiftl x 16)) (Z.shiftl z 24).

Definition gen_RT0 (pow log : list Z) (rsb : bytes) (i : nat) : Z :=
  let x := nth i rsb 0 in
  Z.lxor (Z.lxor (Z.lxor (MUL pow log 0x0E x) (Z.shiftl (MUL pow log 0x09 x) 8)) (Z.shiftl (MUL pow log 0x0D x) 16))
    (Z.shiftl (MUL pow log 0x0B x) 24).

Definition aes_gen_tables : Tables :=
  let '(pow, log) := pow_log in
  let '(fsb, rsb) := gen_sboxes pow log in
  let ft0 := map (gen_FT0 fsb) (seq 0 256) in
  let ft1 := map ROTL8 ft0 in
  let ft2 := map ROTL8 ft1 in
  let ft3 := map ROTL8 ft2 in
  let rt0 := map (gen_RT0 pow log rsb) (seq 0 256) in
  let rt1 := map ROTL8 rt0 in
  let rt2 := map ROTL8 rt1 in
  let rt3 := map ROTL8 rt2 in
  mkTables fsb rsb ft0 ft1 ft2 ft3 rt0 rt1 rt2 rt3 gen_round_constants.

(** The build with fewer tables keeps the first of each four. *)
Definition rotl (k x : Z) : Z := u32 (Z.shiftl x k) + Z.shiftr x (32 - k).
Definition fewer_tables (t : Tables) : Tables :=
  mkTables (t_FSb t) (t_RSb t)
    (t_FT0 t) (map (rotl 8) (t_FT0 t)) (map (rotl 16) (t_FT0 t)) (map (rotl 24) (t_FT0 t))
    (t_RT0 t) (map (rotl 8) (t_RT0 t)) (map (rotl 16) (t_RT0 t)) (map (rotl 24) (t_RT0 t)) (t_round_constants t).

(** ** GF(2^8) (FIPS 197, section 4.2) *)

(** Multiplication by x modulo x^8 + x^4 + x^3 + x + 1. *)
Definition xtime (b : Z) : Z := Z.lxor (2 * b mod 256) (if b <? 128 then 0 else 0x1b).

Fixpoint gmul_bits (n : nat) (a b : Z) : Z :=
  match n with O => 0 | S n => Z.lxor (if Z.odd a then b else 0) (gmul_bits n (a / 2) (xtime b)) end.
Definition gmul : Z -> Z -> Z := gmul_bits 8.

(** The inverse, and 0 of 0: the 254th power, by squaring. *)
Definition ginv (b : Z) : Z :=
  let sq x := gmul x x in
  let b2 := sq b in let b4 := sq b2 in let b8 := sq b4 in let b16 := sq b8 in let b32 := sq b16 in
  let b64 := sq b32 in let b128 := sq b64 in
  gmul b128 (gmul b64 (gmul b32 (gmul b16 (gmul b8 (gmul b4 b2))))).

(** Bit i of the result is the sum of the bits i, i+4, ..., i+7 of [b] and of
    0x63. *)
Definition affine (b : Z) : Z :=
  let bit i := Z.b2z (xorb (xorb (xorb (xorb (xorb (Z.testbit b i) (Z.testbit b ((i + 4) mod 8))) (Z.testbit b ((i + 5) mod 8)))
                 (Z.testbit b ((i + 6) mod 8))) (Z.testbit b ((i + 7) mod 8))) (Z.testbit 0x63 i)) in
  bit 0 + 2 * bit 1 + 4 * bit 2 + 8 * bit 3 + 16 * bit 4 + 32 * bit 5 + 64 * bit 6 + 128 * bit 7.

Definition sub_byte (b : Z) : Z := affine (ginv b).

(** ** What the tables hold *)

Definition lookup_byte (t : bytes) (b : Z) : Z := nth (Z.to_nat b) t 0.
Definition all_bytes : bytes := map Z.of_nat (seq 0 256).

Lemma byte_eq_check (f g : Z -> Z) b : forallb (fun b => f b =? g b) all_bytes = true -> is_byte b -> f b = g b.
Proof. intros H Hb. apply Z.eqb_eq. revert b Hb. intros b. by apply (byte_check (fun b => f b =? g b)). Qed.

Lemma byte_byte_check (P : Z -> Z -> bool) a b :
  forallb (fun a => forallb (P a) all_bytes) all_bytes = true -> is_byte a -> is_byte b -> P a b = true.
Proof.
  intros H Ha Hb. apply (byte_check (P a)); [|exact Hb].
  by apply (byte_check (fun a => forallb (P a) all_bytes)).
Qed.

Lemma fsb_sub_byte b : is_byte b -> lookup_byte FSb b = sub_byte b.
Proof. apply (byte_eq_check (lookup_byte FSb) sub_byte). vm_compute. reflexivity. Qed.

Lemma fsb_byte b : is_byte b -> is_byte (lookup_byte FSb b).
Proof. intros Hb. apply is_byteb_spec. revert b Hb. intros b. apply (byte_check (fun b => is_byteb (lookup_byte FSb b))). vm_compute. reflexivity. Qed.

Lemma rsb_byte b : is_byte b -> is_byte (lookup_byte RSb b).
Proof. intros Hb. apply is_byteb_spec. revert b Hb. intros b. apply (byte_check (fun b => is_byteb (lookup_byte RSb b))). vm_compute. reflexivity. Qed.

Lemma rsb_fsb b : is_byte b -> lookup_byte RSb (lookup_byte FSb b) = b.
Proof. apply (byte_eq_check (fun b => lookup_byte RSb (lookup_byte FSb b)) (fun b => b)). vm_compute. reflexivity. Qed.

Lemma fsb_rsb b : is_byte b -> lookup_byte FSb (lookup_byte RSb b) = b.
Proof. apply (byte_eq_check (fun b => lookup_byte FSb (lookup_byte RSb b)) (fun b => b)). vm_compute. reflexivity. Qed.

Lemma xtime_linear a b : is_byte a -> is_byte b -> xtime (Z.lxor a b) = Z.lxor (xtime a) (xtime b).
Proof.
  intros Ha Hb. apply Z.eqb_eq.
  apply (byte_byte_check (fun a b => xtime (Z.lxor a b) =? Z.lxor (xtime a) (xtime b))); [vm_compute; reflexivity|done..].
Qed.

Lemma xtime_byte b : is_byte b -> is_byte (xtime b).
Proof. intros Hb. unfold xtime. apply lxor_byte; [apply mod256_byte|]. case_if; by unfold is_byte. Qed.

Lemma gmul_linear c a b : is_byte a -> is_byte b -> gmul c (Z.lxor a b) = Z.lxor (gmul c a) (gmul c b).
Proof.
  unfold gmul. generalize 8%nat as n. intros n. revert c a b. induction n as [|n IH]; intros c a b Ha Hb; [done|].
  cbn [gmul_bits]. rewrite xtime_linear, IH by auto using xtime_byte.
  set (x := gmul_bits n _ _). set (y := gmul_bits n _ _). destruct (Z.odd c); [|by rewrite !Z.lxor_0_l].
  rewrite !Z.lxor_assoc. f_equal. rewrite <- !Z.lxor_assoc. f_equal. apply Z.lxor_comm.
Qed.

Lemma gmul_byte c b : is_byte b -> is_byte (gmul c b).
Proof.
  unfold gmul. generalize 8%nat as n. intros n. revert c b. induction n as [|n IH]; intros c b Hb; [by unfold is_byte|].
  cbn [gmul_bits]. apply lxor_byte; [case_if; [done|by unfold is_byte]|]. by apply IH, xtime_byte.
Qed.

Lemma gmul_1 b : is_byte b -> gmul 1 b = b.
Proof. apply (byte_eq_check (gmul 1) (fun b => b)). vm_compute. reflexivity. Qed.

(** The four bytes of a table word, the low one first. *)
Definition lookup_word (t : list Z) (b : Z) : bytes := MBEDTLS_PUT_UINT32_LE (nth (Z.to_nat b) t 0).

Lemma bytes_list_check (f g : Z -> bytes) b : forallb (fun b => bytes_eqb (f b) (g b)) all_bytes = true -> is_byte b -> f b = g b.
Proof. intros H Hb. apply bytes_eqb_eq. revert b Hb. intros b. by apply (byte_check (fun b => bytes_eqb (f b) (g b))). Qed.

Ltac by_all_bytes f g := apply (bytes_list_check f g); vm_compute; reflexivity.

Lemma ft0_word b : is_byte b ->
  lookup_word (map V0 FT) b = let s := lookup_byte FSb b in [gmul 2 s; s; s; gmul 3 s].
Proof. by_all_bytes (lookup_word (map V0 FT)) (fun b => let s := lookup_byte FSb b in [gmul 2 s; s; s; gmul 3 s]). Qed.
Lemma ft1_word b : is_byte b ->
  lookup_word (map V1 FT) b = let s := lookup_byte FSb b in [gmul 3 s; gmul 2 s; s; s].
Proof. by_all_bytes (lookup_word (map V1 FT)) (fun b => let s := lookup_byte FSb b in [gmul 3 s; gmul 2 s; s; s]). Qed.
Lemma ft2_word b : is_byte b ->
  lookup_word (map V2 FT) b = let s := lookup_byte FSb b in [s; gmul 3 s; gmul 2 s; s].
Proof. by_all_bytes (lookup_word (map V2 FT)) (fun b => let s := lookup_byte FSb b in [s; gmul 3 s; gmul 2 s; s]). Qed.
Lemma ft3_word b : is_byte b ->
  lookup_word (map V3 FT) b = let s := lookup_byte FSb b in [s; s; gmul 3 s; gmul 2 s].
Proof. by_all_bytes (lookup_word (map V3 FT)) (fun b => let s := lookup_byte FSb b in [s; s; gmul 3 s; gmul 2 s]). Qed.

Lemma rt0_word b : is_byte b ->
  lookup_word (map V0 RT) b = let s := lookup_byte RSb b in [gmul 14 s; gmul 9 s; gmul 13 s; gmul 11 s].
Proof. by_all_bytes (lookup_word (map V0 RT)) (fun b => let s := lookup_byte RSb b in [gmul 14 s; gmul 9 s; gmul 13 s; gmul 11 s]). Qed.
Lemma rt1_word b : is_byte b ->
  lookup_word (map V1 RT) b = let s := lookup_byte RSb b in [gmul 11 s; gmul 14 s; gmul 9 s; gmul 13 s].
Proof. by_all_bytes (lookup_word (map V1 RT)) (fun b => let s := lookup_byte RSb b in [gmul 11 s; gmul 14 s; gmul 9 s; gmul 13 s]). Qed.
Lemma rt2_word b : is_byte b ->
  lookup_word (map V2 RT) b = let s := lookup_byte RSb b in [gmul 13 s; gmul 11 s; gmul 14 s; gmul 9 s].
Proof. by_all_bytes (lookup_word (map V2 RT)) (fun b => let s := lookup_byte RSb b in [gmul 13 s; gmul 11 s; gmul 14 s; gmul 9 s]). Qed.
Lemma rt3_word b : is_byte b ->
  lookup_word (map V3 RT) b = let s := lookup_byte RSb b in [gmul 9 s; gmul 13 s; gmul 11 s; gmul 14 s].
Proof. by_all_bytes (lookup_word (map V3 RT)) (fun b => let s := lookup_byte RSb b in [gmul 9 s; gmul 13 s; gmul 11 s; gmul 14 s]). Qed.

(** The round tables hold 32-bit words. *)
Definition table_ok (t : list Z) : Prop := forall b, 0 <= nth (Z.to_nat b) t 0 < 2 ^ 32.

Lemma table_ok_check t : forallb (fun w => (0 <=? w) && (w <? 2 ^ 32)) t = true -> table_ok t.
Proof.
  intros H b. rewrite forallb_forall in H. destruct (nth_in_or_default (Z.to_nat b) t 0) as [Hi| ->]; [|lia].
  specialize (H _ Hi). to_prop. lia.
Qed.

Lemma rom_tables_words :
  Forall table_ok [map V0 FT; map V1 FT; map V2 FT; map V3 FT; map V0 RT; map V1 RT; map V2 RT; map V3 RT].
Proof. repeat (apply List.Forall_cons; [apply table_ok_check; vm_compute; reflexivity|]). apply List.Forall_nil. Qed.

(** C40. The tables of AES.  The tables [aes_gen_tables] computes at the first key
    are, entry for entry, the constants of the build with tables in ROM, and the
    rotations of the build with fewer tables are the tables they replace; they hold
    the S-box of FIPS 197 (the affine map of the inverse in GF(2^8)) and its
    inverse, and the columns of [MixColumns] after the S-box and of
    [InvMixColumns] after the inverse S-box; the round constants are the powers of
    x. *)
Theorem aes_tables_agree :
  aes_gen_tables = rom_tables /\ fewer_tables rom_tables = rom_tables /\
  (forall b, is_byte b ->
     let s := sub_byte b in let r := lookup_byte (t_RSb rom_tables) b in
     lookup_byte (t_FSb rom_tables) b = s /\ lookup_byte (t_RSb rom_tables) s = b /\ sub_byte r = b /\
     lookup_word (t_FT0 rom_tables) b = [gmul 2 s; s; s; gmul 3 s] /\
     lookup_word (t_RT0 rom_tables) b = [gmul 14 r; gmul 9 r; gmul 13 r; gmul 11 r]) /\
  (forall i, (i < 10)%nat -> nth i (t_round_constants rom_tables) 0 = Nat.iter i xtime 1).
Proof.
  split; [vm_compute; reflexivity|]. split; [vm_compute; reflexivity|]. split.
  - intros b Hb. cbv zeta. cbn [rom_tables t_FSb t_RSb t_FT0 t_RT0].
    rewrite <- fsb_sub_byte, <- (fsb_sub_byte (lookup_byte RSb b)) by auto using rsb_byte.
    rewrite rsb_fsb, fsb_rsb, ft0_word, rt0_word by exact Hb. done.
  - intros i Hi. do 10 (destruct i as [|i]; [reflexivity|]). lia.
Qed.
End AesTables.
