(* ===== verification/Aes.v ===== *)
(** AES (mbedtls/library/aes.c): the key schedules, a block in both directions, with
    the unrolled rounds on 32-bit words and the tables of [AesTables].  The
    theorems relate them to the cipher of FIPS 197 on a state of sixteen bytes,
    and show that decryption with the schedule of [mbedtls_aes_setkey_dec] inverts
    encryption.  The schedules fill [ctx->buf] from its start: the offset that
    aligns them is only used with AES-NI and Padlock, which this model leaves out. *)
From S2P Require Import Prelude CString Words AesTables.
From stdpp Require Import list.
#[local] Open Scope Z_scope.

Module Aes.
Import AesTables.
#[local] Infix "⊕" := Z.lxor (at level 50, left associativity).

(** ** The context and the key schedules *)

Definition MBEDTLS_AES_ENCRYPT : Z := 1.
Definition MBEDTLS_AES_DECRYPT : Z := 0.
Definition MBEDTLS_ERR_AES_INVALID_KEY_LENGTH : Z := -0x0020.
Definition MBEDTLS_ERR_AES_INVALID_INPUT_LENGTH : Z := -0x0022.
Definition MBEDTLS_ERR_AES_BAD_INPUT_DATA : Z := -0x0021.

(** [rk] is the part of [buf] that was written. *)
Record mbedtls_aes_context := mkAes { nr : Z; rk : list Z }.

Definition mbedtls_aes_init : mbedtls_aes_context := mkAes 0 [].

Definition FS (x : Z) : Z := lookup_byte FSb x.
Definition RS (x : Z) : Z := lookup_byte RSb x.
Definition table (t : list Z) (idx : Z) : Z := nth (Z.to_nat idx) t 0.
Definition AES_FT0 : Z -> Z := table (map V0 FT).
Definition AES_FT1 : Z -> Z := table (map V1 FT).
Definition AES_FT2 : Z -> Z := table (map V2 FT).
Definition AES_FT3 : Z -> Z := table (map V3 FT).
Definition AES_RT0 : Z -> Z := table (map V0 RT).
Definition AES_RT1 : Z -> Z := table (map V1 RT).
Definition AES_RT2 : Z -> Z := table (map V2 RT).
Definition AES_RT3 : Z -> Z := table (map V3 RT).

Definition BYTE_0 : Z -> Z := MBEDTLS_BYTE 0.
Definition BYTE_1 : Z -> Z := MBEDTLS_BYTE 1.
Definition BYTE_2 : Z -> Z := MBEDTLS_BYTE 2.
Definition BYTE_3 : Z -> Z := MBEDTLS_BYTE 3.

Definition round_constant (i : nat) : Z := nth i rom_round_constants 0.

(** The three loops of the schedule, [n] turns from turn [i]; [rk] holds what was
    written and [RK] points to its element [4 * i], [6 * i], [8 * i]. *)
Fixpoint expand_10 (n i : nat) (rk : list Z) : list Z :=
  match n with
  | O => rk
  | S n =>
      let RK j := nth (4 * i + j) rk 0 in
      let RK4 := RK 0%nat ⊕ round_constant i ⊕ FS (BYTE_1 (RK 3%nat)) ⊕ Z.shiftl (FS (BYTE_2 (RK 3%nat))) 8
                 ⊕ Z.shiftl (FS (BYTE_3 (RK 3%nat))) 16 ⊕ Z.shiftl (FS (BYTE_0 (RK 3%nat))) 24 in
      let RK5 := RK 1%nat ⊕ RK4 in
      let RK6 := RK 2%nat ⊕ RK5 in
      let RK7 := RK 3%nat ⊕ RK6 in
      expand_10 n (S i) (rk ++ [RK4; RK5; RK6; RK7])
  end.

Fixpoint expand_12 (n i : nat) (rk : list Z) : list Z :=
  match n with
  | O => rk
  | S n =>
      let RK j := nth (6 * i + j) rk 0 in
      let RK6 := RK 0%nat ⊕ round_constant i ⊕ FS (BYTE_1 (RK 5%nat)) ⊕ Z.shiftl (FS (BYTE_2 (RK 5%nat))) 8
                 ⊕ Z.shiftl (FS (BYTE_3 (RK 5%nat))) 16 ⊕ Z.shiftl (FS (BYTE_0 (RK 5%nat))) 24 in
      let RK7 := RK 1%nat ⊕ RK6 in
      let RK8 := RK 2%nat ⊕ RK7 in
      let RK9 := RK 3%nat ⊕ RK8 in
      let RK10 := RK 4%nat ⊕ RK9 in
      let RK11 := RK 5%nat ⊕ RK10 in
      expand_12 n (S i) (rk ++ [RK6; RK7; RK8; RK9; RK10; RK11])
  end.

Fixpoint expand_14 (n i : nat) (rk : list Z) : list Z :=
  match n with
  | O => rk
  | S n =>
      let RK j := nth (8 * i + j) rk 0 in
      let RK8 := RK 0%nat ⊕ round_constant i ⊕ FS (BYTE_1 (RK 7%nat)) ⊕ Z.shiftl (FS (BYTE_2 (RK 7%nat))) 8
                 ⊕ Z.shiftl (FS (BYTE_3 (RK 7%nat))) 16 ⊕ Z.shiftl (FS (BYTE_0 (RK 7%nat))) 24 in
      let RK9 := RK 1%nat ⊕ RK8 in
      let RK10 := RK 2%nat ⊕ RK9 in
      let RK11 := RK 3%nat ⊕ RK10 in
      let RK12 := RK 4%nat ⊕ FS (BYTE_0 RK11) ⊕ Z.shiftl (FS (BYTE_1 RK11)) 8
                  ⊕ Z.shiftl (FS (BYTE_2 RK11)) 16 ⊕ Z.shiftl (FS (BYTE_3 RK11)) 24 in
      let RK13 := RK 5%nat ⊕ RK12 in
      let RK14 := RK 6%nat ⊕ RK13 in
      let RK15 := RK 7%nat ⊕ RK14 in
      expand_14 n (S i) (rk ++ [RK8; RK9; RK10; RK11; RK12; RK13; RK14; RK15])
  end.

Definition mbedtls_aes_setkey_enc (ctx : mbedtls_aes_context) (key : bytes) (keybits : Z) : Z * mbedtls_aes_context :=
  let words := words_le (Z.to_nat (Z.shiftr keybits 5)) key in
  if keybits =? 128 then (0, mkAes 10 (expand_10 10 0 words))
  else if keybits =? 192 then (0, mkAes 12 (expand_12 8 0 words))
  else if keybits =? 256 then (0, mkAes 14 (expand_14 7 0 words))
  else (MBEDTLS_ERR_AES_INVALID_KEY_LENGTH, ctx).

(** [SK] is the encryption schedule, read at [sk]. *)
Definition copy4 (SK : list Z) (sk : nat) : list Z := map (fun j => nth (sk + j) SK 0) (seq 0 4).

Definition invert4 (SK : list Z) (sk : nat) : list Z :=
  map (fun j => let w := nth (sk + j) SK 0 in
         AES_RT0 (FS (BYTE_0 w)) ⊕ AES_RT1 (FS (BYTE_1 w)) ⊕ AES_RT2 (FS (BYTE_2 w)) ⊕ AES_RT3 (FS (BYTE_3 w)))
    (seq 0 4).

(** From [i] down to 1; [SK] moves four words back in a turn. *)
Fixpoint invert_rounds (i : nat) (SK : list Z) (sk : nat) : list Z :=
  match i with O => [] | S i => invert4 SK sk ++ invert_rounds i SK (sk - 4) end.

Definition mbedtls_aes_setkey_dec (ctx : mbedtls_aes_context) (key : bytes) (keybits : Z) : Z * mbedtls_aes_context :=
  let '(ret, cty) := mbedtls_aes_setkey_enc mbedtls_aes_init key keybits in
  if negb (ret =? 0) then (ret, mkAes (nr ctx) (rk ctx))
  else
    let last := Z.to_nat (4 * nr cty) in
    (0, mkAes (nr cty)
          (copy4 (rk cty) last ++ invert_rounds (Z.to_nat (nr cty - 1)) (rk cty) (last - 4) ++ copy4 (rk cty) 0)).

(** ** A block *)

Record words4 := W4 { w0 : Z; w1 : Z; w2 : Z; w3 : Z }.

(** [*RK++] four times. *)
Definition AES_FROUND (RK : list Z) (Y : words4) : words4 :=
  let '(W4 y0 y1 y2 y3) := Y in
  W4 (nth 0 RK 0 ⊕ AES_FT0 (BYTE_0 y0) ⊕ AES_FT1 (BYTE_1 y1) ⊕ AES_FT2 (BYTE_2 y2) ⊕ AES_FT3 (BYTE_3 y3))
     (nth 1 RK 0 ⊕ AES_FT0 (BYTE_0 y1) ⊕ AES_FT1 (BYTE_1 y2) ⊕ AES_FT2 (BYTE_2 y3) ⊕ AES_FT3 (BYTE_3 y0))
     (nth 2 RK 0 ⊕ AES_FT0 (BYTE_0 y2) ⊕ AES_FT1 (BYTE_1 y3) ⊕ AES_FT2 (BYTE_2 y0) ⊕ AES_FT3 (BYTE_3 y1))
     (nth 3 RK 0 ⊕ AES_FT0 (BYTE_0 y3) ⊕ AES_FT1 (BYTE_1 y0) ⊕ AES_FT2 (BYTE_2 y1) ⊕ AES_FT3 (BYTE_3 y2)).

Definition AES_RROUND (RK : list Z) (Y : words4) : words4 :=
  let '(W4 y0 y1 y2 y3) := Y in
  W4 (nth 0 RK 0 ⊕ AES_RT0 (BYTE_0 y0) ⊕ AES_RT1 (BYTE_1 y3) ⊕ AES_RT2 (BYTE_2 y2) ⊕ AES_RT3 (BYTE_3 y1))
     (nth 1 RK 0 ⊕ AES_RT0 (BYTE_0 y1) ⊕ AES_RT1 (BYTE_1 y0) ⊕ AES_RT2 (BYTE_2 y3) ⊕ AES_RT3 (BYTE_3 y2))
     (nth 2 RK 0 ⊕ AES_RT0 (BYTE_0 y2) ⊕ AES_RT1 (BYTE_1 y1) ⊕ AES_RT2 (BYTE_2 y0) ⊕ AES_RT3 (BYTE_3 y3))
     (nth 3 RK 0 ⊕ AES_RT0 (BYTE_0 y3) ⊕ AES_RT1 (BYTE_1 y2) ⊕ AES_RT2 (BYTE_2 y1) ⊕ AES_RT3 (BYTE_3 y0)).

Definition load_block (RK : list Z) (input : bytes) : words4 :=
  W4 (MBEDTLS_GET_UINT32_LE input 0 ⊕ nth 0 RK 0) (MBEDTLS_GET_UINT32_LE input 4 ⊕ nth 1 RK 0)
     (MBEDTLS_GET_UINT32_LE input 8 ⊕ nth 2 RK 0) (MBEDTLS_GET_UINT32_LE input 12 ⊕ nth 3 RK 0).

Definition store_block (X : words4) : bytes :=
  MBEDTLS_PUT_UINT32_LE (w0 X) ++ MBEDTLS_PUT_UINT32_LE (w1 X) ++ MBEDTLS_PUT_UINT32_LE (w2 X) ++ MBEDTLS_PUT_UINT32_LE (w3 X).

(** The loop of two rounds, and where it leaves [RK]. *)
Fixpoint round_pairs (round : list Z -> words4 -> words4) (i : nat) (RK : list Z) (X : words4) : list Z * words4 :=
  match i with
  | O => (RK, X)
  | S i =>
      let Y := round RK X in
      let X := round (drop 4 RK) Y in
      round_pairs round i (drop 4 (drop 4 RK)) X
  end.

(** The four bytes of a last round, from the S-box [S]. *)
Definition last_word (S : Z -> Z) (k a b c d : Z) : Z :=
  k ⊕ S (BYTE_0 a) ⊕ Z.shiftl (S (BYTE_1 b)) 8 ⊕ Z.shiftl (S (BYTE_2 c)) 16 ⊕ Z.shiftl (S (BYTE_3 d)) 24.

Definition mbedtls_internal_aes_encrypt (ctx : mbedtls_aes_context) (input : bytes) : bytes :=
  let X := load_block (rk ctx) input in
  let '(RK, X) := round_pairs AES_FROUND (Z.to_nat (Z.shiftr (nr ctx) 1 - 1)) (drop 4 (rk ctx)) X in
  let '(W4 y0 y1 y2 y3) := AES_FROUND RK X in
  let RK := drop 4 RK in
  store_block (W4 (last_word FS (nth 0 RK 0) y0 y1 y2 y3) (last_word FS (nth 1 RK 0) y1 y2 y3 y0)
                  (last_word FS (nth 2 RK 0) y2 y3 y0 y1) (last_word FS (nth 3 RK 0) y3 y0 y1 y2)).

Definition mbedtls_internal_aes_decrypt (ctx : mbedtls_aes_context) (input : bytes) : bytes :=
  let X := load_block (rk ctx) input in
  let '(RK, X) := round_pairs AES_RROUND (Z.to_nat (Z.shiftr (nr ctx) 1 - 1)) (drop 4 (rk ctx)) X in
  let '(W4 y0 y1 y2 y3) := AES_RROUND RK X in
  let RK := drop 4 RK in
  store_block (W4 (last_word RS (nth 0 RK 0) y0 y3 y2 y1) (last_word RS (nth 1 RK 0) y1 y0 y3 y2)
                  (last_word RS (nth 2 RK 0) y2 y1 y0 y3) (last_word RS (nth 3 RK 0) y3 y2 y1 y0)).

Definition mbedtls_aes_crypt_ecb (ctx : mbedtls_aes_context) (mode : Z) (input : bytes) : bytes :=
  if mode =? MBEDTLS_AES_ENCRYPT then mbedtls_internal_aes_encrypt ctx input else mbedtls_internal_aes_decrypt ctx input.

(** ** FIPS 197 *)

(** The state in the order of the input: row r of column c is byte r + 4 c. *)
Definition sub_bytes : bytes -> bytes := map sub_byte.
Definition shift_rows (s : bytes) : bytes := map (fun i => nth ((i + 4 * (i mod 4)) mod 16) s 0) (seq 0 16).
Definition mix_column (c : bytes) : bytes :=
  match c with
  | [a; b; c; d] =>
      [gmul 2 a ⊕ gmul 3 b ⊕ c ⊕ d; a ⊕ gmul 2 b ⊕ gmul 3 c ⊕ d; a ⊕ b ⊕ gmul 2 c ⊕ gmul 3 d; gmul 3 a ⊕ b ⊕ c ⊕ gmul 2 d]
  | c => c
  end.
Definition inv_mix_column (c : bytes) : bytes :=
  match c with
  | [a; b; c; d] =>
      [gmul 14 a ⊕ gmul 11 b ⊕ gmul 13 c ⊕ gmul 9 d; gmul 9 a ⊕ gmul 14 b ⊕ gmul 11 c ⊕ gmul 13 d;
       gmul 13 a ⊕ gmul 9 b ⊕ gmul 14 c ⊕ gmul 11 d; gmul 11 a ⊕ gmul 13 b ⊕ gmul 9 c ⊕ gmul 14 d]
  | c => c
  end.
Definition columns (f : bytes -> bytes) (s : bytes) : bytes :=
  f (take 4 s) ++ f (take 4 (drop 4 s)) ++ f (take 4 (drop 8 s)) ++ f (take 4 (drop 12 s)).
Definition mix_columns : bytes -> bytes := columns mix_column.
Definition add_round_key (s k : bytes) : bytes := zip_with Z.lxor s k.

(** The schedule is a list of words of four bytes. *)
Definition round_key (w : list bytes) (round : nat) : bytes := concat (take 4 (drop (4 * round) w)).

Definition cipher (Nr : nat) (w : list bytes) (input : bytes) : bytes :=
  let state := add_round_key input (round_key w 0) in
  let state := fold_left (fun state round => add_round_key (mix_columns (shift_rows (sub_bytes state))) (round_key w round))
                 (seq 1 (Nr - 1)) state in
  add_round_key (shift_rows (sub_bytes state)) (round_key w Nr).

Definition rot_word (w : bytes) : bytes := drop 1 w ++ take 1 w.
Definition Rcon (i : nat) : bytes := [Nat.iter (i - 1) xtime 1; 0; 0; 0].

(** [n] more words of the schedule of a key of [Nk] words. *)
Fixpoint key_expansion (Nk n : nat) (w : list bytes) : list bytes :=
  match n with
  | O => w
  | S n =>
      let i := length w in
      let temp := nth (i - 1) w [] in
      let temp :=
        if (i mod Nk =? 0)%nat then zip_with Z.lxor (sub_bytes (rot_word temp)) (Rcon (i / Nk))
        else if (6 <? Nk)%nat && (i mod Nk =? 4)%nat then sub_bytes temp else temp in
      key_expansion Nk n (w ++ [zip_with Z.lxor (nth (i - Nk) w []) temp])
  end.

Fixpoint key_words (n : nat) (key : bytes) : list bytes :=
  match n with O => [] | S n => take 4 key :: key_words n (drop 4 key) end.

(** FIPS 197 for a key of 4, 6 or 8 words. *)
Definition aes_spec (key input : bytes) : bytes :=
  let Nk := (length key / 4)%nat in
  let Nr := (Nk + 6)%nat in
  cipher Nr (key_expansion Nk (4 * (Nr + 1) - Nk) (key_words Nk key)) input.

(** FIPS 197, appendices A and B. *)
Example fips_b :
  aes_spec [0x2b;0x7e;0x15;0x16;0x28;0xae;0xd2;0xa6;0xab;0xf7;0x15;0x88;0x09;0xcf;0x4f;0x3c]
    [0x32;0x43;0xf6;0xa8;0x88;0x5a;0x30;0x8d;0x31;0x31;0x98;0xa2;0xe0;0x37;0x07;0x34] =
  [0x39;0x25;0x84;0x1d;0x02;0xdc;0x09;0xfb;0xdc;0x11;0x85;0x97;0x19;0x6a;0x0b;0x32].
Proof. vm_compute. reflexivity. Qed.

Definition sample_key (n : nat) : bytes := map Z.of_nat (seq 0 n).
Definition sample_block : bytes := map (fun i => 17 * Z.of_nat i) (seq 0 16).

Example fips_c3 :
  let ctx := snd (mbedtls_aes_setkey_enc mbedtls_aes_init (sample_key 32) 256) in
  mbedtls_aes_crypt_ecb ctx MBEDTLS_AES_ENCRYPT sample_block =
  [0x8e;0xa2;0xb7;0xca;0x51;0x67;0x45;0xbf;0xea;0xfc;0x49;0x90;0x4b;0x49;0x60;0x89] /\
  aes_spec (sample_key 32) sample_block = mbedtls_aes_crypt_ecb ctx MBEDTLS_AES_ENCRYPT sample_block.
Proof. vm_compute. split; reflexivity. Qed.

Example decrypts :
  let ctx := snd (mbedtls_aes_setkey_dec mbedtls_aes_init (sample_key 24) 192) in
  mbedtls_aes_crypt_ecb ctx MBEDTLS_AES_DECRYPT (aes_spec (sample_key 24) sample_block) = sample_block.
Proof. vm_compute. reflexivity. Qed.

(** ** Words and bytes *)

Lemma byte_lxor k a b : MBEDTLS_BYTE k (a ⊕ b) = MBEDTLS_BYTE k a ⊕ MBEDTLS_BYTE k b.
Proof.
  unfold MBEDTLS_BYTE. rewrite Z.shiftr_lxor. apply Z.bits_inj'. intros n Hn.
  rewrite Z.land_spec, !Z.lxor_spec, !Z.land_spec. by destruct (Z.testbit 255 n), (Z.testbit (Z.shiftr a _) n), (Z.testbit (Z.shiftr b _) n).
Qed.

Lemma byte_is_byte k x : is_byte (MBEDTLS_BYTE k x).
Proof. unfold MBEDTLS_BYTE. rewrite land_255. apply mod256_byte. Qed.
Create HintDb aes.
#[local] Hint Resolve byte_is_byte fsb_byte rsb_byte gmul_byte lxor_byte mod256_byte : aes.

Lemma put_lxor a b : MBEDTLS_PUT_UINT32_LE (a ⊕ b) = zip_with Z.lxor (MBEDTLS_PUT_UINT32_LE a) (MBEDTLS_PUT_UINT32_LE b).
Proof. unfold MBEDTLS_PUT_UINT32_LE. by rewrite !byte_lxor. Qed.

(** The bytes of a byte shifted to one of the four places. *)
Lemma put_place a : is_byte a ->
  MBEDTLS_PUT_UINT32_LE a = [a; 0; 0; 0] /\ MBEDTLS_PUT_UINT32_LE (Z.shiftl a 8) = [0; a; 0; 0] /\
  MBEDTLS_PUT_UINT32_LE (Z.shiftl a 16) = [0; 0; a; 0] /\ MBEDTLS_PUT_UINT32_LE (Z.shiftl a 24) = [0; 0; 0; a].
Proof.
  intros Ha. split; [|split; [|split]]; revert Ha.
  - by_all_bytes MBEDTLS_PUT_UINT32_LE (fun a => [a; 0; 0; 0]).
  - by_all_bytes (fun a => MBEDTLS_PUT_UINT32_LE (Z.shiftl a 8)) (fun a => [0; a; 0; 0]).
  - by_all_bytes (fun a => MBEDTLS_PUT_UINT32_LE (Z.shiftl a 16)) (fun a => [0; 0; a; 0]).
  - by_all_bytes (fun a => MBEDTLS_PUT_UINT32_LE (Z.shiftl a 24)) (fun a => [0; 0; 0; a]).
Qed.

Definition key_bytes (RK : list Z) : bytes := store_block (W4 (nth 0 RK 0) (nth 1 RK 0) (nth 2 RK 0) (nth 3 RK 0)).

(** The key is the first summand of the code and the last of the standard. *)
Lemma key_last k a b c d : k ⊕ a ⊕ b ⊕ c ⊕ d = a ⊕ b ⊕ c ⊕ d ⊕ k.
Proof. by rewrite (Z.lxor_assoc k a b), (Z.lxor_assoc k _ c), (Z.lxor_assoc k _ d), Z.lxor_comm. Qed.

(** Equal lists, entry by entry with [lem]. *)
Ltac by_entries lem := repeat (apply (f_equal2 cons); [apply lem|]); reflexivity.

Lemma ft_words b : is_byte b -> let s := sub_byte b in
  MBEDTLS_PUT_UINT32_LE (AES_FT0 b) = [gmul 2 s; s; s; gmul 3 s] /\ MBEDTLS_PUT_UINT32_LE (AES_FT1 b) = [gmul 3 s; gmul 2 s; s; s] /\
  MBEDTLS_PUT_UINT32_LE (AES_FT2 b) = [s; gmul 3 s; gmul 2 s; s] /\ MBEDTLS_PUT_UINT32_LE (AES_FT3 b) = [s; s; gmul 3 s; gmul 2 s].
Proof.
  intros Hb. cbv zeta. rewrite <- fsb_sub_byte by exact Hb.
  split; [exact (ft0_word b Hb)|]. split; [exact (ft1_word b Hb)|]. split; [exact (ft2_word b Hb)|exact (ft3_word b Hb)].
Qed.

Lemma rt_words b : is_byte b -> let s := RS b in
  MBEDTLS_PUT_UINT32_LE (AES_RT0 b) = [gmul 14 s; gmul 9 s; gmul 13 s; gmul 11 s] /\
  MBEDTLS_PUT_UINT32_LE (AES_RT1 b) = [gmul 11 s; gmul 14 s; gmul 9 s; gmul 13 s] /\
  MBEDTLS_PUT_UINT32_LE (AES_RT2 b) = [gmul 13 s; gmul 11 s; gmul 14 s; gmul 9 s] /\
  MBEDTLS_PUT_UINT32_LE (AES_RT3 b) = [gmul 9 s; gmul 13 s; gmul 11 s; gmul 14 s].
Proof.
  intros Hb. split; [exact (rt0_word b Hb)|]. split; [exact (rt1_word b Hb)|]. split; [exact (rt2_word b Hb)|exact (rt3_word b Hb)].
Qed.

(** ** Encryption *)

Definition spec_round (state key : bytes) : bytes := add_round_key (mix_columns (shift_rows (sub_bytes state))) key.
Definition spec_last (state key : bytes) : bytes := add_round_key (shift_rows (sub_bytes state)) key.

Lemma fround_spec RK Y : store_block (AES_FROUND RK Y) = spec_round (store_block Y) (key_bytes RK).
Proof.
  destruct Y as [y0 y1 y2 y3]. unfold store_block, key_bytes, AES_FROUND. cbn [w0 w1 w2 w3]. rewrite !put_lxor.
  unfold BYTE_0, BYTE_1, BYTE_2, BYTE_3.
  repeat match goal with |- context [AES_FT0 (MBEDTLS_BYTE 0 ?y)] => rewrite (proj1 (ft_words _ (byte_is_byte 0 y))) end.
  repeat match goal with |- context [AES_FT1 (MBEDTLS_BYTE 1 ?y)] => rewrite (proj1 (proj2 (ft_words _ (byte_is_byte 1 y)))) end.
  repeat match goal with |- context [AES_FT2 (MBEDTLS_BYTE 2 ?y)] => rewrite (proj1 (proj2 (proj2 (ft_words _ (byte_is_byte 2 y))))) end.
  repeat match goal with |- context [AES_FT3 (MBEDTLS_BYTE 3 ?y)] => rewrite (proj2 (proj2 (proj2 (ft_words _ (byte_is_byte 3 y))))) end.
  unfold MBEDTLS_PUT_UINT32_LE, spec_round, add_round_key, mix_columns, columns, mix_column, shift_rows, sub_bytes.
  cbn -[gmul sub_byte Z.lxor MBEDTLS_BYTE]. by_entries key_last.
Qed.

Lemma last_word_bytes S k a b c d : (forall x, is_byte x -> is_byte (S x)) ->
  MBEDTLS_PUT_UINT32_LE (last_word S k a b c d) =
  [BYTE_0 k ⊕ S (BYTE_0 a); BYTE_1 k ⊕ S (BYTE_1 b); BYTE_2 k ⊕ S (BYTE_2 c); BYTE_3 k ⊕ S (BYTE_3 d)].
Proof.
  intros HS. unfold last_word, BYTE_0, BYTE_1, BYTE_2, BYTE_3. rewrite !put_lxor.
  rewrite (proj1 (put_place (S (MBEDTLS_BYTE 0 a)) ltac:(auto with aes))).
  rewrite (proj1 (proj2 (put_place (S (MBEDTLS_BYTE 1 b)) ltac:(auto with aes)))).
  rewrite (proj1 (proj2 (proj2 (put_place (S (MBEDTLS_BYTE 2 c)) ltac:(auto with aes))))).
  rewrite (proj2 (proj2 (proj2 (put_place (S (MBEDTLS_BYTE 3 d)) ltac:(auto with aes))))).
  unfold MBEDTLS_PUT_UINT32_LE. cbn [zip_with]. by rewrite !Z.lxor_0_r.
Qed.

(** The sixteen bytes of a block. *)
Definition block (s : bytes) : Prop := length s = 16%nat /\ bytes_ok s.

Lemma store_block_ok X : block (store_block X).
Proof.
  split; [reflexivity|]. unfold store_block, MBEDTLS_PUT_UINT32_LE. cbn [app].
  repeat (apply List.Forall_cons; [apply byte_is_byte|]). apply List.Forall_nil.
Qed.

Lemma block_entries s : length s = 16%nat ->
  s = [nth 0 s 0; nth 1 s 0; nth 2 s 0; nth 3 s 0; nth 4 s 0; nth 5 s 0; nth 6 s 0; nth 7 s 0; nth 8 s 0; nth 9 s 0;
       nth 10 s 0; nth 11 s 0; nth 12 s 0; nth 13 s 0; nth 14 s 0; nth 15 s 0].
Proof. intros H. do 16 (destruct s as [|? s]; [discriminate|]). destruct s; [reflexivity|discriminate]. Qed.

Lemma put_get32_le s off : bytes_ok s ->
  MBEDTLS_PUT_UINT32_LE (MBEDTLS_GET_UINT32_LE s off) = [nth off s 0; nth (off + 1) s 0; nth (off + 2) s 0; nth (off + 3) s 0].
Proof.
  intros H. rewrite put32_le. transitivity (le_bytes 4 (MBEDTLS_GET_UINT32_LE [nth off s 0; nth (off + 1) s 0; nth (off + 2) s 0; nth (off + 3) s 0] 0)); [reflexivity|].
  rewrite get32_le_val by (by apply nth_byte). apply (le_bytes_val [_; _; _; _]). repeat (constructor; [by apply nth_byte|]). constructor.
Qed.

Lemma load_block_spec RK s : block s -> store_block (load_block RK s) = add_round_key s (key_bytes RK).
Proof.
  intros [Hl Hs]. unfold store_block, load_block, key_bytes, store_block. cbn [w0 w1 w2 w3].
  rewrite !put_lxor, !put_get32_le by exact Hs. rewrite (block_entries s Hl) at 17. reflexivity.
Qed.

(** ** The rounds *)

Section Rounds.
Context (round : list Z -> words4 -> words4) (spec : bytes -> bytes -> bytes).
Context (round_spec : forall RK X, store_block (round RK X) = spec (store_block X) (key_bytes RK)).

(** The rounds [i], ..., [i + n - 1]. *)
Definition spec_rounds (rk : list Z) (i n : nat) (state : bytes) : bytes :=
  fold_left (fun state r => spec state (key_bytes (drop (4 * r) rk))) (seq i n) state.

Lemma round_pairs_spec n : forall rk i X,
  let '(RK, Y) := round_pairs round n (drop (4 * i) rk) X in
  RK = drop (4 * (i + 2 * n)) rk /\ store_block Y = spec_rounds rk i (2 * n) (store_block X).
Proof.
  induction n as [|n IH]; intros rk i X; cbn [round_pairs].
  - split; [f_equal; lia|reflexivity].
  - rewrite !drop_drop. replace (4 * i + (4 + 4))%nat with (4 * (i + 2))%nat by lia.
    specialize (IH rk (i + 2)%nat (round (drop (4 * i + 4) rk) (round (drop (4 * i) rk) X))).
    destruct (round_pairs _ _ _ _) as [RK Y]. destruct IH as [-> ->]. split; [f_equal; lia|].
    unfold spec_rounds. replace (2 * S n)%nat with (S (S (2 * n))) by lia. cbn [seq fold_left].
    rewrite !round_spec. replace (4 * i + 4)%nat with (4 * S i)%nat by lia. by replace (i + 2)%nat with (S (S i)) by lia.
Qed.

(** Of [nr] rounds, all but the last one. *)
Lemma body_spec n rk s : block s -> (1 <= n)%nat ->
  let '(RK, X) := round_pairs round (n - 1) (drop 4 rk) (load_block rk s) in
  drop 4 RK = drop (4 * (2 * n)) rk /\
  store_block (round RK X) = spec_rounds rk 1 (2 * n - 1) (add_round_key s (key_bytes rk)).
Proof.
  intros Hs Hn. pose proof (round_pairs_spec (n - 1) rk 1 (load_block rk s)) as H. change (drop (4 * 1) rk) with (drop 4 rk) in H.
  destruct (round_pairs _ _ _ _) as [RK X]. destruct H as [-> E]. rewrite drop_drop. split; [f_equal; lia|].
  rewrite round_spec, E, load_block_spec by exact Hs. unfold spec_rounds. replace (2 * n - 1)%nat with (2 * (n - 1) + 1)%nat by lia.
  rewrite seq_app, fold_left_app. cbn [seq fold_left]. reflexivity.
Qed.
End Rounds.

Lemma encrypt_rounds n rk s : block s -> (1 <= n)%nat ->
  mbedtls_internal_aes_encrypt (mkAes (2 * Z.of_nat n) rk) s =
  spec_last (spec_rounds spec_round rk 1 (2 * n - 1) (add_round_key s (key_bytes rk))) (key_bytes (drop (4 * (2 * n)) rk)).
Proof.
  intros Hs Hn. unfold mbedtls_internal_aes_encrypt. cbn [Aes.rk Aes.nr].
  replace (Z.to_nat (Z.shiftr (2 * Z.of_nat n) 1 - 1)) with (n - 1)%nat
    by (rewrite Z.shiftr_div_pow2, (Z.mul_comm 2), Z.div_mul by lia; lia).
  pose proof (body_spec AES_FROUND spec_round fround_spec n rk s Hs Hn) as H.
  destruct (round_pairs _ _ _ _) as [RK X]. destruct H as [E1 <-]. destruct (AES_FROUND RK X) as [y0 y1 y2 y3]. rewrite E1.
  unfold store_block at 1. cbn [w0 w1 w2 w3]. rewrite !last_word_bytes by exact fsb_byte.
  unfold key_bytes, store_block, BYTE_0, BYTE_1, BYTE_2, BYTE_3, FS. rewrite !fsb_sub_byte by apply byte_is_byte.
  unfold spec_last, MBEDTLS_PUT_UINT32_LE, add_round_key, shift_rows, sub_bytes.
  cbn -[gmul sub_byte Z.lxor MBEDTLS_BYTE nth drop]. cbn [nth]. by_entries Z.lxor_comm.
Qed.

(** ** Decryption *)

Definition inv_shift_rows (s : bytes) : bytes := map (fun i => nth ((i + 12 * (i mod 4)) mod 16) s 0) (seq 0 16).
Definition inv_sub_bytes : bytes -> bytes := map RS.
Definition inv_mix_columns : bytes -> bytes := columns inv_mix_column.
Definition spec_inv_round (state key : bytes) : bytes :=
  add_round_key (inv_mix_columns (inv_sub_bytes (inv_shift_rows state))) key.
Definition spec_inv_last (state key : bytes) : bytes := add_round_key (inv_sub_bytes (inv_shift_rows state)) key.

Lemma rround_spec RK Y : store_block (AES_RROUND RK Y) = spec_inv_round (store_block Y) (key_bytes RK).
Proof.
  destruct Y as [y0 y1 y2 y3]. unfold store_block, key_bytes, AES_RROUND. cbn [w0 w1 w2 w3]. rewrite !put_lxor.
  unfold BYTE_0, BYTE_1, BYTE_2, BYTE_3.
  repeat match goal with |- context [AES_RT0 (MBEDTLS_BYTE 0 ?y)] => rewrite (proj1 (rt_words _ (byte_is_byte 0 y))) end.
  repeat match goal with |- context [AES_RT1 (MBEDTLS_BYTE 1 ?y)] => rewrite (proj1 (proj2 (rt_words _ (byte_is_byte 1 y)))) end.
  repeat match goal with |- context [AES_RT2 (MBEDTLS_BYTE 2 ?y)] => rewrite (proj1 (proj2 (proj2 (rt_words _ (byte_is_byte 2 y))))) end.
  repeat match goal with |- context [AES_RT3 (MBEDTLS_BYTE 3 ?y)] => rewrite (proj2 (proj2 (proj2 (rt_words _ (byte_is_byte 3 y))))) end.
  unfold MBEDTLS_PUT_UINT32_LE, spec_inv_round, add_round_key, inv_mix_columns, columns, inv_mix_column, inv_shift_rows, inv_sub_bytes.
  cbn -[gmul RS Z.lxor MBEDTLS_BYTE]. by_entries key_last.
Qed.

Lemma decrypt_rounds n rk s : block s -> (1 <= n)%nat ->
  mbedtls_internal_aes_decrypt (mkAes (2 * Z.of_nat n) rk) s =
  spec_inv_last (spec_rounds spec_inv_round rk 1 (2 * n - 1) (add_round_key s (key_bytes rk))) (key_bytes (drop (4 * (2 * n)) rk)).
Proof.
  intros Hs Hn. unfold mbedtls_internal_aes_decrypt. cbn [Aes.rk Aes.nr].
  replace (Z.to_nat (Z.shiftr (2 * Z.of_nat n) 1 - 1)) with (n - 1)%nat
    by (rewrite Z.shiftr_div_pow2, (Z.mul_comm 2), Z.div_mul by lia; lia).
  pose proof (body_spec AES_RROUND spec_inv_round rround_spec n rk s Hs Hn) as H.
  destruct (round_pairs _ _ _ _) as [RK X]. destruct H as [E1 <-]. destruct (AES_RROUND RK X) as [y0 y1 y2 y3]. rewrite E1.
  unfold store_block at 1. cbn [w0 w1 w2 w3]. rewrite !last_word_bytes by exact rsb_byte.
  unfold key_bytes, store_block, BYTE_0, BYTE_1, BYTE_2, BYTE_3.
  unfold spec_inv_last, MBEDTLS_PUT_UINT32_LE, add_round_key, inv_shift_rows, inv_sub_bytes.
  cbn -[gmul RS Z.lxor MBEDTLS_BYTE nth drop]. cbn [nth]. by_entries Z.lxor_comm.
Qed.

(** Columns of four bytes. *)
Definition column (c : bytes) : Prop := length c = 4%nat /\ bytes_ok c.

Lemma xor_pairs a a' b b' c c' d d' :
  (a ⊕ a') ⊕ (b ⊕ b') ⊕ (c ⊕ c') ⊕ (d ⊕ d') = (a ⊕ b ⊕ c ⊕ d) ⊕ (a' ⊕ b' ⊕ c' ⊕ d').
Proof.
  apply Z.bits_inj'. intros n _. rewrite !Z.lxor_spec.
  by destruct (Z.testbit a n), (Z.testbit a' n), (Z.testbit b n), (Z.testbit b' n), (Z.testbit c n), (Z.testbit c' n), (Z.testbit d n), (Z.testbit d' n).
Qed.

(** A column, entry by entry. *)
Lemma column_entries c : column c -> exists a b d e, c = [a; b; d; e] /\ is_byte a /\ is_byte b /\ is_byte d /\ is_byte e.
Proof.
  intros [Hl Hb]. do 4 (destruct c as [|? c]; [discriminate|]). destruct c; [|discriminate].
  repeat (apply List.Forall_cons_iff in Hb as [? Hb]). by eexists _, _, _, _.
Qed.

Lemma mix_linear f x y : f = mix_column \/ f = inv_mix_column -> column x -> column y ->
  f (add_round_key x y) = add_round_key (f x) (f y).
Proof.
  intros Hf (a & b & c & d & -> & Ha & Hb & Hc & Hd)%column_entries (a' & b' & c' & d' & -> & Ha' & Hb' & Hc' & Hd')%column_entries.
  destruct Hf as [-> | ->]; unfold add_round_key; cbn [zip_with mix_column inv_mix_column];
    rewrite !gmul_linear by assumption; by_entries xor_pairs.
Qed.

Lemma column_ok f x : f = mix_column \/ f = inv_mix_column -> column x -> column (f x).
Proof.
  intros Hf (a & b & c & d & -> & Ha & Hb & Hc & Hd)%column_entries.
  destruct Hf as [-> | ->]; (split; [reflexivity|]); cbn [mix_column inv_mix_column];
    repeat (apply List.Forall_cons; [auto 10 with aes|]); apply List.Forall_nil.
Qed.

Lemma add_column x y : column x -> column y -> column (add_round_key x y).
Proof.
  intros (a & b & c & d & -> & Ha & Hb & Hc & Hd)%column_entries (a' & b' & c' & d' & -> & Ha' & Hb' & Hc' & Hd')%column_entries.
  split; [reflexivity|]. unfold add_round_key. cbn [zip_with]. repeat (apply List.Forall_cons; [auto with aes|]). apply List.Forall_nil.
Qed.

Lemma inv_mix_mix c : column c -> inv_mix_column (mix_column c) = c.
Proof.
  intros (a & b & d & e & -> & Ha & Hb & Hd & He)%column_entries.
  assert (Z0 : is_byte 0) by (by unfold is_byte).
  assert (C : forall p q r t, is_byte p -> is_byte q -> is_byte r -> is_byte t -> column [p; q; r; t])
    by (intros; split; [reflexivity|repeat (constructor; [assumption|]); constructor]).
  assert (E : [a; b; d; e] = add_round_key [a; 0; 0; 0] (add_round_key [0; b; 0; 0] (add_round_key [0; 0; d; 0] [0; 0; 0; e])))
    by (unfold add_round_key; cbn [zip_with]; by rewrite !Z.lxor_0_l, !Z.lxor_0_r).
  assert (L : forall x y, column x -> column y -> inv_mix_column (mix_column (add_round_key x y)) =
    add_round_key (inv_mix_column (mix_column x)) (inv_mix_column (mix_column y)))
    by (intros; rewrite !mix_linear by auto using column_ok; reflexivity).
  rewrite E, !L by auto using add_column.
  f_equal; [|f_equal; [|f_equal]].
  - revert Ha. by_all_bytes (fun a => inv_mix_column (mix_column [a; 0; 0; 0])) (fun a => [a; 0; 0; 0]).
  - revert Hb. by_all_bytes (fun a => inv_mix_column (mix_column [0; a; 0; 0])) (fun a => [0; a; 0; 0]).
  - revert Hd. by_all_bytes (fun a => inv_mix_column (mix_column [0; 0; a; 0])) (fun a => [0; 0; a; 0]).
  - revert He. by_all_bytes (fun a => inv_mix_column (mix_column [0; 0; 0; a])) (fun a => [0; 0; 0; a]).
Qed.

(** Blocks, column by column. *)
Lemma block_split s : block s ->
  column (take 4 s) /\ column (take 4 (drop 4 s)) /\ column (take 4 (drop 8 s)) /\ column (take 4 (drop 12 s)) /\
  s = take 4 s ++ take 4 (drop 4 s) ++ take 4 (drop 8 s) ++ take 4 (drop 12 s).
Proof.
  intros [Hl Hb]. rewrite (block_entries s Hl) in Hb |- *. cbn [take drop app].
  do 16 (apply List.Forall_cons_iff in Hb as [? Hb]). unfold column.
  repeat split; repeat (apply List.Forall_cons; [assumption|]); apply List.Forall_nil.
Qed.

Lemma block_app a b c d : column a -> column b -> column c -> column d -> block (a ++ b ++ c ++ d).
Proof.
  intros [La Ba] [Lb Bb] [Lc Bc] [Ld Bd]. split; [rewrite !length_app; lia|].
  repeat (apply Forall_app; split); assumption.
Qed.

Lemma columns_app f a b c d : length a = 4%nat -> length b = 4%nat -> length c = 4%nat -> length d = 4%nat ->
  columns f (a ++ b ++ c ++ d) = f a ++ f b ++ f c ++ f d.
Proof.
  intros Ha Hb Hc Hd. do 4 (destruct a as [|? a]; [discriminate|]). destruct a; [|discriminate].
  do 4 (destruct b as [|? b]; [discriminate|]). destruct b; [|discriminate].
  do 4 (destruct c as [|? c]; [discriminate|]). destruct c; [|discriminate].
  do 4 (destruct d as [|? d]; [discriminate|]). destruct d; [|discriminate]. reflexivity.
Qed.

Lemma add_app a b a' b' : length a = length a' -> add_round_key (a ++ b) (a' ++ b') = add_round_key a a' ++ add_round_key b b'.
Proof. apply zip_with_app. Qed.

Lemma add_block a b : block a -> block b -> block (add_round_key a b).
Proof.
  intros (A1 & A2 & A3 & A4 & ->)%block_split (B1 & B2 & B3 & B4 & ->)%block_split.
  rewrite !add_app by (rewrite ?(proj1 A1), ?(proj1 A2), ?(proj1 A3), ?(proj1 B1), ?(proj1 B2), ?(proj1 B3); reflexivity).
  by apply block_app; apply add_column.
Qed.

Lemma columns_block f s : f = mix_column \/ f = inv_mix_column -> block s -> block (columns f s).
Proof.
  intros Hf (A1 & A2 & A3 & A4 & _)%block_split. unfold columns. by apply block_app; apply column_ok.
Qed.

Lemma inv_mix_mix_columns s : block s -> inv_mix_columns (mix_columns s) = s.
Proof.
  intros (A1 & A2 & A3 & A4 & E)%block_split. unfold inv_mix_columns, mix_columns, columns at 2.
  rewrite columns_app by (apply column_ok; auto). rewrite !inv_mix_mix by assumption. by symmetry.
Qed.

Lemma inv_mix_add a b : block a -> block b ->
  inv_mix_columns (add_round_key a b) = add_round_key (inv_mix_columns a) (inv_mix_columns b).
Proof.
  intros (A1 & A2 & A3 & A4 & ->)%block_split (B1 & B2 & B3 & B4 & ->)%block_split.
  set (a1 := take 4 a) in *. set (a2 := take 4 (drop 4 a)) in *. set (a3 := take 4 (drop 8 a)) in *. set (a4 := take 4 (drop 12 a)) in *.
  set (b1 := take 4 b) in *. set (b2 := take 4 (drop 4 b)) in *. set (b3 := take 4 (drop 8 b)) in *. set (b4 := take 4 (drop 12 b)) in *.
  assert (L : forall c, column c -> length c = 4%nat) by (by intros c []).
  assert (M : forall c, column c -> column (inv_mix_column c)) by (intros; apply column_ok; auto).
  rewrite !add_app by (rewrite !L by assumption; reflexivity).
  unfold inv_mix_columns. rewrite !columns_app by auto using add_column.
  rewrite !mix_linear by auto. by rewrite !add_app by (rewrite !L by auto; reflexivity).
Qed.

Lemma block_same a b : block a -> block b -> length a = length b.
Proof. intros [-> _] [-> _]. reflexivity. Qed.

Lemma add_cancel a b : length a = length b -> add_round_key (add_round_key a b) b = a.
Proof.
  revert b. induction a as [|x a IH]; intros [|y b] H; try discriminate; [done|].
  unfold add_round_key in *. cbn [zip_with]. rewrite IH by (by injection H). by rewrite lxor_cancel.
Qed.

Lemma sub_byte_byte b : is_byte b -> is_byte (sub_byte b).
Proof. intros Hb. rewrite <- fsb_sub_byte by exact Hb. by apply fsb_byte. Qed.

Lemma shift_sub_block s : block s -> block (shift_rows (sub_bytes s)).
Proof.
  intros [Hl Hb]. rewrite (block_entries s Hl) in *. do 16 (apply List.Forall_cons_iff in Hb as [? Hb]).
  split; [reflexivity|]. unfold shift_rows, sub_bytes. cbn -[sub_byte].
  repeat (apply List.Forall_cons; [by apply sub_byte_byte|]). apply List.Forall_nil.
Qed.

Lemma inv_sub_shift s : block s -> inv_sub_bytes (inv_shift_rows (shift_rows (sub_bytes s))) = s.
Proof.
  intros [Hl Hb]. rewrite (block_entries s Hl) in *. do 16 (apply List.Forall_cons_iff in Hb as [? Hb]).
  unfold inv_sub_bytes, inv_shift_rows, shift_rows, sub_bytes. cbn -[sub_byte RS].
  assert (R : forall b, is_byte b -> RS (sub_byte b) = b) by (intros b Hb'; rewrite <- fsb_sub_byte by exact Hb'; by apply rsb_fsb).
  by rewrite !R by assumption.
Qed.

(** ** The inverse *)

Lemma key_block RK : block (key_bytes RK).
Proof. apply store_block_ok. Qed.
#[local] Hint Resolve key_block add_block shift_sub_block : aes.

Lemma mix_block s : block s -> block (mix_columns s).
Proof. apply columns_block. by left. Qed.
#[local] Hint Resolve mix_block : aes.

Lemma spec_round_block s k : block s -> block k -> block (spec_round s k).
Proof. unfold spec_round. auto with aes. Qed.

Lemma spec_rounds_block rk n : forall i s, block s -> block (spec_rounds spec_round rk i n s).
Proof.
  unfold spec_rounds. induction n as [|n IH]; intros i s Hs; cbn [seq fold_left]; [exact Hs|]. apply IH.
  apply spec_round_block; auto with aes.
Qed.

Lemma spec_rounds_snoc spec rk i n s :
  spec_rounds spec rk i (S n) s = spec (spec_rounds spec rk i n s) (key_bytes (drop (4 * (i + n)) rk)).
Proof. unfold spec_rounds. by rewrite seq_S, fold_left_app. Qed.

(** A schedule whose round keys are those of [rk] from the last to the first,
    those in between through [InvMixColumns]. *)
Definition inverse_schedule (N : nat) (rk rk' : list Z) : Prop :=
  key_bytes rk' = key_bytes (drop (4 * N) rk) /\ key_bytes (drop (4 * N) rk') = key_bytes rk /\
  forall r, (0 < r < N)%nat -> key_bytes (drop (4 * r) rk') = inv_mix_columns (key_bytes (drop (4 * (N - r)) rk)).

Lemma inverse_rounds n rk rk' s : block s -> (1 <= n)%nat -> inverse_schedule (2 * n) rk rk' ->
  mbedtls_internal_aes_decrypt (mkAes (2 * Z.of_nat n) rk') (mbedtls_internal_aes_encrypt (mkAes (2 * Z.of_nat n) rk) s) = s.
Proof.
  intros Hs Hn (K0 & KN & Kr). rewrite encrypt_rounds by assumption. set (N := (2 * n)%nat) in *.
  set (e j := spec_rounds spec_round rk 1 j (add_round_key s (key_bytes rk))).
  assert (He : forall j, block (e j)) by (intros j; apply spec_rounds_block; auto with aes).
  rewrite decrypt_rounds by first [exact Hn|apply add_block; [apply shift_sub_block, He|apply key_block]]. fold N. rewrite K0, KN.
  assert (D : forall r, (r <= N - 1)%nat ->
    spec_rounds spec_inv_round rk' 1 r (add_round_key (spec_last (e (N - 1)%nat) (key_bytes (drop (4 * N) rk))) (key_bytes (drop (4 * N) rk)))
    = shift_rows (sub_bytes (e (N - 1 - r)%nat))).
  { induction r as [|r IH]; intros Hr.
    - unfold spec_rounds, spec_last. cbn [seq fold_left]. rewrite Nat.sub_0_r. apply add_cancel, block_same; auto with aes.
    - rewrite spec_rounds_snoc, IH, Kr by lia. unfold spec_inv_round. rewrite inv_sub_shift by apply He.
      rewrite <- inv_mix_add by auto with aes. replace (N - 1 - r)%nat with (S (N - 1 - S r)) by lia.
      unfold e at 1. rewrite spec_rounds_snoc. replace (N - (1 + r))%nat with (1 + (N - 1 - S r))%nat by lia.
      unfold spec_round at 1. rewrite add_cancel by (apply block_same; auto 10 using spec_rounds_block with aes).
      apply inv_mix_mix_columns, shift_sub_block, He. }
  rewrite D by lia. replace (N - 1 - (N - 1))%nat with 0%nat by lia. unfold spec_inv_last. rewrite inv_sub_shift by apply He.
  unfold e, spec_rounds. cbn [seq fold_left]. apply add_cancel, block_same; auto with aes.
Qed.

(** ** The schedule of decryption *)

Lemma nth_drop (l : list Z) i n : nth i (drop n l) 0 = nth (n + i) l 0.
Proof. apply nth_skipn. Qed.

Lemma copy4_key SK sk l : key_bytes (copy4 SK sk ++ l) = key_bytes (drop sk SK).
Proof. unfold key_bytes, copy4. cbn [map seq app nth]. by rewrite !nth_drop. Qed.

Lemma invert_word w :
  MBEDTLS_PUT_UINT32_LE (AES_RT0 (FS (BYTE_0 w)) ⊕ AES_RT1 (FS (BYTE_1 w)) ⊕ AES_RT2 (FS (BYTE_2 w)) ⊕ AES_RT3 (FS (BYTE_3 w)))
  = inv_mix_column (MBEDTLS_PUT_UINT32_LE w).
Proof.
  unfold BYTE_0, BYTE_1, BYTE_2, BYTE_3, FS. rewrite !put_lxor.
  rewrite (proj1 (rt_words _ (fsb_byte _ (byte_is_byte 0 w)))), (proj1 (proj2 (rt_words _ (fsb_byte _ (byte_is_byte 1 w))))),
    (proj1 (proj2 (proj2 (rt_words _ (fsb_byte _ (byte_is_byte 2 w)))))), (proj2 (proj2 (proj2 (rt_words _ (fsb_byte _ (byte_is_byte 3 w)))))).
  unfold RS. rewrite !rsb_fsb by apply byte_is_byte. reflexivity.
Qed.

Lemma invert4_key SK sk l : key_bytes (invert4 SK sk ++ l) = inv_mix_columns (key_bytes (drop sk SK)).
Proof.
  unfold key_bytes, invert4. cbn [map seq app nth]. rewrite !nth_drop.
  unfold store_block at 1. cbn [w0 w1 w2 w3]. rewrite !invert_word.
  unfold inv_mix_columns, store_block. cbn [w0 w1 w2 w3]. by rewrite columns_app.
Qed.

Lemma invert_rounds_drop i : forall SK sk t j, (j < i)%nat ->
  exists l, drop (4 * j) (invert_rounds i SK sk ++ t) = invert4 SK (sk - 4 * j) ++ l.
Proof.
  induction i as [|i IH]; intros SK sk t j Hj; [lia|]. cbn [invert_rounds]. rewrite <- app_assoc.
  destruct j as [|j]; [rewrite Nat.sub_0_r; by eexists|].
  destruct (IH SK (sk - 4)%nat t j ltac:(lia)) as [l E]. exists l. replace (sk - 4 * S j)%nat with (sk - 4 - 4 * j)%nat by lia.
  rewrite <- E. replace (4 * S j)%nat with (4 + 4 * j)%nat by lia. by rewrite <- drop_drop.
Qed.

Lemma invert_rounds_end i : forall SK sk t, drop (4 * i) (invert_rounds i SK sk ++ t) = t.
Proof.
  induction i as [|i IH]; intros SK sk t; [done|]. cbn [invert_rounds]. rewrite <- app_assoc.
  replace (4 * S i)%nat with (4 + 4 * i)%nat by lia. rewrite <- drop_drop. apply IH.
Qed.

Lemma setkey_dec_schedule N rk : (1 <= N)%nat ->
  inverse_schedule N rk (copy4 rk (4 * N) ++ invert_rounds (N - 1) rk (4 * N - 4) ++ copy4 rk 0).
Proof.
  intros HN. split; [apply copy4_key|]. split.
  - replace (4 * N)%nat with (4 + 4 * (N - 1))%nat at 1 by lia. rewrite <- drop_drop.
    change (drop 4 (copy4 rk (4 * N) ++ ?l)) with l. rewrite invert_rounds_end, <- (app_nil_r (copy4 rk 0)). apply copy4_key.
  - intros r Hr. replace (4 * r)%nat with (4 + 4 * (r - 1))%nat by lia. rewrite <- drop_drop.
    change (drop 4 (copy4 rk (4 * N) ++ ?l)) with l.
    destruct (invert_rounds_drop (N - 1) rk (4 * N - 4) (copy4 rk 0) (r - 1) ltac:(lia)) as [l ->]. rewrite invert4_key.
    do 3 f_equal. lia.
Qed.

(** ** The schedule of encryption *)

Definition word_bytes : list Z -> list bytes := map MBEDTLS_PUT_UINT32_LE.

(** The next word of the standard's schedule. *)
Definition next_word (Nk : nat) (w : list bytes) : bytes :=
  let i := length w in
  let temp := nth (i - 1) w [] in
  zip_with Z.lxor (nth (i - Nk) w [])
    (if (i mod Nk =? 0)%nat then zip_with Z.lxor (sub_bytes (rot_word temp)) (Rcon (i / Nk))
     else if (6 <? Nk)%nat && (i mod Nk =? 4)%nat then sub_bytes temp else temp).

Lemma key_expansion_S Nk n w : key_expansion Nk (S n) w = key_expansion Nk n (w ++ [next_word Nk w]).
Proof. reflexivity. Qed.

Lemma key_expansion_add Nk n m w : key_expansion Nk (n + m) w = key_expansion Nk m (key_expansion Nk n w).
Proof. revert w. induction n as [|n IH]; intros w; [done|]. cbn [Nat.add]. by rewrite !key_expansion_S, IH. Qed.

(** The word of the code that starts a turn. *)
Lemma rotated_word k w i : (i < 10)%nat ->
  MBEDTLS_PUT_UINT32_LE (k ⊕ round_constant i ⊕ FS (BYTE_1 w) ⊕ Z.shiftl (FS (BYTE_2 w)) 8 ⊕ Z.shiftl (FS (BYTE_3 w)) 16
    ⊕ Z.shiftl (FS (BYTE_0 w)) 24)
  = zip_with Z.lxor (MBEDTLS_PUT_UINT32_LE k) (zip_with Z.lxor (sub_bytes (rot_word (MBEDTLS_PUT_UINT32_LE w))) (Rcon (S i))).
Proof.
  intros Hi. unfold BYTE_0, BYTE_1, BYTE_2, BYTE_3, FS. rewrite !put_lxor.
  assert (E : MBEDTLS_PUT_UINT32_LE (round_constant i) = Rcon (S i)) by (do 10 (destruct i as [|i]; [reflexivity|]); lia).
  rewrite E. rewrite !fsb_sub_byte by apply byte_is_byte.
  assert (B : forall j, is_byte (sub_byte (MBEDTLS_BYTE j w))) by (intros; by apply sub_byte_byte, byte_is_byte).
  rewrite (proj1 (put_place _ (B 1))), (proj1 (proj2 (put_place _ (B 2)))), (proj1 (proj2 (proj2 (put_place _ (B 3))))),
    (proj2 (proj2 (proj2 (put_place _ (B 0))))).
  unfold MBEDTLS_PUT_UINT32_LE, rot_word, sub_bytes, Rcon. cbn -[sub_byte Z.lxor MBEDTLS_BYTE xtime Nat.iter].
  rewrite !Z.lxor_0_r, Z.lxor_assoc, (Z.lxor_comm _ (sub_byte (MBEDTLS_BYTE 1 w))). reflexivity.
Qed.

Lemma substituted_word k w :
  MBEDTLS_PUT_UINT32_LE (k ⊕ FS (BYTE_0 w) ⊕ Z.shiftl (FS (BYTE_1 w)) 8 ⊕ Z.shiftl (FS (BYTE_2 w)) 16 ⊕ Z.shiftl (FS (BYTE_3 w)) 24)
  = zip_with Z.lxor (MBEDTLS_PUT_UINT32_LE k) (sub_bytes (MBEDTLS_PUT_UINT32_LE w)).
Proof.
  transitivity (MBEDTLS_PUT_UINT32_LE (last_word FS k w w w w)); [reflexivity|]. rewrite last_word_bytes by exact fsb_byte.
  unfold FS, BYTE_0, BYTE_1, BYTE_2, BYTE_3. rewrite !fsb_sub_byte by apply byte_is_byte. reflexivity.
Qed.

Lemma word_bytes_app a b : word_bytes (a ++ b) = word_bytes a ++ word_bytes b.
Proof. apply map_app. Qed.

Lemma word_bytes_nth l k : (k < length l)%nat -> nth k (word_bytes l) [] = MBEDTLS_PUT_UINT32_LE (nth k l 0).
Proof.
  intros H. unfold word_bytes. rewrite (nth_indep _ [] (MBEDTLS_PUT_UINT32_LE 0)) by (rewrite length_map; lia). apply map_nth.
Qed.

(** A turn of the loop has the schedule [rk] of whole keys, and has written
    [new]. *)
Section Turn.
Context (Nk i : nat) (rk new : list Z).
Context (HNk : (4 <= Nk)%nat) (Hrk : length rk = (Nk * S i)%nat) (Hnew : (length new < Nk)%nat).

Lemma turn_length : length (word_bytes (rk ++ new)) = (Nk * S i + length new)%nat.
Proof. unfold word_bytes. rewrite length_map, length_app. lia. Qed.

Lemma turn_mod : ((Nk * S i + length new) mod Nk = length new)%nat.
Proof. rewrite Nat.add_comm, Nat.mul_comm, Nat.Div0.mod_add. by apply Nat.mod_small. Qed.

Lemma turn_old : nth (Nk * S i + length new - Nk) (word_bytes (rk ++ new)) [] = MBEDTLS_PUT_UINT32_LE (nth (Nk * i + length new) rk 0).
Proof.
  rewrite word_bytes_nth by (rewrite length_app; lia). rewrite app_nth1 by lia. do 2 f_equal. lia.
Qed.

Lemma turn_last : (0 < length new)%nat ->
  nth (Nk * S i + length new - 1) (word_bytes (rk ++ new)) [] = MBEDTLS_PUT_UINT32_LE (nth (length new - 1) new 0).
Proof.
  intros H. rewrite word_bytes_nth by (rewrite length_app; lia). rewrite app_nth2 by lia. do 2 f_equal. lia.
Qed.

Lemma next_plain : (0 < length new)%nat -> (length new <> 4 \/ Nk <= 6)%nat ->
  next_word Nk (word_bytes (rk ++ new)) = MBEDTLS_PUT_UINT32_LE (nth (Nk * i + length new) rk 0 ⊕ nth (length new - 1) new 0).
Proof.
  intros H H4. unfold next_word. rewrite turn_length, turn_mod, turn_old, turn_last, put_lxor by exact H.
  rewrite (proj2 (Nat.eqb_neq (length new) 0)) by lia.
  replace ((6 <? Nk)%nat && (length new =? 4)%nat) with false; [reflexivity|].
  symmetry. apply andb_false_iff. destruct H4; [right; by apply Nat.eqb_neq|left; by apply Nat.ltb_ge].
Qed.

Lemma next_sub : length new = 4%nat -> (6 < Nk)%nat ->
  next_word Nk (word_bytes (rk ++ new)) =
  zip_with Z.lxor (MBEDTLS_PUT_UINT32_LE (nth (Nk * i + 4) rk 0)) (sub_bytes (MBEDTLS_PUT_UINT32_LE (nth 3 new 0))).
Proof.
  intros H HN. unfold next_word. rewrite turn_length, turn_mod, turn_old, turn_last by lia. rewrite H. cbn [Nat.eqb Nat.sub].
  by rewrite (proj2 (Nat.ltb_lt 6 Nk) HN).
Qed.

Lemma next_first : new = [] ->
  next_word Nk (word_bytes (rk ++ new)) =
  zip_with Z.lxor (MBEDTLS_PUT_UINT32_LE (nth (Nk * i) rk 0))
    (zip_with Z.lxor (sub_bytes (rot_word (MBEDTLS_PUT_UINT32_LE (nth (Nk * i + (Nk - 1)) rk 0)))) (Rcon (S i))).
Proof.
  intros E. unfold next_word. rewrite turn_length, turn_mod, turn_old. rewrite E, app_nil_r. cbn [length Nat.eqb].
  rewrite !Nat.add_0_r, word_bytes_nth by lia. rewrite (Nat.mul_comm Nk (S i)) at 2. rewrite Nat.div_mul by lia. do 6 f_equal. lia.
Qed.
End Turn.

Lemma schedule_turn Nk rk new x : next_word Nk (word_bytes (rk ++ new)) = MBEDTLS_PUT_UINT32_LE x ->
  forall n, key_expansion Nk (S n) (word_bytes (rk ++ new)) = key_expansion Nk n (word_bytes (rk ++ (new ++ [x]))).
Proof. intros E n. rewrite key_expansion_S, E. by rewrite app_assoc, (word_bytes_app (rk ++ new) [x]). Qed.

Lemma expand_10_spec n : forall i rk, (i + n <= 10)%nat -> length rk = (4 * S i)%nat ->
  word_bytes (expand_10 n i rk) = key_expansion 4 (4 * n) (word_bytes rk).
Proof.
  induction n as [|n IH]; intros i rk Hi Hl; [done|]. cbn [expand_10]. rewrite IH by (rewrite ?length_app; cbn [length]; lia).
  replace (4 * S n)%nat with (S (S (S (S (4 * n))))) by lia.
  transitivity (key_expansion 4 (S (S (S (S (4 * n))))) (word_bytes (rk ++ []))); [|by rewrite app_nil_r].
  erewrite (schedule_turn 4 rk []); [cbn [app]; erewrite (schedule_turn 4 rk [_]); [cbn [app]; erewrite (schedule_turn 4 rk [_; _]);
    [cbn [app]; erewrite (schedule_turn 4 rk [_; _; _]); [reflexivity|]|]|]|].
  1-3: rewrite (next_plain 4 i) by (cbn [length]; lia); reflexivity.
  rewrite (next_first 4 i) by (cbn [length]; lia || done). rewrite <- rotated_word by lia. rewrite Nat.add_0_r. reflexivity.
Qed.

Lemma expand_12_spec n : forall i rk, (i + n <= 8)%nat -> length rk = (6 * S i)%nat ->
  word_bytes (expand_12 n i rk) = key_expansion 6 (6 * n) (word_bytes rk).
Proof.
  induction n as [|n IH]; intros i rk Hi Hl; [done|]. cbn [expand_12]. rewrite IH by (rewrite ?length_app; cbn [length]; lia).
  replace (6 * S n)%nat with (S (S (S (S (S (S (6 * n))))))) by lia.
  transitivity (key_expansion 6 (S (S (S (S (S (S (6 * n))))))) (word_bytes (rk ++ []))); [|by rewrite app_nil_r].
  erewrite (schedule_turn 6 rk []); [cbn [app]; erewrite (schedule_turn 6 rk [_]); [cbn [app]; erewrite (schedule_turn 6 rk [_; _]);
    [cbn [app]; erewrite (schedule_turn 6 rk [_; _; _]); [cbn [app]; erewrite (schedule_turn 6 rk [_; _; _; _]);
    [cbn [app]; erewrite (schedule_turn 6 rk [_; _; _; _; _]); [reflexivity|]|]|]|]|]|].
  1-5: rewrite (next_plain 6 i) by (cbn [length]; lia); reflexivity.
  rewrite (next_first 6 i) by (cbn [length]; lia || done). rewrite <- rotated_word by lia. rewrite Nat.add_0_r. reflexivity.
Qed.

Lemma expand_14_spec n : forall i rk, (i + n <= 7)%nat -> length rk = (8 * S i)%nat ->
  word_bytes (expand_14 n i rk) = key_expansion 8 (8 * n) (word_bytes rk).
Proof.
  induction n as [|n IH]; intros i rk Hi Hl; [done|]. cbn [expand_14]. rewrite IH by (rewrite ?length_app; cbn [length]; lia).
  replace (8 * S n)%nat with (S (S (S (S (S (S (S (S (8 * n))))))))) by lia.
  transitivity (key_expansion 8 (S (S (S (S (S (S (S (S (8 * n))))))))) (word_bytes (rk ++ []))); [|by rewrite app_nil_r].
  erewrite (schedule_turn 8 rk []); [cbn [app]; erewrite (schedule_turn 8 rk [_]); [cbn [app]; erewrite (schedule_turn 8 rk [_; _]);
    [cbn [app]; erewrite (schedule_turn 8 rk [_; _; _]); [cbn [app]; erewrite (schedule_turn 8 rk [_; _; _; _]);
    [cbn [app]; erewrite (schedule_turn 8 rk [_; _; _; _; _]); [cbn [app]; erewrite (schedule_turn 8 rk [_; _; _; _; _; _]);
    [cbn [app]; erewrite (schedule_turn 8 rk [_; _; _; _; _; _; _]); [reflexivity|]|]|]|]|]|]|]|].
  1-3: rewrite (next_plain 8 i) by (cbn [length]; lia); reflexivity.
  { rewrite (next_sub 8 i) by (cbn [length]; lia). rewrite <- substituted_word. reflexivity. }
  1-3: rewrite (next_plain 8 i) by (cbn [length]; lia); reflexivity.
  rewrite (next_first 8 i) by (cbn [length]; lia || done). rewrite <- rotated_word by lia. rewrite Nat.add_0_r. reflexivity.
Qed.

Lemma key_words_spec n : forall key, bytes_ok key -> (4 * n <= length key)%nat -> word_bytes (words_le n key) = key_words n key.
Proof.
  intros key Hk Hl. unfold words_le, word_bytes. rewrite map_map.
  assert (G : forall n o, (o + 4 * n <= length key)%nat ->
    map (fun i => MBEDTLS_PUT_UINT32_LE (MBEDTLS_GET_UINT32_LE key (o + 4 * i))) (seq 0 n) = key_words n (drop o key)).
  { clear n Hl. induction n as [|n IH]; intros o Ho; [done|]. cbn [seq map key_words]. rewrite Nat.mul_0_r, Nat.add_0_r.
    rewrite put_get32_le, <- take4 by (assumption || lia). f_equal. rewrite drop_drop, <- (IH (o + 4)%nat) by lia.
    rewrite <- seq_shift, map_map. apply map_ext. intros i. do 2 f_equal. lia. }
  exact (G n 0%nat Hl).
Qed.

Lemma key_expansion_prefix Nk n : forall w, exists l, key_expansion Nk n w = w ++ l /\ length l = n.
Proof.
  induction n as [|n IH]; intros w; [exists []; by rewrite app_nil_r|]. rewrite key_expansion_S.
  destruct (IH (w ++ [next_word Nk w])) as (l & -> & E). exists (next_word Nk w :: l). rewrite <- app_assoc. by rewrite <- E.
Qed.

Lemma round_key_bytes rk r : (4 * r + 4 <= length rk)%nat -> round_key (word_bytes rk) r = key_bytes (drop (4 * r) rk).
Proof.
  intros H. unfold round_key, word_bytes. rewrite skipn_map. set (l := skipn (4 * r) rk).
  assert (Hl : (4 <= length l)%nat) by (unfold l; rewrite length_skipn; lia). fold l. change (drop (4 * r) rk) with l.
  do 4 (destruct l as [|? l]; [cbn [length] in Hl; lia|]). reflexivity.
Qed.

Lemma round_key_app w l r : (4 * r + 4 <= length w)%nat -> round_key (w ++ l) r = round_key w r.
Proof.
  intros H. unfold round_key. rewrite drop_app_le by lia. rewrite take_app_le by (rewrite length_drop; lia). reflexivity.
Qed.

Lemma cipher_rounds n rk w l s : (1 <= n)%nat -> word_bytes rk = w ++ l -> (4 * (2 * n) + 4 <= length w)%nat ->
  cipher (2 * n) w s =
  spec_last (spec_rounds spec_round rk 1 (2 * n - 1) (add_round_key s (key_bytes rk))) (key_bytes (drop (4 * (2 * n)) rk)).
Proof.
  intros Hn E Hl. assert (Lr : (length w <= length rk)%nat).
  { assert (E' : length (word_bytes rk) = length (w ++ l)) by (by rewrite E). unfold word_bytes in E'. rewrite length_map, length_app in E'. lia. }
  assert (K : forall r, (r <= 2 * n)%nat -> round_key w r = key_bytes (drop (4 * r) rk)).
  { intros r Hr. rewrite <- (round_key_app w l), <- E by lia. apply round_key_bytes. lia. }
  unfold cipher, spec_last, spec_rounds. rewrite (K (2 * n)%nat), (K 0%nat) by lia. change (drop (4 * 0) rk) with rk.
  do 3 f_equal. generalize (add_round_key s (key_bytes rk)). intros st.
  assert (G : forall k i st, (i + k <= 2 * n + 1)%nat ->
    fold_left (fun state round => add_round_key (mix_columns (shift_rows (sub_bytes state))) (round_key w round)) (seq i k) st =
    fold_left (fun state r => spec_round state (key_bytes (drop (4 * r) rk))) (seq i k) st).
  { clear - K. induction k as [|k IH]; intros i st Hk; [done|]. cbn [seq fold_left]. rewrite (K i) by lia. by rewrite IH by lia. }
  apply G. lia.
Qed.

Definition key_ok (key : bytes) : Prop := bytes_ok key /\ (length key = 16 \/ length key = 24 \/ length key = 32)%nat.

Lemma key_words_length n : forall key, length (key_words n key) = n.
Proof. induction n as [|n IH]; intros key; cbn [key_words length]; [done|by rewrite IH]. Qed.

(** The schedule has the words of the standard first. *)
Lemma expanded Nk a b rk key : word_bytes rk = key_expansion Nk (a + b) (key_words Nk key) ->
  exists l, word_bytes rk = key_expansion Nk a (key_words Nk key) ++ l /\ length rk = (Nk + a + b)%nat /\
    length (key_expansion Nk a (key_words Nk key)) = (Nk + a)%nat.
Proof.
  intros E. rewrite key_expansion_add in E. destruct (key_expansion_prefix Nk a (key_words Nk key)) as (l1 & E1 & L1).
  destruct (key_expansion_prefix Nk b (key_expansion Nk a (key_words Nk key))) as (l2 & E2 & L2).
  assert (La : length (key_expansion Nk a (key_words Nk key)) = (Nk + a)%nat) by (rewrite E1, length_app, key_words_length; lia).
  exists l2. split; [by rewrite E|]. split; [|exact La].
  assert (E' : length (word_bytes rk) = length (key_expansion Nk a (key_words Nk key) ++ l2)) by (by rewrite E, E2).
  unfold word_bytes in E'. rewrite length_map, length_app in E'. lia.
Qed.

(** What a schedule for [Nr] rounds is; the buffer has room for it. *)
Definition schedule_of (key : bytes) (n : nat) (rk : list Z) : Prop :=
  let Nk := (length key / 4)%nat in
  (1 <= n)%nat /\ (2 * n = Nk + 6)%nat /\ (length rk <= 68)%nat /\
  exists l, word_bytes rk = key_expansion Nk (4 * (Nk + 6 + 1) - Nk) (key_words Nk key) ++ l /\
    length (key_expansion Nk (4 * (Nk + 6 + 1) - Nk) (key_words Nk key)) = (4 * (2 * n) + 4)%nat.

Lemma setkey_enc_schedule ctx key : key_ok key ->
  exists n rk, mbedtls_aes_setkey_enc ctx key (8 * zlen key) = (0, mkAes (2 * Z.of_nat n) rk) /\ schedule_of key n rk.
Proof.
  intros [Hk Hl]. unfold mbedtls_aes_setkey_enc, schedule_of. cbv zeta. destruct Hl as [Hl|[Hl|Hl]]; rewrite Hl.
  - exists 5%nat, (expand_10 10 0 (words_le 4 key)). change (8 * Z.of_nat 16) with 128; change (Z.to_nat (Z.shiftr 128 5)) with 4%nat.
    change (128 =? 128) with true; cbv iota. change (2 * Z.of_nat 5) with 10. split; [reflexivity|].
    destruct (expanded 4 40 0 (expand_10 10 0 (words_le 4 key)) key) as (l & E & L1 & L2).
    { rewrite expand_10_spec by (reflexivity || lia). by rewrite key_words_spec by (assumption || lia). }
    split; [lia|]. split; [reflexivity|]. split; [lia|]. exists l. split; [exact E|exact L2].
  - exists 6%nat, (expand_12 8 0 (words_le 6 key)). change (8 * Z.of_nat 24) with 192; change (Z.to_nat (Z.shiftr 192 5)) with 6%nat.
    change (192 =? 128) with false; change (192 =? 192) with true; cbv iota. change (2 * Z.of_nat 6) with 12. split; [reflexivity|].
    destruct (expanded 6 46 2 (expand_12 8 0 (words_le 6 key)) key) as (l & E & L1 & L2).
    { rewrite expand_12_spec by (reflexivity || lia). by rewrite key_words_spec by (assumption || lia). }
    split; [lia|]. split; [reflexivity|]. split; [lia|]. exists l. split; [exact E|exact L2].
  - exists 7%nat, (expand_14 7 0 (words_le 8 key)). change (8 * Z.of_nat 32) with 256; change (Z.to_nat (Z.shiftr 256 5)) with 8%nat.
    change (256 =? 128) with false; change (256 =? 192) with false; change (256 =? 256) with true; cbv iota. change (2 * Z.of_nat 7) with 14. split; [reflexivity|].
    destruct (expanded 8 52 4 (expand_14 7 0 (words_le 8 key)) key) as (l & E & L1 & L2).
    { rewrite expand_14_spec by (reflexivity || lia). by rewrite key_words_spec by (assumption || lia). }
    split; [lia|]. split; [reflexivity|]. split; [lia|]. exists l. split; [exact E|exact L2].
Qed.

Lemma encrypt_spec key n rk s : schedule_of key n rk -> block s ->
  mbedtls_internal_aes_encrypt (mkAes (2 * Z.of_nat n) rk) s = aes_spec key s.
Proof.
  intros (Hn & HN & _ & l & E & L) Hs. rewrite encrypt_rounds by assumption. unfold aes_spec. rewrite <- HN in *.
  symmetry. eapply cipher_rounds; [exact Hn|exact E|lia].
Qed.

Lemma setkey_dec_inverse ctx key : key_ok key ->
  exists n rk rk', mbedtls_aes_setkey_dec ctx key (8 * zlen key) = (0, mkAes (2 * Z.of_nat n) rk') /\
    schedule_of key n rk /\ inverse_schedule (2 * n) rk rk'.
Proof.
  intros Hk. destruct (setkey_enc_schedule mbedtls_aes_init key Hk) as (n & rk & E & Hs). unfold mbedtls_aes_setkey_dec. rewrite E.
  eexists n, rk, _. split; [reflexivity|]. split; [exact Hs|]. cbn [Aes.nr Aes.rk].
  replace (Z.to_nat (4 * (2 * Z.of_nat n))) with (4 * (2 * n))%nat by lia.
  replace (Z.to_nat (2 * Z.of_nat n - 1)) with (2 * n - 1)%nat by lia. apply setkey_dec_schedule. destruct Hs. lia.
Qed.

Lemma aes_spec_block key s : key_ok key -> block s -> block (aes_spec key s).
Proof.
  intros Hk Hs. destruct (setkey_enc_schedule mbedtls_aes_init key Hk) as (n & k & _ & H).
  rewrite <- (encrypt_spec key n k s H Hs). unfold mbedtls_internal_aes_encrypt. destruct (round_pairs _ _ _ _) as [RK X].
  destruct (AES_FROUND RK X). apply store_block_ok.
Qed.

(** The contexts of a key, for encryption and for decryption. *)
Definition enc_ctx (key : bytes) (e : mbedtls_aes_context) : Prop :=
  key_ok key /\ exists c, mbedtls_aes_setkey_enc c key (8 * zlen key) = (0, e).
Definition dec_ctx (key : bytes) (d : mbedtls_aes_context) : Prop :=
  key_ok key /\ exists c, mbedtls_aes_setkey_dec c key (8 * zlen key) = (0, d).

Lemma enc_ctx_ecb key e s : enc_ctx key e -> block s -> mbedtls_aes_crypt_ecb e MBEDTLS_AES_ENCRYPT s = aes_spec key s.
Proof.
  intros [Hk [c E]] Hs. destruct (setkey_enc_schedule c key Hk) as (n & k & E' & H). rewrite E' in E. injection E as <-.
  by apply encrypt_spec.
Qed.

Lemma dec_ctx_ecb key d s : dec_ctx key d -> block s -> mbedtls_aes_crypt_ecb d MBEDTLS_AES_DECRYPT (aes_spec key s) = s.
Proof.
  intros [Hk [c E]] Hs. destruct (setkey_dec_inverse c key Hk) as (n & k & k' & E' & H & I). rewrite E' in E. injection E as <-.
  rewrite <- (encrypt_spec key n k s H Hs). apply inverse_rounds; [exact Hs|apply H|exact I].
Qed.

(** ** Properties *)

(** C12. AES.  For every key of 128, 192 or 256 bits the unrolled schedules and the
    table rounds encrypt every block as FIPS 197 does, and decryption with the
    schedule of [mbedtls_aes_setkey_dec] inverts it; the schedules stay within the
    68 words of the context.  Every other key size is refused and leaves the
    context as it was. *)
Theorem aes_block_correct (ctx : mbedtls_aes_context) (key s : bytes) (Hk : key_ok key) (Hs : block s) :
  (let '(ret, e) := mbedtls_aes_setkey_enc ctx key (8 * zlen key) in
   ret = 0 /\ (length (rk e) <= 68)%nat /\ mbedtls_aes_crypt_ecb e MBEDTLS_AES_ENCRYPT s = aes_spec key s) /\
  (let '(ret, d) := mbedtls_aes_setkey_dec ctx key (8 * zlen key) in
   ret = 0 /\ mbedtls_aes_crypt_ecb d MBEDTLS_AES_DECRYPT (aes_spec key s) = s) /\
  (forall bits, bits <> 128 -> bits <> 192 -> bits <> 256 ->
   mbedtls_aes_setkey_enc ctx key bits = (MBEDTLS_ERR_AES_INVALID_KEY_LENGTH, ctx) /\
   mbedtls_aes_setkey_dec ctx key bits = (MBEDTLS_ERR_AES_INVALID_KEY_LENGTH, ctx)).
Proof.
  split; [|split].
  - destruct (setkey_enc_schedule ctx key Hk) as (n & k & -> & H). split; [done|]. split; [apply H|]. by apply encrypt_spec.
  - destruct (setkey_dec_inverse ctx key Hk) as (n & k & k' & E & _). rewrite E. split; [done|].
    apply dec_ctx_ecb; [split; [exact Hk|by exists ctx]|exact Hs].
  - intros bits H1 H2 H3. assert (E : forall c, mbedtls_aes_setkey_enc c key bits = (MBEDTLS_ERR_AES_INVALID_KEY_LENGTH, c)).
    { intros c. unfold mbedtls_aes_setkey_enc. by rewrite (proj2 (Z.eqb_neq _ _) H1), (proj2 (Z.eqb_neq _ _) H2), (proj2 (Z.eqb_neq _ _) H3). }
    split; [apply E|]. unfold mbedtls_aes_setkey_dec. rewrite E. by destruct ctx.
Qed.

Lemma aes_block_correct_witness :
  mbedtls_aes_crypt_ecb (snd (mbedtls_aes_setkey_dec mbedtls_aes_init (sample_key 24) 192)) MBEDTLS_AES_DECRYPT
    (aes_spec (sample_key 24) sample_block) = sample_block.
Proof.
  assert (Hk : key_ok (sample_key 24)) by (split; [bytes_ok_closed|by right; left]).
  assert (Hs : block sample_block) by (split; [reflexivity|bytes_ok_closed]).
  destruct (aes_block_correct mbedtls_aes_init (sample_key 24) sample_block Hk Hs) as (_ & H & _).
  change (8 * zlen (sample_key 24)) with 192 in H.
  destruct (mbedtls_aes_setkey_dec mbedtls_aes_init (sample_key 24) 192) as [ret d]. exact (proj2 H).
Defined.
End Aes.
