(* ===== verification/AesModes.v ===== *)
(** The modes of AES (mbedtls/library/aes.c): CBC, CFB128, CFB8, OFB, CTR and XTS,
    with the initialisation vectors and offsets a call leaves for the next one.  A
    buffer is the list of its [length] bytes; the modes work in place or between
    buffers alike.  The theorems say that decryption inverts encryption in each
    mode, with the same state left behind, that a message may be cut into calls
    anywhere the code allows it, and that the counter mode has the key stream of
    SP 800-38A. *)
From S2P Require Import Prelude CString Words AesTables Aes.
From stdpp Require Import list.
#[local] Open Scope Z_scope.

Module AesModes.
Import Aes.

Definition xor_bytes : bytes -> bytes -> bytes := zip_with Z.lxor.

(** ** CBC *)

(** The output and the vector it leaves, for [n] blocks. *)
Fixpoint cbc_decrypt (n : nat) (ctx : mbedtls_aes_context) (iv input : bytes) : bytes * bytes :=
  match n with
  | O => ([], iv)
  | S n =>
      let temp := take 16 input in
      let output := xor_bytes (mbedtls_aes_crypt_ecb ctx MBEDTLS_AES_DECRYPT temp) iv in
      let '(rest, iv) := cbc_decrypt n ctx temp (drop 16 input) in (output ++ rest, iv)
  end.

Fixpoint cbc_encrypt (n : nat) (ctx : mbedtls_aes_context) (iv input : bytes) : bytes * bytes :=
  match n with
  | O => ([], iv)
  | S n =>
      let output := mbedtls_aes_crypt_ecb ctx MBEDTLS_AES_ENCRYPT (xor_bytes (take 16 input) iv) in
      let '(rest, iv) := cbc_encrypt n ctx output (drop 16 input) in (output ++ rest, iv)
  end.

(** The code, the output and the vector. *)
Definition mbedtls_aes_crypt_cbc (ctx : mbedtls_aes_context) (mode : Z) (iv input : bytes) : Z * bytes * bytes :=
  if negb (zlen input mod 16 =? 0) then (MBEDTLS_ERR_AES_INVALID_INPUT_LENGTH, [], iv)
  else
    let n := (length input / 16)%nat in
    let '(output, iv) := if mode =? MBEDTLS_AES_DECRYPT then cbc_decrypt n ctx iv input else cbc_encrypt n ctx iv input in
    (0, output, iv).

(** ** Streams *)

(** [if (n == 0) mbedtls_aes_crypt_ecb(ctx, MBEDTLS_AES_ENCRYPT, iv, iv);] *)
Definition refill (ctx : mbedtls_aes_context) (n : nat) (iv : bytes) : bytes :=
  if (n =? 0)%nat then mbedtls_aes_crypt_ecb ctx MBEDTLS_AES_ENCRYPT iv else iv.

Definition next_offset (n : nat) : nat := Nat.land (n + 1) 0x0F.

(** The output, the offset and the vector. *)
Fixpoint cfb128_loop (ctx : mbedtls_aes_context) (mode : Z) (n : nat) (iv input : bytes) : bytes * nat * bytes :=
  match input with
  | [] => ([], n, iv)
  | c :: input =>
      let iv := refill ctx n iv in
      let output := Z.lxor (nth n iv 0) c in
      let iv := <[n := if mode =? MBEDTLS_AES_DECRYPT then c else output]> iv in
      let '(rest, n, iv) := cfb128_loop ctx mode (next_offset n) iv input in (output :: rest, n, iv)
  end.

Definition mbedtls_aes_crypt_cfb128 (ctx : mbedtls_aes_context) (mode : Z) (iv_off : nat) (iv input : bytes)
    : Z * bytes * nat * bytes :=
  if (15 <? iv_off)%nat then (MBEDTLS_ERR_AES_BAD_INPUT_DATA, [], iv_off, iv)
  else let '(output, n, iv) := cfb128_loop ctx mode iv_off iv input in (0, output, n, iv).

Fixpoint cfb8_loop (ctx : mbedtls_aes_context) (mode : Z) (iv input : bytes) : bytes * bytes :=
  match input with
  | [] => ([], iv)
  | x :: input =>
      let ov := iv in
      let iv := mbedtls_aes_crypt_ecb ctx MBEDTLS_AES_ENCRYPT iv in
      let c := Z.lxor (nth 0 iv 0) x in
      let ov := ov ++ [if mode =? MBEDTLS_AES_DECRYPT then x else c] in
      let '(rest, iv) := cfb8_loop ctx mode (drop 1 ov) input in (c :: rest, iv)
  end.

Definition mbedtls_aes_crypt_cfb8 (ctx : mbedtls_aes_context) (mode : Z) (iv input : bytes) : Z * bytes * bytes :=
  let '(output, iv) := cfb8_loop ctx mode iv input in (0, output, iv).

Fixpoint ofb_loop (ctx : mbedtls_aes_context) (n : nat) (iv input : bytes) : bytes * nat * bytes :=
  match input with
  | [] => ([], n, iv)
  | c :: input =>
      let iv := refill ctx n iv in
      let '(rest, n', iv') := ofb_loop ctx (next_offset n) iv input in (Z.lxor c (nth n iv 0) :: rest, n', iv')
  end.

Definition mbedtls_aes_crypt_ofb (ctx : mbedtls_aes_context) (iv_off : nat) (iv input : bytes) : Z * bytes * nat * bytes :=
  if (15 <? iv_off)%nat then (MBEDTLS_ERR_AES_BAD_INPUT_DATA, [], iv_off, iv)
  else let '(output, n, iv) := ofb_loop ctx iv_off iv input in (0, output, n, iv).

(** The offset, the counter and the block of the key stream. *)
Record CtrState := mkCtr { nc_off : nat; nonce_counter : bytes; stream_block : bytes }.

Fixpoint ctr_loop (ctx : mbedtls_aes_context) (s : CtrState) (input : bytes) : bytes * CtrState :=
  match input with
  | [] => ([], s)
  | c :: input =>
      let s := if (nc_off s =? 0)%nat
               then mkCtr (nc_off s) (next_counter (nonce_counter s)) (mbedtls_aes_crypt_ecb ctx MBEDTLS_AES_ENCRYPT (nonce_counter s))
               else s in
      let '(rest, s') := ctr_loop ctx (mkCtr (next_offset (nc_off s)) (nonce_counter s) (stream_block s)) input in
      (Z.lxor c (nth (nc_off s) (stream_block s) 0) :: rest, s')
  end.

Definition mbedtls_aes_crypt_ctr (ctx : mbedtls_aes_context) (s : CtrState) (input : bytes) : Z * bytes * CtrState :=
  if (0x0F <? nc_off s)%nat then (MBEDTLS_ERR_AES_BAD_INPUT_DATA, [], s)
  else let '(output, s) := ctr_loop ctx s input in (0, output, s).

(** ** XTS *)

Record mbedtls_aes_xts_context := mkXts { crypt : mbedtls_aes_context; tweak_ctx : mbedtls_aes_context }.

Definition mbedtls_aes_xts_init : mbedtls_aes_xts_context := mkXts mbedtls_aes_init mbedtls_aes_init.

(** The two halves and their bits. *)
Definition mbedtls_aes_xts_decode_keys (key : bytes) (keybits : Z) : Z + bytes * bytes * Z :=
  let half_keybits := keybits / 2 in
  let half_keybytes := half_keybits / 8 in
  if (keybits =? 256) || (keybits =? 512)
  then inr (key, drop (Z.to_nat half_keybytes) key, half_keybits)
  else inl MBEDTLS_ERR_AES_INVALID_KEY_LENGTH.

Definition xts_setkey (setkey : mbedtls_aes_context -> bytes -> Z -> Z * mbedtls_aes_context)
    (ctx : mbedtls_aes_xts_context) (key : bytes) (keybits : Z) : Z * mbedtls_aes_xts_context :=
  match mbedtls_aes_xts_decode_keys key keybits with
  | inl ret => (ret, ctx)
  | inr (key1, key2, bits) =>
      let '(ret, tweak) := mbedtls_aes_setkey_enc (tweak_ctx ctx) key2 bits in
      if negb (ret =? 0) then (ret, mkXts (crypt ctx) tweak)
      else let '(ret, c) := setkey (crypt ctx) key1 bits in (ret, mkXts c tweak)
  end.

Definition mbedtls_aes_xts_setkey_enc := xts_setkey mbedtls_aes_setkey_enc.
Definition mbedtls_aes_xts_setkey_dec := xts_setkey mbedtls_aes_setkey_dec.

Definition mbedtls_gf128mul_x_ble (x : bytes) : bytes :=
  let a := MBEDTLS_GET_UINT64_LE x 0 in
  let b := MBEDTLS_GET_UINT64_LE x 8 in
  let ra := Z.lxor (u64 (Z.shiftl a 1)) (Z.shiftr 0x0087 (8 - Z.shiftl (Z.shiftr b 63) 3)) in
  let rb := Z.lor (Z.shiftr a 63) (u64 (Z.shiftl b 1)) in
  MBEDTLS_PUT_UINT64_LE ra ++ MBEDTLS_PUT_UINT64_LE rb.

Definition xts_block (ctx : mbedtls_aes_context) (mode : Z) (tweak input : bytes) : bytes :=
  xor_bytes (mbedtls_aes_crypt_ecb ctx mode (xor_bytes input tweak)) tweak.

(** The loop over [n] blocks, one behind the other; the output, [tweak] and
    [prev_tweak]. *)
Fixpoint xts_blocks (n : nat) (steals : bool) (ctx : mbedtls_aes_context) (mode : Z) (tweak prev_tweak input : bytes)
    : list bytes * bytes * bytes :=
  match n with
  | O => ([], tweak, prev_tweak)
  | S blocks =>
      let '(tweak, prev_tweak) :=
        if steals && (mode =? MBEDTLS_AES_DECRYPT) && (blocks =? 0)%nat
        then (mbedtls_gf128mul_x_ble tweak, tweak) else (tweak, prev_tweak) in
      let output := xts_block ctx mode tweak (take 16 input) in
      let '(rest, tweak, prev_tweak) :=
        xts_blocks blocks steals ctx mode (mbedtls_gf128mul_x_ble tweak) prev_tweak (drop 16 input) in
      (output :: rest, tweak, prev_tweak)
  end.

Definition mbedtls_aes_crypt_xts (ctx : mbedtls_aes_xts_context) (mode : Z) (data_unit input : bytes) : Z * bytes :=
  let blocks := (length input / 16)%nat in
  let leftover := (length input mod 16)%nat in
  if zlen input <? 16 then (MBEDTLS_ERR_AES_INVALID_INPUT_LENGTH, [])
  else if 2 ^ 20 * 16 <? zlen input then (MBEDTLS_ERR_AES_INVALID_INPUT_LENGTH, [])
  else
    let tweak := mbedtls_aes_crypt_ecb (tweak_ctx ctx) MBEDTLS_AES_ENCRYPT data_unit in
    let '(outputs, tweak, prev_tweak) :=
      xts_blocks blocks (negb (leftover =? 0)%nat) (crypt ctx) mode tweak [] input in
    if (leftover =? 0)%nat then (0, concat outputs)
    else
      let t := if mode =? MBEDTLS_AES_DECRYPT then prev_tweak else tweak in
      let prev_output := List.last outputs [] in
      let output := take leftover prev_output in
      let tmp := xor_bytes (drop (16 * blocks) input ++ drop leftover prev_output) t in
      let tmp := mbedtls_aes_crypt_ecb (crypt ctx) mode tmp in
      (0, concat (removelast outputs) ++ xor_bytes tmp t ++ output).

(** ** Blocks *)

Lemma xor_is_block a b : block a -> block b -> block (xor_bytes a b).
Proof. apply add_block. Qed.

Lemma xor_cancel a b : length a = length b -> xor_bytes (xor_bytes a b) b = a.
Proof. apply add_cancel. Qed.

Lemma xor_length a b : length a = length b -> length (xor_bytes a b) = length a.
Proof. intros H. unfold xor_bytes. rewrite length_zip_with. lia. Qed.

Lemma take_block input : bytes_ok input -> (16 <= length input)%nat -> block (take 16 input).
Proof. intros Hb Hl. split; [rewrite length_take; lia|by apply Forall_take]. Qed.

Section Key.
Context (key : bytes) (e d : mbedtls_aes_context) (He : enc_ctx key e) (Hd : dec_ctx key d).

Lemma ecb_block s : block s -> block (mbedtls_aes_crypt_ecb e MBEDTLS_AES_ENCRYPT s).
Proof. intros Hs. rewrite (enc_ctx_ecb key) by assumption. apply aes_spec_block; [apply He|exact Hs]. Qed.

Lemma ecb_inverse s : block s -> mbedtls_aes_crypt_ecb d MBEDTLS_AES_DECRYPT (mbedtls_aes_crypt_ecb e MBEDTLS_AES_ENCRYPT s) = s.
Proof. intros Hs. rewrite (enc_ctx_ecb key) by assumption. by apply dec_ctx_ecb. Qed.

(** ** CBC *)

Lemma cbc_inverse n : forall iv input, block iv -> bytes_ok input -> length input = (16 * n)%nat ->
  let '(c, iv1) := cbc_encrypt n e iv input in
  length c = (16 * n)%nat /\ block iv1 /\ cbc_decrypt n d iv c = (input, iv1).
Proof.
  induction n as [|n IH]; intros iv input Hiv Hb Hl; cbn [cbc_encrypt].
  - split; [done|]. split; [exact Hiv|]. by destruct input.
  - set (p := take 16 input). assert (Hp : block p) by (apply take_block; [exact Hb|lia]).
    set (o := mbedtls_aes_crypt_ecb e MBEDTLS_AES_ENCRYPT (xor_bytes p iv)). assert (Ho : block o) by (by apply ecb_block, xor_is_block).
    specialize (IH o (drop 16 input) Ho ltac:(by apply Forall_drop) ltac:(rewrite length_drop; lia)).
    destruct (cbc_encrypt n e o (drop 16 input)) as [rest iv1]. destruct IH as (Lr & Hiv1 & D). destruct Ho as [Lo Bo].
    split; [rewrite length_app; lia|]. split; [exact Hiv1|]. cbn [cbc_decrypt].
    rewrite take_app_exact, drop_app_exact, D by (by symmetry). unfold o. rewrite ecb_inverse by (by apply xor_is_block).
    rewrite xor_cancel by (by apply block_same). unfold p. by rewrite take_drop.
Qed.

Lemma cbc_split n m : forall iv a b, length a = (16 * n)%nat ->
  cbc_encrypt (n + m) e iv (a ++ b) =
  let '(c, iv) := cbc_encrypt n e iv a in let '(c', iv) := cbc_encrypt m e iv b in (c ++ c', iv).
Proof.
  induction n as [|n IH]; intros iv a b Hl.
  - destruct a; [|discriminate]. cbn [cbc_encrypt app Nat.add]. by destruct (cbc_encrypt m e iv b).
  - cbn [Nat.add cbc_encrypt]. rewrite take_app_le, drop_app_le by lia. rewrite IH by (rewrite length_drop; lia).
    destruct (cbc_encrypt n e _ (drop 16 a)) as [c iv1]. destruct (cbc_encrypt m e iv1 b) as [c' iv2]. by rewrite app_assoc.
Qed.

(** ** CFB and OFB *)

Lemma cfb128_inverse input : forall n iv,
  let '(c, n1, iv1) := cfb128_loop e MBEDTLS_AES_ENCRYPT n iv input in
  length c = length input /\ cfb128_loop e MBEDTLS_AES_DECRYPT n iv c = (input, n1, iv1).
Proof.
  induction input as [|x input IH]; intros n iv; cbn [cfb128_loop]; [done|].
  change (MBEDTLS_AES_ENCRYPT =? MBEDTLS_AES_DECRYPT) with false. cbv iota.
  set (o := Z.lxor (nth n (refill e n iv) 0) x). specialize (IH (next_offset n) (<[n:=o]> (refill e n iv))).
  destruct (cfb128_loop e MBEDTLS_AES_ENCRYPT _ _ input) as [[c n1] iv1]. destruct IH as [L D]. split; [cbn [length]; lia|].
  cbn [cfb128_loop]. change (MBEDTLS_AES_DECRYPT =? MBEDTLS_AES_DECRYPT) with true. cbv iota. rewrite D.
  unfold o. by rewrite <- Z.lxor_assoc, Z.lxor_nilpotent, Z.lxor_0_l.
Qed.

Lemma cfb8_inverse input : forall iv,
  let '(c, iv1) := cfb8_loop e MBEDTLS_AES_ENCRYPT iv input in
  length c = length input /\ cfb8_loop e MBEDTLS_AES_DECRYPT iv c = (input, iv1).
Proof.
  induction input as [|x input IH]; intros iv; cbn [cfb8_loop]; [done|].
  change (MBEDTLS_AES_ENCRYPT =? MBEDTLS_AES_DECRYPT) with false. cbv iota.
  set (k := nth 0 (mbedtls_aes_crypt_ecb e MBEDTLS_AES_ENCRYPT iv) 0). specialize (IH (drop 1 (iv ++ [Z.lxor k x]))).
  destruct (cfb8_loop e MBEDTLS_AES_ENCRYPT _ input) as [c iv1]. destruct IH as [L D]. split; [cbn [length]; lia|].
  cbn [cfb8_loop]. change (MBEDTLS_AES_DECRYPT =? MBEDTLS_AES_DECRYPT) with true. cbv iota. rewrite D.
  fold k. by rewrite <- Z.lxor_assoc, Z.lxor_nilpotent, Z.lxor_0_l.
Qed.

Lemma ofb_inverse input : forall n iv,
  let '(c, n1, iv1) := ofb_loop e n iv input in length c = length input /\ ofb_loop e n iv c = (input, n1, iv1).
Proof.
  induction input as [|x input IH]; intros n iv; cbn [ofb_loop]; [done|].
  specialize (IH (next_offset n) (refill e n iv)). destruct (ofb_loop e _ _ input) as [[c n1] iv1]. destruct IH as [L D].
  split; [cbn [length]; lia|]. cbn [ofb_loop]. rewrite D. by rewrite lxor_cancel.
Qed.

Lemma cfb128_split mode a b : forall n iv,
  cfb128_loop e mode n iv (a ++ b) =
  let '(c, n, iv) := cfb128_loop e mode n iv a in let '(c', n, iv) := cfb128_loop e mode n iv b in (c ++ c', n, iv).
Proof.
  induction a as [|x a IH]; intros n iv; cbn [app cfb128_loop]; [by destruct (cfb128_loop e mode n iv b) as [[? ?] ?]|].
  rewrite IH. destruct (cfb128_loop e mode _ _ a) as [[c n1] iv1]. by destruct (cfb128_loop e mode n1 iv1 b) as [[? ?] ?].
Qed.
End Key.

(** ** CTR *)

(** Byte [p] of the key stream of SP 800-38A from the counter [N]. *)
Definition key_stream (key : bytes) (N : Z) (p : nat) : Z :=
  nth (p mod 16) (aes_spec key (be_bytes 16 (N + Z.of_nat (p / 16)))) 0.

Definition stream_xor (key : bytes) (N : Z) (p : nat) (input : bytes) : bytes :=
  zip_with Z.lxor input (map (key_stream key N) (seq p (length input))).

(** The state after [p] bytes: the counter is the next one to encrypt. *)
Definition ctr_at (key : bytes) (N : Z) (p : nat) (s : CtrState) : Prop :=
  nc_off s = (p mod 16)%nat /\ nonce_counter s = be_bytes 16 (N + Z.of_nat ((p + 15) / 16)) /\
  ((p mod 16 <> 0)%nat -> stream_block s = aes_spec key (be_bytes 16 (N + Z.of_nat (p / 16)))).

Lemma counter_block z : block (be_bytes 16 z).
Proof. split; [apply be_bytes_length|apply be_bytes_ok]. Qed.

Lemma next_offset_mod n : (n < 16)%nat -> next_offset n = ((n + 1) mod 16)%nat.
Proof. intros H. do 16 (destruct n as [|n]; [reflexivity|]). lia. Qed.

Lemma ctr_run key e N : enc_ctx key e -> 0 <= N -> forall input p s, ctr_at key N p s ->
  let '(output, s') := ctr_loop e s input in
  output = stream_xor key N p input /\ ctr_at key N (p + length input) s'.
Proof.
  intros He HN. induction input as [|x input IH]; intros p s Hs; cbn [ctr_loop].
  { split; [done|]. cbn [length]. by rewrite Nat.add_0_r. }
  pose proof (Nat.mod_upper_bound p 16 ltac:(lia)) as Hm. pose proof (Nat.div_mod_eq p 16) as Hp.
  set (s1 := if (nc_off s =? 0)%nat then _ else s).
  assert (H1 : nc_off s1 = (p mod 16)%nat /\ nonce_counter s1 = be_bytes 16 (N + Z.of_nat (p / 16 + 1)) /\
               stream_block s1 = aes_spec key (be_bytes 16 (N + Z.of_nat (p / 16)))).
  { destruct Hs as (E1 & E2 & E3). unfold s1. rewrite E1. destruct (Nat.eqb_spec (p mod 16)%nat 0%nat) as [E0|E0]; cbn [nc_off nonce_counter stream_block].
    - split; [done|]. assert (Q : ((p + 15) / 16 = p / 16)%nat) by (symmetry; apply (Nat.div_unique _ _ _ 15); lia).
      rewrite E2, Q. split; [|by apply enc_ctx_ecb; [|apply counter_block]].
      rewrite next_counter_be by lia. f_equal. lia.
    - split; [exact E1|]. split; [|by apply E3]. rewrite E2. do 3 f_equal. symmetry. apply (Nat.div_unique _ _ _ (p mod 16 - 1)); lia. }
  destruct H1 as (E1 & E2 & E3). clearbody s1. rewrite E1, E2, E3, next_offset_mod by exact Hm.
  assert (Hs' : ctr_at key N (p + 1) (mkCtr ((p mod 16 + 1) mod 16) (be_bytes 16 (N + Z.of_nat (p / 16 + 1)))
                  (aes_spec key (be_bytes 16 (N + Z.of_nat (p / 16)))))).
  { split; [cbn [nc_off]; by rewrite Nat.Div0.add_mod_idemp_l|]. cbn [nonce_counter stream_block]. split.
    - do 3 f_equal. apply (Nat.div_unique _ _ _ (p mod 16)); lia.
    - intros H. do 4 f_equal. apply (Nat.div_unique _ _ _ (p mod 16 + 1)); [|lia].
      rewrite <- Nat.Div0.add_mod_idemp_l in H. destruct (Nat.eq_dec (p mod 16)%nat 15%nat) as [E|E]; [rewrite E in H; by destruct H|lia]. }
  specialize (IH (p + 1)%nat _ Hs'). destruct (ctr_loop e _ input) as [rest s']. destruct IH as [-> H'].
  split; [|by replace (p + length (x :: input))%nat with (p + 1 + length input)%nat by (cbn [length]; lia)].
  unfold stream_xor. cbn [length seq map zip_with]. by replace (p + 1)%nat with (S p) by lia.
Qed.

(** The calls for the pieces of a message. *)
Fixpoint ctr_calls (ctx : mbedtls_aes_context) (s : CtrState) (pieces : list bytes) : bytes * CtrState :=
  match pieces with
  | [] => ([], s)
  | piece :: pieces =>
      let '(_, output, s) := mbedtls_aes_crypt_ctr ctx s piece in
      let '(rest, s) := ctr_calls ctx s pieces in (output ++ rest, s)
  end.

Lemma stream_xor_app key N p a b : stream_xor key N p (a ++ b) = stream_xor key N p a ++ stream_xor key N (p + length a) b.
Proof.
  unfold stream_xor. rewrite length_app, seq_app, map_app. apply zip_with_app. by rewrite length_map, length_seq.
Qed.

Lemma ctr_calls_run key e N : enc_ctx key e -> 0 <= N -> forall pieces p s, ctr_at key N p s ->
  let '(output, s') := ctr_calls e s pieces in
  output = stream_xor key N p (concat pieces) /\ ctr_at key N (p + length (concat pieces)) s'.
Proof.
  intros He HN. induction pieces as [|a pieces IH]; intros p s Hs; cbn [ctr_calls concat].
  { split; [done|]. cbn [length]. by rewrite Nat.add_0_r. }
  unfold mbedtls_aes_crypt_ctr. rewrite (proj1 Hs). rewrite (proj2 (Nat.ltb_ge 15%nat (p mod 16)%nat)) by (pose proof (Nat.mod_upper_bound p 16); lia).
  pose proof (ctr_run key e N He HN a p s Hs) as R. destruct (ctr_loop e s a) as [o s1]. destruct R as [-> H1].
  specialize (IH (p + length a)%nat s1 H1). destruct (ctr_calls e s1 pieces) as [rest s2]. destruct IH as [-> H2].
  rewrite stream_xor_app, length_app. split; [done|]. by rewrite Nat.add_assoc.
Qed.

(** The counter mode.  However a message is cut into calls, the output is the
    message added to the key stream of SP 800-38A, whose block [i] is the
    encryption of the nonce plus [i] modulo 2^128; the same calls on the output
    give the message back; and an offset above 15 is refused without a change of
    state. *)
Theorem aes_ctr_correct (key nonce stream : bytes) (e : mbedtls_aes_context) (pieces pieces' : list bytes)
    (He : enc_ctx key e) (Hn : block nonce) :
  let s := mkCtr 0 nonce stream in
  let '(output, s1) := ctr_calls e s pieces in
  output = stream_xor key (be_val nonce) 0 (concat pieces) /\
  (concat pieces' = output -> ctr_calls e s pieces' = (concat pieces, snd (ctr_calls e s pieces'))) /\
  nonce_counter s1 = be_bytes 16 (be_val nonce + Z.of_nat ((length (concat pieces) + 15) / 16)) /\
  forall s input, (15 < nc_off s)%nat -> mbedtls_aes_crypt_ctr e s input = (MBEDTLS_ERR_AES_BAD_INPUT_DATA, [], s).
Proof.
  intros s. destruct Hn as [Ln Bn].
  assert (HN : 0 <= be_val nonce) by (apply le_val_range; by apply Forall_rev).
  assert (Hs : ctr_at key (be_val nonce) 0 s).
  { split; [done|]. split; [|done]. cbn [nonce_counter s]. rewrite Z.add_0_r. unfold be_bytes, be_val.
    rewrite <- Ln, <- (length_rev nonce), le_bytes_val by (by apply Forall_rev). by rewrite rev_involutive. }
  pose proof (ctr_calls_run key e _ He HN pieces 0 s Hs) as R.
  destruct (ctr_calls e s pieces) as [output s1] eqn:Ec. destruct R as [-> H1]. split; [done|]. split; [|split; [apply H1|]].
  - intros E. pose proof (ctr_calls_run key e _ He HN pieces' 0 s Hs) as R.
    destruct (ctr_calls e s pieces') as [o s2]. destruct R as [-> _]. rewrite E. cbn [snd]. f_equal.
    assert (L : length (stream_xor key (be_val nonce) 0 (concat pieces)) = length (concat pieces))
      by (unfold stream_xor; rewrite length_zip_with, length_map, length_seq; lia).
    unfold stream_xor at 1. rewrite L. apply xor_cancel. by rewrite length_map, length_seq.
  - intros s' input H. unfold mbedtls_aes_crypt_ctr. by rewrite (proj2 (Nat.ltb_lt _ _) H).
Qed.

(** ** XTS *)

(** Multiplication by x modulo x^128 + x^7 + x^2 + x + 1, on the number the bytes
    write. *)
Definition double128 (v : Z) : Z := Z.lxor (2 * v mod 2 ^ 128) (if v <? 2 ^ 127 then 0 else 0x87).

Lemma lxor_low k lo hi c : 0 <= k -> 0 <= lo < 2 ^ k -> 0 <= c < 2 ^ k -> Z.lxor (lo + 2 ^ k * hi) c = Z.lxor lo c + 2 ^ k * hi.
Proof.
  intros Hk Hl Hc. rewrite !(Z.add_comm _ (2 ^ k * hi)), !(Z.mul_comm (2 ^ k)), !add_lxor by (try apply lxor_range; assumption).
  by rewrite Z.lxor_assoc.
Qed.

Lemma gf128_double x : block x ->
  block (mbedtls_gf128mul_x_ble x) /\ le_val (mbedtls_gf128mul_x_ble x) = double128 (le_val x).
Proof.
  intros [Hl Hb]. unfold mbedtls_gf128mul_x_ble. rewrite !put64_le, !get64_le by (assumption || lia).
  change (drop 0 x) with x. set (lo := take 8 x). set (hi := take 8 (drop 8 x)).
  assert (Ex : x = lo ++ hi) by (unfold lo, hi; rewrite (take_ge (drop 8 x)) by (rewrite length_drop; lia); by rewrite take_drop).
  assert (Llo : length lo = 8%nat) by (unfold lo; rewrite length_take; lia).
  assert (Lhi : length hi = 8%nat) by (unfold hi; rewrite length_take, length_drop; lia).
  pose proof (le_val_range lo ltac:(by apply Forall_take)) as Ra. pose proof (le_val_range hi ltac:(by apply Forall_take, Forall_drop)) as Rb.
  rewrite Llo in Ra. rewrite Lhi in Rb. change (256 ^ Z.of_nat 8) with (2 ^ 64) in *.
  assert (Ev : le_val x = le_val lo + 2 ^ 64 * le_val hi) by (rewrite Ex at 1; rewrite le_val_app, Llo; reflexivity).
  rewrite Ev. clearbody lo hi. set (a := le_val lo) in *. set (b := le_val hi) in *.
  split; [split; [rewrite length_app, !le_bytes_length; reflexivity|apply Forall_app; split; apply le_bytes_ok]|].
  rewrite le_val_app, !le_val_bytes, le_bytes_length. change (256 ^ Z.of_nat 8) with (2 ^ 64).
  rewrite !Z.shiftl_mul_pow2, !(Z.shiftr_div_pow2 _ 63) by lia. unfold u64. change (2 ^ 1) with 2. change (2 ^ 3) with 8.
  assert (Qa : 0 <= a / 2 ^ 63 < 2) by (split; [apply Z.div_pos; lia|apply Z.div_lt_upper_bound; lia]).
  assert (Qb : 0 <= b / 2 ^ 63 < 2) by (split; [apply Z.div_pos; lia|apply Z.div_lt_upper_bound; lia]).
  pose proof (Z.div_mod a (2 ^ 63) ltac:(lia)) as Da. pose proof (Z.mod_pos_bound a (2 ^ 63) ltac:(lia)) as Ma.
  pose proof (Z.div_mod b (2 ^ 63) ltac:(lia)) as Db. pose proof (Z.mod_pos_bound b (2 ^ 63) ltac:(lia)) as Mb.
  assert (E2a : a * 2 mod 2 ^ 64 = 2 * (a mod 2 ^ 63)) by (symmetry; apply (Z.mod_unique_pos _ _ (a / 2 ^ 63)); lia).
  assert (E2b : b * 2 mod 2 ^ 64 = 2 * (b mod 2 ^ 63)) by (symmetry; apply (Z.mod_unique_pos _ _ (b / 2 ^ 63)); lia).
  rewrite E2a, E2b, Z.lor_comm. replace (2 * (b mod 2 ^ 63)) with (b mod 2 ^ 63 * 2 ^ 1) by lia. rewrite (lor_add 1) by lia.
  set (c := Z.shiftr 135 (8 - b / 2 ^ 63 * 8)).
  assert (Ec : c = if a + 2 ^ 64 * b <? 2 ^ 127 then 0 else 0x87).
  { unfold c. destruct (Z.ltb_spec (a + 2 ^ 64 * b) (2 ^ 127)).
    - assert (b / 2 ^ 63 = 0) as -> by (apply Z.div_small; lia). reflexivity.
    - assert (b / 2 ^ 63 = 1) as -> by (symmetry; apply (Z.div_unique _ _ _ (b - 2 ^ 63)); lia). reflexivity. }
  assert (Hc : 0 <= c < 2 ^ 64) by (rewrite Ec; case_if; lia).
  unfold double128. rewrite <- Ec. clearbody c.
  assert (E2 : 2 * (a + 2 ^ 64 * b) mod 2 ^ 128 = 2 * (a mod 2 ^ 63) + 2 ^ 64 * (b mod 2 ^ 63 * 2 + a / 2 ^ 63))
    by (symmetry; apply (Z.mod_unique_pos _ _ (b / 2 ^ 63)); lia).
  rewrite E2, lxor_low by lia. pose proof (lxor_range 64 (2 * (a mod 2 ^ 63)) c ltac:(lia) ltac:(lia) Hc).
  change (2 ^ 1) with 2. rewrite (Z.mod_small (Z.lxor _ _)), (Z.mod_small (b mod 2 ^ 63 * 2 + _)) by lia. reflexivity.
Qed.

(** The blocks of a data unit, each with its tweak. *)
Fixpoint xts_map (ctx : mbedtls_aes_context) (mode : Z) (tweak : bytes) (blocks : list bytes) : list bytes :=
  match blocks with
  | [] => []
  | b :: blocks => xts_block ctx mode tweak b :: xts_map ctx mode (mbedtls_gf128mul_x_ble tweak) blocks
  end.

Fixpoint blocks16 (n : nat) (input : bytes) : list bytes :=
  match n with O => [] | S n => take 16 input :: blocks16 n (drop 16 input) end.

Definition doubled (n : nat) (tweak : bytes) : bytes := Nat.iter n mbedtls_gf128mul_x_ble tweak.

Lemma doubled_S n tweak : doubled (S n) tweak = doubled n (mbedtls_gf128mul_x_ble tweak).
Proof. apply Nat.iter_succ_r. Qed.

Lemma doubled_block n tweak : block tweak -> block (doubled n tweak).
Proof. intros H. induction n as [|n IH]; [exact H|]. by apply gf128_double. Qed.

Lemma xts_blocks_plain n steals ctx mode : steals && (mode =? MBEDTLS_AES_DECRYPT) = false -> forall tweak prev input,
  xts_blocks n steals ctx mode tweak prev input = (xts_map ctx mode tweak (blocks16 n input), doubled n tweak, prev).
Proof.
  intros H. induction n as [|n IH]; intros tweak prev input; [done|]. cbn [xts_blocks blocks16 xts_map].
  rewrite H. cbn [andb]. rewrite IH. by rewrite doubled_S.
Qed.

Lemma xts_blocks_steal n ctx : forall tweak prev input,
  xts_blocks (S n) true ctx MBEDTLS_AES_DECRYPT tweak prev input =
  (xts_map ctx MBEDTLS_AES_DECRYPT tweak (blocks16 n input) ++
     [xts_block ctx MBEDTLS_AES_DECRYPT (doubled (S n) tweak) (take 16 (drop (16 * n) input))],
   doubled (S (S n)) tweak, doubled n tweak).
Proof.
  induction n as [|n IH]; intros tweak prev input; [done|].
  remember (S n) as m eqn:Em. cbn [xts_blocks]. replace (m =? 0)%nat with false by (by rewrite Em). rewrite andb_false_r. cbv iota.
  rewrite IH, Em, (doubled_S (S (S n)) tweak), !(doubled_S (S n) tweak), (doubled_S n tweak). cbn [blocks16 xts_map app].
  rewrite drop_drop. by replace (16 * S n)%nat with (16 + 16 * n)%nat by lia.
Qed.

Lemma length_concat_same {A} k (ls : list (list A)) :
  Forall (fun l => length l = k) ls -> length (concat ls) = (k * length ls)%nat.
Proof. induction 1 as [|l ls Hl _ IH]; cbn [concat length]; [lia|]. rewrite length_app, Hl, IH. lia. Qed.

(** The blocks back. *)
Lemma blocks16_concat n : forall bs tail, length bs = n -> Forall (fun b => length b = 16%nat) bs -> blocks16 n (concat bs ++ tail) = bs.
Proof.
  induction n as [|n IH]; intros bs tail Hn Hb; [by destruct bs|]. destruct bs as [|b bs]; [discriminate|].
  apply List.Forall_cons_iff in Hb as [Hl Hb]. cbn [concat blocks16]. rewrite <- app_assoc.
  rewrite take_app_exact, drop_app_exact by (by symmetry). f_equal. apply IH; [by injection Hn|exact Hb].
Qed.

Lemma blocks16_input n : forall input, bytes_ok input -> (16 * n <= length input)%nat ->
  length (blocks16 n input) = n /\ Forall block (blocks16 n input) /\ concat (blocks16 n input) = take (16 * n) input.
Proof.
  induction n as [|n IH]; intros input Hb Hl; cbn [blocks16]; [by rewrite take_0|].
  destruct (IH (drop 16 input) ltac:(by apply Forall_drop) ltac:(rewrite length_drop; lia)) as (L & F & C).
  split; [cbn [length]; by rewrite L|]. split; [constructor; [apply take_block; [exact Hb|lia]|exact F]|].
  cbn [concat]. rewrite C. replace (16 * S n)%nat with (16 + 16 * n)%nat by lia. by rewrite <- take_take_drop.
Qed.

Section XtsKey.
Context (key : bytes) (e d : mbedtls_aes_context) (He : enc_ctx key e) (Hd : dec_ctx key d).

Lemma xts_block_ok t b : block t -> block b -> block (xts_block e MBEDTLS_AES_ENCRYPT t b).
Proof. intros Ht Hb. unfold xts_block. apply xor_is_block; [|exact Ht]. by apply (ecb_block key), xor_is_block. Qed.

Lemma xts_block_inverse t b : block t -> block b ->
  xts_block d MBEDTLS_AES_DECRYPT t (xts_block e MBEDTLS_AES_ENCRYPT t b) = b.
Proof.
  intros Ht Hb. unfold xts_block. assert (Hx : block (xor_bytes b t)) by (by apply xor_is_block).
  rewrite (xor_cancel (mbedtls_aes_crypt_ecb e MBEDTLS_AES_ENCRYPT (xor_bytes b t)) t) by (apply block_same; [by apply (ecb_block key)|exact Ht]).
  rewrite (ecb_inverse key e d) by assumption. apply xor_cancel. by apply block_same.
Qed.

Lemma xts_map_ok bs : forall t, block t -> Forall block bs ->
  length (xts_map e MBEDTLS_AES_ENCRYPT t bs) = length bs /\ Forall block (xts_map e MBEDTLS_AES_ENCRYPT t bs) /\
  xts_map d MBEDTLS_AES_DECRYPT t (xts_map e MBEDTLS_AES_ENCRYPT t bs) = bs.
Proof.
  induction bs as [|b bs IH]; intros t Ht Hb; [done|]. apply List.Forall_cons_iff in Hb as [Hb Hbs]. cbn [xts_map].
  destruct (IH (mbedtls_gf128mul_x_ble t) ltac:(by apply gf128_double) Hbs) as (L & F & D).
  split; [cbn [length]; by rewrite L|]. split; [constructor; [by apply xts_block_ok|exact F]|].
  by rewrite D, xts_block_inverse.
Qed.
End XtsKey.

Lemma xts_map_app ctx mode a b : forall t,
  xts_map ctx mode t (a ++ b) = xts_map ctx mode t a ++ xts_map ctx mode (doubled (length a) t) b.
Proof. induction a as [|x a IH]; intros t; [done|]. cbn [app xts_map length]. rewrite IH. by rewrite doubled_S. Qed.

Lemma xts_setkey_ctx setkey c key cx : length key = 32%nat \/ length key = 64%nat -> bytes_ok key ->
  xts_setkey setkey c key (8 * zlen key) = (0, cx) ->
  let half := (length key / 2)%nat in
  enc_ctx (drop half key) (tweak_ctx cx) /\ key_ok (take half key) /\ setkey (crypt c) key (8 * Z.of_nat half) = (0, crypt cx).
Proof.
  intros Hl Hb H half. unfold xts_setkey, mbedtls_aes_xts_decode_keys in H.
  assert (Hh : (half = 16 \/ half = 32)%nat /\ (length key = 2 * half)%nat) by (unfold half; destruct Hl as [-> | ->]; cbn; lia).
  replace ((8 * zlen key =? 256) || (8 * zlen key =? 512)) with true in H by (by destruct Hl as [-> | ->]).
  replace (8 * zlen key / 2) with (8 * Z.of_nat half) in H by (destruct Hh as [_ ->]; rewrite Nat2Z.inj_mul; change (Z.of_nat 2) with 2;
      replace (8 * (2 * Z.of_nat half)) with (8 * Z.of_nat half * 2) by lia; by rewrite Z.div_mul).
  rewrite (Z.mul_comm 8), Z.div_mul, Nat2Z.id in H by lia. rewrite (Z.mul_comm _ 8) in H.
  destruct (mbedtls_aes_setkey_enc (tweak_ctx c) (drop half key) (8 * Z.of_nat half)) as [ret t] eqn:Et.
  destruct (Z.eqb_spec ret 0) as [->|]; cbn [negb] in H; [|by injection H].
  destruct (setkey (crypt c) key (8 * Z.of_nat half)) as [ret' cc] eqn:Ec. injection H as -> <-. cbn [tweak_ctx crypt].
  assert (Ld : length (drop half key) = half) by (rewrite length_drop; lia).
  split; [|split; [|done]].
  - split; [|exists (tweak_ctx c); by rewrite Ld]. split; [by apply Forall_drop|]. rewrite Ld. lia.
  - split; [by apply Forall_take|]. rewrite length_take. lia.
Qed.

(** Only the first half of the key is read. *)
Lemma words_le_take n m key : (4 * n <= m)%nat -> (m <= length key)%nat -> words_le n (take m key) = words_le n key.
Proof.
  intros Hn Hm. unfold words_le. apply map_ext_in. intros i Hi%in_seq.
  assert (E : forall k, (k < m)%nat -> nth k (take m key) 0 = nth k key 0).
  { intros k Hk. rewrite <- (take_drop m key) at 2. rewrite app_nth1; [done|]. rewrite length_take. lia. }
  unfold MBEDTLS_GET_UINT32_LE. by rewrite !E by lia.
Qed.

Lemma setkey_enc_take c key half : (half = 16 \/ half = 32)%nat -> (half <= length key)%nat ->
  mbedtls_aes_setkey_enc c (take half key) (8 * Z.of_nat half) = mbedtls_aes_setkey_enc c key (8 * Z.of_nat half).
Proof.
  intros Hh Hl. unfold mbedtls_aes_setkey_enc.
  assert (E : words_le (Z.to_nat (Z.shiftr (8 * Z.of_nat half) 5)) (take half key) = words_le (Z.to_nat (Z.shiftr (8 * Z.of_nat half) 5)) key).
  { apply words_le_take; [|exact Hl]. destruct Hh as [-> | ->]; vm_compute; lia. }
  by rewrite E.
Qed.

Lemma xts_enc_ctx c key cx : length key = 32%nat \/ length key = 64%nat -> bytes_ok key ->
  mbedtls_aes_xts_setkey_enc c key (8 * zlen key) = (0, cx) ->
  enc_ctx (drop (length key / 2) key) (tweak_ctx cx) /\ enc_ctx (take (length key / 2) key) (crypt cx).
Proof.
  intros Hl Hb H. destruct (xts_setkey_ctx _ _ _ _ Hl Hb H) as (H1 & H2 & H3). split; [exact H1|]. split; [exact H2|].
  exists (crypt c). rewrite length_take. replace (_ `min` _)%nat with (length key / 2)%nat by (destruct Hl as [-> | ->]; cbn; lia).
  rewrite setkey_enc_take; [exact H3|..]; destruct Hl as [-> | ->]; cbn; lia.
Qed.

Lemma xts_dec_ctx c key cx : length key = 32%nat \/ length key = 64%nat -> bytes_ok key ->
  mbedtls_aes_xts_setkey_dec c key (8 * zlen key) = (0, cx) ->
  enc_ctx (drop (length key / 2) key) (tweak_ctx cx) /\ dec_ctx (take (length key / 2) key) (crypt cx).
Proof.
  intros Hl Hb H. destruct (xts_setkey_ctx _ _ _ _ Hl Hb H) as (H1 & H2 & H3). split; [exact H1|]. split; [exact H2|].
  exists (crypt c). rewrite length_take. replace (_ `min` _)%nat with (length key / 2)%nat by (destruct Hl as [-> | ->]; cbn; lia).
  unfold mbedtls_aes_setkey_dec in *. rewrite setkey_enc_take; [exact H3|..]; destruct Hl as [-> | ->]; cbn; lia.
Qed.

Lemma xts_map_nth ctx mode bs : forall t i, (i < length bs)%nat ->
  nth i (xts_map ctx mode t bs) [] = xts_block ctx mode (doubled i t) (nth i bs []).
Proof.
  induction bs as [|b bs IH]; intros t i Hi; cbn [length] in Hi; [lia|]. destruct i as [|i]; [done|]. cbn [xts_map nth].
  rewrite IH by lia. by rewrite doubled_S.
Qed.

Lemma doubled_val i t : block t -> le_val (doubled i t) = Nat.iter i double128 (le_val t).
Proof.
  intros Ht. induction i as [|i IH]; [done|]. unfold doubled in *. cbn [Nat.iter nat_rect] in *.
  change (le_val (mbedtls_gf128mul_x_ble (doubled i t)) = double128 (Nat.iter i double128 (le_val t))).
  rewrite (proj2 (gf128_double _ (doubled_block i t Ht))). by f_equal.
Qed.

(** A whole number of blocks, and the general case with ciphertext stealing. *)
Section Stealing.
Context (k1 : bytes) (e d : mbedtls_aes_context) (He : enc_ctx k1 e) (Hd : dec_ctx k1 d).
Context (t : bytes) (Ht : block t).

Lemma xts_whole n input : bytes_ok input -> length input = (16 * n)%nat ->
  let c := concat (xts_map e MBEDTLS_AES_ENCRYPT t (blocks16 n input)) in
  length c = (16 * n)%nat /\ concat (xts_map d MBEDTLS_AES_DECRYPT t (blocks16 n c)) = input.
Proof.
  intros Hb Hl. destruct (blocks16_input n input Hb ltac:(lia)) as (L & F & C).
  destruct (xts_map_ok k1 e d He Hd (blocks16 n input) t Ht F) as (L' & F' & D). cbv zeta.
  assert (F16 : Forall (fun b => length b = 16%nat) (xts_map e MBEDTLS_AES_ENCRYPT t (blocks16 n input)))
    by (eapply Forall_impl; [exact F'|]; by intros ? []).
  split; [rewrite (length_concat_same 16) by exact F16; lia|].
  rewrite <- (app_nil_r (concat (xts_map e _ _ _))), blocks16_concat, D, C by (lia || exact F16). by apply take_ge; lia.
Qed.

Lemma xts_steals n l bs p r : length bs = n -> Forall block bs -> block p -> bytes_ok r -> length r = l -> (0 < l < 16)%nat ->
  let T := doubled (S n) t in
  let cc := xts_block e MBEDTLS_AES_ENCRYPT (doubled n t) p in
  let c' := xts_block e MBEDTLS_AES_ENCRYPT T (r ++ drop l cc) in
  block c' /\ block cc /\ xts_block d MBEDTLS_AES_DECRYPT T c' = r ++ drop l cc /\
  xts_block d MBEDTLS_AES_DECRYPT (doubled n t) (take l cc ++ drop l (r ++ drop l cc)) = p.
Proof.
  intros Hn Hbs Hp Hr Hl Hl0 T cc c'. assert (Hcc : block cc) by (apply (xts_block_ok k1); [exact He|by apply doubled_block|exact Hp]).
  assert (Hm : block (r ++ drop l cc)).
  { split; [rewrite length_app, length_drop, (proj1 Hcc); lia|]. apply Forall_app. split; [exact Hr|apply Forall_drop, Hcc]. }
  assert (HT : block T) by (by apply doubled_block). split; [by apply (xts_block_ok k1)|]. split; [exact Hcc|].
  split; [by apply (xts_block_inverse k1)|]. rewrite drop_app_exact by (by symmetry). rewrite take_drop.
  apply (xts_block_inverse k1); [exact He|exact Hd|by apply doubled_block|exact Hp].
Qed.
End Stealing.

Lemma take_concat i : forall (bs : list bytes), Forall (fun b => length b = 16%nat) bs -> (i < length bs)%nat ->
  take 16 (drop (16 * i) (concat bs)) = nth i bs [].
Proof.
  induction i as [|i IH]; intros bs Hb Hi; (destruct bs as [|b bs]; cbn [length] in Hi; [lia|]);
    apply List.Forall_cons_iff in Hb as [Hl Hb]; cbn [concat nth].
  - by rewrite drop_0, take_app_exact.
  - replace (16 * S i)%nat with (16 + 16 * i)%nat by lia. rewrite <- drop_drop, drop_app_exact by (by symmetry). apply IH; [exact Hb|lia].
Qed.

Lemma blocks16_snoc n : forall input, blocks16 (S n) input = blocks16 n input ++ [take 16 (drop (16 * n) input)].
Proof.
  induction n as [|n IH]; intros input; [done|]. change (blocks16 (S (S n)) input) with (take 16 input :: blocks16 (S n) (drop 16 input)).
  rewrite IH, drop_drop. cbn [blocks16 app]. by replace (16 * S n)%nat with (16 + 16 * n)%nat by lia.
Qed.

Lemma blocks16_nth n i : forall input, (i < n)%nat -> nth i (blocks16 n input) [] = take 16 (drop (16 * i) input).
Proof.
  revert i. induction n as [|n IH]; intros i input Hi; [lia|]. destruct i as [|i]; [done|]. cbn [blocks16 nth].
  rewrite IH, drop_drop by lia. by replace (16 * S i)%nat with (16 + 16 * i)%nat by lia.
Qed.

Lemma div_mod_16 n l : (l < 16)%nat -> ((16 * n + l) / 16 = n /\ (16 * n + l) mod 16 = l)%nat.
Proof. intros H. split; [symmetry; apply (Nat.div_unique _ _ _ l)|symmetry; apply (Nat.mod_unique _ _ n)]; lia. Qed.

Definition xts_ok (key : bytes) : Prop := bytes_ok key /\ (length key = 32 \/ length key = 64)%nat.

(** C39. XTS.  With the two keys of 256 or 512 bits, decryption inverts the
    encryption of every data unit of 16 bytes to 2^20 blocks, with ciphertext
    stealing when the last block is short, and keeps the length; in a unit of whole
    blocks, block [i] is encrypted under the tweak of IEEE 1619: the encrypted
    number of the unit times x^i in GF(2^128).  Shorter and longer units are
    refused. *)
Theorem aes_xts_roundtrip (c0 c1 ce cd : mbedtls_aes_xts_context) (key data_unit input : bytes)
    (Hk : xts_ok key)
    (He : mbedtls_aes_xts_setkey_enc c0 key (8 * zlen key) = (0, ce))
    (Hd : mbedtls_aes_xts_setkey_dec c1 key (8 * zlen key) = (0, cd))
    (Hu : block data_unit) (Hb : bytes_ok input) :
  let k1 := take (length key / 2) key in
  let k2 := drop (length key / 2) key in
  if (zlen input <? 16) || (2 ^ 20 * 16 <? zlen input)
  then mbedtls_aes_crypt_xts ce MBEDTLS_AES_ENCRYPT data_unit input = (MBEDTLS_ERR_AES_INVALID_INPUT_LENGTH, [])
  else
    let '(ret, c) := mbedtls_aes_crypt_xts ce MBEDTLS_AES_ENCRYPT data_unit input in
    ret = 0 /\ length c = length input /\
    mbedtls_aes_crypt_xts cd MBEDTLS_AES_DECRYPT data_unit c = (0, input) /\
    forall i, (length input = 16 * (length input / 16))%nat -> (i < length input / 16)%nat ->
      exists t, le_val t = Nat.iter i double128 (le_val (aes_spec k2 data_unit)) /\
        take 16 (drop (16 * i) c) = xor_bytes (aes_spec k1 (xor_bytes (take 16 (drop (16 * i) input)) t)) t.
Proof.
  intros k1 k2. destruct Hk as [Hkb Hkl].
  destruct (xts_enc_ctx _ _ _ Hkl Hkb He) as [Ee Ee1]. destruct (xts_dec_ctx _ _ _ Hkl Hkb Hd) as [Ed Ed1]. fold k1 k2 in Ee, Ee1, Ed, Ed1.
  unfold mbedtls_aes_crypt_xts. destruct (Z.ltb_spec (zlen input) 16) as [|H16]; [done|].
  destruct (Z.ltb_spec (2 ^ 20 * 16) (zlen input)) as [|H20]; [done|]. cbn [orb].
  rewrite (enc_ctx_ecb k2 (tweak_ctx ce)), (enc_ctx_ecb k2 (tweak_ctx cd)) by assumption.
  set (t := aes_spec k2 data_unit). assert (Ht : block t) by (apply aes_spec_block; [apply Ee|exact Hu]).
  set (e := crypt ce) in *. set (d := crypt cd) in *. set (n := (length input / 16)%nat). set (l := (length input mod 16)%nat).
  assert (Hn : (length input = 16 * n + l)%nat) by apply Nat.div_mod_eq.
  assert (Hl16 : (l < 16)%nat) by (apply Nat.mod_upper_bound; lia).
  rewrite xts_blocks_plain by (by rewrite andb_false_r).
  destruct (Nat.eqb_spec l 0) as [E0|E0].
  - destruct (xts_whole k1 e d Ee1 Ed1 t Ht n input Hb ltac:(lia)) as [Lc Dc]. set (c := concat (xts_map e MBEDTLS_AES_ENCRYPT t (blocks16 n input))) in *.
    split; [done|]. split; [lia|]. split.
    + rewrite (proj2 (Z.ltb_ge (zlen c) 16)), (proj2 (Z.ltb_ge (2 ^ 20 * 16) (zlen c))) by lia.
      destruct (div_mod_16 n 0 ltac:(lia)) as [Q R]. rewrite Nat.add_0_r in Q, R. rewrite Lc, Q, R.
      cbn [Nat.eqb negb]. rewrite xts_blocks_plain by done. by rewrite Dc.
    + intros i _ Hi. exists (doubled i t). split; [by apply doubled_val|].
      destruct (blocks16_input n input Hb ltac:(lia)) as (L & F & _).
      destruct (xts_map_ok k1 e d Ee1 Ed1 (blocks16 n input) t Ht F) as (L' & F' & _).
      unfold c. rewrite take_concat by (first [lia|eapply Forall_impl; [exact F'|by intros ? []]]).
      rewrite xts_map_nth, blocks16_nth by lia. unfold xts_block.
      rewrite (enc_ctx_ecb k1 e) by first [exact Ee1|apply xor_is_block; [apply take_block; [by apply Forall_drop|rewrite length_drop; lia]|by apply doubled_block]].
      done.
  - destruct n as [|m]; [lia|]. rewrite blocks16_snoc, xts_map_app.
    destruct (blocks16_input m input Hb ltac:(lia)) as (L & F & C). set (bs := blocks16 m input) in *. rewrite L.
    set (p := take 16 (drop (16 * m) input)). assert (Hp : block p) by (apply take_block; [by apply Forall_drop|rewrite length_drop; lia]).
    set (r := drop (16 * S m) input). assert (Hr : bytes_ok r) by (by apply Forall_drop).
    assert (Lr : length r = l) by (unfold r; rewrite length_drop; lia).
    destruct (xts_steals k1 e d Ee1 Ed1 t Ht m l bs p r L F Hp Hr Lr ltac:(lia)) as (Hc' & Hcc & D1 & D2).
    cbn [xts_map]. rewrite last_last, removelast_last.
    set (cc := xts_block e MBEDTLS_AES_ENCRYPT (doubled m t) p) in *.
    change (MBEDTLS_AES_ENCRYPT =? MBEDTLS_AES_DECRYPT) with false. cbv iota.
    change (xor_bytes (mbedtls_aes_crypt_ecb e MBEDTLS_AES_ENCRYPT (xor_bytes (r ++ drop l cc) (doubled (S m) t))) (doubled (S m) t))
      with (xts_block e MBEDTLS_AES_ENCRYPT (doubled (S m) t) (r ++ drop l cc)).
    set (c' := xts_block e MBEDTLS_AES_ENCRYPT (doubled (S m) t) (r ++ drop l cc)) in *.
    destruct (xts_map_ok k1 e d Ee1 Ed1 bs t Ht F) as (L' & F' & D).
    assert (F16 : Forall (fun b => length b = 16%nat) (xts_map e MBEDTLS_AES_ENCRYPT t bs)) by (eapply Forall_impl; [exact F'|]; by intros ? []).
    assert (Lm : length (concat (xts_map e MBEDTLS_AES_ENCRYPT t bs)) = (16 * m)%nat) by (rewrite (length_concat_same 16) by exact F16; lia).
    set (c := concat (xts_map e MBEDTLS_AES_ENCRYPT t bs) ++ c' ++ take l cc).
    assert (Lc : length c = (16 * S m + l)%nat) by (unfold c; rewrite !length_app, Lm, (proj1 Hc'), length_take, (proj1 Hcc); lia).
    split; [done|]. split; [lia|]. split; [|intros i Hi; lia].
    rewrite (proj2 (Z.ltb_ge (zlen c) 16)), (proj2 (Z.ltb_ge (2 ^ 20 * 16) (zlen c))) by lia.
    destruct (div_mod_16 (S m) l ltac:(lia)) as [Q R]. rewrite Lc, Q, R. rewrite (proj2 (Nat.eqb_neq l 0)) by lia. cbn [negb].
    assert (Dc : take 16 (drop (16 * m) c) = c') by (unfold c; rewrite drop_app_exact, take_app_exact by (rewrite ?Lm, ?(proj1 Hc'); lia); done).
    rewrite xts_blocks_steal, Dc, D1, last_last, removelast_last. unfold c at 1. rewrite blocks16_concat, D by (lia || exact F16).
    change (MBEDTLS_AES_DECRYPT =? MBEDTLS_AES_DECRYPT) with true. cbv iota.
    assert (Dr : drop (16 * S m) c = take l cc).
    { unfold c. rewrite app_assoc. apply drop_app_exact. rewrite length_app, Lm, (proj1 Hc'). lia. }
    rewrite Dr. fold (xts_block d MBEDTLS_AES_DECRYPT (doubled m t) (take l cc ++ drop l (r ++ drop l cc))). rewrite D2.
    rewrite take_app_exact, C by (by symmetry). unfold p, r. f_equal.
    replace (16 * S m)%nat with (16 * m + 16)%nat by lia. by rewrite <- drop_drop, take_drop, take_drop.
Qed.

(** The feedback modes.  In CBC (whole blocks), CFB128, CFB8 and OFB, from
    every vector and offset, decryption inverts encryption and leaves the same
    vector and offset for the next call; a message may be cut into two calls, in
    CBC at a block, in CFB128 anywhere, without a change of the output.  CBC refuses a
    partial block and the streams an offset above 15, and leave their state. *)
Theorem aes_feedback_roundtrip (key : bytes) (e d : mbedtls_aes_context) (iv input : bytes) (off : nat)
    (He : enc_ctx key e) (Hd : dec_ctx key d) (Hiv : block iv) (Hb : bytes_ok input) :
  (if zlen input mod 16 =? 0 then
     let '(ret, c, iv1) := mbedtls_aes_crypt_cbc e MBEDTLS_AES_ENCRYPT iv input in
     ret = 0 /\ length c = length input /\ mbedtls_aes_crypt_cbc d MBEDTLS_AES_DECRYPT iv c = (0, input, iv1) /\
     forall a b, input = a ++ b -> (length a mod 16 = 0)%nat ->
       let '(_, ca, iva) := mbedtls_aes_crypt_cbc e MBEDTLS_AES_ENCRYPT iv a in
       let '(_, cb, ivb) := mbedtls_aes_crypt_cbc e MBEDTLS_AES_ENCRYPT iva b in c = ca ++ cb /\ iv1 = ivb
   else mbedtls_aes_crypt_cbc e MBEDTLS_AES_ENCRYPT iv input = (MBEDTLS_ERR_AES_INVALID_INPUT_LENGTH, [], iv)) /\
  (if (15 <? off)%nat then
     mbedtls_aes_crypt_cfb128 e MBEDTLS_AES_ENCRYPT off iv input = (MBEDTLS_ERR_AES_BAD_INPUT_DATA, [], off, iv) /\
     mbedtls_aes_crypt_ofb e off iv input = (MBEDTLS_ERR_AES_BAD_INPUT_DATA, [], off, iv)
   else
     (let '(ret, c, n1, iv1) := mbedtls_aes_crypt_cfb128 e MBEDTLS_AES_ENCRYPT off iv input in
      ret = 0 /\ length c = length input /\ mbedtls_aes_crypt_cfb128 e MBEDTLS_AES_DECRYPT off iv c = (0, input, n1, iv1) /\
      forall a b, input = a ++ b ->
        let '(_, ca, na, iva) := mbedtls_aes_crypt_cfb128 e MBEDTLS_AES_ENCRYPT off iv a in
        let '(cb, nb, ivb) := cfb128_loop e MBEDTLS_AES_ENCRYPT na iva b in c = ca ++ cb /\ n1 = nb /\ iv1 = ivb) /\
     (let '(ret, c, n1, iv1) := mbedtls_aes_crypt_ofb e off iv input in
      ret = 0 /\ length c = length input /\ mbedtls_aes_crypt_ofb e off iv c = (0, input, n1, iv1))) /\
  (let '(ret, c, iv1) := mbedtls_aes_crypt_cfb8 e MBEDTLS_AES_ENCRYPT iv input in
   ret = 0 /\ length c = length input /\ mbedtls_aes_crypt_cfb8 e MBEDTLS_AES_DECRYPT iv c = (0, input, iv1)).
Proof.
  unfold mbedtls_aes_crypt_cbc, mbedtls_aes_crypt_cfb128, mbedtls_aes_crypt_ofb, mbedtls_aes_crypt_cfb8. split; [|split].
  - destruct (Z.eqb_spec (zlen input mod 16) 0) as [E|]; cbn [negb]; [|done].
    assert (W : forall l : bytes, zlen l mod 16 = 0 -> length l = (16 * (length l / 16))%nat).
    { intros l Hl. pose proof (Nat.div_mod_eq (length l) 16). replace 16 with (Z.of_nat 16) in Hl by done. rewrite <- Nat2Z.inj_mod in Hl. lia. }
    change (MBEDTLS_AES_ENCRYPT =? MBEDTLS_AES_DECRYPT) with false. change (MBEDTLS_AES_DECRYPT =? MBEDTLS_AES_DECRYPT) with true. cbv iota.
    pose proof (cbc_inverse key e d He Hd (length input / 16) iv input Hiv Hb (W input E)) as R.
    destruct (cbc_encrypt _ e iv input) as [c iv1] eqn:Ec. destruct R as (Lc & _ & D).
    assert (Lc' : length c = length input) by (rewrite Lc; symmetry; by apply W).
    split; [done|]. split; [exact Lc'|]. rewrite Lc', E, D. cbn [Z.eqb negb]. split; [done|].
    intros a b -> Ha. assert (Ea : zlen a mod 16 = 0) by (change 16 with (Z.of_nat 16); rewrite <- Nat2Z.inj_mod; lia).
    assert (Eb : zlen b mod 16 = 0) by (rewrite length_app, Nat2Z.inj_add, Z.add_mod, Ea, Z.add_0_l, Z.mod_mod in E by lia; exact E).
    rewrite Ea. cbn [Z.eqb negb]. pose proof (cbc_split e (length a / 16) (length b / 16) iv a b (W a Ea)) as S.
    replace (length a / 16 + length b / 16)%nat with (length (a ++ b) / 16)%nat in S.
    2:{ rewrite length_app. pose proof (W a Ea). pose proof (W b Eb). symmetry. apply (Nat.div_unique _ 16 _ 0); lia. }
    rewrite Ec in S. destruct (cbc_encrypt _ e iv a) as [ca iva]. rewrite Eb. change (negb (0 =? 0)) with false. cbv beta iota.
    destruct (cbc_encrypt _ e iva b) as [cb ivb]. by injection S as -> ->.
  - destruct (15 <? off)%nat eqn:Eo; [done|]. split.
    + pose proof (cfb128_inverse e input off iv) as R. destruct (cfb128_loop e MBEDTLS_AES_ENCRYPT off iv input) as [[c n1] iv1] eqn:Ec.
      destruct R as [L D]. rewrite D. split; [done|]. split; [exact L|]. split; [done|]. intros a b ->. rewrite cfb128_split in Ec.
      destruct (cfb128_loop e MBEDTLS_AES_ENCRYPT off iv a) as [[ca na] iva]. destruct (cfb128_loop e MBEDTLS_AES_ENCRYPT na iva b) as [[cb nb] ivb].
      by injection Ec as <- <- <-.
    + pose proof (ofb_inverse e input off iv) as R. destruct (ofb_loop e off iv input) as [[c n1] iv1]. destruct R as [L D]. by rewrite D.
  - pose proof (cfb8_inverse e input iv) as R. destruct (cfb8_loop e MBEDTLS_AES_ENCRYPT iv input) as [c iv1]. destruct R as [L D]. by rewrite D.
Qed.

(** ** Samples *)

Definition sample_enc : mbedtls_aes_context := snd (mbedtls_aes_setkey_enc mbedtls_aes_init (sample_key 16) 128).
Definition sample_dec : mbedtls_aes_context := snd (mbedtls_aes_setkey_dec mbedtls_aes_init (sample_key 16) 128).
Definition sample_text : bytes := map (fun i => (7 * Z.of_nat i) mod 251) (seq 0 48).

Lemma aes_feedback_roundtrip_witness :
  mbedtls_aes_crypt_cbc sample_dec MBEDTLS_AES_DECRYPT sample_block
    (snd (fst (mbedtls_aes_crypt_cbc sample_enc MBEDTLS_AES_ENCRYPT sample_block sample_text)))
  = (0, sample_text, snd (mbedtls_aes_crypt_cbc sample_enc MBEDTLS_AES_ENCRYPT sample_block sample_text)).
Proof.
  assert (Hk : key_ok (sample_key 16)) by (split; [bytes_ok_closed|by left]).
  assert (He : enc_ctx (sample_key 16) sample_enc) by (split; [exact Hk|exists mbedtls_aes_init; vm_compute; reflexivity]).
  assert (Hd : dec_ctx (sample_key 16) sample_dec) by (split; [exact Hk|exists mbedtls_aes_init; vm_compute; reflexivity]).
  assert (Hs : block sample_block) by (split; [reflexivity|bytes_ok_closed]).
  assert (Hb : bytes_ok sample_text) by bytes_ok_closed.
  pose proof (aes_feedback_roundtrip _ _ _ _ _ 0 He Hd Hs Hb) as [T _].
  change (zlen sample_text mod 16 =? 0) with true in T. cbv iota in T.
  destruct (mbedtls_aes_crypt_cbc sample_enc MBEDTLS_AES_ENCRYPT sample_block sample_text) as [[ret c] iv1]. exact (proj1 (proj2 (proj2 T))).
Defined.

Lemma aes_ctr_correct_witness :
  fst (ctr_calls sample_enc (mkCtr 0 sample_block []) [take 5 sample_text; drop 5 sample_text])
  = stream_xor (sample_key 16) (be_val sample_block) 0 sample_text.
Proof.
  assert (Hk : key_ok (sample_key 16)) by (split; [bytes_ok_closed|by left]).
  assert (He : enc_ctx (sample_key 16) sample_enc) by (split; [exact Hk|exists mbedtls_aes_init; vm_compute; reflexivity]).
  assert (Hs : block sample_block) by (split; [reflexivity|bytes_ok_closed]).
  pose proof (aes_ctr_correct (sample_key 16) sample_block [] sample_enc [take 5 sample_text; drop 5 sample_text] [] He Hs) as T. cbv zeta in T.
  destruct (ctr_calls sample_enc _ _) as [o s1]. exact (proj1 T).
Defined.

(** A unit of two blocks and three bytes. *)
Lemma aes_xts_roundtrip_witness :
  let ce := snd (mbedtls_aes_xts_setkey_enc mbedtls_aes_xts_init (sample_key 32) 256) in
  let cd := snd (mbedtls_aes_xts_setkey_dec mbedtls_aes_xts_init (sample_key 32) 256) in
  let input := take 35 sample_text in
  mbedtls_aes_crypt_xts cd MBEDTLS_AES_DECRYPT sample_block (snd (mbedtls_aes_crypt_xts ce MBEDTLS_AES_ENCRYPT sample_block input)) = (0, input).
Proof.
  set (ce := snd (mbedtls_aes_xts_setkey_enc mbedtls_aes_xts_init (sample_key 32) 256)).
  set (cd := snd (mbedtls_aes_xts_setkey_dec mbedtls_aes_xts_init (sample_key 32) 256)). cbv zeta.
  assert (Hk : xts_ok (sample_key 32)) by (split; [bytes_ok_closed|by left]).
  assert (He : mbedtls_aes_xts_setkey_enc mbedtls_aes_xts_init (sample_key 32) (8 * zlen (sample_key 32)) = (0, ce)) by (vm_compute; reflexivity).
  assert (Hd : mbedtls_aes_xts_setkey_dec mbedtls_aes_xts_init (sample_key 32) (8 * zlen (sample_key 32)) = (0, cd)) by (vm_compute; reflexivity).
  assert (Hs : block sample_block) by (split; [reflexivity|bytes_ok_closed]).
  assert (Hb : bytes_ok (take 35 sample_text)) by bytes_ok_closed.
  pose proof (aes_xts_roundtrip _ _ _ _ _ _ _ Hk He Hd Hs Hb) as T. cbv zeta in T.
  change ((zlen (take 35 sample_text) <? 16) || (2 ^ 20 * 16 <? zlen (take 35 sample_text))) with false in T. cbv iota in T.
  destruct (mbedtls_aes_crypt_xts ce MBEDTLS_AES_ENCRYPT sample_block (take 35 sample_text)) as [ret c]. exact (proj1 (proj2 (proj2 T))).
Defined.
End AesModes.
