(* ===== verification/Blocks.v ===== *)
(** Byte strings in blocks of 16: the number of turns a loop over such blocks takes,
    paddings, and the number a block writes. *)
From S2P Require Import Prelude Words Aes AesModes.
From stdpp Require Import list.
#[local] Open Scope Z_scope.

Module Blocks.
Import Aes AesModes.

(** The blocks of a string, the last one partial. *)
Definition turns (p : bytes) : nat := (length p + 15) / 16.

(** Zeros up to a whole block. *)
Definition pad16 (s : bytes) : bytes := s ++ repeat 0 (16 * turns s - length s).

(** ** Lemmas *)

Lemma bytes_ok_zeros n : bytes_ok (repeat 0 n).
Proof. apply List.Forall_forall. intros x Hx%repeat_spec. subst x. unfold is_byte. lia. Qed.

Lemma turns_nil : turns [] = 0%nat.
Proof. reflexivity. Qed.

Lemma turns_pos (p : bytes) : p <> [] -> turns p = S (turns (drop 16 p)).
Proof.
  intros Hp. assert (0 < length p)%nat by (destruct p; [done|cbn; lia]). unfold turns. rewrite length_drop.
  destruct (Nat.le_gt_cases 16 (length p)).
  - replace (length p + 15)%nat with (length p - 16 + 15 + 1 * 16)%nat by lia. rewrite Nat.div_add by lia. lia.
  - replace (length p - 16 + 15)%nat with 15%nat by lia. symmetry. apply (Nat.div_unique _ 16 1 (length p - 1)); cbn; lia.
Qed.

Lemma turns_whole (p : bytes) k : length p = (16 * k)%nat -> turns p = k.
Proof. intros E. unfold turns. rewrite E. symmetry. apply (Nat.div_unique _ 16 k 15); lia. Qed.

Lemma drop_min (p : bytes) : drop (Nat.min (length p) 16) p = drop 16 p.
Proof. destruct (Nat.le_gt_cases 16 (length p)); [by rewrite Nat.min_r by lia|]. rewrite Nat.min_l, !drop_ge by lia. done. Qed.

Lemma take_min (p : bytes) : take (Nat.min (length p) 16) p = take 16 p.
Proof. destruct (Nat.le_gt_cases 16 (length p)); [by rewrite Nat.min_r by lia|]. rewrite Nat.min_l, !take_ge by lia. done. Qed.

Lemma pad16_nil : pad16 [] = [].
Proof. reflexivity. Qed.

Lemma pad16_cons (p : bytes) : p <> [] -> pad16 p = pad16 (take 16 p) ++ pad16 (drop 16 p).
Proof.
  intros Hp. unfold pad16. rewrite (turns_pos p Hp), length_take, length_drop.
  destruct (Nat.le_gt_cases 16 (length p)).
  - rewrite (turns_whole (take 16 p) 1) by (rewrite length_take; lia). replace (16 * 1 - Nat.min 16 (length p))%nat with 0%nat by lia.
    cbn [repeat]. rewrite app_nil_r, app_assoc, take_drop. f_equal. f_equal. lia.
  - rewrite drop_ge, take_ge, turns_nil by lia. rewrite (turns_pos p Hp), drop_ge, turns_nil by lia. cbn [app repeat Nat.mul Nat.sub].
    rewrite app_nil_r. f_equal. f_equal. lia.
Qed.

Lemma pad16_block (p : bytes) : p <> [] -> bytes_ok p -> block (pad16 (take 16 p)).
Proof.
  intros Hp Hb. assert (0 < length p)%nat by (destruct p; [done|cbn; lia]). assert (T : turns (take 16 p) = 1%nat).
  { rewrite turns_pos by (destruct p; [done|discriminate]). rewrite drop_ge by (rewrite length_take; lia). reflexivity. }
  unfold pad16. rewrite T. split.
  - rewrite length_app, repeat_length, length_take. lia.
  - apply Forall_app. split; [by apply Forall_take|apply bytes_ok_zeros].
Qed.

Lemma pad16_length (p : bytes) : (length (pad16 p) mod 16 = 0)%nat.
Proof.
  unfold pad16, turns. rewrite length_app, repeat_length. replace (length p + _)%nat with (16 * ((length p + 15) / 16))%nat.
  - by rewrite Nat.mul_comm, Nat.Div0.mod_mul.
  - pose proof (Nat.div_mod_eq (length p + 15) 16). pose proof (Nat.mod_upper_bound (length p + 15) 16). lia.
Qed.

Lemma zeros_block : block (repeat 0 16).
Proof. split; [reflexivity|apply bytes_ok_zeros]. Qed.

Lemma be_block v : block (be_bytes 16 v).
Proof. apply counter_block. Qed.

Lemma block_range b : block b -> 0 <= be_val b < 2 ^ 128.
Proof. intros [Hl Hb]. pose proof (be_val_range b Hb) as R. rewrite Hl in R. exact R. Qed.

Lemma block_val v : 0 <= v < 2 ^ 128 -> be_val (be_bytes 16 v) = v.
Proof. intros Hv. by apply be_val_bytes. Qed.

Lemma block_bytes b : block b -> be_bytes 16 (be_val b) = b.
Proof. intros [Hl Hb]. rewrite <- Hl. by apply be_bytes_val. Qed.

Lemma xor_val a b : block a -> block b -> be_val (xor_bytes a b) = Z.lxor (be_val a) (be_val b).
Proof. intros [La Ha] [Lb Hb]. apply be_val_xor; [assumption..|congruence]. Qed.

Lemma zip_lxor_ok a : forall b, bytes_ok a -> bytes_ok b -> bytes_ok (xor_bytes a b).
Proof.
  induction a as [|x a IH]; intros [|y b] Ha Hb; try constructor.
  - apply lxor_byte; [by inversion Ha|by inversion Hb].
  - apply IH; [by inversion Ha|by inversion Hb].
Qed.

Lemma xor_cancel_l k : forall a, length k = length a -> xor_bytes k (xor_bytes k a) = a.
Proof.
  induction k as [|x k IH]; intros [|y a] Hl; try discriminate; [done|]. cbn. injection Hl as Hl.
  unfold xor_bytes in IH. rewrite IH by exact Hl. by rewrite <- Z.lxor_assoc, Z.lxor_nilpotent, Z.lxor_0_l.
Qed.

Lemma xor_zeros s : xor_bytes s (repeat 0 (length s)) = s.
Proof. unfold xor_bytes. induction s as [|x s IH]; [done|]. cbn. by rewrite Z.lxor_0_r, IH. Qed.

End Blocks.
