(* ===== verification/Ghash.v ===== *)
(** The multiplication of GCM (mbedtls/library/gcm.c, [gcm_gen_table],
    [gcm_mult]): a table of sixteen multiples of the hash key and a loop over the
    nibbles of a block, against the multiplication bit by bit of NIST SP 800-38D. *)
From S2P Require Import Prelude Words Aes.
From stdpp Require Import list.
#[local] Open Scope Z_scope.

Module Ghash.
Import Aes.
#[local] Infix "⊕" := Z.lxor (at level 50, left associativity).

(** ** The code *)

(** The pair of [vh] and [vl] times P. *)
Definition halve (v : Z * Z) : Z * Z :=
  let '(vh, vl) := v in
  let T := u32 (Z.land vl 1 * 0xe1000000) in
  (Z.shiftr vh 1 ⊕ Z.shiftl T 32, Z.lor (u64 (Z.shiftl vh 63)) (Z.shiftr vl 1)).

(** Entries 4, 2 and 1, each from the one before. *)
Definition powers (HH HL : list Z) (v : Z * Z) : list Z * list Z :=
  fst (fold_left (fun '(HH, HL, v) i => let v := halve v in (<[i := fst v]> HH, <[i := snd v]> HL, v)) [4; 2; 1]%nat (HH, HL, v)).

(** The entries from [i + 1] to [2 * i - 1]. *)
Definition sums (tab : list Z * list Z) (i : nat) : list Z * list Z :=
  let '(HH, HL) := tab in
  let vh := nth i HH 0 in
  let vl := nth i HL 0 in
  fold_left (fun '(HH, HL) j => (<[(i + j)%nat := vh ⊕ nth j HH 0]> HH, <[(i + j)%nat := vl ⊕ nth j HL 0]> HL))
    (seq 1 (i - 1)) (HH, HL).

(** [h] is the encrypted zero block; the tables may hold anything before. *)
Definition gcm_gen_table (HH HL : list Z) (h : bytes) : list Z * list Z :=
  let vh := Z.lor (u64 (Z.shiftl (MBEDTLS_GET_UINT32_BE h 0) 32)) (MBEDTLS_GET_UINT32_BE h 4) in
  let vl := Z.lor (u64 (Z.shiftl (MBEDTLS_GET_UINT32_BE h 8) 32)) (MBEDTLS_GET_UINT32_BE h 12) in
  let HL := <[0%nat := 0]> (<[8%nat := vl]> HL) in
  let HH := <[0%nat := 0]> (<[8%nat := vh]> HH) in
  fold_left sums [2; 4; 8]%nat (powers HH HL (vh, vl)).

Definition last4 : list Z :=
  [0x0000; 0x1c20; 0x3840; 0x2460; 0x7080; 0x6ca0; 0x48c0; 0x54e0;
   0xe100; 0xfd20; 0xd940; 0xc560; 0x9180; 0x8da0; 0xa9c0; 0xb5e0].

(** One nibble: [z] times P^4 and the entry of the nibble. *)
Definition mult_nibble (HH HL : list Z) (nibble : Z) (z : Z * Z) : Z * Z :=
  let '(zh, zl) := z in
  let rem := Z.land (u8 zl) 0xf in
  let zl := Z.lor (u64 (Z.shiftl zh 60)) (Z.shiftr zl 4) in
  let zh := Z.shiftr zh 4 in
  let zh := zh ⊕ Z.shiftl (nth (Z.to_nat rem) last4 0) 48 in
  (zh ⊕ nth (Z.to_nat nibble) HH 0, zl ⊕ nth (Z.to_nat nibble) HL 0).

(** The turns for the indices below [n], downwards. *)
Fixpoint mult_loop (n : nat) (HH HL : list Z) (x : bytes) (z : Z * Z) : Z * Z :=
  match n with
  | O => z
  | S i =>
      let lo := Z.land (nth i x 0) 0xf in
      let hi := Z.land (Z.shiftr (nth i x 0) 4) 0xf in
      let z := if negb (i =? 15)%nat then mult_nibble HH HL lo z else z in
      mult_loop i HH HL x (mult_nibble HH HL hi z)
  end.

Definition gcm_mult (HH HL : list Z) (x : bytes) : bytes :=
  let lo := Z.to_nat (Z.land (nth 15 x 0) 0xf) in
  let '(zh, zl) := mult_loop 16 HH HL x (nth lo HH 0, nth lo HL 0) in
  MBEDTLS_PUT_UINT32_BE (Z.shiftr zh 32) ++ MBEDTLS_PUT_UINT32_BE zh ++
  MBEDTLS_PUT_UINT32_BE (Z.shiftr zl 32) ++ MBEDTLS_PUT_UINT32_BE zl.

(** ** NIST SP 800-38D, section 6.3

    A block is the number its bytes write, so that its first bit is bit 127. *)

Definition R : Z := 0xe1 * 2 ^ 120.
Definition mulx (V : Z) : Z := if Z.odd V then Z.shiftr V 1 ⊕ R else Z.shiftr V 1.

(** The steps of the algorithm for the last [n] bits of [X], where [V] has come
    to the power of the first of them. *)
Fixpoint mul_bits (n : nat) (X V : Z) : Z :=
  match n with
  | O => 0
  | S i => (if Z.testbit X (Z.of_nat i) then V else 0) ⊕ mul_bits i X (mulx V)
  end.

Definition gf_mul (X Y : Z) : Z := mul_bits 128 X Y.

(** Test case 2 of the GCM specification. *)
Definition sample_h : bytes :=
  [0x66; 0xe9; 0x4b; 0xd4; 0xef; 0x8a; 0x2c; 0x3b; 0x88; 0x4c; 0xfa; 0x59; 0xca; 0x34; 0x2b; 0x2e].
Definition sample_x : bytes :=
  [0x03; 0x88; 0xda; 0xce; 0x60; 0xb6; 0xa3; 0x92; 0xf3; 0x28; 0xc2; 0xb9; 0x71; 0xb2; 0xfe; 0x78].

Example sample_product :
  let '(HH, HL) := gcm_gen_table (repeat 7 16) (repeat 9 16) sample_h in
  gcm_mult HH HL sample_x = be_bytes 16 0x5e2ec746917062882c85b0685353deb7 /\
  gf_mul (be_val sample_x) (be_val sample_h) = 0x5e2ec746917062882c85b0685353deb7.
Proof. vm_compute. split; reflexivity. Qed.

(** ** Numbers in two halves *)

Definition val (v : Z * Z) : Z := fst v * 2 ^ 64 + snd v.
Definition wide (v : Z * Z) : Prop := 0 <= fst v < 2 ^ 64 /\ 0 <= snd v < 2 ^ 64.
Definition pair_xor (v w : Z * Z) : Z * Z := (fst v ⊕ fst w, snd v ⊕ snd w).

Lemma wide_xor v w : wide v -> wide w -> wide (pair_xor v w).
Proof. intros [] []. by split; apply lxor_range. Qed.

Lemma val_xor v w : wide v -> wide w -> val (pair_xor v w) = val v ⊕ val w.
Proof. intros [] []. symmetry. by apply lxor_split. Qed.

Lemma halve_mulx v : wide v -> wide (halve v) /\ val (halve v) = mulx (val v).
Proof.
  destruct v as [vh vl]. intros [Hh Hl]. cbn [fst snd] in *.
  assert (Hhalf : forall z, 0 <= z < 2 ^ 64 -> 0 <= Z.shiftr z 1 < 2 ^ 63).
  { intros z Hz. rewrite Z.shiftr_div_pow2 by lia. change (2 ^ 1) with 2. Z.to_euclidean_division_equations. lia. }
  assert (El : Z.lor (u64 (Z.shiftl vh 63)) (Z.shiftr vl 1) = vh mod 2 * 2 ^ 63 + Z.shiftr vl 1).
  { unfold u64. rewrite Z.shiftl_mul_pow2 by lia. change (2 ^ 64) with (2 * 2 ^ 63).
    rewrite Zmult_mod_distr_r. apply lor_add; [lia|auto]. }
  assert (Ev : Z.shiftr (vh * 2 ^ 64 + vl) 1 = Z.shiftr vh 1 * 2 ^ 64 + (vh mod 2 * 2 ^ 63 + Z.shiftr vl 1)).
  { rewrite !Z.shiftr_div_pow2 by lia. change (2 ^ 1) with 2. Z.to_euclidean_division_equations. lia. }
  assert (Eo : Z.odd (vh * 2 ^ 64 + vl) = Z.odd vl) by (rewrite Z.odd_add, Z.odd_mul; by destruct (Z.odd vh), (Z.odd vl)).
  pose proof (Hhalf _ Hh). pose proof (Hhalf _ Hl). pose proof (Z.mod_pos_bound vh 2 ltac:(lia)).
  unfold wide, val, mulx, halve. cbn [fst snd]. rewrite El, Eo, Ev.
  assert (Eb : Z.land vl 1 = Z.b2z (Z.odd vl)).
  { change 1 with (Z.ones 1) at 1. rewrite Z.land_ones by lia. change (2 ^ 1) with 2. rewrite Zmod_odd. by destruct (Z.odd vl). }
  rewrite Eb. clear Eb.
  destruct (Z.odd vl).
  - change (Z.shiftl (u32 (Z.b2z true * 0xe1000000)) 32) with (0xe1 * 2 ^ 56). split.
    + split; [apply lxor_range; lia|lia].
    + replace R with (0xe1 * 2 ^ 56 * 2 ^ 64 + 0) by reflexivity. rewrite lxor_split by lia. by rewrite Z.lxor_0_r.
  - change (Z.shiftl (u32 (Z.b2z false * 0xe1000000)) 32) with 0. rewrite Z.lxor_0_r. split; [lia|reflexivity].
Qed.

(** ** Multiplication by P is linear *)

Lemma mulx_lxor a b : mulx (a ⊕ b) = mulx a ⊕ mulx b.
Proof.
  unfold mulx. rewrite <- !Z.bit0_odd, Z.lxor_spec, !Z.bit0_odd, Z.shiftr_lxor.
  destruct (Z.odd a), (Z.odd b); cbn [xorb]; try (by rewrite ?Z.lxor_assoc).
  - rewrite !Z.lxor_assoc. f_equal. rewrite (Z.lxor_comm R), Z.lxor_assoc, Z.lxor_nilpotent, Z.lxor_0_r. done.
  - rewrite !Z.lxor_assoc. f_equal. apply Z.lxor_comm.
Qed.

Lemma mulx_0 : mulx 0 = 0.
Proof. reflexivity. Qed.

Definition mulxs (n : nat) (V : Z) : Z := Nat.iter n mulx V.

Lemma mulxs_S n V : mulxs (S n) V = mulx (mulxs n V).
Proof. reflexivity. Qed.

Lemma mulxs_lxor n a b : mulxs n (a ⊕ b) = mulxs n a ⊕ mulxs n b.
Proof. induction n as [|n IH]; [done|]. by rewrite !mulxs_S, IH, mulx_lxor. Qed.

Lemma mulxs_even n z : 0 <= z -> mulxs n (2 ^ Z.of_nat n * z) = z.
Proof.
  intros Hz. revert z Hz. induction n as [|n IH]; intros z Hz; [change (1 * z = z); lia|].
  unfold mulxs. rewrite Nat.iter_succ_r. fold (mulxs n). rewrite Nat2Z.inj_succ, Z.pow_succ_r by lia.
  unfold mulx. rewrite Z.odd_mul, Z.odd_mul. change (Z.odd 2) with false. cbn [andb].
  rewrite Z.shiftr_div_pow2 by lia. change (2 ^ 1) with 2.
  replace (2 * 2 ^ Z.of_nat n * z) with (2 ^ Z.of_nat n * z * 2) by lia. rewrite Z.div_mul by lia. by apply IH.
Qed.

(** What the table [last4] holds. *)
Lemma mulxs_4 z : 0 <= z -> mulxs 4 z = Z.shiftr z 4 ⊕ Z.shiftl (nth (Z.to_nat (Z.land z 0xf)) last4 0) 112.
Proof.
  intros Hz. rewrite land_15. pose proof (Z.mod_pos_bound z 16 ltac:(lia)) as Hr.
  assert (Ez : z = (2 ^ Z.of_nat 4 * Z.shiftr z 4) ⊕ (z mod 16)).
  { rewrite Z.shiftr_div_pow2 by lia. change (2 ^ Z.of_nat 4 * (z / 2 ^ 4)) with (2 ^ 4 * (z / 2 ^ 4)).
    rewrite Z.mul_comm, <- add_lxor by lia. change (2 ^ 4) with 16. pose proof (Z.div_mod z 16). lia. }
  rewrite Ez at 1. rewrite mulxs_lxor, mulxs_even by (apply Z.shiftr_nonneg; lia). f_equal.
  assert (F : forallb (fun r => mulxs 4 r =? Z.shiftl (nth (Z.to_nat r) last4 0) 112) (map Z.of_nat (seq 0 16)) = true) by (vm_compute; reflexivity).
  rewrite forallb_forall in F. apply Z.eqb_eq, F, in_map_iff. exists (Z.to_nat (z mod 16)). split; [lia|]. apply in_seq. lia.
Qed.

Lemma mul_bits_lxor n X : forall V W, mul_bits n X (V ⊕ W) = mul_bits n X V ⊕ mul_bits n X W.
Proof.
  induction n as [|n IH]; intros V W; [done|]. cbn [mul_bits]. rewrite mulx_lxor, IH.
  destruct (Z.testbit X (Z.of_nat n)); [|by rewrite !Z.lxor_0_l].
  rewrite !Z.lxor_assoc. f_equal. rewrite <- !Z.lxor_assoc. f_equal. apply Z.lxor_comm.
Qed.

Lemma mul_bits_mulx n X : forall V, mul_bits n X (mulx V) = mulx (mul_bits n X V).
Proof.
  induction n as [|n IH]; intros V; [done|]. cbn [mul_bits]. rewrite IH, mulx_lxor. f_equal. by destruct (Z.testbit X (Z.of_nat n)).
Qed.

(** Horner's scheme, from the last bits. *)
Lemma mul_bits_horner m n X V : 0 <= X ->
  mul_bits (m + n) X V = mul_bits m (Z.shiftr X (Z.of_nat n)) V ⊕ mulxs m (mul_bits n X V).
Proof.
  intros HX. induction m as [|m IH]; [done|]. cbn [Nat.add mul_bits]. rewrite !mul_bits_mulx, IH, mulx_lxor, <- Z.lxor_assoc.
  rewrite Z.shiftr_spec by lia. replace (Z.of_nat m + Z.of_nat n) with (Z.of_nat (m + n)) by lia. reflexivity.
Qed.

(** Only the low bits count. *)
Lemma mul_bits_cong n X Y : X mod 2 ^ Z.of_nat n = Y mod 2 ^ Z.of_nat n -> forall V, mul_bits n X V = mul_bits n Y V.
Proof.
  intros E. assert (B : forall i, (i < n)%nat -> Z.testbit X (Z.of_nat i) = Z.testbit Y (Z.of_nat i)).
  { intros i Hi. by rewrite <- (Z.mod_pow2_bits_low X (Z.of_nat n)), <- (Z.mod_pow2_bits_low Y (Z.of_nat n)), E by lia. }
  clear E. revert B. induction n as [|n IH]; intros B V; [done|]. cbn [mul_bits]. rewrite B by lia. f_equal. apply IH. intros i Hi. apply B. lia.
Qed.

(** ** The table *)

Definition entry (HH HL : list Z) (n : Z) : Z * Z := (nth (Z.to_nat n) HH 0, nth (Z.to_nat n) HL 0).

(** Every entry is its nibble times [H]. *)
Definition table_of (H : Z) (HH HL : list Z) : Prop :=
  forall n, 0 <= n < 16 -> wide (entry HH HL n) /\ val (entry HH HL n) = mul_bits 4 n H.

Definition table_entries (a : Z * Z) : list (Z * Z) :=
  let b := halve a in
  let c := halve b in
  let d := halve c in
  let e3 := pair_xor c d in let e5 := pair_xor b d in let e6 := pair_xor b c in let e7 := pair_xor b e3 in
  [(0, 0); d; c; e3; b; e5; e6; e7; a; pair_xor a d; pair_xor a c; pair_xor a e3; pair_xor a b; pair_xor a e5; pair_xor a e6; pair_xor a e7].

Lemma table_lists (HH HL : list Z) v : length HH = 16%nat -> length HL = 16%nat ->
  fold_left sums [2; 4; 8]%nat (powers (<[0%nat := 0]> (<[8%nat := fst v]> HH)) (<[0%nat := 0]> (<[8%nat := snd v]> HL)) v) =
  (map fst (table_entries v), map snd (table_entries v)).
Proof.
  intros H1 H2. do 16 (destruct HH as [|? HH]; [discriminate|]). do 16 (destruct HL as [|? HL]; [discriminate|]).
  destruct HH, HL; try discriminate. unfold table_entries, powers. cbn [fold_left]. generalize (halve v). intros b.
  generalize (halve b). intros c. generalize (halve c). intros d. reflexivity.
Qed.

Lemma gen_table_ok (HH HL : list Z) h : length HH = 16%nat -> length HL = 16%nat -> block h ->
  let '(HH, HL) := gcm_gen_table HH HL h in table_of (be_val h) HH HL.
Proof.
  intros H1 H2 [Hl Hb]. unfold gcm_gen_table. pose proof (get64_be h 0 Hb ltac:(lia)) as G0. pose proof (get64_be h 8 Hb ltac:(lia)) as G8.
  cbn [Nat.add] in G0, G8. rewrite G0, G8. clear G0 G8.
  set (a := (be_val (take 8 (drop 0 h)), be_val (take 8 (drop 8 h)))).
  assert (L : forall k, (k <= 8)%nat -> 0 <= be_val (take 8 (drop k h)) < 2 ^ 64 /\ length (take 8 (drop k h)) = 8%nat).
  { intros k Hk. assert (E : length (take 8 (drop k h)) = 8%nat) by (rewrite length_take, length_drop; lia). split; [|exact E].
    pose proof (be_val_range (take 8 (drop k h)) ltac:(by apply Forall_take, Forall_drop)) as Q. by rewrite E in Q. }
  assert (Wa : wide a) by (split; apply L; lia).
  assert (Ea : val a = be_val h).
  { unfold a, val. cbn [fst snd]. change (drop 0 h) with h. rewrite (take_ge (drop 8 h)) by (rewrite length_drop; lia).
    transitivity (be_val (take 8 h ++ drop 8 h)); [|by rewrite take_drop]. rewrite be_val_app, length_drop, Hl. reflexivity. }
  rewrite <- Ea. change (be_val (take 8 (drop 0 h))) with (fst a). change (be_val (take 8 (drop 8 h))) with (snd a). clearbody a. clear L Ea. rewrite (table_lists HH HL a H1 H2).
  destruct (halve_mulx a Wa) as [Wb Eb]. unfold table_entries. set (b := halve a) in *.
  destruct (halve_mulx b Wb) as [Wc Ec]. set (c := halve b) in *.
  destruct (halve_mulx c Wc) as [Wd Ed]. set (d := halve c) in *. clearbody b c d.
  assert (W : forall v w, wide v -> wide w -> wide (pair_xor v w)) by apply wide_xor.
  assert (Z0 : wide (0, 0)) by (split; cbn; lia).
  intros n Hn. destruct (Z_of_nat_complete n) as [k ->]; [lia|]. unfold entry. rewrite Nat2Z.id.
  do 16 (destruct k as [|k]; [cbn [nth map mul_bits Z.of_nat]; rewrite <- !surjective_pairing; split; [auto 6|]; 
    rewrite ?val_xor by auto 6; rewrite <- ?Eb, <- ?Ec, <- ?Ed; cbn [Z.testbit]; rewrite ?Z.lxor_0_l, ?Z.lxor_0_r; try reflexivity|]).
  lia.
Qed.

(** ** The loop *)

Lemma mult_nibble_ok H HH HL n z : table_of H HH HL -> 0 <= n < 16 -> wide z ->
  wide (mult_nibble HH HL n z) /\ val (mult_nibble HH HL n z) = mulxs 4 (val z) ⊕ mul_bits 4 n H.
Proof.
  intros T Hn W. destruct (T n Hn) as [We Ee]. destruct z as [zh zl]. destruct W as [Wh Wl]. cbn [fst snd] in *.
  assert (Hz : 0 <= val (zh, zl)) by (unfold val; cbn [fst snd]; lia). rewrite (mulxs_4 _ Hz), <- Ee.
  assert (Er : Z.land (u8 zl) 0xf = Z.land (val (zh, zl)) 0xf).
  { rewrite !land_15. unfold u8, val. cbn [fst snd]. change (2 ^ 8) with 256. Z.to_euclidean_division_equations. lia. }
  unfold mult_nibble. rewrite Er. set (l := nth _ last4 0).
  assert (Hl : 0 <= l < 2 ^ 16).
  { unfold l. generalize (Z.to_nat (Z.land (val (zh, zl)) 0xf)). intros k. do 16 (destruct k as [|k]; [cbn; lia|]). destruct k; cbn; lia. }
  assert (El : Z.lor (u64 (Z.shiftl zh 60)) (Z.shiftr zl 4) = zh mod 16 * 2 ^ 60 + zl / 16).
  { unfold u64. rewrite Z.shiftl_mul_pow2, Z.shiftr_div_pow2 by lia. change (2 ^ 64) with (16 * 2 ^ 60). rewrite Zmult_mod_distr_r.
    apply lor_add; [lia|]. change (2 ^ 4) with 16. Z.to_euclidean_division_equations. lia. }
  rewrite El, (Z.shiftr_div_pow2 zh) by lia. change (2 ^ 4) with 16. rewrite (Z.shiftl_mul_pow2 l 48) by lia.
  set (p := (zh / 16, zh mod 16 * 2 ^ 60 + zl / 16)). set (q := (l * 2 ^ 48, 0)).
  assert (Wp : wide p) by (unfold wide, p; cbn [fst snd]; Z.to_euclidean_division_equations; lia).
  assert (Wq : wide q) by (unfold wide, q; cbn [fst snd]; lia).
  replace (_, _) with (pair_xor (pair_xor p q) (entry HH HL n)) by (unfold pair_xor, p, q, entry; cbn [fst snd]; by rewrite Z.lxor_0_r).
  split; [auto using wide_xor|]. rewrite !val_xor by auto using wide_xor. f_equal. f_equal.
  - unfold val, p. cbn [fst snd]. rewrite Z.shiftr_div_pow2 by lia. change (2 ^ 4) with 16. Z.to_euclidean_division_equations. lia.
  - unfold val, q. cbn [fst snd]. rewrite Z.shiftl_mul_pow2 by lia. change (2 ^ 112) with (2 ^ 48 * 2 ^ 64). lia.
Qed.

Lemma nibble_step m X H : 0 <= X ->
  mul_bits (4 + m) X H = mulxs 4 (mul_bits m X H) ⊕ mul_bits 4 (Z.land (Z.shiftr X (Z.of_nat m)) 0xf) H.
Proof.
  intros HX. rewrite mul_bits_horner, Z.lxor_comm by exact HX. f_equal. apply mul_bits_cong. rewrite land_15. symmetry. by apply Z.mod_mod.
Qed.

Lemma block_byte x i : block x -> (i < 16)%nat -> Z.shiftr (be_val x) (Z.of_nat (8 * (15 - i))) mod 256 = nth i x 0.
Proof.
  intros [Hl Hb] Hi. pose proof (nth_byte x i Hb) as Hn. unfold is_byte in Hn.
  destruct (nth_split x 0 (n := i) ltac:(lia)) as (l1 & l2 & E & L1). set (b := nth i x 0) in *. clearbody b. subst x.
  rewrite length_app in Hl. cbn [length] in Hl. apply Forall_app in Hb as [_ Hb]. apply List.Forall_cons_iff in Hb as [_ Hb].
  pose proof (be_val_range l2 Hb) as R2. rewrite be_val_app, be_val_cons. cbn [length].
  replace (Z.of_nat (8 * (15 - i))) with (8 * zlen l2) by lia. rewrite Nat2Z.inj_succ, Z.pow_succ_r, Z.shiftr_div_pow2, Z.pow_mul_r by lia.
  change (2 ^ 8) with 256. set (P := 256 ^ zlen l2) in *.
  replace (be_val l1 * (256 * P) + (b * P + be_val l2)) with (be_val l2 + (be_val l1 * 256 + b) * P) by ring.
  rewrite Z.div_add, Z.div_small, Z.add_0_l, Z.add_comm, Z.mod_add by lia. by apply Z.mod_small.
Qed.

Lemma mult_loop_ok H HH HL x : table_of H HH HL -> block x -> forall n z, (n <= 16)%nat -> wide z ->
  val z = mul_bits (if (n =? 16)%nat then 4 else 8 * (16 - n)) (be_val x) H ->
  wide (mult_loop n HH HL x z) /\ val (mult_loop n HH HL x z) = gf_mul (be_val x) H.
Proof.
  intros T Hx. assert (HX : 0 <= be_val x) by (apply be_val_range; apply Hx).
  induction n as [|i IH]; intros z Hn W E; [by split|]. cbn [mult_loop].
  set (lo := Z.land (nth i x 0) 0xf). set (hi := Z.land (Z.shiftr (nth i x 0) 4) 0xf).
  pose proof (block_byte x i Hx ltac:(lia)) as B. pose proof (nth_byte x i (proj2 Hx)) as Hb. unfold is_byte in Hb.
  assert (Elo : lo = Z.land (Z.shiftr (be_val x) (Z.of_nat (8 * (15 - i)))) 0xf).
  { unfold lo. rewrite !land_15, <- B. change 256 with (16 * 16). generalize (Z.shiftr (be_val x) (Z.of_nat (8 * (15 - i)))).
    intros. Z.to_euclidean_division_equations. lia. }
  assert (Ehi : hi = Z.land (Z.shiftr (be_val x) (Z.of_nat (4 + 8 * (15 - i)))) 0xf).
  { unfold hi. rewrite !land_15, <- B. replace (Z.of_nat (4 + 8 * (15 - i))) with (Z.of_nat (8 * (15 - i)) + 4) by lia.
    rewrite <- Z.shiftr_shiftr by lia. generalize (Z.shiftr (be_val x) (Z.of_nat (8 * (15 - i)))).
    intros v. rewrite !Z.shiftr_div_pow2 by lia. change (2 ^ 4) with 16. Z.to_euclidean_division_equations. lia. }
  assert (Rlo : 0 <= lo < 16) by (unfold lo; rewrite land_15; by apply Z.mod_pos_bound).
  assert (Rhi : 0 <= hi < 16) by (unfold hi; rewrite land_15; by apply Z.mod_pos_bound).
  clearbody lo hi.
  set (z' := if negb (i =? 15)%nat then mult_nibble HH HL lo z else z).
  assert (M : wide z' /\ val z' = mul_bits (4 + 8 * (15 - i)) (be_val x) H).
  { unfold z'. destruct (Nat.eqb_spec i 15) as [->|Hi]; cbn [negb]; [by split|].
    replace (S i =? 16)%nat with false in E by (symmetry; apply Nat.eqb_neq; lia). cbn [Nat.sub] in E.
    destruct (mult_nibble_ok H HH HL lo z T Rlo W) as [W1 ->]. split; [exact W1|].
    by rewrite nibble_step, <- Elo, E by exact HX. }
  destruct M as [W' E']. clearbody z'. destruct (mult_nibble_ok H HH HL hi z' T Rhi W') as [W2 E2].
  apply IH; [lia|exact W2|]. replace (i =? 16)%nat with false by (symmetry; apply Nat.eqb_neq; lia).
  replace (8 * (16 - i))%nat with (4 + (4 + 8 * (15 - i)))%nat by lia. by rewrite E2, nibble_step, <- Ehi, E' by exact HX.
Qed.

Lemma gf_mul_range X Y : 0 <= Y < 2 ^ 128 -> 0 <= gf_mul X Y < 2 ^ 128.
Proof.
  unfold gf_mul. generalize 128%nat. intros n. revert Y. induction n as [|n IH]; intros Y HY; [cbn; lia|]. cbn [mul_bits].
  apply lxor_range; [lia|case_if; lia|]. apply IH. unfold mulx.
  assert (0 <= Z.shiftr Y 1 < 2 ^ 127) by (rewrite Z.shiftr_div_pow2 by lia; change (2 ^ 1) with 2; Z.to_euclidean_division_equations; lia).
  case_if; [|lia]. apply lxor_range; [lia|lia|]. unfold R. lia.
Qed.

Lemma gcm_mult_ok H HH HL x : table_of H HH HL -> block x -> gcm_mult HH HL x = be_bytes 16 (gf_mul (be_val x) H).
Proof.
  intros T Hx. unfold gcm_mult. set (lo := Z.land (nth 15 x 0) 0xf).
  assert (Rlo : 0 <= lo < 16) by (unfold lo; rewrite land_15; by apply Z.mod_pos_bound).
  destruct (T lo Rlo) as [W E]. unfold entry in *. destruct (mult_loop_ok H HH HL x T Hx 16 _ (le_n 16) W) as [W2 E2].
  { rewrite E. change (if (16 =? 16)%nat then 4%nat else _) with 4%nat. apply mul_bits_cong. unfold lo. rewrite land_15. change (2 ^ Z.of_nat 4) with 16.
    rewrite Z.mod_mod, <- (block_byte x 15 Hx) by lia. change (Z.of_nat (8 * (15 - 15))) with 0. rewrite Z.shiftr_0_r.
    Z.to_euclidean_division_equations. lia. }
  destruct (mult_loop 16 HH HL x _) as [zh zl]. destruct W2 as [Wh Wl]. cbn [fst snd] in *.
  rewrite app_assoc, put64_be_halves, put64_be_halves by lia. rewrite <- E2. unfold val. cbn [fst snd].
  by rewrite <- (be_bytes_split 8 8).
Qed.

End Ghash.
