(* ===== verification/Gcm.v ===== *)
(** GCM (mbedtls/library/gcm.c) over any block cipher of 16 bytes: starts, updates
    and finish, for every length of the vector and every cut of the text at
    blocks, compute the authenticated encryption of NIST SP 800-38D; decryption
    releases a text for its tag only. *)
From S2P Require Import Prelude Words ConstantTime Aes AesModes Blocks Ghash.
From stdpp Require Import list.
#[local] Open Scope Z_scope.

(** What GCM uses of the cipher layer: whether there is a cipher of 16-byte blocks
    for a size of key ([mbedtls_cipher_info_from_values]), the context under a key
    ([mbedtls_cipher_setup], [mbedtls_cipher_setkey]) and one block
    ([mbedtls_cipher_update] in ECB mode). *)
Class BlockCipher (C : Type) := {
  cipher_none : C;
  cipher_info : Z -> bool;
  cipher_setkey : bytes -> Z -> Z * C;
  cipher_update : C -> bytes -> bytes;
}.

(** The promise: the cipher is the permutation [E] of its key on blocks. *)
Class BlockCipherLaws (C : Type) `{BlockCipher C} (E : bytes -> bytes -> bytes) := {
  cipher_setkey_ok key : cipher_info (8 * zlen key) = true -> bytes_ok key ->
    exists c, cipher_setkey key (8 * zlen key) = (0, c) /\ forall b, Aes.block b -> cipher_update c b = E key b;
  cipher_block key b : cipher_info (8 * zlen key) = true -> bytes_ok key -> Aes.block b -> Aes.block (E key b);
}.

Module Gcm.
Import Aes AesModes Blocks Ghash.

Definition MBEDTLS_GCM_ENCRYPT : Z := 1.
Definition MBEDTLS_GCM_DECRYPT : Z := 0.
Definition MBEDTLS_ERR_GCM_AUTH_FAILED : Z := -0x0012.
Definition MBEDTLS_ERR_GCM_BAD_INPUT : Z := -0x0014.

Section Code.
Context {C : Type} `{BlockCipher C}.

Record mbedtls_gcm_context := mkGcm {
  cipher_ctx : C;
  HL : list Z;
  HH : list Z;
  len : Z;
  add_len : Z;
  base_ectr : bytes;
  y : bytes;
  buf : bytes;
  mode : Z;
}.

Definition zeros : bytes := repeat 0 16.

Definition mbedtls_gcm_init : mbedtls_gcm_context :=
  mkGcm cipher_none (repeat 0 16) (repeat 0 16) 0 0 zeros zeros zeros 0.

Definition mbedtls_gcm_setkey (ctx : mbedtls_gcm_context) (key : bytes) (keybits : Z) : Z * mbedtls_gcm_context :=
  if negb (cipher_info keybits) then (MBEDTLS_ERR_GCM_BAD_INPUT, ctx)
  else
    let '(ret, c) := cipher_setkey key keybits in
    let with_tables HH HL := mkGcm c HL HH (len ctx) (add_len ctx) (base_ectr ctx) (y ctx) (buf ctx) (mode ctx) in
    if negb (ret =? 0) then (ret, with_tables (HH ctx) (HL ctx))
    else let '(HH, HL) := gcm_gen_table (HH ctx) (HL ctx) (cipher_update c zeros) in (0, with_tables HH HL).

(** [for (i = 0; i < use_len; i++) y[i] ^= p[i]]. *)
Definition xor_front (y p : bytes) : bytes := xor_bytes (take (length p) y) p ++ drop (length p) y.

(** The loop over the vector and over the additional data; a turn takes up to
    16 bytes. *)
Fixpoint absorb (n : nat) (HH HL : list Z) (y p : bytes) : bytes :=
  match n with
  | O => y
  | S n =>
      let use_len := Nat.min (length p) 16 in
      absorb n HH HL (gcm_mult HH HL (xor_front y (take use_len p))) (drop use_len p)
  end.

Definition mbedtls_gcm_starts (ctx : mbedtls_gcm_context) (m : Z) (iv add : bytes) : result mbedtls_gcm_context :=
  if (zlen iv =? 0) || negb (Z.shiftr (zlen iv) 61 =? 0) || negb (Z.shiftr (zlen add) 61 =? 0)
  then Err MBEDTLS_ERR_GCM_BAD_INPUT
  else
    let y :=
      if zlen iv =? 12 then <[15%nat := 1]> (put_at zeros 0 iv)
      else
        let work_buf := put_at zeros 8 (MBEDTLS_PUT_UINT64_BE (u64 (zlen iv * 8))) in
        gcm_mult (HH ctx) (HL ctx) (xor_bytes (absorb (turns iv) (HH ctx) (HL ctx) zeros iv) work_buf) in
    Ok (mkGcm (cipher_ctx ctx) (HL ctx) (HH ctx) 0 (zlen add) (cipher_update (cipher_ctx ctx) y) y
          (absorb (turns add) (HH ctx) (HL ctx) zeros add) m).

(** The loop of an update: the output, [y] and [buf]. *)
Fixpoint crypt_blocks (n : nat) (ctx : mbedtls_gcm_context) (y buf p : bytes) : bytes * bytes * bytes :=
  match n with
  | O => ([], y, buf)
  | S n =>
      let use_len := Nat.min (length p) 16 in
      let y := take 12 y ++ next_counter (drop 12 y) in
      let ectr := cipher_update (cipher_ctx ctx) y in
      let input := take use_len p in
      let output := xor_bytes (take use_len ectr) input in
      let buf := if mode ctx =? MBEDTLS_GCM_DECRYPT then xor_front buf input else buf in
      let buf := if mode ctx =? MBEDTLS_GCM_ENCRYPT then xor_front buf output else buf in
      let buf := gcm_mult (HH ctx) (HL ctx) buf in
      let '(rest, y, buf) := crypt_blocks n ctx y buf (drop use_len p) in
      (output ++ rest, y, buf)
  end.

(** [output] is [input] itself or another buffer. *)
Definition mbedtls_gcm_update (ctx : mbedtls_gcm_context) (input : bytes) : result (mbedtls_gcm_context * bytes) :=
  if (u64 (len ctx + zlen input) <? len ctx) || (0xFFFFFFFE0 <? u64 (len ctx + zlen input))
  then Err MBEDTLS_ERR_GCM_BAD_INPUT
  else
    let '(output, y, buf) := crypt_blocks (turns input) ctx (y ctx) (buf ctx) input in
    Ok (mkGcm (cipher_ctx ctx) (HL ctx) (HH ctx) (u64 (len ctx + zlen input)) (add_len ctx) (base_ectr ctx) y buf (mode ctx), output).

Definition mbedtls_gcm_finish (ctx : mbedtls_gcm_context) (tag_len : Z) : result (mbedtls_gcm_context * bytes) :=
  let orig_len := u64 (len ctx * 8) in
  let orig_add_len := u64 (add_len ctx * 8) in
  if (16 <? tag_len) || (tag_len <? 4) then Err MBEDTLS_ERR_GCM_BAD_INPUT
  else
    let tag := take (Z.to_nat tag_len) (base_ectr ctx) in
    if negb (orig_len =? 0) || negb (orig_add_len =? 0) then
      let work_buf := MBEDTLS_PUT_UINT32_BE (Z.shiftr orig_add_len 32) ++ MBEDTLS_PUT_UINT32_BE orig_add_len ++
                      MBEDTLS_PUT_UINT32_BE (Z.shiftr orig_len 32) ++ MBEDTLS_PUT_UINT32_BE orig_len in
      let buf := gcm_mult (HH ctx) (HL ctx) (xor_bytes (buf ctx) work_buf) in
      Ok (mkGcm (cipher_ctx ctx) (HL ctx) (HH ctx) (len ctx) (add_len ctx) (base_ectr ctx) (y ctx) buf (mode ctx),
          xor_bytes tag (take (Z.to_nat tag_len) buf))
    else Ok (ctx, tag).

(** The return value, the context, the output and the tag, given what the last
    two held before. *)
Definition mbedtls_gcm_crypt_and_tag (ctx : mbedtls_gcm_context) (m : Z) (iv add input output0 : bytes) (tag_len : Z) (tag0 : bytes) :
    Z * mbedtls_gcm_context * bytes * bytes :=
  match mbedtls_gcm_starts ctx m iv add with
  | Err ret => (ret, ctx, output0, tag0)
  | Ok ctx =>
      match mbedtls_gcm_update ctx input with
      | Err ret => (ret, ctx, output0, tag0)
      | Ok (ctx, output) =>
          match mbedtls_gcm_finish ctx tag_len with
          | Err ret => (ret, ctx, output, tag0)
          | Ok (ctx, tag) => (0, ctx, output, tag)
          end
      end
  end.

Definition mbedtls_gcm_auth_decrypt (ctx : mbedtls_gcm_context) (iv add tag input output0 : bytes) :
    Z * mbedtls_gcm_context * bytes :=
  let '(ret, ctx, output, check_tag) := mbedtls_gcm_crypt_and_tag ctx MBEDTLS_GCM_DECRYPT iv add input output0 (zlen tag) zeros in
  if negb (ret =? 0) then (ret, ctx, output)
  else
    let diff := mbedtls_ct_memcmp tag check_tag in
    if negb (diff =? 0) then (MBEDTLS_ERR_GCM_AUTH_FAILED, ctx, repeat 0 (length input)) else (0, ctx, output).

(** Several updates. *)
Fixpoint update_all (ctx : mbedtls_gcm_context) (inputs : list bytes) : result (mbedtls_gcm_context * bytes) :=
  match inputs with
  | [] => Ok (ctx, [])
  | input :: inputs =>
      '(ctx, out) ← mbedtls_gcm_update ctx input;
      '(ctx, outs) ← update_all ctx inputs;
      Ok (ctx, out ++ outs)
  end.

Definition gcm_calls (ctx : mbedtls_gcm_context) (m : Z) (iv add : bytes) (inputs : list bytes) (tag_len : Z) : result (bytes * bytes) :=
  ctx ← mbedtls_gcm_starts ctx m iv add;
  '(ctx, output) ← update_all ctx inputs;
  '(_, tag) ← mbedtls_gcm_finish ctx tag_len;
  Ok (output, tag).
End Code.
Arguments mbedtls_gcm_context : clear implicits.

(** ** NIST SP 800-38D *)

Section Spec.
Context (E : bytes -> bytes).

Definition inc32 (b : bytes) : bytes := take 12 b ++ be_bytes 4 (be_val (drop 12 b) + 1).

Definition ghash (H Y : Z) (s : bytes) : Z :=
  fold_left (fun Y X => gf_mul (Z.lxor Y (be_val X)) H) (blocks16 (length s / 16) s) Y.

Definition gctr (icb text : bytes) : bytes :=
  xor_bytes (take (length text) (concat (map (fun i => E (Nat.iter i inc32 icb)) (seq 0 (turns text))))) text.

Definition hash_key : Z := be_val (E zeros).

Definition J0 (iv : bytes) : bytes :=
  if (length iv =? 12)%nat then iv ++ [0; 0; 0; 1]
  else be_bytes 16 (ghash hash_key 0 (pad16 iv ++ repeat 0 8 ++ be_bytes 8 (8 * zlen iv))).

Definition gcm_text (iv text : bytes) : bytes := gctr (inc32 (J0 iv)) text.

(** Of the additional data and a ciphertext. *)
Definition gcm_tag (iv aad text : bytes) : bytes :=
  gctr (J0 iv) (be_bytes 16 (ghash hash_key 0 (pad16 aad ++ pad16 text ++ be_bytes 8 (8 * zlen aad) ++ be_bytes 8 (8 * zlen text)))).
End Spec.

(** ** AES *)

#[export] Instance aes_cipher : BlockCipher mbedtls_aes_context := {
  cipher_none := mbedtls_aes_init;
  cipher_info keybits := (keybits =? 128) || (keybits =? 192) || (keybits =? 256);
  cipher_setkey key keybits := mbedtls_aes_setkey_enc mbedtls_aes_init key keybits;
  cipher_update c b := mbedtls_aes_crypt_ecb c MBEDTLS_AES_ENCRYPT b;
}.

#[export] Instance aes_laws : BlockCipherLaws mbedtls_aes_context aes_spec.
Proof.
  assert (K : forall key, cipher_info (8 * zlen key) = true -> bytes_ok key -> key_ok key).
  { intros key Hi Hb. split; [exact Hb|]. cbn in Hi. to_prop. lia. }
  split.
  - intros key Hi Hb. destruct (setkey_enc_schedule mbedtls_aes_init key (K key Hi Hb)) as (n & k & Ek & S). eexists. split; [exact Ek|].
    intros b Hs. apply (enc_ctx_ecb key); [|exact Hs]. split; [by apply K|]. by exists mbedtls_aes_init.
  - intros key b Hi Hb Hs. apply aes_spec_block; [by apply K|exact Hs].
Qed.

(** Test case 4 of the GCM specification. *)
Definition sample_key128 : bytes := [0xfe; 0xff; 0xe9; 0x92; 0x86; 0x65; 0x73; 0x1c; 0x6d; 0x6a; 0x8f; 0x94; 0x67; 0x30; 0x83; 0x08].
Definition sample_iv : bytes := [0xca; 0xfe; 0xba; 0xbe; 0xfa; 0xce; 0xdb; 0xad; 0xde; 0xca; 0xf8; 0x88].
Definition sample_aad : bytes := [0xfe; 0xed; 0xfa; 0xce; 0xde; 0xad; 0xbe; 0xef; 0xfe; 0xed; 0xfa; 0xce; 0xde; 0xad; 0xbe; 0xef; 0xab; 0xad; 0xda; 0xd2].
Definition sample_plain : bytes := [0xd9; 0x31; 0x32; 0x25; 0xf8; 0x84; 0x06; 0xe5; 0xa5; 0x59; 0x09; 0xc5; 0xaf; 0xf5; 0x26; 0x9a; 0x86; 0xa7; 0xa9; 0x53; 0x15; 0x34; 0xf7; 0xda; 0x2e; 0x4c; 0x30; 0x3d; 0x8a; 0x31; 0x8a; 0x72; 0x1c; 0x3c; 0x0c; 0x95; 0x95; 0x68; 0x09; 0x53; 0x2f; 0xcf; 0x0e; 0x24; 0x49; 0xa6; 0xb5; 0x25; 0xb1; 0x6a; 0xed; 0xf5; 0xaa; 0x0d; 0xe6; 0x57; 0xba; 0x63; 0x7b; 0x39].
Definition sample_cipher : bytes := [0x42; 0x83; 0x1e; 0xc2; 0x21; 0x77; 0x74; 0x24; 0x4b; 0x72; 0x21; 0xb7; 0x84; 0xd0; 0xd4; 0x9c; 0xe3; 0xaa; 0x21; 0x2f; 0x2c; 0x02; 0xa4; 0xe0; 0x35; 0xc1; 0x7e; 0x23; 0x29; 0xac; 0xa1; 0x2e; 0x21; 0xd5; 0x14; 0xb2; 0x54; 0x66; 0x93; 0x1c; 0x7d; 0x8f; 0x6a; 0x5a; 0xac; 0x84; 0xaa; 0x05; 0x1b; 0xa3; 0x0b; 0x39; 0x6a; 0x0a; 0xac; 0x97; 0x3d; 0x58; 0xe0; 0x91].
Definition sample_tag : bytes := [0x5b; 0xc9; 0x4f; 0xbc; 0x32; 0x21; 0xa5; 0xdb; 0x94; 0xfa; 0xe9; 0x5a; 0xe7; 0x12; 0x1a; 0x47].

Example sample_gcm :
  let ctx := snd (mbedtls_gcm_setkey mbedtls_gcm_init sample_key128 128) in
  gcm_calls ctx MBEDTLS_GCM_ENCRYPT sample_iv sample_aad [take 16 sample_plain; drop 16 sample_plain] 16 = Ok (sample_cipher, sample_tag) /\
  gcm_text (aes_spec sample_key128) sample_iv sample_plain = sample_cipher /\
  gcm_tag (aes_spec sample_key128) sample_iv sample_aad sample_cipher = sample_tag.
Proof. vm_compute. repeat split; reflexivity. Qed.

(** ** Blocks and paddings *)

Lemma xor_front_pad y p : block y -> p <> [] -> xor_front y (take 16 p) = xor_bytes y (pad16 (take 16 p)).
Proof.
  intros [Hy _] Hp. assert (0 < length p)%nat by (destruct p; [done|cbn; lia]). assert (T : turns (take 16 p) = 1%nat).
  { rewrite turns_pos by (destruct p; [done|discriminate]). rewrite drop_ge by (rewrite length_take; lia). reflexivity. }
  unfold xor_front, pad16, xor_bytes. rewrite T. set (q := take 16 p). assert (Lq : (length q <= 16)%nat) by (unfold q; rewrite length_take; lia).
  rewrite <- (take_drop (length q) y) at 3. rewrite zip_with_app by (rewrite length_take; lia). f_equal.
  assert (Z : forall l : bytes, zip_with Z.lxor l (repeat 0 (length l)) = l) by (induction l as [|x l IH]; [done|]; cbn; by rewrite Z.lxor_0_r, IH).
  replace (16 * 1 - length q)%nat with (length (drop (length q) y)) by (rewrite length_drop; lia). by rewrite Z.
Qed.

(** ** GHASH *)

Lemma ghash_cons H Y b s : length b = 16%nat -> ghash H Y (b ++ s) = ghash H (gf_mul (Z.lxor Y (be_val b)) H) s.
Proof.
  intros Hb. unfold ghash. rewrite length_app, Hb. replace ((16 + length s) / 16)%nat with (S (length s / 16)).
  2:{ replace (16 + length s)%nat with (length s + 1 * 16)%nat by lia. rewrite Nat.div_add by lia. lia. }
  cbn [blocks16 fold_left]. by rewrite take_app_exact, drop_app_exact by (by symmetry).
Qed.

Lemma ghash_nil H Y : ghash H Y [] = Y.
Proof. reflexivity. Qed.

Lemma ghash_one H Y b : length b = 16%nat -> ghash H Y b = gf_mul (Z.lxor Y (be_val b)) H.
Proof. intros Hb. rewrite <- (app_nil_r b) at 1. by rewrite ghash_cons. Qed.

Lemma ghash_app H a b : (length a mod 16 = 0)%nat -> forall Y, ghash H Y (a ++ b) = ghash H (ghash H Y a) b.
Proof.
  intros Ha. assert (E : exists k, length a = (16 * k)%nat) by (exists (length a / 16)%nat; pose proof (Nat.div_mod_eq (length a) 16); lia).
  destruct E as [k E]. clear Ha. revert a E. induction k as [|k IH]; intros a E Y; [by destruct a|].
  rewrite <- (take_drop 16 a), <- app_assoc, !(ghash_cons H Y (take 16 a)) by (rewrite length_take; lia). apply IH. rewrite length_drop. lia.
Qed.

Lemma ghash_range H s : 0 <= H < 2 ^ 128 -> forall Y, 0 <= Y < 2 ^ 128 -> 0 <= ghash H Y s < 2 ^ 128.
Proof.
  intros HH. unfold ghash. generalize (blocks16 (length s / 16) s). intros l. induction l as [|b l IH]; intros Y HY; [exact HY|].
  cbn [fold_left]. apply IH. by apply gf_mul_range.
Qed.

Section Tables.
Context (H : Z) (HH HL : list Z) (Ht : table_of H HH HL) (HR : 0 <= H < 2 ^ 128).

Lemma mult_step y b : block y -> block b ->
  gcm_mult HH HL (xor_bytes y b) = be_bytes 16 (gf_mul (Z.lxor (be_val y) (be_val b)) H).
Proof. intros Hy Hb. rewrite (gcm_mult_ok H HH HL) by (by try apply xor_is_block). by rewrite xor_val. Qed.

Lemma absorb_ok n : forall p y, n = turns p -> block y -> bytes_ok p ->
  absorb n HH HL y p = be_bytes 16 (ghash H (be_val y) (pad16 p)).
Proof.
  induction n as [|n IH]; intros p y En Hy Hp.
  - destruct p; [|rewrite turns_pos in En by done; discriminate]. rewrite pad16_nil, ghash_nil, block_bytes by exact Hy. reflexivity.
  - assert (Np : p <> []) by (intros ->; discriminate). rewrite (turns_pos p Np) in En. injection En as En.
    cbn [absorb]. rewrite drop_min, take_min, xor_front_pad by assumption.
    pose proof (pad16_block p Np Hp) as Hblk. rewrite mult_step by assumption.
    rewrite IH by (exact En || apply be_block || by apply Forall_drop).
    rewrite (pad16_cons p Np), ghash_cons by apply Hblk. by rewrite block_val by (by apply gf_mul_range).
Qed.
End Tables.

(** ** The counter mode *)

Lemma inc32_code b : block b -> take 12 b ++ next_counter (drop 12 b) = inc32 b.
Proof.
  intros [Hl Hb]. unfold inc32. f_equal. assert (Hd : bytes_ok (drop 12 b)) by (by apply Forall_drop).
  rewrite <- (be_bytes_val (drop 12 b) Hd) at 1. rewrite length_drop, Hl. apply next_counter_be. by apply be_val_range.
Qed.

Lemma inc32_block b : block b -> block (inc32 b).
Proof.
  intros [Hl Hb]. unfold inc32. split.
  - rewrite length_app, length_take, be_bytes_length. lia.
  - apply Forall_app. split; [by apply Forall_take|]. apply be_bytes_ok.
Qed.

Section Counter.
Context (E : bytes -> bytes) (HE : forall b, block b -> block (E b)).

Lemma iter_block n b : block b -> block (Nat.iter n inc32 b).
Proof. intros Hb. induction n as [|n IH]; [exact Hb|]. by apply inc32_block. Qed.

Lemma gctr_step icb p : block icb -> p <> [] ->
  gctr E icb p = xor_bytes (take (Nat.min (length p) 16) (E icb)) (take 16 p) ++ gctr E (inc32 icb) (drop 16 p).
Proof.
  intros Hi Hp. unfold gctr. rewrite (turns_pos p Hp). cbn [seq map concat Nat.iter nat_rect].
  assert (Hl : length (E icb) = 16%nat) by (by apply HE).
  rewrite <- (seq_shift _ 0), map_map.
  rewrite (map_ext (fun x => E (Nat.iter (S x) inc32 icb)) (fun i => E (Nat.iter i inc32 (inc32 icb)))) by (intros i; by rewrite Nat.iter_succ_r).
  rewrite take_app, Hl, length_drop. unfold xor_bytes. set (K := concat _).
  rewrite <- (take_drop 16 p) at 3. replace (take (length p) (E icb)) with (take (Nat.min (length p) 16) (E icb)) by (destruct (Nat.le_gt_cases 16 (length p)); [rewrite !take_ge by lia|f_equal; lia]; done).
  assert (0 < length p)%nat by (destruct p; [done|cbn; lia]).
  apply zip_with_app. rewrite !length_take. lia.
Qed.
Lemma gctr_length icb p : block icb -> length (gctr E icb p) = length p.
Proof.
  intros Hi. remember (turns p) as n eqn:En. revert p icb Hi En. induction n as [|n IH]; intros p icb Hi En.
  - destruct p; [done|rewrite turns_pos in En by done; discriminate].
  - assert (Np : p <> []) by (intros ->; discriminate). rewrite gctr_step, length_app, IH by (try apply inc32_block; auto; rewrite turns_pos in En by done; by injection En).
    unfold xor_bytes. rewrite length_zip_with, !length_take, length_drop. destruct (HE icb Hi) as [-> _]. lia.
Qed.

Lemma gctr_ok icb p : block icb -> bytes_ok p -> bytes_ok (gctr E icb p).
Proof.
  intros Hi. remember (turns p) as n eqn:En. revert p icb Hi En. induction n as [|n IH]; intros p icb Hi En Hp.
  - destruct p; [done|rewrite turns_pos in En by done; discriminate].
  - assert (Np : p <> []) by (intros ->; discriminate). rewrite gctr_step by assumption. apply Forall_app. split.
    + apply zip_lxor_ok; [apply Forall_take, HE, Hi|by apply Forall_take].
    + apply IH; [by apply inc32_block| |by apply Forall_drop]. rewrite turns_pos in En by done. by injection En.
Qed.

(** Twice is the identity. *)
Lemma gctr_involutive icb p : block icb -> gctr E icb (gctr E icb p) = p.
Proof.
  intros Hi. remember (turns p) as n eqn:En. revert p icb Hi En. induction n as [|n IH]; intros p icb Hi En.
  - destruct p; [done|rewrite turns_pos in En by done; discriminate].
  - assert (Np : p <> []) by (intros ->; discriminate).
    assert (Nc : gctr E icb p <> []) by (intros Z; apply (f_equal length) in Z; rewrite gctr_length in Z by exact Hi; by destruct p).
    rewrite (gctr_step icb (gctr E icb p)), gctr_length by assumption. rewrite (gctr_step icb p Hi Np) at 1 2.
    set (k := take (Nat.min (length p) 16) (E icb)). set (c := xor_bytes k (take 16 p)).
    assert (Lk : length k = length (take 16 p)) by (unfold k; destruct (HE icb Hi) as [W _]; rewrite !length_take, W; lia).
    assert (Lc : length c = length (take 16 p)) by (unfold c; rewrite xor_length by exact Lk; exact Lk).
    destruct (Nat.le_gt_cases 16 (length p)) as [G|L].
    + rewrite take_app_exact, drop_app_exact by (rewrite Lc, length_take; lia).
      rewrite IH by (try apply inc32_block; auto; rewrite turns_pos in En by done; by injection En).
      unfold c. rewrite xor_cancel_l by exact Lk. apply take_drop.
    + rewrite (drop_ge p 16) by lia. change (gctr E (inc32 icb) []) with (@nil Z). rewrite app_nil_r.
      rewrite take_ge, drop_ge by (rewrite Lc, length_take; lia). change (gctr E (inc32 icb) []) with (@nil Z). rewrite app_nil_r.
      unfold c. rewrite xor_cancel_l by exact Lk. by rewrite take_ge by lia.
Qed.
End Counter.

(** ** The context of a key *)

Section Session.
Context {C : Type} {bc : BlockCipher C} (E : bytes -> bytes) (HE : forall b, block b -> block (E b)).


(** The cipher and the tables belong to one key. *)
Definition keyed (ctx : mbedtls_gcm_context C) : Prop :=
  table_of (hash_key E) (HH ctx) (HL ctx) /\ forall b, block b -> cipher_update (cipher_ctx ctx) b = E b.

Definition is_mode (m : Z) : Prop := m = MBEDTLS_GCM_ENCRYPT \/ m = MBEDTLS_GCM_DECRYPT.

(** What is authenticated. *)
Definition ciphertext (m : Z) (input output : bytes) : bytes := if m =? MBEDTLS_GCM_ENCRYPT then output else input.

Lemma hash_key_range : 0 <= hash_key E < 2 ^ 128.
Proof. apply block_range, HE, zeros_block. Qed.

Lemma ciphertext_ok m p q : bytes_ok p -> bytes_ok q -> bytes_ok (ciphertext m p q).
Proof. intros. unfold ciphertext. by case_if. Qed.

Lemma xor_front_block y p : block y -> bytes_ok p -> block (xor_front y (take 16 p)).
Proof.
  intros Hy Hp. destruct p as [|x p].
  - unfold xor_front. rewrite drop_0. exact Hy.
  - rewrite xor_front_pad by done. apply xor_is_block; [exact Hy|by apply pad16_block].
Qed.

Lemma crypt_blocks_ok ctx : keyed ctx -> is_mode (mode ctx) -> forall n p y buf, n = turns p -> block y -> block buf -> bytes_ok p ->
  crypt_blocks n ctx y buf p =
  (gctr E (inc32 y) p, Nat.iter n inc32 y,
   be_bytes 16 (ghash (hash_key E) (be_val buf) (pad16 (ciphertext (mode ctx) p (gctr E (inc32 y) p))))).
Proof.
  intros [Ht Hu] Hm. pose proof hash_key_range as HR.
  induction n as [|n IH]; intros p y buf En Hy Hbuf Hp.
  - destruct p; [|rewrite turns_pos in En by done; discriminate]. unfold ciphertext. case_if; by rewrite ghash_nil, block_bytes by exact Hbuf.
  - assert (Np : p <> []) by (intros ->; discriminate). rewrite (turns_pos p Np) in En. injection En as En.
    cbn [crypt_blocks]. rewrite drop_min, take_min, inc32_code, Hu by (try apply inc32_block; exact Hy).
    pose proof (inc32_block y Hy) as Hy1. set (y1 := inc32 y) in *.
    rewrite (gctr_step E HE y1 p Hy1 Np). set (k := take (Nat.min (length p) 16) (E y1)). set (out := xor_bytes k (take 16 p)).
    assert (Lout : length out = length (take 16 p)).
    { unfold out, k, xor_bytes. rewrite length_zip_with, !length_take. destruct (HE y1 Hy1) as [-> _]. lia. }
    assert (Oout : bytes_ok out) by (apply zip_lxor_ok; [apply Forall_take, HE, Hy1|by apply Forall_take]).
    set (rest := gctr E (inc32 y1) (drop 16 p)).
    set (c := ciphertext (mode ctx) p (out ++ rest)).
    assert (Ec : take 16 c = ciphertext (mode ctx) (take 16 p) out /\ drop 16 c = ciphertext (mode ctx) (drop 16 p) rest).
    { unfold c, ciphertext. case_if; [|done]. destruct (Nat.le_gt_cases 16 (length p)).
      - by rewrite take_app_exact, drop_app_exact by (rewrite Lout, length_take; lia).
      - replace rest with (@nil Z) by (unfold rest; by rewrite drop_ge by lia). rewrite app_nil_r, take_ge, drop_ge by (rewrite Lout, length_take; lia). done. }
    destruct Ec as [Ec1 Ec2].
    assert (Nc : c <> []).
    { unfold c, ciphertext. case_if; [|exact Np]. intros Z. apply (f_equal length) in Z. rewrite length_app, Lout, length_take in Z.
      destruct p; [done|cbn in Z; lia]. }
    assert (Oc : bytes_ok c) by (apply ciphertext_ok; [exact Hp|apply Forall_app; split; [exact Oout|apply gctr_ok; [exact HE|by apply inc32_block|by apply Forall_drop]]]).
    assert (Eb : gcm_mult (HH ctx) (HL ctx)
        (if mode ctx =? MBEDTLS_GCM_ENCRYPT then xor_front (if mode ctx =? MBEDTLS_GCM_DECRYPT then xor_front buf (take 16 p) else buf) out
         else if mode ctx =? MBEDTLS_GCM_DECRYPT then xor_front buf (take 16 p) else buf) =
      be_bytes 16 (gf_mul (Z.lxor (be_val buf) (be_val (pad16 (take 16 c)))) (hash_key E))).
    { rewrite <- (mult_step _ _ _ Ht) by (try apply pad16_block; assumption). rewrite <- xor_front_pad by assumption. rewrite Ec1.
      unfold ciphertext. by destruct Hm as [-> | ->]. }
    rewrite Eb. rewrite IH by (exact En || exact Hy1 || apply be_block || by apply Forall_drop).
    rewrite (pad16_cons c Nc), (ghash_cons _ _ (pad16 (take 16 c))), block_val, Ec2 by
      (first [apply gf_mul_range; exact HR|apply pad16_block; assumption]).
    by rewrite Nat.iter_succ_r.
Qed.
Lemma shiftr61 n : 0 <= n -> (Z.shiftr n 61 =? 0) = (n <? 2 ^ 61).
Proof.
  intros Hn. rewrite Z.shiftr_div_pow2 by lia. destruct (Z.ltb_spec n (2 ^ 61)).
  - rewrite Z.div_small by lia. reflexivity.
  - apply Z.eqb_neq. assert (1 <= n / 2 ^ 61) by (apply Z.div_le_lower_bound; lia). lia.
Qed.

(** The limits of the standard on the vector and the additional data. *)
Definition start_ok (iv aad : bytes) : bool := (0 <? zlen iv) && (zlen iv <? 2 ^ 61) && (zlen aad <? 2 ^ 61).

Lemma J0_block iv : bytes_ok iv -> block (J0 E iv).
Proof.
  intros Hb. unfold J0. destruct (Nat.eqb_spec (length iv) 12) as [L|]; [|apply be_block]. split.
  - rewrite length_app, L. reflexivity.
  - apply Forall_app. split; [exact Hb|bytes_ok_closed].
Qed.

Lemma starts_ok ctx m iv aad : keyed ctx -> bytes_ok iv -> bytes_ok aad ->
  mbedtls_gcm_starts ctx m iv aad =
  if start_ok iv aad
  then Ok (mkGcm (cipher_ctx ctx) (HL ctx) (HH ctx) 0 (zlen aad) (E (J0 E iv)) (J0 E iv) (be_bytes 16 (ghash (hash_key E) 0 (pad16 aad))) m)
  else Err MBEDTLS_ERR_GCM_BAD_INPUT.
Proof.
  intros [Ht Hu] Hiv Haad. pose proof hash_key_range as HR. unfold mbedtls_gcm_starts, start_ok. rewrite !shiftr61 by lia.
  assert (Z0 : (zlen iv =? 0) = negb (0 <? zlen iv)) by (destruct (Z.eqb_spec (zlen iv) 0), (Z.ltb_spec 0 (zlen iv)); cbn; lia || reflexivity).
  rewrite Z0. destruct (0 <? zlen iv); cbn [negb orb andb]; [|reflexivity].
  destruct (zlen iv <? 2 ^ 61); cbn [negb orb andb]; [|reflexivity]. destruct (zlen aad <? 2 ^ 61); cbn [negb orb andb]; [|reflexivity].
  assert (Ej : (if zlen iv =? 12 then <[15%nat := 1]> (put_at zeros 0 iv)
     else gcm_mult (HH ctx) (HL ctx) (xor_bytes (absorb (turns iv) (HH ctx) (HL ctx) zeros iv)
            (put_at zeros 8 (MBEDTLS_PUT_UINT64_BE (u64 (zlen iv * 8)))))) = J0 E iv).
  { unfold J0. replace (zlen iv =? 12) with (length iv =? 12)%nat by (destruct (Nat.eqb_spec (length iv) 12), (Z.eqb_spec (zlen iv) 12); lia || reflexivity).
    destruct (Nat.eqb_spec (length iv) 12) as [L|L]; [by do 12 (destruct iv as [|? iv]; [discriminate|]); destruct iv|].
    rewrite (absorb_ok _ _ _ Ht HR) by (done || apply zeros_block). rewrite put64_be.
    set (w := put_at zeros 8 _). assert (Ew : w = repeat 0 8 ++ be_bytes 8 (8 * zlen iv)).
    { unfold w, put_at. rewrite be_bytes_length. change (drop (8 + 8) zeros) with (@nil Z). rewrite app_nil_r. change (take 8 zeros) with (repeat 0 8).
      f_equal. apply be_bytes_cong. rewrite (Z.mul_comm 8). by apply Z.mod_mod. }
    assert (Bw : block w).
    { rewrite Ew. split; [rewrite length_app, be_bytes_length; reflexivity|]. apply Forall_app. split; [bytes_ok_closed|apply be_bytes_ok]. }
    rewrite (mult_step _ _ _ Ht) by (apply be_block || exact Bw). rewrite block_val by (apply ghash_range; [exact HR|cbn; lia]).
    rewrite <- Ew. rewrite ghash_app by apply pad16_length. by rewrite (ghash_one _ _ w) by apply Bw. }
  rewrite Ej, Hu by (by apply J0_block). rewrite (absorb_ok _ _ _ Ht HR) by (done || apply zeros_block). reflexivity.
Qed.

(** The limit on the text. *)
Definition text_ok (text : bytes) : bool := zlen text <=? 0xFFFFFFFE0.

Lemma update_ok ctx p : keyed ctx -> is_mode (mode ctx) -> len ctx = 0 -> block (y ctx) -> block (buf ctx) -> bytes_ok p -> zlen p < 2 ^ 64 ->
  mbedtls_gcm_update ctx p =
  if text_ok p then
    let output := gctr E (inc32 (y ctx)) p in
    Ok (mkGcm (cipher_ctx ctx) (HL ctx) (HH ctx) (zlen p) (add_len ctx) (base_ectr ctx) (Nat.iter (turns p) inc32 (y ctx))
          (be_bytes 16 (ghash (hash_key E) (be_val (buf ctx)) (pad16 (ciphertext (mode ctx) p output)))) (mode ctx), output)
  else Err MBEDTLS_ERR_GCM_BAD_INPUT.
Proof.
  intros Hk Hm Hl Hy Hb Hp Hz. unfold mbedtls_gcm_update, text_ok. rewrite Hl, Z.add_0_l. unfold u64. rewrite Z.mod_small by lia.
  rewrite (proj2 (Z.ltb_ge _ 0)) by lia. rewrite Z.leb_antisym. cbn [orb]. destruct (0xFFFFFFFE0 <? zlen p); [reflexivity|].
  by rewrite crypt_blocks_ok.
Qed.

(** Cutting at a block changes nothing. *)
Lemma crypt_split ctx b k : forall a y buf, length a = (16 * k)%nat ->
  crypt_blocks (turns (a ++ b)) ctx y buf (a ++ b) =
  let '(oa, y, buf) := crypt_blocks (turns a) ctx y buf a in
  let '(ob, y, buf) := crypt_blocks (turns b) ctx y buf b in (oa ++ ob, y, buf).
Proof.
  induction k as [|k IH]; intros a y0 b0 Ha.
  - destruct a; [|discriminate]. cbn [app turns crypt_blocks]. change (turns []) with 0%nat. cbn [crypt_blocks].
    by destruct (crypt_blocks (turns b) ctx y0 b0 b) as [[? ?] ?].
  - assert (Na : a <> []) by (intros ->; discriminate). assert (Nab : a ++ b <> []) by (intros Z; by destruct a).
    rewrite (turns_pos _ Nab), (turns_pos a Na), (drop_app_le a b 16) by lia. cbn [crypt_blocks].
    rewrite length_app, !Nat.min_r, (take_app_le a b 16), (drop_app_le a b 16) by lia.
    rewrite IH by (rewrite length_drop; lia).
    destruct (crypt_blocks (turns (drop 16 a)) ctx _ _ (drop 16 a)) as [[oa y1] b1].
    destruct (crypt_blocks (turns b) ctx y1 b1 b) as [[ob y2] b2]. by rewrite app_assoc.
Qed.
Lemma crypt_ctx n ctx l al be y1 b1 : forall y buf p,
  crypt_blocks n (mkGcm (cipher_ctx ctx) (HL ctx) (HH ctx) l al be y1 b1 (mode ctx)) y buf p = crypt_blocks n ctx y buf p.
Proof. induction n as [|n IH]; intros y0 b0 p; [done|]. cbn [crypt_blocks cipher_ctx HL HH mode]. by rewrite IH. Qed.

Lemma update_split ctx a b k : length a = (16 * k)%nat -> 0 <= len ctx -> len ctx + zlen (a ++ b) < 2 ^ 64 ->
  mbedtls_gcm_update ctx (a ++ b) =
  ('(ctx1, oa) ← mbedtls_gcm_update ctx a; '(ctx2, ob) ← mbedtls_gcm_update ctx1 b; Ok (ctx2, oa ++ ob)).
Proof.
  intros Ha Hl Hb. rewrite zlen_app in Hb. unfold mbedtls_gcm_update. rewrite zlen_app. unfold u64. rewrite !Z.mod_small by lia.
  rewrite !(proj2 (Z.ltb_ge _ (len ctx))) by lia. cbn [orb].
  destruct (Z.ltb_spec 0xFFFFFFFE0 (len ctx + zlen a)).
  - rewrite (proj2 (Z.ltb_lt _ _)) by lia. reflexivity.
  - rewrite (crypt_split ctx b k) by exact Ha. destruct (crypt_blocks (turns a) ctx (y ctx) (buf ctx) a) as [[oa y1] b1].
    cbn [mbind result_bind len Gcm.y Gcm.buf]. rewrite crypt_ctx, Z.add_assoc, Z.mod_small by lia.
    rewrite (proj2 (Z.ltb_ge _ (len ctx + zlen a))) by lia. cbn [orb].
    destruct (0xFFFFFFFE0 <? len ctx + zlen a + zlen b); [by destruct (crypt_blocks (turns b) ctx y1 b1 b) as [[? ?] ?]|].
    by destruct (crypt_blocks (turns b) ctx y1 b1 b) as [[? ?] ?].
Qed.

(** Every update but the last one is a number of whole blocks. *)
Definition cut_at_blocks (pieces : list bytes) : Prop := Forall (fun p => (length p mod 16 = 0)%nat) (removelast pieces).

Lemma update_nil ctx : 0 <= len ctx <= 0xFFFFFFFE0 -> mbedtls_gcm_update ctx [] = Ok (ctx, []).
Proof.
  intros Hl. unfold mbedtls_gcm_update. cbn [length]. change (Z.of_nat 0) with 0. rewrite Z.add_0_r. unfold u64. rewrite Z.mod_small by lia.
  rewrite (proj2 (Z.ltb_ge _ (len ctx))), (proj2 (Z.ltb_ge _ (len ctx))) by lia. change (turns []) with 0%nat. cbn [orb crypt_blocks]. by destruct ctx.
Qed.

Lemma update_all_concat pieces : forall ctx, cut_at_blocks pieces -> 0 <= len ctx <= 0xFFFFFFFE0 -> len ctx + zlen (concat pieces) < 2 ^ 64 ->
  update_all ctx pieces = mbedtls_gcm_update ctx (concat pieces).
Proof.
  induction pieces as [|p pieces IH]; intros ctx Hc Hl Hb; [by rewrite update_nil|]. cbn [update_all concat] in *.
  destruct pieces as [|q pieces].
  - cbn [concat update_all]. rewrite app_nil_r. destruct (mbedtls_gcm_update ctx p) as [[ctx1 o]|]; [|done]. cbn. by rewrite app_nil_r.
  - unfold cut_at_blocks in Hc. cbn [removelast] in Hc. apply List.Forall_cons_iff in Hc as [Hp Hc].
    rewrite (update_split ctx p _ (length p / 16)) by (lia || (pose proof (Nat.div_mod_eq (length p) 16); lia)).
    rewrite zlen_app in Hb. destruct (mbedtls_gcm_update ctx p) as [[ctx1 o]|e] eqn:Eu; [|done]. cbn [mbind result_bind].
    rewrite IH; [done|exact Hc|..]; unfold mbedtls_gcm_update, u64 in Eu; rewrite Z.mod_small in Eu by lia;
      destruct ((_ <? _) || (_ <? _)) eqn:G in Eu; try discriminate; to_prop; destruct (crypt_blocks _ _ _ _ _) as [[? ?] ?]; injection Eu as <- _; cbn [len]; lia.
Qed.

Lemma gf_mul_0 Y : gf_mul 0 Y = 0.
Proof.
  unfold gf_mul. generalize 128%nat. intros n. revert Y. induction n as [|n IH]; intros Y; [done|]. cbn [mul_bits]. by rewrite Z.testbit_0_l, IH.
Qed.

Lemma gctr_block icb s : block icb -> length s = 16%nat -> gctr E icb s = xor_bytes (E icb) s.
Proof.
  intros Hi Hs. rewrite (gctr_step E HE icb s Hi) by (intros ->; discriminate).
  rewrite (drop_ge s) by lia. change (gctr E (inc32 icb) []) with (@nil Z). rewrite app_nil_r, (take_ge s) by lia.
  rewrite take_ge by (destruct (HE icb Hi) as [-> _]; lia). done.
Qed.

Definition tag_ok (tag_len : Z) : bool := (4 <=? tag_len) && (tag_len <=? 16).

Lemma finish_ok ctx iv aad c tag_len : keyed ctx -> bytes_ok iv -> zlen aad < 2 ^ 61 -> zlen c <= 0xFFFFFFFE0 ->
  len ctx = zlen c -> add_len ctx = zlen aad -> base_ectr ctx = E (J0 E iv) ->
  buf ctx = be_bytes 16 (ghash (hash_key E) 0 (pad16 aad ++ pad16 c)) ->
  ('(_, tag) ← mbedtls_gcm_finish ctx tag_len; Ok tag) =
  if tag_ok tag_len then Ok (take (Z.to_nat tag_len) (gcm_tag E iv aad c)) else Err MBEDTLS_ERR_GCM_BAD_INPUT.
Proof.
  intros [Ht Hu] Hiv Ha Hc El Eal Eb Ebuf. pose proof hash_key_range as HR. unfold mbedtls_gcm_finish, tag_ok. rewrite El, Eal, Eb, Ebuf.
  rewrite (Z.ltb_antisym tag_len 16), (Z.ltb_antisym 4 tag_len).
  destruct (4 <=? tag_len); [|by rewrite orb_true_r]. destruct (tag_len <=? 16); [|done]. cbn [negb orb andb].
  unfold u64. rewrite !Z.mod_small by lia. pose proof (J0_block iv Hiv) as Hj.
  unfold gcm_tag. rewrite gctr_block by (exact Hj || apply be_bytes_length).
  set (w := MBEDTLS_PUT_UINT32_BE _ ++ _). assert (Ew : w = be_bytes 8 (8 * zlen aad) ++ be_bytes 8 (8 * zlen c)).
  { unfold w. rewrite app_assoc, !put64_be_halves by lia. by rewrite !(Z.mul_comm 8). }
  assert (Bw : block w) by (rewrite Ew; split; [rewrite length_app, !be_bytes_length; reflexivity|apply Forall_app; split; apply be_bytes_ok]).
  rewrite (app_assoc (pad16 aad)), <- Ew, (ghash_app _ (pad16 aad ++ pad16 c) w) by (rewrite length_app, Nat.Div0.add_mod, !pad16_length; reflexivity).
  assert (RG : 0 <= ghash (hash_key E) 0 (pad16 aad ++ pad16 c) < 2 ^ 128) by (apply ghash_range; [exact HR|lia]).
  rewrite (ghash_one _ _ w) by apply Bw.
  destruct (Z.eqb_spec (zlen c * 8) 0) as [Zc|Nc], (Z.eqb_spec (zlen aad * 8) 0) as [Za|Na]; cbn [negb orb mbind result_bind].
  1: { destruct c; [|cbn [length] in Zc; lia]. destruct aad; [|cbn [length] in Za; lia]. f_equal. f_equal.
       change (pad16 [] ++ pad16 []) with (@nil Z). rewrite ghash_nil, Ew. change (be_val _) with 0. rewrite Z.lxor_0_l, gf_mul_0.
       symmetry. change (be_bytes 16 0) with (repeat 0 16). destruct (HE _ Hj) as [L _]. rewrite <- L. apply xor_zeros. }
  all: rewrite (mult_step _ _ _ Ht), block_val by (assumption || apply be_block); f_equal; unfold xor_bytes; by rewrite zip_with_take.
Qed.
Definition limits_ok (iv aad text : bytes) (tag_len : Z) : bool := start_ok iv aad && text_ok text && tag_ok tag_len.

Lemma ghash_start aad c : be_bytes 16 (ghash (hash_key E) (be_val (be_bytes 16 (ghash (hash_key E) 0 (pad16 aad)))) (pad16 c)) =
  be_bytes 16 (ghash (hash_key E) 0 (pad16 aad ++ pad16 c)).
Proof.
  rewrite block_val by (apply ghash_range; [apply hash_key_range|lia]). by rewrite ghash_app by apply pad16_length.
Qed.

(** One starts, one update: what the finish meets. *)
Lemma calls_ok ctx m iv aad text tag_len : keyed ctx -> is_mode m -> bytes_ok iv -> bytes_ok aad -> bytes_ok text -> zlen text < 2 ^ 64 ->
  start_ok iv aad = true -> text_ok text = true ->
  exists ctx1 ctx2, mbedtls_gcm_starts ctx m iv aad = Ok ctx1 /\ len ctx1 = 0 /\
    mbedtls_gcm_update ctx1 text = Ok (ctx2, gcm_text E iv text) /\ keyed ctx2 /\
    ('(_, tag) ← mbedtls_gcm_finish ctx2 tag_len; Ok tag) =
    if tag_ok tag_len then Ok (take (Z.to_nat tag_len) (gcm_tag E iv aad (ciphertext m text (gcm_text E iv text)))) else Err MBEDTLS_ERR_GCM_BAD_INPUT.
Proof.
  intros Hk Hm Hiv Haad Ht Hz Hs Hx. pose proof (starts_ok ctx m iv aad Hk Hiv Haad) as S. rewrite Hs in S. pose proof (J0_block iv Hiv) as Hj.
  eexists. eexists. split; [exact S|]. split; [reflexivity|]. rewrite update_ok; cbn [y buf mode len]; try assumption; try reflexivity; try apply be_block.
  rewrite Hx. cbn zeta. split; [reflexivity|]. split; [exact Hk|]. unfold start_ok, text_ok in *. to_prop.
  assert (Lc : length (ciphertext m text (gcm_text E iv text)) = length text).
  { unfold ciphertext. case_if; [|done]. apply gctr_length; [exact HE|by apply inc32_block]. }
  apply finish_ok; cbn [len add_len base_ectr buf cipher_ctx HL HH mode]; rewrite ?Lc; try assumption; try reflexivity; try lia. apply ghash_start.
Qed.

Lemma gcm_calls_ok ctx m iv aad pieces tag_len : keyed ctx -> is_mode m -> bytes_ok iv -> bytes_ok aad -> bytes_ok (concat pieces) ->
  zlen (concat pieces) < 2 ^ 64 -> cut_at_blocks pieces ->
  gcm_calls ctx m iv aad pieces tag_len =
  let text := concat pieces in
  if limits_ok iv aad text tag_len
  then Ok (gcm_text E iv text, take (Z.to_nat tag_len) (gcm_tag E iv aad (ciphertext m text (gcm_text E iv text))))
  else Err MBEDTLS_ERR_GCM_BAD_INPUT.
Proof.
  intros Hk Hm Hiv Haad Ht Hz Hc. cbv zeta. unfold gcm_calls, limits_ok. destruct (start_ok iv aad) eqn:Hs.
  2:{ rewrite starts_ok, Hs by assumption. reflexivity. }
  destruct (text_ok (concat pieces)) eqn:Hx.
  - destruct (calls_ok ctx m iv aad (concat pieces) tag_len Hk Hm Hiv Haad Ht Hz Hs Hx) as (c1 & c2 & E1 & L1 & E2 & _ & E3).
    rewrite E1. cbn [mbind result_bind]. rewrite update_all_concat, E2 by (try assumption; lia). cbn [mbind result_bind andb].
    destruct (mbedtls_gcm_finish c2 tag_len) as [[c3 tag]|e]; cbn [mbind result_bind] in E3 |- *; destruct (tag_ok tag_len); try discriminate.
    + by injection E3 as ->.
    + by injection E3 as ->.
  - pose proof (starts_ok ctx m iv aad Hk Hiv Haad) as S. rewrite Hs in S. rewrite S. cbn [mbind result_bind].
    rewrite update_all_concat by (cbn [len]; try assumption; lia). rewrite update_ok, Hx; cbn [y buf mode len]; try assumption; try reflexivity; try apply be_block.
    by apply J0_block.
Qed.

Lemma auth_decrypt_ok ctx iv aad tag text output0 : keyed ctx -> bytes_ok iv -> bytes_ok aad -> bytes_ok text -> zlen text < 2 ^ 64 ->
  let '(ret, _, output) := mbedtls_gcm_auth_decrypt ctx iv aad tag text output0 in
  (ret, output) =
  if negb (start_ok iv aad && text_ok text) then (MBEDTLS_ERR_GCM_BAD_INPUT, output0)
  else if negb (tag_ok (zlen tag)) then (MBEDTLS_ERR_GCM_BAD_INPUT, gcm_text E iv text)
  else if decide (tag = take (length tag) (gcm_tag E iv aad text)) then (0, gcm_text E iv text)
  else (MBEDTLS_ERR_GCM_AUTH_FAILED, repeat 0 (length text)).
Proof.
  intros Hk Hiv Haad Ht Hz. assert (Hm : is_mode MBEDTLS_GCM_DECRYPT) by (by right). pose proof (J0_block iv Hiv) as Hj.
  unfold mbedtls_gcm_auth_decrypt, mbedtls_gcm_crypt_and_tag. destruct (start_ok iv aad) eqn:Hs.
  2:{ rewrite starts_ok, Hs by assumption. reflexivity. }
  destruct (text_ok text) eqn:Hx.
  2:{ pose proof (starts_ok ctx MBEDTLS_GCM_DECRYPT iv aad Hk Hiv Haad) as S. rewrite Hs in S. rewrite S.
      rewrite update_ok, Hx; cbn [y buf mode len]; try assumption; try reflexivity; try apply be_block. }
  destruct (calls_ok ctx MBEDTLS_GCM_DECRYPT iv aad text (zlen tag) Hk Hm Hiv Haad Ht Hz Hs Hx) as (c1 & c2 & -> & _ & -> & _ & E3).
  cbn [andb negb]. destruct (mbedtls_gcm_finish c2 (zlen tag)) as [[c3 check]|e]; cbn [mbind result_bind] in E3; destruct (tag_ok (zlen tag)) eqn:Hg; try discriminate;
    cbn [negb].
  - injection E3 as ->. change (ciphertext MBEDTLS_GCM_DECRYPT text (gcm_text E iv text)) with text. change (negb (0 =? 0)) with false. cbv iota beta zeta.
    rewrite Nat2Z.id. set (check := take (length tag) (gcm_tag E iv aad text)).
    assert (L : length tag = length check).
    { unfold check. rewrite length_take. unfold gcm_tag. rewrite gctr_length, be_bytes_length by assumption. unfold tag_ok in Hg. to_prop. lia. }
    pose proof (ct_memcmp_zero tag check L) as M. destruct (Z.eqb_spec (mbedtls_ct_memcmp tag check) 0) as [Q|Q]; cbn [negb]; case_decide; tauto.
  - injection E3 as ->. reflexivity.
Qed.
End Session.

Lemma gcm_setkey_keyed {C} {bc : BlockCipher C} {E : bytes -> bytes -> bytes} {laws : BlockCipherLaws C E} (ctx : mbedtls_gcm_context C) key :
  length (HH ctx) = 16%nat -> length (HL ctx) = 16%nat -> bytes_ok key -> cipher_info (8 * zlen key) = true ->
  exists ctx', mbedtls_gcm_setkey ctx key (8 * zlen key) = (0, ctx') /\ keyed (E key) ctx' /\ forall b, block b -> block (E key b).
Proof.
  intros H1 H2 Hb Hi. destruct (cipher_setkey_ok key Hi Hb) as (c & Es & Eu). unfold mbedtls_gcm_setkey. rewrite Hi, Es. cbn [negb].
  change (negb (0 =? 0)) with false. cbv iota. rewrite Eu by apply zeros_block.
  assert (HE : forall b, block b -> block (E key b)) by (intros b; by apply cipher_block).
  pose proof (gen_table_ok (HH ctx) (HL ctx) (E key zeros) H1 H2 (HE _ zeros_block)) as T.
  destruct (gcm_gen_table _ _ _) as [hh hl]. eexists. split; [reflexivity|]. split; [split; [exact T|exact Eu]|exact HE].
Qed.

(** ** Properties *)

(** C18. GCM is the authenticated encryption of NIST SP 800-38D.  For every cipher
    that fulfils its interface, every key, vector, additional data and mode, and
    every cut of a text into updates of whole blocks (the last may be any), the
    output and the tag are those of the standard; parameters outside its limits
    are refused, whatever the context held before. *)
Theorem gcm_correct {C} {bc : BlockCipher C} {E : bytes -> bytes -> bytes} {laws : BlockCipherLaws C E}
    (ctx : mbedtls_gcm_context C) (key iv aad : bytes) (pieces : list bytes) (m tag_len : Z)
    (Hc : length (HH ctx) = 16%nat /\ length (HL ctx) = 16%nat) (Hk : bytes_ok key /\ cipher_info (8 * zlen key) = true)
    (Hb : bytes_ok iv /\ bytes_ok aad /\ bytes_ok (concat pieces)) (Hz : zlen (concat pieces) < 2 ^ 64)
    (Hm : is_mode m) (Hp : cut_at_blocks pieces) :
  let '(ret, ctx) := mbedtls_gcm_setkey ctx key (8 * zlen key) in
  let text := concat pieces in
  let output := gcm_text (E key) iv text in
  ret = 0 /\
  gcm_calls ctx m iv aad pieces tag_len =
  if limits_ok iv aad text tag_len
  then Ok (output, take (Z.to_nat tag_len) (gcm_tag (E key) iv aad (if m =? MBEDTLS_GCM_ENCRYPT then output else text)))
  else Err MBEDTLS_ERR_GCM_BAD_INPUT.
Proof.
  destruct Hc, Hk, Hb as (? & ? & ?). destruct (gcm_setkey_keyed ctx key) as (ctx' & -> & Hk' & HE); try assumption.
  split; [reflexivity|]. by apply (gcm_calls_ok (E key) HE).
Qed.

(** C20. A text is released for its tag only.  Decryption gives the text of the
    standard when the tag of 4 to 16 bytes is the start of the tag of the
    standard, and for every other one reports the failure and zeroes the output;
    what was encrypted comes back.  A tag of another length is refused too, but
    only after the text was written to the output. *)
Theorem gcm_auth_decrypt_correct {C} {bc : BlockCipher C} {E : bytes -> bytes -> bytes} {laws : BlockCipherLaws C E}
    (ctx : mbedtls_gcm_context C) (key iv aad tag text output0 : bytes)
    (Hc : length (HH ctx) = 16%nat /\ length (HL ctx) = 16%nat) (Hk : bytes_ok key /\ cipher_info (8 * zlen key) = true)
    (Hb : bytes_ok iv /\ bytes_ok aad /\ bytes_ok text) (Hz : zlen text < 2 ^ 64) :
  let '(_, ctx) := mbedtls_gcm_setkey ctx key (8 * zlen key) in
  (let '(ret, _, output) := mbedtls_gcm_auth_decrypt ctx iv aad tag text output0 in
   (ret, output) =
   if negb (start_ok iv aad && text_ok text) then (MBEDTLS_ERR_GCM_BAD_INPUT, output0)
   else if negb (tag_ok (zlen tag)) then (MBEDTLS_ERR_GCM_BAD_INPUT, gcm_text (E key) iv text)
   else if decide (tag = take (length tag) (gcm_tag (E key) iv aad text)) then (0, gcm_text (E key) iv text)
   else (MBEDTLS_ERR_GCM_AUTH_FAILED, repeat 0 (length text))) /\
  (forall tag_len, limits_ok iv aad text tag_len = true ->
   let '(ret, ctx, output, tag) := mbedtls_gcm_crypt_and_tag ctx MBEDTLS_GCM_ENCRYPT iv aad text output0 tag_len [] in
   ret = 0 /\
   let '(ret, _, plain) := mbedtls_gcm_auth_decrypt ctx iv aad tag output output0 in ret = 0 /\ plain = text).
Proof.
  destruct Hc, Hk, Hb as (Hiv & Haad & Ht). destruct (gcm_setkey_keyed ctx key) as (ctx' & -> & Hk' & HE); try assumption.
  split; [by apply auth_decrypt_ok|]. intros tag_len Hl. apply andb_true_iff in Hl as [[Hs Hx]%andb_true_iff Hg]. pose proof (J0_block (E key) iv Hiv) as Hj.
  pose proof (inc32_block _ Hj) as Hi.
  destruct (calls_ok (E key) HE ctx' MBEDTLS_GCM_ENCRYPT iv aad text tag_len Hk' (or_introl eq_refl) Hiv Haad Ht Hz) as (c1 & c2 & E1 & _ & E2 & Hk2 & E3); try assumption.
  unfold mbedtls_gcm_crypt_and_tag at 1. rewrite E1, E2.
  destruct (mbedtls_gcm_finish c2 tag_len) as [[c3 tg]|e] eqn:Ef; cbn [mbind result_bind] in E3; rewrite Hg in E3; [|discriminate].
  injection E3 as Etg. split; [reflexivity|].
  assert (Hk3 : keyed (E key) c3).
  { unfold mbedtls_gcm_finish in Ef. repeat case_match; try discriminate; injection Ef as <- _; exact Hk2. }
  assert (Lt : length (gcm_text (E key) iv text) = length text) by (by apply gctr_length).
  pose proof (auth_decrypt_ok (E key) HE c3 iv aad tg (gcm_text (E key) iv text) output0 Hk3 Hiv Haad) as D.
  destruct (mbedtls_gcm_auth_decrypt c3 iv aad tg (gcm_text (E key) iv text) output0) as [[ret c4] plain].
  change (ciphertext MBEDTLS_GCM_ENCRYPT text (gcm_text (E key) iv text)) with (gcm_text (E key) iv text) in Etg.
  assert (Lg : length tg = Z.to_nat tag_len).
  { rewrite Etg, length_take. unfold gcm_tag. rewrite gctr_length, be_bytes_length by assumption. unfold tag_ok in Hg. to_prop. lia. }
  specialize (D ltac:(by apply gctr_ok) ltac:(lia)). rewrite Lg, <- Etg, decide_True in D by done.
  replace (start_ok iv aad && text_ok (gcm_text (E key) iv text)) with true in D by (symmetry; unfold text_ok; rewrite Lt; by apply andb_true_iff).
  rewrite Z2Nat.id, Hg in D by (unfold tag_ok in Hg; to_prop; lia). cbn [negb] in D. injection D as -> ->. split; [reflexivity|]. by apply gctr_involutive.
Qed.

Definition sample_ctx : mbedtls_gcm_context mbedtls_aes_context := snd (mbedtls_gcm_setkey mbedtls_gcm_init sample_key128 128).

Lemma gcm_correct_witness :
  gcm_calls sample_ctx MBEDTLS_GCM_ENCRYPT sample_iv sample_aad [take 16 sample_plain; drop 16 sample_plain] 16 =
  Ok (gcm_text (aes_spec sample_key128) sample_iv sample_plain, gcm_tag (aes_spec sample_key128) sample_iv sample_aad sample_cipher).
Proof.
  pose proof (gcm_correct (C := mbedtls_aes_context) (E := aes_spec) mbedtls_gcm_init sample_key128 sample_iv sample_aad
    [take 16 sample_plain; drop 16 sample_plain] MBEDTLS_GCM_ENCRYPT 16 (conj eq_refl eq_refl)
    ltac:(split; [bytes_ok_closed|reflexivity]) ltac:(split; [bytes_ok_closed|split; bytes_ok_closed]) ltac:(reflexivity) (or_introl eq_refl)
    ltac:(repeat constructor)) as T.
  change (8 * zlen sample_key128) with 128 in T. unfold sample_ctx. destruct (mbedtls_gcm_setkey mbedtls_gcm_init sample_key128 128) as [ret ctx].
  destruct T as [_ T]. etransitivity; [exact T|]. vm_compute. reflexivity.
Defined.

Lemma gcm_auth_decrypt_correct_witness :
  let '(ret, _, output) := mbedtls_gcm_auth_decrypt sample_ctx sample_iv sample_aad (take 15 sample_tag ++ [0]) sample_cipher [] in
  (ret, output) = (MBEDTLS_ERR_GCM_AUTH_FAILED, repeat 0 60).
Proof.
  pose proof (gcm_auth_decrypt_correct (C := mbedtls_aes_context) (E := aes_spec) mbedtls_gcm_init sample_key128 sample_iv sample_aad
    (take 15 sample_tag ++ [0]) sample_cipher [] (conj eq_refl eq_refl)
    ltac:(split; [bytes_ok_closed|reflexivity]) ltac:(split; [bytes_ok_closed|split; bytes_ok_closed]) ltac:(reflexivity)) as T.
  change (8 * zlen sample_key128) with 128 in T. unfold sample_ctx. destruct (mbedtls_gcm_setkey mbedtls_gcm_init sample_key128 128) as [ret ctx].
  destruct T as [T _]. cbn [snd]. destruct (mbedtls_gcm_auth_decrypt ctx _ _ _ _ _) as [[r c] o]. rewrite T. vm_compute. reflexivity.
Defined.

End Gcm.
