(* ===== verification/CtrDrbg.v ===== *)
(** The random generator of the panel's TLS connections (mbedtls/library/ctr_drbg.c):
    CTR_DRBG with AES-256 and a derivation function.  Every course of seeding,
    reseeding, updates and requests, with every outcome of the entropy source,
    gives the states and outputs of NIST SP 800-90A. *)
From S2P Require Import Prelude Words Aes AesModes Blocks.
From stdpp Require Import list.
#[local] Open Scope Z_scope.

(** The callback [f_entropy] with its argument [p_entropy] as a state: [None] when
    it does not return 0. *)
Class EntropySource (P : Type) := f_entropy : P -> nat -> P * option bytes.

(** It fills the buffer it is given. *)
Class EntropyLaws (P : Type) `{EntropySource P} := {
  entropy_fills p n p' b : f_entropy p n = (p', Some b) -> length b = n /\ bytes_ok b;
}.

Module CtrDrbg.
Import Aes AesModes Blocks.

Definition MBEDTLS_ERR_CTR_DRBG_ENTROPY_SOURCE_FAILED : Z := -0x0034.
Definition MBEDTLS_ERR_CTR_DRBG_REQUEST_TOO_BIG : Z := -0x0036.
Definition MBEDTLS_ERR_CTR_DRBG_INPUT_TOO_BIG : Z := -0x0038.
Definition MBEDTLS_CTR_DRBG_BLOCKSIZE : nat := 16.
Definition MBEDTLS_CTR_DRBG_KEYSIZE : nat := 32.
Definition MBEDTLS_CTR_DRBG_KEYBITS : Z := 256.
Definition MBEDTLS_CTR_DRBG_SEEDLEN : nat := MBEDTLS_CTR_DRBG_KEYSIZE + MBEDTLS_CTR_DRBG_BLOCKSIZE.
Definition MBEDTLS_CTR_DRBG_ENTROPY_LEN : Z := 48.
Definition MBEDTLS_CTR_DRBG_RESEED_INTERVAL : Z := 10000.
Definition MBEDTLS_CTR_DRBG_MAX_INPUT : Z := 256.
Definition MBEDTLS_CTR_DRBG_MAX_REQUEST : Z := 1024.
Definition MBEDTLS_CTR_DRBG_MAX_SEED_INPUT : Z := 384.

(** [block_cipher_df]: the buffer with the vector and the string S. *)
Definition df_buffer (data : bytes) : bytes :=
  let buf := repeat 0 (Z.to_nat MBEDTLS_CTR_DRBG_MAX_SEED_INPUT + MBEDTLS_CTR_DRBG_BLOCKSIZE + 16) in
  let buf := put_at buf 16 (MBEDTLS_PUT_UINT32_BE (zlen data)) in
  let buf := put_at buf (16 + 7) [Z.of_nat MBEDTLS_CTR_DRBG_SEEDLEN] in
  let buf := put_at buf (16 + 8) data in
  put_at buf (16 + 8 + length data) [0x80].

(** The chain over [use_len] bytes at [p]; a turn takes up to a block. *)
Fixpoint chain_blocks (fuel : nat) (ctx : mbedtls_aes_context) (chain p : bytes) (use_len : nat) : bytes :=
  match fuel with
  | O => chain
  | S fuel =>
      if (use_len =? 0)%nat then chain
      else
        let chain := xor_bytes chain (take 16 p) in
        chain_blocks fuel ctx (mbedtls_aes_crypt_ecb ctx MBEDTLS_AES_ENCRYPT chain) (drop 16 p)
          (use_len - (if (16 <=? use_len)%nat then 16 else use_len))
  end.

(** [n] turns of the reduction; the counter of the vector is [buf[3]]. *)
Fixpoint reduce (n : nat) (ctx : mbedtls_aes_context) (buf : bytes) (buf_len : nat) : bytes :=
  match n with
  | O => []
  | S n =>
      chain_blocks buf_len ctx (repeat 0 16) buf buf_len ++
      reduce n ctx (<[3%nat := u8 (nth 3 buf 0 + 1)]> buf) buf_len
  end.

Fixpoint spread (n : nat) (ctx : mbedtls_aes_context) (iv : bytes) : bytes :=
  match n with
  | O => []
  | S n => let iv := mbedtls_aes_crypt_ecb ctx MBEDTLS_AES_ENCRYPT iv in iv ++ spread n ctx iv
  end.

Definition block_cipher_df (data : bytes) : result bytes :=
  if MBEDTLS_CTR_DRBG_MAX_SEED_INPUT <? zlen data then Err MBEDTLS_ERR_CTR_DRBG_INPUT_TOO_BIG
  else
    let buf_len := (16 + 8 + length data + 1)%nat in
    let key := map Z.of_nat (seq 0 MBEDTLS_CTR_DRBG_KEYSIZE) in
    let '(ret, ctx) := mbedtls_aes_setkey_enc mbedtls_aes_init key MBEDTLS_CTR_DRBG_KEYBITS in
    if negb (ret =? 0) then Err ret
    else
      let tmp := reduce 3 ctx (df_buffer data) buf_len in
      let '(ret, ctx) := mbedtls_aes_setkey_enc ctx tmp MBEDTLS_CTR_DRBG_KEYBITS in
      if negb (ret =? 0) then Err ret else Ok (spread 3 ctx (take 16 (drop MBEDTLS_CTR_DRBG_KEYSIZE tmp))).

Section Code.
Context {P : Type} `{EntropySource P}.

(** [f_entropy_set]: whether the callback is there, that is, whether
    [mbedtls_ctr_drbg_seed] was called. *)
Record mbedtls_ctr_drbg_context := mkDrbg {
  counter : bytes;
  reseed_counter : Z;
  prediction_resistance : bool;
  entropy_len : Z;
  reseed_interval : Z;
  aes_ctx : mbedtls_aes_context;
  f_entropy_set : bool;
  p_entropy : P;
}.

Definition set_cipher (ctx : mbedtls_ctr_drbg_context) (a : mbedtls_aes_context) (v : bytes) : mbedtls_ctr_drbg_context :=
  mkDrbg v (reseed_counter ctx) (prediction_resistance ctx) (entropy_len ctx) (reseed_interval ctx) a (f_entropy_set ctx) (p_entropy ctx).

Definition set_reseed_counter (ctx : mbedtls_ctr_drbg_context) (n : Z) : mbedtls_ctr_drbg_context :=
  mkDrbg (counter ctx) n (prediction_resistance ctx) (entropy_len ctx) (reseed_interval ctx) (aes_ctx ctx) (f_entropy_set ctx) (p_entropy ctx).

Definition set_p_entropy (ctx : mbedtls_ctr_drbg_context) (p : P) : mbedtls_ctr_drbg_context :=
  mkDrbg (counter ctx) (reseed_counter ctx) (prediction_resistance ctx) (entropy_len ctx) (reseed_interval ctx) (aes_ctx ctx) (f_entropy_set ctx) p.

Definition mbedtls_ctr_drbg_init (p : P) : mbedtls_ctr_drbg_context :=
  mkDrbg (repeat 0 16) (-1) false 0 MBEDTLS_CTR_DRBG_RESEED_INTERVAL mbedtls_aes_init false p.

Definition mbedtls_ctr_drbg_set_prediction_resistance (ctx : mbedtls_ctr_drbg_context) (resistance : bool) : mbedtls_ctr_drbg_context :=
  mkDrbg (counter ctx) (reseed_counter ctx) resistance (entropy_len ctx) (reseed_interval ctx) (aes_ctx ctx) (f_entropy_set ctx) (p_entropy ctx).

Definition mbedtls_ctr_drbg_set_entropy_len (ctx : mbedtls_ctr_drbg_context) (len : Z) : mbedtls_ctr_drbg_context :=
  mkDrbg (counter ctx) (reseed_counter ctx) (prediction_resistance ctx) len (reseed_interval ctx) (aes_ctx ctx) (f_entropy_set ctx) (p_entropy ctx).

Definition mbedtls_ctr_drbg_set_nonce_len (ctx : mbedtls_ctr_drbg_context) (len : Z) : Z * mbedtls_ctr_drbg_context :=
  if f_entropy_set ctx then (MBEDTLS_ERR_CTR_DRBG_ENTROPY_SOURCE_FAILED, ctx)
  else if MBEDTLS_CTR_DRBG_MAX_SEED_INPUT <? len then (MBEDTLS_ERR_CTR_DRBG_INPUT_TOO_BIG, ctx)
  else (0, set_reseed_counter ctx len).

Definition mbedtls_ctr_drbg_set_reseed_interval (ctx : mbedtls_ctr_drbg_context) (interval : Z) : mbedtls_ctr_drbg_context :=
  mkDrbg (counter ctx) (reseed_counter ctx) (prediction_resistance ctx) (entropy_len ctx) interval (aes_ctx ctx) (f_entropy_set ctx) (p_entropy ctx).

(** The blocks for [n] incremented counters, and the last counter. *)
Fixpoint counter_blocks (n : nat) (ctx : mbedtls_aes_context) (v : bytes) : bytes * bytes :=
  match n with
  | O => ([], v)
  | S n =>
      let v := next_counter v in
      let b := mbedtls_aes_crypt_ecb ctx MBEDTLS_AES_ENCRYPT v in
      let '(rest, v) := counter_blocks n ctx v in (b ++ rest, v)
  end.

Definition ctr_drbg_update_internal (ctx : mbedtls_ctr_drbg_context) (data : bytes) : Z * mbedtls_ctr_drbg_context :=
  let '(tmp, v) := counter_blocks 3 (aes_ctx ctx) (counter ctx) in
  let tmp := xor_bytes tmp data in
  let '(ret, a) := mbedtls_aes_setkey_enc (aes_ctx ctx) tmp MBEDTLS_CTR_DRBG_KEYBITS in
  if negb (ret =? 0) then (ret, set_cipher ctx a v)
  else (0, set_cipher ctx a (take 16 (drop MBEDTLS_CTR_DRBG_KEYSIZE tmp))).

Definition mbedtls_ctr_drbg_update_ret (ctx : mbedtls_ctr_drbg_context) (additional : bytes) : Z * mbedtls_ctr_drbg_context :=
  if zlen additional =? 0 then (0, ctx)
  else
    match block_cipher_df additional with
    | Err ret => (ret, ctx)
    | Ok add_input => ctr_drbg_update_internal ctx add_input
    end.

(** [len] bytes of [additional], which is empty for a null pointer. *)
Definition mbedtls_ctr_drbg_reseed_internal (ctx : mbedtls_ctr_drbg_context) (additional : bytes) (nonce_len : Z) :
    Z * mbedtls_ctr_drbg_context :=
  let len := zlen additional in
  if MBEDTLS_CTR_DRBG_MAX_SEED_INPUT <? entropy_len ctx then (MBEDTLS_ERR_CTR_DRBG_INPUT_TOO_BIG, ctx)
  else if MBEDTLS_CTR_DRBG_MAX_SEED_INPUT - entropy_len ctx <? nonce_len then (MBEDTLS_ERR_CTR_DRBG_INPUT_TOO_BIG, ctx)
  else if MBEDTLS_CTR_DRBG_MAX_SEED_INPUT - entropy_len ctx - nonce_len <? len then (MBEDTLS_ERR_CTR_DRBG_INPUT_TOO_BIG, ctx)
  else
    let '(p, e) := f_entropy (p_entropy ctx) (Z.to_nat (entropy_len ctx)) in
    let ctx := set_p_entropy ctx p in
    match e with
    | None => (MBEDTLS_ERR_CTR_DRBG_ENTROPY_SOURCE_FAILED, ctx)
    | Some entropy =>
        let '(p, nonce) := if negb (nonce_len =? 0) then f_entropy p (Z.to_nat nonce_len) else (p, Some []) in
        let ctx := set_p_entropy ctx p in
        match nonce with
        | None => (MBEDTLS_ERR_CTR_DRBG_ENTROPY_SOURCE_FAILED, ctx)
        | Some nonce =>
            match block_cipher_df (entropy ++ nonce ++ additional) with
            | Err ret => (ret, ctx)
            | Ok seed =>
                let '(ret, ctx) := ctr_drbg_update_internal ctx seed in
                if negb (ret =? 0) then (ret, ctx) else (0, set_reseed_counter ctx 1)
            end
        end
    end.

Definition mbedtls_ctr_drbg_reseed (ctx : mbedtls_ctr_drbg_context) (additional : bytes) : Z * mbedtls_ctr_drbg_context :=
  mbedtls_ctr_drbg_reseed_internal ctx additional 0.

Definition good_nonce_len (entropy_len : Z) : Z :=
  if Z.of_nat MBEDTLS_CTR_DRBG_KEYSIZE * 3 / 2 <=? entropy_len then 0 else (entropy_len + 1) / 2.

Definition mbedtls_ctr_drbg_seed (ctx : mbedtls_ctr_drbg_context) (p : P) (custom : bytes) : Z * mbedtls_ctr_drbg_context :=
  let key := repeat 0 MBEDTLS_CTR_DRBG_KEYSIZE in
  let ctx := mkDrbg (counter ctx) (reseed_counter ctx) (prediction_resistance ctx)
    (if entropy_len ctx =? 0 then MBEDTLS_CTR_DRBG_ENTROPY_LEN else entropy_len ctx) (reseed_interval ctx) mbedtls_aes_init true p in
  let nonce_len := if 0 <=? reseed_counter ctx then reseed_counter ctx else good_nonce_len (entropy_len ctx) in
  let '(ret, a) := mbedtls_aes_setkey_enc (aes_ctx ctx) key MBEDTLS_CTR_DRBG_KEYBITS in
  let ctx := set_cipher ctx a (counter ctx) in
  if negb (ret =? 0) then (ret, ctx) else mbedtls_ctr_drbg_reseed_internal ctx custom nonce_len.

(** The return value, the context and the output, which held [output0]. *)
Definition mbedtls_ctr_drbg_random_with_add (ctx : mbedtls_ctr_drbg_context) (output0 : bytes) (output_len : Z) (additional : bytes) :
    Z * mbedtls_ctr_drbg_context * bytes :=
  if MBEDTLS_CTR_DRBG_MAX_REQUEST <? output_len then (MBEDTLS_ERR_CTR_DRBG_REQUEST_TOO_BIG, ctx, output0)
  else if MBEDTLS_CTR_DRBG_MAX_INPUT <? zlen additional then (MBEDTLS_ERR_CTR_DRBG_INPUT_TOO_BIG, ctx, output0)
  else
    let must_reseed := (reseed_interval ctx <? reseed_counter ctx) || prediction_resistance ctx in
    let '(ret, ctx) := if must_reseed then mbedtls_ctr_drbg_reseed ctx additional else (0, ctx) in
    if negb (ret =? 0) then (ret, ctx, output0)
    else
      let additional := if must_reseed then [] else additional in
      let '(ret, ctx, add_input) :=
        if 0 <? zlen additional then
          match block_cipher_df additional with
          | Err ret => (ret, ctx, repeat 0 MBEDTLS_CTR_DRBG_SEEDLEN)
          | Ok add_input => (ctr_drbg_update_internal ctx add_input, add_input)
          end
        else (0, ctx, repeat 0 MBEDTLS_CTR_DRBG_SEEDLEN) in
      if negb (ret =? 0) then (ret, ctx, output0)
      else
        let '(blocks, v) := counter_blocks (Z.to_nat ((output_len + 15) / 16)) (aes_ctx ctx) (counter ctx) in
        let ctx := set_cipher ctx (aes_ctx ctx) v in
        let output := take (Z.to_nat output_len) blocks in
        let '(ret, ctx) := ctr_drbg_update_internal ctx add_input in
        if negb (ret =? 0) then (ret, ctx, output)
        else (0, set_reseed_counter ctx (s32 (reseed_counter ctx + 1)), output).

(** Without threads. *)
Definition mbedtls_ctr_drbg_random (ctx : mbedtls_ctr_drbg_context) (output0 : bytes) (output_len : Z) :
    Z * mbedtls_ctr_drbg_context * bytes :=
  mbedtls_ctr_drbg_random_with_add ctx output0 output_len [].
End Code.
Arguments mbedtls_ctr_drbg_context : clear implicits.

(** ** Courses of calls *)

Inductive call :=
| Reseed (additional : bytes)
| Update (additional : bytes)
| Random (output_len : Z) (additional : bytes)
| Set_reseed_interval (interval : Z)
| Set_prediction_resistance (resistance : bool)
| Set_entropy_len (len : Z).

Section Calls.
Context {P : Type} `{EntropySource P}.

(** What a call returns and writes. *)
Definition call_code (c : call) (ctx : mbedtls_ctr_drbg_context P) : mbedtls_ctr_drbg_context P * (Z * bytes) :=
  match c with
  | Reseed additional => let '(ret, ctx) := mbedtls_ctr_drbg_reseed ctx additional in (ctx, (ret, []))
  | Update additional => let '(ret, ctx) := mbedtls_ctr_drbg_update_ret ctx additional in (ctx, (ret, []))
  | Random n additional => let '(ret, ctx, output) := mbedtls_ctr_drbg_random_with_add ctx [] n additional in (ctx, (ret, output))
  | Set_reseed_interval interval => (mbedtls_ctr_drbg_set_reseed_interval ctx interval, (0, []))
  | Set_prediction_resistance r => (mbedtls_ctr_drbg_set_prediction_resistance ctx r, (0, []))
  | Set_entropy_len len => (mbedtls_ctr_drbg_set_entropy_len ctx len, (0, []))
  end.

Fixpoint calls_code (cs : list call) (ctx : mbedtls_ctr_drbg_context P) : list (Z * bytes) :=
  match cs with
  | [] => []
  | c :: cs => let '(ctx, r) := call_code c ctx in r :: calls_code cs ctx
  end.

(** A new context, with a length of the entropy (0 for the default) and possibly
    of the nonce, then the seed and the calls, whatever the seed returned. *)
Definition session_code (p : P) (len : Z) (nonce : option Z) (custom : bytes) (cs : list call) : Z * list (Z * bytes) :=
  let ctx := mbedtls_ctr_drbg_set_entropy_len (mbedtls_ctr_drbg_init p) len in
  let ctx := match nonce with Some n => snd (mbedtls_ctr_drbg_set_nonce_len ctx n) | None => ctx end in
  let '(ret, ctx) := mbedtls_ctr_drbg_seed ctx p custom in
  (ret, calls_code cs ctx).
End Calls.

(** ** NIST SP 800-90A, sections 10.2.1 and 10.3.2 *)

Definition bcc (E : bytes -> bytes) (data : bytes) : bytes :=
  fold_left (fun chain block => E (xor_bytes chain block)) (blocks16 (length data / 16) data) (repeat 0 16).

Definition df (input : bytes) : bytes :=
  let S := pad16 (be_bytes 4 (zlen input) ++ be_bytes 4 48 ++ input ++ [0x80]) in
  let E := aes_spec (map Z.of_nat (seq 0 32)) in
  let temp := concat (map (fun i => bcc E (be_bytes 4 i ++ repeat 0 12 ++ S)) [0; 1; 2]) in
  let E := aes_spec (take 32 temp) in
  let X1 := E (drop 32 temp) in
  let X2 := E X1 in
  X1 ++ X2 ++ E X2.

Record Working := mkWorking { Key : bytes; V : bytes; count : Z }.

(** The [i]-th next block. *)
Definition next_block (w : Working) (i : nat) : bytes := aes_spec (Key w) (be_bytes 16 (be_val (V w) + Z.of_nat i)).

Definition update (provided : bytes) (w : Working) : Working :=
  let temp := xor_bytes (next_block w 1 ++ next_block w 2 ++ next_block w 3) provided in
  mkWorking (take 32 temp) (drop 32 temp) (count w).

Definition unseeded (count : Z) : Working := mkWorking (repeat 0 32) (repeat 0 16) count.

Definition instantiate (entropy nonce personalization : bytes) : Working :=
  let w := update (df (entropy ++ nonce ++ personalization)) (unseeded 1) in mkWorking (Key w) (V w) 1.

Definition reseed (entropy additional : bytes) (w : Working) : Working :=
  let w := update (df (entropy ++ additional)) w in mkWorking (Key w) (V w) 1.

Definition generate (n : nat) (additional : bytes) (w : Working) : bytes * Working :=
  let data := match additional with [] => repeat 0 48 | _ => df additional end in
  let w := match additional with [] => w | _ => update data w end in
  let blocks := ((n + 15) / 16)%nat in
  let output := take n (concat (map (next_block w) (seq 1 blocks))) in
  let w := update data (mkWorking (Key w) (be_bytes 16 (be_val (V w) + Z.of_nat blocks)) (count w)) in
  (output, mkWorking (Key w) (V w) (count w + 1)).

Section Spec.
Context {P : Type} `{EntropySource P}.

(** The working state and what governs the reseeding. *)
Record Generator := mkGenerator {
  working : Working;
  interval : Z;
  prediction : bool;
  entropy_bytes : Z;
  source : P;
}.

Definition with_working (g : Generator) (w : Working) (p : P) : Generator :=
  mkGenerator w (interval g) (prediction g) (entropy_bytes g) p.

Definition spec_reseed (additional : bytes) (g : Generator) : Z * Generator :=
  if 384 <? entropy_bytes g + zlen additional then (MBEDTLS_ERR_CTR_DRBG_INPUT_TOO_BIG, g)
  else
    match f_entropy (source g) (Z.to_nat (entropy_bytes g)) with
    | (p, None) => (MBEDTLS_ERR_CTR_DRBG_ENTROPY_SOURCE_FAILED, with_working g (working g) p)
    | (p, Some entropy) => (0, with_working g (reseed entropy additional (working g)) p)
    end.

Definition spec_random (n : Z) (additional : bytes) (g : Generator) : Generator * (Z * bytes) :=
  if 1024 <? n then (g, (MBEDTLS_ERR_CTR_DRBG_REQUEST_TOO_BIG, []))
  else if 256 <? zlen additional then (g, (MBEDTLS_ERR_CTR_DRBG_INPUT_TOO_BIG, []))
  else
    let must_reseed := (interval g <? count (working g)) || prediction g in
    let '(ret, g) := if must_reseed then spec_reseed additional g else (0, g) in
    if ret =? 0 then
      let '(output, w) := generate (Z.to_nat n) (if must_reseed then [] else additional) (working g) in
      (with_working g w (source g), (0, output))
    else (g, (ret, [])).

Definition call_spec (c : call) (g : Generator) : Generator * (Z * bytes) :=
  match c with
  | Reseed additional => let '(ret, g) := spec_reseed additional g in (g, (ret, []))
  | Update additional =>
      if 384 <? zlen additional then (g, (MBEDTLS_ERR_CTR_DRBG_INPUT_TOO_BIG, []))
      else (with_working g (match additional with [] => working g | _ => update (df additional) (working g) end) (source g), (0, []))
  | Random n additional => spec_random n additional g
  | Set_reseed_interval i => (mkGenerator (working g) i (prediction g) (entropy_bytes g) (source g), (0, []))
  | Set_prediction_resistance r => (mkGenerator (working g) (interval g) r (entropy_bytes g) (source g), (0, []))
  | Set_entropy_len len => (mkGenerator (working g) (interval g) (prediction g) len (source g), (0, []))
  end.

Fixpoint calls_spec (cs : list call) (g : Generator) : list (Z * bytes) :=
  match cs with
  | [] => []
  | c :: cs => let '(g, r) := call_spec c g in r :: calls_spec cs g
  end.

(** Without a nonce of its own the entropy counts for both, if it is long enough. *)
Definition default_nonce (entropy_bytes : Z) : Z := if 48 <=? entropy_bytes then 0 else (entropy_bytes + 1) / 2.

(** The nonce that was asked for; a longer one than the limit is refused. *)
Definition asked_nonce (nonce : option Z) : option Z :=
  match nonce with Some n => if 384 <? n then None else Some n | None => None end.

Definition spec_seed (p : P) (len : Z) (nonce : option Z) (custom : bytes) : Z * Generator :=
  let e := if len =? 0 then 48 else len in
  let n := match asked_nonce nonce with Some n => n | None => default_nonce e end in
  let gen w p := mkGenerator w 10000 false e p in
  let none := unseeded (match asked_nonce nonce with Some n => n | None => -1 end) in
  if 384 <? e + n + zlen custom then (MBEDTLS_ERR_CTR_DRBG_INPUT_TOO_BIG, gen none p)
  else
    match f_entropy p (Z.to_nat e) with
    | (p, None) => (MBEDTLS_ERR_CTR_DRBG_ENTROPY_SOURCE_FAILED, gen none p)
    | (p, Some entropy) =>
        match (if n =? 0 then (p, Some []) else f_entropy p (Z.to_nat n)) with
        | (p, None) => (MBEDTLS_ERR_CTR_DRBG_ENTROPY_SOURCE_FAILED, gen none p)
        | (p, Some nonce) => (0, gen (instantiate entropy nonce custom) p)
        end
    end.

Definition session_spec (p : P) (len : Z) (nonce : option Z) (custom : bytes) (cs : list call) : Z * list (Z * bytes) :=
  let '(ret, g) := spec_seed p len nonce custom in (ret, calls_spec cs g).
End Spec.
Arguments Generator : clear implicits.

(** ** The test vector of the source *)

(** A source that has a fixed string, and fails at its end. *)
#[export] Instance string_source : EntropySource bytes :=
  fun p n => if (n <=? length p)%nat then (drop n p, Some (map u8 (take n p))) else (p, None).

Definition entropy_source_nopr : bytes := [0x4c; 0xfb; 0x21; 0x86; 0x73; 0x34; 0x6d; 0x9d; 0x50; 0xc9; 0x22; 0xe4; 0x9b; 0x0d; 0xfc; 0xd0; 0x90; 0xad; 0xf0; 0x4f; 0x5c; 0x3b; 0xa4; 0x73; 0x27; 0xdf; 0xcd; 0x6f; 0xa6; 0x3a; 0x78; 0x5c; 0x01; 0x69; 0x62; 0xa7; 0xfd; 0x27; 0x87; 0xa2; 0x4b; 0xf6; 0xbe; 0x47; 0xef; 0x37; 0x83; 0xf1; 0xb7; 0xec; 0x46; 0x07; 0x23; 0x63; 0x83; 0x4a; 0x1b; 0x01; 0x33; 0xf2; 0xc2; 0x38; 0x91; 0xdb; 0x4f; 0x11; 0xa6; 0x86; 0x51; 0xf2; 0x3e; 0x3a; 0x8b; 0x1f; 0xdc; 0x03; 0xb1; 0x92; 0xc7; 0xe7].
Definition pers_nopr : bytes := [0x88; 0xee; 0xb8; 0xe0; 0xe8; 0x3b; 0xf3; 0x29; 0x4b; 0xda; 0xcd; 0x60; 0x99; 0xeb; 0xe4; 0xbf; 0x55; 0xec; 0xd9; 0x11; 0x3f; 0x71; 0xe5; 0xeb; 0xcb; 0x45; 0x75; 0xf3; 0xd6; 0xa6; 0x8a; 0x6b].
Definition result_nopr : bytes := [0xa5; 0x51; 0x80; 0xa1; 0x90; 0xbe; 0xf3; 0xad; 0xaf; 0x28; 0xf6; 0xb7; 0x95; 0xe9; 0xf1; 0xf3; 0xd6; 0xdf; 0xa1; 0xb2; 0x7d; 0xd0; 0x46; 0x7b; 0x0c; 0x75; 0xf5; 0xfa; 0x93; 0x1e; 0x97; 0x14; 0x75; 0xb2; 0x7c; 0xae; 0x03; 0xa2; 0x96; 0x54; 0xe2; 0xf4; 0x09; 0x66; 0xea; 0x33; 0x64; 0x30; 0x40; 0xd1; 0x40; 0x0f; 0xe6; 0x77; 0x87; 0x3a; 0xf8; 0x09; 0x7c; 0x1f; 0xe9; 0xf0; 0x02; 0x98].
Definition sample_calls : list call := [Reseed []; Random 64 []; Random 64 []].

Example self_test :
  session_code entropy_source_nopr 32 (Some 16) pers_nopr sample_calls = session_spec entropy_source_nopr 32 (Some 16) pers_nopr sample_calls /\
  nth 2 (snd (session_code entropy_source_nopr 32 (Some 16) pers_nopr sample_calls)) (1, []) = (0, result_nopr).
Proof. vm_compute. split; reflexivity. Qed.

(** ** The derivation function *)

Lemma setkey256 c tmp : bytes_ok tmp -> (32 <= length tmp)%nat ->
  exists a, mbedtls_aes_setkey_enc c tmp MBEDTLS_CTR_DRBG_KEYBITS = (0, a) /\ enc_ctx (take 32 tmp) a.
Proof.
  intros Hb Hl. assert (Hk : key_ok (take 32 tmp)) by (split; [by apply Forall_take|rewrite length_take; lia]).
  destruct (setkey_enc_schedule c (take 32 tmp) Hk) as (n & rk & E & _).
  assert (L : zlen (take 32 tmp) = 32) by (rewrite length_take; lia). eexists. split; [|split; [exact Hk|by exists c]].
  rewrite <- E, L. change MBEDTLS_CTR_DRBG_KEYBITS with (8 * Z.of_nat 32). rewrite <- (setkey_enc_take c tmp 32) by (lia || auto). reflexivity.
Qed.

Lemma put_at_zeros pre n src : (length src <= n)%nat ->
  put_at (pre ++ repeat 0 n) (length pre) src = (pre ++ src) ++ repeat 0 (n - length src).
Proof.
  intros Hn. unfold put_at. rewrite take_app_exact, <- drop_drop, drop_app_exact, <- app_assoc by done. do 2 f_equal.
  replace n with (length src + (n - length src))%nat at 1 by lia. rewrite repeat_app. apply drop_app_exact. by rewrite repeat_length.
Qed.

Definition df_string (data : bytes) : bytes := be_bytes 4 (zlen data) ++ be_bytes 4 48 ++ data ++ [0x80].

Lemma df_string_length data : length (df_string data) = (9 + length data)%nat.
Proof. unfold df_string. rewrite !length_app, !be_bytes_length. cbn [length]. lia. Qed.

Lemma df_buffer_eq data : zlen data <= 384 ->
  exists k, df_buffer data = repeat 0 16 ++ pad16 (df_string data) ++ repeat 0 k.
Proof.
  intros Hl. unfold df_buffer. rewrite put32_be. 
  replace (repeat 0 (Z.to_nat MBEDTLS_CTR_DRBG_MAX_SEED_INPUT + _ + 16)) with (repeat 0 16 ++ repeat 0 400) by reflexivity.
  rewrite (put_at_zeros (repeat 0 16) 400) by (rewrite be_bytes_length; lia). rewrite be_bytes_length.
  set (L := be_bytes 4 (zlen data)). assert (LL : length L = 4%nat) by apply be_bytes_length.
  change (repeat 0 (400 - 4)) with (repeat 0 3 ++ repeat 0 393). rewrite (app_assoc _ (repeat 0 3)).
  assert (P1 : length ((repeat 0 16 ++ L) ++ repeat 0 3) = (16 + 7)%nat) by (rewrite !length_app, LL; reflexivity).
  rewrite <- P1, put_at_zeros by (cbn [length]; lia). cbn [length].
  assert (P2 : length (((repeat 0 16 ++ L) ++ repeat 0 3) ++ [Z.of_nat MBEDTLS_CTR_DRBG_SEEDLEN]) = (16 + 8)%nat) by (rewrite !length_app, LL; reflexivity).
  rewrite <- P2, put_at_zeros by lia.
  rewrite <- length_app, put_at_zeros by (cbn [length]; lia). cbn [length].
  exists (400 - 16 * turns (df_string data))%nat. unfold pad16, df_string.
  assert (T : (16 * turns (df_string data) <= 400)%nat /\ (length (df_string data) <= 16 * turns (df_string data))%nat).
  { unfold turns. rewrite df_string_length. pose proof (Nat.div_mod_eq (9 + length data + 15) 16).
    pose proof (Nat.mod_upper_bound (9 + length data + 15) 16). lia. }
  fold (df_string data). rewrite df_string_length in *. rewrite <- !app_assoc.
  replace (repeat 0 (16 * turns (df_string data) - (9 + length data)) ++ repeat 0 (400 - 16 * turns (df_string data)))
    with (repeat 0 (393 - 1 - length data - 1)) by (rewrite <- repeat_app; f_equal; lia).
  unfold df_string. rewrite <- !app_assoc. reflexivity.
Qed.

Lemma blocks16_prefix n : forall a b : bytes, (16 * n <= length a)%nat -> blocks16 n (a ++ b) = blocks16 n a.
Proof.
  induction n as [|n IH]; intros a b Hl; [done|]. cbn [blocks16]. rewrite take_app_le, drop_app_le by lia. f_equal. apply IH.
  rewrite length_drop. lia.
Qed.

Section Chain.
Context (key : bytes) (a : mbedtls_aes_context) (Ha : enc_ctx key a).

Lemma key_gives_block s : block s -> block (aes_spec key s).
Proof. apply aes_spec_block, Ha. Qed.

Lemma chain_blocks_ok fuel : forall use_len chain p, (use_len <= fuel)%nat -> block chain -> bytes_ok p ->
  (16 * ((use_len + 15) / 16) <= length p)%nat ->
  chain_blocks fuel a chain p use_len =
  fold_left (fun c b => aes_spec key (xor_bytes c b)) (blocks16 ((use_len + 15) / 16) p) chain.
Proof.
  induction fuel as [|fuel IH]; intros use_len chain p Hf Hc Hp Hl.
  - replace use_len with 0%nat by lia. reflexivity.
  - cbn [chain_blocks]. destruct (Nat.eqb_spec use_len 0) as [->|Hz]; [reflexivity|].
    set (u := (use_len - (if (16 <=? use_len)%nat then 16 else use_len))%nat).
    assert (E : ((use_len + 15) / 16 = S ((u + 15) / 16))%nat).
    { unfold u. destruct (Nat.leb_spec 16 use_len).
      - replace (use_len + 15)%nat with (use_len - 16 + 15 + 1 * 16)%nat by lia. rewrite Nat.div_add by lia. lia.
      - rewrite Nat.sub_diag. symmetry. apply (Nat.div_unique _ 16 1 (use_len - 1)); cbn; lia. }
    assert (Hu : (u < use_len)%nat) by (unfold u; destruct (Nat.leb_spec 16 use_len); lia).
    rewrite E in *. cbn [blocks16 fold_left].
    assert (Hb : block (xor_bytes chain (take 16 p))) by (apply xor_is_block; [exact Hc|apply take_block; [exact Hp|lia]]).
    rewrite (enc_ctx_ecb key a _ Ha Hb). apply IH; [lia|by apply key_gives_block|by apply Forall_drop|rewrite length_drop; lia].
Qed.

Lemma bcc_block data : (length data mod 16 = 0)%nat -> bytes_ok data -> block (bcc (aes_spec key) data).
Proof.
  intros Hd Hb. unfold bcc.
  assert (F : Forall block (blocks16 (length data / 16) data)) by (apply blocks16_input; [exact Hb|pose proof (Nat.div_mod_eq (length data) 16); lia]).
  revert F. generalize (blocks16 (length data / 16) data). intros l F.
  assert (Hc : block (repeat 0 16)) by apply zeros_block. revert Hc. generalize (repeat 0 16). induction F as [|x l Hx _ IH]; intros c Hc; [exact Hc|].
  cbn [fold_left]. apply IH, key_gives_block, xor_is_block; assumption.
Qed.
End Chain.

Definition df_key : bytes := map Z.of_nat (seq 0 32).

Lemma df_string_ok data : bytes_ok data -> bytes_ok (df_string data).
Proof.
  intros H. unfold df_string. rewrite !Forall_app. repeat split; [apply be_bytes_ok..|exact H|]. constructor; [unfold is_byte; lia|constructor].
Qed.

Lemma pad16_ok s : bytes_ok s -> bytes_ok (pad16 s).
Proof. intros H. apply Forall_app. split; [exact H|apply bytes_ok_zeros]. Qed.

(** One turn of the reduction. *)
Lemma reduce_turn a data i k : enc_ctx df_key a -> bytes_ok data -> 
  chain_blocks (16 + 8 + length data + 1) a (repeat 0 16) (be_bytes 4 i ++ repeat 0 12 ++ pad16 (df_string data) ++ repeat 0 k) (16 + 8 + length data + 1) =
  bcc (aes_spec df_key) (be_bytes 4 i ++ repeat 0 12 ++ pad16 (df_string data)).
Proof.
  intros Ha Hd. set (A := be_bytes 4 i ++ repeat 0 12 ++ pad16 (df_string data)).
  assert (LA : length A = (16 * (1 + turns (df_string data)))%nat).
  { unfold A, pad16. rewrite !length_app, be_bytes_length, !repeat_length. unfold turns. rewrite df_string_length.
    pose proof (Nat.div_mod_eq (9 + length data + 15) 16). pose proof (Nat.mod_upper_bound (9 + length data + 15) 16). lia. }
  assert (K : ((16 + 8 + length data + 1 + 15) / 16 = 1 + turns (df_string data))%nat).
  { unfold turns. rewrite df_string_length. replace (16 + 8 + length data + 1 + 15)%nat with (9 + length data + 15 + 1 * 16)%nat by lia.
    rewrite Nat.div_add by lia. lia. }
  assert (OA : bytes_ok A) by (unfold A; rewrite !Forall_app; repeat split; [apply be_bytes_ok|apply bytes_ok_zeros|by apply pad16_ok, df_string_ok]).
  replace (be_bytes 4 i ++ _) with (A ++ repeat 0 k) by (unfold A; by rewrite <- !app_assoc).
  rewrite (chain_blocks_ok df_key a Ha); [|lia|apply zeros_block|apply Forall_app; split; [exact OA|apply bytes_ok_zeros]|].
  - unfold bcc. rewrite K, LA, Nat.mul_comm, Nat.div_mul by lia. by rewrite blocks16_prefix by lia.
  - rewrite K, length_app. lia.
Qed.

(** The counter of the vector goes up in its last byte. *)
Lemma next_vector i s : 0 <= i < 255 ->
  <[3%nat := u8 (nth 3 (be_bytes 4 i ++ s) 0 + 1)]> (be_bytes 4 i ++ s) = be_bytes 4 (i + 1) ++ s.
Proof.
  intros Hi. assert (B : forall v, 0 <= v < 256 -> be_bytes 4 v = [0; 0; 0; v]).
  { intros v Hv. pose proof (be_bytes_split 3 1 0 v Hv) as E. rewrite Z.mul_0_l, Z.add_0_l in E. cbn [Nat.add] in E. rewrite E.
    unfold be_bytes at 2. cbn [le_bytes rev app]. by rewrite Z.mod_small by lia. }
  rewrite !B by lia. cbn. unfold u8. by rewrite Z.mod_small by lia.
Qed.

Lemma df_ok data : bytes_ok data ->
  block_cipher_df data = (if 384 <? zlen data then Err MBEDTLS_ERR_CTR_DRBG_INPUT_TOO_BIG else Ok (df data)) /\
  length (df data) = 48%nat /\ bytes_ok (df data).
Proof.
  intros Hd. unfold df. fold df_key. fold (df_string data).
  set (temp := concat _). assert (Bi : forall i, block (bcc (aes_spec df_key) (be_bytes 4 i ++ repeat 0 12 ++ pad16 (df_string data)))).
  { intros i. destruct (setkey256 mbedtls_aes_init df_key ltac:(unfold df_key; bytes_ok_closed) ltac:(cbn; lia)) as (a & _ & Ha).
    apply (bcc_block df_key a Ha).
    - rewrite !length_app, be_bytes_length, repeat_length. replace (4 + (12 + length (pad16 (df_string data))))%nat with (length (pad16 (df_string data)) + 1 * 16)%nat by lia.
      rewrite Nat.Div0.mod_add. apply pad16_length.
    - rewrite !Forall_app. repeat split; [apply be_bytes_ok|apply bytes_ok_zeros|by apply pad16_ok, df_string_ok]. }
  assert (Et : length temp = 48%nat /\ bytes_ok temp).
  { unfold temp. cbn [map concat]. rewrite app_nil_r. destruct (Bi 0) as [L0 O0], (Bi 1) as [L1 O1], (Bi 2) as [L2 O2].
    split; [rewrite !length_app; lia|repeat (apply Forall_app; split); assumption]. }
  destruct Et as [Lt Ot]. destruct (setkey256 mbedtls_aes_init temp Ot ltac:(lia)) as (a1 & _ & Ha1).
  assert (B0 : block (drop 32 temp)) by (split; [rewrite length_drop; lia|by apply Forall_drop]).
  pose proof (key_gives_block _ a1 Ha1 _ B0) as B1. pose proof (key_gives_block _ a1 Ha1 _ B1) as B2. pose proof (key_gives_block _ a1 Ha1 _ B2) as B3.
  split; [|split; [rewrite !length_app; destruct B1 as [-> _], B2 as [-> _], B3 as [-> _]; reflexivity|repeat (apply Forall_app; split); [apply B1|apply B2|apply B3]]].
  unfold block_cipher_df. change MBEDTLS_CTR_DRBG_MAX_SEED_INPUT with 384. destruct (Z.ltb_spec 384 (zlen data)) as [|Hl]; [reflexivity|].
  change (map Z.of_nat (seq 0 MBEDTLS_CTR_DRBG_KEYSIZE)) with df_key.
  destruct (setkey256 mbedtls_aes_init df_key ltac:(unfold df_key; bytes_ok_closed) ltac:(cbn; lia)) as (a & -> & Ha). change (take 32 df_key) with df_key in Ha.
  change (negb (0 =? 0)) with false. cbv iota. destruct (df_buffer_eq data Hl) as [k ->].
  assert (Er : reduce 3 a (repeat 0 16 ++ pad16 (df_string data) ++ repeat 0 k) (16 + 8 + length data + 1) = temp).
  { cbn [reduce]. change (repeat 0 16 ++ pad16 (df_string data) ++ repeat 0 k) with (be_bytes 4 0 ++ repeat 0 12 ++ pad16 (df_string data) ++ repeat 0 k).
    rewrite reduce_turn by assumption.
    rewrite (next_vector 0 _), (next_vector (0 + 1) _) by lia. rewrite !reduce_turn by assumption. reflexivity. }
  rewrite Er. destruct (setkey256 a temp Ot ltac:(lia)) as (a2 & -> & Ha2). change (negb (0 =? 0)) with false. cbv iota zeta. f_equal.
  change MBEDTLS_CTR_DRBG_KEYSIZE with 32%nat. rewrite (take_ge (drop 32 temp)) by (rewrite length_drop; lia). cbn [spread]. rewrite app_nil_r.
  rewrite (enc_ctx_ecb _ a2 _ Ha2 B0), (enc_ctx_ecb _ a2 _ Ha2 B1), (enc_ctx_ecb _ a2 _ Ha2 B2). reflexivity.
Qed.

(** ** The working state *)

Lemma counter_blocks_ok key a n : enc_ctx key a -> forall z, 0 <= z ->
  counter_blocks n a (be_bytes 16 z) =
  (concat (map (fun i => aes_spec key (be_bytes 16 (z + Z.of_nat i))) (seq 1 n)), be_bytes 16 (z + Z.of_nat n)).
Proof.
  intros Ha. induction n as [|n IH]; intros z Hz.
  - cbn. by rewrite Z.add_0_r.
  - cbn [counter_blocks seq map concat]. rewrite next_counter_be, IH by lia. rewrite (enc_ctx_ecb key a _ Ha) by apply be_block.
    f_equal; [|f_equal; lia]. f_equal. rewrite <- (seq_shift n 1), map_map. f_equal. apply map_ext. intros i. do 2 f_equal. lia.
Qed.

Definition working_ok (w : Working) : Prop := key_ok (Key w) /\ length (Key w) = 32%nat /\ block (V w).

Lemma next_block_ok w i : working_ok w -> block (next_block w i).
Proof. intros (Hk & _). apply aes_spec_block; [exact Hk|apply be_block]. Qed.

Lemma working_update_ok provided w : working_ok w -> length provided = 48%nat -> bytes_ok provided -> working_ok (update provided w).
Proof.
  intros Hw Lp Op. unfold update. set (temp := xor_bytes _ _).
  assert (length temp = 48%nat /\ bytes_ok temp) as [Lt Ot].
  { destruct (next_block_ok w 1 Hw), (next_block_ok w 2 Hw), (next_block_ok w 3 Hw). unfold temp. split.
    - rewrite xor_length; rewrite !length_app; lia.
    - apply zip_lxor_ok; [|exact Op]. by rewrite !Forall_app. }
  assert (L : length (take 32 temp) = 32%nat) by (rewrite length_take; lia).
  split; [|split; [exact L|]].
  - split; [by apply Forall_take|]. cbn [Key]. rewrite L. auto.
  - split; [cbn [V]; rewrite length_drop; lia|by apply Forall_drop].
Qed.

Lemma update_internal_ok {P} (ctx : mbedtls_ctr_drbg_context P) w data : working_ok w -> enc_ctx (Key w) (aes_ctx ctx) -> counter ctx = V w ->
  length data = 48%nat -> bytes_ok data ->
  exists a, ctr_drbg_update_internal ctx data = (0, set_cipher ctx a (V (update data w))) /\ enc_ctx (Key (update data w)) a.
Proof.
  intros Hw Ha Ec Ld Od. pose proof (working_update_ok data w Hw Ld Od) as (_ & Lk & _).
  unfold ctr_drbg_update_internal. rewrite Ec, <- (block_bytes (V w)) by apply Hw.
  rewrite (counter_blocks_ok (Key w)) by (exact Ha || apply block_range, Hw). cbn [seq map concat]. rewrite app_nil_r.
  fold (next_block w 1) (next_block w 2) (next_block w 3).
  assert (Ot : bytes_ok (xor_bytes (next_block w 1 ++ next_block w 2 ++ next_block w 3) data)).
  { apply zip_lxor_ok; [|exact Od]. rewrite !Forall_app. repeat split; by apply next_block_ok. }
  unfold update in Lk |- *. cbn [Key V] in Lk |- *. set (temp := xor_bytes _ data) in *.
  destruct (setkey256 (aes_ctx ctx) temp Ot) as (a & -> & Ha').
  { rewrite length_take in Lk. lia. }
  exists a. split; [|exact Ha']. change (negb (0 =? 0)) with false. cbv iota. change MBEDTLS_CTR_DRBG_KEYSIZE with 32%nat.
  do 2 f_equal. apply take_ge. unfold temp, xor_bytes. rewrite length_drop, length_zip_with. lia.
Qed.

(** ** The context of a generator *)

Section Refinement.
Context {P : Type} `{EntropyLaws P}.

Record implements (g : Generator P) (ctx : mbedtls_ctr_drbg_context P) : Prop := {
  impl_working : working_ok (working g);
  impl_key : enc_ctx (Key (working g)) (aes_ctx ctx);
  impl_V : counter ctx = V (working g);
  impl_count : reseed_counter ctx = count (working g);
  impl_interval : reseed_interval ctx = interval g;
  impl_prediction : prediction_resistance ctx = prediction g;
  impl_length : entropy_len ctx = entropy_bytes g;
  impl_source : p_entropy ctx = source g;
  impl_ranges : -1 <= count (working g) < 2 ^ 31 /\ interval g < 2 ^ 31 - 1 /\ 0 <= entropy_bytes g;
}.

Lemma implements_source g ctx p : implements g ctx -> implements (with_working g (working g) p) (set_p_entropy ctx p).
Proof. intros []. by constructor. Qed.

Lemma implements_count g ctx n : implements g ctx -> -1 <= n < 2 ^ 31 ->
  implements (with_working g (mkWorking (Key (working g)) (V (working g)) n) (source g)) (set_reseed_counter ctx n).
Proof. intros [(? & ? & ?)] [? ?]. constructor; try assumption; [by split; [|split]|reflexivity|cbn; tauto]. Qed.

Lemma implements_counter g ctx v : implements g ctx -> block v ->
  implements (with_working g (mkWorking (Key (working g)) v (count (working g))) (source g)) (set_cipher ctx (aes_ctx ctx) v).
Proof. intros [(? & ? & ?)] Hv. constructor; try assumption; [|reflexivity]. by split; [|split]. Qed.

Lemma implements_update g ctx data : implements g ctx -> length data = 48%nat -> bytes_ok data ->
  exists ctx', ctr_drbg_update_internal ctx data = (0, ctx') /\
               implements (with_working g (update data (working g)) (source g)) ctx'.
Proof.
  intros [] Hl Hd. destruct (update_internal_ok ctx (working g) data) as (a & -> & Ha); try assumption.
  eexists. split; [reflexivity|]. constructor; try assumption; try done. by apply working_update_ok.
Qed.

Lemma implements_reseed g ctx p entropy additional : implements g ctx -> bytes_ok (entropy ++ additional) ->
  exists c, ctr_drbg_update_internal (set_p_entropy ctx p) (df (entropy ++ additional)) = (0, c) /\
            implements (with_working g (reseed entropy additional (working g)) p) (set_reseed_counter c 1).
Proof.
  intros I O. pose proof (df_ok _ O) as (_ & Ld & Od).
  destruct (implements_update _ _ _ (implements_source _ _ p I) Ld Od) as (c & -> & Ic).
  exists c. split; [reflexivity|]. by apply (implements_count _ c 1) in Ic.
Qed.

(** Reseeding with a nonce of [n] bytes. *)
Definition spec_reseed_with (n : Z) (additional : bytes) (g : Generator P) : Z * Generator P :=
  if 384 <? entropy_bytes g + n + zlen additional then (MBEDTLS_ERR_CTR_DRBG_INPUT_TOO_BIG, g)
  else
    match f_entropy (source g) (Z.to_nat (entropy_bytes g)) with
    | (p, None) => (MBEDTLS_ERR_CTR_DRBG_ENTROPY_SOURCE_FAILED, with_working g (working g) p)
    | (p, Some entropy) =>
        match (if n =? 0 then (p, Some []) else f_entropy p (Z.to_nat n)) with
        | (p, None) => (MBEDTLS_ERR_CTR_DRBG_ENTROPY_SOURCE_FAILED, with_working g (working g) p)
        | (p, Some nonce) => (0, with_working g (reseed entropy (nonce ++ additional) (working g)) p)
        end
    end.

Lemma reseed_internal_ok n additional g ctx : implements g ctx -> bytes_ok additional -> 0 <= n ->
  exists ctx', mbedtls_ctr_drbg_reseed_internal ctx additional n = (fst (spec_reseed_with n additional g), ctx') /\
               implements (snd (spec_reseed_with n additional g)) ctx'.
Proof.
  intros I Ha Hn. pose proof (impl_ranges _ _ I) as (_ & _ & He).
  unfold mbedtls_ctr_drbg_reseed_internal, spec_reseed_with. rewrite (impl_length _ _ I), (impl_source _ _ I). change MBEDTLS_CTR_DRBG_MAX_SEED_INPUT with 384.
  destruct (Z.ltb_spec 384 (entropy_bytes g + n + zlen additional)) as [Hb|Hs].
  { exists ctx. split; [|exact I]. destruct (Z.ltb_spec 384 (entropy_bytes g)); [done|]. destruct (Z.ltb_spec (384 - entropy_bytes g) n); [done|].
    by destruct (Z.ltb_spec (384 - entropy_bytes g - n) (zlen additional)); [|lia]. }
  rewrite (proj2 (Z.ltb_ge 384 _)), (proj2 (Z.ltb_ge _ n)), (proj2 (Z.ltb_ge _ (zlen additional))) by lia.
  destruct (f_entropy (source g) (Z.to_nat (entropy_bytes g))) as [p [entropy|]] eqn:E1; cbn [fst snd].
  2:{ eexists. split; [reflexivity|]. by apply implements_source. }
  destruct (entropy_fills _ _ _ _ E1) as [L1 O1].
  assert (N : forall p' nonce, length nonce = Z.to_nat n -> bytes_ok nonce -> exists ctx',
    match block_cipher_df (entropy ++ nonce ++ additional) with
    | Ok seed => let '(ret, ctx) := ctr_drbg_update_internal (set_p_entropy ctx p') seed in
                 if negb (ret =? 0) then (ret, ctx) else (0, set_reseed_counter ctx 1)
    | Err ret => (ret, set_p_entropy ctx p')
    end = (0, ctx') /\ implements (with_working g (reseed entropy (nonce ++ additional) (working g)) p') ctx').
  { intros p' nonce L2 O2. assert (O : bytes_ok (entropy ++ nonce ++ additional)) by (by rewrite !Forall_app).
    rewrite (proj1 (df_ok _ O)), (proj2 (Z.ltb_ge 384 _)) by (rewrite !length_app; lia).
    destruct (implements_reseed g ctx p' _ _ I O) as (c & -> & Ic). eexists. split; [reflexivity|exact Ic]. }
  destruct (Z.eqb_spec n 0) as [En|En]; cbn [negb].
  - apply (N p []); [rewrite En; reflexivity|constructor].
  - destruct (f_entropy p (Z.to_nat n)) as [p' [nonce|]] eqn:E2; cbn [fst snd].
    + destruct (entropy_fills _ _ _ _ E2) as [L2 O2]. by apply N.
    + eexists. split; [reflexivity|]. by apply (implements_source _ _ p') in I.
Qed.

Lemma reseed_with_none additional (g : Generator P) : spec_reseed_with 0 additional g = spec_reseed additional g.
Proof.
  unfold spec_reseed_with, spec_reseed. rewrite Z.add_0_r. case_if; [reflexivity|].
  destruct (f_entropy (source g) (Z.to_nat (entropy_bytes g))) as [p [entropy|]]; reflexivity.
Qed.

Lemma reseed_ok additional g ctx : implements g ctx -> bytes_ok additional ->
  exists ctx', mbedtls_ctr_drbg_reseed ctx additional = (fst (spec_reseed additional g), ctx') /\
               implements (snd (spec_reseed additional g)) ctx'.
Proof. intros I Ha. rewrite <- reseed_with_none. by apply reseed_internal_ok. Qed.

Lemma spec_reseed_codes additional (g : Generator P) :
  spec_reseed additional g = (0, snd (spec_reseed additional g)) \/ fst (spec_reseed additional g) <> 0.
Proof.
  unfold spec_reseed. case_if; [right; discriminate|].
  destruct (f_entropy (source g) (Z.to_nat (entropy_bytes g))) as [p [entropy|]]; [left; reflexivity|right; discriminate].
Qed.

(** The input of the update after a request, and the state it starts from. *)
Definition request_data (additional : bytes) : bytes := match additional with [] => repeat 0 48 | _ => df additional end.
Definition request_state (additional : bytes) (w : Working) : Working :=
  match additional with [] => w | _ => update (df additional) w end.

Lemma request_data_ok additional : bytes_ok additional -> length (request_data additional) = 48%nat /\ bytes_ok (request_data additional).
Proof. intros Ha. destruct additional; [split; [reflexivity|apply bytes_ok_zeros]|apply df_ok, Ha]. Qed.

Lemma additional_ok additional g ctx : implements g ctx -> bytes_ok additional -> zlen additional <= 384 ->
  exists ctx',
    (if 0 <? zlen additional then
       match block_cipher_df additional with
       | Err ret => (ret, ctx, repeat 0 MBEDTLS_CTR_DRBG_SEEDLEN)
       | Ok add_input => (ctr_drbg_update_internal ctx add_input, add_input)
       end
     else (0, ctx, repeat 0 MBEDTLS_CTR_DRBG_SEEDLEN)) = (0, ctx', request_data additional) /\
    implements (with_working g (request_state additional (working g)) (source g)) ctx'.
Proof.
  intros I Ha Hl. destruct additional as [|x l].
  - exists ctx. split; [reflexivity|]. destruct I as [(? & ? & ?)]. constructor; try assumption. by split; [|split].
  - set (s := x :: l) in *. pose proof (df_ok s Ha) as (-> & Ld & Od).
    rewrite (proj2 (Z.ltb_lt 0 _)), (proj2 (Z.ltb_ge 384 _)) by (exact Hl || (cbn [s length]; lia)).
    destruct (implements_update g ctx (df s) I Ld Od) as (c & -> & Ic). by exists c.
Qed.


Definition request_blocks (n : Z) : nat := (Z.to_nat n + 15) / 16.

(** The output and the update after it. *)
Lemma output_ok n data g ctx : implements g ctx -> length data = 48%nat -> bytes_ok data -> 0 <= n -> count (working g) < 2 ^ 31 - 1 ->
  let w := working g in
  let v := be_bytes 16 (be_val (V w) + Z.of_nat (request_blocks n)) in
  let w' := update data (mkWorking (Key w) v (count w)) in
  counter_blocks (Z.to_nat ((n + 15) / 16)) (aes_ctx ctx) (counter ctx) = (concat (map (next_block w) (seq 1 (request_blocks n))), v) /\
  exists c, ctr_drbg_update_internal (set_cipher ctx (aes_ctx ctx) v) data = (0, c) /\
            implements (with_working g (mkWorking (Key w') (V w') (count w + 1)) (source g)) (set_reseed_counter c (s32 (reseed_counter c + 1))).
Proof.
  intros I Ld Od Hn Hc w v w'. split.
  - rewrite (impl_V _ _ I). destruct (impl_working _ _ I) as (_ & _ & Hv). rewrite <- (block_bytes (V (working g)) Hv).
    rewrite (counter_blocks_ok (Key (working g))) by (apply (impl_key _ _ I) || apply (block_range _ Hv)).
    replace (Z.to_nat ((n + 15) / 16)) with (request_blocks n); [reflexivity|].
    unfold request_blocks. rewrite Z2Nat.inj_div, Z2Nat.inj_add by lia. reflexivity.
  - pose proof (implements_counter g ctx v I ltac:(apply be_block)) as I1.
    destruct (implements_update _ _ data I1 Ld Od) as (c & -> & Ic). exists c. split; [reflexivity|].
    pose proof (impl_ranges _ _ I) as (R & _). pose proof (impl_count _ _ Ic) as Ec. cbn [working with_working count update] in Ec.
    rewrite Ec, s32_small by lia. apply (implements_count _ c (count w + 1)) in Ic; [exact Ic|unfold w; lia].
Qed.

Lemma generate_eq n add w :
  let w1 := request_state add w in
  let w2 := update (request_data add) (mkWorking (Key w1) (be_bytes 16 (be_val (V w1) + Z.of_nat (request_blocks n))) (count w1)) in
  generate (Z.to_nat n) add w =
  (take (Z.to_nat n) (concat (map (next_block w1) (seq 1 (request_blocks n)))), mkWorking (Key w2) (V w2) (count w2 + 1)).
Proof. destruct add; reflexivity. Qed.

Lemma update_count data w : count (update data w) = count w.
Proof. reflexivity. Qed.

Lemma random_ok n additional g ctx : implements g ctx -> bytes_ok additional -> 0 <= n ->
  exists ctx', mbedtls_ctr_drbg_random_with_add ctx [] n additional = (fst (snd (spec_random n additional g)), ctx', snd (snd (spec_random n additional g))) /\
               implements (fst (spec_random n additional g)) ctx'.
Proof.
  intros I Ha Hn. unfold mbedtls_ctr_drbg_random_with_add, spec_random. change MBEDTLS_CTR_DRBG_MAX_REQUEST with 1024. change MBEDTLS_CTR_DRBG_MAX_INPUT with 256.
  destruct (Z.ltb_spec 1024 n) as [|Hn']; [by exists ctx|]. destruct (Z.ltb_spec 256 (zlen additional)) as [|Hl]; [by exists ctx|].
  rewrite (impl_interval _ _ I), (impl_count _ _ I), (impl_prediction _ _ I). pose proof (impl_ranges _ _ I) as R.
  set (must := _ || _). set (add := if must then [] else additional).
  assert (Oa : bytes_ok add /\ zlen add <= 384) by (unfold add; case_if; [split; [constructor|done]|split; [exact Ha|lia]]). destruct Oa as [Oa La].
  assert (Z1 : exists ctx1,
    (if must then mbedtls_ctr_drbg_reseed ctx additional else (0, ctx)) = (fst (if must then spec_reseed additional g else (0, g)), ctx1) /\
    implements (snd (if must then spec_reseed additional g else (0, g))) ctx1 /\
    (fst (if must then spec_reseed additional g else (0, g)) = 0 -> count (working (snd (if must then spec_reseed additional g else (0, g)))) < 2 ^ 31 - 1)).
  { destruct must eqn:M.
    - destruct (reseed_ok additional g ctx I Ha) as (c & -> & Ic). exists c. split; [reflexivity|]. split; [exact Ic|].
      intros E0. unfold spec_reseed in *. case_if; [discriminate|]. destruct (f_entropy (source g) _) as [p [e|]]; [cbn; lia|discriminate].
    - exists ctx. split; [reflexivity|]. split; [exact I|]. intros _. cbn [snd]. unfold must in M. apply orb_false_iff in M as [M _]. apply Z.ltb_ge in M. lia. }
  destruct Z1 as (ctx1 & -> & I1 & C1). destruct (if must then spec_reseed additional g else (0, g)) as [ret g1]. cbn [fst snd] in I1, C1 |- *.
  fold add. destruct (Z.eqb_spec ret 0) as [->|Hr]; cbn [negb]; [|by exists ctx1]. specialize (C1 eq_refl).
  destruct (additional_ok add g1 ctx1 I1 Oa La) as (ctx2 & E2 & I2).
  rewrite E2. change (negb (0 =? 0)) with false. cbv iota.
  destruct (request_data_ok add Oa) as [Ld Od].
  destruct (output_ok n (request_data add) _ ctx2 I2 Ld Od Hn) as (-> & c & E3 & I3).
  { cbn [working with_working]. unfold request_state. by destruct add. }
  rewrite E3. change (negb (0 =? 0)) with false. cbv iota. rewrite generate_eq, update_count. cbn [count fst snd working with_working source] in I3 |- *. exists (set_reseed_counter c (s32 (reseed_counter c + 1))). split; [|exact I3]. reflexivity.
Qed.

Definition call_ok (c : call) : Prop :=
  match c with
  | Reseed additional | Update additional => bytes_ok additional
  | Random n additional => 0 <= n /\ bytes_ok additional
  | Set_reseed_interval interval => interval < 2 ^ 31 - 1
  | Set_prediction_resistance _ => True
  | Set_entropy_len len => 0 <= len
  end.

Lemma call_refines c g ctx : implements g ctx -> call_ok c ->
  exists ctx', call_code c ctx = (ctx', snd (call_spec c g)) /\ implements (fst (call_spec c g)) ctx'.
Proof.
  intros I Hc. destruct c as [a|a|n a|i|r|l]; cbn [call_ok] in Hc; unfold call_code, call_spec.
  - destruct (reseed_ok a g ctx I Hc) as (c & -> & Ic). destruct (spec_reseed a g) as [ret g']. by exists c.
  - unfold mbedtls_ctr_drbg_update_ret. destruct (Z.eqb_spec (zlen a) 0) as [E|E].
    { destruct a; [|discriminate]. exists ctx. split; [reflexivity|]. destruct I as [(? & ? & ?)]. constructor; try assumption. by split; [|split]. }
    destruct (df_ok a Hc) as (-> & Ld & Od). destruct (384 <? zlen a); [by exists ctx|].
    destruct (implements_update g ctx _ I Ld Od) as (c & -> & Ic). exists c.
    destruct a as [|x a]; [destruct E; reflexivity|]. split; [reflexivity|exact Ic].
  - destruct Hc as [Hn Ha]. destruct (random_ok n a g ctx I Ha Hn) as (c & -> & Ic). exists c. split; [|exact Ic]. by destruct (spec_random n a g) as [? []].
  - eexists. split; [reflexivity|]. destruct I. constructor; try assumption; [reflexivity|]. cbn. lia.
  - eexists. split; [reflexivity|]. destruct I. constructor; try assumption. reflexivity.
  - eexists. split; [reflexivity|]. destruct I. constructor; try assumption; [reflexivity|]. cbn. lia.
Qed.

Lemma calls_refine cs : forall g ctx, implements g ctx -> Forall call_ok cs -> calls_code cs ctx = calls_spec cs g.
Proof.
  induction cs as [|c cs IH]; intros g ctx I Hcs; [reflexivity|]. inversion_clear Hcs as [|? ? Hc Hr].
  destruct (call_refines c g ctx I Hc) as (ctx' & E & I'). cbn [calls_code calls_spec]. rewrite E.
  destruct (call_spec c g) as [g' r]. cbn [fst snd] in *. f_equal. by apply IH.
Qed.

(** ** Sessions *)

Lemma good_nonce_default e : good_nonce_len e = default_nonce e.
Proof. reflexivity. Qed.

Definition nonce_ok (nonce : option Z) : Prop := match nonce with Some n => 0 <= n | None => True end.

(** The first context, with the length of the nonce in the counter. *)
Lemma seed_ok (p : P) ctx e n c custom :
  counter ctx = repeat 0 16 -> reseed_counter ctx = c -> -1 <= c <= 384 -> entropy_len ctx = e -> 0 <= e ->
  reseed_interval ctx = 10000 -> prediction_resistance ctx = false -> bytes_ok custom ->
  n = (if 0 <=? c then c else default_nonce (if e =? 0 then 48 else e)) ->
  let g := mkGenerator (unseeded c) 10000 false (if e =? 0 then 48 else e) p in
  exists ctx', mbedtls_ctr_drbg_seed ctx p custom = (fst (spec_reseed_with n custom g), ctx') /\ implements (snd (spec_reseed_with n custom g)) ctx'.
Proof.
  intros E1 E2 Hc E3 He E4 E5 Hcu -> g. unfold mbedtls_ctr_drbg_seed.
  destruct (setkey256 mbedtls_aes_init (repeat 0 32) (bytes_ok_zeros 32) ltac:(cbn; lia)) as (a & Ea & Ha).
  change (repeat 0 MBEDTLS_CTR_DRBG_KEYSIZE) with (repeat 0 32). cbn [aes_ctx entropy_len reseed_counter counter]. rewrite Ea.
  change (negb (0 =? 0)) with false. cbv iota. rewrite E3, E2, good_nonce_default.
  apply reseed_internal_ok; [|exact Hcu|].
  - constructor; try assumption; try reflexivity.
    + split; [split; [apply bytes_ok_zeros|auto]|split; [reflexivity|apply zeros_block]].
    + cbn [working count unseeded interval entropy_bytes g]. destruct (e =? 0); lia.
  - case_if; [to_prop; lia|]. unfold default_nonce. case_if; [lia|]. apply Z.div_pos; [|lia]. destruct (e =? 0); lia.
Qed.

Lemma reseed_unseeded entropy nonce custom c : reseed entropy (nonce ++ custom) (unseeded c) = instantiate entropy nonce custom.
Proof. unfold reseed, instantiate, update, next_block, unseeded. cbn [Key V]. reflexivity. Qed.

Lemma spec_seed_eq (p : P) len nonce custom :
  let e := if len =? 0 then 48 else len in
  let c := match asked_nonce nonce with Some n => n | None => -1 end in
  let n := match asked_nonce nonce with Some n => n | None => default_nonce e end in
  spec_seed p len nonce custom = spec_reseed_with n custom (mkGenerator (unseeded c) 10000 false e p).
Proof.
  cbv zeta. unfold spec_seed, spec_reseed_with. cbn [entropy_bytes source working]. case_if; [reflexivity|].
  destruct (f_entropy p _) as [p1 [entropy|]]; [|reflexivity].
  destruct (match asked_nonce nonce with Some n => n | None => _ end =? 0).
  - by rewrite reseed_unseeded.
  - destruct (f_entropy p1 _) as [p2 [s|]]; [by rewrite reseed_unseeded|reflexivity].
Qed.

(** The context of a session after its seed. *)
Lemma session_start (p : P) len nonce custom : 0 <= len -> nonce_ok nonce -> bytes_ok custom ->
  let ctx := mbedtls_ctr_drbg_set_entropy_len (mbedtls_ctr_drbg_init p) len in
  let ctx := match nonce with Some n => snd (mbedtls_ctr_drbg_set_nonce_len ctx n) | None => ctx end in
  exists ctx', mbedtls_ctr_drbg_seed ctx p custom = (fst (spec_seed p len nonce custom), ctx') /\
               implements (snd (spec_seed p len nonce custom)) ctx'.
Proof.
  intros Hl Hn Hc ctx0. set (c := match asked_nonce nonce with Some n => n | None => -1 end).
  assert (Rc : -1 <= c <= 384 /\ (0 <=? c) = match asked_nonce nonce with Some _ => true | None => false end).
  { unfold c, asked_nonce. destruct nonce as [n|]; [|split; [lia|reflexivity]]. cbn in Hn.
    destruct (Z.ltb_spec 384 n); [split; [lia|reflexivity]|]. split; [lia|]. apply Z.leb_le. lia. }
  destruct Rc as [Rc Tc]. set (ctx := match nonce with Some n => _ | None => _ end).
  assert (Ec : ctx = mkDrbg (repeat 0 16) c false len 10000 mbedtls_aes_init false p).
  { unfold ctx, c, asked_nonce. destruct nonce as [n|]; [|reflexivity]. unfold mbedtls_ctr_drbg_set_nonce_len. cbn [f_entropy_set].
    change MBEDTLS_CTR_DRBG_MAX_SEED_INPUT with 384. by destruct (384 <? n). }
  cbv zeta. rewrite spec_seed_eq. cbv zeta. fold c. set (n := match asked_nonce nonce with Some n => n | None => default_nonce _ end).
  apply (seed_ok p ctx len n c custom); try (by rewrite Ec); try assumption.
  rewrite Tc. unfold n, c. by destruct (asked_nonce nonce).
Qed.

(** Without entropy the caller that ignores the error of the seed gets constants. *)
Lemma random_without_entropy (p p' : P) n custom : f_entropy p 48 = (p', None) -> bytes_ok custom -> zlen custom <= 336 -> 0 <= n <= 1024 ->
  session_code p 0 None custom [Random n []] =
  (MBEDTLS_ERR_CTR_DRBG_ENTROPY_SOURCE_FAILED, [(0, fst (generate (Z.to_nat n) [] (unseeded (-1))))]).
Proof.
  intros Ef Hc Hl Hn. unfold session_code. destruct (session_start p 0 None custom ltac:(lia) I Hc) as (ctx & E & Im).
  cbn [mbedtls_ctr_drbg_set_entropy_len] in E |- *. rewrite E.
  rewrite (calls_refine [Random n []] _ _ Im) by (constructor; [split; [lia|constructor]|constructor]).
  unfold spec_seed. cbn [asked_nonce]. change (if 0 =? 0 then 48 else 0) with 48.
  change (default_nonce 48) with 0. rewrite (proj2 (Z.ltb_ge 384 _)) by lia.
  change (Z.to_nat 48) with 48%nat. rewrite Ef. cbn [fst snd calls_spec call_spec]. unfold spec_random. cbn [zlen length].
  rewrite (proj2 (Z.ltb_ge 1024 n)) by lia. cbn [interval prediction working count unseeded]. 
  change (256 <? Z.of_nat 0) with false. change ((10000 <? -1) || false) with false. cbv iota. change (0 =? 0) with true. cbv iota.
  by destruct (generate (Z.to_nat n) [] _).
Qed.

(** C19. The random generator with AES-256: for every source of entropy, lengths of the
    entropy and of the nonce, personalization and course of reseedings, updates, requests
    and settings, what the calls return and the bytes they give are those of CTR_DRBG with
    the derivation function of NIST SP 800-90A, reseeded after the interval, for prediction
    resistance and on request; a source that fails, or too long an input, leaves its state. *)
Theorem ctr_drbg_correct (p : P) len nonce custom cs :
  0 <= len -> nonce_ok nonce -> bytes_ok custom -> Forall call_ok cs ->
  session_code p len nonce custom cs = session_spec p len nonce custom cs.
Proof.
  intros Hl Hn Hc Hcs. unfold session_code, session_spec.
  destruct (session_start p len nonce custom Hl Hn Hc) as (ctx & -> & I).
  destruct (spec_seed p len nonce custom) as [ret g]. cbn [fst snd] in *. f_equal. by apply calls_refine.
Qed.
End Refinement.

#[export] Instance string_laws : EntropyLaws bytes.
Proof.
  split. intros p n p' b E. cbv [f_entropy string_source] in E.
  destruct (Nat.leb_spec n (length p)); [|discriminate]. injection E as <- <-. split.
  - rewrite length_map, length_take. lia.
  - apply List.Forall_forall. intros x (z & <- & _)%in_map_iff. unfold is_byte, u8. apply Z.mod_pos_bound. lia.
Qed.

(** The test vector of the source. *)
Example ctr_drbg_correct_witness :
  session_code entropy_source_nopr 32 (Some 16) pers_nopr sample_calls = session_spec entropy_source_nopr 32 (Some 16) pers_nopr sample_calls.
Proof.
  apply (ctr_drbg_correct entropy_source_nopr 32 (Some 16) pers_nopr sample_calls); [lia|cbn; lia|unfold pers_nopr; bytes_ok_closed|].
  repeat constructor; discriminate.
Defined.

End CtrDrbg.
