(* ===== verification/ChaCha20.v ===== *)
(** ChaCha20 (mbedtls/library/chacha20.c): the block function on the 16-word
    state and the streaming context that keeps the unused bytes of the last
    keystream block.  However the input is cut into updates, the output is the
    input xored with the keystream of RFC 8439; the double round is the RFC's
    round on the columns and diagonals of the 4x4 matrix. *)
From S2P Require Import Prelude Words ShaRounds.
From stdpp Require Import list.
#[local] Open Scope Z_scope.

Module ChaCha20.

(** ** The block function *)

Definition ROTL32 (value amount : Z) : Z :=
  Z.lor (u32 (Z.shiftl value amount)) (Z.shiftr value (32 - amount)).

Definition chacha20_quarter_round (state : list Z) (a b c d : nat) : list Z :=
  let state := <[a := u32 (nth a state 0 + nth b state 0)]> state in
  let state := <[d := Z.lxor (nth d state 0) (nth a state 0)]> state in
  let state := <[d := ROTL32 (nth d state 0) 16]> state in
  let state := <[c := u32 (nth c state 0 + nth d state 0)]> state in
  let state := <[b := Z.lxor (nth b state 0) (nth c state 0)]> state in
  let state := <[b := ROTL32 (nth b state 0) 12]> state in
  let state := <[a := u32 (nth a state 0 + nth b state 0)]> state in
  let state := <[d := Z.lxor (nth d state 0) (nth a state 0)]> state in
  let state := <[d := ROTL32 (nth d state 0) 8]> state in
  let state := <[c := u32 (nth c state 0 + nth d state 0)]> state in
  let state := <[b := Z.lxor (nth b state 0) (nth c state 0)]> state in
  let state := <[b := ROTL32 (nth b state 0) 7]> state in
  state.

Definition chacha20_inner_block (state : list Z) : list Z :=
  let state := chacha20_quarter_round state 0 4 8 12 in
  let state := chacha20_quarter_round state 1 5 9 13 in
  let state := chacha20_quarter_round state 2 6 10 14 in
  let state := chacha20_quarter_round state 3 7 11 15 in
  let state := chacha20_quarter_round state 0 5 10 15 in
  let state := chacha20_quarter_round state 1 6 11 12 in
  let state := chacha20_quarter_round state 2 7 8 13 in
  let state := chacha20_quarter_round state 3 4 9 14 in
  state.

(** The 64 bytes written to [keystream]. *)
Definition chacha20_block (initial_state : list Z) : bytes :=
  let working_state := Nat.iter 10 chacha20_inner_block initial_state in
  let working_state :=
    map (fun i => u32 (nth i working_state 0 + nth i initial_state 0)) (seq 0 16) in
  concat (map MBEDTLS_PUT_UINT32_LE working_state).

(** ** The context *)

Definition CHACHA20_CTR_INDEX : nat := 12.
Definition CHACHA20_BLOCK_SIZE_BYTES : nat := 64.

Record mbedtls_chacha20_context := mkChacha20 {
  state : list Z;
  keystream8 : bytes;
  keystream_bytes_used : nat;
}.

Definition mbedtls_chacha20_init : mbedtls_chacha20_context :=
  mkChacha20 (repeat 0 16) (repeat 0 64) CHACHA20_BLOCK_SIZE_BYTES.

Definition mbedtls_chacha20_setkey (ctx : mbedtls_chacha20_context) (key : bytes) : mbedtls_chacha20_context :=
  mkChacha20
    ([0x61707865; 0x3320646e; 0x79622d32; 0x6b206574] ++ words_le 8 key ++ drop 12 (state ctx))
    (keystream8 ctx) (keystream_bytes_used ctx).

Definition mbedtls_chacha20_starts (ctx : mbedtls_chacha20_context) (nonce : bytes) (counter : Z) :
    mbedtls_chacha20_context :=
  mkChacha20 (take 12 (state ctx) ++ [counter] ++ words_le 3 nonce)
    (repeat 0 64) CHACHA20_BLOCK_SIZE_BYTES.

(** [ctx->state[CHACHA20_CTR_INDEX]++] *)
Definition next_counter (state : list Z) : list Z :=
  <[CHACHA20_CTR_INDEX := u32 (nth CHACHA20_CTR_INDEX state 0 + 1)]> state.

Definition xor_bytes (a b : bytes) : bytes := zip_with Z.lxor a b.

(** "Use leftover keystream bytes, if available": the output, the new
    [keystream_bytes_used] and the rest of the input. *)
Fixpoint use_leftover (ks : bytes) (used : nat) (input : bytes) : bytes * nat * bytes :=
  match input with
  | [] => ([], used, [])
  | b :: rest =>
      if (used <? CHACHA20_BLOCK_SIZE_BYTES)%nat
      then let '(out, used', rest') := use_leftover ks (used + 1) rest in
           (Z.lxor b (nth used ks 0) :: out, used', rest')
      else ([], used, input)
  end.

(** "Process full blocks". *)
Fixpoint full_blocks (fuel : nat) (state : list Z) (ks : bytes) (input : bytes) :
    bytes * list Z * bytes * bytes :=
  match fuel with
  | O => ([], state, ks, input)
  | S fuel =>
      if (CHACHA20_BLOCK_SIZE_BYTES <=? length input)%nat then
        let ks := chacha20_block state in
        let '(out, state', ks', rest) :=
          full_blocks fuel (next_counter state) ks (drop CHACHA20_BLOCK_SIZE_BYTES input) in
        (xor_bytes (take CHACHA20_BLOCK_SIZE_BYTES input) ks ++ out, state', ks', rest)
      else ([], state, ks, input)
  end.

Definition mbedtls_chacha20_update (ctx : mbedtls_chacha20_context) (input : bytes) :
    mbedtls_chacha20_context * bytes :=
  let '(out1, used, input) := use_leftover (keystream8 ctx) (keystream_bytes_used ctx) input in
  let '(out2, st, ks, input) := full_blocks (length input) (state ctx) (keystream8 ctx) input in
  if (0 <? length input)%nat then
    let ks := chacha20_block st in
    (mkChacha20 (next_counter st) ks (length input), out1 ++ out2 ++ xor_bytes input ks)
  else (mkChacha20 st ks used, out1 ++ out2).

Definition mbedtls_chacha20_crypt (key nonce : bytes) (counter : Z) (input : bytes) : bytes :=
  let ctx := mbedtls_chacha20_init in
  let ctx := mbedtls_chacha20_setkey ctx key in
  let ctx := mbedtls_chacha20_starts ctx nonce counter in
  snd (mbedtls_chacha20_update ctx input).

(** ** RFC 8439 *)

Section Rfc.
(** The quarter round on four words. *)
Definition QR (q : Z * Z * Z * Z) : Z * Z * Z * Z :=
  let '(a, b, c, d) := q in
  let a := u32 (a + b) in let d := ROTL32 (Z.lxor d a) 16 in
  let c := u32 (c + d) in let b := ROTL32 (Z.lxor b c) 12 in
  let a := u32 (a + b) in let d := ROTL32 (Z.lxor d a) 8 in
  let c := u32 (c + d) in let b := ROTL32 (Z.lxor b c) 7 in
  (a, b, c, d).

(** The state as four columns; a round on all of them. *)
Definition columns : Type := (Z * Z * Z * Z) * (Z * Z * Z * Z) * (Z * Z * Z * Z) * (Z * Z * Z * Z).

Definition to_columns (s : list Z) : columns :=
  let w i := nth i s 0 in
  ((w 0%nat, w 4%nat, w 8%nat, w 12%nat), (w 1%nat, w 5%nat, w 9%nat, w 13%nat),
   (w 2%nat, w 6%nat, w 10%nat, w 14%nat), (w 3%nat, w 7%nat, w 11%nat, w 15%nat)).

Definition of_columns (m : columns) : list Z :=
  let '((a0, b0, c0, d0), (a1, b1, c1, d1), (a2, b2, c2, d2), (a3, b3, c3, d3)) := m in
  [a0; a1; a2; a3; b0; b1; b2; b3; c0; c1; c2; c3; d0; d1; d2; d3].

Definition on_columns (m : columns) : columns :=
  let '(q0, q1, q2, q3) := m in (QR q0, QR q1, QR q2, QR q3).

(** Row [i] rotated left by [i] places turns diagonals into columns. *)
Definition diagonalize (m : columns) : columns :=
  let '((a0, b0, c0, d0), (a1, b1, c1, d1), (a2, b2, c2, d2), (a3, b3, c3, d3)) := m in
  ((a0, b1, c2, d3), (a1, b2, c3, d0), (a2, b3, c0, d1), (a3, b0, c1, d2)).

Definition undiagonalize (m : columns) : columns :=
  let '((a0, b1, c2, d3), (a1, b2, c3, d0), (a2, b3, c0, d1), (a3, b0, c1, d2)) := m in
  ((a0, b0, c0, d0), (a1, b1, c1, d1), (a2, b2, c2, d2), (a3, b3, c3, d3)).

Definition double_round (m : columns) : columns :=
  undiagonalize (on_columns (diagonalize (on_columns m))).

Definition rfc_block (s : list Z) : bytes :=
  let w := of_columns (Nat.iter 10 double_round (to_columns s)) in
  concat (map (fun i => le_bytes 4 ((nth i w 0 + nth i s 0) mod 2 ^ 32)) (seq 0 16)).

(** The initial state for the block [n]. *)
Definition rfc_state (key nonce : bytes) (n : Z) : list Z :=
  [0x61707865; 0x3320646e; 0x79622d32; 0x6b206574] ++
  map (fun i => le_val (take 4 (drop (4 * i) key))) (seq 0 8) ++
  [n mod 2 ^ 32] ++
  map (fun i => le_val (take 4 (drop (4 * i) nonce))) (seq 0 3).

(** Byte [j] of the keystream. *)
Definition keystream_byte (key nonce : bytes) (counter : Z) (j : nat) : Z :=
  nth (j mod 64) (rfc_block (rfc_state key nonce (counter + Z.of_nat (j / 64)))) 0.

Definition rfc_chacha20 (key nonce : bytes) (counter : Z) (input : bytes) : bytes :=
  zip_with Z.lxor input (map (keystream_byte key nonce counter) (seq 0 (length input))).
End Rfc.

(** ** The block function is the RFC's *)

Lemma inner_block_columns m :
  chacha20_inner_block (of_columns m) = of_columns (double_round m).
Proof.
  destruct m as [[[[[[a0 b0] c0] d0] [[[a1 b1] c1] d1]] [[[a2 b2] c2] d2]] [[[a3 b3] c3] d3]].
  reflexivity.
Qed.
Lemma of_to_columns s : length s = 16%nat -> of_columns (to_columns s) = s.
Proof. intros H. do 17 (destruct s as [|? s]; try discriminate H). reflexivity. Qed.

Lemma inner_blocks_columns n m :
  Nat.iter n chacha20_inner_block (of_columns m) = of_columns (Nat.iter n double_round m).
Proof. induction n as [|n IH]; [reflexivity|]. by rewrite !Nat.iter_succ, IH, inner_block_columns. Qed.

Lemma block_eq s : length s = 16%nat -> chacha20_block s = rfc_block s.
Proof.
  intros H. unfold chacha20_block, rfc_block. rewrite <- inner_blocks_columns, of_to_columns by exact H.
  rewrite map_map. f_equal. apply map_ext. intros i. apply put32_le.
Qed.

Lemma concat_words_length (f : nat -> bytes) n k :
  (forall i, length (f i) = 4%nat) -> length (concat (map f (seq n k))) = (4 * k)%nat.
Proof.
  intros H. revert n. induction k as [|k IH]; intros n; [reflexivity|].
  cbn [seq map concat]. rewrite length_app, IH, H. lia.
Qed.

Lemma rfc_block_length s : length (rfc_block s) = 64%nat.
Proof. unfold rfc_block. apply concat_words_length. intros i. apply le_bytes_length. Qed.

(** ** The stream *)

Section Stream.
Context (key nonce : bytes) (counter : Z).

Abbreviation f := (keystream_byte key nonce counter).
Abbreviation st q := (rfc_state key nonce (counter + Z.of_nat q)).

Lemma rfc_state_length n : length (rfc_state key nonce n) = 16%nat.
Proof using. reflexivity. Qed.

Lemma next_counter_eq q : next_counter (st q) = st (S q).
Proof using.
  unfold next_counter, rfc_state, CHACHA20_CTR_INDEX. cbn [app seq map nth].
  change (u32 ?x) with (x mod 2 ^ 32). rewrite Z.add_mod_idemp_l by lia.
  cbn [insert list_insert]. do 13 f_equal. f_equal. lia.
Qed.

(** The keystream from byte [p], on [input]. *)
Definition xors (p : nat) (input : bytes) : bytes :=
  zip_with Z.lxor input (map f (seq p (length input))).

Lemma xors_app p a b : xors p (a ++ b) = xors p a ++ xors (p + length a) b.
Proof using.
  unfold xors. rewrite length_app, seq_app, map_app. apply zip_with_app. by rewrite length_map, length_seq.
Qed.

Lemma xors_split p k input :
  (k <= length input)%nat -> xors p input = xors p (take k input) ++ xors (p + k) (drop k input).
Proof using.
  intros Hk. rewrite <- (take_drop k input) at 1. rewrite xors_app, length_take, Nat.min_l by lia. reflexivity.
Qed.

Lemma keystream_nth q i : (i < 64)%nat -> f (64 * q + i) = nth i (rfc_block (st q)) 0.
Proof using.
  intros Hi. unfold keystream_byte. replace (64 * q + i)%nat with (i + q * 64)%nat by lia.
  rewrite Nat.div_add, Nat.Div0.mod_add, Nat.div_small, Nat.mod_small by lia. reflexivity.
Qed.

(** Part of a block of the keystream. *)
Lemma keystream_block q k :
  (k <= 64)%nat -> map f (seq (64 * q) k) = take k (rfc_block (st q)).
Proof using.
  intros Hk. pose proof (rfc_block_length (st q)) as Hl. apply nth_ext with (d := f 0%nat) (d' := 0).
  { rewrite length_map, length_seq, length_take. lia. }
  intros i Hi. rewrite length_map, length_seq in Hi. rewrite (map_nth f), seq_nth, nth_firstn by lia.
  destruct (i <? k)%nat eqn:E; to_prop; [|lia]. apply keystream_nth. lia.
Qed.

Lemma xor_block q input :
  (length input <= 64)%nat -> xor_bytes input (rfc_block (st q)) = xors (64 * q) input.
Proof using. intros Hi. unfold xors. rewrite keystream_block by exact Hi. by rewrite zip_with_take_r. Qed.

(** [ctx] has given out [p] bytes of the keystream. *)
Definition at_byte (ctx : mbedtls_chacha20_context) (p : nat) : Prop :=
  exists q, state ctx = st q /\
    ((p = 64 * q /\ keystream_bytes_used ctx = 64) \/
     (q <> 0 /\ p + 64 = 64 * q + keystream_bytes_used ctx /\ (keystream_bytes_used ctx < 64) /\
      keystream8 ctx = rfc_block (st (q - 1))))%nat.

Lemma use_leftover_spec ks : forall input used p,
  (used <= 64)%nat -> (forall i, (used <= i < 64)%nat -> nth i ks 0 = f (p + (i - used))) ->
  let k := Nat.min (64 - used) (length input) in
  use_leftover ks used input = (xors p (take k input), (used + k)%nat, drop k input).
Proof using.
  induction input as [|b input IH]; intros used p Hu Hk k; subst k; cbn [use_leftover length].
  { rewrite Nat.min_0_r, Nat.add_0_r. reflexivity. }
  unfold CHACHA20_BLOCK_SIZE_BYTES. destruct (used <? 64)%nat eqn:E; to_prop.
  - rewrite (IH (used + 1)%nat (p + 1)%nat) by
      (try lia; intros i Hi; rewrite Hk by lia; f_equal; lia).
    replace (Nat.min (64 - used) (S (length input))) with (S (Nat.min (64 - (used + 1)) (length input))) by lia.
    set (k := Nat.min (64 - (used + 1)) (length input)). cbn [take drop].
    change (b :: take k input) with ([b] ++ take k input). rewrite xors_app. cbn [length].
    unfold xors at 2. cbn [length seq map zip_with]. rewrite (Hk used) by lia.
    replace (p + (used - used))%nat with p by lia. cbn [app]. f_equal. f_equal. lia.
  - replace (64 - used)%nat with 0%nat by lia. cbn. rewrite Nat.add_0_r. reflexivity.
Qed.

Lemma full_blocks_spec fuel : forall q ks input,
  (length input <= fuel)%nat ->
  let m := (length input / 64)%nat in
  exists ks', full_blocks fuel (st q) ks input =
    (xors (64 * q) (take (64 * m) input), st (q + m), ks', drop (64 * m) input) /\
    (m = 0%nat -> ks' = ks).
Proof using.
  induction fuel as [|fuel IH]; intros q ks input Hl m.
  { destruct input; [|cbn [length] in Hl; lia]. exists ks. subst m. cbn. rewrite Nat.add_0_r. by split. }
  cbn [full_blocks]. unfold CHACHA20_BLOCK_SIZE_BYTES. destruct (64 <=? length input)%nat eqn:E; to_prop.
  - destruct (IH (S q) (chacha20_block (st q)) (drop 64 input)) as (ks' & Eb & _); [rewrite length_drop; lia|].
    rewrite length_drop in Eb. set (m' := ((length input - 64) / 64)%nat) in *.
    assert (Em : m = S m').
    { unfold m, m'. replace (length input) with (length input - 64 + 1 * 64)%nat at 1 by lia.
      rewrite Nat.div_add by lia. lia. }
    rewrite next_counter_eq, Eb. exists ks'. split; [|lia]. rewrite block_eq, xor_block by (try reflexivity; rewrite length_take; lia).
    replace (64 * m)%nat with (64 + 64 * m')%nat by lia.
    replace (take (64 + 64 * m') input) with (take 64 input ++ take (64 * m') (drop 64 input)) by apply take_take_drop.
    rewrite xors_app, drop_drop, length_take, Nat.min_l by lia.
    replace (64 * q + 64)%nat with (64 * S q)%nat by lia. replace (q + m)%nat with (S q + m')%nat by lia. reflexivity.
  - assert (Em : m = 0%nat) by (apply Nat.div_small; lia). rewrite Em. exists ks.
    cbn. rewrite Nat.add_0_r. by split.
Qed.
(** The blocks and the partial block after the leftover bytes. *)
Lemma blocks_and_rest q ks input out1 :
  exists ctx',
    (let '(out2, s, ks, rest) := full_blocks (length input) (st q) ks input in
     if (0 <? length rest)%nat then
       let ks := chacha20_block s in
       (mkChacha20 (next_counter s) ks (length rest), out1 ++ out2 ++ xor_bytes rest ks)
     else (mkChacha20 s ks 64, out1 ++ out2)) = (ctx', out1 ++ xors (64 * q) input) /\
    at_byte ctx' (64 * q + length input).
Proof using.
  destruct (full_blocks_spec (length input) q ks input ltac:(lia)) as (ks' & -> & _).
  set (m := (length input / 64)%nat). pose proof (Nat.div_mod_eq (length input) 64) as D. fold m in D.
  pose proof (Nat.mod_upper_bound (length input) 64 ltac:(lia)).
  rewrite length_drop, (xors_split (64 * q) (64 * m) input) by lia.
  destruct (0 <? length input - 64 * m)%nat eqn:E; to_prop; eexists; split.
  - f_equal. f_equal. f_equal. rewrite block_eq by apply rfc_state_length. rewrite xor_block by (rewrite length_drop; lia).
    by replace (64 * q + 64 * m)%nat with (64 * (q + m))%nat by lia.
  - exists (S (q + m)). cbn [state keystream_bytes_used keystream8]. split; [apply next_counter_eq|]. right.
    split; [lia|]. split; [lia|]. split; [lia|]. rewrite block_eq by apply rfc_state_length.
    by replace (S (q + m) - 1)%nat with (q + m)%nat by lia.
  - rewrite (drop_ge input) by lia. change (xors (64 * q + 64 * m) []) with (@nil Z). by rewrite app_nil_r.
  - exists (q + m)%nat. cbn [state keystream_bytes_used]. split; [reflexivity|]. left. lia.
Qed.

Lemma update_at ctx p input :
  at_byte ctx p ->
  exists ctx', mbedtls_chacha20_update ctx input = (ctx', xors p input) /\ at_byte ctx' (p + length input).
Proof using.
  intros (q & Hs & Hp). unfold mbedtls_chacha20_update.
  assert (Hu : (keystream_bytes_used ctx <= 64)%nat) by lia.
  assert (Hks : forall i, (keystream_bytes_used ctx <= i < 64)%nat ->
    nth i (keystream8 ctx) 0 = f (p + (i - keystream_bytes_used ctx))).
  { intros i Hi. destruct Hp as [Hp|(Hq & Hp & Hlt & ->)]; [lia|].
    replace (p + (i - keystream_bytes_used ctx))%nat with (64 * (q - 1) + i)%nat by lia.
    symmetry. apply keystream_nth. lia. }
  rewrite (use_leftover_spec _ _ _ p Hu Hks). cbn zeta. set (used := keystream_bytes_used ctx) in *.
  set (k := Nat.min (64 - used) (length input)). rewrite Hs.
  destruct (Nat.eq_dec (used + k)%nat 64%nat) as [Ek|Ek].
  - destruct (blocks_and_rest q (keystream8 ctx) (drop k input) (xors p (take k input))) as (ctx' & E & A).
    cbn zeta in E. rewrite Ek. exists ctx'. rewrite E. split.
    + f_equal. rewrite (xors_split p k input) by lia. f_equal. f_equal. lia.
    + rewrite length_drop in A. replace (p + length input)%nat with (64 * q + (length input - k))%nat by lia. exact A.
  - assert (k = length input) by lia. rewrite drop_ge, take_ge by lia. cbn [length full_blocks].
    change (0 <? 0)%nat with false. cbv iota. rewrite app_nil_r.
    eexists. split; [reflexivity|]. exists q. cbn [state keystream_bytes_used keystream8].
    split; [reflexivity|]. right. destruct Hp as [Hp|(Hq & Hp & Hlt & E)]; [lia|]. split; [lia|]. split; [lia|]. split; [lia|]. exact E.
Qed.

(** All updates, and the bytes they give out. *)
Fixpoint updates (ctx : mbedtls_chacha20_context) (inputs : list bytes) : bytes :=
  match inputs with
  | [] => []
  | input :: inputs => let '(ctx', out) := mbedtls_chacha20_update ctx input in out ++ updates ctx' inputs
  end.

Lemma updates_at inputs : forall ctx p, at_byte ctx p -> updates ctx inputs = xors p (concat inputs).
Proof using.
  induction inputs as [|input inputs IH]; intros ctx p H; [reflexivity|]. cbn [updates concat].
  destruct (update_at ctx p input H) as (ctx' & -> & H'). rewrite xors_app. f_equal. by apply IH.
Qed.

(** The state after the key, the nonce and the counter are set. *)
Lemma start_at ctx :
  bytes_ok key -> bytes_ok nonce -> length key = 32%nat -> length nonce = 12%nat -> 0 <= counter < 2 ^ 32 ->
  at_byte (mbedtls_chacha20_starts (mbedtls_chacha20_setkey ctx key) nonce counter) 0.
Proof using.
  intros Hk Hn Lk Ln Hc. exists 0%nat. split; [|left; split; reflexivity].
  unfold mbedtls_chacha20_starts, mbedtls_chacha20_setkey, rfc_state. cbn [state].
  rewrite !app_assoc, take_app_exact by reflexivity. rewrite <- !app_assoc.
  assert (W : forall n s, bytes_ok s -> (4 * n <= length s)%nat ->
    words_le n s = map (fun i => le_val (take 4 (drop (4 * i) s))) (seq 0 n)).
  { intros n s Hs Hl. apply map_ext_in. intros i Hi%in_seq. apply get32_le; [exact Hs|lia]. }
  rewrite !W by (assumption || lia). rewrite Z.add_0_r, Z.mod_small by lia. reflexivity.
Qed.
End Stream.

(** However a message is cut into updates, the output is the message xored
    with the keystream of RFC 8439; the block counter wraps at 2^32. *)
Theorem chacha20_stream_correct ctx key nonce counter inputs :
  bytes_ok key -> bytes_ok nonce -> length key = 32%nat -> length nonce = 12%nat -> 0 <= counter < 2 ^ 32 ->
  updates (mbedtls_chacha20_starts (mbedtls_chacha20_setkey ctx key) nonce counter) inputs =
  rfc_chacha20 key nonce counter (concat inputs).
Proof.
  intros Hk Hn Lk Ln Hc. rewrite (updates_at key nonce counter _ _ 0) by (by apply start_at). reflexivity.
Qed.

Lemma chacha20_stream_correct_witness :
  let key := repeat 0 31 ++ [1] in
  let nonce := repeat 0 11 ++ [2] in
  updates (mbedtls_chacha20_starts (mbedtls_chacha20_setkey mbedtls_chacha20_init key) nonce 1)
    [str "Any sub"; str "miss"] = rfc_chacha20 key nonce 1 (str "Any submiss") /\
  rfc_chacha20 key nonce 1 (str "Any submiss") = [0xa3; 0xfb; 0xf0; 0x7d; 0xf3; 0xfa; 0x2f; 0xde; 0x4f; 0x37; 0x6c].
Proof.
  split; [|vm_compute; reflexivity].
  apply (chacha20_stream_correct mbedtls_chacha20_init (repeat 0 31 ++ [1]) (repeat 0 11 ++ [2]) 1
    [str "Any sub"; str "miss"]); [bytes_ok_closed|bytes_ok_closed|reflexivity|reflexivity|lia].
Defined.
End ChaCha20.
