(* ===== verification/Poly1305.v ===== *)
(** Poly1305 (mbedtls/library/poly1305.c): the block function on 32-bit limbs
    with its 64-bit intermediate sums and partial reduction, the final
    reduction by masks, and the streaming context with its queue of up to 15
    bytes.  No sum overflows its width, and the tag of a message cut into any
    updates is the one of RFC 8439, the polynomial modulo 2^130 - 5. *)
From S2P Require Import Prelude Words.
From stdpp Require Import list.
#[local] Open Scope Z_scope.

Module Poly1305.

Definition POLY1305_BLOCK_SIZE_BYTES : nat := 16.

Definition mul64 (a b : Z) : Z := u64 (a * b).

Definition limbs4 : Type := Z * Z * Z * Z.
Definition limbs5 : Type := Z * Z * Z * Z * Z.

Record mbedtls_poly1305_context := mkPoly1305 {
  r : limbs4;
  s : limbs4;
  acc : limbs5;
  queue : bytes;
  queue_len : nat;
}.

(** ** The block function *)

(** "acc += (padded) block as a 130-bit integer" *)
Definition add_block (acc : limbs5) (input : bytes) (offset : nat) (needs_padding : Z) : limbs5 :=
  let '(acc0, acc1, acc2, acc3, acc4) := acc in
  let d0 := MBEDTLS_GET_UINT32_LE input (offset + 0) in
  let d1 := MBEDTLS_GET_UINT32_LE input (offset + 4) in
  let d2 := MBEDTLS_GET_UINT32_LE input (offset + 8) in
  let d3 := MBEDTLS_GET_UINT32_LE input (offset + 12) in
  let d0 := u64 (d0 + acc0) in
  let d1 := u64 (d1 + u64 (acc1 + Z.shiftr d0 32)) in
  let d2 := u64 (d2 + u64 (acc2 + Z.shiftr d1 32)) in
  let d3 := u64 (d3 + u64 (acc3 + Z.shiftr d2 32)) in
  (u32 d0, u32 d1, u32 d2, u32 d3, u32 (acc4 + u32 (u32 (Z.shiftr d3 32) + needs_padding))).

(** "acc *= r" *)
Definition mul_r (r : limbs4) (acc : limbs5) : Z * Z * Z * Z * Z :=
  let '(r0, r1, r2, r3) := r in
  let rs1 := u32 (r1 + Z.shiftr r1 2) in
  let rs2 := u32 (r2 + Z.shiftr r2 2) in
  let rs3 := u32 (r3 + Z.shiftr r3 2) in
  let '(acc0, acc1, acc2, acc3, acc4) := acc in
  let d0 := u64 (mul64 acc0 r0 + mul64 acc1 rs3 + mul64 acc2 rs2 + mul64 acc3 rs1) in
  let d1 := u64 (mul64 acc0 r1 + mul64 acc1 r0 + mul64 acc2 rs3 + mul64 acc3 rs2 + mul64 acc4 rs1) in
  let d2 := u64 (mul64 acc0 r2 + mul64 acc1 r1 + mul64 acc2 r0 + mul64 acc3 rs3 + mul64 acc4 rs2) in
  let d3 := u64 (mul64 acc0 r3 + mul64 acc1 r2 + mul64 acc2 r1 + mul64 acc3 r0 + mul64 acc4 rs3) in
  (d0, d1, d2, d3, u32 (acc4 * r0)).

(** "acc %= (2^130 - 5) (partial remainder)" *)
Definition partial_remainder (d : Z * Z * Z * Z * Z) : limbs5 :=
  let '(d0, d1, d2, d3, acc4) := d in
  let d1 := u64 (d1 + Z.shiftr d0 32) in
  let d2 := u64 (d2 + Z.shiftr d1 32) in
  let d3 := u64 (d3 + Z.shiftr d2 32) in
  let acc0 := u32 d0 in
  let acc1 := u32 d1 in
  let acc2 := u32 d2 in
  let acc3 := u32 d3 in
  let acc4 := u32 (u32 (Z.shiftr d3 32) + acc4) in
  let d0 := u64 (acc0 + Z.shiftr acc4 2 + Z.land acc4 0xFFFFFFFC) in
  let acc4 := Z.land acc4 3 in
  let acc0 := u32 d0 in
  let d0 := u64 (acc1 + Z.shiftr d0 32) in
  let acc1 := u32 d0 in
  let d0 := u64 (acc2 + Z.shiftr d0 32) in
  let acc2 := u32 d0 in
  let d0 := u64 (acc3 + Z.shiftr d0 32) in
  let acc3 := u32 d0 in
  let d0 := u64 (acc4 + Z.shiftr d0 32) in
  (acc0, acc1, acc2, acc3, u32 d0).

Definition one_block (r : limbs4) (acc : limbs5) (input : bytes) (offset : nat) (needs_padding : Z) : limbs5 :=
  partial_remainder (mul_r r (add_block acc input offset needs_padding)).

Fixpoint process_loop (nblocks : nat) (r : limbs4) (acc : limbs5) (input : bytes) (offset : nat)
    (needs_padding : Z) : limbs5 :=
  match nblocks with
  | O => acc
  | S n =>
      process_loop n r (one_block r acc input offset needs_padding) input
        (offset + POLY1305_BLOCK_SIZE_BYTES) needs_padding
  end.

Definition set_acc (ctx : mbedtls_poly1305_context) (a : limbs5) : mbedtls_poly1305_context :=
  mkPoly1305 (r ctx) (s ctx) a (queue ctx) (queue_len ctx).

Definition set_queue (ctx : mbedtls_poly1305_context) (q : bytes) (n : nat) : mbedtls_poly1305_context :=
  mkPoly1305 (r ctx) (s ctx) (acc ctx) q n.

Definition poly1305_process (ctx : mbedtls_poly1305_context) (nblocks : nat) (input : bytes)
    (needs_padding : Z) : mbedtls_poly1305_context :=
  set_acc ctx (process_loop nblocks (r ctx) (acc ctx) input 0 needs_padding).

(** ** The tag *)

Definition poly1305_compute_mac (ctx : mbedtls_poly1305_context) : bytes :=
  let '(acc0, acc1, acc2, acc3, acc4) := acc ctx in
  let '(s0, s1, s2, s3) := s ctx in
  let d := u64 (acc0 + 5) in
  let g0 := u32 d in
  let d := u64 (acc1 + Z.shiftr d 32) in
  let g1 := u32 d in
  let d := u64 (acc2 + Z.shiftr d 32) in
  let g2 := u32 d in
  let d := u64 (acc3 + Z.shiftr d 32) in
  let g3 := u32 d in
  let g4 := u32 (acc4 + u32 (Z.shiftr d 32)) in
  let mask := u32 (0 - Z.shiftr g4 2) in
  let mask_inv := u32 (Z.lnot mask) in
  let acc0 := Z.lor (Z.land acc0 mask_inv) (Z.land g0 mask) in
  let acc1 := Z.lor (Z.land acc1 mask_inv) (Z.land g1 mask) in
  let acc2 := Z.lor (Z.land acc2 mask_inv) (Z.land g2 mask) in
  let acc3 := Z.lor (Z.land acc3 mask_inv) (Z.land g3 mask) in
  let d := u64 (acc0 + s0) in
  let acc0 := u32 d in
  let d := u64 (acc1 + s1 + Z.shiftr d 32) in
  let acc1 := u32 d in
  let d := u64 (acc2 + s2 + Z.shiftr d 32) in
  let acc2 := u32 d in
  let acc3 := u32 (acc3 + u32 (s3 + u32 (Z.shiftr d 32))) in
  MBEDTLS_PUT_UINT32_LE acc0 ++ MBEDTLS_PUT_UINT32_LE acc1 ++
  MBEDTLS_PUT_UINT32_LE acc2 ++ MBEDTLS_PUT_UINT32_LE acc3.

(** ** The functions *)

Definition mbedtls_poly1305_init : mbedtls_poly1305_context :=
  mkPoly1305 (0, 0, 0, 0) (0, 0, 0, 0) (0, 0, 0, 0, 0) (repeat 0 16) 0.

Definition mbedtls_poly1305_starts (ctx : mbedtls_poly1305_context) (key : bytes) : mbedtls_poly1305_context :=
  mkPoly1305
    (Z.land (MBEDTLS_GET_UINT32_LE key 0) 0x0FFFFFFF, Z.land (MBEDTLS_GET_UINT32_LE key 4) 0x0FFFFFFC,
     Z.land (MBEDTLS_GET_UINT32_LE key 8) 0x0FFFFFFC, Z.land (MBEDTLS_GET_UINT32_LE key 12) 0x0FFFFFFC)
    (MBEDTLS_GET_UINT32_LE key 16, MBEDTLS_GET_UINT32_LE key 20,
     MBEDTLS_GET_UINT32_LE key 24, MBEDTLS_GET_UINT32_LE key 28)
    (0, 0, 0, 0, 0) (repeat 0 16) 0.

(** The full blocks of the input, then the partial block. *)
Definition update_blocks (ctx : mbedtls_poly1305_context) (input : bytes) (offset remaining : nat) :
    mbedtls_poly1305_context :=
  let '(ctx, offset, remaining) :=
    if (POLY1305_BLOCK_SIZE_BYTES <=? remaining)%nat then
      let nblocks := (remaining / POLY1305_BLOCK_SIZE_BYTES)%nat in
      (poly1305_process ctx nblocks (drop offset input) 1,
       (offset + nblocks * POLY1305_BLOCK_SIZE_BYTES)%nat, (remaining mod POLY1305_BLOCK_SIZE_BYTES)%nat)
    else (ctx, offset, remaining) in
  if (0 <? remaining)%nat then
    set_queue ctx (put_at (queue ctx) 0 (take remaining (drop offset input))) remaining
  else ctx.

Definition mbedtls_poly1305_update (ctx : mbedtls_poly1305_context) (input : bytes) : mbedtls_poly1305_context :=
  let ilen := length input in
  let remaining := ilen in
  let '(ctx, offset, remaining) :=
    if (0 <? remaining)%nat && (0 <? queue_len ctx)%nat then
      let queue_free_len := (POLY1305_BLOCK_SIZE_BYTES - queue_len ctx)%nat in
      if (ilen <? queue_free_len)%nat then
        (set_queue ctx (put_at (queue ctx) (queue_len ctx) input) (queue_len ctx + ilen), 0%nat, 0%nat)
      else
        let ctx := set_queue ctx (put_at (queue ctx) (queue_len ctx) (take queue_free_len input)) 0 in
        (poly1305_process ctx 1 (queue ctx) 1, queue_free_len, (remaining - queue_free_len)%nat)
    else (ctx, 0%nat, remaining) in
  update_blocks ctx input offset remaining.

Definition mbedtls_poly1305_finish (ctx : mbedtls_poly1305_context) : bytes :=
  let ctx :=
    if (0 <? queue_len ctx)%nat then
      let q := put_at (queue ctx) (queue_len ctx) [1] in
      let n := (queue_len ctx + 1)%nat in
      let q := put_at q n (repeat 0 (POLY1305_BLOCK_SIZE_BYTES - n)) in
      poly1305_process (set_queue ctx q n) 1 q 0
    else ctx in
  poly1305_compute_mac ctx.

Definition mbedtls_poly1305_mac (key input : bytes) : bytes :=
  let ctx := mbedtls_poly1305_init in
  let ctx := mbedtls_poly1305_starts ctx key in
  let ctx := mbedtls_poly1305_update ctx input in
  mbedtls_poly1305_finish ctx.

(** ** RFC 8439 *)

Section Rfc.
Definition p1305 : Z := 2 ^ 130 - 5.

Definition clamp (x : Z) : Z := Z.land x 0x0ffffffc0ffffffc0ffffffc0fffffff.

(** One block, of 16 bytes or fewer at the end of the message. *)
Definition rfc_step (r a : Z) (block : bytes) : Z := ((a + le_val (block ++ [1])) * r) mod p1305.

Fixpoint rfc_blocks (fuel : nat) (r a : Z) (msg : bytes) : Z :=
  match fuel, msg with
  | S fuel, _ :: _ => rfc_blocks fuel r (rfc_step r a (take 16 msg)) (drop 16 msg)
  | _, _ => a
  end.

Definition rfc_poly1305 (key msg : bytes) : bytes :=
  let r := clamp (le_val (take 16 key)) in
  let s := le_val (take 16 (drop 16 key)) in
  le_bytes 16 (rfc_blocks (length msg) r 0 msg + s).
End Rfc.
(** ** The limb arithmetic *)

Definition word (x : Z) : Prop := 0 <= x < 2 ^ 32.

Definition value4 (x : limbs4) : Z :=
  let '(x0, x1, x2, x3) := x in x0 + 2 ^ 32 * x1 + 2 ^ 64 * x2 + 2 ^ 96 * x3.

Definition value5 (x : limbs5) : Z :=
  let '(x0, x1, x2, x3, x4) := x in x0 + 2 ^ 32 * x1 + 2 ^ 64 * x2 + 2 ^ 96 * x3 + 2 ^ 128 * x4.

(** The accumulator between two blocks: its top limb is at most 4. *)
Definition acc_ok (top : Z) (x : limbs5) : Prop :=
  let '(x0, x1, x2, x3, x4) := x in word x0 /\ word x1 /\ word x2 /\ word x3 /\ 0 <= x4 <= top.

(** What the clamp gives: limbs below 2^28, the upper three multiples of 4. *)
Definition r_ok (r : limbs4) : Prop :=
  let '(r0, r1, r2, r3) := r in
  0 <= r0 < 2 ^ 28 /\
  (exists q1, r1 = 4 * q1 /\ 0 <= q1 < 2 ^ 26) /\ (exists q2, r2 = 4 * q2 /\ 0 <= q2 < 2 ^ 26) /\
  (exists q3, r3 = 4 * q3 /\ 0 <= q3 < 2 ^ 26).

Lemma mul_le a b x y : 0 <= a <= x -> 0 <= b <= y -> 0 <= a * b <= x * y.
Proof. intros Ha Hb. split; [nia|]. apply Z.mul_le_mono_nonneg; lia. Qed.

Lemma u64_small z : 0 <= z < 2 ^ 64 -> u64 z = z.
Proof. apply Z.mod_small. Qed.

(** A sum split into its low word and its carry. *)
Lemma carry_word z : 0 <= z < 2 ^ 64 ->
  u32 z + 2 ^ 32 * Z.shiftr z 32 = z /\ word (u32 z) /\ 0 <= Z.shiftr z 32 < 2 ^ 32 /\ Z.shiftr z 32 = z / 2 ^ 32.
Proof.
  intros Hz. rewrite Z.shiftr_div_pow2 by lia. unfold u32, word.
  pose proof (Z.div_mod z (2 ^ 32) ltac:(lia)). pose proof (Z.mod_pos_bound z (2 ^ 32) ltac:(lia)).
  split; [lia|]. split; [lia|]. split; [|reflexivity]. split; [apply Z.div_pos; lia|apply Z.div_lt_upper_bound; lia].
Qed.

(** Introduce the two parts of a sum that fits 64 bits, and forget the sum's form. *)
Ltac split_sum z :=
  let H := fresh "Hsum" in
  assert (H : 0 <= z < 2 ^ 64) by lia;
  rewrite ?(u64_small z H) in *;
  destruct (carry_word z H) as (? & ? & ? & _); unfold word in *.

Lemma get32_word input off : bytes_ok input -> (off + 4 <= length input)%nat -> word (MBEDTLS_GET_UINT32_LE input off).
Proof.
  intros Hi Ho. rewrite get32_le by assumption. pose proof (le_val_range (take 4 (drop off input))) as Hr.
  rewrite length_take, length_drop, Nat.min_l in Hr by lia. apply Hr.
  apply Forall_take, Forall_drop, Hi.
Qed.

(** Four words of the input as one number. *)
Lemma get_block input off :
  bytes_ok input -> (off + 16 <= length input)%nat ->
  value4 (MBEDTLS_GET_UINT32_LE input (off + 0), MBEDTLS_GET_UINT32_LE input (off + 4),
          MBEDTLS_GET_UINT32_LE input (off + 8), MBEDTLS_GET_UINT32_LE input (off + 12)) =
  le_val (take 16 (drop off input)).
Proof.
  intros Hi Ho. unfold value4. rewrite !get32_le by (assumption || lia).
  rewrite <- !drop_drop.
  assert (Hl : (16 <= length (drop off input))%nat) by (rewrite length_drop; lia).
  generalize dependent (drop off input). intros l Hl.
  replace (take 16 l) with (take 4 l ++ take 4 (drop 4 l) ++ take 4 (drop 8 l) ++ take 4 (drop 12 l)).
  - rewrite !le_val_app, !length_take, !length_drop. rewrite !Nat.min_l by lia. change (256 ^ Z.of_nat 4) with (2 ^ 32). change (drop 0 l) with l. lia.
  - do 16 (destruct l as [|? l]; [cbn [length] in Hl; lia|]). reflexivity.
Qed.

Lemma add_block_spec acc input off pad :
  acc_ok 4 acc -> bytes_ok input -> (off + 16 <= length input)%nat -> 0 <= pad <= 1 ->
  acc_ok 6 (add_block acc input off pad) /\
  value5 (add_block acc input off pad) = value5 acc + le_val (take 16 (drop off input)) + 2 ^ 128 * pad.
Proof.
  intros Ha Hi Ho Hp. rewrite <- get_block by assumption. unfold value4.
  destruct acc as [[[[a0 a1] a2] a3] a4]. destruct Ha as (H0 & H1 & H2 & H3 & H4). unfold add_block.
  pose proof (get32_word input (off + 0) Hi ltac:(lia)). pose proof (get32_word input (off + 4) Hi ltac:(lia)).
  pose proof (get32_word input (off + 8) Hi ltac:(lia)). pose proof (get32_word input (off + 12) Hi ltac:(lia)).
  set (w0 := MBEDTLS_GET_UINT32_LE _ (off + 0)) in *. set (w1 := MBEDTLS_GET_UINT32_LE _ (off + 4)) in *.
  set (w2 := MBEDTLS_GET_UINT32_LE _ (off + 8)) in *. set (w3 := MBEDTLS_GET_UINT32_LE _ (off + 12)) in *.
  clearbody w0 w1 w2 w3. unfold word in *. cbn zeta.
  split_sum (w0 + a0). set (c0 := Z.shiftr (w0 + a0) 32) in *.
  rewrite (u64_small (a1 + c0)) by lia. split_sum (w1 + (a1 + c0)). set (c1 := Z.shiftr (w1 + (a1 + c0)) 32) in *.
  rewrite (u64_small (a2 + c1)) by lia. split_sum (w2 + (a2 + c1)). set (c2 := Z.shiftr (w2 + (a2 + c1)) 32) in *.
  rewrite (u64_small (a3 + c2)) by lia. split_sum (w3 + (a3 + c2)). set (c3 := Z.shiftr (w3 + (a3 + c2)) 32) in *.
  assert (c3 <= 1) by lia. rewrite (u32_small c3), (u32_small (c3 + pad)), (u32_small (a4 + (c3 + pad))) by lia.
  unfold acc_ok, value5, word. lia.
Qed.
Lemma mul64_small a b B : word a -> 0 <= b <= B -> B < 2 ^ 31 -> mul64 a b = a * b /\ 0 <= a * b <= (2 ^ 32 - 1) * B.
Proof.
  intros Ha Hb HB. unfold word in Ha. pose proof (mul_le a b (2 ^ 32 - 1) B ltac:(lia) Hb).
  split; [|lia]. apply u64_small. lia.
Qed.

Definition sums_ok (d : Z * Z * Z * Z * Z) : Prop :=
  let '(d0, d1, d2, d3, a4) := d in
  0 <= d0 < 6 * 2 ^ 60 /\ 0 <= d1 < 6 * 2 ^ 60 /\ 0 <= d2 < 6 * 2 ^ 60 /\ 0 <= d3 < 6 * 2 ^ 60 /\
  0 <= a4 <= 6 * 2 ^ 28.

Lemma rs_eq q : 0 <= q < 2 ^ 26 -> u32 (4 * q + Z.shiftr (4 * q) 2) = 5 * q.
Proof.
  intros Hq. rewrite Z.shiftr_div_pow2 by lia. change (2 ^ 2) with 4.
  rewrite Z.mul_comm, Z.div_mul by lia. rewrite u32_small by lia. lia.
Qed.

(** A product of a limb and a limb of [r], and sums of such products. *)
Definition product_ok (x : Z) : Prop := 0 <= x <= 5 * 2 ^ 58.

Lemma mul64_product a b : word a -> 0 <= b <= 5 * 2 ^ 26 -> mul64 a b = a * b /\ product_ok (a * b).
Proof.
  intros Ha Hb. destruct (mul64_small a b (5 * 2 ^ 26) Ha Hb ltac:(lia)) as [E H].
  split; [exact E|]. unfold product_ok. lia.
Qed.

Lemma u64_sum4 a b c d :
  product_ok a -> product_ok b -> product_ok c -> product_ok d ->
  u64 (a + b + c + d) = a + b + c + d /\ 0 <= a + b + c + d < 6 * 2 ^ 60.
Proof. unfold product_ok. intros. split; [apply u64_small|]; lia. Qed.

Lemma u64_sum5 a b c d e :
  product_ok a -> product_ok b -> product_ok c -> product_ok d -> 0 <= e <= 2 ^ 34 ->
  u64 (a + b + c + d + e) = a + b + c + d + e /\ 0 <= a + b + c + d + e < 6 * 2 ^ 60.
Proof. unfold product_ok. intros. split; [apply u64_small|]; lia. Qed.

Lemma mul_r_spec r acc :
  r_ok r -> acc_ok 6 acc ->
  sums_ok (mul_r r acc) /\ exists c, value5 (mul_r r acc) = value5 acc * value4 r - p1305 * c.
Proof.
  destruct r as [[[r0 r1] r2] r3]. intros (H0 & (q1 & -> & Hq1) & (q2 & -> & Hq2) & (q3 & -> & Hq3)).
  destruct acc as [[[[a0 a1] a2] a3] a4]. intros (A0 & A1 & A2 & A3 & A4). unfold mul_r. rewrite !rs_eq by assumption.
  assert (A4' : word a4) by (unfold word; lia).
  assert (R0 : 0 <= r0 <= 5 * 2 ^ 26) by lia.
  assert (R1 : 0 <= 4 * q1 <= 5 * 2 ^ 26) by lia. assert (S1 : 0 <= 5 * q1 <= 5 * 2 ^ 26) by lia.
  assert (R2 : 0 <= 4 * q2 <= 5 * 2 ^ 26) by lia. assert (S2 : 0 <= 5 * q2 <= 5 * 2 ^ 26) by lia.
  assert (R3 : 0 <= 4 * q3 <= 5 * 2 ^ 26) by lia. assert (S3 : 0 <= 5 * q3 <= 5 * 2 ^ 26) by lia.
  assert (T : forall q, 0 <= q <= 5 * 2 ^ 26 -> 0 <= a4 * q <= 2 ^ 34).
  { intros q Hq. pose proof (mul_le a4 q 6 (5 * 2 ^ 26) A4 Hq). lia. }
  assert (T0 : 0 <= a4 * r0 <= 6 * 2 ^ 28) by (pose proof (mul_le a4 r0 6 (2 ^ 28) A4 ltac:(lia)); lia).
  rewrite !(proj1 (mul64_product _ _ A0 R0)), !(proj1 (mul64_product _ _ A0 R1)), !(proj1 (mul64_product _ _ A0 R2)),
    !(proj1 (mul64_product _ _ A0 R3)), !(proj1 (mul64_product _ _ A1 S3)), !(proj1 (mul64_product _ _ A1 R0)),
    !(proj1 (mul64_product _ _ A1 R1)), !(proj1 (mul64_product _ _ A1 R2)), !(proj1 (mul64_product _ _ A2 S2)),
    !(proj1 (mul64_product _ _ A2 S3)), !(proj1 (mul64_product _ _ A2 R0)), !(proj1 (mul64_product _ _ A2 R1)),
    !(proj1 (mul64_product _ _ A3 S1)), !(proj1 (mul64_product _ _ A3 S2)), !(proj1 (mul64_product _ _ A3 S3)),
    !(proj1 (mul64_product _ _ A3 R0)), !(proj1 (mul64_product _ _ A4' S1)), !(proj1 (mul64_product _ _ A4' S2)),
    !(proj1 (mul64_product _ _ A4' S3)).
  destruct (u64_sum4 (a0 * r0) (a1 * (5 * q3)) (a2 * (5 * q2)) (a3 * (5 * q1))) as [-> B0];
    [by apply mul64_product..|].
  destruct (u64_sum5 (a0 * (4 * q1)) (a1 * r0) (a2 * (5 * q3)) (a3 * (5 * q2)) (a4 * (5 * q1))) as [-> B1];
    [by apply mul64_product..|by apply T|].
  destruct (u64_sum5 (a0 * (4 * q2)) (a1 * (4 * q1)) (a2 * r0) (a3 * (5 * q3)) (a4 * (5 * q2))) as [-> B2];
    [by apply mul64_product..|by apply T|].
  destruct (u64_sum5 (a0 * (4 * q3)) (a1 * (4 * q2)) (a2 * (4 * q1)) (a3 * r0) (a4 * (5 * q3))) as [-> B3];
    [by apply mul64_product..|by apply T|].
  rewrite (u32_small (a4 * r0)) by (clear - T0; lia). split; [exact (conj B0 (conj B1 (conj B2 (conj B3 T0))))|].
  exists ((a1 * q3 + a2 * q2 + a3 * q1) + 2 ^ 32 * (a2 * q3 + a3 * q2 + a4 * q1) +
          2 ^ 64 * (a3 * q3 + a4 * q2) + 2 ^ 96 * (a4 * q3)).
  unfold value5, value4, p1305. ring.
Qed.

Lemma partial_remainder_spec d :
  sums_ok d -> acc_ok 4 (partial_remainder d) /\ exists c, value5 (partial_remainder d) = value5 d - p1305 * c.
Proof.
  destruct d as [[[[d0 d1] d2] d3] a4]. intros (H0 & H1 & H2 & H3 & H4). unfold partial_remainder. cbn zeta.
  split_sum d0. set (c0 := Z.shiftr d0 32) in *.
  split_sum (d1 + c0). set (c1 := Z.shiftr (d1 + c0) 32) in *.
  split_sum (d2 + c1). set (c2 := Z.shiftr (d2 + c1) 32) in *.
  split_sum (d3 + c2). set (c3 := Z.shiftr (d3 + c2) 32) in *.
  rewrite (u32_small c3), (u32_small (c3 + a4)) by lia. set (t := c3 + a4) in *.
  assert (Ht : 0 <= t < 2 ^ 32) by lia.
  rewrite land_clear2, land_3 by exact Ht. rewrite Z.shiftr_div_pow2 by lia. change (2 ^ 2) with 4.
  pose proof (Z.div_mod t 4 ltac:(lia)) as Dt. pose proof (Z.mod_pos_bound t 4 ltac:(lia)).
  set (h := t / 4) in *. set (l := t mod 4) in *. set (x0 := u32 d0) in *. set (x1 := u32 (d1 + c0)) in *.
  set (x2 := u32 (d2 + c1)) in *. set (x3 := u32 (d3 + c2)) in *.
  split_sum (x0 + h + 4 * h). set (e0 := Z.shiftr (x0 + h + 4 * h) 32) in *.
  split_sum (x1 + e0). set (e1 := Z.shiftr (x1 + e0) 32) in *.
  split_sum (x2 + e1). set (e2 := Z.shiftr (x2 + e1) 32) in *.
  split_sum (x3 + e2). set (e3 := Z.shiftr (x3 + e2) 32) in *.
  rewrite (u64_small (l + e3)), (u32_small (l + e3)) by lia.
  split; [unfold acc_ok, word; lia|]. exists h. unfold value5, p1305. lia.
Qed.

(** One block: the accumulator is the polynomial's next value modulo p. *)
Lemma one_block_spec r acc input off pad :
  r_ok r -> acc_ok 4 acc -> bytes_ok input -> (off + 16 <= length input)%nat -> 0 <= pad <= 1 ->
  acc_ok 4 (one_block r acc input off pad) /\
  value5 (one_block r acc input off pad) mod p1305 =
    ((value5 acc + (le_val (take 16 (drop off input)) + 2 ^ 128 * pad)) * value4 r) mod p1305.
Proof.
  intros Hr Ha Hi Ho Hp. destruct (add_block_spec acc input off pad Ha Hi Ho Hp) as [A1 V1].
  destruct (mul_r_spec r _ Hr A1) as [A2 (c2 & V2)]. destruct (partial_remainder_spec _ A2) as [A3 (c3 & V3)].
  split; [exact A3|]. unfold one_block. rewrite V3, V2, V1.
  rewrite <- (Z.add_assoc (value5 acc)).
  replace (_ - p1305 * c2 - p1305 * c3) with
    ((value5 acc + (le_val (take 16 (drop off input)) + 2 ^ 128 * pad)) * value4 r + - (c2 + c3) * p1305) by ring.
  apply Z.mod_add. discriminate.
Qed.
(** ** The tag *)

Lemma put_words x0 x1 x2 x3 :
  word x0 -> word x1 -> word x2 -> word x3 ->
  MBEDTLS_PUT_UINT32_LE x0 ++ MBEDTLS_PUT_UINT32_LE x1 ++ MBEDTLS_PUT_UINT32_LE x2 ++ MBEDTLS_PUT_UINT32_LE x3 =
  le_bytes 16 (value4 (x0, x1, x2, x3)).
Proof.
  intros H0 H1 H2 H3. rewrite !put32_le. unfold value4.
  replace (x0 + 2 ^ 32 * x1 + 2 ^ 64 * x2 + 2 ^ 96 * x3) with (x0 + 2 ^ 32 * (x1 + 2 ^ 32 * (x2 + 2 ^ 32 * x3))) by ring.
  change 16%nat with (4 + (4 + (4 + 4)))%nat. change (2 ^ 32) with (256 ^ Z.of_nat 4).
  rewrite !le_bytes_split by assumption. reflexivity.
Qed.

(** Selecting by an all-ones or all-zeros mask. *)
Lemma mask_select (b : bool) x y :
  word x -> word y ->
  let mask := u32 (0 - (if b then 1 else 0)) in
  Z.lor (Z.land x (u32 (Z.lnot mask))) (Z.land y mask) = if b then y else x.
Proof.
  intros Hx Hy mask. unfold word in *. destruct b; subst mask.
  - change (u32 (0 - 1)) with (Z.ones 32). change (u32 (Z.lnot (Z.ones 32))) with 0.
    rewrite Z.land_0_r, Z.land_ones, Z.mod_small by lia. reflexivity.
  - change (u32 (0 - 0)) with 0. change (u32 (Z.lnot 0)) with (Z.ones 32).
    rewrite Z.land_0_r, Z.lor_0_r, Z.land_ones, Z.mod_small by lia. reflexivity.
Qed.

Definition s_ok (s : limbs4) : Prop := let '(s0, s1, s2, s3) := s in word s0 /\ word s1 /\ word s2 /\ word s3.

(** "Add 's'" *)
Lemma add_s_spec x0 x1 x2 x3 s0 s1 s2 s3 :
  word x0 -> word x1 -> word x2 -> word x3 -> s_ok (s0, s1, s2, s3) ->
  (let d := u64 (x0 + s0) in
   let acc0 := u32 d in
   let d := u64 (x1 + s1 + Z.shiftr d 32) in
   let acc1 := u32 d in
   let d := u64 (x2 + s2 + Z.shiftr d 32) in
   let acc2 := u32 d in
   let acc3 := u32 (x3 + u32 (s3 + u32 (Z.shiftr d 32))) in
   MBEDTLS_PUT_UINT32_LE acc0 ++ MBEDTLS_PUT_UINT32_LE acc1 ++
   MBEDTLS_PUT_UINT32_LE acc2 ++ MBEDTLS_PUT_UINT32_LE acc3) =
  le_bytes 16 (value4 (x0, x1, x2, x3) + value4 (s0, s1, s2, s3)).
Proof.
  intros H0 H1 H2 H3 (G0 & G1 & G2 & G3). unfold word in *. cbn zeta.
  split_sum (x0 + s0). set (c0 := Z.shiftr (x0 + s0) 32) in *.
  split_sum (x1 + s1 + c0). set (c1 := Z.shiftr (x1 + s1 + c0) 32) in *.
  split_sum (x2 + s2 + c1). set (c2 := Z.shiftr (x2 + s2 + c1) 32) in *.
  rewrite (u32_small c2), u32_add_r by lia. rewrite put_words by (assumption || apply u32_range).
  apply le_bytes_cong. change (256 ^ Z.of_nat 16) with (2 ^ 128). unfold value4.
  pose proof (Z.div_mod (x3 + (s3 + c2)) (2 ^ 32) ltac:(lia)) as D.
  change ((x3 + (s3 + c2)) mod 2 ^ 32) with (u32 (x3 + (s3 + c2))) in D.
  set (k := (x3 + (s3 + c2)) / 2 ^ 32) in *.
  replace (x0 + 2 ^ 32 * x1 + 2 ^ 64 * x2 + 2 ^ 96 * x3 + (s0 + 2 ^ 32 * s1 + 2 ^ 64 * s2 + 2 ^ 96 * s3))
    with (u32 (x0 + s0) + 2 ^ 32 * u32 (x1 + s1 + c0) + 2 ^ 64 * u32 (x2 + s2 + c1) +
          2 ^ 96 * u32 (x3 + (s3 + c2)) + k * 2 ^ 128) by lia.
  symmetry. apply Z.mod_add. lia.
Qed.

Lemma compute_mac_spec ctx :
  acc_ok 4 (acc ctx) -> s_ok (s ctx) ->
  poly1305_compute_mac ctx = le_bytes 16 (value5 (acc ctx) mod p1305 + value4 (s ctx)).
Proof.
  unfold poly1305_compute_mac. destruct (acc ctx) as [[[[a0 a1] a2] a3] a4], (s ctx) as [[[s0 s1] s2] s3].
  intros (H0 & H1 & H2 & H3 & H4) Hs. unfold word in *. cbn zeta.
  split_sum (a0 + 5). set (c0 := Z.shiftr (a0 + 5) 32) in *.
  split_sum (a1 + c0). set (c1 := Z.shiftr (a1 + c0) 32) in *.
  split_sum (a2 + c1). set (c2 := Z.shiftr (a2 + c1) 32) in *.
  split_sum (a3 + c2). set (c3 := Z.shiftr (a3 + c2) 32) in *.
  assert (c3 <= 1) by lia. rewrite (u32_small c3), (u32_small (a4 + c3)) by lia.
  assert (E : Z.shiftr (a4 + c3) 2 = if 4 <=? a4 + c3 then 1 else 0).
  { rewrite Z.shiftr_div_pow2 by lia. change (2 ^ 2) with 4. case_ifs; [|apply Z.div_small; lia].
    symmetry. apply (Z.div_unique _ _ _ (a4 + c3 - 4)); lia. }
  rewrite E, !mask_select by (apply u32_range || assumption). clear E.
  destruct (4 <=? a4 + c3) eqn:E; to_prop.
  - pose proof (add_s_spec (u32 (a0 + 5)) (u32 (a1 + c0)) (u32 (a2 + c1)) (u32 (a3 + c2)) s0 s1 s2 s3) as A.
    cbn zeta in A. rewrite A by (apply u32_range || assumption).
    apply le_bytes_cong. change (256 ^ Z.of_nat 16) with (2 ^ 128). unfold value5.
    set (V := a0 + 2 ^ 32 * a1 + 2 ^ 64 * a2 + 2 ^ 96 * a3 + 2 ^ 128 * a4).
    assert (Vm : V mod p1305 = V - p1305) by (symmetry; apply (Z.mod_unique _ _ 1); unfold V, p1305; lia).
    rewrite Vm. replace (V - p1305 + value4 (s0, s1, s2, s3)) with
      (value4 (u32 (a0 + 5), u32 (a1 + c0), u32 (a2 + c1), u32 (a3 + c2)) + value4 (s0, s1, s2, s3) +
       (a4 + c3 - 4) * 2 ^ 128) by (unfold V, p1305, value4; lia).
    symmetry. apply Z.mod_add. lia.
  - pose proof (add_s_spec a0 a1 a2 a3 s0 s1 s2 s3) as A. cbn zeta in A. rewrite A by assumption.
    apply le_bytes_cong. change (256 ^ Z.of_nat 16) with (2 ^ 128). unfold value5.
    set (V := a0 + 2 ^ 32 * a1 + 2 ^ 64 * a2 + 2 ^ 96 * a3 + 2 ^ 128 * a4).
    rewrite (Z.mod_small V) by (unfold V, p1305; lia).
    replace (V + value4 (s0, s1, s2, s3)) with
      (value4 (a0, a1, a2, a3) + value4 (s0, s1, s2, s3) + a4 * 2 ^ 128) by (unfold V, value4; lia).
    symmetry. apply Z.mod_add. lia.
Qed.
(** ** The stream *)

(** The first [n] full blocks. *)
Fixpoint full (n : nat) (r a : Z) (msg : bytes) : Z :=
  match n with
  | O => a
  | S n => full n r (rfc_step r a (take 16 msg)) (drop 16 msg)
  end.

Lemma full_add n m r : forall a msg, full (n + m) r a msg = full m r (full n r a msg) (drop (16 * n) msg).
Proof.
  induction n as [|n IH]; intros a msg; [reflexivity|]. cbn [Nat.add full]. rewrite IH, drop_drop.
  f_equal. f_equal. lia.
Qed.

Lemma full_app n r : forall a msg x, (16 * n <= length msg)%nat -> full n r a (msg ++ x) = full n r a msg.
Proof.
  induction n as [|n IH]; intros a msg x Hl; [reflexivity|]. cbn [full].
  rewrite take_app_le, drop_app_le by lia. apply IH. rewrite length_drop. lia.
Qed.

Lemma rfc_blocks_full fuel r : forall a msg,
  (length msg <= fuel)%nat ->
  let n := (length msg / 16)%nat in
  let rest := drop (16 * n) msg in
  rfc_blocks fuel r a msg = match rest with [] => full n r a msg | _ => rfc_step r (full n r a msg) rest end.
Proof.
  induction fuel as [|fuel IH]; intros a msg Hl; cbn zeta.
  { destruct msg; [reflexivity|cbn [length] in Hl; lia]. }
  destruct msg as [|b msg']; [reflexivity|]. set (msg := b :: msg') in *. cbn [rfc_blocks]. fold msg.
  assert (Hp : (0 < length msg)%nat) by (cbn; lia).
  rewrite IH by (rewrite length_drop; lia). cbn zeta. rewrite length_drop.
  destruct (Nat.lt_ge_cases (length msg) 16) as [Hs|Hs].
  - rewrite (Nat.div_small (length msg) 16), (Nat.div_small (length msg - 16) 16) by lia.
    change (16 * 0)%nat with 0%nat. rewrite drop_0, (drop_ge msg 16), drop_0, take_ge by lia. reflexivity.
  - set (m := ((length msg - 16) / 16)%nat).
    assert (Em : (length msg / 16)%nat = S m).
    { unfold m. replace (length msg) with (length msg - 16 + 1 * 16)%nat at 1 by lia. rewrite Nat.div_add by lia. lia. }
    rewrite Em, drop_drop. cbn [full]. replace (16 + 16 * m)%nat with (16 * S m)%nat by lia. reflexivity.
Qed.

Lemma block_value blk : length blk = 16%nat -> le_val (blk ++ [1]) = le_val blk + 2 ^ 128 * 1.
Proof. intros H. rewrite le_val_app, H. reflexivity. Qed.

Lemma step_mod r a x : (((a mod p1305) + x) * r) mod p1305 = ((a + x) * r) mod p1305.
Proof.
  rewrite <- Z.mul_mod_idemp_l, Z.add_mod_idemp_l, Z.mul_mod_idemp_l by discriminate. reflexivity.
Qed.

Lemma process_loop_spec n r input : forall acc off,
  r_ok r -> acc_ok 4 acc -> bytes_ok input -> (off + 16 * n <= length input)%nat ->
  acc_ok 4 (process_loop n r acc input off 1) /\
  value5 (process_loop n r acc input off 1) mod p1305 =
    full n (value4 r) (value5 acc mod p1305) (drop off input).
Proof.
  induction n as [|n IH]; intros acc off Hr Ha Hi Ho; [by split|]. cbn [process_loop full].
  destruct (one_block_spec r acc input off 1 Hr Ha Hi ltac:(lia) ltac:(lia)) as [A E].
  unfold POLY1305_BLOCK_SIZE_BYTES.
  destruct (IH (one_block r acc input off 1) (off + 16)%nat Hr A Hi ltac:(lia)) as [A' E']. split; [exact A'|].
  rewrite E', E, drop_drop. f_equal. unfold rfc_step.
  rewrite block_value by (rewrite length_take, length_drop; lia). symmetry. apply step_mod.
Qed.

Section Streaming.
Context (R Sv : Z).

(** The context has absorbed [msg]; its last [queue_len] bytes are queued. *)
Definition absorbed (ctx : mbedtls_poly1305_context) (msg : bytes) : Prop :=
  (r_ok (r ctx) /\ value4 (r ctx) = R /\ s_ok (s ctx) /\ value4 (s ctx) = Sv) /\
  acc_ok 4 (acc ctx) /\ length (queue ctx) = 16%nat /\ (queue_len ctx < 16)%nat /\
  exists n, length msg = (16 * n + queue_len ctx)%nat /\
    take (queue_len ctx) (queue ctx) = drop (16 * n) msg /\ value5 (acc ctx) mod p1305 = full n R 0 msg.

Lemma process_absorbed ctx msg input m :
  absorbed ctx msg -> queue_len ctx = 0%nat -> bytes_ok input -> (16 * m <= length input)%nat ->
  absorbed (poly1305_process ctx m input 1) (msg ++ take (16 * m) input).
Proof using.
  intros ((Hr & ER & Hs) & Ha & Hq & _ & n & Hn & _ & E) Hz Hi Hm. rewrite Hz, Nat.add_0_r in Hn.
  destruct (process_loop_spec m (r ctx) input (acc ctx) 0 Hr Ha Hi ltac:(lia)) as [A E'].
  rewrite ER, E, drop_0 in E'.
  split; [exact (conj Hr (conj ER Hs))|]. split; [exact A|]. split; [exact Hq|]. cbn [queue_len poly1305_process set_acc].
  rewrite Hz. split; [lia|]. exists (n + m)%nat.
  assert (Hl : length (msg ++ take (16 * m) input) = (16 * (n + m))%nat) by (rewrite length_app, length_take; lia).
  split; [lia|]. split; [rewrite drop_ge by lia; reflexivity|].
  cbn [acc poly1305_process set_acc]. rewrite E', full_add, full_app by lia.
  rewrite drop_app_length' by lia.
  rewrite <- (take_drop (16 * m) input) at 1. apply full_app. rewrite length_take. lia.
Qed.

Lemma update_blocks_absorbed ctx msg input off :
  absorbed ctx msg -> queue_len ctx = 0%nat -> bytes_ok input -> (off <= length input)%nat ->
  absorbed (update_blocks ctx input off (length input - off)) (msg ++ drop off input).
Proof using.
  intros H Hz Hi Ho. unfold update_blocks, POLY1305_BLOCK_SIZE_BYTES.
  assert (Hlen : length (drop off input) = (length input - off)%nat) by apply length_drop.
  rewrite <- Hlen. set (rest := drop off input) in *.
  assert (Hrest : bytes_ok rest) by (by apply Forall_drop).
  pose proof (Nat.div_mod_eq (length rest) 16) as D. pose proof (Nat.mod_upper_bound (length rest) 16 ltac:(lia)).
  set (m := (length rest / 16)%nat) in *.
  assert (Q : forall c, absorbed c (msg ++ take (16 * m) rest) -> queue_len c = 0%nat -> forall o k,
    k = (length rest mod 16)%nat -> drop o input = drop (16 * m) rest ->
    absorbed (if (0 <? k)%nat then set_queue c (put_at (queue c) 0 (take k (drop o input))) k else c)
      (msg ++ rest)).
  { intros c Hc Hzc o k Hk Hd. destruct (0 <? k)%nat eqn:E; to_prop.
    - destruct Hc as (Hrs & Ha & Hq & _ & n & Hn & _ & Ev). rewrite Hzc, Nat.add_0_r in Hn.
      rewrite Hd, take_ge by (rewrite length_drop; lia).
      assert (Hdl : length (drop (16 * m) rest) = k) by (rewrite length_drop; lia).
      split; [exact Hrs|]. split; [exact Ha|]. cbn [queue queue_len set_queue].
      split; [rewrite put_at_length; lia|]. split; [lia|]. exists n.
      rewrite length_app, length_take in Hn. split; [rewrite length_app; lia|].
      replace (msg ++ rest) with ((msg ++ take (16 * m) rest) ++ drop (16 * m) rest)
        by (rewrite <- app_assoc, take_drop; reflexivity).
      split.
      + pose proof (put_at_take (queue c) 0 (drop (16 * m) rest) ltac:(lia)) as P.
        rewrite Hdl, Nat.add_0_l in P. rewrite P.
        symmetry. apply drop_app_length'. rewrite length_app, length_take. lia.
      + cbn [acc set_queue]. rewrite full_app; [exact Ev|]. rewrite length_app, length_take. lia.
    - rewrite (take_ge rest) in Hc by lia. exact Hc. }
  destruct (16 <=? length rest)%nat eqn:E; to_prop.
  - apply Q; [|exact Hz|reflexivity|].
    + apply process_absorbed; [exact H|exact Hz|exact Hrest|lia].
    + unfold rest. rewrite drop_drop. f_equal. lia.
  - assert (m = 0%nat) by lia. apply Q; [|exact Hz|lia|].
    + replace (16 * m)%nat with 0%nat by lia. cbn [take]. by rewrite app_nil_r.
    + replace (16 * m)%nat with 0%nat by lia. reflexivity.
Qed.

Lemma update_absorbed ctx msg input :
  absorbed ctx msg -> bytes_ok msg -> bytes_ok input -> absorbed (mbedtls_poly1305_update ctx input) (msg ++ input).
Proof using.
  intros H Hm Hi. unfold mbedtls_poly1305_update, POLY1305_BLOCK_SIZE_BYTES.
  destruct ((0 <? length input)%nat && (0 <? queue_len ctx)%nat) eqn:E; to_prop.
  - destruct H as (Hrs & Ha & Hq & Hql & n & Hn & Ht & Ev).
    destruct (length input <? 16 - queue_len ctx)%nat eqn:F; to_prop.
    + unfold update_blocks. change (POLY1305_BLOCK_SIZE_BYTES <=? 0)%nat with false. cbv beta iota.
      change (0 <? 0)%nat with false. cbv iota. split; [exact Hrs|]. split; [exact Ha|]. cbn [queue queue_len set_queue acc].
      split; [rewrite put_at_length; lia|]. split; [lia|]. exists n.
      split; [rewrite length_app; lia|]. split; [|rewrite full_app by lia; exact Ev].
      rewrite put_at_take, Ht, drop_app_le by lia. reflexivity.
    + set (fr := (16 - queue_len ctx)%nat) in *.
      set (blk := put_at (queue ctx) (queue_len ctx) (take fr input)).
      assert (Hb : blk = drop (16 * n) msg ++ take fr input).
      { unfold blk. rewrite put_at_full, Ht by (rewrite length_take; lia). reflexivity. }
      assert (Hbl : length blk = 16%nat) by (rewrite Hb, length_app, length_drop, length_take; lia).
      assert (Hstart : absorbed (set_queue ctx blk 0) (take (16 * n) msg)).
      { split; [exact Hrs|]. split; [exact Ha|]. split; [exact Hbl|]. split; [cbn; lia|]. exists n.
        cbn [queue_len queue acc set_queue]. split; [rewrite length_take; lia|].
        split; [rewrite drop_ge by (rewrite length_take; lia); reflexivity|].
        rewrite <- (take_drop (16 * n) msg) in Ev. rewrite full_app in Ev by (rewrite length_take; lia). exact Ev. }
      assert (Hone : absorbed (poly1305_process (set_queue ctx blk 0) 1 blk 1) (msg ++ take fr input)).
      { replace (msg ++ take fr input) with (take (16 * n) msg ++ take (16 * 1) blk).
        - apply process_absorbed; [exact Hstart|reflexivity| |lia].
          rewrite Hb. apply bytes_ok_app. split; [by apply Forall_drop|by apply Forall_take].
        - rewrite (take_ge blk) by lia. rewrite Hb, app_assoc, take_drop. reflexivity. }
      replace (msg ++ input) with ((msg ++ take fr input) ++ drop fr input) by (rewrite <- app_assoc, take_drop; reflexivity).
      cbn [queue set_queue]. apply update_blocks_absorbed; [exact Hone|reflexivity|exact Hi|lia].
  - apply andb_false_iff in E. replace (length input) with (length input - 0)%nat at 1 by lia.
    destruct E as [E|E]; to_prop.
    + assert (input = []) by (destruct input; [done|cbn [length] in E; lia]). subst. rewrite app_nil_r. exact H.
    + apply (update_blocks_absorbed ctx msg input 0); [exact H|lia|exact Hi|lia].
Qed.
Lemma updates_absorbed inputs : forall ctx msg,
  absorbed ctx msg -> bytes_ok msg -> Forall bytes_ok inputs ->
  absorbed (fold_left mbedtls_poly1305_update inputs ctx) (msg ++ concat inputs).
Proof using.
  induction inputs as [|input inputs IH]; intros ctx msg H Hm Hi; cbn [fold_left concat]; [by rewrite app_nil_r|].
  apply Forall_cons in Hi as [Hi Hs]. rewrite app_assoc. apply IH; [by apply update_absorbed| |exact Hs].
  apply bytes_ok_app. by split.
Qed.

(** The last block: the queued bytes, a 1 and zeros. *)
Lemma finish_absorbed ctx msg :
  absorbed ctx msg -> bytes_ok msg ->
  mbedtls_poly1305_finish ctx = le_bytes 16 (rfc_blocks (length msg) R 0 msg + Sv).
Proof using.
  intros ((Hr & ER & Hs & ES) & Ha & Hq & Hql & n & Hn & Ht & Ev) Hm.
  rewrite rfc_blocks_full by lia. cbn zeta.
  assert (En : (length msg / 16)%nat = n) by (symmetry; apply (Nat.div_unique _ 16 n (queue_len ctx)); lia).
  rewrite En, <- Ht. unfold mbedtls_poly1305_finish, POLY1305_BLOCK_SIZE_BYTES. cbv zeta.
  set (ql := queue_len ctx) in *. set (rest := take ql (queue ctx)).
  assert (Hl : length rest = ql) by (unfold rest; rewrite length_take; lia).
  destruct (0 <? ql)%nat eqn:E; to_prop.
  - set (q1 := put_at (queue ctx) ql [1]).
    assert (P1 : take (ql + 1) q1 = rest ++ [1]) by (apply (put_at_take (queue ctx) ql [1]); lia).
    assert (L1 : length q1 = 16%nat) by (unfold q1; rewrite put_at_length; cbn [length]; lia).
    set (q2 := put_at q1 (ql + 1) (repeat 0 (16 - (ql + 1)))).
    assert (P2 : q2 = (rest ++ [1]) ++ repeat 0 (16 - (ql + 1)))
      by (unfold q2; rewrite put_at_full, P1 by (rewrite repeat_length; lia); reflexivity).
    assert (L2 : length q2 = 16%nat) by (rewrite P2, !length_app, repeat_length; cbn [length]; lia).
    assert (B2 : bytes_ok q2).
    { rewrite P2. apply bytes_ok_app. split; [apply bytes_ok_app; split|].
      - unfold rest. rewrite Ht. by apply Forall_drop.
      - repeat constructor; unfold is_byte; lia.
      - apply List.Forall_forall. intros x Hx%repeat_spec. subst. unfold is_byte. lia. }
    destruct (one_block_spec (r ctx) (acc ctx) q2 0 0 Hr Ha B2 ltac:(lia) ltac:(lia)) as [A V].
    rewrite compute_mac_spec; [|exact A|exact Hs]. cbn [r s acc set_queue set_acc poly1305_process process_loop].
    rewrite V, ES, ER, drop_0, (take_ge q2) by lia. f_equal. f_equal.
    rewrite <- step_mod, Ev. destruct rest as [|x rest'] eqn:Er; [cbn [length] in Hl; lia|].
    unfold rfc_step. f_equal. f_equal. rewrite P2, (le_val_app (_ ++ [1])).
    assert (Z0 : forall k, le_val (repeat 0 k) = 0) by (induction k as [|k IHk]; [reflexivity|]; cbn; rewrite IHk; lia).
    rewrite Z0. lia.
  - rewrite compute_mac_spec, Ev, ES by assumption.
    destruct rest as [|x rest'] eqn:Er; [reflexivity|cbn [length] in Hl; lia].
Qed.
End Streaming.

Lemma land_multiple4 x c : 0 <= x -> Z.land c 3 = 0 -> 0 <= c < 2 ^ 28 -> exists q, Z.land x c = 4 * q /\ 0 <= q < 2 ^ 26.
Proof.
  intros Hx Hc Hr. pose proof (land_range 28 x c ltac:(lia) Hx Hr).
  assert (E : Z.land x c mod 4 = 0) by (rewrite <- land_3, <- Z.land_assoc, Hc; apply Z.land_0_r).
  exists (Z.land x c / 4). pose proof (Z.div_mod (Z.land x c) 4 ltac:(lia)). lia.
Qed.

Lemma starts_absorbed ctx key :
  bytes_ok key -> length key = 32%nat ->
  absorbed (clamp (le_val (take 16 key))) (le_val (take 16 (drop 16 key))) (mbedtls_poly1305_starts ctx key) [].
Proof.
  intros Hk Hl. pose proof (get_block key 0 Hk ltac:(lia)) as E0. pose proof (get_block key 16 Hk ltac:(lia)) as E1.
  cbn [Nat.add] in E0, E1. rewrite drop_0 in E0.
  assert (W : forall o, (o + 4 <= 32)%nat -> word (MBEDTLS_GET_UINT32_LE key o)) by (intros; apply get32_word; [exact Hk|lia]).
  pose proof (W 0%nat ltac:(lia)). pose proof (W 4%nat ltac:(lia)). pose proof (W 8%nat ltac:(lia)).
  pose proof (W 12%nat ltac:(lia)).
  split; [|split; [|split; [reflexivity|split; [cbn; lia|exists 0%nat; repeat split; reflexivity]]]].
  - cbn [r s mbedtls_poly1305_starts]. split; [|split; [|split; [|exact E1]]].
    + unfold word in *. repeat split; try (apply land_multiple4; [lia|reflexivity|lia]);
        apply (land_range 28); lia.
    + rewrite <- E0. unfold clamp, value4.
      set (w0 := MBEDTLS_GET_UINT32_LE key 0) in *. set (w1 := MBEDTLS_GET_UINT32_LE key 4) in *.
      set (w2 := MBEDTLS_GET_UINT32_LE key 8) in *. set (w3 := MBEDTLS_GET_UINT32_LE key 12) in *.
      change 0x0ffffffc0ffffffc0ffffffc0fffffff with
        (0x0fffffff + 2 ^ 32 * (0x0ffffffc + 2 ^ 32 * (0x0ffffffc + 2 ^ 32 * 0x0ffffffc))).
      replace (w0 + 2 ^ 32 * w1 + 2 ^ 64 * w2 + 2 ^ 96 * w3) with (w0 + 2 ^ 32 * (w1 + 2 ^ 32 * (w2 + 2 ^ 32 * w3))) by ring.
      unfold word in *. rewrite !land_split by lia. ring.
    + unfold s_ok. repeat split; apply W; lia.
  - cbn. unfold word. lia.
Qed.

(** The tag of a message cut into any updates is the Poly1305 of RFC 8439
    of the whole message: the limb arithmetic, with its partial reductions and
    its queue, is the polynomial modulo 2^130 - 5. *)
Theorem poly1305_streaming_correct ctx key inputs :
  bytes_ok key -> length key = 32%nat -> Forall bytes_ok inputs ->
  mbedtls_poly1305_finish (fold_left mbedtls_poly1305_update inputs (mbedtls_poly1305_starts ctx key)) =
  rfc_poly1305 key (concat inputs).
Proof.
  intros Hk Hl Hi. unfold rfc_poly1305. apply finish_absorbed.
  - apply (updates_absorbed _ _ inputs _ []); [by apply starts_absorbed|constructor|exact Hi].
  - apply Forall_concat, Hi.
Qed.

Lemma poly1305_streaming_correct_witness :
  let key :=
    [0x85; 0xd6; 0xbe; 0x78; 0x57; 0x55; 0x6d; 0x33; 0x7f; 0x44; 0x52; 0xfe; 0x42; 0xd5; 0x06; 0xa8;
     0x01; 0x03; 0x80; 0x8a; 0xfb; 0x0d; 0xb2; 0xfd; 0x4a; 0xbf; 0xf6; 0xaf; 0x41; 0x49; 0xf5; 0x1b] in
  let inputs := [str "Cryptographic For"; str "um Research Group"] in
  mbedtls_poly1305_finish (fold_left mbedtls_poly1305_update inputs (mbedtls_poly1305_starts mbedtls_poly1305_init key)) =
    rfc_poly1305 key (concat inputs) /\
  rfc_poly1305 key (concat inputs) =
    [0xa8; 0x06; 0x1d; 0xc1; 0x30; 0x51; 0x36; 0xc6; 0xc2; 0x2b; 0x8b; 0xaf; 0x0c; 0x01; 0x27; 0xa9].
Proof.
  split; [|vm_compute; reflexivity]. apply poly1305_streaming_correct; [bytes_ok_closed|reflexivity|].
  repeat (constructor; [bytes_ok_closed|]). constructor.
Defined.
End Poly1305.
