(* ===== verification/ChachaPoly.v ===== *)
(** ChaCha20-Poly1305 (mbedtls/library/chachapoly.c): the context that drives
    the cipher and the authenticator through the states INIT, AAD, CIPHERTEXT
    and FINISHED.  Any cut of the additional data and of the text into updates
    gives the ciphertext and tag of RFC 8439; decryption returns the text for
    that tag and for no other one. *)
From S2P Require Import Prelude Words ConstantTime ChaCha20 Poly1305.
From stdpp Require Import list.
#[local] Open Scope Z_scope.

Module ChachaPoly.

Definition MBEDTLS_ERR_CHACHAPOLY_BAD_STATE : Z := -0x0054.
Definition MBEDTLS_ERR_CHACHAPOLY_AUTH_FAILED : Z := -0x0056.

Definition CHACHAPOLY_STATE_INIT : Z := 0.
Definition CHACHAPOLY_STATE_AAD : Z := 1.
Definition CHACHAPOLY_STATE_CIPHERTEXT : Z := 2.
Definition CHACHAPOLY_STATE_FINISHED : Z := 3.

Inductive mbedtls_chachapoly_mode_t := MBEDTLS_CHACHAPOLY_ENCRYPT | MBEDTLS_CHACHAPOLY_DECRYPT.

Record mbedtls_chachapoly_context := mkChachapoly {
  chacha20_ctx : ChaCha20.mbedtls_chacha20_context;
  poly1305_ctx : Poly1305.mbedtls_poly1305_context;
  aad_len : Z;
  ciphertext_len : Z;
  state : Z;
  mode : mbedtls_chachapoly_mode_t;
}.

Definition set_poly (ctx : mbedtls_chachapoly_context) (p : Poly1305.mbedtls_poly1305_context) :=
  mkChachapoly (chacha20_ctx ctx) p (aad_len ctx) (ciphertext_len ctx) (state ctx) (mode ctx).

Definition set_state (ctx : mbedtls_chachapoly_context) (st : Z) :=
  mkChachapoly (chacha20_ctx ctx) (poly1305_ctx ctx) (aad_len ctx) (ciphertext_len ctx) st (mode ctx).

(** What both padding functions do with a length. *)
Definition chachapoly_pad (ctx : mbedtls_chachapoly_context) (len : Z) : mbedtls_chachapoly_context :=
  let partial_block_len := u32 (len mod 16) in
  if partial_block_len =? 0 then ctx
  else set_poly ctx (Poly1305.mbedtls_poly1305_update (poly1305_ctx ctx) (repeat 0 (Z.to_nat (16 - partial_block_len)))).

Definition chachapoly_pad_aad (ctx : mbedtls_chachapoly_context) : mbedtls_chachapoly_context :=
  chachapoly_pad ctx (aad_len ctx).

Definition chachapoly_pad_ciphertext (ctx : mbedtls_chachapoly_context) : mbedtls_chachapoly_context :=
  chachapoly_pad ctx (ciphertext_len ctx).

Definition mbedtls_chachapoly_init : mbedtls_chachapoly_context :=
  mkChachapoly ChaCha20.mbedtls_chacha20_init Poly1305.mbedtls_poly1305_init 0 0
    CHACHAPOLY_STATE_INIT MBEDTLS_CHACHAPOLY_ENCRYPT.

Definition mbedtls_chachapoly_setkey (ctx : mbedtls_chachapoly_context) (key : bytes) : mbedtls_chachapoly_context :=
  mkChachapoly (ChaCha20.mbedtls_chacha20_setkey (chacha20_ctx ctx) key) (poly1305_ctx ctx)
    (aad_len ctx) (ciphertext_len ctx) (state ctx) (mode ctx).

Definition mbedtls_chachapoly_starts (ctx : mbedtls_chachapoly_context) (nonce : bytes)
    (m : mbedtls_chachapoly_mode_t) : mbedtls_chachapoly_context :=
  let c := ChaCha20.mbedtls_chacha20_starts (chacha20_ctx ctx) nonce 0 in
  let '(c, poly1305_key) := ChaCha20.mbedtls_chacha20_update c (repeat 0 64) in
  mkChachapoly c (Poly1305.mbedtls_poly1305_starts (poly1305_ctx ctx) poly1305_key) 0 0 CHACHAPOLY_STATE_AAD m.

Definition mbedtls_chachapoly_update_aad (ctx : mbedtls_chachapoly_context) (aad : bytes) :
    result mbedtls_chachapoly_context :=
  if negb (state ctx =? CHACHAPOLY_STATE_AAD) then Err MBEDTLS_ERR_CHACHAPOLY_BAD_STATE
  else
    let ctx := mkChachapoly (chacha20_ctx ctx) (poly1305_ctx ctx) (u64 (aad_len ctx + zlen aad))
      (ciphertext_len ctx) (state ctx) (mode ctx) in
    Ok (set_poly ctx (Poly1305.mbedtls_poly1305_update (poly1305_ctx ctx) aad)).

Definition mbedtls_chachapoly_update (ctx : mbedtls_chachapoly_context) (input : bytes) :
    result (mbedtls_chachapoly_context * bytes) :=
  if negb (state ctx =? CHACHAPOLY_STATE_AAD) && negb (state ctx =? CHACHAPOLY_STATE_CIPHERTEXT)
  then Err MBEDTLS_ERR_CHACHAPOLY_BAD_STATE
  else
    let ctx :=
      if state ctx =? CHACHAPOLY_STATE_AAD
      then chachapoly_pad_aad (set_state ctx CHACHAPOLY_STATE_CIPHERTEXT) else ctx in
    let len := u64 (ciphertext_len ctx + zlen input) in
    match mode ctx with
    | MBEDTLS_CHACHAPOLY_ENCRYPT =>
        let '(c, output) := ChaCha20.mbedtls_chacha20_update (chacha20_ctx ctx) input in
        let p := Poly1305.mbedtls_poly1305_update (poly1305_ctx ctx) output in
        Ok (mkChachapoly c p (aad_len ctx) len (state ctx) (mode ctx), output)
    | MBEDTLS_CHACHAPOLY_DECRYPT =>
        let p := Poly1305.mbedtls_poly1305_update (poly1305_ctx ctx) input in
        let '(c, output) := ChaCha20.mbedtls_chacha20_update (chacha20_ctx ctx) input in
        Ok (mkChachapoly c p (aad_len ctx) len (state ctx) (mode ctx), output)
    end.

Definition mbedtls_chachapoly_finish (ctx : mbedtls_chachapoly_context) :
    result (mbedtls_chachapoly_context * bytes) :=
  if state ctx =? CHACHAPOLY_STATE_INIT then Err MBEDTLS_ERR_CHACHAPOLY_BAD_STATE
  else
    let ctx :=
      if state ctx =? CHACHAPOLY_STATE_AAD then chachapoly_pad_aad ctx
      else if state ctx =? CHACHAPOLY_STATE_CIPHERTEXT then chachapoly_pad_ciphertext ctx
      else ctx in
    let ctx := set_state ctx CHACHAPOLY_STATE_FINISHED in
    let len_block := MBEDTLS_PUT_UINT64_LE (aad_len ctx) ++ MBEDTLS_PUT_UINT64_LE (ciphertext_len ctx) in
    let ctx := set_poly ctx (Poly1305.mbedtls_poly1305_update (poly1305_ctx ctx) len_block) in
    Ok (ctx, Poly1305.mbedtls_poly1305_finish (poly1305_ctx ctx)).

(** The output and the tag. *)
Definition chachapoly_crypt_and_tag (ctx : mbedtls_chachapoly_context) (m : mbedtls_chachapoly_mode_t)
    (nonce aad input : bytes) : result (mbedtls_chachapoly_context * bytes * bytes) :=
  let ctx := mbedtls_chachapoly_starts ctx nonce m in
  ctx ← mbedtls_chachapoly_update_aad ctx aad;
  '(ctx, output) ← mbedtls_chachapoly_update ctx input;
  '(ctx, tag) ← mbedtls_chachapoly_finish ctx;
  Ok (ctx, output, tag).

Definition mbedtls_chachapoly_encrypt_and_tag (ctx : mbedtls_chachapoly_context) (nonce aad input : bytes) :
    result (mbedtls_chachapoly_context * bytes * bytes) :=
  chachapoly_crypt_and_tag ctx MBEDTLS_CHACHAPOLY_ENCRYPT nonce aad input.

(** The return value and the output buffer, given its contents before. *)
Definition mbedtls_chachapoly_auth_decrypt (ctx : mbedtls_chachapoly_context) (nonce aad tag input output0 : bytes) :
    Z * bytes :=
  match chachapoly_crypt_and_tag ctx MBEDTLS_CHACHAPOLY_DECRYPT nonce aad input with
  | Err ret => (ret, output0)
  | Ok (_, output, check_tag) =>
      let diff := mbedtls_ct_memcmp tag check_tag in
      if negb (diff =? 0) then (MBEDTLS_ERR_CHACHAPOLY_AUTH_FAILED, repeat 0 (length output)) else (0, output)
  end.

(** Several calls of the update functions, and their output. *)
Fixpoint update_aad_all (ctx : mbedtls_chachapoly_context) (aads : list bytes) : result mbedtls_chachapoly_context :=
  match aads with
  | [] => Ok ctx
  | aad :: aads => ctx ← mbedtls_chachapoly_update_aad ctx aad; update_aad_all ctx aads
  end.

Fixpoint update_all (ctx : mbedtls_chachapoly_context) (inputs : list bytes) :
    result (mbedtls_chachapoly_context * bytes) :=
  match inputs with
  | [] => Ok (ctx, [])
  | input :: inputs =>
      '(ctx, out) ← mbedtls_chachapoly_update ctx input;
      '(ctx, outs) ← update_all ctx inputs;
      Ok (ctx, out ++ outs)
  end.

(** ** RFC 8439, section 2.8 *)

Section Rfc.
Definition pad16 (x : bytes) : bytes := repeat 0 ((16 - length x mod 16) mod 16).

Definition rfc_mac_data (aad ciphertext : bytes) : bytes :=
  aad ++ pad16 aad ++ ciphertext ++ pad16 ciphertext ++ le_bytes 8 (zlen aad) ++ le_bytes 8 (zlen ciphertext).

(** The one-time key: half of the block 0. *)
Definition rfc_poly_key (key nonce : bytes) : bytes := take 32 (ChaCha20.rfc_block (ChaCha20.rfc_state key nonce 0)).

Definition rfc_tag (key nonce aad ciphertext : bytes) : bytes :=
  Poly1305.rfc_poly1305 (rfc_poly_key key nonce) (rfc_mac_data aad ciphertext).

Definition rfc_seal (key nonce aad plaintext : bytes) : bytes * bytes :=
  let ciphertext := ChaCha20.rfc_chacha20 key nonce 1 plaintext in
  (ciphertext, rfc_tag key nonce aad ciphertext).
End Rfc.
(** ** The phases of the context *)

Lemma block_bytes_ok s : bytes_ok (ChaCha20.rfc_block s).
Proof.
  unfold ChaCha20.rfc_block. apply Forall_concat, Forall_forall. intros x Hx%list_elem_of_fmap.
  destruct Hx as (i & -> & _). apply le_bytes_ok.
Qed.

Lemma seq_shift_add k n o : map (fun i => (k + i)%nat) (seq o n) = seq (k + o) n.
Proof.
  revert o. induction n as [|n IH]; intros o; [reflexivity|]. cbn [seq map]. f_equal.
  rewrite IH. f_equal. lia.
Qed.

Section Phases.
Context (key nonce : bytes).

Abbreviation poly_key := (rfc_poly_key key nonce).
Abbreviation R := (Poly1305.clamp (le_val (take 16 poly_key))).
Abbreviation Sv := (le_val (take 16 (drop 16 poly_key))).
Abbreviation xors := (ChaCha20.xors key nonce 0).

(** After some additional data. *)
Definition aad_phase (m : mbedtls_chachapoly_mode_t) (ctx : mbedtls_chachapoly_context) (aad : bytes) : Prop :=
  state ctx = CHACHAPOLY_STATE_AAD /\ mode ctx = m /\ aad_len ctx = u64 (zlen aad) /\ ciphertext_len ctx = 0 /\
  Poly1305.absorbed R Sv (poly1305_ctx ctx) aad /\ bytes_ok aad /\
  ChaCha20.at_byte key nonce 0 (chacha20_ctx ctx) 64.

(** After some ciphertext. *)
Definition text_phase (m : mbedtls_chachapoly_mode_t) (ctx : mbedtls_chachapoly_context) (aad text : bytes) : Prop :=
  state ctx = CHACHAPOLY_STATE_CIPHERTEXT /\ mode ctx = m /\ aad_len ctx = u64 (zlen aad) /\
  ciphertext_len ctx = u64 (zlen text) /\
  Poly1305.absorbed R Sv (poly1305_ctx ctx) (aad ++ pad16 aad ++ text) /\ bytes_ok aad /\ bytes_ok text /\
  ChaCha20.at_byte key nonce 0 (chacha20_ctx ctx) (64 + length text).

Lemma zeros_ok n : bytes_ok (repeat 0 n).
Proof using. apply List.Forall_forall. intros x Hx%repeat_spec. subst. unfold is_byte. lia. Qed.

Lemma xors_ok p input : bytes_ok input -> bytes_ok (xors p input).
Proof using.
  intros Hi. unfold ChaCha20.xors. revert p. induction Hi as [|b input Hb Hi IH]; intros p; [constructor|].
  cbn [length seq map zip_with]. constructor; [|apply IH]. apply lxor_byte; [exact Hb|].
  unfold ChaCha20.keystream_byte. apply nth_byte, block_bytes_ok.
Qed.

Lemma xors_length p input : length (xors p input) = length input.
Proof using. unfold ChaCha20.xors. rewrite length_zip_with, length_map, length_seq. lia. Qed.

(** The keystream of counter 1 is the keystream of counter 0 from byte 64. *)
Lemma keystream_shift o : ChaCha20.keystream_byte key nonce 0 (64 + o) = ChaCha20.keystream_byte key nonce 1 o.
Proof using.
  unfold ChaCha20.keystream_byte. replace (64 + o)%nat with (o + 1 * 64)%nat by lia.
  rewrite Nat.Div0.mod_add, Nat.div_add by lia.
  replace (0 + Z.of_nat (o / 64 + 1)) with (1 + Z.of_nat (o / 64)) by lia. reflexivity.
Qed.

Lemma keystream_seq_shift n :
  map (ChaCha20.keystream_byte key nonce 0) (seq (64 + 0) n) = map (ChaCha20.keystream_byte key nonce 1) (seq 0 n).
Proof using.
  rewrite <- seq_shift_add, map_map. apply map_ext. intros o. apply keystream_shift.
Qed.

Lemma xors_shift input : xors 64 input = ChaCha20.rfc_chacha20 key nonce 1 input.
Proof using.
  unfold ChaCha20.xors, ChaCha20.rfc_chacha20. change 64%nat with (64 + 0)%nat. rewrite keystream_seq_shift. reflexivity.
Qed.

Lemma update_aad_phase m ctx aad x :
  aad_phase m ctx aad -> bytes_ok x ->
  exists ctx', mbedtls_chachapoly_update_aad ctx x = Ok ctx' /\ aad_phase m ctx' (aad ++ x).
Proof.
  intros (Hs & Hm & Ha & Hc & Hp & Hok & Hk) Hx. unfold mbedtls_chachapoly_update_aad. rewrite Hs.
  eexists. split; [reflexivity|]. split; [reflexivity|]. split; [exact Hm|].
  split; [|split; [exact Hc|split; [|split; [|exact Hk]]]].
  - cbn [aad_len set_poly]. rewrite Ha, u64_add_l, zlen_app. reflexivity.
  - by apply Poly1305.update_absorbed.
  - apply bytes_ok_app. by split.
Qed.

(** Padding a phase's data to a multiple of 16. *)
Lemma pad_absorbed ctx len msg n :
  len = u64 (Z.of_nat n) -> Poly1305.absorbed R Sv (poly1305_ctx ctx) msg -> bytes_ok msg ->
  let ctx' := chachapoly_pad ctx len in
  Poly1305.absorbed R Sv (poly1305_ctx ctx') (msg ++ repeat 0 ((16 - n mod 16) mod 16)) /\
  chacha20_ctx ctx' = chacha20_ctx ctx /\ aad_len ctx' = aad_len ctx /\
  ciphertext_len ctx' = ciphertext_len ctx /\ state ctx' = state ctx /\ mode ctx' = mode ctx.
Proof.
  intros -> Hp Hok. unfold chachapoly_pad.
  assert (E : u32 (u64 (Z.of_nat n) mod 16) = Z.of_nat (n mod 16)).
  { unfold u64. rewrite Z.mod_mod_divide by (exists (2 ^ 60); reflexivity).
    rewrite u32_small; [rewrite Nat2Z.inj_mod; reflexivity|].
    pose proof (Z.mod_pos_bound (Z.of_nat n) 16 ltac:(lia)). lia. }
  rewrite E. pose proof (Nat.mod_upper_bound n 16 ltac:(lia)) as Hb. destruct (Z.of_nat (n mod 16) =? 0) eqn:F; to_prop.
  - replace (n mod 16)%nat with 0%nat by lia. change ((16 - 0) mod 16)%nat with 0%nat. cbn [repeat].
    rewrite app_nil_r. split; [exact Hp|repeat split].
  - rewrite (Nat.mod_small (16 - _)) by lia. replace (Z.to_nat (16 - Z.of_nat (n mod 16))) with (16 - n mod 16)%nat by lia.
    split; [|repeat split]. apply Poly1305.update_absorbed; [exact Hp|exact Hok|apply zeros_ok].
Qed.

(** The text that the authenticator sees. *)
Definition authenticated (m : mbedtls_chachapoly_mode_t) (input output : bytes) : bytes :=
  match m with MBEDTLS_CHACHAPOLY_ENCRYPT => output | MBEDTLS_CHACHAPOLY_DECRYPT => input end.

(** One update in the text phase. *)
Lemma text_update m ctx aad text x :
  text_phase m ctx aad text -> bytes_ok x ->
  exists ctx', mbedtls_chachapoly_update ctx x = Ok (ctx', xors (64 + length text) x) /\
    text_phase m ctx' aad (text ++ authenticated m x (xors (64 + length text) x)).
Proof.
  intros (Hs & Hm & Ha & Hc & Hp & Hok & Htok & Hk) Hx. unfold mbedtls_chachapoly_update. rewrite Hs.
  change (negb (CHACHAPOLY_STATE_CIPHERTEXT =? CHACHAPOLY_STATE_AAD) &&
          negb (CHACHAPOLY_STATE_CIPHERTEXT =? CHACHAPOLY_STATE_CIPHERTEXT)) with false.
  change (CHACHAPOLY_STATE_CIPHERTEXT =? CHACHAPOLY_STATE_AAD) with false. cbv iota zeta.
  destruct (ChaCha20.update_at key nonce 0 _ _ x Hk) as (c & Ec & Hc'). rewrite Ec, Hm.
  set (out := xors _ x). set (t := authenticated m x out).
  assert (Ht : bytes_ok t /\ length t = length x).
  { unfold t, authenticated, out. destruct m; [|by split]. split; [by apply xors_ok|apply xors_length]. }
  destruct Ht as [Ht Htl].
  assert (T : forall p, Poly1305.absorbed R Sv p ((aad ++ pad16 aad ++ text) ++ t) ->
    text_phase m (mkChachapoly c p (aad_len ctx) (u64 (ciphertext_len ctx + zlen x)) CHACHAPOLY_STATE_CIPHERTEXT m)
      aad (text ++ t)).
  { intros p A. split; [reflexivity|]. split; [reflexivity|]. split; [exact Ha|].
    split; [cbn [ciphertext_len]; rewrite Hc, u64_add_l, zlen_app, Htl; reflexivity|].
    split; [rewrite <- !app_assoc in A; exact A|]. split; [exact Hok|]. split; [apply bytes_ok_app; by split|].
    rewrite length_app, Htl, Nat.add_assoc. exact Hc'. }
  assert (Hmsg : bytes_ok (aad ++ pad16 aad ++ text)).
  { rewrite !bytes_ok_app. repeat split; try assumption. apply zeros_ok. }
  rewrite Hs. destruct m; eexists; (split; [reflexivity|]); apply T; by apply Poly1305.update_absorbed.
Qed.

(** The first update also ends the additional data. *)
Lemma first_update m ctx aad x :
  aad_phase m ctx aad -> bytes_ok x ->
  exists ctx', mbedtls_chachapoly_update ctx x = Ok (ctx', xors 64 x) /\
    text_phase m ctx' aad (authenticated m x (xors 64 x)).
Proof.
  intros (Hs & Hm & Ha & Hc & Hp & Hok & Hk) Hx.
  destruct (pad_absorbed (set_state ctx CHACHAPOLY_STATE_CIPHERTEXT) (aad_len ctx) aad (length aad) Ha Hp Hok)
    as (Hp' & E1 & E2 & E3 & E4 & E5).
  set (ctx1 := chachapoly_pad _ _) in *.
  assert (T : text_phase m ctx1 aad []).
  { split; [exact E4|]. split; [rewrite E5; exact Hm|]. split; [rewrite E2; exact Ha|]. split; [rewrite E3; exact Hc|].
    split; [rewrite app_nil_r; exact Hp'|]. split; [exact Hok|]. split; [constructor|]. rewrite E1. exact Hk. }
  destruct (text_update m ctx1 aad [] x T Hx) as (ctx' & E & T'). exists ctx'. split; [|exact T'].
  cbn [length] in E. rewrite Nat.add_0_r in E. rewrite <- E. unfold mbedtls_chachapoly_update. rewrite Hs, E4.
  change (negb (CHACHAPOLY_STATE_AAD =? CHACHAPOLY_STATE_AAD)) with false. reflexivity.
Qed.
(** The length block and the tag, from either phase. *)
Lemma finish_tag ctx msg aad text :
  state ctx <> CHACHAPOLY_STATE_INIT ->
  (let ctx' := if state ctx =? CHACHAPOLY_STATE_AAD then chachapoly_pad_aad ctx
      else if state ctx =? CHACHAPOLY_STATE_CIPHERTEXT then chachapoly_pad_ciphertext ctx else ctx in
   Poly1305.absorbed R Sv (poly1305_ctx ctx') msg /\ bytes_ok msg /\
   aad_len ctx' = u64 (zlen aad) /\ ciphertext_len ctx' = u64 (zlen text)) ->
  rfc_mac_data aad text = msg ++ le_bytes 8 (zlen aad) ++ le_bytes 8 (zlen text) ->
  exists ctx', mbedtls_chachapoly_finish ctx = Ok (ctx', rfc_tag key nonce aad text).
Proof.
  intros Hs H E. unfold mbedtls_chachapoly_finish. destruct (_ =? CHACHAPOLY_STATE_INIT) eqn:F; to_prop; [contradiction|].
  cbn zeta in H |- *. set (ctx' := if state ctx =? CHACHAPOLY_STATE_AAD then _ else _) in *.
  destruct H as (Hp & Hm & Ha & Hc). cbn [set_state aad_len ciphertext_len poly1305_ctx set_poly].
  assert (L : forall n, MBEDTLS_PUT_UINT64_LE (u64 n) = le_bytes 8 n).
  { intros n. rewrite put64_le. apply le_bytes_cong. change (256 ^ Z.of_nat 8) with (2 ^ 64). apply Z.mod_mod. lia. }
  rewrite Ha, Hc, !L. eexists. f_equal. f_equal. unfold rfc_tag, Poly1305.rfc_poly1305. rewrite E.
  assert (Hl : forall n, bytes_ok (le_bytes 8 n)) by (intros; apply le_bytes_ok).
  apply Poly1305.finish_absorbed.
  - apply Poly1305.update_absorbed; [exact Hp|exact Hm|]. apply bytes_ok_app; split; apply Hl.
  - apply bytes_ok_app. split; [exact Hm|]. apply bytes_ok_app; split; apply Hl.
Qed.

Lemma finish_text m ctx aad text :
  text_phase m ctx aad text -> exists ctx', mbedtls_chachapoly_finish ctx = Ok (ctx', rfc_tag key nonce aad text).
Proof.
  intros (Hs & Hm & Ha & Hc & Hp & Hok & Htok & Hk).
  assert (Hmsg : bytes_ok (aad ++ pad16 aad ++ text)).
  { rewrite !bytes_ok_app. split; [exact Hok|]. split; [apply zeros_ok|exact Htok]. }
  apply (finish_tag ctx ((aad ++ pad16 aad ++ text) ++ pad16 text)); [rewrite Hs; discriminate| |].
  - rewrite Hs. change (CHACHAPOLY_STATE_CIPHERTEXT =? CHACHAPOLY_STATE_AAD) with false.
    change (CHACHAPOLY_STATE_CIPHERTEXT =? CHACHAPOLY_STATE_CIPHERTEXT) with true. cbv iota zeta.
    destruct (pad_absorbed ctx (ciphertext_len ctx) _ (length text) Hc Hp Hmsg) as (Hp' & _ & E2 & E3 & _).
    split; [exact Hp'|]. split; [apply bytes_ok_app; split; [exact Hmsg|apply zeros_ok]|].
    unfold chachapoly_pad_ciphertext. rewrite E2, E3. by split.
  - unfold rfc_mac_data. app_norm. reflexivity.
Qed.

Lemma finish_aad m ctx aad :
  aad_phase m ctx aad -> exists ctx', mbedtls_chachapoly_finish ctx = Ok (ctx', rfc_tag key nonce aad []).
Proof.
  intros (Hs & Hm & Ha & Hc & Hp & Hok & Hk).
  apply (finish_tag ctx (aad ++ pad16 aad)); [rewrite Hs; discriminate| |].
  - rewrite Hs. change (CHACHAPOLY_STATE_AAD =? CHACHAPOLY_STATE_AAD) with true. cbv iota zeta.
    destruct (pad_absorbed ctx (aad_len ctx) _ (length aad) Ha Hp Hok) as (Hp' & _ & E2 & E3 & _).
    split; [exact Hp'|]. split; [apply bytes_ok_app; split; [exact Hok|apply zeros_ok]|].
    unfold chachapoly_pad_aad. rewrite E2, E3, Hc. split; [exact Ha|reflexivity].
  - unfold rfc_mac_data. change (pad16 []) with (@nil Z). app_norm. reflexivity.
Qed.

Lemma update_aad_all_phase m aads : forall ctx aad,
  aad_phase m ctx aad -> Forall bytes_ok aads ->
  exists ctx', update_aad_all ctx aads = Ok ctx' /\ aad_phase m ctx' (aad ++ concat aads).
Proof.
  induction aads as [|x aads IH]; intros ctx aad H Hx; cbn [update_aad_all concat].
  { exists ctx. rewrite app_nil_r. by split. }
  apply Forall_cons in Hx as [Hx Hxs]. destruct (update_aad_phase m ctx aad x H Hx) as (ctx1 & -> & H1).
  cbn [mbind result_bind]. destruct (IH ctx1 _ H1 Hxs) as (ctx2 & -> & H2). exists ctx2.
  rewrite app_assoc. by split.
Qed.

(** Further updates of an encryption in the text phase. *)
Lemma update_all_text inputs : forall ctx aad text,
  text_phase MBEDTLS_CHACHAPOLY_ENCRYPT ctx aad text -> Forall bytes_ok inputs ->
  exists ctx', update_all ctx inputs = Ok (ctx', xors (64 + length text) (concat inputs)) /\
    text_phase MBEDTLS_CHACHAPOLY_ENCRYPT ctx' aad (text ++ xors (64 + length text) (concat inputs)).
Proof.
  induction inputs as [|x inputs IH]; intros ctx aad text H Hx; cbn [update_all concat].
  { exists ctx. change (xors (64 + length text) []) with (@nil Z). rewrite app_nil_r. by split. }
  apply Forall_cons in Hx as [Hx Hxs]. destruct (text_update _ ctx aad text x H Hx) as (ctx1 & -> & H1).
  cbn [mbind result_bind]. destruct (IH ctx1 aad _ H1 Hxs) as (ctx2 & -> & H2). cbn [mbind result_bind].
  exists ctx2. cbn [authenticated] in *. rewrite length_app, xors_length, Nat.add_assoc in *.
  rewrite ChaCha20.xors_app. rewrite <- app_assoc in H2. by split.
Qed.

Context (key_ok : bytes_ok key) (key_len : length key = 32%nat).
Context (nonce_ok : bytes_ok nonce) (nonce_len : length nonce = 12%nat).

Lemma starts_phase ctx m :
  aad_phase m (mbedtls_chachapoly_starts (mbedtls_chachapoly_setkey ctx key) nonce m) [].
Proof using key_ok key_len nonce_ok nonce_len.
  unfold mbedtls_chachapoly_starts. cbn [chacha20_ctx mbedtls_chachapoly_setkey].
  pose proof (ChaCha20.start_at key nonce 0 (chacha20_ctx ctx) key_ok nonce_ok key_len nonce_len ltac:(lia)) as H0.
  destruct (ChaCha20.update_at key nonce 0 _ 0 (repeat 0 64) H0) as (c & -> & Hc).
  assert (E : xors 0 (repeat 0 64) = ChaCha20.rfc_block (ChaCha20.rfc_state key nonce 0)).
  { rewrite <- (ChaCha20.xor_block key nonce 0 0) by (cbn; lia). change (0 + Z.of_nat 0) with 0.
    unfold ChaCha20.xor_bytes. pose proof (ChaCha20.rfc_block_length (ChaCha20.rfc_state key nonce 0)) as Hl.
    revert Hl. generalize (ChaCha20.rfc_block (ChaCha20.rfc_state key nonce 0)). intros blk Hl.
    rewrite <- Hl at 1. clear. induction blk as [|b blk IH]; [reflexivity|]. cbn. by rewrite IH, Z.lxor_0_l. }
  rewrite E. repeat (split; [reflexivity|]). split; [|split; [constructor|exact Hc]].
  pose proof (Poly1305.starts_absorbed (poly1305_ctx ctx) poly_key) as A.
  unfold rfc_poly_key in *. pose proof (ChaCha20.rfc_block_length (ChaCha20.rfc_state key nonce 0)) as Hl.
  pose proof (block_bytes_ok (ChaCha20.rfc_state key nonce 0)) as Hb. cbn [poly1305_ctx]. clear E Hc c H0.
  set (blk := ChaCha20.rfc_block _) in *.
  replace (Poly1305.mbedtls_poly1305_starts _ blk) with (Poly1305.mbedtls_poly1305_starts (poly1305_ctx ctx) (take 32 blk)).
  - apply A; [by apply Forall_take|rewrite length_take; lia].
  - clearbody blk. do 32 (destruct blk as [|? blk]; [discriminate Hl|]). reflexivity.
Qed.
(** Encryption or decryption in one update. *)
Lemma crypt_and_tag_eq m ctx aad input :
  bytes_ok aad -> bytes_ok input ->
  exists ctx', chachapoly_crypt_and_tag (mbedtls_chachapoly_setkey ctx key) m nonce aad input =
    Ok (ctx', xors 64 input, rfc_tag key nonce aad (authenticated m input (xors 64 input))).
Proof using key_ok key_len nonce_ok nonce_len.
  intros Ha Hi. unfold chachapoly_crypt_and_tag.
  destruct (update_aad_phase m _ [] aad (starts_phase ctx m) Ha) as (ctx1 & -> & H1). cbn [mbind result_bind app] in *.
  destruct (first_update m ctx1 aad input H1 Hi) as (ctx2 & -> & H2). cbn [mbind result_bind].
  destruct (finish_text m ctx2 _ _ H2) as (ctx3 & ->). cbn [mbind result_bind]. by exists ctx3.
Qed.
End Phases.

Lemma rfc_chacha20_involutive key nonce n x :
  ChaCha20.rfc_chacha20 key nonce n (ChaCha20.rfc_chacha20 key nonce n x) = x.
Proof.
  unfold ChaCha20.rfc_chacha20. rewrite length_zip_with, length_map, length_seq, Nat.min_id.
  generalize (ChaCha20.keystream_byte key nonce n). intros f. generalize 0%nat.
  induction x as [|b x IH]; intros o; [reflexivity|]. cbn [length seq map zip_with]. by rewrite IH, lxor_cancel.
Qed.

(** Encryption with the additional data and the text cut into any updates,
    also none, gives the ciphertext and the tag of RFC 8439. *)
Theorem chachapoly_streaming_correct ctx key nonce aads inputs :
  bytes_ok key -> bytes_ok nonce -> length key = 32%nat -> length nonce = 12%nat ->
  Forall bytes_ok aads -> Forall bytes_ok inputs ->
  (ctx ← update_aad_all
     (mbedtls_chachapoly_starts (mbedtls_chachapoly_setkey ctx key) nonce MBEDTLS_CHACHAPOLY_ENCRYPT) aads;
   '(ctx, output) ← update_all ctx inputs;
   '(_, tag) ← mbedtls_chachapoly_finish ctx;
   Ok (output, tag)) = Ok (rfc_seal key nonce (concat aads) (concat inputs)).
Proof.
  intros Hk Hn Lk Ln Ha Hi.
  destruct (update_aad_all_phase key nonce _ aads _ [] (starts_phase key nonce Hk Lk Hn Ln ctx MBEDTLS_CHACHAPOLY_ENCRYPT) Ha) as (c1 & -> & H1).
  cbn [mbind result_bind app] in *. unfold rfc_seal. rewrite <- xors_shift.
  destruct inputs as [|x inputs]; cbn [update_all concat].
  - cbn [mbind result_bind]. destruct (finish_aad key nonce _ _ _ H1) as (c2 & ->). reflexivity.
  - apply Forall_cons in Hi as [Hx Hi]. destruct (first_update key nonce _ c1 _ x H1 Hx) as (c2 & -> & H2).
    cbn [mbind result_bind authenticated] in *.
    destruct (update_all_text key nonce inputs c2 _ _ H2 Hi) as (c3 & -> & H3). cbn [mbind result_bind].
    destruct (finish_text key nonce _ _ _ _ H3) as (c4 & ->). cbn [mbind result_bind].
    rewrite xors_length, <- ChaCha20.xors_app. reflexivity.
Qed.

Lemma chachapoly_streaming_correct_witness :
  let key := map Z.of_nat (seq 128 32) in
  let nonce := [0x07; 0; 0; 0] ++ map Z.of_nat (seq 0x40 8) in
  let aads := [[0x50; 0x51; 0x52; 0x53]; map Z.of_nat (seq 0xc0 8)] in
  let inputs := [str "Ladies and Gentlemen of the class of '99: "; str "If I could offer you only one tip for the future, sunscreen would be it."] in
  (ctx ← update_aad_all
     (mbedtls_chachapoly_starts (mbedtls_chachapoly_setkey mbedtls_chachapoly_init key) nonce MBEDTLS_CHACHAPOLY_ENCRYPT) aads;
   '(ctx, output) ← update_all ctx inputs;
   '(_, tag) ← mbedtls_chachapoly_finish ctx;
   Ok (output, tag)) = Ok (rfc_seal key nonce (concat aads) (concat inputs)) /\
  snd (rfc_seal key nonce (concat aads) (concat inputs)) =
    [0x1a; 0xe1; 0x0b; 0x59; 0x4f; 0x09; 0xe2; 0x6a; 0x7e; 0x90; 0x2e; 0xcb; 0xd0; 0x60; 0x06; 0x91].
Proof.
  split; [|vm_compute; reflexivity].
  apply chachapoly_streaming_correct; [bytes_ok_closed|bytes_ok_closed|reflexivity|reflexivity| |];
    repeat (constructor; [bytes_ok_closed|]); constructor.
Defined.

(** C11. Decryption returns the text for the right tag; for every other tag of
    16 bytes it returns [AUTH_FAILED] and the output buffer is zeros. *)
Theorem auth_decrypt_correct ctx key nonce aad tag input output0 :
  bytes_ok key -> bytes_ok nonce -> length key = 32%nat -> length nonce = 12%nat ->
  bytes_ok aad -> bytes_ok input -> length tag = 16%nat ->
  mbedtls_chachapoly_auth_decrypt (mbedtls_chachapoly_setkey ctx key) nonce aad tag input output0 =
  if decide (tag = rfc_tag key nonce aad input)
  then (0, ChaCha20.rfc_chacha20 key nonce 1 input)
  else (MBEDTLS_ERR_CHACHAPOLY_AUTH_FAILED, repeat 0 (length input)).
Proof.
  intros Hk Hn Lk Ln Ha Hi Ht. unfold mbedtls_chachapoly_auth_decrypt.
  destruct (crypt_and_tag_eq key nonce Hk Lk Hn Ln MBEDTLS_CHACHAPOLY_DECRYPT ctx aad input Ha Hi) as (ctx' & ->).
  cbn [authenticated]. rewrite xors_length, xors_shift.
  assert (Hl : length tag = length (rfc_tag key nonce aad input))
    by (rewrite Ht; unfold rfc_tag, Poly1305.rfc_poly1305; rewrite le_bytes_length; reflexivity).
  pose proof (ct_memcmp_zero tag _ Hl) as Z0. destruct (decide _) as [E|E].
  - rewrite (proj2 Z0 E). reflexivity.
  - destruct (_ =? 0) eqn:F; to_prop; [|reflexivity]. exfalso. by apply E, Z0.
Qed.

Lemma auth_decrypt_correct_witness :
  let key := map Z.of_nat (seq 128 32) in
  let nonce := repeat 7 12 in
  mbedtls_chachapoly_auth_decrypt (mbedtls_chachapoly_setkey mbedtls_chachapoly_init key) nonce [1; 2] (repeat 0 16) [3; 4; 5] [] =
    if decide (repeat 0 16 = rfc_tag key nonce [1; 2] [3; 4; 5])
    then (0, ChaCha20.rfc_chacha20 key nonce 1 [3; 4; 5])
    else (MBEDTLS_ERR_CHACHAPOLY_AUTH_FAILED, repeat 0 3).
Proof.
  apply (auth_decrypt_correct mbedtls_chachapoly_init); try reflexivity; bytes_ok_closed.
Defined.

(** What [encrypt_and_tag] returns, [auth_decrypt] with the same key, nonce
    and additional data returns to the text. *)
Theorem open_sealed ctx ctx' key nonce aad text output0 :
  bytes_ok key -> bytes_ok nonce -> length key = 32%nat -> length nonce = 12%nat ->
  bytes_ok aad -> bytes_ok text ->
  exists ctx'' sealed tag,
    mbedtls_chachapoly_encrypt_and_tag (mbedtls_chachapoly_setkey ctx key) nonce aad text = Ok (ctx'', sealed, tag) /\
    mbedtls_chachapoly_auth_decrypt (mbedtls_chachapoly_setkey ctx' key) nonce aad tag sealed output0 = (0, text).
Proof.
  intros Hk Hn Lk Ln Ha Hi. unfold mbedtls_chachapoly_encrypt_and_tag.
  destruct (crypt_and_tag_eq key nonce Hk Lk Hn Ln MBEDTLS_CHACHAPOLY_ENCRYPT ctx aad text Ha Hi) as (c & ->).
  cbn [authenticated]. eexists _, _, _. split; [reflexivity|].
  set (sealed := ChaCha20.xors key nonce 0 64 text). assert (Hs : bytes_ok sealed) by (by apply xors_ok).
  unfold mbedtls_chachapoly_auth_decrypt.
  destruct (crypt_and_tag_eq key nonce Hk Lk Hn Ln MBEDTLS_CHACHAPOLY_DECRYPT ctx' aad sealed Ha Hs) as (c' & ->).
  cbn [authenticated]. rewrite (proj2 (ct_memcmp_zero _ _ eq_refl) eq_refl). cbn [negb Z.eqb].
  unfold sealed. rewrite !xors_shift, rfc_chacha20_involutive. reflexivity.
Qed.

Lemma open_sealed_witness :
  let key := map Z.of_nat (seq 128 32) in
  let nonce := repeat 7 12 in
  exists ctx'' sealed tag,
    mbedtls_chachapoly_encrypt_and_tag (mbedtls_chachapoly_setkey mbedtls_chachapoly_init key) nonce (str "head") (str "text")
      = Ok (ctx'', sealed, tag) /\
    mbedtls_chachapoly_auth_decrypt (mbedtls_chachapoly_setkey mbedtls_chachapoly_init key) nonce (str "head") tag sealed []
      = (0, str "text").
Proof. apply open_sealed; try reflexivity; bytes_ok_closed. Defined.
End ChachaPoly.
