(* ===== verification/Limbs.v ===== *)
(** Lists of limbs: the loops of the big number code on arrays of
    [mbedtls_mpi_uint] (mbedtls/library/bignum.c), 64 bits wide as on the
    target (aarch64), and the numbers they stand for.  The assembly the target
    uses for the multiplication is replaced by the C of bn_mul.h. *)
From S2P Require Import Prelude Words.
From stdpp Require Import list.
#[local] Open Scope Z_scope.

(** ** Limbs *)

(** [biL], [ciL] and the base. *)
Definition biL : Z := 64.
Definition ciL : nat := 8.
Definition radix : Z := 2 ^ 64.

Abbreviation limb x := (0 <= x < radix).
Definition limbs_ok (l : list Z) : Prop := Forall (fun x => limb x) l.

(** The number of an array of limbs, the lowest first. *)
Fixpoint mag (l : list Z) : Z := match l with [] => 0 | x :: l => x + radix * mag l end.

Definition b2z (b : bool) : Z := if b then 1 else 0.

(** ** Loops *)

(** [for (i = n; i > 0; i--) if (p[i - 1] != 0) break;] *)
Fixpoint significant (l : list Z) (i : nat) : nat :=
  match i with O => O | S k => if nth k l 0 =? 0 then significant l k else i end.

(** [for (i = n - 1; i > 0; i--) if (p[i] != 0) break;] *)
Fixpoint highest (l : list Z) (i : nat) : nat :=
  match i with O => O | S k => if nth i l 0 =? 0 then highest l k else i end.

(** One limb of a multiplication: the new limb of [d] and the carry. *)
Definition MULADDC_CORE (s d b c : Z) : Z * Z :=
  let r := s * b in
  let r0 := u64 r in
  let r1 := u64 (Z.shiftr r biL) in
  let r0 := u64 (r0 + c) in
  let r1 := u64 (r1 + b2z (r0 <? c)) in
  let r0 := u64 (r0 + d) in
  let r1 := u64 (r1 + b2z (r0 <? d)) in
  (r0, r1).

(** [while (c != 0) { *d += c; c = ( *d < c ); d++; }] *)
Fixpoint add_carry (d : list Z) (c : Z) : list Z :=
  match d with
  | [] => []
  | y :: d' => if c =? 0 then d else let y := u64 (y + c) in y :: add_carry d' (b2z (y <? c))
  end.

Fixpoint muladdc (s d : list Z) (b c : Z) : list Z :=
  match s, d with
  | x :: s, y :: d => let '(y, c) := MULADDC_CORE x y b c in y :: muladdc s d b c
  | _, _ => add_carry d c
  end.

(** [d], from where it points to, with [b * s] added. *)
Definition mpi_mul_hlp (s d : list Z) (b : Z) : list Z := muladdc s d b 0.

(** [l - r] and the borrow. *)
Fixpoint mpi_sub_hlp (l r : list Z) (c : Z) : list Z * Z :=
  match l, r with
  | x :: l, y :: r =>
      let z := b2z (x <? c) in
      let t := u64 (x - c) in
      let '(d, c) := mpi_sub_hlp l r (b2z (t <? y) + z) in
      (u64 (t - y) :: d, c)
  | _, _ => ([], c)
  end.

(** The addition of [mbedtls_mpi_add_abs]: the limbs of [p] and the carry out of
    the last. *)
Fixpoint add_limbs (o p : list Z) (c : Z) : list Z * Z :=
  match o, p with
  | tmp :: o, y :: p =>
      let y := u64 (y + c) in
      let c := b2z (y <? c) in
      let y := u64 (y + tmp) in
      let c := c + b2z (y <? tmp) in
      let '(p, c) := add_limbs o p c in
      (y :: p, c)
  | _, y :: p' =>
      if c =? 0 then (p, 0)
      else
        let y := u64 (y + c) in
        let '(p, c) := add_limbs [] p' (b2z (y <? c)) in
        (y :: p, c)
  | _, [] => ([], c)
  end.

(** The borrow of [mbedtls_mpi_sub_abs] above the limbs subtracted; the flag
    says that a limb could be decremented. *)
Fixpoint sub_borrow (p : list Z) : list Z * bool :=
  match p with
  | [] => ([], false)
  | y :: p' => if y =? 0 then let '(p', ok) := sub_borrow p' in (u64 (y - 1) :: p', ok) else (u64 (y - 1) :: p', true)
  end.

(** The limbs shifted by [t1] bits to the left, [0 < t1 < biL]. *)
Fixpoint shift_l_bits (p : list Z) (t1 r0 : Z) : list Z :=
  match p with
  | [] => []
  | x :: p => Z.lor (u64 (Z.shiftl x t1)) r0 :: shift_l_bits p t1 (Z.shiftr x (biL - t1))
  end.

(** The limbs shifted by [v1] bits to the right, from the highest to the lowest,
    and the bits that leave the lowest. *)
Fixpoint shift_r_bits (p : list Z) (v1 : Z) : list Z * Z :=
  match p with
  | [] => ([], 0)
  | x :: p => let '(p, r0) := shift_r_bits p v1 in (Z.lor (Z.shiftr x v1) r0 :: p, u64 (Z.shiftl x (biL - v1)))
  end.

(** The comparison of the highest [i] limbs. *)
Fixpoint cmp_limbs (x y : list Z) (i : nat) : Z :=
  match i with
  | O => 0
  | S k => if nth k y 0 <? nth k x 0 then 1 else if nth k x 0 <? nth k y 0 then -1 else cmp_limbs x y k
  end.

(** ** Numbers *)

Lemma radix_pos : 0 < radix.
Proof. reflexivity. Qed.
#[export] Hint Resolve radix_pos : core.

Lemma u64_limb z : limb (u64 z).
Proof. apply u64_range. Qed.
#[export] Hint Resolve u64_limb : core.

Lemma u64_radix z : u64 z = z mod radix.
Proof. reflexivity. Qed.

Lemma radix_pow n : radix ^ Z.of_nat (S n) = radix * radix ^ Z.of_nat n.
Proof. rewrite Nat2Z.inj_succ, Z.pow_succ_r by lia. reflexivity. Qed.

Lemma radix_pow_pos n : 0 < radix ^ Z.of_nat n.
Proof. apply Z.pow_pos_nonneg; [done|lia]. Qed.
#[export] Hint Resolve radix_pow_pos : core.

Lemma radix_pow_add n m : radix ^ Z.of_nat (n + m) = radix ^ Z.of_nat n * radix ^ Z.of_nat m.
Proof. rewrite Nat2Z.inj_add, Z.pow_add_r by lia. reflexivity. Qed.

Lemma radix_pow_bits n : radix ^ Z.of_nat n = 2 ^ (biL * Z.of_nat n).
Proof. unfold radix, biL. rewrite <- Z.pow_mul_r by lia. reflexivity. Qed.

Lemma radix_pow_le n m : (n <= m)%nat -> radix ^ Z.of_nat n <= radix ^ Z.of_nat m.
Proof. intros H. apply Z.pow_le_mono_r; [done|lia]. Qed.

Lemma mag_range l : limbs_ok l -> 0 <= mag l < radix ^ zlen l.
Proof.
  induction 1 as [|x l Hx Hl IH]; [cbn; lia|]. cbn [mag length]. rewrite radix_pow.
  pose proof (radix_pow_pos (length l)). nia.
Qed.

Lemma mag_nonneg l : limbs_ok l -> 0 <= mag l.
Proof. intros H. apply mag_range in H. lia. Qed.

Lemma mag_app a b : mag (a ++ b) = mag a + radix ^ zlen a * mag b.
Proof.
  induction a as [|x a IH]; [cbn; lia|]. cbn [app mag length]. rewrite IH, radix_pow. ring.
Qed.

Lemma mag_zeros n : mag (repeat 0 n) = 0.
Proof. induction n as [|n IH]; [done|]. cbn [repeat mag]. rewrite IH. lia. Qed.

Lemma mag_app_zeros l n : mag (l ++ repeat 0 n) = mag l.
Proof. rewrite mag_app, mag_zeros. lia. Qed.

Lemma limbs_zeros n : limbs_ok (repeat 0 n).
Proof. apply Forall_forall. intros x Hx%list_elem_of_In%repeat_spec. subst. split; [lia|done]. Qed.

Lemma limbs_app a b : limbs_ok (a ++ b) <-> limbs_ok a /\ limbs_ok b.
Proof. apply Forall_app. Qed.

Lemma limbs_take k l : limbs_ok l -> limbs_ok (take k l).
Proof. apply Forall_take. Qed.
Lemma limbs_drop k l : limbs_ok l -> limbs_ok (drop k l).
Proof. apply Forall_drop. Qed.
Create HintDb limbs.
#[export] Hint Resolve limbs_zeros limbs_take limbs_drop mag_nonneg : limbs.

Lemma limbs_nth l k : limbs_ok l -> limb (nth k l 0).
Proof.
  intros H. destruct (Nat.lt_ge_cases k (length l)) as [Hk|Hk].
  - unfold limbs_ok in H. rewrite List.Forall_forall in H. apply H, nth_In, Hk.
  - rewrite nth_overflow by exact Hk. split; [lia|done].
Qed.

Lemma mag_take_drop k l : mag l = mag (take k l) + radix ^ Z.of_nat (Nat.min k (length l)) * mag (drop k l).
Proof. rewrite <- (take_drop k l) at 1. rewrite mag_app, length_take. reflexivity. Qed.

Lemma mag_split k l : (k <= length l)%nat -> mag l = mag (take k l) + radix ^ Z.of_nat k * mag (drop k l).
Proof. intros H. rewrite (mag_take_drop k l), Nat.min_l by exact H. reflexivity. Qed.

Lemma drop_nth (l : list Z) k : (k < length l)%nat -> drop k l = nth k l 0 :: drop (S k) l.
Proof.
  revert k. induction l as [|x l IH]; intros [|k] H; cbn [length] in H; try lia; [done|].
  cbn [drop nth]. apply IH. lia.
Qed.

Lemma take_nth (l : list Z) k : (k < length l)%nat -> take (S k) l = take k l ++ [nth k l 0].
Proof.
  revert k. induction l as [|x l IH]; intros [|k] H; cbn [length] in H; try lia; [done|].
  cbn [take nth app]. f_equal. apply IH. lia.
Qed.

Lemma mag_take_S l k : (k < length l)%nat -> mag (take (S k) l) = mag (take k l) + radix ^ Z.of_nat k * nth k l 0.
Proof. intros H. rewrite take_nth by exact H. rewrite mag_app, length_take, Nat.min_l by lia. cbn [mag]. lia. Qed.

(** The number is that of the limbs modulo a power of the base. *)
Lemma mag_mod k l : limbs_ok l -> (k <= length l)%nat -> mag l mod radix ^ Z.of_nat k = mag (take k l).
Proof.
  intros Hl Hk. rewrite (mag_split k l Hk), Z.mul_comm, Z.mod_add by (apply Z.neq_sym, Z.lt_neq; auto).
  apply Z.mod_small. pose proof (mag_range (take k l) (limbs_take k l Hl)) as H. rewrite length_take, Nat.min_l in H by exact Hk. exact H.
Qed.

Lemma mag_div k l : limbs_ok l -> (k <= length l)%nat -> mag l / radix ^ Z.of_nat k = mag (drop k l).
Proof.
  intros Hl Hk. rewrite (mag_split k l Hk). pose proof (radix_pow_pos k).
  pose proof (mag_range (take k l) (limbs_take k l Hl)) as H'. rewrite length_take, Nat.min_l in H' by exact Hk.
  symmetry. apply Z.div_unique with (mag (take k l)); lia.
Qed.

Lemma mag_inj a : forall b, limbs_ok a -> limbs_ok b -> length a = length b -> mag a = mag b -> a = b.
Proof.
  induction a as [|x a IH]; intros [|y b] Ha Hb Hl H; try discriminate; [done|].
  inversion Ha as [|? ? Hx Ha']; inversion Hb as [|? ? Hy Hb']; subst. cbn [mag] in H. cbn [length] in Hl.
  assert (x = y) as ->.
  { rewrite <- (Z.mod_small x radix), <- (Z.mod_small y radix) by lia.
    rewrite <- (Z.mod_add x (mag a) radix), <- (Z.mod_add y (mag b) radix) by lia.
    f_equal. lia. }
  f_equal. apply IH; try done; [lia|]. pose proof radix_pos. nia.
Qed.

(** ** Leading zeros *)

Lemma significant_le l i : (significant l i <= i)%nat.
Proof. induction i as [|k IH]; [done|]. cbn [significant]. case_if; lia. Qed.

Lemma significant_mag l i : (i <= length l)%nat -> mag (take i l) = mag (take (significant l i) l).
Proof.
  induction i as [|k IH]; intros Hi; [done|]. cbn [significant]. case_if; [|done]. to_prop.
  rewrite mag_take_S by lia. rewrite IH by lia. nia.
Qed.

Lemma significant_top l i : (0 < significant l i)%nat -> nth (significant l i - 1) l 0 <> 0.
Proof.
  induction i as [|k IH]; cbn [significant]; [lia|]. case_if; [exact IH|]. to_prop.
  intros _. replace (S k - 1)%nat with k by lia. exact E.
Qed.

Definition sig (l : list Z) : nat := significant l (length l).

Lemma sig_le l : (sig l <= length l)%nat.
Proof. apply significant_le. Qed.

Lemma mag_sig l : mag (take (sig l) l) = mag l.
Proof. unfold sig. rewrite <- significant_mag by lia. by rewrite firstn_all. Qed.

Lemma sig_upper l : limbs_ok l -> mag l < radix ^ Z.of_nat (sig l).
Proof.
  intros H. rewrite <- mag_sig. pose proof (mag_range _ (limbs_take (sig l) l H)) as R.
  rewrite length_take, Nat.min_l in R by apply sig_le. lia.
Qed.

Lemma sig_lower l : limbs_ok l -> (0 < sig l)%nat -> radix ^ Z.of_nat (sig l - 1) <= mag l.
Proof.
  intros H Hs. pose proof (significant_top l (length l) Hs) as Ht. fold (sig l) in Ht.
  rewrite <- mag_sig. pose proof (sig_le l). replace (sig l) with (S (sig l - 1)) at 2 by lia.
  rewrite mag_take_S by lia. pose proof (limbs_nth l (sig l - 1) H). pose proof (radix_pow_pos (sig l - 1)).
  pose proof (mag_nonneg _ (limbs_take (sig l - 1) l H)). nia.
Qed.

Lemma sig_zero l : limbs_ok l -> (sig l = 0%nat <-> mag l = 0).
Proof.
  intros H. split; intros E.
  - rewrite <- mag_sig, E. by destruct l.
  - destruct (Nat.eq_0_gt_0_cases (sig l)) as [|Hs]; [done|]. pose proof (sig_lower l H Hs). pose proof (radix_pow_pos (sig l - 1)). lia.
Qed.

(** The number of limbs a number needs. *)
Lemma sig_le_iff l k : limbs_ok l -> (mag l < radix ^ Z.of_nat k <-> (sig l <= k)%nat).
Proof.
  intros H. split; intros E.
  - destruct (Nat.le_gt_cases (sig l) k) as [|Hs]; [done|]. pose proof (sig_lower l H ltac:(lia)).
    pose proof (radix_pow_le k (sig l - 1) ltac:(lia)). lia.
  - pose proof (sig_upper l H). pose proof (radix_pow_le _ _ E). lia.
Qed.

Lemma sig_mono a b : limbs_ok a -> limbs_ok b -> mag a <= mag b -> (sig a <= sig b)%nat.
Proof. intros Ha Hb H. apply sig_le_iff; [done|]. pose proof (sig_upper b Hb). lia. Qed.

Lemma sig_eq a b : limbs_ok a -> limbs_ok b -> mag a = mag b -> sig a = sig b.
Proof. intros Ha Hb H. apply Nat.le_antisymm; apply sig_mono; auto; lia. Qed.

Lemma highest_significant l i : S (highest l i) = Nat.max 1 (significant l (S i)).
Proof.
  induction i as [|k IH].
  - cbn [highest significant]. case_if; lia.
  - cbn [highest]. rewrite (eq_refl : significant l (S (S k)) = if nth (S k) l 0 =? 0 then significant l (S k) else S (S k)).
    case_if; [exact IH|lia].
Qed.

Lemma highest_sig l : l <> [] -> S (highest l (length l - 1)) = Nat.max 1 (sig l).
Proof. intros H. rewrite highest_significant. destruct l; [done|]. cbn [length]. by replace (S (S (length l) - 1)) with (S (length l)) by lia. Qed.

Lemma drop_sig l : drop (sig l) l = repeat 0 (length l - sig l).
Proof.
  unfold sig. assert (G : forall i, (i <= length l)%nat -> drop (significant l i) (take i l) = repeat 0 (i - significant l i)).
  { induction i as [|k IH]; intros Hi; [by rewrite take_0|]. cbn [significant]. case_if; to_prop.
    - rewrite take_nth by lia. rewrite E, drop_app_le by (rewrite length_take; pose proof (significant_le l k); lia).
      rewrite IH by lia. pose proof (significant_le l k). replace (S k - significant l k)%nat with (S (k - significant l k)) by lia.
      change [0] with (repeat 0 1). rewrite <- repeat_app. f_equal. lia.
    - replace (S k - S k)%nat with 0%nat by lia. apply drop_ge. rewrite length_take. lia. }
  specialize (G (length l) ltac:(lia)). by rewrite firstn_all in G.
Qed.

(** ** The loops compute *)

Lemma limb_carry x c : limb x -> limb c -> u64 (x + c) = x + c - radix * b2z (u64 (x + c) <? c).
Proof.
  intros Hx Hc. unfold u64. change (2 ^ 64) with radix. unfold b2z.
  destruct (Z.lt_ge_cases (x + c) radix).
  - rewrite Z.mod_small by lia. rewrite (proj2 (Z.ltb_ge _ _)) by lia. lia.
  - rewrite <- (Z.mod_add (x + c) (-1) radix) by lia. rewrite Z.mod_small by lia. rewrite (proj2 (Z.ltb_lt _ _)) by lia. lia.
Qed.

Lemma limb_borrow x c : limb x -> limb c -> u64 (x - c) = x - c + radix * b2z (x <? c).
Proof.
  intros Hx Hc. unfold u64. change (2 ^ 64) with radix. unfold b2z. destruct (Z.ltb_spec x c).
  - rewrite <- (Z.mod_add (x - c) 1 radix) by lia. rewrite Z.mod_small by lia. lia.
  - rewrite Z.mod_small by lia. lia.
Qed.

Lemma b2z_range b : 0 <= b2z b <= 1.
Proof. destruct b; cbn; lia. Qed.

Lemma mod_cons x z n : limb x -> (x + radix * z) mod radix ^ Z.of_nat (S n) = x + radix * (z mod radix ^ Z.of_nat n).
Proof.
  intros Hx. pose proof (radix_pow_pos n) as Hp. rewrite radix_pow. symmetry.
  apply Z.mod_unique with (z / radix ^ Z.of_nat n).
  - left. pose proof (Z.mod_pos_bound z (radix ^ Z.of_nat n) Hp). nia.
  - rewrite (Z.div_mod z (radix ^ Z.of_nat n)) at 1 by lia. ring.
Qed.

Lemma add_carry_length d : forall c, length (add_carry d c) = length d.
Proof. induction d as [|y d IH]; intros c; cbn [add_carry]; [done|]. case_if; [done|]. cbn [length]. by rewrite IH. Qed.

Lemma add_carry_ok d : forall c, limbs_ok d -> limbs_ok (add_carry d c).
Proof.
  induction d as [|y d IH]; intros c H; cbn [add_carry]; [done|]. case_if; [done|]. inversion H; subst. constructor; [apply u64_limb|by apply IH].
Qed.

Lemma add_carry_mag d : forall c, limbs_ok d -> limb c -> mag (add_carry d c) = (mag d + c) mod radix ^ zlen d.
Proof.
  induction d as [|y d IH]; intros c H Hc.
  - cbn. by rewrite Z.mod_1_r.
  - inversion H as [|? ? Hy Hd]; subst. cbn [add_carry]. case_if; to_prop.
    + subst c. rewrite Z.add_0_r. symmetry. apply Z.mod_small, mag_range. by constructor.
    + pose proof (b2z_range (u64 (y + c) <? c)). cbn [mag length]. rewrite IH by (auto; pose proof radix_pos; unfold radix; lia).
      rewrite (limb_carry y c) at 1 by done. rewrite <- mod_cons.
      2:{ rewrite <- limb_carry by done. auto. }
      f_equal. ring.
Qed.

Lemma core_ok s d b c : limb s -> limb d -> limb b -> limb c ->
  let '(y, c') := MULADDC_CORE s d b c in limb y /\ limb c' /\ y + radix * c' = d + s * b + c.
Proof.
  intros Hs Hd Hb Hc. unfold MULADDC_CORE.
  set (r0 := u64 (s * b)). set (r1 := u64 (Z.shiftr (s * b) biL)).
  assert (Hsb : 0 <= s * b <= (radix - 1) * (radix - 1)) by nia.
  assert (E : s * b = r0 + radix * r1 /\ r1 <= radix - 2 /\ limb r0 /\ 0 <= r1).
  { unfold r0, r1. rewrite Z.shiftr_div_pow2 by done. change (2 ^ biL) with radix. rewrite !u64_radix.
    assert (0 <= s * b / radix <= radix - 2) as Hq.
    { split; [apply Z.div_pos; [lia|done]|]. apply Z.lt_succ_r. apply Z.div_lt_upper_bound; [done|]. assert (1 < radix) by done. nia. }
    rewrite (Z.mod_small (s * b / radix)) by lia.
    pose proof (Z.mod_pos_bound (s * b) radix radix_pos). pose proof (Z.div_mod (s * b) radix). lia. }
  destruct E as (E & Hr1 & Hr0 & Hr1'). clearbody r0 r1.
  pose proof (limb_carry r0 c Hr0 Hc) as W1. set (r0' := u64 (r0 + c)) in *. pose proof (b2z_range (r0' <? c)).
  assert (Hr0' : limb r0') by (unfold r0'; auto).
  pose proof (limb_carry r0' d Hr0' Hd) as W2. set (r0'' := u64 (r0' + d)) in *. pose proof (b2z_range (r0'' <? d)).
  assert (Hr0'' : limb r0'') by (unfold r0''; auto).
  set (b1 := b2z (r0' <? c)) in *. set (b2 := b2z (r0'' <? d)) in *.
  assert (E1 : u64 (r1 + b1) = r1 + b1) by (rewrite u64_radix; apply Z.mod_small; lia). rewrite E1.
  assert (S : r0'' + radix * (r1 + b1 + b2) = d + s * b + c) by lia.
  assert (r1 + b1 + b2 < radix) by nia.
  assert (E2 : u64 (r1 + b1 + b2) = r1 + b1 + b2) by (rewrite u64_radix; apply Z.mod_small; lia). rewrite E2.
  split; [done|]. split; [lia|exact S].
Qed.

Lemma muladdc_length s : forall d b c, length (muladdc s d b c) = length d.
Proof.
  induction s as [|x s IH]; intros [|y d] b c; cbn [muladdc]; rewrite ?add_carry_length; try done.
  destruct (MULADDC_CORE x y b c). cbn [length]. by rewrite IH.
Qed.

Lemma muladdc_ok s b : limbs_ok s -> limb b -> forall d c, limbs_ok d -> limb c -> (length s <= length d)%nat ->
  limbs_ok (muladdc s d b c) /\ mag (muladdc s d b c) = (mag d + b * mag s + c) mod radix ^ zlen d.
Proof.
  intros Hs Hb. induction Hs as [|x s Hx Hs IH]; intros d c Hd Hc Hl.
  - assert (E : muladdc [] d b c = add_carry d c) by (by destruct d). rewrite E. split; [by apply add_carry_ok|].
    rewrite add_carry_mag by done. cbn [mag]. by rewrite Z.mul_0_r, Z.add_0_r.
  - destruct d as [|y d]; cbn [length] in Hl; [lia|]. inversion Hd as [|? ? Hy Hd']; subst. cbn [muladdc].
    pose proof (core_ok x y b c Hx Hy Hb Hc) as C. destruct (MULADDC_CORE x y b c) as [y' c']. destruct C as (Hy' & Hc' & E).
    destruct (IH d c' Hd' Hc' ltac:(lia)) as [IH1 IH2]. split; [by constructor|]. cbn [mag length]. rewrite IH2, <- mod_cons by exact Hy'.
    f_equal. transitivity (y' + radix * c' + radix * (mag d + b * mag s)); [ring|]. rewrite E. ring.
Qed.

(** A multiplication that fits is exact. *)
Lemma mul_hlp_ok s d b : limbs_ok s -> limbs_ok d -> limb b -> (length s <= length d)%nat ->
  mag d + b * mag s < radix ^ zlen d ->
  limbs_ok (mpi_mul_hlp s d b) /\ length (mpi_mul_hlp s d b) = length d /\ mag (mpi_mul_hlp s d b) = mag d + b * mag s.
Proof.
  intros Hs Hd Hb Hl Hf. destruct (muladdc_ok s b Hs Hb d 0 Hd ltac:(split; [lia|done]) Hl) as [H1 H2].
  split; [exact H1|]. split; [apply muladdc_length|]. unfold mpi_mul_hlp. rewrite H2, Z.add_0_r. apply Z.mod_small.
  pose proof (mag_nonneg s Hs). pose proof (mag_nonneg d Hd). nia.
Qed.

(** The same at a place inside an array. *)
Definition mul_at (k : nat) (s d : list Z) (b : Z) : list Z := take k d ++ mpi_mul_hlp s (drop k d) b.

Lemma mul_at_ok k s d b : limbs_ok s -> limbs_ok d -> limb b -> (k + length s <= length d)%nat ->
  mag d + radix ^ Z.of_nat k * (b * mag s) < radix ^ zlen d ->
  limbs_ok (mul_at k s d b) /\ length (mul_at k s d b) = length d /\
  mag (mul_at k s d b) = mag d + radix ^ Z.of_nat k * (b * mag s).
Proof.
  intros Hs Hd Hb Hl Hf. unfold mul_at. pose proof (radix_pow_pos k) as Hp.
  rewrite (mag_split k d) in Hf by lia.
  replace (length d) with (k + length (drop k d))%nat in Hf by (rewrite length_drop; lia). rewrite radix_pow_add in Hf.
  pose proof (mag_nonneg (take k d) (limbs_take k d Hd)) as Ht.
  destruct (mul_hlp_ok s (drop k d) b Hs (limbs_drop k d Hd) Hb) as (H1 & H2 & H3).
  { rewrite length_drop. lia. }
  { nia. }
  split; [apply limbs_app; auto with limbs|]. split; [rewrite length_app, H2, length_take, length_drop; lia|].
  rewrite mag_app, H3, length_take, Nat.min_l by lia. rewrite (mag_split k d) by lia. ring.
Qed.

Lemma sub_hlp_ok l : forall r c, limbs_ok l -> limbs_ok r -> length l = length r -> 0 <= c <= 1 ->
  let '(d, c') := mpi_sub_hlp l r c in
  limbs_ok d /\ length d = length l /\ 0 <= c' <= 1 /\ mag d = mag l - mag r - c + radix ^ zlen l * c'.
Proof.
  induction l as [|x l IH]; intros [|y r] c Hl Hr E Hc; try discriminate.
  - cbn. split_lia. constructor.
  - inversion Hl as [|? ? Hx Hl']; inversion Hr as [|? ? Hy Hr']; subst. cbn [length] in E. cbn [mpi_sub_hlp].
    assert (Hc' : limb c) by (pose proof radix_pos; unfold radix; lia).
    pose proof (limb_borrow x c Hx Hc') as W1. set (t := u64 (x - c)) in *. assert (Ht : limb t) by (unfold t; auto).
    pose proof (limb_borrow t y Ht Hy) as W2. assert (Hty : limb (u64 (t - y))) by auto.
    pose proof (b2z_range (x <? c)). pose proof (b2z_range (t <? y)).
    assert (Hs : 0 <= b2z (t <? y) + b2z (x <? c) <= 1).
    { unfold b2z in *. destruct (Z.ltb_spec x c); destruct (Z.ltb_spec t y); lia. }
    specialize (IH r (b2z (t <? y) + b2z (x <? c)) Hl' Hr' ltac:(lia) Hs).
    destruct (mpi_sub_hlp l r (b2z (t <? y) + b2z (x <? c))) as [d c2]. destruct IH as (I1 & I2 & I3 & I4).
    split; [by constructor|]. split; [cbn [length]; lia|]. split; [exact I3|]. cbn [mag length]. rewrite I4, radix_pow.
    rewrite W2, W1. ring.
Qed.

Lemma add_limbs_nil p c : add_limbs [] p c = match p with [] => ([], c) | y :: p' =>
  if c =? 0 then (p, 0) else let y := u64 (y + c) in let '(p, c) := add_limbs [] p' (b2z (y <? c)) in (y :: p, c) end.
Proof. by destruct p. Qed.

Lemma add_limbs_ok o : forall p c, limbs_ok o -> limbs_ok p -> (length o <= length p)%nat -> 0 <= c <= 1 ->
  let '(q, c') := add_limbs o p c in
  limbs_ok q /\ length q = length p /\ 0 <= c' <= 1 /\ mag q + radix ^ zlen p * c' = mag p + mag o + c.
Proof.
  induction o as [|t o IHo].
  - induction p as [|y p IH]; intros c Ho Hp Hl Hc; rewrite add_limbs_nil.
    + cbn. split_lia. constructor.
    + inversion Hp as [|? ? Hy Hp']; subst. case_if; to_prop.
      * subst c. split; [done|]. cbn. split_lia.
      * assert (Hc' : limb c) by (pose proof radix_pos; unfold radix; lia).
        pose proof (limb_carry y c Hy Hc') as W. pose proof (b2z_range (u64 (y + c) <? c)) as B. cbv zeta.
        specialize (IH (b2z (u64 (y + c) <? c)) Ho Hp' ltac:(cbn; lia) B).
        destruct (add_limbs [] p (b2z (u64 (y + c) <? c))) as [q c2]. destruct IH as (I1 & I2 & I3 & I4).
        split; [constructor; auto|]. split; [cbn [length]; lia|]. split; [exact I3|]. cbn [mag length] in *. rewrite radix_pow. lia.
  - intros [|y p] c Ho Hp Hl Hc; cbn [length] in Hl; [lia|]. cbn [add_limbs].
    inversion Ho as [|? ? Ht Ho']; inversion Hp as [|? ? Hy Hp']; subst.
    assert (Hc' : limb c) by (pose proof radix_pos; unfold radix; lia).
    pose proof (limb_carry y c Hy Hc') as W1. set (y1 := u64 (y + c)) in *. assert (Hy1 : limb y1) by (unfold y1; auto).
    pose proof (limb_carry y1 t Hy1 Ht) as W2. assert (Hy2 : limb (u64 (y1 + t))) by auto.
    pose proof (b2z_range (y1 <? c)). pose proof (b2z_range (u64 (y1 + t) <? t)).
    assert (Hs : 0 <= b2z (y1 <? c) + b2z (u64 (y1 + t) <? t) <= 1) by nia.
    specialize (IHo p _ Ho' Hp' ltac:(lia) Hs).
    destruct (add_limbs o p (b2z (y1 <? c) + b2z (u64 (y1 + t) <? t))) as [q c2]. destruct IHo as (I1 & I2 & I3 & I4).
    split; [by constructor|]. split; [cbn [length]; lia|]. split; [exact I3|]. cbn [mag length]. rewrite radix_pow. lia.
Qed.

Lemma sub_borrow_ok p : limbs_ok p ->
  let '(q, ok) := sub_borrow p in
  limbs_ok q /\ length q = length p /\ ok = (0 <? mag p) /\ (ok = true -> mag q = mag p - 1).
Proof.
  induction 1 as [|y p Hy Hp IH]; cbn [sub_borrow].
  - split; [constructor|]. by split_lia.
  - case_if; to_prop.
    + subst y. destruct (sub_borrow p) as [q ok]. destruct IH as (I1 & I2 & I3 & I4).
      split; [constructor; auto|]. split; [cbn [length]; lia|]. cbn [mag]. rewrite I3. split.
      * destruct (Z.ltb_spec 0 (mag p)), (Z.ltb_spec 0 (0 + radix * mag p)); pose proof radix_pos; nia.
      * rewrite <- I3. intros Ht. rewrite I4 by exact Ht. change (u64 (0 - 1)) with (radix - 1). lia.
    + split; [constructor; auto|]. split; [done|]. cbn [mag]. pose proof (mag_nonneg p Hp). pose proof radix_pos. split.
      * symmetry. apply Z.ltb_lt. nia.
      * intros _. rewrite u64_radix, Z.mod_small by lia. lia.
Qed.

Lemma shift_l_bits_length p : forall t r, length (shift_l_bits p t r) = length p.
Proof. induction p as [|x p IH]; intros t r; cbn [shift_l_bits length]; [done|]. by rewrite IH. Qed.

Lemma shift_l_bits_ok t p : 0 < t < biL -> limbs_ok p -> forall r, 0 <= r < 2 ^ t ->
  limbs_ok (shift_l_bits p t r) /\ mag (shift_l_bits p t r) = (2 ^ t * mag p + r) mod radix ^ zlen p.
Proof.
  intros Ht Hp. assert (Er : radix = 2 ^ t * 2 ^ (biL - t)) by (rewrite <- Z.pow_add_r by lia; unfold radix, biL; f_equal; lia).
  assert (P1 : 0 < 2 ^ t) by (apply Z.pow_pos_nonneg; lia). assert (P2 : 0 < 2 ^ (biL - t)) by (apply Z.pow_pos_nonneg; lia).
  induction Hp as [|x p Hx Hp IH]; intros r Hr; cbn [shift_l_bits].
  - split; [constructor|]. cbn. by rewrite Z.mod_1_r.
  - assert (Hn : Z.shiftr x (biL - t) = x / 2 ^ (biL - t)) by (apply Z.shiftr_div_pow2; lia).
    assert (Hr' : 0 <= Z.shiftr x (biL - t) < 2 ^ t).
    { rewrite Hn. split; [apply Z.div_pos; lia|]. apply Z.div_lt_upper_bound; nia. }
    assert (Ex : Z.lor (u64 (Z.shiftl x t)) r = x mod 2 ^ (biL - t) * 2 ^ t + r).
    { rewrite u64_radix, Z.shiftl_mul_pow2 by lia. rewrite Er, (Z.mul_comm (2 ^ t)), Zmult_mod_distr_r by lia.
      apply (lor_add t); [lia|exact Hr]. }
    rewrite Ex. pose proof (Z.mod_pos_bound x (2 ^ (biL - t)) P2). pose proof (Z.div_mod x (2 ^ (biL - t))) as D.
    destruct (IH _ Hr') as [I1 I2].
    assert (Hl : limb (x mod 2 ^ (biL - t) * 2 ^ t + r)) by nia.
    split; [by constructor|]. cbn [mag length]. rewrite I2, <- mod_cons by exact Hl. f_equal. rewrite Hn, Er. nia.
Qed.

Lemma shift_r_bits_ok v p : 0 < v < biL -> limbs_ok p ->
  let '(q, r) := shift_r_bits p v in
  limbs_ok q /\ length q = length p /\ mag q = mag p / 2 ^ v /\ r = mag p mod 2 ^ v * 2 ^ (biL - v).
Proof.
  intros Hv Hp. assert (Er : radix = 2 ^ v * 2 ^ (biL - v)) by (rewrite <- Z.pow_add_r by lia; unfold radix, biL; f_equal; lia).
  assert (P1 : 0 < 2 ^ v) by (apply Z.pow_pos_nonneg; lia). assert (P2 : 0 < 2 ^ (biL - v)) by (apply Z.pow_pos_nonneg; lia).
  induction Hp as [|x p Hx Hp IH]; cbn [shift_r_bits].
  - cbn. rewrite Z.div_0_l, Z.mod_0_l by lia. split_lia. constructor.
  - destruct (shift_r_bits p v) as [q r]. destruct IH as (I1 & I2 & I3 & I4).
    pose proof (Z.mod_pos_bound (mag p) (2 ^ v) P1) as Hm. pose proof (Z.div_mod (mag p) (2 ^ v)) as D.
    assert (Hx2 : 0 <= x / 2 ^ v < 2 ^ (biL - v)) by (split; [apply Z.div_pos; lia|apply Z.div_lt_upper_bound; nia]).
    assert (El : Z.lor (Z.shiftr x v) r = r + x / 2 ^ v).
    { rewrite Z.shiftr_div_pow2 by lia. rewrite I4, Z.lor_comm. by apply (lor_add (biL - v)); [lia|]. }
    rewrite El. assert (Hl : limb (r + x / 2 ^ v)) by (rewrite I4; nia).
    split; [by constructor|]. split; [cbn [length]; lia|]. cbn [mag]. split.
    + rewrite I3, I4. pose proof (Z.div_mod x (2 ^ v)) as Dx. pose proof (Z.mod_pos_bound x (2 ^ v) P1).
      apply Z.div_unique with (x mod 2 ^ v); [left; lia|]. rewrite Er. nia.
    + rewrite u64_radix, Z.shiftl_mul_pow2 by lia. rewrite Er at 1. rewrite Zmult_mod_distr_r by lia. f_equal.
      rewrite Er. replace (x + 2 ^ v * 2 ^ (biL - v) * mag p) with (x + (2 ^ (biL - v) * mag p) * 2 ^ v) by ring. by rewrite Z.mod_add by lia.
Qed.

Lemma cmp_limbs_ok x y : limbs_ok x -> limbs_ok y -> forall i, (i <= length x)%nat -> (i <= length y)%nat ->
  cmp_limbs x y i = Z.sgn (mag (take i x) - mag (take i y)).
Proof.
  intros Hx Hy. induction i as [|k IH]; intros H1 H2; cbn [cmp_limbs]; [done|].
  rewrite !mag_take_S by lia. pose proof (mag_range _ (limbs_take k x Hx)) as R1. pose proof (mag_range _ (limbs_take k y Hy)) as R2.
  rewrite length_take, Nat.min_l in R1, R2 by lia. pose proof (radix_pow_pos k).
  destruct (Z.ltb_spec (nth k y 0) (nth k x 0)); [symmetry; apply Z.sgn_pos; nia|].
  destruct (Z.ltb_spec (nth k x 0) (nth k y 0)); [symmetry; apply Z.sgn_neg; nia|].
  rewrite IH by lia. f_equal. nia.
Qed.

(** ** Bits *)

(** The number of bits of a number. *)
Definition bits (m : Z) : Z := if m =? 0 then 0 else Z.log2 m + 1.

Lemma bits_le m k : 0 <= m -> 0 <= k -> (m < 2 ^ k <-> bits m <= k).
Proof.
  intros Hm Hk. unfold bits. case_if; to_prop.
  - subst m. split; [lia|intros _; apply Z.pow_pos_nonneg; lia].
  - rewrite (Z.log2_lt_pow2 m k) by lia. lia.
Qed.

Lemma bits_nonneg m : 0 <= bits m.
Proof. unfold bits. case_if; [lia|]. pose proof (Z.log2_nonneg m). lia. Qed.

Lemma bits_lower m : 0 < m -> 2 ^ (bits m - 1) <= m.
Proof. intros H. unfold bits. case_if; to_prop; [lia|]. rewrite Z.add_simpl_r. by apply Z.log2_spec. Qed.

Lemma bits_mono a b : 0 <= a <= b -> bits a <= bits b.
Proof. intros H. apply bits_le; [lia|apply bits_nonneg|]. apply Z.le_lt_trans with b; [lia|]. apply bits_le; [lia|apply bits_nonneg|lia]. Qed.

Lemma bits_shift m k : 0 < m -> 0 <= k -> bits (m * 2 ^ k) = bits m + k.
Proof.
  intros Hm Hk. assert (0 < 2 ^ k) by (apply Z.pow_pos_nonneg; lia). unfold bits.
  rewrite (proj2 (Z.eqb_neq (m * 2 ^ k) 0)), (proj2 (Z.eqb_neq m 0)) by nia. rewrite Z.log2_mul_pow2 by lia. lia.
Qed.

Lemma testbit_cons x m pos : limb x -> 0 <= pos ->
  Z.testbit (x + radix * m) pos = if pos <? biL then Z.testbit x pos else Z.testbit m (pos - biL).
Proof.
  intros Hx Hp. destruct (Z.ltb_spec pos biL) as [H|H].
  - rewrite <- (Z.mod_pow2_bits_low (x + radix * m) biL) by lia. change (2 ^ biL) with radix.
    replace (x + radix * m) with (x + m * radix) by ring. rewrite Z.mod_add by lia. by rewrite Z.mod_small.
  - replace pos with (pos - biL + biL) at 1 by lia. rewrite <- Z.div_pow2_bits by (unfold biL in *; lia). change (2 ^ biL) with radix.
    replace (x + radix * m) with (x + m * radix) by ring. rewrite Z.div_add by lia. by rewrite Z.div_small.
Qed.

Lemma mag_testbit l : limbs_ok l -> forall pos, 0 <= pos ->
  Z.testbit (mag l) pos = Z.testbit (nth (Z.to_nat (pos / biL)) l 0) (pos mod biL).
Proof.
  induction 1 as [|x l Hx Hl IH]; intros pos Hp.
  - cbn [mag]. rewrite Z.testbit_0_l. destruct (Z.to_nat (pos / biL)); cbn [nth]; by rewrite Z.testbit_0_l.
  - cbn [mag]. rewrite testbit_cons by done. destruct (Z.ltb_spec pos biL) as [H|H].
    + rewrite Z.div_small, Z.mod_small by lia. reflexivity.
    + rewrite IH by lia. replace (pos / biL) with ((pos - biL) / biL + 1).
      2:{ replace pos with (pos - biL + 1 * biL) at 2 by lia. rewrite Z.div_add by (unfold biL; lia). done. }
      rewrite Z2Nat.inj_add by (try apply Z.div_pos; unfold biL in *; lia). change (Z.to_nat 1) with 1%nat.
      rewrite Nat.add_1_r. cbn [nth]. f_equal. replace pos with (pos - biL + 1 * biL) at 2 by lia.
      rewrite Z.mod_add by (unfold biL; lia). done.
Qed.

Lemma land_pow2_bit x k : 0 <= k -> negb (Z.land x (2 ^ k) =? 0) = Z.testbit x k.
Proof.
  intros Hk. destruct (Z.testbit x k) eqn:E.
  - apply negb_true_iff, Z.eqb_neq. intros H. apply (f_equal (fun z => Z.testbit z k)) in H.
    rewrite Z.land_spec, E, Z.pow2_bits_true, Z.testbit_0_l in H by done. discriminate.
  - apply negb_false_iff, Z.eqb_eq. apply Z.bits_inj_iff. intros i. rewrite Z.land_spec, Z.testbit_0_l.
    destruct (Z.eq_dec k i) as [<-|Hne]; [by rewrite E|]. rewrite Z.pow2_bits_false by done. apply andb_false_r.
Qed.

Lemma shiftr_land_1 x j : 0 <= j -> Z.land (Z.shiftr x j) 1 = Z.b2z (Z.testbit x j).
Proof.
  intros Hj. change 1 with (Z.ones 1) at 1. rewrite Z.land_ones by lia. change (2 ^ 1) with 2.
  rewrite <- Z.bit0_mod, Z.shiftr_spec by lia. by rewrite Z.add_0_l.
Qed.

Lemma below_bit x k : 0 <= k -> 0 <= x < 2 ^ (k + 1) -> Z.testbit x k = false -> x < 2 ^ k.
Proof.
  intros Hk Hx Hb. rewrite Z.testbit_false in Hb by lia. rewrite Z.pow_add_r in Hx by lia. change (2 ^ 1) with 2 in Hx.
  assert (0 < 2 ^ k) by (apply Z.pow_pos_nonneg; lia).
  assert (0 <= x / 2 ^ k < 2) by (split; [apply Z.div_pos; lia|apply Z.div_lt_upper_bound; lia]).
  assert (x / 2 ^ k = 0) by (destruct (Z.eq_dec (x / 2 ^ k) 1) as [E|]; [rewrite E in Hb; discriminate|lia]).
  apply Z.div_small_iff in H1; lia.
Qed.

Lemma above_bit x k : 0 <= k -> 0 <= x -> Z.testbit x k = true -> 2 ^ k <= x.
Proof.
  intros Hk Hx Hb. destruct (Z.lt_ge_cases x (2 ^ k)) as [H|H]; [|done]. rewrite (testbit_high k) in Hb by lia. discriminate.
Qed.

(** ** Bytes *)

Lemma mag_insert l q v : (q < length l)%nat -> mag (<[q := v]> l) = mag l + radix ^ Z.of_nat q * (v - nth q l 0).
Proof.
  revert q. induction l as [|x l IH]; intros [|q] H; cbn [length] in H; try lia.
  - cbn. lia.
  - change (<[S q := v]> (x :: l)) with (x :: <[q := v]> l). cbn [mag nth]. rewrite IH by lia. rewrite radix_pow. ring.
Qed.

Lemma limbs_insert l q v : limbs_ok l -> limb v -> limbs_ok (<[q := v]> l).
Proof. intros H Hv. by apply Forall_insert. Qed.

(** Byte [i] of the memory of an array of limbs. *)
Lemma limb_byte l i : limbs_ok l ->
  Z.land (Z.shiftr (nth (i / ciL) l 0) (Z.of_nat (i mod ciL) * 8)) 255 = mag l / 256 ^ Z.of_nat i mod 256.
Proof.
  intros Hl. rewrite land_255. change 256 with (2 ^ 8). rewrite <- Z.pow_mul_r by lia. rewrite <- Z.shiftr_div_pow2 by lia.
  apply Z.bits_inj_iff. intros j. destruct (Z.lt_ge_cases j 0) as [|Hj]; [by rewrite !Z.testbit_neg_r|].
  destruct (Z.lt_ge_cases j 8) as [H8|H8]; [|by rewrite !Z.mod_pow2_bits_high by lia].
  rewrite !Z.mod_pow2_bits_low, !Z.shiftr_spec by lia. rewrite mag_testbit by (auto; lia).
  pose proof (Nat.div_mod i ciL ltac:(done)). pose proof (Nat.mod_upper_bound i ciL ltac:(done)). unfold ciL in *.
  assert (E : j + 8 * Z.of_nat i = biL * Z.of_nat (i / 8) + (j + Z.of_nat (i mod 8) * 8)) by (unfold biL; lia).
  f_equal.
  - f_equal. symmetry. apply Nat2Z.inj. rewrite Z2Nat.id by (apply Z.div_pos; unfold biL; lia).
    symmetry. apply Z.div_unique with (j + Z.of_nat (i mod 8) * 8); [unfold biL; lia|exact E].
  - apply Z.mod_unique with (Z.of_nat (i / 8)); [unfold biL; lia|exact E].
Qed.

Lemma le_bytes_map m : forall z, le_bytes m z = map (fun i => z / 256 ^ Z.of_nat i mod 256) (seq 0 m).
Proof.
  induction m as [|m IH]; intros z; [done|]. cbn [le_bytes seq map]. change (256 ^ Z.of_nat 0) with 1. rewrite Z.div_1_r. f_equal.
  rewrite IH, <- seq_shift, map_map. apply map_ext. intros i. rewrite Z.div_div by (try apply Z.pow_pos_nonneg; lia).
  rewrite Nat2Z.inj_succ, Z.pow_succ_r by lia. done.
Qed.

Lemma radix_256 : radix = 256 ^ Z.of_nat ciL.
Proof. reflexivity. Qed.

Lemma radix_pow_256 k : radix ^ Z.of_nat k = 256 ^ Z.of_nat (k * ciL).
Proof. rewrite radix_256, <- Z.pow_mul_r by lia. f_equal. lia. Qed.

Lemma odd_low l : Z.odd (mag l) = Z.odd (nth 0 l 0).
Proof. destruct l as [|x l]; [done|]. cbn [mag nth]. rewrite Z.odd_add, Z.odd_mul. change (Z.odd radix) with false. cbn [andb]. apply xorb_false_r. Qed.

Lemma land_odd x : negb (Z.land x 1 =? 0) = Z.odd x.
Proof. change 1 with (2 ^ 0). rewrite land_pow2_bit by lia. apply Z.bit0_odd. Qed.

(** The limbs of a literal. *)
Ltac limbs_literal :=
  unfold limbs_ok;
  repeat match goal with
  | |- Forall ?P ?l =>
      let l' := eval hnf in l in
      change (Forall P l');
      first [apply Forall_nil; exact I | apply Forall_cons; split; [vm_compute; split; [discriminate|reflexivity]|]]
  end.

(** ** A digit put in its place *)

(** A digit of [w] bits is or-ed in above all the digits below it. *)
Lemma place_digit (w : Z) (per j : nat) (d : Z) (l : list Z) : 0 < w -> w * Z.of_nat per = 64 -> limbs_ok l -> (j / per < length l)%nat -> 0 <= d < 2 ^ w -> mag l < 2 ^ (w * Z.of_nat j) ->
  let q := (j / per)%nat in
  let l' := <[q := Z.lor (nth q l 0) (Z.shiftl d (w * Z.of_nat (j mod per)))]> l in
  Z.shiftl d (w * Z.of_nat (j mod per)) < radix /\ limbs_ok l' /\ length l' = length l /\ mag l' = mag l + d * 2 ^ (w * Z.of_nat j).
Proof.
  intros Hw Hp Hl Hj Hd Hm q l'. assert (Hper : per <> 0%nat) by lia. pose proof (Nat.div_mod j per Hper) as D. pose proof (Nat.mod_upper_bound j per Hper) as U.
  fold q in D. set (r := (j mod per)%nat) in *. assert (Hwr : 0 <= w * Z.of_nat r <= 64 - w) by nia.
  assert (P2 : 0 < 2 ^ (w * Z.of_nat r)) by (apply Z.pow_pos_nonneg; lia). pose proof (limbs_nth l q Hl) as Hx.
  assert (Ej : 2 ^ (w * Z.of_nat j) = radix ^ Z.of_nat q * 2 ^ (w * Z.of_nat r)).
  { rewrite radix_pow_bits, <- Z.pow_add_r by (unfold biL; lia). f_equal. rewrite D, Nat2Z.inj_add, Nat2Z.inj_mul. unfold biL. rewrite <- Hp. ring. }
  assert (Hlow : nth q l 0 < 2 ^ (w * Z.of_nat r)).
  { pose proof (mag_nonneg _ (limbs_drop (S q) l Hl)). pose proof (mag_div q l Hl ltac:(lia)) as Dv. rewrite (drop_nth l q Hj) in Dv. cbn [mag] in Dv.
    assert (mag l / radix ^ Z.of_nat q < 2 ^ (w * Z.of_nat r)); [|pose proof radix_pos; nia]. apply Z.div_lt_upper_bound; [apply radix_pow_pos|]. by rewrite <- Ej. }
  assert (P3 : 2 ^ (w * Z.of_nat r) * 2 ^ w <= radix) by (rewrite <- Z.pow_add_r by lia; unfold radix; apply Z.pow_le_mono_r; lia).
  assert (Hs : Z.shiftl d (w * Z.of_nat r) = d * 2 ^ (w * Z.of_nat r)) by (apply Z.shiftl_mul_pow2; lia).
  assert (Eor : Z.lor (nth q l 0) (Z.shiftl d (w * Z.of_nat r)) = d * 2 ^ (w * Z.of_nat r) + nth q l 0) by (rewrite Hs, Z.lor_comm; apply lor_add; lia).
  split; [rewrite Hs; nia|]. unfold l'. rewrite Eor. split; [apply limbs_insert; [done|nia]|]. split; [apply length_insert|].
  rewrite mag_insert by exact Hj. rewrite Ej. ring.
Qed.
