(* ===== verification/Bignum.v ===== *)
(** Multi-precision integers (mbedtls/library/bignum.c): the representation,
    sizes, bits, comparison, shifts, addition, subtraction and multiplication,
    and the transport of numbers as bytes.  An operation takes the destination
    as it is before the call; a call whose destination is one of its operands is
    the operation applied to equal arguments, since each loop of the code reads a
    limb of an operand before it writes the limb of the destination in its
    place.  Memory can always be had; the limit on the number of limbs is the
    code's. *)
From S2P Require Import Prelude Words Limbs.
From stdpp Require Import list.
#[local] Open Scope Z_scope.

Module Bignum.

(** ** Data *)

(** The sign, 1 or -1, and the limbs, the lowest first. *)
Record mpi := mkMpi { s : Z; p : list Z }.

Definition n (X : mpi) : nat := length (p X).

Definition MBEDTLS_MPI_MAX_LIMBS : Z := 10000.
Definition MBEDTLS_MPI_MAX_BITS : Z := 8192.
Definition MBEDTLS_MPI_WINDOW_SIZE : nat := 2.

Definition MBEDTLS_ERR_MPI_BAD_INPUT_DATA : Z := -0x0004.
Definition MBEDTLS_ERR_MPI_INVALID_CHARACTER : Z := -0x0006.
Definition MBEDTLS_ERR_MPI_BUFFER_TOO_SMALL : Z := -0x0008.
Definition MBEDTLS_ERR_MPI_NEGATIVE_VALUE : Z := -0x000A.
Definition MBEDTLS_ERR_MPI_DIVISION_BY_ZERO : Z := -0x000C.
Definition MBEDTLS_ERR_MPI_NOT_ACCEPTABLE : Z := -0x000E.
Definition MBEDTLS_ERR_MPI_ALLOC_FAILED : Z := -0x0010.

Definition BITS_TO_LIMBS (i : Z) : nat := Z.to_nat (i / biL + b2z (negb (i mod biL =? 0))).
Definition CHARS_TO_LIMBS (i : nat) : nat := i / ciL + (if (i mod ciL =? 0)%nat then 0 else 1).

(** The number an mpi stands for. *)
Definition val (X : mpi) : Z := s X * mag (p X).

Definition wf (X : mpi) : Prop := (s X = 1 \/ s X = -1) /\ limbs_ok (p X).

(** ** Sizes *)

Definition mbedtls_mpi_init : mpi := mkMpi 1 [].
Definition mbedtls_mpi_free (X : mpi) : mpi := mbedtls_mpi_init.

Definition mbedtls_mpi_grow (X : mpi) (nblimbs : nat) : result mpi :=
  if MBEDTLS_MPI_MAX_LIMBS <? Z.of_nat nblimbs then Err MBEDTLS_ERR_MPI_ALLOC_FAILED
  else Ok (if (n X <? nblimbs)%nat then mkMpi (s X) (p X ++ repeat 0 (nblimbs - n X)) else X).

Definition mbedtls_mpi_shrink (X : mpi) (nblimbs : nat) : result mpi :=
  if MBEDTLS_MPI_MAX_LIMBS <? Z.of_nat nblimbs then Err MBEDTLS_ERR_MPI_ALLOC_FAILED
  else if (n X <=? nblimbs)%nat then mbedtls_mpi_grow X nblimbs
  else
    let i := S (highest (p X) (n X - 1)) in
    let i := if (i <? nblimbs)%nat then nblimbs else i in
    Ok (mkMpi (s X) (take i (p X))).

Definition mbedtls_mpi_resize_clear (X : mpi) (limbs : nat) : result mpi :=
  if (limbs =? 0)%nat then Ok (mbedtls_mpi_free X)
  else if (n X =? limbs)%nat then Ok (mkMpi 1 (repeat 0 limbs))
  else mbedtls_mpi_grow (mbedtls_mpi_free X) limbs.

Definition mbedtls_mpi_copy (X Y : mpi) : result mpi :=
  if (n Y =? 0)%nat then Ok (if (n X =? 0)%nat then X else mkMpi 1 (repeat 0 (n X)))
  else
    let i := S (highest (p Y) (n Y - 1)) in
    X ← (if (n X <? i)%nat then mbedtls_mpi_grow X i else Ok X);
    Ok (mkMpi (s Y) (take i (p Y) ++ repeat 0 (n X - i))).

Definition mbedtls_mpi_swap (X Y : mpi) : mpi * mpi := (Y, X).

Definition mpi_sint_abs (z : Z) : Z := if 0 <=? z then z else u64 (0 - u64 z).

Definition sign_of (z : Z) : Z := if z <? 0 then -1 else 1.

Definition mbedtls_mpi_lset (X : mpi) (z : Z) : result mpi :=
  X ← mbedtls_mpi_grow X 1;
  Ok (mkMpi (sign_of z) (mpi_sint_abs z :: repeat 0 (n X - 1))).

(** The mpi on the stack that an [mbedtls_mpi_sint] is passed as. *)
Definition mpi_of_int (b : Z) : mpi := mkMpi (sign_of b) [mpi_sint_abs b].

(** ** Bits *)

Definition mbedtls_mpi_get_bit (X : mpi) (pos : Z) : Z :=
  if Z.of_nat (n X) * biL <=? pos then 0
  else Z.land (Z.shiftr (nth (Z.to_nat (pos / biL)) (p X) 0) (pos mod biL)) 1.

Definition GET_BYTE (X : mpi) (i : nat) : Z :=
  Z.land (Z.shiftr (nth (i / ciL) (p X) 0) (Z.of_nat (i mod ciL) * 8)) 255.

(** [~] of a limb. *)
Definition limb_not (x : Z) : Z := u64 (Z.lnot x).

Definition mbedtls_mpi_set_bit (X : mpi) (pos val : Z) : result mpi :=
  let off := Z.to_nat (pos / biL) in
  let idx := pos mod biL in
  if negb (val =? 0) && negb (val =? 1) then Err MBEDTLS_ERR_MPI_BAD_INPUT_DATA
  else
    let set X :=
      Ok (mkMpi (s X) (<[off := Z.lor (Z.land (nth off (p X) 0) (limb_not (Z.shiftl 1 idx))) (Z.shiftl val idx)]> (p X))) in
    if Z.of_nat (n X) * biL <=? pos then
      if val =? 0 then Ok X
      else X ← mbedtls_mpi_grow X (S off); set X
    else set X.

(** The two loops of [mbedtls_mpi_lsb], over the bits of a limb and over the
    limbs. *)
Fixpoint lsb_bits (x : Z) (j : Z) (fuel : nat) (count : Z) : option Z * Z :=
  match fuel with
  | O => (None, count)
  | S fuel => if negb (Z.land (Z.shiftr x j) 1 =? 0) then (Some count, count) else lsb_bits x (j + 1) fuel (count + 1)
  end.

Fixpoint lsb_limbs (l : list Z) (count : Z) : Z :=
  match l with
  | [] => 0
  | x :: l => match lsb_bits x 0 64 count with (Some c, _) => c | (None, count) => lsb_limbs l count end
  end.

Definition mbedtls_mpi_lsb (X : mpi) : Z := lsb_limbs (p X) 0.

Fixpoint clz_loop (x mask j : Z) (fuel : nat) : Z :=
  match fuel with
  | O => j
  | S fuel => if negb (Z.land x mask =? 0) then j else clz_loop x (Z.shiftr mask 1) (j + 1) fuel
  end.

Definition mbedtls_clz (x : Z) : Z := clz_loop x (Z.shiftl 1 (biL - 1)) 0 64.

Definition mbedtls_mpi_bitlen (X : mpi) : Z :=
  if (n X =? 0)%nat then 0
  else
    let i := highest (p X) (n X - 1) in
    let j := biL - mbedtls_clz (nth i (p X) 0) in
    Z.of_nat i * biL + j.

Definition mbedtls_mpi_size (X : mpi) : Z := Z.shiftr (mbedtls_mpi_bitlen X + 7) 3.

(** ** Comparison *)

Definition mbedtls_mpi_cmp_abs (X Y : mpi) : Z :=
  let i := significant (p X) (n X) in
  let j := significant (p Y) (n Y) in
  if (i =? 0)%nat && (j =? 0)%nat then 0
  else if (j <? i)%nat then 1
  else if (i <? j)%nat then -1
  else cmp_limbs (p X) (p Y) i.

Definition mbedtls_mpi_cmp_mpi (X Y : mpi) : Z :=
  let i := significant (p X) (n X) in
  let j := significant (p Y) (n Y) in
  if (i =? 0)%nat && (j =? 0)%nat then 0
  else if (j <? i)%nat then s X
  else if (i <? j)%nat then - s Y
  else if (0 <? s X) && (s Y <? 0) then 1
  else if (0 <? s Y) && (s X <? 0) then -1
  else
    match cmp_limbs (p X) (p Y) i with
    | Z0 => 0
    | Zpos _ => s X
    | Zneg _ => - s X
    end.

Definition mbedtls_mpi_cmp_int (X : mpi) (z : Z) : Z := mbedtls_mpi_cmp_mpi X (mpi_of_int z).

(** ** Shifts *)

Definition mbedtls_mpi_shift_l (X : mpi) (count : Z) : result mpi :=
  let v0 := Z.to_nat (count / biL) in
  let t1 := Z.land count (biL - 1) in
  let i := mbedtls_mpi_bitlen X + count in
  X ← (if Z.of_nat (n X) * biL <? i then mbedtls_mpi_grow X (BITS_TO_LIMBS i) else Ok X);
  let l := if (0 <? v0)%nat then take (n X) (repeat 0 v0 ++ p X) else p X in
  let l := if 0 <? t1 then take v0 l ++ shift_l_bits (drop v0 l) t1 0 else l in
  Ok (mkMpi (s X) l).

Definition mbedtls_mpi_shift_r (X : mpi) (count : Z) : result mpi :=
  let v0 := Z.to_nat (count / biL) in
  let v1 := Z.land count (biL - 1) in
  if (n X <? v0)%nat || ((v0 =? n X)%nat && (0 <? v1)) then mbedtls_mpi_lset X 0
  else
    let l := if (0 <? v0)%nat then drop v0 (p X) ++ repeat 0 v0 else p X in
    let l := if 0 <? v1 then fst (shift_r_bits l v1) else l in
    Ok (mkMpi (s X) l).

(** ** Addition and subtraction *)

Definition mbedtls_mpi_add_abs (X A B : mpi) : result mpi :=
  X ← mbedtls_mpi_copy X A;
  let j := significant (p B) (n B) in
  if (j =? 0)%nat then Ok (mkMpi 1 (p X))
  else
    X ← mbedtls_mpi_grow (mkMpi 1 (p X)) j;
    let '(l, c) := add_limbs (take j (p B)) (p X) 0 in
    if c =? 0 then Ok (mkMpi 1 l)
    else
      X ← mbedtls_mpi_grow (mkMpi 1 l) (S (length l));
      Ok (mkMpi 1 (take (length l) (p X) ++ add_carry (drop (length l) (p X)) c)).

Definition mbedtls_mpi_sub_abs (X A B : mpi) : result mpi :=
  let k := significant (p B) (n B) in
  if (n A <? k)%nat then Err MBEDTLS_ERR_MPI_NEGATIVE_VALUE
  else
    X ← mbedtls_mpi_grow X (n A);
    let high := drop k (p A) ++ repeat 0 (n X - n A) in
    let '(low, carry) := mpi_sub_hlp (take k (p A)) (take k (p B)) 0 in
    if carry =? 0 then Ok (mkMpi 1 (low ++ high))
    else
      let '(high, ok) := sub_borrow high in
      if negb ok then Err MBEDTLS_ERR_MPI_NEGATIVE_VALUE else Ok (mkMpi 1 (low ++ high)).

Definition set_s (x : Z) (X : mpi) : mpi := mkMpi x (p X).

Definition add_sub_mpi (X A B : mpi) (flip_B : Z) : result mpi :=
  let sA := s A in
  if s A * s B * flip_B <? 0 then
    let cmp := mbedtls_mpi_cmp_abs A B in
    if 0 <=? cmp then X ← mbedtls_mpi_sub_abs X A B; Ok (set_s (if cmp =? 0 then 1 else sA) X)
    else X ← mbedtls_mpi_sub_abs X B A; Ok (set_s (- sA) X)
  else X ← mbedtls_mpi_add_abs X A B; Ok (set_s sA X).

Definition mbedtls_mpi_add_mpi (X A B : mpi) : result mpi := add_sub_mpi X A B 1.
Definition mbedtls_mpi_sub_mpi (X A B : mpi) : result mpi := add_sub_mpi X A B (-1).
Definition mbedtls_mpi_add_int (X A : mpi) (b : Z) : result mpi := mbedtls_mpi_add_mpi X A (mpi_of_int b).
Definition mbedtls_mpi_sub_int (X A : mpi) (b : Z) : result mpi := mbedtls_mpi_sub_mpi X A (mpi_of_int b).

(** ** Multiplication *)

(** The loop [for (; j > 0; j--)]. *)
Fixpoint mul_loop (a b x : list Z) (j : nat) : list Z :=
  match j with
  | O => x
  | S k => mul_loop a b (mul_at k a x (nth k b 0)) k
  end.

Definition mbedtls_mpi_mul_mpi (X A B : mpi) : result mpi :=
  let i := significant (p A) (n A) in
  let j := significant (p B) (n B) in
  let result_is_zero := (i =? 0)%nat || (j =? 0)%nat in
  X ← mbedtls_mpi_grow X (i + j);
  X ← mbedtls_mpi_lset X 0;
  let l := mul_loop (take i (p A)) (p B) (p X) j in
  Ok (mkMpi (if result_is_zero then 1 else s A * s B) l).

Definition mbedtls_mpi_mul_int (X A : mpi) (b : Z) : result mpi :=
  let k := significant (p A) (n A) in
  if (b =? 0) || (k =? 0)%nat then mbedtls_mpi_lset X 0
  else
    X ← mbedtls_mpi_grow X (k + 1);
    X ← mbedtls_mpi_copy X A;
    Ok (mkMpi (s X) (mpi_mul_hlp (take k (p A)) (p X) (b - 1))).

(** ** Numbers as bytes *)

(** [__builtin_bswap64] *)
Definition mpi_uint_bigendian_to_host (x : Z) : Z := be_val (le_bytes ciL x).

(** The limbs change places from both ends. *)
Definition mpi_bigendian_to_host (l : list Z) : list Z := rev (map mpi_uint_bigendian_to_host l).

(** The limbs whose memory holds these bytes. *)
Fixpoint limbs_of_memory (k : nat) (memory : bytes) : list Z :=
  match k with O => [] | S k => le_val (take ciL memory) :: limbs_of_memory k (drop ciL memory) end.

Definition mbedtls_mpi_read_binary_le (X : mpi) (buf : bytes) : result mpi :=
  let limbs := CHARS_TO_LIMBS (length buf) in
  X ← mbedtls_mpi_resize_clear X limbs;
  Ok (mkMpi (s X)
        (fold_left (fun l i => <[(i / ciL)%nat := Z.lor (nth (i / ciL) l 0) (Z.shiftl (nth i buf 0) (Z.of_nat (i mod ciL) * 8))]> l)
           (seq 0 (length buf)) (p X))).

Definition mbedtls_mpi_read_binary (X : mpi) (buf : bytes) : result mpi :=
  let limbs := CHARS_TO_LIMBS (length buf) in
  let overhead := (limbs * ciL - length buf)%nat in
  X ← mbedtls_mpi_resize_clear X limbs;
  if negb (length buf =? 0)%nat then
    Ok (mkMpi (s X) (mpi_bigendian_to_host (limbs_of_memory limbs (repeat 0 overhead ++ buf))))
  else Ok X.

(** [if (GET_BYTE(X, i) != 0) return] for [i] from [bytes_to_copy] on. *)
Definition high_bytes_set (X : mpi) (bytes_to_copy : nat) : bool :=
  existsb (fun i => negb (GET_BYTE X i =? 0)) (seq bytes_to_copy (n X * ciL - bytes_to_copy)).

Definition mbedtls_mpi_write_binary_le (X : mpi) (buflen : nat) : result bytes :=
  let stored_bytes := (n X * ciL)%nat in
  if (stored_bytes <? buflen)%nat then Ok (map (GET_BYTE X) (seq 0 stored_bytes) ++ repeat 0 (buflen - stored_bytes))
  else if high_bytes_set X buflen then Err MBEDTLS_ERR_MPI_BUFFER_TOO_SMALL
  else Ok (map (GET_BYTE X) (seq 0 buflen)).

Definition mbedtls_mpi_write_binary (X : mpi) (buflen : nat) : result bytes :=
  let stored_bytes := (n X * ciL)%nat in
  if (stored_bytes <? buflen)%nat then Ok (repeat 0 (buflen - stored_bytes) ++ rev (map (GET_BYTE X) (seq 0 stored_bytes)))
  else if high_bytes_set X buflen then Err MBEDTLS_ERR_MPI_BUFFER_TOO_SMALL
  else Ok (rev (map (GET_BYTE X) (seq 0 buflen))).

(** ** Sizes and values *)

Lemma val_abs X : wf X -> Z.abs (val X) = mag (p X).
Proof. intros [[H|H] Hl]; unfold val; rewrite H; pose proof (mag_nonneg _ Hl); lia. Qed.

Lemma val_nonneg X : wf X -> 0 <= val X -> mag (p X) = val X.
Proof. intros W H. rewrite <- val_abs by done. lia. Qed.

Lemma val_sgn X : wf X -> val X = s X * Z.abs (val X).
Proof. intros H. by rewrite val_abs. Qed.

Lemma wf_limbs X : wf X -> limbs_ok (p X).
Proof. by intros [_ H]. Qed.

Lemma wf_mag X : wf X -> 0 <= mag (p X) < radix ^ Z.of_nat (n X).
Proof. intros [_ H]. by apply mag_range. Qed.

Lemma wf_init : wf mbedtls_mpi_init.
Proof. split; [by left|constructor]. Qed.

Lemma grow_ok X k : wf X -> Z.of_nat k <= MBEDTLS_MPI_MAX_LIMBS ->
  exists X', mbedtls_mpi_grow X k = Ok X' /\ wf X' /\ s X' = s X /\ mag (p X') = mag (p X) /\ n X' = Nat.max (n X) k.
Proof.
  intros [Hs Hl] Hk. unfold mbedtls_mpi_grow. rewrite (proj2 (Z.ltb_ge _ _)) by lia. eexists. split; [reflexivity|].
  destruct (Nat.ltb_spec (n X) k).
  - split; [split; [exact Hs|apply limbs_app; auto with limbs]|]. split; [done|]. cbn [p]. rewrite mag_app_zeros. split; [done|].
    unfold n in *. cbn [p]. rewrite length_app, repeat_length. lia.
  - split; [by split|]. split_lia.
Qed.

Lemma grow_val X k X' : mbedtls_mpi_grow X k = Ok X' -> s X' = s X -> mag (p X') = mag (p X) -> val X' = val X.
Proof. intros _ E1 E2. unfold val. by rewrite E1, E2. Qed.

(** The limbs of the number in the source of a copy. *)
Definition sig1 (X : mpi) : nat := if (n X =? 0)%nat then 0 else Nat.max 1 (sig (p X)).

Lemma sig1_le X : (sig1 X <= n X)%nat.
Proof. unfold sig1. case_if; to_prop; [lia|]. pose proof (sig_le (p X)). unfold n in *. lia. Qed.

Lemma take_highest X : (n X =? 0)%nat = false ->
  S (highest (p X) (n X - 1)) = sig1 X /\ mag (take (sig1 X) (p X)) = mag (p X).
Proof.
  intros E. unfold sig1. rewrite E. to_prop. unfold n in *. assert (p X <> []) by (by destruct (p X)).
  split; [by apply highest_sig|]. rewrite <- (firstn_all (p X)) at 3. 
  destruct (Nat.max_spec 1 (sig (p X))) as [[H1 H2]|[H1 H2]]; rewrite H2; [by rewrite mag_sig, firstn_all|].
  rewrite firstn_all, <- (mag_sig (p X)). destruct (sig (p X)) as [|[|]] eqn:Es; [|done|lia].
  cbn [take mag]. pose proof (drop_sig (p X)) as D. rewrite Es in D. rewrite drop_0 in D. rewrite D. by destruct (length (p X) - 0)%nat.
Qed.

Lemma copy_ok X Y : wf X -> wf Y -> ((n X < sig1 Y)%nat -> Z.of_nat (sig1 Y) <= MBEDTLS_MPI_MAX_LIMBS) ->
  exists X', mbedtls_mpi_copy X Y = Ok X' /\ wf X' /\ mag (p X') = mag (p Y) /\ val X' = val Y /\ n X' = Nat.max (n X) (sig1 Y) /\
    (n Y <> 0%nat -> s X' = s Y).
Proof.
  intros [HsX HlX] [HsY HlY] Hk. unfold mbedtls_mpi_copy. destruct (n Y =? 0)%nat eqn:E.
  - to_prop. assert (EY : p Y = []) by (unfold n in E; by destruct (p Y)). eexists. split; [reflexivity|].
    assert (E1 : sig1 Y = 0%nat) by (unfold sig1; by rewrite (proj2 (Nat.eqb_eq _ _) E)). rewrite E1, Nat.max_0_r.
    unfold val. rewrite EY. cbn [mag]. case_if; to_prop.
    + assert (EX : p X = []) by (unfold n in E0; by destruct (p X)). split; [by split|]. rewrite EX. cbn [mag]. split_lia.
    + split; [split; [by left|apply limbs_zeros]|]. cbn [p s]. rewrite mag_zeros. split; [done|]. split; [lia|]. split; [unfold n at 1; cbn [p]; by rewrite repeat_length|lia].
  - destruct (take_highest Y E) as [-> Em].
    assert (G : exists X', (if (n X <? sig1 Y)%nat then mbedtls_mpi_grow X (sig1 Y) else Ok X) = Ok X' /\ n X' = Nat.max (n X) (sig1 Y)).
    { destruct (Nat.ltb_spec (n X) (sig1 Y)) as [Hlt|Hge]; [|exists X; split; [done|lia]].
      destruct (grow_ok X (sig1 Y)) as (X' & -> & _ & _ & _ & En); [by split|auto|]. by exists X'. }
    destruct G as (X' & -> & En). cbn [mbind result_bind]. eexists. split; [reflexivity|]. pose proof (sig1_le Y).
    split; [split; [exact HsY|apply limbs_app; auto with limbs]|]. unfold val. cbn [p s]. rewrite mag_app_zeros, Em.
    split; [done|]. split; [done|]. split; [|done]. unfold n at 1. cbn [p]. rewrite length_app, length_take, repeat_length.
    unfold n in *. lia.
Qed.

Lemma lset_ok X z : wf X -> - 2 ^ 63 <= z < 2 ^ 63 ->
  exists X', mbedtls_mpi_lset X z = Ok X' /\ wf X' /\ val X' = z /\ s X' = sign_of z /\ n X' = Nat.max (n X) 1.
Proof.
  intros H Hz. unfold mbedtls_mpi_lset. destruct (grow_ok X 1 H) as (X' & -> & _ & _ & _ & En); [vm_compute; discriminate|].
  cbn [mbind result_bind]. eexists. split; [reflexivity|].
  assert (A : limb (mpi_sint_abs z) /\ sign_of z * mpi_sint_abs z = z).
  { unfold mpi_sint_abs, sign_of. unfold radix. destruct (Z.leb_spec 0 z).
    - rewrite (proj2 (Z.ltb_ge z 0)) by lia. lia.
    - rewrite (proj2 (Z.ltb_lt z 0)) by lia. unfold u64. rewrite Zminus_mod_idemp_r. rewrite Z.sub_0_l, Z.mod_small by lia. lia. }
  destruct A as [A1 A2]. split.
  { split; [unfold sign_of; cbn [s]; case_if; auto|]. constructor; [exact A1|apply limbs_zeros]. }
  unfold val. cbn [s p mag]. rewrite mag_zeros. split; [lia|]. split; [done|]. unfold n at 1. cbn [p length]. rewrite repeat_length. lia.
Qed.

Lemma int_ok z : - 2 ^ 63 <= z < 2 ^ 63 -> wf (mpi_of_int z) /\ val (mpi_of_int z) = z /\ n (mpi_of_int z) = 1%nat.
Proof.
  intros Hz. destruct (lset_ok mbedtls_mpi_init z wf_init Hz) as (X & E & W & V & _ & N). unfold mbedtls_mpi_lset in E. cbn in E.
  injection E as <-. auto.
Qed.

(** ** Bits *)

Lemma clz_loop_ok x fuel : forall j, 0 <= j -> (0 < fuel)%nat -> j + Z.of_nat fuel = 64 -> 0 <= x < 2 ^ (64 - j) ->
  clz_loop x (Z.shiftl 1 (63 - j)) j fuel = 64 - bits x.
Proof.
  induction fuel as [|fuel IH]; intros j Hj Hf E Hx; [lia|]. cbn [clz_loop]. rewrite Z.shiftl_1_l, land_pow2_bit by lia.
  destruct (Z.testbit x (63 - j)) eqn:B.
  - apply above_bit in B; [|lia..]. assert (bits x = 64 - j); [|lia].
    assert (bits x <= 64 - j) by (apply bits_le; lia).
    destruct (Z.lt_ge_cases (bits x) (64 - j)); [|lia]. assert (x < 2 ^ (63 - j)) by (apply bits_le; lia). lia.
  - assert (Hx' : 0 <= x < 2 ^ (63 - j)) by (split; [lia|]; apply below_bit; [lia| |done]; replace (63 - j + 1) with (64 - j) by lia; lia).
    rewrite Z.shiftr_div_pow2 by lia. destruct fuel as [|fuel].
    + assert (j = 63) as -> by lia. assert (x = 0) as -> by lia. cbn [clz_loop]. reflexivity.
    + replace (2 ^ (63 - j)) with (2 ^ (63 - (j + 1)) * 2 ^ 1) by (rewrite <- Z.pow_add_r by lia; f_equal; lia).
      rewrite Z.div_mul by done. rewrite <- Z.shiftl_1_l. apply IH; try lia. replace (64 - (j + 1)) with (63 - j) by lia. exact Hx'.
Qed.

Lemma clz_ok x : limb x -> biL - mbedtls_clz x = bits x.
Proof.
  intros Hx. unfold mbedtls_clz. change (biL - 1) with (63 - 0). rewrite (clz_loop_ok x 64 0) by (try lia; exact Hx). unfold biL. lia.
Qed.

Lemma bits_cons_top m k x : 0 <= m < radix ^ Z.of_nat k -> 0 < x -> bits (m + radix ^ Z.of_nat k * x) = biL * Z.of_nat k + bits x.
Proof.
  intros Hm Hx. rewrite radix_pow_bits in *. set (e := biL * Z.of_nat k) in *. assert (0 <= e) by (unfold e, biL; lia).
  assert (0 < 2 ^ e) by (apply Z.pow_pos_nonneg; lia).
  apply Z.le_antisymm.
  - apply bits_le; [nia|pose proof (bits_nonneg x); lia|]. rewrite Z.pow_add_r by (try apply bits_nonneg; lia).
    assert (x < 2 ^ bits x) by (apply bits_le; [lia|apply bits_nonneg|lia]). nia.
  - rewrite Z.add_comm, <- bits_shift by lia. apply bits_mono. nia.
Qed.

Lemma bitlen_ok X : wf X -> mbedtls_mpi_bitlen X = bits (mag (p X)).
Proof.
  intros [_ Hl]. unfold mbedtls_mpi_bitlen. destruct (n X =? 0)%nat eqn:E.
  - to_prop. unfold n in E. destruct (p X); [done|discriminate].
  - destruct (take_highest X E) as [E1 E2]. rewrite clz_ok by (by apply limbs_nth). set (i := highest (p X) (n X - 1)) in *.
    assert (Hi : (i < n X)%nat) by (pose proof (sig1_le X); lia).
    rewrite <- E2, <- E1, mag_take_S by exact Hi. pose proof (limbs_nth (p X) i Hl) as Hx.
    pose proof (mag_range _ (limbs_take i (p X) Hl)) as R. rewrite length_take, Nat.min_l in R by (unfold n in Hi; lia).
    destruct (Z.eq_dec (nth i (p X) 0) 0) as [Z0|NZ].
    + rewrite Z0, Z.mul_0_r, Z.add_0_r. destruct i as [|i']; [done|].
      exfalso. unfold sig1 in E1. rewrite E in E1. assert (Es : sig (p X) = S (S i')) by lia.
      pose proof (significant_top (p X) (length (p X))) as T. fold (sig (p X)) in T. rewrite Es in T.
      replace (S (S i') - 1)%nat with (S i') in T by lia. apply T; [lia|exact Z0].
    + rewrite bits_cons_top by (try exact R; lia). unfold biL. lia.
Qed.

Lemma get_bit_ok X pos : wf X -> 0 <= pos -> mbedtls_mpi_get_bit X pos = Z.b2z (Z.testbit (mag (p X)) pos).
Proof.
  intros W Hp. pose proof (wf_mag X W) as R. destruct W as [_ Hl]. unfold mbedtls_mpi_get_bit. destruct (Z.leb_spec (Z.of_nat (n X) * biL) pos).
  - rewrite radix_pow_bits in R. by rewrite (testbit_high (biL * Z.of_nat (n X))) by (unfold biL in *; lia).
  - rewrite shiftr_land_1 by (apply Z.mod_pos_bound; unfold biL; lia). by rewrite mag_testbit.
Qed.

Lemma lsb_bits_ok x fuel : forall j count, limb x -> 0 <= j -> j + Z.of_nat fuel = 64 ->
  match lsb_bits x j fuel count with
  | (Some c, _) => count <= c < count + 64 - j /\ Z.testbit x (j + (c - count)) = true /\
      (forall i, j <= i < j + (c - count) -> Z.testbit x i = false)
  | (None, c) => c = count + Z.of_nat fuel /\ forall i, j <= i < 64 -> Z.testbit x i = false
  end.
Proof.
  induction fuel as [|fuel IH]; intros j count Hx Hj E; cbn [lsb_bits]; [split; [lia|]; intros i Hi; lia|].
  rewrite shiftr_land_1 by lia. destruct (Z.testbit x j) eqn:B; cbn [Z.b2z negb Z.eqb].
  - change (negb (1 =? 0)) with true. cbv iota. rewrite Z.sub_diag, Z.add_0_r. split; [lia|]. split; [done|]. intros i Hi. lia.
  - change (negb (0 =? 0)) with false. cbv iota. specialize (IH (j + 1) (count + 1) Hx ltac:(lia) ltac:(lia)).
    destruct (lsb_bits x (j + 1) fuel (count + 1)) as [[c|] c'].
    + destruct IH as (I1 & I2 & I3). split; [lia|]. split; [rewrite <- I2; f_equal; lia|].
      intros i Hi. destruct (Z.eq_dec i j) as [->|]; [done|]. apply I3. lia.
    + destruct IH as [I1 I2]. split; [lia|]. intros i Hi. destruct (Z.eq_dec i j) as [->|]; [done|]. apply I2. lia.
Qed.

Lemma lsb_limbs_ok l : limbs_ok l -> forall count, mag l <> 0 ->
  count <= lsb_limbs l count /\ Z.testbit (mag l) (lsb_limbs l count - count) = true /\
  (forall i, 0 <= i < lsb_limbs l count - count -> Z.testbit (mag l) i = false).
Proof.
  induction 1 as [|x l Hx Hl IH]; intros count Hm; [done|]. cbn [lsb_limbs].
  pose proof (lsb_bits_ok x 64 0 count Hx ltac:(lia) eq_refl) as B. destruct (lsb_bits x 0 64 count) as [[c|] c'].
  - destruct B as (B1 & B2 & B3). rewrite !Z.add_0_l in *. cbn [mag]. split; [lia|]. split.
    + rewrite testbit_cons by (try done; lia). rewrite (proj2 (Z.ltb_lt _ _)) by (unfold biL; lia). exact B2.
    + intros i Hi. rewrite testbit_cons by (try done; lia). rewrite (proj2 (Z.ltb_lt _ _)) by (unfold biL; lia). apply B3. lia.
  - destruct B as [-> B2]. change (Z.of_nat 64) with 64. assert (x = 0) as ->.
    { apply Z.bits_inj_0. intros i. destruct (Z.lt_ge_cases i 0) as [|Hi]; [by apply Z.testbit_neg_r|].
      destruct (Z.lt_ge_cases i 64); [apply B2; lia|apply (testbit_high 64); [exact Hx|lia]]. }
    assert (Hm' : mag l <> 0) by (intros E; apply Hm; cbn [mag]; rewrite E; lia).
    destruct (IH (count + 64) Hm') as (I1 & I2 & I3). cbn [mag]. split; [lia|]. split.
    + rewrite testbit_cons by (try done; lia). rewrite (proj2 (Z.ltb_ge _ _)) by (unfold biL; lia). rewrite <- I2. f_equal. unfold biL. lia.
    + intros i Hi. rewrite testbit_cons by (try done; lia). destruct (Z.ltb_spec i biL); [apply Z.testbit_0_l|].
      apply I3. unfold biL in *. lia.
Qed.

(** The number of times 2 divides a number. *)
Lemma lsb_ok X : wf X -> val X <> 0 ->
  0 <= mbedtls_mpi_lsb X /\ exists q, mag (p X) = 2 ^ mbedtls_mpi_lsb X * q /\ 0 < q /\ Z.odd q = true.
Proof.
  intros W Hv. pose proof (wf_mag X W) as R. destruct W as [_ Hl]. assert (Hm : mag (p X) <> 0) by (intros E; apply Hv; unfold val; rewrite E; lia).
  destruct (lsb_limbs_ok (p X) Hl 0 Hm) as (L1 & L2 & L3). fold (mbedtls_mpi_lsb X) in *. set (k := mbedtls_mpi_lsb X) in *. rewrite Z.sub_0_r in *.
  split; [done|]. exists (mag (p X) / 2 ^ k). assert (0 < 2 ^ k) by (apply Z.pow_pos_nonneg; lia).
  assert (E : mag (p X) mod 2 ^ k = 0).
  { apply Z.bits_inj_0. intros i. destruct (Z.lt_ge_cases i 0) as [|Hi]; [by apply Z.testbit_neg_r|].
    destruct (Z.lt_ge_cases i k); [rewrite Z.mod_pow2_bits_low by lia; apply L3; lia|apply Z.mod_pow2_bits_high; lia]. }
  pose proof (Z.div_mod (mag (p X)) (2 ^ k)). split; [lia|].
  assert (O : Z.odd (mag (p X) / 2 ^ k) = true) by (rewrite <- Z.bit0_odd, Z.div_pow2_bits by lia; by rewrite Z.add_0_l). split; [|done].
  assert (0 <= mag (p X) / 2 ^ k) by (apply Z.div_pos; lia).
  destruct (Z.eq_dec (mag (p X) / 2 ^ k) 0) as [E0|]; [rewrite E0 in O; discriminate|lia].
Qed.

Lemma lsb_zero X : wf X -> val X = 0 -> mbedtls_mpi_lsb X = 0.
Proof.
  intros [Hs Hl] Hv. assert (Hm : mag (p X) = 0) by (unfold val in Hv; destruct Hs as [E|E]; rewrite E in Hv; lia).
  unfold mbedtls_mpi_lsb. assert (G : forall l, limbs_ok l -> mag l = 0 -> forall c, lsb_limbs l c = 0); [|by apply G].
  clear. induction 1 as [|x l Hx Hl IH]; intros Hm c; [done|]. cbn [lsb_limbs mag] in *. pose proof (mag_nonneg l Hl). pose proof radix_pos.
  assert (x = 0 /\ mag l = 0) as [-> Hm'] by nia. change (lsb_bits 0 0 64 c) with (lsb_bits 0 0 64 c).
  pose proof (lsb_bits_ok 0 64 0 c ltac:(split; [lia|done]) ltac:(lia) eq_refl) as B. destruct (lsb_bits 0 0 64 c) as [[d|] c'].
  - destruct B as (_ & B & _). by rewrite Z.testbit_0_l in B.
  - by apply IH.
Qed.

(** ** Comparison *)

Lemma cmp_abs_ok X Y : wf X -> wf Y -> mbedtls_mpi_cmp_abs X Y = Z.sgn (mag (p X) - mag (p Y)).
Proof.
  intros [_ HX] [_ HY]. unfold mbedtls_mpi_cmp_abs, n. fold (sig (p X)) (sig (p Y)).
  destruct ((sig (p X) =? 0)%nat && (sig (p Y) =? 0)%nat) eqn:E; to_prop.
  - apply sig_zero in H; [|done]. apply sig_zero in H0; [|done]. by rewrite H, H0.
  - destruct (Nat.ltb_spec (sig (p Y)) (sig (p X))) as [H|H].
    { pose proof (sig_lower (p X) HX ltac:(lia)). pose proof (sig_upper (p Y) HY). pose proof (radix_pow_le (sig (p Y)) (sig (p X) - 1) ltac:(lia)).
      symmetry. apply Z.sgn_pos. lia. }
    destruct (Nat.ltb_spec (sig (p X)) (sig (p Y))) as [H'|H'].
    { pose proof (sig_lower (p Y) HY ltac:(lia)). pose proof (sig_upper (p X) HX). pose proof (radix_pow_le (sig (p X)) (sig (p Y) - 1) ltac:(lia)).
      symmetry. apply Z.sgn_neg. lia. }
    assert (Eq : sig (p X) = sig (p Y)) by lia. pose proof (sig_le (p X)). pose proof (sig_le (p Y)).
    rewrite cmp_limbs_ok by (auto; lia). rewrite mag_sig, Eq, mag_sig. reflexivity.
Qed.

Lemma cmp_mpi_ok X Y : wf X -> wf Y -> mbedtls_mpi_cmp_mpi X Y = Z.sgn (val X - val Y).
Proof.
  intros [HsX HX] [HsY HY]. unfold mbedtls_mpi_cmp_mpi, n, val. fold (sig (p X)) (sig (p Y)).
  pose proof (mag_nonneg _ HX). pose proof (mag_nonneg _ HY).
  destruct ((sig (p X) =? 0)%nat && (sig (p Y) =? 0)%nat) eqn:E; to_prop.
  - apply sig_zero in H1; [|done]. apply sig_zero in H2; [|done]. rewrite H1, H2. by rewrite !Z.mul_0_r.
  - destruct (Nat.ltb_spec (sig (p Y)) (sig (p X))) as [L|L].
    { pose proof (sig_lower (p X) HX ltac:(lia)). pose proof (sig_upper (p Y) HY). pose proof (radix_pow_le (sig (p Y)) (sig (p X) - 1) ltac:(lia)).
      destruct HsX as [->| ->], HsY as [->| ->]; symmetry; (apply Z.sgn_pos + apply Z.sgn_neg); lia. }
    destruct (Nat.ltb_spec (sig (p X)) (sig (p Y))) as [L'|L'].
    { pose proof (sig_lower (p Y) HY ltac:(lia)). pose proof (sig_upper (p X) HX). pose proof (radix_pow_le (sig (p X)) (sig (p Y) - 1) ltac:(lia)).
      destruct HsX as [->| ->], HsY as [->| ->]; symmetry; (apply Z.sgn_pos + apply Z.sgn_neg); lia. }
    assert (Eq : sig (p X) = sig (p Y)) by lia. pose proof (sig_le (p X)). pose proof (sig_le (p Y)).
    assert (Hpos : 0 < mag (p X) /\ 0 < mag (p Y)).
    { assert (0 < sig (p X))%nat by (apply Nat.neq_0_lt_0; intros E0; rewrite <- Eq, E0 in E; discriminate).
      pose proof (sig_lower (p X) HX ltac:(lia)). pose proof (sig_lower (p Y) HY ltac:(lia)). pose proof (radix_pow_pos (sig (p X) - 1)).
      pose proof (radix_pow_pos (sig (p Y) - 1)). lia. }
    rewrite cmp_limbs_ok by (auto; lia). rewrite mag_sig, Eq, mag_sig.
    destruct HsX as [->| ->], HsY as [->| ->].
    + change ((0 <? 1) && (1 <? 0)) with false. cbv iota. rewrite !Z.mul_1_l. by destruct (mag (p X) - mag (p Y)).
    + change ((0 <? 1) && (-1 <? 0)) with true. cbv iota. symmetry. apply Z.sgn_pos. lia.
    + change ((0 <? -1) && (1 <? 0)) with false. change ((0 <? 1) && (-1 <? 0)) with true. cbv iota. symmetry. apply Z.sgn_neg. lia.
    + change ((0 <? -1) && (-1 <? 0)) with false. cbv iota. replace (-1 * mag (p X) - -1 * mag (p Y)) with (- (mag (p X) - mag (p Y))) by lia.
      rewrite Z.sgn_opp. by destruct (mag (p X) - mag (p Y)).
Qed.

Lemma cmp_int_ok X z : wf X -> - 2 ^ 63 <= z < 2 ^ 63 -> mbedtls_mpi_cmp_int X z = Z.sgn (val X - z).
Proof.
  intros W Hz. destruct (int_ok z Hz) as (Wz & Vz & _). unfold mbedtls_mpi_cmp_int. rewrite cmp_mpi_ok by done. by rewrite Vz.
Qed.

(** ** Shifts *)

Lemma land_63_mod count : Z.land count (biL - 1) = count mod biL.
Proof. change (biL - 1) with (Z.ones 6). rewrite Z.land_ones by lia. reflexivity. Qed.

Lemma bits_to_limbs_le i k : 0 <= i -> (BITS_TO_LIMBS i <= k)%nat <-> i <= biL * Z.of_nat k.
Proof.
  intros Hi. unfold BITS_TO_LIMBS. pose proof (Z.div_mod i biL). pose proof (Z.mod_pos_bound i biL).
  assert (0 <= i / biL) by (apply Z.div_pos; unfold biL; lia). pose proof (b2z_range (negb (i mod biL =? 0))).
  unfold b2z in *. destruct (Z.eqb_spec (i mod biL) 0); cbn [negb] in *; unfold biL in *; lia.
Qed.

Lemma shift_l_ok X count : wf X -> 0 <= count ->
  let i := bits (mag (p X)) + count in
  (Z.of_nat (n X) * biL < i -> Z.of_nat (BITS_TO_LIMBS i) <= MBEDTLS_MPI_MAX_LIMBS) ->
  exists X', mbedtls_mpi_shift_l X count = Ok X' /\ wf X' /\ s X' = s X /\ mag (p X') = mag (p X) * 2 ^ count /\
    n X' = Nat.max (n X) (BITS_TO_LIMBS i).
Proof.
  intros W Hc i Hi. unfold mbedtls_mpi_shift_l. rewrite bitlen_ok by exact W. fold i. rewrite land_63_mod.
  pose proof (bits_nonneg (mag (p X))) as Hb. pose proof (wf_mag X W) as Hm.
  assert (G : exists X1, (if Z.of_nat (n X) * biL <? i then mbedtls_mpi_grow X (BITS_TO_LIMBS i) else Ok X) = Ok X1 /\ wf X1 /\
    s X1 = s X /\ mag (p X1) = mag (p X) /\ n X1 = Nat.max (n X) (BITS_TO_LIMBS i)).
  { destruct (Z.ltb_spec (Z.of_nat (n X) * biL) i) as [H|H].
    - destruct (grow_ok X (BITS_TO_LIMBS i) W (Hi H)) as (X1 & E & W1 & S1 & M1 & N1). exists X1. auto.
    - exists X. split; [done|]. split; [done|]. split; [done|]. split; [done|].
      assert (BITS_TO_LIMBS i <= n X)%nat by (apply bits_to_limbs_le; unfold i, biL in *; lia). lia. }
  destruct G as (X1 & -> & [S1' W1] & S1 & M1 & N1). cbn [mbind result_bind]. rewrite <- M1, <- S1, <- N1.
  set (l := p X1) in *. set (v0 := Z.to_nat (count / biL)).
  assert (Fit : mag l * 2 ^ count < radix ^ zlen l).
  { change (length l) with (n X1). rewrite N1, M1, radix_pow_bits. assert (0 < 2 ^ count) by (apply Z.pow_pos_nonneg; lia).
    destruct (Z.eq_dec (mag (p X)) 0) as [E0|E0]; [rewrite E0; apply Z.pow_pos_nonneg; unfold biL; lia|].
    apply bits_le; [nia|unfold biL; lia|]. rewrite bits_shift by lia. fold i.
    apply bits_to_limbs_le; [unfold i; lia|]. lia. }
  assert (Ec : 2 ^ count = radix ^ Z.of_nat v0 * 2 ^ (count mod biL)).
  { rewrite radix_pow_bits, <- Z.pow_add_r; [|unfold biL; lia|apply Z.mod_pos_bound; unfold biL; lia]. f_equal.
    unfold v0. rewrite Z2Nat.id by (apply Z.div_pos; unfold biL; lia). apply Z.div_mod. unfold biL. lia. }
  assert (Et : 0 < 2 ^ (count mod biL)) by (apply Z.pow_pos_nonneg; [lia|apply Z.mod_pos_bound; unfold biL; lia]).
  pose proof (mag_nonneg l W1) as Hml. pose proof (radix_pow_pos v0) as Hv0.
  assert (E1 : (if (0 <? v0)%nat then take (n X1) (repeat 0 v0 ++ l) else l) = take (n X1) (repeat 0 v0 ++ l)).
  { destruct v0; [|done]. cbn [repeat app]. change (0 <? 0)%nat with false. cbv iota. unfold n. by rewrite firstn_all. }
  rewrite E1. set (l1 := take (n X1) (repeat 0 v0 ++ l)).
  assert (L1 : length l1 = length l) by (unfold l1, n; rewrite length_take, length_app, repeat_length; fold l; lia).
  assert (O1 : limbs_ok l1) by (unfold l1; apply limbs_take, limbs_app; auto with limbs).
  assert (M : mag l1 = radix ^ Z.of_nat v0 * mag l).
  { unfold l1. rewrite <- mag_mod; [|apply limbs_app; auto with limbs|rewrite length_app; unfold n; fold l; lia].
    rewrite mag_app, mag_zeros, repeat_length. rewrite Z.add_0_l. apply Z.mod_small. unfold n. fold l. rewrite Ec in Fit. nia. }
  destruct (Z.ltb_spec 0 (count mod biL)) as [Ht|Ht].
  - assert (Ht' : 0 < count mod biL < biL) by (pose proof (Z.mod_pos_bound count biL ltac:(unfold biL; lia)); lia).
    destruct (shift_l_bits_ok (count mod biL) (drop v0 l1) Ht' (limbs_drop v0 l1 O1) 0) as [B1 B2]; [lia|].
    eexists. split; [reflexivity|]. split; [split; [cbn [s]; exact S1'|cbn [p]; apply limbs_app; auto with limbs]|]. split; [done|]. cbn [p]. split.
    + rewrite mag_app, B2, Z.add_0_r. rewrite length_take, length_drop.
      destruct (Nat.le_gt_cases v0 (length l1)) as [Hle|Hgt].
      * rewrite Nat.min_l by exact Hle.
        assert (Z1 : take v0 l1 = repeat 0 v0).
        { unfold l1. rewrite take_take. rewrite Nat.min_l by (unfold n; fold l; lia). by rewrite take_app_exact by (by rewrite repeat_length). }
        rewrite Z1, mag_zeros, Z.add_0_l. rewrite (mag_split v0 l1 Hle), Z1, mag_zeros, Z.add_0_l in M.
        assert (Md : mag (drop v0 l1) = mag l) by nia. rewrite Md. rewrite Z.mod_small; [rewrite Ec; ring|].
        split; [nia|]. rewrite Ec in Fit. rewrite <- L1 in Fit.
        replace (length l1) with (v0 + (length l1 - v0))%nat in Fit by lia. rewrite radix_pow_add in Fit.
        apply (Z.mul_lt_mono_pos_l (radix ^ Z.of_nat v0)); [done|]. eapply Z.le_lt_trans; [|exact Fit]. apply Z.eq_le_incl. ring.
      * assert (mag l = 0).
        { pose proof (radix_pow_le (length l) v0 ltac:(lia)). destruct (Z.eq_dec (mag l) 0) as [|Hne]; [done|]. exfalso.
          assert (1 * radix ^ Z.of_nat v0 <= mag l * 2 ^ count); [|lia]. apply Z.mul_le_mono_nonneg; [lia|lia|lia|]. rewrite Ec. nia. }
        assert (Z1 : take v0 l1 = repeat 0 (length l1)).
        { rewrite take_ge by lia. unfold l1, n. fold l. rewrite take_app_le by (rewrite repeat_length; lia). rewrite take_repeat. f_equal. rewrite repeat_length. lia. }
        rewrite Z1, mag_zeros. replace (length l1 - v0)%nat with 0%nat by lia. change (radix ^ Z.of_nat 0) with 1. rewrite Z.mod_1_r. lia.
    + unfold n. cbn [p]. rewrite length_app, shift_l_bits_length, length_take, length_drop. fold l. lia.
  - assert (E0 : count mod biL = 0) by (pose proof (Z.mod_pos_bound count biL ltac:(unfold biL; lia)); lia).
    eexists. split; [reflexivity|]. split; [by split|]. split; [done|]. cbn [p]. split; [rewrite M, Ec, E0; change (2 ^ 0) with 1; ring|].
    unfold n. cbn [p]. fold l. lia.
Qed.

Lemma shift_r_ok X count : wf X -> 0 <= count ->
  exists X', mbedtls_mpi_shift_r X count = Ok X' /\ wf X' /\ mag (p X') = mag (p X) / 2 ^ count /\
    (mag (p X') <> 0 -> s X' = s X) /\ (n X <= n X' <= Nat.max 1 (n X))%nat.
Proof.
  intros W Hc. unfold mbedtls_mpi_shift_r. rewrite land_63_mod. pose proof (wf_mag X W) as Hm. set (v0 := Z.to_nat (count / biL)).
  assert (Hr : 0 <= count mod biL < biL) by (apply Z.mod_pos_bound; unfold biL; lia).
  assert (Ec : 2 ^ count = radix ^ Z.of_nat v0 * 2 ^ (count mod biL)).
  { rewrite radix_pow_bits, <- Z.pow_add_r by (unfold biL in *; lia). f_equal.
    unfold v0. rewrite Z2Nat.id by (apply Z.div_pos; unfold biL; lia). apply Z.div_mod. unfold biL. lia. }
  assert (Et : 0 < 2 ^ (count mod biL)) by (apply Z.pow_pos_nonneg; lia). pose proof (radix_pow_pos v0) as Hv0.
  destruct ((n X <? v0)%nat || ((v0 =? n X)%nat && (0 <? count mod biL))) eqn:Big.
  - destruct (lset_ok X 0 W ltac:(lia)) as (X' & E & W' & V & S' & N'). exists X'. split; [exact E|]. split; [exact W'|].
    assert (M0 : mag (p X') = 0) by (destruct W' as [Hs' _]; unfold val in V; destruct Hs' as [Q|Q]; rewrite Q in V; lia).
    rewrite M0. split; [|split; [done|lia]]. symmetry. apply Z.div_small. split; [lia|]. rewrite Ec.
    assert (Hle : (n X <= v0)%nat) by (apply orb_true_iff in Big as [B|B]; to_prop; lia).
    pose proof (radix_pow_le (n X) v0 Hle). nia.
  - to_prop. destruct W as [Hs Hl]. set (l := p X) in *. change (n X) with (length l) in *.
    assert (E1 : (if (0 <? v0)%nat then drop v0 l ++ repeat 0 v0 else l) = drop v0 l ++ repeat 0 v0).
    { destruct v0; [|done]. cbn [repeat]. by rewrite drop_0, app_nil_r. }
    rewrite E1. set (l1 := drop v0 l ++ repeat 0 v0).
    assert (M1 : mag l1 = mag l / radix ^ Z.of_nat v0) by (unfold l1; rewrite mag_app_zeros; symmetry; apply mag_div; [done|lia]).
    assert (L1 : length l1 = length l) by (unfold l1; rewrite length_app, length_drop, repeat_length; lia).
    assert (O1 : limbs_ok l1) by (unfold l1; apply limbs_app; auto with limbs).
    destruct (Z.ltb_spec 0 (count mod biL)) as [Hv|Hv].
    + pose proof (shift_r_bits_ok (count mod biL) l1 ltac:(lia) O1) as B. destruct (shift_r_bits l1 (count mod biL)) as [q r].
      destruct B as (B1 & B2 & B3 & _). eexists. split; [reflexivity|]. cbn [fst]. split; [by split|]. cbn [p s].
      split; [rewrite B3, M1, Z.div_div, Ec by lia; done|]. split; [done|]. unfold n. cbn [p]. lia.
    + assert (E0 : count mod biL = 0) by lia. eexists. split; [reflexivity|]. split; [by split|]. cbn [p s].
      split; [rewrite M1, Ec, E0; change (2 ^ 0) with 1; by rewrite Z.mul_1_r|]. split; [done|]. unfold n. cbn [p]. lia.
Qed.

(** ** Addition and subtraction *)

Lemma sig1_fits X k : wf X -> mag (p X) < radix ^ Z.of_nat k -> (1 <= k)%nat -> (sig1 X <= k)%nat.
Proof. intros [_ H] Hm Hk. unfold sig1. case_if; [lia|]. apply sig_le_iff in Hm; [lia|done]. Qed.

Lemma mag_take_sig X : wf X -> mag (take (significant (p X) (n X)) (p X)) = mag (p X) /\
  length (take (significant (p X) (n X)) (p X)) = sig (p X) /\ limbs_ok (take (significant (p X) (n X)) (p X)).
Proof.
  intros [_ H]. change (significant (p X) (n X)) with (sig (p X)). split; [apply mag_sig|]. split; [|by apply limbs_take].
  rewrite length_take. pose proof (sig_le (p X)). lia.
Qed.

Lemma add_abs_ok X A B k : wf X -> wf A -> wf B ->
  mag (p A) + mag (p B) < radix ^ Z.of_nat k -> (1 <= k)%nat -> Z.of_nat k <= MBEDTLS_MPI_MAX_LIMBS ->
  exists X', mbedtls_mpi_add_abs X A B = Ok X' /\ wf X' /\ s X' = 1 /\ mag (p X') = mag (p A) + mag (p B) /\
    (n X <= n X' <= Nat.max (n X) k)%nat.
Proof.
  intros WX WA WB Hf Hk Hm. pose proof (wf_mag A WA). pose proof (wf_mag B WB). unfold mbedtls_mpi_add_abs.
  pose proof (sig1_fits A k WA ltac:(lia) Hk) as SA.
  destruct (copy_ok X A WX WA) as (X1 & -> & W1 & M1 & _ & N1 & _); [intros _; lia|]. cbn [mbind result_bind].
  destruct (mag_take_sig B WB) as (TB1 & TB2 & TB3). set (j := significant (p B) (n B)) in *. change (sig (p B)) with j in TB2.
  assert (Hj : (j <= k)%nat) by (apply sig_le_iff; [apply WB|lia]).
  destruct (Nat.eqb_spec j 0) as [E|E].
  - eexists. split; [reflexivity|]. split; [split; [by left|apply W1]|]. cbn [s p]. split; [done|].
    assert (mag (p B) = 0) by (apply sig_zero; [apply WB|exact E]). split; [lia|]. unfold n at 2 3. cbn [p]. fold (n X1). lia.
  - destruct (grow_ok (mkMpi 1 (p X1)) j) as (X2 & -> & W2 & S2 & M2 & N2); [split; [by left|apply W1]|lia|]. cbn [mbind result_bind p] in *.
    change (n (mkMpi 1 (p X1))) with (n X1) in N2.
    pose proof (add_limbs_ok (take j (p B)) (p X2) 0 TB3 (wf_limbs _ W2) ltac:(rewrite TB2; fold (n X2); lia) ltac:(lia)) as Ad.
    destruct (add_limbs (take j (p B)) (p X2) 0) as [l c]. destruct Ad as (A1 & A2 & A3 & A4). rewrite TB1, M2, M1, Z.add_0_r in A4.
    fold (n X2) in A2, A4. case_if; to_prop.
    + subst c. eexists. split; [reflexivity|]. split; [split; [by left|exact A1]|]. cbn [s p]. split; [done|]. split; [lia|].
      unfold n at 2 3. cbn [p]. lia.
    + assert (c = 1) as -> by lia.
      assert (Hn : (n X2 < k)%nat).
      { destruct (Nat.lt_ge_cases (n X2) k) as [|Hge]; [done|]. pose proof (radix_pow_le k (n X2) Hge). pose proof (mag_nonneg l A1). lia. }
      destruct (grow_ok (mkMpi 1 l) (S (length l))) as (X3 & E3 & W3 & S3 & M3 & N3); [split; [by left|exact A1]|lia|]. rewrite E3. cbn [mbind result_bind].
      unfold mbedtls_mpi_grow in E3. destruct (_ <? _); [discriminate|]. unfold n in E3 at 1. cbn [p s] in E3.
      rewrite (proj2 (Nat.ltb_lt (length l) (S (length l)))) in E3 by lia. injection E3 as <-. cbn [p].
      unfold n. cbn [p]. replace (S (length l) - length l)%nat with 1%nat by lia. cbn [repeat].
      rewrite take_app_length, drop_app_length. cbn [add_carry]. change (1 =? 0) with false. cbv iota.
      eexists. split; [reflexivity|]. change (u64 (0 + 1)) with 1. split.
      { split; [by left|]. cbn [p]. apply limbs_app. split; [done|]. constructor; [split; [lia|done]|constructor]. }
      cbn [s p]. split; [done|]. rewrite mag_app. cbn [mag]. rewrite A2. split; [lia|]. rewrite length_app. cbn [length].
      change (length (p X)) with (n X). lia.
Qed.

Lemma sub_abs_ok X A B : wf X -> wf A -> wf B -> mag (p B) <= mag (p A) -> Z.of_nat (n A) <= MBEDTLS_MPI_MAX_LIMBS ->
  exists X', mbedtls_mpi_sub_abs X A B = Ok X' /\ wf X' /\ s X' = 1 /\ mag (p X') = mag (p A) - mag (p B) /\ n X' = Nat.max (n X) (n A).
Proof.
  intros WX WA WB Hle Hm. unfold mbedtls_mpi_sub_abs. destruct (mag_take_sig B WB) as (TB1 & TB2 & TB3).
  set (k := significant (p B) (n B)) in *. change (sig (p B)) with k in TB2.
  assert (Hk : (k <= n A)%nat).
  { apply sig_le_iff; [apply WB|]. pose proof (wf_mag A WA). lia. }
  rewrite (proj2 (Nat.ltb_ge _ _)) by exact Hk. destruct (grow_ok X (n A) WX Hm) as (X1 & -> & _ & _ & _ & N1). cbn [mbind result_bind].
  assert (LA : length (take k (p A)) = k) by (rewrite length_take; unfold n in Hk; lia).
  pose proof (sub_hlp_ok (take k (p A)) (take k (p B)) 0 (limbs_take k _ (wf_limbs _ WA)) TB3 ltac:(congruence) ltac:(lia)) as Sb.
  destruct (mpi_sub_hlp (take k (p A)) (take k (p B)) 0) as [low c]. destruct Sb as (B1 & B2 & B3 & B4). rewrite TB1, LA in B4.
  set (high := drop k (p A) ++ repeat 0 (n X1 - n A)).
  assert (HH : limbs_ok high) by (unfold high; apply limbs_app; split; [apply limbs_drop, WA|auto with limbs]).
  assert (LH : (length low + length high)%nat = Nat.max (n X) (n A)).
  { unfold high. rewrite length_app, length_drop, repeat_length. fold (n A). lia. }
  assert (MA : mag (p A) = mag (take k (p A)) + radix ^ Z.of_nat k * mag high).
  { unfold high. rewrite mag_app_zeros. apply mag_split. unfold n in Hk. lia. }
  case_if; to_prop.
  - subst c. eexists. split; [reflexivity|]. split; [split; [by left|by apply limbs_app]|]. cbn [s p]. split; [done|].
    rewrite mag_app, B2, LA. split; [lia|]. unfold n at 1. cbn [p]. rewrite length_app. exact LH.
  - assert (c = 1) as -> by lia. pose proof (sub_borrow_ok high HH) as Bo. destruct (sub_borrow high) as [high' ok].
    destruct Bo as (O1 & O2 & O3 & O4).
    assert (Hpos : 0 < mag high).
    { pose proof (mag_nonneg low B1). pose proof (mag_range low B1) as Hr. rewrite B2, LA in Hr. pose proof (radix_pow_pos k).
      pose proof (mag_nonneg high HH). destruct (Z.eq_dec (mag high) 0) as [E0|]; [|lia]. rewrite E0 in MA. lia. }
    rewrite O3, (proj2 (Z.ltb_lt _ _)) by exact Hpos. cbn [negb].
    specialize (O4 ltac:(rewrite O3; by apply Z.ltb_lt)).
    eexists. split; [reflexivity|]. split; [split; [by left|by apply limbs_app]|]. cbn [s p]. split; [done|].
    rewrite mag_app, B2, LA, O4. split; [lia|]. unfold n at 1. cbn [p]. rewrite length_app, O2. exact LH.
Qed.

(** A difference that would be negative is an error. *)
Lemma sub_abs_negative X A B : wf X -> wf A -> wf B -> mag (p A) < mag (p B) -> Z.of_nat (n A) <= MBEDTLS_MPI_MAX_LIMBS ->
  mbedtls_mpi_sub_abs X A B = Err MBEDTLS_ERR_MPI_NEGATIVE_VALUE.
Proof.
  intros WX WA WB Hlt Hm. unfold mbedtls_mpi_sub_abs. destruct (mag_take_sig B WB) as (TB1 & TB2 & TB3).
  set (k := significant (p B) (n B)) in *. change (sig (p B)) with k in TB2.
  destruct (Nat.ltb_spec (n A) k) as [|Hk]; [done|]. destruct (grow_ok X (n A) WX Hm) as (X1 & -> & _ & _ & _ & N1). cbn [mbind result_bind].
  assert (LA : length (take k (p A)) = k) by (rewrite length_take; unfold n in Hk; lia).
  pose proof (sub_hlp_ok (take k (p A)) (take k (p B)) 0 (limbs_take k _ (wf_limbs _ WA)) TB3 ltac:(congruence) ltac:(lia)) as Sb.
  destruct (mpi_sub_hlp (take k (p A)) (take k (p B)) 0) as [low c]. destruct Sb as (B1 & B2 & B3 & B4). rewrite TB1, LA in B4.
  set (high := drop k (p A) ++ repeat 0 (n X1 - n A)).
  assert (HH : limbs_ok high) by (unfold high; apply limbs_app; split; [apply limbs_drop, WA|auto with limbs]).
  assert (MA : mag (p A) = mag (take k (p A)) + radix ^ Z.of_nat k * mag high).
  { unfold high. rewrite mag_app_zeros. apply mag_split. unfold n in Hk. lia. }
  pose proof (mag_nonneg low B1). pose proof (mag_nonneg high HH). pose proof (radix_pow_pos k).
  pose proof (mag_range low B1) as Hr. rewrite B2, LA in Hr.
  case_if; to_prop; [subst c; nia|]. pose proof (sub_borrow_ok high HH) as Bo. destruct (sub_borrow high) as [high' ok].
  destruct Bo as (_ & _ & -> & _). destruct (Z.ltb_spec 0 (mag high)); [|done]. assert (c = 1) by lia. nia.
Qed.

Lemma wf_set_s x X : x = 1 \/ x = -1 -> wf X -> wf (set_s x X).
Proof. intros H [_ W]. by split. Qed.

Lemma add_sub_ok X A B f k : wf X -> wf A -> wf B -> f = 1 \/ f = -1 ->
  Z.abs (val A) + Z.abs (val B) < radix ^ Z.of_nat k -> (n A <= k)%nat -> (n B <= k)%nat -> (1 <= k)%nat ->
  Z.of_nat k <= MBEDTLS_MPI_MAX_LIMBS ->
  exists X', add_sub_mpi X A B f = Ok X' /\ wf X' /\ val X' = val A + f * val B /\ (n X <= n X' <= Nat.max (n X) k)%nat.
Proof.
  intros WX WA WB Hf Hv HA HB Hk Hm. rewrite !val_abs in Hv by done. unfold add_sub_mpi.
  pose proof (wf_mag A WA). pose proof (wf_mag B WB). destruct (Z.ltb_spec (s A * s B * f) 0) as [Hn|Hp].
  - rewrite cmp_abs_ok by done. destruct (Z.leb_spec 0 (Z.sgn (mag (p A) - mag (p B)))) as [Hc|Hc].
    + destruct (sub_abs_ok X A B WX WA WB) as (X' & -> & W' & S' & M' & N'); [lia|lia|]. cbn [mbind result_bind].
      eexists. split; [reflexivity|]. split; [apply wf_set_s; [case_if; [by left|apply WA]|done]|]. split; [|unfold n; cbn [p set_s]; fold (n X') (n X); lia].
      unfold val. cbn [s p set_s]. rewrite M'. destruct WA as [[E1|E1] _], WB as [[E2|E2] _], Hf as [-> | ->]; rewrite E1, E2 in *; try lia.
      all: case_if; to_prop; lia.
    + destruct (sub_abs_ok X B A WX WB WA) as (X' & -> & W' & S' & M' & N'); [lia|lia|]. cbn [mbind result_bind].
      eexists. split; [reflexivity|]. split; [apply wf_set_s; [destruct WA as [[-> | ->] _]; auto|done]|]. split; [|unfold n; cbn [p set_s]; fold (n X') (n X); lia].
      unfold val. cbn [s p set_s]. rewrite M'. destruct WA as [[E1|E1] _], WB as [[E2|E2] _], Hf as [-> | ->]; rewrite E1, E2 in *; lia.
  - destruct (add_abs_ok X A B k WX WA WB Hv Hk Hm) as (X' & -> & W' & S' & M' & N'). cbn [mbind result_bind].
    eexists. split; [reflexivity|]. split; [apply wf_set_s; [apply WA|done]|]. split; [|unfold n; cbn [p set_s]; fold (n X') (n X); lia].
    unfold val. cbn [s p set_s]. rewrite M'. destruct WA as [[E1|E1] _], WB as [[E2|E2] _], Hf as [-> | ->]; rewrite E1, E2 in *; lia.
Qed.

Lemma add_mpi_ok X A B k : wf X -> wf A -> wf B ->
  Z.abs (val A) + Z.abs (val B) < radix ^ Z.of_nat k -> (n A <= k)%nat -> (n B <= k)%nat -> (1 <= k)%nat -> Z.of_nat k <= MBEDTLS_MPI_MAX_LIMBS ->
  exists X', mbedtls_mpi_add_mpi X A B = Ok X' /\ wf X' /\ val X' = val A + val B /\ (n X <= n X' <= Nat.max (n X) k)%nat.
Proof.
  intros. destruct (add_sub_ok X A B 1 k) as (X' & E & W & V & N); auto. exists X'. split; [exact E|]. split; [exact W|]. split; [lia|exact N].
Qed.

Lemma sub_mpi_ok X A B k : wf X -> wf A -> wf B ->
  Z.abs (val A) + Z.abs (val B) < radix ^ Z.of_nat k -> (n A <= k)%nat -> (n B <= k)%nat -> (1 <= k)%nat -> Z.of_nat k <= MBEDTLS_MPI_MAX_LIMBS ->
  exists X', mbedtls_mpi_sub_mpi X A B = Ok X' /\ wf X' /\ val X' = val A - val B /\ (n X <= n X' <= Nat.max (n X) k)%nat.
Proof.
  intros. destruct (add_sub_ok X A B (-1) k) as (X' & E & W & V & N); auto. exists X'. split; [exact E|]. split; [exact W|]. split; [lia|exact N].
Qed.

(** ** Multiplication *)

Lemma mul_loop_ok a b : limbs_ok a -> limbs_ok b -> forall j x, limbs_ok x -> (j <= length b)%nat -> (length a + j <= length x)%nat ->
  mag x + mag a * mag (take j b) < radix ^ zlen x ->
  limbs_ok (mul_loop a b x j) /\ length (mul_loop a b x j) = length x /\ mag (mul_loop a b x j) = mag x + mag a * mag (take j b).
Proof.
  intros Ha Hb. induction j as [|k IH]; intros x Hx Hj Hl Hf; cbn [mul_loop].
  - rewrite take_0. cbn [mag]. split; [done|]. split; [done|lia].
  - rewrite mag_take_S in Hf by lia. pose proof (limbs_nth b k Hb). pose proof (mag_nonneg a Ha). pose proof (mag_nonneg _ (limbs_take k b Hb)).
    destruct (mul_at_ok k a x (nth k b 0) Ha Hx) as (M1 & M2 & M3); [done|lia|nia|].
    destruct (IH (mul_at k a x (nth k b 0)) M1) as (I1 & I2 & I3); [lia|lia| |].
    { rewrite M3, M2. nia. }
    split; [exact I1|]. split; [congruence|]. rewrite I3, M3, mag_take_S by lia. ring.
Qed.

Lemma mul_mpi_ok X A B k : wf X -> wf A -> wf B -> (sig (p A) + sig (p B) <= k)%nat -> (1 <= k)%nat -> Z.of_nat k <= MBEDTLS_MPI_MAX_LIMBS ->
  exists X', mbedtls_mpi_mul_mpi X A B = Ok X' /\ wf X' /\ val X' = val A * val B /\ (n X <= n X' <= Nat.max (n X) k)%nat.
Proof.
  intros WX WA WB Hk Hk1 Hm. unfold mbedtls_mpi_mul_mpi. destruct (mag_take_sig A WA) as (TA1 & TA2 & TA3).
  set (i := significant (p A) (n A)) in *. change (sig (p A)) with i in TA2, Hk. set (j := significant (p B) (n B)) in *. change (sig (p B)) with j in Hk.
  destruct (grow_ok X (i + j) WX ltac:(lia)) as (X1 & -> & W1 & _ & _ & N1). cbn [mbind result_bind].
  destruct (lset_ok X1 0 W1 ltac:(lia)) as (X2 & -> & W2 & V2 & S2 & N2). cbn [mbind result_bind].
  assert (M2 : mag (p X2) = 0) by (unfold val in V2; rewrite S2 in V2; change (sign_of 0) with 1 in V2; lia).
  assert (Hj : (j <= length (p B))%nat) by apply sig_le.
  assert (EB : mag (take j (p B)) = mag (p B)) by apply mag_sig.
  pose proof (sig_upper (p A) (wf_limbs _ WA)) as UA. pose proof (sig_upper (p B) (wf_limbs _ WB)) as UB.
  change (sig (p A)) with i in UA. change (sig (p B)) with j in UB. pose proof (wf_mag A WA). pose proof (wf_mag B WB).
  destruct (mul_loop_ok (take i (p A)) (p B) TA3 (wf_limbs _ WB) j (p X2) (wf_limbs _ W2) Hj) as (L1 & L2 & L3).
  - rewrite TA2. fold (n X2). lia.
  - rewrite M2, TA1, EB. apply Z.lt_le_trans with (radix ^ Z.of_nat (i + j)); [rewrite radix_pow_add; nia|].
    apply radix_pow_le. fold (n X2). lia.
  - rewrite M2, TA1, EB, Z.add_0_l in L3. eexists. split; [reflexivity|]. split.
    { split; [|exact L1]. cbn [s]. case_if; [by left|]. destruct WA as [[-> | ->] _], WB as [[-> | ->] _]; auto. }
    unfold val, n at 2 3. cbn [s p]. rewrite L2, L3. fold (n X2). split; [|lia].
    case_if; [|ring]. apply orb_true_iff in E as [E|E]; to_prop.
    + assert (mag (p A) = 0) as -> by (apply sig_zero; [apply WA|exact E]). lia.
    + assert (mag (p B) = 0) as -> by (apply sig_zero; [apply WB|exact E]). lia.
Qed.

Lemma mul_int_ok X A b k : wf X -> wf A -> 0 <= b < radix -> (sig (p A) + 1 <= k)%nat -> Z.of_nat k <= MBEDTLS_MPI_MAX_LIMBS ->
  exists X', mbedtls_mpi_mul_int X A b = Ok X' /\ wf X' /\ val X' = val A * b /\ (n X <= n X' <= Nat.max (n X) k)%nat.
Proof.
  intros WX WA Hb Hk Hm. unfold mbedtls_mpi_mul_int. destruct (mag_take_sig A WA) as (TA1 & TA2 & TA3).
  set (i := significant (p A) (n A)) in *. change (sig (p A)) with i in TA2, Hk. pose proof (wf_mag A WA).
  destruct ((b =? 0) || (i =? 0)%nat) eqn:E.
  - destruct (lset_ok X 0 WX ltac:(lia)) as (X' & -> & W' & V' & S' & N'). eexists. split; [reflexivity|]. split; [exact W'|]. split; [|lia].
    rewrite V'. apply orb_true_iff in E as [E|E]; to_prop; [lia|].
    assert (E0 : mag (p A) = 0) by (apply sig_zero; [apply WA|exact E]). unfold val. rewrite E0. lia.
  - to_prop. destruct (grow_ok X (i + 1) WX ltac:(lia)) as (X1 & -> & W1 & _ & _ & N1). cbn [mbind result_bind].
    assert (S1 : sig1 A = i).
    { unfold sig1. case_if; to_prop; [|change (sig (p A)) with i; lia]. pose proof (sig_le (p A)). change (sig (p A)) with i in *. unfold n in *. lia. }
    assert (NA : n A <> 0%nat) by (intros E0; pose proof (sig_le (p A)) as Q; change (sig (p A)) with i in Q; unfold n in E0; lia).
    destruct (copy_ok X1 A W1 WA) as (X2 & -> & W2 & M2 & V2 & N2 & S2); [intros; lia|]. specialize (S2 NA). cbn [mbind result_bind].
    pose proof (sig_upper (p A) (wf_limbs _ WA)) as UA. change (sig (p A)) with i in UA.
    destruct (mul_hlp_ok (take i (p A)) (p X2) (b - 1) TA3 (wf_limbs _ W2)) as (L1 & L2 & L3).
    + lia.
    + rewrite TA2. fold (n X2). lia.
    + rewrite TA1, M2. apply Z.lt_le_trans with (radix ^ Z.of_nat (i + 1)); [|apply radix_pow_le; fold (n X2); lia].
      rewrite radix_pow_add. change (radix ^ Z.of_nat 1) with radix. nia.
    + rewrite TA1, M2 in L3. eexists. split; [reflexivity|]. split; [split; [apply W2|exact L1]|].
      unfold val, n at 2 3. cbn [s p]. rewrite S2, L3, L2. fold (n X2). split; [ring|lia].
Qed.

Lemma set_bit_ok X pos v : wf X -> 0 <= pos -> v = 0 \/ v = 1 -> Z.of_nat (Z.to_nat (pos / biL)) < MBEDTLS_MPI_MAX_LIMBS ->
  exists X', mbedtls_mpi_set_bit X pos v = Ok X' /\ wf X' /\ s X' = s X /\
    forall i, 0 <= i -> Z.testbit (mag (p X')) i = if i =? pos then (v =? 1) else Z.testbit (mag (p X)) i.
Proof.
  intros W Hp Hv Hm. unfold mbedtls_mpi_set_bit. set (off := Z.to_nat (pos / biL)) in *. set (idx := pos mod biL).
  assert (Hidx : 0 <= idx < biL) by (apply Z.mod_pos_bound; unfold biL; lia).
  assert (Eo : pos / biL = Z.of_nat off) by (unfold off; rewrite Z2Nat.id; [done|apply Z.div_pos; unfold biL; lia]).
  assert (Ep : pos = biL * Z.of_nat off + idx) by (rewrite <- Eo; apply Z.div_mod; unfold biL; lia).
  assert (Ev : negb (v =? 0) && negb (v =? 1) = false) by (by destruct Hv as [-> | ->]). rewrite Ev.
  assert (Hset : forall X1, wf X1 -> (off < n X1)%nat ->
    let l := <[off := Z.lor (Z.land (nth off (p X1) 0) (limb_not (Z.shiftl 1 idx))) (Z.shiftl v idx)]> (p X1) in
    limbs_ok l /\ forall i, 0 <= i -> Z.testbit (mag l) i = if i =? pos then (v =? 1) else Z.testbit (mag (p X1)) i).
  { intros X1 W1 Ho. pose proof (limbs_nth (p X1) off (wf_limbs _ W1)) as Hx. set (x := nth off (p X1) 0) in *.
    assert (B : forall i, 0 <= i < biL -> Z.testbit (Z.lor (Z.land x (limb_not (Z.shiftl 1 idx))) (Z.shiftl v idx)) i = if i =? idx then (v =? 1) else Z.testbit x i).
    { intros i Hi. rewrite Z.lor_spec, Z.land_spec. unfold limb_not, u64. rewrite Z.mod_pow2_bits_low by (unfold biL in *; lia).
      rewrite Z.lnot_spec, Z.shiftl_1_l, Z.shiftl_spec by lia. destruct (Z.eqb_spec i idx) as [->|Hne].
      - rewrite Z.pow2_bits_true by lia. rewrite Z.sub_diag, andb_false_r. by destruct Hv as [-> | ->].
      - rewrite Z.pow2_bits_false by lia. cbn [negb]. rewrite andb_true_r.
        replace (Z.testbit v (i - idx)) with false; [apply orb_false_r|]. destruct (Z.lt_ge_cases i idx); [symmetry; apply Z.testbit_neg_r; lia|].
        symmetry. apply (testbit_high 1); [destruct Hv as [-> | ->]; lia|lia]. }
    assert (Hy : limb (Z.lor (Z.land x (limb_not (Z.shiftl 1 idx))) (Z.shiftl v idx))).
    { change radix with (2 ^ 64). apply lor_range; [lia|rewrite Z.land_comm; apply land_range; [lia|apply u64_range|exact Hx]|]. rewrite Z.shiftl_mul_pow2 by lia.
      assert (2 ^ idx <= 2 ^ 63) by (apply Z.pow_le_mono_r; unfold biL in *; lia). assert (0 < 2 ^ idx) by (apply Z.pow_pos_nonneg; lia).
      destruct Hv as [-> | ->]; lia. }
    intros l. assert (Hl : limbs_ok l) by (apply limbs_insert; [apply W1|exact Hy]). split; [exact Hl|]. intros i Hi.
    rewrite !mag_testbit by (try done; apply W1). unfold l.
    assert (0 <= i / biL) by (apply Z.div_pos; unfold biL; lia). assert (Ri : 0 <= i mod biL < biL) by (apply Z.mod_pos_bound; unfold biL; lia).
    pose proof (Z.div_mod i biL ltac:(unfold biL; lia)) as Di. destruct (Nat.eq_dec (Z.to_nat (i / biL)) off) as [Eq|Ne].
    - rewrite Eq. rewrite nth_lookup, list_lookup_insert_eq by exact Ho. cbn [default from_option]. rewrite B by exact Ri. fold x.
      replace (i mod biL =? idx) with (i =? pos); [done|]. assert (i / biL = Z.of_nat off) by lia.
      destruct (Z.eqb_spec i pos), (Z.eqb_spec (i mod biL) idx); try done; exfalso; unfold biL in *; lia.
    - rewrite nth_lookup, list_lookup_insert_ne, <- nth_lookup by congruence. replace (i =? pos) with false; [done|]. symmetry. apply Z.eqb_neq. intros ->.
      apply Ne. by rewrite Eo, Nat2Z.id. }
  destruct (Z.leb_spec (Z.of_nat (n X) * biL) pos) as [Hn|Hn].
  - pose proof (wf_mag X W) as R. rewrite radix_pow_bits in R.
    assert (Z0 : Z.testbit (mag (p X)) pos = false) by (apply (testbit_high (biL * Z.of_nat (n X))); [exact R|unfold biL in *; lia]).
    destruct Hv as [-> | ->].
    + exists X. split; [done|]. split; [done|]. split; [done|]. intros i Hi. destruct (Z.eqb_spec i pos) as [->|]; done.
    + change (1 =? 0) with false. cbv iota. destruct (grow_ok X (S off) W ltac:(lia)) as (X1 & -> & W1 & S1 & M1 & N1). cbn [mbind result_bind].
      destruct (Hset X1 W1 ltac:(lia)) as [L1 L2]. eexists. split; [reflexivity|]. split; [split; [cbn [s]; apply W1|exact L1]|]. split; [exact S1|].
      cbn [p]. rewrite <- M1. exact L2.
  - destruct (Hset X W) as [L1 L2]; [unfold biL in *; lia|]. eexists. split; [reflexivity|]. split; [split; [apply W|exact L1]|]. split; [done|exact L2].
Qed.

(** ** Bytes *)

Lemma chars_to_limbs_spec m : (m <= CHARS_TO_LIMBS m * ciL < m + ciL)%nat.
Proof.
  unfold CHARS_TO_LIMBS. pose proof (Nat.div_mod m ciL ltac:(done)). pose proof (Nat.mod_upper_bound m ciL ltac:(done)). unfold ciL in *.
  destruct (Nat.eqb_spec (m mod 8) 0); lia.
Qed.

Lemma resize_clear_ok X k : Z.of_nat k <= MBEDTLS_MPI_MAX_LIMBS ->
  mbedtls_mpi_resize_clear X k = Ok (mkMpi 1 (repeat 0 k)).
Proof.
  intros Hk. unfold mbedtls_mpi_resize_clear. destruct (Nat.eqb_spec k 0) as [->|H0]; [done|]. destruct (Nat.eqb_spec (n X) k) as [E|]; [done|].
  unfold mbedtls_mpi_grow. rewrite (proj2 (Z.ltb_ge _ _)) by lia. unfold n. cbn [mbedtls_mpi_free mbedtls_mpi_init p s length].
  rewrite (proj2 (Nat.ltb_lt _ _)) by lia. by rewrite Nat.sub_0_r.
Qed.

Lemma GET_BYTE_ok X i : wf X -> GET_BYTE X i = mag (p X) / 256 ^ Z.of_nat i mod 256.
Proof. intros [_ H]. by apply limb_byte. Qed.

Lemma GET_BYTES X k : wf X -> map (GET_BYTE X) (seq 0 k) = le_bytes k (mag (p X)).
Proof. intros W. rewrite le_bytes_map. apply map_ext. intros i. by apply GET_BYTE_ok. Qed.

Lemma high_bytes_ok X k : wf X -> (k <= n X * ciL)%nat -> high_bytes_set X k = negb (mag (p X) <? 256 ^ Z.of_nat k).
Proof.
  intros W Hk. pose proof (wf_mag X W) as R. rewrite radix_pow_256 in R. set (m := mag (p X)) in *. unfold high_bytes_set.
  assert (P : forall j, 0 < 256 ^ Z.of_nat j) by (intros; apply Z.pow_pos_nonneg; lia).
  destruct (Z.ltb_spec m (256 ^ Z.of_nat k)) as [H|H]; cbn [negb].
  - apply not_true_iff_false. intros (i & Hi & Hb)%existsb_exists. apply in_seq in Hi. rewrite GET_BYTE_ok in Hb by done. fold m in Hb.
    rewrite Z.div_small in Hb; [discriminate|]. pose proof (Z.pow_le_mono_r 256 (Z.of_nat k) (Z.of_nat i) ltac:(lia) ltac:(lia)). lia.
  - apply existsb_exists. remember (n X * ciL - k)%nat as d eqn:Ed. 
    assert (Hm : 256 ^ Z.of_nat k <= m < 256 ^ Z.of_nat (k + d)) by (replace (k + d)%nat with (n X * ciL)%nat by lia; lia). clear - Hm P W m.
    induction d as [|d IH]; [rewrite Nat.add_0_r in Hm; lia|].
    destruct (Z.lt_ge_cases m (256 ^ Z.of_nat (k + d))) as [Hlt|Hge].
    + destruct IH as (i & Hi & Hb); [lia|]. exists i. rewrite in_seq in *. split; [lia|exact Hb].
    + exists (k + d)%nat. rewrite in_seq. split; [lia|]. rewrite GET_BYTE_ok by done. fold m. apply negb_true_iff, Z.eqb_neq.
      rewrite Nat.add_succ_r, Nat2Z.inj_succ, Z.pow_succ_r in Hm by lia. pose proof (P (k + d)%nat).
      rewrite Z.mod_small; [intros E; apply Z.div_small_iff in E; lia|]. split; [apply Z.div_pos; lia|apply Z.div_lt_upper_bound; lia].
Qed.

Lemma le_bytes_pad k j z : 0 <= z < 256 ^ Z.of_nat k -> le_bytes (k + j) z = le_bytes k z ++ repeat 0 j.
Proof.
  revert z. induction k as [|k IH]; intros z Hz.
  - assert (z = 0) as -> by (cbn in Hz; lia). cbn [app Nat.add le_bytes]. induction j as [|j IHj]; [done|]. cbn [le_bytes repeat].
    change (0 mod 256) with 0. change (0 / 256) with 0. by rewrite IHj.
  - cbn [Nat.add le_bytes app]. rewrite IH; [done|]. rewrite Nat2Z.inj_succ, Z.pow_succ_r in Hz by lia.
    split; [apply Z.div_pos; lia|apply Z.div_lt_upper_bound; lia].
Qed.

Lemma write_binary_le_ok X buflen : wf X ->
  mbedtls_mpi_write_binary_le X buflen =
    if mag (p X) <? 256 ^ Z.of_nat buflen then Ok (le_bytes buflen (mag (p X))) else Err MBEDTLS_ERR_MPI_BUFFER_TOO_SMALL.
Proof.
  intros W. pose proof (wf_mag X W) as R. rewrite radix_pow_256 in R. unfold mbedtls_mpi_write_binary_le. destruct (Nat.ltb_spec (n X * ciL) buflen).
  - rewrite GET_BYTES by done. rewrite (proj2 (Z.ltb_lt _ _)).
    2:{ pose proof (Z.pow_le_mono_r 256 (Z.of_nat (n X * ciL)) (Z.of_nat buflen) ltac:(lia) ltac:(lia)). lia. }
    f_equal. rewrite <- le_bytes_pad by exact R. f_equal. lia.
  - rewrite high_bytes_ok by done. rewrite GET_BYTES by done. by destruct (_ <? _).
Qed.

Lemma write_binary_ok X buflen : wf X ->
  mbedtls_mpi_write_binary X buflen =
    if mag (p X) <? 256 ^ Z.of_nat buflen then Ok (be_bytes buflen (mag (p X))) else Err MBEDTLS_ERR_MPI_BUFFER_TOO_SMALL.
Proof.
  intros W. pose proof (write_binary_le_ok X buflen W) as E. unfold mbedtls_mpi_write_binary, mbedtls_mpi_write_binary_le in *.
  unfold be_bytes. destruct (Nat.ltb_spec (n X * ciL) buflen).
  - destruct (_ <? _); [|discriminate]. injection E as E. rewrite <- E. rewrite rev_app_distr. do 2 f_equal. generalize (buflen - n X * ciL)%nat. intros j.
    clear. induction j as [|j IH]; [done|]. cbn [repeat rev]. rewrite <- IH. symmetry. clear. induction j as [|j IH]; [done|]. cbn. by rewrite IH.
  - destruct (high_bytes_set X buflen); destruct (_ <? _); try discriminate; [done|]. injection E as E. by rewrite E.
Qed.

Lemma limbs_of_memory_ok k : forall memory, bytes_ok memory -> length memory = (k * ciL)%nat ->
  limbs_ok (limbs_of_memory k memory) /\ length (limbs_of_memory k memory) = k.
Proof.
  induction k as [|k IH]; intros m Hm El; cbn [limbs_of_memory]; [split; [constructor|done]|].
  destruct (IH (drop ciL m)) as [I1 I2]; [by apply Forall_drop|rewrite length_drop; lia|]. split; [|cbn [length]; lia]. constructor; [|exact I1].
  pose proof (le_val_range (take ciL m) ltac:(by apply Forall_take)) as H. rewrite length_take, Nat.min_l in H by lia. exact H.
Qed.

Lemma swap_limbs k : forall memory, bytes_ok memory -> length memory = (k * ciL)%nat ->
  limbs_ok (mpi_bigendian_to_host (limbs_of_memory k memory)) /\ length (mpi_bigendian_to_host (limbs_of_memory k memory)) = k /\
  mag (mpi_bigendian_to_host (limbs_of_memory k memory)) = be_val memory.
Proof.
  induction k as [|k IH]; intros m Hm El.
  - destruct m; [|discriminate]. split; [constructor|done].
  - destruct (IH (drop ciL m)) as (I1 & I2 & I3); [by apply Forall_drop|rewrite length_drop; lia|].
    assert (Lt : length (take ciL m) = ciL) by (rewrite length_take; lia). assert (Bt : bytes_ok (take ciL m)) by (by apply Forall_take).
    assert (Ex : mpi_uint_bigendian_to_host (le_val (take ciL m)) = be_val (take ciL m)).
    { unfold mpi_uint_bigendian_to_host. rewrite <- Lt at 1. by rewrite le_bytes_val. }
    unfold mpi_bigendian_to_host in *. cbn [limbs_of_memory map rev]. rewrite Ex. pose proof (be_val_range _ Bt) as R. rewrite Lt in R.
    split; [apply limbs_app; split; [exact I1|]; constructor; [exact R|constructor]|]. split; [rewrite length_app, I2; cbn [length]; lia|].
    rewrite mag_app, I2, I3. cbn [mag]. rewrite <- (take_drop ciL m) at 3. rewrite be_val_app, length_drop, radix_pow_256.
    replace (length m - ciL)%nat with (k * ciL)%nat by lia. ring.
Qed.

Lemma be_val_zeros k buf : be_val (repeat 0 k ++ buf) = be_val buf.
Proof. rewrite be_val_app. replace (be_val (repeat 0 k)) with 0; [lia|]. induction k as [|k IH]; [done|]. cbn [repeat]. rewrite be_val_cons, <- IH. lia. Qed.

Lemma read_binary_ok X buf : bytes_ok buf -> Z.of_nat (CHARS_TO_LIMBS (length buf)) <= MBEDTLS_MPI_MAX_LIMBS ->
  exists X', mbedtls_mpi_read_binary X buf = Ok X' /\ wf X' /\ val X' = be_val buf /\ n X' = CHARS_TO_LIMBS (length buf).
Proof.
  intros Hb Hk. unfold mbedtls_mpi_read_binary. rewrite resize_clear_ok by exact Hk. cbn [mbind result_bind s].
  pose proof (chars_to_limbs_spec (length buf)) as C. destruct (Nat.eqb_spec (length buf) 0) as [E|E]; cbn [negb].
  - destruct buf; [|discriminate]. eexists. split; [reflexivity|]. split; [split; [by left|constructor]|done].
  - destruct (swap_limbs (CHARS_TO_LIMBS (length buf)) (repeat 0 (CHARS_TO_LIMBS (length buf) * ciL - length buf) ++ buf)) as (S1 & S2 & S3).
    + apply bytes_ok_app. split; [|exact Hb]. apply Forall_forall. intros x Hx%list_elem_of_In%repeat_spec. subst. unfold is_byte. lia.
    + rewrite length_app, repeat_length. lia.
    + eexists. split; [reflexivity|]. split; [split; [by left|exact S1]|]. unfold val, n. cbn [s p]. rewrite S3, be_val_zeros. split; [lia|exact S2].
Qed.

Lemma read_binary_le_ok X buf : bytes_ok buf -> Z.of_nat (CHARS_TO_LIMBS (length buf)) <= MBEDTLS_MPI_MAX_LIMBS ->
  exists X', mbedtls_mpi_read_binary_le X buf = Ok X' /\ wf X' /\ val X' = le_val buf /\ n X' = CHARS_TO_LIMBS (length buf).
Proof.
  intros Hb Hk. unfold mbedtls_mpi_read_binary_le. rewrite resize_clear_ok by exact Hk. cbn [mbind result_bind s p].
  pose proof (chars_to_limbs_spec (length buf)) as C. set (limbs := CHARS_TO_LIMBS (length buf)) in *.
  set (f := fun l i => _).
  assert (G : forall m, (m <= length buf)%nat -> let l := fold_left f (seq 0 m) (repeat 0 limbs) in
    limbs_ok l /\ length l = limbs /\ mag l = le_val (take m buf)).
  { induction m as [|m IH]; intros Hm l.
    - split; [apply limbs_zeros|]. split; [apply repeat_length|]. unfold l. cbn [seq fold_left]. by rewrite mag_zeros, take_0.
    - destruct (IH ltac:(lia)) as (I1 & I2 & I3). unfold l. rewrite seq_S, fold_left_app. cbn [fold_left Nat.add]. set (l0 := fold_left f (seq 0 m) (repeat 0 limbs)) in *.
      assert (Hy : is_byte (nth m buf 0)) by (by apply nth_byte). pose proof (le_val_range (take m buf) ltac:(by apply Forall_take)) as R. rewrite length_take, Nat.min_l in R by lia.
      assert (E256 : 2 ^ (8 * Z.of_nat m) = 256 ^ Z.of_nat m) by (by rewrite Z.pow_mul_r by lia).
      destruct (place_digit 8 ciL m (nth m buf 0) l0) as (_ & P1 & P2 & P3); try done; [|rewrite I3, E256; lia|].
      { rewrite I2. apply Nat.Div0.div_lt_upper_bound. lia. }
      unfold f. rewrite (Z.mul_comm (Z.of_nat (m mod ciL))). split; [exact P1|]. split; [lia|]. rewrite P3, I3, (take_nth buf m), le_val_app, length_take, Nat.min_l by lia. cbn [le_val].
      rewrite E256. ring. }
  destruct (G (length buf) ltac:(lia)) as (G1 & G2 & G3). rewrite firstn_all in G3. eexists. split; [reflexivity|].
  split; [split; [by left|exact G1]|]. unfold val, n. cbn [s p]. rewrite G3. split; [lia|exact G2].
Qed.

(** ** The operations are those of the integers *)

Lemma sum_fits A B : wf A -> wf B -> Z.abs (val A) + Z.abs (val B) < radix ^ Z.of_nat (n A + n B + 1).
Proof.
  intros WA WB. rewrite !val_abs by done. pose proof (wf_mag A WA). pose proof (wf_mag B WB).
  rewrite !radix_pow_add. change (radix ^ Z.of_nat 1) with radix. pose proof (radix_pow_pos (n A)). pose proof (radix_pow_pos (n B)). assert (2 <= radix) by (unfold radix; lia).
  set (a := radix ^ Z.of_nat (n A)) in *. set (b := radix ^ Z.of_nat (n B)) in *. assert (a + b <= 2 * (a * b)) by nia. nia.
Qed.

(** C15. Addition, subtraction, multiplication and comparison of numbers of any
    sign and length are those of the integers, whatever the destination held, and
    the destination is a well-formed number of at most the limbs that both have
    together and one. *)
Theorem mpi_arithmetic_correct X A B : wf X -> wf A -> wf B -> Z.of_nat (n A + n B + 1) <= MBEDTLS_MPI_MAX_LIMBS ->
  let stored r v := exists X', r = Ok X' /\ wf X' /\ val X' = v /\ (n X <= n X' <= Nat.max (n X) (n A + n B + 1))%nat in
  stored (mbedtls_mpi_add_mpi X A B) (val A + val B) /\
  stored (mbedtls_mpi_sub_mpi X A B) (val A - val B) /\
  stored (mbedtls_mpi_mul_mpi X A B) (val A * val B) /\
  mbedtls_mpi_cmp_mpi A B = Z.sgn (val A - val B).
Proof.
  intros WX WA WB Hm stored. pose proof (sum_fits A B WA WB) as Hs. pose proof (sig_le (p A)). pose proof (sig_le (p B)).
  split; [apply add_mpi_ok; (done || lia)|]. split; [apply sub_mpi_ok; (done || lia)|].
  split; [apply mul_mpi_ok; (done || (unfold n in *; lia))|]. by apply cmp_mpi_ok.
Qed.

Lemma mpi_arithmetic_correct_witness :
  exists X, mbedtls_mpi_mul_mpi mbedtls_mpi_init (mkMpi (-1) [5; 2 ^ 63]) (mkMpi 1 [2 ^ 64 - 1]) = Ok X /\ val X = - (5 + 2 ^ 127) * (2 ^ 64 - 1).
Proof.
  assert (WA : wf (mkMpi (-1) [5; 2 ^ 63])) by (split; [by right|limbs_literal]). assert (WB : wf (mkMpi 1 [2 ^ 64 - 1])) by (split; [by left|limbs_literal]).
  destruct (mpi_arithmetic_correct mbedtls_mpi_init _ _ wf_init WA WB) as (_ & _ & (X & E & _ & V & _) & _); [vm_compute; discriminate|].
  exists X. split; [exact E|]. rewrite V. reflexivity.
Defined.

Lemma mag_of_bytes_be buf : bytes_ok buf -> be_bytes (length buf) (be_val buf) = buf.
Proof. intros H. by apply be_bytes_val. Qed.

(** A buffer read as a number and written to a buffer of its length is the
    same buffer, in both byte orders, and a number written to a buffer that has
    room for it and read back keeps its absolute value; a buffer that is too small
    is refused. *)
Theorem binary_roundtrip X Y buf buflen : wf X -> bytes_ok buf -> Z.of_nat (CHARS_TO_LIMBS (length buf)) <= MBEDTLS_MPI_MAX_LIMBS -> Z.of_nat (CHARS_TO_LIMBS buflen) <= MBEDTLS_MPI_MAX_LIMBS ->
  (exists Z, mbedtls_mpi_read_binary Y buf = Ok Z /\ mbedtls_mpi_write_binary Z (length buf) = Ok buf) /\
  (exists Z, mbedtls_mpi_read_binary_le Y buf = Ok Z /\ mbedtls_mpi_write_binary_le Z (length buf) = Ok buf) /\
  (if Z.abs (val X) <? 256 ^ Z.of_nat buflen then
     (exists out Z, mbedtls_mpi_write_binary X buflen = Ok out /\ mbedtls_mpi_read_binary Y out = Ok Z /\ val Z = Z.abs (val X)) /\
     (exists out Z, mbedtls_mpi_write_binary_le X buflen = Ok out /\ mbedtls_mpi_read_binary_le Y out = Ok Z /\ val Z = Z.abs (val X))
   else mbedtls_mpi_write_binary X buflen = Err MBEDTLS_ERR_MPI_BUFFER_TOO_SMALL /\ mbedtls_mpi_write_binary_le X buflen = Err MBEDTLS_ERR_MPI_BUFFER_TOO_SMALL).
Proof.
  intros WX Hb Hk Hl. split; [|split].
  - destruct (read_binary_ok Y buf Hb Hk) as (Z & E & W & V & _). exists Z. split; [exact E|]. pose proof (be_val_range buf Hb) as R.
    rewrite write_binary_ok, val_nonneg, V by (done || lia). rewrite (proj2 (Z.ltb_lt _ _)) by lia. by rewrite be_bytes_val.
  - destruct (read_binary_le_ok Y buf Hb Hk) as (Z & E & W & V & _). exists Z. split; [exact E|]. pose proof (le_val_range buf Hb) as R.
    rewrite write_binary_le_ok, val_nonneg, V by (done || lia). rewrite (proj2 (Z.ltb_lt _ _)) by lia. by rewrite le_bytes_val.
  - rewrite val_abs by done. rewrite write_binary_ok, write_binary_le_ok by done. pose proof (wf_mag X WX) as R. destruct (Z.ltb_spec (mag (p X)) (256 ^ Z.of_nat buflen)) as [H|H]; [|done]. split.
    + destruct (read_binary_ok Y (be_bytes buflen (mag (p X)))) as (Z & E & W & V & _); [apply be_bytes_ok|by rewrite be_bytes_length|]. eexists _, Z. split; [done|]. split; [exact E|].
      rewrite V. apply be_val_bytes. lia.
    + destruct (read_binary_le_ok Y (le_bytes buflen (mag (p X)))) as (Z & E & W & V & _); [apply le_bytes_ok|by rewrite le_bytes_length|]. eexists _, Z. split; [done|]. split; [exact E|].
      rewrite V, le_val_bytes. apply Z.mod_small. lia.
Qed.

Lemma binary_roundtrip_witness : exists Z, mbedtls_mpi_read_binary mbedtls_mpi_init [1; 2; 3; 4; 5; 6; 7; 8; 9] = Ok Z /\ mbedtls_mpi_write_binary Z 9 = Ok [1; 2; 3; 4; 5; 6; 7; 8; 9].
Proof.
  apply (binary_roundtrip mbedtls_mpi_init mbedtls_mpi_init [1; 2; 3; 4; 5; 6; 7; 8; 9] 0); [exact wf_init|repeat constructor; unfold is_byte; lia|vm_compute; discriminate|vm_compute; discriminate].
Defined.

End Bignum.
