(* ===== verification/BignumDiv.v ===== *)
(** Division of multi-precision integers (mbedtls/library/bignum.c): the long
    division of [mbedtls_mpi_div_mpi] and the modulo functions.  The estimate of
    one digit of the quotient is studied on numbers; the loops then follow the
    estimate. *)
From S2P Require Import Prelude Words Limbs Bignum.
From stdpp Require Import list.
#[local] Open Scope Z_scope.

Module Division.
Import Bignum.

(** [ret] before it is set; stands for a loop that runs out of fuel. *)
Definition MBEDTLS_ERR_ERROR_CORRUPTION_DETECTED : Z := -0x006E.

Definition limb_max : Z := u64 (Z.lnot 0).

(** ** Operations *)

(** The branch of the double-width integers; the quotient and the remainder. *)
Definition mbedtls_int_div_int (u1 u0 d : Z) : Z * Z :=
  if (d =? 0) || (d <=? u1) then (limb_max, limb_max)
  else
    let dividend := Z.lor (Z.shiftl u1 biL) u0 in
    let quotient := dividend / d in
    let quotient := if Z.shiftl 1 biL - 1 <? quotient then Z.shiftl 1 biL - 1 else quotient in
    (u64 quotient, u64 (dividend - quotient * d)).

(** [Z.p[k]++] *)
Definition limb_incr (k : nat) (z : list Z) : list Z := <[k := u64 (nth k z 0 + 1)]> z.
Definition limb_decr (k : nat) (z : list Z) : list Z := <[k := u64 (nth k z 0 - 1)]> z.

(** [while (mbedtls_mpi_cmp_mpi(&X, &Y) >= 0)] *)
Fixpoint div_top (k : nat) (X Y : mpi) (z : list Z) (fuel : nat) : result (mpi * list Z) :=
  match fuel with
  | O => Err MBEDTLS_ERR_ERROR_CORRUPTION_DETECTED
  | S fuel =>
      if 0 <=? mbedtls_mpi_cmp_mpi X Y then X' ← mbedtls_mpi_sub_mpi X X Y; div_top k X' Y (limb_incr k z) fuel
      else Ok (X, z)
  end.

(** [do { Z.p[i - t - 1]--; ... } while (mbedtls_mpi_cmp_mpi(&T1, &T2) > 0)] *)
Fixpoint div_adjust (k : nat) (y0 y1 : Z) (T2 T1 : mpi) (z : list Z) (fuel : nat) : result (mpi * list Z) :=
  match fuel with
  | O => Err MBEDTLS_ERR_ERROR_CORRUPTION_DETECTED
  | S fuel =>
      let z := limb_decr k z in
      T1 ← mbedtls_mpi_lset T1 0;
      let T1 := mkMpi (s T1) (<[1%nat := y1]> (<[0%nat := y0]> (p T1))) in
      T1 ← mbedtls_mpi_mul_int T1 T1 (nth k z 0);
      if 0 <? mbedtls_mpi_cmp_mpi T1 T2 then div_adjust k y0 y1 T2 T1 z fuel else Ok (T1, z)
  end.

(** One turn of the loop over the limbs, with [i = t + k + 1]. *)
Definition div_digit (k t : nat) (X Y T1 : mpi) (z : list Z) : result (mpi * mpi * list Z) :=
  let i := (t + k + 1)%nat in
  let x j := nth j (p X) 0 in
  let y j := nth j (p Y) 0 in
  let q := if y t <=? x i then limb_max else fst (mbedtls_int_div_int (x i) (x (i - 1)%nat) (y t)) in
  let z := <[k := q]> z in
  let T2 := mkMpi 1 [if (i <? 2)%nat then 0 else x (i - 2)%nat; if (i <? 1)%nat then 0 else x (i - 1)%nat; x i] in
  let z := limb_incr k z in
  '(T1, z) ← div_adjust k (if (t <? 1)%nat then 0 else y (t - 1)%nat) (y t) T2 T1 z 8;
  T1 ← mbedtls_mpi_mul_int T1 Y (nth k z 0);
  T1 ← mbedtls_mpi_shift_l T1 (biL * Z.of_nat k);
  X ← mbedtls_mpi_sub_mpi X X T1;
  if mbedtls_mpi_cmp_int X 0 <? 0 then
    T1 ← mbedtls_mpi_copy T1 Y;
    T1 ← mbedtls_mpi_shift_l T1 (biL * Z.of_nat k);
    X ← mbedtls_mpi_add_mpi X X T1;
    Ok (X, T1, limb_decr k z)
  else Ok (X, T1, z).

Fixpoint div_digits (k t : nat) (X Y T1 : mpi) (z : list Z) : result (mpi * list Z) :=
  match k with
  | O => Ok (X, z)
  | S k => '(X, T1, z) ← div_digit k t X Y T1 z; div_digits k t X Y T1 z
  end.

(** The two shifts that put the top bit of [Y] just below the top of a limb. *)
Definition div_normalize (X Y : mpi) : result (mpi * mpi * Z) :=
  let k := mbedtls_mpi_bitlen Y mod biL in
  if k <? biL - 1 then
    let k := biL - 1 - k in
    X ← mbedtls_mpi_shift_l X k;
    Y ← mbedtls_mpi_shift_l Y k;
    Ok (X, Y, k)
  else Ok (X, Y, 0).

(** The loops on the shifted numbers: the remainder and the limbs of the
    quotient. *)
Definition div_long (X Y T1 : mpi) (z : list Z) : result (mpi * list Z) :=
  let n' := (n X - 1)%nat in
  let t := (n Y - 1)%nat in
  Y ← mbedtls_mpi_shift_l Y (biL * Z.of_nat (n' - t));
  '(X, z) ← div_top (n' - t) X Y z 8;
  Y ← mbedtls_mpi_shift_r Y (biL * Z.of_nat (n' - t));
  div_digits (n' - t) t X Y T1 z.

(** The division proper: the quotient, the remainder as it is shifted, and the
    shift. *)
Definition div_core (A B : mpi) : result (mpi * mpi * Z) :=
  X ← mbedtls_mpi_copy mbedtls_mpi_init A;
  Y ← mbedtls_mpi_copy mbedtls_mpi_init B;
  let X := set_s 1 X in
  let Y := set_s 1 Y in
  Zq ← mbedtls_mpi_grow mbedtls_mpi_init (n A + 2);
  Zq ← mbedtls_mpi_lset Zq 0;
  T1 ← mbedtls_mpi_grow mbedtls_mpi_init (n A + 2);
  '(X, Y, k) ← div_normalize X Y;
  '(X, z) ← div_long X Y T1 (p Zq);
  Ok (mkMpi (s Zq) z, X, k).

(** A result the caller asks for, [None] being the null pointer. *)
Definition if_wanted (D : option mpi) (f : mpi -> result mpi) : result (option mpi) :=
  match D with Some D => D ← f D; Ok (Some D) | None => Ok None end.

Definition mbedtls_mpi_div_mpi (Q R : option mpi) (A B : mpi) : result (option mpi * option mpi) :=
  if mbedtls_mpi_cmp_int B 0 =? 0 then Err MBEDTLS_ERR_MPI_DIVISION_BY_ZERO
  else if mbedtls_mpi_cmp_abs A B <? 0 then
    Q ← if_wanted Q (fun Q => mbedtls_mpi_lset Q 0);
    R ← if_wanted R (fun R => mbedtls_mpi_copy R A);
    Ok (Q, R)
  else
    '(Zq, X, k) ← div_core A B;
    Q ← if_wanted Q (fun Q => Q ← mbedtls_mpi_copy Q Zq; Ok (set_s (s A * s B) Q));
    R ← if_wanted R (fun R =>
          X ← mbedtls_mpi_shift_r X k;
          R ← mbedtls_mpi_copy R (set_s (s A) X);
          Ok (if mbedtls_mpi_cmp_int R 0 =? 0 then set_s 1 R else R));
    Ok (Q, R).

Definition mbedtls_mpi_div_int (Q R : option mpi) (A : mpi) (b : Z) : result (option mpi * option mpi) :=
  mbedtls_mpi_div_mpi Q R A (mpi_of_int b).

(** The two loops at the end of [mbedtls_mpi_mod_mpi]. *)
Fixpoint mod_up (R B : mpi) (fuel : nat) : result mpi :=
  match fuel with
  | O => Err MBEDTLS_ERR_ERROR_CORRUPTION_DETECTED
  | S fuel => if mbedtls_mpi_cmp_int R 0 <? 0 then R ← mbedtls_mpi_add_mpi R R B; mod_up R B fuel else Ok R
  end.

Fixpoint mod_down (R B : mpi) (fuel : nat) : result mpi :=
  match fuel with
  | O => Err MBEDTLS_ERR_ERROR_CORRUPTION_DETECTED
  | S fuel => if 0 <=? mbedtls_mpi_cmp_mpi R B then R ← mbedtls_mpi_sub_mpi R R B; mod_down R B fuel else Ok R
  end.

Definition mbedtls_mpi_mod_mpi (R A B : mpi) : result mpi :=
  if mbedtls_mpi_cmp_int B 0 <? 0 then Err MBEDTLS_ERR_MPI_NEGATIVE_VALUE
  else
    '(_, R') ← mbedtls_mpi_div_mpi None (Some R) A B;
    R ← mod_up (default R R') B 2;
    mod_down R B 2.

(** One turn of the loop of [mbedtls_mpi_mod_int]; [b] is converted to a limb. *)
Definition mod_int_step (b x y : Z) : Z :=
  let half y x :=
    let y := Z.lor (u64 (Z.shiftl y 32)) (Z.shiftr x 32) in
    let z := y / b in
    u64 (y - u64 (z * b)) in
  half (half y x) (u64 (Z.shiftl x 32)).

Definition mbedtls_mpi_mod_int (A : mpi) (b : Z) : result Z :=
  if b =? 0 then Err MBEDTLS_ERR_MPI_DIVISION_BY_ZERO
  else if b <? 0 then Err MBEDTLS_ERR_MPI_NEGATIVE_VALUE
  else if (b =? 1) || (n A =? 0)%nat then Ok 0
  else if b =? 2 then Ok (Z.land (nth 0 (p A) 0) 1)
  else
    let y := foldr (mod_int_step b) 0 (p A) in
    Ok (if (s A <? 0) && negb (y =? 0) then u64 (b - y) else y).

(** ** One digit of the quotient *)

Section Estimate.
Context (t e : nat) (X Y yt V D W : Z).
Let i := (t + e + 1)%nat.
Hypothesis HX : 0 <= X < Y * radix ^ Z.of_nat (e + 1).
Hypothesis Hyt : yt * radix ^ Z.of_nat t <= Y < (yt + 1) * radix ^ Z.of_nat t.
Hypothesis HD : D * radix ^ Z.of_nat t <= Y * radix < (D + 1) * radix ^ Z.of_nat t.
Hypothesis HV : V * radix ^ Z.of_nat i <= X * radix < (V + 1) * radix ^ Z.of_nat i.
Hypothesis HW : W * radix ^ Z.of_nat i <= X * radix ^ 2 < (W + 1) * radix ^ Z.of_nat i.
Hypothesis Hn : 2 ^ 62 <= yt.

Let q := X / (Y * radix ^ Z.of_nat e).

Lemma estimate_pow : radix ^ Z.of_nat i = radix ^ Z.of_nat t * radix ^ Z.of_nat (e + 1).
Proof. unfold i. rewrite <- radix_pow_add. do 2 f_equal. lia. Qed.

Lemma estimate_pow_1 : radix ^ Z.of_nat (e + 1) = radix ^ Z.of_nat e * radix.
Proof. rewrite radix_pow_add. by change (radix ^ Z.of_nat 1) with radix. Qed.

Lemma estimate_Y : 0 < Y * radix ^ Z.of_nat e.
Proof. pose proof (radix_pow_pos t). pose proof (radix_pow_pos e). assert (0 < Y) by nia. nia. Qed.

Lemma digit_range : 0 <= q < radix.
Proof.
  pose proof estimate_Y. unfold q. split; [apply Z.div_pos; lia|]. apply Z.div_lt_upper_bound; [lia|].
  rewrite estimate_pow_1 in HX. lia.
Qed.

Lemma digit_mul : q * (Y * radix ^ Z.of_nat e) <= X.
Proof. unfold q. rewrite Z.mul_comm. apply Z.mul_div_le, estimate_Y. Qed.

(** A lower bound of a product from a lower bound of a factor, below the power. *)
Lemma digit_below a U c j : 0 <= c -> a * radix ^ Z.of_nat t <= Y * radix ^ j -> X * radix ^ (j + 1) < (U + 1) * radix ^ Z.of_nat i ->
  0 <= j -> c * (Y * radix ^ Z.of_nat e) <= X -> c * a <= U.
Proof.
  intros Hc Ha HU Hj Hq. rewrite estimate_pow, estimate_pow_1 in HU. rewrite Z.pow_add_r in HU by lia. change (radix ^ 1) with radix in HU.
  pose proof (radix_pow_pos t) as Pt. pose proof (radix_pow_pos e) as Pe. pose proof radix_pos as P. assert (Pj : 0 < radix ^ j) by (apply Z.pow_pos_nonneg; lia).
  set (rt := radix ^ Z.of_nat t) in *. set (re := radix ^ Z.of_nat e) in *. set (rj := radix ^ j) in *.
  assert (H1 : c * a * rt * re <= c * (Y * re) * rj) by (pose proof (Z.mul_le_mono_nonneg_l _ _ (c * re) ltac:(nia) Ha); lia).
  assert (H2 : c * (Y * re) * rj <= X * rj) by (apply Z.mul_le_mono_nonneg_r; lia).
  assert (H3 : (c * a) * (rt * re * radix) < (U + 1) * (rt * re * radix)) by (pose proof (Z.mul_le_mono_nonneg_r _ _ radix ltac:(lia) (Z.le_trans _ _ _ H1 H2)); lia).
  apply Z.mul_lt_mono_pos_r in H3; [lia|nia].
Qed.

Lemma digit_le_V : q * yt <= V.
Proof.
  apply (digit_below yt V q 0); [apply digit_range|rewrite Z.pow_0_r; lia|change (0 + 1) with 1; rewrite Z.pow_1_r; lia|lia|apply digit_mul].
Qed.

Lemma digit_le_W : q * D <= W.
Proof.
  apply (digit_below D W q 1); [apply digit_range|rewrite Z.pow_1_r; lia|exact (proj2 HW)|lia|apply digit_mul].
Qed.

Lemma D_large : radix * radix <= 4 * D.
Proof.
  pose proof (radix_pow_pos t) as Pt. set (rt := radix ^ Z.of_nat t) in *.
  assert (H : (yt * radix) * rt < (D + 1) * rt) by (pose proof radix_pos; nia). apply Z.mul_lt_mono_pos_r in H; [|done]. unfold radix in *. lia.
Qed.

Lemma yt_D : yt * radix <= D.
Proof.
  pose proof (radix_pow_pos t) as Pt. set (rt := radix ^ Z.of_nat t) in *.
  assert (H : (yt * radix) * rt < (D + 1) * rt) by (pose proof radix_pos; nia). apply Z.mul_lt_mono_pos_r in H; [|done]. lia.
Qed.

Lemma D_yt : D < (yt + 1) * radix.
Proof.
  pose proof (radix_pow_pos t) as Pt. set (rt := radix ^ Z.of_nat t) in *.
  assert (H : D * rt < ((yt + 1) * radix) * rt) by (pose proof radix_pos; nia). apply Z.mul_lt_mono_pos_r in H; [|done]. lia.
Qed.

(** The first guess is at most four too large. *)
Lemma guess_close g : 0 <= g < radix -> g * yt <= V -> g * D <= W + 4 * D.
Proof.
  intros Hg H. pose proof D_large as HDl. pose proof D_yt as HDy. pose proof radix_pos as P. pose proof (radix_pow_pos i) as Pi.
  assert (Hv : (V * radix) * radix ^ Z.of_nat i < (W + 1) * radix ^ Z.of_nat i) by (change (radix ^ 2) with (radix * radix) in HW; nia).
  apply Z.mul_lt_mono_pos_r in Hv; [|done].
  assert (g * D <= g * yt * radix + g * radix) by nia. nia.
Qed.

(** The guess that passes the test is at most one too large. *)
Lemma guess_final g : 0 <= g < radix -> g * D <= W -> g * (Y * radix ^ Z.of_nat e) < X + Y * radix ^ Z.of_nat e.
Proof.
  intros Hg H. pose proof D_large as HDl. pose proof radix_pos as P. pose proof (radix_pow_pos t) as Pt. pose proof (radix_pow_pos e) as Pe.
  rewrite estimate_pow, estimate_pow_1 in HW. change (radix ^ 2) with (radix * radix) in HW.
  set (rt := radix ^ Z.of_nat t) in *. set (re := radix ^ Z.of_nat e) in *.
  assert (K : 0 < radix * radix) by nia. apply (Z.mul_lt_mono_pos_r (radix * radix)); [exact K|].
  assert (A1 : g * (Y * radix) <= g * ((D + 1) * rt)) by nia.
  assert (A2 : g * (Y * radix) * (re * radix) <= (g * D + g) * rt * (re * radix)) by nia.
  assert (A3 : (g * D) * (rt * (re * radix)) <= X * (radix * radix)) by nia.
  assert (A4 : g * (rt * (re * radix)) < radix * (rt * (re * radix))) by nia.
  assert (A5 : radix * rt <= D * rt) by (unfold radix in *; nia).
  assert (A6 : radix * (rt * (re * radix)) <= Y * radix * (re * radix)) by nia.
  nia.
Qed.
End Estimate.

(** The top limbs of a number, the limbs below the first being zeros. *)
Definition low_limb (l : list Z) (i k : nat) : Z := if (i <? k)%nat then 0 else nth (i - k) l 0.

Lemma low_limb_ok l i k : limbs_ok l -> limb (low_limb l i k).
Proof. intros H. unfold low_limb. case_if; [unfold radix; lia|by apply limbs_nth]. Qed.

Lemma top_limb l i : limbs_ok l -> mag l < radix ^ Z.of_nat (S i) ->
  nth i l 0 * radix ^ Z.of_nat i <= mag l < (nth i l 0 + 1) * radix ^ Z.of_nat i.
Proof.
  intros Hl Hm. destruct (Nat.lt_ge_cases i (length l)) as [Hi|Hi].
  - assert (E : mag l = mag (take (S i) l)) by (rewrite <- mag_mod by (try done; lia); pose proof (mag_nonneg l Hl); by rewrite Z.mod_small by lia).
    rewrite E, mag_take_S by done. pose proof (mag_range _ (limbs_take i l Hl)) as R. rewrite length_take, Nat.min_l in R by lia. lia.
  - rewrite nth_overflow by lia. pose proof (mag_range l Hl) as R. pose proof (radix_pow_le (length l) i Hi). lia.
Qed.

Lemma top_limb_add l i k m : limbs_ok l ->
  m * radix ^ Z.of_nat i <= mag l * radix ^ Z.of_nat k < (m + 1) * radix ^ Z.of_nat i ->
  (m * radix + low_limb l i (S k)) * radix ^ Z.of_nat i <= mag l * radix ^ Z.of_nat (S k) <
    (m * radix + low_limb l i (S k) + 1) * radix ^ Z.of_nat i.
Proof.
  intros Hl H. unfold low_limb. pose proof radix_pos. rewrite !radix_pow. destruct (Nat.ltb_spec i (S k)) as [Hi|Hi].
  - assert (E : m * radix ^ Z.of_nat i = mag l * radix ^ Z.of_nat k).
    { replace k with (i + (k - i))%nat in * by lia. rewrite radix_pow_add in *. pose proof (radix_pow_pos i) as Pi. set (r := radix ^ Z.of_nat i) in *.
      set (r' := radix ^ Z.of_nat (k - i)) in *.
      assert (m <= mag l * r' < m + 1) as [? ?]; [|nia]. split; [apply (Z.mul_le_mono_pos_r _ _ r)|apply (Z.mul_lt_mono_pos_r r)]; lia. }
    pose proof (radix_pow_pos i). nia.
  - pose proof (radix_pow_pos (i - S k)) as Pj. replace i with (S k + (i - S k))%nat in H |- * by lia.
    replace (S k + (i - S k) - S k)%nat with (i - S k)%nat by lia. rewrite !radix_pow_add, !radix_pow in *.
    set (j := (i - S k)%nat) in *. pose proof (radix_pow_pos k) as Pk.
    set (rk := radix ^ Z.of_nat k) in *.
    assert (Hm : m * radix ^ Z.of_nat (S j) <= mag l < (m + 1) * radix ^ Z.of_nat (S j)).
    { rewrite radix_pow. split; [apply (Z.mul_le_mono_pos_r _ _ rk)|apply (Z.mul_lt_mono_pos_r rk)]; lia. }
    assert (Hd : mag l / radix ^ Z.of_nat (S j) = m) by (symmetry; apply Z.div_unique with (r := mag l - m * radix ^ Z.of_nat (S j)); lia).
    assert (Hx : (m * radix + nth j l 0) * radix ^ Z.of_nat j <= mag l < (m * radix + nth j l 0 + 1) * radix ^ Z.of_nat j).
    { destruct (Nat.lt_ge_cases j (length l)) as [Hj|Hj].
      - rewrite mag_div in Hd by (try done; lia). rewrite (mag_split (S j) l) by lia. rewrite Hd. rewrite mag_take_S by done.
        pose proof (mag_range _ (limbs_take j l Hl)) as R. rewrite length_take, Nat.min_l in R by lia. rewrite radix_pow. lia.
      - rewrite nth_overflow by lia. pose proof (mag_range l Hl) as R. pose proof (radix_pow_le (length l) j Hj).
        assert (m = 0) by (rewrite <- Hd; apply Z.div_small; rewrite radix_pow; nia). subst m. nia. }
    nia.
Qed.

(** ** The loops on the limbs *)

Lemma int_div_int_ok u1 u0 d : limb u1 -> limb u0 -> limb d -> u1 < d ->
  fst (mbedtls_int_div_int u1 u0 d) = (u1 * radix + u0) / d /\ limb ((u1 * radix + u0) / d).
Proof.
  intros H1 H0 Hd Hlt. unfold mbedtls_int_div_int. rewrite (proj2 (Z.eqb_neq d 0)), (proj2 (Z.leb_gt d u1)) by lia. cbn [orb fst].
  assert (E : Z.lor (Z.shiftl u1 biL) u0 = u1 * radix + u0).
  { rewrite Z.shiftl_mul_pow2 by done. change (2 ^ biL) with radix. apply (lor_add 64); [done|exact H0]. }
  rewrite E. assert (R : limb ((u1 * radix + u0) / d)) by (split; [apply Z.div_pos; nia|apply Z.div_lt_upper_bound; nia]).
  split; [|exact R]. rewrite (proj2 (Z.ltb_ge _ _)) by (change (Z.shiftl 1 biL) with radix; lia). rewrite u64_radix. by apply Z.mod_small.
Qed.

Lemma lset_zero X : (1 <= n X)%nat -> Z.of_nat (n X) <= MBEDTLS_MPI_MAX_LIMBS ->
  mbedtls_mpi_lset X 0 = Ok (mkMpi 1 (repeat 0 (n X))).
Proof.
  intros H1 H2. unfold mbedtls_mpi_lset, mbedtls_mpi_grow. rewrite (proj2 (Z.ltb_ge _ _)) by (unfold MBEDTLS_MPI_MAX_LIMBS; lia).
  rewrite (proj2 (Nat.ltb_ge _ _)) by lia. cbn [mbind result_bind]. do 2 f_equal. destruct (n X) as [|m]; [lia|]. by rewrite Nat.sub_1_r.
Qed.

Lemma insert_insert_eq (l : list Z) k a b : <[k := a]> (<[k := b]> l) = <[k := a]> l.
Proof. apply list_insert_insert_eq. Qed.

Lemma nth_insert (l : list Z) k a : (k < length l)%nat -> nth k (<[k := a]> l) 0 = a.
Proof. intros H. by rewrite nth_lookup, list_lookup_insert_eq. Qed.

Lemma div_adjust_ok k y0 y1 T2 q fuel : wf T2 -> limb y0 -> limb y1 -> 0 < y1 ->
  let D := y1 * radix + y0 in
  0 <= q -> q * D <= val T2 ->
  forall T1 z g, wf T1 -> (2 <= n T1)%nat -> Z.of_nat (Nat.max (n T1) 3) <= MBEDTLS_MPI_MAX_LIMBS -> (k < length z)%nat ->
  nth k z 0 = u64 (g + 1) -> q <= g < radix -> (0 < fuel)%nat -> g * D <= val T2 + (Z.of_nat fuel - 1) * D ->
  exists T1' g', div_adjust k y0 y1 T2 T1 z fuel = Ok (T1', <[k := g']> z) /\ wf T1' /\ (n T1 <= n T1' <= Nat.max (n T1) 3)%nat /\
    q <= g' < radix /\ g' * D <= val T2.
Proof.
  intros W2 H0 H1 Hy D Hq HqD. assert (HD : 0 < D) by (unfold D; pose proof radix_pos; nia).
  induction fuel as [|fuel IH]; intros T1 z g W1 Hn Hmax Hk Hz Hg H0f Hf; [lia|].
  cbn [div_adjust]. rewrite lset_zero by lia. cbn [mbind result_bind s p].
  assert (Ez : u64 (u64 (g + 1) - 1) = g) by (unfold u64; rewrite Zminus_mod_idemp_l; replace (g + 1 - 1) with g by lia; apply Z.mod_small; unfold radix in *; lia).
  change (limb_decr k z) with (<[k := u64 (nth k z 0 - 1)]> z). rewrite Hz, Ez, nth_insert by done.
  destruct (n T1) as [|[|m]] eqn:En; [lia..|]. cbn [repeat insert list_insert].
  set (T := mkMpi 1 (y0 :: y1 :: repeat 0 m)).
  assert (WT : wf T) by (split; [by left|]; constructor; [done|]; constructor; [done|apply limbs_zeros]).
  assert (VT : val T = D /\ mag (p T) = D) by (unfold val, T; cbn [s p mag]; rewrite mag_zeros; unfold D; lia).
  assert (NT : n T = S (S m)) by (unfold n, T; cbn [p length]; by rewrite repeat_length).
  assert (HsT : (sig (p T) <= 2)%nat) by (apply sig_le_iff; [apply WT|]; rewrite (proj2 VT); change (radix ^ Z.of_nat 2) with (radix * radix); unfold D; nia).
  destruct (mul_int_ok T T g 3 WT WT ltac:(lia) ltac:(lia) ltac:(unfold MBEDTLS_MPI_MAX_LIMBS; lia)) as (T1' & -> & W' & V' & N'). cbn [mbind result_bind].
  rewrite (proj1 VT) in V'. rewrite NT in N'. rewrite cmp_mpi_ok, V' by done.
  destruct (Z.ltb_spec 0 (Z.sgn (D * g - val T2))) as [Hc|Hc].
  - assert (Hlt : q < g) by nia.
    destruct (IH T1' (<[k := g]> z) (g - 1) W') as (T1'' & g' & E & W'' & N'' & G1 & G2); try lia.
    + by rewrite length_insert.
    + rewrite nth_insert by done. unfold u64. symmetry. replace (g - 1 + 1) with g by lia. apply Z.mod_small. unfold radix in *. lia.
    + exists T1'', g'. rewrite E, insert_insert_eq. repeat split; try done; try lia; apply W''.
  - exists T1', g. repeat split; try done; try lia; apply W'.
Qed.

Lemma shift_limbs_ok T k m K : wf T -> mag (p T) < radix ^ Z.of_nat m -> (m + k <= K)%nat -> (n T <= K)%nat -> Z.of_nat K <= MBEDTLS_MPI_MAX_LIMBS ->
  exists T', mbedtls_mpi_shift_l T (biL * Z.of_nat k) = Ok T' /\ wf T' /\ s T' = s T /\ val T' = val T * radix ^ Z.of_nat k /\
    mag (p T') = mag (p T) * radix ^ Z.of_nat k /\ (n T <= n T' <= K)%nat.
Proof.
  intros W Hm HK Hn Hmax. pose proof (wf_mag T W) as R. set (i := bits (mag (p T)) + biL * Z.of_nat k).
  assert (Hb : bits (mag (p T)) <= biL * Z.of_nat m) by (apply bits_le; [lia|unfold biL; lia|]; by rewrite <- radix_pow_bits).
  pose proof (bits_nonneg (mag (p T))) as Hb0. assert (Hi : (BITS_TO_LIMBS i <= K)%nat) by (apply bits_to_limbs_le; unfold i, biL in *; lia).
  destruct (shift_l_ok T (biL * Z.of_nat k) W ltac:(unfold biL; lia)) as (T' & E & W' & S' & M' & N'); [fold i; lia|]. fold i in N'.
  exists T'. rewrite <- radix_pow_bits in M'. split; [exact E|]. split; [exact W'|]. split; [exact S'|]. split; [|split; [exact M'|lia]].
  unfold val. rewrite S', M'. ring.
Qed.

(** The guess of the code for the digit [q] of the quotient of two numbers. *)
Lemma guess_ok k t (xl yl : list Z) (x y : Z) : limbs_ok xl -> limbs_ok yl -> mag xl = x -> mag yl = y ->
  2 ^ 62 <= nth t yl 0 -> y < radix ^ Z.of_nat (S t) -> 0 <= x < y * radix ^ Z.of_nat (k + 1) ->
  let i := (t + k + 1)%nat in
  let q := x / (y * radix ^ Z.of_nat k) in
  let x2 := nth i xl 0 in let x1 := low_limb xl i 1 in let x0 := low_limb xl i 2 in
  let y1 := nth t yl 0 in let D := y1 * radix + low_limb yl t 1 in
  let W := (x2 * radix + x1) * radix + x0 in
  let g := if y1 <=? x2 then limb_max else fst (mbedtls_int_div_int x2 x1 y1) in
  0 <= q <= g /\ g < radix /\ q * D <= W /\ g * D <= W + 4 * D /\
  (forall g', 0 <= g' < radix -> g' * D <= W -> g' * (y * radix ^ Z.of_nat k) < x + y * radix ^ Z.of_nat k).
Proof.
  intros WX WY MX MY Hn HY HX i q x2 x1 x0 y1 D W g. set (V := x2 * radix + x1) in *.
  assert (Lx2 : limb x2) by (by apply limbs_nth). pose proof (low_limb_ok xl i 1 WX) as Lx1.
  assert (Ly1 : limb y1) by (by apply limbs_nth). fold x1 in Lx1. pose proof radix_pos as P.
  assert (HXi : mag xl < radix ^ Z.of_nat (S i)).
  { rewrite MX. eapply Z.lt_le_trans; [apply HX|]. replace (S i) with (S t + (k + 1))%nat by (unfold i; lia). rewrite (radix_pow_add (S t)).
    apply Z.mul_le_mono_nonneg_r; [|lia]. pose proof (radix_pow_pos (k + 1)). lia. }
  rewrite <- MY in HY. pose proof (top_limb yl t WY HY) as TY1. fold y1 in TY1.
  pose proof (top_limb_add yl t 0 y1 WY) as TY2. change (radix ^ Z.of_nat 0) with 1 in TY2. rewrite Z.mul_1_r in TY2. specialize (TY2 TY1).
  change (radix ^ Z.of_nat 1) with radix in TY2. fold D in TY2.
  pose proof (top_limb xl i WX HXi) as TX1. fold x2 in TX1.
  pose proof (top_limb_add xl i 0 x2 WX) as TX2. change (radix ^ Z.of_nat 0) with 1 in TX2. rewrite Z.mul_1_r in TX2. specialize (TX2 TX1).
  change (radix ^ Z.of_nat 1) with radix in TX2. fold x1 in TX2. fold V in TX2.
  pose proof (top_limb_add xl i 1 V WX) as TX3. change (radix ^ Z.of_nat 1) with radix in TX3. specialize (TX3 TX2).
  change (radix ^ Z.of_nat 2) with (radix ^ 2) in TX3. fold x0 in TX3. fold W in TX3.
  rewrite MX in TX1, TX2, TX3. rewrite MY in TY1, TY2, HY.
  pose proof (digit_range t k x y y1 HX TY1 Hn) as Rq. fold q in Rq.
  pose proof (digit_le_V t k x y y1 V HX TY1 TX2 Hn) as QV. fold q in QV.
  assert (Hg : q <= g < radix /\ g * y1 <= V).
  { unfold g. destruct (Z.leb_spec y1 x2) as [Hle|Hlt].
    - change limb_max with (radix - 1). split; [lia|]. unfold V. clear - Hle Lx2 Lx1 Ly1 P. nia.
    - destruct (int_div_int_ok x2 x1 y1 Lx2 Lx1 Ly1 Hlt) as [-> Lq]. fold V in Lq |- *. split; [|rewrite Z.mul_comm; apply Z.mul_div_le; lia].
      split; [apply Z.div_le_lower_bound; lia|apply Lq]. }
  destruct Hg as [Hg1 Hg2]. split; [lia|]. split; [lia|]. split; [exact (digit_le_W t k x y y1 D W HX TY1 TY2 TX3 Hn)|].
  split; [exact (guess_close t k x y y1 V D W HX TY1 TY2 TX2 TX3 Hn g ltac:(lia) Hg2)|].
  intros g' R' D'. exact (guess_final t k x y y1 D W HX TY1 TY2 TX3 Hn g' R' D').
Qed.

(** What a turn of the loop does to the remainder and to the quotient. *)
Lemma div_digit_ok k t X Y T1 z K : wf X -> wf Y -> wf T1 -> (k < length z)%nat ->
  2 ^ 62 <= nth t (p Y) 0 -> s Y = 1 -> mag (p Y) < radix ^ Z.of_nat (S t) ->
  0 <= val X < val Y * radix ^ Z.of_nat (k + 1) ->
  (n X <= K)%nat -> (n Y <= K)%nat -> (2 <= n T1 <= K)%nat -> (t + k + 4 <= K)%nat -> Z.of_nat K <= MBEDTLS_MPI_MAX_LIMBS ->
  exists X' T1' q, div_digit k t X Y T1 z = Ok (X', T1', <[k := q]> z) /\ wf X' /\ wf T1' /\ limb q /\
    val X' = val X - q * (val Y * radix ^ Z.of_nat k) /\ 0 <= val X' < val Y * radix ^ Z.of_nat k /\
    (n X <= n X' <= K)%nat /\ (2 <= n T1' <= K)%nat.
Proof.
  intros WX WY W1 Hk Hnorm SY HY HX NX NY N1 HK Hmax. unfold div_digit. set (i := (t + k + 1)%nat).
  pose proof (val_nonneg X WX ltac:(lia)) as MX. assert (MY : mag (p Y) = val Y) by (unfold val; rewrite SY; lia).
  destruct (guess_ok k t (p X) (p Y) (val X) (val Y) (wf_limbs _ WX) (wf_limbs _ WY) MX MY Hnorm ltac:(lia) HX) as (G1 & G2 & G3 & G4 & G5).
  fold i in G1, G2, G3, G4, G5.
  change (if (t <? 1)%nat then 0 else nth (t - 1)%nat (p Y) 0) with (low_limb (p Y) t 1).
  change (if (i <? 2)%nat then 0 else nth (i - 2) (p X) 0) with (low_limb (p X) i 2).
  change (if (i <? 1)%nat then 0 else nth (i - 1) (p X) 0) with (low_limb (p X) i 1).
  assert (Ex1 : nth (i - 1) (p X) 0 = low_limb (p X) i 1) by (unfold low_limb; by rewrite (proj2 (Nat.ltb_ge i 1)) by (unfold i; lia)). rewrite Ex1.
  pose proof (limbs_nth (p X) i (wf_limbs _ WX)) as Lx2. pose proof (low_limb_ok (p X) i 1 (wf_limbs _ WX)) as Lx1.
  pose proof (low_limb_ok (p X) i 2 (wf_limbs _ WX)) as Lx0. pose proof (low_limb_ok (p Y) t 1 (wf_limbs _ WY)) as Ly0.
  pose proof (limbs_nth (p Y) t (wf_limbs _ WY)) as Ly1.
  set (T2 := mkMpi 1 _). set (g := if _ <=? _ then limb_max else _) in *. set (q := val X / _) in *.
  assert (W2 : wf T2) by (split; [by left|]; repeat (constructor; [done|]); constructor).
  assert (V2 : val T2 = (nth i (p X) 0 * radix + low_limb (p X) i 1) * radix + low_limb (p X) i 2) by (unfold val, T2; cbn [s p mag]; ring).
  rewrite <- V2 in G3, G4, G5. pose proof (radix_pow_pos k) as Pk. set (B := val Y * radix ^ Z.of_nat k) in *.
  destruct (div_adjust_ok k (low_limb (p Y) t 1) (nth t (p Y) 0) T2 q 8 W2 Ly0 Ly1 ltac:(lia) ltac:(lia) G3 T1 (limb_incr k (<[k := g]> z)) g W1)
    as (T1' & g' & -> & W1' & N1' & Rg & Dg); try lia.
  { unfold limb_incr. by rewrite !length_insert. }
  { unfold limb_incr. rewrite nth_insert by (by rewrite length_insert). by rewrite nth_insert. }
  { change (Z.of_nat 8 - 1) with 7. clear - G4 Hnorm Ly0. pose proof radix_pos. nia. }
  unfold limb_incr. rewrite !insert_insert_eq. cbn [mbind result_bind]. rewrite nth_insert by done.
  specialize (G5 g' ltac:(lia) Dg).
  assert (Hq : X = X -> val X - B < q * B <= val X).
  { intros _. pose proof (radix_pow_pos (k + 1)). assert (0 < val Y) by nia. pose proof (Z.div_mod (val X) B ltac:(unfold B; nia)) as E.
    pose proof (Z.mod_pos_bound (val X) B ltac:(unfold B; nia)). fold q in E. lia. }
  specialize (Hq eq_refl). pose proof radix_pos as P. assert (HB : 0 < B) by lia.
  assert (Hsize : forall c, 0 <= c < radix -> val Y * c < radix ^ Z.of_nat (t + 2)).
  { intros c Hc. rewrite MY in HY. replace (t + 2)%nat with (S (S t)) by lia. rewrite radix_pow. rewrite Z.mul_comm. assert (0 < val Y) by nia. nia. }
  assert (HBK : 2 * val X + 2 * B < radix ^ Z.of_nat K).
  { pose proof (radix_pow_le (t + k + 4) K HK) as HK'. pose proof (radix_pow_pos (t + k + 2)) as Pt.
    assert (val X < radix ^ Z.of_nat (t + k + 2)).
    { eapply Z.lt_le_trans; [apply HX|]. rewrite MY in HY. replace (t + k + 2)%nat with (S t + (k + 1))%nat by lia. rewrite (radix_pow_add (S t)).
      apply Z.mul_le_mono_nonneg_r; [|lia]. pose proof (radix_pow_pos (k + 1)). lia. }
    assert (B <= radix ^ Z.of_nat (t + k + 2)).
    { unfold B. replace (t + k + 2)%nat with ((t + 2) + k)%nat by lia. rewrite (radix_pow_add (t + 2)). pose proof (Hsize 1 ltac:(unfold radix; lia)).
      apply Z.mul_le_mono_nonneg_r; lia. }
    replace (t + k + 4)%nat with ((t + k + 2) + 2)%nat in HK' by lia. rewrite radix_pow_add in HK'.
    assert (4 <= radix ^ Z.of_nat 2) by (vm_compute; discriminate). clear - H H0 HK' H1 Pt HX. nia. }
  assert (HsY : (sig (p Y) <= S t)%nat) by (apply sig_le_iff; [apply WY|exact HY]).
  destruct (mul_int_ok T1' Y g' K W1' WY ltac:(lia) ltac:(lia) Hmax) as (T3 & -> & W3 & V3 & N3). cbn [mbind result_bind].
  assert (HY0 : 0 < val Y) by (clear - HB Pk; unfold B in HB; nia).
  pose proof (val_nonneg T3 W3 ltac:(rewrite V3; apply Z.mul_nonneg_nonneg; lia)) as M3.
  destruct (shift_limbs_ok T3 k (t + 2) K W3) as (T4 & -> & W4 & _ & V4 & _ & N4); [rewrite M3, V3; apply Hsize; lia|lia|lia|exact Hmax|].
  cbn [mbind result_bind]. assert (V4' : val T4 = g' * B) by (rewrite V4, V3; unfold B; ring).
  assert (HgB : 0 <= g' * B < val X + B) by (split; [apply Z.mul_nonneg_nonneg; lia|exact G5]).
  destruct (sub_mpi_ok X X T4 K WX WX W4) as (X' & -> & WX' & VX' & NX'); [lia..|]. cbn [mbind result_bind].
  rewrite cmp_int_ok by (try done; lia). rewrite Z.sub_0_r. destruct (Z.ltb_spec (Z.sgn (val X')) 0) as [Hneg|Hpos].
  - destruct (copy_ok T4 Y W4 WY) as (T5 & -> & W5 & M5 & V5 & N5 & _); [pose proof (sig1_le Y); lia|]. cbn [mbind result_bind].
    destruct (shift_limbs_ok T5 k (t + 2) K W5) as (T6 & -> & W6 & _ & V6 & _ & N6); [rewrite M5, MY, <- (Z.mul_1_r (val Y)); apply Hsize; unfold radix; lia|lia|pose proof (sig1_le Y); lia|exact Hmax|].
    cbn [mbind result_bind]. rewrite V5 in V6. fold B in V6.
    destruct (add_mpi_ok X' X' T6 K WX' WX' W6) as (X'' & -> & WX'' & VX'' & NX''); [lia..|]. cbn [mbind result_bind].
    exists X'', T6, (g' - 1). unfold limb_decr. rewrite nth_insert, insert_insert_eq by done.
    assert (g' <> 0) by (intros ->; lia). assert (Hu : u64 (g' - 1) = g' - 1) by (rewrite u64_radix; apply Z.mod_small; lia). rewrite Hu.
    repeat split; try done; try lia; try apply WX''; try apply W6.
  - exists X', T4, g'. assert (0 <= val X') by lia. assert (q * B <= g' * B) by (apply Z.mul_le_mono_nonneg_r; lia). repeat split; try done; try lia; try apply WX'; try apply W4.
Qed.

Lemma div_digits_ok t Y K : wf Y -> 2 ^ 62 <= nth t (p Y) 0 -> s Y = 1 -> mag (p Y) < radix ^ Z.of_nat (S t) ->
  (n Y <= K)%nat -> Z.of_nat K <= MBEDTLS_MPI_MAX_LIMBS ->
  forall k X T1 z, wf X -> wf T1 -> limbs_ok z -> (k <= length z)%nat -> (forall j, (j < k)%nat -> nth j z 0 = 0) ->
  0 <= val X < val Y * radix ^ Z.of_nat k -> (n X <= K)%nat -> (2 <= n T1 <= K)%nat -> (t + k + 3 <= K)%nat ->
  exists X' z', div_digits k t X Y T1 z = Ok (X', z') /\ wf X' /\ limbs_ok z' /\ length z' = length z /\
    mag z' * val Y + val X' = mag z * val Y + val X /\ 0 <= val X' < val Y /\ (n X' <= K)%nat.
Proof.
  intros WY Hnorm SY HY NY Hmax. induction k as [|k IH]; intros X T1 z WX W1 Hz Hk H0 HX NX N1 HK; cbn [div_digits].
  - exists X, z. change (radix ^ Z.of_nat 0) with 1 in HX. rewrite Z.mul_1_r in HX. split_and!; try done; apply WX || lia.
  - destruct (div_digit_ok k t X Y T1 z K WX WY W1) as (X1 & T2 & q & -> & WX1 & W2 & Lq & VX1 & RX1 & NX1 & N2); try done; try lia.
    cbn [mbind result_bind]. destruct (IH X1 T2 (<[k := q]> z)) as (X' & z' & -> & WX' & Lz' & El & Em & RX & NX'); try done; try lia.
    + by apply limbs_insert.
    + rewrite length_insert. lia.
    + intros j Hj. rewrite nth_lookup, list_lookup_insert_ne, <- nth_lookup by lia. apply H0. lia.
    + exists X', z'. rewrite length_insert in El. rewrite mag_insert, H0 in Em by lia. split_and!; try done; apply WX' || nia.
Qed.

Lemma div_top_ok k Y K : wf Y -> 0 < val Y -> (n Y <= K)%nat -> (1 <= K)%nat -> Z.of_nat K <= MBEDTLS_MPI_MAX_LIMBS ->
  forall fuel X z, wf X -> (k < length z)%nat -> 0 <= val X < Z.of_nat fuel * val Y -> (n X <= K)%nat -> val X + val Y < radix ^ Z.of_nat K ->
  0 <= nth k z 0 -> nth k z 0 + Z.of_nat fuel < radix ->
  exists X' q, div_top k X Y z fuel = Ok (X', <[k := nth k z 0 + q]> z) /\ wf X' /\ 0 <= q < Z.of_nat fuel /\ val X' = val X - q * val Y /\
    0 <= val X' < val Y /\ (n X <= n X' <= K)%nat.
Proof.
  intros WY HY NY HK Hmax. induction fuel as [|fuel IH]; intros X z WX Hk HX NX Hsum Hz Hf; [lia|]. cbn [div_top]. rewrite cmp_mpi_ok by done.
  destruct (Z.leb_spec 0 (Z.sgn (val X - val Y))) as [Hge|Hlt].
  - destruct (sub_mpi_ok X X Y K WX WX WY) as (X1 & -> & W1 & V1 & N1); try done; try lia. cbn [mbind result_bind]. 
    assert (Ei : nth k (limb_incr k z) 0 = nth k z 0 + 1) by (unfold limb_incr; rewrite nth_insert, u64_radix by done; apply Z.mod_small; lia).
    destruct (IH X1 (limb_incr k z) W1) as (X' & q & -> & W' & Rq & V' & R' & N'); try lia.
    + unfold limb_incr. by rewrite length_insert.
    + exists X', (q + 1). rewrite Ei. unfold limb_incr. rewrite insert_insert_eq. split_and!; try apply W'; try lia. do 3 f_equal. lia.
  - exists X, 0. rewrite Z.add_0_r. split_and!; try apply WX; try lia. do 2 f_equal. symmetry. apply list_insert_id.
    rewrite nth_lookup. destruct (lookup_lt_is_Some_2 z k Hk) as [v Ev]. by rewrite Ev.
Qed.

(** The number of limbs of a number. *)
Lemma sig_bits l : limbs_ok l -> sig l = BITS_TO_LIMBS (bits (mag l)).
Proof.
  intros Hl. pose proof (mag_nonneg l Hl) as Hm. assert (E : forall k, (sig l <= k)%nat <-> (BITS_TO_LIMBS (bits (mag l)) <= k)%nat).
  { intros k. rewrite <- sig_le_iff, bits_to_limbs_le by (try done; apply bits_nonneg). rewrite radix_pow_bits. apply bits_le; [done|unfold biL; lia]. }
  apply Nat.le_antisymm; apply E; lia.
Qed.

Lemma shift_l_tight X c : wf X -> s X = 1 -> 0 < val X -> n X = sig (p X) -> 0 <= c < biL -> Z.of_nat (S (n X)) <= MBEDTLS_MPI_MAX_LIMBS ->
  exists X', mbedtls_mpi_shift_l X c = Ok X' /\ wf X' /\ s X' = 1 /\ val X' = val X * 2 ^ c /\ n X' = sig (p X') /\ (n X' <= S (n X))%nat.
Proof.
  intros W Hs Hv Hn Hc Hmax. pose proof (val_nonneg X W ltac:(lia)) as M. pose proof (wf_mag X W) as R. assert (P2 : 0 < 2 ^ c) by (apply Z.pow_pos_nonneg; lia).
  set (i := bits (mag (p X)) + c). assert (Ei : i = bits (mag (p X) * 2 ^ c)) by (unfold i; rewrite bits_shift by lia; done).
  assert (Hi : (BITS_TO_LIMBS i <= S (n X))%nat).
  { apply bits_to_limbs_le; [rewrite Ei; apply bits_nonneg|]. rewrite Ei. apply bits_le; [nia|unfold biL; lia|]. rewrite <- radix_pow_bits, radix_pow.
    assert (2 ^ c < radix) by (apply (Z.pow_lt_mono_r 2 c 64); unfold biL in *; lia). nia. }
  destruct (shift_l_ok X c W ltac:(lia)) as (X' & E & W' & S' & M' & N'); [fold i; lia|]. fold i in N'.
  exists X'. split; [exact E|]. split; [exact W'|]. split; [lia|]. split; [unfold val; rewrite S', M'; ring|].
  rewrite sig_bits, M', <- Ei by apply W'. pose proof (sig_mono (p X) (p X') ltac:(apply W) ltac:(apply W') ltac:(nia)) as Mono.
  rewrite (sig_bits (p X')), M', <- Ei in Mono by apply W'. lia.
Qed.

Lemma div_normalize_ok X Y : wf X -> wf Y -> s X = 1 -> s Y = 1 -> 0 < val X -> 0 < val Y -> n X = sig (p X) -> n Y = sig (p Y) ->
  Z.of_nat (S (n X)) <= MBEDTLS_MPI_MAX_LIMBS -> Z.of_nat (S (n Y)) <= MBEDTLS_MPI_MAX_LIMBS ->
  exists X' Y' k, div_normalize X Y = Ok (X', Y', k) /\ wf X' /\ wf Y' /\ s X' = 1 /\ s Y' = 1 /\ 0 <= k < biL /\
    val X' = val X * 2 ^ k /\ val Y' = val Y * 2 ^ k /\ n X' = sig (p X') /\ n Y' = sig (p Y') /\ (n X' <= S (n X))%nat /\
    bits (val Y') mod biL = biL - 1.
Proof.
  intros WX WY SX SY HX HY NX NY MX MY. unfold div_normalize. rewrite bitlen_ok by done. rewrite (val_nonneg Y WY) by lia.
  pose proof (Z.mod_pos_bound (bits (val Y)) biL ltac:(done)) as R. destruct (Z.ltb_spec (bits (val Y) mod biL) (biL - 1)) as [Hlt|Hge].
  - set (k := biL - 1 - bits (val Y) mod biL) in *.
    destruct (shift_l_tight X k) as (X' & -> & WX' & SX' & VX' & NX' & LX'); try done; try lia.
    destruct (shift_l_tight Y k) as (Y' & -> & WY' & SY' & VY' & NY' & LY'); try done; try lia. cbn [mbind result_bind].
    exists X', Y', k. split_and!; try done; try lia; try apply WX'; try apply WY'. rewrite VY', bits_shift by lia.
    unfold k. replace (bits (val Y) + (biL - 1 - bits (val Y) mod biL)) with (biL - 1 + (bits (val Y) / biL) * biL)
      by (pose proof (Z.div_mod (bits (val Y)) biL ltac:(done)); lia). by rewrite Z.mod_add.
  - exists X, Y, 0. rewrite Z.pow_0_r, !Z.mul_1_r. split_and!; try done; try lia; try apply WX; try apply WY.
Qed.

Lemma top_normal l t : limbs_ok l -> 2 ^ (biL * Z.of_nat t + 62) <= mag l < radix ^ Z.of_nat (S t) -> 2 ^ 62 <= nth t l 0.
Proof.
  intros Hl [H1 H2]. pose proof (top_limb l t Hl H2) as T. rewrite Z.pow_add_r, <- radix_pow_bits in H1 by (unfold biL; lia).
  pose proof (radix_pow_pos t). assert (2 ^ 62 < nth t l 0 + 1); [|lia]. apply (Z.mul_lt_mono_pos_l (radix ^ Z.of_nat t)); lia.
Qed.

(** A number whose bits end one below the top of its last limb. *)
Lemma normal_bounds m t : 0 < m -> bits m mod biL = biL - 1 -> BITS_TO_LIMBS (bits m) = S t ->
  2 ^ (biL * Z.of_nat t + 62) <= m < radix ^ Z.of_nat (S t).
Proof.
  intros Hm Hb Ht. pose proof (Z.div_mod (bits m) biL ltac:(done)) as D. pose proof (bits_nonneg m) as B0. pose proof (Z.div_pos (bits m) biL B0 ltac:(done)) as Q.
  assert (E : bits m = biL * Z.of_nat t + 63).
  { unfold BITS_TO_LIMBS in Ht. rewrite Hb in *. change (b2z (negb (biL - 1 =? 0))) with 1 in Ht. unfold biL in *. lia. }
  pose proof (bits_lower m Hm) as L. rewrite E in L. replace (biL * Z.of_nat t + 63 - 1) with (biL * Z.of_nat t + 62) in L by lia. split; [exact L|].
  rewrite radix_pow_bits. apply bits_le; [lia|unfold biL; lia|]. unfold biL in *. lia.
Qed.

Lemma copy_init_ok A : wf A -> val A <> 0 -> Z.of_nat (n A) <= MBEDTLS_MPI_MAX_LIMBS ->
  exists X, mbedtls_mpi_copy mbedtls_mpi_init A = Ok X /\ wf (set_s 1 X) /\ val (set_s 1 X) = Z.abs (val A) /\
    n (set_s 1 X) = sig (p (set_s 1 X)) /\ (n (set_s 1 X) <= n A)%nat.
Proof.
  intros W Hv Hmax. destruct (copy_ok mbedtls_mpi_init A wf_init W) as (X & E & WX & MX & VX & NX & _); [pose proof (sig1_le A); lia|].
  exists X. split; [exact E|]. split; [by apply wf_set_s; [left|]|]. unfold val at 1, n, set_s. cbn [s p]. rewrite val_abs, MX by done. split; [lia|].
  assert (Hs : sig (p X) = sig (p A)) by (apply sig_eq; [apply WX|apply W|done]).
  assert (Hm : sig (p A) <> 0%nat) by (intros E0; apply sig_zero in E0; [|apply W]; rewrite <- val_abs in E0 by done; lia).
  change (length (p X)) with (n X). rewrite Hs, NX. change (n mbedtls_mpi_init) with 0%nat. pose proof (sig1_le A) as L. cbn [Nat.max]. split; [|exact L].
  unfold sig1 in *. case_if; to_prop; [|lia]. pose proof (sig_le (p A)). unfold n in *. lia.
Qed.

Lemma grow_init k : Z.of_nat k <= MBEDTLS_MPI_MAX_LIMBS -> mbedtls_mpi_grow mbedtls_mpi_init k = Ok (mkMpi 1 (repeat 0 k)).
Proof.
  intros H. unfold mbedtls_mpi_grow. rewrite (proj2 (Z.ltb_ge _ _)) by lia. unfold n. cbn [mbedtls_mpi_init p s length]. f_equal.
  destruct k; [done|]. by rewrite Nat.sub_0_r.
Qed.

Lemma div_unique_abs a b q x : 0 < b -> q * b + x = a -> 0 <= x < b -> q = a / b /\ x = a mod b.
Proof. intros Hb E R. split; [apply Z.div_unique with x|apply Z.mod_unique with q]; lia. Qed.

(** The product of a number that ends just below a limb with a power of the radix. *)
Lemma scaled_bounds y t k : 2 ^ (biL * Z.of_nat t + 62) <= y < radix ^ Z.of_nat (S t) ->
  let b := y * radix ^ Z.of_nat k in
  0 < b /\ radix ^ Z.of_nat (S (t + k)) <= 4 * b /\ b < radix ^ Z.of_nat (S (t + k)).
Proof.
  intros [H1 H2] b. pose proof (radix_pow_pos t) as Pt. pose proof (radix_pow_pos k) as Pk. unfold b.
  rewrite Z.pow_add_r, <- radix_pow_bits in H1 by (unfold biL; lia).
  rewrite radix_pow in *. rewrite radix_pow_add. split; [apply Z.mul_pos_pos; lia|]. split; [|nia].
  change radix with (4 * 2 ^ 62) at 1. set (rk := radix ^ Z.of_nat k) in *. clear - H1 Pk. nia.
Qed.

Lemma div_long_ok X Y T1 z t k K : wf X -> wf Y -> wf T1 -> s Y = 1 -> 0 <= val X -> n X = S (t + k) -> n Y = S t ->
  2 ^ (biL * Z.of_nat t + 62) <= val Y < radix ^ Z.of_nat (S t) ->
  limbs_ok z -> (k < length z)%nat -> (forall j, nth j z 0 = 0) -> (2 <= n T1 <= K)%nat -> (t + k + 3 <= K)%nat -> Z.of_nat K <= MBEDTLS_MPI_MAX_LIMBS ->
  exists X' z', div_long X Y T1 z = Ok (X', z') /\ wf X' /\ limbs_ok z' /\ length z' = length z /\ (n X' <= K)%nat /\
    mag z' * val Y + val X' = mag z * val Y + val X /\ 0 <= val X' < val Y.
Proof.
  intros WX WY W1 SY HX NX NY HY Hz Hk H0 N1 HK Hmax. unfold div_long. rewrite NX, NY.
  replace (S (t + k) - 1 - (S t - 1))%nat with k by lia. replace (S t - 1)%nat with t by lia.
  destruct (scaled_bounds (val Y) t k HY) as (B1 & B2 & B3). set (b := val Y * radix ^ Z.of_nat k) in *.
  pose proof (wf_mag X WX) as RX. rewrite (val_nonneg X WX HX), NX in RX. assert (HY0 : 0 < val Y) by (pose proof (radix_pow_pos k); unfold b in B1; clear - B1 H; nia).
  pose proof (val_nonneg Y WY ltac:(lia)) as EY.
  destruct (shift_limbs_ok Y k (S t) K WY) as (Y1 & -> & WY1 & SY1 & VY1 & MY1 & NY1); [lia..|]. cbn [mbind result_bind]. fold b in VY1.
  assert (Hsum : val X + val Y1 < radix ^ Z.of_nat K).
  { pose proof (radix_pow_le (S (S (t + k))) K ltac:(lia)) as P. rewrite radix_pow in P. assert (2 <= radix) by (unfold radix; lia). rewrite VY1. clear - P RX B3 H. nia. }
  destruct (div_top_ok k Y1 K WY1) with (fuel := 8%nat) (X := X) (z := z) as (X1 & q & -> & WX1 & Rq & VX1 & RX1 & NX1);
    try done; try lia; try (rewrite H0; done).
  cbn [mbind result_bind].
  destruct (shift_r_ok Y1 (biL * Z.of_nat k) WY1 ltac:(unfold biL; lia)) as (Y2 & -> & WY2 & MY2 & SY2 & NY2). cbn [mbind result_bind].
  assert (EY2 : mag (p Y2) = val Y) by (rewrite MY2, MY1, EY, <- radix_pow_bits; apply Z.div_mul; pose proof (radix_pow_pos k); lia).
  assert (SY2' : s Y2 = 1) by (rewrite SY2 by lia; lia). assert (VY2 : val Y2 = val Y) by (unfold val at 1; rewrite SY2'; lia).
  destruct (div_digits_ok t Y2 K) with (k := k) (X := X1) (T1 := T1) (z := <[k := nth k z 0 + q]> z) as (X2 & z' & -> & WX2 & Lz & El & Em & RX2 & NX2);
    try done; try lia; try (apply top_normal; [apply WY2|lia]); try (rewrite length_insert; lia); try (rewrite VY2; fold b; lia).
  { apply limbs_insert; [done|]. rewrite H0. unfold radix. lia. }
  { intros j Hj. by rewrite nth_lookup, list_lookup_insert_ne, <- nth_lookup by lia. }
  rewrite length_insert in El. rewrite mag_insert, H0, VY2, VX1, VY1 in Em by lia. rewrite VY2 in RX2.
  exists X2, z'. split_and!; try done; try apply WX2; try lia.
Qed.

Lemma div_core_ok A B : wf A -> wf B -> val B <> 0 -> Z.abs (val B) <= Z.abs (val A) ->
  Z.of_nat (n A) + 3 <= MBEDTLS_MPI_MAX_LIMBS -> Z.of_nat (n B) < MBEDTLS_MPI_MAX_LIMBS ->
  exists z X k, div_core A B = Ok (mkMpi 1 z, X, k) /\ limbs_ok z /\ length z = (n A + 2)%nat /\ wf X /\ 0 <= k < biL /\
    mag z = Z.abs (val A) / Z.abs (val B) /\ val X = (Z.abs (val A) mod Z.abs (val B)) * 2 ^ k /\ (n X <= n A + 3)%nat.
Proof.
  intros WA WB HB Hle MA MB. unfold div_core.
  destruct (copy_init_ok A WA) as (X0 & -> & WX0 & VX0 & NX0 & LX0); [lia..|]. cbn [mbind result_bind].
  destruct (copy_init_ok B WB) as (Y0 & -> & WY0 & VY0 & NY0 & LY0); [lia..|]. cbn [mbind result_bind].
  rewrite grow_init by lia. cbn [mbind result_bind]. set (z0 := repeat 0 (n A + 2)). set (Zq := mkMpi 1 z0).
  assert (NZ : n Zq = (n A + 2)%nat) by (unfold n, Zq, z0; cbn [p]; by rewrite repeat_length).
  rewrite lset_zero by lia. cbn [mbind result_bind]. rewrite NZ. fold z0. fold Zq.
  assert (W1 : wf Zq) by (split; [by left|apply limbs_zeros]).
  destruct (div_normalize_ok (set_s 1 X0) (set_s 1 Y0)) as (X & Y & k & -> & WX & WY & SX & SY & Rk & VX & VY & NX & NY & LX & Hb); try done; try lia.
  cbn [mbind result_bind]. rewrite VX0 in VX. rewrite VY0 in VY. assert (P2 : 0 < 2 ^ k) by (apply Z.pow_pos_nonneg; lia).
  set (a := Z.abs (val A)) in *. set (b := Z.abs (val B)) in *. assert (Hb0 : 0 < val Y) by nia. assert (Hab : val Y <= val X) by nia.
  pose proof (val_nonneg X WX ltac:(lia)) as EX. pose proof (val_nonneg Y WY ltac:(lia)) as EY.
  pose proof (sig_mono (p Y) (p X) ltac:(apply WY) ltac:(apply WX) ltac:(lia)) as Mono. rewrite <- NX, <- NY in Mono.
  assert (NY' : n Y = S (n Y - 1)).
  { assert (sig (p Y) <> 0%nat); [|lia]. intros E. apply sig_zero in E; [lia|apply WY]. }
  pose proof (sig_bits (p Y) ltac:(apply WY)) as Ht. rewrite EY, <- NY, NY' in Ht.
  pose proof (normal_bounds (val Y) (n Y - 1) Hb0 Hb ltac:(lia)) as HY.
  change (p Zq) with z0.
  destruct (div_long_ok X Y Zq z0 (n Y - 1) (n X - n Y) (n A + 3)) as (X2 & z & -> & WX2 & Lz & El & NX2 & Em & RX2); try done; try lia.
  { apply limbs_zeros. } { unfold z0. rewrite repeat_length. lia. } { intros j. apply nth_repeat. }
  cbn [mbind result_bind s]. exists z, X2, k. split; [done|]. split; [done|]. split; [rewrite El; apply repeat_length|]. split; [exact WX2|]. split; [exact Rk|].
  unfold z0 in Em. rewrite mag_zeros, VX, VY in Em. rewrite VY in RX2.
  assert (D2 : val X2 = (a - mag z * b) * 2 ^ k) by lia.
  assert (Rb : 0 <= a - mag z * b < b) by (clear - D2 RX2 P2; split; nia).
  destruct (div_unique_abs a b (mag z) (a - mag z * b) ltac:(lia) ltac:(lia) Rb) as [<- <-]. split_and!; lia.
Qed.

(** ** The results *)

(** The limbs a value takes in a destination. *)
Definition limbs_needed (v : Z) : nat := Nat.max 1 (BITS_TO_LIMBS (bits (Z.abs v))).

Lemma limbs_needed_le v k : (1 <= k)%nat -> (limbs_needed v <= k)%nat <-> Z.abs v < radix ^ Z.of_nat k.
Proof.
  intros Hk. unfold limbs_needed. rewrite radix_pow_bits, bits_le, <- bits_to_limbs_le by (try apply bits_nonneg; unfold biL; lia). lia.
Qed.

Lemma sig1_needed X : wf X -> (sig1 X <= limbs_needed (val X))%nat.
Proof. intros W. unfold sig1, limbs_needed. rewrite val_abs, <- sig_bits by (try done; apply W). case_if; lia. Qed.

Lemma needed_fits X : wf X -> (1 <= n X)%nat -> (limbs_needed (val X) <= n X)%nat.
Proof. intros W H. apply limbs_needed_le; [done|]. rewrite val_abs by done. by apply wf_mag. Qed.

Lemma copy_val X Y : wf X -> wf Y -> Z.of_nat (limbs_needed (val Y)) <= MBEDTLS_MPI_MAX_LIMBS ->
  exists X', mbedtls_mpi_copy X Y = Ok X' /\ wf X' /\ val X' = val Y /\ (n X <= n X' <= Nat.max (n X) (limbs_needed (val Y)))%nat /\
    (n Y <> 0%nat -> s X' = s Y).
Proof.
  intros WX WY Hm. pose proof (sig1_needed Y WY). destruct (copy_ok X Y WX WY) as (X' & E & W & _ & V & N & S); [lia|].
  exists X'. split_and!; try done; try lia; apply W.
Qed.

(** A destination after the call. *)
Definition written (D D' : option mpi) (v : Z) : Prop :=
  match D, D' with
  | Some D, Some D' => wf D' /\ val D' = v /\ (n D <= n D' <= Nat.max (n D) (limbs_needed v))%nat
  | None, None => True
  | _, _ => False
  end.

Definition wanted (D : option mpi) : Prop := match D with Some D => wf D | None => True end.

Lemma if_wanted_ok D f v : wanted D ->
  (forall D0, wf D0 -> exists D', f D0 = Ok D' /\ written (Some D0) (Some D') v) ->
  exists D', if_wanted D f = Ok D' /\ written D D' v.
Proof.
  intros W H. destruct D as [D|]; cbn [if_wanted]; [|by exists None]. destruct (H D W) as (D' & -> & R). by exists (Some D').
Qed.

Lemma sign_val X : wf X -> val X <> 0 -> s X = Z.sgn (val X).
Proof. intros [[H|H] L] Hv; unfold val in *; rewrite H in *; pose proof (mag_nonneg _ L); lia. Qed.

Lemma cmp_zero B : wf B -> (mbedtls_mpi_cmp_int B 0 =? 0) = (val B =? 0).
Proof. intros W. rewrite cmp_int_ok by (try done; lia). rewrite Z.sub_0_r. destruct (Z.eqb_spec (val B) 0), (Z.eqb_spec (Z.sgn (val B)) 0); lia || done. Qed.

(** The sign of a copy of limbs is set afterwards. *)
Lemma copy_sign D z x v : wf D -> limbs_ok z -> z <> [] -> x = 1 \/ x = -1 -> x * mag z = v -> Z.of_nat (limbs_needed v) <= MBEDTLS_MPI_MAX_LIMBS ->
  exists D', mbedtls_mpi_copy D (mkMpi 1 z) = Ok D' /\ written (Some D) (Some (set_s x D')) v.
Proof.
  intros WD Hz Hne Hx Hv Hm. assert (Wz : wf (mkMpi 1 z)) by (split; [by left|done]). pose proof (mag_nonneg z Hz) as M0.
  assert (Vz : val (mkMpi 1 z) = mag z) by (unfold val; cbn [s p]; lia).
  assert (En : limbs_needed (mag z) = limbs_needed v) by (unfold limbs_needed; do 3 f_equal; destruct Hx; subst; lia).
  destruct (copy_val D (mkMpi 1 z) WD Wz) as (D' & E & W & V & N & S); [by rewrite Vz, En|]. rewrite Vz in *. exists D'. split; [exact E|].
  cbn [written]. split; [by apply wf_set_s|]. rewrite En in N. split; [|exact N].
  assert (S1 : s D' = 1) by (apply S; unfold n; cbn [p]; by destruct z). unfold val in V |- *. rewrite S1 in V. cbn [set_s s p]. lia.
Qed.

(** The division of the code truncates: the quotient and the remainder of C. *)
Lemma div_mpi_ok Q R A B : wanted Q -> wanted R -> wf A -> wf B -> val B <> 0 ->
  Z.of_nat (n A) + 3 <= MBEDTLS_MPI_MAX_LIMBS -> Z.of_nat (n B) < MBEDTLS_MPI_MAX_LIMBS ->
  exists Q' R', mbedtls_mpi_div_mpi Q R A B = Ok (Q', R') /\ written Q Q' (Z.quot (val A) (val B)) /\ written R R' (Z.rem (val A) (val B)).
Proof.
  intros WQ WR WA WB HB MA MB. unfold mbedtls_mpi_div_mpi. rewrite cmp_zero by done. rewrite (proj2 (Z.eqb_neq _ _)) by done.
  rewrite cmp_abs_ok, <- !val_abs by done. set (a := val A) in *. set (b := val B) in *.
  assert (Hfit : forall v, Z.abs v <= Z.abs a -> (limbs_needed v <= Nat.max 1 (n A))%nat).
  { intros v Hv. apply limbs_needed_le; [lia|]. pose proof (wf_mag A WA) as RA. rewrite <- val_abs in RA by done. fold a in RA.
    pose proof (radix_pow_le (n A) (Nat.max 1 (n A)) ltac:(lia)). lia. }
  destruct (Z.ltb_spec (Z.sgn (Z.abs a - Z.abs b)) 0) as [Hlt|Hge].
  - rewrite (proj2 (Z.quot_small_iff a b HB)), (proj2 (Z.rem_small_iff a b HB)) by lia.
    destruct (if_wanted_ok Q (fun Q => mbedtls_mpi_lset Q 0) 0 WQ) as (Q' & -> & HQ).
    { intros D W. destruct (lset_ok D 0 W ltac:(lia)) as (D' & E & W' & V' & _ & N'). exists D'. split; [exact E|]. cbn [written].
      change (limbs_needed 0) with 1%nat. split_and!; try done; lia. }
    destruct (if_wanted_ok R (fun R => mbedtls_mpi_copy R A) a WR) as (R' & -> & HR).
    { intros D W. destruct (copy_val D A W WA) as (D' & E & W' & V' & N' & _); [fold a; specialize (Hfit a ltac:(lia)); unfold MBEDTLS_MPI_MAX_LIMBS in *; lia|].
      exists D'. split; [exact E|]. cbn [written]. fold a in N'. split_and!; try done; lia. }
    cbn [mbind result_bind]. by exists Q', R'.
  - destruct (div_core_ok A B WA WB HB ltac:(fold a b; lia) MA MB) as (z & X & k & -> & Lz & El & WX & Rk & Mz & VX & NX). fold a b in Mz, VX. cbn [mbind result_bind].
    assert (Ha : a <> 0) by lia. pose proof (sign_val A WA Ha) as SA. pose proof (sign_val B WB HB) as SB. fold a b in SA, SB.
    rewrite (Z.quot_div a b HB), (Z.rem_mod a b HB), SA, SB, <- Mz. set (r := Z.abs a mod Z.abs b) in *.
    assert (Rr : 0 <= r < Z.abs b) by (apply Z.mod_pos_bound; lia). assert (P2 : 0 < 2 ^ k) by (apply Z.pow_pos_nonneg; lia).
    assert (Hz : 0 <= mag z <= Z.abs a) by (rewrite Mz; split; [apply Z.div_pos; lia|]; apply Z.div_le_upper_bound; nia).
    destruct (if_wanted_ok Q (fun Q => Q ← mbedtls_mpi_copy Q (mkMpi 1 z); Ok (set_s (Z.sgn a * Z.sgn b) Q)) (Z.sgn a * Z.sgn b * mag z) WQ) as (Q' & -> & HQ).
    { intros D W. assert (Hs : Z.sgn a * Z.sgn b = 1 \/ Z.sgn a * Z.sgn b = -1) by nia.
      assert (Hf : Z.of_nat (limbs_needed (Z.sgn a * Z.sgn b * mag z)) <= MBEDTLS_MPI_MAX_LIMBS).
      { specialize (Hfit (Z.sgn a * Z.sgn b * mag z) ltac:(nia)). unfold MBEDTLS_MPI_MAX_LIMBS in *. lia. }
      assert (Hne : z <> []) by (destruct z; [cbn [length] in El; lia|done]).
      destruct (copy_sign D z (Z.sgn a * Z.sgn b) (Z.sgn a * Z.sgn b * mag z) W Lz Hne Hs eq_refl Hf) as (D' & -> & HD).
      by exists (set_s (Z.sgn a * Z.sgn b) D'). }
    destruct (if_wanted_ok R (fun R => X0 ← mbedtls_mpi_shift_r X k; R0 ← mbedtls_mpi_copy R (set_s (Z.sgn a) X0);
                Ok (if mbedtls_mpi_cmp_int R0 0 =? 0 then set_s 1 R0 else R0)) (Z.sgn a * r) WR) as (R' & -> & HR).
    { intros D W. destruct (shift_r_ok X k WX ltac:(lia)) as (X' & -> & WX' & MX' & _ & _). cbn [mbind result_bind].
      assert (W' : wf (set_s (Z.sgn a) X')) by (apply wf_set_s; [lia|done]).
      assert (V' : val (set_s (Z.sgn a) X') = Z.sgn a * r).
      { unfold val, set_s. cbn [s p]. rewrite MX', (val_nonneg X WX), VX by (rewrite VX; nia). rewrite Z.div_mul by lia. done. }
      assert (Hr : r <= Z.abs a) by (apply Z.mod_le; lia).
      destruct (copy_val D (set_s (Z.sgn a) X') W W') as (D' & -> & WD & VD & ND & _); [rewrite V'; specialize (Hfit (Z.sgn a * r) ltac:(nia)); unfold MBEDTLS_MPI_MAX_LIMBS in *; lia|].
      cbn [mbind result_bind]. rewrite V' in *. eexists. split; [reflexivity|]. rewrite cmp_zero by done. cbn [written].
      destruct (Z.eqb_spec (val D') 0) as [E0|E0]; [|split_and!; try done; apply WD || lia].
      split; [apply wf_set_s; [by left|done]|]. split; [|exact ND]. unfold val, set_s. cbn [s p]. rewrite <- val_abs by done. lia. }
    cbn [mbind result_bind]. by exists Q', R'.
Qed.

Lemma div_mpi_zero Q R A B : wf B -> val B = 0 -> mbedtls_mpi_div_mpi Q R A B = Err MBEDTLS_ERR_MPI_DIVISION_BY_ZERO.
Proof. intros W E. unfold mbedtls_mpi_div_mpi. rewrite cmp_zero, E by done. done. Qed.

Lemma div_int_ok Q R A b : wanted Q -> wanted R -> wf A -> - 2 ^ 63 <= b < 2 ^ 63 -> b <> 0 -> Z.of_nat (n A) + 3 <= MBEDTLS_MPI_MAX_LIMBS ->
  exists Q' R', mbedtls_mpi_div_int Q R A b = Ok (Q', R') /\ written Q Q' (Z.quot (val A) b) /\ written R R' (Z.rem (val A) b).
Proof.
  intros WQ WR WA Hb H0 MA. destruct (int_ok b Hb) as (Wb & Vb & Nb). unfold mbedtls_mpi_div_int.
  destruct (div_mpi_ok Q R A (mpi_of_int b) WQ WR WA Wb) as (Q' & R' & E & HQ & HR); [by rewrite Vb|done|rewrite Nb; done|].
  rewrite Vb in HQ, HR. by exists Q', R'.
Qed.

(** ** Modulo *)

Lemma mod_up_ok R B K fuel : wf R -> wf B -> 0 < val B -> Z.abs (val R) < val B -> (n R <= K)%nat -> (S (n B) <= K)%nat ->
  Z.of_nat K <= MBEDTLS_MPI_MAX_LIMBS -> (2 <= fuel)%nat ->
  exists R', mod_up R B fuel = Ok R' /\ wf R' /\ val R' = val R mod val B /\ (n R <= n R' <= K)%nat.
Proof.
  intros WR WB HB HR NR NB HK Hf. destruct fuel as [|[|fuel]]; [lia..|]. cbn [mod_up]. rewrite cmp_int_ok by (try done; lia). rewrite Z.sub_0_r.
  destruct (Z.ltb_spec (Z.sgn (val R)) 0) as [Hn|Hn]; [|exists R; rewrite Z.mod_small by lia; split_and!; done || lia].
  assert (Hsum : Z.abs (val R) + Z.abs (val B) < radix ^ Z.of_nat K).
  { pose proof (wf_mag B WB) as RB. rewrite <- val_abs in RB by done. pose proof (radix_pow_le (S (n B)) K NB) as P. rewrite radix_pow in P.
    assert (2 <= radix) by (unfold radix; lia). clear - HR HB RB P H. nia. }
  destruct (add_mpi_ok R R B K WR WR WB Hsum) as (R1 & -> & W1 & V1 & N1); [lia..|]. cbn [mbind result_bind].
  rewrite cmp_int_ok by (try done; lia). rewrite Z.sub_0_r. rewrite (proj2 (Z.ltb_ge _ _)) by lia. exists R1. split; [done|]. split; [done|]. split; [|lia].
  rewrite V1. apply Z.mod_unique with (-1); lia.
Qed.

Lemma mod_mpi_ok R A B K : wf R -> wf A -> wf B -> 0 < val B -> (n R <= K)%nat -> (S (n B) <= K)%nat -> Z.of_nat K <= MBEDTLS_MPI_MAX_LIMBS ->
  Z.of_nat (n A) + 3 <= MBEDTLS_MPI_MAX_LIMBS ->
  exists R', mbedtls_mpi_mod_mpi R A B = Ok R' /\ wf R' /\ val R' = val A mod val B /\ (n R <= n R' <= K)%nat.
Proof.
  intros WR WA WB HB NR NB HK MA. unfold mbedtls_mpi_mod_mpi. rewrite cmp_int_ok by (try done; lia). rewrite Z.sub_0_r. rewrite (proj2 (Z.ltb_ge _ _)) by lia.
  destruct (div_mpi_ok None (Some R) A B I WR WA WB ltac:(lia) MA ltac:(lia)) as (Q' & R' & -> & _ & HR). cbn [mbind result_bind].
  destruct R' as [R'|]; [|destruct HR]. destruct HR as (WR' & VR' & NR'). cbn [default from_option].
  pose proof (Z.rem_bound_abs (val A) (val B) ltac:(lia)) as Hrem.
  assert (Hneed : (limbs_needed (Z.rem (val A) (val B)) <= K)%nat).
  { apply limbs_needed_le; [lia|]. pose proof (wf_mag B WB) as RB. rewrite <- val_abs in RB by done. pose proof (radix_pow_le (n B) K ltac:(lia)). lia. }
  change (id R') with R'.
  destruct (mod_up_ok R' B K 2 WR' WB HB ltac:(lia) ltac:(lia) NB HK ltac:(lia)) as (R1 & -> & W1 & V1 & N1). cbn [mbind result_bind].
  assert (Em : val R1 = val A mod val B).
  { rewrite V1, VR'. pose proof (Z.quot_rem' (val A) (val B)) as E. rewrite E at 2. rewrite Z.add_comm, Z.mul_comm. by rewrite Z.mod_add by lia. }
  pose proof (Z.mod_pos_bound (val A) (val B) HB). cbn [mod_down]. rewrite cmp_mpi_ok by done.
  rewrite (proj2 (Z.leb_gt _ _)) by lia. exists R1. split_and!; try done; lia.
Qed.

Lemma mod_mpi_negative R A B : wf B -> val B < 0 -> mbedtls_mpi_mod_mpi R A B = Err MBEDTLS_ERR_MPI_NEGATIVE_VALUE.
Proof. intros W H. unfold mbedtls_mpi_mod_mpi. rewrite cmp_int_ok by (try done; lia). rewrite Z.sub_0_r. by rewrite (proj2 (Z.ltb_lt _ _)) by lia. Qed.

Lemma mod_mpi_zero R A B : wf B -> val B = 0 -> mbedtls_mpi_mod_mpi R A B = Err MBEDTLS_ERR_MPI_DIVISION_BY_ZERO.
Proof.
  intros W H. unfold mbedtls_mpi_mod_mpi. rewrite cmp_int_ok by (try done; lia). rewrite Z.sub_0_r, H. change (Z.sgn 0 <? 0) with false. cbv iota.
  by rewrite div_mpi_zero.
Qed.

(** The half limbs of [mbedtls_mpi_mod_int] fit in a limb as long as the modulus
    fits in half a limb. *)
Lemma mod_int_step_ok b x y : 0 < b <= 2 ^ 32 -> limb x -> 0 <= y < b -> mod_int_step b x y = (x + radix * y) mod b.
Proof.
  intros Hb Hx Hy. unfold mod_int_step.
  assert (Half : forall y h, 0 <= y < b -> 0 <= h < 2 ^ 32 ->
    u64 (Z.lor (u64 (Z.shiftl y 32)) h - u64 (Z.lor (u64 (Z.shiftl y 32)) h / b * b)) = (y * 2 ^ 32 + h) mod b).
  { intros y' h Hy' Hh. rewrite Z.shiftl_mul_pow2 by lia. unfold u64 at 2 4. rewrite (Z.mod_small (y' * 2 ^ 32)) by nia. rewrite lor_add by (lia || exact Hh).
    set (w := y' * 2 ^ 32 + h). assert (Rw : 0 <= w < radix) by (unfold w, radix; nia). pose proof (Z.div_mod w b ltac:(lia)) as D.
    pose proof (Z.mod_pos_bound w b ltac:(lia)) as R. assert (0 <= w / b * b <= w) by (assert (0 <= w / b) by (apply Z.div_pos; lia); nia).
    rewrite (u64_radix (w / b * b)), Z.mod_small by lia. rewrite u64_radix, Z.mod_small; lia. }
  unfold radix in Hx. rewrite !Z.shiftr_div_pow2 by lia. set (hi := x / 2 ^ 32). set (lo := x mod 2 ^ 32).
  assert (Ex : x = hi * 2 ^ 32 + lo) by (unfold hi, lo; pose proof (Z.div_mod x (2 ^ 32)); lia).
  assert (Rh : 0 <= hi < 2 ^ 32) by (unfold hi; split; [apply Z.div_pos; lia|apply Z.div_lt_upper_bound; lia]).
  assert (Rl : 0 <= lo < 2 ^ 32) by (apply Z.mod_pos_bound; lia).
  assert (El : u64 (Z.shiftl x 32) / 2 ^ 32 = lo).
  { rewrite Z.shiftl_mul_pow2 by lia. unfold u64. change (2 ^ 64) with (2 ^ 32 * 2 ^ 32). rewrite Z.mul_mod_distr_r by lia. by rewrite Z.div_mul. }
  rewrite El, (Half y hi Hy Rh), (Half _ lo) by (try done; apply Z.mod_pos_bound; lia).
  rewrite Z.add_mod, Z.mul_mod, Z.mod_mod, <- Z.mul_mod, <- Z.add_mod by lia. f_equal. rewrite Ex. unfold radix. ring.
Qed.

Lemma mod_int_loop b l : 0 < b <= 2 ^ 32 -> limbs_ok l -> foldr (mod_int_step b) 0 l = mag l mod b.
Proof.
  intros Hb. induction 1 as [|x l Hx Hl IH]; cbn [foldr mag]; [by rewrite Z.mod_0_l by lia|].
  rewrite IH. rewrite mod_int_step_ok by (try done; apply Z.mod_pos_bound; lia).
  rewrite Z.add_mod, Z.mul_mod, Z.mod_mod, <- Z.mul_mod, <- Z.add_mod by lia. done.
Qed.

Lemma mod_int_ok A b : wf A -> 0 < b <= 2 ^ 32 -> mbedtls_mpi_mod_int A b = Ok (val A mod b).
Proof.
  intros W Hb. unfold mbedtls_mpi_mod_int. rewrite (proj2 (Z.eqb_neq b 0)), (proj2 (Z.ltb_ge b 0)) by lia.
  destruct (Z.eqb_spec b 1) as [->|H1]; [by rewrite Z.mod_1_r|]. cbn [orb]. destruct (Nat.eqb_spec (n A) 0) as [E|E].
  { unfold val. assert (p A = []) as -> by (unfold n in E; by destruct (p A)). cbn [mag]. by rewrite Z.mul_0_r, Z.mod_0_l by lia. }
  assert (Hneg : forall m, s A * m = val A -> m mod b = mag (p A) mod b -> 0 <= m ->
    (if (s A <? 0) && negb (m mod b =? 0) then u64 (b - m mod b) else m mod b) = val A mod b).
  { intros m Hm Em H0. pose proof (Z.mod_pos_bound m b ltac:(lia)) as R. destruct W as [[Es|Es] _]; rewrite Es in *.
    - change (1 <? 0) with false. cbn [andb]. f_equal. lia.
    - change (-1 <? 0) with true. cbn [andb]. replace (val A) with (- m) by lia. destruct (Z.eqb_spec (m mod b) 0) as [E0|E0]; cbn [negb].
      + rewrite Z.mod_opp_l_z by lia. done.
      + rewrite Z.mod_opp_l_nz by lia. unfold u64. apply Z.mod_small. lia. }
  assert (Hl : limbs_ok (p A)) by apply W. pose proof (mag_nonneg _ Hl) as M0.
  destruct (Z.eqb_spec b 2) as [->|H2].
  - f_equal. rewrite <- Hneg with (m := mag (p A)) by done. destruct (p A) as [|x l] eqn:Ep; [unfold n in E; by rewrite Ep in E|]. cbn [nth mag].
    change (Z.land x 1) with (Z.land x (Z.ones 1)). rewrite (Z.land_ones x 1) by lia. change (2 ^ 1) with 2. replace (x + radix * mag l) with (x + (2 ^ 63 * mag l) * 2) by (unfold radix; lia).
    rewrite Z.mod_add by lia. pose proof (Z.mod_pos_bound x 2 ltac:(lia)). destruct (s A <? 0); cbn [andb]; [|done].
    destruct (Z.eqb_spec (x mod 2) 0); cbn [negb]; [done|]. assert (x mod 2 = 1) as -> by lia. done.
  - rewrite mod_int_loop by done. f_equal. by rewrite <- Hneg with (m := mag (p A)).
Qed.

(** C14. The division gives the truncated quotient and the remainder with the
    sign of the dividend to the destinations asked for, the modulo function the
    residue below a positive modulus; a zero divisor and a negative modulus are
    refused.  The loops of the code end within the fuel of the definitions. *)
Theorem mpi_division_correct Q R A B : wanted Q -> wf R -> wf A -> wf B -> Z.of_nat (n A) + 3 <= MBEDTLS_MPI_MAX_LIMBS -> Z.of_nat (Nat.max (n R) (S (n B))) <= MBEDTLS_MPI_MAX_LIMBS ->
  (if val B =? 0 then mbedtls_mpi_div_mpi Q (Some R) A B = Err MBEDTLS_ERR_MPI_DIVISION_BY_ZERO
   else exists Q' R', mbedtls_mpi_div_mpi Q (Some R) A B = Ok (Q', R') /\ written Q Q' (Z.quot (val A) (val B)) /\ written (Some R) R' (Z.rem (val A) (val B))) /\
  (if 0 <? val B then exists R', mbedtls_mpi_mod_mpi R A B = Ok R' /\ wf R' /\ val R' = val A mod val B
   else mbedtls_mpi_mod_mpi R A B = Err (if val B =? 0 then MBEDTLS_ERR_MPI_DIVISION_BY_ZERO else MBEDTLS_ERR_MPI_NEGATIVE_VALUE)).
Proof.
  intros WQ WR WA WB MA MB. split.
  - destruct (Z.eqb_spec (val B) 0) as [E|E]; [by apply div_mpi_zero|]. apply div_mpi_ok; (done || lia).
  - destruct (Z.ltb_spec 0 (val B)) as [H|H].
    + destruct (mod_mpi_ok R A B (Nat.max (n R) (S (n B))) WR WA WB H) as (R' & E & W & V & _); [lia..|]. by exists R'.
    + destruct (Z.eqb_spec (val B) 0) as [E|E]; [by apply mod_mpi_zero|]. apply mod_mpi_negative; (done || lia).
Qed.

Lemma mpi_division_correct_witness : exists R', mbedtls_mpi_mod_mpi mbedtls_mpi_init (mkMpi (-1) [5; 2 ^ 63]) (mkMpi 1 [2 ^ 62 + 1]) = Ok R' /\ wf R' /\ val R' = (- (5 + 2 ^ 127)) mod (2 ^ 62 + 1).
Proof.
  assert (WA : wf (mkMpi (-1) [5; 2 ^ 63])) by (split; [by right|limbs_literal]). assert (WB : wf (mkMpi 1 [2 ^ 62 + 1])) by (split; [by left|limbs_literal]).
  exact (proj2 (mpi_division_correct None mbedtls_mpi_init _ _ I wf_init WA WB ltac:(vm_compute; discriminate) ltac:(vm_compute; discriminate))).
Defined.

(** With a modulus above half a limb the half limbs overflow. *)
Lemma mod_int_wide : mbedtls_mpi_mod_int (mkMpi 1 [0; 2 ^ 32]) (2 ^ 32 + 1) = Ok 0 /\ 2 ^ 96 mod (2 ^ 32 + 1) = 2 ^ 32.
Proof. split; vm_compute; reflexivity. Qed.

End Division.
