(* ===== verification/MpiCt.v ===== *)
(** The constant-time functions on multi-precision integers
    (mbedtls/library/constant_time.c) and the table look-up of bignum.c that is
    built on them.  A sign passes through [unsigned] and back to [int]. *)
From S2P Require Import Prelude Words ConstantTime Limbs Bignum.
From stdpp Require Import list.
#[local] Open Scope Z_scope.

Module MpiCt.
Import ConstantTime Bignum.

(** ** Operations *)

(** [(int) mbedtls_ct_uint_if(condition, s1, s0)] of two signs. *)
Definition sign_if (condition s1 s0 : Z) : Z := s32 (mbedtls_ct_uint_if condition (u32 s1) (u32 s0)).

Definition mbedtls_mpi_safe_cond_assign (X Y : mpi) (assign : Z) : result mpi :=
  let limb_mask := mbedtls_ct_mpi_uint_mask assign in
  X ← mbedtls_mpi_grow X (n Y);
  let l := mbedtls_ct_mpi_uint_cond_assign (p X) (p Y) assign in
  Ok (mkMpi (sign_if assign (s Y) (s X))
        (take (n Y) l ++ map (fun x => Z.land x (bitnot 64 limb_mask)) (drop (n Y) l))).

(** A limb of [X] and of [Y] after the swap. *)
Definition swap_limb (limb_mask x y : Z) : Z := Z.lor (Z.land x (bitnot 64 limb_mask)) (Z.land y limb_mask).

Definition mbedtls_mpi_safe_cond_swap (X Y : mpi) (swap : Z) : result (mpi * mpi) :=
  let limb_mask := mbedtls_ct_mpi_uint_mask swap in
  X ← mbedtls_mpi_grow X (n Y);
  Y ← mbedtls_mpi_grow Y (n X);
  Ok (mkMpi (sign_if swap (s Y) (s X)) (zip_with (swap_limb limb_mask) (p X) (p Y)),
      mkMpi (sign_if swap (s X) (s Y)) (zip_with (swap_limb limb_mask) (p Y) (p X))).

(** The loop from limb [i - 1] down, with [*ret] and [done]. *)
Fixpoint lt_loop (x y : list Z) (X_is_negative ret done : Z) (i : nat) : Z :=
  match i with
  | O => ret
  | S i =>
      let cond := mbedtls_ct_mpi_uint_lt (nth i y 0) (nth i x 0) in
      let ret := Z.lor ret (Z.land (Z.land cond (1 - done)) X_is_negative) in
      let done := Z.lor done cond in
      let cond := mbedtls_ct_mpi_uint_lt (nth i x 0) (nth i y 0) in
      let ret := Z.lor ret (Z.land (Z.land cond (1 - done)) (1 - X_is_negative)) in
      let done := Z.lor done cond in
      lt_loop x y X_is_negative ret done i
  end.

Definition mbedtls_mpi_lt_mpi_ct (X Y : mpi) : result Z :=
  if negb (n X =? n Y)%nat then Err MBEDTLS_ERR_MPI_BAD_INPUT_DATA
  else
    let X_is_negative := Z.shiftr (Z.land (s X) 2) 1 in
    let Y_is_negative := Z.shiftr (Z.land (s Y) 2) 1 in
    let cond := Z.lxor X_is_negative Y_is_negative in
    Ok (lt_loop (p X) (p Y) X_is_negative (Z.land cond X_is_negative) cond (n X)).

(** [for (size_t i = 0; i < T_size; i++)] from [i] on. *)
Fixpoint select_from (R : mpi) (T : list mpi) (i idx : nat) : result mpi :=
  match T with
  | [] => Ok R
  | Y :: T =>
      R ← mbedtls_mpi_safe_cond_assign R Y (mbedtls_ct_size_bool_eq (Z.of_nat i) (Z.of_nat idx));
      select_from R T (S i) idx
  end.

Definition mpi_select (R : mpi) (T : list mpi) (T_size idx : nat) : result mpi := select_from R (take T_size T) 0 idx.

(** ** Properties *)

Lemma sign_if_ok (b : bool) x y : x = 1 \/ x = -1 -> y = 1 \/ y = -1 -> sign_if (Z.b2z b) x y = if b then x else y.
Proof. intros [->| ->] [->| ->]; by destruct b. Qed.

Lemma mask_b2z (b : bool) : mbedtls_ct_mpi_uint_mask (Z.b2z b) = if b then radix - 1 else 0.
Proof. by destruct b. Qed.

Lemma land_keep (b : bool) x : limb x -> Z.land x (bitnot 64 (if b then radix - 1 else 0)) = if b then 0 else x.
Proof.
  intros Hx. destruct b; [change (bitnot 64 (radix - 1)) with 0; apply Z.land_0_r|].
  change (bitnot 64 0) with (2 ^ 64 - 1). rewrite Z.land_comm. by apply (land_all_ones 64).
Qed.

Lemma land_take (b : bool) x : limb x -> Z.land x (if b then radix - 1 else 0) = if b then x else 0.
Proof.
  intros Hx. destruct b; [|apply Z.land_0_r]. rewrite Z.land_comm. by apply (land_all_ones 64).
Qed.

Lemma swap_limb_ok (b : bool) x y : limb x -> limb y -> swap_limb (if b then radix - 1 else 0) x y = if b then y else x.
Proof. intros Hx Hy. unfold swap_limb. rewrite land_keep, land_take by done. destruct b; [apply Z.lor_0_l|apply Z.lor_0_r]. Qed.

Lemma cond_assign_ok (b : bool) dest src : limbs_ok dest -> limbs_ok src -> (length src <= length dest)%nat ->
  mbedtls_ct_mpi_uint_cond_assign dest src (Z.b2z b) = if b then src ++ drop (length src) dest else dest.
Proof.
  intros Hd Hs Hl. unfold mbedtls_ct_mpi_uint_cond_assign.
  assert (E : wrap 64 (- Z.b2z b) = if b then radix - 1 else 0) by (by destruct b). rewrite E. clear E.
  assert (Z1 : zip_with (fun d s => Z.lor (Z.land s (if b then radix - 1 else 0)) (Z.land d (bitnot 64 (if b then radix - 1 else 0)))) dest src =
    if b then src else take (length src) dest).
  { revert dest Hd Hl. induction Hs as [|y src Hy Hs IH]; intros [|x dest] Hd Hl; cbn [length] in Hl; try lia; [by destruct b..|].
    inversion Hd as [|? ? Hx Hd']; subst. cbn [zip_with length take]. rewrite IH by (done || lia). rewrite land_keep, land_take by done.
    destruct b; [by rewrite Z.lor_0_r|by rewrite Z.lor_0_l]. }
  rewrite Z1. destruct b; [done|apply take_drop].
Qed.

Lemma safe_cond_assign_ok X Y (b : bool) : wf X -> wf Y -> Z.of_nat (n Y) <= MBEDTLS_MPI_MAX_LIMBS ->
  exists X', mbedtls_mpi_safe_cond_assign X Y (Z.b2z b) = Ok X' /\ wf X' /\ s X' = s (if b then Y else X) /\
    mag (p X') = mag (p (if b then Y else X)) /\ n X' = Nat.max (n X) (n Y).
Proof.
  intros WX WY Hm. unfold mbedtls_mpi_safe_cond_assign. destruct (grow_ok X (n Y) WX Hm) as (X1 & -> & W1 & S1 & M1 & N1).
  cbn [mbind result_bind]. pose proof W1 as [Hs1 Hl1]. pose proof WY as [HsY HlY].
  rewrite cond_assign_ok, mask_b2z by (try done; unfold n in *; lia). rewrite sign_if_ok by done.
  eexists. split; [reflexivity|]. unfold n in *. unfold wf. cbn [s p].
  assert (Map : forall l, limbs_ok l -> map (fun x => Z.land x (bitnot 64 (if b then radix - 1 else 0))) l = if b then repeat 0 (length l) else l).
  { intros l. induction 1 as [|x l Hx Hl IH]; [by destruct b|]. cbn [map length repeat]. rewrite IH, land_keep by done. by destruct b. }
  destruct b.
  - rewrite take_app_length, drop_app_length. rewrite Map by auto with limbs. rewrite mag_app_zeros.
    split; [split; [done|apply limbs_app; auto with limbs]|]. split; [done|]. split; [done|].
    rewrite length_app, repeat_length, length_drop. lia.
  - rewrite Map by auto with limbs. rewrite take_drop. split; [by split|]. split; [done|]. split; [done|]. lia.
Qed.

Lemma safe_cond_swap_ok X Y (b : bool) : wf X -> wf Y -> Z.of_nat (Nat.max (n X) (n Y)) <= MBEDTLS_MPI_MAX_LIMBS ->
  exists X' Y', mbedtls_mpi_safe_cond_swap X Y (Z.b2z b) = Ok (X', Y') /\ wf X' /\ wf Y' /\
    val X' = val (if b then Y else X) /\ val Y' = val (if b then X else Y) /\ n X' = Nat.max (n X) (n Y) /\ n Y' = Nat.max (n X) (n Y).
Proof.
  intros WX WY Hm. unfold mbedtls_mpi_safe_cond_swap. destruct (grow_ok X (n Y) WX ltac:(lia)) as (X1 & -> & W1 & S1 & M1 & N1).
  cbn [mbind result_bind]. destruct (grow_ok Y (n X1) WY ltac:(lia)) as (Y1 & -> & W2 & S2 & M2 & N2). cbn [mbind result_bind].
  pose proof W1 as [Hs1 Hl1]. pose proof W2 as [Hs2 Hl2]. rewrite mask_b2z, !sign_if_ok by done.
  assert (Zip : forall x y, limbs_ok x -> limbs_ok y -> length x = length y -> zip_with (swap_limb (if b then radix - 1 else 0)) x y = if b then y else x).
  { intros x y Hx. revert y. induction Hx as [|a x Ha Hx IH]; intros [|c y] Hy E; try discriminate; [by destruct b|]. inversion Hy; subst.
    cbn [zip_with]. rewrite IH, swap_limb_ok by (try done; cbn in E; lia). by destruct b. }
  unfold n in *. rewrite !Zip by (try done; lia). eexists _, _. split; [reflexivity|]. unfold wf, val. cbn [s p].
  destruct b; split_and!; try done; rewrite ?S1, ?S2, ?M1, ?M2; try done; lia.
Qed.

(** The bits of [lt_loop] as booleans. *)
Lemma lt_loop_ok x y (xn ret done : bool) : limbs_ok x -> limbs_ok y -> forall i, (i <= length x)%nat -> (i <= length y)%nat ->
  lt_loop x y (Z.b2z xn) (Z.b2z ret) (Z.b2z done) i =
    Z.b2z (ret || (negb done && (if xn then mag (take i y) <? mag (take i x) else mag (take i x) <? mag (take i y)))).
Proof.
  intros Hx Hy i. revert ret done. induction i as [|i IH]; intros ret done Hi1 Hi2; cbn [lt_loop].
  - rewrite !take_0. cbn [mag]. rewrite Z.ltb_irrefl. destruct xn; by rewrite andb_false_r, orb_false_r.
  - pose proof (limbs_nth x i Hx) as Lx. pose proof (limbs_nth y i Hy) as Ly. rewrite !ct_mpi_uint_lt_eq by done.
    rewrite !mag_take_S by lia. pose proof (mag_range _ (limbs_take i x Hx)) as Rx. pose proof (mag_range _ (limbs_take i y Hy)) as Ry.
    rewrite length_take, Nat.min_l in Rx, Ry by lia. pose proof (radix_pow_pos i) as Pi.
    set (a := nth i x 0) in *. set (c := nth i y 0) in *. set (ma := mag (take i x)) in *. set (mc := mag (take i y)) in *. set (r := radix ^ Z.of_nat i) in *.
    assert (H1 : forall a b : bool, Z.land (Z.b2z a) (Z.b2z b) = Z.b2z (a && b)) by (by intros [] []).
    assert (H2 : forall a b : bool, Z.lor (Z.b2z a) (Z.b2z b) = Z.b2z (a || b)) by (by intros [] []).
    assert (H3 : forall a : bool, 1 - Z.b2z a = Z.b2z (negb a)) by (by intros []).
    rewrite !H3, !H1, !H2, !H3, !H1, !H2. rewrite IH by lia. f_equal.
    destruct (Z.lt_trichotomy a c) as [Hlt|[Heq|Hgt]].
    + rewrite (proj2 (Z.ltb_ge c a)), (proj2 (Z.ltb_lt a c)) by lia. rewrite (proj2 (Z.ltb_ge (mc + r * c) _)), (proj2 (Z.ltb_lt (ma + r * a) _)) by nia.
      by destruct ret, done, xn.
    + rewrite Heq, Z.ltb_irrefl. replace (mc + r * c <? ma + r * c) with (mc <? ma) by (destruct (Z.ltb_spec mc ma), (Z.ltb_spec (mc + r * c) (ma + r * c)); done || lia).
      replace (ma + r * c <? mc + r * c) with (ma <? mc) by (destruct (Z.ltb_spec ma mc), (Z.ltb_spec (ma + r * c) (mc + r * c)); done || lia).
      destruct ret, done, xn; cbn; try done; by destruct (_ <? _).
    + rewrite (proj2 (Z.ltb_lt c a)), (proj2 (Z.ltb_ge a c)) by lia. rewrite (proj2 (Z.ltb_lt (mc + r * c) _)), (proj2 (Z.ltb_ge (ma + r * a) _)) by nia.
      by destruct ret, done, xn.
Qed.

(** The comparison is the one of the limbs with their sign: it is that of the
    values unless both are zero with different signs. *)
Lemma lt_mpi_ct_ok X Y : wf X -> wf Y -> n X = n Y -> (val X = 0 -> val Y = 0 -> s X = s Y) ->
  mbedtls_mpi_lt_mpi_ct X Y = Ok (Z.b2z (val X <? val Y)).
Proof.
  intros [HsX HX] [HsY HY] HN Hz. unfold mbedtls_mpi_lt_mpi_ct. rewrite (proj2 (Nat.eqb_eq _ _) HN). cbn [negb]. f_equal.
  pose proof (mag_nonneg _ HX). pose proof (mag_nonneg _ HY). unfold val in *. unfold n in *.
  pose proof (lt_loop_ok (p X) (p Y)) as L. 
  destruct HsX as [E1|E1], HsY as [E2|E2]; rewrite E1, E2 in *.
  - change (Z.shiftr (Z.land 1 2) 1) with (Z.b2z false). change (Z.lxor (Z.b2z false) (Z.b2z false)) with (Z.b2z false).
    change (Z.land (Z.b2z false) (Z.b2z false)) with (Z.b2z false). rewrite L by (done || lia). rewrite firstn_all, HN, firstn_all. cbn [orb negb andb]. by rewrite !Z.mul_1_l.
  - change (Z.shiftr (Z.land 1 2) 1) with (Z.b2z false). change (Z.shiftr (Z.land (-1) 2) 1) with (Z.b2z true).
    change (Z.lxor (Z.b2z false) (Z.b2z true)) with (Z.b2z true). change (Z.land (Z.b2z true) (Z.b2z false)) with (Z.b2z false).
    rewrite L by (done || lia). cbn [orb negb andb]. rewrite (proj2 (Z.ltb_ge _ _)) by lia. done.
  - change (Z.shiftr (Z.land 1 2) 1) with (Z.b2z false). change (Z.shiftr (Z.land (-1) 2) 1) with (Z.b2z true).
    change (Z.lxor (Z.b2z true) (Z.b2z false)) with (Z.b2z true). change (Z.land (Z.b2z true) (Z.b2z true)) with (Z.b2z true).
    rewrite L by (done || lia). cbn [orb negb andb]. rewrite (proj2 (Z.ltb_lt _ _)) by lia. done.
  - change (Z.shiftr (Z.land (-1) 2) 1) with (Z.b2z true). change (Z.lxor (Z.b2z true) (Z.b2z true)) with (Z.b2z false).
    change (Z.land (Z.b2z false) (Z.b2z true)) with (Z.b2z false). rewrite L by (done || lia). rewrite firstn_all, HN, firstn_all. cbn [orb negb andb].
    destruct (Z.ltb_spec (mag (p Y)) (mag (p X))), (Z.ltb_spec (-1 * mag (p X)) (-1 * mag (p Y))); done || lia.
Qed.

Lemma lt_mpi_ct_sizes X Y : n X <> n Y -> mbedtls_mpi_lt_mpi_ct X Y = Err MBEDTLS_ERR_MPI_BAD_INPUT_DATA.
Proof. intros H. unfold mbedtls_mpi_lt_mpi_ct. by rewrite (proj2 (Nat.eqb_neq _ _) H). Qed.

Lemma select_from_ok idx K : Z.of_nat K <= MBEDTLS_MPI_MAX_LIMBS -> forall T i R, wf R -> Forall wf T -> Forall (fun Y => (n Y <= K)%nat) T -> (n R <= K)%nat ->
  Z.of_nat (i + length T) < 2 ^ 64 -> Z.of_nat idx < 2 ^ 64 ->
  exists R', select_from R T i idx = Ok R' /\ wf R' /\ (n R <= n R' <= K)%nat /\ (forall Y, Y ∈ T -> (n Y <= n R')%nat) /\
    val R' = val (if (i <=? idx)%nat && (idx <? i + length T)%nat then nth (idx - i) T R else R).
Proof.
  intros HK. induction T as [|Y T IH]; intros i R WR WT NT NR Hi Hidx; cbn [select_from].
  - exists R. split_and!; try done; try lia; [by intros Y ?%elem_of_nil|]. cbn [length]. rewrite Nat.add_0_r.
    destruct (Nat.leb_spec i idx), (Nat.ltb_spec idx i); cbn [andb]; done || lia.
  - inversion WT as [|? ? WY WT']; inversion NT as [|? ? NY NT']; subst. cbn [length] in Hi.
    rewrite ct_size_bool_eq_eq by (unfold word; lia).
    destruct (safe_cond_assign_ok R Y (Z.of_nat i =? Z.of_nat idx) WR WY ltac:(lia)) as (R1 & -> & W1 & S1 & M1 & N1). cbn [mbind result_bind].
    assert (V1 : val R1 = val (if Z.of_nat i =? Z.of_nat idx then Y else R)) by (unfold val; by rewrite S1, M1).
    destruct (IH (S i) R1 W1 WT' NT' ltac:(lia) ltac:(lia) Hidx) as (R' & -> & W' & N' & In' & V'). exists R'. split; [done|]. split; [done|]. split; [lia|].
    split. { intros Z [->|HZ]%elem_of_cons; [lia|by apply In']. }
    rewrite V'. cbn [length]. destruct (Z.eqb_spec (Z.of_nat i) (Z.of_nat idx)) as [E|E].
    + assert (i = idx) as <- by lia. rewrite (proj2 (Nat.leb_gt (S i) i)) by lia. cbn [andb]. rewrite (proj2 (Nat.leb_le i i)), (proj2 (Nat.ltb_lt i _)) by lia. cbn [andb].
      by rewrite Nat.sub_diag.
    + destruct (Nat.leb_spec (S i) idx) as [Hle|Hgt].
      * rewrite (proj2 (Nat.leb_le i idx)) by lia. replace (idx <? i + S (length T))%nat with (idx <? S i + length T)%nat by (f_equal; lia).
        cbn [andb]. destruct (Nat.ltb_spec idx (S i + length T)); [|done]. replace (idx - i)%nat with (S (idx - S i)) by lia. cbn [nth].
        f_equal. apply nth_indep. lia.
      * rewrite (proj2 (Nat.leb_gt i idx)) by lia. done.
Qed.

(** The look-up without a secret index: a copy of the entry. *)
Lemma mpi_select_ok R T T_size idx K : wf R -> Forall wf (take T_size T) -> Forall (fun Y => (n Y <= K)%nat) (take T_size T) -> (n R <= K)%nat ->
  Z.of_nat K <= MBEDTLS_MPI_MAX_LIMBS -> (idx < T_size <= length T)%nat -> Z.of_nat (length T) < 2 ^ 64 ->
  exists R', mpi_select R T T_size idx = Ok R' /\ wf R' /\ val R' = val (nth idx T R) /\ (n R <= n R' <= K)%nat /\ (n (nth idx T R) <= n R')%nat.
Proof.
  intros WR WT NT NR HK Hidx Hl. unfold mpi_select. assert (Lt : length (take T_size T) = T_size) by (rewrite length_take; lia).
  destruct (select_from_ok idx K HK (take T_size T) 0 R WR WT NT NR ltac:(lia) ltac:(lia)) as (R' & -> & W' & N' & In' & V').
  exists R'. split; [done|]. split; [done|]. rewrite Lt, Nat.add_0_l, Nat.sub_0_r in V'. rewrite (proj2 (Nat.leb_le 0 idx)), (proj2 (Nat.ltb_lt idx T_size)) in V' by lia.
  cbn [andb] in V'. assert (E : nth idx (take T_size T) R = nth idx T R).
  { rewrite <- (take_drop T_size T) at 2. by rewrite app_nth1 by lia. }
  rewrite E in V'. split; [done|]. split; [lia|]. apply In'. rewrite <- E. apply list_elem_of_In, nth_In. lia.
Qed.

End MpiCt.
