(* ===== verification/Montgomery.v ===== *)
(** Montgomery multiplication (mbedtls/library/bignum.c): the inverse of the low
    limb, the multiplication and the reduction.  The buffer [T] of the code is
    cleared at each call, so only its length is passed here.  Congruences are
    [eqm], rewritten as an equality. *)
From S2P Require Import Prelude Words ConstantTime Limbs Bignum MpiCt.
From stdpp Require Import list.
#[local] Open Scope Z_scope.

Module Montgomery.
Import ConstantTime Bignum MpiCt.

(** ** Operations *)

(** [x *= (2 - (N[0] * x))] *)
Definition newton_turn (N0 x : Z) : Z := u64 (x * u64 (2 - u64 (N0 * x))).

(** [for (i = biL; i >= 8; i /= 2)]: the turns for 64, 32, 16 and 8. *)
Definition mbedtls_mpi_montmul_init (N : list Z) : Z :=
  let N0 := nth 0 N 0 in
  let x := u64 (N0 + u64 (Z.shiftl (Z.land (u64 (N0 + 2)) 4) 1)) in
  let x := Nat.iter 4 (newton_turn N0) x in
  u64 (u64 (Z.lnot x) + 1).

(** The loop over the limbs of [A], with [d] from where it points. *)
Fixpoint mont_loop (a b nl : list Z) (b0 mm : Z) (d : list Z) : list Z :=
  match a with
  | [] => d
  | u0 :: a =>
      let u1 := u64 (u64 (nth 0 d 0 + u64 (u0 * b0)) * mm) in
      let d := mpi_mul_hlp b d u0 in
      let d := mpi_mul_hlp nl d u1 in
      mont_loop a b nl b0 mm (<[(length nl + 1)%nat := 0]> (tail d))
  end.

(** [T] is the number of limbs of the scratch number. *)
Definition mbedtls_mpi_montmul (A B N : mpi) (mm : Z) (T : nat) : mpi :=
  let d := repeat 0 T in
  let k := n N in
  let m := if (n B <? k)%nat then n B else k in
  let d := mont_loop (take k (p A)) (take m (p B)) (p N) (nth 0 (p B) 0) mm d in
  let a := take k d in
  let '(r, borrow) := mpi_sub_hlp (take k d) (p N) 0 in
  let dn := u64 (u64 (nth k d 0 + 1) - borrow) in
  mkMpi (s A) (mbedtls_ct_mpi_uint_cond_assign a r (u8 dn) ++ drop k (p A)).

Definition mpi_montred (A N : mpi) (mm : Z) (T : nat) : mpi := mbedtls_mpi_montmul A (mkMpi 1 [1]) N mm T.

#[export] Existing Instances eqm_setoid Zplus_eqm Zminus_eqm Zmult_eqm Zopp_eqm.

(** ** The inverse of the low limb *)

Lemma eqm_of_diff N a b q : a = b + q * N -> eqm N a b.
Proof. intros ->. unfold eqm. apply Z_mod_plus_full. Qed.

Lemma eqm_diff N a b : N <> 0 -> eqm N a b -> exists q, a = b + q * N.
Proof.
  intros H0 H. unfold eqm in H. exists (a / N - b / N). pose proof (Z.div_mod a N H0). pose proof (Z.div_mod b N H0). lia.
Qed.

Lemma eqm_u64 z : eqm radix (u64 z) z.
Proof. apply Z.mod_mod. discriminate. Qed.

Lemma newton_eqm N0 x : eqm radix (newton_turn N0 x) (x * (2 - N0 * x)).
Proof. unfold newton_turn. rewrite !eqm_u64. reflexivity. Qed.

(** A turn doubles the bits for which [x] is the inverse. *)
Lemma newton_step N0 x k : 0 <= k -> 2 * k <= 64 -> eqm (2 ^ k) (N0 * x) 1 -> eqm (2 ^ (2 * k)) (N0 * newton_turn N0 x) 1.
Proof.
  intros Hk H64 H. assert (P : 2 ^ k <> 0) by (apply Z.pow_nonzero; lia). destruct (eqm_diff _ _ _ P H) as [q E].
  destruct (eqm_diff radix _ _ ltac:(discriminate) (newton_eqm N0 x)) as [q' E'].
  apply (eqm_of_diff _ _ _ (- q * q + N0 * q' * 2 ^ (64 - 2 * k))). rewrite E'.
  assert (R : radix = 2 ^ (64 - 2 * k) * 2 ^ (2 * k)) by (rewrite <- Z.pow_add_r by lia; unfold radix; f_equal; lia).
  rewrite R. set (m := 2 ^ (64 - 2 * k)). replace (2 ^ (2 * k)) with (2 ^ k * 2 ^ k) by (rewrite <- Z.pow_add_r by lia; f_equal; lia).
  transitivity ((N0 * x) * (2 - N0 * x) + N0 * q' * m * (2 ^ k * 2 ^ k)); [ring|]. rewrite E. ring.
Qed.

(** The first guess is right on four bits. *)
Lemma newton_start N0 : Z.odd N0 = true -> eqm (2 ^ 4) (N0 * u64 (N0 + u64 (Z.shiftl (Z.land (u64 (N0 + 2)) 4) 1))) 1.
Proof.
  intros Ho. assert (U : forall z, eqm (2 ^ 4) (u64 z) z).
  { intros z. unfold eqm, u64. change (2 ^ 64) with (2 ^ 4 * 2 ^ 60). rewrite Z.rem_mul_r by done. rewrite (Z.mul_comm (2 ^ 4)), Z.mod_add by done. by apply Z.mod_mod. }
  rewrite !U. set (r := N0 mod 2 ^ 4). assert (Er : eqm (2 ^ 4) N0 r) by (unfold eqm, r; by rewrite Z.mod_mod).
  assert (El : Z.land (u64 (N0 + 2)) 4 = Z.land ((r + 2) mod 16) 4).
  { transitivity (Z.land (u64 (N0 + 2) mod 2 ^ 4) 4).
    - rewrite <- Z.land_ones by lia. rewrite <- Z.land_assoc. reflexivity.
    - f_equal. rewrite (U (N0 + 2)). unfold r. rewrite Z.add_mod_idemp_l by done. reflexivity. }
  rewrite El, Er. assert (Hr : 0 <= r < 16) by (apply Z.mod_pos_bound; lia).
  assert (Od : Z.odd r = true) by (unfold r; rewrite <- Z.bit0_odd, Z.mod_pow2_bits_low, Z.bit0_odd by lia; done).
  assert (C : r = 1 \/ r = 3 \/ r = 5 \/ r = 7 \/ r = 9 \/ r = 11 \/ r = 13 \/ r = 15).
  { assert (r = 0 \/ r = 1 \/ r = 2 \/ r = 3 \/ r = 4 \/ r = 5 \/ r = 6 \/ r = 7 \/ r = 8 \/ r = 9 \/ r = 10 \/ r = 11 \/ r = 12 \/ r = 13 \/ r = 14 \/ r = 15) as K by lia.
    destruct K as [-> |K]; [discriminate|]. repeat (destruct K as [-> |K]; [try discriminate; lia|]). lia. }
  clearbody r. clear - C. destruct C as [-> |[-> |[-> |[-> |[-> |[-> |[-> | ->]]]]]]]; vm_compute; reflexivity.
Qed.

Lemma montmul_init_ok N : Z.odd (nth 0 N 0) = true ->
  limb (mbedtls_mpi_montmul_init N) /\ eqm radix (nth 0 N 0 * mbedtls_mpi_montmul_init N) (-1).
Proof.
  intros Ho. unfold mbedtls_mpi_montmul_init. set (N0 := nth 0 N 0) in *. split; [apply u64_limb|].
  pose proof (newton_start N0 Ho) as H. set (x0 := u64 _) in *.
  apply newton_step in H; [|lia..]. change (2 * 4) with 8 in H. apply newton_step in H; [|lia..]. change (2 * 8) with 16 in H.
  apply newton_step in H; [|lia..]. change (2 * 16) with 32 in H. apply newton_step in H; [|lia..]. change (2 ^ (2 * 32)) with radix in H.
  change (Nat.iter 4 (newton_turn N0) x0) with (newton_turn N0 (newton_turn N0 (newton_turn N0 (newton_turn N0 x0)))).
  set (x := newton_turn N0 _) in *. rewrite !eqm_u64. unfold Z.lnot. replace (N0 * (Z.pred (- x) + 1)) with (-1 * (N0 * x)) by lia. rewrite H. reflexivity.
Qed.

(** ** The multiplication *)

Lemma mag_mod_radix l : limbs_ok l -> eqm radix (mag l) (nth 0 l 0).
Proof. intros _. destruct l as [|x l]; [done|]. cbn [mag nth]. apply (eqm_of_diff _ _ _ (mag l)). lia. Qed.

Lemma nth_small l k : limbs_ok l -> mag l < radix ^ Z.of_nat k -> nth k l 0 = 0.
Proof.
  intros Hl Hm. destruct (Nat.lt_ge_cases k (length l)) as [Hk|Hk]; [|by apply nth_overflow].
  pose proof (mag_div k l Hl ltac:(lia)) as D. rewrite Z.div_small in D by (pose proof (mag_nonneg l Hl); lia). rewrite (drop_nth l k Hk) in D. cbn [mag] in D.
  pose proof (limbs_nth l k Hl). pose proof (mag_nonneg _ (limbs_drop (S k) l Hl)). pose proof radix_pos. nia.
Qed.

(** One turn: a multiple of the radix that is congruent to [d + u0 * B]. *)
Lemma mont_turn b nl mm d u0 : limbs_ok b -> limbs_ok nl -> limbs_ok d -> limb u0 -> (length b <= length nl)%nat -> (length nl + 3 <= length d)%nat ->
  eqm radix (nth 0 nl 0 * mm) (-1) -> mag d < mag b + mag nl ->
  let u1 := u64 (u64 (nth 0 d 0 + u64 (u0 * nth 0 b 0)) * mm) in
  let d' := <[(length nl + 1)%nat := 0]> (tail (mpi_mul_hlp nl (mpi_mul_hlp b d u0) u1)) in
  limbs_ok d' /\ length d' = (length d - 1)%nat /\ radix * mag d' = mag d + u0 * mag b + u1 * mag nl /\ mag d' < mag b + mag nl.
Proof.
  intros Hb Hn Hd Hu Lb Ld Hmm Hlt u1 d'. pose proof radix_pos as P. pose proof (mag_range b Hb) as Rb. pose proof (mag_range nl Hn) as Rn. pose proof (mag_nonneg d Hd) as Md.
  pose proof (radix_pow_le (length b) (length nl) Lb) as Pb. pose proof (radix_pow_le (length nl + 2) (length d) ltac:(lia)) as Pd.
  assert (Lu1 : limb u1) by apply u64_limb.
  assert (Hfit : radix * (mag b + mag nl) <= radix ^ zlen d).
  { rewrite radix_pow_add in Pd. change (radix ^ Z.of_nat 2) with (radix * radix) in Pd. assert (2 <= radix) by (unfold radix; lia).
    clear - Rb Rn Pb Pd P H. nia. }
  destruct (mul_hlp_ok b d u0 Hb Hd Hu ltac:(lia)) as (O1 & L1 & M1); [clear - Hfit Hlt Hu Rb Rn Md; nia|]. set (d1 := mpi_mul_hlp b d u0) in *.
  destruct (mul_hlp_ok nl d1 u1 Hn O1 Lu1 ltac:(lia)) as (O2 & L2 & M2); [rewrite L1, M1; clear - Hfit Hlt Hu Lu1 Rb Rn Md; nia|]. set (d2 := mpi_mul_hlp nl d1 u1) in *.
  assert (Z0 : nth 0 d2 0 = 0).
  { assert (E : eqm radix (nth 0 d2 0) 0).
    { rewrite <- mag_mod_radix by done. rewrite M2, M1. unfold u1. rewrite eqm_u64. rewrite eqm_u64, eqm_u64. rewrite !mag_mod_radix by done.
      set (y := nth 0 d 0 + u0 * nth 0 b 0). replace (y + y * mm * nth 0 nl 0) with (y + y * (nth 0 nl 0 * mm)) by ring. rewrite Hmm.
      apply (eqm_of_diff _ _ _ 0). ring. }
    pose proof (limbs_nth d2 0 O2) as R. unfold eqm in E. rewrite Z.mod_small, Z.mod_0_l in E by lia. exact E. }
  destruct d2 as [|x t] eqn:Ed; [cbn [length] in L2; lia|]. cbn [nth] in Z0. subst x. cbn [tail] in d'. cbn [mag length] in M2, L2. inversion O2 as [|? ? _ Ot]; subst.
  assert (Ht : mag t < mag b + mag nl) by (clear - M1 M2 Hlt Hu Lu1 Rb Rn P; nia).
  assert (Ht' : mag t < radix ^ Z.of_nat (length nl + 1)).
  { rewrite radix_pow_add. change (radix ^ Z.of_nat 1) with radix. assert (2 <= radix) by (unfold radix; lia). pose proof (radix_pow_pos (length nl)). clear - Ht Rb Rn Pb H H0. nia. }
  assert (Md' : mag d' = mag t) by (unfold d'; rewrite mag_insert by lia; rewrite (nth_small t _ Ot Ht'); lia).
  split; [apply limbs_insert; [exact Ot|lia]|]. split; [unfold d'; rewrite length_insert; lia|]. rewrite Md'. split; [lia|exact Ht].
Qed.

Lemma mont_loop_ok b nl mm : limbs_ok b -> limbs_ok nl -> (length b <= length nl)%nat -> eqm radix (nth 0 nl 0 * mm) (-1) ->
  forall a d, limbs_ok a -> limbs_ok d -> (length nl + 2 + length a <= length d)%nat -> mag d < mag b + mag nl ->
  let d' := mont_loop a b nl (nth 0 b 0) mm d in
  limbs_ok d' /\ length d' = (length d - length a)%nat /\ mag d' < mag b + mag nl /\ exists q, mag d' * radix ^ zlen a = mag d + mag a * mag b + q * mag nl.
Proof.
  intros Hb Hn Lb Hmm. induction a as [|u0 a IH]; intros d Ha Hd Ld Hlt; cbn [mont_loop].
  - split; [done|]. split; [cbn [length]; lia|]. split; [done|]. exists 0. cbn [mag length]. change (radix ^ Z.of_nat 0) with 1. lia.
  - inversion Ha as [|? ? Hu Ha']; subst. cbn [length] in Ld. pose proof (mont_turn b nl mm d u0 Hb Hn Hd Hu Lb ltac:(lia) Hmm Hlt) as T. cbv zeta in T.
    set (d1 := <[_ := 0]> _) in *. set (u1 := u64 (u64 (nth 0 d 0 + _) * mm)) in *. destruct T as (T1 & T2 & T3 & T4).
    destruct (IH d1 Ha' T1 ltac:(lia) T4) as (I1 & I2 & I3 & q & I4). split; [done|]. split; [cbn [length]; lia|]. split; [done|].
    exists (u1 + radix * q). cbn [mag length]. rewrite radix_pow. transitivity (radix * (mag (mont_loop a b nl (nth 0 b 0) mm d1) * radix ^ zlen a)); [ring|].
    rewrite I4. transitivity (radix * mag d1 + radix * (mag a * mag b) + radix * q * mag nl); [ring|]. rewrite T3. ring.
Qed.

(** The subtraction that is done when the result is not below [N]. *)
Lemma final_sub d nl B : limbs_ok d -> limbs_ok nl -> (length nl < length d)%nat -> 0 < mag nl -> 0 <= B <= mag nl -> mag d < B + mag nl ->
  let k := length nl in
  let '(r, c) := mpi_sub_hlp (take k d) nl 0 in
  let dn := u8 (u64 (u64 (nth k d 0 + 1) - c)) in
  let a := mbedtls_ct_mpi_uint_cond_assign (take k d) r dn in
  limbs_ok a /\ length a = k /\ mag a = if mag d <? mag nl then mag d else mag d - mag nl.
Proof.
  intros Hd Hn Hl Hp HB Hlt k. pose proof (mag_range nl Hn) as Rn. pose proof (mag_nonneg d Hd) as Md. fold k in Rn.
  assert (Lt : length (take k d) = k) by (rewrite length_take; unfold k in *; lia).
  pose proof (sub_hlp_ok (take k d) nl 0 (limbs_take k d Hd) Hn ltac:(unfold k in *; lia) ltac:(lia)) as S. destruct (mpi_sub_hlp (take k d) nl 0) as [r c].
  destruct S as (S1 & S2 & S3 & S4). rewrite Lt in S2, S4. cbv zeta.
  assert (Hd2 : mag d < radix ^ Z.of_nat (S k)) by (rewrite radix_pow; assert (2 <= radix) by (unfold radix; lia); pose proof (radix_pow_pos k); nia).
  assert (Ed : mag d = mag (take k d) + radix ^ Z.of_nat k * nth k d 0).
  { rewrite <- mag_take_S by (unfold k; lia). rewrite <- mag_mod by (try done; unfold k; lia). symmetry. apply Z.mod_small. lia. }
  pose proof (mag_range _ (limbs_take k d Hd)) as Rt. rewrite Lt in Rt. pose proof (mag_range r S1) as Rr. rewrite S2 in Rr.
  set (top := nth k d 0) in *. pose proof (limbs_nth d k Hd) as Ltop. fold top in Ltop. set (rho := radix ^ Z.of_nat k) in *.
  assert (Htop : 0 <= top <= 1) by (clear - Ed Rt Hlt HB Rn Ltop; nia).
  assert (Eb : u8 (u64 (u64 (top + 1) - c)) = Z.b2z (negb (mag d <? mag nl)) /\ ((mag d <? mag nl) = false -> mag r = mag d - mag nl)).
  { destruct (Z.ltb_spec (mag d) (mag nl)) as [H|H]; cbn [negb Z.b2z].
    - assert (top = 0) as -> by (clear - Ed Rt H Rn Ltop Htop; nia). assert (c = 1) as -> by (clear - S4 Ed Rr H S3 Rn; nia). done.
    - assert (top + 1 - c = 1) by (clear - Ed S4 Rr H S3 Rn Hlt HB Htop Rt; nia). split; [|intros _; clear - Ed S4 H0 S3 Htop; nia].
      replace (u64 (u64 (top + 1) - c)) with 1; [done|]. unfold u64. rewrite Zminus_mod_idemp_l, H0. done. }
  destruct Eb as [-> Er]. rewrite cond_assign_ok by (auto with limbs || lia). rewrite S2, drop_ge, app_nil_r by lia.
  destruct (mag d <? mag nl) eqn:E; cbn [negb]; to_prop.
  - split; [auto with limbs|]. split; [done|]. assert (top = 0) by (clear - Ed Rt E Rn Ltop Htop; nia). lia.
  - split; [done|]. split; [lia|]. by apply Er.
Qed.

Lemma mag_take_small k l m : limbs_ok l -> mag l = m -> m < radix ^ Z.of_nat k -> mag (take k l) = m.
Proof.
  intros Hl <- Hm. destruct (Nat.le_gt_cases k (length l)) as [H|H]; [|by rewrite take_ge by lia].
  rewrite <- mag_mod by done. apply Z.mod_small. pose proof (mag_nonneg l Hl). lia.
Qed.

(** The parameters of a reduction: an odd modulus that uses its limbs, and the
    inverse of its low limb. *)
Definition mont_params (N : mpi) (mm : Z) (T : nat) : Prop :=
  wf N /\ s N = 1 /\ 0 < mag (p N) /\ eqm radix (nth 0 (p N) 0 * mm) (-1) /\ (2 * (n N + 1) <= T)%nat.

Lemma montmul_ok A B N mm T : mont_params N mm T -> limbs_ok (p A) -> limbs_ok (p B) -> mag (p B) <= val N -> (n N <= n A)%nat ->
  exists r, mbedtls_mpi_montmul A B N mm T = mkMpi (s A) (r ++ drop (n N) (p A)) /\ limbs_ok r /\ length r = n N /\ 0 <= mag r < val N /\
    eqm (val N) (mag r * radix ^ Z.of_nat (n N)) (mag (take (n N) (p A)) * mag (p B)).
Proof.
  intros (WN & SN & HN & Hmm & HT) HA HB HBN Hn. assert (EN : val N = mag (p N)) by (unfold val; rewrite SN; lia). rewrite EN in *.
  unfold mbedtls_mpi_montmul. pose proof (wf_limbs N WN) as LN. pose proof (mag_range _ LN) as RN. change (length (p N)) with (n N) in RN.
  set (m := if (n B <? n N)%nat then n B else n N).
  assert (Lb : length (take m (p B)) = m) by (rewrite length_take; unfold m; case_if; to_prop; unfold n in *; lia).
  assert (Mb : mag (take m (p B)) = mag (p B)).
  { unfold m. case_if; to_prop; [unfold n; by rewrite firstn_all|]. apply mag_take_small; [done|done|lia]. }
  assert (Eb0 : nth 0 (p B) 0 = nth 0 (take m (p B)) 0).
  { destruct (n N) as [|k] eqn:En; [unfold n in En; destruct (p N); [cbn [mag] in HN; lia|discriminate]|].
    destruct (p B) as [|x l] eqn:Ep; [by rewrite take_nil|]. unfold m. case_if; to_prop; [|done]. unfold n. rewrite Ep. done. }
  rewrite Eb0. assert (La : length (take (n N) (p A)) = n N) by (rewrite length_take; unfold n in *; lia).
  assert (Hm : (m <= n N)%nat) by (unfold m; case_if; to_prop; lia).
  destruct (mont_loop_ok (take m (p B)) (p N) mm (limbs_take _ _ HB) LN ltac:(rewrite Lb; exact Hm) Hmm (take (n N) (p A)) (repeat 0 T) (limbs_take _ _ HA) (limbs_zeros T))
    as (D1 & D2 & D3 & q & D4); [rewrite La, repeat_length; unfold n in *; lia|rewrite mag_zeros, Mb; pose proof (mag_nonneg _ HB); lia|].
  set (d := mont_loop _ _ _ _ _ _) in *. rewrite mag_zeros, La, Mb in D4. rewrite Mb in D3. rewrite repeat_length, La in D2.
  pose proof (final_sub d (p N) (mag (p B)) D1 LN ltac:(unfold n in *; lia) HN ltac:(pose proof (mag_nonneg _ HB); lia) D3) as F. cbv zeta in F.
  change (length (p N)) with (n N) in F. destruct (mpi_sub_hlp (take (n N) d) (p N) 0) as [r c]. destruct F as (F1 & F2 & F3).
  eexists. split; [reflexivity|]. split; [exact F1|]. split; [exact F2|]. rewrite F3. pose proof (mag_nonneg d D1).
  assert (Ed : eqm (mag (p N)) (mag d * radix ^ Z.of_nat (n N)) (mag (take (n N) (p A)) * mag (p B))).
  { apply (eqm_of_diff _ _ _ q). rewrite D4. ring. }
  pose proof (mag_nonneg _ HB). destruct (Z.ltb_spec (mag d) (mag (p N))); [split; [lia|exact Ed]|]. split; [lia|].
  rewrite <- Ed. apply (eqm_of_diff _ _ _ (- radix ^ Z.of_nat (n N))). ring.
Qed.

(** ** Numbers in Montgomery form *)

(** The radix has an inverse modulo an odd number. *)
Lemma radix_inverse N k : Z.odd N = true -> exists ri, eqm N (radix ^ Z.of_nat k * ri) 1.
Proof.
  intros Ho. rewrite radix_pow_bits. set (e := biL * Z.of_nat k). exists (((N + 1) / 2) ^ e). rewrite <- Z.pow_mul_l.
  assert (E : 2 * ((N + 1) / 2) = 1 + 1 * N).
  { apply Z.odd_spec in Ho as [h ->]. replace (2 * h + 1 + 1) with ((h + 1) * 2) by lia. rewrite Z.div_mul by lia. lia. }
  rewrite E. assert (He : 0 <= e) by (unfold e, biL; lia). clearbody e. revert e He. apply natlike_ind; [done|]. intros x Hx IH. rewrite Z.pow_succ_r by lia.
  rewrite IH. apply (eqm_of_diff _ _ _ 1). ring.
Qed.

Section Form.
Context (N : mpi) (mm : Z) (T : nat).
Context (HN : mont_params N mm T) (Hodd : Z.odd (val N) = true).
Let rho := radix ^ Z.of_nat (n N).

(** [X] holds [x] in Montgomery form. *)
Definition mform (X : mpi) (x : Z) : Prop :=
  wf X /\ (n N <= n X)%nat /\ 0 <= val X < val N /\ eqm (val N) (val X) (x * rho).

Lemma rho_cancel a b : eqm (val N) (a * rho) (b * rho) -> eqm (val N) a b.
Proof.
  intros H. destruct (radix_inverse (val N) (n N) Hodd) as [ri Hri]. fold rho in Hri.
  rewrite <- (Z.mul_1_r a), <- (Z.mul_1_r b), <- Hri. rewrite !Z.mul_assoc, H. reflexivity.
Qed.

Lemma val_small x : 0 <= x < val N -> x < rho.
Proof. intros H. destruct HN as (WN & SN & _). pose proof (wf_mag N WN) as R. unfold val in H. rewrite SN in H. fold rho in R. lia. Qed.

(** The multiplication of numbers that fit in the limbs of the modulus. *)
Lemma montmul_small A B : wf A -> 0 <= val A < rho -> wf B -> 0 <= val B <= val N -> (n N <= n A)%nat ->
  let X := mbedtls_mpi_montmul A B N mm T in
  wf X /\ n X = n A /\ 0 <= val X < val N /\ eqm (val N) (val X * rho) (val A * val B).
Proof.
  intros WA HA WB HB Hn X. pose proof (wf_limbs A WA) as LA. pose proof (val_nonneg A WA ltac:(lia)) as EA. pose proof (val_nonneg B WB ltac:(lia)) as EB.
  destruct (montmul_ok A B N mm T HN LA (wf_limbs B WB) ltac:(lia) Hn) as (r & E & Lr & Er & Rr & Cr). unfold X. rewrite E. clear X E.
  assert (Hdrop : mag (drop (n N) (p A)) = 0) by (rewrite <- mag_div by (try done; unfold n in *; lia); apply Z.div_small; rewrite EA; fold rho; lia).
  rewrite (mag_take_small (n N) (p A) (val A) LA EA ltac:(fold rho; lia)), EB in Cr. fold rho in Cr.
  assert (V : val (mkMpi (s A) (r ++ drop (n N) (p A))) = mag r).
  { unfold val. cbn [s p]. rewrite mag_app, Hdrop. destruct (Z.eq_dec (mag r) 0) as [Z0|Z0]; [rewrite Z0; lia|].
    destruct (proj1 WA) as [->|Es]; [lia|]. exfalso. apply Z0.
    assert (A0 : val A = 0) by (unfold val in *; rewrite Es in *; pose proof (mag_nonneg _ LA); lia). rewrite A0 in Cr.
    change (0 * val B) with (0 * rho) in Cr. apply rho_cancel in Cr. unfold eqm in Cr. rewrite Z.mod_small, Z.mod_0_l in Cr by lia. exact Cr. }
  split; [split; [apply WA|cbn [p]; apply limbs_app; auto with limbs]|]. rewrite V.
  split; [unfold n at 1; cbn [p]; rewrite length_app, length_drop; unfold n in *; lia|]. split; [exact Rr|exact Cr].
Qed.

Lemma mform_mul X Y x y : mform X x -> wf Y -> 0 <= val Y < val N -> eqm (val N) (val Y) (y * rho) ->
  mform (mbedtls_mpi_montmul X Y N mm T) (x * y) /\ n (mbedtls_mpi_montmul X Y N mm T) = n X.
Proof.
  intros (WX & NX & RX & EX) WY RY EY. pose proof (val_small _ RX).
  destruct (montmul_small X Y WX ltac:(lia) WY ltac:(lia) NX) as (W & L & R & C). split; [|exact L].
  split; [exact W|]. split; [lia|]. split; [exact R|]. apply rho_cancel. rewrite C, EX, EY. apply (eqm_of_diff _ _ _ 0). ring.
Qed.

(** Into the form, with the square of the radix. *)
Lemma mform_enter X RR : wf X -> (n N <= n X)%nat -> 0 <= val X < val N -> wf RR -> 0 <= val RR < val N -> eqm (val N) (val RR) (rho * rho) ->
  mform (mbedtls_mpi_montmul X RR N mm T) (val X) /\ n (mbedtls_mpi_montmul X RR N mm T) = n X.
Proof.
  intros WX NX RX WR RR' ER. pose proof (val_small _ RX).
  destruct (montmul_small X RR WX ltac:(lia) WR ltac:(lia) NX) as (W & L & R & C). split; [|exact L].
  split; [exact W|]. split; [lia|]. split; [exact R|]. apply rho_cancel. rewrite C, ER. apply (eqm_of_diff _ _ _ 0). ring.
Qed.

(** A reduction divides by the radix. *)
Lemma montred_ok X : wf X -> (n N <= n X)%nat -> 0 <= val X < val N ->
  let X' := mpi_montred X N mm T in
  wf X' /\ n X' = n X /\ 0 <= val X' < val N /\ eqm (val N) (val X' * rho) (val X).
Proof.
  intros WX NX RX X'. pose proof (val_small _ RX). change (mkMpi 1 [1]) with (mpi_of_int 1) in *. destruct (int_ok 1 ltac:(lia)) as (W1 & V1 & _).
  destruct (montmul_small X (mpi_of_int 1) WX ltac:(lia) W1 ltac:(lia) NX) as (W & L & R & C).
  change (mbedtls_mpi_montmul X (mpi_of_int 1) N mm T) with X' in W, L, R, C. split; [done|]. split; [done|]. split; [done|].
  rewrite C, V1. apply (eqm_of_diff _ _ _ 0). lia.
Qed.

(** Out of the form. *)
Lemma mform_leave X x : mform X x -> let X' := mpi_montred X N mm T in wf X' /\ n X' = n X /\ val X' = x mod val N.
Proof.
  intros (WX & NX & RX & EX) X'. destruct (montred_ok X WX NX RX) as (W & L & R & C). fold X' in W, L, R, C.
  split; [exact W|]. split; [exact L|]. rewrite EX in C. apply rho_cancel in C. unfold eqm in C. rewrite <- C. symmetry. apply Z.mod_small. lia.
Qed.

Lemma mform_eqm X x y : mform X x -> eqm (val N) x y -> mform X y.
Proof. intros (W & L & R & E) H. split; [done|]. split; [done|]. split; [done|]. rewrite E, H. reflexivity. Qed.
End Form.

End Montgomery.
