(* ===== verification/ExpMod.v ===== *)
(** Modular exponentiation (mbedtls/library/bignum.c): the sliding window over
    the bits of the exponent, on numbers in Montgomery form, with the
    accumulator as an entry of the table. *)
From S2P Require Import Prelude Words ConstantTime Limbs Bignum BignumDiv MpiCt Montgomery.
From stdpp Require Import list.
#[local] Open Scope Z_scope.

Module ExpMod.
Import ConstantTime Bignum Division MpiCt Montgomery.

(** ** Operations *)

(** The code of the first step that fails, and [X] as that step leaves it. *)
Definition mbedtls_mpi_get_mont_r2_unsafe (X N : mpi) : Z * mpi :=
  match mbedtls_mpi_lset X 1 with
  | Err ret => (ret, X)
  | Ok X =>
      match mbedtls_mpi_shift_l X (Z.of_nat (n N) * 2 * biL) with
      | Err ret => (ret, X)
      | Ok X =>
          match mbedtls_mpi_mod_mpi X X N with
          | Err ret => (ret, X)
          | Ok X => match mbedtls_mpi_shrink X (n N) with Err ret => (ret, X) | Ok X => (0, X) end
          end
      end
  end.

Definition window_size (i : Z) : nat :=
  let window_bitsize := if 671 <? i then 6%nat else if 239 <? i then 5%nat else if 79 <? i then 4%nat else if 23 <? i then 3%nat else 1%nat in
  if (MBEDTLS_MPI_WINDOW_SIZE <? window_bitsize)%nat then MBEDTLS_MPI_WINDOW_SIZE else window_bitsize.

(** An entry of the table after its [memset]. *)
Definition mpi_cleared : mpi := mkMpi 0 [].
Definition entry (W : list mpi) (i : nat) : mpi := nth i W mpi_cleared.

(** [R^2 mod N], kept for the next calls in [*prec_RR]; the error of its
    computation is not looked at. *)
Definition exp_rr (prec_RR : option mpi) (N : mpi) : mpi * option mpi :=
  let compute := snd (mbedtls_mpi_get_mont_r2_unsafe mbedtls_mpi_init N) in
  match prec_RR with
  | None => (compute, None)
  | Some P => match p P with [] => (compute, Some compute) | _ => (P, Some P) end
  end.

Section Loops.
Context (N : mpi) (mm : Z) (T : nat) (window_bitsize : nat).
Let w_table_used_size : nat := 2 ^ window_bitsize.

(** [mpi_select(&WW, W, w_table_used_size, idx)] and the multiplication of the
    accumulator by [WW]. *)
Definition mul_select (W : list mpi) (WW : mpi) (idx : nat) : result (list mpi * mpi) :=
  WW ← mpi_select WW W w_table_used_size idx;
  Ok (<[0%nat := mbedtls_mpi_montmul (entry W 0) WW N mm T]> W, WW).

Fixpoint squarings (k : nat) (W : list mpi) (WW : mpi) : result (list mpi * mpi) :=
  match k with
  | O => Ok (W, WW)
  | S k => '(W, WW) ← mul_select W WW 0; squarings k W WW
  end.

(** The loop [for (i = j + 1; i < w_table_used_size; i++)]. *)
Fixpoint fill_table (i count : nat) (W : list mpi) : result (list mpi) :=
  match count with
  | O => Ok W
  | S count =>
      Wi ← mbedtls_mpi_grow (entry W i) (n N + 1);
      Wi ← mbedtls_mpi_copy Wi (entry W (i - 1));
      fill_table (S i) count (<[i := mbedtls_mpi_montmul Wi (entry W 1) N mm T]> W)
  end.

Definition window_table (W : list mpi) : result (list mpi) :=
  if (1 <? window_bitsize)%nat then
    let j := (w_table_used_size / 2)%nat in
    Wj ← mbedtls_mpi_grow (entry W j) (n N + 1);
    Wj ← mbedtls_mpi_copy Wj (entry W 1);
    let Wj := Nat.iter (window_bitsize - 1) (fun Wj => mbedtls_mpi_montmul Wj Wj N mm T) Wj in
    fill_table (j + 1) (w_table_used_size - (j + 1)) (<[j := Wj]> W)
  else Ok W.

Record exp_state := mkExp { W : list mpi; WW : mpi; state : Z; nbits : nat; exponent_bits_in_window : Z }.

(** A turn of the loop for the bit [ei]. *)
Definition exp_bit (st : exp_state) (ei : Z) : result exp_state :=
  if (ei =? 0) && (state st =? 0) then Ok st
  else if (ei =? 0) && (state st =? 1) then
    '(W, WW) ← mul_select (W st) (WW st) 0;
    Ok (mkExp W WW (state st) (nbits st) (exponent_bits_in_window st))
  else
    let nbits := S (nbits st) in
    let ebw := Z.lor (exponent_bits_in_window st) (Z.shiftl ei (Z.of_nat (window_bitsize - nbits))) in
    if (nbits =? window_bitsize)%nat then
      '(W, WW) ← squarings window_bitsize (W st) (WW st);
      '(W, WW) ← mul_select W WW (Z.to_nat ebw);
      Ok (mkExp W WW (2 - 1) 0 0)
    else Ok (mkExp (W st) (WW st) 2 nbits ebw).

Fixpoint exp_bits (bits : list Z) (st : exp_state) : result exp_state :=
  match bits with
  | [] => Ok st
  | ei :: bits => st ← exp_bit st ei; exp_bits bits st
  end.

(** [for (i = 0; i < nbits; i++)] *)
Fixpoint exp_rest (count : nat) (W : list mpi) (WW : mpi) (ebw : Z) : result (list mpi * mpi) :=
  match count with
  | O => Ok (W, WW)
  | S count =>
      '(W, WW) ← mul_select W WW 0;
      let ebw := Z.shiftl ebw 1 in
      '(W, WW) ← (if negb (Z.land ebw (Z.shiftl 1 (Z.of_nat window_bitsize)) =? 0) then mul_select W WW 1 else Ok (W, WW));
      exp_rest count W WW ebw
  end.
End Loops.

(** The bits in the order of the loop: [nblimbs] and [bufsize] go down. *)
Definition limb_bits (x : Z) : list Z := map (fun bufsize => Z.land (Z.shiftr x (Z.of_nat bufsize)) 1) (rev (seq 0 64)).
Definition exponent_bits (E : mpi) : list Z := flat_map limb_bits (rev (p E)).

(** The exponentiation once the arguments are accepted and [A] is not negative:
    the accumulator at the end. *)
Definition exp_main (A E N RR : mpi) (W1 W0 : mpi) (T : nat) : result mpi :=
  let mm := mbedtls_mpi_montmul_init (p N) in
  let window_bitsize := window_size (mbedtls_mpi_bitlen E) in
  W1 ← (if 0 <=? mbedtls_mpi_cmp_mpi A N then W1 ← mbedtls_mpi_mod_mpi W1 A N; mbedtls_mpi_grow W1 (n N + 1)
        else mbedtls_mpi_copy W1 A);
  let W1 := mbedtls_mpi_montmul W1 RR N mm T in
  W0 ← mbedtls_mpi_copy W0 RR;
  let W0 := mpi_montred W0 N mm T in
  W ← window_table N mm T window_bitsize [W0; W1; mpi_cleared; mpi_cleared];
  st ← exp_bits N mm T window_bitsize (exponent_bits E) (mkExp W mbedtls_mpi_init 0 0 0);
  '(W, _) ← exp_rest N mm T window_bitsize (nbits st) (ExpMod.W st) (WW st) (exponent_bits_in_window st);
  Ok (mpi_montred (entry W 0) N mm T).

Definition mbedtls_mpi_exp_mod (X A E N : mpi) (prec_RR : option mpi) : result (mpi * option mpi) :=
  if (mbedtls_mpi_cmp_int N 0 <=? 0) || (Z.land (nth 0 (p N) 0) 1 =? 0) then Err MBEDTLS_ERR_MPI_BAD_INPUT_DATA
  else if mbedtls_mpi_cmp_int E 0 <? 0 then Err MBEDTLS_ERR_MPI_BAD_INPUT_DATA
  else if (MBEDTLS_MPI_MAX_BITS <? mbedtls_mpi_bitlen E) || (MBEDTLS_MPI_MAX_BITS <? mbedtls_mpi_bitlen N) then Err MBEDTLS_ERR_MPI_BAD_INPUT_DATA
  else
    let j := (n N + 1)%nat in
    W0 ← mbedtls_mpi_grow mbedtls_mpi_init j;
    W1 ← mbedtls_mpi_grow mpi_cleared j;
    T ← mbedtls_mpi_grow mbedtls_mpi_init (j * 2);
    let neg := s A =? -1 in
    A ← (if neg then Apos ← mbedtls_mpi_copy mbedtls_mpi_init A; Ok (set_s 1 Apos) else Ok A);
    let '(RR, prec_RR) := exp_rr prec_RR N in
    W0 ← exp_main A E N RR W1 W0 (n T);
    W0 ← (if neg && negb (n E =? 0)%nat && negb (Z.land (nth 0 (p E) 0) 1 =? 0) then mbedtls_mpi_add_mpi (set_s (-1) W0) N (set_s (-1) W0) else Ok W0);
    X ← mbedtls_mpi_copy X W0;
    Ok (X, prec_RR).

(** ** The square of the radix *)

Lemma shrink_ok X k : wf X -> Z.of_nat k <= MBEDTLS_MPI_MAX_LIMBS ->
  exists X', mbedtls_mpi_shrink X k = Ok X' /\ wf X' /\ val X' = val X /\ (k <= n X' <= Nat.max k (n X))%nat.
Proof.
  intros W Hk. unfold mbedtls_mpi_shrink. rewrite (proj2 (Z.ltb_ge _ _)) by lia. destruct (Nat.leb_spec (n X) k) as [H|H].
  - destruct (grow_ok X k W Hk) as (X' & E & W' & S' & M' & N'). exists X'. split_and!; try done; try lia. unfold val. by rewrite S', M'.
  - destruct (take_highest X) as [-> M]; [apply Nat.eqb_neq; lia|]. eexists. split; [reflexivity|]. pose proof (sig1_le X).
    set (i := if (sig1 X <? k)%nat then k else sig1 X). assert (Hi : (sig1 X <= i)%nat /\ (k <= i <= n X)%nat) by (unfold i; case_if; to_prop; lia).
    assert (Mi : mag (take i (p X)) = mag (p X)).
    { apply mag_take_small; [apply W|done|]. rewrite <- M. pose proof (mag_range _ (limbs_take (sig1 X) (p X) (wf_limbs _ W))) as R. rewrite length_take in R.
      pose proof (radix_pow_le (Nat.min (sig1 X) (length (p X))) i ltac:(lia)). lia. }
    unfold wf, val. cbn [s p]. rewrite Mi. split_and!; try done; [apply W|by apply limbs_take, wf_limbs| |]; unfold n at 1; cbn [p]; rewrite length_take; unfold n in *; lia.
Qed.

Lemma mont_r2_ok N : wf N -> 0 < val N -> 2 * Z.of_nat (n N) + 4 <= MBEDTLS_MPI_MAX_LIMBS ->
  exists X, mbedtls_mpi_get_mont_r2_unsafe mbedtls_mpi_init N = (0, X) /\ wf X /\ (n N <= n X)%nat /\
    val X = (radix ^ Z.of_nat (n N) * radix ^ Z.of_nat (n N)) mod val N.
Proof.
  intros W HN Hm. unfold mbedtls_mpi_get_mont_r2_unsafe.
  destruct (lset_ok mbedtls_mpi_init 1 wf_init ltac:(lia)) as (X1 & -> & W1 & V1 & S1 & N1).
  assert (M1 : mag (p X1) = 1) by (rewrite val_nonneg; lia || done). change (Nat.max (n mbedtls_mpi_init) 1) with 1%nat in N1.
  destruct (shift_limbs_ok X1 (n N + n N) 1 (n N + n N + 1) W1) as (X2 & E2 & W2 & _ & V2 & _ & N2); [rewrite M1; change (radix ^ Z.of_nat 1) with radix; unfold radix; lia|lia..|].
  replace (Z.of_nat (n N) * 2 * biL) with (biL * Z.of_nat (n N + n N)) by lia. rewrite E2.
  destruct (mod_mpi_ok X2 X2 N (n N + n N + 1) W2 W2 W HN) as (X3 & -> & W3 & V3 & N3); try lia.
  destruct (shrink_ok X3 (n N) W3 ltac:(lia)) as (X4 & -> & W4 & V4 & N4). exists X4. split; [done|]. split; [done|]. split; [lia|].
  rewrite V4, V3, V2, V1, radix_pow_add. f_equal. ring.
Qed.

(** ** The table and the accumulator *)

Lemma entry_insert_eq W i X : (i < length W)%nat -> entry (<[i := X]> W) i = X.
Proof. intros H. unfold entry. by rewrite nth_lookup, list_lookup_insert_eq. Qed.

Lemma entry_insert_ne W i j X : i <> j -> entry (<[i := X]> W) j = entry W j.
Proof. intros H. unfold entry. by rewrite !nth_lookup, list_lookup_insert_ne. Qed.

Lemma testbit_pow2 x k : 0 <= k -> negb (Z.land x (Z.shiftl 1 k) =? 0) = Z.testbit x k.
Proof. intros H. rewrite Z.shiftl_1_l. by apply land_pow2_bit. Qed.

Section Table.
Context (N : mpi) (mm : Z) (T : nat) (w : nat) (a : Z).
Context (HN : mont_params N mm T) (Hodd : Z.odd (val N) = true) (Hw : w = 1%nat \/ w = 2%nat).
Context (Hmax : Z.of_nat (S (n N)) <= MBEDTLS_MPI_MAX_LIMBS).

Definition power (X : mpi) (e : Z) : Prop := mform N X (a ^ e) /\ n X = S (n N).

(** The accumulator is [a^e], the entries of the table are the powers of [a]. *)
Definition holds (W : list mpi) (e : Z) : Prop :=
  length W = 4%nat /\ 0 <= e /\ power (entry W 0) e /\ forall i, (1 <= i < 2 ^ w)%nat -> power (entry W i) (Z.of_nat i).

Definition scratch (WW : mpi) : Prop := wf WW /\ (n WW <= S (n N))%nat.

Lemma used_small : (2 ^ w <= 4)%nat.
Proof. destruct Hw as [-> | ->]; cbn; lia. Qed.

Lemma holds_entry W e i : holds W e -> (i < 2 ^ w)%nat -> power (entry W i) (if (i =? 0)%nat then e else Z.of_nat i).
Proof. intros (_ & _ & H0 & H) Hi. destruct (Nat.eqb_spec i 0) as [->|]; [exact H0|apply H; lia]. Qed.

Lemma mul_power X Y e f : 0 <= e -> 0 <= f -> power X e -> wf Y -> 0 <= val Y < val N -> eqm (val N) (val Y) (a ^ f * radix ^ Z.of_nat (n N)) ->
  power (mbedtls_mpi_montmul X Y N mm T) (e + f).
Proof.
  clear Hw Hmax. intros He Hf [FX NX] WY RY EY. destruct (mform_mul N mm T HN Hodd X Y _ _ FX WY RY EY) as [F L]. split; [|lia]. by rewrite Z.pow_add_r.
Qed.

Lemma mul_select_ok W WW e idx : holds W e -> scratch WW -> (idx < 2 ^ w)%nat ->
  exists W' WW', mul_select N mm T w W WW idx = Ok (W', WW') /\ holds W' (e + (if (idx =? 0)%nat then e else Z.of_nat idx)) /\ scratch WW'.
Proof.
  intros H [WS NS] Hi. pose proof H as (L & He & P0 & PT). pose proof used_small as U. unfold mul_select.
  assert (F : Forall (fun Y => wf Y /\ (n Y <= S (n N))%nat) (take (2 ^ w) W)).
  { apply Forall_lookup. intros j Y Hj. apply lookup_take_Some in Hj as [Hj Hlt]. 
    destruct (holds_entry W e j H Hlt) as [(WY & _) NY]. unfold entry in *. rewrite nth_lookup, Hj in WY, NY. cbn in WY, NY. split; [done|lia]. }
  destruct (mpi_select_ok WW W (2 ^ w) idx (S (n N)) WS) as (WW' & -> & W' & V' & N' & _); try lia.
  { eapply Forall_impl; [exact F|]. tauto. } { eapply Forall_impl; [exact F|]. tauto. }
  cbn [mbind result_bind]. eexists _, WW'. split; [reflexivity|]. split; [|split; [done|lia]].
  destruct (holds_entry W e idx H Hi) as [(WY & NY & RY & EY) _]. rewrite (nth_indep W WW mpi_cleared) in V' by lia. fold (entry W idx) in V'. rewrite <- V' in RY, EY.
  assert (Hf : 0 <= if (idx =? 0)%nat then e else Z.of_nat idx) by (case_if; lia).
  split; [by rewrite length_insert|]. split; [lia|]. split.
  - rewrite entry_insert_eq by lia. by apply mul_power.
  - intros i Hi'. rewrite entry_insert_ne by lia. by apply PT.
Qed.

Lemma squarings_ok k : forall W WW e, holds W e -> scratch WW ->
  exists W' WW', squarings N mm T w k W WW = Ok (W', WW') /\ holds W' (e * 2 ^ Z.of_nat k) /\ scratch WW'.
Proof.
  induction k as [|k IH]; intros W WW e H S; cbn [squarings].
  - exists W, WW. rewrite Z.mul_1_r. done.
  - destruct (mul_select_ok W WW e 0 H S) as (W1 & WW1 & -> & H1 & S1); [destruct Hw as [-> | ->]; cbn; lia|]. cbn [mbind result_bind].
    change (0 =? 0)%nat with true in H1. cbv iota in H1. destruct (IH W1 WW1 _ H1 S1) as (W2 & WW2 & -> & H2 & S2). exists W2, WW2. split; [done|]. split; [|done].
    rewrite Nat2Z.inj_succ, Z.pow_succ_r by lia. replace (e * (2 * 2 ^ Z.of_nat k)) with ((e + e) * 2 ^ Z.of_nat k) by ring. exact H2.
Qed.

(** The state of the loop after the bits of [e]: the accumulator has those
    before the window, the window has the last [nbits]. *)
Definition exp_inv (st : exp_state) (e : Z) : Prop :=
  exists e0 b, e = e0 * 2 ^ Z.of_nat (nbits st) + b /\ holds (ExpMod.W st) e0 /\ scratch (WW st) /\
    exponent_bits_in_window st = b * 2 ^ Z.of_nat (w - nbits st) /\ (nbits st < w)%nat /\ 0 <= b < 2 ^ Z.of_nat (nbits st) /\
    ((nbits st = 0%nat /\ (state st = 0 /\ e0 = 0 \/ state st = 1)) \/ (0 < nbits st)%nat /\ state st = 2 /\ 0 < b).

Lemma window_or b ei k : 0 <= ei <= 1 -> Z.lor (b * 2 ^ Z.of_nat (S k)) (Z.shiftl ei (Z.of_nat k)) = (2 * b + ei) * 2 ^ Z.of_nat k.
Proof.
  intros He. rewrite Z.shiftl_mul_pow2 by lia. assert (0 < 2 ^ Z.of_nat k) by (apply Z.pow_pos_nonneg; lia).
  rewrite lor_add by (rewrite ?Nat2Z.inj_succ, ?Z.pow_succ_r by lia; nia). rewrite Nat2Z.inj_succ, Z.pow_succ_r by lia. ring.
Qed.

Lemma exp_bit_ok st e ei : exp_inv st e -> ei = 0 \/ ei = 1 -> exists st', exp_bit N mm T w st ei = Ok st' /\ exp_inv st' (2 * e + ei).
Proof.
  intros (e0 & b & Ee & H & S & Eb & Hn & Hb & Hst) Hei. unfold exp_bit.
  destruct ((ei =? 0) && (state st =? 0)) eqn:C1; to_prop.
  { destruct Hst as [[N0 [[_ ->]|E1]]|(_ & E2 & _)]; [|lia..]. exists st. split; [done|]. exists 0, b. rewrite N0 in *. change (2 ^ Z.of_nat 0) with 1 in *.
    split; [lia|]. split; [done|]. split; [done|]. split; [done|]. split; [done|]. split; [done|]. left. lia. }
  destruct ((ei =? 0) && (state st =? 1)) eqn:C2; to_prop.
  { destruct Hst as [[N0 Hs]|(_ & E2 & _)]; [|lia]. destruct (mul_select_ok _ _ e0 0 H S) as (W1 & WW1 & -> & HA & SA); [destruct Hw as [-> | ->]; cbn; lia|].
    cbn [mbind result_bind]. eexists. split; [reflexivity|]. exists (e0 + e0), b. cbn [nbits ExpMod.W WW exponent_bits_in_window state]. rewrite N0 in *. change (2 ^ Z.of_nat 0) with 1 in *.
    split; [lia|]. split; [exact HA|]. split; [done|]. split; [done|]. split; [done|]. split; [done|]. left. lia. }
  rewrite Eb. replace (w - nbits st)%nat with (Datatypes.S (w - Datatypes.S (nbits st))) by lia. rewrite window_or by lia.
  assert (Hb' : 0 <= 2 * b + ei < 2 ^ Z.of_nat (Datatypes.S (nbits st))) by (rewrite Nat2Z.inj_succ, Z.pow_succ_r by lia; lia).
  assert (Hpos : 0 < 2 * b + ei).
  { destruct Hst as [[N0 Hs]|(_ & _ & Hp)]; [|lia]. destruct Hei as [-> | ->]; [|lia]. exfalso.
    destruct Hs as [[E0 _]|E1]; [rewrite E0 in C1; discriminate|rewrite E1 in C2; discriminate]. }
  destruct (Nat.eqb_spec (Datatypes.S (nbits st)) w) as [Ew|Ew].
  - rewrite Ew, Nat.sub_diag. change (2 ^ Z.of_nat 0) with 1. rewrite Z.mul_1_r.
    destruct (squarings_ok w _ _ e0 H S) as (W1 & WW1 & -> & HA & SA). cbn [mbind result_bind].
    assert (P2 : Z.of_nat (2 ^ w) = 2 ^ Z.of_nat w) by apply Nat2Z.inj_pow. rewrite Ew in Hb'.
    destruct (mul_select_ok W1 WW1 _ (Z.to_nat (2 * b + ei)) HA SA ltac:(lia)) as (W2 & WW2 & -> & HB & SB). cbn [mbind result_bind].
    rewrite (proj2 (Nat.eqb_neq _ _)), Z2Nat.id in HB by lia. eexists. split; [reflexivity|]. exists (e0 * 2 ^ Z.of_nat w + (2 * b + ei)), 0.
    cbn [nbits ExpMod.W WW exponent_bits_in_window state]. change (2 ^ Z.of_nat 0) with 1. split.
    { rewrite Ee, <- Ew, Nat2Z.inj_succ, Z.pow_succ_r by lia. ring. }
    split; [exact HB|]. split; [done|]. split; [done|]. split; [lia|]. split; [lia|]. left. split; [done|]. by right.
  - eexists. split; [reflexivity|]. exists e0, (2 * b + ei). cbn [nbits ExpMod.W WW exponent_bits_in_window state]. split.
    { rewrite Ee, Nat2Z.inj_succ, Z.pow_succ_r by lia. ring. }
    split; [exact H|]. split; [exact S|]. split; [done|]. split; [lia|]. split; [exact Hb'|]. right. split; [lia|]. done.
Qed.

Lemma exp_bits_ok l : Forall (fun ei => ei = 0 \/ ei = 1) l -> forall st e, exp_inv st e ->
  exists st', exp_bits N mm T w l st = Ok st' /\ exp_inv st' (fold_left (fun e ei => 2 * e + ei) l e).
Proof.
  induction 1 as [|ei l Hei Hl IH]; intros st e H; cbn [exp_bits fold_left]; [by exists st|].
  destruct (exp_bit_ok st e ei H Hei) as (st1 & -> & H1). cbn [mbind result_bind]. by apply IH.
Qed.

Lemma exp_rest_ok m : (m < w)%nat -> forall W WW e c, holds W e -> scratch WW -> 0 <= c ->
  exists W' WW', exp_rest N mm T w m W WW (c * 2 ^ Z.of_nat (w - m)) = Ok (W', WW') /\ holds W' (e * 2 ^ Z.of_nat m + c mod 2 ^ Z.of_nat m).
Proof.
  induction m as [|m IH]; intros Hm W WW e c H S Hc; cbn [exp_rest].
  - exists W, WW. change (2 ^ Z.of_nat 0) with 1. rewrite Z.mod_1_r, Z.mul_1_r, Z.add_0_r. done.
  - destruct (mul_select_ok W WW e 0 H S) as (W1 & WW1 & -> & H1 & S1); [destruct Hw as [-> | ->]; cbn; lia|]. cbn [mbind result_bind].
    change (0 =? 0)%nat with true in H1. cbv iota in H1. rewrite testbit_pow2 by lia.
    assert (Es : Z.shiftl (c * 2 ^ Z.of_nat (w - Datatypes.S m)) 1 = c * 2 ^ Z.of_nat (w - m)).
    { rewrite Z.shiftl_mul_pow2 by lia. rewrite <- Z.mul_assoc, <- Z.pow_add_r by lia. do 2 f_equal. lia. }
    rewrite Es. rewrite <- Z.shiftl_mul_pow2, Z.shiftl_spec by lia. replace (Z.of_nat w - Z.of_nat (w - m)) with (Z.of_nat m) by lia.
    assert (G : exists W2 WW2, (if Z.testbit c (Z.of_nat m) then mul_select N mm T w W1 WW1 1 else Ok (W1, WW1)) = Ok (W2, WW2) /\
      holds W2 (e + e + Z.b2z (Z.testbit c (Z.of_nat m))) /\ scratch WW2).
    { destruct (Z.testbit c (Z.of_nat m)); [|exists W1, WW1; cbn [Z.b2z]; rewrite Z.add_0_r; done].
      destruct (mul_select_ok W1 WW1 _ 1 H1 S1) as (W2 & WW2 & E & H2 & S2); [destruct Hw as [-> | ->]; cbn; lia|]. by exists W2, WW2. }
    destruct G as (W2 & WW2 & -> & H2 & S2). cbn [mbind result_bind]. rewrite Z.shiftl_mul_pow2 by lia.
    destruct (IH ltac:(lia) W2 WW2 _ c H2 S2 Hc) as (W3 & WW3 & -> & H3). exists W3, WW3. split; [done|].
    replace (e * 2 ^ Z.of_nat (Datatypes.S m) + c mod 2 ^ Z.of_nat (Datatypes.S m)) with ((e + e + Z.b2z (Z.testbit c (Z.of_nat m))) * 2 ^ Z.of_nat m + c mod 2 ^ Z.of_nat m); [exact H3|].
    rewrite Nat2Z.inj_succ, Z.pow_succ_r by lia. assert (P2 : 0 < 2 ^ Z.of_nat m) by (apply Z.pow_pos_nonneg; lia).
    rewrite (Z.mul_comm 2 (2 ^ Z.of_nat m)), Z.rem_mul_r by lia.
    rewrite Z.testbit_spec' by lia. ring.
Qed.
End Table.

(** ** The bits of the exponent *)

Lemma limb_bits_ok x e : limb x -> fold_left (fun e ei => 2 * e + ei) (limb_bits x) e = e * radix + x.
Proof.
  intros Hx. unfold limb_bits. assert (G : forall k e, fold_left (fun e ei => 2 * e + ei) (map (fun b => Z.land (Z.shiftr x (Z.of_nat b)) 1) (rev (seq 0 k))) e = e * 2 ^ Z.of_nat k + x mod 2 ^ Z.of_nat k).
  { clear e. induction k as [|k IH]; intros e; [cbn; rewrite Z.mod_1_r; lia|]. rewrite seq_S, rev_app_distr. cbn [rev app map fold_left Nat.add].
    rewrite IH, shiftr_land_1 by lia. assert (P : 0 < 2 ^ Z.of_nat k) by (apply Z.pow_pos_nonneg; lia).
    rewrite Nat2Z.inj_succ, Z.pow_succ_r by lia. rewrite (Z.mul_comm 2 (2 ^ Z.of_nat k)), Z.rem_mul_r by lia. rewrite Z.testbit_spec' by lia. ring. }
  rewrite G. change (2 ^ Z.of_nat 64) with radix. by rewrite Z.mod_small.
Qed.

Lemma exponent_bits_ok E : wf E -> Forall (fun ei => ei = 0 \/ ei = 1) (exponent_bits E) /\ fold_left (fun e ei => 2 * e + ei) (exponent_bits E) 0 = mag (p E).
Proof.
  intros [_ Hl]. unfold exponent_bits. split.
  - apply Forall_forall. intros ei H%list_elem_of_In. apply in_flat_map in H as (x & _ & H). apply in_map_iff in H as (b & <- & _).
    rewrite shiftr_land_1 by lia. destruct (Z.testbit x (Z.of_nat b)); auto.
  - induction Hl as [|x l Hx Hl IH]; [done|]. cbn [rev]. rewrite flat_map_app, fold_left_app. cbn [flat_map]. rewrite app_nil_r, IH, limb_bits_ok by done. cbn [mag]. ring.
Qed.

(** ** The table *)

Lemma copy_sign_irrelevant X Y : n X <> 0%nat -> mbedtls_mpi_copy X Y = mbedtls_mpi_copy (set_s 1 X) Y.
Proof.
  intros H. unfold mbedtls_mpi_copy. change (n (set_s 1 X)) with (n X). destruct (Nat.eqb_spec (n Y) 0).
  - by rewrite (proj2 (Nat.eqb_neq _ _) H).
  - destruct (n X <? _)%nat; [|done]. unfold mbedtls_mpi_grow. destruct (_ <? _); [done|]. change (n (set_s 1 X)) with (n X). by destruct (_ <? _)%nat.
Qed.

Lemma mod_sign_irrelevant R A B : n R <> 0%nat -> mbedtls_mpi_mod_mpi R A B = mbedtls_mpi_mod_mpi (set_s 1 R) A B.
Proof.
  intros H. unfold mbedtls_mpi_mod_mpi, mbedtls_mpi_div_mpi. destruct (_ <? 0); [done|]. destruct (_ =? 0); [done|]. cbn [if_wanted mbind result_bind].
  destruct (mbedtls_mpi_cmp_abs A B <? 0).
  - cbn [mbind result_bind]. rewrite (copy_sign_irrelevant R) by done. by destruct (mbedtls_mpi_copy (set_s 1 R) A).
  - destruct (div_core A B) as [[[Zq X] k]|]; [|done]. cbn [mbind result_bind]. destruct (mbedtls_mpi_shift_r X k) as [X'|]; [|done].
    cbn [mbind result_bind]. rewrite (copy_sign_irrelevant R) by done. by destruct (mbedtls_mpi_copy (set_s 1 R) _).
Qed.

Lemma grow_cleared k : Z.of_nat k <= MBEDTLS_MPI_MAX_LIMBS -> mbedtls_mpi_grow mpi_cleared k = Ok (mkMpi 0 (repeat 0 k)).
Proof.
  intros H. unfold mbedtls_mpi_grow. rewrite (proj2 (Z.ltb_ge _ _)) by lia. unfold n. cbn [mpi_cleared p s length]. f_equal. destruct k; [done|]. by rewrite Nat.sub_0_r.
Qed.

Section Table2.
Context (N : mpi) (mm : Z) (T : nat) (a : Z).
Context (HN : mont_params N mm T) (Hodd : Z.odd (val N) = true).
Context (Hmax : Z.of_nat (S (n N)) <= MBEDTLS_MPI_MAX_LIMBS).

Lemma wf_zeros k : wf (mkMpi 1 (repeat 0 k)).
Proof. split; [by left|apply limbs_zeros]. Qed.

(** A copy into an entry of [n N + 1] limbs keeps their number. *)
Lemma copy_entry x Y : wf Y -> 0 <= val Y < val N -> exists X, mbedtls_mpi_copy (mkMpi x (repeat 0 (n N + 1))) Y = Ok X /\ wf X /\ val X = val Y /\ n X = S (n N).
Proof.
  intros WY RY. rewrite copy_sign_irrelevant by (unfold n at 1; cbn [p]; rewrite repeat_length; lia). destruct HN as (WN & SN & _).
  assert (Hf : (limbs_needed (val Y) <= S (n N))%nat).
  { apply limbs_needed_le; [lia|]. pose proof (wf_mag N WN) as R. unfold val in RY at 3. rewrite SN in RY. pose proof (radix_pow_le (n N) (S (n N)) ltac:(lia)). lia. }
  destruct (copy_val (set_s 1 (mkMpi x (repeat 0 (n N + 1)))) Y (wf_zeros _) WY ltac:(lia)) as (X & E & W & V & L & _). exists X. split_and!; try done.
  assert (L0 : n (set_s 1 (mkMpi x (repeat 0 (n N + 1)))) = S (n N)) by (unfold n at 1; cbn [set_s p]; rewrite repeat_length; lia). lia.
Qed.

Lemma power_copy x X e : power N a X e -> exists X', mbedtls_mpi_copy (mkMpi x (repeat 0 (n N + 1))) X = Ok X' /\ power N a X' e.
Proof.
  intros [(W & L & R & E) NX]. destruct (copy_entry x X W R) as (X' & Ec & W' & V' & N'). exists X'. split; [done|]. split; [|done].
  split; [done|]. rewrite V', N'. split; [lia|]. by split.
Qed.

Lemma power_mul X Y e f : 0 <= e -> 0 <= f -> power N a X e -> power N a Y f -> power N a (mbedtls_mpi_montmul X Y N mm T) (e + f).
Proof. intros He Hf HX [(WY & _ & RY & EY) _]. by apply mul_power. Qed.

Lemma window_table_ok w W0 W1 : w = 1%nat \/ w = 2%nat -> power N a W0 0 -> power N a W1 1 ->
  exists W, window_table N mm T w [W0; W1; mpi_cleared; mpi_cleared] = Ok W /\ holds N w a W 0.
Proof.
  intros Hw P0 P1. unfold window_table. destruct Hw as [-> | ->].
  - eexists. split; [reflexivity|]. split; [done|]. split; [done|]. split; [exact P0|]. intros i Hi. cbn in Hi. assert (i = 1)%nat as -> by lia. exact P1.
  - change (1 <? 2)%nat with true. cbv iota. change (2 ^ 2 / 2)%nat with 2%nat. change (entry [W0; W1; mpi_cleared; mpi_cleared] 2) with mpi_cleared.
    change (entry [W0; W1; mpi_cleared; mpi_cleared] 1) with W1. rewrite grow_cleared by lia. cbn [mbind result_bind].
    destruct (power_copy 0 W1 1 P1) as (W2 & -> & P2). cbn [mbind result_bind]. change (2 ^ 2 - (2 + 1))%nat with 1%nat. change (2 - 1)%nat with 1%nat.
    change (Nat.iter 1 (fun Wj => mbedtls_mpi_montmul Wj Wj N mm T) W2) with (mbedtls_mpi_montmul W2 W2 N mm T).
    pose proof (power_mul W2 W2 1 1 ltac:(lia) ltac:(lia) P2 P2) as Q2. set (W2' := mbedtls_mpi_montmul W2 W2 N mm T) in *.
    change (<[2%nat := W2']> [W0; W1; mpi_cleared; mpi_cleared]) with [W0; W1; W2'; mpi_cleared]. change (2 + 1)%nat with 3%nat. cbn [fill_table].
    change (entry [W0; W1; W2'; mpi_cleared] 3) with mpi_cleared. rewrite grow_cleared by lia. cbn [mbind result_bind].
    change (entry [W0; W1; W2'; mpi_cleared] (3 - 1)) with W2'. change (entry [W0; W1; W2'; mpi_cleared] 1) with W1.
    destruct (power_copy 0 W2' 2 Q2) as (W3 & -> & P3). cbn [mbind result_bind]. pose proof (power_mul W3 W1 2 1 ltac:(lia) ltac:(lia) P3 P1) as Q3.
    eexists. split; [reflexivity|]. split; [done|]. split; [done|]. split; [exact P0|]. intros i Hi. change (2 ^ 2)%nat with 4%nat in Hi.
    assert (i = 1 \/ i = 2 \/ i = 3)%nat as [-> |[-> | ->]] by lia; [exact P1|exact Q2|exact Q3].
Qed.
End Table2.

(** ** The exponentiation *)

Lemma window_size_small i : window_size i = 1%nat \/ window_size i = 2%nat.
Proof. unfold window_size. destruct (671 <? i), (239 <? i), (79 <? i), (23 <? i); vm_compute; auto. Qed.

Lemma params_ok N T : wf N -> 0 < val N -> Z.odd (val N) = true -> (2 * (n N + 1) <= T)%nat -> mont_params N (mbedtls_mpi_montmul_init (p N)) T.
Proof.
  intros W Hp Ho HT. pose proof (sign_val N W ltac:(lia)) as S. rewrite Z.sgn_pos in S by lia. pose proof (val_nonneg N W ltac:(lia)) as M.
  destruct (montmul_init_ok (p N)) as [_ E]; [by rewrite <- odd_low, M|]. split_and!; try done; lia.
Qed.

Lemma exp_main_ok A E N RR T : wf A -> 0 <= val A -> wf E -> 0 <= val E -> wf N -> 0 < val N -> Z.odd (val N) = true -> (2 * (n N + 1) <= T)%nat ->
  wf RR -> val RR = (radix ^ Z.of_nat (n N) * radix ^ Z.of_nat (n N)) mod val N ->
  Z.of_nat (n N) + 1 <= MBEDTLS_MPI_MAX_LIMBS -> Z.of_nat (n A) + 3 <= MBEDTLS_MPI_MAX_LIMBS ->
  exists X, exp_main A E N RR (mkMpi 0 (repeat 0 (n N + 1))) (mkMpi 1 (repeat 0 (n N + 1))) T = Ok X /\ wf X /\ n X = S (n N) /\ val X = (val A ^ val E) mod val N.
Proof.
  intros WA HA WE HE WN Hp Ho HT WR VR MN MA. unfold exp_main. set (mm := mbedtls_mpi_montmul_init (p N)). set (w := window_size _).
  pose proof (params_ok N T WN Hp Ho HT) as HN. fold mm in HN. pose proof (window_size_small (mbedtls_mpi_bitlen E)) as Hw. fold w in Hw.
  assert (RRr : 0 <= val RR < val N) by (rewrite VR; apply Z.mod_pos_bound; lia).
  assert (ERR : eqm (val N) (val RR) (radix ^ Z.of_nat (n N) * radix ^ Z.of_nat (n N))) by (unfold eqm; rewrite VR; by apply Z.mod_mod; lia).
  assert (G : exists W1, (if 0 <=? mbedtls_mpi_cmp_mpi A N then W1 ← mbedtls_mpi_mod_mpi (mkMpi 0 (repeat 0 (n N + 1))) A N; mbedtls_mpi_grow W1 (n N + 1)
        else mbedtls_mpi_copy (mkMpi 0 (repeat 0 (n N + 1))) A) = Ok W1 /\ wf W1 /\ val W1 = val A mod val N /\ n W1 = S (n N)).
  { rewrite cmp_mpi_ok by done. destruct (Z.leb_spec 0 (Z.sgn (val A - val N))) as [Hge|Hlt].
    - rewrite mod_sign_irrelevant by (unfold n at 1; cbn [p]; rewrite repeat_length; lia). change (set_s 1 (mkMpi 0 (repeat 0 (n N + 1)))) with (mkMpi 1 (repeat 0 (n N + 1))).
      assert (L0 : n (mkMpi 1 (repeat 0 (n N + 1))) = S (n N)) by (unfold n at 1; cbn [p]; rewrite repeat_length; lia).
      destruct (mod_mpi_ok (mkMpi 1 (repeat 0 (n N + 1))) A N (S (n N)) (wf_zeros _) WA WN Hp) as (W1 & -> & W & V & L); [lia..|]. cbn [mbind result_bind].
      destruct (grow_ok W1 (n N + 1) W) as (W1' & -> & W' & S' & M' & L'); [lia|]. exists W1'. split; [done|]. split; [done|]. split; [unfold val at 1; rewrite S', M'; exact V|lia].
    - destruct (copy_entry N mm T HN ltac:(lia) 0 A WA ltac:(lia)) as (W1 & -> & W & V & L). exists W1. rewrite Z.mod_small by lia. done. }
  destruct G as (W1 & -> & WW1 & VW1 & NW1). cbn [mbind result_bind].
  pose proof (Z.mod_pos_bound (val A) (val N) Hp) as RA.
  destruct (mform_enter N mm T HN Ho W1 RR WW1 ltac:(lia) ltac:(lia) WR RRr ERR) as [F1 L1].
  assert (P1 : power N (val A) (mbedtls_mpi_montmul W1 RR N mm T) 1).
  { split; [|lia]. rewrite Z.pow_1_r. apply (mform_eqm N _ (val W1)); [exact F1|]. rewrite VW1. apply Z.mod_mod. lia. }
  destruct (copy_entry N mm T HN ltac:(lia) 1 RR WR RRr) as (W0 & -> & WW0 & VW0 & NW0). cbn [mbind result_bind].
  destruct (montred_ok N mm T HN Ho W0 WW0 ltac:(lia) ltac:(lia)) as (W0' & L0' & R0' & E0'). set (X0 := mpi_montred W0 N mm T) in *.
  assert (P0 : power N (val A) X0 0).
  { split; [|lia]. split; [done|]. split; [lia|]. split; [done|]. rewrite Z.pow_0_r. apply (rho_cancel N Ho). rewrite E0', VW0, ERR. apply (eqm_of_diff _ _ _ 0). ring. }
  destruct (window_table_ok N mm T (val A) HN Ho ltac:(lia) w X0 _ Hw P0 P1) as (Wt & -> & Ht). cbn [mbind result_bind].
  destruct (exponent_bits_ok E WE) as [Bits Ebits].
  destruct (exp_bits_ok N mm T w (val A) HN Ho Hw ltac:(lia) (exponent_bits E) Bits (mkExp Wt mbedtls_mpi_init 0 0 0) 0) as (st & -> & e0 & b & Ee & He & Hs & Eb & Hn & Hb & _).
  { exists 0, 0. cbn [nbits ExpMod.W WW exponent_bits_in_window state]. change (2 ^ Z.of_nat 0) with 1. split; [lia|]. split; [exact Ht|].
    split; [split; [apply wf_init|cbn; lia]|]. split; [lia|]. split; [lia|]. split; [lia|]. left. split; [done|]. by left. }
  cbn [mbind result_bind]. rewrite Eb.
  destruct (exp_rest_ok N mm T w (val A) HN Ho Hw ltac:(lia) (nbits st) Hn _ _ e0 b He Hs ltac:(lia)) as (W' & WW' & -> & (_ & _ & [F NF] & _)). cbn [mbind result_bind].
  rewrite (Z.mod_small b) in F by done. rewrite <- Ee, Ebits, (val_nonneg E WE HE) in F. 
  destruct (mform_leave N mm T HN Ho (entry W' 0) _ F) as (WX & LX & VX). eexists. split; [reflexivity|]. split; [done|]. split; [lia|exact VX].
Qed.

(** The precomputed value a caller hands back, or none. *)
Definition prec_ok (N : mpi) (prec_RR : option mpi) : Prop :=
  match prec_RR with
  | Some P => p P = [] \/ (wf P /\ val P = (radix ^ Z.of_nat (n N) * radix ^ Z.of_nat (n N)) mod val N)
  | None => True
  end.

Lemma exp_rr_ok N prec_RR : wf N -> 0 < val N -> 2 * Z.of_nat (n N) + 4 <= MBEDTLS_MPI_MAX_LIMBS -> prec_ok N prec_RR ->
  exists RR prec', exp_rr prec_RR N = (RR, prec') /\ wf RR /\ val RR = (radix ^ Z.of_nat (n N) * radix ^ Z.of_nat (n N)) mod val N /\ prec_ok N prec'.
Proof.
  intros W HN Hm HP. destruct (mont_r2_ok N W HN Hm) as (X & E & WX & _ & VX). unfold exp_rr. rewrite E. cbn [snd].
  destruct prec_RR as [P|]; [|by exists X, None]. destruct (p P) eqn:Ep.
  - exists X, (Some X). split_and!; try done. cbn [prec_ok]. by right.
  - destruct HP as [HP|[WP VP]]; [rewrite HP in Ep; discriminate|]. exists P, (Some P). split_and!; try done. cbn [prec_ok]. by right.
Qed.

(** A power of the absolute value and the power of the number. *)
Lemma pow_mod_neg a e N : 0 <= e -> 0 < N -> a < 0 -> Z.odd e = true ->
  N - (Z.abs a ^ e) mod N = if a ^ e mod N =? 0 then N else a ^ e mod N.
Proof.
  intros He HN Ha Ho. assert (E : a ^ e = - (Z.abs a ^ e)).
  { rewrite Z.abs_neq by lia. rewrite Z.pow_opp_odd by (by apply Z.odd_spec). lia. }
  rewrite E. set (m := Z.abs a ^ e). destruct (Z.eq_dec (m mod N) 0) as [Z0|Z0].
  - rewrite Z0, (Z.mod_opp_l_z m N) by lia. change (0 =? 0) with true. cbv iota. lia.
  - rewrite Z.mod_opp_l_nz by lia. pose proof (Z.mod_pos_bound m N HN). rewrite (proj2 (Z.eqb_neq _ _)) by lia. done.
Qed.

(** The result exactly, for the lemmas: the power modulo [N], except that
    the code leaves a power of a negative number that is 0 modulo [N] at [N] (see
    [exp_mod_negative_base]). *)
Definition exp_mod_value (A E N : mpi) : Z :=
  let v := (val A ^ val E) mod val N in
  if (s A =? -1) && Z.odd (val E) && (v =? 0) then val N else v.

Lemma exp_mod_value_spec A E N : 0 < val N ->
  exp_mod_value A E N mod val N = (val A ^ val E) mod val N /\ 0 <= exp_mod_value A E N <= val N /\
  (s A = 1 \/ Z.even (val E) = true \/ (val A ^ val E) mod val N <> 0 -> exp_mod_value A E N = (val A ^ val E) mod val N).
Proof.
  intros HN. unfold exp_mod_value. pose proof (Z.mod_pos_bound (val A ^ val E) (val N) HN). cbv zeta.
  rewrite <- Z.negb_even. destruct (Z.eqb_spec (s A) (-1)) as [->|Es], (Z.even (val E)), (Z.eqb_spec ((val A ^ val E) mod val N) 0) as [E0|E0]; cbn [negb andb];
    rewrite ?Z.mod_mod, ?Z.mod_same by lia; (split; [done|]); (split; [lia|]); try done.
  intros [?|[?|?]]; done.
Qed.

Lemma exp_mod_ok X A E N prec_RR : wf X -> wf A -> wf E -> 0 <= val E -> wf N -> 0 < val N -> Z.odd (val N) = true ->
  bits (val E) <= MBEDTLS_MPI_MAX_BITS -> bits (val N) <= MBEDTLS_MPI_MAX_BITS ->
  2 * Z.of_nat (n N) + 4 <= MBEDTLS_MPI_MAX_LIMBS -> Z.of_nat (n A) + 3 <= MBEDTLS_MPI_MAX_LIMBS -> prec_ok N prec_RR ->
  exists X' prec', mbedtls_mpi_exp_mod X A E N prec_RR = Ok (X', prec') /\ wf X' /\ val X' = exp_mod_value A E N /\ prec_ok N prec' /\ (n X' <= Nat.max (n X) (S (n N)))%nat.
Proof.
  intros WX WA WE HE WN HN Ho BE BN MN MA HP. unfold mbedtls_mpi_exp_mod.
  pose proof (val_nonneg N WN ltac:(lia)) as EN. pose proof (val_nonneg E WE HE) as EE.
  rewrite !cmp_int_ok, !bitlen_ok, !Z.sub_0_r, EN, EE by (try done; lia).
  rewrite (proj2 (Z.leb_gt _ _)), (proj2 (Z.ltb_ge (Z.sgn (val E)) 0)), (proj2 (Z.ltb_ge _ (bits (val E)))), (proj2 (Z.ltb_ge _ (bits (val N)))) by lia.
  assert (Hodd : (Z.land (nth 0 (p N) 0) 1 =? 0) = false) by (apply negb_true_iff; rewrite land_odd, <- odd_low, EN; done). rewrite Hodd. cbn [orb].
  rewrite grow_init, grow_cleared by lia. cbn [mbind result_bind]. rewrite grow_init by lia. cbn [mbind result_bind].
  set (T := mkMpi 1 (repeat 0 ((n N + 1) * 2))). assert (LT : n T = (2 * (n N + 1))%nat) by (unfold n at 1, T; cbn [p]; rewrite repeat_length; lia).
  assert (G : exists A', (if s A =? -1 then Apos ← mbedtls_mpi_copy mbedtls_mpi_init A; Ok (set_s 1 Apos) else Ok A) = Ok A' /\ wf A' /\ val A' = Z.abs (val A) /\ (n A' <= n A)%nat).
  { pose proof (val_abs A WA) as VA. destruct (Z.eqb_spec (s A) (-1)) as [Es|Es].
    - destruct (copy_ok mbedtls_mpi_init A wf_init WA) as (A' & -> & W' & M' & _ & L' & _); [pose proof (sig1_le A); lia|]. cbn [mbind result_bind]. eexists. split; [reflexivity|].
      split; [by apply wf_set_s; [left|]|]. split; [unfold val at 1; cbn [set_s s p]; lia|]. change (n mbedtls_mpi_init) with 0%nat in L'. pose proof (sig1_le A). change (n (set_s 1 A')) with (n A'). lia.
    - exists A. assert (Es1 : s A = 1) by (destruct (proj1 WA); lia). split; [done|]. split; [done|]. split; [|done]. rewrite VA. unfold val. rewrite Es1. lia. }
  destruct G as (A' & -> & WA' & VA' & LA'). cbn [mbind result_bind].
  destruct (exp_rr_ok N prec_RR WN HN MN HP) as (RR & prec' & -> & WR & VR & HP').
  destruct (exp_main_ok A' E N RR (n T) WA' ltac:(lia) WE HE WN HN Ho ltac:(lia) WR VR ltac:(lia) ltac:(lia)) as (W0 & -> & WW0 & LW0 & VW0). cbn [mbind result_bind].
  rewrite VA' in VW0. pose proof (Z.mod_pos_bound (Z.abs (val A) ^ val E) (val N) HN) as RV.
  assert (G : exists W0', (if (s A =? -1) && negb (n E =? 0)%nat && negb (Z.land (nth 0 (p E) 0) 1 =? 0) then mbedtls_mpi_add_mpi (set_s (-1) W0) N (set_s (-1) W0) else Ok W0) = Ok W0' /\
    wf W0' /\ val W0' = exp_mod_value A E N /\ n W0' = S (n N)).
  { rewrite land_odd, <- odd_low, EE. assert (Hn : negb (n E =? 0)%nat && Z.odd (val E) = Z.odd (val E)).
    { destruct (Nat.eqb_spec (n E) 0) as [E0|]; [|done]. unfold n in E0. cbn [negb andb]. rewrite <- EE. destruct (p E); [done|discriminate]. }
    rewrite <- andb_assoc, Hn. unfold exp_mod_value. destruct (Z.eqb_spec (s A) (-1)) as [Es|Es]; cbn [andb].
    - destruct (Z.odd (val E)) eqn:OE.
      + cbn [andb]. assert (NS : n (set_s (-1) W0) = n W0) by done.
        destruct (add_mpi_ok (set_s (-1) W0) N (set_s (-1) W0) (S (n N))) as (X' & E' & W' & V' & L'); try done; try lia; try (apply wf_set_s; [by right|done]).
        { rewrite !val_abs by (first [done|apply wf_set_s; [by right|done]]). cbn [set_s p]. rewrite EN, (val_nonneg W0) by (done || lia). pose proof (wf_mag N WN) as R. rewrite EN in R.
          rewrite radix_pow. pose proof (radix_pow_pos (n N)). assert (2 <= radix) by (unfold radix; lia). clear - R VW0 RV H H0. nia. }
        exists X'. split; [done|]. split; [done|]. split; [|lia]. rewrite V'.
        assert (Vn : val (set_s (-1) W0) = - val W0) by (unfold val at 1; cbn [set_s s p]; rewrite (val_nonneg W0) by (done || lia); lia). rewrite Vn, VW0.
        destruct (Z.eq_dec (val A) 0) as [A0|A0].
        * rewrite A0. change (Z.abs 0) with 0. assert (0 < val E) by (destruct (Z.eq_dec (val E) 0) as [e|]; [rewrite e in OE; discriminate|lia]). rewrite Z.pow_0_l by lia. rewrite Z.mod_0_l by lia. change (0 =? 0) with true. cbv iota. lia.
        * assert (val A < 0) by (pose proof (sign_val A WA A0); lia). rewrite <- pow_mod_neg by done. lia.
      + cbn [andb]. exists W0. split; [done|]. split; [done|]. split; [|done]. rewrite VW0. f_equal.
        destruct (Z.abs_eq_or_opp (val A)) as [-> | ->]; [done|]. apply Z.pow_opp_even. apply Z.even_spec. by rewrite <- Z.negb_odd, OE.
    - exists W0. split; [done|]. split; [done|]. split; [|done]. rewrite VW0. do 2 f_equal. assert (Es1 : s A = 1) by (destruct (proj1 WA); lia).
      apply Z.abs_eq. unfold val. rewrite Es1. pose proof (wf_mag A WA). lia. }
  destruct G as (W0' & -> & WW0' & VW0' & LW0'). cbn [mbind result_bind].
  pose proof (needed_fits W0' WW0' ltac:(lia)) as Hf.
  destruct (copy_val X W0' WX WW0' ltac:(lia)) as (X' & -> & W' & V' & L' & _). cbn [mbind result_bind]. exists X', prec'. rewrite V', VW0'. split_and!; try done. lia.
Qed.

(** The arguments that are refused. *)
Lemma exp_mod_refused X A E N prec_RR : wf E -> wf N -> val N <= 0 \/ Z.odd (val N) = false \/ val E < 0 \/ MBEDTLS_MPI_MAX_BITS < bits (Z.abs (val E)) \/ MBEDTLS_MPI_MAX_BITS < bits (Z.abs (val N)) ->
  mbedtls_mpi_exp_mod X A E N prec_RR = Err MBEDTLS_ERR_MPI_BAD_INPUT_DATA.
Proof.
  intros WE WN H. unfold mbedtls_mpi_exp_mod. rewrite !cmp_int_ok, !bitlen_ok, !Z.sub_0_r, <- !val_abs by (try done; lia).
  destruct (Z.leb_spec (Z.sgn (val N)) 0) as [H1|H1]; [done|]. cbn [orb].
  assert (Hodd : (Z.land (nth 0 (p N) 0) 1 =? 0) = negb (Z.odd (val N))).
  { rewrite <- (val_nonneg N WN) by lia. rewrite odd_low, <- land_odd. by rewrite negb_involutive. }
  rewrite Hodd. destruct (Z.odd (val N)); [|done]. cbn [negb]. destruct (Z.ltb_spec (Z.sgn (val E)) 0); [done|].
  destruct (Z.ltb_spec MBEDTLS_MPI_MAX_BITS (bits (Z.abs (val E)))); [done|]. cbn [orb]. rewrite (proj2 (Z.ltb_lt _ _)); [done|].
  destruct H as [?|[?|[?|[?|?]]]]; lia || done.
Qed.

(** C13. The exponentiation by the sliding window over Montgomery products is the
    power modulo an odd positive modulus of at most 8192 bits: for every base, every
    exponent that is not negative and has at most 8192 bits, all contents of the
    destination and of the precomputed value, the loops end with a number from 0 to
    [N] that is congruent to A^E modulo [N]; it is A^E mod [N] itself when the base
    is marked positive, the exponent is even or the power is not 0 modulo [N] (the
    rest is [exp_mod_negative_base]); and what is kept for the next calls is the
    square of the radix.  Even, zero, negative and oversized moduli and negative and
    oversized exponents are refused. *)
Theorem exp_mod_correct X A E N prec_RR : wf X -> wf A -> wf E -> wf N -> 2 * Z.of_nat (n N) + 4 <= MBEDTLS_MPI_MAX_LIMBS -> Z.of_nat (n A) + 3 <= MBEDTLS_MPI_MAX_LIMBS -> prec_ok N prec_RR ->
  if (0 <? val N) && Z.odd (val N) && (0 <=? val E) && (bits (Z.abs (val E)) <=? MBEDTLS_MPI_MAX_BITS) && (bits (Z.abs (val N)) <=? MBEDTLS_MPI_MAX_BITS) then
    exists X' prec', mbedtls_mpi_exp_mod X A E N prec_RR = Ok (X', prec') /\ wf X' /\ prec_ok N prec' /\
      val X' mod val N = (val A ^ val E) mod val N /\ 0 <= val X' <= val N /\
      (s A = 1 \/ Z.even (val E) = true \/ (val A ^ val E) mod val N <> 0 -> val X' = (val A ^ val E) mod val N)
  else mbedtls_mpi_exp_mod X A E N prec_RR = Err MBEDTLS_ERR_MPI_BAD_INPUT_DATA.
Proof.
  intros WX WA WE WN MN MA HP. destruct (_ && _) eqn:C.
  - to_prop. rewrite !Z.abs_eq in * by lia. destruct (exp_mod_ok X A E N prec_RR) as (X' & prec' & HE & W & V & P & _); try done.
    exists X', prec'. destruct (exp_mod_value_spec A E N) as (G1 & G2 & G3); [lia|]. rewrite V. done.
  - apply exp_mod_refused; [done..|]. repeat (apply andb_false_iff in C as [C|C]); to_prop; auto 6.
Qed.

Lemma exp_mod_correct_witness : exists X' prec', mbedtls_mpi_exp_mod mbedtls_mpi_init (mpi_of_int 3) (mpi_of_int (2 ^ 40 + 5)) (mkMpi 1 [13; 7]) None = Ok (X', prec') /\
  wf X' /\ prec_ok (mkMpi 1 [13; 7]) prec' /\
  val X' mod val (mkMpi 1 [13; 7]) = (val (mpi_of_int 3) ^ val (mpi_of_int (2 ^ 40 + 5))) mod val (mkMpi 1 [13; 7]) /\ 0 <= val X' <= val (mkMpi 1 [13; 7]) /\
  (s (mpi_of_int 3) = 1 \/ Z.even (val (mpi_of_int (2 ^ 40 + 5))) = true \/ (val (mpi_of_int 3) ^ val (mpi_of_int (2 ^ 40 + 5))) mod val (mkMpi 1 [13; 7]) <> 0 ->
   val X' = (val (mpi_of_int 3) ^ val (mpi_of_int (2 ^ 40 + 5))) mod val (mkMpi 1 [13; 7])).
Proof.
  destruct (int_ok 3 ltac:(lia)) as (WA & _). destruct (int_ok (2 ^ 40 + 5) ltac:(lia)) as (WE & _). assert (WN : wf (mkMpi 1 [13; 7])) by (split; [by left|limbs_literal]).
  exact (exp_mod_correct mbedtls_mpi_init _ _ _ None wf_init WA WE WN ltac:(vm_compute; discriminate) ltac:(vm_compute; discriminate) I).
Defined.

(** The zero power of a negative number is returned as the modulus. *)
Lemma exp_mod_negative_base : match mbedtls_mpi_exp_mod mbedtls_mpi_init (mpi_of_int (-3)) (mpi_of_int 3) (mpi_of_int 9) None with Ok (X, _) => val X | Err e => e end = 9.
Proof. vm_compute. reflexivity. Qed.

End ExpMod.
