(* ===== verification/BignumGcd.v ===== *)
(** Greatest common divisor, inverse and random numbers
    (mbedtls/library/bignum.c): the binary algorithms, with fuel that their
    theorems show to be enough, and the generation of a number in a range with a
    generator that is a parameter. *)
From S2P Require Import Prelude Words ConstantTime Limbs Bignum BignumDiv MpiCt.
From stdpp Require Import list.
#[local] Open Scope Z_scope.

Module Gcd.
Import ConstantTime Bignum Division MpiCt.

(** ** Greatest common divisor *)

(** [while (mbedtls_mpi_cmp_int(&TA, 0) != 0)] *)
Fixpoint gcd_loop (TA TB : mpi) (fuel : nat) : result (mpi * mpi) :=
  if mbedtls_mpi_cmp_int TA 0 =? 0 then Ok (TA, TB)
  else
    match fuel with
    | O => Err MBEDTLS_ERR_ERROR_CORRUPTION_DETECTED
    | S fuel =>
        TA ← mbedtls_mpi_shift_r TA (mbedtls_mpi_lsb TA);
        TB ← mbedtls_mpi_shift_r TB (mbedtls_mpi_lsb TB);
        if 0 <=? mbedtls_mpi_cmp_mpi TA TB then
          TA ← mbedtls_mpi_sub_abs TA TA TB;
          TA ← mbedtls_mpi_shift_r TA 1;
          gcd_loop TA TB fuel
        else
          TB ← mbedtls_mpi_sub_abs TB TB TA;
          TB ← mbedtls_mpi_shift_r TB 1;
          gcd_loop TA TB fuel
    end.

(** The product of the two numbers has at most so many bits. *)
Definition gcd_fuel (TA TB : mpi) : nat := Z.to_nat (mbedtls_mpi_bitlen TA + mbedtls_mpi_bitlen TB).

Definition mbedtls_mpi_gcd (G A B : mpi) : result mpi :=
  TA ← mbedtls_mpi_copy mbedtls_mpi_init A;
  TB ← mbedtls_mpi_copy mbedtls_mpi_init B;
  let lz := mbedtls_mpi_lsb TA in
  let lzt := mbedtls_mpi_lsb TB in
  if (lzt =? 0) && (mbedtls_mpi_get_bit TB 0 =? 0) then mbedtls_mpi_copy G A
  else
    let lz := if lzt <? lz then lzt else lz in
    '(TA, TB) ← gcd_loop (set_s 1 TA) (set_s 1 TB) (gcd_fuel TA TB);
    TB ← mbedtls_mpi_shift_l TB lz;
    mbedtls_mpi_copy G TB.

(** ** Inverse *)

Definition low_bit (X : mpi) : Z := Z.land (nth 0 (p X) 0) 1.

(** [while ((TU.p[0] & 1) == 0)]; the loop on [TV] is the same. *)
Fixpoint halve (TA TB TU U1 U2 : mpi) (fuel : nat) : result (mpi * mpi * mpi) :=
  if low_bit TU =? 0 then
    match fuel with
    | O => Err MBEDTLS_ERR_ERROR_CORRUPTION_DETECTED
    | S fuel =>
        TU ← mbedtls_mpi_shift_r TU 1;
        '(U1, U2) ← (if negb (low_bit U1 =? 0) || negb (low_bit U2 =? 0) then
                       U1 ← mbedtls_mpi_add_mpi U1 U1 TB;
                       U2 ← mbedtls_mpi_sub_mpi U2 U2 TA;
                       Ok (U1, U2)
                     else Ok (U1, U2));
        U1 ← mbedtls_mpi_shift_r U1 1;
        U2 ← mbedtls_mpi_shift_r U2 1;
        halve TA TB TU U1 U2 fuel
    end
  else Ok (TU, U1, U2).

Definition halve_all (TA TB TU U1 U2 : mpi) : result (mpi * mpi * mpi) :=
  halve TA TB TU U1 U2 (Z.to_nat (mbedtls_mpi_bitlen TU)).

(** [do { ... } while (mbedtls_mpi_cmp_int(&TU, 0) != 0)]; the value of [V1]. *)
Fixpoint inv_loop (TA TB TU U1 U2 TV V1 V2 : mpi) (fuel : nat) : result mpi :=
  match fuel with
  | O => Err MBEDTLS_ERR_ERROR_CORRUPTION_DETECTED
  | S fuel =>
      '(TU, U1, U2) ← halve_all TA TB TU U1 U2;
      '(TV, V1, V2) ← halve_all TA TB TV V1 V2;
      if 0 <=? mbedtls_mpi_cmp_mpi TU TV then
        TU ← mbedtls_mpi_sub_mpi TU TU TV;
        U1 ← mbedtls_mpi_sub_mpi U1 U1 V1;
        U2 ← mbedtls_mpi_sub_mpi U2 U2 V2;
        if negb (mbedtls_mpi_cmp_int TU 0 =? 0) then inv_loop TA TB TU U1 U2 TV V1 V2 fuel else Ok V1
      else
        TV ← mbedtls_mpi_sub_mpi TV TV TU;
        V1 ← mbedtls_mpi_sub_mpi V1 V1 U1;
        V2 ← mbedtls_mpi_sub_mpi V2 V2 U2;
        if negb (mbedtls_mpi_cmp_int TU 0 =? 0) then inv_loop TA TB TU U1 U2 TV V1 V2 fuel else Ok V1
  end.

Definition inv_fuel (N : mpi) : nat := Z.to_nat (2 * mbedtls_mpi_bitlen N + 1).

Definition mbedtls_mpi_inv_mod (X A N : mpi) : result mpi :=
  if mbedtls_mpi_cmp_int N 1 <=? 0 then Err MBEDTLS_ERR_MPI_BAD_INPUT_DATA
  else
    let init := mbedtls_mpi_init in
    G ← mbedtls_mpi_gcd init A N;
    if negb (mbedtls_mpi_cmp_int G 1 =? 0) then Err MBEDTLS_ERR_MPI_NOT_ACCEPTABLE
    else
      TA ← mbedtls_mpi_mod_mpi init A N;
      TU ← mbedtls_mpi_copy init TA;
      TB ← mbedtls_mpi_copy init N;
      TV ← mbedtls_mpi_copy init N;
      U1 ← mbedtls_mpi_lset init 1;
      U2 ← mbedtls_mpi_lset init 0;
      V1 ← mbedtls_mpi_lset init 0;
      V2 ← mbedtls_mpi_lset init 1;
      V1 ← inv_loop TA TB TU U1 U2 TV V1 V2 (inv_fuel N);
      V1 ← mod_up V1 N (inv_fuel N + 3);
      V1 ← mod_down V1 N (inv_fuel N + 3);
      mbedtls_mpi_copy X V1.

(** ** Random numbers *)

Section Random.
(** The generator: its state, and the bytes or an error. *)
Context {S : Type} (f_rng : S -> nat -> result (bytes * S)).

Definition mpi_fill_random_internal (X : mpi) (n_bytes : nat) (p_rng : S) : result (mpi * S) :=
  let limbs := CHARS_TO_LIMBS n_bytes in
  let overhead := (limbs * ciL - n_bytes)%nat in
  if (n X <? limbs)%nat then Err MBEDTLS_ERR_MPI_BAD_INPUT_DATA
  else
    '(buf, p_rng) ← f_rng p_rng n_bytes;
    Ok (mkMpi (s X) (mpi_bigendian_to_host (limbs_of_memory limbs (repeat 0 overhead ++ buf)) ++ repeat 0 (n X - limbs)), p_rng).

Definition mbedtls_mpi_fill_random (X : mpi) (size : nat) (p_rng : S) : result (mpi * S) :=
  X ← mbedtls_mpi_resize_clear X (CHARS_TO_LIMBS size);
  if (size =? 0)%nat then Ok (X, p_rng) else mpi_fill_random_internal X size p_rng.

(** The loop, with [--count] to zero as its end. *)
Fixpoint random_loop (X lower_bound N : mpi) (n_bytes : nat) (n_bits : Z) (p_rng : S) (count : nat) : result (mpi * S) :=
  match count with
  | O => Err MBEDTLS_ERR_MPI_NOT_ACCEPTABLE
  | Datatypes.S count =>
      '(X, p_rng) ← mpi_fill_random_internal X n_bytes p_rng;
      X ← mbedtls_mpi_shift_r X (8 * Z.of_nat n_bytes - n_bits);
      if (count =? 0)%nat then Err MBEDTLS_ERR_MPI_NOT_ACCEPTABLE
      else
        lt_lower ← mbedtls_mpi_lt_mpi_ct X lower_bound;
        lt_upper ← mbedtls_mpi_lt_mpi_ct X N;
        if negb (lt_lower =? 0) || (lt_upper =? 0) then random_loop X lower_bound N n_bytes n_bits p_rng count else Ok (X, p_rng)
  end.

Definition mbedtls_mpi_random (X : mpi) (min : Z) (N : mpi) (p_rng : S) : result (mpi * S) :=
  let n_bits := mbedtls_mpi_bitlen N in
  let n_bytes := Z.to_nat ((n_bits + 7) / 8) in
  if min <? 0 then Err MBEDTLS_ERR_MPI_BAD_INPUT_DATA
  else if mbedtls_mpi_cmp_int N min <=? 0 then Err MBEDTLS_ERR_MPI_BAD_INPUT_DATA
  else
    let count := if (4 <? n_bytes)%nat then 30%nat else 250%nat in
    X ← mbedtls_mpi_resize_clear X (n N);
    lower_bound ← mbedtls_mpi_grow mbedtls_mpi_init (n N);
    lower_bound ← mbedtls_mpi_lset lower_bound min;
    random_loop X lower_bound N n_bytes n_bits p_rng count.
End Random.

(** ** Powers of two and divisors *)

Lemma gcd_odd_2 d : Z.odd d = true -> Z.gcd d 2 = 1.
Proof. intros H. apply Z.odd_spec in H as [h ->]. apply Z.bezout_1_gcd. exists 1, (- h). lia. Qed.

Lemma gcd_half z y : Z.odd y = true -> Z.gcd (2 * z) y = Z.gcd z y.
Proof.
  intros Hy. apply Z.divide_antisym_nonneg; try apply Z.gcd_nonneg.
  - apply Z.gcd_greatest; [|apply Z.gcd_divide_r]. apply (Z.gauss _ 2); [apply Z.gcd_divide_l|]. apply gcd_odd_2.
    destruct (Z.gcd_divide_r (2 * z) y) as [q E]. rewrite E, Z.odd_mul in Hy. by apply andb_true_iff in Hy as [_ ->].
  - apply Z.gcd_greatest; [|apply Z.gcd_divide_r]. apply Z.divide_mul_r, Z.gcd_divide_l.
Qed.

Lemma gcd_pow2 k z y : 0 <= k -> Z.odd y = true -> Z.gcd (2 ^ k * z) y = Z.gcd z y.
Proof.
  intros Hk Hy. revert k Hk. apply natlike_ind; [by rewrite Z.pow_0_r, Z.mul_1_l|]. intros k Hk IH.
  rewrite Z.pow_succ_r by lia. rewrite <- Z.mul_assoc, gcd_half by done. exact IH.
Qed.

Lemma gcd_common i l x y : 0 <= i -> 0 <= l -> Z.odd x = true -> Z.odd y = true -> Z.gcd (2 ^ i * x) (2 ^ l * y) = 2 ^ Z.min i l * Z.gcd x y.
Proof.
  intros Hi Hl Hx Hy. assert (P : forall k, 0 <= 2 ^ k) by (intros; apply Z.pow_nonneg; lia). destruct (Z.le_ge_cases i l) as [H|H].
  - rewrite Z.min_l by done. replace l with (i + (l - i)) by lia. rewrite Z.pow_add_r by lia. rewrite <- Z.mul_assoc, Z.gcd_mul_mono_l_nonneg by done.
    rewrite (Z.gcd_comm x), gcd_pow2 by (lia || done). by rewrite (Z.gcd_comm y).
  - rewrite Z.min_r by done. replace i with (l + (i - l)) by lia. rewrite Z.pow_add_r by lia. rewrite <- Z.mul_assoc, Z.gcd_mul_mono_l_nonneg by done.
    by rewrite gcd_pow2 by (lia || done).
Qed.

(** ** Greatest common divisor *)

Lemma shift_r_val X c : wf X -> 0 <= val X -> 0 <= c ->
  exists X', mbedtls_mpi_shift_r X c = Ok X' /\ wf X' /\ val X' = val X / 2 ^ c /\ (n X <= n X' <= Nat.max 1 (n X))%nat.
Proof.
  intros W Hv Hc. destruct (shift_r_ok X c W Hc) as (X' & E & W' & M' & S' & N'). exists X'. split; [exact E|]. split; [exact W'|]. split; [|exact N'].
  rewrite (val_nonneg X W Hv) in M'. destruct (Z.eq_dec (mag (p X')) 0) as [Z0|NZ]; [unfold val at 1; rewrite Z0; lia|].
  assert (HX : val X <> 0) by (intros E0; rewrite E0, Z.div_0_l in M' by (apply Z.pow_nonzero; lia); lia).
  unfold val at 1. rewrite (S' NZ), (sign_val X W HX), Z.sgn_pos by lia. lia.
Qed.

Lemma pos_limbs X : wf X -> val X <> 0 -> (1 <= n X)%nat.
Proof. intros W Hv. destruct (n X) eqn:E; [|lia]. exfalso. apply Hv. unfold val. unfold n in E. destruct (p X); [cbn [mag]; lia|discriminate]. Qed.

(** A number without its factors of two. *)
Definition odd_part (X : mpi) : Z := val X / 2 ^ mbedtls_mpi_lsb X.

Lemma odd_part_ok X : wf X -> 0 < val X -> val X = 2 ^ mbedtls_mpi_lsb X * odd_part X /\ 0 < odd_part X <= val X /\ Z.odd (odd_part X) = true /\ 0 <= mbedtls_mpi_lsb X.
Proof.
  intros W Hv. destruct (lsb_ok X W ltac:(lia)) as (L & q & E & Q & O). rewrite (val_nonneg X W) in E by lia. unfold odd_part. set (k := mbedtls_mpi_lsb X) in *.
  assert (P : 0 < 2 ^ k) by (apply Z.pow_pos_nonneg; lia). assert (Eq : val X / 2 ^ k = q) by (rewrite E, Z.mul_comm; apply Z.div_mul; lia).
  rewrite Eq. split; [exact E|]. split; [nia|]. by split.
Qed.

Lemma odd_part_odd X : wf X -> 0 < val X -> Z.odd (val X) = true -> odd_part X = val X.
Proof.
  intros W Hv Ho. destruct (odd_part_ok X W Hv) as (E & R & O & L). destruct (Z.eq_dec (mbedtls_mpi_lsb X) 0) as [E0|NE]; [rewrite E0, Z.pow_0_r in E; lia|].
  exfalso. rewrite E, Z.odd_mul, Z.odd_pow in Ho by lia. discriminate.
Qed.

Lemma lsb_shift X : wf X -> 0 < val X ->
  exists X', mbedtls_mpi_shift_r X (mbedtls_mpi_lsb X) = Ok X' /\ wf X' /\ val X' = odd_part X /\ n X' = n X.
Proof.
  intros W Hv. destruct (odd_part_ok X W Hv) as (_ & _ & _ & L). destruct (shift_r_val X _ W ltac:(lia) L) as (X' & E & W' & V' & N').
  pose proof (pos_limbs X W ltac:(lia)). exists X'. split_and!; try done. lia.
Qed.

(** Half of the difference of two odd numbers. *)
Lemma sub_half X Y : wf X -> wf Y -> 0 < val Y <= val X -> Z.of_nat (n X) <= MBEDTLS_MPI_MAX_LIMBS ->
  exists X1 X', mbedtls_mpi_sub_abs X X Y = Ok X1 /\ mbedtls_mpi_shift_r X1 1 = Ok X' /\ wf X' /\ val X' = (val X - val Y) / 2 /\ n X' = n X.
Proof.
  intros WX WY H Hm. pose proof (val_nonneg X WX ltac:(lia)) as MX. pose proof (val_nonneg Y WY ltac:(lia)) as MY.
  destruct (sub_abs_ok X X Y WX WX WY ltac:(lia) Hm) as (X1 & E1 & W1 & S1 & M1 & N1). assert (V1 : val X1 = val X - val Y) by (unfold val at 1; rewrite S1; lia).
  destruct (shift_r_val X1 1 W1 ltac:(lia) ltac:(lia)) as (X' & E' & W' & V' & N'). pose proof (pos_limbs X WX ltac:(lia)). exists X1, X'. rewrite V1 in V'. split_and!; try done. lia.
Qed.

Lemma gcd_step x y : Z.odd x = true -> Z.odd y = true -> Z.gcd ((x - y) / 2) y = Z.gcd x y.
Proof.
  intros Hx Hy. rewrite <- gcd_half by done. assert (E : 2 * ((x - y) / 2) = x - y).
  { apply Z.odd_spec in Hx as [i ->], Hy as [j ->]. replace (2 * i + 1 - (2 * j + 1)) with ((i - j) * 2) by lia. rewrite Z.div_mul by lia. lia. }
  rewrite E. rewrite Z.gcd_comm. replace (x - y) with (x + (-1) * y) by lia. rewrite Z.gcd_add_mult_diag_r. apply Z.gcd_comm.
Qed.

Lemma gcd_loop_ok fuel : forall TA TB, wf TA -> wf TB -> 0 <= val TA -> 0 < val TB -> val TA * val TB < 2 ^ Z.of_nat fuel ->
  Z.of_nat (n TA) <= MBEDTLS_MPI_MAX_LIMBS -> Z.of_nat (n TB) <= MBEDTLS_MPI_MAX_LIMBS ->
  exists TA' TB', gcd_loop TA TB fuel = Ok (TA', TB') /\ wf TB' /\ n TB' = n TB /\
    val TB' = if val TA =? 0 then val TB else Z.gcd (odd_part TA) (odd_part TB).
Proof.
  induction fuel as [|fuel IH]; intros TA TB WA WB HA HB Hf NA NB; cbn [gcd_loop]; rewrite cmp_zero by done;
    (destruct (Z.eqb_spec (val TA) 0) as [E0|NE]; [by exists TA, TB|]); [change (2 ^ Z.of_nat 0) with 1 in Hf; nia|].
  destruct (odd_part_ok TA WA ltac:(lia)) as (_ & RA & OA & _). destruct (odd_part_ok TB WB HB) as (_ & RB & OB & _).
  destruct (lsb_shift TA WA ltac:(lia)) as (TA1 & -> & WA1 & VA1 & NA1). destruct (lsb_shift TB WB HB) as (TB1 & -> & WB1 & VB1 & NB1). cbn [mbind result_bind].
  rewrite cmp_mpi_ok, VA1, VB1 by done. set (x := odd_part TA) in *. set (y := odd_part TB) in *. rewrite Nat2Z.inj_succ, Z.pow_succ_r in Hf by lia.
  assert (Hxy : x * y <= val TA * val TB) by (apply Z.mul_le_mono_nonneg; lia).
  destruct (Z.leb_spec 0 (Z.sgn (x - y))) as [Hge|Hlt].
  - destruct (sub_half TA1 TB1 WA1 WB1 ltac:(lia) ltac:(lia)) as (X1 & TA2 & -> & E2 & WA2 & VA2 & NA2). cbn [mbind result_bind]. rewrite E2. cbn [mbind result_bind].
    rewrite VA1, VB1 in VA2. assert (Hd : 0 <= val TA2 /\ 2 * val TA2 <= x) by (rewrite VA2; split; [apply Z.div_pos; lia|pose proof (Z.mul_div_le (x - y) 2); lia]).
    destruct (IH TA2 TB1 WA2 WB1 ltac:(lia) ltac:(lia)) as (TA' & TB' & -> & W' & N' & V'); [rewrite VB1; nia|lia|lia|].
    exists TA', TB'. split_and!; try done; try lia. rewrite V', VB1. destruct (Z.eqb_spec (val TA2) 0) as [Z0|Z0].
    + assert (x = y) as ->; [|rewrite Z.gcd_diag; lia]. rewrite VA2 in Z0. pose proof (gcd_step x y OA OB) as G. rewrite Z0 in G.
      apply Z.odd_spec in OA as [i Ei], OB as [j Ej]. rewrite Ei, Ej in Z0. replace (2 * i + 1 - (2 * j + 1)) with ((i - j) * 2) in Z0 by lia. rewrite Z.div_mul in Z0 by lia. lia.
    + destruct (odd_part_ok TA2 WA2 ltac:(lia)) as (E & _ & _ & L). rewrite (odd_part_odd TB1 WB1) by (rewrite VB1; (lia || done)). rewrite VB1.
      rewrite <- (gcd_step x y OA OB), <- VA2, E. by rewrite gcd_pow2.
  - destruct (sub_half TB1 TA1 WB1 WA1 ltac:(lia) ltac:(lia)) as (X1 & TB2 & -> & E2 & WB2 & VB2 & NB2). cbn [mbind result_bind]. rewrite E2. cbn [mbind result_bind].
    rewrite VA1, VB1 in VB2. assert (Hd : 2 * val TB2 = y - x).
    { rewrite VB2. apply Z.odd_spec in OA as [i ->], OB as [j ->]. replace (2 * j + 1 - (2 * i + 1)) with ((j - i) * 2) by lia. rewrite Z.div_mul by lia. lia. }
    destruct (IH TA1 TB2 WA1 WB2 ltac:(lia) ltac:(lia)) as (TA' & TB' & -> & W' & N' & V'); [rewrite VA1; nia|lia|lia|].
    exists TA', TB'. split_and!; try done; try lia. rewrite V', VA1. rewrite (proj2 (Z.eqb_neq _ _)) by lia.
    destruct (odd_part_ok TB2 WB2 ltac:(lia)) as (E & _ & _ & L). rewrite (odd_part_odd TA1 WA1) by (rewrite VA1; (lia || done)). rewrite VA1.
    rewrite (Z.gcd_comm x y), <- (gcd_step y x OB OA), <- VB2, E. by rewrite gcd_pow2, Z.gcd_comm.
Qed.

Lemma get_bit_0 X : wf X -> mbedtls_mpi_get_bit X 0 = Z.b2z (Z.odd (val X)).
Proof.
  intros W. rewrite get_bit_ok by (done || lia). rewrite Z.bit0_odd. unfold val. destruct (proj1 W) as [-> | ->]; [by rewrite Z.mul_1_l|].
  rewrite Z.odd_mul. done.
Qed.

Lemma copy_abs A : wf A -> Z.of_nat (n A) <= MBEDTLS_MPI_MAX_LIMBS ->
  exists TA, mbedtls_mpi_copy mbedtls_mpi_init A = Ok TA /\ wf (set_s 1 TA) /\ val (set_s 1 TA) = Z.abs (val A) /\ (n (set_s 1 TA) <= n A)%nat.
Proof.
  intros W Hm. pose proof (sig1_le A). destruct (copy_ok mbedtls_mpi_init A wf_init W) as (TA & E & WT & M & _ & N & _); [lia|].
  exists TA. split; [done|]. split; [by apply wf_set_s; [left|]|]. split; [unfold val at 1; cbn [set_s s p]; rewrite M, val_abs by done; lia|].
  change (n (set_s 1 TA)) with (n TA). change (n mbedtls_mpi_init) with 0%nat in N. lia.
Qed.

(** The shift back by the common factors of two needs no new limb. *)
Lemma shift_back X c : wf X -> 0 < val X -> 0 <= c -> val X * 2 ^ c < radix ^ Z.of_nat (n X) ->
  exists X', mbedtls_mpi_shift_l X c = Ok X' /\ wf X' /\ val X' = val X * 2 ^ c /\ n X' = n X.
Proof.
  intros W Hv Hc Hf. pose proof (val_nonneg X W ltac:(lia)) as M. assert (0 < 2 ^ c) by (apply Z.pow_pos_nonneg; lia).
  assert (Hi : bits (mag (p X)) + c <= biL * Z.of_nat (n X)).
  { rewrite M, <- bits_shift by done. apply bits_le; [nia|unfold biL; lia|]. by rewrite <- radix_pow_bits. }
  pose proof (bits_nonneg (mag (p X))).
  destruct (shift_l_ok X c W Hc) as (X' & E & W' & S' & M' & N'); [lia|]. exists X'. split; [done|]. split; [done|].
  split; [unfold val; rewrite S', M'; ring|]. apply bits_to_limbs_le in Hi; lia.
Qed.

Lemma gcd_ok G A B : wf G -> wf A -> wf B -> val B <> 0 -> Z.of_nat (n A) <= MBEDTLS_MPI_MAX_LIMBS -> Z.of_nat (n B) <= MBEDTLS_MPI_MAX_LIMBS ->
  exists G', mbedtls_mpi_gcd G A B = Ok G' /\ wf G' /\ val G' = Z.gcd (val A) (val B) /\ (n G <= n G' <= Nat.max (n G) (n B))%nat.
Proof.
  intros WG WA WB HB NA NB. unfold mbedtls_mpi_gcd.
  destruct (copy_abs A WA NA) as (TA & -> & WTA & VTA & LTA). destruct (copy_abs B WB NB) as (TB & -> & WTB & VTB & LTB). cbn [mbind result_bind].
  change (mbedtls_mpi_lsb TA) with (mbedtls_mpi_lsb (set_s 1 TA)). change (mbedtls_mpi_lsb TB) with (mbedtls_mpi_lsb (set_s 1 TB)).
  change (mbedtls_mpi_get_bit TB 0) with (mbedtls_mpi_get_bit (set_s 1 TB) 0). change (gcd_fuel TA TB) with (gcd_fuel (set_s 1 TA) (set_s 1 TB)).
  set (A1 := set_s 1 TA) in *. set (B1 := set_s 1 TB) in *. assert (HB1 : 0 < val B1) by lia.
  destruct (odd_part_ok B1 WTB HB1) as (EB & RB & OB & LB). rewrite get_bit_0 by done.
  assert (Hz : (mbedtls_mpi_lsb B1 =? 0) && (Z.b2z (Z.odd (val B1)) =? 0) = false).
  { destruct (Z.eqb_spec (mbedtls_mpi_lsb B1) 0) as [E0|]; [|done]. rewrite E0, Z.pow_0_r, Z.mul_1_l in EB. by rewrite EB, OB. }
  rewrite Hz. assert (Hfuel : val A1 * val B1 < 2 ^ Z.of_nat (gcd_fuel A1 B1)).
  { unfold gcd_fuel. rewrite !bitlen_ok, !val_nonneg by (done || lia). pose proof (bits_nonneg (val A1)). pose proof (bits_nonneg (val B1)).
    rewrite Z2Nat.id, Z.pow_add_r by lia. assert (val A1 < 2 ^ bits (val A1)) by (apply bits_le; lia). assert (val B1 < 2 ^ bits (val B1)) by (apply bits_le; lia).
    apply Z.mul_lt_mono_nonneg; lia. }
  destruct (gcd_loop_ok _ A1 B1 WTA WTB ltac:(lia) HB1 Hfuel ltac:(lia) ltac:(lia)) as (TA' & TB' & -> & W' & N' & V'). cbn [mbind result_bind].
  set (lz := if mbedtls_mpi_lsb B1 <? mbedtls_mpi_lsb A1 then mbedtls_mpi_lsb B1 else mbedtls_mpi_lsb A1).
  assert (Hg : 0 <= lz /\ 0 < val TB' /\ val TB' * 2 ^ lz = Z.gcd (val A) (val B)).
  { rewrite <- Z.gcd_abs_l, <- Z.gcd_abs_r, <- VTA, <- VTB. rewrite V'. unfold lz. destruct (Z.eqb_spec (val A1) 0) as [E0|NE].
    - rewrite (lsb_zero A1 WTA E0). rewrite (proj2 (Z.ltb_ge _ _)) by lia. rewrite E0, Z.pow_0_r, Z.gcd_0_l. lia.
    - destruct (odd_part_ok A1 WTA ltac:(lia)) as (EA & RA & OA & LA). rewrite EA, EB, gcd_common by done.
      pose proof (Z.gcd_nonneg (odd_part A1) (odd_part B1)). assert (Z.gcd (odd_part A1) (odd_part B1) <> 0) by (intros E; apply Z.gcd_eq_0_l in E; lia).
      destruct (Z.ltb_spec (mbedtls_mpi_lsb B1) (mbedtls_mpi_lsb A1)); [rewrite Z.min_r by lia|rewrite Z.min_l by lia]; lia. }
  destruct Hg as (Hlz & Hp & Hg).
  assert (Hle : Z.gcd (val A) (val B) <= val B1) by (rewrite VTB; apply Z.divide_pos_le; [lia|]; rewrite <- Z.gcd_abs_r; apply Z.gcd_divide_r).
  pose proof (wf_mag B1 WTB) as RB1. rewrite val_nonneg in RB1 by (done || lia).
  destruct (shift_back TB' lz W' Hp Hlz) as (T & -> & WT & VT & NT); [rewrite Hg, N'; lia|]. cbn [mbind result_bind]. rewrite Hg in VT.
  assert (Hneed : (limbs_needed (val T) <= n B1)%nat) by (apply limbs_needed_le; [apply pos_limbs; (done || lia)|]; rewrite VT, Z.abs_eq by apply Z.gcd_nonneg; lia).
  destruct (copy_val G T WG WT ltac:(lia)) as (G' & -> & WG' & VG' & NG' & _). exists G'. split_and!; try done; lia.
Qed.

(** With zero as the second number the first is returned as it is. *)
Lemma gcd_zero G A B : wf B -> val B = 0 -> Z.of_nat (n A) <= MBEDTLS_MPI_MAX_LIMBS -> Z.of_nat (n B) <= MBEDTLS_MPI_MAX_LIMBS -> wf A ->
  mbedtls_mpi_gcd G A B = mbedtls_mpi_copy G A.
Proof.
  intros WB HB NA NB WA. unfold mbedtls_mpi_gcd. destruct (copy_abs A WA NA) as (TA & -> & _). destruct (copy_abs B WB NB) as (TB & -> & WTB & VTB & _). cbn [mbind result_bind].
  change (mbedtls_mpi_lsb TB) with (mbedtls_mpi_lsb (set_s 1 TB)). change (mbedtls_mpi_get_bit TB 0) with (mbedtls_mpi_get_bit (set_s 1 TB) 0).
  rewrite lsb_zero, get_bit_0 by (done || lia). rewrite VTB, HB. done.
Qed.

(** ** Inverse *)

Lemma odd_val X : wf X -> Z.odd (val X) = Z.odd (mag (p X)).
Proof. intros [[H|H] _]; unfold val; rewrite H; [by rewrite Z.mul_1_l|]. by rewrite Z.odd_mul. Qed.

Lemma low_bit_ok X : wf X -> (low_bit X =? 0) = Z.even (val X).
Proof.
  intros W. unfold low_bit. rewrite <- Z.negb_odd, odd_val, odd_low by done. rewrite <- land_odd. by rewrite negb_involutive.
Qed.

Lemma shift_r_half X : wf X -> Z.even (val X) = true ->
  exists X', mbedtls_mpi_shift_r X 1 = Ok X' /\ wf X' /\ 2 * val X' = val X /\ (n X <= n X' <= Nat.max 1 (n X))%nat.
Proof.
  intros W He. destruct (shift_r_ok X 1 W ltac:(lia)) as (X' & E & W' & M' & S' & N'). exists X'. split; [done|]. split; [done|]. split; [|done].
  rewrite Z.pow_1_r in M'. assert (Hm : mag (p X) = 2 * mag (p X')).
  { rewrite M'. rewrite <- Z.negb_odd, odd_val, Z.negb_odd in He by done. apply Z.even_spec in He as [h ->]. rewrite (Z.mul_comm 2 h), Z.div_mul by lia. lia. }
  unfold val. destruct (Z.eq_dec (mag (p X')) 0) as [Z0|NZ]; [rewrite Hm, Z0; lia|]. rewrite (S' NZ), Hm. ring.
Qed.

Section Inverse.
Context (TA TB : mpi) (K : nat).
Let a := val TA.
Let b := val TB.
Context (WA : wf TA) (WB : wf TB) (NA : (n TA <= K)%nat) (NB : (n TB <= K)%nat) (HK : (1 <= K)%nat) (Hmax : Z.of_nat K <= MBEDTLS_MPI_MAX_LIMBS).
Context (Hab : 0 <= a < b) (Hg : Z.gcd a b = 1).

(** One of the two columns: [U1 * TA + U2 * TB = TU]. *)
Definition column (TU U1 U2 : mpi) : Prop :=
  (wf TU /\ wf U1 /\ wf U2) /\ ((n TU <= K)%nat /\ (n U1 <= K)%nat /\ (n U2 <= K)%nat) /\
  0 <= val TU <= b /\ val U1 * a + val U2 * b = val TU.

Definition bounded (M : Z) (U1 U2 : mpi) : Prop := 2 * Z.abs (val U1) <= M /\ 2 * Z.abs (val U2) <= M.

(** When [TU] is even, both coefficients are even or both are after the addition. *)
Lemma coefficients_even u1 u2 tu : u1 * a + u2 * b = tu -> Z.even tu = true ->
  (Z.even u1 && Z.even u2 = true) \/ (Z.even u1 && Z.even u2 = false /\ Z.even (u1 + b) = true /\ Z.even (u2 - a) = true).
Proof.
  intros E Ht. rewrite <- E, Z.even_add, !Z.even_mul in Ht. rewrite Z.even_add, Z.even_sub.
  assert (H : Z.even a && Z.even b = false).
  { apply not_true_iff_false. intros [Ea Eb]%andb_true_iff. apply Z.even_spec in Ea as [x Ea], Eb as [y Eb].
    assert (D : (2 | Z.gcd a b)) by (apply Z.gcd_greatest; [exists x|exists y]; lia). rewrite Hg in D. destruct D as [z D]. lia. }
  destruct (Z.even u1), (Z.even u2), (Z.even a), (Z.even b); cbn in *; auto; discriminate.
Qed.

Lemma halve_ok fuel M : 2 * b <= M -> M + 2 * b < radix ^ Z.of_nat K -> forall TU U1 U2, column TU U1 U2 -> 0 < val TU < 2 ^ Z.of_nat fuel ->
  (Z.even (val TU) = true /\ bounded (2 * (M - b)) U1 U2) \/ bounded M U1 U2 ->
  exists TU' U1' U2', halve TA TB TU U1 U2 fuel = Ok (TU', U1', U2') /\ column TU' U1' U2' /\ bounded M U1' U2' /\ Z.odd (val TU') = true /\
    0 < val TU' <= val TU /\ (Z.even (val TU) = true -> 2 * val TU' <= val TU) /\ (exists j, 0 <= j /\ val TU = 2 ^ j * val TU').
Proof.
  intros HM HR. induction fuel as [|fuel IH]; intros TU U1 U2 C Ht B; [change (2 ^ Z.of_nat 0) with 1 in Ht; lia|].
  pose proof C as ((WT & W1 & W2) & (NT & N1 & N2) & RT & E). cbn [halve]. rewrite low_bit_ok by done.
  destruct (Z.even (val TU)) eqn:Ev.
  2:{ destruct B as [[B _]|B]; [discriminate|]. exists TU, U1, U2. split_and!; try done; try lia; [by rewrite <- Z.negb_even, Ev|]. exists 0. lia. }
  assert (HB : Z.abs (val U1) <= M - b /\ Z.abs (val U2) <= M - b) by (unfold bounded in B; lia). destruct HB as [B1 B2]. clear B.
  destruct (shift_r_half TU WT Ev) as (TU1 & -> & WT1 & VT1 & NT1). cbn [mbind result_bind]. rewrite !low_bit_ok by done.
  assert (G : exists X1 X2, (if negb (Z.even (val U1)) || negb (Z.even (val U2)) then U1 ← mbedtls_mpi_add_mpi U1 U1 TB; U2 ← mbedtls_mpi_sub_mpi U2 U2 TA; Ok (U1, U2)
               else Ok (U1, U2)) = Ok (X1, X2) /\ wf X1 /\ wf X2 /\ (n X1 <= K)%nat /\ (n X2 <= K)%nat /\ Z.even (val X1) = true /\ Z.even (val X2) = true /\
            Z.abs (val X1) <= M /\ Z.abs (val X2) <= M /\ val X1 * a + val X2 * b = val TU).
  { rewrite <- negb_andb. destruct (coefficients_even _ _ _ E Ev) as [Hb|(Hb & E1 & E2)]; rewrite Hb; cbn [negb].
    - apply andb_true_iff in Hb as [E1 E2]. exists U1, U2. split_and!; try done; lia.
    - destruct (add_mpi_ok U1 U1 TB K W1 W1 WB) as (X1 & -> & WX1 & VX1 & NX1); try done; [fold b; lia|]. cbn [mbind result_bind].
      destruct (sub_mpi_ok U2 U2 TA K W2 W2 WA) as (X2 & -> & WX2 & VX2 & NX2); try done; [fold a; lia|]. cbn [mbind result_bind]. fold b in VX1. fold a in VX2.
      exists X1, X2. rewrite VX1, VX2. split_and!; try done; try lia. }
  destruct G as (X1 & X2 & -> & WX1 & WX2 & NX1 & NX2 & E1 & E2 & A1 & A2 & EX). cbn [mbind result_bind].
  destruct (shift_r_half X1 WX1 E1) as (Y1 & -> & WY1 & VY1 & NY1). destruct (shift_r_half X2 WX2 E2) as (Y2 & -> & WY2 & VY2 & NY2). cbn [mbind result_bind].
  rewrite Nat2Z.inj_succ, Z.pow_succ_r in Ht by lia.
  destruct (IH TU1 Y1 Y2) as (TU' & U1' & U2' & -> & C' & B' & O' & R' & _ & j & Hj & Ej).
  { split; [done|]. split; [lia|]. split; [lia|]. lia. }
  { lia. } { right. unfold bounded. lia. }
  exists TU', U1', U2'. split; [done|]. split; [done|]. split; [done|]. split; [done|]. split; [lia|]. split; [lia|].
  exists (Z.succ j). split; [lia|]. rewrite Z.pow_succ_r by lia. lia.
Qed.

(** The two columns at the start of a turn. *)
Definition ready (M : Z) (TU U1 U2 : mpi) : Prop :=
  column TU U1 U2 /\ 0 < val TU /\ ((Z.even (val TU) = true /\ bounded (2 * (M - b)) U1 U2) \/ bounded M U1 U2).

Lemma halve_all_ok M TU U1 U2 : 2 * b <= M -> M + 2 * b < radix ^ Z.of_nat K -> ready M TU U1 U2 ->
  exists TU' U1' U2', halve_all TA TB TU U1 U2 = Ok (TU', U1', U2') /\ column TU' U1' U2' /\ bounded M U1' U2' /\ Z.odd (val TU') = true /\
    0 < val TU' <= val TU /\ (Z.even (val TU) = true -> 2 * val TU' <= val TU) /\ (exists j, 0 <= j /\ val TU = 2 ^ j * val TU').
Proof.
  intros HM HR (C & Hp & B). unfold halve_all. apply halve_ok; try done. pose proof C as ((WT & _) & _). split; [done|].
  rewrite bitlen_ok, val_nonneg by (done || lia). rewrite Z2Nat.id by apply bits_nonneg. apply bits_le; [lia|apply bits_nonneg|lia].
Qed.

(** The subtraction of a column from the other. *)
Lemma column_sub M TU U1 U2 TV V1 V2 : M + M < radix ^ Z.of_nat K -> 2 * b <= M -> column TU U1 U2 -> column TV V1 V2 -> bounded M U1 U2 -> bounded M V1 V2 ->
  val TV <= val TU -> Z.odd (val TU) = true -> Z.odd (val TV) = true ->
  exists TU' U1' U2', mbedtls_mpi_sub_mpi TU TU TV = Ok TU' /\ mbedtls_mpi_sub_mpi U1 U1 V1 = Ok U1' /\ mbedtls_mpi_sub_mpi U2 U2 V2 = Ok U2' /\
    column TU' U1' U2' /\ val TU' = val TU - val TV /\ Z.even (val TU') = true /\ bounded (2 * M) U1' U2'.
Proof.
  intros HR HM ((WT & W1 & W2) & (NT & N1 & N2) & RT & E) ((WT' & W1' & W2') & (NT' & N1' & N2') & RT' & E') B B' Hle O O'. unfold bounded in *.
  destruct (sub_mpi_ok TU TU TV K WT WT WT') as (X & -> & WX & VX & NX); [lia..|].
  destruct (sub_mpi_ok U1 U1 V1 K W1 W1 W1') as (X1 & -> & WX1 & VX1 & NX1); [lia..|].
  destruct (sub_mpi_ok U2 U2 V2 K W2 W2 W2') as (X2 & -> & WX2 & VX2 & NX2); [lia..|].
  exists X, X1, X2. split; [done|]. split; [done|]. split; [done|]. split; [|split; [done|]].
  - split; [done|]. split; [lia|]. split; [lia|]. rewrite VX, VX1, VX2. lia.
  - split; [|lia]. rewrite VX, Z.even_sub, <- !Z.negb_odd, O, O'. done.
Qed.

Lemma gcd_halves x y i j u v : 0 <= i -> 0 <= j -> x = 2 ^ i * u -> y = 2 ^ j * v -> Z.gcd x y = 1 -> Z.gcd u v = 1.
Proof.
  intros Hi Hj -> -> H. assert (D : (Z.gcd u v | Z.gcd (2 ^ i * u) (2 ^ j * v))).
  { apply Z.gcd_greatest; apply Z.divide_mul_r; [apply Z.gcd_divide_l|apply Z.gcd_divide_r]. }
  rewrite H in D. apply Z.divide_1_r_nonneg in D; [done|apply Z.gcd_nonneg].
Qed.

Lemma inv_loop_ok fuel : forall k M TU U1 U2 TV V1 V2, 2 * b <= M -> 2 * (M + Z.of_nat fuel * b) + 2 * b < radix ^ Z.of_nat K ->
  ready M TU U1 U2 -> ready M TV V1 V2 -> Z.gcd (val TU) (val TV) = 1 -> val TU * val TV < 2 ^ Z.of_nat k ->
  ((Z.even (val TU) || Z.even (val TV) = true /\ (k <= fuel)%nat) \/ (k < fuel)%nat) ->
  exists V, inv_loop TA TB TU U1 U2 TV V1 V2 fuel = Ok V /\ wf V /\ (n V <= K)%nat /\ 2 * Z.abs (val V) <= M + Z.of_nat fuel * b /\ exists y, val V * a + y * b = 1.
Proof.
  induction fuel as [|fuel IH]; intros k M TU U1 U2 TV V1 V2 HM HR RU RV G Hk Hf.
  { exfalso. destruct RU as (_ & PU & _), RV as (_ & PV & _). destruct Hf as [[_ Hf]|Hf]; [|lia]. assert (k = 0%nat) as -> by lia. change (2 ^ Z.of_nat 0) with 1 in Hk. nia. }
  rewrite Nat2Z.inj_succ, Z.mul_succ_l in HR |- *. assert (Hfb : 0 <= Z.of_nat fuel * b) by (apply Z.mul_nonneg_nonneg; lia).
  cbn [inv_loop]. assert (Hsum : M + 2 * b < radix ^ Z.of_nat K) by lia.
  destruct (halve_all_ok M TU U1 U2 HM Hsum RU) as (TU1 & X1 & X2 & -> & CU & BU & OU & PU & HU & i & Hi & Ei).
  destruct (halve_all_ok M TV V1 V2 HM Hsum RV) as (TV1 & Y1 & Y2 & -> & CV & BV & OV & PV & HV & j & Hj & Ej). cbn [mbind result_bind].
  pose proof (gcd_halves _ _ _ _ _ _ Hi Hj Ei Ej G) as G1. pose proof CU as ((WU & _) & _). pose proof CV as ((WV & _) & _). pose proof BV as BV'. pose proof BU as BU'. unfold bounded in BV', BU'.
  assert (Hle : val TU1 * val TV1 <= val TU * val TV) by (apply Z.mul_le_mono_nonneg; lia).
  assert (Hprod : exists k', val TU1 * val TV1 < 2 ^ Z.of_nat k' /\ (k' <= fuel)%nat).
  { destruct Hf as [[He Hf]|Hf]; [|exists k; lia]. assert (0 < val TU * val TV) by (apply Z.mul_pos_pos; lia). destruct k as [|k]; [change (2 ^ Z.of_nat 0) with 1 in Hk; lia|]. exists k. split; [|lia].
    rewrite Nat2Z.inj_succ, Z.pow_succ_r in Hk by lia. apply orb_true_iff in He as [He|He]; [specialize (HU He)|specialize (HV He)].
    - pose proof (Z.mul_le_mono_nonneg (2 * val TU1) (val TU) (val TV1) (val TV)). lia.
    - pose proof (Z.mul_le_mono_nonneg (val TU1) (val TU) (2 * val TV1) (val TV)). lia. }
  destruct Hprod as (k' & Hk' & Hf'). rewrite cmp_mpi_ok by done.
  destruct (Z.leb_spec 0 (Z.sgn (val TU1 - val TV1))) as [Hge|Hlt].
  - destruct (column_sub M TU1 X1 X2 TV1 Y1 Y2) as (TU2 & Z1 & Z2 & -> & E1 & E2 & C2 & V2' & Ev & B2); try done; try lia. cbn [mbind result_bind]. rewrite E1. cbn [mbind result_bind]. rewrite E2. cbn [mbind result_bind].
    pose proof C2 as ((WU2 & _) & _). rewrite cmp_zero by done. destruct (Z.eqb_spec (val TU2) 0) as [Z0|Z0]; cbn [negb].
    + exists Y1. destruct CV as ((_ & WY1 & _) & (_ & NY1 & _) & _ & EV). split; [done|]. split; [done|]. split; [done|]. split; [lia|].
      exists (val Y2). rewrite EV. assert (val TU1 = val TV1) as Eq by lia. rewrite Eq, Z.gcd_diag in G1. lia.
    + destruct (IH k' (M + b) TU2 Z1 Z2 TV1 Y1 Y2) as (V & -> & WV' & NV' & BV2 & y & Ey); try lia.
      * split; [done|]. split; [lia|]. left. split; [done|]. by replace (M + b - b) with M by lia.
      * split; [done|]. split; [lia|]. right. unfold bounded. lia.
      * rewrite V2'. rewrite Z.gcd_comm. replace (val TU1 - val TV1) with (val TU1 + (-1) * val TV1) by lia. by rewrite Z.gcd_add_mult_diag_r, Z.gcd_comm.
      * left. by rewrite Ev.
      * exists V. split_and!; try done; try lia. by exists y.
  - destruct (column_sub M TV1 Y1 Y2 TU1 X1 X2) as (TV2 & Z1 & Z2 & -> & E1 & E2 & C2 & V2' & Ev & B2); try done; try lia. cbn [mbind result_bind]. rewrite E1. cbn [mbind result_bind]. rewrite E2. cbn [mbind result_bind].
    rewrite cmp_zero by done. rewrite (proj2 (Z.eqb_neq (val TU1) 0)) by lia. cbn [negb].
    destruct (IH k' (M + b) TU1 X1 X2 TV2 Z1 Z2) as (V & -> & WV' & NV' & BV2 & y & Ey); try lia.
    + split; [done|]. split; [lia|]. right. unfold bounded. lia.
    + split; [done|]. split; [lia|]. left. split; [done|]. by replace (M + b - b) with M by lia.
    + rewrite V2'. replace (val TV1 - val TU1) with (val TV1 + (-1) * val TU1) by lia. by rewrite Z.gcd_add_mult_diag_r.
    + rewrite V2', Z.mul_sub_distr_l. pose proof (Z.square_nonneg (val TU1)). lia.
    + left. rewrite Ev. split; [apply orb_true_r|done].
    + exists V. split_and!; try done; try lia. by exists y.
Qed.
End Inverse.

(** The last two loops bring a number into the range. *)
Lemma mod_up_all B K : wf B -> 0 < val B -> (n B <= K)%nat -> (1 <= K)%nat -> Z.of_nat K <= MBEDTLS_MPI_MAX_LIMBS ->
  forall fuel R c, wf R -> (n R <= K)%nat -> Z.abs (val R) + val B <= c -> 2 * val B <= c -> c < radix ^ Z.of_nat K -> - (Z.of_nat fuel * val B) <= val R ->
  exists R', mod_up R B (S fuel) = Ok R' /\ wf R' /\ (n R' <= K)%nat /\ 0 <= val R' /\ val R' <= Z.max (val R) (val B) /\ val R' mod val B = val R mod val B.
Proof.
  intros WB HB NB HK Hmax. induction fuel as [|fuel IH]; intros R c WR NR Hc H2 Hr Hf; rewrite ?Nat2Z.inj_succ in Hf; cbn [mod_up]; rewrite cmp_int_ok by (done || lia); rewrite Z.sub_0_r;
    (destruct (Z.ltb_spec (Z.sgn (val R)) 0) as [Hn|Hn]; [|exists R; split_and!; done || lia]); [lia|].
  destruct (add_mpi_ok R R B K WR WR WB) as (R1 & -> & W1 & V1 & N1); try done; [lia|]. cbn [mbind result_bind].
  destruct (IH R1 c W1) as (R' & E & W' & N' & P' & Q' & M'); try lia. cbn [mod_up] in E. rewrite E. exists R'. split_and!; try done; try lia.
  rewrite M', V1. rewrite <- (Z.mul_1_l (val B)) at 1. apply Z.mod_add. lia.
Qed.

Lemma mod_down_all B K : wf B -> 0 < val B -> (n B <= K)%nat -> (1 <= K)%nat -> Z.of_nat K <= MBEDTLS_MPI_MAX_LIMBS ->
  forall fuel R, wf R -> (n R <= K)%nat -> 0 <= val R -> val R + val B < radix ^ Z.of_nat K -> val R < Z.of_nat (S fuel) * val B ->
  exists R', mod_down R B (S fuel) = Ok R' /\ wf R' /\ (n R' <= K)%nat /\ val R' = val R mod val B.
Proof.
  intros WB HB NB HK Hmax. induction fuel as [|fuel IH]; intros R WR NR HR Hr Hf; rewrite !Nat2Z.inj_succ in Hf; cbn [mod_down]; rewrite cmp_mpi_ok by done;
    (destruct (Z.leb_spec 0 (Z.sgn (val R - val B))) as [Hn|Hn]; [|exists R; rewrite Z.mod_small by lia; split_and!; done || lia]); [lia|].
  destruct (sub_mpi_ok R R B K WR WR WB) as (R1 & -> & W1 & V1 & N1); try done; [lia|]. cbn [mbind result_bind].
  destruct (IH R1 W1) as (R' & E & W' & N' & V'); try lia. cbn [mod_down] in E. rewrite E. exists R'. split_and!; try done.
  rewrite V', V1. replace (val R) with (val R - val B + 1 * val B) at 2 by lia. symmetry. apply Z.mod_add. lia.
Qed.

Lemma inv_size N : wf N -> 0 < val N -> Z.of_nat (n N) < MBEDTLS_MPI_MAX_LIMBS ->
  2 * (2 * val N + Z.of_nat (inv_fuel N) * val N) + 2 * val N + val N * 10 < radix ^ Z.of_nat (S (n N)).
Proof.
  intros W HN Hm. unfold inv_fuel. rewrite bitlen_ok, val_nonneg by (done || lia). pose proof (bits_nonneg (val N)) as B0. pose proof (wf_mag N W) as R. rewrite val_nonneg in R by (done || lia).
  assert (B1 : bits (val N) <= biL * Z.of_nat (n N)) by (apply bits_le; [lia|unfold biL; lia|]; rewrite <- radix_pow_bits; lia).
  rewrite radix_pow, Z2Nat.id by lia. unfold MBEDTLS_MPI_MAX_LIMBS, biL in *. assert (H : 2 * (2 + (2 * bits (val N) + 1)) + 12 <= radix) by (unfold radix; lia). pose proof radix_pos. nia.
Qed.

Lemma inv_mod_ok X A N : wf X -> wf A -> wf N -> 1 < val N -> Z.gcd (val A) (val N) = 1 -> Z.of_nat (n N) + 4 <= MBEDTLS_MPI_MAX_LIMBS -> Z.of_nat (n A) + 3 <= MBEDTLS_MPI_MAX_LIMBS ->
  exists X', mbedtls_mpi_inv_mod X A N = Ok X' /\ wf X' /\ 0 <= val X' < val N /\ (val X' * val A) mod val N = 1 /\ (n X <= n X' <= Nat.max (n X) (n N))%nat.
Proof.
  intros WX WA WN HN HG MN MA. unfold mbedtls_mpi_inv_mod. rewrite cmp_int_ok by (done || lia). rewrite (proj2 (Z.leb_gt _ _)) by lia. set (K := S (n N)).
  destruct (gcd_ok mbedtls_mpi_init A N wf_init WA WN ltac:(lia) ltac:(lia) ltac:(lia)) as (G & -> & WG & VG & _). cbn [mbind result_bind].
  rewrite cmp_int_ok, VG, HG by (done || lia). change (negb (Z.sgn (1 - 1) =? 0)) with false. cbv iota.
  destruct (mod_mpi_ok mbedtls_mpi_init A N K wf_init WA WN ltac:(lia)) as (TA & -> & WTA & VTA & NTA); try done; try lia; [cbn; lia|]. cbn [mbind result_bind].
  pose proof (Z.mod_pos_bound (val A) (val N) ltac:(lia)) as RA. rewrite <- VTA in RA.
  assert (GA : Z.gcd (val TA) (val N) = 1) by (rewrite VTA, Z.gcd_mod_l; exact HG).
  assert (HA : 0 < val TA) by (destruct (Z.eq_dec (val TA) 0) as [E0|]; [rewrite E0, Z.gcd_0_l, Z.abs_eq in GA by lia; lia|lia]).
  pose proof (pos_limbs N WN ltac:(lia)) as PN. pose proof (needed_fits N WN PN) as FN. pose proof (needed_fits TA WTA (pos_limbs TA WTA ltac:(lia))) as FA.
  destruct (copy_val mbedtls_mpi_init TA wf_init WTA ltac:(lia)) as (TU & -> & WTU & VTU & NTU & _). cbn [mbind result_bind].
  destruct (copy_val mbedtls_mpi_init N wf_init WN ltac:(lia)) as (TB & -> & WTB & VTB & NTB & _). cbn [mbind result_bind].
  change (n mbedtls_mpi_init) with 0%nat in *. set (fuel := inv_fuel N).
  destruct (lset_ok mbedtls_mpi_init 1 wf_init ltac:(lia)) as (I1 & -> & WI1 & VI1 & _ & NI1). destruct (lset_ok mbedtls_mpi_init 0 wf_init ltac:(lia)) as (I0 & -> & WI0 & VI0 & _ & NI0).
  cbn [mbind result_bind]. change (Nat.max (n mbedtls_mpi_init) 1) with 1%nat in *. pose proof (inv_size N WN ltac:(lia) ltac:(lia)) as Size. fold K fuel in Size.
  destruct (inv_loop_ok TA TB K WTA WTB ltac:(lia) ltac:(lia) ltac:(lia) ltac:(lia) ltac:(rewrite VTB; lia) ltac:(by rewrite VTB) fuel (Z.to_nat (2 * bits (val N))) (2 * val N) TU I1 I0 TB I0 I1)
    as (V & -> & WV & NV & BV & y & Ey).
  { rewrite VTB. lia. } { rewrite VTB. lia. }
  { split; [|split; [lia|right; unfold bounded; lia]]. split; [done|]. split; [lia|]. rewrite VTU, VTB. lia. }
  { split; [|split; [lia|right; unfold bounded; lia]]. split; [done|]. split; [lia|]. rewrite VTB. lia. }
  { by rewrite VTU, VTB. }
  { pose proof (bits_nonneg (val N)). rewrite Z2Nat.id, VTU, VTB by lia. replace (2 * bits (val N)) with (bits (val N) + bits (val N)) by lia. rewrite Z.pow_add_r by lia.
    assert (val N < 2 ^ bits (val N)) by (apply bits_le; lia). nia. }
  { right. unfold fuel, inv_fuel. rewrite bitlen_ok, val_nonneg by (done || lia). pose proof (bits_nonneg (val N)). lia. }
  cbn [mbind result_bind]. rewrite VTB in BV, Ey. replace (fuel + 3)%nat with (S (fuel + 2)) by lia. set (f := Z.of_nat fuel) in *.
  destruct (mod_up_all N K WN ltac:(lia) ltac:(lia) ltac:(lia) ltac:(lia) (fuel + 2) V (2 * val N + f * val N + val N) WV NV) as (V1 & -> & WV1 & NV1 & PV1 & QV1 & MV1); [lia|nia|lia| |].
  { rewrite Nat2Z.inj_add. fold f. lia. }
  cbn [mbind result_bind].
  destruct (mod_down_all N K WN ltac:(lia) ltac:(lia) ltac:(lia) ltac:(lia) (fuel + 2) V1 WV1 NV1 PV1) as (V2 & -> & WV2 & NV2 & VV2); [lia| |].
  { rewrite Nat2Z.inj_succ, Nat2Z.inj_add. fold f. lia. }
  cbn [mbind result_bind]. pose proof (Z.mod_pos_bound (val V1) (val N) ltac:(lia)) as RV.
  assert (Fit : (limbs_needed (val V2) <= n N)%nat).
  { apply limbs_needed_le; [done|]. pose proof (wf_mag N WN) as R. rewrite val_nonneg in R by (done || lia). lia. }
  destruct (copy_val X V2 WX WV2 ltac:(lia)) as (X' & -> & WX' & VX' & NX' & _). exists X'. split; [done|]. split; [done|]. split; [lia|]. split; [|lia].
  rewrite VX', VV2, MV1, Z.mul_mod_idemp_l by lia. rewrite <- Z.mul_mod_idemp_r, <- VTA by lia.
  replace (val V * val TA) with (1 + (- y) * val N) by lia. rewrite Z.mod_add, Z.mod_small by lia. done.
Qed.

(** A number that has no inverse, and a modulus that is too small. *)
Lemma inv_mod_none X A N : wf A -> wf N -> 1 < val N -> Z.gcd (val A) (val N) <> 1 -> Z.of_nat (n N) <= MBEDTLS_MPI_MAX_LIMBS -> Z.of_nat (n A) <= MBEDTLS_MPI_MAX_LIMBS ->
  mbedtls_mpi_inv_mod X A N = Err MBEDTLS_ERR_MPI_NOT_ACCEPTABLE.
Proof.
  intros WA WN HN HG MN MA. unfold mbedtls_mpi_inv_mod. rewrite cmp_int_ok by (done || lia). rewrite (proj2 (Z.leb_gt _ _)) by lia.
  destruct (gcd_ok mbedtls_mpi_init A N wf_init WA WN ltac:(lia) ltac:(lia) ltac:(lia)) as (G & -> & WG & VG & _). cbn [mbind result_bind].
  rewrite cmp_int_ok, VG by (done || lia). rewrite (proj2 (Z.eqb_neq _ _)) by lia. done.
Qed.

Lemma inv_mod_small X A N : wf N -> val N <= 1 -> mbedtls_mpi_inv_mod X A N = Err MBEDTLS_ERR_MPI_BAD_INPUT_DATA.
Proof. intros WN HN. unfold mbedtls_mpi_inv_mod. rewrite cmp_int_ok by (done || lia). by rewrite (proj2 (Z.leb_le _ _)) by lia. Qed.

(** ** Random numbers *)

Section RandomProofs.
Context {S : Type} (f_rng : S -> nat -> result (bytes * S)).
(** The generator gives as many bytes as it is asked for. *)
Definition rng_fills : Prop := forall st k buf st', f_rng st k = Ok (buf, st') -> length buf = k /\ bytes_ok buf.
Context (Hrng : rng_fills).

Lemma fill_internal_ok X n_bytes st : wf X -> (CHARS_TO_LIMBS n_bytes <= n X)%nat ->
  match f_rng st n_bytes with
  | Ok (buf, st') => exists X', mpi_fill_random_internal f_rng X n_bytes st = Ok (X', st') /\ wf X' /\ s X' = s X /\ n X' = n X /\ mag (p X') = be_val buf
  | Err e => mpi_fill_random_internal f_rng X n_bytes st = Err e
  end.
Proof.
  intros W Hn. unfold mpi_fill_random_internal. rewrite (proj2 (Nat.ltb_ge _ _)) by done. destruct (f_rng st n_bytes) as [[buf st']|e] eqn:E; [|done].
  cbn [mbind result_bind]. destruct (Hrng _ _ _ _ E) as [L B]. pose proof (chars_to_limbs_spec n_bytes) as C.
  destruct (swap_limbs (CHARS_TO_LIMBS n_bytes) (repeat 0 (CHARS_TO_LIMBS n_bytes * ciL - n_bytes) ++ buf)) as (S1 & S2 & S3).
  { apply bytes_ok_app. split; [|exact B]. apply Forall_forall. intros x Hx%list_elem_of_In%repeat_spec. subst. unfold is_byte. lia. }
  { rewrite length_app, repeat_length. lia. }
  eexists. split; [reflexivity|]. split; [split; [apply W|cbn [p]; apply limbs_app; auto with limbs]|]. split; [done|]. cbn [p]. rewrite mag_app_zeros, S3, be_val_zeros.
  split; [|done]. unfold n at 1. cbn [p]. rewrite length_app, repeat_length, S2. lia.
Qed.

Lemma fill_random_ok X size st buf st' : f_rng st size = Ok (buf, st') -> (0 < size)%nat -> Z.of_nat (CHARS_TO_LIMBS size) <= MBEDTLS_MPI_MAX_LIMBS ->
  exists X', mbedtls_mpi_fill_random f_rng X size st = Ok (X', st') /\ wf X' /\ val X' = be_val buf.
Proof.
  intros E Hs Hm. unfold mbedtls_mpi_fill_random. rewrite resize_clear_ok by done. cbn [mbind result_bind]. rewrite (proj2 (Nat.eqb_neq _ _)) by lia.
  assert (L : n (mkMpi 1 (repeat 0 (CHARS_TO_LIMBS size))) = CHARS_TO_LIMBS size) by (unfold n; cbn [p]; apply repeat_length).
  pose proof (fill_internal_ok (mkMpi 1 (repeat 0 (CHARS_TO_LIMBS size))) size st) as F. rewrite E in F.
  destruct F as (X' & E' & W' & S' & _ & M'); [split; [by left|apply limbs_zeros]|lia|]. exists X'. split; [done|]. split; [done|]. unfold val. rewrite S', M'. cbn [s]. lia.
Qed.

(** The specification: the first of at most [count - 1] candidates in the range. *)
Fixpoint first_in_range (min N shift : Z) (n_bytes : nat) (st : S) (count : nat) : result (Z * S) :=
  match count with
  | O => Err MBEDTLS_ERR_MPI_NOT_ACCEPTABLE
  | Datatypes.S count =>
      '(buf, st) ← f_rng st n_bytes;
      let v := be_val buf / 2 ^ shift in
      if (count =? 0)%nat then Err MBEDTLS_ERR_MPI_NOT_ACCEPTABLE
      else if (v <? min) || (N <=? v) then first_in_range min N shift n_bytes st count else Ok (v, st)
  end.

Lemma shift_r_sign X c X' : s X = 1 -> mbedtls_mpi_shift_r X c = Ok X' -> s X' = 1.
Proof.
  intros HS. unfold mbedtls_mpi_shift_r, mbedtls_mpi_lset. destruct (_ || _).
  - destruct (mbedtls_mpi_grow X 1); [|discriminate]. cbn [mbind result_bind]. intros E. injection E as <-. done.
  - intros E. injection E as <-. exact HS.
Qed.

Lemma random_loop_ok lower_bound N n_bytes n_bits : wf lower_bound -> wf N -> n lower_bound = n N -> 0 <= val lower_bound -> s lower_bound = 1 -> s N = 1 ->
  (CHARS_TO_LIMBS n_bytes <= n N)%nat -> (1 <= n N)%nat -> n_bits <= 8 * Z.of_nat n_bytes ->
  forall count X st, wf X -> n X = n N -> s X = 1 ->
  match first_in_range (val lower_bound) (val N) (8 * Z.of_nat n_bytes - n_bits) n_bytes st count with
  | Ok (v, st') => exists X', random_loop f_rng X lower_bound N n_bytes n_bits st count = Ok (X', st') /\ wf X' /\ val X' = v /\ val lower_bound <= v < val N
  | Err e => random_loop f_rng X lower_bound N n_bytes n_bits st count = Err e
  end.
Proof.
  intros WL WN NL HL SL SN Hb Hn1 Hsh. induction count as [|count IH]; intros X st WX NX SX; cbn [first_in_range random_loop]; [done|].
  pose proof (fill_internal_ok X n_bytes st WX ltac:(lia)) as F. destruct (f_rng st n_bytes) as [[buf st']|e] eqn:E.
  2:{ by rewrite F. }
  destruct F as (X1 & -> & W1 & S1 & N1 & M1). cbn [mbind result_bind]. assert (V1 : val X1 = be_val buf) by (unfold val; rewrite S1, SX, M1; lia).
  destruct (shift_r_val X1 (8 * Z.of_nat n_bytes - n_bits) W1) as (X2 & E2 & W2 & V2 & N2); [rewrite V1; destruct (Hrng _ _ _ _ E) as [_ B]; apply be_val_range, B|lia|].
  pose proof (shift_r_sign X1 _ X2 ltac:(lia) E2) as S2. rewrite E2. cbn [mbind result_bind]. rewrite V1 in V2. rewrite <- V2. destruct (count =? 0)%nat; [done|].
  rewrite !lt_mpi_ct_ok by (try done; try lia; intros; congruence). cbn [mbind result_bind].
  assert (Eb : negb (Z.b2z (val X2 <? val lower_bound) =? 0) || (Z.b2z (val X2 <? val N) =? 0) = (val X2 <? val lower_bound) || (val N <=? val X2)).
  { destruct (Z.ltb_spec (val X2) (val lower_bound)), (Z.ltb_spec (val X2) (val N)), (Z.leb_spec (val N) (val X2)); done || lia. }
  rewrite Eb. destruct ((val X2 <? val lower_bound) || (val N <=? val X2)) eqn:Er.
  - apply IH; [done|lia|done].
  - to_prop. exists X2. split_and!; done || lia.
Qed.

Lemma mpi_random_ok X min N st : wf N -> 0 <= min < val N -> min < 2 ^ 63 -> Z.of_nat (n N) <= MBEDTLS_MPI_MAX_LIMBS ->
  let n_bits := bits (val N) in
  let n_bytes := Z.to_nat ((n_bits + 7) / 8) in
  match first_in_range min (val N) (8 * Z.of_nat n_bytes - n_bits) n_bytes st (if (4 <? n_bytes)%nat then 30 else 250) with
  | Ok (v, st') => exists X', mbedtls_mpi_random f_rng X min N st = Ok (X', st') /\ wf X' /\ val X' = v /\ min <= v < val N
  | Err e => mbedtls_mpi_random f_rng X min N st = Err e
  end.
Proof.
  intros WN Hmin H63 Hm n_bits n_bytes. unfold mbedtls_mpi_random. rewrite bitlen_ok, val_nonneg by (done || lia). fold n_bits. fold n_bytes.
  rewrite (proj2 (Z.ltb_ge _ _)) by lia. rewrite cmp_int_ok by (done || lia). rewrite (proj2 (Z.leb_gt _ _)) by lia. cbv zeta.
  rewrite resize_clear_ok by done. cbn [mbind result_bind]. rewrite grow_init by done. cbn [mbind result_bind]. pose proof (pos_limbs N WN ltac:(lia)) as PN.
  set (Zn := mkMpi 1 (repeat 0 (n N))). assert (LZ : n Zn = n N) by (unfold n at 1, Zn; cbn [p]; apply repeat_length).
  assert (WZ : wf Zn) by (split; [by left|apply limbs_zeros]).
  destruct (lset_ok Zn min WZ ltac:(lia)) as (L & -> & WL & VL & SL & NL). cbn [mbind result_bind]. unfold sign_of in SL. rewrite (proj2 (Z.ltb_ge _ _)) in SL by lia.
  pose proof (sign_val N WN ltac:(lia)) as SN. rewrite Z.sgn_pos in SN by lia. pose proof (bits_nonneg (val N)) as B0. fold n_bits in B0.
  assert (Hby : n_bits <= 8 * Z.of_nat n_bytes < n_bits + 8).
  { unfold n_bytes. rewrite Z2Nat.id by (apply Z.div_pos; lia). pose proof (Z.div_mod (n_bits + 7) 8). pose proof (Z.mod_pos_bound (n_bits + 7) 8). lia. }
  assert (Hl : (CHARS_TO_LIMBS n_bytes <= n N)%nat).
  { pose proof (wf_mag N WN) as R. rewrite val_nonneg in R by (done || lia). assert (n_bits <= biL * Z.of_nat (n N)) by (apply bits_le; [lia|unfold biL; lia|]; rewrite <- radix_pow_bits; lia).
    pose proof (chars_to_limbs_spec n_bytes). unfold biL, ciL in *. lia. }
  rewrite <- VL. apply random_loop_ok; done || lia.
Qed.

Lemma random_bad_input X min N st : wf N -> min < 2 ^ 63 -> - 2 ^ 63 <= min -> min < 0 \/ val N <= min ->
  mbedtls_mpi_random f_rng X min N st = Err MBEDTLS_ERR_MPI_BAD_INPUT_DATA.
Proof.
  intros WN H1 H2 H. unfold mbedtls_mpi_random. destruct (Z.ltb_spec min 0); [done|]. rewrite cmp_int_ok by (done || lia). by rewrite (proj2 (Z.leb_le _ _)) by lia.
Qed.
End RandomProofs.

(** C16. The binary gcd ends for every pair of numbers within the library's size,
    and the size of its result is the greatest common divisor; the result is the
    divisor itself unless the second number is 0 and the first negative, when the
    code returns the first number with its sign ([gcd_with_zero]).  The modular
    inverse, for every modulus above 1, is the number below the modulus whose
    product with A is 1 modulo it, when the numbers are coprime; the other numbers
    and the other moduli are refused with the two error codes. *)
Theorem gcd_and_inverse_correct G X A N : wf G -> wf X -> wf A -> wf N -> Z.of_nat (n N) + 4 <= MBEDTLS_MPI_MAX_LIMBS -> Z.of_nat (n A) + 3 <= MBEDTLS_MPI_MAX_LIMBS ->
  (exists G', mbedtls_mpi_gcd G A N = Ok G' /\ wf G' /\ Z.abs (val G') = Z.gcd (val A) (val N) /\
     (val N <> 0 \/ 0 <= val A -> val G' = Z.gcd (val A) (val N)) /\ (val N = 0 -> val G' = val A)) /\
  (if val N <=? 1 then mbedtls_mpi_inv_mod X A N = Err MBEDTLS_ERR_MPI_BAD_INPUT_DATA
   else if Z.gcd (val A) (val N) =? 1 then exists X', mbedtls_mpi_inv_mod X A N = Ok X' /\ wf X' /\ 0 <= val X' < val N /\ (val X' * val A) mod val N = 1
   else mbedtls_mpi_inv_mod X A N = Err MBEDTLS_ERR_MPI_NOT_ACCEPTABLE).
Proof.
  intros WG WX WA WN MN MA. split.
  - destruct (Z.eq_dec (val N) 0) as [HN|HN].
    + rewrite (gcd_zero G A N) by (done || lia). destruct (copy_ok G A WG WA) as (G' & E & W & _ & V & _); [pose proof (sig1_le A); lia|]. exists G'. rewrite V, HN, Z.gcd_0_r.
      split_and!; try done. intros [?|?]; lia.
    + destruct (gcd_ok G A N WG WA WN HN) as (G' & E & W & V & _); [lia..|]. exists G'. rewrite V.
      pose proof (Z.gcd_nonneg (val A) (val N)). split_and!; try done. lia.
  - destruct (Z.leb_spec (val N) 1) as [H|H]; [by apply inv_mod_small|]. destruct (Z.eqb_spec (Z.gcd (val A) (val N)) 1) as [E|E].
    + destruct (inv_mod_ok X A N WX WA WN H E MN MA) as (X' & EX & W & R & V & _). by exists X'.
    + apply inv_mod_none; (done || lia).
Qed.

Lemma gcd_and_inverse_correct_witness : exists X', mbedtls_mpi_inv_mod mbedtls_mpi_init (mpi_of_int (-30)) (mpi_of_int 77) = Ok X' /\ wf X' /\ 0 <= val X' < 77 /\ (val X' * -30) mod 77 = 1.
Proof.
  destruct (int_ok (-30) ltac:(lia)) as (WA & VA & _). destruct (int_ok 77 ltac:(lia)) as (WN & VN & _).
  exact (proj2 (gcd_and_inverse_correct mbedtls_mpi_init mbedtls_mpi_init _ _ wf_init wf_init WA WN ltac:(vm_compute; discriminate) ltac:(vm_compute; discriminate))).
Defined.

(** The greatest common divisor with zero can be negative. *)
Lemma gcd_with_zero : match mbedtls_mpi_gcd mbedtls_mpi_init (mpi_of_int (-5)) (mpi_of_int 0) with Ok G => val G | Err e => e end = -5.
Proof. vm_compute. reflexivity. Qed.

(** C31. With a generator that fills the buffer it is given, the random number is
    the first of the candidates that lies in the range, each made of the leading
    bits of the bytes drawn for it; it is never outside of the range, and the
    function gives up after 29 candidates, or 249 for a small range. *)
Theorem random_in_range {S} (f_rng : S -> nat -> result (bytes * S)) X min N st : rng_fills f_rng -> wf N -> 0 <= min < val N -> min < 2 ^ 63 -> Z.of_nat (n N) <= MBEDTLS_MPI_MAX_LIMBS ->
  let n_bytes := Z.to_nat ((bits (val N) + 7) / 8) in
  match first_in_range f_rng min (val N) (8 * Z.of_nat n_bytes - bits (val N)) n_bytes st (if (4 <? n_bytes)%nat then 30 else 250) with
  | Ok (v, st') => exists X', mbedtls_mpi_random f_rng X min N st = Ok (X', st') /\ wf X' /\ val X' = v /\ min <= v < val N
  | Err e => mbedtls_mpi_random f_rng X min N st = Err e
  end.
Proof. intros H. by apply mpi_random_ok. Qed.

(** A counter as the generator. *)
Definition counter_rng (st : Z) (k : nat) : result (bytes * Z) := Ok (map (fun i => (st + Z.of_nat i) mod 256) (seq 0 k), st + Z.of_nat k).

Lemma random_in_range_witness : exists X', mbedtls_mpi_random counter_rng mbedtls_mpi_init 100 (mpi_of_int 1000) 250 = Ok (X', 284) /\ wf X' /\ val X' = 104 /\ 100 <= 104 < 1000.
Proof.
  destruct (int_ok 1000 ltac:(lia)) as (WN & VN & _).
  assert (F : rng_fills counter_rng).
  { intros st k buf st' E. injection E as <- <-. split; [by rewrite length_map, length_seq|]. apply Forall_forall. intros x H%list_elem_of_In. apply in_map_iff in H as (i & <- & _). apply Z.mod_pos_bound. lia. }
  pose proof (random_in_range counter_rng mbedtls_mpi_init 100 (mpi_of_int 1000) 250 F WN ltac:(rewrite VN; lia) ltac:(lia) ltac:(vm_compute; discriminate)) as R.
  cbv zeta in R. rewrite VN in R. change (first_in_range _ _ _ _ _ _ _) with (@Ok (Z * Z) (104, 284)) in R. exact R.
Defined.

End Gcd.
