(* ===== verification/BignumText.v ===== *)
(** Numbers as text (mbedtls/library/bignum.c): reading and writing in a base
    from 2 to 16, to strings and to the lines of files.  A string is its characters
    without the terminator; a call that fails leaves in the destination what it
    had made, which is not kept here. *)
From S2P Require Import Prelude Words Limbs Bignum BignumDiv.
From stdpp Require Import list.
#[local] Open Scope Z_scope.

Module Text.
Import Bignum Division.

(** ** Operations *)

(** [base] is the parameter that the code calls [radix]. *)
Definition mpi_get_digit (base c : Z) : result Z :=
  let d := 255 in
  let d := if (0x30 <=? c) && (c <=? 0x39) then c - 0x30 else d in
  let d := if (0x41 <=? c) && (c <=? 0x46) then c - 0x37 else d in
  let d := if (0x61 <=? c) && (c <=? 0x66) then c - 0x57 else d in
  if base <=? d then Err MBEDTLS_ERR_MPI_INVALID_CHARACTER else Ok d.

Definition minus_sign : Z := 45.

(** The loop for base 16, over the characters from the last, [j] of which are
    read. *)
Fixpoint read_hex (s : bytes) (j : nat) (l : list Z) : result (list Z) :=
  match s with
  | [] => Ok l
  | c :: s =>
      d ← mpi_get_digit 16 c;
      read_hex s (S j) (<[(j / (2 * ciL))%nat := Z.lor (nth (j / (2 * ciL)) l 0) (u64 (Z.shiftl d (Z.shiftl (Z.of_nat (j mod (2 * ciL))) 2)))]> l)
  end.

(** The loop for the other bases, from the first character, with [X] and the
    scratch number [T]. *)
Fixpoint read_digits (base : Z) (s : bytes) (X T : mpi) : result mpi :=
  match s with
  | [] => Ok X
  | c :: s =>
      d ← mpi_get_digit base c;
      T ← mbedtls_mpi_mul_int T X base;
      X ← mbedtls_mpi_add_int X T d;
      read_digits base s X T
  end.

Definition mbedtls_mpi_read_string (X : mpi) (base : Z) (s : bytes) : result mpi :=
  if (base <? 2) || (16 <? base) then Err MBEDTLS_ERR_MPI_BAD_INPUT_DATA
  else
    match s with
    | [] => Ok (mbedtls_mpi_free X)
    | c :: s' =>
        let '(sign, s) := if c =? minus_sign then (-1, s') else (1, s) in
        let slen := zlen s in
        X ← (if base =? 16 then
               if Z.shiftr (2 ^ 64 - 1) 2 <? slen then Err MBEDTLS_ERR_MPI_BAD_INPUT_DATA
               else
                 X ← mbedtls_mpi_grow X (BITS_TO_LIMBS (Z.shiftl slen 2));
                 X ← mbedtls_mpi_lset X 0;
                 l ← read_hex (rev s) 0 (p X);
                 Ok (mkMpi (Bignum.s X) l)
             else
               X ← mbedtls_mpi_lset X 0;
               read_digits base s X mbedtls_mpi_init);
        Ok (if (sign <? 0) && negb (mbedtls_mpi_bitlen X =? 0) then set_s (-1) X else X)
    end.

(** [r < 0xA ? '0' + r : 'A' + (r - 0xA)] *)
Definition digit_char (r : Z) : Z := if r <? 0xA then 48 + r else 65 + (r - 0xA).

(** The loop of [mpi_write_hlp], with the characters from [p_end] on. *)
Fixpoint mpi_write_hlp (X : mpi) (base : Z) (buflen length : nat) (out : bytes) (fuel : nat) : result bytes :=
  match fuel with
  | O => Err MBEDTLS_ERR_ERROR_CORRUPTION_DETECTED
  | S fuel =>
      if (buflen <=? length)%nat then Err MBEDTLS_ERR_MPI_BUFFER_TOO_SMALL
      else
        r ← mbedtls_mpi_mod_int X base;
        '(Q, _) ← mbedtls_mpi_div_int (Some X) None X base;
        let X := default X Q in
        let out := digit_char r :: out in
        if negb (mbedtls_mpi_cmp_int X 0 =? 0) then mpi_write_hlp X base buflen (S length) out fuel else Ok out
  end.

(** The two characters of a byte. *)
Definition hex_pair (c : Z) : bytes := [digit_char (c / 16); digit_char (c mod 16)].

(** The two loops of base 16 as one over the bytes, the first being the highest;
    the lowest is byte 0, where [i + j] is 2.  [k] says a byte was written. *)
Fixpoint write_hex (X : mpi) (count : nat) (k : bool) : bytes :=
  match count with
  | O => []
  | S idx =>
      let c := GET_BYTE X idx in
      if (c =? 0) && negb k && negb (idx =? 0)%nat then write_hex X idx k
      else hex_pair c ++ write_hex X idx true
  end.

(** The size that [buflen] is compared with, and that [*olen] is set to when the
    buffer is too small. *)
Definition string_size (X : mpi) (base : Z) : Z :=
  let n := mbedtls_mpi_bitlen X in
  let n := if 4 <=? base then Z.shiftr n 1 else n in
  let n := if 16 <=? base then Z.shiftr n 1 else n in
  let n := n + 1 in
  let n := n + 1 in
  let n := n + 1 in
  n + Z.land n 1.

(** The contents of the buffer, with the terminator: [*olen] is its length. *)
Definition mbedtls_mpi_write_string (X : mpi) (base : Z) (buflen : nat) : result bytes :=
  if (base <? 2) || (16 <? base) then Err MBEDTLS_ERR_MPI_BAD_INPUT_DATA
  else if Z.of_nat buflen <? string_size X base then Err MBEDTLS_ERR_MPI_BUFFER_TOO_SMALL
  else
    let '(sign, buflen) := if s X =? -1 then ([minus_sign], (buflen - 1)%nat) else ([], buflen) in
    digits ← (if base =? 16 then Ok (write_hex X (n X * ciL) false)
              else
                T ← mbedtls_mpi_copy mbedtls_mpi_init X;
                let T := if s T =? -1 then set_s 1 T else T in
                mpi_write_hlp T base buflen 0 [] (Z.to_nat (mbedtls_mpi_bitlen T + 1)));
    Ok (sign ++ digits ++ [0]).

(** ** Files *)

Definition MBEDTLS_ERR_MPI_FILE_IO_ERROR : Z := -0x0002.

Definition MBEDTLS_MPI_MAX_BITS_SCALE100 : Z := 100 * MBEDTLS_MPI_MAX_BITS.
Definition MBEDTLS_LN_2_DIV_LN_10_SCALE100 : Z := 332.
Definition MBEDTLS_MPI_RW_BUFFER_SIZE : nat :=
  Z.to_nat ((MBEDTLS_MPI_MAX_BITS_SCALE100 + MBEDTLS_LN_2_DIV_LN_10_SCALE100 - 1) / MBEDTLS_LN_2_DIV_LN_10_SCALE100 + 10 + 6).

(** [fgets] with room for [k] characters: the line with its newline, and the
    rest of the file. *)
Fixpoint fgets (k : nat) (f : bytes) : bytes * bytes :=
  match k, f with
  | S k, c :: f => if c =? 10 then ([c], f) else let '(l, f) := fgets k f in (c :: l, f)
  | _, _ => ([], f)
  end.

(** The characters up to a zero. *)
Fixpoint up_to_zero (s : bytes) : bytes :=
  match s with [] => [] | c :: s => if c =? 0 then [] else c :: up_to_zero s end.

(** [if (slen > 0 && s[slen - 1] == c) { slen--; s[slen] = 0; }] *)
Definition chomp (c : Z) (s : bytes) : bytes :=
  match rev s with [] => s | x :: r => if x =? c then rev r else s end.

(** [while (p-- > s)], over the characters from the last. *)
Fixpoint digits_of (base : Z) (s : bytes) : bytes :=
  match s with
  | [] => []
  | c :: s => match mpi_get_digit base c with Err _ => [] | Ok _ => c :: digits_of base s end
  end.

(** The number and what is left of the file. *)
Definition mbedtls_mpi_read_file (X : mpi) (base : Z) (f : bytes) : result (mpi * bytes) :=
  if (base <? 2) || (16 <? base) then Err MBEDTLS_ERR_MPI_BAD_INPUT_DATA
  else if (length f =? 0)%nat then Err MBEDTLS_ERR_MPI_FILE_IO_ERROR
  else
    let '(line, f) := fgets (MBEDTLS_MPI_RW_BUFFER_SIZE - 2) f in
    let s := up_to_zero line in
    if (length s =? MBEDTLS_MPI_RW_BUFFER_SIZE - 2)%nat then Err MBEDTLS_ERR_MPI_BUFFER_TOO_SMALL
    else
      let s := chomp 13 (chomp 10 s) in
      X ← mbedtls_mpi_read_string X base (rev (digits_of base (rev s)));
      Ok (X, f).

(** What is appended to the file, when both writes are complete. *)
Definition mbedtls_mpi_write_file (label : bytes) (X : mpi) (base : Z) (written : bool) : result bytes :=
  if (base <? 2) || (16 <? base) then Err MBEDTLS_ERR_MPI_BAD_INPUT_DATA
  else
    s ← mbedtls_mpi_write_string X base (MBEDTLS_MPI_RW_BUFFER_SIZE - 2);
    let s := up_to_zero s ++ [13; 10] in
    if written then Ok (label ++ s) else Err MBEDTLS_ERR_MPI_FILE_IO_ERROR.

(** ** Digits *)

(** What digits stand for, the highest first. *)
Definition horner (base : Z) (ds : list Z) (v : Z) : Z := fold_left (fun v d => v * base + d) ds v.

Abbreviation digits_ok base ds := (Forall (fun d => 0 <= d < base) ds).

Lemma horner_app base a b v : horner base (a ++ b) v = horner base b (horner base a v).
Proof. apply fold_left_app. Qed.

Lemma horner_ge base ds : 1 <= base -> digits_ok base ds -> forall v, 0 <= v -> v <= horner base ds v.
Proof. intros Hb. induction 1 as [|d ds Hd Hds IH]; intros v Hv; cbn; [lia|]. fold (horner base ds (v * base + d)). specialize (IH (v * base + d) ltac:(nia)). nia. Qed.

Lemma get_digit_char base d : base <= 16 -> 0 <= d < base -> mpi_get_digit base (digit_char d) = Ok d.
Proof.
  intros Hb Hd. unfold mpi_get_digit, digit_char. destruct (Z.ltb_spec d 0xA).
  - rewrite (proj2 (Z.leb_le 0x30 _)), (proj2 (Z.leb_le _ 0x39)), (proj2 (Z.leb_gt 0x41 _)), (proj2 (Z.leb_gt 0x61 _)) by lia. cbn [andb].
    rewrite (proj2 (Z.leb_gt _ _)) by lia. f_equal. lia.
  - rewrite (proj2 (Z.leb_gt (65 + _) 0x39)), (proj2 (Z.leb_le 0x41 _)), (proj2 (Z.leb_le _ 0x46)), (proj2 (Z.leb_gt 0x61 _)) by lia.
    rewrite andb_false_r. cbn [andb]. rewrite (proj2 (Z.leb_gt _ _)) by lia. f_equal. lia.
Qed.

Lemma digit_char_not c base d : base <= 16 -> 0 <= d < base -> c < 48 -> digit_char d <> c.
Proof. intros. unfold digit_char. case_if; lia. Qed.

(** ** Reading *)

Lemma read_digits_ok base K B ds : 2 <= base <= 16 -> digits_ok base ds -> (K + 1 <= B)%nat -> Z.of_nat B <= MBEDTLS_MPI_MAX_LIMBS ->
  forall X T, wf X -> wf T -> 0 <= val X -> horner base ds (val X) < radix ^ Z.of_nat K -> (n X <= B)%nat -> (n T <= B)%nat ->
  exists X', read_digits base (map digit_char ds) X T = Ok X' /\ wf X' /\ val X' = horner base ds (val X).
Proof.
  intros Hb Hds HK HB. induction Hds as [|d ds Hd Hds IH]; intros X T WX WT HX Hv NX NT; cbn [map read_digits].
  { by exists X. }
  rewrite get_digit_char by lia. cbn [mbind result_bind]. cbn in Hv. fold (horner base ds (val X * base + d)) in Hv.
  pose proof (horner_ge base ds ltac:(lia) Hds (val X * base + d) ltac:(nia)) as G. assert (R4 : 16 < radix) by reflexivity.
  assert (S : (sig (p X) + 1 <= B)%nat).
  { enough (sig (p X) <= K)%nat by lia. apply sig_le_iff; [apply WX|]. rewrite val_nonneg by done. nia. }
  destruct (mul_int_ok T X base B WT WX ltac:(lia) S HB) as (T' & -> & WT' & VT & NT'). cbn [mbind result_bind].
  destruct (int_ok d ltac:(lia)) as (Wd & Vd & Nd). assert (HKB : radix ^ Z.of_nat K <= radix ^ Z.of_nat B) by (apply radix_pow_le; lia).
  destruct (add_mpi_ok X T' (mpi_of_int d) B WX WT' Wd) as (X' & E & WX' & VX & NX'); [rewrite VT, Vd; nia|lia|lia|lia|done|].
  unfold mbedtls_mpi_add_int. rewrite E. cbn [mbind result_bind]. rewrite VT, Vd in VX.
  destruct (IH X' T' WX' WT') as (Z' & -> & WZ & VZ); [nia|by rewrite VX|lia|lia|]. exists Z'. split; [done|]. split; [done|]. rewrite VZ, VX. done.
Qed.

Definition le16 (rds : list Z) : Z := foldr (fun d v => d + 16 * v) 0 rds.

Lemma horner_rev rds : horner 16 (rev rds) 0 = le16 rds.
Proof. unfold horner, le16. rewrite <- fold_left_rev_right, rev_involutive. induction rds as [|d rds IH]; [done|]. cbn. rewrite IH. ring. Qed.

Lemma read_hex_ok rds : digits_ok 16 rds -> forall j l, limbs_ok l -> (j + length rds <= length l * (2 * ciL))%nat -> mag l < 16 ^ Z.of_nat j ->
  exists l', read_hex (map digit_char rds) j l = Ok l' /\ limbs_ok l' /\ length l' = length l /\ mag l' = mag l + le16 rds * 16 ^ Z.of_nat j.
Proof.
  induction 1 as [|d rds Hd Hr IH]; intros j l Hl Hj Hm; cbn [map read_hex].
  { exists l. cbn. split_and!; done || lia. }
  rewrite get_digit_char by lia. cbn [mbind result_bind]. cbn [length] in Hj.
  assert (E16 : 2 ^ (4 * Z.of_nat j) = 16 ^ Z.of_nat j) by (by rewrite Z.pow_mul_r by lia).
  destruct (place_digit 4 (2 * ciL) j d l) as (P0 & P1 & P2 & P3); try done; [apply Nat.Div0.div_lt_upper_bound; lia|by rewrite E16|].
  assert (Es : u64 (Z.shiftl d (Z.shiftl (Z.of_nat (j mod (2 * ciL))) 2)) = Z.shiftl d (4 * Z.of_nat (j mod (2 * ciL)))).
  { rewrite (Z.shiftl_mul_pow2 (Z.of_nat _) 2) by lia. rewrite (Z.mul_comm (Z.of_nat _)). unfold u64. apply Z.mod_small. split; [|exact P0].
    apply Z.shiftl_nonneg. lia. }
  rewrite Es. pose proof (Z.pow_succ_r 16 (Z.of_nat j) ltac:(lia)) as P16. rewrite <- Nat2Z.inj_succ in P16. rewrite E16 in P3.
  destruct (IH (S j) _ P1) as (l' & -> & L1 & L2 & L3); [lia|nia|]. exists l'. split; [done|]. split; [done|]. split; [lia|].
  rewrite L3, P3, P16. cbn [le16 foldr]. fold (le16 rds). ring.
Qed.

(** The text of a number: a minus sign and digits. *)
Definition signed (neg : bool) (ds : list Z) : bytes := (if neg then [minus_sign] else []) ++ map digit_char ds.

Lemma set_negative X : wf X -> val X = mag (p X) ->
  let X' := if negb (mbedtls_mpi_bitlen X =? 0) then set_s (-1) X else X in wf X' /\ val X' = - val X.
Proof.
  intros W V. rewrite bitlen_ok by done. unfold bits. rewrite <- V. destruct (Z.eqb_spec (val X) 0) as [E|E]; cbn [Z.eqb negb].
  - split; [done|]. by rewrite E.
  - pose proof (Z.log2_nonneg (val X)). rewrite (proj2 (Z.eqb_neq _ _)) by lia. cbn [negb]. split; [apply wf_set_s; auto|].
    unfold val at 1. cbn [set_s s p]. lia.
Qed.

Lemma read_body_ok base K B X ds : 2 <= base <= 16 -> digits_ok base ds -> wf X -> (n X <= B)%nat -> (K + 1 <= B)%nat -> Z.of_nat B <= MBEDTLS_MPI_MAX_LIMBS ->
  horner base ds 0 < radix ^ Z.of_nat K -> (base = 16 -> (BITS_TO_LIMBS (4 * zlen ds) <= B)%nat) ->
  exists X', (if base =? 16 then
       if Z.shiftr (2 ^ 64 - 1) 2 <? zlen ds then Err MBEDTLS_ERR_MPI_BAD_INPUT_DATA
       else
         X ← mbedtls_mpi_grow X (BITS_TO_LIMBS (Z.shiftl (zlen ds) 2));
         X ← mbedtls_mpi_lset X 0;
         l ← read_hex (rev (map digit_char ds)) 0 (p X);
         Ok (mkMpi (s X) l)
     else
       X ← mbedtls_mpi_lset X 0;
       read_digits base (map digit_char ds) X mbedtls_mpi_init) = Ok X' /\ wf X' /\ val X' = horner base ds 0 /\ val X' = mag (p X').
Proof.
  intros Hb Hds WX NX HK HB Hv HL. destruct (Z.eqb_spec base 16) as [->|_].
  - specialize (HL eq_refl). assert (E4 : Z.shiftl (zlen ds) 2 = 4 * zlen ds) by (rewrite Z.shiftl_mul_pow2 by lia; lia). rewrite E4.
    assert (HL2 : 4 * zlen ds <= biL * Z.of_nat B) by (apply bits_to_limbs_le; lia). unfold MBEDTLS_MPI_MAX_LIMBS, biL in *.
    rewrite (proj2 (Z.ltb_ge _ _)) by (change (Z.shiftr (2 ^ 64 - 1) 2) with (2 ^ 62 - 1); lia).
    destruct (grow_ok X (BITS_TO_LIMBS (4 * zlen ds)) WX) as (X1 & -> & W1 & _ & _ & N1); [unfold MBEDTLS_MPI_MAX_LIMBS; lia|]. cbn [mbind result_bind].
    destruct (lset_ok X1 0 W1 ltac:(lia)) as (X2 & -> & W2 & V2 & S2 & N2). cbn [mbind result_bind]. change (sign_of 0) with 1 in S2.
    assert (M2 : mag (p X2) = 0) by (unfold val in V2; rewrite S2 in V2; lia). rewrite <- map_rev.
    assert (L4 : 4 * zlen ds <= biL * Z.of_nat (n X2)) by (apply bits_to_limbs_le; lia).
    destruct (read_hex_ok (rev ds) (Forall_rev Hds) 0 (p X2) (wf_limbs _ W2)) as (l' & -> & L1 & L2 & L3);
      [rewrite length_rev; unfold biL, n, ciL in *; lia|rewrite M2; lia|].
    cbn [mbind result_bind]. eexists. split; [done|]. rewrite S2. split; [split; [by left|done]|]. unfold val. cbn [s p].
    rewrite L3, M2, <- horner_rev, rev_involutive. lia.
  - destruct (lset_ok X 0 WX ltac:(lia)) as (X2 & -> & W2 & V2 & S2 & N2). cbn [mbind result_bind].
    destruct (read_digits_ok base K B ds Hb Hds HK HB X2 mbedtls_mpi_init W2 wf_init) as (X' & -> & W' & V'); [lia|by rewrite V2|lia|cbn; lia|].
    rewrite V2 in V'. exists X'. split_and!; try done. symmetry. apply val_nonneg; [done|]. rewrite V'. by apply horner_ge; lia || done.
Qed.

Lemma read_string_ok base K B X neg ds : 2 <= base <= 16 -> digits_ok base ds -> wf X -> (n X <= B)%nat -> (K + 1 <= B)%nat -> Z.of_nat B <= MBEDTLS_MPI_MAX_LIMBS ->
  horner base ds 0 < radix ^ Z.of_nat K -> (base = 16 -> (BITS_TO_LIMBS (4 * zlen ds) <= B)%nat) ->
  exists X', mbedtls_mpi_read_string X base (signed neg ds) = Ok X' /\ wf X' /\ val X' = if neg then - horner base ds 0 else horner base ds 0.
Proof.
  intros Hb Hds WX NX HK HB Hv HL. unfold mbedtls_mpi_read_string. rewrite (proj2 (Z.ltb_ge base 2)), (proj2 (Z.ltb_ge 16 base)) by lia. cbn [orb].
  destruct (read_body_ok base K B X ds Hb Hds WX NX HK HB Hv HL) as (X' & E & W & V & M).
  unfold signed. destruct neg; cbn [app].
  - cbv beta iota zeta. rewrite Z.eqb_refl. rewrite length_map, E. cbn [mbind result_bind].
    destruct (set_negative X' W M) as [W' V']. eexists. split; [reflexivity|]. change (-1 <? 0) with true. cbn [andb]. rewrite <- V. by split.
  - destruct ds as [|d ds].
    { cbn. eexists. split; [reflexivity|]. split; [apply wf_init|done]. }
    cbn [map]. assert (Hd : 0 <= d < base) by (by inversion Hds). rewrite (proj2 (Z.eqb_neq (digit_char d) minus_sign)) by (eapply digit_char_not; try done; unfold minus_sign; lia).
    change (digit_char d :: map digit_char ds) with (map digit_char (d :: ds)). rewrite length_map, E. cbn [mbind result_bind].
    exists X'. split; [done|]. by split.
Qed.

(** ** Writing *)

Lemma write_hlp_ok base buflen K fuel : 2 <= base <= 16 -> Z.of_nat K + 3 <= MBEDTLS_MPI_MAX_LIMBS ->
  forall X len out, wf X -> 0 <= val X -> (Nat.max 1 (n X) <= K)%nat -> bits (val X) < Z.of_nat fuel ->
  (forall m, base ^ Z.of_nat m <= Z.max 1 (val X) -> (len + m < buflen)%nat) ->
  exists ds, mpi_write_hlp X base buflen len out fuel = Ok (map digit_char ds ++ out) /\ digits_ok base ds /\ horner base ds 0 = val X /\
    (1 <= length ds)%nat /\ base ^ Z.of_nat (length ds - 1) <= Z.max 1 (val X).
Proof.
  intros Hb HK. induction fuel as [|fuel IH]; intros X len out W HX NX HF HL; [pose proof (bits_nonneg (val X)); lia|]. cbn [mpi_write_hlp].
  pose proof (HL 0%nat) as HL0. rewrite (proj2 (Nat.leb_gt _ _)) by (specialize (HL0 ltac:(cbn; lia)); lia).
  rewrite mod_int_ok by (done || lia). cbn [mbind result_bind].
  destruct (div_int_ok (Some X) None X base) as (Q' & R' & -> & HQ & _); [done|done|done|lia|lia|lia|]. destruct Q' as [Q|]; [|done]. destruct HQ as (WQ & VQ & NQ).
  cbn [mbind result_bind]. change (default X (Some Q)) with Q. rewrite Z.quot_div_nonneg in VQ, NQ by lia.
  pose proof (Z.div_mod (val X) base ltac:(lia)) as D. pose proof (Z.mod_pos_bound (val X) base ltac:(lia)) as R. pose proof (Z.div_pos (val X) base HX ltac:(lia)) as Q0.
  set (q := val X / base) in *. set (r := val X mod base) in *.
  assert (NQ' : (Nat.max 1 (n Q) <= K)%nat).
  { enough (limbs_needed q <= Nat.max 1 (n X))%nat by lia. apply limbs_needed_le; [lia|]. pose proof (wf_mag X W) as M. rewrite val_nonneg in M by done.
    pose proof (radix_pow_le (n X) (Nat.max 1 (n X)) ltac:(lia)). assert (q <= val X) by nia. lia. }
  rewrite cmp_zero by done. rewrite VQ. destruct (Z.eqb_spec q 0) as [E|E]; cbn [negb].
  - exists [r]. cbn. split_and!; try done; [by apply Forall_singleton|lia|lia].
  - destruct (IH Q (S len) (digit_char r :: out) WQ ltac:(lia) NQ') as (ds & -> & Dd & Hd & Ld & Bd).
    + rewrite VQ. assert (bits q <= bits (val X) - 1); [|lia]. assert (HX1 : 0 < val X) by nia. pose proof (bits_lower (val X) HX1) as BL.
      assert (1 <= bits (val X)) by (unfold bits; case_if; to_prop; [lia|pose proof (Z.log2_nonneg (val X)); lia]).
      apply bits_le; [lia|lia|]. assert (val X < 2 ^ bits (val X)) by (apply bits_le; [lia|apply bits_nonneg|lia]).
      assert (E2 : 2 ^ bits (val X) = 2 * 2 ^ (bits (val X) - 1)) by (rewrite <- Z.pow_succ_r by lia; f_equal; lia). nia.
    + intros m Hm. rewrite VQ in Hm. specialize (HL (S m)). rewrite Nat2Z.inj_succ, Z.pow_succ_r in HL by lia. enough (len + S m < buflen)%nat by lia. apply HL. nia.
    + exists (ds ++ [r]). rewrite map_app, <- app_assoc. rewrite VQ in *. split; [done|]. split; [apply Forall_app; split; [done|by apply Forall_singleton]|].
      rewrite horner_app, Hd, length_app. cbn [length]. split; [cbn; lia|]. split; [lia|].
      replace (length ds + 1 - 1)%nat with (S (length ds - 1)) by lia. rewrite Nat2Z.inj_succ, Z.pow_succ_r by lia. nia.
Qed.

Lemma hex_pair_digits c : is_byte c -> exists ds, hex_pair c = map digit_char ds /\ digits_ok 16 ds /\ length ds = 2%nat /\ forall v, horner 16 ds v = v * 256 + c.
Proof.
  intros Hc. unfold is_byte in Hc. pose proof (Z.div_mod c 16 ltac:(lia)). pose proof (Z.mod_pos_bound c 16 ltac:(lia)).
  exists [c / 16; c mod 16]. split_and!; try done.
  - apply Forall_cons. split; [split; [apply Z.div_pos; lia|apply Z.div_lt_upper_bound; lia]|by apply Forall_singleton].
  - intros v. cbn. lia.
Qed.

Lemma mod_256_succ v k : v mod 256 ^ Z.of_nat (S k) = (v / 256 ^ Z.of_nat k mod 256) * 256 ^ Z.of_nat k + v mod 256 ^ Z.of_nat k.
Proof. rewrite Nat2Z.inj_succ, Z.pow_succ_r by lia. rewrite (Z.mul_comm 256). rewrite Z.rem_mul_r by lia. ring. Qed.

Lemma write_hex_ok X count : wf X -> forall k, exists ds, write_hex X count k = map digit_char ds /\ digits_ok 16 ds /\
  (forall v, v = 0 \/ k = true -> horner 16 ds v = v * 256 ^ Z.of_nat count + mag (p X) mod 256 ^ Z.of_nat count) /\
  if k then length ds = (2 * count)%nat
  else exists nb, length ds = (2 * nb)%nat /\ 256 ^ Z.of_nat (nb - 1) <= Z.max 1 (mag (p X) mod 256 ^ Z.of_nat count).
Proof.
  intros W. induction count as [|idx IH]; intros k.
  { exists []. cbn. split_and!; try done; [intros v _; rewrite Z.mod_1_r; lia|]. destruct k; [done|]. exists 0%nat. split; [done|]. cbn. lia. }
  cbn [write_hex]. rewrite GET_BYTE_ok, mod_256_succ by done. set (c := mag (p X) / 256 ^ Z.of_nat idx mod 256).
  assert (Hc : is_byte c) by (apply Z.mod_pos_bound; lia). assert (P : 0 < 256 ^ Z.of_nat idx) by (apply Z.pow_pos_nonneg; lia).
  pose proof (Z.mod_pos_bound (mag (p X)) _ P) as R. destruct ((c =? 0) && negb k && negb (idx =? 0)%nat) eqn:E.
  - apply andb_true_iff in E as [[E1%Z.eqb_eq ->%negb_true_iff]%andb_true_iff _]. destruct (IH false) as (ds & -> & D & V & L). exists ds. rewrite E1. cbn [Z.mul Z.add]. split_and!; try done.
    intros v Hv. destruct Hv as [->|Hv]; [|done]. rewrite V by (by left). lia.
  - destruct (hex_pair_digits c Hc) as (d2 & -> & D2 & L2 & V2). destruct (IH true) as (ds & -> & D & V & L). exists (d2 ++ ds). rewrite map_app.
    split; [done|]. split; [by apply Forall_app|]. split.
    + intros v _. rewrite horner_app, V2, V by (by right). rewrite Nat2Z.inj_succ, Z.pow_succ_r by lia. ring.
    + rewrite length_app, L2, L. destruct k; [lia|]. exists (S idx). split; [lia|]. cbn [Nat.sub]. rewrite Nat.sub_0_r.
      destruct (Z.eqb_spec c 0) as [Ec|Ec]; cbn [negb andb] in E; [|unfold is_byte in Hc; nia].
      destruct (Nat.eqb_spec idx 0) as [->|]; [|discriminate]. cbn. lia.
Qed.

Lemma power_bits b v m e : 0 <= v -> 0 < e -> 2 ^ e <= b -> b ^ Z.of_nat m <= Z.max 1 v -> m = 0%nat \/ e * Z.of_nat m < bits v.
Proof.
  intros Hv He Hb Hm. destruct m as [|m]; [by left|right]. assert (2 ^ (e * Z.of_nat (S m)) <= v).
  - rewrite Z.pow_mul_r by lia. assert (0 < 2 ^ e) by (apply Z.pow_pos_nonneg; lia). assert (1 < 2 ^ e) by (apply Z.pow_gt_1; lia).
    assert (1 < (2 ^ e) ^ Z.of_nat (S m)) by (apply Z.pow_gt_1; lia). pose proof (Z.pow_le_mono_l (2 ^ e) b (Z.of_nat (S m)) ltac:(lia)). lia.
  - apply (Z.pow_lt_mono_r_iff 2); [lia|apply bits_nonneg|]. apply Z.le_lt_trans with v; [done|]. by apply bits_le; [|apply bits_nonneg|].
Qed.

Lemma land_1 x : Z.land x 1 = x mod 2.
Proof. by apply (Z.land_ones x 1). Qed.

Lemma string_size_room X base m : wf X -> 2 <= base < 16 -> base ^ Z.of_nat m <= Z.max 1 (mag (p X)) -> Z.of_nat m + 3 <= string_size X base.
Proof.
  intros W Hb Hm. unfold string_size. rewrite bitlen_ok by done. pose proof (bits_nonneg (mag (p X))). pose proof (wf_mag X W).
  rewrite (proj2 (Z.leb_gt 16 base)) by lia. rewrite land_1. pose proof (Z.mod_pos_bound (
    (if 4 <=? base then Z.shiftr (bits (mag (p X))) 1 else bits (mag (p X))) + 1 + 1 + 1) 2 ltac:(lia)).
  destruct (Z.leb_spec 4 base).
  - rewrite Z.shiftr_div_pow2 in * by lia. change (2 ^ 1) with 2 in *. pose proof (Z.div_pos (bits (mag (p X))) 2 ltac:(lia) ltac:(lia)).
    destruct (power_bits base (mag (p X)) m 2) as [->|]; try (done || lia). assert (Z.of_nat m <= bits (mag (p X)) / 2) by (apply Z.div_le_lower_bound; lia). lia.
  - destruct (power_bits base (mag (p X)) m 1) as [->|]; try (done || lia).
Qed.

Lemma string_size_hex X nb : wf X -> 256 ^ Z.of_nat (nb - 1) <= Z.max 1 (mag (p X)) -> 2 * Z.of_nat nb + 2 <= string_size X 16.
Proof.
  intros W Hm. unfold string_size. rewrite bitlen_ok by done. pose proof (bits_nonneg (mag (p X))). pose proof (wf_mag X W). change (4 <=? 16) with true. change (16 <=? 16) with true. cbv beta iota zeta.
  rewrite Z.shiftr_shiftr by lia. rewrite land_1. rewrite Z.shiftr_div_pow2 by lia. change (2 ^ (1 + 1)) with 4.
  destruct (power_bits 256 (mag (p X)) (nb - 1) 8) as [E|]; try (done || lia); Z.to_euclidean_division_equations; lia.
Qed.

(** What is written: a minus sign when the sign is -1, and the digits. *)
Lemma write_string_ok X base buflen : wf X -> 2 <= base <= 16 -> Z.of_nat (n X) + 4 <= MBEDTLS_MPI_MAX_LIMBS -> string_size X base <= Z.of_nat buflen ->
  exists ds, mbedtls_mpi_write_string X base buflen = Ok (signed (s X =? -1) ds ++ [0]) /\ digits_ok base ds /\ horner base ds 0 = mag (p X) /\
    zlen ds + 2 <= string_size X base /\ (base = 16 -> (BITS_TO_LIMBS (4 * zlen ds) <= n X + 1)%nat).
Proof.
  intros W Hb HM Hs. unfold mbedtls_mpi_write_string. rewrite (proj2 (Z.ltb_ge base 2)), (proj2 (Z.ltb_ge 16 base)), (proj2 (Z.ltb_ge (Z.of_nat buflen) _)) by lia.
  cbn [orb]. pose proof (wf_mag X W) as R. set (b' := (if s X =? -1 then (buflen - 1)%nat else buflen)).
  assert (Hb' : Z.of_nat buflen - 1 <= Z.of_nat b') by (unfold b'; case_if; lia).
  replace (if s X =? -1 then ([minus_sign], (buflen - 1)%nat) else ([], buflen)) with (if s X =? -1 then [minus_sign] else [] : bytes, b') by (unfold b'; by case_if).
  unfold signed. set (sg := (if s X =? -1 then [minus_sign] else [])). destruct (Z.eqb_spec base 16) as [->|H16]; cbn [mbind result_bind].
  - destruct (write_hex_ok X (n X * ciL) W false) as (ds & -> & D & V & nb & L & B). rewrite <- radix_pow_256, Z.mod_small in V, B by done.
    exists ds. rewrite app_assoc. split; [done|]. split; [done|]. split; [rewrite V by (by left); lia|]. rewrite L. pose proof (string_size_hex X nb W B).
    split; [lia|]. intros _. apply bits_to_limbs_le; [lia|]. unfold biL.
    destruct (power_bits 256 (mag (p X)) (nb - 1) 8) as [E|E]; try (done || lia). assert (bits (mag (p X)) <= biL * Z.of_nat (n X)) by (rewrite radix_pow_bits in R; apply bits_le; [lia|unfold biL; lia|lia]). unfold biL in *. lia.
  - assert (Hn : exists T, mbedtls_mpi_copy mbedtls_mpi_init X = Ok T /\ wf T /\ mag (p T) = mag (p X) /\ (n T <= n X)%nat).
    { pose proof (sig1_le X). destruct (copy_ok mbedtls_mpi_init X wf_init W) as (T & E & WT & MT & _ & NT & _); [intros; lia|]. exists T. split_and!; try done. rewrite NT. cbn. lia. }
    destruct Hn as (T & -> & WT & MT & NT). cbn [mbind result_bind]. set (T1 := if s T =? -1 then set_s 1 T else T).
    assert (W1 : wf T1 /\ val T1 = mag (p X) /\ (n T1 <= n X)%nat).
    { unfold T1, val. case_if; to_prop; [split; [apply wf_set_s; auto|]; cbn [set_s s p]; split; [lia|exact NT]|]. destruct WT as [[S|S] L]; [|lia]. rewrite S. split_and!; [by split; [left|]|lia|done]. }
    destruct W1 as (W1 & V1 & N1). rewrite bitlen_ok by done. rewrite (val_nonneg T1 W1), V1 by lia.
    pose proof (bits_nonneg (mag (p X))).
    destruct (write_hlp_ok base b' (Nat.max 1 (n X)) (Z.to_nat (bits (mag (p X)) + 1)) ltac:(lia) ltac:(unfold MBEDTLS_MPI_MAX_LIMBS in *; lia) T1 0%nat [] W1) as (ds & -> & D & V & L & B); [lia|lia|rewrite V1; lia| |].
    { intros m Hm. rewrite V1 in Hm. pose proof (string_size_room X base m W ltac:(lia) Hm). lia. }
    rewrite V1 in *. cbn [mbind result_bind]. rewrite app_nil_r. exists ds. rewrite app_assoc. split; [done|]. split; [done|]. split; [done|].
    pose proof (string_size_room X base (length ds - 1) W ltac:(lia) B). split; [lia|]. done.
Qed.

Lemma signed_text neg ds base : base <= 16 -> digits_ok base ds -> Forall (fun c => c <> 0) (signed neg ds).
Proof.
  intros Hb Hds. apply Forall_app. split; [destruct neg; repeat constructor; unfold minus_sign; lia|].
  apply Forall_map. eapply Forall_impl; [exact Hds|]. intros d Hd. cbn. eapply digit_char_not; try done; lia.
Qed.

(** C30. A number written in any base from 2 to 16 is a string without a zero
    byte, of at most the size asked for, and reading it gives the number back;
    a smaller buffer is refused, as is any other base. *)
Theorem text_roundtrip X Y base buflen : wf X -> wf Y -> Z.of_nat (n X) + 4 <= MBEDTLS_MPI_MAX_LIMBS -> Z.of_nat (n Y) <= MBEDTLS_MPI_MAX_LIMBS ->
  if (2 <=? base) && (base <=? 16) then
    if string_size X base <=? Z.of_nat buflen then
      exists out X', mbedtls_mpi_write_string X base buflen = Ok (out ++ [0]) /\ Forall (fun c => c <> 0) out /\ zlen (out ++ [0]) <= string_size X base /\
        mbedtls_mpi_read_string Y base out = Ok X' /\ wf X' /\ val X' = val X
    else mbedtls_mpi_write_string X base buflen = Err MBEDTLS_ERR_MPI_BUFFER_TOO_SMALL
  else mbedtls_mpi_write_string X base buflen = Err MBEDTLS_ERR_MPI_BAD_INPUT_DATA /\
    forall str, mbedtls_mpi_read_string Y base str = Err MBEDTLS_ERR_MPI_BAD_INPUT_DATA.
Proof.
  intros W WY HM HY. destruct ((2 <=? base) && (base <=? 16)) eqn:Eb.
  - to_prop. destruct (Z.leb_spec (string_size X base) (Z.of_nat buflen)) as [Hs|Hs].
    + destruct (write_string_ok X base buflen W ltac:(lia) HM Hs) as (ds & -> & D & V & L & B).
      destruct (read_string_ok base (n X) (Nat.max (n X + 1) (n Y)) Y (s X =? -1) ds ltac:(lia) D WY) as (X' & E & W' & V'); [lia|lia|lia|rewrite V; by apply wf_mag|intros; specialize (B ltac:(done)); lia|].
      exists (signed (s X =? -1) ds), X'. split; [done|]. split; [by apply (signed_text _ _ base)|]. rewrite length_app. unfold signed at 1. rewrite length_app, length_map.
      split; [case_if; cbn [length]; lia|]. split; [done|]. split; [done|]. rewrite V', V. unfold val. by destruct W as [[-> | ->] _]; [change (1 =? -1) with false|change (-1 =? -1) with true]; cbv iota; lia.
    + unfold mbedtls_mpi_write_string. rewrite (proj2 (Z.ltb_ge base 2)), (proj2 (Z.ltb_ge 16 base)), (proj2 (Z.ltb_lt (Z.of_nat buflen) _)) by lia. done.
  - assert (E : (base <? 2) || (16 <? base) = true) by (revert Eb; destruct (Z.leb_spec 2 base), (Z.leb_spec base 16), (Z.ltb_spec base 2), (Z.ltb_spec 16 base); done || lia).
    unfold mbedtls_mpi_write_string, mbedtls_mpi_read_string. rewrite E. done.
Qed.

(** A negative number of two limbs in base 10. *)
Lemma text_roundtrip_witness : exists out X', mbedtls_mpi_write_string (mkMpi (-1) [7; 1]) 10 70 = Ok (out ++ [0]) /\ mbedtls_mpi_read_string mbedtls_mpi_init 10 out = Ok X' /\ val X' = - (2 ^ 64 + 7).
Proof.
  destruct (text_roundtrip (mkMpi (-1) [7; 1]) mbedtls_mpi_init 10 70) as (out & X' & E & _ & _ & R & _ & V); [split; [by right|limbs_literal]|apply wf_init|by vm_compute|by vm_compute|].
  exists out, X'. split; [exact E|]. split; [exact R|]. rewrite V. reflexivity.
Defined.

(** ** Files *)

Lemma fgets_up_to_newline l f : forall k, Forall (fun c => c <> 10) l -> (length l < k)%nat -> fgets k (l ++ 10 :: f) = (l ++ [10], f).
Proof.
  induction l as [|c l IH]; intros k Hl Hk; (destruct k as [|k]; [cbn [length] in Hk; lia|]); cbn [app fgets length] in *.
  - done.
  - apply Forall_cons in Hl as [Hc Hl]. rewrite (proj2 (Z.eqb_neq c 10) Hc). rewrite IH by (done || lia). done.
Qed.

Lemma up_to_zero_app a b : Forall (fun c => c <> 0) a -> up_to_zero (a ++ b) = a ++ up_to_zero b.
Proof. induction 1 as [|c a Hc _ IH]; [done|]. cbn [app up_to_zero]. rewrite (proj2 (Z.eqb_neq c 0) Hc). by rewrite IH. Qed.

Lemma chomp_last c s : chomp c (s ++ [c]) = s.
Proof. unfold chomp. rewrite rev_app_distr. cbn. by rewrite Z.eqb_refl, rev_involutive. Qed.

Lemma digits_of_all base ds s : base <= 16 -> digits_ok base ds -> match s with [] => True | c :: _ => exists e, mpi_get_digit base c = Err e end ->
  digits_of base (map digit_char ds ++ s) = map digit_char ds.
Proof.
  intros Hb H Hs. induction H as [|d ds Hd _ IH]; cbn [map app digits_of].
  - destruct s as [|c s]; [done|]. destruct Hs as [e He]. cbn [digits_of]. by rewrite He.
  - rewrite get_digit_char by done. by rewrite IH.
Qed.

Lemma minus_no_digit base : mpi_get_digit base minus_sign = Err MBEDTLS_ERR_MPI_INVALID_CHARACTER \/ 255 < base.
Proof. change (mpi_get_digit base minus_sign) with (if base <=? 255 then Err MBEDTLS_ERR_MPI_INVALID_CHARACTER else Ok 255 : result Z). destruct (Z.leb_spec base 255); [by left|right; lia]. Qed.

(** A label that does not end in a digit and fits the line. *)
Definition label_ok (base : Z) (label : bytes) : Prop :=
  Forall (fun c => c <> 0 /\ c <> 10) label /\ match rev label with [] => True | c :: _ => exists e, mpi_get_digit base c = Err e end.

Lemma signed_digits base label neg ds : 2 <= base <= 16 -> digits_ok base ds -> label_ok base label ->
  rev (digits_of base (rev (label ++ signed neg ds))) = map digit_char ds.
Proof.
  intros Hb Hd [_ HL]. unfold signed. rewrite app_assoc, rev_app_distr, <- map_rev, digits_of_all; [by rewrite <- map_rev, rev_involutive|lia|by apply Forall_rev|].
  rewrite rev_app_distr. destruct neg; cbn [rev app]; [|exact HL]. destruct (minus_no_digit base) as [E|]; [by eexists|lia].
Qed.

(** A number written to a file is read back without its sign: the digits are
    looked for from the end of the line. *)
Lemma file_keeps_magnitude X Y base label f : wf X -> wf Y -> 2 <= base <= 16 -> Z.of_nat (n X) + 4 <= MBEDTLS_MPI_MAX_LIMBS -> Z.of_nat (n Y) <= MBEDTLS_MPI_MAX_LIMBS ->
  label_ok base label -> zlen label + string_size X base + 4 <= Z.of_nat MBEDTLS_MPI_RW_BUFFER_SIZE ->
  exists text X', mbedtls_mpi_write_file label X base true = Ok text /\ mbedtls_mpi_read_file Y base (text ++ f) = Ok (X', f) /\ wf X' /\ val X' = Z.abs (val X).
Proof.
  intros W WY Hb HM HY HL Hs. pose proof HL as [HL1 _]. remember MBEDTLS_MPI_RW_BUFFER_SIZE as B eqn:EB. unfold mbedtls_mpi_write_file, mbedtls_mpi_read_file. rewrite <- EB.
  assert (Eb : (base <? 2) || (16 <? base) = false) by (rewrite (proj2 (Z.ltb_ge base 2)), (proj2 (Z.ltb_ge 16 base)) by lia; done). rewrite Eb.
  destruct (write_string_ok X base (B - 2) W Hb HM) as (ds & -> & D & V & L & Bl); [lia|]. cbn [mbind result_bind].
  pose proof (signed_text (s X =? -1) ds base ltac:(lia) D) as NZ. rewrite up_to_zero_app by done. change (up_to_zero [0]) with (@nil Z). rewrite app_nil_r.
  set (sg := signed (s X =? -1) ds) in *. assert (Lsg : (length sg <= length ds + 1)%nat) by (unfold sg, signed; rewrite length_app, length_map; case_if; cbn [length]; lia).
  assert (N10 : Forall (fun c => c <> 10) (label ++ sg ++ [13])).
  { apply Forall_app. split; [eapply Forall_impl; [exact HL1|]; by intros c []|]. apply Forall_app. split; [|by apply Forall_singleton]. unfold sg, signed. apply Forall_app. split; [by case_if; repeat constructor|].
    apply Forall_map. eapply Forall_impl; [exact D|]. intros d Hd. cbn in Hd |- *. apply (digit_char_not 10 base); lia. }
  destruct (read_string_ok base (n X) (Nat.max (n X + 1) (n Y)) Y false ds Hb D WY) as (X' & E & W' & V'); [lia|lia|lia|rewrite V; by apply wf_mag|intros; specialize (Bl ltac:(done)); lia|].
  change (signed false ds) with (map digit_char ds) in E. exists (label ++ sg ++ [13; 10]), X'. split; [done|]. replace ((label ++ sg ++ [13; 10]) ++ f) with ((label ++ sg ++ [13]) ++ 10 :: f) by (rewrite <- !app_assoc; done).
  rewrite (proj2 (Nat.eqb_neq _ _)) by (rewrite length_app; cbn [length]; lia). rewrite fgets_up_to_newline by (try done; rewrite !length_app; cbn [length]; lia).
  rewrite up_to_zero_app; [|apply Forall_app; split; [eapply Forall_impl; [exact HL1|]; by intros c []|apply Forall_app; split; [done|by apply Forall_singleton]]].
  change (up_to_zero [10]) with [10]. rewrite (proj2 (Nat.eqb_neq _ _)) by (rewrite !length_app; cbn [length]; lia).
  rewrite chomp_last, app_assoc, chomp_last. unfold sg. rewrite signed_digits, E by done. cbn [mbind result_bind]. split; [done|]. split; [done|]. by rewrite V', V, val_abs.
Qed.

(** The sign is lost. *)
Lemma file_loses_sign : mbedtls_mpi_write_file [] (mpi_of_int (-5)) 10 true = Ok [45; 53; 13; 10] /\ mbedtls_mpi_read_file mbedtls_mpi_init 10 [45; 53; 13; 10] = Ok (mpi_of_int 5, []).
Proof. split; vm_compute; reflexivity. Qed.

End Text.
