(* ===== verification/Primes.v ===== *)
(** Prime numbers: Fermat's theorem on integers and the strong test of Miller and
    Rabin as a predicate, which every prime passes.  The primality test of the
    library is stated with it. *)
From Stdlib Require Import Zmod Zpow_facts.
From S2P Require Import Prelude.
#[local] Open Scope Z_scope.

(** [a ^ (p - 1)] is one modulo a prime that does not divide [a]. *)
Lemma fermat p a : Z.prime p -> a mod p <> 0 -> a ^ (p - 1) mod p = 1.
Proof.
  intros Hp Ha. pose proof (Z.prime_ge_2 p Hp) as P2.
  assert (Hz : Zmod.of_Z p a <> Zmod.zero).
  { intros E. apply (f_equal Zmod.to_Z) in E. rewrite Zmod.to_Z_of_Z, Zmod.to_Z_0 in E. done. }
  pose proof (f_equal Zmod.to_Z (Zmod.fermat_nz (Zmod.of_Z p a) Hz Hp)) as F.
  rewrite Zmod.to_Z_pow_nonneg_r, Zmod.to_Z_of_Z in F by lia.
  rewrite <- Z.sub_1_r in F. rewrite <- Zpower_mod in F by lia. rewrite F, Zmod.to_Z_1. apply Z.mod_small. lia.
Qed.

(** One has two square roots modulo a prime. *)
Lemma square_root_one p x : Z.prime p -> 0 <= x < p -> (x * x) mod p = 1 -> x = 1 \/ x = p - 1.
Proof.
  intros Hp Hx E. pose proof (Z.prime_ge_2 p Hp). assert (D : (p | (x - 1) * (x + 1))).
  { apply Z.mod_divide; [lia|]. replace ((x - 1) * (x + 1)) with (x * x - 1) by ring. rewrite <- Zminus_mod_idemp_l, E. done. }
  apply Z.divide_prime_mul in D as [D|D]; [| |done].
  - left. apply Z.mod_divide in D; [|lia]. destruct (Z.eq_dec x 0) as [->|]; [|rewrite Z.mod_small in D by lia; lia].
    cbn in E. rewrite Z.mod_0_l in E by lia. lia.
  - right. destruct D as [k Hk]. assert (k = 1) by nia. lia.
Qed.

(** ** The strong test *)

(** [a], squared from the power [r] on, meets [N - 1] within [k] squarings. *)
Fixpoint meets (N a : Z) (k : nat) : bool :=
  match k with
  | O => false
  | S k => (a mod N =? N - 1) || meets N ((a * a) mod N) k
  end.

(** [N - 1 = r * 2 ^ s], with [r] odd; the test for the base [a]. *)
Definition strong_probable_prime (N r : Z) (s : nat) (a : Z) : bool :=
  let x := a ^ r mod N in (x =? 1) || meets N x s.

Lemma meets_from_one p k : Z.prime p -> forall x, 0 <= x < p -> x ^ (2 ^ Z.of_nat k) mod p = 1 -> x = 1 \/ meets p x k = true.
Proof.
  intros Hp. pose proof (Z.prime_ge_2 p Hp). induction k as [|k IH]; intros x Hx E.
  - left. change (2 ^ Z.of_nat 0) with 1 in E. rewrite Z.pow_1_r, Z.mod_small in E by lia. done.
  - cbn [meets]. rewrite Z.mod_small by lia. destruct (Z.eqb_spec x (p - 1)) as [|Hn]; [by right|]. cbn [orb].
    assert (E2 : ((x * x) mod p) ^ (2 ^ Z.of_nat k) mod p = 1).
    { rewrite <- Zpower_mod by lia. rewrite <- Z.pow_2_r, <- Z.pow_mul_r by lia. rewrite <- Z.pow_succ_r, <- Nat2Z.inj_succ by lia. done. }
    destruct (IH _ (Z.mod_pos_bound (x * x) p ltac:(lia)) E2) as [E1|E1]; [|by right].
    left. destruct (square_root_one p x Hp Hx E1); [done|lia].
Qed.

(** A prime passes the test for every base it does not divide. *)
Lemma prime_strong N r s a : Z.prime N -> 0 <= r -> N - 1 = r * 2 ^ Z.of_nat s -> a mod N <> 0 -> strong_probable_prime N r s a = true.
Proof.
  intros HN Hr Es Ha. pose proof (Z.prime_ge_2 N HN). unfold strong_probable_prime.
  destruct (meets_from_one N s HN (a ^ r mod N) (Z.mod_pos_bound _ N ltac:(lia))) as [->| ->]; [|done|by rewrite orb_true_r].
  rewrite <- Zpower_mod by lia. rewrite <- Z.pow_mul_r by lia. rewrite <- Es. by apply fermat.
Qed.
