(* ===== verification/BignumPrime.v ===== *)
(** Primality test and generation of primes (mbedtls/library/bignum.c), with a
    generator of random bytes that is a parameter.  A test returns its code and
    the state of the generator; an error that ends the caller as well, such as one
    of the generator (which is taken not to be MBEDTLS_ERR_MPI_NOT_ACCEPTABLE), is
    [Err].  The number of rounds is not negative. *)
From S2P Require Import Prelude Words Limbs Bignum BignumDiv Montgomery ExpMod BignumGcd Primes.
From stdpp Require Import list.
#[local] Open Scope Z_scope.

Module Prime.
Import Bignum Division Montgomery ExpMod Gcd.

(** ** Operations *)

(** The table up to its end, -103. *)
Definition small_prime : list Z :=
  [3; 5; 7; 11; 13; 17; 19; 23; 29; 31; 37; 41; 43; 47;
   53; 59; 61; 67; 71; 73; 79; 83; 89; 97; 101; 103; 107; 109;
   113; 127; 131; 137; 139; 149; 151; 157; 163; 167; 173; 179; 181; 191;
   193; 197; 199; 211; 223; 227; 229; 233; 239; 241; 251; 257; 263; 269;
   271; 277; 281; 283; 293; 307; 311; 313; 317; 331; 337; 347; 349; 353;
   359; 367; 373; 379; 383; 389; 397; 401; 409; 419; 421; 431; 433; 439;
   443; 449; 457; 461; 463; 467; 479; 487; 491; 499; 503; 509; 521; 523;
   541; 547; 557; 563; 569; 571; 577; 587; 593; 599; 601; 607; 613; 617;
   619; 631; 641; 643; 647; 653; 659; 661; 673; 677; 683; 691; 701; 709;
   719; 727; 733; 739; 743; 751; 757; 761; 769; 773; 787; 797; 809; 811;
   821; 823; 827; 829; 839; 853; 857; 859; 863; 877; 881; 883; 887; 907;
   911; 919; 929; 937; 941; 947; 953; 967; 971; 977; 983; 991; 997].

(** The loop over the table. *)
Fixpoint small_factors (primes : list Z) (X : mpi) : Z :=
  match primes with
  | [] => 0
  | q :: primes =>
      if mbedtls_mpi_cmp_int X q <=? 0 then 1
      else
        match mbedtls_mpi_mod_int X q with
        | Err ret => ret
        | Ok r => if r =? 0 then MBEDTLS_ERR_MPI_NOT_ACCEPTABLE else small_factors primes X
        end
  end.

Definition mpi_check_small_factors (X : mpi) : Z :=
  if Z.land (nth 0 (p X) 0) 1 =? 0 then MBEDTLS_ERR_MPI_NOT_ACCEPTABLE else small_factors small_prime X.

(** [A.p[A.n - 1] &= ...].  The shift is defined in C when the top limb of the
    number tested is not zero, which the theorems ask for. *)
Definition mask_top (A : mpi) (k : Z) : mpi :=
  let i := (n A - 1)%nat in
  let mask := u64 (u64 (Z.shiftl 1 (k - Z.of_nat i * biL - 1)) - 1) in
  mkMpi (s A) (<[i := Z.land (nth i (p A) 0) mask]> (p A)).

(** [while (j < s && mbedtls_mpi_cmp_mpi(&A, &W) != 0)], with [s - j] as fuel. *)
Fixpoint mr_squares (X W A T : mpi) (k : nat) : result (mpi * mpi) :=
  match k with
  | O => Ok (A, T)
  | S k =>
      if negb (mbedtls_mpi_cmp_mpi A W =? 0) then
        T ← mbedtls_mpi_mul_mpi T A A;
        A ← mbedtls_mpi_mod_mpi A T X;
        if mbedtls_mpi_cmp_int A 1 =? 0 then Ok (A, T) else mr_squares X W A T k
      else Ok (A, T)
  end.

Section Test.
Context {S : Type} (f_rng : S -> nat -> result (bytes * S)).

(** The loop that picks [A]; [tries] is [31 - count].  No number is given when
    [count++ > 30]. *)
Fixpoint pick (X W A : mpi) (p_rng : S) (tries : nat) : result (option mpi * S) :=
  '(A, p_rng) ← mbedtls_mpi_fill_random f_rng A (n X * ciL) p_rng;
  let j := mbedtls_mpi_bitlen A in
  let k := mbedtls_mpi_bitlen W in
  let A := if k <? j then mask_top A k else A in
  match tries with
  | O => Ok (None, p_rng)
  | Datatypes.S tries =>
      if (0 <=? mbedtls_mpi_cmp_mpi A W) || (mbedtls_mpi_cmp_int A 1 <=? 0) then pick X W A p_rng tries else Ok (Some A, p_rng)
  end.

(** The loop over the rounds; [s] is the number of twos in [W]. *)
Fixpoint mr_rounds (X W R : mpi) (s : nat) (A T : mpi) (RR : option mpi) (p_rng : S) (rounds : nat) : result (Z * S) :=
  match rounds with
  | O => Ok (0, p_rng)
  | Datatypes.S rounds =>
      '(A, p_rng) ← pick X W A p_rng 31;
      match A with
      | None => Ok (MBEDTLS_ERR_MPI_NOT_ACCEPTABLE, p_rng)
      | Some A =>
          '(A, RR) ← mbedtls_mpi_exp_mod A A R X RR;
          if (mbedtls_mpi_cmp_mpi A W =? 0) || (mbedtls_mpi_cmp_int A 1 =? 0) then mr_rounds X W R s A T RR p_rng rounds
          else
            '(A, T) ← mr_squares X W A T (s - 1);
            if negb (mbedtls_mpi_cmp_mpi A W =? 0) || (mbedtls_mpi_cmp_int A 1 =? 0) then Ok (MBEDTLS_ERR_MPI_NOT_ACCEPTABLE, p_rng)
            else mr_rounds X W R s A T RR p_rng rounds
      end
  end.

Definition mpi_miller_rabin (X : mpi) (rounds : nat) (p_rng : S) : result (Z * S) :=
  W ← mbedtls_mpi_sub_int mbedtls_mpi_init X 1;
  let s := mbedtls_mpi_lsb W in
  R ← mbedtls_mpi_copy mbedtls_mpi_init W;
  R ← mbedtls_mpi_shift_r R s;
  mr_rounds X W R (Z.to_nat s) mbedtls_mpi_init mbedtls_mpi_init (Some mbedtls_mpi_init) p_rng rounds.

Definition mbedtls_mpi_is_prime_ext (X : mpi) (rounds : nat) (p_rng : S) : result (Z * S) :=
  let XX := mkMpi 1 (p X) in
  if (mbedtls_mpi_cmp_int XX 0 =? 0) || (mbedtls_mpi_cmp_int XX 1 =? 0) then Ok (MBEDTLS_ERR_MPI_NOT_ACCEPTABLE, p_rng)
  else if mbedtls_mpi_cmp_int XX 2 =? 0 then Ok (0, p_rng)
  else
    let ret := mpi_check_small_factors XX in
    if negb (ret =? 0) then Ok (if ret =? 1 then 0 else ret, p_rng)
    else mpi_miller_rabin XX rounds p_rng.

Definition mbedtls_mpi_is_prime (X : mpi) (p_rng : S) : result (Z * S) := mbedtls_mpi_is_prime_ext X 40 p_rng.

(** *** Generation *)

Definition CEIL_MAXUINT_DIV_SQRT2 : Z := 0xb504f333f9de6485.
Definition MBEDTLS_MPI_GEN_PRIME_FLAG_DH : Z := 1.
Definition MBEDTLS_MPI_GEN_PRIME_FLAG_LOW_ERR : Z := 2.

Definition gen_rounds (nbits flags : Z) : nat :=
  if Z.land flags MBEDTLS_MPI_GEN_PRIME_FLAG_LOW_ERR =? 0 then
    if 1300 <=? nbits then 2 else if 850 <=? nbits then 3 else if 650 <=? nbits then 4 else if 350 <=? nbits then 8
    else if 250 <=? nbits then 12 else if 150 <=? nbits then 18 else 27
  else
    if 1450 <=? nbits then 4 else if 1150 <=? nbits then 5 else if 1000 <=? nbits then 6 else if 850 <=? nbits then 7
    else if 750 <=? nbits then 8 else if 500 <=? nbits then 13 else if 250 <=? nbits then 28 else if 150 <=? nbits then 40 else 51.

(** [X->p[0] |= v] *)
Definition or_low (v : Z) (X : mpi) : mpi := mkMpi (s X) (<[0%nat := Z.lor (nth 0 (p X) 0) v]> (p X)).

(** The condition of the inner loop: the code of the first check that is not 0. *)
Definition dh_check (X Y : mpi) (rounds : nat) (p_rng : S) : result (Z * S) :=
  let ret := mpi_check_small_factors X in
  if negb (ret =? 0) then Ok (ret, p_rng)
  else
    let ret := mpi_check_small_factors Y in
    if negb (ret =? 0) then Ok (ret, p_rng)
    else
      '(ret, p_rng) ← mpi_miller_rabin X rounds p_rng;
      if negb (ret =? 0) then Ok (ret, p_rng) else mpi_miller_rabin Y rounds p_rng.

(** The inner [while (1)]. *)
Fixpoint dh_loop (X Y : mpi) (rounds : nat) (p_rng : S) (fuel : nat) : result (Z * mpi * S) :=
  match fuel with
  | O => Err MBEDTLS_ERR_ERROR_CORRUPTION_DETECTED
  | Datatypes.S fuel =>
      '(ret, p_rng) ← dh_check X Y rounds p_rng;
      if negb (ret =? MBEDTLS_ERR_MPI_NOT_ACCEPTABLE) then Ok (ret, X, p_rng)
      else
        X ← mbedtls_mpi_add_int X X 12;
        Y ← mbedtls_mpi_add_int Y Y 6;
        dh_loop X Y rounds p_rng fuel
  end.

(** [X] made 2 modulo 3 and 3 modulo 4, and [Y]. *)
Definition dh_start (X Y : mpi) : result (mpi * mpi) :=
  let X := or_low 2 X in
  r ← mbedtls_mpi_mod_int X 3;
  X ← (if r =? 0 then mbedtls_mpi_add_int X X 8 else if r =? 1 then mbedtls_mpi_add_int X X 4 else Ok X);
  Y ← mbedtls_mpi_copy Y X;
  Y ← mbedtls_mpi_shift_r Y 1;
  Ok (X, Y).

(** The outer [while (1)]: the code, the number and the generator. *)
Fixpoint gen_loop (X : mpi) (nbits flags : Z) (p_rng : S) (fuel : nat) : result (Z * mpi * S) :=
  match fuel with
  | O => Err MBEDTLS_ERR_ERROR_CORRUPTION_DETECTED
  | Datatypes.S fuel =>
      let n := BITS_TO_LIMBS nbits in
      let rounds := gen_rounds nbits flags in
      '(X, p_rng) ← mbedtls_mpi_fill_random f_rng X (n * ciL) p_rng;
      if nth (n - 1) (p X) 0 <? CEIL_MAXUINT_DIV_SQRT2 then gen_loop X nbits flags p_rng fuel
      else
        let k := Z.of_nat n * biL in
        X ← (if nbits <? k then mbedtls_mpi_shift_r X (k - nbits) else Ok X);
        let X := or_low 1 X in
        if Z.land flags MBEDTLS_MPI_GEN_PRIME_FLAG_DH =? 0 then
          '(ret, p_rng) ← mbedtls_mpi_is_prime_ext X rounds p_rng;
          if negb (ret =? MBEDTLS_ERR_MPI_NOT_ACCEPTABLE) then Ok (ret, X, p_rng) else gen_loop X nbits flags p_rng fuel
        else
          '(X, Y) ← dh_start X mbedtls_mpi_init;
          dh_loop X Y rounds p_rng fuel
  end.

Definition mbedtls_mpi_gen_prime (X : mpi) (nbits flags : Z) (p_rng : S) (fuel : nat) : result (Z * mpi * S) :=
  if (nbits <? 3) || (MBEDTLS_MPI_MAX_BITS <? nbits) then Err MBEDTLS_ERR_MPI_BAD_INPUT_DATA
  else gen_loop X nbits flags p_rng fuel.
End Test.

(** ** Small factors *)

Abbreviation NA := MBEDTLS_ERR_MPI_NOT_ACCEPTABLE.

Fixpoint small_scan (primes : list Z) (v : Z) : Z :=
  match primes with
  | [] => 0
  | q :: primes => if v <=? q then 1 else if v mod q =? 0 then NA else small_scan primes v
  end.

(** Trial division by the numbers up to 31, for numbers below 1024. *)
Definition is_primeb (v : Z) : bool :=
  (1 <? v) && forallb (fun k => let d := Z.of_nat k in (v <=? d) || negb (v mod d =? 0)) (seq 2 30).

Lemma is_primeb_ok v : v < 1024 -> is_primeb v = true <-> Z.prime v.
Proof.
  intros Hv. unfold is_primeb. rewrite andb_true_iff, Z.ltb_lt, forallb_forall.
  assert (F : (forall k, In k (seq 2 30) -> (v <=? Z.of_nat k) || negb (v mod Z.of_nat k =? 0) = true) <-> (forall d, 2 <= d < 32 -> d < v -> v mod d <> 0)).
  { split; intros H.
    - intros d Hd Hlt. specialize (H (Z.to_nat d)). rewrite in_seq, Z2Nat.id in H by lia. specialize (H ltac:(lia)).
      rewrite (proj2 (Z.leb_gt v d)) in H by lia. cbn [orb] in H. by apply negb_true_iff, Z.eqb_neq in H.
    - intros k Hk%in_seq. destruct (Z.leb_spec v (Z.of_nat k)); [done|]. cbn [orb]. apply negb_true_iff, Z.eqb_neq. apply H; lia. }
  rewrite F. unfold Z.prime. split; intros [H1 H]; (split; [exact H1|]).
  - intros d Hd D. destruct (Z.lt_ge_cases d 32) as [Hs|Hl]; [apply (H d); [lia|lia|]; apply Z.mod_divide; [lia|done]|].
    destruct D as [q Hq]. assert (2 <= q < 32) by nia. apply (H q); [lia|nia|]. rewrite Hq, Z.mul_comm. apply Z.mod_mul. lia.
  - intros d Hd Hlt E. apply (H d); [lia|]. apply Z.mod_divide; [lia|done].
Qed.

Lemma small_factors_ok primes X : wf X -> Forall (fun q => 0 < q <= 997) primes -> small_factors primes X = small_scan primes (val X).
Proof.
  intros W. induction 1 as [|q primes Hq _ IH]; [done|]. cbn [small_factors small_scan]. rewrite cmp_int_ok, mod_int_ok by (done || lia). rewrite IH.
  destruct (Z.leb_spec (val X) q), (Z.leb_spec (Z.sgn (val X - q)) 0); done || lia.
Qed.

Lemma small_prime_big : Forall (fun q => 1 < q <= 997) small_prime.
Proof. unfold small_prime. repeat (apply Forall_cons; split; [lia|]). apply Forall_nil. exact I. Qed.

Lemma small_prime_range : Forall (fun q => 0 < q <= 997) small_prime.
Proof. eapply Forall_impl; [exact small_prime_big|]. intros q Hq. cbn in Hq. lia. Qed.

Lemma check_small_ok X : wf X -> 0 <= val X -> mpi_check_small_factors X = if Z.even (val X) then NA else small_scan small_prime (val X).
Proof.
  intros W Hv. unfold mpi_check_small_factors. rewrite small_factors_ok by (done || apply small_prime_range).
  assert (E : (Z.land (nth 0 (p X) 0) 1 =? 0) = Z.even (val X)); [|by rewrite E].
  rewrite <- (negb_involutive (_ =? 0)), land_odd, <- odd_low, (val_nonneg X W Hv). apply Z.negb_odd.
Qed.

Lemma small_table : forallb (fun k => let v := Z.of_nat k in Z.even v || (small_scan small_prime v =? (if is_primeb v then 1 else NA))) (seq 2 996) = true.
Proof. vm_compute. reflexivity. Qed.

(** Below the end of the table the verdict is final. *)
Lemma small_scan_below v : 1 < v <= 997 -> Z.even v = false -> small_scan small_prime v = if is_primeb v then 1 else NA.
Proof.
  intros Hv He. pose proof small_table as T. rewrite forallb_forall in T. specialize (T (Z.to_nat v)). rewrite in_seq in T. specialize (T ltac:(lia)).
  cbv zeta in T. rewrite Z2Nat.id, He in T by lia. cbn [orb] in T. by apply Z.eqb_eq.
Qed.

Definition has_small_factor (v : Z) : bool := Z.even v || existsb (fun q => v mod q =? 0) small_prime.

Lemma small_scan_above primes v : Forall (fun q => 0 < q <= 997) primes -> 997 < v -> small_scan primes v = if existsb (fun q => v mod q =? 0) primes then NA else 0.
Proof.
  intros H Hv. induction H as [|q primes Hq _ IH]; [done|]. cbn [small_scan existsb]. rewrite (proj2 (Z.leb_gt v q)) by lia. rewrite IH.
  by destruct (v mod q =? 0).
Qed.

Lemma check_small_above X : wf X -> 997 < val X -> mpi_check_small_factors X = if has_small_factor (val X) then NA else 0.
Proof.
  intros W Hv. rewrite check_small_ok by (done || lia). unfold has_small_factor. rewrite small_scan_above by (done || apply small_prime_range).
  by destruct (Z.even (val X)).
Qed.


(** ** The numbers picked *)

(** The top limb is masked: the number modulo a power of two. *)
Lemma mask_top_ok A k : wf A -> s A = 1 -> (1 <= n A)%nat -> biL * Z.of_nat (n A - 1) + 1 <= k <= biL * Z.of_nat (n A) ->
  wf (mask_top A k) /\ s (mask_top A k) = 1 /\ n (mask_top A k) = n A /\ mag (p (mask_top A k)) = mag (p A) mod 2 ^ (k - 1).
Proof.
  intros [_ HL] HS Hn Hk. unfold mask_top. set (i := (n A - 1)%nat) in *. set (m := k - Z.of_nat i * biL - 1).
  assert (Hm : 0 <= m < 64) by (unfold m, biL in *; lia). assert (Hi : (i < length (p A))%nat) by (unfold n in *; lia).
  assert (Em : u64 (u64 (Z.shiftl 1 m) - 1) = Z.ones m).
  { rewrite Z.shiftl_1_l, Z.ones_equiv. assert (0 < 2 ^ m < 2 ^ 64) by (split; [apply Z.pow_pos_nonneg; lia|apply Z.pow_lt_mono_r; lia]). unfold u64. rewrite (Z.mod_small (2 ^ m)) by lia. rewrite Z.mod_small; lia. }
  rewrite Em, Z.land_ones by lia. pose proof (limbs_nth (p A) i HL) as Ht. assert (P : 0 < 2 ^ m) by (apply Z.pow_pos_nonneg; lia).
  pose proof (Z.mod_pos_bound (nth i (p A) 0) (2 ^ m) P) as Hb. pose proof (Z.mod_le (nth i (p A) 0) (2 ^ m) ltac:(lia) P) as Hle.
  split; [split; [by left|cbn [p]; apply limbs_insert; [done|lia]]|]. split; [done|]. split; [unfold n; cbn [p]; apply length_insert|]. cbn [p].
  rewrite mag_insert by done. replace (k - 1) with (biL * Z.of_nat i + m) by (unfold m; lia). rewrite Z.pow_add_r, <- radix_pow_bits by (unfold biL; lia).
  pose proof (radix_pow_pos i) as RP. rewrite Z.rem_mul_r by lia. rewrite mag_mod, mag_div by (done || lia). rewrite (drop_nth (p A) i Hi).
  assert (drop (S i) (p A) = []) as -> by (apply drop_ge; unfold n in *; lia). cbn [mag]. rewrite Z.mul_0_r, Z.add_0_r.
  pose proof (mag_split i (p A) ltac:(lia)) as Sp. rewrite (drop_nth (p A) i Hi) in Sp. assert (drop (S i) (p A) = []) as D by (apply drop_ge; unfold n in *; lia). rewrite D in Sp. cbn [mag] in Sp. nia.
Qed.

Section TestProofs.
Context {S : Type} (f_rng : S -> nat -> result (bytes * S)) (Hrng : rng_fills f_rng).

Lemma fill_random_spec X size st : (0 < size)%nat -> Z.of_nat (CHARS_TO_LIMBS size) <= MBEDTLS_MPI_MAX_LIMBS ->
  match f_rng st size with
  | Ok (buf, st') => exists X', mbedtls_mpi_fill_random f_rng X size st = Ok (X', st') /\ wf X' /\ s X' = 1 /\ n X' = CHARS_TO_LIMBS size /\ mag (p X') = be_val buf
  | Err e => mbedtls_mpi_fill_random f_rng X size st = Err e
  end.
Proof.
  intros Hs Hm. unfold mbedtls_mpi_fill_random. rewrite resize_clear_ok by done. cbn [mbind result_bind]. rewrite (proj2 (Nat.eqb_neq _ _)) by lia.
  assert (L : n (mkMpi 1 (repeat 0 (CHARS_TO_LIMBS size))) = CHARS_TO_LIMBS size) by (unfold n; cbn [p]; apply repeat_length).
  pose proof (fill_internal_ok f_rng Hrng (mkMpi 1 (repeat 0 (CHARS_TO_LIMBS size))) size st) as F.
  specialize (F ltac:(split; [by left|apply limbs_zeros]) ltac:(lia)). destruct (f_rng st size) as [[buf st']|e]; [|done].
  destruct F as (X' & -> & W' & S' & N' & M'). exists X'. split; [done|]. split; [done|]. split; [done|]. split; [lia|done].
Qed.

(** The specification: at most 32 candidates of [size] bytes, cut to the bits
    of [N - 1] but one when they are longer. *)
Definition candidate (N : Z) (buf : bytes) : Z :=
  let v := be_val buf in
  let k := bits (N - 1) in
  if k <? bits v then v mod 2 ^ (k - 1) else v.

Fixpoint spec_pick (N : Z) (size : nat) (st : S) (tries : nat) : result (option Z * S) :=
  '(buf, st) ← f_rng st size;
  match tries with
  | O => Ok (None, st)
  | Datatypes.S tries =>
      let v := candidate N buf in
      if (N - 1 <=? v) || (v <=? 1) then spec_pick N size st tries else Ok (Some v, st)
  end.

(** What is tested: no limb above the highest that is used. *)
Definition testable (X : mpi) : Prop :=
  wf X /\ s X = 1 /\ 2 < val X /\ Z.odd (val X) = true /\ radix ^ Z.of_nat (n X - 1) <= val X /\ bits (val X) <= MBEDTLS_MPI_MAX_BITS.

Lemma testable_size X : testable X -> (1 <= n X)%nat /\ Z.of_nat (n X) <= 128 /\ biL * Z.of_nat (n X - 1) + 1 <= bits (val X - 1) <= biL * Z.of_nat (n X).
Proof.
  intros (W & _ & H2 & Ho & Ht & Hb). pose proof (pos_limbs X W ltac:(lia)) as H1. pose proof (wf_mag X W) as R. rewrite val_nonneg in R by (done || lia).
  rewrite radix_pow_bits in Ht, R. assert (Hw : 2 ^ (biL * Z.of_nat (n X - 1)) <= val X - 1).
  { destruct (Nat.eq_dec (n X) 1%nat) as [E|E]; [rewrite E; change (2 ^ (biL * Z.of_nat (1 - 1))) with 1; lia|]. enough (val X <> 2 ^ (biL * Z.of_nat (n X - 1))) by lia. intros E1. rewrite E1, Z.odd_pow in Ho by (unfold biL; lia). done. }
  assert (L : biL * Z.of_nat (n X - 1) < bits (val X - 1)).
  { apply Z.nle_gt. intros Hle. apply bits_le in Hle; [lia|lia|unfold biL; lia]. }
  assert (U : bits (val X - 1) <= biL * Z.of_nat (n X)) by (apply bits_le; [lia|unfold biL; lia|lia]).
  split; [done|]. split; [|lia]. pose proof (bits_mono (val X - 1) (val X) ltac:(lia)). unfold MBEDTLS_MPI_MAX_BITS, biL in *. lia.
Qed.

Lemma chars_of_limbs k : CHARS_TO_LIMBS (k * ciL) = k.
Proof. pose proof (chars_to_limbs_spec (k * ciL)). unfold ciL in *. lia. Qed.

Lemma pick_ok X W : testable X -> wf W -> val W = val X - 1 -> forall tries A st,
  match spec_pick (val X) (n X * ciL) st tries with
  | Ok (v, st') => exists A', pick f_rng X W A st tries = Ok (A', st') /\
      match v, A' with
      | Some v, Some A' => wf A' /\ s A' = 1 /\ val A' = v /\ 1 < v < val X - 1 /\ n A' = n X
      | None, None => True
      | _, _ => False
      end
  | Err e => pick f_rng X W A st tries = Err e
  end.
Proof.
  intros HX WW VW. destruct (testable_size X HX) as (N1 & N2 & N3). pose proof HX as (WX & _ & H2 & _).
  induction tries as [|tries IH]; intros A st; cbn [pick spec_pick];
    (pose proof (fill_random_spec A (n X * ciL) st ltac:(unfold ciL; lia) ltac:(rewrite chars_of_limbs; unfold MBEDTLS_MPI_MAX_LIMBS; lia)) as F;
     rewrite chars_of_limbs in F; destruct (f_rng st (n X * ciL)) as [[buf st1]|e]; [|by rewrite F]; destruct F as (A1 & -> & W1 & S1 & L1 & M1); cbn [mbind result_bind]).
  - by exists None.
  - set (A2 := if mbedtls_mpi_bitlen W <? mbedtls_mpi_bitlen A1 then mask_top A1 (mbedtls_mpi_bitlen W) else A1).
    assert (H : wf A2 /\ s A2 = 1 /\ n A2 = n X /\ val A2 = candidate (val X) buf).
    { unfold A2, candidate. cbv zeta. rewrite !bitlen_ok, M1, (val_nonneg W WW), VW by (done || lia). destruct (bits (val X - 1) <? bits (be_val buf)).
      - destruct (mask_top_ok A1 (bits (val X - 1)) W1 S1 ltac:(lia)) as (B1 & B2 & B3 & B4); [rewrite L1; lia|]. split_and!; try done; [lia|]. unfold val at 1. rewrite B2, B4, M1. lia.
      - split_and!; try done. unfold val. rewrite S1, M1. lia. }
    destruct H as (B1 & B2 & B3 & B4). rewrite cmp_mpi_ok, cmp_int_ok, VW, B4 by (done || lia).
    assert (Eb : (0 <=? Z.sgn (candidate (val X) buf - (val X - 1))) || (Z.sgn (candidate (val X) buf - 1) <=? 0) = (val X - 1 <=? candidate (val X) buf) || (candidate (val X) buf <=? 1)).
    { f_equal; apply eq_bool_prop_intro; rewrite !Is_true_true, !Z.leb_le; lia. }
    rewrite Eb. destruct ((val X - 1 <=? _) || _) eqn:E; [apply IH|]. to_prop. exists (Some A2). split; [done|]. split_and!; done || lia.
Qed.

(** ** The rounds *)

Lemma meets_S N a k : meets N a (Datatypes.S k) = (a mod N =? N - 1) || meets N ((a * a) mod N) k.
Proof. done. Qed.

Lemma meets_one N k : 2 < N -> meets N 1 k = false.
Proof. intros H. induction k as [|k IH]; [done|]. cbn [meets]. rewrite Z.mul_1_l, !Z.mod_small by lia. rewrite IH. by rewrite (proj2 (Z.eqb_neq _ _)) by lia. Qed.

Lemma cmp_equal A B : wf A -> wf B -> (mbedtls_mpi_cmp_mpi A B =? 0) = (val A =? val B).
Proof. intros WA WB. rewrite cmp_mpi_ok by done. destruct (Z.eqb_spec (val A) (val B)), (Z.eqb_spec (Z.sgn (val A - val B)) 0); done || lia. Qed.

Lemma cmp_equal_int A b : wf A -> - 2 ^ 63 <= b < 2 ^ 63 -> (mbedtls_mpi_cmp_int A b =? 0) = (val A =? b).
Proof. intros WA Hb. rewrite cmp_int_ok by done. destruct (Z.eqb_spec (val A) b), (Z.eqb_spec (Z.sgn (val A - b)) 0); done || lia. Qed.

(** The scratch numbers of a round. *)
Definition small_mpi (X A : mpi) (c : nat) : Prop := wf A /\ (n A <= c * (n X + 1))%nat.

Lemma mr_squares_ok X W : testable X -> wf W -> val W = val X - 1 -> forall k A T, small_mpi X A 1 -> small_mpi X T 2 -> 0 <= val A < val X ->
  exists A' T', mr_squares X W A T k = Ok (A', T') /\ small_mpi X A' 1 /\ small_mpi X T' 2 /\
    negb (val A' =? val X - 1) || (val A' =? 1) = negb (meets (val X) (val A) (Datatypes.S k)).
Proof.
  intros HX WW VW. destruct (testable_size X HX) as (N1 & N2 & N3). pose proof HX as (WX & _ & H2 & _).
  induction k as [|k IH]; intros A T [WA NA'] [WT NT] HA; cbn [mr_squares].
  - exists A, T. cbn [meets]. rewrite orb_false_r, Z.mod_small by lia. split_and!; try done. destruct (Z.eqb_spec (val A) (val X - 1)), (Z.eqb_spec (val A) 1); done || lia.
  - rewrite cmp_equal, VW by done. rewrite (Z.eqb_sym (val A)). rewrite (meets_S _ _ (Datatypes.S k)). rewrite (Z.mod_small (val A)) by lia.
    rewrite (Z.eqb_sym (val A) (val X - 1)). destruct (Z.eqb_spec (val X - 1) (val A)) as [E|E]; cbn [negb orb].
    + exists A, T. split_and!; try done. rewrite <- E. rewrite Z.eqb_refl. by rewrite (proj2 (Z.eqb_neq (val X - 1) 1)) by lia.
    + assert (Sg : (sig (p A) <= n X)%nat) by (apply sig_le_iff; [apply WA|]; rewrite val_nonneg by (done || lia); pose proof (wf_mag X WX) as R; rewrite val_nonneg in R by (done || lia); lia).
      destruct (mul_mpi_ok T A A (2 * n X)%nat WT WA WA) as (T' & -> & WT' & VT & NT'); [lia|lia|unfold MBEDTLS_MPI_MAX_LIMBS; lia|]. cbn [mbind result_bind].
      destruct (mod_mpi_ok A T' X (Datatypes.S (n X)) WA WT' WX) as (A' & -> & WA' & VA & NA2); [lia|lia|lia|unfold MBEDTLS_MPI_MAX_LIMBS; lia|unfold MBEDTLS_MPI_MAX_LIMBS; lia|].
      cbn [mbind result_bind]. rewrite cmp_equal_int by (done || lia). rewrite VT in VA. destruct (Z.eqb_spec (val A') 1) as [E1|E1].
      * exists A', T'. rewrite <- VA, E1, meets_one by lia. split; [done|]. split; [split; [done|lia]|]. split; [split; [done|lia]|]. by rewrite orb_true_r.
      * rewrite <- VA. apply IH; [split; [done|lia]|split; [done|lia]|rewrite VA; apply Z.mod_pos_bound; lia].
Qed.

(** [w = without_twos w * 2 ^ twos w] *)
Definition twos (w : Z) : nat := Z.to_nat (Z.log2 (Z.gcd w (2 ^ bits w))).
Definition without_twos (w : Z) : Z := w / 2 ^ Z.of_nat (twos w).

Lemma twos_ok s q : 0 <= s -> 0 < q -> Z.odd q = true -> twos (2 ^ s * q) = Z.to_nat s /\ without_twos (2 ^ s * q) = q.
Proof.
  intros Hs Hq Ho. assert (P : 0 < 2 ^ s) by (apply Z.pow_pos_nonneg; lia). set (w := 2 ^ s * q). set (B := bits w).
  assert (HB : s <= B).
  { assert (w < 2 ^ B) by (apply bits_le; [unfold w; nia|apply bits_nonneg|unfold B; lia]). apply Z.lt_le_incl, (Z.pow_lt_mono_r_iff 2); [lia|apply bits_nonneg|]. unfold w in *. nia. }
  assert (T : twos w = Z.to_nat s).
  { unfold twos. fold B. f_equal. replace (2 ^ B) with (2 ^ s * 2 ^ (B - s)) by (rewrite <- Z.pow_add_r by lia; f_equal; lia).
    unfold w. rewrite Z.gcd_mul_mono_l_nonneg by lia. assert (C : Z.gcd q (2 ^ (B - s)) = 1).
    { rewrite Z.gcd_comm, <- (Z.mul_1_r (2 ^ (B - s))), gcd_pow2 by (lia || done). apply Z.gcd_1_l. }
    rewrite C, Z.mul_1_r. by apply Z.log2_pow2. }
  split; [done|]. unfold without_twos. rewrite T, Z2Nat.id by lia. unfold w. rewrite Z.mul_comm. apply Z.div_mul. lia.
Qed.



(** The specification of the rounds. *)
Fixpoint spec_rounds (N r : Z) (s size : nat) (st : S) (rounds : nat) : result (Z * S) :=
  match rounds with
  | O => Ok (0, st)
  | Datatypes.S rounds =>
      '(a, st) ← spec_pick N size st 31;
      match a with
      | None => Ok (NA, st)
      | Some a => if strong_probable_prime N r s a then spec_rounds N r s size st rounds else Ok (NA, st)
      end
  end.

Lemma mr_rounds_ok X W R r s : testable X -> wf W -> val W = val X - 1 -> wf R -> val R = r -> 0 < r -> bits r <= MBEDTLS_MPI_MAX_BITS -> (1 <= s)%nat ->
  forall rounds A T RR st, small_mpi X A 1 -> small_mpi X T 2 -> prec_ok X RR ->
  mr_rounds f_rng X W R s A T RR st rounds = spec_rounds (val X) r s (n X * ciL) st rounds.
Proof.
  intros HX WW VW WR VR Hr Br Hs. destruct (testable_size X HX) as (N1 & N2 & N3). pose proof HX as (WX & _ & H2 & Ho & _ & HB).
  induction rounds as [|rounds IH]; intros A T RR st SA ST HP; cbn [mr_rounds spec_rounds]; [done|].
  pose proof (pick_ok X W HX WW VW 31 A st) as P. destruct (spec_pick (val X) (n X * ciL) st 31) as [[v st']|e]; [|by rewrite P].
  destruct P as (A' & -> & P). cbn [mbind result_bind]. destruct v as [v|], A' as [A'|]; try done. destruct P as (WA & S1 & VA & HA & NA').
  destruct (exp_mod_ok A' A' R X RR) as (A2 & RR' & -> & WA2 & VA2 & HP' & NA2); try done; [lia|lia|by rewrite VR|unfold MBEDTLS_MPI_MAX_LIMBS; lia|unfold MBEDTLS_MPI_MAX_LIMBS; lia|].
  cbn [mbind result_bind]. unfold exp_mod_value in VA2. rewrite S1 in VA2. change (1 =? -1) with false in VA2. cbn [andb] in VA2. rewrite VA, VR in VA2.
  pose proof (Z.mod_pos_bound (v ^ r) (val X) ltac:(lia)) as Rb. rewrite <- VA2 in Rb. unfold strong_probable_prime. rewrite <- VA2.
  rewrite cmp_equal, cmp_equal_int, VW by (done || lia). destruct s as [|s]; [lia|]. rewrite meets_S, (Z.mod_small (val A2)) by lia.
  destruct (Z.eqb_spec (val A2) (val X - 1)) as [E|E]; cbn [orb]; [rewrite orb_true_r; apply IH; try done; split; [done|lia]|].
  destruct (Z.eqb_spec (val A2) 1) as [E1|E1]; cbn [orb]; [apply IH; try done; split; [done|lia]|]. 
  destruct (mr_squares_ok X W HX WW VW s A2 T) as (A3 & T3 & Q & SA3 & ST3 & D); [split; [done|lia]|done|lia|].
  rewrite Nat.sub_1_r. cbn [Nat.pred]. rewrite Q. cbn [mbind result_bind]. rewrite cmp_equal, cmp_equal_int, VW, D by (lia || apply SA3 || done).
  rewrite meets_S, (Z.mod_small (val A2)), (proj2 (Z.eqb_neq (val A2) (val X - 1))) by (done || lia). cbn [orb].
  destruct (meets (val X) _ s); cbn [negb]; [by apply IH|done].
Qed.

Lemma miller_rabin_ok X : testable X ->
  forall rounds st, mpi_miller_rabin f_rng X rounds st = spec_rounds (val X) (without_twos (val X - 1)) (twos (val X - 1)) (n X * ciL) st rounds.
Proof.
  intros HX rounds st. destruct (testable_size X HX) as (N1 & N2 & N3). pose proof HX as (WX & _ & H2 & Ho & _ & HB). unfold mpi_miller_rabin.
  destruct (int_ok 1 ltac:(lia)) as (W1 & V1 & L1). pose proof (wf_mag X WX) as R. rewrite val_nonneg in R by (done || lia).
  destruct (sub_mpi_ok mbedtls_mpi_init X (mpi_of_int 1) (n X + 1) wf_init WX W1) as (W & E & WW & VW & NW); [|lia|lia|lia|unfold MBEDTLS_MPI_MAX_LIMBS; lia|].
  { rewrite V1, radix_pow_add. pose proof (radix_pow_pos (n X)). change (radix ^ Z.of_nat 1) with radix. assert (2 <= radix) by (unfold radix; lia). nia. }
  unfold mbedtls_mpi_sub_int. rewrite E. rewrite V1 in VW. cbn [mbind result_bind].
  destruct (lsb_ok W WW ltac:(lia)) as (L0 & r & Er & Hr & Or). rewrite (val_nonneg W WW), VW in Er by lia. set (s := mbedtls_mpi_lsb W) in *.
  assert (Ls : 1 <= s). { destruct (Z.eq_dec s 0) as [Es|]; [|lia]. rewrite Es, Z.pow_0_r, Z.mul_1_l in Er. rewrite <- Er, Z.odd_sub, Ho in Or. done. }
  assert (Hfit : (limbs_needed (val W) <= n X)%nat) by (apply limbs_needed_le; [lia|]; rewrite VW; lia).
  destruct (copy_val mbedtls_mpi_init W wf_init WW) as (R0 & E0 & WR0 & VR0 & NR0 & _); [unfold MBEDTLS_MPI_MAX_LIMBS; lia|].
  destruct (shift_r_val R0 s WR0) as (R1 & E1 & WR1 & VR1 & NR1); [lia|lia|].
  assert (P : 0 < 2 ^ s) by (apply Z.pow_pos_nonneg; lia).
  assert (VR : val R1 = r) by (rewrite VR1, VR0, VW, Er, Z.mul_comm; apply Z.div_mul; lia).
  destruct (twos_ok s r L0 Hr Or) as [T1 T2]. rewrite <- Er in T1, T2. rewrite T1, T2. rewrite E0. cbn [mbind result_bind]. rewrite E1. cbn [mbind result_bind].
  apply (mr_rounds_ok X W R1 r); try done; [|lia|split; [apply wf_init|cbn; lia]|split; [apply wf_init|cbn; lia]|by left].
  apply Z.le_trans with (bits (val X)); [|done]. apply bits_mono. nia.
Qed.

(** ** The test *)

(** Trial division up to 997, then the rounds. *)
Definition spec_is_prime (v : Z) (size rounds : nat) (st : S) : result (Z * S) :=
  if v <=? 997 then Ok (if is_primeb v then 0 else NA, st)
  else if has_small_factor v then Ok (NA, st)
  else spec_rounds v (without_twos (v - 1)) (twos (v - 1)) size st rounds.

(** No limb above the highest that is used, where the rounds can be reached. *)
Definition tight (X : mpi) : Prop := 997 < Z.abs (val X) -> radix ^ Z.of_nat (n X - 1) <= Z.abs (val X).

Lemma no_factor_odd v : has_small_factor v = false -> Z.odd v = true.
Proof. unfold has_small_factor. intros [E _]%orb_false_iff. rewrite <- Z.negb_odd in E. by apply negb_false_iff in E. Qed.

Lemma is_prime_ok X rounds st : wf X -> tight X -> bits (Z.abs (val X)) <= MBEDTLS_MPI_MAX_BITS ->
  mbedtls_mpi_is_prime_ext f_rng X rounds st = spec_is_prime (Z.abs (val X)) (n X * ciL) rounds st.
Proof.
  intros W HT HB. set (XX := mkMpi 1 (p X)). assert (WX : wf XX) by (split; [by left|apply W]).
  assert (VX : val XX = Z.abs (val X)) by (rewrite val_abs by done; unfold val, XX; cbn [s p]; lia).
  unfold mbedtls_mpi_is_prime_ext. fold XX. unfold spec_is_prime. unfold tight in HT.
  rewrite !cmp_equal_int, VX by (done || lia). pose proof (Z.abs_nonneg (val X)) as A0. set (v := Z.abs (val X)) in *.
  destruct (Z.eqb_spec v 0) as [->|H0]; [done|]. destruct (Z.eqb_spec v 1) as [->|H1]; [done|]. destruct (Z.eqb_spec v 2) as [->|H2]; [done|]. cbn [orb].
  destruct (Z.leb_spec v 997) as [H9|H9].
  - rewrite check_small_ok, VX by (done || lia). destruct (Z.even v) eqn:Ev.
    + assert (is_primeb v = false) as ->; [|done]. apply not_true_iff_false. intros [_ Hp]%is_primeb_ok; [|lia]. apply Z.even_spec in Ev as [q Hq]. apply (Hp 2); [lia|]. exists q. lia.
    + rewrite small_scan_below by (done || lia). by destruct (is_primeb v).
  - rewrite check_small_above, VX by (done || lia). destruct (has_small_factor v) eqn:Es; [done|]. cbn [Z.eqb negb]. rewrite miller_rabin_ok, VX; [done|].
    unfold testable. rewrite VX. split_and!; try done; [lia|by apply no_factor_odd|by apply HT].
Qed.




(** ** Generation *)

Lemma lor_1 a : 0 <= a -> Z.lor a 1 = a + (1 - a mod 2).
Proof.
  intros Ha. rewrite <- Z.bit0_mod. destruct a as [|[q|q|]|]; cbn; try lia; done.
Qed.

Lemma or_low_ok X : wf X -> (1 <= n X)%nat -> wf (or_low 1 X) /\ s (or_low 1 X) = s X /\ n (or_low 1 X) = n X /\ mag (p (or_low 1 X)) = Z.lor (mag (p X)) 1.
Proof.
  intros [HS HL] Hn. unfold or_low. pose proof (limbs_nth (p X) 0 HL) as Hx. pose proof (Z.mod_pos_bound (nth 0 (p X) 0) 2 ltac:(lia)).
  assert (E2 : radix mod 2 = 0) by reflexivity. assert (Lx : Z.lor (nth 0 (p X) 0) 1 < radix).
  { apply (lor_range 64 (nth 0 (p X) 0) 1); unfold radix in *; lia. }
  split; [split; [exact HS|]; cbn [p]; apply limbs_insert; [done|]; split; [apply Z.lor_nonneg; lia|exact Lx]|]. split; [done|]. split; [unfold n; cbn [p]; apply length_insert|].
  cbn [p]. unfold n in Hn. rewrite mag_insert by lia. rewrite !lor_1 by (lia || by apply mag_nonneg). change (radix ^ Z.of_nat 0) with 1.
  assert (Em : mag (p X) mod 2 = nth 0 (p X) 0 mod 2); [|lia]. destruct (p X) as [|x l]; [done|]. cbn [mag nth]. rewrite <- Z.add_mod_idemp_r, <- Z.mul_mod_idemp_l, E2 by lia.
  rewrite Z.mul_0_l. change (0 mod 2) with 0. by rewrite Z.add_0_r.
Qed.

(** The candidate of [nbits] bits: the leading bits of the bytes drawn, made odd. *)
Definition gen_candidate (nbits : Z) (buf : bytes) : Z := Z.lor (be_val buf / 2 ^ (biL * Z.of_nat (BITS_TO_LIMBS nbits) - nbits)) 1.

Fixpoint spec_gen (nbits flags : Z) (st : S) (fuel : nat) : result (Z * Z * S) :=
  match fuel with
  | O => Err MBEDTLS_ERR_ERROR_CORRUPTION_DETECTED
  | Datatypes.S fuel =>
      let k := BITS_TO_LIMBS nbits in
      '(buf, st) ← f_rng st (k * ciL);
      if be_val buf / radix ^ Z.of_nat (k - 1) <? CEIL_MAXUINT_DIV_SQRT2 then spec_gen nbits flags st fuel
      else
        '(ret, st) ← spec_is_prime (gen_candidate nbits buf) (k * ciL) (gen_rounds nbits flags) st;
        if negb (ret =? NA) then Ok (ret, gen_candidate nbits buf, st) else spec_gen nbits flags st fuel
  end.

(** What every number that is tested is. *)
Definition generated (nbits v : Z) : Prop :=
  bits v = nbits /\ Z.odd v = true /\ (64 <= nbits -> 2 ^ (2 * nbits - 1) <= v ^ 2).

Lemma gen_candidate_ok nbits buf : 3 <= nbits -> bytes_ok buf -> length buf = (BITS_TO_LIMBS nbits * ciL)%nat ->
  CEIL_MAXUINT_DIV_SQRT2 <= be_val buf / radix ^ Z.of_nat (BITS_TO_LIMBS nbits - 1) -> generated nbits (gen_candidate nbits buf).
Proof.
  intros Hb Hbuf Hlen Hc. unfold generated, gen_candidate. set (k := BITS_TO_LIMBS nbits) in *. set (c := CEIL_MAXUINT_DIV_SQRT2) in *.
  assert (Hk : biL * Z.of_nat (k - 1) < nbits <= biL * Z.of_nat k).
  { split; [apply Z.nle_gt; intros H%bits_to_limbs_le; [fold k in H|lia]|apply bits_to_limbs_le; [lia|done]].
    assert (1 <= k)%nat; [|lia]. destruct k as [|k0] eqn:Ek; [|lia]. assert (nbits <= biL * Z.of_nat 0) by (apply bits_to_limbs_le; [lia|unfold k in Ek; lia]). unfold biL in *. lia. }
  pose proof (be_val_range buf Hbuf) as R. rewrite Hlen, <- radix_pow_256, radix_pow_bits in R. set (sh := biL * Z.of_nat k - nbits).
  assert (Hsh : 0 <= sh < biL) by (unfold sh, biL in *; lia). assert (Psh : 0 < 2 ^ sh) by (apply Z.pow_pos_nonneg; lia).
  set (b := be_val buf) in *. assert (Hlow : c * 2 ^ (biL * Z.of_nat (k - 1)) <= b).
  { rewrite radix_pow_bits in Hc. assert (P : 0 < 2 ^ (biL * Z.of_nat (k - 1))) by (apply Z.pow_pos_nonneg; unfold biL; lia). pose proof (Z.mul_div_le b _ P). nia. }
  assert (Hc63 : 2 ^ 63 <= c) by (vm_compute; discriminate). assert (Hc2 : 2 ^ 127 <= c * c) by (vm_compute; discriminate).
  set (q := b / 2 ^ sh). assert (Hq1 : 2 ^ (nbits - 1) <= q).
  { apply Z.div_le_lower_bound; [done|]. rewrite <- Z.pow_add_r by lia. apply Z.le_trans with (2 ^ 63 * 2 ^ (biL * Z.of_nat (k - 1))); [|nia].
    rewrite <- Z.pow_add_r by (unfold biL; lia). apply Z.pow_le_mono_r; [lia|]. unfold sh, biL in *. lia. }
  assert (Hq2 : q < 2 ^ nbits).
  { apply Z.div_lt_upper_bound; [done|]. rewrite <- Z.pow_add_r by lia. replace (sh + nbits) with (biL * Z.of_nat k) by (unfold sh; lia). lia. }
  assert (Hq0 : 0 <= q) by (apply Z.div_pos; lia). assert (Hv : q <= Z.lor q 1 < 2 ^ nbits).
  { split; [rewrite lor_1 by done; pose proof (Z.mod_pos_bound q 2 ltac:(lia)); lia|]. apply (lor_range nbits q 1); [lia|lia|]. split; [lia|apply Z.pow_gt_1; lia]. }
  split; [|split].
  - apply Z.le_antisymm; [apply bits_le; lia|]. apply Z.nlt_ge. intros H. assert (Z.lor q 1 < 2 ^ (nbits - 1)) by (apply bits_le; lia). lia.
  - rewrite <- Z.bit0_odd, Z.lor_spec. by rewrite orb_true_r.
  - intros H64. assert (Hq3 : c * 2 ^ (nbits - 64) <= q).
    { apply Z.div_le_lower_bound; [done|]. replace (2 ^ sh * (c * 2 ^ (nbits - 64))) with (c * (2 ^ sh * 2 ^ (nbits - 64))) by ring.
      rewrite <- Z.pow_add_r by lia. replace (sh + (nbits - 64)) with (biL * Z.of_nat (k - 1)); [done|]. unfold sh, biL in *. lia. }
    rewrite Z.pow_2_r. replace (2 * nbits - 1) with (127 + (nbits - 64) + (nbits - 64)) by lia. rewrite !Z.pow_add_r by lia.
    assert (P64 : 0 < 2 ^ (nbits - 64)) by (apply Z.pow_pos_nonneg; lia). set (t := 2 ^ (nbits - 64)) in *. clear - Hc2 Hv Hq3 P64 Hc63.
    apply Z.le_trans with ((c * t) * (c * t)); [|apply Z.mul_le_mono_nonneg; lia]. replace (c * t * (c * t)) with (c * c * (t * t)) by ring.
    rewrite <- Z.mul_assoc. apply Z.mul_le_mono_nonneg_r; [nia|exact Hc2].
Qed.

Lemma limbs_of_bits nbits : 3 <= nbits <= MBEDTLS_MPI_MAX_BITS -> let k := BITS_TO_LIMBS nbits in
  (1 <= k <= 128)%nat /\ biL * Z.of_nat (k - 1) < nbits <= biL * Z.of_nat k.
Proof.
  intros Hb k. assert (U : nbits <= biL * Z.of_nat k) by (apply bits_to_limbs_le; [lia|done]).
  assert (L : (k <= 128)%nat) by (apply bits_to_limbs_le; [lia|unfold MBEDTLS_MPI_MAX_BITS, biL in *; lia]).
  assert (K : (1 <= k)%nat) by (unfold biL in *; lia). split; [lia|]. split; [|done]. apply Z.nle_gt. intros H%bits_to_limbs_le; [fold k in H|]; lia.
Qed.

Lemma gen_loop_ok nbits flags : 3 <= nbits <= MBEDTLS_MPI_MAX_BITS -> Z.land flags MBEDTLS_MPI_GEN_PRIME_FLAG_DH = 0 -> forall fuel X st,
  match spec_gen nbits flags st fuel with
  | Ok (ret, v, st') => exists X', gen_loop f_rng X nbits flags st fuel = Ok (ret, X', st') /\ wf X' /\ val X' = v /\ generated nbits v
  | Err e => gen_loop f_rng X nbits flags st fuel = Err e
  end.
Proof.
  intros Hb Hf. destruct (limbs_of_bits nbits Hb) as [K1 K2]. set (k := BITS_TO_LIMBS nbits) in *.
  induction fuel as [|fuel IH]; intros X st; cbn [spec_gen gen_loop]; [done|]. fold k.
  pose proof (fill_random_spec X (k * ciL) st ltac:(unfold ciL; lia) ltac:(rewrite chars_of_limbs; unfold MBEDTLS_MPI_MAX_LIMBS; lia)) as F. rewrite chars_of_limbs in F.
  destruct (f_rng st (k * ciL)) as [[buf st1]|e] eqn:Er; [|by rewrite F]. destruct F as (X1 & -> & W1 & S1 & L1 & M1). cbn [mbind result_bind].
  destruct (Hrng _ _ _ _ Er) as [Lb Bb]. assert (Et : nth (k - 1) (p X1) 0 = be_val buf / radix ^ Z.of_nat (k - 1)).
  { rewrite <- M1, mag_div by (apply W1 || (unfold n in L1; lia)). rewrite drop_nth by (unfold n in L1; lia). rewrite (drop_ge (p X1)) by (unfold n in L1; lia). cbn [mag]. lia. }
  rewrite Et. destruct (Z.ltb_spec (be_val buf / radix ^ Z.of_nat (k - 1)) CEIL_MAXUINT_DIV_SQRT2) as [Hlt|Hge]; [apply IH|].
  pose proof (gen_candidate_ok nbits buf ltac:(lia) Bb Lb Hge) as G. set (v := gen_candidate nbits buf) in *.
  assert (E : exists X2, (if nbits <? Z.of_nat k * biL then mbedtls_mpi_shift_r X1 (Z.of_nat k * biL - nbits) else Ok X1) = Ok X2 /\ wf X2 /\ s X2 = 1 /\ n X2 = k /\ Z.lor (mag (p X2)) 1 = v).
  { unfold v, gen_candidate. fold k. rewrite (Z.mul_comm (Z.of_nat k)). destruct (Z.ltb_spec nbits (biL * Z.of_nat k)) as [H|H].
    - destruct (shift_r_ok X1 (biL * Z.of_nat k - nbits) W1 ltac:(lia)) as (X2 & E2 & W2 & M2 & _ & N2). exists X2. rewrite M2, M1. split; [done|]. split; [done|].
      split; [by apply (shift_r_sign X1 (biL * Z.of_nat k - nbits))|]. split; [lia|done].
    - exists X1. replace (biL * Z.of_nat k - nbits) with 0 by lia. rewrite Z.pow_0_r, Z.div_1_r, M1. by split_and!. }
  destruct E as (X2 & -> & W2 & S2 & L2 & V2). cbn [mbind result_bind]. destruct (or_low_ok X2 W2 ltac:(lia)) as (W3 & S3 & L3 & M3). rewrite V2 in M3.
  set (X3 := or_low 1 X2) in *. rewrite Hf. cbn [Z.eqb]. assert (V3 : val X3 = v) by (unfold val; rewrite S3, S2, M3; lia).
  destruct G as (G1 & G2 & G3). assert (Hv : 0 < v) by (unfold bits in G1; destruct (Z.eqb_spec v 0); [lia|]; pose proof (wf_mag X3 W3); lia).
  rewrite is_prime_ok; [|done| |].
  - rewrite V3, L3, L2, Z.abs_eq by lia. fold v. destruct (spec_is_prime v (k * ciL) (gen_rounds nbits flags) st1) as [[ret st2]|e]; [|done]. cbn [mbind result_bind].
    destruct (ret =? NA); cbn [negb]; [apply IH|]. exists X3. split; [done|]. split; [done|]. split; [done|]. done.
  - unfold tight. rewrite V3, Z.abs_eq, L3, L2 by lia. intros _. rewrite radix_pow_bits. pose proof (bits_lower v Hv). rewrite G1 in *.
    apply Z.le_trans with (2 ^ (nbits - 1)); [apply Z.pow_le_mono_r; lia|done].
  - rewrite V3, Z.abs_eq, G1 by lia. lia.
Qed.

End TestProofs.

(** C17. The primality test is trial division up to 997 followed by the rounds of
    Miller and Rabin for the bases the generator gives: on every number, sign and
    generator it returns the verdict of the specification and leaves the generator
    in the same state. *)
Theorem primality_test_correct {S} (f_rng : S -> nat -> result (bytes * S)) X rounds st : rng_fills f_rng -> wf X -> tight X -> bits (Z.abs (val X)) <= MBEDTLS_MPI_MAX_BITS ->
  mbedtls_mpi_is_prime_ext f_rng X rounds st = spec_is_prime f_rng (Z.abs (val X)) (n X * ciL) rounds st.
Proof. intros HR W HT HB. by apply is_prime_ok. Qed.


(** A generator that always gives the same number. *)
Definition constant_rng (v : Z) (st : unit) (k : nat) : result (bytes * unit) := Ok (be_bytes k v, st).

Lemma constant_fills v : rng_fills (constant_rng v).
Proof. intros st k buf st' [= <- _]. split; [apply be_bytes_length|apply be_bytes_ok]. Qed.

Lemma primality_test_correct_witness : mbedtls_mpi_is_prime_ext (constant_rng 5) (mpi_of_int (-1022117)) 3 tt = spec_is_prime (constant_rng 5) 1022117 8 3 tt.
Proof.
  destruct (int_ok (-1022117) ltac:(lia)) as (W & V & _).
  assert (HB : bits (Z.abs (val (mpi_of_int (-1022117)))) <= MBEDTLS_MPI_MAX_BITS) by (rewrite V; vm_compute; discriminate).
  pose proof (primality_test_correct (constant_rng 5) (mpi_of_int (-1022117)) 3 tt (constant_fills 5) W ltac:(unfold tight; rewrite V; intros _; vm_compute; discriminate) HB) as E.
  rewrite V in E. exact E.
Defined.


(** C29. The numbers generated, without the flag for safe primes, have exactly the
    size asked for, are odd, and from 64 bits on are at least the square root of
    one half below the power of two; the code and the number are those of the
    specification for every generator and number of attempts, and sizes below 3 or
    above 8192 bits are refused. *)
Theorem gen_prime_correct {S} (f_rng : S -> nat -> result (bytes * S)) X nbits flags st fuel : rng_fills f_rng -> Z.land flags MBEDTLS_MPI_GEN_PRIME_FLAG_DH = 0 ->
  if (3 <=? nbits) && (nbits <=? MBEDTLS_MPI_MAX_BITS) then
    match spec_gen f_rng nbits flags st fuel with
    | Ok (ret, v, st') => exists X', mbedtls_mpi_gen_prime f_rng X nbits flags st fuel = Ok (ret, X', st') /\ wf X' /\ val X' = v /\ generated nbits v
    | Err e => mbedtls_mpi_gen_prime f_rng X nbits flags st fuel = Err e
    end
  else mbedtls_mpi_gen_prime f_rng X nbits flags st fuel = Err MBEDTLS_ERR_MPI_BAD_INPUT_DATA.
Proof.
  intros HR Hf. unfold mbedtls_mpi_gen_prime. destruct ((3 <=? nbits) && (nbits <=? MBEDTLS_MPI_MAX_BITS)) eqn:E.
  - to_prop. rewrite (proj2 (Z.ltb_ge nbits 3)), (proj2 (Z.ltb_ge MBEDTLS_MPI_MAX_BITS nbits)) by lia. cbn [orb]. by apply gen_loop_ok.
  - assert (E2 : (nbits <? 3) || (MBEDTLS_MPI_MAX_BITS <? nbits) = true); [|by rewrite E2]. rewrite !Z.ltb_antisym, <- negb_andb, E. done.
Qed.

(** Eight bits, from a generator that always gives the same bytes. *)
Lemma gen_prime_correct_witness : exists X', mbedtls_mpi_gen_prime (constant_rng (250 * 2 ^ 56)) mbedtls_mpi_init 8 0 tt 1 = Ok (0, X', tt) /\ wf X' /\ val X' = 251 /\ generated 8 251.
Proof. exact (gen_prime_correct (constant_rng (250 * 2 ^ 56)) mbedtls_mpi_init 8 0 tt 1 (constant_fills _) eq_refl). Defined.

(** With the flag for safe primes a small number ends the search with the code 1
    of the table, and is longer than asked for. *)
Lemma small_safe_prime : mbedtls_mpi_gen_prime (constant_rng (2 ^ 64 - 1)) mbedtls_mpi_init 3 MBEDTLS_MPI_GEN_PRIME_FLAG_DH tt 2 = Ok (1, mpi_of_int 11, tt).
Proof. vm_compute. reflexivity. Qed.

End Prime.
